(* ===== verification/_CoqProject ===== *)
-Q . S2P
Prelude.v
Effects.v
F64.v
Text.v
Engine.v
Labels.v
Lifecycle.v
Unmanaged.v
DockerDf.v
Retention.v
Capacity.v
Owners.v
CiLimits.v
CiScheduler.v
Jobs.v
JobsInvariant.v
JobsPump.v
JobsSpec.v
JobsTheorems.v
JobsLogs.v
JobsStarted.v
JobRequests.v
JobLoop.v
JobLoopInvariant.v
JobLoopSpec.v
JobLoopTheorems.v
ManifestRecovery.v
ManifestConverge.v
Runners.v
GcTokens.v
Registry.v
RegistryRecords.v
RegistryInvariant.v
RegistryTheorems.v
GcApply.v
GcRegistry.v
RetentionAuthority.v
ManagedRetention.v
RetentionPass.v
IdleRetirement.v
Catalog.v
RegistryIdentity.v
UnmanagedApply.v
Wire.v
WireValidate.v
Replies.v
Dispatch.v
Client.v
Rpc.v
DispatchSafety.v
Frames.v
ActRecords.v
CacheHelpers.v
CiState.v
ActLifecycle.v
ActInvariant.v
ActTransitions.v
ActExample.v
ActTheorems.v
ActSources.v
Json.v
ActAdapter.v
ActCoverage.v
ActPlans.v
Glob.v
Dockerfile.v
Pruning.v
Manifest.v
ManifestSafety.v
Generation.v
GenerationIdentity.v
Resolver.v
ResolverSafety.v
Collector.v
Disk.v
CollectorSafety.v
CollectorRefines.v
