(* ===== verification/Prelude.v ===== *)
(** * A verification development for Bosn

    Bosn is a per-user daemon that runs development stacks and CI jobs in Docker. Its policy is
    pure Rust code: what a Docker object is and who owns it, what may be removed and when
    ([crates/bosn-core]), and which jobs run when ([crates/bosn-service]). This library models
    that code as executable functions and proves what it guarantees.

    ** The parts and their files

    - Prelude.v (this file), F64.v, Text.v: what the code uses of the Rust language and its
      standard library. Results with [let?], saturating and wrapping integers, durations in
      nanoseconds, stable [sort_by], ordered-map iteration over [gmap], entry updates; [f64] as
      IEEE binary64 values (the Standard Library's [SpecFloat]) with [total_cmp]; [str] as byte
      strings with trimming, splitting and number parsing.
    - Labels.v: [bosn-core/src/lib.rs] lines 47-266, the labels that prove ownership.
    - Lifecycle.v: [bosn-core/src/lib.rs] lines 268-586, leases, consumer signals, pressure,
      [evaluate] and the removal order.
    - Unmanaged.v: [bosn-core/src/unmanaged.rs], the census and the plan of objects Bosn does
      not own; DockerDf.v: [unmanaged/docker.rs], which turns [docker system df] rows into the
      observations they consume.
    - Retention.v: [bosn-core/src/retention.rs], [retention/eager.rs] and
      [retention/footprint.rs], the plan of what a pass removes among the objects Bosn owns.
    - Capacity.v: [bosn-service/src/capacity.rs], runner capacity from file and environment.
    - Owners.v: [bosn-service/src/owner.rs], the processes that own submitted work.
    - Jobs.v: [bosn-service/src/jobs.rs], the admission scheduler, all methods; it uses Owners.v.
      JobsInvariant.v states the invariant and that each internal step keeps it; JobsPump.v
      proves that finishing and pumping terminate and keep it; JobsSpec.v specifies the public
      methods and defines the step relation [jobs_step] and [reachable]; JobsTheorems.v and
      JobsLogs.v hold the scheduler's and the log's theorems.
    - JobsStarted.v: what every call does to the list of admitted jobs, for the actor.
    - JobRequests.v: [job_api.rs] and [job_support.rs], the typed requests, the digests that
      decide whether two submissions are one job, audit events and bounded log lines.
    - JobLoop.v: [job_loop.rs], the actor around the scheduler: one function per command and
      sweep, one iteration of the loop as [actor_step]. JobLoopInvariant.v, JobLoopSpec.v and
      JobLoopTheorems.v hold its invariant, the effect of each handler, and its theorems.
    - CiLimits.v: [ci/limits.rs]; CiScheduler.v: [ci/scheduler.rs], with the abstract FIFO
      scheduler it refines.
    - ManifestRecovery.v: [manifest_recovery.rs], the contracts that restart stacks with the
      daemon; ManifestConverge.v: the executor that brings the stacks of a manifest up.
    - Runners.v: [runners.rs], run records, cache leases and their locks over all daemons of
      the user.
    - Registry.v: the tables, queries and transactions of [bosn-registry] and the handlers of
      [registry_actor.rs]; RegistryRecords.v: [registry_records.rs], the compound writes.
      RegistryInvariant.v: well-formed tables and every write; RegistryTheorems.v.
    - Effects.v: programs over typed calls, run in an arbitrary environment ([run], [wp]).
      Engine.v: the Docker commands and how their output is read ([bosn-engine]).
    - GcTokens.v: the collection tokens of [diagnostics.rs]; GcApply.v: [gc_apply.rs] as
      programs; GcRegistry.v: the same programs with the registry's answers from Registry.v.
    - UnmanagedApply.v: [bosn-service/src/unmanaged.rs], the reads of a census and the pass that
      removes what it confirms.
    - RetentionAuthority.v: [managed_retention/authority.rs] and [registered.rs], what the
      tables prove of an object; ManagedRetention.v: [managed_retention.rs], the pass;
      RetentionPass.v: its theorems; IdleRetirement.v: [idle.rs], [report.rs] and the launcher of
      [bosn-setup/src/shell.rs], unattended maintenance.
    - Catalog.v: [managed_retention/catalog.rs], the machine's registries; RegistryIdentity.v:
      [service/registry_identity.rs] and the choice of [serve], which registry a daemon has.
    - Wire.v: the request envelope of [bosn-service/src/wire.rs], the messages of the protocol
      window and the error sentinels; WireValidate.v: [wire_validate.rs] and
      [diagnostics_validate.rs], which fields each operation takes; Replies.v: the reply envelope
      and its decoding; Dispatch.v: [dispatch.rs], the operation table, one program per arm;
      Client.v: the client's methods and how each reads its reply.
    - Rpc.v: a client method composed with the dispatcher, and the component call it stands for;
      DispatchSafety.v: what every effect of the dispatcher was licensed by; Frames.v: the framing
      of [wire.rs] and the connection handler around the dispatcher.
    - ActRecords.v and CacheHelpers.v: the persisted records of act engines and cache helpers
      ([bosn-registry/src/act.rs], [act/], [cache_helper.rs]) and their validation; CiState.v:
      [ci_state.rs], [ci_state/retention.rs] and [storage.rs], the tables that keep them, admission,
      the audit tail and retention; ActLifecycle.v: every write of a record. ActInvariant.v: well
      formed CI tables; ActTransitions.v: the step relation [ci_step] over all writes;
      ActTheorems.v and ActSources.v: what holds of every history; ActExample.v: concrete codecs
      and a sample history.
    - Json.v: the values of [serde_json], with ordered maps as lists of entries. ActAdapter.v:
      [bosn-core/src/act.rs] and the matrix tuples of [act_coverage.rs], the adapter document and
      the plan of an event; ActCoverage.v: the reconciliation of a plan with what ran; ActPlans.v:
      their theorems.
    - Glob.v: the pattern matcher of [bosn-generation/src/dockerfile.rs] with its reference
      relation; Dockerfile.v: the rest of that file and [walk_prune.rs], which files and images a
      build uses and which directories the walk skips; Pruning.v: skipping keeps the selection.
    - Manifest.v: [bosn-core/src/manifest.rs] and [manifest/modes.rs], from the TOML value to the
      typed manifest; ManifestSafety.v: what a manifest that parses promises.
    - Generation.v: [bosn-generation/src/lib.rs], the bytes that identify a build and the
      generations made of them; GenerationIdentity.v: equal generations are equal builds.
    - Collector.v: [collector.rs] and [default_ignore.rs], the walk, the limits and the reads that
      make a build context; Disk.v: a file system that does not change, as one environment of it;
      CollectorSafety.v: collecting ends and stays within the limits; CollectorRefines.v: on such a
      file system it gives the selection of the whole tree.
    - Resolver.v: [resolver.rs], Docker commands that resolve images; ResolverSafety.v: which
      commands those are and that their receipts make a generation.

    Observations flow one way: Docker rows become [ObservedArtifact]s (DockerDf,
    ManagedRetention), which the census and the plans classify (Unmanaged, Retention) by labels
    (Labels) and records (RetentionAuthority, Registry). The scheduler is driven by calls:
    [jobs_op] lists them, and [reachable] is the closure over any sequence of them from
    [with_policy] under any clocks. The actor drives the scheduler; its inputs are commands,
    timeouts, client deaths and registry answers, and executors are effects whose reports come
    back as commands. Collection and retention are programs that ask the registry, Docker, the
    clock and the file system, each answer chosen by an environment that sees the events so far.
    A client's call crosses the same kind of boundary: it is encoded as a [Request], framed, read,
    authenticated, validated and dispatched to a component, and its [Reply] is decoded again.

    ** How the code is modelled

    A struct is a record with prefixed fields, an enum an inductive type, a method a function on
    the state. [Result] is [result], [Option] is [option]. Code that can panic (an [unwrap], an
    index, an unsigned subtraction) returns [option] with [None] for the panic. A loop is a
    [foldl] or a fixpoint on its list; loops that do not follow a list take fuel: [next_queued]
    and the admission loop one more than the entries queued ([queue_weight]), the mutual
    recursion of [pump_at] and [finish_at] one more than the jobs recorded ([pump_fuel]).
    Running out of fuel is [None] as well, so the theorem that no call panics shows the fuel is
    always enough. [Instant::now] and [SystemTime::now] are arbitrary functions of how many
    times the clock was read, so no theorem assumes that time moves forward. BTreeMap and
    BTreeSet are [gmap] and [gset], iterated in key order. Job IDs, cursors and byte totals are
    unbounded integers except where the code saturates or wraps ([i128] totals, the [i64] day
    arithmetic, [u64] cursors), which is written out. Processes, [/proc], the file and the
    environment are parameters.

    A frame is read piece by piece with fuel two above the frame limit, which [read_frame_ends]
    shows to be enough whatever the peer sends; [read_frame_delivered] shows that the pieces do not
    matter. Page loops over a table take one page more than its rows, which is enough because every
    page but the last is full ([read_all_rows], [fetch_all_rows], [stack_sweep_is_complete]). The
    tables are [gmap]s by primary key with unique indexes and cascades written out; whether
    SQLite enforces foreign keys is a flag, and in Registry.v the CI state tables behind an event
    are a parameter. JSON printing and parsing, the row decoders of Docker documents, blake3 and the
    decimal text of an [f64] are parameters, with the round trip as a named hypothesis where a
    theorem needs it and an instance in its witness.

    ** What the theorems show

    - The scheduler (JobsTheorems.v): no call panics except one superseding submission, which is
      shown to; lanes stay within their caps, keys run one job and hold one waiting, runner
      slots are exclusive; admission is round-robin and work conserving; every branch of
      submitting and settling; the job state machine; stopping drains the queue. JobsLogs.v:
      log cursors are consecutive and pages lose nothing.
    - The actor (JobLoopTheorems.v): it refines the scheduler, never panics but for that one
      submission, which its lease sweep narrows to a lease that lapses within the iteration; it
      loses no request, launches each executor once and an ensure only after its event is
      recorded, settles a job as its executor reports, and returns after Stop once its executors
      have reported. ManifestConverge.v and
      ManifestRecovery.v: stacks are recorded one by one, and only proved containers restart.
    - The registry (RegistryTheorems.v): the tables stay consistent through every write; a
      rollover retires exactly what it supersedes; a session protects its container; previews
      list exactly the candidates. Runners.v: one writer per exclusive cache,
      over all daemons unless one of them could not create the lock directory.
    - Removal (Retention.v, Unmanaged.v, Lifecycle.v): everything a plan removes was proven
      removable; plans lose and invent nothing and stay within their budgets; the census agrees
      with the plan; collection happens exactly when it is safe and licensed.
    - Removal carried out (GcApply.v, GcRegistry.v, UnmanagedApply.v, RetentionPass.v,
      IdleRetirement.v): in every environment a command that changes Docker was licensed by fresh
      reads before it, and, composed with the tables, nothing a lease or a session names is
      touched; the summaries count what happened.
    - Identity (Catalog.v, RegistryIdentity.v): only registries that are certainly gone are
      abandoned, a release abandons exactly one, a lost database keeps its identity whatever other
      daemons write to the catalog, and a new one is made only where nothing unknown was read.
    - The wire (Rpc.v, DispatchSafety.v, Frames.v): a client method that is served returns what the
      component answered, and reports its refusal as an error; a request changes something only
      with the identity, consent and tokens its operation demands; an idle handoff stops exactly
      an idle daemon; manifest paths never leave their root; the bytes of a call reach the
      dispatcher as the request that was sent.
    - CI authority (ActTheorems.v, ActSources.v): over every history of writes the records of an
      engine move only forward along their lifecycle, an intent is accepted once even after its
      record was forgotten, the tables stay within their limits, retention forgets only what is
      settled, and a source volume has one reader at a time.
    - Builds (Glob.v, Pruning.v, CollectorSafety.v, CollectorRefines.v, GenerationIdentity.v,
      ResolverSafety.v): the matcher decides what its patterns mean; the pruned walk with its late
      reads collects what the selection of the whole tree would give, but for two kinds of
      pattern, one of which is shown to lose a file; a generation names one build up to a SHA-256
      collision that the theorem exhibits, and does not depend on the order of observation; image
      resolution pulls only what was just reported missing, and its receipts are accepted;
      collecting a context ends in every file system, and the context is within its limits.
    - Documents (ManifestSafety.v, ActPlans.v, ActCoverage.v): a manifest that parses mounts
      nothing twice and, default volumes apart, nothing on bosn's paths; declared act plans are exactly the adapter's
      cells, and a coverage report passes exactly when every required cell was proved.
    - Evidence (Labels.v, DockerDf.v): labels round-trip, parsing is sound, and a row that lacks
      evidence protects its object; the calendar arithmetic is Gregorian.
    - Owners (Owners.v): work is cancelled for a dead client exactly when all its owners are
      gone. Capacity (Capacity.v) and CiLimits.v: what loads or is sized is in bounds.
      CiScheduler.v: the CI scheduler refines a FIFO queue.

    ** What is not modelled

    Display strings and log lines, serde and JSON decoding, sockets, processes and the Docker
    client are I/O or libraries; so are endpoint names, stale sockets and waiting for a daemon to
    exit. Of the CI state, the import of an old database, the migration of an old schema and the
    reclaiming of database pages are not modelled.
    SHA-256 is a parameter: theorems about digests name the colliding texts instead of assuming
    that there are none. Left for later: the CI engine's runs and its typed verbs on the wire, the
    daemon switch and autostart, compose and setup documents, and widget layout. *)

From stdpp Require Export base tactics option list list_numbers gmap strings fin_maps sorting.
From Stdlib Require Export ZArith Lia.

Local Open Scope Z_scope.

(** ** The development's scope, hint database and tactics *)

Declare Scope bosn_scope.
Delimit Scope bosn_scope with bosn.
Create HintDb bosn discriminated.

(** [==] of a type whose equality is decidable. *)
Notation "x ==? y" := (bool_decide (x = y)) (at level 70) : bosn_scope.

(** Split every match and conditional the goal or a hypothesis computes on,
    closing the branches that contradict what is already known. *)
Ltac split_match :=
  repeat (case_match; simplify_eq/=; try done).

(** [record_with eta proj] is the function that replaces one field of a record: a match on the
    record that rebuilds it, found from its eta-expansion [eta]. [r <| proj := v |>] is Rust's
    [S { proj: v, ..r }]. *)

Tactic Notation "record_with" constr(eta) constr(proj) :=
  let body := eval unfold eta in eta in
  match eval pattern proj in body with
  | ?f _ =>
      match type of proj with
      | ?R → ?T =>
          let v := fresh "v" in let r := fresh "r" in let x := fresh "x" in
          refine (λ (v : T) (r : R), _ : R);
          pose (x := f (λ _, v) r); destruct r; let t := eval cbv in x in clear x; exact t
      end
  end.

(** Turn boolean facts of the code into propositions. *)
Ltac booleans :=
  repeat match goal with
  | H : Is_true _ |- _ => apply Is_true_true_1 in H
  | H : _ && _ = true |- _ => apply andb_prop in H as [? ?]
  | H : _ || _ = false |- _ => apply orb_false_iff in H as [? ?]
  | H : _ || _ = true |- _ => apply orb_prop in H
  | H : _ && _ = false |- _ => apply andb_false_iff in H
  | H : negb _ = true |- _ => apply negb_true_iff in H
  | H : negb _ = false |- _ => apply negb_false_iff in H
  | H : bool_decide _ = true |- _ => apply bool_decide_eq_true_1 in H
  | H : bool_decide _ = false |- _ => apply bool_decide_eq_false_1 in H
  | H : (_ <=? _) = true |- _ => apply Z.leb_le in H
  | H : (_ <=? _) = false |- _ => apply Z.leb_gt in H
  | H : (_ <? _) = true |- _ => apply Z.ltb_lt in H
  | H : (_ <? _) = false |- _ => apply Z.ltb_ge in H
  | H : (_ =? _) = true |- _ => apply Z.eqb_eq in H
  | H : (_ =? _) = false |- _ => apply Z.eqb_neq in H
  end.

(** ** [Result]: the error monad of the fallible code *)

Inductive result (E A : Type) : Type :=
| Ok (a : A)
| Err (e : E).
Arguments Ok {E A} a.
Arguments Err {E A} e.

Definition is_ok {E A} (r : result E A) : bool :=
  match r with Ok _ => true | Err _ => false end.

(** Rust's [?] operator. *)
Notation "'let?' x ':=' r 'in' k" :=
  (match r with Ok x => k | Err e => Err e end)
  (at level 10, x name, r at level 100, k at level 200) : bosn_scope.

(** Rust's [Option::ok_or]. *)
Definition ok_or {E A} (o : option A) (e : E) : result E A :=
  match o with Some a => Ok a | None => Err e end.

Lemma ok_or_Ok {E A} (o : option A) (e : E) a : ok_or o e = Ok a ↔ o = Some a.
Proof. destruct o; simpl; split; congruence. Qed.

(** A guard that returns early with an error. *)
Definition refuse {E} (bad : bool) (e : E) : result E unit := if bad then Err e else Ok tt.

Lemma refuse_Ok {E} b (e : E) u : refuse b e = Ok u → b = false.
Proof. by destruct b. Qed.
(** Decompose a run of [let?] steps that succeeded. *)
Ltac results :=
  repeat match goal with
  | H : refuse _ _ = Ok _ |- _ => apply refuse_Ok in H
  | H : ok_or _ _ = Ok _ |- _ => apply ok_or_Ok in H
  | H : Ok _ = Ok _ |- _ => injection H as H
  | H : Err _ = Ok _ |- _ => discriminate H
  | H : match ?v with Ok _ => _ | Err _ => _ end = Ok _ |- _ =>
      let Hv := fresh "Hv" in destruct v eqn:Hv; [|discriminate H]
  | H : match ?v with Some _ => _ | None => _ end = Ok _ |- _ =>
      let Hv := fresh "Hv" in destruct v eqn:Hv
  | H : (if ?b then _ else _) = Ok _ |- _ => let Hb := fresh "Hb" in destruct b eqn:Hb
  | u : unit |- _ => destruct u
  end.

(** Rust's [Option::is_some_and]. *)
Definition is_some_and {A} (o : option A) (f : A → bool) : bool :=
  match o with Some a => f a | None => false end.

(** Rust's [Option::is_none_or]. *)
Definition is_none_or {A} (o : option A) (f : A → bool) : bool :=
  match o with Some a => f a | None => true end.

Lemma is_some_and_true {A} (o : option A) f :
  is_some_and o f = true ↔ ∃ a, o = Some a ∧ f a = true.
Proof. destruct o as [a|]; simpl; [|naive_solver]. split; [by exists a|by intros (? & [= ->] & ?)]. Qed.

(** ** Machine integers *)

Definition u64_max : Z := 2 ^ 64 - 1.
Definition i64_max : Z := 2 ^ 63 - 1.
Definition i128_max : Z := 2 ^ 127 - 1.
Definition i128_min : Z := - 2 ^ 127.

Definition in_i128 (z : Z) : Prop := i128_min ≤ z ≤ i128_max.
Definition in_u64 (z : Z) : Prop := 0 ≤ z ≤ u64_max.

(** [i128::saturating_add] and [i128::saturating_sub]. *)
Definition i128_clamp (z : Z) : Z := Z.max i128_min (Z.min i128_max z).
Definition i128_saturating_add (a b : Z) : Z := i128_clamp (a + b).
Definition i128_saturating_sub (a b : Z) : Z := i128_clamp (a - b).

(** The saturating, checked and wrapping operations of [u64]. *)
Definition u64_saturating_add (a b : Z) : Z := Z.min u64_max (a + b).
Definition u64_saturating_sub (a b : Z) : Z := Z.max 0 (a - b).
Definition u64_saturating_mul (a b : Z) : Z := Z.min u64_max (a * b).
Definition checked_add (a b : Z) : option Z := if a + b <=? u64_max then Some (a + b) else None.
Definition checked_mul (a b : Z) : option Z := if a * b <=? u64_max then Some (a * b) else None.
Definition u64_wrap (z : Z) : Z := z mod 2 ^ 64.

Lemma i128_clamp_in z : in_i128 (i128_clamp z).
Proof. unfold in_i128, i128_clamp, i128_min, i128_max. lia. Qed.

Lemma i128_clamp_id z : in_i128 z → i128_clamp z = z.
Proof. unfold in_i128, i128_clamp. lia. Qed.

Lemma i128_clamp_mono a b : a ≤ b → i128_clamp a ≤ i128_clamp b.
Proof. unfold i128_clamp. lia. Qed.

#[export] Hint Resolve i128_clamp_in : bosn.

(** ** Comparators

    [Ord::cmp], [cmp].[then_with] and [cmp].[reverse] as functions to
    [comparison]; [TotalCmp] is the contract [sort_by] asks of its argument. *)

Class TotalCmp {A} (cmp : A → A → comparison) : Prop := {
  cmp_opp x y : cmp y x = CompOpp (cmp x y);
  cmp_trans x y z : cmp x y ≠ Gt → cmp y z ≠ Gt → cmp x z ≠ Gt
}.

Arguments cmp_opp {A} cmp {_} x y.
Arguments cmp_trans {A} cmp {_} x y z.

Definition cmp_le {A} (cmp : A → A → comparison) (x y : A) : Prop := cmp x y ≠ Gt.

Definition cmp_then {A} (c d : A → A → comparison) (x y : A) : comparison :=
  match c x y with Eq => d x y | o => o end.

Definition cmp_rev {A} (c : A → A → comparison) (x y : A) : comparison := c y x.

Definition cmp_on {A B} (f : A → B) (c : B → B → comparison) (x y : A) : comparison :=
  c (f x) (f y).

Definition bool_cmp (a b : bool) : comparison :=
  match a, b with
  | false, true => Lt | true, false => Gt | _, _ => Eq
  end.

#[global] Instance cmp_le_dec {A} (cmp : A → A → comparison) : RelDecision (cmp_le cmp).
Proof. intros x y. unfold cmp_le. destruct (cmp x y); [left|left|right]; congruence. Defined.

#[global] Typeclasses Opaque cmp_then cmp_rev cmp_on.
#[global] Hint Mode TotalCmp + ! : typeclass_instances.

Section comparators.
Context {A : Type} (cmp : A → A → comparison) `{!TotalCmp cmp}.

Lemma cmp_refl x : cmp x x = Eq.
Proof. pose proof (cmp_opp cmp x x). destruct (cmp x x); simpl in *; congruence. Qed.

Lemma cmp_Gt_Lt x y : cmp x y = Gt ↔ cmp y x = Lt.
Proof. rewrite (cmp_opp cmp x y). destruct (cmp x y); simpl; split; congruence. Qed.

Lemma cmp_Eq_sym x y : cmp x y = Eq → cmp y x = Eq.
Proof. intros H. by rewrite (cmp_opp cmp x y), H. Qed.

Lemma cmp_le_total x y : cmp_le cmp x y ∨ cmp_le cmp y x.
Proof.
  unfold cmp_le. rewrite (cmp_opp cmp x y).
  destruct (cmp x y); simpl; (left; congruence) || (right; congruence).
Qed.

#[global] Instance cmp_le_transitive : Transitive (cmp_le cmp).
Proof. intros x y z. apply cmp_trans, _. Qed.

#[global] Instance cmp_le_reflexive : Reflexive (cmp_le cmp).
Proof. intros x. unfold cmp_le. by rewrite cmp_refl. Qed.

Lemma cmp_le_Lt x y z : cmp x y ≠ Gt → cmp y z = Lt → cmp x z = Lt.
Proof.
  intros Hxy Hyz. destruct (cmp x z) eqn:Hxz; [|done|]; exfalso.
  all: assert (cmp z x ≠ Gt) as Hzx by (rewrite (cmp_opp cmp x z), Hxz; done).
  all: apply (cmp_trans cmp z x y Hzx Hxy); by apply cmp_Gt_Lt.
Qed.

Lemma cmp_Lt_le x y z : cmp x y = Lt → cmp y z ≠ Gt → cmp x z = Lt.
Proof.
  intros Hxy Hyz. destruct (cmp x z) eqn:Hxz; [|done|]; exfalso.
  all: assert (cmp z x ≠ Gt) as Hzx by (rewrite (cmp_opp cmp x z), Hxz; done).
  all: apply (cmp_trans cmp y z x Hyz Hzx); by apply cmp_Gt_Lt.
Qed.

(** Elements equal under the comparator compare alike with a third one. *)
Lemma cmp_Eq_l x y z : cmp x y = Eq → cmp x z = cmp y z.
Proof.
  intros Hxy. assert (Hyx := cmp_Eq_sym _ _ Hxy).
  destruct (cmp y z) eqn:Hyz.
  - destruct (cmp x z) eqn:Hxz; [done| |]; exfalso.
    + rewrite (cmp_le_Lt y x z) in Hyz; congruence.
    + by apply (cmp_trans cmp x y z); congruence.
  - apply (cmp_le_Lt x y z); congruence.
  - apply cmp_Gt_Lt. apply cmp_Gt_Lt in Hyz. apply (cmp_Lt_le z y x); congruence.
Qed.

#[global] Instance cmp_rev_total : TotalCmp (cmp_rev cmp).
Proof.
  split; unfold cmp_rev.
  - intros x y. apply (cmp_opp cmp).
  - intros x y z Hxy Hyz. by apply (cmp_trans cmp z y x).
Qed.

#[global] Instance cmp_then_total (d : A → A → comparison) `{!TotalCmp d} :
  TotalCmp (cmp_then cmp d).
Proof.
  split; unfold cmp_then.
  - intros x y. rewrite (cmp_opp cmp x y), (cmp_opp d x y). by destruct (cmp x y).
  - intros x y z. destruct (cmp x y) eqn:Hxy; [|intros _|done].
    + rewrite (cmp_Eq_l x y z Hxy). destruct (cmp y z); [|done..].
      apply (cmp_trans d).
    + intros Hyz. rewrite (cmp_Lt_le x y z); [done|done|]. by destruct (cmp y z).
Qed.

#[global] Instance cmp_on_total {B} (f : B → A) : TotalCmp (cmp_on f cmp).
Proof.
  split; unfold cmp_on; intros; [apply (cmp_opp cmp)|by eapply (cmp_trans cmp)].
Qed.
End comparators.

Lemma cmp_then_le {A} (c d : A → A → comparison) x y :
  cmp_le (cmp_then c d) x y → cmp_le c x y.
Proof. unfold cmp_le, cmp_then. by destruct (c x y). Qed.

(** [Option]'s derived order: [None] below every [Some]. *)
Definition option_cmp {A} (c : A → A → comparison) (x y : option A) : comparison :=
  match x, y with
  | Some a, Some b => c a b
  | None, Some _ => Lt
  | Some _, None => Gt
  | None, None => Eq
  end.

#[global] Instance option_cmp_total {A} (c : A → A → comparison) `{!TotalCmp c} :
  TotalCmp (option_cmp c).
Proof.
  split.
  - intros [x|] [y|]; simpl; try done. apply (cmp_opp c).
  - intros [x|] [y|] [z|]; simpl; try done. apply (cmp_trans c).
Qed.

#[global] Instance Z_compare_total : TotalCmp Z.compare.
Proof.
  split; [intros; apply Z.compare_antisym|].
  intros x y z. rewrite !Z.compare_le_iff. lia.
Qed.

#[global] Instance bool_cmp_total : TotalCmp bool_cmp.
Proof. by split; intros; repeat (match goal with b : bool |- _ => destruct b end). Qed.

Lemma string_le_cmp s t : String.compare s t ≠ Gt ↔ String.le s t.
Proof.
  unfold String.le, String.leb. destruct (String.compare s t); simpl; split; try done.
Qed.

#[global] Instance string_compare_total : TotalCmp String.compare.
Proof.
  split; [intros; apply String.compare_antisym|].
  intros x y z. rewrite !string_le_cmp. intros. by etrans.
Qed.

Lemma string_compare_Eq s t : String.compare s t = Eq → s = t.
Proof. apply String.compare_eq_iff. Qed.

(** ** [slice::sort_by]

    Rust's [sort_by] is a stable sort: for a total comparator its result is
    determined, so insertion from the right computes the same list. *)

Section sorting.
Context {A : Type} (cmp : A → A → comparison).

Fixpoint insert_by (x : A) (l : list A) : list A :=
  match l with
  | [] => [x]
  | y :: l' => match cmp x y with Gt => y :: insert_by x l' | _ => x :: l end
  end.

Fixpoint sort_by (l : list A) : list A :=
  match l with
  | [] => []
  | x :: l' => insert_by x (sort_by l')
  end.

Lemma insert_by_perm x l : insert_by x l ≡ₚ x :: l.
Proof.
  induction l as [|y l IH]; simpl; [done|].
  destruct (cmp x y); try done. rewrite IH. apply Permutation_swap.
Qed.

Lemma sort_by_perm l : sort_by l ≡ₚ l.
Proof. induction l as [|x l IH]; simpl; [done|]. by rewrite insert_by_perm, IH. Qed.

Lemma elem_of_sort_by x l : x ∈ sort_by l ↔ x ∈ l.
Proof. by rewrite sort_by_perm. Qed.

Lemma length_sort_by l : length (sort_by l) = length l.
Proof. by rewrite sort_by_perm. Qed.

Context `{!TotalCmp cmp}.

Lemma insert_by_sorted x l :
  StronglySorted (cmp_le cmp) l → StronglySorted (cmp_le cmp) (insert_by x l).
Proof.
  induction 1 as [|y l Hl IH Hy]; simpl; [repeat constructor|].
  assert (cmp_le cmp x y → StronglySorted (cmp_le cmp) (x :: y :: l)) as Hcons.
  { intros Hxy. repeat constructor; try done.
    eapply Forall_impl; [exact Hy|]. intros z Hz. by etrans. }
  destruct (cmp x y) eqn:Hxy; [by apply Hcons; unfold cmp_le; rewrite Hxy..|].
  constructor; [done|]. rewrite insert_by_perm. constructor; [|done].
  unfold cmp_le. rewrite (cmp_opp cmp x y), Hxy. done.
Qed.

Lemma sort_by_sorted l : StronglySorted (cmp_le cmp) (sort_by l).
Proof. induction l as [|x l IH]; simpl; [constructor|by apply insert_by_sorted]. Qed.

(** Stability: the elements equal to [z] keep their relative order. *)
Lemma insert_by_stable z x l :
  filter (λ y, cmp y z = Eq) (insert_by x l) =
  filter (λ y, cmp y z = Eq) (x :: l).
Proof.
  induction l as [|y l IH]; simpl; [done|].
  destruct (cmp x y) eqn:Hxy; try done.
  rewrite filter_cons, IH, !filter_cons.
  repeat case_decide; try done.
  exfalso. rewrite (cmp_Eq_l cmp x z y) in Hxy by done.
  rewrite (cmp_Eq_sym cmp y z) in Hxy; done.
Qed.

Lemma sort_by_stable z l :
  filter (λ y, cmp y z = Eq) (sort_by l) = filter (λ y, cmp y z = Eq) l.
Proof.
  induction l as [|x l IH]; simpl; [done|].
  rewrite insert_by_stable, !filter_cons. by rewrite IH.
Qed.

(** Sorting a sorted list changes nothing. *)
Lemma sort_by_id l : StronglySorted (cmp_le cmp) l → sort_by l = l.
Proof.
  induction 1 as [|x l Hl IH Hx]; simpl; [done|]. rewrite IH.
  destruct Hx as [|y l Hxy Hx]; simpl; [done|]. unfold cmp_le in Hxy.
  by destruct (cmp x y).
Qed.
End sorting.

Lemma StronglySorted_weaken {A} (R S : relation A) l :
  (∀ x y, R x y → S x y) → StronglySorted R l → StronglySorted S l.
Proof.
  intros HRS. induction 1 as [|x l Hl IH Hx]; constructor; [done|].
  eapply Forall_impl; [exact Hx|]. auto.
Qed.

(** ** [BTreeMap] iteration: ascending key order *)

Section btree.
Context {K V : Type} `{Countable K} (cmp : K → K → comparison).

Definition btree_iter (m : gmap K V) : list (K * V) :=
  sort_by (cmp_on fst cmp) (map_to_list m).
Definition btree_keys (m : gmap K V) : list K := (btree_iter m).*1.
Definition btree_values (m : gmap K V) : list V := (btree_iter m).*2.

Lemma elem_of_btree_iter (m : gmap K V) k v : (k, v) ∈ btree_iter m ↔ m !! k = Some v.
Proof. unfold btree_iter. by rewrite elem_of_sort_by, elem_of_map_to_list. Qed.

Lemma elem_of_btree_keys (m : gmap K V) k : k ∈ btree_keys m ↔ is_Some (m !! k).
Proof.
  unfold btree_keys. rewrite list_elem_of_fmap. split.
  - intros ([k' v] & -> & Hkv). apply elem_of_btree_iter in Hkv. by exists v.
  - intros [v Hv]. exists (k, v). by rewrite elem_of_btree_iter.
Qed.

Lemma elem_of_btree_values (m : gmap K V) v : v ∈ btree_values m ↔ ∃ k, m !! k = Some v.
Proof.
  unfold btree_values. rewrite list_elem_of_fmap. split.
  - intros ([k v'] & -> & Hkv). exists k. by apply elem_of_btree_iter.
  - intros [k Hv]. exists (k, v). by rewrite elem_of_btree_iter.
Qed.

Lemma NoDup_btree_keys (m : gmap K V) : NoDup (btree_keys m).
Proof.
  unfold btree_keys, btree_iter. rewrite sort_by_perm. apply NoDup_fst_map_to_list.
Qed.

Lemma btree_iter_perm (m : gmap K V) : btree_iter m ≡ₚ map_to_list m.
Proof. apply sort_by_perm. Qed.
End btree.

(** ** Lists *)

Fixpoint sumZ (l : list Z) : Z :=
  match l with [] => 0 | x :: l' => x + sumZ l' end.

Lemma sumZ_app l k : sumZ (l ++ k) = sumZ l + sumZ k.
Proof. induction l as [|x l IH]; simpl; lia. Qed.

#[global] Instance sumZ_proper : Proper ((≡ₚ) ==> (=)) sumZ.
Proof. intros l k HP. induction HP; simpl; lia. Qed.

Lemma sumZ_nonneg l : Forall (λ z, 0 ≤ z) l → 0 ≤ sumZ l.
Proof. induction 1; simpl; lia. Qed.

(** [Iterator::filter] with a boolean predicate, [Iterator::position]. *)
Definition filterb {A} (f : A → bool) (l : list A) : list A := filter (λ x, f x = true) l.

#[global] Arguments filterb : simpl never.

Lemma elem_of_filterb {A} (f : A → bool) l x : x ∈ filterb f l ↔ f x = true ∧ x ∈ l.
Proof. unfold filterb. by rewrite list_elem_of_filter. Qed.

Lemma filterb_nil {A} (f : A → bool) : filterb f [] = [].
Proof. done. Qed.

Lemma filterb_cons {A} (f : A → bool) x l :
  filterb f (x :: l) = if f x then x :: filterb f l else filterb f l.
Proof. unfold filterb. rewrite filter_cons. by destruct (f x). Qed.

Lemma filterb_app {A} (f : A → bool) l k : filterb f (l ++ k) = filterb f l ++ filterb f k.
Proof. apply filter_app. Qed.

#[global] Instance filterb_perm {A} (f : A → bool) : Proper ((≡ₚ) ==> (≡ₚ)) (filterb f).
Proof. intros l k HP. unfold filterb. by rewrite HP. Qed.

(** A list splits into what satisfies a test and what does not. *)
Lemma filterb_split {A} (f : A → bool) l :
  l ≡ₚ filterb f l ++ filterb (λ x, negb (f x)) l.
Proof.
  induction l as [|x l IH]; [done|]. rewrite !filterb_cons.
  destruct (f x); simpl; [by constructor|]. rewrite <-Permutation_middle. by constructor.
Qed.

Lemma NoDup_filterb {A} (f : A → bool) l : NoDup l → NoDup (filterb f l).
Proof. apply NoDup_filter. Qed.

Lemma existsb_false_forall {A} (f : A → bool) l :
  existsb f l = false ↔ Forall (λ x, f x = false) l.
Proof.
  induction l as [|x l IH]; simpl; [split; constructor|].
  rewrite orb_false_iff, IH, Forall_cons. done.
Qed.

Lemma sublist_elem_of {A} (l k : list A) x : sublist l k → x ∈ l → x ∈ k.
Proof. intros Hs Hx. eapply elem_of_submseteq; [exact Hx|by apply sublist_submseteq]. Qed.

Lemma sublist_Forall {A} (P : A → Prop) (l k : list A) : sublist l k → Forall P k → Forall P l.
Proof. rewrite !Forall_forall. eauto using sublist_elem_of. Qed.

(** A sorted list stays sorted when elements are dropped. *)
Lemma sublist_StronglySorted {A} (R : relation A) (l k : list A) :
  sublist l k → StronglySorted R k → StronglySorted R l.
Proof.
  induction 1 as [|x l k Hs IH|x l k Hs IH]; intros Hk; [done| |];
    apply StronglySorted_cons in Hk as [Hx Hk]; [|by apply IH].
  apply StronglySorted_cons. split; [by eapply sublist_Forall|by apply IH].
Qed.

Lemma list_omap_fmap {A B C} (f : A → B) (g : B → option C) (l : list A) :
  omap g (f <$> l) = omap (λ x, g (f x)) l.
Proof.
  induction l as [|x l IH]; [done|]. simpl. destruct (g (f x)); [f_equal|]; exact IH.
Qed.

#[global] Instance list_omap_perm {A B} (g : A → option B) :
  Proper ((≡ₚ) ==> (≡ₚ)) (omap (M := list) g).
Proof.
  intros l k HP. induction HP as [|x l k _ IH|x y l|l k m _ IH1 _ IH2]; simpl.
  - done.
  - destruct (g x); [constructor|]; exact IH.
  - destruct (g x), (g y); try done. apply Permutation_swap.
  - by etrans.
Qed.

Lemma omap_lookup_seq {A} (l : list A) : omap (λ i, l !! i) (seq 0 (length l)) = l.
Proof.
  induction l as [|x l IH]; [done|]. simpl. f_equal. rewrite <-fmap_S_seq, list_omap_fmap.
  exact IH.
Qed.

(** ** [entry(k).or_insert(init)] and totals over a map's values *)

Definition entry_update {K V} `{Countable K} (m : gmap K V) (k : K) (init : V) (f : V → V) : gmap K V :=
  <[k := f (default init (m !! k))]> m.

Section map_total.
Context {K V : Type} `{Countable K} (g : V → Z).

Definition map_total (m : gmap K V) : Z := sumZ (g <$> (map_to_list m).*2).

Lemma map_total_empty : map_total ∅ = 0.
Proof. unfold map_total. by rewrite map_to_list_empty. Qed.

Lemma map_total_insert_None m k v :
  m !! k = None → map_total (<[k := v]> m) = g v + map_total m.
Proof. intros Hk. unfold map_total. by rewrite map_to_list_insert. Qed.

Lemma map_total_delete m k v :
  m !! k = Some v → map_total m = g v + map_total (delete k m).
Proof.
  intros Hk. rewrite <-(insert_delete_id m k v Hk) at 1.
  apply map_total_insert_None, lookup_delete_eq.
Qed.

Lemma map_total_insert m k v :
  map_total (<[k := v]> m) = g v - from_option g 0 (m !! k) + map_total m.
Proof.
  rewrite <-insert_delete_eq, map_total_insert_None by apply lookup_delete_eq.
  destruct (m !! k) as [w|] eqn:Hk; simpl.
  - rewrite (map_total_delete m k w Hk). lia.
  - rewrite delete_id by done. lia.
Qed.

Lemma map_total_entry m k init f :
  g init = 0 →
  map_total (entry_update m k init f) =
  g (f (default init (m !! k))) - g (default init (m !! k)) + map_total m.
Proof.
  intros Hi. unfold entry_update. rewrite map_total_insert.
  destruct (m !! k); simpl; lia.
Qed.

Lemma sumZ_btree_values cmp (m : gmap K V) :
  sumZ (g <$> btree_values cmp m) = map_total m.
Proof. unfold btree_values, map_total. by rewrite btree_iter_perm. Qed.
End map_total.

(** ** Chunks *)

(** [slice::chunks]. *)
Fixpoint chunks_fueled {A} (fuel n : nat) (l : list A) : list (list A) :=
  match fuel, l with
  | S fuel, _ :: _ => take n l :: chunks_fueled fuel n (drop n l)
  | _, _ => []
  end.
Definition chunks {A} (n : nat) (l : list A) : list (list A) := chunks_fueled (length l) n l.


(** A sum over the values that pass a test. *)
Lemma sumZ_filterb {A} (g : A → Z) (f : A → bool) l :
  sumZ (g <$> filterb f l) = sumZ ((λ x, if f x then g x else 0) <$> l).
Proof.
  induction l as [|x l IH]; [done|]. rewrite filterb_cons, fmap_cons.
  destruct (f x) eqn:E; rewrite ?fmap_cons; cbn [sumZ]; lia.
Qed.

(** ** Strings *)

(** [str::strip_prefix]. *)
Fixpoint strip_prefix (p s : string) : option string :=
  match p, s with
  | EmptyString, _ => Some s
  | String a p', String b s' => if Ascii.eqb a b then strip_prefix p' s' else None
  | String _ _, EmptyString => None
  end.

Lemma strip_prefix_app p s : strip_prefix p (p +:+ s) = Some s.
Proof. induction p as [|a p IH]; simpl; [done|]. by rewrite Ascii.eqb_refl. Qed.

Lemma strip_prefix_Some p s r : strip_prefix p s = Some r → s = p +:+ r.
Proof.
  revert s. induction p as [|a p IH]; intros [|b s]; simpl; intros Hs; simplify_eq; try done.
  destruct (Ascii.eqb a b) eqn:Hab; [|done]. apply Ascii.eqb_eq in Hab. subst b.
  by rewrite (IH s Hs).
Qed.
