(* ===== verification/Effects.v ===== *)
(** * Effects: programs that talk to the registry and the engine

    A free monad over a type of calls with typed answers. A program is a tree of calls; [run]
    drives it with an environment that chooses every answer from the events so far, and
    records the events. [wp] quantifies over all answers, so what holds by [wp] holds in every
    environment ([run_wp]). *)

From S2P Require Export Prelude.

Local Open Scope list_scope.
Local Open Scope bosn_scope.

(** Where an element of a list with one more element is. *)
Lemma snoc_split {A} (l before after : list A) x y :
  l ++ [x] = before ++ y :: after →
  (l = before ∧ x = y ∧ after = []) ∨ (∃ after', after = after' ++ [x] ∧ l = before ++ y :: after').
Proof.
  intros H. destruct after as [|z after _] using rev_ind.
  { apply app_inj_tail in H as [-> ->]. by left. }
  right. exists after. rewrite app_comm_cons, app_assoc in H. by apply app_inj_tail in H as [-> ->].
Qed.

Section effects.
Context {call : Type} {answer : call → Type} {event : Type}.
Context (event_of : ∀ c, answer c → event).

Inductive prog (A : Type) : Type :=
| Ret (a : A)
| Act (c : call) (k : answer c → prog A).
Arguments Ret {A} a.
Arguments Act {A} c k.

Fixpoint prog_bind {A B} (p : prog A) (f : A → prog B) : prog B :=
  match p with Ret a => f a | Act c k => Act c (λ x, prog_bind (k x) f) end.

Definition perform (c : call) : prog (answer c) := Act c Ret.

(** The [?] operator: an error ends the caller with it. *)
Definition bind_ok {E A B} (p : prog (result E A)) (f : A → prog (result E B)) :
    prog (result E B) :=
  prog_bind p (λ r, match r with Ok a => f a | Err e => Ret (Err e) end).

Fixpoint run {A} (env : list event → ∀ c, answer c) (p : prog A) (trace : list event) :
    A * list event :=
  match p with
  | Ret a => (a, trace)
  | Act c k => let x := env trace c in run env (k x) (trace ++ [event_of c x])
  end.

Fixpoint wp {A} (p : prog A) (trace : list event) (Q : A → list event → Prop) : Prop :=
  match p with
  | Ret a => Q a trace
  | Act c k => ∀ x, wp (k x) (trace ++ [event_of c x]) Q
  end.

Lemma run_bind {A B} env (p : prog A) (f : A → prog B) trace :
  run env (prog_bind p f) trace = let '(a, trace') := run env p trace in run env (f a) trace'.
Proof. revert trace. induction p as [a|c k IH]; intros trace; [done|]. apply IH. Qed.

Lemma wp_mono {A} (p : prog A) trace (Q R : A → list event → Prop) :
  (∀ a tr, Q a tr → R a tr) → wp p trace Q → wp p trace R.
Proof.
  intros HQR. revert trace. induction p as [a|c k IH]; intros trace; [apply HQR|].
  intros H x. apply IH, H.
Qed.

Lemma wp_bind {A B} (p : prog A) (f : A → prog B) trace Q :
  wp p trace (λ a tr, wp (f a) tr Q) → wp (prog_bind p f) trace Q.
Proof.
  revert trace. induction p as [a|c k IH]; intros trace; [done|]. intros H x. apply IH, H.
Qed.

Lemma wp_bind_ok {E A B} (p : prog (result E A)) (f : A → prog (result E B)) trace Q :
  wp p trace (λ r tr, match r with Ok a => wp (f a) tr Q | Err e => Q (Err e) tr end) →
  wp (bind_ok p f) trace Q.
Proof.
  intros H. apply wp_bind. eapply wp_mono; [|exact H]. by intros [a|e] tr HQ.
Qed.

(** A program only adds events. *)
Lemma wp_extends {A} (p : prog A) trace Q :
  wp p trace Q → wp p trace (λ a tr, Q a tr ∧ trace `prefix_of` tr).
Proof.
  revert trace. induction p as [a|c k IH]; intros trace H; [done|]. intros x.
  eapply wp_mono; [|by apply IH, H]. intros a tr [HQ Hp]. split; [done|].
  etrans; [|exact Hp]. by apply prefix_app_r.
Qed.

(** What holds of the events of a program run on its own holds of the events it adds. *)
Lemma wp_frame {A} (p : prog A) before trace Q :
  wp p trace Q → wp p (before ++ trace) (λ a tr, ∃ new, tr = before ++ new ∧ Q a new).
Proof.
  revert trace. induction p as [a|c k IH]; intros trace H; [by exists trace|]. intros x.
  rewrite <- app_assoc. apply IH, H.
Qed.

Lemma run_extends {A} env (p : prog A) trace : trace `prefix_of` (run env p trace).2.
Proof.
  revert trace. induction p as [a|c k IH]; intros trace; [done|]. cbn.
  etrans; [|apply IH]. by apply prefix_app_r.
Qed.

(** Every event of a run is the environment's answer to a call at that point. *)
Lemma run_event {A} env (p : prog A) trace before e after :
  (run env p trace).2 = before ++ e :: after → trace `prefix_of` before →
  ∃ c, e = event_of c (env before c).
Proof.
  revert trace. induction p as [x|c k IH]; intros trace; cbn.
  - intros Htr [m ->]. apply (f_equal length) in Htr. rewrite !length_app in Htr. cbn in Htr. lia.
  - set (tr1 := trace ++ [event_of c (env trace c)]). intros Htr [m ->].
    destruct (run_extends env (k (env trace c)) tr1) as [rest Hp]. rewrite Htr in Hp.
    unfold tr1 in Hp. rewrite <- !app_assoc in Hp. apply app_inv_head in Hp.
    destruct m as [|e' m]; cbn in Hp; injection Hp as -> Hp.
    + exists c. by rewrite app_nil_r.
    + apply (IH (env trace c) tr1); [exact Htr|]. exists m. unfold tr1. by rewrite <- app_assoc.
Qed.

Lemma run_wp {A} env (p : prog A) trace Q :
  wp p trace Q → Q (run env p trace).1 (run env p trace).2.
Proof. revert trace. induction p as [a|c k IH]; intros trace; [done|]. intros H. apply IH, H. Qed.
End effects.

Arguments prog {call} answer A.
Arguments Ret {call answer A} a.
Arguments Act {call answer A} c k.
Arguments perform {call answer} c.

Notation "'do!' x ':=' p 'in' k" :=
  (bind_ok p (λ x, k)) (at level 200, x name, p at level 100, k at level 200) : bosn_scope.

(** ** Loops *)

#[global] Instance prog_mret {call} {answer : call → Type} : MRet (prog answer) := λ A a, Ret a.
#[global] Instance prog_mbind {call} {answer : call → Type} : MBind (prog answer) :=
  λ A B f p, prog_bind p f.

Lemma wp_mbind {call} {answer : call → Type} {event} (event_of : ∀ c, answer c → event) {A B}
    (p : prog answer A) (f : A → prog answer B) tr Q :
  wp event_of p tr (λ a tr', wp event_of (f a) tr' Q) → wp event_of (p ≫= f) tr Q.
Proof. apply wp_bind. Qed.
Lemma wp_perform {call} {answer : call → Type} {event} (event_of : ∀ c, answer c → event) c tr Q :
  (∀ x, Q x (tr ++ [event_of c x])) → wp event_of (perform c) tr Q.
Proof. intros H x. apply H. Qed.

(** A [for] loop that threads a state. *)
Fixpoint prog_fold {call} {answer : call → Type} {S A} (f : S → A → prog answer S) (s : S)
    (l : list A) : prog answer S :=
  match l with [] => Ret s | x :: l => s ← f s x; prog_fold f s l end.

Lemma wp_fold {call} {answer : call → Type} {event} (event_of : ∀ c, answer c → event) {S A}
    (f : S → A → prog answer S) (I : list A → S → list event → Prop) l s tr :
  I [] s tr →
  (∀ before x after s tr, l = before ++ x :: after → I before s tr →
     wp event_of (f s x) tr (I (before ++ [x]))) →
  wp event_of (prog_fold f s l) tr (I l).
Proof.
  intros H0 Hstep. cut (∀ before s tr rest, l = before ++ rest → I before s tr →
    wp event_of (prog_fold f s rest) tr (I l)); [by intros Hcut; apply (Hcut [])|].
  intros before s' tr' rest. revert before s' tr'.
  induction rest as [|x rest IH]; intros before s' tr' Hl HI.
  - rewrite app_nil_r in Hl. by subst.
  - cbn [prog_fold]. apply wp_bind. eapply wp_mono; [|by eapply Hstep]. intros s'' tr'' HI'.
    apply (IH (before ++ [x])); [|done]. by rewrite <- app_assoc.
Qed.

(** ** Programs that change nothing *)

(** Every event of the program is one that [changes] nothing. *)
Fixpoint quiet {call} {answer : call → Type} {event} (event_of : ∀ c, answer c → event)
    (changes : event → bool) {A} (p : prog answer A) : Prop :=
  match p with
  | Ret _ => True
  | Act c k => (∀ x, changes (event_of c x) = false) ∧ ∀ x, quiet event_of changes (k x)
  end.

Section quiet.
Context {call} {answer : call → Type} {event} (event_of : ∀ c, answer c → event).
Context (changes : event → bool).

Lemma quiet_bind {A B} (p : prog answer A) (f : A → prog answer B) :
  quiet event_of changes p → (∀ a, quiet event_of changes (f a)) →
  quiet event_of changes (prog_bind p f).
Proof. intros Hp Hf. induction p as [a|c k IH]; [apply Hf|]. destruct Hp as [Hc Hk]. by split; eauto. Qed.

Lemma quiet_fold {S A} (f : S → A → prog answer S) s l :
  (∀ s x, quiet event_of changes (f s x)) → quiet event_of changes (prog_fold f s l).
Proof. intros Hf. revert s. induction l as [|x l IH]; intros s; [done|]. by apply quiet_bind. Qed.

Lemma wp_quiet {A} (p : prog answer A) tr :
  quiet event_of changes p →
  wp event_of p tr (λ _ tr', ∃ new, tr' = tr ++ new ∧ Forall (λ e, changes e = false) new).
Proof.
  revert tr. induction p as [a|c k IH]; intros tr; cbn.
  - intros _. exists []. by rewrite app_nil_r.
  - intros [Hc Hk] x. eapply wp_mono; [|by apply IH]. intros a tr' (new & -> & Hnew).
    exists (event_of c x :: new). split; [by rewrite <- app_assoc|]. by constructor.
Qed.
End quiet.

(** ** Programs that behave alike

    Equal up to the functions inside them: the same calls, in the same order, and for the same
    answers the same result. *)

Section alike.
Context {call : Type} {answer : call → Type}.

Inductive prog_alike {A} : prog answer A → prog answer A → Prop :=
| alike_ret a : prog_alike (Ret a) (Ret a)
| alike_act c k k' : (∀ x, prog_alike (k x) (k' x)) → prog_alike (Act c k) (Act c k').
#[global] Instance prog_equiv {A} : Equiv (prog answer A) := prog_alike.

Lemma alike_inv {A} (p q : prog answer A) :
  p ≡ q →
  match p with
  | Ret a => q = Ret a
  | Act c k => ∃ k', q = Act c k' ∧ ∀ x, k x ≡ k' x
  end.
Proof. destruct 1; eauto. Qed.

#[global] Instance prog_equivalence {A} : Equivalence (≡@{prog answer A}).
Proof.
  split.
  - intros p. induction p as [a|c k IH]; by constructor.
  - intros p q H. induction H; by constructor.
  - intros p q s H. revert s. induction H as [|c k k' H IH]; intros s Hs; [done|].
    apply alike_inv in Hs as (k'' & -> & Hk). constructor. intros x. apply IH, Hk.
Qed.

#[global] Instance prog_bind_proper {A B} :
  Proper ((≡) ==> pointwise_relation A (≡) ==> (≡)) (@prog_bind call answer A B).
Proof. intros p q H f g Hfg. induction H; [apply Hfg|]. by constructor. Qed.

Lemma prog_bind_assoc {A B C} (p : prog answer A) (f : A → prog answer B)
    (g : B → prog answer C) :
  prog_bind (prog_bind p f) g ≡ prog_bind p (λ a, prog_bind (f a) g).
Proof. induction p as [a|c k IH]; [done|]. by constructor. Qed.

(** Every result the program can return satisfies [P]. *)
Fixpoint returns {A} (P : A → Prop) (p : prog answer A) : Prop :=
  match p with Ret a => P a | Act c k => ∀ x, returns P (k x) end.

Lemma returns_bind {A B} (P : A → Prop) (Q : B → Prop) (p : prog answer A)
    (f : A → prog answer B) :
  returns P p → (∀ a, P a → returns Q (f a)) → returns Q (prog_bind p f).
Proof. intros Hp Hf. induction p as [a|c k IH]; [by apply Hf|]. intros x. by apply IH. Qed.

Lemma returns_fold {S A} (P : S → Prop) (f : S → A → prog answer S) s l :
  P s → (∀ s x, P s → returns P (f s x)) → returns P (prog_fold f s l).
Proof.
  intros Hs Hf. revert s Hs. induction l as [|x l IH]; intros s Hs; [done|].
  by apply (returns_bind P); [apply Hf|].
Qed.

(** What follows a program need only agree on what it can return. *)
Lemma bind_alike_on {A B} (P : A → Prop) (p : prog answer A) (f g : A → prog answer B) :
  returns P p → (∀ a, P a → f a ≡ g a) → prog_bind p f ≡ prog_bind p g.
Proof.
  intros Hp Hfg. induction p as [a|c k IH]; [by apply Hfg|]. constructor. intros x. by apply IH.
Qed.

(** Alike programs cannot be told apart by running them. *)
Lemma run_alike {event A} (event_of : ∀ c, answer c → event) env (p q : prog answer A) trace :
  p ≡ q → run event_of env p trace = run event_of env q trace.
Proof. intros H. revert trace. induction H as [|c k k' H IH]; intros trace; [done|]. apply IH. Qed.
End alike.
