(* ===== verification/F64.v ===== *)
(** * Binary64 arithmetic

    Rust's [f64] as the Standard Library's axiom-free specification of IEEE 754
    binary64 ([SpecFloat] at precision 53 and maximal exponent 1024), so that the
    subtractions, comparisons and conversions of the retention code round as the
    machine does and still evaluate. All NaNs are one value, the positive quiet
    NaN; the code reads a NaN's sign or payload only through [total_cmp].

    [Duration] is its number of nanoseconds. *)

From Stdlib Require Import SpecFloat.
From S2P Require Export Prelude.

Local Open Scope Z_scope.

Abbreviation f64 := spec_float.

Definition f64_prec : Z := 53.
Definition f64_emax : Z := 1024.

#[global] Instance f64_eq_dec : EqDecision f64.
Proof. solve_decision. Defined.

Definition is_finite (x : f64) : bool :=
  match x with S754_zero _ | S754_finite _ _ _ => true | _ => false end.
Definition is_nan (x : f64) : bool := match x with S754_nan => true | _ => false end.

Definition f64_add : f64 → f64 → f64 := SFadd f64_prec f64_emax.
Definition f64_sub : f64 → f64 → f64 := SFsub f64_prec f64_emax.
Definition f64_mul : f64 → f64 → f64 := SFmul f64_prec f64_emax.
Definition f64_div : f64 → f64 → f64 := SFdiv f64_prec f64_emax.

(** [<], [<=], [>=]: all false when an operand is NaN. *)
Definition f64_lt (x y : f64) : bool := SFltb x y.
Definition f64_le (x y : f64) : bool := SFleb x y.
Definition f64_ge (x y : f64) : bool := SFleb y x.
Definition f64_gt (x y : f64) : bool := SFltb y x.

(** An integer [as f64]: round to nearest, ties to even. *)
Definition f64_of_Z (z : Z) : f64 := binary_normalize f64_prec f64_emax z 0 false.

Definition f64_zero : f64 := S754_zero false.
Definition f64_MAX : f64 := S754_finite false (2 ^ 53 - 1) 971.
Definition f64_MIN : f64 := S754_finite true (2 ^ 53 - 1) 971.

(** [f64::min]: the other operand when one is NaN. *)
Definition f64_min (x y : f64) : f64 :=
  if is_nan x then y else if is_nan y then x else if f64_lt y x then y else x.

(** [f64::max], likewise. *)
Definition f64_max (x y : f64) : f64 :=
  if is_nan x then y else if is_nan y then x else if f64_lt x y then y else x.

(** The nearest binary64 to the decimal [d / 10^k]. *)
Definition f64_of_decimal (d : Z) (k : nat) : f64 :=
  match d with
  | Zpos p =>
      let '(m, e, l) := SFdiv_core_binary f64_prec f64_emax (Zpos p) 0 (10 ^ Z.of_nat k) 0 in
      binary_round_aux f64_prec f64_emax false m e l
  | _ => f64_zero
  end.

(** The magnitude of a finite value, truncated or rounded half away from zero. *)
Definition trunc_magnitude (m : positive) (e : Z) : Z :=
  if 0 <=? e then Zpos m * 2 ^ e else Zpos m / 2 ^ (- e).
Definition round_magnitude (m : positive) (e : Z) : Z :=
  if 0 <=? e then Zpos m * 2 ^ e else (2 * Zpos m + 2 ^ (- e)) / 2 ^ (1 - e).

(** [x as iN]/[uN]: truncation, saturating at the bounds, zero for NaN. *)
Definition f64_to_int (lo hi : Z) (x : f64) : Z :=
  match x with
  | S754_nan | S754_zero _ => 0
  | S754_infinity s => if s then lo else hi
  | S754_finite s m e => Z.max lo (Z.min hi (cond_Zopp s (trunc_magnitude m e)))
  end.

(** [x.round() as iN]. *)
Definition f64_round_to_int (lo hi : Z) (x : f64) : Z :=
  match x with
  | S754_nan | S754_zero _ => 0
  | S754_infinity s => if s then lo else hi
  | S754_finite s m e => Z.max lo (Z.min hi (cond_Zopp s (round_magnitude m e)))
  end.

(** ** [f64::total_cmp]: compare the bit patterns as sign-magnitude integers *)

Definition bits_magnitude (x : f64) : Z :=
  match x with
  | S754_zero _ => 0
  | S754_finite _ m e => (e + 1074) * 2 ^ 52 + Zpos m
  | S754_infinity _ => 2047 * 2 ^ 52
  | S754_nan => 2047 * 2 ^ 52 + 2 ^ 51
  end.
Definition bits_sign (x : f64) : bool :=
  match x with
  | S754_zero s | S754_infinity s | S754_finite s _ _ => s
  | S754_nan => false
  end.
Definition total_key (x : f64) : Z :=
  if bits_sign x then - bits_magnitude x - 1 else bits_magnitude x.
Definition total_cmp : f64 → f64 → comparison := cmp_on total_key Z.compare.

#[global] Instance total_cmp_total : TotalCmp total_cmp.
Proof. unfold total_cmp. apply _. Qed.

(** ** [Duration] *)

Definition nanos_per_sec : Z := 1000000000.
Definition duration_from_secs (s : Z) : Z := s * nanos_per_sec.
Definition as_secs_f64 (d : Z) : f64 :=
  f64_add (f64_of_Z (d / nanos_per_sec))
          (f64_div (f64_of_Z (d mod nanos_per_sec)) (f64_of_Z nanos_per_sec)).
(** [Instant::saturating_duration_since]. *)
Definition saturating_duration_since (now then_ : Z) : Z := Z.max 0 (now - then_).

(** ** Order facts *)

Lemma f64_compare_opp x y : SFcompare y x = CompOpp <$> SFcompare x y.
Proof.
  destruct x as [[]|[]| |[] mx ex], y as [[]|[]| |[] my ey]; simpl; try done.
  all: rewrite (Z.compare_antisym ex ey); destruct (Z.compare ex ey) eqn:He; simpl; try done.
  all: f_equal; rewrite ?CompOpp_involutive; by rewrite Pos.compare_cont_antisym.
Qed.

Lemma f64_ge_lt x y : f64_ge x y = true → f64_lt x y = false.
Proof.
  unfold f64_ge, f64_lt, SFleb, SFltb. rewrite (f64_compare_opp x y).
  by destruct (SFcompare x y) as [[]|].
Qed.

(** Without NaN, failing [x < y] is [x >= y]; with NaN it is not. *)
Lemma f64_lt_false_ge x y :
  is_nan x = false → is_nan y = false → f64_lt x y = false → f64_ge x y = true.
Proof.
  intros Hx Hy. unfold f64_ge, f64_lt, SFleb, SFltb. rewrite (f64_compare_opp x y).
  destruct (SFcompare x y) as [[]|] eqn:Hc; try done.
  destruct x as [[]|[]| |[] ? ?], y as [[]|[]| |[] ? ?]; done.
Qed.

Lemma f64_lt_le_trans x y z : f64_lt x y = true → f64_le y z = true → f64_lt x z = true.
Proof.
  unfold f64_lt, f64_le, SFltb, SFleb.
  destruct x as [[]|[]| |[] mx ex], y as [[]|[]| |[] my ey], z as [[]|[]| |[] mz ez];
    cbn [SFcompare]; try done; change (Pos.compare_cont Eq) with Pos.compare.
  all: destruct (Z.compare_spec ex ey), (Z.compare_spec ey ez), (Z.compare_spec ex ez);
    try done; try lia; subst.
  all: destruct (Pos.compare_spec mx my), (Pos.compare_spec my mz), (Pos.compare_spec mx mz);
    cbn; try done; lia.
Qed.

Lemma f64_le_trans x y z : f64_le x y = true → f64_le y z = true → f64_le x z = true.
Proof.
  unfold f64_le, SFleb.
  destruct x as [[]|[]| |[] mx ex], y as [[]|[]| |[] my ey], z as [[]|[]| |[] mz ez];
    cbn [SFcompare]; try done; change (Pos.compare_cont Eq) with Pos.compare.
  all: destruct (Z.compare_spec ex ey), (Z.compare_spec ey ez), (Z.compare_spec ex ez);
    try done; try lia; subst.
  all: destruct (Pos.compare_spec mx my), (Pos.compare_spec my mz), (Pos.compare_spec mx mz);
    cbn; try done; lia.
Qed.

Lemma is_finite_not_nan x : is_finite x = true → is_nan x = false.
Proof. by destruct x. Qed.

Lemma f64_le_refl x : is_finite x = true → f64_le x x = true.
Proof.
  intros Hx. unfold f64_le, SFleb. pose proof (f64_compare_opp x x) as H.
  destruct (SFcompare x x) as [[]|] eqn:E; simpl in *; try done. by destruct x as [[]|[]| |[]].
Qed.
(** Among finite values, failing [x < y] is [y <= x]. *)
Lemma f64_not_lt_le x y :
  is_finite x = true → is_finite y = true → f64_lt x y = false → f64_le y x = true.
Proof. intros. apply f64_lt_false_ge; auto using is_finite_not_nan. Qed.
Lemma f64_lt_le x y : f64_lt x y = true → f64_le x y = true.
Proof. unfold f64_lt, f64_le, SFltb, SFleb. by destruct (SFcompare x y) as [[]|]. Qed.
Lemma f64_le_not_lt x y : f64_le x y = true → f64_lt y x = false.
Proof. apply f64_ge_lt. Qed.

Lemma f64_max_spec x y :
  is_finite x = true → is_finite y = true →
  is_finite (f64_max x y) = true ∧ f64_le x (f64_max x y) = true ∧ f64_le y (f64_max x y) = true.
Proof.
  intros Hx Hy. unfold f64_max. rewrite !is_finite_not_nan by done.
  destruct (f64_lt x y) eqn:H;
    auto using f64_le_refl, f64_lt_le, f64_not_lt_le.
Qed.
(** Adding a NaN or a smaller value to [f64::max] never loses the first operand. *)
Lemma f64_max_ge_l x y : is_finite x = true → f64_le x (f64_max x y) = true.
Proof.
  intros Hx. unfold f64_max. rewrite is_finite_not_nan by done.
  destruct (is_nan y); [by apply f64_le_refl|].
  destruct (f64_lt x y) eqn:H; [by apply f64_lt_le|by apply f64_le_refl].
Qed.

(** On finite machine values [total_cmp] refines [<=]. *)

Definition f64_valid (x : f64) : Prop := valid_binary f64_prec f64_emax x = true.

Lemma digits2_pos_bounds m :
  2 ^ (Zpos (digits2_pos m) - 1) ≤ Zpos m < 2 ^ Zpos (digits2_pos m).
Proof.
  induction m as [m IH|m IH|]; cbn [digits2_pos]; [| |by cbn].
  all: rewrite Pos2Z.inj_succ, Z.pow_succ_r by lia.
  all: replace (Z.succ (Zpos (digits2_pos m)) - 1) with (Z.succ (Zpos (digits2_pos m) - 1)) by lia.
  all: rewrite Z.pow_succ_r by lia; lia.
Qed.

Lemma f64_valid_finite s m e :
  f64_valid (S754_finite s m e) →
  Zpos m < 2 ^ 53 ∧ -1074 ≤ e ∧ (2 ^ 52 ≤ Zpos m ∨ e = -1074).
Proof.
  unfold f64_valid, valid_binary, bounded, canonical_mantissa, fexp, emin, f64_prec, f64_emax.
  intros Hv. booleans. pose proof (digits2_pos_bounds m) as [Hlo Hhi].
  assert (Zpos (digits2_pos m) ≤ 53) as Hd by lia.
  pose proof (Z.pow_le_mono_r 2 (Zpos (digits2_pos m)) 53 ltac:(lia) Hd).
  split_and!; [lia|lia|].
  destruct (decide (e = -1074)) as [->|]; [by right|left].
  assert (Zpos (digits2_pos m) = 53) as E by lia. rewrite E in Hlo. exact Hlo.
Qed.

Lemma total_cmp_le x y :
  f64_valid x → f64_valid y → is_finite x = true → is_finite y = true →
  total_cmp x y ≠ Gt → f64_le x y = true.
Proof.
  intros Hx Hy Fx Fy Hle. unfold total_cmp, cmp_on in Hle. rewrite Z.compare_le_iff in Hle.
  unfold f64_le, SFleb.
  destruct x as [sx| | |sx mx ex], y as [sy| | |sy my ey]; try done.
  - apply f64_valid_finite in Hy as (? & ? & ?).
    destruct sx, sy; unfold total_key in Hle; simpl in *; try done; lia.
  - apply f64_valid_finite in Hx as (? & ? & ?).
    destruct sx, sy; unfold total_key in Hle; simpl in *; try done; lia.
  - apply f64_valid_finite in Hx as (? & ? & ?), Hy as (? & ? & ?).
    unfold total_key, bits_magnitude, bits_sign in Hle. cbn [SFcompare].
    change (Pos.compare_cont Eq) with Pos.compare.
    destruct sx, sy; try done; [| lia|]; destruct (Z.compare_spec ex ey); try done; try lia.
    + subst ey. destruct (Pos.compare_spec mx my); simpl; try done; lia.
    + subst ey. destruct (Pos.compare_spec mx my); simpl; try done; lia.
Qed.

Example as_secs_f64_hour : as_secs_f64 (duration_from_secs 3600) = f64_of_Z 3600.
Proof. vm_compute. reflexivity. Qed.
Example f64_of_decimal_half : f64_of_decimal 15 1 = f64_div (f64_of_Z 3) (f64_of_Z 2).
Proof. vm_compute. reflexivity. Qed.
