(* ===== verification/Text.v ===== *)
(** * Text: what the code uses of [str]

    Strings are their UTF-8 bytes. This file holds the standard library's string
    operations the parsers call: trimming Unicode white space, splitting at an
    ASCII byte, ASCII case folding and [FromStr] of integers and floats, each with
    the lemmas the parsers' theorems share. *)

From Stdlib Require Import SpecFloat Ascii.
From S2P Require Export F64.

Local Open Scope string_scope.
Local Open Scope list_scope.
Local Open Scope Z_scope.

(** A byte, and a test on its code. *)
Definition code (a : ascii) : Z := Z.of_N (N_of_ascii a).
Definition in_range (lo hi : Z) (a : ascii) : bool := (lo <=? code a) && (code a <=? hi).
Definition is_digit : ascii → bool := in_range 48 57.
Definition is_hexdigit (a : ascii) : bool :=
  in_range 48 57 a || in_range 65 70 a || in_range 97 102 a.
Definition is_ascii_alphanumeric (a : ascii) : bool :=
  in_range 48 57 a || in_range 65 90 a || in_range 97 122 a.
(** [str::len]. *)
Definition str_len (s : string) : Z := Z.of_nat (String.length s).
Definition digit_value (a : ascii) : Z := code a - 48.

Fixpoint all_bytes (p : ascii → bool) (s : string) : bool :=
  match s with EmptyString => true | String a s' => p a && all_bytes p s' end.
Fixpoint filter_bytes (p : ascii → bool) (s : string) : string :=
  match s with
  | EmptyString => EmptyString
  | String a s' => if p a then String a (filter_bytes p s') else filter_bytes p s'
  end.
Fixpoint rev_string (s acc : string) : string :=
  match s with EmptyString => acc | String a s' => rev_string s' (String a acc) end.
Definition str_reverse (s : string) : string := rev_string s "".
#[global] Arguments str_reverse : simpl never.

(** ** [str::trim]: the white space of [char::is_whitespace], by its encodings *)

Definition ws1 (a : ascii) : bool := in_range 9 13 a || (code a =? 32).
(** U+0085, U+00A0. *)
Definition ws2 (a b : ascii) : bool :=
  (code a =? 194) && ((code b =? 133) || (code b =? 160)).
(** U+1680; U+2000 to U+200A, U+2028, U+2029, U+202F; U+205F; U+3000. *)
Definition ws3 (a b c : ascii) : bool :=
  ((code a =? 225) && (code b =? 154) && (code c =? 128))
  || ((code a =? 226) && (code b =? 128)
      && (in_range 128 138 c || (code c =? 168) || (code c =? 169) || (code c =? 175)))
  || ((code a =? 226) && (code b =? 129) && (code c =? 159))
  || ((code a =? 227) && (code b =? 128) && (code c =? 128)).

Fixpoint trim_start (s : string) : string :=
  match s with
  | String a s1 =>
      if ws1 a then trim_start s1
      else match s1 with
           | String b s2 =>
               if ws2 a b then trim_start s2
               else match s2 with
                    | String c s3 => if ws3 a b c then trim_start s3 else s
                    | EmptyString => s
                    end
           | EmptyString => s
           end
  | EmptyString => EmptyString
  end.

(** The same from the end, on the reversed bytes. *)
Fixpoint trim_start_reversed (s : string) : string :=
  match s with
  | String a s1 =>
      if ws1 a then trim_start_reversed s1
      else match s1 with
           | String b s2 =>
               if ws2 b a then trim_start_reversed s2
               else match s2 with
                    | String c s3 => if ws3 c b a then trim_start_reversed s3 else s
                    | EmptyString => s
                    end
           | EmptyString => s
           end
  | EmptyString => EmptyString
  end.
Definition trim_end (s : string) : string := str_reverse (trim_start_reversed (str_reverse s)).
Definition trim (s : string) : string := trim_end (trim_start s).

(** [trim_end_matches(c)] for one ASCII character. *)
Fixpoint drop_leading (c : ascii) (s : string) : string :=
  match s with
  | String a s' => if Ascii.eqb a c then drop_leading c s' else s
  | EmptyString => EmptyString
  end.
Definition trim_end_matches (c : ascii) (s : string) : string :=
  str_reverse (drop_leading c (str_reverse s)).

(** ** Splitting at an ASCII character *)

Fixpoint split_once (c : ascii) (s : string) : option (string * string) :=
  match s with
  | EmptyString => None
  | String a s' =>
      if Ascii.eqb a c then Some (EmptyString, s')
      else match split_once c s' with
           | Some (l, r) => Some (String a l, r)
           | None => None
           end
  end.

(** [str::split]: always at least one piece. *)
Fixpoint str_split (c : ascii) (s : string) : list string :=
  match s with
  | EmptyString => [EmptyString]
  | String a s' =>
      if Ascii.eqb a c then EmptyString :: str_split c s'
      else match str_split c s' with
           | p :: ps => String a p :: ps
           | [] => [String a EmptyString]
           end
  end.

(** [rsplit_once]: at the last occurrence. *)
Definition rsplit_once (c : ascii) (s : string) : option (string * string) :=
  match split_once c (str_reverse s) with
  | Some (r, l) => Some (str_reverse l, str_reverse r)
  | None => None
  end.

(** [join]. *)
Fixpoint str_join (sep : string) (l : list string) : string :=
  match l with
  | [] => EmptyString
  | [x] => x
  | x :: l' => x +:+ sep +:+ str_join sep l'
  end.

(** [splitn(n, c)]: at most [n] pieces, the last with whatever is left. *)
Fixpoint splitn (n : nat) (c : ascii) (s : string) : list string :=
  match n with
  | O => []
  | S O => [s]
  | S n' => match split_once c s with Some (l, r) => l :: splitn n' c r | None => [s] end
  end.

(** [strip_suffix] and [starts_with] of a literal. *)
Definition strip_suffix (p s : string) : option string :=
  str_reverse <$> strip_prefix (str_reverse p) (str_reverse s).
Definition starts_with (p s : string) : bool := bool_decide (is_Some (strip_prefix p s)).

(** [contains] of a literal. *)
Fixpoint contains (p s : string) : bool :=
  starts_with p s || match s with String _ s' => contains p s' | EmptyString => false end.

(** *** Lines *)

Definition lf : ascii := "010".
Definition cr : ascii := "013".
Definition strip_cr (s : string) : string :=
  match str_reverse s with
  | String a r => if Ascii.eqb a cr then str_reverse r else s
  | EmptyString => s
  end.
(** [str::lines]: a line ends with LF or CRLF; nothing follows a final line ending. *)
Fixpoint lines_of (pieces : list string) : list string :=
  match pieces with
  | [] => []
  | [last] => if String.eqb last "" then [] else [last]
  | piece :: pieces' => strip_cr piece :: lines_of pieces'
  end.
Definition lines (text : string) : list string := lines_of (str_split lf text).

(** The longest prefix whose bytes pass a test, and the rest. *)
Fixpoint span (p : ascii → bool) (s : string) : string * string :=
  match s with
  | String a s' =>
      if p a then let '(l, r) := span p s' in (String a l, r) else (EmptyString, s)
  | EmptyString => (EmptyString, EmptyString)
  end.

(** [trim_end_matches] of a set of bytes. *)
Definition trim_end_by (p : ascii → bool) (s : string) : string :=
  str_reverse (span p (str_reverse s)).2.

(** *** Words *)

(** The bytes of the white-space character at the front, [0] when there is none. *)
Definition space_len (s : string) : nat :=
  match s with
  | String a s1 =>
      if ws1 a then 1%nat
      else match s1 with
           | String b s2 =>
               if ws2 a b then 2%nat
               else match s2 with
                    | String c _ => if ws3 a b c then 3%nat else O
                    | EmptyString => O
                    end
           | EmptyString => O
           end
  | EmptyString => O
  end.
Definition emit_word (reversed : string) (words : list string) : list string :=
  if String.eqb reversed "" then words else str_reverse reversed :: words.
(** [split_whitespace], with the bytes of a white-space character still to skip and the word
    read so far, reversed. *)
Fixpoint words_from (skip : nat) (reversed s : string) : list string :=
  match s with
  | EmptyString => emit_word reversed []
  | String a s' =>
      match skip, space_len s with
      | S skip', _ => words_from skip' reversed s'
      | O, O => words_from O (String a reversed) s'
      | O, S skip' => emit_word reversed (words_from skip' "" s')
      end
  end.
Definition split_whitespace (s : string) : list string := words_from O "" s.

(** ** UTF-8 *)

Definition cont (a : ascii) : bool := in_range 128 191 a.
Definition two_byte (a b : ascii) : bool := in_range 194 223 a && cont b.
Definition three_byte (a b c : ascii) : bool :=
  ((code a =? 224) && in_range 160 191 b || in_range 225 236 a && cont b
   || (code a =? 237) && in_range 128 159 b || in_range 238 239 a && cont b) && cont c.
Definition four_byte (a b c d : ascii) : bool :=
  ((code a =? 240) && in_range 144 191 b || in_range 241 243 a && cont b
   || (code a =? 244) && in_range 128 143 b) && cont c && cont d.

(** [str::from_utf8] succeeds. *)
Fixpoint is_utf8 (s : string) : bool :=
  match s with
  | EmptyString => true
  | String a s1 =>
      if code a <? 128 then is_utf8 s1
      else match s1 with
           | EmptyString => false
           | String b s2 =>
               if two_byte a b then is_utf8 s2
               else match s2 with
                    | EmptyString => false
                    | String c s3 =>
                        if three_byte a b c then is_utf8 s3
                        else match s3 with
                             | EmptyString => false
                             | String d s4 => four_byte a b c d && is_utf8 s4
                             end
                    end
           end
  end.

(** ** [String::from_utf8_lossy] *)

(** The length of the character a text starts with, zero where it is not valid. *)
Definition utf8_len (s : string) : nat :=
  match s with
  | String a r =>
      if code a <? 128 then 1%nat
      else match r with
      | String b r =>
          if two_byte a b then 2%nat
          else match r with
          | String c r =>
              if three_byte a b c then 3%nat
              else match r with String d _ => if four_byte a b c d then 4%nat else O | "" => O end
          | "" => O
          end
      | "" => O
      end
  | "" => O
  end.
(** Whether two bytes start a longer character. *)
Definition starts_three (a b : ascii) : bool := three_byte a b "128".
Definition starts_four (a b : ascii) : bool := four_byte a b "128" "128".
(** How many bytes one replacement character stands for: the longest start of a character. *)
Definition invalid_len (s : string) : nat :=
  match s with
  | String a (String b r) =>
      if starts_three a b then 2%nat
      else if starts_four a b then match r with String c _ => if cont c then 3%nat else 2%nat | "" => 2%nat end
      else 1%nat
  | _ => 1%nat
  end.
Definition replacement : string := String "239" (String "191" (String "189" "")).
Fixpoint lossy_from (pass skip : nat) (s : string) : string :=
  match s with
  | "" => ""
  | String a r =>
      match pass, skip with
      | S pass, _ => String a (lossy_from pass O r)
      | O, S skip => lossy_from O skip r
      | O, O =>
          match utf8_len s with
          | S pass => String a (lossy_from pass O r)
          | O => replacement +:+ lossy_from O (pred (invalid_len s)) r
          end
      end
  end.
Definition from_utf8_lossy (s : string) : string := lossy_from O O s.

(** ** ASCII case *)

Definition to_lower (a : ascii) : ascii :=
  if in_range 65 90 a then ascii_of_N (N_of_ascii a + 32) else a.
Fixpoint to_ascii_lowercase (s : string) : string :=
  match s with
  | EmptyString => EmptyString
  | String a s' => String (to_lower a) (to_ascii_lowercase s')
  end.
Definition eq_ignore_ascii_case (s t : string) : bool :=
  String.eqb (to_ascii_lowercase s) (to_ascii_lowercase t).

(** ** [FromStr] *)

(** Digits only, at least one, most significant first. *)
Fixpoint digits_value (acc : Z) (s : string) : option Z :=
  match s with
  | EmptyString => Some acc
  | String a s' => if is_digit a then digits_value (10 * acc + digit_value a) s' else None
  end.
Definition parse_digits (s : string) : option Z :=
  match s with EmptyString => None | _ => digits_value 0 s end.

Definition bounded (lo hi z : Z) : option Z :=
  if (lo <=? z) && (z <=? hi) then Some z else None.

(** An unsigned integer: one optional [+]; too large is an error. *)
Definition parse_unsigned (hi : Z) (s : string) : option Z :=
  let digits := match s with String "+" s' => s' | _ => s end in
  match parse_digits digits with Some z => bounded 0 hi z | None => None end.
(** A signed integer: one optional sign. *)
Definition parse_signed (lo hi : Z) (s : string) : option Z :=
  match s with
  | String "-" s' => match parse_digits s' with Some z => bounded lo hi (- z) | None => None end
  | String "+" s' => match parse_digits s' with Some z => bounded lo hi z | None => None end
  | _ => match parse_digits s with Some z => bounded lo hi z | None => None end
  end.

Definition parse_u64 : string → option Z := parse_unsigned u64_max.
Definition i64_min : Z := - 2 ^ 63.
Definition parse_i64 : string → option Z := parse_signed i64_min i64_max.

(** [f64::from_str]: an optional sign, then [inf], [infinity] or [nan] in any case, or
    digits with an optional point and an optional exponent; the nearest value. *)
Definition f64_of_scientific (d : Z) (k : nat) (e : Z) : f64 :=
  if 0 <=? e then f64_of_decimal (d * 10 ^ e) k
  else f64_of_decimal d (k + Z.to_nat (- e)).

Definition parse_exponent (s : string) : option Z :=
  match s with
  | EmptyString => Some 0
  | String a s' =>
      if Ascii.eqb a "e" || Ascii.eqb a "E" then
        match s' with
        | String "-" s'' => Z.opp <$> parse_digits s''
        | String "+" s'' => parse_digits s''
        | _ => parse_digits s'
        end
      else None
  end.

Definition parse_f64_magnitude (s : string) : option f64 :=
  if eq_ignore_ascii_case s "inf" || eq_ignore_ascii_case s "infinity"
  then Some (S754_infinity false)
  else if eq_ignore_ascii_case s "nan" then Some S754_nan
  else
    let '(whole, rest) := span is_digit s in
    let '(fraction, rest) :=
      match rest with String "." r => span is_digit r | _ => (EmptyString, rest) end in
    match digits_value 0 (whole +:+ fraction), parse_exponent rest with
    | Some d, Some e =>
        if (String.length (whole +:+ fraction) =? 0)%nat then None
        else Some (f64_of_scientific d (String.length fraction) e)
    | _, _ => None
    end.
Definition parse_f64 (s : string) : option f64 :=
  match s with
  | String "-" s' => SFopp <$> parse_f64_magnitude s'
  | String "+" s' => parse_f64_magnitude s'
  | _ => parse_f64_magnitude s
  end.

Example parse_f64_plain : parse_f64 "2.5" = Some (f64_of_decimal 25 1).
Proof. reflexivity. Qed.
Example parse_f64_exponent : parse_f64 "25e-1" = Some (f64_of_decimal 25 1).
Proof. reflexivity. Qed.
Example parse_f64_dot : parse_f64 "." = None.
Proof. reflexivity. Qed.
Example trim_unicode :
  trim (String " " (String "194" (String "160" "a b"))) = "a b".
Proof. reflexivity. Qed.

(** ** Lemmas *)

Lemma rev_string_app s acc t : rev_string s (acc +:+ t) = rev_string s acc +:+ t.
Proof.
  revert acc. induction s as [|a s IH]; intros acc; simpl; [done|]. apply (IH (String a acc)).
Qed.

Lemma string_app_cons a s t : String a s +:+ t = String a (s +:+ t).
Proof. done. Qed.

Lemma str_reverse_cons a s : str_reverse (String a s) = str_reverse s +:+ String a "".
Proof. unfold str_reverse. simpl. by rewrite <-rev_string_app. Qed.

Lemma str_reverse_snoc s a : str_reverse (s +:+ String a "") = String a (str_reverse s).
Proof.
  induction s as [|b s IH]; [done|]. by rewrite string_app_cons, !str_reverse_cons, IH.
Qed.

Lemma str_reverse_involutive s : str_reverse (str_reverse s) = s.
Proof. induction s as [|a s IH]; [done|]. by rewrite str_reverse_cons, str_reverse_snoc, IH. Qed.

Lemma length_append (s t : string) :
  String.length (s +:+ t) = (String.length s + String.length t)%nat.
Proof. induction s as [|a s IH]; [done|]. rewrite string_app_cons. simpl. by rewrite IH. Qed.

Lemma string_app_assoc (s t u : string) : (s +:+ t) +:+ u = s +:+ (t +:+ u).
Proof. induction s as [|a s IH]; [done|]. by rewrite !string_app_cons, IH. Qed.

Lemma string_app_nil (s : string) : s +:+ "" = s.
Proof. induction s as [|a s IH]; [done|]. by rewrite !string_app_cons, IH. Qed.

Lemma str_reverse_app s t : str_reverse (s +:+ t) = str_reverse t +:+ str_reverse s.
Proof.
  induction s as [|a s IH]; [by rewrite string_app_nil|].
  rewrite string_app_cons, !str_reverse_cons, IH. by rewrite string_app_assoc.
Qed.

Lemma strip_suffix_app s p : strip_suffix p (s +:+ p) = Some s.
Proof.
  unfold strip_suffix. rewrite str_reverse_app, strip_prefix_app. cbn. by rewrite str_reverse_involutive.
Qed.
Lemma strip_suffix_Some p s r : strip_suffix p s = Some r → s = r +:+ p.
Proof.
  unfold strip_suffix. destruct (strip_prefix _ _) as [x|] eqn:E; [|done]. intros [= <-].
  apply strip_prefix_Some in E. by rewrite <- (str_reverse_involutive s), E, str_reverse_app, str_reverse_involutive.
Qed.

Lemma is_utf8_ascii s : all_bytes (λ a, code a <? 128) s = true → is_utf8 s = true.
Proof.
  induction s as [|a s IH]; [done|]. cbn [all_bytes is_utf8]. intros [Ha Hs]%andb_true_iff.
  rewrite Ha. by apply IH.
Qed.

Lemma all_bytes_app p s t : all_bytes p (s +:+ t) = all_bytes p s && all_bytes p t.
Proof.
  induction s as [|a s IH]; [done|]. rewrite string_app_cons. simpl. by rewrite IH, andb_assoc.
Qed.

Lemma all_bytes_impl (p q : ascii → bool) s :
  (∀ a, p a = true → q a = true) → all_bytes p s = true → all_bytes q s = true.
Proof.
  intros Hpq. induction s as [|a s IH]; simpl; [done|]. intros ?. booleans.
  rewrite (Hpq a), IH; done.
Qed.

Lemma all_bytes_str_reverse p s : all_bytes p (str_reverse s) = all_bytes p s.
Proof.
  induction s as [|a s IH]; [done|]. rewrite str_reverse_cons, all_bytes_app, IH. simpl.
  by rewrite andb_true_r, andb_comm.
Qed.

(** Splitting at a byte the left part does not contain. *)
Lemma split_once_app c s t :
  all_bytes (λ a, negb (Ascii.eqb a c)) s = true →
  split_once c (s +:+ String c t) = Some (s, t).
Proof.
  induction s as [|a s IH]; simpl; intros Hs; [by rewrite Ascii.eqb_refl|]. booleans.
  destruct (Ascii.eqb a c) eqn:E; [done|]. by rewrite IH.
Qed.

Lemma split_once_Some c s l r :
  split_once c s = Some (l, r) →
  s = l +:+ String c r ∧ all_bytes (λ a, negb (Ascii.eqb a c)) l = true.
Proof.
  revert l. induction s as [|a s IH]; intros l; simpl; [done|].
  destruct (Ascii.eqb a c) eqn:E.
  - intros [= <- <-]. apply Ascii.eqb_eq in E. by subst.
  - destruct (split_once c s) as [[l' r']|]; [|done]. intros [= <- <-].
    destruct (IH l' eq_refl) as [-> ?]. simpl. by rewrite E.
Qed.

Lemma split_once_None c s :
  split_once c s = None ↔ all_bytes (λ a, negb (Ascii.eqb a c)) s = true.
Proof.
  induction s as [|a s IH]; simpl; [done|]. destruct (Ascii.eqb a c); simpl; [done|].
  destruct (split_once c s) as [[]|]; naive_solver.
Qed.

Lemma split_single c s :
  all_bytes (λ a, negb (Ascii.eqb a c)) s = true → str_split c s = [s].
Proof.
  induction s as [|a s IH]; simpl; intros Hs; [done|]. booleans.
  destruct (Ascii.eqb a c); [done|]. by rewrite IH.
Qed.

Lemma split_app c s t :
  all_bytes (λ a, negb (Ascii.eqb a c)) s = true →
  str_split c (s +:+ String c t) = s :: str_split c t.
Proof.
  induction s as [|a s IH]; simpl; intros Hs; [by rewrite Ascii.eqb_refl|]. booleans.
  destruct (Ascii.eqb a c); [done|]. by rewrite IH.
Qed.

(** Splitting a joined list gives it back. *)
Lemma split_join c l :
  l ≠ [] → Forall (λ s, all_bytes (λ a, negb (Ascii.eqb a c)) s = true) l →
  str_split c (str_join (String c "") l) = l.
Proof.
  intros Hne HF. induction HF as [|x l Hx Hl IH]; [done|].
  destruct l as [|y l]; simpl; [by apply split_single|].
  change (String c "" +:+ ?t) with (String c t).
  rewrite split_app by done. f_equal. by apply IH.
Qed.

(** Joining the pieces of a split gives the text back. *)
Lemma join_split c s : str_join (String c "") (str_split c s) = s.
Proof.
  induction s as [|a s IH]; [done|]. cbn [str_split].
  destruct (Ascii.eqb a c) eqn:E.
  - apply Ascii.eqb_eq in E as ->. destruct (str_split c s) as [|p ps] eqn:Hs; [|cbn [str_join]].
    { destruct s; cbn in Hs; repeat case_match; discriminate. }
    cbn [str_join] in IH. by rewrite IH.
  - destruct (str_split c s) as [|p ps]; [by rewrite <- IH|].
    cbn [str_join] in IH |- *. destruct ps; [by rewrite IH|]. by rewrite <- IH.
Qed.

Lemma str_split_nonempty c s : str_split c s ≠ [].
Proof. destruct s; cbn; repeat case_match; discriminate. Qed.
Lemma split_at c s t : str_split c (s +:+ String c t) = str_split c s ++ str_split c t.
Proof.
  induction s as [|a s IH]; simpl; [by rewrite Ascii.eqb_refl|].
  rewrite IH. destruct (Ascii.eqb a c); [done|].
  pose proof (str_split_nonempty c s). by destruct (str_split c s).
Qed.

(** No piece of a split holds the separator. *)
Lemma split_no_sep c s part :
  part ∈ str_split c s → all_bytes (λ a, negb (Ascii.eqb a c)) part = true.
Proof.
  revert part. induction s as [|a s IH]; intros part; cbn [str_split].
  { intros ->%list_elem_of_singleton. done. }
  destruct (Ascii.eqb a c) eqn:E.
  { intros [->|Hin]%elem_of_cons; [done|by apply IH]. }
  destruct (str_split c s) as [|p ps].
  { intros ->%list_elem_of_singleton. cbn. by rewrite E. }
  intros [->|Hin]%elem_of_cons; [|apply IH; by right].
  cbn [all_bytes]. rewrite E. cbn. apply IH. by left.
Qed.

Lemma span_app p s : s = (span p s).1 +:+ (span p s).2 ∧ all_bytes p (span p s).1 = true.
Proof.
  induction s as [|a s [IH1 IH2]]; [done|]. cbn [span]. destruct (p a) eqn:E; [|done].
  destruct (span p s) as [l r] eqn:Hs. cbn in IH1, IH2 |- *. rewrite E, IH2. split; [|done].
  by rewrite IH1 at 1.
Qed.

Lemma digits_value_nonneg acc s z : 0 ≤ acc → digits_value acc s = Some z → acc ≤ z.
Proof.
  revert acc. induction s as [|a s IH]; intros acc Hacc; simpl; [intros [= <-]; lia|].
  destruct (is_digit a) eqn:Hd; [|done]. unfold is_digit, in_range in Hd. booleans.
  intros Hs. apply IH in Hs; unfold digit_value in *; lia.
Qed.

Lemma bounded_Some lo hi z z' : bounded lo hi z = Some z' ↔ z' = z ∧ lo ≤ z ≤ hi.
Proof.
  unfold bounded. destruct ((lo <=? z) && (z <=? hi)) eqn:E.
  - booleans. naive_solver.
  - split; [done|]. intros [-> ?]. rewrite andb_false_iff in E. booleans. destruct E; booleans; lia.
Qed.

Lemma parse_unsigned_bounds hi s z : parse_unsigned hi s = Some z → 0 ≤ z ≤ hi.
Proof.
  unfold parse_unsigned. destruct (parse_digits _); [|done]. rewrite bounded_Some. naive_solver.
Qed.
