(* ===== verification/Engine.v ===== *)
(** * Engine: what the daemon reads from the Docker command line

    The command results and read-only reads of [bosn-engine/src/lib.rs] and
    [bosn-engine/src/managed_reads.rs], as functions of the captured output. A command that
    could not be run to its end (spawn failure, deadline, output limit) is an [Err] with the
    displayed error. The lossy UTF-8 decoding of standard error is the identity here: it
    replaces bytes that are neither line ends, white space nor part of an ASCII word. *)

From Stdlib Require Import Ascii.
From stdpp Require Import pretty.
From S2P Require Export Text.

Local Open Scope string_scope.
Local Open Scope list_scope.
Local Open Scope Z_scope.
Local Open Scope bosn_scope.

Record CommandResult := { cr_exit_code : Z; cr_stdout : string; cr_stderr : string }.
Definition cr_ok (r : CommandResult) : bool := cr_exit_code r =? 0.

(** Only Docker's own "no such" answer, and nothing beside it, proves absence. *)
Definition reports_missing (r : CommandResult) : bool :=
  let errors := filterb (λ line, negb (String.eqb (trim line) ""))
                        (lines (to_ascii_lowercase (cr_stderr r))) in
  (cr_exit_code r =? 1) && negb (bool_decide (errors = []))
    && forallb (contains "no such ") errors.

(** ** Reads *)

Inductive CensusRead := Document (text : string) | Unavailable (detail : string).

Definition utf8_document (what text : string) : CensusRead :=
  if is_utf8 text then Document text else Unavailable (what +:+ " returned non-UTF-8 output").
Definition census_read (r : CommandResult) (what : string) : CensusRead :=
  if negb (cr_ok r) then Unavailable (what +:+ " exited with " +:+ pretty (cr_exit_code r))
  else utf8_document what (cr_stdout r).

(** A read of several named objects: what is missing is absent from the document. *)
Definition inspect_read (r : CommandResult) (what : string) : CensusRead :=
  if reports_missing r then
    if is_utf8 (cr_stdout r) && String.eqb (trim (cr_stdout r)) "" then Document "[]"
    else utf8_document what (cr_stdout r)
  else census_read r what.

(** Trimmed, non-empty lines. *)
Definition text_lines (text : string) : list string :=
  filterb (λ line, negb (String.eqb line "")) (trim <$> lines text).
Definition split_lines (r : CommandResult) : list string :=
  if negb (cr_ok r) then []
  else text_lines (if is_utf8 (cr_stdout r) then cr_stdout r else "").

(** ** Commands *)

Definition ps_filtered (filter : string) : list string :=
  ["ps"; "-a"; "-q"; "--no-trunc"; "--filter"; filter].
Definition container_ids_with_label (key : string) : list string := ps_filtered ("label=" +:+ key).
Definition volume_names_with_label (key : string) : list string :=
  ["volume"; "ls"; "-q"; "--filter"; "label=" +:+ key].
Definition image_ids_with_label (key : string) : list string :=
  ["image"; "ls"; "-a"; "-q"; "--no-trunc"; "--filter"; "label=" +:+ key].
Definition image_ids_dangling : list string :=
  ["image"; "ls"; "-a"; "-q"; "--no-trunc"; "--filter"; "dangling=true"].
Definition image_ids_with_reference (repository : string) : list string :=
  ["image"; "ls"; "-q"; "--no-trunc"; "--filter"; "reference=" +:+ repository].
Definition inspect_containers (ids : list string) : list string :=
  ["inspect"; "--type"; "container"; "--size"] ++ ids.
Definition inspect_volumes (names : list string) : list string := ["volume"; "inspect"] ++ names.
Definition inspect_images (ids : list string) : list string := ["image"; "inspect"] ++ ids.
Definition system_df_verbose : list string := ["system"; "df"; "-v"; "--format"; "json"].
Definition container_ids_using_volume (name : string) : list string :=
  ps_filtered ("volume=" +:+ name).
Definition container_ids_using_image (id : string) : list string := ps_filtered ("ancestor=" +:+ id).

(** An empty list of users is read off a failed command as well as off a successful one. *)
Lemma split_lines_failed r : cr_ok r = false → split_lines r = [].
Proof. intros H. unfold split_lines. by rewrite H. Qed.
