(* ===== verification/Labels.v ===== *)
(** * Resource labels: kinds, scopes, retention classes and the ownership contract

    Models the label half of [crates/bosn-core/src/lib.rs]: [ResourceKind],
    [Scope], [Retention], [ResourceLabels] with [new], [to_map], [parse] and
    [is_owned_by], [LabelError] and [ownership_from_labels]. A [BTreeMap] is a
    [gmap]; an iterator of pairs is a list, collected with the last entry of a
    key winning as [BTreeMap::from_iter] does. *)

From S2P Require Export Prelude.

Local Open Scope string_scope.
Local Open Scope list_scope.
Local Open Scope bosn_scope.

Definition NAMESPACE := "com.zackees.bosn".
Definition LABEL_REGISTRY := "com.zackees.bosn.registry".
Definition LABEL_KIND := "com.zackees.bosn.kind".
Definition LABEL_STACK := "com.zackees.bosn.stack".
Definition LABEL_GENERATION := "com.zackees.bosn.generation".
Definition LABEL_SCOPE := "com.zackees.bosn.scope".
Definition LABEL_WORKSPACE := "com.zackees.bosn.workspace".
Definition LABEL_CREATED := "com.zackees.bosn.created".
Definition LABEL_RETENTION := "com.zackees.bosn.retention".
Definition REQUIRED_LABELS : list string :=
  [LABEL_REGISTRY; LABEL_KIND; LABEL_STACK; LABEL_GENERATION; LABEL_SCOPE;
   LABEL_WORKSPACE; LABEL_CREATED].

(** ** Enumerations and their text forms *)

Inductive ResourceKind := Container | Volume | Image | Builder | Network.
#[global] Instance ResourceKind_eq_dec : EqDecision ResourceKind.
Proof. solve_decision. Defined.

Definition ResourceKind_as_str (k : ResourceKind) : string :=
  match k with
  | Container => "container" | Volume => "volume" | Image => "image"
  | Builder => "builder" | Network => "network"
  end.
Definition ResourceKind_parse (v : string) : option ResourceKind :=
  if v =? "container" then Some Container
  else if v =? "volume" then Some Volume
  else if v =? "image" then Some Image
  else if v =? "builder" then Some Builder
  else if v =? "network" then Some Network
  else None.

Inductive Scope := Spec | Stack | Machine.
#[global] Instance Scope_eq_dec : EqDecision Scope.
Proof. solve_decision. Defined.

Definition Scope_as_str (s : Scope) : string :=
  match s with Spec => "spec" | Stack => "stack" | Machine => "machine" end.
Definition Scope_parse (v : string) : option Scope :=
  if v =? "spec" then Some Spec
  else if v =? "stack" then Some Stack
  else if v =? "machine" then Some Machine
  else None.

Inductive Retention := Warm | Pinned.
#[global] Instance Retention_eq_dec : EqDecision Retention.
Proof. solve_decision. Defined.

Definition Retention_as_str (r : Retention) : string :=
  match r with Warm => "warm" | Pinned => "pinned" end.
Definition Retention_parse (v : string) : option Retention :=
  if v =? "warm" then Some Warm else if v =? "pinned" then Some Pinned else None.

(** An enumeration with a text form: [parse] inverts [as_str]. *)
Class TextEnum {A} (as_str : A → string) (parse : string → option A) : Prop := {
  parse_as_str a : parse (as_str a) = Some a;
  as_str_parse v a : parse v = Some a → as_str a = v;
  as_str_nonempty a : as_str a ≠ ""
}.

Ltac solve_text_enum parse :=
  split;
  [ by intros []
  | intros v []; unfold parse;
    repeat (case_match; [intros; simplify_eq; symmetry; by apply String.eqb_eq|]); done
  | by intros [] ].

#[global] Instance ResourceKind_text : TextEnum ResourceKind_as_str ResourceKind_parse.
Proof. solve_text_enum ResourceKind_parse. Qed.
#[global] Instance Scope_text : TextEnum Scope_as_str Scope_parse.
Proof. solve_text_enum Scope_parse. Qed.
#[global] Instance Retention_text : TextEnum Retention_as_str Retention_parse.
Proof. solve_text_enum Retention_parse. Qed.

(** ** [ResourceLabels] *)

Inductive LabelError := Incomplete | EmptyRegistry | UnknownKind | UnknownScope | UnknownRetention.

Record ResourceLabels := mkLabels {
  rl_registry : string;
  rl_kind : ResourceKind;
  rl_stack : string;
  rl_generation : string;
  rl_scope : Scope;
  rl_workspace : string;
  rl_created : string;
  rl_retention : Retention;
  rl_retention_explicit : bool
}.

Definition is_empty (s : string) : bool := s =? "".

Lemma is_empty_true s : is_empty s = true ↔ s = "".
Proof. apply String.eqb_eq. Qed.
Lemma is_empty_false s : is_empty s = false ↔ s ≠ "".
Proof. apply String.eqb_neq. Qed.

Definition ResourceLabels_new (registry : string) (kind : ResourceKind)
    (stack generation : string) (scope : Scope) (workspace created : string)
    (retention : option Retention) : result LabelError ResourceLabels :=
  if is_empty registry then Err EmptyRegistry
  else if existsb is_empty [stack; generation; workspace; created] then Err Incomplete
  else Ok {| rl_registry := registry; rl_kind := kind; rl_stack := stack;
             rl_generation := generation; rl_scope := scope; rl_workspace := workspace;
             rl_created := created;
             rl_retention := default Warm retention;
             rl_retention_explicit := bool_decide (is_Some retention) |}.

Definition to_map (l : ResourceLabels) : gmap string string :=
  let m := <[LABEL_CREATED := rl_created l]>
          (<[LABEL_WORKSPACE := rl_workspace l]>
          (<[LABEL_SCOPE := Scope_as_str (rl_scope l)]>
          (<[LABEL_GENERATION := rl_generation l]>
          (<[LABEL_STACK := rl_stack l]>
          (<[LABEL_KIND := ResourceKind_as_str (rl_kind l)]>
          (<[LABEL_REGISTRY := rl_registry l]> ∅)))))) in
  if rl_retention_explicit l || bool_decide (rl_retention l = Pinned) then
    <[LABEL_RETENTION := match rl_retention l with Warm => "warm" | Pinned => "pinned" end]> m
  else m.

(** [into_iter().collect::<BTreeMap<_, _>>()]. *)
Definition collect_map {V} (raw : list (string * V)) : gmap string V :=
  foldl (λ m kv, <[kv.1 := kv.2]> m) ∅ raw.

(** The closure [get] of [parse]: a present, non-empty value. *)
Definition get_label (m : gmap string string) (key : string) : result LabelError string :=
  match m !! key with
  | Some x => if is_empty x then Err Incomplete else Ok x
  | None => Err Incomplete
  end.

Definition parse_map (m : gmap string string) : result LabelError ResourceLabels :=
  let? kind_text := get_label m LABEL_KIND in
  let? kind := ok_or (ResourceKind_parse kind_text) UnknownKind in
  let? scope_text := get_label m LABEL_SCOPE in
  let? scope := ok_or (Scope_parse scope_text) UnknownScope in
  let? ret := match m !! LABEL_RETENTION with
              | None => Ok None
              | Some x =>
                  if is_empty x then Err UnknownRetention
                  else let? r := ok_or (Retention_parse x) UnknownRetention in Ok (Some r)
              end in
  let? registry := get_label m LABEL_REGISTRY in
  let? stack := get_label m LABEL_STACK in
  let? generation := get_label m LABEL_GENERATION in
  let? workspace := get_label m LABEL_WORKSPACE in
  let? created := get_label m LABEL_CREATED in
  ResourceLabels_new registry kind stack generation scope workspace created ret.

Definition ResourceLabels_parse (raw : list (string * string)) : result LabelError ResourceLabels :=
  parse_map (collect_map raw).

Definition is_owned_by (l : ResourceLabels) (reg : string) : bool :=
  negb (is_empty reg) && (rl_registry l =? reg) && negb (is_empty (rl_registry l)) &&
  negb (is_empty (rl_stack l)) && negb (is_empty (rl_generation l)) &&
  negb (is_empty (rl_workspace l)) && negb (is_empty (rl_created l)).

Definition ownership_from_labels (raw : list (string * string)) (reg : string) : bool :=
  match ResourceLabels_parse raw with Ok l => is_owned_by l reg | Err _ => false end.

(** ** Collecting pairs *)

Lemma collect_map_app {V} (l k : list (string * V)) :
  collect_map (l ++ k) = foldl (λ m kv, <[kv.1 := kv.2]> m) (collect_map l) k.
Proof. unfold collect_map. apply foldl_app. Qed.

Lemma collect_map_rev {V} (raw : list (string * V)) :
  collect_map raw = list_to_map (reverse raw).
Proof.
  induction raw as [|[k v] raw IH] using rev_ind; [done|].
  rewrite collect_map_app, reverse_snoc, IH. done.
Qed.

Lemma collect_map_to_list {V} (m : gmap string V) : collect_map (map_to_list m) = m.
Proof.
  rewrite collect_map_rev. rewrite <-(list_to_map_to_list m) at 2.
  apply list_to_map_proper; [|apply reverse_Permutation].
  rewrite fmap_reverse, reverse_Permutation. apply NoDup_fst_map_to_list.
Qed.

(** Iterating the map in key order loses nothing either. *)
Lemma collect_map_perm {V} (m : gmap string V) raw :
  raw ≡ₚ map_to_list m → collect_map raw = m.
Proof.
  intros HP. rewrite collect_map_rev, <-(list_to_map_to_list m).
  assert (NoDup (reverse raw).*1).
  { rewrite fmap_reverse, reverse_Permutation, HP. apply NoDup_fst_map_to_list. }
  apply list_to_map_proper; [done|]. by rewrite reverse_Permutation.
Qed.

(** ** Well-formed labels: what every constructor returns *)

Record labels_wf (l : ResourceLabels) : Prop := {
  wf_registry : rl_registry l ≠ "";
  wf_stack : rl_stack l ≠ "";
  wf_generation : rl_generation l ≠ "";
  wf_workspace : rl_workspace l ≠ "";
  wf_created : rl_created l ≠ "";
  wf_retention : rl_retention_explicit l = false → rl_retention l = Warm
}.

Lemma new_Ok registry kind stack generation scope workspace created ret l :
  ResourceLabels_new registry kind stack generation scope workspace created ret = Ok l →
  labels_wf l.
Proof.
  unfold ResourceLabels_new. simpl. intros H. split_match.
  booleans. rewrite !is_empty_false in *.
  split; simpl; try done. by destruct ret.
Qed.

Lemma new_wf l :
  labels_wf l →
  ResourceLabels_new (rl_registry l) (rl_kind l) (rl_stack l) (rl_generation l) (rl_scope l)
    (rl_workspace l) (rl_created l)
    (if rl_retention_explicit l then Some (rl_retention l) else None) = Ok l.
Proof.
  intros [H1 H2 H3 H4 H5 H6]. unfold ResourceLabels_new. simpl.
  rewrite <-is_empty_false in *. rewrite H1, H2, H3, H4, H5. simpl.
  destruct l as [r k s g sc w c rt []]; simpl in *; [done|].
  by rewrite H6.
Qed.

(** ** The round trip between labels and the label map *)

Lemma to_map_lookup l :
  to_map l !! LABEL_REGISTRY = Some (rl_registry l) ∧
  to_map l !! LABEL_KIND = Some (ResourceKind_as_str (rl_kind l)) ∧
  to_map l !! LABEL_STACK = Some (rl_stack l) ∧
  to_map l !! LABEL_GENERATION = Some (rl_generation l) ∧
  to_map l !! LABEL_SCOPE = Some (Scope_as_str (rl_scope l)) ∧
  to_map l !! LABEL_WORKSPACE = Some (rl_workspace l) ∧
  to_map l !! LABEL_CREATED = Some (rl_created l).
Proof. unfold to_map. destruct (_ || _); split_and!; reflexivity. Qed.

Lemma to_map_retention l :
  to_map l !! LABEL_RETENTION =
  if rl_retention_explicit l || bool_decide (rl_retention l = Pinned)
  then Some (Retention_as_str (rl_retention l)) else None.
Proof.
  unfold to_map. destruct (_ || _); [|reflexivity]. by destruct (rl_retention l).
Qed.

Lemma get_label_Ok m key x : m !! key = Some x → x ≠ "" → get_label m key = Ok x.
Proof. intros Hk Hx. unfold get_label. by rewrite Hk, (proj2 (is_empty_false x) Hx). Qed.

Lemma get_label_inv m key x : get_label m key = Ok x → m !! key = Some x ∧ x ≠ "".
Proof. unfold get_label. intros. split_match. by rewrite <-is_empty_false. Qed.

Lemma parse_map_to_map l : labels_wf l → parse_map (to_map l) = Ok l.
Proof.
  intros Hwf. pose proof (to_map_lookup l) as (H1 & H2 & H3 & H4 & H5 & H6 & H7).
  pose proof Hwf as [W1 W2 W3 W4 W5 W6]. unfold parse_map.
  rewrite (get_label_Ok _ _ _ H2) by apply as_str_nonempty. rewrite parse_as_str. simpl.
  rewrite (get_label_Ok _ _ _ H5) by apply as_str_nonempty. rewrite parse_as_str. simpl.
  rewrite (get_label_Ok _ _ _ H1), (get_label_Ok _ _ _ H3), (get_label_Ok _ _ _ H4),
    (get_label_Ok _ _ _ H6), (get_label_Ok _ _ _ H7), to_map_retention by done.
  etrans; [|exact (new_wf l Hwf)]. destruct (rl_retention_explicit l) eqn:He; simpl.
  - by destruct (rl_retention l).
  - by rewrite W6.
Qed.

(** Invert a successful [parse_map] into its lookups. *)
Lemma parse_map_inv m l :
  parse_map m = Ok l →
  labels_wf l ∧ to_map l ⊆ m ∧
  m !! LABEL_RETENTION =
    (if rl_retention_explicit l then Some (Retention_as_str (rl_retention l)) else None).
Proof.
  unfold parse_map. intros H.
  destruct (get_label m LABEL_KIND) as [kt|] eqn:Hk; [|done].
  destruct (ok_or (ResourceKind_parse kt) _) as [k|] eqn:Hk'; [|done].
  destruct (get_label m LABEL_SCOPE) as [st|] eqn:Hs; [|done].
  destruct (ok_or (Scope_parse st) _) as [sc|] eqn:Hs'; [|done].
  destruct (match m !! LABEL_RETENTION with Some _ => _ | None => _ end) as [ret|] eqn:Hr; [|done].
  destruct (get_label m LABEL_REGISTRY) as [rg|] eqn:H1; [|done].
  destruct (get_label m LABEL_STACK) as [sk|] eqn:H3; [|done].
  destruct (get_label m LABEL_GENERATION) as [g|] eqn:H4; [|done].
  destruct (get_label m LABEL_WORKSPACE) as [w|] eqn:H6; [|done].
  destruct (get_label m LABEL_CREATED) as [c|] eqn:H7; [|done].
  apply ok_or_Ok, as_str_parse in Hk'. apply ok_or_Ok, as_str_parse in Hs'. subst kt st.
  apply get_label_inv in Hk as [Hk _], Hs as [Hs _], H1 as [H1 _], H3 as [H3 _],
    H4 as [H4 _], H6 as [H6 _], H7 as [H7 _].
  assert (m !! LABEL_RETENTION = Retention_as_str <$> ret) as Hret.
  { destruct (m !! LABEL_RETENTION) as [x|]; [|by simplify_eq].
    destruct (is_empty x); [done|]. destruct (ok_or _ _) as [r|] eqn:Hx; [|done].
    apply ok_or_Ok, as_str_parse in Hx as <-. by simplify_eq/=. }
  pose proof (new_Ok _ _ _ _ _ _ _ _ _ H) as Hwf. split; [done|].
  clear Hr. unfold ResourceLabels_new in H. simpl in H.
  destruct (is_empty rg); [done|]. destruct (is_empty sk || _); [done|]. simplify_eq/=.
  split; [|by destruct ret].
  unfold to_map. simpl.
  destruct ret as [[]|]; simpl in *;
    repeat (apply insert_subseteq_l; [done|]); apply map_empty_subseteq.
Qed.

(** Labels written with [to_map], iterated in any order, parse back to themselves. *)
Theorem labels_roundtrip l raw :
  labels_wf l → raw ≡ₚ map_to_list (to_map l) → ResourceLabels_parse raw = Ok l.
Proof.
  intros Hwf HP. unfold ResourceLabels_parse.
  rewrite (collect_map_perm _ _ HP). by apply parse_map_to_map.
Qed.

Definition sample_labels : ResourceLabels :=
  {| rl_registry := "r1"; rl_kind := Volume; rl_stack := "web"; rl_generation := "g1";
     rl_scope := Machine; rl_workspace := "/src"; rl_created := "now";
     rl_retention := Pinned; rl_retention_explicit := true |}.

Lemma labels_roundtrip_witness :
  ResourceLabels_parse (map_to_list (to_map sample_labels)) = Ok sample_labels.
Proof. apply (labels_roundtrip sample_labels); [by split|reflexivity]. Defined.

(** What [parse] accepts is well formed and says nothing the raw labels do not. *)
Theorem labels_parse_sound raw l :
  ResourceLabels_parse raw = Ok l → labels_wf l ∧ to_map l ⊆ collect_map raw.
Proof. intros H. apply parse_map_inv in H as (? & ? & _). done. Qed.

Lemma labels_parse_sound_witness :
  labels_wf sample_labels ∧
  to_map sample_labels ⊆ collect_map (map_to_list (to_map sample_labels)).
Proof.
  apply (labels_parse_sound (map_to_list (to_map sample_labels))). vm_compute. reflexivity.
Defined.

(** Ownership is exactly a complete label set that names the registry. *)
Lemma ownership_iff_labels raw reg :
  ownership_from_labels raw reg = true ↔
  ∃ l, ResourceLabels_parse raw = Ok l ∧ rl_registry l = reg.
Proof.
  unfold ownership_from_labels. split.
  - destruct (ResourceLabels_parse raw) as [l|] eqn:Hp; [|done]. unfold is_owned_by.
    intros H. booleans. exists l. split; [done|]. by apply String.eqb_eq.
  - intros (l & Hp & <-). rewrite Hp. apply parse_map_inv in Hp as ([H1 H2 H3 H4 H5 _] & _).
    unfold is_owned_by. rewrite <-is_empty_false in *.
    by rewrite H1, H2, H3, H4, H5, String.eqb_refl.
Qed.
