(* ===== verification/Lifecycle.v ===== *)
(** * Resource lifecycle policy: leases, consumer signals, pressure and collection

    Models the policy half of [crates/bosn-core/src/lib.rs]: lease expiry,
    [retention_signals], [Pressure::assess], [RetentionConfig],
    [container_should_stop], [evaluate] and [collectable_ordered]. Observations
    and the clock are inputs, as in the crate. *)

From Stdlib Require Import SpecFloat.
From S2P Require Export F64 Labels.

Local Open Scope string_scope.
Local Open Scope list_scope.

Inductive ResourceState := Active | Adopted | Done | Retired.
#[global] Instance ResourceState_eq_dec : EqDecision ResourceState.
Proof. solve_decision. Defined.

Definition ResourceState_as_str (s : ResourceState) : string :=
  match s with
  | Active => "active" | Adopted => "adopted" | Done => "done" | Retired => "retired"
  end.

Record ResourceSnapshot := mkSnapshot {
  rs_id : string;
  rs_name : string;
  rs_kind : ResourceKind;
  rs_stack : string;
  rs_generation : string;
  rs_scope : Scope;
  rs_workspace : string;
  rs_created_at : f64;
  rs_last_used : f64;
  rs_state : ResourceState;
  rs_retention : Retention
}.

Record LeaseSnapshot := mkLease {
  ls_id : string;
  ls_resource_id : string;
  ls_pid : Z;
  ls_proc_start : option f64;
  ls_heartbeat_at : f64;
  ls_ttl_seconds : f64
}.

Inductive Liveness :=
| ConfirmedDead
| Alive (observed_start : option f64)
| Unknown.

Record ObservedLease := mkObservedLease {
  ol_lease : LeaseSnapshot;
  ol_liveness : Liveness
}.

Definition lease_expired (lease : LeaseSnapshot) (now : f64) (observation : Liveness) : bool :=
  let elapsed := f64_sub now (ls_heartbeat_at lease) in
  if negb (is_finite now) || negb (is_finite (ls_heartbeat_at lease)) ||
     negb (is_finite (ls_ttl_seconds lease)) || f64_lt (ls_ttl_seconds lease) f64_zero ||
     negb (is_finite elapsed) || f64_le elapsed (ls_ttl_seconds lease)
  then false
  else match observation with ConfirmedDead => true | _ => false end.

Record RetentionSignals := mkSignals {
  superseded : bool;
  workspace_done : bool
}.
Definition RetentionSignals_default : RetentionSignals := mkSignals false false.

Record ConsumerUse := mkUse {
  cu_done : bool;
  cu_superseded : bool
}.

(** The loop of [retention_signals]: [saw] and [any_sup] are its mutable flags. *)
Fixpoint retention_signals_loop (saw any_sup : bool) (uses : list ConsumerUse) : RetentionSignals :=
  match uses with
  | u :: rest =>
      if negb (cu_done u) && negb (cu_superseded u) then RetentionSignals_default
      else retention_signals_loop true (any_sup || cu_superseded u) rest
  | [] =>
      if negb saw then RetentionSignals_default
      else if any_sup then mkSignals true false
      else mkSignals false true
  end.
Definition retention_signals (uses : list ConsumerUse) : RetentionSignals :=
  retention_signals_loop false false uses.

Record Pressure := mkPressure {
  under_pressure : bool;
  count_exceeded : bool;
  bytes_exceeded : bool;
  free_space_exceeded : bool;
  bytes_unknown : bool
}.

Definition assess (count bytes free count_ceiling bytes_ceiling min_free : Z)
    (bytes_measured : bool) : Pressure :=
  let count_exceeded := (count_ceiling <? count)%Z in
  let bytes_exceeded := bytes_measured && (bytes_ceiling <? bytes)%Z in
  let free_space_exceeded := (free <? min_free)%Z in
  {| under_pressure := count_exceeded || bytes_exceeded || free_space_exceeded;
     count_exceeded := count_exceeded;
     bytes_exceeded := bytes_exceeded;
     free_space_exceeded := free_space_exceeded;
     bytes_unknown := negb bytes_measured |}.

Record RetentionConfig := mkConfig {
  container_idle_stop : f64;
  container_remove : f64;
  warm_volume_ttl : f64;
  superseded_cap : f64;
  quiet_period : f64
}.
Definition RetentionConfig_default : RetentionConfig :=
  mkConfig (f64_of_Z 3600) (f64_of_Z 86400) (f64_of_Z 259200) (f64_of_Z 86400) (f64_of_Z 86400).

Definition RetentionConfig_valid (c : RetentionConfig) : bool :=
  forallb (λ x, is_finite x && f64_ge x f64_zero)
    [container_idle_stop c; container_remove c; warm_volume_ttl c; superseded_cap c; quiet_period c].

Record EvaluationInput := mkInput {
  ei_now : f64;
  ei_resource : ResourceSnapshot;
  ei_leases : list ObservedLease;
  ei_signals : RetentionSignals;
  ei_pressure : Pressure;
  ei_config : RetentionConfig;
  ei_running_containers : option (list string)
}.

Definition container_should_stop (resource : ResourceSnapshot) (now : f64)
    (config : RetentionConfig) : bool :=
  if bool_decide (rs_kind resource ≠ Container) || negb (is_finite now) ||
     negb (is_finite (rs_last_used resource)) ||
     negb (is_finite (container_idle_stop config)) ||
     f64_lt (container_idle_stop config) f64_zero
  then false
  else
    let age := f64_sub now (rs_last_used resource) in
    is_finite age && f64_ge age f64_zero && f64_ge age (container_idle_stop config).

Inductive VerdictReason :=
| KeptLeased | KeptPinned | KeptRunning | KeptQuietPeriod | KeptCurrentImage
| KeptWarm | KeptMachineScope
| CollectSuperseded | CollectSupersededImage | CollectIdle | CollectDone | CollectPressure.
#[global] Instance VerdictReason_eq_dec : EqDecision VerdictReason.
Proof. solve_decision. Defined.

Record Verdict := mkVerdict {
  v_resource : ResourceSnapshot;
  v_collect : bool;
  v_reason : VerdictReason
}.
Definition Verdict_collect (resource : ResourceSnapshot) (reason : VerdictReason) : Verdict :=
  mkVerdict resource true reason.

Definition keep_verdict (i : EvaluationInput) (r : VerdictReason) : Verdict :=
  mkVerdict (ei_resource i) false r.
Definition take_verdict (i : EvaluationInput) (r : VerdictReason) : Verdict :=
  Verdict_collect (ei_resource i) r.

(** The local [running] of [evaluate]. *)
Definition evaluate_running (i : EvaluationInput) : bool :=
  bool_decide (rs_kind (ei_resource i) = Container) &&
  match ei_running_containers i with
  | None => true
  | Some names => bool_decide (rs_name (ei_resource i) ∈ names)
  end.

Definition evaluate (i : EvaluationInput) : Verdict :=
  let r := ei_resource i in
  let cfg := ei_config i in
  if negb (is_finite (ei_now i)) || negb (is_finite (rs_last_used r)) ||
     negb (RetentionConfig_valid cfg) then keep_verdict i KeptWarm
  else if existsb (λ o, negb (lease_expired (ol_lease o) (ei_now i) (ol_liveness o))) (ei_leases i)
  then keep_verdict i KeptLeased
  else if bool_decide (rs_retention r = Pinned) then keep_verdict i KeptPinned
  else
  let age := f64_sub (ei_now i) (rs_last_used r) in
  if negb (is_finite age) || f64_lt age f64_zero then keep_verdict i KeptWarm
  else if evaluate_running i && negb (workspace_done (ei_signals i)) &&
          negb (superseded (ei_signals i)) then keep_verdict i KeptRunning
  else if bool_decide (rs_state r = Adopted) && f64_lt age (quiet_period cfg)
  then keep_verdict i KeptQuietPeriod
  else if superseded (ei_signals i) then
    if bool_decide (rs_kind r = Image) then take_verdict i CollectSupersededImage
    else if f64_ge age (superseded_cap cfg) then take_verdict i CollectSuperseded
    else keep_verdict i KeptWarm
  else if workspace_done (ei_signals i) && bool_decide (rs_scope r ≠ Machine)
  then take_verdict i CollectDone
  else if bool_decide (rs_kind r = Image) then keep_verdict i KeptCurrentImage
  else if under_pressure (ei_pressure i) && bool_decide (rs_scope r ≠ Machine)
  then take_verdict i CollectPressure
  else if bool_decide (rs_scope r = Machine) && negb (under_pressure (ei_pressure i))
  then keep_verdict i KeptMachineScope
  else
  let ttl := match rs_kind r with
             | Container | Network => container_remove cfg
             | _ => warm_volume_ttl cfg
             end in
  if f64_ge age ttl then take_verdict i CollectIdle else keep_verdict i KeptWarm.

(** The closure [rank] of [collectable_ordered]. *)
Definition reason_rank (r : VerdictReason) : Z :=
  match r with
  | CollectSupersededImage => 0
  | CollectSuperseded => 1
  | CollectDone => 2
  | CollectIdle => 3
  | CollectPressure => 4
  | _ => 99
  end.
Definition collectable_cmp : Verdict → Verdict → comparison :=
  cmp_then (cmp_on (λ v, bool_decide (rs_scope (v_resource v) = Machine)) bool_cmp)
    (cmp_then (cmp_on (λ v, reason_rank (v_reason v)) Z.compare)
       (cmp_on (λ v, rs_last_used (v_resource v)) total_cmp)).
Definition collectable_ordered (v : list Verdict) : list Verdict :=
  sort_by collectable_cmp (filterb v_collect v).

(** ** Leases *)

Lemma lease_expired_inv lease now obs :
  lease_expired lease now obs = true →
  obs = ConfirmedDead ∧ is_finite now = true ∧
  f64_lt (ls_ttl_seconds lease) (f64_sub now (ls_heartbeat_at lease)) = true.
Proof.
  unfold lease_expired. intros H. case_match; [done|]. booleans.
  split_and!; [by destruct obs|done|].
  apply not_false_is_true. intros Hlt.
  apply f64_lt_false_ge in Hlt; [|by apply is_finite_not_nan..].
  unfold f64_ge in Hlt. unfold f64_le in *. congruence.
Qed.

(** ** Consumer signals

    A declarative reading: nothing is signalled while no consumer is known or one
    still uses the resource; otherwise a superseding consumer outranks done ones. *)

Definition use_over (u : ConsumerUse) : bool := cu_done u || cu_superseded u.

Definition signals_spec (uses : list ConsumerUse) : RetentionSignals :=
  if bool_decide (uses = []) || negb (forallb use_over uses) then RetentionSignals_default
  else mkSignals (existsb cu_superseded uses) (negb (existsb cu_superseded uses)).

#[global] Instance ConsumerUse_eq_dec : EqDecision ConsumerUse.
Proof. solve_decision. Defined.

Lemma retention_signals_loop_spec uses saw any :
  retention_signals_loop saw any uses =
  if (negb saw && bool_decide (uses = [])) || negb (forallb use_over uses)
  then RetentionSignals_default
  else mkSignals (any || existsb cu_superseded uses) (negb (any || existsb cu_superseded uses)).
Proof.
  revert saw any. induction uses as [|[d s] uses IH]; intros saw any; simpl.
  - by destruct saw, any.
  - unfold use_over at 1. simpl. destruct d, s, saw; simpl; rewrite ?IH; simpl;
      rewrite ?orb_true_r, ?orb_false_r; try done; by destruct any.
Qed.

(** The early-returning loop computes the declarative signals. *)
Lemma retention_signals_loop_eq uses : retention_signals uses = signals_spec uses.
Proof. apply retention_signals_loop_spec. Qed.

Lemma forallb_perm {A} (f : A → bool) l k : l ≡ₚ k → forallb f l = forallb f k.
Proof. induction 1; simpl; try congruence. by destruct (f x), (f y). Qed.
Lemma existsb_perm {A} (f : A → bool) l k : l ≡ₚ k → existsb f l = existsb f k.
Proof. induction 1; simpl; try congruence. by destruct (f x), (f y). Qed.

#[global] Instance retention_signals_perm : Proper ((≡ₚ) ==> (=)) retention_signals.
Proof.
  intros l k HP. rewrite !retention_signals_loop_eq. unfold signals_spec.
  rewrite (forallb_perm _ _ _ HP), (existsb_perm _ _ _ HP).
  apply Permutation_length in HP. by destruct l, k.
Qed.

(** Consumers decide a resource's fate together: it counts as superseded exactly when it has
    consumers, every one of them is done or superseded, and at least one was superseded; as
    done exactly when every consumer is done and none was superseded. In any order, one active
    consumer silences both signals. *)
Theorem retention_signals_correct uses :
  (superseded (retention_signals uses) = true ↔
     Forall (λ u, cu_done u = true ∨ cu_superseded u = true) uses ∧
     Exists (λ u, cu_superseded u = true) uses) ∧
  (workspace_done (retention_signals uses) = true ↔
     uses ≠ [] ∧ Forall (λ u, cu_done u = true ∧ cu_superseded u = false) uses) ∧
  (∀ uses', uses ≡ₚ uses' → retention_signals uses' = retention_signals uses).
Proof.
  assert (∀ f : ConsumerUse → bool, forallb f uses = true ↔ Forall (λ u, f u = true) uses) as Hall.
  { intros f. by rewrite forallb_forall, List.Forall_forall. }
  assert (∀ f : ConsumerUse → bool, existsb f uses = true ↔ Exists (λ u, f u = true) uses) as Hex.
  { intros f. rewrite existsb_exists, List.Exists_exists. naive_solver. }
  split_and!; [| |by intros ? ->]; rewrite retention_signals_loop_eq; unfold signals_spec.
  - setoid_rewrite <-orb_true_iff. rewrite <-Hall, <-Hex. fold use_over.
    case_bool_decide as E; [subst; cbn; naive_solver|]. cbn [orb].
    change (λ u, cu_done u || cu_superseded u) with use_over.
    destruct (forallb use_over uses); cbn; naive_solver.
  - case_bool_decide as E; [subst; cbn; naive_solver|]. cbn [orb].
    destruct (forallb use_over uses) eqn:Ha; cbn [negb workspace_done].
    + rewrite negb_true_iff, <-not_true_iff_false, Hex, <-Forall_Exists_neg. apply Hall in Ha.
      split; [intros Hn; split; [done|]|intros [_ Hn]].
      * eapply Forall_impl; [exact (proj2 (Forall_and _ _) (conj Ha Hn))|].
        intros u [Hu Hs%not_true_is_false].
        unfold use_over in Hu. by rewrite Hs, orb_false_r in Hu.
      * eapply Forall_impl; [exact Hn|]. intros u [_ ->]. done.
    + split; [done|]. intros [_ Hn]. exfalso. apply not_true_iff_false in Ha. apply Ha, Hall. eapply Forall_impl; [exact Hn|].
      intros u [Hu _]. unfold use_over. by rewrite Hu.
Qed.

(** ** Collection is conservative *)

Definition resource_age (i : EvaluationInput) : f64 :=
  f64_sub (ei_now i) (rs_last_used (ei_resource i)).

(** The age gate of [evaluate] for a resource held by nothing else. *)
Definition idle_ttl (i : EvaluationInput) : f64 :=
  match rs_kind (ei_resource i) with
  | Container | Network => container_remove (ei_config i)
  | _ => warm_volume_ttl (ei_config i)
  end.

(** What licenses a collection: superseded images at once and other superseded
    resources past their cap; a finished workspace's resources; under pressure
    anything but images and machine caches; otherwise the idle gate, which for
    machine caches applies only under pressure. *)
Definition collect_license (i : EvaluationInput) : Prop :=
  let r := ei_resource i in let s := ei_signals i in
  if superseded s then
    rs_kind r = Image ∨ f64_ge (resource_age i) (superseded_cap (ei_config i)) = true
  else
    (workspace_done s = true ∧ rs_scope r ≠ Machine) ∨
    (rs_kind r ≠ Image ∧
     ((under_pressure (ei_pressure i) = true ∧ rs_scope r ≠ Machine) ∨
      ((rs_scope r = Machine → under_pressure (ei_pressure i) = true) ∧
       f64_ge (resource_age i) (idle_ttl i) = true))).

(** Facts every collected resource satisfies, whatever the reason. *)
Record collect_safe (i : EvaluationInput) : Prop := {
  cs_clock : is_finite (ei_now i) = true ∧ is_finite (rs_last_used (ei_resource i)) = true;
  cs_config : RetentionConfig_valid (ei_config i) = true;
  cs_leases :
    Forall (λ o, lease_expired (ol_lease o) (ei_now i) (ol_liveness o) = true) (ei_leases i);
  cs_pinned : rs_retention (ei_resource i) ≠ Pinned;
  cs_age : is_finite (resource_age i) = true ∧ f64_ge (resource_age i) f64_zero = true;
  cs_running : evaluate_running i = true →
    workspace_done (ei_signals i) = true ∨ superseded (ei_signals i) = true;
  cs_quiet : rs_state (ei_resource i) = Adopted →
    f64_ge (resource_age i) (quiet_period (ei_config i)) = true
}.

Lemma config_valid_finite c :
  RetentionConfig_valid c = true →
  Forall (λ x, is_finite x = true)
    [container_idle_stop c; container_remove c; warm_volume_ttl c; superseded_cap c; quiet_period c].
Proof. unfold RetentionConfig_valid. simpl. intros. booleans. repeat constructor; done. Qed.

(** Walk [evaluate]'s leading guards in order, keeping each one's outcome. *)
Ltac step_evaluate :=
  match goal with
  | |- context [if ?b then keep_verdict _ _ else _] =>
      let E := fresh "G" in destruct b eqn:E; [by intros|]
  end.

Lemma evaluate_collect_inv i :
  v_collect (evaluate i) = true → collect_safe i ∧ collect_license i.
Proof.
  unfold collect_license, evaluate. cbv zeta. do 6 step_evaluate. booleans.
  fold (resource_age i) in *. fold (idle_ttl i).
  assert (f64_ge (resource_age i) f64_zero = true) as Hage.
  { by apply f64_lt_false_ge; [apply is_finite_not_nan|..]. }
  assert (Hv := config_valid_finite _ ltac:(eassumption)).
  rewrite !Forall_cons in Hv. destruct Hv as (_ & _ & _ & _ & Hq & _).
  intros Hc. split.
  - split; try done.
    + apply existsb_false_forall in G0. eapply Forall_impl; [exact G0|].
      intros o Ho. by apply negb_false_iff.
    + intros Hr. rewrite Hr in G3. destruct (workspace_done _); [by left|].
      by destruct (superseded _); [right|destruct G3].
    + intros Ha. rewrite bool_decide_eq_true_2 in G4 by done. destruct G4 as [?|G4]; [done|].
      by apply f64_lt_false_ge; [apply is_finite_not_nan|apply is_finite_not_nan|].
  - clear G0 G3 G4. repeat (case_match; simpl in *; try done); booleans;
      repeat match goal with H : _ ∨ _ |- _ => destruct H end; booleans; naive_solver.
Qed.

Lemma evaluate_collects i :
  collect_safe i → collect_license i → v_collect (evaluate i) = true.
Proof.
  intros [[H1 H2] H3 H4 H5 [H6 H7] H8 H9] HL. unfold evaluate. cbv zeta.
  fold (resource_age i) (idle_ttl i).
  rewrite H1, H2, H3, H6, (f64_ge_lt _ _ H7), (bool_decide_eq_false_2 _ H5). simpl.
  assert (existsb (λ o, negb (lease_expired (ol_lease o) (ei_now i) (ol_liveness o)))
            (ei_leases i) = false) as ->.
  { apply existsb_false_forall. eapply Forall_impl; [exact H4|]. by intros o ->. }
  assert (evaluate_running i && negb (workspace_done (ei_signals i)) &&
            negb (superseded (ei_signals i)) = false) as ->.
  { destruct (evaluate_running i); [|done]. by destruct (H8 eq_refl) as [->| ->];
      rewrite ?andb_false_r. }
  assert (bool_decide (rs_state (ei_resource i) = Adopted) &&
            f64_lt (resource_age i) (quiet_period (ei_config i)) = false) as ->.
  { case_bool_decide as Ha; [|done]. by rewrite (f64_ge_lt _ _ (H9 Ha)). }
  unfold collect_license in HL. revert HL. cbv zeta.
  destruct (superseded (ei_signals i)).
  { case_bool_decide; [done|]. by intros [?| ->]. }
  destruct (workspace_done (ei_signals i)), (under_pressure (ei_pressure i));
    repeat case_bool_decide; simpl; try done; intros HL;
    destruct (f64_ge (resource_age i) (idle_ttl i)); try done; naive_solver.
Qed.

(** A resource is collected exactly when it is safe to and something licenses it:
    a sane clock and configuration, every lease expired with its process confirmed
    dead, no pin, nothing running or quiet, and one of the collection reasons. *)
Theorem evaluate_collect_iff i :
  v_collect (evaluate i) = true ↔ collect_safe i ∧ collect_license i.
Proof. split; [apply evaluate_collect_inv|intros []; by apply evaluate_collects]. Qed.

(** One lease that is not proven dead keeps the resource, whatever else holds. *)
Theorem evaluate_live_lease_keeps i o :
  o ∈ ei_leases i → ol_liveness o ≠ ConfirmedDead → v_collect (evaluate i) = false.
Proof.
  intros Ho Hl. apply not_true_is_false. intros Hc.
  apply evaluate_collect_inv in Hc as [[_ _ Hs _ _ _ _] _].
  rewrite Forall_forall in Hs. by apply Hs, lease_expired_inv in Ho as [? _].
Qed.

(** ** Removal order *)

#[global] Instance collectable_cmp_total : TotalCmp collectable_cmp.
Proof. unfold collectable_cmp. apply _. Qed.

(** The ordered verdicts are the collected ones, every machine-scope resource after
    all others, within a scope by reason, and equal verdicts in their given order. *)
Theorem collectable_ordered_correct v :
  collectable_ordered v ≡ₚ filterb v_collect v ∧
  StronglySorted (cmp_le collectable_cmp) (collectable_ordered v) ∧
  StronglySorted (λ a b, rs_scope (v_resource a) = Machine → rs_scope (v_resource b) = Machine)
    (collectable_ordered v) ∧
  (∀ z, filter (λ y, collectable_cmp y z = Eq) (collectable_ordered v) =
        filter (λ y, collectable_cmp y z = Eq) (filterb v_collect v)).
Proof.
  unfold collectable_ordered. split_and!.
  - apply sort_by_perm.
  - apply sort_by_sorted, _.
  - eapply StronglySorted_weaken; [|apply (sort_by_sorted collectable_cmp)].
    intros a b Hab%cmp_then_le Ha. unfold cmp_le, cmp_on in Hab.
    rewrite Ha, bool_decide_eq_true_2 in Hab by done. by case_bool_decide.
  - intros z. apply sort_by_stable, _.
Qed.

(** A container is stopped for idleness only on sane timing past the idle gate. *)
Theorem container_should_stop_iff r now cfg :
  container_should_stop r now cfg = true ↔
  rs_kind r = Container ∧ is_finite now = true ∧ is_finite (rs_last_used r) = true ∧
  is_finite (container_idle_stop cfg) = true ∧
  f64_ge (container_idle_stop cfg) f64_zero = true ∧
  is_finite (f64_sub now (rs_last_used r)) = true ∧
  f64_ge (f64_sub now (rs_last_used r)) f64_zero = true ∧
  f64_ge (f64_sub now (rs_last_used r)) (container_idle_stop cfg) = true.
Proof.
  unfold container_should_stop. cbv zeta. split.
  - intros H. case_match; [done|]. booleans. apply dec_stable in H0.
    split_and!; try done. by apply f64_lt_false_ge; [apply is_finite_not_nan|..].
  - intros (-> & -> & -> & -> & H5 & -> & -> & ->). by rewrite (f64_ge_lt _ _ H5).
Qed.
