(* ===== verification/Unmanaged.v ===== *)
(** * The unmanaged census: classifying, counting and planning what Bosn does not own

    Models [crates/bosn-core/src/unmanaged.rs]: ownership and artifact
    classification, the census, its warning and acknowledgement, the pressure
    decision and the [gc --unmanaged] plan. Byte and object totals are integers;
    the [i128] and [u64] accumulators of the code stay far below their width. *)

From Stdlib Require Import SpecFloat.
From S2P Require Export F64 Labels.

Local Open Scope string_scope.
Local Open Scope list_scope.

Definition DEFAULT_TTL_SECONDS : f64 := f64_mul (f64_of_Z 7) (f64_of_Z 86400).
Definition DEFAULT_WARN_BYTES : Z := 5 * 1024 * 1024 * 1024.
Definition DEFAULT_WARN_OBJECTS : Z := 25.
Definition ACK_GROWTH_RATIO : f64 := f64_of_decimal 125 2.
Definition ACK_MAX_AGE_SECONDS : f64 := f64_mul (f64_of_Z 30) (f64_of_Z 86400).

Inductive OwnershipClass := Ours | ForeignRegistry | IncompleteLabels | Unlabeled.
#[global] Instance OwnershipClass_eq_dec : EqDecision OwnershipClass.
Proof. solve_decision. Defined.

(** Declaration order is the derived [Ord] of the two map keys below. *)
Inductive UnmanagedClass :=
| DanglingImage | StoppedContainer | AnonymousVolume | BuildCache
| UnreferencedImage | NamedVolume.
#[global] Instance UnmanagedClass_eq_dec : EqDecision UnmanagedClass.
Proof. solve_decision. Defined.
Definition UnmanagedClass_index (c : UnmanagedClass) : nat :=
  match c with
  | DanglingImage => 0 | StoppedContainer => 1 | AnonymousVolume => 2 | BuildCache => 3
  | UnreferencedImage => 4 | NamedVolume => 5
  end.
#[global] Instance UnmanagedClass_countable : Countable UnmanagedClass.
Proof.
  refine (inj_countable UnmanagedClass_index
    (λ n, [DanglingImage; StoppedContainer; AnonymousVolume; BuildCache;
           UnreferencedImage; NamedVolume] !! n) _).
  by intros [].
Defined.

Inductive Tier := Reclaimable | Review.
#[global] Instance Tier_eq_dec : EqDecision Tier.
Proof. solve_decision. Defined.

Definition UnmanagedClass_tier (c : UnmanagedClass) : Tier :=
  match c with
  | DanglingImage | StoppedContainer | AnonymousVolume | BuildCache => Reclaimable
  | UnreferencedImage | NamedVolume => Review
  end.

Inductive ProtectedReason :=
| OwnedByThisRegistry | ProtectedForeignRegistry | ProtectedIncompleteLabels
| InUse | Unmeasured | Unclassified.
#[global] Instance ProtectedReason_eq_dec : EqDecision ProtectedReason.
Proof. solve_decision. Defined.
Definition ProtectedReason_index (r : ProtectedReason) : nat :=
  match r with
  | OwnedByThisRegistry => 0 | ProtectedForeignRegistry => 1 | ProtectedIncompleteLabels => 2
  | InUse => 3 | Unmeasured => 4 | Unclassified => 5
  end.
#[global] Instance ProtectedReason_countable : Countable ProtectedReason.
Proof.
  refine (inj_countable ProtectedReason_index
    (λ n, [OwnedByThisRegistry; ProtectedForeignRegistry; ProtectedIncompleteLabels;
           InUse; Unmeasured; Unclassified] !! n) _).
  by intros [].
Defined.

Record Signals := mkSignals {
  in_use : bool;
  dangling : bool;
  anonymous : bool
}.

Record CensusConfig := mkCensusConfig { ttl_seconds : f64 }.

Record Classification := mkClassification {
  cl_ownership : OwnershipClass;
  cl_class : option UnmanagedClass;
  cl_protected : option ProtectedReason;
  cl_age_eligible : bool
}.

(** [key == NAMESPACE], or [NAMESPACE] followed by a dot. *)
Definition is_bosn_label (key : string) : bool :=
  (key =? NAMESPACE) ||
  is_some_and (strip_prefix NAMESPACE key) (λ rest, String.prefix "." rest).

Definition has_bosn_label (labels : gmap string string) : bool :=
  existsb is_bosn_label (btree_keys String.compare labels).

Definition classify_ownership (labels : gmap string string) (our_registry : option string) :
    OwnershipClass :=
  if negb (has_bosn_label labels) then Unlabeled
  else if negb (forallb (λ key, bool_decide (is_Some (labels !! key))) REQUIRED_LABELS)
  then IncompleteLabels
  else match labels !! LABEL_REGISTRY, our_registry with
       | Some registry, Some ours => if registry =? ours then Ours else ForeignRegistry
       | _, _ => ForeignRegistry
       end.

Definition classify (kind : ResourceKind) (labels : gmap string string)
    (our_registry : option string) (signals : Signals) (age_seconds : option f64)
    (config : CensusConfig) : Classification :=
  let ownership := classify_ownership labels our_registry in
  let protect := λ reason, mkClassification ownership None (Some reason) false in
  let unlabeled :=
    if in_use signals then protect InUse
    else match age_seconds with
    | None => protect Unmeasured
    | Some age =>
        let reclaim := λ class,
          mkClassification ownership (Some class) None (f64_ge age (ttl_seconds config)) in
        match kind with
        | Image => reclaim (if dangling signals then DanglingImage else UnreferencedImage)
        | Container => reclaim StoppedContainer
        | Volume => reclaim (if anonymous signals then AnonymousVolume else NamedVolume)
        | Builder => reclaim BuildCache
        | Network => protect Unclassified
        end
    end in
  match ownership with
  | Ours =>
      if bool_decide (kind = Image) && dangling signals && negb (in_use signals) then
        match age_seconds with
        | None => protect Unmeasured
        | Some age =>
            mkClassification ownership (Some DanglingImage) None
              (f64_ge age (ttl_seconds config))
        end
      else protect OwnedByThisRegistry
  | ForeignRegistry => protect ProtectedForeignRegistry
  | IncompleteLabels => protect ProtectedIncompleteLabels
  | Unlabeled => unlabeled
  end.

Record ObservedArtifact := mkArtifact {
  oa_id : string;
  oa_kind : ResourceKind;
  oa_labels : gmap string string;
  oa_signals : Signals;
  oa_bytes : option Z;
  oa_age_seconds : option f64
}.

Definition classify_artifact (a : ObservedArtifact) (our_registry : option string)
    (config : CensusConfig) : Classification :=
  classify (oa_kind a) (oa_labels a) our_registry (oa_signals a) (oa_age_seconds a) config.

(** ** The census *)

Record ClassSummary := mkClassSummary {
  sum_class : UnmanagedClass;
  sum_tier : Tier;
  sum_objects : Z;
  sum_bytes : Z;
  sum_eligible_objects : Z;
  sum_eligible_bytes : Z;
  sum_oldest_age_seconds : option f64
}.
Definition empty_class_summary (class : UnmanagedClass) : ClassSummary :=
  mkClassSummary class (UnmanagedClass_tier class) 0 0 0 0 None.

Record ProtectedSummary := mkProtectedSummary {
  prot_reason : ProtectedReason;
  prot_objects : Z;
  prot_bytes : Z
}.

Record Census := mkCensus {
  classes : list ClassSummary;
  protected : list ProtectedSummary;
  reclaimable_objects : Z;
  reclaimable_bytes : Z;
  partial : bool;
  unmeasured_objects : Z;
  bytes_approximate : bool
}.

Definition is_removable_by_id (class : UnmanagedClass) : bool :=
  negb (bool_decide (class = BuildCache)).

(** The mutable locals of [census]. *)
Record census_state := mkCensusState {
  cst_classes : gmap UnmanagedClass ClassSummary;
  cst_protected : gmap ProtectedReason ProtectedSummary;
  cst_partial : bool;
  cst_unmeasured : Z
}.

Definition oldest (current : option f64) (age : f64) : f64 :=
  match current with Some c => if f64_ge c age then c else age | None => age end.

(** One class entry after one artifact of that class. *)
Definition summarize (a : ObservedArtifact) (class : UnmanagedClass) (bytes : Z)
    (eligible : bool) (e : ClassSummary) : ClassSummary :=
  let swept := eligible && bool_decide (UnmanagedClass_tier class = Reclaimable) in
  {| sum_class := sum_class e;
     sum_tier := sum_tier e;
     sum_objects := (sum_objects e + 1)%Z;
     sum_bytes := (sum_bytes e + bytes)%Z;
     sum_eligible_objects := (sum_eligible_objects e + if swept then 1 else 0)%Z;
     sum_eligible_bytes := (sum_eligible_bytes e + if swept then bytes else 0)%Z;
     sum_oldest_age_seconds :=
       match oa_age_seconds a with
       | Some age => Some (oldest (sum_oldest_age_seconds e) age)
       | None => sum_oldest_age_seconds e
       end |}.

Definition census_step (our_registry : option string) (config : CensusConfig)
    (st : census_state) (a : ObservedArtifact) : census_state :=
  let verdict := classify_artifact a our_registry config in
  let bytes := default 0%Z (oa_bytes a) in
  let missing := bool_decide (oa_bytes a = None) in
  let partial := cst_partial st || missing in
  let unmeasured := (cst_unmeasured st + if missing then 1 else 0)%Z in
  match cl_protected verdict with
  | Some reason =>
      mkCensusState (cst_classes st)
        (entry_update (cst_protected st) reason (mkProtectedSummary reason 0 0)
           (λ e, mkProtectedSummary (prot_reason e) (prot_objects e + 1) (prot_bytes e + bytes)))
        partial unmeasured
  | None =>
      match cl_class verdict with
      | None => mkCensusState (cst_classes st) (cst_protected st) true unmeasured
      | Some class =>
          mkCensusState
            (entry_update (cst_classes st) class (empty_class_summary class)
               (summarize a class bytes (cl_age_eligible verdict)))
            (cst_protected st) partial unmeasured
      end
  end.

Definition class_cmp : UnmanagedClass → UnmanagedClass → comparison :=
  cmp_on (λ c, Z.of_nat (UnmanagedClass_index c)) Z.compare.
Definition reason_cmp : ProtectedReason → ProtectedReason → comparison :=
  cmp_on (λ c, Z.of_nat (ProtectedReason_index c)) Z.compare.

Definition countable_summary (s : ClassSummary) : bool :=
  bool_decide (sum_tier s = Reclaimable) && is_removable_by_id (sum_class s).

Definition census_loop (artifacts : list ObservedArtifact) (our_registry : option string)
    (config : CensusConfig) : census_state :=
  foldl (census_step our_registry config) (mkCensusState ∅ ∅ false 0) artifacts.

Definition census (artifacts : list ObservedArtifact) (our_registry : option string)
    (config : CensusConfig) : Census :=
  let st := census_loop artifacts our_registry config in
  let reclaimable_classes := btree_values class_cmp (cst_classes st) in
  {| classes := reclaimable_classes;
     protected := btree_values reason_cmp (cst_protected st);
     reclaimable_objects :=
       sumZ (sum_eligible_objects <$> filterb countable_summary reclaimable_classes);
     reclaimable_bytes :=
       sumZ (sum_eligible_bytes <$> filterb countable_summary reclaimable_classes);
     partial := cst_partial st;
     unmeasured_objects := cst_unmeasured st;
     bytes_approximate := true |}.

(** ** The warning *)

Record WarningThreshold := mkThreshold { th_bytes : Z; th_objects : Z }.
Definition WarningThreshold_default : WarningThreshold :=
  mkThreshold DEFAULT_WARN_BYTES DEFAULT_WARN_OBJECTS.

Record Warning := mkWarning {
  w_reclaimable_objects : Z;
  w_reclaimable_bytes : Z;
  w_review_objects : Z;
  w_review_bytes : Z;
  w_report_only_bytes : Z;
  w_protected : list ProtectedSummary;
  w_unmeasured_objects : Z;
  w_partial : bool
}.

Definition warning (census : Census) (threshold : WarningThreshold) : option Warning :=
  let review := filterb (λ s, bool_decide (sum_tier s = Review)) (classes census) in
  let review_objects := sumZ (sum_objects <$> review) in
  let review_bytes := sumZ (sum_bytes <$> review) in
  let report_only_bytes :=
    sumZ (sum_eligible_bytes <$>
      filterb (λ s, negb (is_removable_by_id (sum_class s))) (classes census)) in
  let protected_bytes := sumZ (prot_bytes <$> protected census) in
  let protected_objects := sumZ (prot_objects <$> protected census) in
  let over :=
    (th_bytes threshold <=? reclaimable_bytes census)%Z ||
    (th_objects threshold <=? reclaimable_objects census)%Z ||
    (th_bytes threshold <=? protected_bytes)%Z ||
    (th_objects threshold <=? protected_objects)%Z ||
    (th_objects threshold <=? unmeasured_objects census)%Z in
  if negb over && negb (partial census) then None
  else Some {| w_reclaimable_objects := reclaimable_objects census;
               w_reclaimable_bytes := reclaimable_bytes census;
               w_review_objects := review_objects;
               w_review_bytes := review_bytes;
               w_report_only_bytes := report_only_bytes;
               w_protected := protected census;
               w_unmeasured_objects := unmeasured_objects census;
               w_partial := partial census |}.

Record Acknowledgement := mkAck { ack_at : f64; ack_objects : Z; ack_bytes : Z }.

Definition acknowledgement_suppresses (acknowledgement : option Acknowledgement)
    (census : Census) (now : f64) : bool :=
  match acknowledgement with
  | None => false
  | Some ack =>
      if negb (is_finite now) || negb (is_finite (ack_at ack)) || f64_lt now (ack_at ack)
      then true
      else if f64_ge (f64_sub now (ack_at ack)) ACK_MAX_AGE_SECONDS then false
      else
        let byte_ceiling :=
          f64_to_int i128_min i128_max (f64_mul (f64_of_Z (ack_bytes ack)) ACK_GROWTH_RATIO) in
        let object_ceiling :=
          f64_to_int 0 u64_max (f64_mul (f64_of_Z (ack_objects ack)) ACK_GROWTH_RATIO) in
        (reclaimable_bytes census <=? byte_ceiling)%Z &&
        (reclaimable_objects census <=? object_ceiling)%Z
  end.

(** ** Pressure attribution *)

Inductive PressureAttribution :=
| NotUnderPressure | OwnedBytesCanClose | ForeignBytesDominate | CensusIncomplete.

Record PressureDecision := mkDecision {
  may_evict_owned : bool;
  shortfall_bytes : Z;
  attribution : PressureAttribution
}.

Definition pressure_decision (under_pressure free_space_exceeded : bool)
    (free_bytes min_free_bytes owned_bytes : Z) (census_trustworthy : bool) : PressureDecision :=
  if negb census_trustworthy then mkDecision false 0 CensusIncomplete
  else if negb under_pressure then mkDecision true 0 NotUnderPressure
  else
    let shortfall :=
      if free_space_exceeded
      then Z.max (i128_saturating_sub min_free_bytes free_bytes) 0 else 0%Z in
    if (shortfall <=? owned_bytes)%Z then mkDecision true shortfall OwnedBytesCanClose
    else mkDecision false shortfall ForeignBytesDominate.

(** ** The plan *)

Record PlanCandidate := mkCandidate {
  pc_id : string;
  pc_class : UnmanagedClass;
  pc_bytes : Z
}.

Record Plan := mkPlan {
  pl_candidates : list PlanCandidate;
  pl_review : list PlanCandidate;
  pl_report_only : list ClassSummary;
  pl_bytes : Z
}.

Definition removal_rank (class : UnmanagedClass) : Z :=
  match class with
  | StoppedContainer => 0
  | UnreferencedImage | DanglingImage => 1
  | AnonymousVolume | NamedVolume => 2
  | BuildCache => 3
  end.

(** The mutable locals of [plan]. *)
Record plan_state := mkPlanState {
  ps_candidates : list PlanCandidate;
  ps_review : list PlanCandidate;
  ps_report_only : gmap UnmanagedClass ClassSummary;
  ps_bytes : Z
}.

Definition plan_step (our_registry : option string) (config : CensusConfig)
    (include : list string) (st : plan_state) (a : ObservedArtifact) : plan_state :=
  match oa_bytes a with
  | None => st
  | Some artifact_bytes =>
      let verdict := classify_artifact a our_registry config in
      match cl_class verdict with
      | None => st
      | Some class =>
          if bool_decide (is_Some (cl_protected verdict)) then st
          else if negb (cl_age_eligible verdict) then st
          else if negb (is_removable_by_id class) then
            mkPlanState (ps_candidates st) (ps_review st)
              (entry_update (ps_report_only st) class (empty_class_summary class)
                 (λ e, mkClassSummary (sum_class e) (sum_tier e) (sum_objects e + 1)
                         (sum_bytes e + artifact_bytes) (sum_eligible_objects e + 1)
                         (sum_eligible_bytes e + artifact_bytes) (sum_oldest_age_seconds e)))
              (ps_bytes st)
          else
            let candidate := mkCandidate (oa_id a) class artifact_bytes in
            let selected := mkPlanState (ps_candidates st ++ [candidate]) (ps_review st)
                              (ps_report_only st) (ps_bytes st + artifact_bytes) in
            match UnmanagedClass_tier class with
            | Reclaimable => selected
            | Review =>
                if existsb (String.eqb (oa_id a)) include then selected
                else mkPlanState (ps_candidates st) (ps_review st ++ [candidate])
                       (ps_report_only st) (ps_bytes st)
            end
      end
  end.

Definition plan_loop (artifacts : list ObservedArtifact) (our_registry : option string)
    (config : CensusConfig) (include : list string) : plan_state :=
  foldl (plan_step our_registry config include) (mkPlanState [] [] ∅ 0) artifacts.

Definition rank_cmp : PlanCandidate → PlanCandidate → comparison :=
  cmp_on (λ c, removal_rank (pc_class c)) Z.compare.

Definition plan (artifacts : list ObservedArtifact) (our_registry : option string)
    (config : CensusConfig) (include : list string) : Plan :=
  let st := plan_loop artifacts our_registry config include in
  {| pl_candidates := sort_by rank_cmp (ps_candidates st);
     pl_review := ps_review st;
     pl_report_only := btree_values class_cmp (ps_report_only st);
     pl_bytes := ps_bytes st |}.

(** ** Classification *)

Lemma classify_cases kind labels reg sg age cfg :
  let v := classify kind labels reg sg age cfg in
  (∃ c, cl_class v = Some c ∧ cl_protected v = None) ∨
  (∃ r, cl_class v = None ∧ cl_protected v = Some r ∧ cl_age_eligible v = false).
Proof. unfold classify. cbv zeta. repeat case_match; simpl; eauto. Qed.

(** Every artifact is either protected, and then never eligible, or belongs to
    exactly one class. *)
Theorem classify_exclusive a reg cfg :
  (∃ c, cl_class (classify_artifact a reg cfg) = Some c ∧
        cl_protected (classify_artifact a reg cfg) = None) ∨
  (∃ r, cl_class (classify_artifact a reg cfg) = None ∧
        cl_protected (classify_artifact a reg cfg) = Some r ∧
        cl_age_eligible (classify_artifact a reg cfg) = false).
Proof. apply classify_cases. Qed.

(** What a class stands for: nothing uses the artifact, its age is measured, and it
    either carries no Bosn label or is this registry's own dangling image. *)
Lemma classify_class_inv a reg cfg c :
  cl_class (classify_artifact a reg cfg) = Some c →
  in_use (oa_signals a) = false ∧
  (∃ age, oa_age_seconds a = Some age ∧
     cl_age_eligible (classify_artifact a reg cfg) = f64_ge age (ttl_seconds cfg)) ∧
  (classify_ownership (oa_labels a) reg = Unlabeled ∨
   (classify_ownership (oa_labels a) reg = Ours ∧ oa_kind a = Image ∧
    dangling (oa_signals a) = true ∧ c = DanglingImage)).
Proof.
  unfold classify_artifact, classify. cbv zeta.
  destruct (classify_ownership _ _) eqn:Ho; simpl; try done.
  - destruct (bool_decide (oa_kind a = Image) && _ && _) eqn:E; [|done]. booleans.
    destruct (oa_age_seconds a) as [age|]; simpl; [|done]. naive_solver.
  - destruct (in_use (oa_signals a)); [done|].
    destruct (oa_age_seconds a) as [age|]; [|done].
    destruct (oa_kind a); simpl; try done; naive_solver.
Qed.

(** Labels this registry wrote are its own: the two ownership tests agree. *)
Theorem owned_labels_are_ours raw reg :
  ownership_from_labels raw reg = true →
  classify_ownership (collect_map raw) (Some reg) = Ours.
Proof.
  rewrite ownership_iff_labels. intros (l & Hp & <-).
  apply parse_map_inv in Hp as (_ & Hsub & _).
  pose proof (to_map_lookup l) as (H1 & H2 & H3 & H4 & H5 & H6 & H7).
  assert (∀ k v, to_map l !! k = Some v → collect_map raw !! k = Some v) as Hm.
  { intros k v. by apply map_subseteq_spec. }
  apply Hm in H1, H2, H3, H4, H5, H6, H7. unfold classify_ownership.
  assert (has_bosn_label (collect_map raw) = true) as ->.
  { apply existsb_exists. exists LABEL_REGISTRY. split; [|done].
    apply list_elem_of_In, elem_of_btree_keys. by exists (rl_registry l). }
  unfold REQUIRED_LABELS. cbn [forallb negb].
  rewrite H1, H2, H3, H4, H5, H6, H7. cbn. by rewrite String.eqb_refl.
Qed.

Lemma owned_labels_are_ours_witness :
  classify_ownership (collect_map (map_to_list (to_map sample_labels))) (Some "r1") = Ours.
Proof. apply (owned_labels_are_ours _ "r1"). vm_compute. reflexivity. Defined.

(** ** What the plan selects, artifact by artifact *)

Section selection.
Context (reg : option string) (cfg : CensusConfig).

(** The artifact's class when it is past its gate and nothing protects it. *)
Definition eligible_class (a : ObservedArtifact) : option UnmanagedClass :=
  if cl_age_eligible (classify_artifact a reg cfg)
  then cl_class (classify_artifact a reg cfg) else None.

Definition candidate_of (a : ObservedArtifact) : option PlanCandidate :=
  match oa_bytes a, eligible_class a with
  | Some b, Some c => if is_removable_by_id c then Some (mkCandidate (oa_id a) c b) else None
  | _, _ => None
  end.

Definition selected (include : list string) (c : PlanCandidate) : bool :=
  bool_decide (UnmanagedClass_tier (pc_class c) = Reclaimable) ||
  existsb (String.eqb (pc_id c)) include.

Lemma plan_loop_snoc l a include :
  plan_loop (l ++ [a]) reg cfg include =
  plan_step reg cfg include (plan_loop l reg cfg include) a.
Proof. unfold plan_loop. by rewrite foldl_snoc. Qed.

(** Close a branch that appends nothing, or one candidate. *)
Ltac unchanged := simpl; rewrite ?app_nil_r; split_and!; try done; lia.

Lemma plan_step_spec include st a :
  ps_candidates (plan_step reg cfg include st a) =
    ps_candidates st ++ filterb (selected include) (option_list (candidate_of a)) ∧
  ps_review (plan_step reg cfg include st a) =
    ps_review st ++ filterb (λ c, negb (selected include c)) (option_list (candidate_of a)) ∧
  ps_bytes (plan_step reg cfg include st a) =
    (ps_bytes st +
     sumZ (pc_bytes <$> filterb (selected include) (option_list (candidate_of a))))%Z.
Proof.
  unfold plan_step, candidate_of, eligible_class.
  destruct (oa_bytes a) as [b|]; simpl; rewrite ?filterb_nil; [|unchanged].
  pose proof (classify_cases (oa_kind a) (oa_labels a) reg (oa_signals a) (oa_age_seconds a) cfg)
    as [(c & Hc & Hp)|(r & Hc & Hp & He)]; fold (classify_artifact a reg cfg) in *.
  - rewrite Hc, Hp. rewrite bool_decide_eq_false_2 by (intros []; done).
    destruct (cl_age_eligible _); simpl; rewrite ?filterb_nil; [|unchanged].
    destruct (is_removable_by_id c); simpl; rewrite ?filterb_nil; [|unchanged].
    rewrite !filterb_cons, !filterb_nil. unfold selected. cbn [pc_class pc_id].
    destruct (UnmanagedClass_tier c); simpl; [unchanged|].
    destruct (existsb _ include); simpl; unchanged.
  - rewrite Hc, He. simpl. rewrite !filterb_nil. unchanged.
Qed.

Lemma omap_snoc' {A B} (f : A → option B) l x : omap f (l ++ [x]) = omap f l ++ option_list (f x).
Proof. rewrite omap_app. simpl. by destruct (f x). Qed.

Lemma plan_loop_spec include l :
  ps_candidates (plan_loop l reg cfg include) = filterb (selected include) (omap candidate_of l) ∧
  ps_review (plan_loop l reg cfg include) =
    filterb (λ c, negb (selected include c)) (omap candidate_of l) ∧
  ps_bytes (plan_loop l reg cfg include) =
    sumZ (pc_bytes <$> ps_candidates (plan_loop l reg cfg include)).
Proof.
  induction l as [|a l IH] using rev_ind; [done|].
  rewrite plan_loop_snoc, omap_snoc', !filterb_app. destruct IH as (IH1 & IH2 & IH3).
  pose proof (plan_step_spec include (plan_loop l reg cfg include) a) as (-> & -> & ->).
  rewrite IH1, IH2, IH3, fmap_app, sumZ_app, IH1. done.
Qed.
End selection.

Lemma candidate_of_inv reg cfg a c :
  candidate_of reg cfg a = Some c →
  pc_id c = oa_id a ∧ oa_bytes a = Some (pc_bytes c) ∧ pc_class c ≠ BuildCache ∧
  cl_class (classify_artifact a reg cfg) = Some (pc_class c) ∧
  cl_age_eligible (classify_artifact a reg cfg) = true.
Proof.
  unfold candidate_of, eligible_class, is_removable_by_id. intros H.
  repeat (case_match; simplify_eq/=; try done). booleans. done.
Qed.

Lemma planned_safe artifacts reg cfg include c :
  c ∈ pl_candidates (plan artifacts reg cfg include) →
  ∃ a, a ∈ artifacts ∧ oa_id a = pc_id c ∧ oa_bytes a = Some (pc_bytes c) ∧
    in_use (oa_signals a) = false ∧
    (∃ age, oa_age_seconds a = Some age ∧ f64_ge age (ttl_seconds cfg) = true) ∧
    (classify_ownership (oa_labels a) reg = Unlabeled ∨
     (classify_ownership (oa_labels a) reg = Ours ∧ oa_kind a = Image ∧
      dangling (oa_signals a) = true)) ∧
    pc_class c ≠ BuildCache ∧
    (UnmanagedClass_tier (pc_class c) = Reclaimable ∨ pc_id c ∈ include).
Proof.
  unfold plan. cbn [pl_candidates]. rewrite elem_of_sort_by.
  pose proof (plan_loop_spec reg cfg include artifacts) as (-> & _ & _).
  rewrite elem_of_filterb, list_elem_of_omap. intros (Hs & a & Ha & Hc).
  apply candidate_of_inv in Hc as (Hid & Hb & Hbc & Hcl & He).
  pose proof (classify_class_inv _ _ _ _ Hcl) as (Hu & (age & Hage & Hel) & Hown).
  exists a. split_and!; try done; [exists age; split; congruence|naive_solver|].
  unfold selected in Hs. booleans. destruct Hs as [Hs|Hs]; booleans; [by left|right].
  apply existsb_exists in Hs as (x & Hx & Heq). apply String.eqb_eq in Heq. subst x.
  by apply list_elem_of_In.
Qed.

(** A planned removal names an observed, measured, unused artifact past its gate that
    is unlabeled or this registry's own dangling image; a Tier-2 artifact is planned
    only when the caller named it, and build cache never. *)
Theorem plan_candidate_safe artifacts reg cfg include c :
  c ∈ pl_candidates (plan artifacts reg cfg include) →
  ∃ a, a ∈ artifacts ∧ oa_id a = pc_id c ∧ oa_bytes a = Some (pc_bytes c) ∧
    in_use (oa_signals a) = false ∧
    (∃ age, oa_age_seconds a = Some age ∧ f64_ge age (ttl_seconds cfg) = true) ∧
    (classify_ownership (oa_labels a) reg = Unlabeled ∨
     (classify_ownership (oa_labels a) reg = Ours ∧ oa_kind a = Image ∧
      dangling (oa_signals a) = true)) ∧
    pc_class c ≠ BuildCache ∧
    (UnmanagedClass_tier (pc_class c) = Reclaimable ∨ pc_id c ∈ include).
Proof. apply planned_safe. Qed.

(** The plan is complete, in Docker's removal order, and reports its exact bytes: the
    candidates are all the eligible artifacts the tier or the caller selects, sorted
    stably by removal rank; the unselected ones are kept for review. *)
Theorem plan_complete artifacts reg cfg include :
  pl_candidates (plan artifacts reg cfg include) ≡ₚ
    filterb (selected include) (omap (candidate_of reg cfg) artifacts) ∧
  StronglySorted (λ a b, removal_rank (pc_class a) ≤ removal_rank (pc_class b))%Z
    (pl_candidates (plan artifacts reg cfg include)) ∧
  pl_review (plan artifacts reg cfg include) =
    filterb (λ c, negb (selected include c)) (omap (candidate_of reg cfg) artifacts) ∧
  pl_bytes (plan artifacts reg cfg include) =
    sumZ (pc_bytes <$> pl_candidates (plan artifacts reg cfg include)).
Proof.
  unfold plan. cbn [pl_candidates pl_review pl_bytes].
  pose proof (plan_loop_spec reg cfg include artifacts) as (H1 & H2 & H3).
  split_and!.
  - by rewrite sort_by_perm, H1.
  - eapply StronglySorted_weaken; [|apply (sort_by_sorted rank_cmp)].
    intros x y. unfold cmp_le, rank_cmp, cmp_on. apply Z.compare_le_iff.
  - done.
  - by rewrite H3, sort_by_perm.
Qed.

Lemma plan_candidate_safe_witness :
  let a := mkArtifact "c1" Container ∅ (mkSignals false false false) (Some 10%Z)
             (Some (f64_of_Z 700000)) in
  let cfg := mkCensusConfig DEFAULT_TTL_SECONDS in
  ∃ b, b ∈ [a] ∧ oa_id b = "c1" ∧ in_use (oa_signals b) = false.
Proof.
  destruct (plan_candidate_safe
    [mkArtifact "c1" Container ∅ (mkSignals false false false) (Some 10%Z) (Some (f64_of_Z 700000))]
    None (mkCensusConfig DEFAULT_TTL_SECONDS) [] (mkCandidate "c1" StoppedContainer 10%Z))
    as (b & Hb & Hid & _ & Hu & _).
  - apply list_elem_of_In. vm_compute. by left.
  - by exists b.
Defined.

(** ** The census counts everything once *)

Definition artifact_bytes (a : ObservedArtifact) : Z := default 0%Z (oa_bytes a).
Definition unmeasured (a : ObservedArtifact) : bool := bool_decide (oa_bytes a = None).

(** An artifact the reclaimable totals count. *)
Definition sweepable (reg : option string) (cfg : CensusConfig) (a : ObservedArtifact) : bool :=
  match eligible_class reg cfg a with
  | Some c => bool_decide (UnmanagedClass_tier c = Reclaimable) && is_removable_by_id c
  | None => false
  end.

Definition when (f : ClassSummary → Z) (s : ClassSummary) : Z :=
  if countable_summary s then f s else 0%Z.

Record census_inv (reg : option string) (cfg : CensusConfig) (l : list ObservedArtifact)
    (st : census_state) : Prop := {
  ci_keys : map_Forall (λ c s, sum_class s = c ∧ sum_tier s = UnmanagedClass_tier c) (cst_classes st);
  ci_objects : (map_total sum_objects (cst_classes st) +
    map_total prot_objects (cst_protected st) = Z.of_nat (length l))%Z;
  ci_bytes : (map_total sum_bytes (cst_classes st) +
    map_total prot_bytes (cst_protected st) = sumZ (artifact_bytes <$> l))%Z;
  ci_swept_objects : map_total (when sum_eligible_objects) (cst_classes st) =
    Z.of_nat (length (filterb (sweepable reg cfg) l));
  ci_swept_bytes : map_total (when sum_eligible_bytes) (cst_classes st) =
    sumZ (artifact_bytes <$> filterb (sweepable reg cfg) l);
  ci_partial : cst_partial st = existsb unmeasured l;
  ci_unmeasured : cst_unmeasured st = Z.of_nat (length (filterb unmeasured l))
}.

Lemma census_step_inv reg cfg l a st :
  census_inv reg cfg l st → census_inv reg cfg (l ++ [a]) (census_step reg cfg st a).
Proof.
  intros [H1 H2 H3 H4 H5 H6 H7].
  pose proof (classify_cases (oa_kind a) (oa_labels a) reg (oa_signals a) (oa_age_seconds a) cfg)
    as [(c & Hc & Hp)|(r & Hc & Hp & He)]; fold (classify_artifact a reg cfg) in *.
  - unfold census_step. rewrite Hc, Hp.
    set (e := default (empty_class_summary c) (cst_classes st !! c)).
    assert (sum_class e = c ∧ sum_tier e = UnmanagedClass_tier c) as [Ek Et].
    { unfold e. destruct (cst_classes st !! c) as [s|] eqn:Es; [by apply H1 in Es|done]. }
    assert (sweepable reg cfg a =
      cl_age_eligible (classify_artifact a reg cfg) && countable_summary e) as Hsw.
    { unfold sweepable, eligible_class, countable_summary. rewrite Hc, Ek, Et.
      by destruct (cl_age_eligible _). }
    split; cbn [cst_classes cst_protected cst_partial cst_unmeasured];
      rewrite ?filterb_app, ?filterb_cons, ?filterb_nil, ?length_app, ?fmap_app, ?sumZ_app,
        ?existsb_app, ?Nat2Z.inj_add; cbn [length fmap list_fmap sumZ existsb].
    + apply map_Forall_insert_2; [|done]. cbn. by split.
    + rewrite map_total_entry by done. fold e. cbn [sum_objects summarize]. lia.
    + rewrite map_total_entry by done. fold e. cbn [sum_bytes summarize]. fold (artifact_bytes a). lia.
    + rewrite map_total_entry by (unfold when; by case_match). rewrite H4. fold e. unfold when.
      rewrite Hsw. unfold countable_summary in *. cbn [summarize sum_tier sum_class sum_eligible_objects].
      rewrite Ek, Et. destruct (cl_age_eligible (classify_artifact a reg cfg)),
        (bool_decide (UnmanagedClass_tier c = Reclaimable)), (is_removable_by_id c);
        cbn [andb length]; lia.
    + rewrite map_total_entry by (unfold when; by case_match). rewrite H5. fold e. unfold when.
      rewrite Hsw. unfold countable_summary in *. cbn [summarize sum_tier sum_class sum_eligible_bytes].
      rewrite Ek, Et. destruct (cl_age_eligible (classify_artifact a reg cfg)),
        (bool_decide (UnmanagedClass_tier c = Reclaimable)), (is_removable_by_id c);
        cbn [andb fmap list_fmap sumZ]; fold (artifact_bytes a); lia.
    + rewrite H6, orb_false_r. done.
    + rewrite H7. unfold unmeasured. destruct (bool_decide _); simpl; lia.
  - unfold census_step. rewrite Hp.
    assert (sweepable reg cfg a = false) as Hsw.
    { unfold sweepable, eligible_class. by rewrite He. }
    split; cbn [cst_classes cst_protected cst_partial cst_unmeasured];
      rewrite ?filterb_app, ?filterb_cons, ?filterb_nil, ?length_app, ?fmap_app, ?sumZ_app,
        ?existsb_app, ?Nat2Z.inj_add; cbn [length fmap list_fmap sumZ existsb];
      rewrite ?Hsw; cbn [length fmap list_fmap sumZ]; rewrite ?app_nil_r; try (done || lia).
    all: try (rewrite map_total_entry by done; cbn [prot_objects prot_bytes];
              fold (artifact_bytes a); lia).
    + rewrite H6, orb_false_r. done.
    + rewrite H7. unfold unmeasured. destruct (bool_decide _); simpl; lia.
Qed.

Lemma census_loop_inv reg cfg l : census_inv reg cfg l (census_loop l reg cfg).
Proof.
  induction l as [|a l IH] using rev_ind.
  - split; cbn; rewrite ?map_total_empty; done.
  - unfold census_loop. rewrite foldl_snoc. by apply census_step_inv.
Qed.

(** Every observed object and byte lands in exactly one class or protected entry,
    and missing sizes are counted and reported rather than read as clean. *)
Theorem census_conserves artifacts reg cfg :
  let c := census artifacts reg cfg in
  (sumZ (sum_objects <$> classes c) + sumZ (prot_objects <$> protected c) =
     Z.of_nat (length artifacts))%Z ∧
  (sumZ (sum_bytes <$> classes c) + sumZ (prot_bytes <$> protected c) =
     sumZ (artifact_bytes <$> artifacts))%Z ∧
  unmeasured_objects c = Z.of_nat (length (filterb unmeasured artifacts)) ∧
  partial c = existsb unmeasured artifacts.
Proof.
  destruct (census_loop_inv reg cfg artifacts) as [_ H2 H3 _ _ H6 H7].
  cbn. rewrite !sumZ_btree_values. done.
Qed.

Lemma sweepable_candidate reg cfg a :
  sumZ (pc_bytes <$> filterb (selected []) (option_list (candidate_of reg cfg a))) =
    (if sweepable reg cfg a then artifact_bytes a else 0)%Z ∧
  (length (filterb (selected []) (option_list (candidate_of reg cfg a))) ≤
    if sweepable reg cfg a then 1 else 0)%nat.
Proof.
  unfold candidate_of, sweepable, artifact_bytes, selected.
  destruct (eligible_class reg cfg a) as [c|]; [|by destruct (oa_bytes a)].
  by destruct (oa_bytes a) as [[]|], c; vm_compute; split; try done; repeat constructor.
Qed.

Lemma sweepable_candidates reg cfg l :
  sumZ (artifact_bytes <$> filterb (sweepable reg cfg) l) =
    sumZ (pc_bytes <$> filterb (selected []) (omap (candidate_of reg cfg) l)) ∧
  (length (filterb (selected []) (omap (candidate_of reg cfg) l)) ≤
    length (filterb (sweepable reg cfg) l))%nat.
Proof.
  induction l as [|a l [IH1 IH2]]; [done|]. rewrite filterb_cons.
  replace (omap (candidate_of reg cfg) (a :: l)) with
    (option_list (candidate_of reg cfg a) ++ omap (candidate_of reg cfg) l)
    by (simpl; by destruct (candidate_of reg cfg a)).
  rewrite filterb_app, fmap_app, sumZ_app, length_app.
  pose proof (sweepable_candidate reg cfg a) as [-> ?].
  destruct (sweepable reg cfg a); cbn [fmap list_fmap sumZ length]; split; lia.
Qed.

(** The bytes the census promises are the bytes a plan without extra selections takes,
    and its object count covers them. *)
Theorem census_agrees_with_plan artifacts reg cfg :
  reclaimable_bytes (census artifacts reg cfg) = pl_bytes (plan artifacts reg cfg []) ∧
  (Z.of_nat (length (pl_candidates (plan artifacts reg cfg []))) ≤
     reclaimable_objects (census artifacts reg cfg))%Z.
Proof.
  destruct (census_loop_inv reg cfg artifacts) as [_ _ _ H4 H5 _ _].
  cbn [census reclaimable_bytes reclaimable_objects plan pl_bytes pl_candidates].
  rewrite (sumZ_filterb sum_eligible_bytes), (sumZ_filterb sum_eligible_objects).
  fold (when sum_eligible_bytes) (when sum_eligible_objects).
  rewrite !sumZ_btree_values, H4, H5, length_sort_by.
  pose proof (plan_loop_spec reg cfg [] artifacts) as (-> & _ & ->).
  pose proof (plan_loop_spec reg cfg [] artifacts) as (-> & _ & _).
  pose proof (sweepable_candidates reg cfg artifacts) as [-> ?]. split; [done|lia].
Qed.

(** ** Warning, acknowledgement and pressure *)

Definition protected_total_bytes (c : Census) : Z := sumZ (prot_bytes <$> protected c).
Definition protected_total_objects (c : Census) : Z := sumZ (prot_objects <$> protected c).

(** Silence means a complete census with every footprint below its threshold. *)
Lemma warning_silent_iff c th :
  warning c th = None ↔
  partial c = false ∧
  (reclaimable_bytes c < th_bytes th ∧ reclaimable_objects c < th_objects th ∧
   protected_total_bytes c < th_bytes th ∧ protected_total_objects c < th_objects th ∧
   unmeasured_objects c < th_objects th)%Z.
Proof.
  unfold warning. cbv zeta.
  fold (protected_total_bytes c) (protected_total_objects c). split.
  - intros H. case_match; [|done]. booleans. by split_and!.
  - intros (-> & H1 & H2 & H3 & H4 & H5).
    rewrite <-Z.leb_gt in *. by rewrite H1, H2, H3, H4, H5.
Qed.

(** A machine whose every size is missing is never silent, whatever the threshold. *)
Corollary unmeasured_census_warns artifacts reg cfg th a :
  a ∈ artifacts → oa_bytes a = None → warning (census artifacts reg cfg) th ≠ None.
Proof.
  intros Ha Hb. rewrite warning_silent_iff. intros [Hp _].
  destruct (census_loop_inv reg cfg artifacts) as [_ _ _ _ _ Hpart _].
  change (cst_partial (census_loop artifacts reg cfg) = false) in Hp. rewrite Hpart in Hp. apply existsb_false_forall, Forall_forall with (x := a) in Hp; [|done].
  unfold unmeasured in Hp. by rewrite Hb in Hp.
Qed.

(** An acknowledgement that covers a footprint covers every smaller one. *)
Lemma acknowledgement_monotone ack c c' now :
  (reclaimable_bytes c' ≤ reclaimable_bytes c)%Z →
  (reclaimable_objects c' ≤ reclaimable_objects c)%Z →
  acknowledgement_suppresses ack c now = true → acknowledgement_suppresses ack c' now = true.
Proof.
  intros Hb Ho. unfold acknowledgement_suppresses. destruct ack as [ack|]; [|done].
  repeat (case_match; [done|]). intros H1. booleans.
  apply andb_true_intro. rewrite !Z.leb_le. lia.
Qed.

(** Owned caches may be evicted unless the census is incomplete or the free-space
    shortfall exceeds everything Bosn owns. *)
Theorem pressure_decision_iff up fs free min_free owned trusted :
  in_i128 free → in_i128 min_free → (0 ≤ owned < i128_max)%Z →
  may_evict_owned (pressure_decision up fs free min_free owned trusted) = true ↔
  trusted = true ∧ (up = false ∨ fs = false ∨ min_free - free ≤ owned)%Z.
Proof.
  intros Hf Hm Ho. unfold pressure_decision.
  destruct trusted; simpl; [|naive_solver]. destruct up; simpl; [|naive_solver].
  destruct fs; simpl.
  - assert ((Z.max (i128_saturating_sub min_free free) 0 <=? owned)%Z = true ↔
      (min_free - free ≤ owned)%Z) as Hs.
    { rewrite Z.leb_le. unfold i128_saturating_sub, i128_clamp, in_i128 in *.
      unfold i128_min, i128_max in *. lia. }
    destruct (_ <=? _)%Z; simpl; naive_solver.
  - rewrite (proj2 (Z.leb_le 0 owned)) by lia. naive_solver.
Qed.

Lemma pressure_decision_iff_witness :
  may_evict_owned (pressure_decision true true 5 20 10 true) = true ↔
  true = true ∧ (true = false ∨ true = false ∨ 20 - 5 ≤ 10)%Z.
Proof. apply (pressure_decision_iff true true 5 20 10 true); done. Defined.
