(* ===== verification/DockerDf.v ===== *)
(** * Reading Docker's accounting output

    The model of [bosn-core/src/unmanaged/docker.rs]: label lists, human sizes, timestamps,
    and [observe], which turns one engine read pass into the artifacts Unmanaged.v classifies.
    Sizes and times are binary64 as in the source. [days_from_civil] computes in [i64] and
    wraps as the release build does; [civil_no_overflow] says where it does not. The JSON
    decoding of the records is serde's and is not modelled: the records are the input. *)

From Stdlib Require Import Ascii.
From S2P Require Export Text Unmanaged.

Local Open Scope string_scope.
Local Open Scope list_scope.
Local Open Scope Z_scope.
Local Open Scope bosn_scope.

(** ** Labels *)

Definition parse_label_entry (labels : gmap string string) (entry : string) : gmap string string :=
  let entry := trim entry in
  if String.eqb entry "" then labels
  else match split_once "=" entry with
       | Some (key, value) => <[trim key := value]> labels
       | None => <[entry := ""]> labels
       end.

Definition parse_label_list (raw : string) : gmap string string :=
  foldl parse_label_entry ∅ (str_split "," raw).

(** ** Sizes *)

Definition is_digit_or_dot (a : ascii) : bool := is_digit a || Ascii.eqb a ".".

Definition size_multiplier (unit : string) : option f64 :=
  if String.eqb unit "" || String.eqb unit "B" then Some (f64_of_Z 1)
  else if String.eqb unit "kB" then Some (f64_of_Z (10 ^ 3))
  else if String.eqb unit "MB" then Some (f64_of_Z (10 ^ 6))
  else if String.eqb unit "GB" then Some (f64_of_Z (10 ^ 9))
  else if String.eqb unit "TB" then Some (f64_of_Z (10 ^ 12))
  else if String.eqb unit "PB" then Some (f64_of_Z (10 ^ 15))
  else if String.eqb unit "KiB" then Some (f64_of_Z 1024)
  else if String.eqb unit "MiB" then Some (f64_of_Z (1024 ^ 2))
  else if String.eqb unit "GiB" then Some (f64_of_Z (1024 ^ 3))
  else if String.eqb unit "TiB" then Some (f64_of_Z (1024 ^ 4))
  else if String.eqb unit "PiB" then Some (f64_of_Z (1024 ^ 5))
  else None.

Definition parse_docker_size (raw : string) : option Z :=
  let raw := trim (trim_end_matches "*" (trim raw)) in
  if String.eqb raw "" || eq_ignore_ascii_case raw "n/a" then None
  else
    let '(number, unit) := span is_digit_or_dot raw in
    if String.eqb number "" then None
    else
      value ← parse_f64 number;
      if negb (is_finite value) || f64_lt value f64_zero then None
      else
        multiplier ← size_multiplier (trim unit);
        let bytes := f64_mul value multiplier in
        if negb (is_finite bytes) || f64_gt bytes (f64_of_Z i128_max) then None
        else Some (f64_round_to_int i128_min i128_max bytes).

(** ** Times *)

(** Two's complement [i64]. *)
Definition i64_wrap (z : Z) : Z := (z + 2 ^ 63) mod 2 ^ 64 - 2 ^ 63.

(** [/] and [%] on [i64] truncate toward zero. *)
Definition days_from_civil (year month day : Z) : Z :=
  let year := if month <=? 2 then year - 1 else year in
  let era := (if 0 <=? year then year else year - 399) `quot` 400 in
  let year_of_era := year - era * 400 in
  let month_prime := (month + 9) `rem` 12 in
  let day_of_year := (153 * month_prime + 2) `quot` 5 + day - 1 in
  let day_of_era :=
    year_of_era * 365 + year_of_era `quot` 4 - year_of_era `quot` 100 + day_of_year in
  i64_wrap (era * 146097 + day_of_era - 719468).

Definition in_interval (lo hi z : Z) : bool := (lo <=? z) && (z <=? hi).

Definition parse_offset (raw : string) : option Z :=
  match raw with
  | EmptyString => None
  | String a rest =>
      let parse sign :=
        let digits := filter_bytes (λ c, negb (Ascii.eqb c ":")) rest in
        if negb (String.length digits =? 4)%nat || negb (all_bytes is_digit digits) then None
        else
          hours ← parse_i64 (String.substring 0 2 digits);
          minutes ← parse_i64 (String.substring 2 2 digits);
          if (23 <? hours) || (59 <? minutes) then None
          else Some (sign * (hours * 3600 + minutes * 60)) in
      if Ascii.eqb a "+" then parse 1
      else if Ascii.eqb a "-" then parse (-1)
      else None
  end.

(** Exactly three [i64] fields separated by [c]. *)
Definition three_fields (c : ascii) (s : string) : option (Z * Z * Z) :=
  match str_split c s with
  | [x; y; z] =>
      x ← parse_i64 x; y ← parse_i64 y; z ← parse_i64 z; Some (x, y, z)
  | _ => None
  end.

(** The fraction of a second: up to nine digits. *)
Definition parse_fraction (fraction : option string) : option f64 :=
  match fraction with
  | None => Some f64_zero
  | Some fraction =>
      if String.eqb fraction "" || negb (all_bytes is_digit fraction) then None
      else
        let digits := String.substring 0 9 fraction in
        value ← parse_f64 digits;
        Some (f64_div value (f64_of_Z (10 ^ Z.of_nat (String.length digits))))
  end.

Definition parse_docker_timestamp (raw : string) : option f64 :=
  let raw := trim raw in
  '(date, rest) ← split_once " " raw;
  '(time, rest) ← split_once " " (trim rest);
  '(year, month, day) ← three_fields "-" date;
  if negb (in_interval 1 12 month) || negb (in_interval 1 31 day) then None
  else
    let '(clock, fraction) :=
      match split_once "." time with
      | Some (clock, fraction) => (clock, Some fraction)
      | None => (time, None)
      end in
    '(hour, minute, second) ← three_fields ":" clock;
    if negb (in_interval 0 23 hour) || negb (in_interval 0 59 minute)
       || negb (in_interval 0 60 second) then None
    else
      sub_second ← parse_fraction fraction;
      offset_token ← head (str_split " " (trim rest));
      offset_seconds ← parse_offset offset_token;
      let days := days_from_civil year month day in
      let seconds :=
        f64_sub
          (f64_add
             (f64_add (f64_mul (f64_of_Z days) (f64_of_Z 86400))
                      (f64_of_Z (hour * 3600 + minute * 60 + second)))
             sub_second)
          (f64_of_Z offset_seconds) in
      if is_finite seconds then Some seconds else None.

(** [rfind(['+', '-'])], splitting before the sign. *)
Fixpoint split_last_sign (s : string) : option (string * string) :=
  match s with
  | EmptyString => None
  | String a s' =>
      match split_last_sign s' with
      | Some (l, r) => Some (String a l, r)
      | None => if Ascii.eqb a "+" || Ascii.eqb a "-" then Some (EmptyString, s) else None
      end
  end.

(** [strip_suffix(['Z', 'z'])]. *)
Definition strip_zulu (s : string) : option string :=
  match str_reverse s with
  | String a r => if Ascii.eqb a "Z" || Ascii.eqb a "z" then Some (str_reverse r) else None
  | EmptyString => None
  end.

Definition parse_rfc3339_timestamp (raw : string) : option f64 :=
  let trimmed := trim raw in
  if negb (bool_decide (String.get 10 trimmed = Some "T"%char)) then parse_docker_timestamp trimmed
  else
    let date := String.substring 0 10 trimmed in
    let rest := String.substring 11 (String.length trimmed - 11) trimmed in
    match strip_zulu rest with
    | Some clock => parse_docker_timestamp (date +:+ " " +:+ clock +:+ " +0000")
    | None =>
        '(clock, offset) ← split_last_sign rest;
        parse_docker_timestamp (date +:+ " " +:+ clock +:+ " " +:+ offset)
    end.

(** ** The accounting records *)

Record DfImage := {
  di_id : string; di_repository : string; di_tag : string; di_digest : string;
  di_created_at : string; di_size : string; di_containers : string }.
Record DfContainer := {
  dc_id : string; dc_created_at : string; dc_labels : string; dc_size : string;
  dc_state : string }.
Record DfVolume := {
  dv_name : string; dv_labels : string; dv_links : string; dv_size : string }.
Record DfBuildCache := {
  db_id : string; db_size : string; db_created_at : string; db_in_use : string }.
Record SystemDfReport := {
  df_images : list DfImage; df_containers : list DfContainer;
  df_volumes : list DfVolume; df_build_cache : list DfBuildCache }.
Record InspectedVolume := {
  iv_name : string; iv_created_at : string; iv_labels : gmap string string }.
Record EngineObservation := {
  eo_report : SystemDfReport;
  eo_dangling_image_ids : list string;
  eo_bosn_labeled_image_ids : list string;
  eo_inspected_volumes : list InspectedVolume;
  eo_now : f64 }.

(** [null] decodes as the empty map. *)
Definition null_as_empty_map (labels : option (gmap string string)) : gmap string string :=
  default ∅ labels.

Definition is_anonymous_volume_name (name : string) : bool :=
  (String.length name =? 64)%nat && all_bytes is_hexdigit name.

Definition parse_count (raw : string) : option Z :=
  let raw := trim raw in
  if String.eqb raw "" then None else parse_u64 raw.

(** ** [observe] *)

Definition observe_image (input : EngineObservation) (image : DfImage) : ObservedArtifact :=
  {| oa_id := di_id image;
     oa_kind := Image;
     oa_labels :=
       if bool_decide (di_id image ∈ eo_bosn_labeled_image_ids input)
       then {[ LABEL_REGISTRY := "" ]} else ∅;
     oa_signals :=
       {| in_use := 0 <? default 1 (parse_count (di_containers image));
          dangling := bool_decide (di_id image ∈ eo_dangling_image_ids input);
          anonymous := false |};
     oa_bytes := parse_docker_size (di_size image);
     oa_age_seconds := f64_sub (eo_now input) <$> parse_docker_timestamp (di_created_at image) |}.

Definition observe_container (input : EngineObservation) (container : DfContainer) :
    ObservedArtifact :=
  {| oa_id := dc_id container;
     oa_kind := Container;
     oa_labels := parse_label_list (dc_labels container);
     oa_signals :=
       {| in_use := negb (String.eqb (dc_state container) "exited")
                    && negb (String.eqb (dc_state container) "created");
          dangling := false;
          anonymous := false |};
     oa_bytes := parse_docker_size (dc_size container);
     oa_age_seconds :=
       f64_sub (eo_now input) <$> parse_docker_timestamp (dc_created_at container) |}.

(** The inspected volumes by name; a later entry replaces an earlier one. *)
Definition inspected_by_name (volumes : list InspectedVolume) : gmap string InspectedVolume :=
  foldl (λ m v, <[iv_name v := v]> m) ∅ volumes.

Definition observe_volume (input : EngineObservation) (volume : DfVolume) : ObservedArtifact :=
  let detail := inspected_by_name (eo_inspected_volumes input) !! dv_name volume in
  let labels :=
    match detail with
    | Some detail =>
        if negb (bool_decide (iv_labels detail = ∅)) then iv_labels detail
        else parse_label_list (dv_labels volume)
    | None => parse_label_list (dv_labels volume)
    end in
  {| oa_id := dv_name volume;
     oa_kind := Volume;
     oa_labels := labels;
     oa_signals :=
       {| in_use := 0 <? default 1 (parse_count (dv_links volume));
          dangling := false;
          anonymous := bool_decide (is_Some (labels !! "com.docker.volume.anonymous"))
                       || is_anonymous_volume_name (dv_name volume) |};
     oa_bytes := parse_docker_size (dv_size volume);
     oa_age_seconds :=
       at_ ← (detail ← detail; parse_rfc3339_timestamp (iv_created_at detail));
       Some (f64_sub (eo_now input) at_) |}.

Definition observe_build_cache (input : EngineObservation) (entry : DfBuildCache) :
    ObservedArtifact :=
  {| oa_id := db_id entry;
     oa_kind := Builder;
     oa_labels := ∅;
     oa_signals :=
       {| in_use := eq_ignore_ascii_case (db_in_use entry) "true";
          dangling := false;
          anonymous := false |};
     oa_bytes := parse_docker_size (db_size entry);
     oa_age_seconds := f64_sub (eo_now input) <$> parse_docker_timestamp (db_created_at entry) |}.

Definition observe (input : EngineObservation) : list ObservedArtifact :=
  let report := eo_report input in
  (observe_image input <$> df_images report)
  ++ (observe_container input <$> df_containers report)
  ++ (observe_volume input <$> df_volumes report)
  ++ (observe_build_cache input <$> df_build_cache report).

(** The source's own test values. *)
Example timestamp_epoch : parse_docker_timestamp "1970-01-01 00:00:00 +0000 UTC" = Some f64_zero.
Proof. vm_compute. reflexivity. Qed.
Example timestamp_offset :
  parse_docker_timestamp "1970-01-01 00:00:00 -0700 PDT" = Some (f64_of_Z (7 * 3600)).
Proof. vm_compute. reflexivity. Qed.
Example timestamp_fraction :
  parse_docker_timestamp "1970-01-01 00:00:01.5 +0000 UTC" = Some (f64_of_decimal 15 1).
Proof. vm_compute. reflexivity. Qed.
Example timestamp_rfc3339 :
  parse_rfc3339_timestamp "2026-09-13T18:41:43-07:00"
  = parse_docker_timestamp "2026-09-13 18:41:43 -0700 PDT".
Proof. vm_compute. reflexivity. Qed.
Example size_units :
  parse_docker_size "1.5GB" = Some 1500000000 ∧ parse_docker_size "2KiB*" = Some 2048 ∧
  parse_docker_size "N/A" = None ∧ parse_docker_size "12 parsecs" = None.
Proof. vm_compute. done. Qed.

(** ** The calendar *)

Definition leap (y : Z) : bool :=
  ((y mod 4 =? 0) && negb (y mod 100 =? 0)) || (y mod 400 =? 0).
Definition days_in_month (y m : Z) : Z :=
  if m =? 2 then (if leap y then 29 else 28)
  else if (m =? 4) || (m =? 6) || (m =? 9) || (m =? 11) then 30 else 31.
Definition valid_date (y m d : Z) : Prop := 1 ≤ m ≤ 12 ∧ 1 ≤ d ≤ days_in_month y m.
(** The proleptic Gregorian calendar's next day. *)
Definition next_day (y m d : Z) : Z * Z * Z :=
  if d <? days_in_month y m then (y, m, d + 1)
  else if m <? 12 then (y, m + 1, 1) else (y + 1, 1, 1).

(** [days_from_civil] on unbounded integers, with the shifted year and month explicit. *)
Definition shifted_days (y mp d : Z) : Z :=
  let era := y / 400 in
  let yoe := y mod 400 in
  era * 146097 + (yoe * 365 + yoe / 4 - yoe / 100 + ((153 * mp + 2) / 5 + d - 1)) - 719468.
Definition civil_days (y m d : Z) : Z :=
  shifted_days (if m <=? 2 then y - 1 else y) ((m + 9) mod 12) d.

Lemma i64_wrap_id z : i64_min ≤ z ≤ i64_max → i64_wrap z = z.
Proof.
  unfold i64_wrap, i64_min, i64_max. intros Hz. rewrite Z.mod_small by lia. lia.
Qed.

Lemma days_from_civil_wrap y m d :
  0 ≤ y → 1 ≤ m ≤ 12 → days_from_civil y m d = i64_wrap (civil_days y m d).
Proof.
  intros Hy Hm. unfold days_from_civil, civil_days. f_equal.
  set (y' := if m <=? 2 then y - 1 else y).
  assert (-1 ≤ y') as Hy' by (unfold y'; destruct (m <=? 2); lia).
  assert ((if 0 <=? y' then y' else y' - 399) `quot` 400 = y' / 400) as ->.
  { destruct (0 <=? y') eqn:E; booleans; [by apply Z.quot_div_nonneg; lia|].
    assert (y' = -1) as -> by lia. reflexivity. }
  rewrite Z.rem_mod_nonneg, (Z.quot_div_nonneg _ 5) by (pose proof (Z.mod_pos_bound (m + 9) 12); lia).
  unfold shifted_days. cbv zeta.
  assert (y' - y' / 400 * 400 = y' mod 400) as -> by (pose proof (Z.div_mod y' 400); lia).
  pose proof (Z.mod_pos_bound y' 400 ltac:(lia)).
  rewrite (Z.quot_div_nonneg _ 4), (Z.quot_div_nonneg _ 100) by lia. lia.
Qed.

(** Years up to ten quadrillion stay within [i64]. *)
Lemma civil_no_overflow y m d :
  0 ≤ y ≤ 10 ^ 16 → 1 ≤ m ≤ 12 → 1 ≤ d ≤ 31 → days_from_civil y m d = civil_days y m d.
Proof.
  intros Hy Hm Hd. rewrite days_from_civil_wrap by lia. apply i64_wrap_id.
  unfold civil_days, shifted_days, i64_min, i64_max. cbv zeta.
  set (y' := if m <=? 2 then y - 1 else y).
  assert (-1 ≤ y' ≤ 10 ^ 16) as Hy' by (unfold y'; destruct (m <=? 2); lia).
  pose proof (Z.mod_pos_bound (m + 9) 12 ltac:(lia)).
  set (mp := (m + 9) mod 12) in *. Z.to_euclidean_division_equations. lia.
Qed.

(** The year shift turns the leap rule into one on the shifted year: March to February. *)
Lemma shifted_year_step y d :
  shifted_days (y + 1) 0 1 =
  shifted_days y 11 d + (if leap (y + 1) then 29 else 28) + 1 - d.
Proof.
  unfold shifted_days, leap. cbv zeta. change ((153 * 0 + 2) / 5) with 0.
  change ((153 * 11 + 2) / 5) with 337.
  assert (∃ q r, y = 400 * q + r ∧ 0 ≤ r < 400) as (q & r & -> & Hr).
  { exists (y / 400), (y mod 400). split; [apply Z.div_mod; lia|apply Z.mod_pos_bound; lia]. }
  replace ((400 * q + r) / 400) with q by (apply (Z.div_unique _ _ _ r); lia).
  replace ((400 * q + r) mod 400) with r by (apply (Z.mod_unique _ _ q); lia).
  replace ((400 * q + r + 1) mod 4) with ((r + 1) mod 4)
    by (rewrite <-(Z.mod_add (r + 1) (100 * q) 4) by lia; f_equal; lia).
  replace ((400 * q + r + 1) mod 100) with ((r + 1) mod 100)
    by (rewrite <-(Z.mod_add (r + 1) (4 * q) 100) by lia; f_equal; lia).
  replace ((400 * q + r + 1) mod 400) with ((r + 1) mod 400)
    by (rewrite <-(Z.mod_add (r + 1) q 400) by lia; f_equal; lia).
  replace ((400 * q + r + 1) / 400) with (q + (r + 1) / 400)
    by (replace (400 * q + r + 1) with (r + 1 + q * 400) by lia; rewrite Z.div_add by lia; lia).
  destruct (decide (r = 399)) as [->|Hne].
  - change ((399 + 1) / 400) with 1. change ((399 + 1) mod 400) with 0.
    change ((399 + 1) mod 4) with 0. change ((399 + 1) mod 100) with 0.
    change (399 / 4) with 99. change (399 / 100) with 3. change (0 / 4) with 0.
    change (0 / 100) with 0. change (0 =? 0) with true. cbn [andb orb negb]. lia.
  - rewrite (Z.div_small (r + 1) 400), (Z.mod_small (r + 1) 400) by lia.
    replace (r + 1 =? 0) with false by (symmetry; apply Z.eqb_neq; lia). rewrite orb_false_r.
    destruct ((r + 1) mod 4 =? 0) eqn:E4, ((r + 1) mod 100 =? 0) eqn:E100; booleans; cbn [andb negb];
      Z.to_euclidean_division_equations; lia.
Qed.

(** Within a shifted year, months follow each other without gap. *)
Lemma shifted_month_step y mp mp' d :
  (153 * mp' + 2) / 5 = (153 * mp + 2) / 5 + d → shifted_days y mp' 1 = shifted_days y mp d + 1.
Proof. unfold shifted_days. cbv zeta. lia. Qed.

Lemma civil_days_next y m d :
  valid_date y m d →
  let '(y', m', d') := next_day y m d in civil_days y' m' d' = civil_days y m d + 1.
Proof.
  intros [Hm Hd]. unfold next_day. destruct (d <? days_in_month y m) eqn:E; booleans.
  { unfold civil_days, shifted_days. cbv zeta. lia. }
  assert (d = days_in_month y m) as -> by lia. clear Hd E.
  assert (m = 1 ∨ m = 2 ∨ m = 3 ∨ m = 4 ∨ m = 5 ∨ m = 6 ∨ m = 7 ∨ m = 8 ∨ m = 9 ∨ m = 10 ∨ m = 11
          ∨ m = 12) as [->|[->|[->|[->|[->|[->|[->|[->|[->|[->|[->| ->]]]]]]]]]]] by lia.
  - exact (shifted_month_step (y - 1) 10 11 31 eq_refl).
  - change (civil_days y 3 1 = civil_days y 2 (days_in_month y 2) + 1).
    change (shifted_days y 0 1 = shifted_days (y - 1) 11 (days_in_month y 2) + 1).
    pose proof (shifted_year_step (y - 1) (days_in_month y 2)) as Hs.
    replace (y - 1 + 1) with y in Hs by lia. rewrite Hs.
    change (days_in_month y 2) with (if leap y then 29 else 28). lia.
  - exact (shifted_month_step y 0 1 31 eq_refl).
  - exact (shifted_month_step y 1 2 30 eq_refl).
  - exact (shifted_month_step y 2 3 31 eq_refl).
  - exact (shifted_month_step y 3 4 30 eq_refl).
  - exact (shifted_month_step y 4 5 31 eq_refl).
  - exact (shifted_month_step y 5 6 31 eq_refl).
  - exact (shifted_month_step y 6 7 30 eq_refl).
  - exact (shifted_month_step y 7 8 31 eq_refl).
  - exact (shifted_month_step y 8 9 30 eq_refl).
  - change (shifted_days (y + 1 - 1) 10 1 = shifted_days y 9 31 + 1).
    rewrite Z.add_simpl_r. exact (shifted_month_step y 9 10 31 eq_refl).
Qed.

(** The day count is the proleptic Gregorian calendar's: it is zero at the Unix epoch and grows
    by one from each valid date to the next, for every year from 0 to ten quadrillion. *)
Theorem days_from_civil_is_gregorian :
  days_from_civil 1970 1 1 = 0 ∧
  ∀ y m d, 0 ≤ y < 10 ^ 16 → valid_date y m d →
    let '(y', m', d') := next_day y m d in
    days_from_civil y' m' d' = days_from_civil y m d + 1.
Proof.
  split; [reflexivity|]. intros y m d Hy Hv. pose proof (civil_days_next y m d Hv) as Hn.
  destruct Hv as [Hm Hd].
  assert (days_in_month y m ≤ 31) as Hmax.
  { unfold days_in_month. repeat case_match; lia. }
  unfold next_day in *. destruct (d <? days_in_month y m) eqn:E; [|destruct (m <? 12) eqn:E12];
    booleans; rewrite !civil_no_overflow; try lia; exact Hn.
Qed.

Lemma days_from_civil_is_gregorian_witness :
  days_from_civil 2024 2 29 = days_from_civil 2024 2 28 + 1.
Proof.
  apply (proj2 days_from_civil_is_gregorian 2024 2 28); [lia|].
  split; [lia|]. vm_compute. split; discriminate.
Defined.

(** ** Offsets *)

(** An accepted offset is a sign and at most 23:59, in whole minutes. *)
Theorem parse_offset_bounds raw offset :
  parse_offset raw = Some offset → -86340 ≤ offset ≤ 86340 ∧ offset mod 60 = 0.
Proof.
  assert (∀ s z, parse_i64 s = Some z → all_bytes is_digit s = true → 0 ≤ z) as Hnn.
  { intros s z Hz Hd. unfold parse_i64, parse_signed in Hz.
    assert (∀ t, all_bytes is_digit t = true →
      match parse_digits t with Some z => bounded i64_min i64_max z | None => None end = Some z →
      0 ≤ z) as Hplain.
    { intros t _. unfold parse_digits. destruct t; [done|].
      destruct (digits_value 0 _) as [v|] eqn:E; [|done]. rewrite bounded_Some. intros [-> _].
      by apply digits_value_nonneg in E. }
    destruct s as [|[[] [] [] [] [] [] [] []] s]; try (by apply (Hplain _ Hd)); cbn in Hd; done. }
  assert (∀ a b s, all_bytes is_digit s = true → all_bytes is_digit (String.substring a b s) = true)
    as Hsub.
  { intros a b s. revert a b. induction s as [|c s IH]; intros a b; [by destruct a, b|].
    intros Hs. cbn in Hs. booleans. destruct a; [destruct b|]; cbn; [done| |by apply IH].
    rewrite H. by apply IH. }
  destruct raw as [|a rest]; [done|]. unfold parse_offset.
  set (digits := filter_bytes _ rest).
  destruct (negb (String.length digits =? 4)%nat || negb (all_bytes is_digit digits)) eqn:Hshape.
  { repeat case_match; done. }
  booleans. intros Hp.
  assert (∃ sign h m, (sign = 1 ∨ sign = -1) ∧ 0 ≤ h ≤ 23 ∧ 0 ≤ m ≤ 59 ∧
            offset = sign * (h * 3600 + m * 60)) as (sign & h & m & Hsign & Hh & Hm & ->).
  { destruct (parse_i64 (String.substring 0 2 digits)) as [h|] eqn:Eh;
      [|by repeat case_match].
    destruct (parse_i64 (String.substring 2 2 digits)) as [m|] eqn:Em;
      [|by repeat case_match].
    cbn in Hp. apply Hnn in Eh; [|by apply Hsub]. apply Hnn in Em; [|by apply Hsub].
    destruct ((23 <? h) || (59 <? m)) eqn:Eb; [by repeat case_match|]. booleans.
    repeat case_match; simplify_eq; eexists _, h, m; (split_and!; [|lia..|done]); lia. }
  split; [destruct Hsign as [-> | ->]; lia|].
  replace (sign * (h * 3600 + m * 60)) with ((sign * (h * 60 + m)) * 60) by lia.
  apply Z.mod_mul. lia.
Qed.

Lemma parse_offset_bounds_witness : -86340 ≤ -25200 ≤ 86340 ∧ -25200 mod 60 = 0.
Proof. apply (parse_offset_bounds "-07:00"). vm_compute. reflexivity. Defined.

(** ** Label lists *)

Definition no_byte (c : ascii) (s : string) : Prop :=
  all_bytes (λ a, negb (Ascii.eqb a c)) s = true.

(** A label Docker's joined form can represent. *)
Definition joinable_label (label : string * string) : Prop :=
  let '(key, value) := label in
  key ≠ "" ∧ no_byte "," key ∧ no_byte "=" key ∧ no_byte "," value ∧ trim key = key ∧
  trim (key +:+ String "=" value) = key +:+ String "=" value.

Definition joined_label (label : string * string) : string :=
  label.1 +:+ String "=" label.2.

Lemma no_byte_joined label : joinable_label label → no_byte "," (joined_label label).
Proof.
  destruct label as [k v]. intros (_ & Hk & _ & Hv & _ & _). unfold no_byte, joined_label in *.
  rewrite all_bytes_app. cbn [fst snd all_bytes]. by rewrite Hk, Hv.
Qed.

Lemma parse_joined_label m label :
  joinable_label label → parse_label_entry m (joined_label label) = <[label.1 := label.2]> m.
Proof.
  destruct label as [k v]. intros (Hne & _ & Heq & _ & Hk & Hkv). unfold parse_label_entry, joined_label.
  cbn [fst snd]. rewrite Hkv. destruct (String.eqb_spec (k +:+ String "=" v) "") as [E|_].
  { by destruct k. }
  by rewrite split_once_app, Hk.
Qed.

(** Docker's joined label list parses back to the labels it was made from, a repeated key
    taking its last value, as long as no key or value holds a comma. *)
Theorem label_list_roundtrip labels :
  Forall joinable_label labels →
  parse_label_list (str_join "," (joined_label <$> labels)) = list_to_map (reverse labels).
Proof.
  intros Hall. unfold parse_label_list.
  assert (foldl parse_label_entry ∅ (joined_label <$> labels) = list_to_map (reverse labels)) as Hf.
  { induction labels as [|label labels IH] using rev_ind; [done|].
    apply Forall_app in Hall as [Hl Hx]. apply Forall_cons in Hx as [Hx _].
    rewrite fmap_app, foldl_app, IH, reverse_snoc by done. cbn [foldl fmap list_fmap].
    rewrite parse_joined_label by done. by destruct label. }
  destruct labels as [|label labels]; [done|]. rewrite split_join; [done|done|].
  apply Forall_fmap. eapply Forall_impl; [exact Hall|]. apply no_byte_joined.
Qed.

Lemma label_list_roundtrip_witness :
  parse_label_list (str_join "," (joined_label <$> [("a", "1"); ("b", "x=y"); ("a", "2")]))
  = list_to_map (reverse [("a", "1"); ("b", "x=y"); ("a", "2")]).
Proof.
  apply label_list_roundtrip.
  repeat constructor; unfold no_byte; vm_compute; try done.
Defined.

(** ** Evidence *)

Lemma has_bosn_label_registry v : has_bosn_label {[ LABEL_REGISTRY := v ]} = true.
Proof.
  unfold has_bosn_label. apply existsb_exists. exists LABEL_REGISTRY. split; [|by vm_compute].
  apply list_elem_of_In, elem_of_btree_keys. by rewrite lookup_singleton_eq.
Qed.

Lemma parse_count_in_use n :
  (0 <? default 1 (parse_count n)) = false → parse_count n = Some 0.
Proof.
  unfold parse_count. destruct (String.eqb (trim n) ""); [done|].
  destruct (parse_u64 (trim n)) as [z|] eqn:E; [|done]. apply parse_unsigned_bounds in E.
  cbn. intros Hz. booleans. f_equal. lia.
Qed.

Lemma unlabeled_no_bosn_label labels reg :
  classify_ownership labels reg = Unlabeled → has_bosn_label labels = false.
Proof.
  unfold classify_ownership. destruct (has_bosn_label labels); [|done]. cbn.
  repeat case_match; done.
Qed.

Lemma image_class_has_evidence input i reg cfg c :
  let a := observe_image input i in
  cl_class (classify_artifact a reg cfg) = Some c →
  parse_count (di_containers i) = Some 0 ∧ di_id i ∉ eo_bosn_labeled_image_ids input ∧
  (c = DanglingImage ↔ di_id i ∈ eo_dangling_image_ids input).
Proof.
  cbv zeta. intros Hc.
  pose proof (classify_class_inv _ reg cfg c Hc) as (Huse & (age & Hage & _) & Hown).
  apply parse_count_in_use in Huse.
  cbn [oa_labels oa_kind oa_signals dangling observe_image] in Hown.
  case_bool_decide as Hl.
  { exfalso. unfold classify_ownership in Hown. rewrite has_bosn_label_registry in Hown.
    vm_compute in Hown. by destruct Hown as [|[? _]]. }
  split_and!; [done..|]. unfold classify_artifact, classify in Hc.
  cbn [oa_labels oa_kind oa_signals in_use dangling observe_image] in Hc.
  rewrite (bool_decide_false _ Hl), Huse, Hage in Hc.
  change (classify_ownership ∅ reg) with Unlabeled in Hc. cbn in Hc.
  case_bool_decide; cbn in Hc; naive_solver.
Qed.

Lemma container_class_has_evidence input k reg cfg c :
  cl_class (classify_artifact (observe_container input k) reg cfg) = Some c →
  c = StoppedContainer ∧ (dc_state k = "exited" ∨ dc_state k = "created") ∧
  has_bosn_label (parse_label_list (dc_labels k)) = false.
Proof.
  intros Hc. pose proof (classify_class_inv _ reg cfg c Hc) as (Huse & (age & Hage & _) & Hown).
  cbn in *. destruct Hown as [Hown|(_ & [=] & _)]. split_and!.
  - unfold classify_artifact, classify in Hc. cbn in Hc. rewrite Hown, Huse, Hage in Hc.
    cbn in Hc. congruence.
  - destruct (String.eqb_spec (dc_state k) "exited"); [by left|].
    destruct (String.eqb_spec (dc_state k) "created"); [by right|done].
  - by eapply unlabeled_no_bosn_label.
Qed.

Lemma volume_class_has_evidence input v reg cfg c :
  let a := observe_volume input v in
  cl_class (classify_artifact a reg cfg) = Some c →
  parse_count (dv_links v) = Some 0 ∧ has_bosn_label (oa_labels a) = false ∧
  is_Some (inspected_by_name (eo_inspected_volumes input) !! dv_name v).
Proof.
  cbv zeta. intros Hc.
  pose proof (classify_class_inv _ reg cfg c Hc) as (Huse & (age & Hage & _) & Hown).
  apply parse_count_in_use in Huse.
  cbn [oa_kind observe_volume] in Hown. destruct Hown as [Hown|(_ & [=] & _)].
  split_and!; [done|by eapply unlabeled_no_bosn_label|].
  cbn [oa_age_seconds observe_volume] in Hage.
  destruct (inspected_by_name (eo_inspected_volumes input) !! dv_name v); [by eexists|done].
Qed.

Lemma build_cache_class_has_evidence input b reg cfg c :
  cl_class (classify_artifact (observe_build_cache input b) reg cfg) = Some c →
  c = BuildCache ∧ eq_ignore_ascii_case (db_in_use b) "true" = false.
Proof.
  intros Hc. pose proof (classify_class_inv _ reg cfg c Hc) as (Huse & (age & Hage & _) & Hown).
  cbn in *. destruct Hown as [Hown|(_ & [=] & _)]. split; [|done].
  unfold classify_artifact, classify in Hc. cbn in Hc. rewrite Hown, Huse, Hage in Hc. cbn in Hc.
  congruence.
Qed.

(** Every age [observe] reports is the observation time minus a timestamp that parsed. *)
Lemma observed_age input a age :
  a ∈ observe input → oa_age_seconds a = Some age →
  ∃ at_, Some age = Some (f64_sub (eo_now input) at_).
Proof.
  assert (∀ o : option f64, f64_sub (eo_now input) <$> o = Some age →
            ∃ at_, Some age = Some (f64_sub (eo_now input) at_)) as Hat.
  { intros [at_|]; [|done]. cbn. intros [= <-]. by exists at_. }
  unfold observe. rewrite !elem_of_app, !list_elem_of_fmap.
  intros [(i & -> & _)|[(k & -> & _)|[(v & -> & _)|(b & -> & _)]]]; [apply Hat|apply Hat| |apply Hat].
  cbn [oa_age_seconds observe_volume].
  destruct (inspected_by_name (eo_inspected_volumes input) !! dv_name v); [apply Hat|done].
Qed.

(** Whatever a row lacks protects its artifact. Anything [observe] yields that is then placed in
    a class rests on positive evidence in its Docker row: a reference count that parsed to
    zero (or a stopped state, or a cache entry not in use), a timestamp that parsed, no Bosn
    label, and for the dangling class Docker's own dangling filter. An image the engine
    reported as labelled is never offered. *)
Theorem observe_class_has_evidence input a reg cfg c :
  a ∈ observe input → cl_class (classify_artifact a reg cfg) = Some c →
  (∃ at_, oa_age_seconds a = Some (f64_sub (eo_now input) at_)) ∧
  ((∃ i, i ∈ df_images (eo_report input) ∧ oa_id a = di_id i ∧
      parse_count (di_containers i) = Some 0 ∧ di_id i ∉ eo_bosn_labeled_image_ids input ∧
      (c = DanglingImage ↔ di_id i ∈ eo_dangling_image_ids input)) ∨
   (∃ k, k ∈ df_containers (eo_report input) ∧ oa_id a = dc_id k ∧ c = StoppedContainer ∧
      (dc_state k = "exited" ∨ dc_state k = "created") ∧
      has_bosn_label (parse_label_list (dc_labels k)) = false) ∨
   (∃ v, v ∈ df_volumes (eo_report input) ∧ oa_id a = dv_name v ∧
      parse_count (dv_links v) = Some 0 ∧ has_bosn_label (oa_labels a) = false ∧
      is_Some (inspected_by_name (eo_inspected_volumes input) !! dv_name v)) ∨
   (∃ b, b ∈ df_build_cache (eo_report input) ∧ oa_id a = db_id b ∧ c = BuildCache ∧
      eq_ignore_ascii_case (db_in_use b) "true" = false)).
Proof.
  intros Hin Hc. pose proof (classify_class_inv a reg cfg c Hc) as (_ & (age & Hage & _) & _).
  split; [rewrite Hage; by apply (observed_age input a)|].
  unfold observe in Hin. rewrite !elem_of_app, !list_elem_of_fmap in Hin.
  destruct Hin as [(i & -> & Hi)|[(k & -> & Hk)|[(v & -> & Hv)|(b & -> & Hb)]]].
  - apply image_class_has_evidence in Hc. left. by exists i.
  - apply container_class_has_evidence in Hc. right; left. by exists k.
  - apply volume_class_has_evidence in Hc. right; right; left. by exists v.
  - apply build_cache_class_has_evidence in Hc. right; right; right. by exists b.
Qed.

Definition sample_observation : EngineObservation :=
  {| eo_report :=
       {| df_images := [ {| di_id := "sha256:1"; di_repository := "<none>"; di_tag := "<none>";
                            di_digest := ""; di_created_at := "1970-01-01 00:00:00 +0000 UTC";
                            di_size := "12MB"; di_containers := "0" |} ];
          df_containers := []; df_volumes := []; df_build_cache := [] |};
     eo_dangling_image_ids := ["sha256:1"];
     eo_bosn_labeled_image_ids := [];
     eo_inspected_volumes := [];
     eo_now := f64_of_Z 1000000 |}.

Lemma observe_class_has_evidence_witness :
  ∃ a, a ∈ observe sample_observation ∧
    ∃ at_, oa_age_seconds a = Some (f64_sub (eo_now sample_observation) at_).
Proof.
  exists (observe_image sample_observation (default (Build_DfImage "" "" "" "" "" "" "")
            (head (df_images (eo_report sample_observation))))).
  split; [left|].
  apply (observe_class_has_evidence sample_observation _ None (mkCensusConfig (f64_of_Z 604800))
           DanglingImage); [left|]. vm_compute. reflexivity.
Defined.

(** A year beyond the no-overflow bound wraps to a day count before the epoch. *)
Lemma huge_year_wraps : days_from_civil (3 * 10 ^ 16) 1 1 < 0.
Proof. vm_compute. reflexivity. Qed.
