(* ===== verification/Retention.v ===== *)
(** * Managed retention: which of Bosn's own objects one pass reclaims

    Models [crates/bosn-core/src/retention.rs] with [retention/eager.rs] and
    [retention/footprint.rs]: the policy and its pressured forms, the per-object
    verdict, the plan with its eager and byte-budget promotions, the removal
    order, the pass budget and the owned footprint. Durations are nanoseconds and
    ages binary64 seconds, as in the code. *)

From Stdlib Require Import SpecFloat.
From S2P Require Export Unmanaged.

Local Open Scope string_scope.
Local Open Scope list_scope.

Definition DEFAULT_CONTAINER_TTL : Z := duration_from_secs (6 * 3600).
Definition DEFAULT_VOLUME_TTL : Z := duration_from_secs (14 * 86400).
Definition DEFAULT_IMAGE_TTL : Z := duration_from_secs (30 * 86400).
Definition DEFAULT_IDLE_VOLUME_BUDGET : Z := 64 * 1024 * 1024 * 1024.
Definition DEFAULT_IDLE_VOLUME_FLOOR : Z := duration_from_secs 3600.
Definition PRESSURE_FREE_PERCENT : Z := 15.
Definition PRESSURE_FREE_BYTES : Z := 100 * 1024 * 1024 * 1024.
Definition PRESSURE_CONTAINER_TTL : Z := duration_from_secs 3600.
Definition MAX_MANAGED_REMOVALS : nat := 1024.

(** ** Disk pressure and the policy *)

Record DiskSpace := mkDiskSpace { free_bytes : Z; total_bytes : Z }.

Definition disk_under_pressure (d : DiskSpace) : bool :=
  if (total_bytes d =? 0)%Z then false
  else
    let low_fraction := (free_bytes d * 100 <? total_bytes d * PRESSURE_FREE_PERCENT)%Z in
    low_fraction || (free_bytes d <? PRESSURE_FREE_BYTES)%Z.

Definition free_percent (d : DiskSpace) : f64 :=
  if (total_bytes d =? 0)%Z then f64_zero
  else f64_div (f64_mul (f64_of_Z (free_bytes d)) (f64_of_Z 100)) (f64_of_Z (total_bytes d)).

Definition free_gib (d : DiskSpace) : f64 :=
  f64_div (f64_of_Z (free_bytes d))
    (f64_mul (f64_mul (f64_of_Z 1024) (f64_of_Z 1024)) (f64_of_Z 1024)).

Record RetentionPolicy := mkPolicy {
  container_ttl : Z;
  volume_ttl : Z;
  image_ttl : Z;
  max_bytes : option Z;
  idle_volume_budget : option Z;
  idle_volume_floor : Z
}.

Definition RetentionPolicy_default : RetentionPolicy :=
  mkPolicy DEFAULT_CONTAINER_TTL DEFAULT_VOLUME_TTL DEFAULT_IMAGE_TTL None
    (Some DEFAULT_IDLE_VOLUME_BUDGET) DEFAULT_IDLE_VOLUME_FLOOR.

Definition ttl_for (p : RetentionPolicy) (kind : ResourceKind) : option Z :=
  match kind with
  | Container => Some (container_ttl p)
  | Volume => Some (volume_ttl p)
  | Image => Some (image_ttl p)
  | Builder | Network => None
  end.

Definition under_disk_pressure (p : RetentionPolicy) : RetentionPolicy :=
  mkPolicy (Z.min (container_ttl p) PRESSURE_CONTAINER_TTL) (volume_ttl p) (image_ttl p)
    (max_bytes p) (Some 0%Z) (idle_volume_floor p).

Definition for_disk (p : RetentionPolicy) (disk : option DiskSpace) : RetentionPolicy :=
  if is_some_and disk disk_under_pressure then under_disk_pressure p else p.

Definition recheck_gates (p : RetentionPolicy) : RetentionPolicy :=
  mkPolicy (container_ttl p) (Z.min (volume_ttl p) (idle_volume_floor p)) (image_ttl p)
    (max_bytes p) (idle_volume_budget p) (idle_volume_floor p).

(** ** Verdicts *)

Inductive HoldReason :=
| HoldInUse | HoldPinned | HoldWithinTtl | HoldAgeUnknown | HoldForeignRegistry
| HoldIncompleteLabels | HoldNotBosnOwned | HoldUnsupportedKind.
#[global] Instance HoldReason_eq_dec : EqDecision HoldReason.
Proof. solve_decision. Defined.

Definition HoldReason_as_str (r : HoldReason) : string :=
  match r with
  | HoldInUse => "in-use"
  | HoldPinned => "pinned"
  | HoldWithinTtl => "within-ttl"
  | HoldAgeUnknown => "age-unknown"
  | HoldForeignRegistry => "foreign-registry"
  | HoldIncompleteLabels => "incomplete-labels"
  | HoldNotBosnOwned => "not-bosn-owned"
  | HoldUnsupportedKind => "unsupported-kind"
  end.
Definition HoldReason_ALL : list HoldReason :=
  [HoldInUse; HoldPinned; HoldWithinTtl; HoldAgeUnknown; HoldForeignRegistry;
   HoldIncompleteLabels; HoldNotBosnOwned; HoldUnsupportedKind].
Definition HoldReason_parse (value : string) : option HoldReason :=
  List.find (λ r, HoldReason_as_str r =? value) HoldReason_ALL.

Inductive EagerReason := WorkspaceGone | FamilyCap.
#[global] Instance EagerReason_eq_dec : EqDecision EagerReason.
Proof. solve_decision. Defined.
Definition EagerReason_as_str (r : EagerReason) : string :=
  match r with WorkspaceGone => "workspace-gone" | FamilyCap => "family-cap" end.
Definition EagerReason_ALL : list EagerReason := [WorkspaceGone; FamilyCap].
Definition EagerReason_parse (value : string) : option EagerReason :=
  List.find (λ r, EagerReason_as_str r =? value) EagerReason_ALL.

Record RetentionVerdict := mkRVerdict {
  rv_id : string;
  rv_kind : ResourceKind;
  rv_hold : option HoldReason;
  rv_age_seconds : option f64;
  rv_bytes : option Z;
  rv_eager : option EagerReason
}.

Definition is_reclaimable (v : RetentionVerdict) : bool := bool_decide (rv_hold v = None).

Definition is_pinned (labels : gmap string string) : bool :=
  bool_decide ((labels !! LABEL_RETENTION) ≫= Retention_parse = Some Pinned).

Definition classify_managed (a : ObservedArtifact) (our_registry : option string)
    (policy : RetentionPolicy) : RetentionVerdict :=
  let verdict := λ hold,
    mkRVerdict (oa_id a) (oa_kind a) hold (oa_age_seconds a) (oa_bytes a) None in
  if negb (has_bosn_label (oa_labels a)) then verdict (Some HoldNotBosnOwned)
  else
    match classify_ownership (oa_labels a) our_registry with
    | IncompleteLabels => verdict (Some HoldIncompleteLabels)
    | ForeignRegistry => verdict (Some HoldForeignRegistry)
    | Ours | Unlabeled =>
        match ttl_for policy (oa_kind a) with
        | None => verdict (Some HoldUnsupportedKind)
        | Some ttl =>
            if in_use (oa_signals a) then verdict (Some HoldInUse)
            else if is_pinned (oa_labels a) then verdict (Some HoldPinned)
            else match oa_age_seconds a with
            | None => verdict (Some HoldAgeUnknown)
            | Some age =>
                let gate := as_secs_f64 ttl in
                if f64_lt age gate then verdict (Some HoldWithinTtl) else verdict None
            end
        end
    end.

(** ** The plan *)

Record RetentionPlan := mkRPlan {
  rp_candidates : list RetentionVerdict;
  rp_held : list RetentionVerdict;
  rp_bytes : Z;
  rp_deferred : nat
}.

Record EagerFacts := mkFacts {
  gone_workspaces : gset string;
  families : gmap string string
}.
Definition EagerFacts_default : EagerFacts := mkFacts ∅ ∅.

(** The closure [idle] of both promotions. *)
Definition idle (v : RetentionVerdict) : bool :=
  bool_decide (rv_kind v = Volume) && bool_decide (rv_hold v = Some HoldWithinTtl).

(** [verdict.age_seconds.is_some_and(|age| age >= floor)]. *)
Definition past_floor (floor : f64) (v : RetentionVerdict) : bool :=
  is_some_and (rv_age_seconds v) (λ age, f64_ge age floor).

Definition with_hold (v : RetentionVerdict) (hold : option HoldReason) : RetentionVerdict :=
  mkRVerdict (rv_id v) (rv_kind v) hold (rv_age_seconds v) (rv_bytes v) (rv_eager v).
Definition with_eager (v : RetentionVerdict) (eager : option EagerReason) : RetentionVerdict :=
  mkRVerdict (rv_id v) (rv_kind v) (rv_hold v) (rv_age_seconds v) (rv_bytes v) eager.

(** *** Eager promotion *)

Definition FAMILY_KEEP : nat := 3.

Record Key := mkKey { key_workspace : string; key_stack : string }.

Definition key (a : ObservedArtifact) : option Key :=
  if bool_decide (oa_kind a ≠ Volume) then None
  else
    scope_text ← oa_labels a !! LABEL_SCOPE;
    scope ← Scope_parse scope_text;
    if negb (bool_decide (scope = Stack) || bool_decide (scope = Spec)) then None
    else
      workspace ← oa_labels a !! LABEL_WORKSPACE;
      if is_empty workspace then None
      else stack ← oa_labels a !! LABEL_STACK; Some (mkKey workspace stack).

Definition eager_keys (artifacts : list ObservedArtifact) : gmap string Key :=
  collect_map (omap (λ a, k ← key a; Some (oa_id a, k)) artifacts).

Abbreviation newest_map := (gmap (string * string) (gmap string f64)).

(** One turn of the loop that records each workspace's most recent use. *)
Definition newest_step (keys : gmap string Key) (facts : EagerFacts)
    (newest : newest_map) (v : RetentionVerdict) : newest_map :=
  match keys !! rv_id v, rv_age_seconds v with
  | Some key, Some age =>
      match families facts !! key_workspace key with
      | None => newest
      | Some family =>
          entry_update newest (family, key_stack key) ∅ (λ workspaces,
            entry_update workspaces (key_workspace key) f64_MAX (λ slot, f64_min slot age))
      end
  | _, _ => newest
  end.
Definition newest_uses (keys : gmap string Key) (facts : EagerFacts)
    (held : list RetentionVerdict) : newest_map :=
  foldl (newest_step keys facts) ∅ (filterb idle held).

Definition ranked_cmp : string * f64 → string * f64 → comparison :=
  cmp_then (cmp_on snd total_cmp) (cmp_on fst String.compare).
Definition ranked (workspaces : gmap string f64) : list (string * f64) :=
  sort_by ranked_cmp (btree_iter String.compare workspaces).

Definition over_cap (newest : newest_map) : gset (string * string) :=
  list_to_set (entry ← map_to_list newest;
               ws ← drop FAMILY_KEEP (ranked entry.2);
               [(ws.1, entry.1.2)]).

Definition eager_reason (keys : gmap string Key) (facts : EagerFacts)
    (cap : gset (string * string)) (floor : f64) (v : RetentionVerdict) : option EagerReason :=
  match keys !! rv_id v with
  | Some key =>
      if idle v && past_floor floor v then
        if bool_decide (key_workspace key ∈ gone_workspaces facts) then Some WorkspaceGone
        else if bool_decide ((key_workspace key, key_stack key) ∈ cap) then Some FamilyCap
        else None
      else None
  | None => None
  end.

(** The index loop over [plan.held]: what has been passed stays held, the element
    at the index is removed and pushed to [candidates] or the index advances. *)
Fixpoint promote_loop (reason : RetentionVerdict → option EagerReason)
    (passed rest candidates : list RetentionVerdict) :
    list RetentionVerdict * list RetentionVerdict :=
  match rest with
  | [] => (passed, candidates)
  | v :: rest' =>
      match reason v with
      | Some r =>
          promote_loop reason passed rest' (candidates ++ [with_eager (with_hold v None) (Some r)])
      | None => promote_loop reason (passed ++ [v]) rest' candidates
      end
  end.

Definition eager_promote (plan : RetentionPlan) (artifacts : list ObservedArtifact)
    (policy : RetentionPolicy) (facts : EagerFacts) : RetentionPlan :=
  let keys := eager_keys artifacts in
  let floor := as_secs_f64 (idle_volume_floor policy) in
  let cap := over_cap (newest_uses keys facts (rp_held plan)) in
  let '(held, candidates) :=
    promote_loop (eager_reason keys facts cap floor) [] (rp_held plan) (rp_candidates plan) in
  mkRPlan candidates held (rp_bytes plan) (rp_deferred plan).

(** *** Promotion over the idle-volume byte budget *)

Definition age_or_min (v : RetentionVerdict) : f64 := default f64_MIN (rv_age_seconds v).

(** Oldest first, then by identity. *)
Definition age_cmp : RetentionVerdict → RetentionVerdict → comparison :=
  cmp_then (cmp_rev (cmp_on age_or_min total_cmp)) (cmp_on rv_id String.compare).

Definition eligible_indices (floor : f64) (held : list RetentionVerdict) : list nat :=
  filterb (λ i, is_some_and (held !! i) (λ v,
    idle v && bool_decide (is_Some (rv_bytes v)) && past_floor floor v)) (seq 0 (length held)).

(** Compare two held verdicts by index. *)
Definition index_cmp (held : list RetentionVerdict) : nat → nat → comparison :=
  cmp_on (λ i, held !! i) (option_cmp age_cmp).

(** The selection loop: take indices while the idle total exceeds the budget. *)
Fixpoint select_over_budget (held : list RetentionVerdict) (budget total : Z)
    (eligible promoted : list nat) : list nat :=
  match eligible with
  | [] => promoted
  | i :: rest =>
      if (total <=? budget)%Z then promoted
      else
        let size := default 0%Z (held !! i ≫= rv_bytes) in
        select_over_budget held budget (total - size) rest (promoted ++ [i])
  end.

(** [plan.held.remove(index)] for each promoted index, highest first. *)
Fixpoint remove_indices (held : list RetentionVerdict) (indices : list nat)
    (moved : list RetentionVerdict) : list RetentionVerdict * list RetentionVerdict :=
  match indices with
  | [] => (held, moved)
  | i :: rest =>
      match held !! i with
      | Some v => remove_indices (delete i held) rest (moved ++ [with_hold v None])
      | None => remove_indices held rest moved
      end
  end.

Definition idle_total (held : list RetentionVerdict) : Z :=
  sumZ (omap rv_bytes (filterb idle held)).

Definition promote_over_idle_volume_budget (plan : RetentionPlan) (policy : RetentionPolicy) :
    RetentionPlan :=
  match idle_volume_budget policy with
  | None => plan
  | Some budget =>
      let floor := as_secs_f64 (idle_volume_floor policy) in
      let total := idle_total (rp_held plan) in
      if (total <=? budget)%Z then plan
      else
        let eligible := sort_by (index_cmp (rp_held plan))
                          (eligible_indices floor (rp_held plan)) in
        let promoted := select_over_budget (rp_held plan) budget total eligible [] in
        let descending := sort_by (cmp_rev (cmp_on Z.of_nat Z.compare)) promoted in
        let '(held, moved) := remove_indices (rp_held plan) descending [] in
        mkRPlan (rp_candidates plan ++ reverse moved) held (rp_bytes plan) (rp_deferred plan)
  end.

(** *** Order and pass budget *)

Definition kind_rank (kind : ResourceKind) : Z :=
  match kind with Container => 0 | Volume => 1 | Image => 2 | Builder => 3 | Network => 4 end.

Definition removal_cmp : RetentionVerdict → RetentionVerdict → comparison :=
  cmp_then (cmp_on (λ v, kind_rank (rv_kind v)) Z.compare) age_cmp.

(** One turn of the budget loop over [(kept, bytes, deferred)]. *)
Definition budget_step (ceiling : option Z)
    (st : list RetentionVerdict * Z * nat) (v : RetentionVerdict) :
    list RetentionVerdict * Z * nat :=
  let '(kept, bytes, deferred) := st in
  if bool_decide (MAX_MANAGED_REMOVALS ≤ length kept)%nat then (kept, bytes, S deferred)
  else match ceiling with
  | Some ceiling =>
      match rv_bytes v with
      | None => (kept, bytes, S deferred)
      | Some size =>
          if (ceiling <? i128_saturating_add bytes size)%Z then (kept, bytes, S deferred)
          else (kept ++ [v], i128_saturating_add bytes size, deferred)
      end
  | None => (kept ++ [v], i128_saturating_add bytes (default 0%Z (rv_bytes v)), deferred)
  end.

Definition apply_budget (plan : RetentionPlan) (policy : RetentionPolicy) : RetentionPlan :=
  let '(kept, bytes, deferred) :=
    foldl (budget_step (max_bytes policy)) ([], 0%Z, 0) (rp_candidates plan) in
  mkRPlan kept (rp_held plan) bytes deferred.

Definition sort_candidates (plan : RetentionPlan) : RetentionPlan :=
  mkRPlan (sort_by removal_cmp (rp_candidates plan)) (rp_held plan) (rp_bytes plan) (rp_deferred plan).

Definition initial_plan (artifacts : list ObservedArtifact) (our_registry : option string)
    (policy : RetentionPolicy) : RetentionPlan :=
  let classified := (λ a, classify_managed a our_registry policy) <$> artifacts in
  mkRPlan (filterb is_reclaimable classified) (filterb (λ v, negb (is_reclaimable v)) classified) 0 0.

Definition plan_managed_with (artifacts : list ObservedArtifact) (our_registry : option string)
    (policy : RetentionPolicy) (facts : EagerFacts) : RetentionPlan :=
  let plan := initial_plan artifacts our_registry policy in
  let plan := eager_promote plan artifacts policy facts in
  let plan := promote_over_idle_volume_budget plan policy in
  let plan := sort_candidates plan in
  apply_budget plan policy.

Definition plan_managed (artifacts : list ObservedArtifact) (our_registry : option string)
    (policy : RetentionPolicy) : RetentionPlan :=
  plan_managed_with artifacts our_registry policy EagerFacts_default.

(** *** Report counters *)

#[global] Program Instance HoldReason_countable : Countable HoldReason :=
  inj_countable HoldReason_as_str HoldReason_parse _.
Next Obligation. by intros []. Qed.
#[global] Program Instance EagerReason_countable : Countable EagerReason :=
  inj_countable EagerReason_as_str EagerReason_parse _.
Next Obligation. by intros []. Qed.

Definition held_counts (plan : RetentionPlan) : gmap HoldReason Z :=
  foldl (λ counts v,
    match rv_hold v with
    | Some reason => entry_update counts reason 0%Z (λ n, n + 1)%Z
    | None => counts
    end) ∅ (rp_held plan).

Definition eager_counts (plan : RetentionPlan) : gmap EagerReason Z :=
  foldl (λ counts reason, entry_update counts reason 0%Z (λ n, n + 1)%Z) ∅
    (omap rv_eager (rp_candidates plan)).

(** ** The owned footprint *)

Definition DEFAULT_OWNED_CEILING : Z := 256 * 1024 * 1024 * 1024.

Record OwnedFootprint := mkFootprint {
  fp_containers : Z;
  fp_volumes : Z;
  fp_images : Z;
  fp_unmeasured : Z
}.

Definition footprint_step (f : OwnedFootprint) (a : ObservedArtifact) : OwnedFootprint :=
  match oa_bytes a with
  | None => mkFootprint (fp_containers f) (fp_volumes f) (fp_images f) (fp_unmeasured f + 1)
  | Some bytes =>
      let add := λ slot, i128_saturating_add slot (Z.max bytes 0) in
      match oa_kind a with
      | Container =>
          mkFootprint (add (fp_containers f)) (fp_volumes f) (fp_images f) (fp_unmeasured f)
      | Volume =>
          mkFootprint (fp_containers f) (add (fp_volumes f)) (fp_images f) (fp_unmeasured f)
      | Image =>
          mkFootprint (fp_containers f) (fp_volumes f) (add (fp_images f)) (fp_unmeasured f)
      | Builder | Network => f
      end
  end.
Definition footprint_of (artifacts : list ObservedArtifact) : OwnedFootprint :=
  foldl footprint_step (mkFootprint 0 0 0 0) artifacts.

Definition footprint_total (f : OwnedFootprint) : Z :=
  i128_saturating_add (i128_saturating_add (fp_containers f) (fp_volumes f)) (fp_images f).
Definition footprint_over (f : OwnedFootprint) (ceiling : Z) : bool :=
  (ceiling <? footprint_total f)%Z.
Definition for_footprint (p : RetentionPolicy) (f : OwnedFootprint) (ceiling : Z) : RetentionPolicy :=
  if footprint_over f ceiling then under_disk_pressure p else p.

(** ** The verdict *)

#[global] Instance HoldReason_text : TextEnum HoldReason_as_str HoldReason_parse.
Proof.
  split; [by intros []| |by intros []].
  intros v r Hp. unfold HoldReason_parse in Hp. apply List.find_some in Hp as [_ Hp].
  by apply String.eqb_eq.
Qed.

Lemma ours_has_label labels reg :
  classify_ownership labels reg = Ours → has_bosn_label labels = true.
Proof. unfold classify_ownership. by destruct (has_bosn_label labels). Qed.

(** An object is reclaimable exactly when the complete labels name this registry, its
    kind has a gate, nothing uses it, it is not pinned, and its measured age is not
    below the gate. *)
Lemma classify_managed_reclaimable_iff a reg policy :
  rv_hold (classify_managed a reg policy) = None ↔
  classify_ownership (oa_labels a) reg = Ours ∧ in_use (oa_signals a) = false ∧
  is_pinned (oa_labels a) = false ∧
  ∃ ttl age, ttl_for policy (oa_kind a) = Some ttl ∧ oa_age_seconds a = Some age ∧
    f64_lt age (as_secs_f64 ttl) = false.
Proof.
  unfold classify_managed. cbv zeta. split.
  - destruct (has_bosn_label (oa_labels a)) eqn:Hl; simpl; [|done].
    destruct (classify_ownership (oa_labels a) reg) eqn:Ho; try done.
    + repeat (case_match; simpl; try done). intros _. naive_solver.
    + unfold classify_ownership in Ho. rewrite Hl in Ho. simpl in Ho. by repeat case_match.
  - intros (Ho & Hu & Hp & ttl & age & -> & -> & Ha).
    rewrite (ours_has_label _ _ Ho), Ho, Hu, Hp, Ha. done.
Qed.

(** What a verdict held only by its age gate has already established. *)
Lemma classify_within_ttl a reg policy :
  rv_hold (classify_managed a reg policy) = Some HoldWithinTtl →
  classify_ownership (oa_labels a) reg = Ours ∧ in_use (oa_signals a) = false ∧
  is_pinned (oa_labels a) = false ∧ is_Some (ttl_for policy (oa_kind a)) ∧
  is_Some (oa_age_seconds a).
Proof.
  unfold classify_managed. cbv zeta.
  destruct (has_bosn_label (oa_labels a)) eqn:Hl; simpl; [|done].
  destruct (classify_ownership (oa_labels a) reg) eqn:Ho; try done.
  - repeat (case_match; simpl; try done); naive_solver.
  - unfold classify_ownership in Ho. rewrite Hl in Ho. simpl in Ho. by repeat case_match.
Qed.

Lemma classify_managed_fields a reg policy :
  rv_id (classify_managed a reg policy) = oa_id a ∧
  rv_kind (classify_managed a reg policy) = oa_kind a ∧
  rv_age_seconds (classify_managed a reg policy) = oa_age_seconds a ∧
  rv_bytes (classify_managed a reg policy) = oa_bytes a.
Proof. unfold classify_managed. cbv zeta. by repeat case_match. Qed.

(** ** The promotion loops *)

Definition eager_move (reason : RetentionVerdict → option EagerReason) (v : RetentionVerdict) :
    option RetentionVerdict :=
  r ← reason v; Some (with_eager (with_hold v None) (Some r)).

Lemma promote_loop_spec reason passed rest candidates :
  promote_loop reason passed rest candidates =
  (passed ++ filterb (λ v, bool_decide (reason v = None)) rest,
   candidates ++ omap (eager_move reason) rest).
Proof.
  revert passed candidates. induction rest as [|v rest IH]; intros passed candidates; simpl.
  - by rewrite filterb_nil, !app_nil_r.
  - rewrite filterb_cons. unfold eager_move at 1. destruct (reason v) as [r|]; simpl; rewrite IH.
    + f_equal. by rewrite <-app_assoc.
    + f_equal. by rewrite <-app_assoc.
Qed.

Lemma select_over_budget_app held budget total eligible promoted :
  select_over_budget held budget total eligible promoted =
  promoted ++ select_over_budget held budget total eligible [].
Proof.
  revert total promoted. induction eligible as [|i rest IH]; intros total promoted; simpl.
  - by rewrite app_nil_r.
  - case_match; [by rewrite app_nil_r|]. rewrite IH, (IH _ [i]), <-app_assoc. done.
Qed.

Definition held_size (held : list RetentionVerdict) (i : nat) : Z :=
  default 0%Z (held !! i ≫= rv_bytes).

(** The selection is the shortest prefix of the eligible indices that brings the
    total within the budget, or all of them. *)
Lemma select_over_budget_spec held budget total eligible :
  ∃ k, select_over_budget held budget total eligible [] = take k eligible ∧
    (take k eligible = eligible ∨
     (total - sumZ (held_size held <$> take k eligible) ≤ budget)%Z).
Proof.
  revert total. induction eligible as [|i rest IH]; intros total; simpl.
  - by exists 0; split; [|left].
  - destruct (Z.leb_spec total budget) as [Hle|Hgt].
    + exists 0. simpl. split; [done|right; lia].
    + destruct (IH (total - held_size held i)%Z) as (k & Hk & Hb). unfold held_size in Hk.
      exists (S k). rewrite select_over_budget_app, Hk. split; [done|].
      destruct Hb as [Hb|Hb]; [left; simpl; by rewrite Hb|right].
      rewrite firstn_cons, fmap_cons. cbn [sumZ]. lia.
Qed.

Lemma remove_indices_spec idx held moved :
  StronglySorted gt idx → Forall (λ i, i < length held)%nat idx →
  ∃ vs, Forall2 (λ i v, held !! i = Some v) idx vs ∧
    (remove_indices held idx moved).2 = moved ++ ((λ v, with_hold v None) <$> vs) ∧
    held ≡ₚ vs ++ (remove_indices held idx moved).1.
Proof.
  revert held moved. induction idx as [|i idx IH]; intros held moved Hs Hr; simpl.
  - exists []. split_and!; [constructor|by rewrite app_nil_r|done].
  - apply StronglySorted_cons in Hs as [Hlt Hs]. apply Forall_cons in Hr as [Hi Hr].
    apply lookup_lt_is_Some_2 in Hi as [v Hv]. rewrite Hv.
    destruct (IH (delete i held) (moved ++ [with_hold v None]) Hs) as (vs & Hvs & Hm & Hp).
    { rewrite Forall_forall in Hlt, Hr |- *. intros j Hj. apply Hlt in Hj as Hji.
      assert (i < length held)%nat by (by eapply lookup_lt_Some).
      rewrite length_delete by done. lia. }
    exists (v :: vs). split_and!.
    + constructor; [done|]. rewrite Forall2_lookup in Hvs |- *. intros n.
      pose proof (Hvs n) as Hn. destruct (idx !! n) as [j|] eqn:Hj, (vs !! n) as [w|];
        inversion Hn as [? ? Hjw|]; subst; constructor.
      rewrite Forall_forall in Hlt. assert (i > j)%nat by (apply Hlt; by eapply list_elem_of_lookup_2).
      by rewrite list_lookup_delete_lt in Hjw by lia.
    + rewrite Hm, <-app_assoc. done.
    + rewrite (delete_Permutation held i v Hv) at 1. simpl. by rewrite Hp at 1.
Qed.

#[global] Instance age_cmp_total : TotalCmp age_cmp.
Proof. unfold age_cmp. apply _. Qed.
#[global] Instance index_cmp_total held : TotalCmp (index_cmp held).
Proof. unfold index_cmp. apply _. Qed.
#[global] Instance removal_cmp_total : TotalCmp removal_cmp.
Proof. unfold removal_cmp. apply _. Qed.

Lemma descending_sorted l :
  NoDup l → StronglySorted gt (sort_by (cmp_rev (cmp_on Z.of_nat Z.compare)) l).
Proof.
  intros Hnd. assert (Hnd' : NoDup (sort_by (cmp_rev (cmp_on Z.of_nat Z.compare)) l)).
  { by rewrite sort_by_perm. }
  assert (Hs := sort_by_sorted (cmp_rev (cmp_on Z.of_nat Z.compare)) l).
  induction Hs as [|x k Hk IH Hx]; [constructor|]. apply NoDup_cons in Hnd' as [Hin Hnd'].
  constructor; [by apply IH|]. rewrite Forall_forall in Hx |- *. intros y Hy.
  assert (x ≠ y) by (intros ->; done). apply Hx in Hy.
  unfold cmp_le, cmp_rev, cmp_on in Hy. rewrite Z.compare_le_iff in Hy. lia.
Qed.

(** An index the budget may take, and the verdict it names. *)
Definition budget_eligible (floor : f64) (v : RetentionVerdict) : bool :=
  idle v && bool_decide (is_Some (rv_bytes v)) && past_floor floor v.

Lemma elem_of_eligible_indices floor held i :
  i ∈ eligible_indices floor held ↔ ∃ v, held !! i = Some v ∧ budget_eligible floor v = true.
Proof.
  unfold eligible_indices. rewrite elem_of_filterb, is_some_and_true, elem_of_seq. split.
  - by intros [H _].
  - intros (v & Hv & He). split; [by exists v|]. apply lookup_lt_Some in Hv. lia.
Qed.

(** Which verdicts are left: the ones at the other indices. *)
Lemma remaining_indices (held vs held' : list RetentionVerdict) idx :
  NoDup idx → Forall2 (λ i v, held !! i = Some v) idx vs → held ≡ₚ vs ++ held' →
  ∀ w, w ∈ held' → ∃ j, j ∉ idx ∧ held !! j = Some w.
Proof.
  intros Hnd Hvs Hp w Hw.
  set (rest := filterb (λ j, negb (bool_decide (j ∈ idx))) (seq 0 (length held))).
  assert (seq 0 (length held) ≡ₚ idx ++ rest) as Hseq.
  { rewrite (filterb_split (λ j, bool_decide (j ∈ idx))). fold rest. f_equiv.
    apply NoDup_Permutation; [apply NoDup_filterb, NoDup_seq|done|]. intros j.
    rewrite elem_of_filterb, bool_decide_eq_true, elem_of_seq. split; [by intros []|].
    intros Hj. split; [done|]. apply list_elem_of_lookup in Hj as [n Hn].
    eapply Forall2_lookup_l in Hvs as (v & _ & Hv); [|exact Hn]. apply lookup_lt_Some in Hv. lia. }
  assert (omap (λ i, held !! i) idx = vs) as Hom.
  { clear -Hvs. induction Hvs as [|i v idx vs Hi _ IH]; simpl; [done|]. rewrite Hi. f_equal. exact IH. }
  assert (held' ≡ₚ omap (λ i, held !! i) rest) as Hrest.
  { apply (Permutation_app_inv_l vs). rewrite <-Hp, <-(omap_lookup_seq held) at 1.
    rewrite Hseq at 1. by rewrite omap_app, Hom. }
  rewrite Hrest, list_elem_of_omap in Hw. destruct Hw as (j & Hj & Hjw). exists j.
  split; [|done]. apply elem_of_filterb in Hj as [Hj _]. booleans. done.
Qed.

Lemma idle_total_app l k : idle_total (l ++ k) = (idle_total l + idle_total k)%Z.
Proof. unfold idle_total. by rewrite filterb_app, omap_app, sumZ_app. Qed.

#[global] Instance idle_total_perm : Proper ((≡ₚ) ==> (=)) idle_total.
Proof. intros l k HP. unfold idle_total. by rewrite HP. Qed.

Lemma idle_total_eligible floor (held vs : list RetentionVerdict) idx :
  Forall2 (λ i v, held !! i = Some v) idx vs →
  Forall (λ v, budget_eligible floor v = true) vs →
  idle_total vs = sumZ (held_size held <$> idx).
Proof.
  induction 1 as [|i v idx vs Hi _ IH]; intros He; [done|].
  apply Forall_cons in He as [Hv He]. specialize (IH He). rewrite fmap_cons. cbn [sumZ]. rewrite <-IH.
  change (v :: vs) with ([v] ++ vs). rewrite idle_total_app. f_equal.
  unfold budget_eligible in Hv.
  apply andb_prop in Hv as [[Hidle [b Hb]%bool_decide_eq_true_1]%andb_prop _].
  unfold idle_total, held_size. rewrite Hi, filterb_cons, Hidle, filterb_nil. simpl.
  rewrite Hb. simpl. lia.
Qed.

(** An eligible verdict that stays was past the cut of the sorted eligible ones. *)
Lemma remaining_eligible floor (held vs held' : list RetentionVerdict) idx k w :
  let eligible := sort_by (index_cmp held) (eligible_indices floor held) in
  idx ≡ₚ take k eligible → NoDup (take k eligible) →
  Forall2 (λ i v, held !! i = Some v) idx vs → held ≡ₚ vs ++ held' →
  w ∈ held' → budget_eligible floor w = true →
  ∃ j, j ∈ drop k eligible ∧ held !! j = Some w.
Proof.
  intros eligible Hidx Hnd Hvs Hp Hw He.
  destruct (remaining_indices held vs held' idx) with w as (j & Hj & Hjw); try done.
  { by rewrite Hidx. }
  exists j. split; [|done].
  assert (j ∈ eligible) as Hje.
  { unfold eligible. rewrite elem_of_sort_by, elem_of_eligible_indices. by exists w. }
  rewrite <-(take_drop k eligible), elem_of_app in Hje. rewrite Hidx in Hj. by destruct Hje.
Qed.

(** The whole promotion: some eligible verdicts move, chosen oldest first, the rest
    stay, and afterwards the idle total fits or nothing eligible is left. *)
Lemma budget_promotion plan policy budget :
  idle_volume_budget policy = Some budget →
  let floor := as_secs_f64 (idle_volume_floor policy) in
  let plan' := promote_over_idle_volume_budget plan policy in
  ∃ vs, rp_held plan ≡ₚ vs ++ rp_held plan' ∧
    rp_candidates plan' ≡ₚ rp_candidates plan ++ ((λ v, with_hold v None) <$> vs) ∧
    Forall (λ v, budget_eligible floor v = true) vs ∧
    (∀ v w, v ∈ vs → w ∈ rp_held plan' → budget_eligible floor w = true →
       cmp_le age_cmp v w) ∧
    ((idle_total (rp_held plan') ≤ budget)%Z ∨
     Forall (λ w, budget_eligible floor w = false) (rp_held plan')).
Proof.
  intros Hb. cbv zeta. unfold promote_over_idle_volume_budget. rewrite Hb.
  destruct (Z.leb_spec (idle_total (rp_held plan)) budget) as [Hle|Hgt].
  { exists []. rewrite app_nil_r. split_and!; [done..|constructor|set_solver|by left]. }
  set (floor := as_secs_f64 _). set (held := rp_held plan) in *.
  set (eligible := sort_by (index_cmp held) (eligible_indices floor held)).
  destruct (select_over_budget_spec held budget (idle_total held) eligible) as (k & -> & Hk).
  set (idx := sort_by _ (take k eligible)).
  assert (NoDup eligible) as Hnd.
  { unfold eligible. rewrite sort_by_perm. apply NoDup_filterb, NoDup_seq. }
  assert (NoDup (take k eligible)) as Hndk.
  { rewrite <-(take_drop k eligible) in Hnd. by apply NoDup_app in Hnd as []. }
  assert (idx ≡ₚ take k eligible) as Hidx by apply sort_by_perm.
  assert (∀ i, i ∈ eligible ↔ ∃ v, held !! i = Some v ∧ budget_eligible floor v = true) as Hel.
  { intros i. unfold eligible. by rewrite elem_of_sort_by, elem_of_eligible_indices. }
  assert (∀ i, i ∈ idx → i ∈ eligible) as Hsub.
  { intros i. rewrite Hidx. intros Hi. rewrite <-(take_drop k eligible). set_solver. }
  destruct (remove_indices_spec idx held []) as (vs & Hvs & Hmoved & Hperm).
  { by apply descending_sorted. }
  { apply Forall_forall. intros i Hi. apply Hsub, Hel in Hi as (v & Hv & _). by eapply lookup_lt_Some. }
  destruct (remove_indices held idx []) as [held' moved] eqn:Hrm.
  cbn [rp_held rp_candidates fst snd] in *. simpl in Hmoved. subst moved.
  assert (Forall (λ v, budget_eligible floor v = true) vs) as Hve.
  { apply Forall_forall. intros v Hv. apply list_elem_of_lookup in Hv as [n Hn].
    eapply Forall2_lookup_r in Hvs as (i & Hi & Hiv); [|exact Hn].
    apply list_elem_of_lookup_2, Hsub, Hel in Hi as (w & Hw & He). congruence. }
  assert (∀ w, w ∈ held' → budget_eligible floor w = true →
            ∃ j, j ∈ drop k eligible ∧ held !! j = Some w) as Hleft.
  { intros w. by apply (remaining_eligible floor held vs held' idx). }
  exists vs. split_and!; [done|by rewrite reverse_Permutation|done| |].
  - intros v w Hv Hw He. apply list_elem_of_lookup in Hv as [n Hn].
    destruct (Hleft w Hw He) as (j & Hjd & Hjw).
    eapply Forall2_lookup_r in Hvs as (i & Hi & Hiv); [|exact Hn].
    apply list_elem_of_lookup_2 in Hi. rewrite Hidx in Hi.
    assert (Hs := sort_by_sorted (index_cmp held) (eligible_indices floor held)).
    fold eligible in Hs. rewrite <-(take_drop k eligible) in Hs.
    eapply StronglySorted_app_1_elem_of in Hs; [|exact Hi|exact Hjd].
    unfold cmp_le, index_cmp, cmp_on in Hs. by rewrite Hiv, Hjw in Hs.
  - destruct Hk as [Hall|Hk]; [right|left].
    + apply Forall_forall. intros w Hw. apply not_true_is_false. intros He.
      destruct (Hleft w Hw He) as (j & Hj & _).
      assert (drop k eligible = []) as Hd; [|rewrite Hd in Hj; by apply elem_of_nil in Hj].
      rewrite <-(take_drop k eligible) in Hall at 2. apply (app_inv_head (take k eligible)).
      by rewrite app_nil_r.
    + rewrite <-Hidx, <-(idle_total_eligible floor held vs idx) in Hk by done.
      rewrite Hperm, idle_total_app in Hk. lia.
Qed.

(** ** The pass budget *)

Record budget_inv (ceiling : option Z) (l : list RetentionVerdict)
    (st : list RetentionVerdict * Z * nat) : Prop := {
  bi_kept : sublist st.1.1 l;
  bi_count : (length st.1.1 + st.2 = length l)%nat;
  bi_cap : (length st.1.1 ≤ MAX_MANAGED_REMOVALS)%nat;
  bi_bytes : ∀ c, ceiling = Some c → (0 ≤ c)%Z → (st.1.2 ≤ c)%Z;
  bi_measured : ∀ c, ceiling = Some c → Forall (λ v, is_Some (rv_bytes v)) st.1.1;
  bi_sum : Forall (λ v, 0 ≤ default 0 (rv_bytes v))%Z l →
    st.1.2 = Z.min i128_max (sumZ ((λ v, default 0%Z (rv_bytes v)) <$> st.1.1))
}.

Lemma clamp_nonneg_add a b s :
  (0 ≤ s → 0 ≤ b → a = Z.min i128_max s →
   i128_saturating_add a b = Z.min i128_max (s + b))%Z.
Proof.
  unfold i128_saturating_add, i128_clamp, i128_min, i128_max. lia.
Qed.

Lemma budget_step_inv ceiling l st v :
  budget_inv ceiling l st → budget_inv ceiling (l ++ [v]) (budget_step ceiling st v).
Proof.
  destruct st as [[kept bytes] deferred]. intros [H1 H2 H3 H4 H5 H6]. cbn [fst snd] in *.
  assert (budget_inv ceiling (l ++ [v]) (kept, bytes, S deferred)) as Hdefer.
  { split; cbn [fst snd]; try done.
    - by apply sublist_inserts_r.
    - rewrite length_app. simpl. lia.
    - intros [Hl _]%Forall_app. auto. }
  assert (∀ b', i128_saturating_add bytes (default 0%Z (rv_bytes v)) = b' →
    (length kept < MAX_MANAGED_REMOVALS)%nat →
    (∀ c, ceiling = Some c → is_Some (rv_bytes v) ∧ (b' ≤ c)%Z) →
    budget_inv ceiling (l ++ [v]) (kept ++ [v], b', deferred)) as Hkeep.
  { intros b' <- Hlt Hc. split; cbn [fst snd].
    - by apply sublist_app.
    - rewrite !length_app. simpl. lia.
    - rewrite length_app. simpl. lia.
    - intros c Hcc _. by apply Hc.
    - intros c Hcc. apply Forall_app. split; [by eapply H5|]. constructor; [by eapply Hc|constructor].
    - intros [Hl Hv]%Forall_app. apply Forall_cons in Hv as [Hv _].
      rewrite fmap_app, sumZ_app. cbn [fmap list_fmap sumZ]. rewrite Z.add_0_r.
      apply clamp_nonneg_add; [|done|by auto].
      apply sumZ_nonneg, Forall_fmap. by eapply sublist_Forall. }
  unfold budget_step. case_bool_decide as Hcap; [done|].
  destruct ceiling as [c|].
  - destruct (rv_bytes v) as [size|]; [|done].
    destruct (Z.ltb_spec c (i128_saturating_add bytes size)); [done|].
    apply Hkeep; [done|lia|]. intros ? [= <-]. split; [by eexists|lia].
  - apply Hkeep; [done|lia|done].
Qed.

Lemma budget_loop_inv ceiling l :
  budget_inv ceiling l (foldl (budget_step ceiling) ([], 0%Z, 0) l).
Proof.
  induction l as [|v l IH] using rev_ind.
  - split; cbn; try done; intros; try constructor; unfold MAX_MANAGED_REMOVALS; lia.
  - rewrite foldl_snoc. by apply budget_step_inv.
Qed.

(** One pass removes at most [MAX_MANAGED_REMOVALS] objects, never more bytes than its
    ceiling and then only measured objects, in the planned order, and reports the rest
    as deferred. *)
Lemma apply_budget_spec plan policy :
  let plan' := apply_budget plan policy in
  sublist (rp_candidates plan') (rp_candidates plan) ∧
  rp_held plan' = rp_held plan ∧
  (length (rp_candidates plan') + rp_deferred plan' = length (rp_candidates plan))%nat ∧
  (length (rp_candidates plan') ≤ MAX_MANAGED_REMOVALS)%nat ∧
  (∀ c, max_bytes policy = Some c → (0 ≤ c)%Z →
     (rp_bytes plan' ≤ c)%Z ∧ Forall (λ v, is_Some (rv_bytes v)) (rp_candidates plan')) ∧
  (Forall (λ v, 0 ≤ default 0 (rv_bytes v))%Z (rp_candidates plan) →
     rp_bytes plan' =
       Z.min i128_max (sumZ ((λ v, default 0%Z (rv_bytes v)) <$> rp_candidates plan'))).
Proof.
  cbv zeta. unfold apply_budget.
  destruct (budget_loop_inv (max_bytes policy) (rp_candidates plan)) as [H1 H2 H3 H4 H5 H6].
  destruct (foldl _ _ _) as [[kept bytes] deferred]. cbn in *.
  split_and!; try done. intros c Hc H0. split; [by eapply H4|by eapply H5].
Qed.

(** ** The whole plan *)

Section stages.
Context (artifacts : list ObservedArtifact) (reg : option string) (policy : RetentionPolicy).

Definition floor_secs : f64 := as_secs_f64 (idle_volume_floor policy).

(** Where a candidate comes from: an observed object that was reclaimable by its own
    verdict, or an idle volume past the floor that a promotion took early. *)
Record origin (a : ObservedArtifact) (v : RetentionVerdict) : Prop := {
  or_hold : rv_hold v = None;
  or_fields : rv_id v = oa_id a ∧ rv_kind v = oa_kind a ∧
    rv_age_seconds v = oa_age_seconds a ∧ rv_bytes v = oa_bytes a;
  or_why : rv_hold (classify_managed a reg policy) = None ∨
    (idle (classify_managed a reg policy) = true ∧
     past_floor floor_secs (classify_managed a reg policy) = true)
}.

Record stage_ok (plan : RetentionPlan) : Prop := {
  so_held : Forall (λ v, ∃ a, a ∈ artifacts ∧ v = classify_managed a reg policy) (rp_held plan);
  so_candidates : Forall (λ v, ∃ a, a ∈ artifacts ∧ origin a v) (rp_candidates plan);
  so_ids : (rv_id <$> rp_candidates plan) ++ (rv_id <$> rp_held plan) ≡ₚ oa_id <$> artifacts
}.

Lemma initial_plan_ok : stage_ok (initial_plan artifacts reg policy).
Proof.
  unfold initial_plan. split; cbn [rp_held rp_candidates].
  - apply Forall_forall. intros v [_ Hv]%elem_of_filterb.
    apply list_elem_of_fmap in Hv as (a & -> & Ha). by exists a.
  - apply Forall_forall. intros v [Hr Hv]%elem_of_filterb.
    apply list_elem_of_fmap in Hv as (a & -> & Ha). exists a. split; [done|].
    unfold is_reclaimable in Hr. booleans.
    split; [done|apply classify_managed_fields|by left].
  - rewrite <-fmap_app, <-filterb_split, <-list_fmap_compose.
    apply (reflexive_eq (R := Permutation)), list_fmap_ext. intros i a _. simpl. apply classify_managed_fields.
Qed.

(** Promoting an idle verdict past the floor gives it an origin. *)
Lemma promoted_origin a v e :
  v = classify_managed a reg policy → idle v = true → past_floor floor_secs v = true →
  origin a (with_eager (with_hold v None) e).
Proof.
  intros -> Hi Hf. split; [done|apply classify_managed_fields|by right].
Qed.

Lemma eager_reason_idle keys facts cap v r :
  eager_reason keys facts cap floor_secs v = Some r →
  idle v = true ∧ past_floor floor_secs v = true.
Proof.
  unfold eager_reason. destruct (keys !! _); [|done].
  destruct (idle v && _) eqn:E; [|done]. intros _. by apply andb_prop in E.
Qed.

Lemma eager_promote_ok plan facts :
  stage_ok plan → stage_ok (eager_promote plan artifacts policy facts).
Proof.
  intros [Hh Hc Hid]. unfold eager_promote. rewrite promote_loop_spec. simpl.
  set (reason := eager_reason _ _ _ _). split; cbn [rp_held rp_candidates].
  - eapply sublist_Forall; [|exact Hh]. apply sublist_filter.
  - apply Forall_app. split; [done|]. apply Forall_forall.
    intros w (v & Hv & Hw)%list_elem_of_omap. unfold eager_move in Hw.
    destruct (reason v) as [r|] eqn:Hr; simpl in Hw; simplify_eq.
    apply eager_reason_idle in Hr as [Hi Hf].
    rewrite Forall_forall in Hh. destruct (Hh v Hv) as (a & Ha & Hva). exists a.
    split; [done|]. by apply promoted_origin.
  - rewrite <-Hid, fmap_app, <-app_assoc. f_equiv.
    clear. generalize (rp_held plan). intros held.
    induction held as [|v held IH]; [done|]. rewrite filterb_cons. simpl.
    unfold eager_move at 1. destruct (reason v); simpl; [by constructor|].
    rewrite <-Permutation_middle. by constructor.
Qed.

Lemma budget_promote_ok plan :
  stage_ok plan → stage_ok (promote_over_idle_volume_budget plan policy).
Proof.
  intros Hok. destruct (idle_volume_budget policy) as [budget|] eqn:Hb;
    [|unfold promote_over_idle_volume_budget; by rewrite Hb].
  destruct (budget_promotion plan policy budget Hb) as (vs & Hp & Hc' & He & _ & _).
  destruct Hok as [Hh Hc Hid]. rewrite Hp in Hh. apply Forall_app in Hh as [Hvs Hh].
  split; [done| |].
  - rewrite Hc'. apply Forall_app. split; [done|]. apply Forall_fmap, Forall_forall.
    intros v Hv. rewrite Forall_forall in Hvs, He.
    destruct (Hvs v Hv) as (a & Ha & Hva). exists a. split; [done|].
    assert (budget_eligible floor_secs v = true) as Hev by by apply He.
    unfold budget_eligible in Hev. apply andb_prop in Hev as [[Hi _]%andb_prop Hf].
    replace (with_hold v None) with (with_eager (with_hold v None) (rv_eager v)) by done.
    by apply promoted_origin.
  - rewrite Hc', fmap_app, <-Hid, Hp, fmap_app, <-app_assoc, <-list_fmap_compose. done.
Qed.

Lemma sort_candidates_ok plan : stage_ok plan → stage_ok (sort_candidates plan).
Proof.
  intros [Hh Hc Hid]. split; cbn [rp_held rp_candidates sort_candidates]; [done| |];
    by rewrite sort_by_perm.
Qed.

(** The plan just before the pass budget. *)
Definition ordered_plan (facts : EagerFacts) : RetentionPlan :=
  sort_candidates (promote_over_idle_volume_budget
    (eager_promote (initial_plan artifacts reg policy) artifacts policy facts) policy).

Lemma ordered_plan_ok facts : stage_ok (ordered_plan facts).
Proof.
  apply sort_candidates_ok, budget_promote_ok, eager_promote_ok, initial_plan_ok.
Qed.

Lemma plan_managed_with_ordered facts :
  plan_managed_with artifacts reg policy facts = apply_budget (ordered_plan facts) policy.
Proof. done. Qed.

Lemma plan_candidate_origin facts v :
  v ∈ rp_candidates (plan_managed_with artifacts reg policy facts) →
  ∃ a, a ∈ artifacts ∧ origin a v.
Proof.
  rewrite plan_managed_with_ordered. intros Hv.
  destruct (apply_budget_spec (ordered_plan facts) policy) as (Hs & _).
  eapply sublist_elem_of in Hv; [|exact Hs].
  destruct (ordered_plan_ok facts) as [_ Hc _]. rewrite Forall_forall in Hc. auto.
Qed.
End stages.

(** C11. Every object a pass would remove was proven to be this registry's by complete
    labels, is in use by nothing, is not pinned, has a measured age, and is past its
    kind's gate or is a volume past the idle floor. *)
Theorem plan_managed_safe artifacts reg policy facts v :
  v ∈ rp_candidates (plan_managed_with artifacts reg policy facts) →
  ∃ a age, a ∈ artifacts ∧ rv_id v = oa_id a ∧
    classify_ownership (oa_labels a) reg = Ours ∧ in_use (oa_signals a) = false ∧
    is_pinned (oa_labels a) = false ∧ oa_age_seconds a = Some age ∧
    ((∃ ttl, ttl_for policy (oa_kind a) = Some ttl ∧ f64_lt age (as_secs_f64 ttl) = false) ∨
     (oa_kind a = Volume ∧ f64_ge age (as_secs_f64 (idle_volume_floor policy)) = true)).
Proof.
  intros (a & Ha & [_ (Hid & _) [Hn|[Hi Hf]]])%plan_candidate_origin.
  - apply classify_managed_reclaimable_iff in Hn as (Ho & Hu & Hp & ttl & age & Ht & Hage & Hl).
    exists a, age. naive_solver.
  - unfold idle in Hi. booleans. apply classify_within_ttl in H0 as (Ho & Hu & Hp & _ & age & Hage).
    pose proof (classify_managed_fields a reg policy) as (_ & Hk & Hga & _).
    unfold past_floor in Hf. rewrite Hga, Hage in Hf. simpl in Hf.
    exists a, age. rewrite Hk in H. naive_solver.
Qed.

(** Nothing is lost or duplicated: the removals, the deferred and the held objects of a
    pass are together exactly the observed ones. *)
Theorem plan_managed_conserves artifacts reg policy facts :
  let plan := plan_managed_with artifacts reg policy facts in
  (length (rp_candidates plan) + rp_deferred plan + length (rp_held plan) = length artifacts)%nat ∧
  (rv_id <$> rp_candidates plan) ++ (rv_id <$> rp_held plan) ⊆+ oa_id <$> artifacts.
Proof.
  cbv zeta. rewrite plan_managed_with_ordered.
  destruct (apply_budget_spec (ordered_plan artifacts reg policy facts) policy)
    as (Hs & Hh & Hlen & _).
  destruct (ordered_plan_ok artifacts reg policy facts) as [_ _ Hid]. split.
  - apply Permutation_length in Hid. rewrite length_app, !length_fmap in Hid.
    rewrite Hh, Hlen. lia.
  - rewrite <-Hid, Hh. apply submseteq_app; [|done]. by apply fmap_submseteq, sublist_submseteq.
Qed.

(** One pass removes at most [MAX_MANAGED_REMOVALS] objects; under a byte ceiling it removes
    only measured objects and its total stays within the ceiling; and the total it reports is
    the sum of the sizes of what it removes (saturating at the width of the counter). *)
Theorem plan_managed_within_budget artifacts reg policy facts :
  Forall (λ a, 0 ≤ default 0 (oa_bytes a))%Z artifacts →
  let plan := plan_managed_with artifacts reg policy facts in
  (length (rp_candidates plan) ≤ MAX_MANAGED_REMOVALS)%nat ∧
  rp_bytes plan = Z.min i128_max (sumZ ((λ v, default 0%Z (rv_bytes v)) <$> rp_candidates plan)) ∧
  (∀ c, max_bytes policy = Some c → (0 ≤ c)%Z →
     (rp_bytes plan ≤ c)%Z ∧ Forall (λ v, is_Some (rv_bytes v)) (rp_candidates plan)).
Proof.
  cbv zeta. rewrite plan_managed_with_ordered. intros Hb.
  destruct (apply_budget_spec (ordered_plan artifacts reg policy facts) policy)
    as (_ & _ & _ & ? & ? & Hsum). split_and!; [done| |done].
  apply Hsum. destruct (ordered_plan_ok artifacts reg policy facts) as [_ Hc _].
  rewrite Forall_forall in Hc. rewrite Forall_forall in Hb. apply Forall_forall.
  intros v (a & Ha & [_ (_ & _ & _ & ->) _])%Hc. auto.
Qed.

(** Removal order: containers, then volumes, then images; oldest first within a kind. *)
Theorem plan_managed_ordered artifacts reg policy facts :
  let plan := plan_managed_with artifacts reg policy facts in
  StronglySorted (cmp_le removal_cmp) (rp_candidates plan) ∧
  StronglySorted (λ v w, kind_rank (rv_kind v) ≤ kind_rank (rv_kind w))%Z (rp_candidates plan).
Proof.
  cbv zeta. rewrite plan_managed_with_ordered.
  destruct (apply_budget_spec (ordered_plan artifacts reg policy facts) policy) as (Hs & _).
  assert (StronglySorted (cmp_le removal_cmp)
    (rp_candidates (apply_budget (ordered_plan artifacts reg policy facts) policy))) as Hsort.
  { eapply sublist_StronglySorted; [exact Hs|]. apply (sort_by_sorted removal_cmp). }
  split; [done|]. eapply StronglySorted_weaken; [|exact Hsort].
  intros v w Hvw%cmp_then_le. by apply Z.compare_le_iff.
Qed.

(** The re-check made before each removal accepts what the plan selected as long as the
    object itself has not changed, under any policy whose volume gate is no shorter
    than the idle floor. *)
Theorem recheck_accepts_plan artifacts reg policy facts v :
  (idle_volume_floor policy ≤ volume_ttl policy)%Z →
  f64_le (as_secs_f64 (idle_volume_floor policy)) (as_secs_f64 (volume_ttl policy)) = true →
  v ∈ rp_candidates (plan_managed_with artifacts reg policy facts) →
  ∃ a, a ∈ artifacts ∧ rv_id v = oa_id a ∧
    rv_hold (classify_managed a reg (recheck_gates policy)) = None.
Proof.
  intros Hle Hfle (a & Ha & [_ (Hid & _) Hwhy])%plan_candidate_origin.
  exists a. split_and!; [done..|]. apply classify_managed_reclaimable_iff.
  assert (Z.min (volume_ttl policy) (idle_volume_floor policy) = idle_volume_floor policy)
    as Hmin by lia.
  destruct Hwhy as [Hn|[Hi Hf]].
  - apply classify_managed_reclaimable_iff in Hn as (Ho & Hu & Hp & ttl & age & Ht & Hage & Hl).
    split_and!; try done.
    destruct (oa_kind a) eqn:Hk; simpl in *; simplify_eq; try naive_solver.
    rewrite Hmin. eexists _, age. split_and!; [done..|]. apply not_true_is_false.
    intros Hlt. rewrite (f64_lt_le_trans _ _ _ Hlt Hfle) in Hl. done.
  - unfold idle in Hi. booleans. apply classify_within_ttl in H0 as (Ho & Hu & Hp & _ & age & Hage).
    pose proof (classify_managed_fields a reg policy) as (_ & Hk & Hga & _). rewrite Hk in H.
    unfold past_floor in Hf. rewrite Hga, Hage in Hf. simpl in Hf.
    split_and!; try done. rewrite H. simpl. rewrite Hmin.
    eexists _, age. split_and!; [done..|]. by apply f64_ge_lt.
Qed.

(** ** Eager reclamation *)

Lemma collect_map_elem {V} (raw : list (string * V)) k v :
  collect_map raw !! k = Some v → (k, v) ∈ raw.
Proof.
  rewrite collect_map_rev. intros H%elem_of_list_to_map_2. by rewrite elem_of_reverse in H.
Qed.

Lemma eager_keys_inv artifacts id k :
  eager_keys artifacts !! id = Some k → ∃ a, a ∈ artifacts ∧ oa_id a = id ∧ key a = Some k.
Proof.
  intros (a & Ha & Hk)%collect_map_elem%list_elem_of_omap. exists a.
  destruct (key a); simplify_eq/=. done.
Qed.

(** What the recency table records: only workspaces of that family, each because of an
    idle held volume of that workspace and stack. *)
Definition newest_ok (keys : gmap string Key) (facts : EagerFacts)
    (held : list RetentionVerdict) (newest : newest_map) : Prop :=
  ∀ fam stack W w age, newest !! (fam, stack) = Some W → W !! w = Some age →
    families facts !! w = Some fam ∧
    ∃ v, v ∈ held ∧ idle v = true ∧ keys !! rv_id v = Some (mkKey w stack).

Lemma newest_step_ok keys facts held newest v :
  newest_ok keys facts held newest → v ∈ held → idle v = true →
  newest_ok keys facts held (newest_step keys facts newest v).
Proof.
  intros Hok Hv Hi fam stack W w age. unfold newest_step.
  destruct (keys !! rv_id v) as [[kw ks]|] eqn:Hk; [|apply Hok].
  destruct (rv_age_seconds v) as [a|]; [|apply Hok]. cbn [key_workspace key_stack].
  destruct (families facts !! kw) as [f|] eqn:Hf; [|apply Hok].
  unfold entry_update. rewrite lookup_insert_Some. intros [[[= <- <-] <-]|[_ HW]];
    [|by apply Hok].
  rewrite lookup_insert_Some. intros [[<- <-]|[Hne Hw]]; [split; [done|by exists v]|].
  destruct (newest !! (f, ks)) as [W|] eqn:HW; [|done]. by eapply Hok.
Qed.

Lemma newest_uses_ok keys facts held : newest_ok keys facts held (newest_uses keys facts held).
Proof.
  unfold newest_uses.
  assert (∀ l newest, newest_ok keys facts held newest →
    Forall (λ v, v ∈ held ∧ idle v = true) l →
    newest_ok keys facts held (foldl (newest_step keys facts) newest l)) as Hl.
  { induction l as [|v l IH]; intros newest Hn Hall; simpl; [done|].
    apply Forall_cons in Hall as [[? ?] ?]. apply IH; [|done]. by apply newest_step_ok. }
  apply Hl; [done|]. apply Forall_forall. intros v [? ?]%elem_of_filterb. done.
Qed.

#[global] Instance ranked_cmp_total : TotalCmp ranked_cmp.
Proof. unfold ranked_cmp. apply _. Qed.

(** A workspace over the cap is outranked by [FAMILY_KEEP] others of its table. *)
Lemma over_cap_inv newest w stack :
  (w, stack) ∈ over_cap newest →
  ∃ fam W age keepers, newest !! (fam, stack) = Some W ∧ W !! w = Some age ∧
    NoDup (w :: keepers) ∧ length keepers = FAMILY_KEEP ∧
    Forall (λ w', ∃ age', W !! w' = Some age' ∧ cmp_le total_cmp age' age) keepers.
Proof.
  unfold over_cap. rewrite elem_of_list_to_set, list_elem_of_bind.
  intros ([[fam s] W] & Hin & HW). apply list_elem_of_bind in Hin as ([w' age] & Hin & Hd).
  apply list_elem_of_singleton in Hin as [= <- <-].
  apply elem_of_map_to_list in HW. cbn [fst snd] in *.
  exists fam, W, age, (take FAMILY_KEEP (ranked W)).*1.
  assert (∀ x, x ∈ ranked W → W !! x.1 = Some x.2) as Hr.
  { intros [x y]. unfold ranked. by rewrite elem_of_sort_by, elem_of_btree_iter. }
  assert (NoDup (ranked W).*1) as Hnd.
  { unfold ranked. rewrite sort_by_perm. apply NoDup_btree_keys. }
  rewrite <-(take_drop FAMILY_KEEP (ranked W)), fmap_app in Hnd.
  apply NoDup_app in Hnd as (Hn1 & Hdis & _).
  split_and!; [done| | | |].
  - apply (Hr (w, age)). rewrite <-(take_drop FAMILY_KEEP (ranked W)). set_solver.
  - constructor; [|done]. intros Hw. apply (Hdis w Hw), list_elem_of_fmap. by exists (w, age).
  - rewrite length_fmap, length_take. apply list_elem_of_lookup in Hd as [n Hn].
    apply lookup_lt_Some in Hn. rewrite length_drop in Hn. lia.
  - apply Forall_fmap, Forall_forall. intros [w' age'] Hw'. exists age'. split.
    + apply (Hr (w', age')). rewrite <-(take_drop FAMILY_KEEP (ranked W)). set_solver.
    + assert (Hs := sort_by_sorted ranked_cmp (btree_iter String.compare W)).
      fold (ranked W) in Hs. rewrite <-(take_drop FAMILY_KEEP (ranked W)) in Hs.
      eapply StronglySorted_app_1_elem_of in Hs; [|exact Hw'|exact Hd].
      by apply cmp_then_le in Hs.
Qed.

(** A volume taken early for its workspace is one whose workspace is gone, or belongs
    to a repository family of which at least [FAMILY_KEEP] other workspaces were used
    no less recently on the same stack. *)
Theorem eager_reclaim_justified artifacts policy facts plan v r :
  v ∈ rp_candidates (eager_promote plan artifacts policy facts) →
  v ∉ rp_candidates plan → rv_eager v = Some r →
  ∃ a k, a ∈ artifacts ∧ oa_id a = rv_id v ∧ key a = Some k ∧
    match r with
    | WorkspaceGone => key_workspace k ∈ gone_workspaces facts
    | FamilyCap =>
        ∃ fam keepers, families facts !! key_workspace k = Some fam ∧
          NoDup (key_workspace k :: keepers) ∧ length keepers = FAMILY_KEEP ∧
          Forall (λ w, families facts !! w = Some fam) keepers
    end.
Proof.
  unfold eager_promote. rewrite promote_loop_spec. cbn [rp_candidates].
  intros [?|Hv]%elem_of_app Hn Hr; [done|].
  apply list_elem_of_omap in Hv as (u & Hu & Hv). unfold eager_move in Hv.
  destruct (eager_reason _ _ _ _ u) as [r'|] eqn:He; simplify_eq/=.
  unfold eager_reason in He. destruct (eager_keys artifacts !! rv_id u) as [k|] eqn:Hk; [|done].
  apply eager_keys_inv in Hk as (a & Ha & Hid & Hkey). exists a, k. split_and!; [done..|].
  destruct (idle u && _); [|done]. case_bool_decide as Hg; simplify_eq; [done|].
  case_bool_decide as Hc; simplify_eq. apply over_cap_inv in Hc
    as (fam & W & age & keepers & HW & Hw & Hnd & Hlen & Hall).
  pose proof (newest_uses_ok (eager_keys artifacts) facts (rp_held plan)) as Hok.
  exists fam, keepers. split_and!; [by eapply Hok|done..|].
  eapply Forall_impl; [exact Hall|]. intros w (age' & Hw' & _). by eapply Hok.
Qed.

(** The idle-volume budget is enforced: after the promotions the idle volumes kept by
    their age gate fit the budget, or none of those left may be taken. *)
Theorem idle_budget_enforced artifacts reg policy facts budget :
  idle_volume_budget policy = Some budget →
  let held := rp_held (plan_managed_with artifacts reg policy facts) in
  (idle_total held ≤ budget)%Z ∨
  Forall (λ w, idle w = true → rv_bytes w = None ∨ past_floor (floor_secs policy) w = false) held.
Proof.
  intros Hb. cbv zeta. rewrite plan_managed_with_ordered.
  destruct (apply_budget_spec (ordered_plan artifacts reg policy facts) policy) as (_ & -> & _).
  cbn [ordered_plan sort_candidates rp_held].
  destruct (budget_promotion (eager_promote (initial_plan artifacts reg policy) artifacts policy facts)
    policy budget Hb) as (_ & _ & _ & _ & _ & [H|H]); [by left|right].
  eapply Forall_impl; [exact H|]. intros w Hw Hi. unfold budget_eligible in Hw.
  rewrite Hi in Hw. simpl in Hw. apply andb_false_iff in Hw as [Hw|Hw]; [left|by right].
  booleans. by destruct (rv_bytes w); [destruct Hw|].
Qed.

(** ** The footprint *)

Definition measured_of (kind : ResourceKind) (l : list ObservedArtifact) : Z :=
  sumZ ((λ a, Z.max (default 0%Z (oa_bytes a)) 0) <$>
        filterb (λ a, bool_decide (oa_kind a = kind)) l).

Lemma measured_of_snoc kind l a :
  measured_of kind (l ++ [a]) =
  (measured_of kind l +
   if bool_decide (oa_kind a = kind) then Z.max (default 0 (oa_bytes a)) 0 else 0)%Z.
Proof.
  unfold measured_of. rewrite filterb_app, filterb_cons, filterb_nil, fmap_app, sumZ_app.
  case_bool_decide; cbn; lia.
Qed.

Lemma measured_of_nonneg kind l : (0 ≤ measured_of kind l)%Z.
Proof. apply sumZ_nonneg, Forall_fmap, Forall_forall. intros a _. simpl. lia. Qed.

(** The footprint sums each kind's measured bytes exactly, saturating at the width of
    its counters, never below zero, and counts what the engine did not measure. *)
Theorem footprint_exact l :
  footprint_of l =
  mkFootprint (Z.min i128_max (measured_of Container l))
              (Z.min i128_max (measured_of Volume l))
              (Z.min i128_max (measured_of Image l))
              (Z.of_nat (length (filterb unmeasured l))).
Proof.
  induction l as [|a l IH] using rev_ind; [done|].
  unfold footprint_of in *. rewrite foldl_snoc, IH, !measured_of_snoc.
  pose proof (measured_of_nonneg Container l). pose proof (measured_of_nonneg Volume l).
  pose proof (measured_of_nonneg Image l).
  rewrite filterb_app, filterb_cons, filterb_nil, length_app, Nat2Z.inj_add.
  unfold footprint_step, unmeasured, i128_saturating_add, i128_clamp, i128_min.
  destruct (oa_bytes a) as [b|], (oa_kind a); cbn; f_equal; repeat case_bool_decide; try done;
    unfold i128_max; lia.
Qed.

(** Under pressure a policy changes only its two pressure gates: ownership, liveness
    and pin checks, the volume and image gates, the idle floor and the byte ceiling
    stay, the container gate can only shrink and the idle budget becomes zero. *)
Theorem pressure_policy_narrow p disk f ceiling :
  (for_disk p disk = p ∨ for_disk p disk = under_disk_pressure p) ∧
  (for_footprint p f ceiling = p ∨ for_footprint p f ceiling = under_disk_pressure p) ∧
  (container_ttl (under_disk_pressure p) ≤ container_ttl p)%Z ∧
  volume_ttl (under_disk_pressure p) = volume_ttl p ∧
  image_ttl (under_disk_pressure p) = image_ttl p ∧
  max_bytes (under_disk_pressure p) = max_bytes p ∧
  idle_volume_floor (under_disk_pressure p) = idle_volume_floor p ∧
  under_disk_pressure (under_disk_pressure p) = under_disk_pressure p.
Proof.
  unfold for_disk, for_footprint. split_and!; try done.
  - case_match; [by right|by left].
  - case_match; [by right|by left].
  - simpl. lia.
  - unfold under_disk_pressure. simpl. f_equal. lia.
Qed.

(** A low disk means less than 15% or less than 100 GiB free, on a reported filesystem. *)
Theorem disk_pressure_iff d :
  disk_under_pressure d = true ↔
  total_bytes d ≠ 0%Z ∧
  (free_bytes d * 100 < total_bytes d * 15 ∨ free_bytes d < 107374182400)%Z.
Proof.
  unfold disk_under_pressure, PRESSURE_FREE_PERCENT, PRESSURE_FREE_BYTES.
  destruct (Z.eqb_spec (total_bytes d) 0) as [->|Hne]; [naive_solver|].
  rewrite orb_true_iff, !Z.ltb_lt. naive_solver.
Qed.

(** ** What the comments say otherwise *)

(** A missing retention label protects nothing: once past its gate the object is
    reclaimable. *)
Theorem missing_retention_label_reclaimable a reg policy ttl age :
  oa_labels a !! LABEL_RETENTION = None →
  classify_ownership (oa_labels a) reg = Ours → in_use (oa_signals a) = false →
  ttl_for policy (oa_kind a) = Some ttl → oa_age_seconds a = Some age →
  f64_lt age (as_secs_f64 ttl) = false →
  rv_hold (classify_managed a reg policy) = None.
Proof.
  intros Hr Ho Hu Ht Ha Hl. apply classify_managed_reclaimable_iff.
  split_and!; [done..|unfold is_pinned; by rewrite Hr|naive_solver].
Qed.

(** ** A concrete pass *)

Definition sample_labels_map : gmap string string :=
  to_map (mkLabels "r1" Volume "web" "g1" Stack "/ws" "now" Warm false).
Definition sample_volume (id : string) (bytes age : Z) : ObservedArtifact :=
  mkArtifact id Volume sample_labels_map (mkSignals false false false) (Some bytes)
    (Some (f64_of_Z age)).
(** Two idle volumes, one past the default gate and one past the idle floor only. *)
Definition sample_artifacts : list ObservedArtifact :=
  [sample_volume "old" 10 1500000; sample_volume "young" 20 7200].
Definition sample_policy : RetentionPolicy :=
  mkPolicy DEFAULT_CONTAINER_TTL DEFAULT_VOLUME_TTL DEFAULT_IMAGE_TTL None (Some 5%Z)
    DEFAULT_IDLE_VOLUME_FLOOR.
Definition sample_verdict : RetentionVerdict :=
  mkRVerdict "young" Volume None (Some (f64_of_Z 7200)) (Some 20%Z) None.

Example sample_plan :
  rv_id <$> rp_candidates (plan_managed sample_artifacts (Some "r1") sample_policy) =
  ["old"; "young"].
Proof. vm_compute. reflexivity. Qed.

Lemma plan_managed_safe_witness :
  ∃ a age, a ∈ sample_artifacts ∧ oa_id a = "young" ∧ in_use (oa_signals a) = false ∧
    oa_age_seconds a = Some age.
Proof.
  destruct (plan_managed_safe sample_artifacts (Some "r1") sample_policy EagerFacts_default
    sample_verdict) as (a & age & H1 & H2 & _ & H4 & _ & H6 & _).
  - apply list_elem_of_In. vm_compute. by right; left.
  - by exists a, age.
Defined.

Lemma plan_managed_within_budget_witness :
  let plan := plan_managed_with sample_artifacts (Some "r1") sample_policy EagerFacts_default in
  rp_bytes plan = 30%Z ∧
  rp_bytes plan = Z.min i128_max (sumZ ((λ v, default 0%Z (rv_bytes v)) <$> rp_candidates plan)).
Proof.
  split; [vm_compute; reflexivity|].
  apply (plan_managed_within_budget sample_artifacts (Some "r1") sample_policy EagerFacts_default).
  repeat constructor; vm_compute; discriminate.
Defined.

Lemma recheck_accepts_plan_witness :
  ∃ a, a ∈ sample_artifacts ∧ "young" = oa_id a ∧
    rv_hold (classify_managed a (Some "r1") (recheck_gates sample_policy)) = None.
Proof.
  apply (recheck_accepts_plan sample_artifacts (Some "r1") sample_policy EagerFacts_default
    sample_verdict).
  - vm_compute. done.
  - vm_compute. reflexivity.
  - apply list_elem_of_In. vm_compute. by right; left.
Defined.

Definition sample_facts : EagerFacts := mkFacts {["/ws"]} ∅.
Lemma eager_reclaim_justified_witness :
  ∃ a k, a ∈ sample_artifacts ∧ oa_id a = "young" ∧ key a = Some k ∧
    key_workspace k ∈ gone_workspaces sample_facts.
Proof.
  apply (eager_reclaim_justified sample_artifacts sample_policy sample_facts
    (initial_plan sample_artifacts (Some "r1") sample_policy)
    (mkRVerdict "young" Volume None (Some (f64_of_Z 7200)) (Some 20%Z) (Some WorkspaceGone))
    WorkspaceGone).
  - apply list_elem_of_In. vm_compute. by right; left.
  - rewrite list_elem_of_In. vm_compute. intros [H|[]]. discriminate H.
  - reflexivity.
Defined.

Lemma idle_budget_enforced_witness :
  (idle_total (rp_held (plan_managed_with sample_artifacts (Some "r1") sample_policy
    EagerFacts_default)) ≤ 5)%Z ∨
  Forall (λ w, idle w = true → rv_bytes w = None ∨ past_floor (floor_secs sample_policy) w = false)
    (rp_held (plan_managed_with sample_artifacts (Some "r1") sample_policy EagerFacts_default)).
Proof. apply (idle_budget_enforced sample_artifacts (Some "r1") sample_policy). reflexivity. Defined.

Lemma missing_retention_label_reclaimable_witness :
  rv_hold (classify_managed (sample_volume "old" 10 1500000) (Some "r1") sample_policy) = None.
Proof.
  apply (missing_retention_label_reclaimable (sample_volume "old" 10 1500000) (Some "r1")
    sample_policy DEFAULT_VOLUME_TTL (f64_of_Z 1500000)); vm_compute; reflexivity.
Defined.
