(* ===== verification/Capacity.v ===== *)
(** * Runner capacity settings

    The model of [bosn-service/src/capacity.rs]: the defaults from the host's CPU count, the
    [runners.toml] reader, the environment overrides and their composition in [load]. The CPU
    count, the file read, the environment and the target platform are arguments. A method on
    [&mut self] that can fail returns its result beside the state it leaves, since the file
    reader applies settings one by one. Error texts are the constructors of [CapacityError];
    [describe] only renders and is not modelled. *)

From Stdlib Require Import Ascii.
From S2P Require Export Text.

Local Open Scope string_scope.
Local Open Scope list_scope.
Local Open Scope Z_scope.
Local Open Scope bosn_scope.

Definition DEFAULT_CPUS_PER_SLOT : f64 := f64_of_Z 4.
Definition DEFAULT_STALL_SECONDS : Z := 30 * 60.
Definition MAX_SLOTS : Z := 1024.
Definition MAX_CPUS_PER_SLOT : f64 := f64_of_Z 1024.

Definition usize_max : Z := 2 ^ 64 - 1.
Definition clamp (lo hi z : Z) : Z := Z.max lo (Z.min hi z).

Definition default_runner_slots (ncpu : option Z) : Z :=
  clamp 1 MAX_SLOTS (Z.min usize_max (default 1 ncpu * 2)).
Definition default_control_slots (ncpu : option Z) : Z :=
  clamp 2 MAX_SLOTS (default 1 ncpu `quot` 2).

Record RunnerCapacity := mkCapacity {
  rc_runner_slots : Z;
  rc_control_slots : Z;
  rc_cpus_per_slot : f64;
  rc_memory_per_slot : option Z;
  rc_stall_after : option Z;
  rc_docker_proxy : bool;
}.

Inductive CapacityError :=
| NotACount (key : string)
| NotCpus (key value : string)
| CpusOutOfRange (key : string)
| NotASize (value : string)
| NotSeconds (key value : string)
| NotABoolean (key : string)
| UnknownSetting (key : string)
| ExpectedKeyValue
| UnterminatedString
| NotAScalar (key : string)
| AtLine (line : nat) (e : CapacityError)
| AtVariable (name : string) (e : CapacityError)
| FileUnreadable.

Definition parse_count (key value : string) : result CapacityError Z :=
  match parse_unsigned usize_max value with
  | Some n => if (1 <=? n) && (n <=? MAX_SLOTS) then Ok n else Err (NotACount key)
  | None => Err (NotACount key)
  end.

(** The unit letter at the end, and what precedes it. *)
Definition split_unit (lower : string) : string * Z :=
  match str_reverse lower with
  | String a r =>
      if Ascii.eqb a "k" then (str_reverse r, 2 ^ 10)
      else if Ascii.eqb a "m" then (str_reverse r, 2 ^ 20)
      else if Ascii.eqb a "g" then (str_reverse r, 2 ^ 30)
      else if Ascii.eqb a "t" then (str_reverse r, 2 ^ 40)
      else (lower, 1)
  | EmptyString => (lower, 1)
  end.


Definition parse_bytes (value : string) : result CapacityError Z :=
  let lower := trim_end_matches "b" (to_ascii_lowercase value) in
  let '(digits, multiplier) := split_unit lower in
  ok_or (n ← parse_u64 (trim digits); checked_mul n multiplier) (NotASize value).

Definition parse_bool (key value : string) : result CapacityError bool :=
  if String.eqb value "1" || String.eqb value "true" || String.eqb value "on"
     || String.eqb value "yes" then Ok true
  else if String.eqb value "0" || String.eqb value "false" || String.eqb value "off"
     || String.eqb value "no" then Ok false
  else Err (NotABoolean key).

Section capacity.
(** [cfg!(target_os = "linux")]. *)
Context (linux : bool).

Definition defaults (ncpu : option Z) : RunnerCapacity :=
  {| rc_runner_slots := default_runner_slots ncpu;
     rc_control_slots := default_control_slots ncpu;
     rc_cpus_per_slot := DEFAULT_CPUS_PER_SLOT;
     rc_memory_per_slot := None;
     rc_stall_after := Some (duration_from_secs DEFAULT_STALL_SECONDS);
     rc_docker_proxy := linux |}.

Definition set (c : RunnerCapacity) (key value : string) :
    result CapacityError unit * RunnerCapacity :=
  let value := trim value in
  let '(mkCapacity slots control cpus memory stall proxy) := c in
  if String.eqb key "slots" then
    match parse_count key value with
    | Ok n => (Ok (), mkCapacity n control cpus memory stall proxy)
    | Err e => (Err e, c)
    end
  else if String.eqb key "control_slots" then
    match parse_count key value with
    | Ok n => (Ok (), mkCapacity slots n cpus memory stall proxy)
    | Err e => (Err e, c)
    end
  else if String.eqb key "cpus" then
    match parse_f64 value with
    | None => (Err (NotCpus key value), c)
    | Some v =>
        if negb (is_finite v) || negb (f64_le f64_zero v && f64_le v MAX_CPUS_PER_SLOT)
        then (Err (CpusOutOfRange key), c)
        else (Ok (), mkCapacity slots control v memory stall proxy)
    end
  else if String.eqb key "memory" then
    match parse_bytes value with
    | Ok bytes =>
        (Ok (), mkCapacity slots control cpus (if bytes =? 0 then None else Some bytes) stall proxy)
    | Err e => (Err e, c)
    end
  else if String.eqb key "stall_seconds" then
    match parse_u64 value with
    | None => (Err (NotSeconds key value), c)
    | Some seconds =>
        (Ok (), mkCapacity slots control cpus memory
           (if 0 <? seconds then Some (duration_from_secs seconds) else None) proxy)
    end
  else if String.eqb key "docker_proxy" then
    match parse_bool key value with
    | Ok b => (Ok (), mkCapacity slots control cpus memory stall (b && linux))
    | Err e => (Err e, c)
    end
  else (Err (UnknownSetting key), c).

(** *** [runners.toml] *)

(** The characters a scalar may not start with. *)
Definition opens_composite (s : string) : bool :=
  match s with
  | String a _ => Ascii.eqb a "[" || Ascii.eqb a "{" || Ascii.eqb a "'"
  | EmptyString => false
  end.

(** The value after the [=]: a quoted string's content, or a bare scalar. *)
Definition scalar (key value : string) : result CapacityError string :=
  match value with
  | String "034" rest =>
      match str_reverse rest with
      | String "034" r => Ok (str_reverse r)
      | _ => Err UnterminatedString
      end
  | _ => if opens_composite value then Err (NotAScalar (trim key)) else Ok value
  end.

Definition apply_line (c : RunnerCapacity) (raw : string) :
    result CapacityError unit * RunnerCapacity :=
  let line := trim (match split_once "#" raw with Some (code, _) => code | None => raw end) in
  if String.eqb line "" then (Ok (), c)
  else
    match split_once "=" line with
    | None => (Err ExpectedKeyValue, c)
    | Some (key, value) =>
        match scalar key (trim value) with
        | Err e => (Err e, c)
        | Ok value => set c (trim key) value
        end
    end.

Fixpoint apply_lines (c : RunnerCapacity) (index : nat) (raws : list string) :
    result CapacityError unit * RunnerCapacity :=
  match raws with
  | [] => (Ok (), c)
  | raw :: raws' =>
      match apply_line c raw with
      | (Ok _, c') => apply_lines c' (S index) raws'
      | (Err e, c') => (Err (AtLine (S index) e), c')
      end
  end.
Definition apply_file (c : RunnerCapacity) (text : string) :
    result CapacityError unit * RunnerCapacity :=
  apply_lines c 0 (lines text).

(** *** The environment *)

Definition variables : list (string * string) :=
  [("BOSN_RUNNER_SLOTS", "slots"); ("BOSN_CONTROL_SLOTS", "control_slots");
   ("BOSN_RUNNER_CPUS", "cpus"); ("BOSN_RUNNER_MEMORY", "memory");
   ("BOSN_STALL_SECONDS", "stall_seconds"); ("BOSN_DOCKER_PROXY", "docker_proxy")].

Fixpoint apply_variables (c : RunnerCapacity) (get : string → option string)
    (vars : list (string * string)) : result CapacityError unit * RunnerCapacity :=
  match vars with
  | [] => (Ok (), c)
  | (variable, key) :: vars' =>
      match get variable with
      | Some value =>
          if String.eqb (trim value) "" then apply_variables c get vars'
          else
            match set c key value with
            | (Ok _, c') => apply_variables c' get vars'
            | (Err e, c') => (Err (AtVariable variable e), c')
            end
      | None => apply_variables c get vars'
      end
  end.
Definition apply_env (c : RunnerCapacity) (get : string → option string) :
    result CapacityError unit * RunnerCapacity :=
  apply_variables c get variables.

(** *** [load] *)

Inductive FileRead := FileText (text : string) | FileNotFound | FileError.

Definition load (ncpu : option Z) (file : FileRead) (get : string → option string) :
    result CapacityError RunnerCapacity :=
  let c := defaults ncpu in
  match (match file with
         | FileText text => apply_file c text
         | FileNotFound => (Ok (), c)
         | FileError => (Err FileUnreadable, c)
         end) with
  | (Err e, _) => Err e
  | (Ok _, c) =>
      match apply_env c get with
      | (Err e, _) => Err e
      | (Ok _, c) => Ok c
      end
  end.
End capacity.

(** Docker's [NanoCpus] for one slot. *)
Definition nano_cpus (c : RunnerCapacity) : Z :=
  f64_round_to_int i64_min i64_max (f64_mul (rc_cpus_per_slot c) (f64_of_Z (10 ^ 9))).

(** The source's own test values. *)
Example defaults_16 :
  default_runner_slots (Some 16) = 32 ∧ default_runner_slots (Some 0) = 1 ∧
  default_runner_slots None = 2 ∧ default_runner_slots (Some usize_max) = MAX_SLOTS ∧
  default_control_slots (Some 16) = 8 ∧ default_control_slots None = 2 ∧
  nano_cpus (defaults true (Some 16)) = 4000000000.
Proof. vm_compute. done. Qed.
Definition sample_file : string :=
  "slots = 4" +:+ String lf ("cpus = 2.5 # half" +:+ String lf
  ("memory = " +:+ String "034" ("8g" +:+ String "034" (String lf "stall_seconds = 0")))).
Example file_sample :
  apply_file true (defaults true (Some 16)) sample_file =
  (Ok (), mkCapacity 4 8 (f64_of_decimal 25 1) (Some (8 * 2 ^ 30)) None true).
Proof. vm_compute. reflexivity. Qed.
Example bytes_sample :
  parse_bytes "8gb" = Ok (8 * 2 ^ 30) ∧ parse_bytes "1024" = Ok 1024 ∧
  parse_bytes "99999999999t" = Err (NotASize "99999999999t").
Proof. vm_compute. done. Qed.

(** ** Bounds *)

Record capacity_ok (linux : bool) (c : RunnerCapacity) : Prop := {
  ok_runner : 1 ≤ rc_runner_slots c ≤ MAX_SLOTS;
  ok_control : 1 ≤ rc_control_slots c ≤ MAX_SLOTS;
  ok_cpus : is_finite (rc_cpus_per_slot c) = true ∧
    f64_le f64_zero (rc_cpus_per_slot c) = true ∧
    f64_le (rc_cpus_per_slot c) MAX_CPUS_PER_SLOT = true;
  ok_memory : ∀ m, rc_memory_per_slot c = Some m → 1 ≤ m ≤ u64_max;
  ok_stall : ∀ d, rc_stall_after c = Some d → nanos_per_sec ≤ d;
  ok_proxy : rc_docker_proxy c = true → linux = true;
}.

Lemma parse_bytes_bounds value n : parse_bytes value = Ok n → 0 ≤ n ≤ u64_max.
Proof.
  unfold parse_bytes. destruct (split_unit _) as [digits multiplier] eqn:Hu.
  rewrite ok_or_Ok. destruct (parse_u64 (trim digits)) as [k|] eqn:Hk; [|done]. cbn.
  unfold checked_mul. case_match eqn:E; [|done]. booleans. intros [= <-].
  apply parse_unsigned_bounds in Hk. split; [|lia]. apply Z.mul_nonneg_nonneg; [lia|].
  unfold split_unit in Hu. repeat case_match; simplify_eq; lia.
Qed.

Lemma set_ok linux c key value : capacity_ok linux c → capacity_ok linux (set linux c key value).2.
Proof.
  intros Hok. unfold set. destruct c as [slots control cpus memory stall proxy].
  assert (∀ k v n, parse_count k v = Ok n → 1 ≤ n ≤ MAX_SLOTS) as Hcount.
  { intros k v n. unfold parse_count. destruct (parse_unsigned _ _); [|done].
    case_match eqn:E; [|done]. intros [= <-]. booleans. lia. }
  destruct Hok as [H1 H2 H3 H4 H5 H6]; cbn in *.
  repeat (case_match; cbn; try done).
  all: split; cbn; try done; try (by eapply Hcount); try (by booleans).
  - intros m [= <-]. booleans.
    match goal with H : parse_bytes _ = Ok _ |- _ => apply parse_bytes_bounds in H end. lia.
  - intros d [= <-]. booleans. unfold duration_from_secs, nanos_per_sec. lia.
  - by destruct a.
Qed.

Lemma defaults_ok linux ncpu : (∀ n, ncpu = Some n → 0 ≤ n) → capacity_ok linux (defaults linux ncpu).
Proof.
  intros Hn. split; cbn; try done.
  - unfold default_runner_slots, clamp, MAX_SLOTS. lia.
  - unfold default_control_slots, clamp, MAX_SLOTS. lia.
  - by intros ? [= <-].
Qed.

Lemma apply_file_ok linux c text :
  capacity_ok linux c → capacity_ok linux (apply_file linux c text).2.
Proof.
  unfold apply_file. generalize 0%nat, (lines text). intros index raws. revert c index.
  induction raws as [|raw raws IH]; intros c index Hok; cbn; [done|].
  assert (capacity_ok linux (apply_line linux c raw).2) as Hline.
  { unfold apply_line. destruct (String.eqb _ ""); [done|].
    destruct (split_once "=" _) as [[key value]|]; [|done].
    destruct (scalar key (trim value)); [by apply set_ok|done]. }
  destruct (apply_line linux c raw) as [[?|?] c']; [by apply IH|done].
Qed.

Lemma apply_variables_ok linux c get vars :
  capacity_ok linux c → capacity_ok linux (apply_variables linux c get vars).2.
Proof.
  revert c. induction vars as [|[variable key] vars IH]; intros c Hok; cbn; [done|].
  destruct (get variable) as [value|]; [|by apply IH]. case_match; [by apply IH|].
  pose proof (set_ok linux c key value Hok) as Hset.
  destruct (set linux c key value) as [[?|?] c']; [by apply IH|done].
Qed.

(** Every configuration that loads is usable: at least one slot per lane and at most 1024, a
    finite CPU quota from 0 to 1024, a positive memory limit or none, a stall timeout of at
    least a second or none, and the proxy only on Linux. *)
Theorem loaded_capacity_in_bounds linux ncpu file get c :
  (∀ n, ncpu = Some n → 0 ≤ n) → load linux ncpu file get = Ok c → capacity_ok linux c.
Proof.
  intros Hn. unfold load. set (d := defaults linux ncpu).
  assert (capacity_ok linux d) as Hd by by apply defaults_ok.
  destruct file as [text| |]; [|..|done].
  - pose proof (apply_file_ok linux d text Hd) as Hf.
    destruct (apply_file linux d text) as [[?|?] c1]; [|done].
    pose proof (apply_variables_ok linux c1 get variables Hf) as He.
    unfold apply_env. destruct (apply_variables _ _ _ _) as [[?|?] c2]; [|done]. by intros [= <-].
  - pose proof (apply_variables_ok linux d get variables Hd) as He.
    unfold apply_env. destruct (apply_variables _ _ _ _) as [[?|?] c2]; [|done]. by intros [= <-].
Qed.

Lemma loaded_capacity_in_bounds_witness :
  capacity_ok true (mkCapacity 4 8 (f64_of_decimal 25 1) (Some (8 * 2 ^ 30)) None true).
Proof.
  apply (loaded_capacity_in_bounds true (Some 16) (FileText sample_file) (λ _, None)).
  - intros n [= <-]. lia.
  - vm_compute. reflexivity.
Defined.

(** ** Precedence *)

(** The setting a key controls, as its [runners.toml] key names it. *)
Definition setting (c : RunnerCapacity) (key : string) : option (Z + f64 + option Z + bool) :=
  if String.eqb key "slots" then Some (inl (inl (inl (rc_runner_slots c))))
  else if String.eqb key "control_slots" then Some (inl (inl (inl (rc_control_slots c))))
  else if String.eqb key "cpus" then Some (inl (inl (inr (rc_cpus_per_slot c))))
  else if String.eqb key "memory" then Some (inl (inr (rc_memory_per_slot c)))
  else if String.eqb key "stall_seconds" then Some (inl (inr (rc_stall_after c)))
  else if String.eqb key "docker_proxy" then Some (inr (rc_docker_proxy c))
  else None.

(** A setting touches its own key only, and its outcome does not depend on what was there. *)
Lemma set_setting linux c key value key' :
  key' ≠ key → setting (set linux c key value).2 key' = setting c key'.
Proof.
  intros Hne. unfold set. destruct c as [slots control cpus memory stall proxy].
  repeat match goal with
  | |- context [if String.eqb ?k ?s then _ else _] => destruct (String.eqb_spec k s); subst
  end; repeat (case_match; try done); unfold setting; cbn;
    repeat match goal with
    | |- context [if String.eqb ?k ?s then _ else _] => destruct (String.eqb_spec k s); subst; try done
    end.
Qed.

Lemma set_outcome linux c d key value :
  (set linux c key value).1 = (set linux d key value).1 ∧
  ((set linux c key value).1 = Ok () →
   setting (set linux c key value).2 key = setting (set linux d key value).2 key).
Proof.
  unfold set. destruct c as [s1 c1 u1 m1 t1 p1], d as [s2 c2 u2 m2 t2 p2].
  repeat match goal with
  | |- context [if String.eqb ?k ?s then _ else _] => destruct (String.eqb_spec k s); subst
  end; repeat (case_match; try done). by split.
Qed.

Lemma apply_variables_setting linux get vars c key :
  key ∉ vars.*2 → setting (apply_variables linux c get vars).2 key = setting c key.
Proof.
  revert c. induction vars as [|[variable k] vars IH]; intros c Hk; cbn; [done|].
  rewrite fmap_cons, not_elem_of_cons in Hk. cbn in Hk. destruct Hk as [Hk1 Hk2].
  destruct (get variable) as [value|]; [|by apply IH]. case_match; [by apply IH|].
  pose proof (set_setting linux c k value key Hk1) as Hs.
  destruct (set linux c k value) as [[?|?] c']; [|done]. cbn in Hs. rewrite IH; done.
Qed.

(** The environment wins over the file and the defaults: a variable that is set and not blank
    decides its setting, exactly as that value would from any starting point; a variable that
    is unset or blank leaves its setting as it was. *)
Theorem environment_takes_precedence linux c c' get variable key :
  (variable, key) ∈ variables → apply_env linux c get = (Ok (), c') →
  match get variable with
  | Some value =>
      if String.eqb (trim value) "" then setting c' key = setting c key
      else ∀ d, (set linux d key value).1 = Ok () ∧
                setting c' key = setting (set linux d key value).2 key
  | None => setting c' key = setting c key
  end.
Proof.
  assert (NoDup variables.*2) as Hnd.
  { apply (bool_decide_unpack _). vm_compute. exact I. }
  unfold apply_env. revert c Hnd. induction variables as [|[v0 k0] vars IH]; intros c Hnd Hin.
  { by apply elem_of_nil in Hin. }
  rewrite fmap_cons in Hnd. apply NoDup_cons in Hnd as [Hk0 Hnd]. cbn in Hk0.
  apply elem_of_cons in Hin as [[= -> ->]|Hin]; cbn.
  - destruct (get v0) as [value|].
    + destruct (String.eqb (trim value) "").
      * intros Hv. pose proof (apply_variables_setting linux get vars c k0 Hk0) as Hs. by rewrite Hv in Hs.
      * destruct (set linux c k0 value) as [[[]|?] c1] eqn:Hset; [|done].
        intros Hv d. pose proof (apply_variables_setting linux get vars c1 k0 Hk0) as Hs.
        rewrite Hv in Hs. cbn in Hs. pose proof (set_outcome linux c d k0 value) as [Ho1 Ho2].
        rewrite Hset in Ho1, Ho2. cbn in Ho1, Ho2. split; [done|]. rewrite Hs. by apply Ho2.
    + intros Hv. pose proof (apply_variables_setting linux get vars c k0 Hk0) as Hs. by rewrite Hv in Hs.
  - assert (key ≠ k0) as Hne.
    { intros ->. apply Hk0. apply list_elem_of_fmap. by exists (variable, k0). }
    destruct (get v0) as [value0|] eqn:Hg0; [|by apply IH].
    destruct (String.eqb (trim value0) ""); [by apply IH|].
    pose proof (set_setting linux c k0 value0 key Hne) as Hs.
    destruct (set linux c k0 value0) as [[[]|?] c1]; [|done]. cbn in Hs.
    intros Hv. specialize (IH c1 Hnd Hin Hv). rewrite Hs in IH. exact IH.
Qed.

Lemma environment_takes_precedence_witness :
  let get := λ name, if String.eqb name "BOSN_RUNNER_SLOTS" then Some "6" else None in
  let c' := (apply_env true (defaults true (Some 16)) get).2 in
  ∀ d, (set true d "slots" "6").1 = Ok () ∧ setting c' "slots" = setting (set true d "slots" "6").2 "slots".
Proof.
  intros get c'.
  apply (environment_takes_precedence true (defaults true (Some 16)) c' get "BOSN_RUNNER_SLOTS" "slots").
  - left.
  - vm_compute. reflexivity.
Defined.
