(* ===== verification/Owners.v ===== *)
(** * Owners: the client processes that keep daemon work alive

    The model of [bosn-service/src/owner.rs]. [ClientOwner] is a process identity
    (PID and creation key), with its wire form, its reading back from the bytes an
    identity hashes to and its liveness check. [Owners] is the table of owners per
    job, [OwnersTable] here, generic in the job key. The process table, the [/proc]
    files and the hash layout are parameters of the definitions that read them. The
    liveness callback of [orphaned] is an [FnMut]: it may answer by everything it was
    asked before, so it takes the history of its own calls. *)

From Stdlib Require Import Ascii.
From stdpp Require Import pretty.
From S2P Require Export Text.

Local Open Scope string_scope.
Local Open Scope list_scope.
Local Open Scope Z_scope.
Local Open Scope bosn_scope.

Record ClientOwner := { co_pid : Z; co_created : Z * Z }.

#[global] Instance ClientOwner_eq_dec : EqDecision ClientOwner.
Proof. solve_decision. Defined.
#[global] Instance ClientOwner_countable : Countable ClientOwner.
Proof.
  refine (inj_countable' (λ o, (co_pid o, co_created o))
            (λ p, {| co_pid := p.1; co_created := p.2 |}) _).
  by intros [].
Defined.

(** The derived order: field by field. *)
Definition owner_cmp : ClientOwner → ClientOwner → comparison :=
  cmp_then (cmp_on co_pid Z.compare)
    (cmp_then (cmp_on (λ o, (co_created o).1) Z.compare)
              (cmp_on (λ o, (co_created o).2) Z.compare)).

Inductive Liveness := Alive | Gone | Unknown.
#[global] Instance Liveness_eq_dec : EqDecision Liveness.
Proof. solve_decision. Defined.

(** ** The wire form *)

Inductive OwnerError := InvalidOwnerIdentity.

Definition to_wire (owner : option ClientOwner) : Z * list Z :=
  match owner with
  | None => (0, [])
  | Some o => (co_pid o, [(co_created o).1; (co_created o).2])
  end.

Definition from_wire (pid : Z) (created : list Z) : result OwnerError (option ClientOwner) :=
  match created with
  | [] => if pid =? 0 then Ok None else Err InvalidOwnerIdentity
  | [a; b] =>
      if 1 <=? pid then Ok (Some {| co_pid := pid; co_created := (a, b) |})
      else Err InvalidOwnerIdentity
  | _ => Err InvalidOwnerIdentity
  end.

(** ** Reading an identity and checking its liveness *)

(** Native-endian (little-endian) bytes of an [n]-byte integer, and back. *)
Fixpoint le_bytes (n : nat) (z : Z) : list Z :=
  match n with O => [] | S n' => z mod 256 :: le_bytes n' (z / 256) end.
Fixpoint from_le_bytes (l : list Z) : Z :=
  match l with [] => 0 | b :: l' => b + 256 * from_le_bytes l' end.

(** [size_of::<usize>()]. *)
Definition word : nat := 8.

(** kernal-api's opaque identity: its PID and the bytes its [Hash] writes. *)
Record ProcessIdentity := { pi_pid : Z; pi_hash : list Z }.
Inductive ProcessIdentityCapture :=
| Found (identity : ProcessIdentity)
| Exited
| Unavailable
| CaptureError.

Definition of_identity (identity : ProcessIdentity) : option ClientOwner :=
  let bytes := pi_hash identity in
  if (length bytes <? 4)%nat then None
  else
    let pid := take 4 bytes in
    let rest := drop 4 bytes in
    if negb (from_le_bytes pid =? pi_pid identity) || negb (length rest =? word + 16)%nat then None
    else
      let len := take word rest in
      let key := drop word rest in
      if bool_decide (len ≠ le_bytes word 2) then None
      else Some {| co_pid := pi_pid identity;
                   co_created := (from_le_bytes (take 8 key), from_le_bytes (drop 8 key)) |}.

(** The state letter of [/proc/<pid>/stat] follows the last parenthesis. *)
Definition zombie (proc_stat : Z → option string) (pid : Z) : bool :=
  is_some_and (proc_stat pid) (λ stat,
    match rsplit_once ")" stat with
    | Some (_, rest) =>
        match trim_start rest with
        | String a _ => Ascii.eqb a "Z" || Ascii.eqb a "X"
        | EmptyString => false
        end
    | None => false
    end).

Section liveness.
Context (capture_identity : Z → ProcessIdentityCapture) (proc_stat : Z → option string).

Definition of_pid (pid : Z) : option ClientOwner :=
  match capture_identity pid with Found identity => of_identity identity | _ => None end.

Definition owner_liveness (self : ClientOwner) : Liveness :=
  match capture_identity (co_pid self) with
  | Exited => Gone
  | Found identity =>
      match of_identity identity with
      | Some current =>
          if bool_decide (current ≠ self) then Gone
          else if zombie proc_stat (co_pid self) then Gone
          else Alive
      | None => Unknown
      end
  | Unavailable | CaptureError => Unknown
  end.
End liveness.

(** ** The owners of each piece of work *)

Notation OwnersTable K := (gmap K (gset ClientOwner)).

Section table.
Context {K : Type} `{Countable K} (cmp : K → K → comparison).

Definition submitted (owned : OwnersTable K) (key : K) (owner : option ClientOwner)
    (created : bool) : OwnersTable K :=
  match owner, created with
  | Some owner, true => <[key := {[ owner ]}]> owned
  | Some owner, false =>
      match owned !! key with
      | Some owners => <[key := {[ owner ]} ∪ owners]> owned
      | None => owned
      end
  | None, _ => delete key owned
  end.

Definition release (owned : OwnersTable K) (key : K) (owner : ClientOwner) : OwnersTable K * bool :=
  match owned !! key with
  | None => (owned, false)
  | Some owners =>
      let removed := bool_decide (owner ∈ owners) in
      let owners' := owners ∖ {[ owner ]} in
      let owned' := <[key := owners']> owned in
      if negb removed || negb (bool_decide (owners' = ∅)) then (owned', false)
      else (delete key owned', true)
  end.

Definition forget (owned : OwnersTable K) (key : K) : OwnersTable K := delete key owned.

Definition owners_is_empty (owned : OwnersTable K) : bool := bool_decide (owned = ∅).

(** A [BTreeSet]'s iteration. *)
Definition owners_iter (owners : gset ClientOwner) : list ClientOwner :=
  sort_by owner_cmp (elements owners).

(** The calls the callback has answered, latest first. *)
Definition history := list (ClientOwner * Liveness).

Record sweep := { sw_seen : gmap ClientOwner bool; sw_history : history }.

Section sweeping.
Context (liveness : history → ClientOwner → Liveness).

(** The [gone] closure: one lookup per distinct owner. *)
Definition gone (owner : ClientOwner) (s : sweep) : bool * sweep :=
  match sw_seen s !! owner with
  | Some b => (b, s)
  | None =>
      let answer := liveness (sw_history s) owner in
      let b := bool_decide (answer = Gone) in
      (b, {| sw_seen := <[owner := b]> (sw_seen s);
             sw_history := (owner, answer) :: sw_history s |})
  end.

(** [Iterator::all] stops at the first owner that is not gone. *)
Fixpoint all_gone (owners : list ClientOwner) (s : sweep) : bool * sweep :=
  match owners with
  | [] => (true, s)
  | o :: owners' =>
      let '(b, s) := gone o s in
      if b then all_gone owners' s else (false, s)
  end.

Fixpoint orphaned_keys (entries : list (K * gset ClientOwner)) (s : sweep) : list K * sweep :=
  match entries with
  | [] => ([], s)
  | (key, owners) :: entries' =>
      let '(b, s) := all_gone (owners_iter owners) s in
      let '(keys, s) := orphaned_keys entries' s in
      (if b then key :: keys else keys, s)
  end.

Fixpoint remove_orphaned (keys : list K) (owned : OwnersTable K) :
    list (K * list Z) * OwnersTable K :=
  match keys with
  | [] => ([], owned)
  | key :: keys' =>
      match owned !! key with
      | None => remove_orphaned keys' owned
      | Some owners =>
          let '(out, owned') := remove_orphaned keys' (delete key owned) in
          ((key, co_pid <$> owners_iter owners) :: out, owned')
      end
  end.

Definition orphaned (owned : OwnersTable K) : list (K * list Z) * OwnersTable K * history :=
  let '(keys, s) := orphaned_keys (btree_iter cmp owned) {| sw_seen := ∅; sw_history := [] |} in
  let '(out, owned') := remove_orphaned keys owned in
  (out, owned', sw_history s).
End sweeping.
End table.

#[global] Hint Unfold submitted forget : bosn.

(** The log line for work cancelled because its owners are gone. *)
Definition orphaned_message (pids : list Z) : string :=
  "cancelled: the client that started this (pid "
  +:+ str_join ", " (pretty <$> pids)
  +:+ ") exited; use --detach to keep work running after its client".

(** ** Operations of the table as a sequence of steps *)

Inductive owners_op (K : Type) :=
| OpSubmitted (key : K) (owner : option ClientOwner) (created : bool)
| OpRelease (key : K) (owner : ClientOwner)
| OpForget (key : K)
| OpSweep (liveness : history → ClientOwner → Liveness).
Arguments OpSubmitted {K} key owner created.
Arguments OpRelease {K} key owner.
Arguments OpForget {K} key.
Arguments OpSweep {K} liveness.

Definition owners_step {K} `{Countable K} (cmp : K → K → comparison)
    (owned : OwnersTable K) (op : owners_op K) : OwnersTable K :=
  match op with
  | OpSubmitted key owner created => submitted owned key owner created
  | OpRelease key owner => (release owned key owner).1
  | OpForget key => forget owned key
  | OpSweep liveness => (orphaned cmp liveness owned).1.2
  end.

(** ** Identity: wire form and layout *)

(** The wire form loses nothing, and only well-formed fields parse. *)
Theorem owner_wire_roundtrip pid created r :
  0 ≤ pid →
  from_wire pid created = Ok r ↔
  to_wire r = (pid, created) ∧ from_option (λ o, 1 ≤ co_pid o) True r.
Proof.
  intros Hpid. destruct r as [[p [a b]]|]; simpl; split.
  - destruct created as [|c [|d [|]]]; simpl; try done; case_match; try done.
    intros [= -> -> ->]. booleans. done.
  - intros [[= <- <-] Hp]. simpl. apply Z.leb_le in Hp. by rewrite Hp.
  - destruct created as [|c [|d [|]]]; simpl; try done; case_match; try done.
    intros _. booleans. by subst.
  - by intros [[= <- <-] _].
Qed.

Lemma owner_wire_roundtrip_witness :
  to_wire (Some {| co_pid := 7; co_created := (3, 9) |}) = (7, [3; 9]) ∧
  from_option (λ o, 1 ≤ co_pid o) True (Some {| co_pid := 7; co_created := (3, 9) |}).
Proof. apply (owner_wire_roundtrip 7 [3; 9]); [lia|reflexivity]. Defined.

Lemma length_le_bytes n z : length (le_bytes n z) = n.
Proof. revert z. induction n as [|n IH]; intros z; simpl; [done|]. by rewrite IH. Qed.

Lemma from_le_bytes_le_bytes n z :
  0 ≤ z < 256 ^ Z.of_nat n → from_le_bytes (le_bytes n z) = z.
Proof.
  revert z. induction n as [|n IH]; intros z Hz.
  - change (256 ^ Z.of_nat 0) with 1 in Hz. simpl. lia.
  - cbn [le_bytes from_le_bytes]. rewrite Nat2Z.inj_succ, Z.pow_succ_r in Hz by lia.
    rewrite IH; [pose proof (Z.div_mod z 256); lia|].
    split; [apply Z.div_pos; lia|apply Z.div_lt_upper_bound; lia].
Qed.

(** An identity that hashes as documented (PID, key length, two key words) reads back as
    exactly that PID and key. *)
Theorem of_identity_documented_layout pid a b :
  0 ≤ pid < 2 ^ 32 → 0 ≤ a < 2 ^ 64 → 0 ≤ b < 2 ^ 64 →
  of_identity {| pi_pid := pid;
                 pi_hash := le_bytes 4 pid ++ le_bytes word 2 ++ le_bytes 8 a ++ le_bytes 8 b |}
  = Some {| co_pid := pid; co_created := (a, b) |}.
Proof.
  intros Hpid Ha Hb. unfold of_identity. cbn [pi_hash pi_pid].
  rewrite !length_app, !length_le_bytes. change (_ <? 4)%nat with false. cbn iota.
  rewrite !(take_app_length' (le_bytes 4 pid)), !(drop_app_length' (le_bytes 4 pid)),
    from_le_bytes_le_bytes
    by first [by rewrite length_le_bytes|by change (256 ^ Z.of_nat 4) with (2 ^ 32)].
  rewrite Z.eqb_refl, !length_app, !length_le_bytes. cbn [negb orb Nat.eqb Nat.add word].
  rewrite (take_app_length' (le_bytes 8 2)), (drop_app_length' (le_bytes 8 2))
    by (by rewrite length_le_bytes).
  rewrite bool_decide_false by tauto.
  rewrite (take_app_length' (le_bytes 8 a)), (drop_app_length' (le_bytes 8 a))
    by (by rewrite length_le_bytes).
  rewrite !from_le_bytes_le_bytes by (change (256 ^ Z.of_nat 8) with (2 ^ 64); lia). done.
Qed.

Lemma of_identity_documented_layout_witness :
  of_identity {| pi_pid := 4242;
                 pi_hash := le_bytes 4 4242 ++ le_bytes word 2 ++ le_bytes 8 7 ++ le_bytes 8 9 |}
  = Some {| co_pid := 4242; co_created := (7, 9) |}.
Proof. apply (of_identity_documented_layout 4242 7 9); lia. Defined.

(** Only proof of exit makes an owner gone: the process exited, its PID now names another
    process, or it is a zombie. A host that will not say never does. *)
Theorem owner_gone_iff capture_identity proc_stat self :
  owner_liveness capture_identity proc_stat self = Gone ↔
  capture_identity (co_pid self) = Exited ∨
  ∃ identity current,
    capture_identity (co_pid self) = Found identity ∧
    of_identity identity = Some current ∧
    (current ≠ self ∨ zombie proc_stat (co_pid self) = true).
Proof.
  unfold owner_liveness.
  destruct (capture_identity (co_pid self)) as [identity| | |]; [|naive_solver..].
  destruct (of_identity identity) as [current|] eqn:Hof; [|naive_solver].
  case_bool_decide as Hne; [naive_solver|].
  destruct (zombie proc_stat (co_pid self)) eqn:Hz; naive_solver.
Qed.

Example zombie_example :
  zombie (λ _, Some "12 (a) b) Z 1 2") 12 = true ∧ zombie (λ _, Some "12 (Z) S 1 2") 12 = false.
Proof. vm_compute. done. Qed.

(** ** The sweep *)

Lemma elem_of_owners_iter o owners : o ∈ owners_iter owners ↔ o ∈ owners.
Proof. unfold owners_iter. by rewrite elem_of_sort_by, elem_of_elements. Qed.

Section sweep_lemmas.
Context {K : Type} `{Countable K} (cmp : K → K → comparison).
Context (liveness : history → ClientOwner → Liveness).

(** Every owner of the history was asked once, was answered by the callback, and the cache
    holds its verdict. *)
Record sweep_inv (s : sweep) : Prop := {
  si_once : NoDup (sw_history s).*1;
  si_answers : ∀ h1 o a h2, sw_history s = h1 ++ (o, a) :: h2 → a = liveness h2 o;
  si_seen : ∀ o b, sw_seen s !! o = Some b →
    ∃ a, (o, a) ∈ sw_history s ∧ b = bool_decide (a = Gone);
  si_unseen : ∀ o, sw_seen s !! o = None → o ∉ (sw_history s).*1;
}.

Definition dead (h : history) (o : ClientOwner) : Prop := (o, Gone) ∈ h.
#[local] Instance dead_dec h o : Decision (dead h o).
Proof. unfold dead, history in *. apply _. Defined.
Definition all_dead (h : history) (owners : gset ClientOwner) : Prop :=
  set_Forall (dead h) owners.
#[local] Instance all_dead_dec h owners : Decision (all_dead h owners).
Proof. unfold all_dead. apply _. Defined.

Lemma sweep_inv_answer s o a a' :
  sweep_inv s → (o, a) ∈ sw_history s → (o, a') ∈ sw_history s → a = a'.
Proof.
  intros [Hnd _ _ _] Ha Ha'. apply list_elem_of_lookup in Ha as [i Hi], Ha' as [j Hj].
  assert (i = j) as ->; [|naive_solver].
  eapply NoDup_lookup; [exact Hnd|rewrite list_lookup_fmap, Hi; done|].
  by rewrite list_lookup_fmap, Hj.
Qed.

Lemma gone_spec o s b s' :
  sweep_inv s → gone liveness o s = (b, s') →
  sweep_inv s' ∧ sw_history s `suffix_of` sw_history s' ∧
  ∃ a, (o, a) ∈ sw_history s' ∧ b = bool_decide (a = Gone).
Proof.
  intros Hs. pose proof Hs as [Hnd Hans Hseen Hun]. unfold gone.
  destruct (sw_seen s !! o) as [b0|] eqn:Ho; intros [= <- <-].
  { split_and!; [done|done|by apply Hseen]. }
  split_and!.
  - split; cbn [sw_history sw_seen].
    + rewrite fmap_cons. apply NoDup_cons. split; [by apply Hun|done].
    + intros [|[o1 a1] h1] o' a h2; simpl; intros [=]; subst; [done|by eapply Hans].
    + intros o' b'. rewrite lookup_insert_Some. intros [[<- <-]|[_ Hb]].
      * eexists. split; [left|done].
      * apply Hseen in Hb as (a & ? & ?). exists a. split; [by right|done].
    + intros o'. rewrite lookup_insert_None, fmap_cons, not_elem_of_cons.
      intros [? ?]. split; [by apply not_eq_sym|by apply Hun].
  - by eexists [_].
  - eexists. split; [left|done].
Qed.

Lemma all_gone_spec owners s b s' :
  sweep_inv s → all_gone liveness owners s = (b, s') →
  sweep_inv s' ∧ sw_history s `suffix_of` sw_history s' ∧
  if b then ∀ o, o ∈ owners → dead (sw_history s') o
  else ∃ o a, o ∈ owners ∧ (o, a) ∈ sw_history s' ∧ a ≠ Gone.
Proof.
  revert s. induction owners as [|o owners IH]; intros s Hs; simpl.
  { intros [= <- <-]. split_and!; [done|done|]. by intros o ?%elem_of_nil. }
  destruct (gone liveness o s) as [b1 s1] eqn:Hg.
  apply gone_spec in Hg as (Hs1 & Hsuf1 & a & Ha & Hb1); [|done].
  destruct b1; intros Hrest.
  - apply IH in Hrest as (Hs' & Hsuf & Hrest); [|done].
    symmetry in Hb1. apply bool_decide_eq_true_1 in Hb1. subst a.
    split_and!; [done|by etrans|]. destruct b.
    + intros o' [->|?]%elem_of_cons; [|by apply Hrest]. eapply elem_of_suffix; eauto.
    + destruct Hrest as (o' & a & ? & ? & ?). exists o', a. split_and!; [by right|done..].
  - injection Hrest as <- <-. split_and!; [done..|]. exists o, a.
    split_and!; [left|done|]. symmetry in Hb1. by apply bool_decide_eq_false_1 in Hb1.
Qed.

(** Whether every owner is dead is settled when its key is visited. *)
Lemma orphaned_keys_spec entries s keys s' :
  sweep_inv s → orphaned_keys liveness entries s = (keys, s') →
  sweep_inv s' ∧ sw_history s `suffix_of` sw_history s' ∧
  keys = (filter (λ e : K * gset ClientOwner, all_dead (sw_history s') e.2) entries).*1.
Proof.
  revert s keys s'. induction entries as [|[k owners] entries IH]; intros s keys s' Hs; simpl.
  { by intros [= <- <-]. }
  destruct (all_gone liveness (owners_iter owners) s) as [b s1] eqn:Hall.
  apply all_gone_spec in Hall as (Hs1 & Hsuf1 & Hall); [|done].
  destruct (orphaned_keys liveness entries s1) as [keys1 s2] eqn:Hrest.
  apply IH in Hrest as (Hs2 & Hsuf2 & ->); [|done]. intros [= <- <-].
  split_and!; [done|by etrans|]. rewrite filter_cons. cbn [snd].
  destruct b.
  - rewrite decide_True; [done|]. intros o Ho.
    eapply elem_of_suffix; [apply Hall; by apply elem_of_owners_iter|done].
  - rewrite decide_False; [done|]. intros Hdead.
    destruct Hall as (o & a & Ho & Ha & Hne). apply Hne.
    apply (sweep_inv_answer s2 o); [done|eapply elem_of_suffix; eauto|].
    apply Hdead. by apply elem_of_owners_iter.
Qed.

Lemma remove_orphaned_spec (keys : list K) (owned : OwnersTable K) out owned' :
  NoDup keys → remove_orphaned keys owned = (out, owned') →
  (∀ k pids, (k, pids) ∈ out ↔ k ∈ keys ∧ ∃ owners,
     owned !! k = Some owners ∧ pids = co_pid <$> owners_iter owners) ∧
  (∀ k owners, owned' !! k = Some owners ↔ owned !! k = Some owners ∧ k ∉ keys).
Proof.
  clear cmp liveness.
  revert owned out owned'. induction keys as [|k keys IH]; intros owned out owned' Hnd; simpl.
  { intros [= <- <-]. split; intros; rewrite ?elem_of_nil; naive_solver. }
  apply NoDup_cons in Hnd as [Hk Hnd].
  destruct (owned !! k) as [owners|] eqn:Ho.
  - destruct (remove_orphaned keys (delete k owned)) as [out1 owned1] eqn:Hr.
    apply IH in Hr as [Hin Hl]; [|done]. intros [= <- <-]. split.
    + intros k' pids. rewrite elem_of_cons, Hin, elem_of_cons.
      setoid_rewrite lookup_delete_Some. split; [naive_solver|].
      intros [[->|Hk'] (os & Hos & ->)]; [left; congruence|right].
      split; [done|]. exists os. split_and!; [by intros ->|done|done].
    + intros k' os. rewrite Hl, lookup_delete_Some, not_elem_of_cons. naive_solver.
  - intros Hr. apply IH in Hr as [Hin Hl]; [|done]. split.
    + intros k' pids. rewrite Hin, elem_of_cons. split; [naive_solver|].
      intros [[->|Hk'] (os & Hos & ->)]; [congruence|naive_solver].
    + intros k' os. rewrite Hl, not_elem_of_cons. split; [|naive_solver].
      intros [Hos ?]. split_and!; [done| |done]. intros ->. congruence.
Qed.

Lemma orphaned_keys_NoDup (entries : list (K * gset ClientOwner)) s :
  NoDup entries.*1 → sweep_inv s → NoDup (orphaned_keys liveness entries s).1.
Proof.
  intros Hnd Hs. destruct (orphaned_keys liveness entries s) as [keys s'] eqn:Hk.
  apply orphaned_keys_spec in Hk as (_ & _ & ->); [|done]. simpl.
  eapply sublist_NoDup; [exact Hnd|]. apply fmap_sublist, sublist_filter.
Qed.

Lemma sweep_inv_start : sweep_inv {| sw_seen := ∅; sw_history := [] |}.
Proof.
  split; cbn; [constructor| | |].
  - intros [|? ?] ? ? ?; discriminate.
  - intros o b. rewrite lookup_empty. discriminate.
  - intros o _. apply not_elem_of_nil.
Qed.
End sweep_lemmas.

Definition owners_nonempty {K} `{Countable K} (owned : OwnersTable K) : Prop :=
  ∀ k owners, owned !! k = Some owners → owners ≠ ∅.

Lemma release_keeps_absent {K} `{Countable K} (owned : OwnersTable K) key owner k :
  owned !! k = None → (release owned key owner).1 !! k = None.
Proof.
  intros Hk. unfold release. destruct (owned !! key) as [owners|] eqn:Ho; [|done].
  assert (key ≠ k) by congruence.
  case_match; simpl; by rewrite ?lookup_delete_ne, lookup_insert_ne.
Qed.

Lemma release_nonempty {K} `{Countable K} (owned : OwnersTable K) key owner :
  owners_nonempty owned → owners_nonempty (release owned key owner).1.
Proof.
  intros Hne. unfold release. destruct (owned !! key) as [owners|] eqn:Ho; [|done].
  pose proof (Hne key owners Ho). case_match eqn:E; simpl; intros k os.
  - rewrite lookup_insert_Some. intros [[_ <-]|[_ ?]]; [|by eapply Hne].
    booleans. destruct E as [E|E]; booleans; [set_solver|done].
  - rewrite lookup_delete_Some. intros [? Hos]. rewrite lookup_insert_ne in Hos by done.
    by eapply Hne.
Qed.

Lemma orphaned_shrinks {K} `{Countable K} (cmp : K → K → comparison) liveness
    (owned : OwnersTable K) k owners :
  (orphaned cmp liveness owned).1.2 !! k = Some owners → owned !! k = Some owners.
Proof.
  unfold orphaned. destruct (orphaned_keys liveness _ _) as [keys s].
  destruct (remove_orphaned keys owned) as [out owned'] eqn:Hr. simpl. clear s.
  revert owned out Hr. induction keys as [|key keys IH]; intros owned out; simpl.
  { by intros [= <- <-]. }
  destruct (owned !! key) eqn:Hkey; [|by intros Hr; apply (IH _ _ Hr)].
  destruct (remove_orphaned keys (delete key owned)) as [out1 owned1] eqn:Hr.
  intros [= <- <-] Ho. eapply IH in Ho; [|exact Hr]. by apply lookup_delete_Some in Ho as [_ ?].
Qed.

(** One sweep of the owners: it looks each distinct owner up at most once, and takes away
    exactly the work every owner of which was answered [Gone], with those owners' PIDs;
    everything else stays as it was. *)
Theorem orphaned_exact {K} `{Countable K} (cmp : K → K → comparison) liveness
    (owned : OwnersTable K) :
  let '(out, owned', asked) := orphaned cmp liveness owned in
  NoDup asked.*1 ∧
  (∀ h1 o a h2, asked = h1 ++ (o, a) :: h2 → a = liveness h2 o) ∧
  (∀ k pids, (k, pids) ∈ out ↔ ∃ owners, owned !! k = Some owners ∧
     (∀ o, o ∈ owners → (o, Gone) ∈ asked) ∧ pids = co_pid <$> owners_iter owners) ∧
  (∀ k owners, owned' !! k = Some owners ↔ owned !! k = Some owners ∧
     ¬ (∀ o, o ∈ owners → (o, Gone) ∈ asked)).
Proof.
  unfold orphaned.
  pose proof (orphaned_keys_NoDup liveness (btree_iter cmp owned) _
    (NoDup_btree_keys cmp owned) (sweep_inv_start liveness)) as Hnd.
  destruct (orphaned_keys liveness (btree_iter cmp owned) _) as [keys s] eqn:Hk.
  apply orphaned_keys_spec in Hk as ([Honce Hans _ _] & _ & Hkeys); [|apply sweep_inv_start].
  destruct (remove_orphaned keys owned) as [out owned'] eqn:Hr.
  destruct (remove_orphaned_spec keys owned out owned' Hnd Hr) as [Hin Hl].
  assert (∀ k owners, owned !! k = Some owners →
            k ∈ keys ↔ ∀ o, o ∈ owners → (o, Gone) ∈ sw_history s) as Hmem.
  { intros k owners Ho. rewrite Hkeys, list_elem_of_fmap. split.
    - intros ([k' os] & -> & [Hd Hos]%list_elem_of_filter).
      apply elem_of_btree_iter in Hos. simpl in *. rewrite Ho in Hos. by injection Hos as <-.
    - intros Hd. exists (k, owners). rewrite list_elem_of_filter, elem_of_btree_iter. done. }
  split_and!; [done|done| |].
  - intros k pids. rewrite Hin. split.
    + intros [Hkin (owners & Ho & ->)]. exists owners. by rewrite <-(Hmem k).
    + intros (owners & Ho & Hd & ->). rewrite (Hmem k owners Ho). eauto.
  - intros k owners. rewrite Hl. split; intros [Ho Hn]; (split; [done|]);
      by rewrite (Hmem k owners Ho) in *.
Qed.

(** [release] cancels the work exactly when the owner let go was its only one, and then no
    owner is left recorded; otherwise that owner alone is dropped. *)
Theorem release_last_owner {K} `{Countable K} (owned : OwnersTable K) key owner :
  let '(owned', cancel) := release owned key owner in
  (cancel = true ↔ owned !! key = Some {[ owner ]}) ∧
  owned' !! key =
    (if cancel then None else (λ owners, owners ∖ {[ owner ]}) <$> owned !! key) ∧
  ∀ k, k ≠ key → owned' !! k = owned !! k.
Proof.
  unfold release. destruct (owned !! key) as [owners|] eqn:Ho; [|by rewrite Ho].
  destruct (negb (bool_decide (owner ∈ owners)) ||
            negb (bool_decide (owners ∖ {[owner]} = ∅))) eqn:E.
  - split_and!.
    + split; [done|]. intros [= ->]. rewrite !bool_decide_true in E by set_solver. done.
    + by rewrite lookup_insert_eq.
    + intros k Hk. by rewrite lookup_insert_ne.
  - booleans. split_and!.
    + split; [|done]. intros _. f_equal. apply set_eq. intros o. split; [|set_solver].
      intros Hin. destruct (decide (o = owner)) as [->|]; set_solver.
    + by rewrite lookup_delete_eq.
    + intros k Hk. by rewrite lookup_delete_ne, lookup_insert_ne.
Qed.

(** Shared work never becomes ownerless by accident: every recorded owner set stays non-empty
    across submissions, releases, endings and sweeps, so work is only ever orphaned by a
    positive answer [Gone]. *)
Theorem owners_stay_nonempty {K} `{Countable K} (cmp : K → K → comparison)
    (ops : list (owners_op K)) :
  owners_nonempty (foldl (owners_step cmp) ∅ ops).
Proof.
  assert (∀ owned, owners_nonempty owned → owners_nonempty (foldl (owners_step cmp) owned ops))
    as Hall; [|by apply Hall; intros k o; rewrite lookup_empty].
  induction ops as [|op ops IH]; intros owned Hne; [done|]. simpl. apply IH. clear IH ops.
  destruct op as [key owner created|key owner|key|liveness]; simpl; intros k owners.
  - unfold submitted. destruct owner as [owner|]; [destruct created|].
    + rewrite lookup_insert_Some. intros [[_ <-]|[_ ?]]; [set_solver|by eapply Hne].
    + destruct (owned !! key); [|by apply Hne].
      rewrite lookup_insert_Some. intros [[_ <-]|[_ ?]]; [set_solver|by eapply Hne].
    + rewrite lookup_delete_Some. intros [_ ?]. by eapply Hne.
  - by apply release_nonempty.
  - unfold forget. rewrite lookup_delete_Some. intros [_ ?]. by eapply Hne.
  - intros Ho. by eapply Hne, orphaned_shrinks.
Qed.

(** Work that is unowned (detached, or pinned by a detached joiner) stays unowned, hence is
    never cancelled for a dead client, until a submission creates it anew: no join, release,
    ending or sweep gives it an owner. *)
Theorem unowned_stays_unowned {K} `{Countable K} (cmp : K → K → comparison)
    (ops : list (owners_op K)) (owned : OwnersTable K) k :
  Forall (λ op, ∀ owner, op ≠ OpSubmitted k (Some owner) true) ops →
  owned !! k = None →
  foldl (owners_step cmp) owned ops !! k = None.
Proof.
  intros Hops. revert owned. induction Hops as [|op ops Hop Hops IH]; intros owned Hk; [done|].
  simpl. apply IH. destruct op as [key owner created|key owner|key|liveness]; simpl.
  - unfold submitted. destruct owner as [owner|]; [destruct created|].
    + rewrite lookup_insert_ne; [done|]. intros ->. by apply (Hop owner).
    + destruct (owned !! key) as [owners|] eqn:Hkey; [|done].
      rewrite lookup_insert_ne; [done|]. congruence.
    + apply lookup_delete_None. by right.
  - by apply release_keeps_absent.
  - apply lookup_delete_None. by right.
  - apply eq_None_not_Some. intros [owners Ho%orphaned_shrinks]. congruence.
Qed.

(** A detached submission creates job 7, an attached client joins and leaves, a sweep finds
    everyone gone: nothing made the job cancellable. *)
Lemma unowned_stays_unowned_witness :
  foldl (owners_step Z.compare) (∅ : OwnersTable Z)
    [ OpSubmitted 7 None true;
      OpSubmitted 7 (Some {| co_pid := 1; co_created := (2, 3) |}) false;
      OpRelease 7 {| co_pid := 1; co_created := (2, 3) |};
      OpSweep (λ _ _, Gone) ] !! 7 = None.
Proof.
  apply (unowned_stays_unowned Z.compare).
  - repeat constructor; intros owner; discriminate.
  - reflexivity.
Defined.
