(* ===== verification/CiLimits.v ===== *)
(** * CiLimits: how large a CI engine may grow

    The model of [bosn-service/src/ci/limits.rs] (sizing an engine from its host, the
    configuration's overrides and the engines already running) with the bounds the engine layer
    enforces ([act_engine/create.rs], [ActEngineLimits::validate]) and the engine record the
    reservation reads ([ci/machine.rs], [Foreign]). Byte counts are [u64]; the arithmetic keeps
    the source's saturating, checked and plain operations, the plain ones wrapping as a release
    build does. *)

From Stdlib Require Import Ascii.
From S2P Require Export Text.

Local Open Scope string_scope.
Local Open Scope list_scope.
Local Open Scope Z_scope.
Local Open Scope bosn_scope.

Definition GIB : Z := 2 ^ 30.
Definition MEMORY_FLOOR : Z := 4 * GIB.
Definition MEMORY_CEILING : Z := 48 * GIB.
Definition MEMORY_STEP : Z := 4 * GIB.
Definition MEMORY_HEADROOM : Z := 2 * GIB.
Definition STORAGE_FLOOR : Z := GIB.
Definition DISK_MARGIN : Z := 16 * GIB.
Definition DISK_STORAGE_CEILING : Z := 128 * GIB.
Definition DISK_STORAGE_FLOOR : Z := 24 * GIB.
Definition DISK_STORAGE_UNKNOWN : Z := 64 * GIB.
Definition DISK_STEP : Z := 8 * GIB.
Definition CPU_CEILING : Z := 8.
Definition DEFAULT_PIDS : Z := 4096.

Definition u64_clamp (z lo hi : Z) : Z := Z.min (Z.max z lo) hi.

(** ** The engine layer's limits *)

Inductive EngineStorage := StoreMemory | StoreDisk.
#[global] Instance EngineStorage_eq_dec : EqDecision EngineStorage.
Proof. solve_decision. Defined.

Record ActEngineLimits := {
  al_memory_bytes : Z;
  al_storage_bytes : Z;
  al_storage : EngineStorage;
  al_nano_cpus : Z;
  al_pids : Z;
}.

(** The part of the memory limit the engine's mounts take. *)
Definition in_memory (l : ActEngineLimits) : Z :=
  match al_storage l with
  | StoreMemory => al_storage_bytes l
  | StoreDisk => 16 * 2 ^ 20 + 64 * 2 ^ 20
  end.

Definition limits_validate (l : ActEngineLimits) : bool :=
  negb ((al_storage_bytes l <? 2 ^ 20)
        || (i64_max <? al_storage_bytes l)
        || (u64_saturating_sub (al_memory_bytes l) (in_memory l) <? 512 * 2 ^ 20)
        || (i64_max <? al_memory_bytes l)
        || (al_nano_cpus l <? 1000000)
        || (256000000000 <? al_nano_cpus l)
        || (al_pids l =? 0)
        || (65536 <? al_pids l)).

(** ** The host *)

Record HostResources := {
  hr_total_memory : Z;
  hr_available_memory : Z;
  hr_cpus : Z;
  hr_available_disk : option Z;
}.

Inductive LimitsError :=
| UnexpectedInfo (info : string)
| NotAByteCount (total : string)
| NotACount (cpus : string)
| EmptyHost (info : string)
| OutOfRange (what : string)
| PinnedDiskTooLarge (pinned needed margin free : Z)
| DiskTooSmall (free needed margin : Z)
| RefusedLimits (limits : ActEngineLimits)
| NoRoom (wanted headroom remaining reserved : Z).

Record Meminfo := { mi_total : Z; mi_available : Z }.

(** The closure [field] of [Meminfo::parse] on one line, and on the text. *)
Definition meminfo_line (name line : string) : option Z :=
  rest ← strip_prefix name line;
  rest ← strip_prefix ":" rest;
  kib ← strip_suffix "kB" (trim rest);
  kib ← parse_u64 (trim kib);
  checked_mul kib 1024.
Definition meminfo_field (text name : string) : option Z :=
  head (omap (meminfo_line name) (lines text)).
Definition Meminfo_parse (text : string) : option Meminfo :=
  total ← meminfo_field text "MemTotal";
  available ← meminfo_field text "MemAvailable";
  Some {| mi_total := total; mi_available := available |}.

(** The third field of [docker info], when it is not blank. *)
Definition docker_root (fields : list string) : option string :=
  match fields with
  | _ :: _ :: root :: _ => let root := trim root in if String.eqb root "" then None else Some root
  | _ => None
  end.

Definition HostResources_parse (info : string) (meminfo : option string)
    (free_disk : string → option Z) : result LimitsError HostResources :=
  match splitn 3 " "%char (trim info) with
  | (total :: cpus :: _) as fields =>
      let root := docker_root fields in
      if is_some_and root (λ root, negb (starts_with "/" root)) then Err (UnexpectedInfo info)
      else
        let? total_memory := ok_or (parse_u64 total) (NotAByteCount total) in
        let? cpus := ok_or (parse_u64 cpus) (NotACount cpus) in
        if (total_memory =? 0) || (cpus =? 0) then Err (EmptyHost info)
        else
          let local := m ← meminfo ≫= Meminfo_parse;
                       if mi_total m =? total_memory then Some m else None in
          let available_memory :=
            match local with
            | Some m => Z.min (mi_available m) total_memory
            | None => total_memory
            end in
          let available_disk := match local with Some _ => root ≫= free_disk | None => None end in
          Ok {| hr_total_memory := total_memory; hr_available_memory := available_memory;
                hr_cpus := cpus; hr_available_disk := available_disk |}
  | _ => Err (UnexpectedInfo info)
  end.

(** ** Sizing *)

Inductive StorageBacking := BackDisk | BackMemory.

Record EngineConfig := {
  ec_memory_gib : option Z;
  ec_storage_gib : option Z;
  ec_storage : option StorageBacking;
  ec_cpus : option Z;
  ec_pids : option Z;
  ec_spares : option Z;
  ec_shared : option bool;
  ec_idle_retire_secs : option Z;
}.
Definition EngineConfig_default : EngineConfig :=
  {| ec_memory_gib := None; ec_storage_gib := None; ec_storage := None; ec_cpus := None;
     ec_pids := None; ec_spares := None; ec_shared := None; ec_idle_retire_secs := None |}.

Definition disk_budget (host : HostResources) (pinned : option Z) : result LimitsError Z :=
  let room := (λ free, u64_saturating_sub free DISK_MARGIN) <$> hr_available_disk host in
  let free := default 0 (hr_available_disk host) / GIB in
  match pinned, room with
  | Some pinned, Some room =>
      if room <? pinned then
        Err (PinnedDiskTooLarge (pinned / GIB) (u64_wrap (pinned + DISK_MARGIN) / GIB)
               (DISK_MARGIN / GIB) free)
      else Ok pinned
  | Some pinned, None => Ok pinned
  | None, None => Ok DISK_STORAGE_UNKNOWN
  | None, Some room =>
      let budget := Z.min room DISK_STORAGE_CEILING / DISK_STEP * DISK_STEP in
      if budget <? DISK_STORAGE_FLOOR then
        Err (DiskTooSmall free ((DISK_STORAGE_FLOOR + DISK_MARGIN) / GIB) (DISK_MARGIN / GIB))
      else Ok budget
  end.

#[global] Arguments disk_budget : simpl never.

Definition gib (value : Z) (what : string) : result LimitsError Z :=
  ok_or (checked_mul value GIB) (OutOfRange what).

(** [Option::transpose]. *)
Definition transpose {E A} (o : option (result E A)) : result E (option A) :=
  match o with
  | None => Ok None
  | Some (Ok a) => Ok (Some a)
  | Some (Err e) => Err e
  end.
Definition result_ok {E A} (r : result E A) : option A :=
  match r with Ok a => Some a | Err _ => None end.

Definition sized_memory (host : HostResources) : Z :=
  u64_clamp
    (Z.min (hr_total_memory host / 2) (hr_available_memory host / 4 * 3) / MEMORY_STEP
       * MEMORY_STEP)
    MEMORY_FLOOR MEMORY_CEILING.

Definition tmpfs_storage (memory_bytes : Z) : Z :=
  Z.max (Z.min (memory_bytes / 4 * 3) (u64_saturating_sub memory_bytes MEMORY_HEADROOM))
        STORAGE_FLOOR.

Definition size_engine (host : HostResources) (config : EngineConfig) :
    result LimitsError ActEngineLimits :=
  let? pinned_storage := transpose ((λ v, gib v "storage_gib") <$> ec_storage_gib config) in
  let? disk :=
    match ec_storage config with
    | Some BackMemory => Ok None
    | Some BackDisk => let? budget := disk_budget host pinned_storage in Ok (Some budget)
    | None => Ok (result_ok (disk_budget host pinned_storage))
    end in
  let? memory_bytes :=
    match ec_memory_gib config, pinned_storage, disk with
    | Some value, _, _ => gib value "memory_gib"
    | None, Some storage, None =>
        Ok (Z.max (sized_memory host) (u64_saturating_add storage (storage / 3)))
    | None, _, _ => Ok (sized_memory host)
    end in
  let '(storage, storage_bytes) :=
    match disk with
    | Some budget => (StoreDisk, budget)
    | None => (StoreMemory, default (tmpfs_storage memory_bytes) pinned_storage)
    end in
  let cpus := default (u64_clamp (hr_cpus host) 1 CPU_CEILING) (ec_cpus config) in
  let limits :=
    {| al_memory_bytes := memory_bytes; al_storage_bytes := storage_bytes;
       al_storage := storage; al_nano_cpus := u64_saturating_mul cpus 1000000000;
       al_pids := default DEFAULT_PIDS (ec_pids config) |} in
  if limits_validate limits then Ok limits else Err (RefusedLimits limits).

(** ** Beside other engines *)

(** An act engine container; [I] is the type of its parsed identity. *)
Record Foreign {I : Type} := {
  fo_id : string;
  fo_name : string;
  fo_running : bool;
  fo_identity : option I;
  fo_registry : string;
  fo_storage_volume : option string;
  fo_memory_bytes : Z;
  fo_nano_cpus : Z;
  fo_pids : Z;
  fo_created : Z;
}.
Arguments Foreign : clear implicits.

Definition counted {I} (excluded : option string) (engine : Foreign I) : bool :=
  fo_running engine && negb (bool_decide (excluded = Some (fo_name engine))).

Definition reserved_engine_memory {I} (engines : list (Foreign I)) (excluded : option string)
    (host_total : Z) : Z :=
  foldl u64_saturating_add 0
    ((λ engine, if fo_memory_bytes engine =? 0 then host_total else fo_memory_bytes engine)
       <$> filterb (counted excluded) engines).

Definition room_for_engine (host_total reserved wanted : Z) : bool :=
  wanted <=? u64_saturating_sub host_total (u64_saturating_add reserved MEMORY_HEADROOM).

Definition size_engine_with_reserved (host : HostResources) (config : EngineConfig)
    (reserved : Z) : result LimitsError ActEngineLimits :=
  let remaining := u64_saturating_sub (hr_total_memory host) reserved in
  let effective :=
    {| hr_total_memory := hr_total_memory host;
       hr_available_memory := Z.min (hr_available_memory host) remaining;
       hr_cpus := hr_cpus host; hr_available_disk := hr_available_disk host |} in
  let? limits := size_engine effective config in
  if negb (room_for_engine (hr_total_memory host) reserved (al_memory_bytes limits)) then
    Err (NoRoom (al_memory_bytes limits / GIB) (MEMORY_HEADROOM / GIB) (remaining / GIB)
           (reserved / GIB))
  else Ok limits.

(** ** Theorems *)

Definition host_wf (h : HostResources) : Prop :=
  in_u64 (hr_total_memory h) ∧ 0 ≤ hr_available_memory h ≤ hr_total_memory h ∧
  in_u64 (hr_cpus h) ∧ (∀ d, hr_available_disk h = Some d → in_u64 d).

(** Every constant is a number of gibibytes; with [GIB] opaque the sizing is linear. *)
Ltac gib_consts :=
  unfold MEMORY_FLOOR, MEMORY_CEILING, MEMORY_STEP, MEMORY_HEADROOM, STORAGE_FLOOR,
    DISK_MARGIN, DISK_STORAGE_CEILING, DISK_STORAGE_FLOOR, DISK_STORAGE_UNKNOWN, DISK_STEP in *.
Lemma GIB_value : GIB = 1073741824.
Proof. reflexivity. Qed.

Lemma multiple_clamp k z lo hi :
  0 < k → (k | lo) → (k | hi) → lo ≤ hi →
  (k | u64_clamp (z / k * k) lo hi) ∧ lo ≤ u64_clamp (z / k * k) lo hi ≤ hi.
Proof.
  intros Hk Hlo Hhi Hle. unfold u64_clamp. split; [|lia].
  assert (k | z / k * k) as Hz by apply Z.divide_factor_r.
  destruct (Z.max_spec (z / k * k) lo) as [[_ ->]|[_ ->]];
    (destruct (Z.min_spec lo hi) as [[_ ->]|[_ ->]] ||
     destruct (Z.min_spec (z / k * k) hi) as [[_ ->]|[_ ->]]); done.
Qed.

(** Memory sized from the host is a whole number of steps between the floor and the ceiling. *)
Lemma sized_memory_bounds host :
  (MEMORY_STEP | sized_memory host) ∧ MEMORY_FLOOR ≤ sized_memory host ≤ MEMORY_CEILING.
Proof.
  unfold sized_memory. apply multiple_clamp; gib_consts; rewrite GIB_value; [lia| | |lia].
  - by exists 1.
  - by exists 12.
Qed.

Lemma tmpfs_storage_bounds m :
  MEMORY_FLOOR ≤ m →
  STORAGE_FLOOR ≤ tmpfs_storage m ∧ tmpfs_storage m + MEMORY_HEADROOM ≤ m ∧
  4 * tmpfs_storage m ≤ 3 * m.
Proof.
  unfold tmpfs_storage, u64_saturating_sub. gib_consts. rewrite GIB_value. intros Hm.
  pose proof (Z.mul_div_le m 4). pose proof (Z.mul_succ_div_gt m 4). lia.
Qed.

Lemma disk_budget_bounds host pinned budget :
  disk_budget host pinned = Ok budget →
  (∀ p, pinned = Some p → budget = p) ∧
  (pinned = None → (DISK_STEP | budget) ∧ DISK_STORAGE_FLOOR ≤ budget ≤ DISK_STORAGE_CEILING) ∧
  (∀ free, hr_available_disk host = Some free → 0 < budget → budget + DISK_MARGIN ≤ free).
Proof.
  unfold disk_budget. destruct pinned as [p|], (hr_available_disk host) as [free|];
    cbn [fmap option_fmap option_map default].
  - destruct (Z.ltb_spec (u64_saturating_sub free DISK_MARGIN) p); [done|]. intros [= <-].
    unfold u64_saturating_sub in *. split_and!; [naive_solver|done|]. intros ? [= <-]. lia.
  - intros [= <-]. split_and!; [naive_solver|done|done].
  - set (z := Z.min _ _). destruct (Z.ltb_spec (z / DISK_STEP * DISK_STEP) DISK_STORAGE_FLOOR) as [|Hf];
      [done|]. intros [= <-].
    assert (z / DISK_STEP * DISK_STEP ≤ z) as Hz.
    { rewrite Z.mul_comm. apply Z.mul_div_le. reflexivity. }
    split_and!; [done| |].
    + intros _. split; [apply Z.divide_factor_r|]. unfold z in *. lia.
    + intros ? [= <-] Hpos. unfold z, u64_saturating_sub in *. lia.
  - intros [= <-]. gib_consts. rewrite GIB_value. split_and!; [done| |done].
    intros _. split; [by exists 8|lia].
Qed.

Lemma limits_validate_true l :
  limits_validate l = true ↔
  2 ^ 20 ≤ al_storage_bytes l ≤ i64_max ∧
  512 * 2 ^ 20 ≤ u64_saturating_sub (al_memory_bytes l) (in_memory l) ∧
  al_memory_bytes l ≤ i64_max ∧
  1000000 ≤ al_nano_cpus l ≤ 256000000000 ∧ al_pids l ≠ 0 ∧ al_pids l ≤ 65536.
Proof.
  unfold limits_validate. rewrite negb_true_iff, !orb_false_iff, !Z.ltb_ge, Z.eqb_neq. tauto.
Qed.

Lemma sized_cpus_bounds host :
  in_u64 (hr_cpus host) →
  1000000000 ≤ u64_saturating_mul (u64_clamp (hr_cpus host) 1 CPU_CEILING) 1000000000 ≤ 8000000000.
Proof. unfold in_u64, u64_saturating_mul, u64_clamp, CPU_CEILING, u64_max. lia. Qed.

(** A host that is not configured always gets a valid engine: memory in whole steps between
    the floor and the ceiling; storage either a disk budget in whole steps that leaves the
    margin of free disk, or a tmpfs that leaves the headroom of its memory; one to eight CPUs. *)
Theorem unconfigured_engine_is_sized host config :
  host_wf host →
  ec_memory_gib config = None → ec_storage_gib config = None → ec_cpus config = None →
  ec_pids config = None → ec_storage config ≠ Some BackDisk →
  ∃ l, size_engine host config = Ok l ∧
    (MEMORY_STEP | al_memory_bytes l) ∧ MEMORY_FLOOR ≤ al_memory_bytes l ≤ MEMORY_CEILING ∧
    match al_storage l with
    | StoreDisk => DISK_STORAGE_FLOOR ≤ al_storage_bytes l ≤ DISK_STORAGE_CEILING ∧
        (DISK_STEP | al_storage_bytes l) ∧
        ∀ free, hr_available_disk host = Some free → al_storage_bytes l + DISK_MARGIN ≤ free
    | StoreMemory => STORAGE_FLOOR ≤ al_storage_bytes l ∧
        al_storage_bytes l + MEMORY_HEADROOM ≤ al_memory_bytes l
    end ∧
    1000000000 ≤ al_nano_cpus l ≤ 8000000000 ∧ al_pids l = DEFAULT_PIDS.
Proof.
  intros (_ & _ & Hcpu & _) Hm Hs Hc Hp Hb. unfold size_engine. rewrite Hm, Hs, Hc, Hp. cbn.
  pose proof (sized_memory_bounds host) as [Hdiv Hmem].
  pose proof (sized_cpus_bounds host Hcpu) as Hcpus.
  pose proof (tmpfs_storage_bounds (sized_memory host) (proj1 Hmem)) as (Ht1 & Ht2 & Ht3).
  assert (limits_validate
    {| al_memory_bytes := sized_memory host; al_storage_bytes := tmpfs_storage (sized_memory host);
       al_storage := StoreMemory;
       al_nano_cpus := u64_saturating_mul (u64_clamp (hr_cpus host) 1 CPU_CEILING) 1000000000;
       al_pids := DEFAULT_PIDS |} = true) as Hv.
  { apply limits_validate_true. cbn. unfold DEFAULT_PIDS, i64_max, u64_saturating_sub. gib_consts.
    rewrite GIB_value in *. lia. }
  destruct (ec_storage config) as [[]|]; [done| |].
  - cbn. rewrite Hv. eexists. split; [done|]. cbn. split_and!; first [done|lia].
  - destruct (disk_budget host None) as [budget|e] eqn:Hd; cbn.
    + apply disk_budget_bounds in Hd as (_ & Hbud & Hfree). destruct Hbud as [Hstep Hbud]; [done|].
      assert (limits_validate
        {| al_memory_bytes := sized_memory host; al_storage_bytes := budget;
           al_storage := StoreDisk;
           al_nano_cpus := u64_saturating_mul (u64_clamp (hr_cpus host) 1 CPU_CEILING) 1000000000;
           al_pids := DEFAULT_PIDS |} = true) as Hv'.
      { apply limits_validate_true. cbn. unfold DEFAULT_PIDS, i64_max, u64_saturating_sub.
        gib_consts. rewrite GIB_value in *. lia. }
      rewrite Hv'. eexists. split; [done|]. cbn. split_and!; try first [done|lia].
      intros free Hf. apply Hfree; [done|]. gib_consts. rewrite GIB_value in *. lia.
    + rewrite Hv. eexists. split; [done|]. cbn. split_and!; first [done|lia].
Qed.

Definition demo_host : HostResources :=
  {| hr_total_memory := 128 * 2 ^ 30; hr_available_memory := 120 * 2 ^ 30; hr_cpus := 32;
     hr_available_disk := Some (100 * 2 ^ 30) |}.

Lemma demo_host_wf : host_wf demo_host.
Proof.
  unfold host_wf, in_u64. cbn. unfold u64_max. split_and!; try lia. intros d [= <-]. lia.
Qed.

Lemma unconfigured_engine_is_sized_witness :
  ∃ l, size_engine demo_host EngineConfig_default = Ok l ∧ al_memory_bytes l = 48 * GIB ∧
    al_storage_bytes l = 80 * GIB ∧ MEMORY_FLOOR ≤ al_memory_bytes l ≤ MEMORY_CEILING.
Proof.
  destruct (unconfigured_engine_is_sized demo_host EngineConfig_default demo_host_wf)
    as (l & Heq & _ & Hb & _); try done.
  exists l. split; [exact Heq|]. vm_compute in Heq. injection Heq as <-.
  split; [reflexivity|split; [reflexivity|exact Hb]].
Defined.

Lemma gib_Ok value what bytes : gib value what = Ok bytes → bytes = value * GIB ∧ bytes ≤ u64_max.
Proof.
  unfold gib. rewrite ok_or_Ok. unfold checked_mul.
  destruct (Z.leb_spec (value * GIB) u64_max); [|done]. by intros [= <-].
Qed.

Lemma transpose_gib o what r :
  transpose ((λ v, gib v what) <$> o) = Ok r → r = (λ v, v * GIB) <$> o.
Proof.
  destruct o as [v|]; cbn; [|by intros [= <-]].
  destruct (gib v what) as [b|] eqn:E; [|done]. apply gib_Ok in E as [-> _]. by intros [= <-].
Qed.

(** Whatever is configured, limits that are accepted satisfy the engine layer's bounds and keep
    every override exactly as written: memory, storage, CPUs, process count and backing. A disk
    budget leaves the margin of the free disk; a tmpfs leaves half a gibibyte of memory. *)
Theorem size_engine_honours_overrides host config l :
  size_engine host config = Ok l →
  limits_validate l = true ∧
  (∀ v, ec_memory_gib config = Some v → al_memory_bytes l = v * GIB) ∧
  (∀ v, ec_storage_gib config = Some v → al_storage_bytes l = v * GIB) ∧
  (∀ c, ec_cpus config = Some c → al_nano_cpus l = c * 1000000000) ∧
  (∀ p, ec_pids config = Some p → al_pids l = p) ∧
  (∀ b, ec_storage config = Some b →
     al_storage l = match b with BackDisk => StoreDisk | BackMemory => StoreMemory end) ∧
  match al_storage l with
  | StoreDisk => ∀ free, hr_available_disk host = Some free →
      al_storage_bytes l + DISK_MARGIN ≤ free
  | StoreMemory => al_storage_bytes l + 512 * 2 ^ 20 ≤ al_memory_bytes l
  end.
Proof.
  unfold size_engine.
  destruct (transpose _) as [pinned|] eqn:Hp; [|done]. apply transpose_gib in Hp.
  set (disk := match ec_storage config with Some _ => _ | None => _ end).
  destruct disk as [d|] eqn:Hd; [|done].
  set (mem := match ec_memory_gib config with Some _ => _ | None => _ end).
  destruct mem as [m|] eqn:Hm; [|done].
  assert (∀ b, ec_storage config = Some b → is_Some d ↔ b = BackDisk) as Hback.
  { intros b Hb. unfold disk in Hd. rewrite Hb in Hd. destruct b; cbn in Hd.
    - destruct (disk_budget host pinned); [|done]. injection Hd as <-. split; [done|by eexists].
    - injection Hd as <-. split; [by intros []|done]. }
  assert (∀ budget, d = Some budget → disk_budget host pinned = Ok budget) as Hbudget.
  { intros budget ->. unfold disk in Hd. destruct (ec_storage config) as [[]|]; try done.
    - destruct (disk_budget host pinned); [|done]. by injection Hd as ->.
    - destruct (disk_budget host pinned); [|done]. by injection Hd as ->. }
  set (st := match d with Some _ => _ | None => _ end).
  destruct st as [storage bytes] eqn:Est. case_match eqn:Hv; [|done]. intros [= <-].
  pose proof (proj1 (limits_validate_true _) Hv) as (Hsb & Hroom & _ & Hcpu & _). cbn in *.
  split_and!; [done| | | | | |].
  - intros v Hcfg. unfold mem in Hm. rewrite Hcfg in Hm. by apply gib_Ok in Hm as [-> _].
  - intros v Hcfg. rewrite Hcfg in Hp. cbn in Hp. subst pinned. unfold st in Est.
    destruct d as [budget|]; injection Est as <- <-; [|done].
    by apply (disk_budget_bounds host (Some (v * GIB)) budget (Hbudget budget eq_refl)).
  - intros c Hc. rewrite Hc in *. cbn in *. unfold u64_saturating_mul, u64_max in *. lia.
  - by intros p ->.
  - intros b Hb. specialize (Hback b Hb). unfold st in Est.
    destruct d as [budget|]; injection Est as <- <-; destruct b; try done.
    + assert (BackMemory = BackDisk) as [=] by (apply Hback; by eexists).
    + destruct (proj2 Hback eq_refl) as [? [=]].
  - unfold st in Est. destruct d as [budget|]; injection Est as <- <-.
    + intros free Hf. apply (disk_budget_bounds host pinned budget (Hbudget budget eq_refl));
        [done|lia].
    + unfold in_memory, u64_saturating_sub in Hroom. cbn in Hroom. lia.
Qed.

Definition pinned_config : EngineConfig :=
  {| ec_memory_gib := Some 16; ec_storage_gib := Some 10; ec_storage := Some BackMemory;
     ec_cpus := Some 4; ec_pids := Some 512; ec_spares := None; ec_shared := None;
     ec_idle_retire_secs := None |}.
Definition pinned_limits : ActEngineLimits :=
  {| al_memory_bytes := 16 * 2 ^ 30; al_storage_bytes := 10 * 2 ^ 30; al_storage := StoreMemory;
     al_nano_cpus := 4000000000; al_pids := 512 |}.

Lemma size_engine_honours_overrides_witness :
  limits_validate pinned_limits = true ∧ al_storage_bytes pinned_limits = 10 * GIB.
Proof.
  destruct (size_engine_honours_overrides demo_host pinned_config pinned_limits)
    as (Hv & _ & Hs & _).
  - vm_compute. reflexivity.
  - split; [exact Hv|]. apply (Hs 10). reflexivity.
Defined.

(** ** Beside other engines *)

Lemma saturating_sum l acc :
  0 ≤ acc → Forall (λ z, 0 ≤ z) l →
  foldl u64_saturating_add acc l < u64_max → foldl u64_saturating_add acc l = acc + sumZ l.
Proof.
  revert acc. induction l as [|z l IH]; intros acc Hacc Hl; cbn; [lia|].
  apply Forall_cons in Hl as [Hz Hl]. intros Hlt.
  assert (∀ a, 0 ≤ a → a ≤ foldl u64_saturating_add a l ∨ u64_max ≤ foldl u64_saturating_add a l)
    as Hmono.
  { clear -Hl. induction Hl as [|y l Hy _ IH]; intros a Ha; cbn; [lia|].
    unfold u64_saturating_add at 2 4. destruct (IH (Z.min u64_max (a + y))); unfold u64_max in *; lia. }
  unfold u64_saturating_add in *. 
  destruct (Hmono (Z.min u64_max (acc + z))) as [Hm|Hm]; [unfold u64_max; lia| |lia].
  rewrite IH; [|unfold u64_max; lia|done|done]. lia.
Qed.

Lemma size_engine_validated host config l :
  size_engine host config = Ok l → limits_validate l = true.
Proof. unfold size_engine. cbv zeta. intros H. repeat (case_match; try done); by simplify_eq. Qed.

(** A new engine fits beside the others: with the limits of every other running engine, its own
    limit and the host's headroom together stay within the host's memory, and no other running
    engine is unlimited. *)
Theorem new_engine_fits_beside_others {I} (engines : list (Foreign I)) excluded host config l :
  host_wf host → Forall (λ e, in_u64 (fo_memory_bytes e)) engines →
  size_engine_with_reserved host config
    (reserved_engine_memory engines excluded (hr_total_memory host)) = Ok l →
  let others := filterb (counted excluded) engines in
  sumZ (fo_memory_bytes <$> others) + al_memory_bytes l + MEMORY_HEADROOM ≤ hr_total_memory host ∧
  Forall (λ e, fo_memory_bytes e ≠ 0) others.
Proof.
  intros (Ht & _) He. unfold size_engine_with_reserved.
  set (reserved := reserved_engine_memory _ _ _). destruct (size_engine _ _) as [l'|] eqn:Hs; [|done].
  apply size_engine_validated, limits_validate_true in Hs as (Hsb & Hmem & _).
  case_match eqn:Hroom; [done|]. intros [= ->]. cbv zeta.
  set (others := filterb _ _).
  set (limit := λ e : Foreign I,
    if fo_memory_bytes e =? 0 then hr_total_memory host else fo_memory_bytes e).
  assert (Forall (λ e, in_u64 (fo_memory_bytes e)) others) as Ho.
  { apply Forall_forall. intros e [_ Hin]%elem_of_filterb. by eapply Forall_forall in He. }
  assert (0 < al_memory_bytes l) as Hpos.
  { unfold u64_saturating_sub, in_memory in Hmem. destruct (al_storage l); lia. }
  apply negb_false_iff, Z.leb_le in Hroom.
  unfold u64_saturating_sub, u64_saturating_add, in_u64 in *. gib_consts. rewrite GIB_value in *.
  assert (reserved = sumZ (limit <$> others)) as Hres.
  { unfold reserved, reserved_engine_memory. rewrite saturating_sum; [done|done| |].
    - apply Forall_fmap. eapply Forall_impl; [exact Ho|]. intros e Hbound. cbn in *. case_match; lia.
    - change (reserved < u64_max). lia. }
  assert (∀ e, e ∈ others → limit e ≤ reserved) as Hle.
  { intros e Hin. rewrite Hres. clear -Hin Ho Ht. induction Ho as [|x l Hx Hl IH];
      [by apply elem_of_nil in Hin|].
    assert (0 ≤ sumZ (limit <$> l)).
    { apply sumZ_nonneg, Forall_fmap. eapply Forall_impl; [exact Hl|]. intros y Hy.
      unfold limit. cbn in *. case_match; lia. }
    assert (0 ≤ limit x) by (unfold limit; case_match; lia).
    rewrite fmap_cons. cbn [sumZ]. apply elem_of_cons in Hin as [->|Hin]; [lia|].
    specialize (IH Hin). lia. }
  assert (Forall (λ e, fo_memory_bytes e ≠ 0) others) as Hnz.
  { apply Forall_forall. intros e Hin H0. specialize (Hle e Hin). unfold limit in Hle.
    rewrite H0 in Hle. cbn in Hle. lia. }
  split; [|done].
  assert (limit <$> others = fo_memory_bytes <$> others) as Heq.
  { apply list_fmap_ext. intros i e Hin%list_elem_of_lookup_2. unfold limit.
    eapply Forall_forall in Hnz; [|exact Hin]. by apply Z.eqb_neq in Hnz as ->. }
  rewrite <-Heq, <-Hres. lia.
Qed.

Definition demo_engine (name : string) (memory : Z) : Foreign unit :=
  {| fo_id := "c0"; fo_name := name; fo_running := true; fo_identity := None;
     fo_registry := "r"; fo_storage_volume := None; fo_memory_bytes := memory;
     fo_nano_cpus := 1000000000; fo_pids := 4096; fo_created := 0 |}.
Definition demo_engines : list (Foreign unit) :=
  [demo_engine "bosn-act-a" (64 * 2 ^ 30); demo_engine "bosn-act-b" (32 * 2 ^ 30)].
Definition demo_beside : ActEngineLimits :=
  {| al_memory_bytes := 24 * 2 ^ 30; al_storage_bytes := 80 * 2 ^ 30; al_storage := StoreDisk;
     al_nano_cpus := 8000000000; al_pids := 4096 |}.

Lemma new_engine_fits_beside_others_witness :
  sumZ (fo_memory_bytes <$> filterb (counted None) demo_engines) + al_memory_bytes demo_beside
    + MEMORY_HEADROOM ≤ hr_total_memory demo_host.
Proof.
  refine (proj1 (new_engine_fits_beside_others demo_engines None demo_host EngineConfig_default
    demo_beside demo_host_wf _ _)).
  - repeat constructor; vm_compute; discriminate.
  - vm_compute. reflexivity.
Defined.

(** A host that parses is not empty, never has more memory available than it has, and has a
    known free disk only when the memory information is this machine's and Docker's root is an
    absolute path, the one the free disk was read of. *)
Theorem host_resources_parse_sound info meminfo free_disk h :
  HostResources_parse info meminfo free_disk = Ok h →
  0 < hr_total_memory h ≤ u64_max ∧ 0 < hr_cpus h ≤ u64_max ∧
  hr_available_memory h ≤ hr_total_memory h ∧
  (∀ d, hr_available_disk h = Some d →
     ∃ text m root, meminfo = Some text ∧ Meminfo_parse text = Some m ∧
       mi_total m = hr_total_memory h ∧ starts_with "/" root = true ∧ free_disk root = Some d).
Proof.
  unfold HostResources_parse.
  destruct (splitn 3 " "%char (trim info)) as [|total [|cpus rest]]; [done|done|].
  set (root := docker_root _). case_match eqn:Hroot; [done|].
  destruct (parse_u64 total) as [t|] eqn:Ht; [|done].
  destruct (parse_u64 cpus) as [c|] eqn:Hc; [|done]. cbn [ok_or].
  apply parse_unsigned_bounds in Ht, Hc. case_match eqn:Hz; [done|]. booleans.
  set (local := m ← meminfo ≫= Meminfo_parse; if mi_total m =? t then Some m else None).
  intros [= <-]. cbn [hr_total_memory hr_available_memory hr_cpus hr_available_disk].
  split_and!; [lia..| |].
  - destruct local; lia.
  - intros d Hd. destruct local as [m|] eqn:Hl; [|done]. unfold local in Hl.
    destruct meminfo as [text|]; [|done]. cbn in Hl.
    destruct (Meminfo_parse text) as [m'|] eqn:Hm; [|done]. cbn in Hl.
    destruct (Z.eqb_spec (mi_total m') t); [|done]. injection Hl as ->.
    destruct root as [r|]; [|done]. unfold is_some_and in Hroot. apply negb_false_iff in Hroot.
    exists text, m, r. done.
Qed.

Definition demo_meminfo : string :=
  "MemTotal:       8 kB" +:+ String lf ("MemAvailable:   6 kB" +:+ String lf "").

Lemma host_resources_parse_sound_witness :
  HostResources_parse "8192 4 /var/lib/docker" (Some demo_meminfo) (λ _, Some 99) =
    Ok {| hr_total_memory := 8192; hr_available_memory := 6144; hr_cpus := 4;
          hr_available_disk := Some 99 |} ∧ 6144 ≤ 8192.
Proof.
  split; [vm_compute; reflexivity|].
  refine (proj1 (proj2 (proj2 (host_resources_parse_sound "8192 4 /var/lib/docker"
    (Some demo_meminfo) (λ _, Some 99) {| hr_total_memory := 8192; hr_available_memory := 6144;
      hr_cpus := 4; hr_available_disk := Some 99 |} _)))).
  vm_compute. reflexivity.
Defined.
