(* ===== verification/CiScheduler.v ===== *)
(** * CiScheduler: admission of CI runs

    The model of [bosn-service/src/ci/scheduler.rs]: one FIFO queue, one live concurrency limit,
    and coalescing of identical submissions; and the CPU topology the default limit comes from.
    Reading [/sys] is a parameter. The scheduler is proved to refine an abstract one, a list of
    live runs in submission order. *)

From Stdlib Require Import Ascii.
From S2P Require Export Text.

Local Open Scope string_scope.
Local Open Scope list_scope.
Local Open Scope bosn_scope.

(** ** Keys *)

Record OutputSelector := { os_path : list string; os_output : string }.
#[global] Instance OutputSelector_eq_dec : EqDecision OutputSelector.
Proof. solve_decision. Defined.
#[global] Instance OutputSelector_countable : Countable OutputSelector.
Proof.
  refine (inj_countable' (λ o, (os_path o, os_output o))
            (λ p, {| os_path := p.1; os_output := p.2 |}) _).
  by intros [].
Defined.

Record RunParams := {
  rp_pr_title : option string;
  rp_inputs : gmap string string;
  rp_matrix : gmap string string;
  rp_env : gmap string string;
  rp_ci_outputs : gset OutputSelector;
}.
#[global] Instance RunParams_eq_dec : EqDecision RunParams.
Proof. solve_decision. Defined.
#[global] Instance RunParams_countable : Countable RunParams.
Proof.
  refine (inj_countable'
    (λ p, (rp_pr_title p, rp_inputs p, rp_matrix p, rp_env p, rp_ci_outputs p))
    (λ '(t, i, m, e, o), {| rp_pr_title := t; rp_inputs := i; rp_matrix := m; rp_env := e;
                            rp_ci_outputs := o |}) _).
  by intros [].
Defined.

Record RunKey := {
  rk_sha : string;
  rk_dirty : option string;
  rk_workflow : string;
  rk_job : option string;
  rk_trigger : string;
  rk_mode : string;
  rk_provider : string;
  rk_engine : string;
  rk_payload_sha256 : string;
  rk_timeout_secs : Z;
  rk_secrets : list string;
  rk_params : RunParams;
}.
#[global] Instance RunKey_eq_dec : EqDecision RunKey.
Proof. solve_decision. Defined.
#[global] Instance RunKey_countable : Countable RunKey.
Proof.
  refine (inj_countable'
    (λ k, (rk_sha k, rk_dirty k, rk_workflow k, rk_job k, rk_trigger k, rk_mode k, rk_provider k,
           rk_engine k, rk_payload_sha256 k, rk_timeout_secs k, rk_secrets k, rk_params k))
    (λ '(a, b, c, d, e, f, g, h, i, j, k, l),
       {| rk_sha := a; rk_dirty := b; rk_workflow := c; rk_job := d; rk_trigger := e;
          rk_mode := f; rk_provider := g; rk_engine := h; rk_payload_sha256 := i;
          rk_timeout_secs := j; rk_secrets := k; rk_params := l |}) _).
  by intros [].
Defined.

(** ** The scheduler *)

Inductive Admission := AdmQueued (id : string) | AdmCoalesced (id : string).

Record Scheduler := {
  sc_limit : nat;
  sc_drained : bool;
  sc_queue : list string;
  sc_running : gset string;
  sc_live : gmap RunKey string;
  sc_keys : gmap string RunKey;
}.

Definition default_limit (cores : nat) : nat := Nat.max (Nat.div cores 4) 1.

Definition Scheduler_new (limit : nat) : Scheduler :=
  {| sc_limit := Nat.max limit 1; sc_drained := false; sc_queue := []; sc_running := ∅;
     sc_live := ∅; sc_keys := ∅ |}.

Definition ci_submit (s : Scheduler) (key : RunKey) (id : string) : Admission * Scheduler :=
  match sc_live s !! key with
  | Some existing => (AdmCoalesced existing, s)
  | None =>
      (AdmQueued id,
       {| sc_limit := sc_limit s; sc_drained := sc_drained s; sc_queue := sc_queue s ++ [id];
          sc_running := sc_running s; sc_live := <[key := id]> (sc_live s);
          sc_keys := <[id := key]> (sc_keys s) |})
  end.

(** The [while] of [admit], along the queue it pops. *)
Fixpoint admit_queue (drained : bool) (limit : nat) (queue : list string) (running : gset string)
    (started : list string) : list string * list string * gset string :=
  match queue with
  | id :: queue' =>
      if negb drained && bool_decide (size running < limit)%nat
      then admit_queue drained limit queue' ({[ id ]} ∪ running) (started ++ [id])
      else (started, queue, running)
  | [] => (started, [], running)
  end.
Definition ci_admit (s : Scheduler) : list string * Scheduler :=
  let '(started, queue, running) :=
    admit_queue (sc_drained s) (sc_limit s) (sc_queue s) (sc_running s) [] in
  (started,
   {| sc_limit := sc_limit s; sc_drained := sc_drained s; sc_queue := queue;
      sc_running := running; sc_live := sc_live s; sc_keys := sc_keys s |}).

Definition ci_finish (s : Scheduler) (id : string) : Scheduler :=
  {| sc_limit := sc_limit s; sc_drained := sc_drained s;
     sc_queue := filterb (λ q, negb (String.eqb q id)) (sc_queue s);
     sc_running := sc_running s ∖ {[ id ]};
     sc_live := match sc_keys s !! id with
                | Some key => delete key (sc_live s)
                | None => sc_live s
                end;
     sc_keys := delete id (sc_keys s) |}.

Definition cancel_queued (s : Scheduler) (id : string) : bool * Scheduler :=
  if existsb (λ q, String.eqb q id) (sc_queue s) then (true, ci_finish s id) else (false, s).

Definition set_limit (s : Scheduler) (limit : nat) : Scheduler :=
  {| sc_limit := Nat.max limit 1; sc_drained := sc_drained s; sc_queue := sc_queue s;
     sc_running := sc_running s; sc_live := sc_live s; sc_keys := sc_keys s |}.
Definition set_drained (s : Scheduler) (drained : bool) : Scheduler :=
  {| sc_limit := sc_limit s; sc_drained := drained; sc_queue := sc_queue s;
     sc_running := sc_running s; sc_live := sc_live s; sc_keys := sc_keys s |}.

Definition ci_running (s : Scheduler) : nat := size (sc_running s).
Definition ci_queued (s : Scheduler) : nat := length (sc_queue s).
Definition is_running (s : Scheduler) (id : string) : bool := bool_decide (id ∈ sc_running s).
Definition queue_position (s : Scheduler) (id : string) : option nat :=
  fst <$> list_find (λ q, q = id) (sc_queue s).

(** ** The CPU topology *)

Definition cpu_range (part : string) : option (Z * Z) :=
  let '(first, last) := default (part, part) (split_once "-"%char part) in
  first ← parse_u64 first;
  last ← parse_u64 last;
  if (last <? first)%Z || (4096 <? last - first)%Z then None else Some (first, last).

Definition seq_closed (first last : Z) : list Z := seqZ first (last - first + 1).

Fixpoint cpu_ranges (ids : gset Z) (parts : list string) : option (gset Z) :=
  match parts with
  | [] => Some ids
  | part :: parts' =>
      '(first, last) ← cpu_range part;
      cpu_ranges (ids ∪ list_to_set (seq_closed first last)) parts'
  end.

Definition allowed_cpu_ids (list : string) : option (gset Z) :=
  ids ← cpu_ranges ∅ (str_split ","%char (trim list));
  if bool_decide (ids = ∅) then None else Some ids.

(** [topology] reads and parses a CPU's package and core numbers. *)
Fixpoint core_pairs (topology : Z → option Z * option Z) (ids : list Z) (cores : gset (Z * Z)) :
    option (gset (Z * Z)) :=
  match ids with
  | [] => Some cores
  | index :: ids' =>
      match topology index with
      | (Some package, Some core) => core_pairs topology ids' ({[ (package, core) ]} ∪ cores)
      | _ => None
      end
  end.

Definition physical_cores_linux (topology : Z → option Z * option Z) (logical : nat)
    (allowed : string) : nat :=
  let fallback := Nat.max (Nat.div logical 2) 1 in
  match allowed_cpu_ids allowed with
  | None => fallback
  | Some ids =>
      if bool_decide (logical < size ids)%nat then fallback
      else match core_pairs topology (elements ids) ∅ with
           | None => fallback
           | Some cores => Nat.max (size cores) 1
           end
  end.

(** ** The abstract scheduler

    What the scheduler promises its callers: a list of live runs in submission order, each
    waiting or running, at most one per key; admission starts the earliest waiting runs that
    fit the limit. *)

Record Run := { run_id : string; run_key : RunKey; run_started : bool }.
Record Fifo := { ff_limit : nat; ff_drained : bool; ff_runs : list Run }.

Definition waiting (r : Run) : bool := negb (run_started r).
Definition active_count (l : list Run) : nat := length (filterb run_started l).
Definition start (r : Run) : Run :=
  {| run_id := run_id r; run_key := run_key r; run_started := true |}.

(** Start the first [n] waiting runs. *)
Fixpoint start_first (n : nat) (l : list Run) : list string * list Run :=
  match l with
  | [] => ([], [])
  | r :: l' =>
      match n with
      | O => ([], r :: l')
      | S n' =>
          if waiting r then
            let '(ids, l'') := start_first n' l' in (run_id r :: ids, start r :: l'')
          else let '(ids, l'') := start_first n l' in (ids, r :: l'')
      end
  end.

Definition with_runs (a : Fifo) (l : list Run) : Fifo :=
  {| ff_limit := ff_limit a; ff_drained := ff_drained a; ff_runs := l |}.

Inductive ci_op :=
| CiSubmit (key : RunKey) (id : string)
| CiAdmit
| CiFinish (id : string)
| CiCancelQueued (id : string)
| CiSetLimit (limit : nat)
| CiSetDrained (drained : bool).

Inductive ci_reply :=
| ReAdmission (a : Admission)
| ReStarted (ids : list string)
| ReCancelled (ok : bool)
| ReNone.

Definition ci_step (s : Scheduler) (op : ci_op) : ci_reply * Scheduler :=
  match op with
  | CiSubmit key id => let '(a, s') := ci_submit s key id in (ReAdmission a, s')
  | CiAdmit => let '(ids, s') := ci_admit s in (ReStarted ids, s')
  | CiFinish id => (ReNone, ci_finish s id)
  | CiCancelQueued id => let '(ok, s') := cancel_queued s id in (ReCancelled ok, s')
  | CiSetLimit limit => (ReNone, set_limit s limit)
  | CiSetDrained drained => (ReNone, set_drained s drained)
  end.

Definition without (id : string) (l : list Run) : list Run :=
  filterb (λ r, negb (String.eqb (run_id r) id)) l.
Definition same_key (key : RunKey) (r : Run) : bool := bool_decide (run_key r = key).
Definition queued_as (id : string) (r : Run) : bool := waiting r && String.eqb (run_id r) id.

Definition fifo_step (a : Fifo) (op : ci_op) : ci_reply * Fifo :=
  match op with
  | CiSubmit key id =>
      match head (filterb (same_key key) (ff_runs a)) with
      | Some r => (ReAdmission (AdmCoalesced (run_id r)), a)
      | None =>
          (ReAdmission (AdmQueued id),
           with_runs a (ff_runs a ++ [ {| run_id := id; run_key := key; run_started := false |} ]))
      end
  | CiAdmit =>
      if ff_drained a then (ReStarted [], a)
      else
        let '(ids, l) := start_first (ff_limit a - active_count (ff_runs a)) (ff_runs a) in
        (ReStarted ids, with_runs a l)
  | CiFinish id => (ReNone, with_runs a (without id (ff_runs a)))
  | CiCancelQueued id =>
      if existsb (queued_as id) (ff_runs a)
      then (ReCancelled true, with_runs a (without id (ff_runs a)))
      else (ReCancelled false, a)
  | CiSetLimit limit =>
      (ReNone, {| ff_limit := Nat.max limit 1; ff_drained := ff_drained a; ff_runs := ff_runs a |})
  | CiSetDrained drained =>
      (ReNone, {| ff_limit := ff_limit a; ff_drained := drained; ff_runs := ff_runs a |})
  end.

(** A submission uses an ID no live run has (the caller draws a fresh UUID). *)
Definition fresh_op (a : Fifo) (op : ci_op) : Prop :=
  match op with CiSubmit _ id => id ∉ run_id <$> ff_runs a | _ => True end.

Definition key_pairs (l : list Run) : list (RunKey * string) := (λ r, (run_key r, run_id r)) <$> l.
Definition id_pairs (l : list Run) : list (string * RunKey) := (λ r, (run_id r, run_key r)) <$> l.

Record refines (s : Scheduler) (a : Fifo) : Prop := {
  rf_limit : sc_limit s = ff_limit a;
  rf_drained : sc_drained s = ff_drained a;
  rf_queue : sc_queue s = run_id <$> filterb waiting (ff_runs a);
  rf_running : sc_running s = list_to_set (run_id <$> filterb run_started (ff_runs a));
  rf_live : sc_live s = list_to_map (key_pairs (ff_runs a));
  rf_keys : sc_keys s = list_to_map (id_pairs (ff_runs a));
  rf_ids : NoDup (run_id <$> ff_runs a);
  rf_run_keys : NoDup (run_key <$> ff_runs a);
}.

(** ** Refinement *)

(** The admission loop takes the longest prefix of the queue that fits. *)
Lemma admit_queue_spec (drained : bool) limit (queue : list string) (running : gset string) started :
  NoDup queue → (∀ id, id ∈ queue → id ∉ running) →
  let n := if drained then 0%nat else (limit - size running)%nat in
  admit_queue drained limit queue running started =
    (started ++ take n queue, drop n queue, list_to_set (take n queue) ∪ running).
Proof.
  revert running started. induction queue as [|id queue IH]; intros running started Hnd Hdis n.
  - cbn. rewrite take_nil, drop_nil, app_nil_r. f_equal. set_solver.
  - apply NoDup_cons in Hnd as [Hid Hnd]. cbn [admit_queue].
    destruct drained; cbn [negb andb].
    { subst n. cbn. rewrite app_nil_r. f_equal. set_solver. }
    case_bool_decide as Hlt.
    + assert (size ({[id]} ∪ running) = S (size running)) as Hsz.
      { rewrite size_union by set_solver. by rewrite size_singleton. }
      rewrite IH; [|done|set_solver]. rewrite Hsz. subst n.
      replace (limit - size running)%nat with (S (limit - S (size running))) by lia.
      cbn. rewrite <-app_assoc. cbn. f_equal. set_solver.
    + subst n. replace (limit - size running)%nat with 0%nat by lia. cbn.
      rewrite app_nil_r. f_equal. set_solver.
Qed.

Lemma start_first_spec n l :
  let '(ids, l') := start_first n l in
  ids = take n (run_id <$> filterb waiting l) ∧
  run_id <$> filterb waiting l' = drop n (run_id <$> filterb waiting l) ∧
  (run_id <$> filterb run_started l') ≡ₚ ids ++ (run_id <$> filterb run_started l) ∧
  id_pairs l' = id_pairs l.
Proof.
  revert n. induction l as [|r l IH]; intros n; cbn [start_first].
  { rewrite filterb_nil. cbn. by rewrite take_nil, drop_nil. }
  destruct n as [|n]; [by rewrite take_0, drop_0|].
  destruct (waiting r) eqn:Hw.
  - assert (run_started r = false) as Hr by (unfold waiting in Hw; by apply negb_true_iff).
    specialize (IH n). destruct (start_first n l) as [ids l'].
    destruct IH as (-> & Hq & Hs & Hp).
    rewrite !filterb_cons, Hw, Hr. cbn [waiting start run_started negb].
    split_and!; [done|done| |].
    + by rewrite fmap_cons, Hs.
    + unfold id_pairs in *. by rewrite !fmap_cons, Hp.
  - assert (run_started r = true) as Hr by (unfold waiting in Hw; by apply negb_false_iff).
    specialize (IH (S n)). destruct (start_first (S n) l) as [ids l'].
    destruct IH as (-> & Hq & Hs & Hp).
    rewrite !filterb_cons, Hw, Hr. split_and!; [done|done| |].
    + rewrite !fmap_cons, Hs. by rewrite Permutation_middle.
    + unfold id_pairs in *. by rewrite !fmap_cons, Hp.
Qed.

Lemma id_pairs_fields l l' :
  id_pairs l' = id_pairs l →
  key_pairs l' = key_pairs l ∧ run_id <$> l' = run_id <$> l ∧ run_key <$> l' = run_key <$> l.
Proof.
  unfold id_pairs, key_pairs. intros H.
  assert (∀ {B} (f : string * RunKey → B), (λ r, f (run_id r, run_key r)) <$> l' =
            (λ r, f (run_id r, run_key r)) <$> l) as Hf.
  { intros B f. change (λ r, f (run_id r, run_key r)) with (f ∘ (λ r, (run_id r, run_key r))).
    by rewrite !list_fmap_compose, H. }
  split_and!; [exact (Hf _ (λ p, (p.2, p.1)))|exact (Hf _ fst)|exact (Hf _ snd)].
Qed.

Lemma delete_list_to_map {K A B} `{Countable K} (k : K) (f : B → K) (g : B → A) l :
  delete k (list_to_map (M := gmap K A) ((λ x, (f x, g x)) <$> l)) =
  list_to_map ((λ x, (f x, g x)) <$> filterb (λ x, negb (bool_decide (f x = k))) l).
Proof.
  induction l as [|x l IH]; [apply delete_empty|]. rewrite filterb_cons, fmap_cons. cbn.
  case_bool_decide as E; cbn [negb].
  - by rewrite E, delete_insert_eq, IH.
  - rewrite fmap_cons. cbn. by rewrite delete_insert_ne, IH.
Qed.

Lemma filterb_ext {A} (f g : A → bool) l :
  (∀ x, x ∈ l → f x = g x) → filterb f l = filterb g l.
Proof.
  induction l as [|x l IH]; intros Hfg; [done|]. rewrite !filterb_cons.
  rewrite (Hfg x), IH; [done|..]; set_solver.
Qed.

Lemma same_field {B} (f : Run → B) l r r' :
  NoDup (f <$> l) → r ∈ l → r' ∈ l → f r = f r' → r = r'.
Proof.
  intros Hnd [i Hi]%list_elem_of_lookup [j Hj]%list_elem_of_lookup E.
  assert (i = j) as ->; [|congruence].
  apply (NoDup_lookup _ i j (f r) Hnd); rewrite list_lookup_fmap; [by rewrite Hi|by rewrite Hj, E].
Qed.

Section invariants.
Context (s : Scheduler) (a : Fifo) (HR : refines s a).

Lemma refines_disjoint id :
  id ∈ sc_queue s → id ∉ sc_running s.
Proof.
  rewrite (rf_queue _ _ HR), (rf_running _ _ HR), elem_of_list_to_set, !list_elem_of_fmap.
  intros (r & -> & [Hw Hr]%elem_of_filterb) (r' & He & [Hs Hr']%elem_of_filterb).
  apply list_elem_of_lookup in Hr as [i Hi]. apply list_elem_of_lookup in Hr' as [j Hj].
  assert (i = j) as ->.
  { apply (NoDup_lookup _ i j (run_id r) (rf_ids _ _ HR)); rewrite list_lookup_fmap; [by rewrite Hi|].
    by rewrite Hj, He. }
  assert (r = r') as <- by congruence. unfold waiting in Hw. by rewrite Hs in Hw.
Qed.

Lemma refines_queue_nodup : NoDup (sc_queue s).
Proof.
  rewrite (rf_queue _ _ HR). eapply sublist_NoDup; [apply (rf_ids _ _ HR)|]. apply fmap_sublist, sublist_filter.
Qed.

Lemma refines_size : size (sc_running s) = active_count (ff_runs a).
Proof.
  rewrite (rf_running _ _ HR), size_list_to_set, length_fmap; [done|].
  eapply sublist_NoDup; [apply (rf_ids _ _ HR)|]. apply fmap_sublist, sublist_filter.
Qed.
End invariants.

(** *** Each operation *)

Ltac fields_cbn :=
  cbn [sc_limit sc_drained sc_queue sc_running sc_live sc_keys ff_limit ff_drained ff_runs
       with_runs].

Section simulation.
Context (s : Scheduler) (a : Fifo) (HR : refines s a).

Lemma refines_coalesced key :
  sc_live s !! key = run_id <$> head (filterb (same_key key) (ff_runs a)).
Proof.
  rewrite (rf_live _ _ HR). clear HR. unfold key_pairs. induction (ff_runs a) as [|r l IH]; [done|].
  rewrite filterb_cons, fmap_cons. cbn. unfold same_key at 1. case_bool_decide as E.
  - rewrite E, lookup_insert_eq. done.
  - rewrite lookup_insert_ne by done. exact IH.
Qed.

Lemma sim_submit key id :
  id ∉ run_id <$> ff_runs a →
  (ci_step s (CiSubmit key id)).1 = (fifo_step a (CiSubmit key id)).1 ∧
  refines (ci_step s (CiSubmit key id)).2 (fifo_step a (CiSubmit key id)).2.
Proof.
  intros Hfresh. cbn. unfold ci_submit. rewrite refines_coalesced.
  destruct (head _) as [r|] eqn:Hh; cbn; [done|]. split; [done|].
  assert (key ∉ run_key <$> ff_runs a) as Hkey.
  { intros (r & -> & Hr)%list_elem_of_fmap.
    assert (r ∈ filterb (same_key (run_key r)) (ff_runs a)) as Hin.
    { apply elem_of_filterb. split; [|done]. unfold same_key. by apply bool_decide_eq_true. }
    apply head_None in Hh. rewrite Hh in Hin. by apply elem_of_nil in Hin. }
  destruct HR as [Hl Hd Hq Hrun Hlive Hkeys Hids Hks].
  split; fields_cbn; [done|done| | | | | |].
  - by rewrite filterb_app, filterb_cons, filterb_nil, fmap_app, Hq.
  - by rewrite filterb_app, filterb_cons, filterb_nil, app_nil_r.
  - unfold key_pairs in *. rewrite fmap_app. cbn [fmap list_fmap run_key run_id].
    rewrite list_to_map_snoc, Hlive; [done|]. by rewrite <-list_fmap_compose.
  - unfold id_pairs in *. rewrite fmap_app. cbn [fmap list_fmap run_key run_id].
    rewrite list_to_map_snoc, Hkeys; [done|]. by rewrite <-list_fmap_compose.
  - rewrite fmap_app. apply NoDup_app. split_and!; [done| |apply NoDup_singleton].
    by intros x Hx ->%list_elem_of_singleton.
  - rewrite fmap_app. apply NoDup_app. split_and!; [done| |apply NoDup_singleton].
    by intros x Hx ->%list_elem_of_singleton.
Qed.

Lemma sim_admit :
  (ci_step s CiAdmit).1 = (fifo_step a CiAdmit).1 ∧
  refines (ci_step s CiAdmit).2 (fifo_step a CiAdmit).2.
Proof.
  cbn. unfold ci_admit.
  rewrite admit_queue_spec by (apply (refines_queue_nodup s a HR) || apply (refines_disjoint s a HR)).
  rewrite (refines_size s a HR). destruct HR as [Hl Hd Hq Hrun Hlive Hkeys Hids Hks].
  rewrite Hd. destruct (ff_drained a) eqn:Hdr.
  { cbn. split; [done|]. split; cbn; try done. rewrite Hrun. set_solver. }
  pose proof (start_first_spec (ff_limit a - active_count (ff_runs a)) (ff_runs a)) as Hsf.
  destruct (start_first _ _) as [ids l'] eqn:Hst. destruct Hsf as (Hi & Hw & Hs & Hp).
  rewrite Hl, Hq. cbn. split; [by rewrite Hi|].
  destruct (id_pairs_fields _ _ Hp) as (Hkp & Hri & Hrk).
  split; fields_cbn; [done|by rewrite Hdr|by rewrite Hw| |by rewrite Hkp|by rewrite Hp|by rewrite Hri
    |by rewrite Hrk].
  rewrite Hs, Hrun, <-Hi. set_solver.
Qed.

Lemma without_fields id (f : Run → bool) :
  run_id <$> filterb f (without id (ff_runs a)) =
  filterb (λ q, negb (String.eqb q id)) (run_id <$> filterb f (ff_runs a)).
Proof.
  clear HR. unfold without. induction (ff_runs a) as [|r l IH]; [done|].
  rewrite !filterb_cons. destruct (f r) eqn:Hf, (String.eqb (run_id r) id) eqn:Hid; cbn [negb];
    rewrite ?filterb_cons, ?fmap_cons, ?Hf, ?filterb_cons, ?Hid; cbn [negb]; by rewrite ?fmap_cons, ?IH.
Qed.

Lemma refines_without id :
  refines (ci_finish s id) (with_runs a (without id (ff_runs a))).
Proof.
  pose proof (without_fields id waiting) as Hw. pose proof (without_fields id run_started) as Hr.
  destruct HR as [Hl Hd Hq Hrun Hlive Hkeys Hids Hks]. unfold ci_finish. split; fields_cbn; [done|done| | | | | |].
  - by rewrite Hw, Hq.
  - rewrite Hr, Hrun. apply set_eq. intros x.
    rewrite elem_of_difference, !elem_of_list_to_set, elem_of_singleton, elem_of_filterb.
    rewrite negb_true_iff, String.eqb_neq. tauto.
  - rewrite Hkeys, Hlive. destruct (_ !! id) as [key|] eqn:Hk.
    + apply elem_of_list_to_map_2 in Hk. unfold id_pairs in Hk.
      apply list_elem_of_fmap in Hk as (r & [= -> ->] & Hin). unfold key_pairs.
      rewrite delete_list_to_map. f_equal. f_equal. apply filterb_ext. intros x Hx. f_equal.
      case_bool_decide as E; symmetry; [apply String.eqb_eq|apply String.eqb_neq].
      * by rewrite (same_field _ _ x r Hks Hx Hin E).
      * intros Hid. by rewrite (same_field _ _ x r Hids Hx Hin Hid) in E.
    + unfold without. rewrite (filterb_ext _ (λ _, true)).
      * f_equal. f_equal. symmetry. clear. induction (ff_runs a) as [|x l IH]; [done|].
        by rewrite filterb_cons, IH.
      * intros x Hx. apply negb_true_iff, String.eqb_neq. intros <-.
        apply not_elem_of_list_to_map_2 in Hk. apply Hk. unfold id_pairs.
        rewrite <-list_fmap_compose. apply list_elem_of_fmap. by exists x.
  - rewrite Hkeys. unfold id_pairs. rewrite delete_list_to_map. f_equal. f_equal.
    apply filterb_ext. intros x _. f_equal.
    case_bool_decide; symmetry; [by apply String.eqb_eq|by apply String.eqb_neq].
  - eapply sublist_NoDup; [exact Hids|]. apply fmap_sublist, sublist_filter.
  - eapply sublist_NoDup; [exact Hks|]. apply fmap_sublist, sublist_filter.
Qed.

Lemma queued_as_queue id :
  existsb (λ q, String.eqb q id) (sc_queue s) = existsb (queued_as id) (ff_runs a).
Proof.
  rewrite (rf_queue _ _ HR). clear HR. unfold queued_as. induction (ff_runs a) as [|r l IH]; [done|].
  rewrite filterb_cons. cbn. destruct (waiting r); cbn; by rewrite IH.
Qed.

Lemma sim_step op :
  fresh_op a op →
  (ci_step s op).1 = (fifo_step a op).1 ∧ refines (ci_step s op).2 (fifo_step a op).2.
Proof.
  destruct op as [key id| |id|id|limit|drained]; intros Hfresh.
  - by apply sim_submit.
  - apply sim_admit.
  - split; [done|]. apply refines_without.
  - cbn. unfold cancel_queued. rewrite queued_as_queue.
    destruct (existsb _ _); cbn; (split; [done|]); [apply refines_without|done].
  - split; [done|]. destruct HR. by split.
  - split; [done|]. destruct HR. by split.
Qed.
End simulation.

Lemma refines_new limit :
  refines (Scheduler_new limit) {| ff_limit := Nat.max limit 1; ff_drained := false; ff_runs := [] |}.
Proof. split; cbn; try done; constructor. Qed.

(** A run of both schedulers: the replies and the final states. *)
Fixpoint ci_run (s : Scheduler) (ops : list ci_op) : list ci_reply * Scheduler :=
  match ops with
  | [] => ([], s)
  | op :: ops' =>
      let '(r, s') := ci_step s op in let '(rs, s'') := ci_run s' ops' in (r :: rs, s'')
  end.
Fixpoint fifo_run (a : Fifo) (ops : list ci_op) : list ci_reply * Fifo :=
  match ops with
  | [] => ([], a)
  | op :: ops' =>
      let '(r, a') := fifo_step a op in let '(rs, a'') := fifo_run a' ops' in (r :: rs, a'')
  end.
Fixpoint fresh_ops (a : Fifo) (ops : list ci_op) : Prop :=
  match ops with
  | [] => True
  | op :: ops' => fresh_op a op ∧ fresh_ops (fifo_step a op).2 ops'
  end.

Lemma run_refines ops s a :
  refines s a → fresh_ops a ops →
  (ci_run s ops).1 = (fifo_run a ops).1 ∧ refines (ci_run s ops).2 (fifo_run a ops).2.
Proof.
  revert s a. induction ops as [|op ops IH]; intros s a HR; [done|]. intros [Hf Hfs].
  destruct (sim_step s a HR op Hf) as [Hr Hs]. cbn.
  destruct (ci_step s op) as [r s'], (fifo_step a op) as [r' a']. cbn in *. subst r'.
  destruct (IH s' a' Hs Hfs) as [Hrs Hss].
  destruct (ci_run s' ops), (fifo_run a' ops). cbn in *. by subst.
Qed.

(** C39. For every sequence of calls that submits fresh IDs the scheduler answers exactly like the
    abstract FIFO scheduler, and ends in a state that represents the abstract one. *)
Theorem ci_scheduler_refines_fifo limit ops :
  let a := {| ff_limit := Nat.max limit 1; ff_drained := false; ff_runs := [] |} in
  fresh_ops a ops →
  (ci_run (Scheduler_new limit) ops).1 = (fifo_run a ops).1 ∧
  refines (ci_run (Scheduler_new limit) ops).2 (fifo_run a ops).2.
Proof. intros a. apply run_refines, refines_new. Qed.

Definition demo_key (sha : string) : RunKey :=
  {| rk_sha := sha; rk_dirty := None; rk_workflow := "ci.yml"; rk_job := None;
     rk_trigger := "push"; rk_mode := "minimal"; rk_provider := "github"; rk_engine := "act";
     rk_payload_sha256 := "p"; rk_timeout_secs := 60; rk_secrets := [];
     rk_params := {| rp_pr_title := None; rp_inputs := ∅; rp_matrix := ∅; rp_env := ∅;
                     rp_ci_outputs := ∅ |} |}.
Definition demo_ci_ops : list ci_op :=
  [CiSubmit (demo_key "a") "r0"; CiSubmit (demo_key "b") "r1"; CiSubmit (demo_key "a") "r2";
   CiAdmit; CiFinish "r0"; CiAdmit].

Lemma ci_scheduler_refines_fifo_witness :
  (ci_run (Scheduler_new 1) demo_ci_ops).1 =
    [ReAdmission (AdmQueued "r0"); ReAdmission (AdmQueued "r1"); ReAdmission (AdmCoalesced "r0");
     ReStarted ["r0"]; ReNone; ReStarted ["r1"]].
Proof.
  rewrite (proj1 (ci_scheduler_refines_fifo 1 demo_ci_ops
    ltac:(cbn; repeat split; rewrite ?not_elem_of_cons; repeat split; try discriminate; set_solver))).
  vm_compute. reflexivity.
Defined.

(** Admission in every reachable state: the runs started are the front of the queue, in order;
    the limit is not exceeded (a lowered limit stops nothing); and unless draining, runs are
    left waiting only when the limit is reached. *)
Theorem ci_admission_fifo_bounded limit ops :
  fresh_ops {| ff_limit := Nat.max limit 1; ff_drained := false; ff_runs := [] |} ops →
  let s := (ci_run (Scheduler_new limit) ops).2 in
  let '(started, s') := ci_admit s in
  sc_queue s = started ++ sc_queue s' ∧
  sc_running s' = list_to_set started ∪ sc_running s ∧
  ci_running s' = (ci_running s + length started)%nat ∧
  (ci_running s' ≤ Nat.max (sc_limit s) (ci_running s))%nat ∧
  (sc_drained s = true → started = []) ∧
  (sc_drained s = false → sc_queue s' = [] ∨ sc_limit s ≤ ci_running s')%nat.
Proof.
  intros Hf s. destruct (run_refines ops _ _ (refines_new limit) Hf) as [_ HR]. fold s in HR.
  set (a := (fifo_run _ _).2) in HR. unfold ci_admit, ci_running.
  rewrite admit_queue_spec by (apply (refines_queue_nodup s a HR) || apply (refines_disjoint s a HR)).
  set (n := if sc_drained s then 0%nat else (sc_limit s - size (sc_running s))%nat). fields_cbn.
  assert (size (list_to_set (take n (sc_queue s)) ∪ sc_running s) =
            (size (sc_running s) + length (take n (sc_queue s)))%nat) as Hsize.
  { rewrite size_union, size_list_to_set; [lia| |].
    - pose proof (refines_queue_nodup s a HR) as Hnd. rewrite <-(take_drop n (sc_queue s)) in Hnd.
      by apply NoDup_app in Hnd as [? _].
    - intros x Hx%elem_of_list_to_set Hr. apply (refines_disjoint s a HR x); [|done].
      rewrite <-(take_drop n (sc_queue s)). set_solver. }
  rewrite app_nil_l, Hsize, length_take. split_and!; [by rewrite take_drop|done|done|..].
  - unfold n. destruct (sc_drained s); lia.
  - unfold n. by intros ->.
  - unfold n. intros ->. destruct (Nat.le_gt_cases (length (sc_queue s))
      (sc_limit s - size (sc_running s))) as [Hle|Hgt]; [left; by apply drop_ge|right; lia].
Qed.

Lemma ci_admission_fifo_bounded_witness :
  sc_queue (ci_run (Scheduler_new 1) (take 3 demo_ci_ops)).2 = ["r0"; "r1"] ∧
  sc_queue (ci_run (Scheduler_new 1) (take 3 demo_ci_ops)).2 =
    (ci_admit (ci_run (Scheduler_new 1) (take 3 demo_ci_ops)).2).1 ++
    sc_queue (ci_admit (ci_run (Scheduler_new 1) (take 3 demo_ci_ops)).2).2.
Proof.
  split; [vm_compute; reflexivity|].
  pose proof (ci_admission_fifo_bounded 1 (take 3 demo_ci_ops)
    ltac:(cbn; repeat split; rewrite ?not_elem_of_cons; repeat split; try discriminate; set_solver))
    as H. cbv zeta in H. destruct (ci_admit _) as [started s'] in H |- *. exact (proj1 H).
Defined.

(** ** The default limit *)

Lemma core_pairs_size topology ids cores r :
  core_pairs topology ids cores = Some r → (size r ≤ size cores + length ids)%nat.
Proof.
  revert cores. induction ids as [|i ids IH]; intros cores; cbn; [intros [= <-]; lia|].
  destruct (topology i) as [[p|] [c|]]; try done. intros Hr%IH.
  assert (size ({[(p, c)]} ∪ cores) ≤ S (size cores))%nat; [|lia].
  rewrite size_union_alt, size_singleton.
  assert (size (cores ∖ {[(p, c)]}) ≤ size cores)%nat by (apply subseteq_size; set_solver). lia.
Qed.

(** Whatever the topology files and the affinity list say, the physical core count is at least
    one and at most the logical CPUs the process may use, so the default limit is at least one
    run and never more than a quarter of those CPUs (or one). *)
Theorem default_limit_within_cpus topology logical allowed :
  let cores := physical_cores_linux topology logical allowed in
  (1 ≤ cores ≤ Nat.max logical 1)%nat ∧
  (1 ≤ default_limit cores ≤ Nat.max (logical / 4) 1)%nat.
Proof.
  cbv zeta. assert (1 ≤ physical_cores_linux topology logical allowed ≤ Nat.max logical 1)%nat as H.
  { unfold physical_cores_linux.
    assert (1 ≤ Nat.max (logical / 2) 1 ≤ Nat.max logical 1)%nat as Hfall.
    { pose proof (Nat.Div0.div_le_upper_bound logical 2 logical). lia. }
    destruct (allowed_cpu_ids allowed) as [ids|]; [|done]. case_bool_decide as Hlt; [done|].
    destruct (core_pairs _ _ _) as [cores|] eqn:Hc; [|done].
    apply core_pairs_size in Hc. rewrite size_empty in Hc.
    unfold size, set_size in Hlt. cbn in *. lia. }
  split; [done|]. unfold default_limit.
  assert (physical_cores_linux topology logical allowed / 4 ≤ Nat.max logical 1 / 4)%nat as Hd.
  { apply Nat.Div0.div_le_mono. lia. }
  destruct logical as [|n]; [cbn in *; lia|]. rewrite Nat.max_l in Hd by lia. lia.
Qed.

(** An affinity list that parses names exactly the CPUs of its ranges. *)
Lemma cpu_ranges_spec parts ids r :
  cpu_ranges ids parts = Some r →
  ∀ i, i ∈ r ↔ i ∈ ids ∨ Exists (λ p, ∃ lo hi, cpu_range p = Some (lo, hi) ∧ lo ≤ i ≤ hi)%Z parts.
Proof.
  revert ids. induction parts as [|p parts IH]; intros ids; cbn.
  { intros [= <-] i. rewrite Exists_nil. tauto. }
  destruct (cpu_range p) as [[lo hi]|] eqn:Hp; [|done]. cbn. intros Hr i.
  rewrite (IH _ Hr i), elem_of_union, elem_of_list_to_set, Exists_cons, Hp. unfold seq_closed.
  rewrite elem_of_seqZ. split.
  - intros [[?|?]|?]; [by left|right; left; exists lo, hi; split; [done|lia]|auto].
  - intros [?|[(lo' & hi' & [= <- <-] & ?)|?]]; [by left; left|left; right; lia|by right].
Qed.
