(* ===== verification/Jobs.v ===== *)
(** * Jobs: the daemon's bounded admission scheduler

    The model of [bosn-service/src/jobs.rs]. [Jobs] is the scheduler's whole state and each
    method is a function on it. Code that can panic ([unwrap], [expect], indexing, an unsigned
    subtraction below zero) returns [option], with [None] for the panic. [Instant::now] and
    [SystemTime::now] are two arbitrary clocks, read by position: [js_reads] counts the reads
    made so far, so every read of the source is a read of its own. Job IDs and log cursors are
    [u64] in the source and unbounded here (a daemon would have to accept 2^64 submissions);
    counts are [usize] as [nat]. Times are nanoseconds.

    [pump_at] and [finish_at] call each other: finishing a job admits the next ones, and a
    job whose follower's lease lapsed is finished at its admission. The recursion depth is a
    fuel argument, [pump_fuel], and the two inner loops are bounded by [queue_weight];
    JobsInvariant.v proves both bounds are enough. *)

From S2P Require Export Owners.

Local Open Scope string_scope.
Local Open Scope list_scope.
Local Open Scope Z_scope.
Local Open Scope bosn_scope.

Definition DEFAULT_MAX_LOG_RECORDS : nat := 5000%nat.
Definition MAX_LOG_LINE_BYTES : Z := 2048.
Definition MAX_LOG_PAGE_RECORDS : nat := 256%nat.
Definition MAX_LOG_PAGE_BYTES : Z := 512 * 1024.
Definition RETAINED_FINISHED_JOBS : nat := 256%nat.
Definition RETAINED_FINISHED_MIN_AGE : Z := duration_from_secs 600.

Inductive JobState := Queued | Running | Cancelling | Succeeded | Failed | Cancelled | Superseded.
#[global] Instance JobState_eq_dec : EqDecision JobState.
Proof. solve_decision. Defined.

Definition terminal (state : JobState) : bool :=
  match state with Succeeded | Failed | Cancelled | Superseded => true | _ => false end.

Inductive JobClass := Runner | Control.
#[global] Instance JobClass_eq_dec : EqDecision JobClass.
Proof. solve_decision. Defined.
#[global] Instance JobClass_countable : Countable JobClass.
Proof.
  refine (inj_countable' (λ c, match c with Runner => false | Control => true end)
            (λ b, if b : bool then Control else Runner) _).
  by intros [].
Defined.

Definition class_label (class : JobClass) : string :=
  match class with Runner => "runner" | Control => "control" end.

Record SchedulerPolicy := { sp_runner_slots : nat; sp_control_slots : nat }.

Record Job := {
  j_id : Z;
  j_workspace : string;
  j_stack : string;
  j_digest : string;
  j_state : JobState;
  j_error : option string;
  j_log_start : Z;
  j_class : JobClass;
  j_slot : option nat;
  j_submitted_at : Z;
  j_started_at : option Z;
  j_finished_at : option Z;
  j_last_progress : option Z;
  j_logs : list (Z * string);
}.

Definition j_key (j : Job) : string * string := (j_workspace j, j_stack j).

(** Everything but the retained log. *)
Definition summary (j : Job) : Job :=
  {| j_id := j_id j; j_workspace := j_workspace j; j_stack := j_stack j;
     j_digest := j_digest j; j_state := j_state j; j_error := j_error j;
     j_log_start := j_log_start j; j_class := j_class j; j_slot := j_slot j;
     j_submitted_at := j_submitted_at j; j_started_at := j_started_at j;
     j_finished_at := j_finished_at j; j_last_progress := j_last_progress j;
     j_logs := [] |}.

Inductive Submission :=
| SubStarted (id : Z)
| SubQueued (id : Z)
| SubJoined (id : Z)
| SubSuperseded (job replacement : Z).

Inductive JobError := UnknownJob | Finished | Closing | LogTooLarge.

Record LogPage := {
  lp_retained_from : Z;
  lp_next : Z;
  lp_gap : bool;
  lp_records : list (Z * string);
}.

Record Slot := { sl_active : option Z; sl_pending : option Z }.
Definition Slot_default : Slot := {| sl_active := None; sl_pending := None |}.

Record Lease := { le_period : Z; le_seen : Z }.

Record Jobs := {
  js_policy : SchedulerPolicy;
  js_max_logs : nat;
  js_next : Z;
  js_running : gmap JobClass nat;
  js_closing : bool;
  js_jobs : gmap Z Job;
  js_slots : gmap (string * string) Slot;
  js_queues : gmap JobClass (gmap string (list Z));
  js_served : gmap JobClass string;
  js_runner_slots : list (option Z);
  js_finished : list Z;
  js_started : list Z;
  js_leases : gmap Z Lease;
  js_owners : OwnersTable Z;
  (** Clock reads made so far. *)
  js_reads : nat;
}.

(** ** Field updates *)

Definition with_job_state (j : Job) (st : JobState) : Job :=
  {| j_id := j_id j; j_workspace := j_workspace j; j_stack := j_stack j;
     j_digest := j_digest j; j_state := st; j_error := j_error j;
     j_log_start := j_log_start j; j_class := j_class j; j_slot := j_slot j;
     j_submitted_at := j_submitted_at j; j_started_at := j_started_at j;
     j_finished_at := j_finished_at j; j_last_progress := j_last_progress j;
     j_logs := j_logs j |}.
Definition with_job_started (j : Job) (slot : option nat) (at_ now : Z) : Job :=
  {| j_id := j_id j; j_workspace := j_workspace j; j_stack := j_stack j;
     j_digest := j_digest j; j_state := Running; j_error := j_error j;
     j_log_start := j_log_start j; j_class := j_class j; j_slot := slot;
     j_submitted_at := j_submitted_at j; j_started_at := Some at_;
     j_finished_at := j_finished_at j; j_last_progress := Some now;
     j_logs := j_logs j |}.
Definition with_job_finished (j : Job) (st : JobState) (error : option string) (at_ : Z) : Job :=
  {| j_id := j_id j; j_workspace := j_workspace j; j_stack := j_stack j;
     j_digest := j_digest j; j_state := st; j_error := error;
     j_log_start := j_log_start j; j_class := j_class j; j_slot := None;
     j_submitted_at := j_submitted_at j; j_started_at := j_started_at j;
     j_finished_at := Some at_; j_last_progress := j_last_progress j;
     j_logs := j_logs j |}.
Definition with_job_log (j : Job) (log_start : Z) (progress : option Z)
    (logs : list (Z * string)) : Job :=
  {| j_id := j_id j; j_workspace := j_workspace j; j_stack := j_stack j;
     j_digest := j_digest j; j_state := j_state j; j_error := j_error j;
     j_log_start := log_start; j_class := j_class j; j_slot := j_slot j;
     j_submitted_at := j_submitted_at j; j_started_at := j_started_at j;
     j_finished_at := j_finished_at j; j_last_progress := progress;
     j_logs := logs |}.

Definition set_next (s : Jobs) v := {|
  js_policy := js_policy s; js_max_logs := js_max_logs s; js_next := v;
  js_running := js_running s; js_closing := js_closing s; js_jobs := js_jobs s;
  js_slots := js_slots s; js_queues := js_queues s; js_served := js_served s;
  js_runner_slots := js_runner_slots s; js_finished := js_finished s;
  js_started := js_started s; js_leases := js_leases s; js_owners := js_owners s;
  js_reads := js_reads s |}.
Definition set_running (s : Jobs) v := {|
  js_policy := js_policy s; js_max_logs := js_max_logs s; js_next := js_next s;
  js_running := v; js_closing := js_closing s; js_jobs := js_jobs s;
  js_slots := js_slots s; js_queues := js_queues s; js_served := js_served s;
  js_runner_slots := js_runner_slots s; js_finished := js_finished s;
  js_started := js_started s; js_leases := js_leases s; js_owners := js_owners s;
  js_reads := js_reads s |}.
Definition set_closing (s : Jobs) v := {|
  js_policy := js_policy s; js_max_logs := js_max_logs s; js_next := js_next s;
  js_running := js_running s; js_closing := v; js_jobs := js_jobs s;
  js_slots := js_slots s; js_queues := js_queues s; js_served := js_served s;
  js_runner_slots := js_runner_slots s; js_finished := js_finished s;
  js_started := js_started s; js_leases := js_leases s; js_owners := js_owners s;
  js_reads := js_reads s |}.
Definition set_jobs (s : Jobs) v := {|
  js_policy := js_policy s; js_max_logs := js_max_logs s; js_next := js_next s;
  js_running := js_running s; js_closing := js_closing s; js_jobs := v;
  js_slots := js_slots s; js_queues := js_queues s; js_served := js_served s;
  js_runner_slots := js_runner_slots s; js_finished := js_finished s;
  js_started := js_started s; js_leases := js_leases s; js_owners := js_owners s;
  js_reads := js_reads s |}.
Definition set_slots (s : Jobs) v := {|
  js_policy := js_policy s; js_max_logs := js_max_logs s; js_next := js_next s;
  js_running := js_running s; js_closing := js_closing s; js_jobs := js_jobs s;
  js_slots := v; js_queues := js_queues s; js_served := js_served s;
  js_runner_slots := js_runner_slots s; js_finished := js_finished s;
  js_started := js_started s; js_leases := js_leases s; js_owners := js_owners s;
  js_reads := js_reads s |}.
Definition set_queues (s : Jobs) v := {|
  js_policy := js_policy s; js_max_logs := js_max_logs s; js_next := js_next s;
  js_running := js_running s; js_closing := js_closing s; js_jobs := js_jobs s;
  js_slots := js_slots s; js_queues := v; js_served := js_served s;
  js_runner_slots := js_runner_slots s; js_finished := js_finished s;
  js_started := js_started s; js_leases := js_leases s; js_owners := js_owners s;
  js_reads := js_reads s |}.
Definition set_served (s : Jobs) v := {|
  js_policy := js_policy s; js_max_logs := js_max_logs s; js_next := js_next s;
  js_running := js_running s; js_closing := js_closing s; js_jobs := js_jobs s;
  js_slots := js_slots s; js_queues := js_queues s; js_served := v;
  js_runner_slots := js_runner_slots s; js_finished := js_finished s;
  js_started := js_started s; js_leases := js_leases s; js_owners := js_owners s;
  js_reads := js_reads s |}.
Definition set_runner_slots (s : Jobs) v := {|
  js_policy := js_policy s; js_max_logs := js_max_logs s; js_next := js_next s;
  js_running := js_running s; js_closing := js_closing s; js_jobs := js_jobs s;
  js_slots := js_slots s; js_queues := js_queues s; js_served := js_served s;
  js_runner_slots := v; js_finished := js_finished s;
  js_started := js_started s; js_leases := js_leases s; js_owners := js_owners s;
  js_reads := js_reads s |}.
Definition set_finished (s : Jobs) v := {|
  js_policy := js_policy s; js_max_logs := js_max_logs s; js_next := js_next s;
  js_running := js_running s; js_closing := js_closing s; js_jobs := js_jobs s;
  js_slots := js_slots s; js_queues := js_queues s; js_served := js_served s;
  js_runner_slots := js_runner_slots s; js_finished := v;
  js_started := js_started s; js_leases := js_leases s; js_owners := js_owners s;
  js_reads := js_reads s |}.
Definition set_started (s : Jobs) v := {|
  js_policy := js_policy s; js_max_logs := js_max_logs s; js_next := js_next s;
  js_running := js_running s; js_closing := js_closing s; js_jobs := js_jobs s;
  js_slots := js_slots s; js_queues := js_queues s; js_served := js_served s;
  js_runner_slots := js_runner_slots s; js_finished := js_finished s;
  js_started := v; js_leases := js_leases s; js_owners := js_owners s;
  js_reads := js_reads s |}.
Definition set_leases (s : Jobs) v := {|
  js_policy := js_policy s; js_max_logs := js_max_logs s; js_next := js_next s;
  js_running := js_running s; js_closing := js_closing s; js_jobs := js_jobs s;
  js_slots := js_slots s; js_queues := js_queues s; js_served := js_served s;
  js_runner_slots := js_runner_slots s; js_finished := js_finished s;
  js_started := js_started s; js_leases := v; js_owners := js_owners s;
  js_reads := js_reads s |}.
Definition set_owners (s : Jobs) v := {|
  js_policy := js_policy s; js_max_logs := js_max_logs s; js_next := js_next s;
  js_running := js_running s; js_closing := js_closing s; js_jobs := js_jobs s;
  js_slots := js_slots s; js_queues := js_queues s; js_served := js_served s;
  js_runner_slots := js_runner_slots s; js_finished := js_finished s;
  js_started := js_started s; js_leases := js_leases s; js_owners := v;
  js_reads := js_reads s |}.
Definition set_reads (s : Jobs) v := {|
  js_policy := js_policy s; js_max_logs := js_max_logs s; js_next := js_next s;
  js_running := js_running s; js_closing := js_closing s; js_jobs := js_jobs s;
  js_slots := js_slots s; js_queues := js_queues s; js_served := js_served s;
  js_runner_slots := js_runner_slots s; js_finished := js_finished s;
  js_started := js_started s; js_leases := js_leases s; js_owners := js_owners s;
  js_reads := v |}.

(** ** Construction *)

Definition Jobs_default : Jobs := {|
  js_policy := {| sp_runner_slots := 1; sp_control_slots := 1 |};
  js_max_logs := DEFAULT_MAX_LOG_RECORDS; js_next := 1; js_running := ∅; js_closing := false;
  js_jobs := ∅; js_slots := ∅; js_queues := ∅; js_served := ∅; js_runner_slots := [None];
  js_finished := []; js_started := []; js_leases := ∅; js_owners := ∅; js_reads := 0 |}.

Definition with_policy (policy : SchedulerPolicy) : Jobs :=
  let policy := {| sp_runner_slots := Nat.max (sp_runner_slots policy) 1;
                   sp_control_slots := Nat.max (sp_control_slots policy) 1 |} in
  let d := Jobs_default in
  {| js_policy := policy; js_max_logs := js_max_logs d; js_next := js_next d;
     js_running := js_running d; js_closing := js_closing d; js_jobs := js_jobs d;
     js_slots := js_slots d; js_queues := js_queues d; js_served := js_served d;
     js_runner_slots := replicate (sp_runner_slots policy) None;
     js_finished := js_finished d; js_started := js_started d; js_leases := js_leases d;
     js_owners := js_owners d; js_reads := js_reads d |}.

Definition Jobs_new (max_running : nat) : Jobs :=
  with_policy {| sp_runner_slots := max_running; sp_control_slots := max_running |}.

(** ** Queues *)

Definition job_is (s : Jobs) (id : Z) (p : JobState → bool) : bool :=
  is_some_and (js_jobs s !! id) (λ j, p (j_state j)).
Definition is_queued (st : JobState) : bool := bool_decide (st = Queued).

(** [queues.entry(class).or_default().entry(workspace).or_default()], updated by [f]. *)
Definition update_queue (s : Jobs) (class : JobClass) (workspace : string)
    (f : list Z → list Z) : Jobs :=
  set_queues s (entry_update (js_queues s) class ∅ (λ queues, entry_update queues workspace [] f)).

Definition enqueue (s : Jobs) (id : Z) : option Jobs :=
  job ← js_jobs s !! id;
  Some (update_queue s (j_class job) (j_workspace job) (λ q, q ++ [id])).

Definition cap (s : Jobs) (class : JobClass) : nat :=
  match class with
  | Runner => sp_runner_slots (js_policy s)
  | Control => sp_control_slots (js_policy s)
  end.
Definition running_of (s : Jobs) (class : JobClass) : nat := default 0%nat (js_running s !! class).

(** The first workspace after the one served last, in key order, wrapping around. *)
Definition after_served (last workspace : string) : bool :=
  match String.compare last workspace with Lt => true | _ => false end.
Definition pick_workspace (served : option string) (queues : gmap string (list Z)) : option string :=
  let keys := btree_keys String.compare queues in
  match (last ← served; head (filterb (after_served last) keys)) with
  | Some workspace => Some workspace
  | None => head keys
  end.

Fixpoint next_queued_loop (fuel : nat) (s : Jobs) (class : JobClass) : option (option Z * Jobs) :=
  match fuel with
  | O => None
  | S fuel =>
      match js_queues s !! class with
      | None => Some (None, s)
      | Some queues =>
          match pick_workspace (js_served s !! class) queues with
          | None => Some (None, s)
          | Some workspace =>
              queue ← queues !! workspace;
              let id := head queue in
              let queue := tail queue in
              let queues :=
                match queue with
                | [] => delete workspace queues
                | _ => <[workspace := queue]> queues
                end in
              let s := set_queues s (<[class := queues]> (js_queues s)) in
              match id with
              | None => next_queued_loop fuel s class
              | Some id =>
                  if job_is s id is_queued
                  then Some (Some id, set_served s (<[class := workspace]> (js_served s)))
                  else next_queued_loop fuel s class
              end
          end
      end
  end.

(** Entries and queues still to visit: a bound on the iterations of the loops over a class. *)
Definition queue_weight (s : Jobs) (class : JobClass) : nat :=
  Z.to_nat (map_total (λ q, 1 + Z.of_nat (length q)) (default ∅ (js_queues s !! class))).

Definition next_queued (s : Jobs) (class : JobClass) : option (option Z * Jobs) :=
  next_queued_loop (S (queue_weight s class)) s class.

(** ** Leases *)

Definition lease_stale (s : Jobs) (id now : Z) : bool :=
  is_some_and (js_leases s !! id) (λ lease,
    le_period lease / 2 <? saturating_duration_since now (le_seen lease)).
Definition lease_lapsed (s : Jobs) (id now : Z) : bool :=
  is_some_and (js_leases s !! id) (λ lease,
    le_period lease <? saturating_duration_since now (le_seen lease)).

Definition lease (s : Jobs) (id period now : Z) : Jobs :=
  if is_none_or (js_jobs s !! id) (λ job, terminal (j_state job)) then s
  else
    let l := default {| le_period := period; le_seen := now |} (js_leases s !! id) in
    set_leases s (<[id := {| le_period := Z.min (le_period l) period; le_seen := now |}]>
                    (js_leases s)).

Section scheduler.
(** [Instant::now] and [SystemTime::now], by read. *)
Context (instant wall : nat → Z).

Definition tick (s : Jobs) : Jobs := set_reads s (S (js_reads s)).
Definition instant_now (s : Jobs) : Z := instant (js_reads s).
Definition wall_now (s : Jobs) : Z := wall (js_reads s).

(** *** Logs *)

Definition log (s : Jobs) (id : Z) (line : string) : result JobError Z * Jobs :=
  if MAX_LOG_LINE_BYTES <? Z.of_nat (String.length line) then (Err LogTooLarge, s)
  else
    match js_jobs s !! id with
    | None => (Err UnknownJob, s)
    | Some j =>
        let '(progress, s) :=
          if negb (terminal (j_state j)) then (Some (instant_now s), tick s)
          else (j_last_progress j, s) in
        let cursor := j_log_start j + Z.of_nat (length (j_logs j)) in
        let logs := j_logs j ++ [(cursor, line)] in
        let '(log_start, logs) :=
          if (js_max_logs s <? length logs)%nat then (j_log_start j + 1, tail logs)
          else (j_log_start j, logs) in
        (Ok cursor, set_jobs s (<[id := with_job_log j log_start progress logs]> (js_jobs s)))
    end.

(** *** Admission *)

(** The lowest free runner slot. *)
Fixpoint free_slot (slots : list (option Z)) : option nat :=
  match slots with
  | [] => None
  | None :: _ => Some O
  | Some _ :: slots' => S <$> free_slot slots'
  end.

Definition start_job (s : Jobs) (class : JobClass) (id now : Z) : option Jobs :=
  '(slot, s) ←
    match class with
    | Runner =>
        index ← free_slot (js_runner_slots s);
        Some (Some index, set_runner_slots s (<[index := Some id]> (js_runner_slots s)))
    | Control => Some (None, s)
    end;
  job ← js_jobs s !! id;
  let s := set_jobs s (<[id := with_job_started job slot (wall_now s) now]> (js_jobs s)) in
  let s := tick s in
  let s := set_running s (entry_update (js_running s) class 0%nat S) in
  Some (set_started s (js_started s ++ [id])).

(** The [while] of [pump_at] for one class. *)
Fixpoint admit_loop (fuel : nat) (s : Jobs) (class : JobClass) (now : Z)
    (lapsed deferred : list Z) : option (list Z * list Z * Jobs) :=
  match fuel with
  | O => None
  | S fuel =>
      if (running_of s class <? cap s class)%nat then
        '(next, s) ← next_queued s class;
        match next with
        | None => Some (lapsed, deferred, s)
        | Some id =>
            if lease_lapsed s id now then admit_loop fuel s class now (lapsed ++ [id]) deferred
            else if lease_stale s id now then
              admit_loop fuel s class now lapsed (deferred ++ [id])
            else
              s ← start_job s class id now;
              admit_loop fuel s class now lapsed deferred
        end
      else Some (lapsed, deferred, s)
  end.

Fixpoint restore_deferred (s : Jobs) (class : JobClass) (ids : list Z) : option Jobs :=
  match ids with
  | [] => Some s
  | id :: ids' =>
      job ← js_jobs s !! id;
      restore_deferred (update_queue s class (j_workspace job) (λ q, id :: q)) class ids'
  end.

Definition admit_class (s : Jobs) (class : JobClass) (now : Z) (lapsed : list Z) :
    option (list Z * Jobs) :=
  '(lapsed, deferred, s) ← admit_loop (S (queue_weight s class)) s class now lapsed [];
  s ← restore_deferred s class (reverse deferred);
  Some (lapsed, s).

(** *** Finishing *)

Fixpoint retire_loop (finished : list Z) (s : Jobs) : option (list Z * Jobs) :=
  match finished with
  | [] => Some ([], s)
  | oldest :: rest =>
      if (length finished <=? RETAINED_FINISHED_JOBS)%nat then Some (finished, s)
      else
        job ← js_jobs s !! oldest;
        let '(old_enough, s) :=
          match j_finished_at job with
          | Some at_ =>
              (* a clock that stepped back before [at_] makes [elapsed] fail *)
              (if wall_now s <? at_ then true
               else RETAINED_FINISHED_MIN_AGE <=? wall_now s - at_, tick s)
          | None => (true, s)
          end in
        if negb old_enough then Some (finished, s)
        else retire_loop rest (set_jobs s (delete oldest (js_jobs s)))
  end.
Definition retire_finished (s : Jobs) : option Jobs :=
  '(finished, s) ← retire_loop (js_finished s) s;
  Some (set_finished s finished).

(** A slot of the key table after [id] ended, and the job that takes its place. *)
Definition vacate (sl : Slot) (id : Z) : Slot * option Z :=
  if bool_decide (sl_active sl = Some id)
  then ({| sl_active := sl_pending sl; sl_pending := None |}, sl_pending sl)
  else if bool_decide (sl_pending sl = Some id)
  then ({| sl_active := sl_active sl; sl_pending := None |}, None)
  else (sl, None).

(** [finish_at] up to its last call, [pump_at]. *)
Definition finish_job (s : Jobs) (id : Z) (state : JobState) (error : option string) :
    option Jobs :=
  j ← js_jobs s !! id;
  let key := j_key j in
  let was_running := match j_state j with Running | Cancelling => true | _ => false end in
  let s := set_jobs s (<[id := with_job_finished j state error (wall_now s)]> (js_jobs s)) in
  let s := tick s in
  let class := j_class j in
  s ← match j_slot j with
      | Some slot =>
          if (slot <? length (js_runner_slots s))%nat
          then Some (set_runner_slots s (<[slot := None]> (js_runner_slots s)))
          else None
      | None => Some s
      end;
  let s := set_leases s (delete id (js_leases s)) in
  let s := set_owners s (forget (js_owners s) id) in
  s ← (if was_running then
         match js_running s !! class with
         | Some (S n) => Some (set_running s (<[class := n]> (js_running s)))
         | _ => None
         end
       else Some s);
  sl ← js_slots s !! key;
  let '(sl, promoted) := vacate sl id in
  let s := set_slots s
    (match sl_active sl, sl_pending sl with
     | None, None => delete key (js_slots s)
     | _, _ => <[key := sl]> (js_slots s)
     end) in
  s ← match promoted with Some next => enqueue s next | None => Some s end;
  let s := set_finished s (js_finished s ++ [id]) in
  retire_finished s.

Definition lapsed_message : string :=
  "[bosn] cancelling: the client following this job stopped polling before it started".

(** The final loop of [pump_at], with the recursive calls made by [pump]. *)
Fixpoint finish_lapsed (pump : Jobs → Z → option Jobs) (s : Jobs) (lapsed : list Z) (now : Z) :
    option Jobs :=
  match lapsed with
  | [] => Some s
  | id :: lapsed' =>
      let s := (log s id lapsed_message).2 in
      s ← finish_job s id Cancelled (Some "cancelled");
      s ← pump s now;
      finish_lapsed pump s lapsed' now
  end.

Fixpoint pump_fueled (fuel : nat) (s : Jobs) (now : Z) : option Jobs :=
  match fuel with
  | O => None
  | S fuel =>
      if js_closing s then Some s
      else
        '(lapsed, s) ← admit_class s Control now [];
        '(lapsed, s) ← admit_class s Runner now lapsed;
        finish_lapsed (pump_fueled fuel) s lapsed now
  end.

(** Each nested call follows the end of one queued job. *)
Definition pump_fuel (s : Jobs) : nat := S (size (js_jobs s)).

Definition pump_at (s : Jobs) (now : Z) : option Jobs := pump_fueled (pump_fuel s) s now.
Definition pump (s : Jobs) : option Jobs := pump_at (tick s) (instant_now s).

Definition finish_at (s : Jobs) (id : Z) (state : JobState) (error : option string) (now : Z) :
    option Jobs :=
  s ← finish_job s id state error;
  pump_at s now.
Definition finish (s : Jobs) (id : Z) (state : JobState) (error : option string) : option Jobs :=
  finish_at (tick s) id state error (instant_now s).

(** *** Submission *)

(** The rest of [submit_class], from the new job's ID on; [active] is the slot's active job
    as read at the start. *)
Definition admit_new (s : Jobs) (key : string * string) (digest : string) (class : JobClass)
    (active : option Z) : option (result JobError Submission * Jobs) :=
  let id := js_next s in
  let s := set_next s (js_next s + 1) in
  let job := {| j_id := id; j_workspace := key.1; j_stack := key.2; j_digest := digest;
                j_state := Queued; j_error := None; j_log_start := 0; j_class := class;
                j_slot := None; j_submitted_at := wall_now s; j_started_at := None;
                j_finished_at := None; j_last_progress := None; j_logs := [] |} in
  let s := set_jobs (tick s) (<[id := job]> (js_jobs s)) in
  sl ← js_slots s !! key;
  match active with
  | Some _ =>
      let s := set_slots s
        (<[key := {| sl_active := sl_active sl; sl_pending := Some id |}]> (js_slots s)) in
      Some (Ok (SubQueued id), s)
  | None =>
      let s := set_slots s
        (<[key := {| sl_active := Some id; sl_pending := sl_pending sl |}]> (js_slots s)) in
      s ← enqueue s id;
      s ← pump s;
      j ← js_jobs s !! id;
      Some (Ok (if bool_decide (j_state j = Running) then SubStarted id else SubQueued id), s)
  end.

(** The pending entry of the key: joined when the digest is the same, else superseded. *)
Definition submit_over_pending (s : Jobs) (key : string * string) (digest : string)
    (class : JobClass) (active pending : option Z) :
    option (result JobError Submission * Jobs) :=
  match pending with
  | Some id =>
      j ← js_jobs s !! id;
      if String.eqb (j_digest j) digest then Some (Ok (SubJoined id), s)
      else
        s ← finish s id Superseded (Some "superseded");
        admit_new s key digest class active
  | None => admit_new s key digest class active
  end.

Definition submit_class (s : Jobs) (workspace stack digest : string) (class : JobClass) :
    option (result JobError Submission * Jobs) :=
  if js_closing s then Some (Err Closing, s)
  else
    let key := (workspace, stack) in
    let sl := default Slot_default (js_slots s !! key) in
    let s := set_slots s (<[key := sl]> (js_slots s)) in
    match sl_active sl with
    | Some id =>
        j ← js_jobs s !! id;
        if String.eqb (j_digest j) digest && negb (bool_decide (j_state j = Cancelling))
        then Some (Ok (SubJoined id), s)
        else submit_over_pending s key digest class (sl_active sl) (sl_pending sl)
    | None => submit_over_pending s key digest class (sl_active sl) (sl_pending sl)
    end.
Definition submit (s : Jobs) (workspace stack digest : string) :
    option (result JobError Submission * Jobs) :=
  submit_class s workspace stack digest Control.

(** *** Following, owning and cancelling *)

Definition touch (s : Jobs) (id now : Z) : option Jobs :=
  match js_leases s !! id with
  | None => Some s
  | Some l =>
      let s := set_leases s
        (<[id := {| le_period := le_period l; le_seen := now |}]> (js_leases s)) in
      if job_is s id is_queued then pump_at s now else Some s
  end.

Definition own (s : Jobs) (id : Z) (owner : option ClientOwner) (created : bool) : Jobs :=
  if job_is s id (λ st, negb (terminal st))
  then set_owners s (submitted (js_owners s) id owner created) else s.

Definition is_queued_or_running (st : JobState) : bool :=
  match st with Queued | Running => true | _ => false end.

Definition jobs_orphaned (s : Jobs) (liveness : history → ClientOwner → Liveness) :
    list (Z * list Z) * Jobs :=
  let '(out, owned, _) := orphaned Z.compare liveness (js_owners s) in
  (filterb (λ e, job_is s e.1 is_queued_or_running) out, set_owners s owned).

Definition expired_leases (s : Jobs) (now : Z) : list Z :=
  (filterb (λ e : Z * Lease,
     (le_period e.2 <? saturating_duration_since now (le_seen e.2))
     && job_is s e.1 is_queued_or_running) (btree_iter Z.compare (js_leases s))).*1.

Definition take_started (s : Jobs) : list Z * Jobs := (js_started s, set_started s []).

Definition cancel (s : Jobs) (id : Z) : option (result JobError unit * Jobs) :=
  match js_jobs s !! id with
  | None => Some (Err UnknownJob, s)
  | Some j =>
      if terminal (j_state j) then Some (Err Finished, s)
      else if bool_decide (j_state j = Running) then
        Some (Ok (), set_jobs s (<[id := with_job_state j Cancelling]> (js_jobs s)))
      else
        s ← finish s id Cancelled (Some "cancelled");
        Some (Ok (), s)
  end.

Definition job (s : Jobs) (id : Z) : result JobError Job :=
  ok_or (summary <$> js_jobs s !! id) UnknownJob.

Definition settled_state (state : JobState) (ok : bool) : JobState :=
  if bool_decide (state = Cancelling) then Cancelled else if ok then Succeeded else Failed.

Definition settle_with_error_at (s : Jobs) (id : Z) (ok : bool) (error : option string)
    (now : Z) : option (result JobError unit * Jobs) :=
  match js_jobs s !! id with
  | None => Some (Err UnknownJob, s)
  | Some j =>
      if terminal (j_state j) then Some (Err Finished, s)
      else
        let state := settled_state (j_state j) ok in
        s ← finish_at s id state (if bool_decide (state = Failed) then error else None) now;
        Some (Ok (), s)
  end.
Definition settle_with_error (s : Jobs) (id : Z) (ok : bool) (error : option string) :
    option (result JobError unit * Jobs) :=
  settle_with_error_at (tick s) id ok error (instant_now s).
Definition settle (s : Jobs) (id : Z) (ok : bool) : option (result JobError unit * Jobs) :=
  settle_with_error s id ok None.

(** *** Stopping *)

Definition ids_where (s : Jobs) (p : JobState → bool) : list Z :=
  (filterb (λ e : Z * Job, p (j_state e.2)) (btree_iter Z.compare (js_jobs s))).*1.

Fixpoint finish_all (s : Jobs) (ids : list Z) (error : string) : option Jobs :=
  match ids with
  | [] => Some s
  | id :: ids' => s ← finish s id Cancelled (Some error); finish_all s ids' error
  end.
Definition close (s : Jobs) : option Jobs :=
  let s := set_closing s true in
  finish_all s (ids_where s is_queued) "daemon stopping".

Fixpoint cancel_all (s : Jobs) (ids : list Z) : option Jobs :=
  match ids with
  | [] => Some s
  | id :: ids' => '(_, s) ← cancel s id; cancel_all s ids'
  end.
Definition shutdown (s : Jobs) : option Jobs :=
  let s := set_closing s true in
  cancel_all s (ids_where s (λ st, negb (terminal st))).
End scheduler.

(** ** Views *)

Definition snapshot (s : Jobs) (recent : nat) : list Job :=
  (summary <$> filterb (λ j, negb (terminal (j_state j))) (btree_values Z.compare (js_jobs s)))
  ++ omap (λ id, summary <$> js_jobs s !! id) (take recent (reverse (js_finished s))).

Definition load_step (load : gmap JobClass (nat * nat)) (j : Job) : gmap JobClass (nat * nat) :=
  entry_update load (j_class j) (0%nat, 0%nat) (λ e,
    match j_state j with
    | Queued => (S e.1, e.2)
    | Running | Cancelling => (e.1, S e.2)
    | _ => e
    end).
Definition load (s : Jobs) : gmap JobClass (nat * nat) :=
  foldl load_step ∅ (btree_values Z.compare (js_jobs s)).

(** [job.last_progress.into_iter().chain(activity(job.id)).max()]. *)
Definition latest (a b : option Z) : option Z :=
  match a, b with
  | Some x, Some y => Some (Z.max x y)
  | Some x, None | None, Some x => Some x
  | None, None => None
  end.
Definition stalled (s : Jobs) (now after : Z) (activity : Z → option Z) : list Z :=
  j_id <$> filterb (λ j,
    bool_decide (j_state j = Running) && bool_decide (j_class j = Runner)
    && is_some_and (latest (j_last_progress j) (activity (j_id j)))
         (λ last, after <? saturating_duration_since now last))
    (btree_values Z.compare (js_jobs s)).

(** ** Reading logs *)

Definition logs (s : Jobs) (id after : Z) : result JobError (Z * list (Z * string)) :=
  let? j := ok_or (js_jobs s !! id) UnknownJob in
  Ok (j_log_start j,
      filterb (λ e : Z * string, Z.max after (j_log_start j) <=? e.1) (j_logs j)).

(** The records of a page: stop before the byte budget is passed. *)
Fixpoint page_records (page_bytes : Z) (l : list (Z * string)) : list (Z * string) :=
  match l with
  | [] => []
  | (cursor, line) :: l' =>
      let n := Z.of_nat (String.length line) in
      if MAX_LOG_PAGE_BYTES <? page_bytes + n then []
      else (cursor, line) :: page_records (page_bytes + n) l'
  end.

Definition log_page (s : Jobs) (id after : Z) (limit : nat) : result JobError LogPage :=
  let? j := ok_or (js_jobs s !! id) UnknownJob in
  let begin := Z.max after (j_log_start j) in
  let records :=
    page_records 0
      (take (Nat.min limit MAX_LOG_PAGE_RECORDS)
         (filterb (λ e : Z * string, begin <=? e.1) (j_logs j))) in
  let next :=
    match last records with Some (n, _) => u64_saturating_add n 1 | None => begin end in
  Ok {| lp_retained_from := j_log_start j; lp_next := next;
        lp_gap := after <? j_log_start j; lp_records := records |}.
