(* ===== verification/JobsInvariant.v ===== *)
(** * The scheduler's invariant

    What every reachable scheduler state satisfies, and that each step of Jobs.v keeps it
    without panicking: the key table and the job table agree, the running counters and the
    numbered runner slots count exactly the running jobs and stay within their caps, every
    admissible queued job is in its workspace's queue exactly once, leases and owners belong
    to unfinished jobs, finished jobs are listed once, logs are contiguous and bounded.

    [Inv held s] lets the jobs of [held] be out of their queues: inside [pump_at] those are
    the popped jobs not yet started, restored or cancelled. *)

From S2P Require Export Jobs.

Local Open Scope string_scope.
Local Open Scope list_scope.
Local Open Scope Z_scope.
Local Open Scope bosn_scope.

(** ** Views of the state *)

Definition live (j : Job) : Prop := terminal (j_state j) = false.
Definition is_running (st : JobState) : bool :=
  match st with Running | Cancelling => true | _ => false end.
Definition occupies (class : JobClass) (j : Job) : bool :=
  is_running (j_state j) && bool_decide (j_class j = class).
Definition running_total (class : JobClass) (m : gmap Z Job) : Z :=
  map_total (λ j, if occupies class j then 1 else 0) m.
Definition occupied (slots : list (option Z)) : Z :=
  sumZ ((λ o : option Z, if o then 1 else 0) <$> slots).

Definition queue_at (s : Jobs) (class : JobClass) (workspace : string) : list Z :=
  default [] (default ∅ (js_queues s !! class) !! workspace).
Definition active (s : Jobs) (key : string * string) : option Z :=
  sl ← js_slots s !! key; sl_active sl.
Definition pending (s : Jobs) (key : string * string) : option Z :=
  sl ← js_slots s !! key; sl_pending sl.

(** A job's log: consecutive cursors from [j_log_start], bounded in records and line length. *)
Record log_ok (max_logs : nat) (j : Job) : Prop := {
  lo_start : 0 ≤ j_log_start j;
  lo_cursors : (j_logs j).*1 = seqZ (j_log_start j) (Z.of_nat (length (j_logs j)));
  lo_length : (length (j_logs j) ≤ max_logs)%nat;
  lo_lines : Forall (λ e, Z.of_nat (String.length e.2) ≤ MAX_LOG_LINE_BYTES) (j_logs j);
}.

Record job_ok (next : Z) (max_logs : nat) (id : Z) (j : Job) : Prop := {
  jo_id : j_id j = id;
  jo_next : id < next;
  jo_slot : is_Some (j_slot j) ↔ occupies Runner j = true;
  jo_finished : is_Some (j_finished_at j) ↔ terminal (j_state j) = true;
  jo_logs : log_ok max_logs j;
}.

(** The key table and the job table agree. *)
Record SlotsInv (s : Jobs) : Prop := {
  si_job : ∀ id j, js_jobs s !! id = Some j → job_ok (js_next s) (js_max_logs s) id j;
  si_active : ∀ key id, active s key = Some id →
    ∃ j, js_jobs s !! id = Some j ∧ live j ∧ j_key j = key;
  si_pending : ∀ key id, pending s key = Some id →
    is_Some (active s key) ∧ active s key ≠ Some id ∧
    ∃ j, js_jobs s !! id = Some j ∧ j_state j = Queued ∧ j_key j = key;
  si_slot_used : ∀ key, is_Some (js_slots s !! key) → is_Some (active s key);
  si_live : ∀ id j, js_jobs s !! id = Some j → live j →
    active s (j_key j) = Some id ∨ pending s (j_key j) = Some id;
}.

(** The counters and the numbered runner slots count exactly the running jobs. *)
Record LanesInv (s : Jobs) : Prop := {
  li_running : ∀ c, Z.of_nat (running_of s c) = running_total c (js_jobs s);
  li_cap : ∀ c, (running_of s c ≤ cap s c)%nat;
  li_cap_pos : ∀ c, (1 ≤ cap s c)%nat;
  li_lanes : length (js_runner_slots s) = cap s Runner;
  li_lane_job : ∀ i id, js_runner_slots s !! i = Some (Some id) ↔
    ∃ j, js_jobs s !! id = Some j ∧ j_slot j = Some i;
  li_occupied : occupied (js_runner_slots s) = Z.of_nat (running_of s Runner);
}.

(** Every admissible waiting job is in its queue once, unless it is held. *)
Record QueuesInv (held : gset Z) (s : Jobs) : Prop := {
  qi_queue_nodup : ∀ c w, NoDup (queue_at s c w);
  qi_queue_next : ∀ c w id, id ∈ queue_at s c w → id < js_next s;
  qi_queue_job : ∀ c w id j, id ∈ queue_at s c w → js_jobs s !! id = Some j →
    j_state j = Queued →
    j_class j = c ∧ j_workspace j = w ∧ active s (j_key j) = Some id ∧ id ∉ held;
  qi_waiting : ∀ id j, js_jobs s !! id = Some j → j_state j = Queued →
    active s (j_key j) = Some id →
    id ∈ held ∨ id ∈ queue_at s (j_class j) (j_workspace j);
  qi_held : ∀ id, id ∈ held →
    ∃ j, js_jobs s !! id = Some j ∧ j_state j = Queued ∧ active s (j_key j) = Some id;
}.

(** Leases and owners belong to unfinished jobs; ended and started jobs are listed once. *)
Record LedgerInv (s : Jobs) : Prop := {
  gi_leases : ∀ id, is_Some (js_leases s !! id) → ∃ j, js_jobs s !! id = Some j ∧ live j;
  gi_owners : ∀ id, is_Some (js_owners s !! id) → ∃ j, js_jobs s !! id = Some j ∧ live j;
  gi_finished_nodup : NoDup (js_finished s);
  gi_finished : ∀ id, id ∈ js_finished s ↔
    ∃ j, js_jobs s !! id = Some j ∧ terminal (j_state j) = true;
  gi_started_nodup : NoDup (js_started s);
  gi_started : ∀ id, id ∈ js_started s → id < js_next s ∧
    ∀ j, js_jobs s !! id = Some j → j_state j ≠ Queued;
}.

Record Inv (held : gset Z) (s : Jobs) : Prop := {
  inv_SlotsInv : SlotsInv s;
  inv_LanesInv : LanesInv s;
  inv_QueuesInv : QueuesInv held s;
  inv_LedgerInv : LedgerInv s;
}.

Section invariant_fields.
Context (held : gset Z) (s : Jobs) (HI : Inv held s).

Definition inv_job := si_job s (inv_SlotsInv held s HI).
Definition inv_active := si_active s (inv_SlotsInv held s HI).
Definition inv_pending := si_pending s (inv_SlotsInv held s HI).
Definition inv_slot_used := si_slot_used s (inv_SlotsInv held s HI).
Definition inv_live := si_live s (inv_SlotsInv held s HI).
Definition inv_running := li_running s (inv_LanesInv held s HI).
Definition inv_cap := li_cap s (inv_LanesInv held s HI).
Definition inv_cap_pos := li_cap_pos s (inv_LanesInv held s HI).
Definition inv_lanes := li_lanes s (inv_LanesInv held s HI).
Definition inv_lane_job := li_lane_job s (inv_LanesInv held s HI).
Definition inv_occupied := li_occupied s (inv_LanesInv held s HI).
Definition inv_queue_nodup := qi_queue_nodup held s (inv_QueuesInv held s HI).
Definition inv_queue_next := qi_queue_next held s (inv_QueuesInv held s HI).
Definition inv_queue_job := qi_queue_job held s (inv_QueuesInv held s HI).
Definition inv_waiting := qi_waiting held s (inv_QueuesInv held s HI).
Definition inv_held := qi_held held s (inv_QueuesInv held s HI).
Definition inv_leases := gi_leases s (inv_LedgerInv held s HI).
Definition inv_owners := gi_owners s (inv_LedgerInv held s HI).
Definition inv_finished_nodup := gi_finished_nodup s (inv_LedgerInv held s HI).
Definition inv_finished := gi_finished s (inv_LedgerInv held s HI).
Definition inv_started_nodup := gi_started_nodup s (inv_LedgerInv held s HI).
Definition inv_started := gi_started s (inv_LedgerInv held s HI).
End invariant_fields.

(** ** The counted slots *)

Lemma sumZ_insert {A} (f : A → Z) (l : list A) i x y :
  l !! i = Some x → sumZ (f <$> <[i := y]> l) = sumZ (f <$> l) - f x + f y.
Proof.
  revert i. induction l as [|z l IH]; intros [|i]; simpl; try done.
  - intros [= ->]. lia.
  - intros Hi. unfold fmap in IH. rewrite (IH i Hi). lia.
Qed.

Lemma free_slot_Some slots i : free_slot slots = Some i → slots !! i = Some None.
Proof.
  revert i. induction slots as [|[id|] slots IH]; intros i; simpl; try done.
  - destruct (free_slot slots); simpl; [|done]. intros [= <-]. by apply IH.
  - by intros [= <-].
Qed.

(** The slot taken is the lowest free one. *)
Lemma free_slot_lowest slots i k :
  free_slot slots = Some i → (k < i)%nat → ∃ id, slots !! k = Some (Some id).
Proof.
  revert i k. induction slots as [|[id|] slots IH]; intros i k; simpl; try done.
  - destruct (free_slot slots) as [i'|] eqn:E; simpl; [|done]. intros [= <-] Hk.
    destruct k as [|k]; [by exists id|]. simpl. eapply IH; [done|lia].
  - intros [= <-]. lia.
Qed.

Lemma free_slot_None slots : free_slot slots = None → occupied slots = Z.of_nat (length slots).
Proof.
  unfold occupied. induction slots as [|[id|] slots IH]; simpl; [done| |done].
  destruct (free_slot slots); simpl; [done|]. intros _. unfold fmap in IH. rewrite IH by done. lia.
Qed.

Lemma running_total_insert c (m : gmap Z Job) id j j' :
  m !! id = Some j →
  running_total c (<[id := j']> m) =
    running_total c m - (if occupies c j then 1 else 0) + (if occupies c j' then 1 else 0).
Proof. intros Hj. unfold running_total. rewrite map_total_insert, Hj. simpl. lia. Qed.

(** ** Queues *)

Lemma queue_at_update s c w f c' w' :
  queue_at (update_queue s c w f) c' w' =
  if bool_decide (c = c' ∧ w = w') then f (queue_at s c w) else queue_at s c' w'.
Proof.
  unfold queue_at, update_queue, entry_update. cbn [js_queues set_queues].
  destruct (decide (c = c')) as [<-|Hc].
  - rewrite lookup_insert_eq. simpl. destruct (decide (w = w')) as [<-|Hw].
    + by rewrite lookup_insert_eq, bool_decide_true.
    + rewrite lookup_insert_ne, bool_decide_false by naive_solver. done.
  - rewrite lookup_insert_ne, bool_decide_false by naive_solver. done.
Qed.

(** Adding one entry, at either end. *)
Lemma elem_of_update_add s c w f id c' w' x :
  (∀ q, f q ≡ₚ id :: q) →
  x ∈ queue_at (update_queue s c w f) c' w' ↔
  x ∈ queue_at s c' w' ∨ (x = id ∧ c = c' ∧ w = w').
Proof.
  intros Hf. rewrite queue_at_update. case_bool_decide as E; [destruct E as [-> ->]|].
  - rewrite Hf, elem_of_cons. naive_solver.
  - naive_solver.
Qed.

(** ** [next_queued]: termination, effect and round-robin order *)

(** [w'] comes before [w] in the turn order that starts after the workspace served last. *)
Definition turn_before (served : option string) (w' w : string) : Prop :=
  match served with
  | None => String.compare w' w = Lt
  | Some last =>
      match after_served last w', after_served last w with
      | true, false => True
      | false, true => False
      | _, _ => String.compare w' w = Lt
      end
  end.

Lemma StronglySorted_head_le {A} (cmp : A → A → comparison) `{!TotalCmp cmp} l x y :
  StronglySorted (cmp_le cmp) l → head l = Some x → y ∈ l → cmp y x ≠ Lt.
Proof.
  intros Hs Hx Hy. destruct Hs as [|z l Hl Hz]; [done|]. injection Hx as ->.
  assert (cmp_le cmp x y) as Hle.
  { apply elem_of_cons in Hy as [->|Hy]; [reflexivity|]. by eapply Forall_forall in Hz. }
  intros Hlt. by apply (cmp_Gt_Lt cmp) in Hlt.
Qed.

Lemma btree_keys_sorted {K V} `{Countable K} (cmp : K → K → comparison) `{!TotalCmp cmp}
    (m : gmap K V) : StronglySorted (cmp_le cmp) (btree_keys cmp m).
Proof.
  unfold btree_keys. assert (StronglySorted (cmp_le (cmp_on fst cmp)) (btree_iter cmp m)) as Hs
    by apply sort_by_sorted, _.
  induction Hs as [|e l Hl IH He]; [constructor|]. rewrite fmap_cons. constructor; [done|].
  apply Forall_fmap. eapply Forall_impl; [exact He|]. done.
Qed.

Lemma head_elem {A} (l : list A) x : head l = Some x → x ∈ l.
Proof. destruct l; simpl; [done|]. intros [= ->]. left. Qed.

Lemma pick_workspace_Some served queues w :
  pick_workspace served queues = Some w →
  is_Some (queues !! w) ∧ ∀ w', is_Some (queues !! w') → ¬ turn_before served w' w.
Proof.
  unfold pick_workspace. pose proof (btree_keys_sorted String.compare queues) as Hsort.
  setoid_rewrite <-(elem_of_btree_keys String.compare queues).
  generalize dependent (btree_keys String.compare queues). intros keys Hsort.
  destruct served as [last|]; simpl.
  - destruct (head (filterb (after_served last) keys)) as [w0|] eqn:Hh.
    + intros [= ->]. pose proof (head_elem _ _ Hh) as Hin.
      apply elem_of_filterb in Hin as [Haft Hin]. split; [done|]. intros w' Hw'.
      rewrite Haft. destruct (after_served last w') eqn:Haft'; [|by intros []].
      apply (StronglySorted_head_le String.compare (filterb (after_served last) keys) w w');
        [|exact Hh|].
      * eapply sublist_StronglySorted; [|exact Hsort]. apply sublist_filter.
      * by apply elem_of_filterb.
    + intros Hw. assert (∀ w', w' ∈ keys → after_served last w' = false) as Hnone.
      { intros w' Hw'. destruct (after_served last w') eqn:E; [|done].
        assert (w' ∈ filterb (after_served last) keys) as Hin by by apply elem_of_filterb.
        destruct (filterb (after_served last) keys); [by apply elem_of_nil in Hin|done]. }
      pose proof (head_elem _ _ Hw) as Hin. split; [done|]. intros w' Hw'.
      rewrite !Hnone by done. by apply (StronglySorted_head_le String.compare keys w w').
  - intros Hw. split; [by apply head_elem|]. intros w' Hw'. by apply (StronglySorted_head_le String.compare keys w w').
Qed.

Lemma pick_workspace_None served queues : pick_workspace served queues = None → queues = ∅.
Proof.
  unfold pick_workspace. intros Hp. apply map_empty. intros w. apply eq_None_not_Some.
  rewrite <-(elem_of_btree_keys String.compare). intros Hw.
  destruct (served ≫= _); [done|]. destruct (btree_keys _ _); [by apply elem_of_nil in Hw|done].
Qed.

(** What one class's queues look like after popping: entries that are not queued jobs were
    dropped from the fronts, nothing else. *)
Definition dropped (s : Jobs) (before after : list Z) : Prop :=
  ∃ pre, before = pre ++ after ∧ Forall (λ id, job_is s id is_queued = false) pre.

Lemma dropped_refl s l : dropped s l l.
Proof. by exists []. Qed.

Lemma dropped_trans s l1 l2 l3 : dropped s l1 l2 → dropped s l2 l3 → dropped s l1 l3.
Proof.
  intros (p & -> & Hp) (q & -> & Hq). exists (p ++ q). split; [by rewrite app_assoc|].
  by apply Forall_app.
Qed.

Lemma dropped_queued s l l' id :
  dropped s l l' → id ∈ l → job_is s id is_queued = true → id ∈ l'.
Proof.
  intros (p & -> & Hp) [Hin|Hin]%elem_of_app Hq; [|done].
  eapply Forall_forall in Hp; [|exact Hin]. congruence.
Qed.

Lemma dropped_elem s l l' id : dropped s l l' → id ∈ l' → id ∈ l.
Proof. intros (p & -> & _) Hin. apply elem_of_app. by right. Qed.

Definition queue_map_weight (queues : gmap string (list Z)) : Z :=
  map_total (λ q, 1 + Z.of_nat (length q)) queues.

Lemma queue_map_weight_nonneg queues : 0 ≤ queue_map_weight queues.
Proof.
  unfold queue_map_weight, map_total. apply sumZ_nonneg, Forall_fmap, Forall_true.
  intros q. simpl. lia.
Qed.

(** The queue map after taking the front of [workspace]'s queue. *)
Definition pop_front (queues : gmap string (list Z)) (workspace : string) (queue : list Z) :
    gmap string (list Z) :=
  match tail queue with
  | [] => delete workspace queues
  | _ => <[workspace := tail queue]> queues
  end.

Lemma pop_front_weight queues w queue :
  queues !! w = Some queue → queue_map_weight (pop_front queues w queue) < queue_map_weight queues.
Proof.
  intros Hq. unfold pop_front, queue_map_weight. destruct (tail queue) eqn:Ht.
  - rewrite (map_total_delete _ _ _ _ Hq). lia.
  - rewrite map_total_insert, Hq. simpl. destruct queue; simpl in *; [done|]. subst. simpl. lia.
Qed.

Lemma pop_front_lookup queues w queue w' :
  default [] (pop_front queues w queue !! w') =
  if bool_decide (w = w') then tail queue else default [] (queues !! w').
Proof.
  unfold pop_front. destruct (tail queue) eqn:Ht; case_bool_decide; subst.
  - by rewrite lookup_delete_eq.
  - by rewrite lookup_delete_ne.
  - by rewrite lookup_insert_eq.
  - by rewrite lookup_insert_ne.
Qed.

Record popped (s : Jobs) (class : JobClass) (next : option Z) (s' : Jobs) : Prop := {
  po_frame : ∃ q sv, s' = set_served (set_queues s q) sv;
  po_other : ∀ c w, c ≠ class → queue_at s' c w = queue_at s c w;
  po_weight : (queue_weight s' class ≤ queue_weight s class)%nat;
  po_next :
    match next with
    | None => ∀ w, queue_at s' class w = [] ∧ dropped s (queue_at s class w) []
    | Some id =>
        job_is s id is_queued = true ∧
        (queue_weight s' class < queue_weight s class)%nat ∧
        ∃ w, js_served s' !! class = Some w ∧
          dropped s (queue_at s class w) (id :: queue_at s' class w) ∧
          (∀ w', w' ≠ w → dropped s (queue_at s class w') (queue_at s' class w')) ∧
          (∀ w' id', id' ∈ queue_at s class w' → job_is s id' is_queued = true →
             ¬ turn_before (js_served s !! class) w' w)
    end;
}.

Lemma Jobs_eta s : set_served (set_queues s (js_queues s)) (js_served s) = s.
Proof. by destruct s. Qed.

Lemma popped_nothing s class : (∀ w, queue_at s class w = []) → popped s class None s.
Proof.
  intros Hnil. split; [|done|done|].
  - exists (js_queues s), (js_served s). by rewrite Jobs_eta.
  - intros w. rewrite !Hnil. split; [done|apply dropped_refl].
Qed.

(** One iteration that drops an entry, followed by the rest of the loop. *)
Lemma popped_drop s class queues w queue next s' :
  js_queues s !! class = Some queues → queues !! w = Some queue →
  (∀ id, head queue = Some id → job_is s id is_queued = false) →
  popped (set_queues s (<[class := pop_front queues w queue]> (js_queues s))) class next s' →
  popped s class next s'.
Proof.
  intros Hqs Hq Hhead [(q & sv & ->) Hother Hweight Hnext].
  set (s1 := set_queues s _) in *.
  assert (∀ c w', c ≠ class → queue_at s1 c w' = queue_at s c w') as Hother1.
  { intros c w' Hc. unfold queue_at, s1. cbn. by rewrite lookup_insert_ne. }
  assert (∀ w', dropped s (queue_at s class w') (queue_at s1 class w')) as Hdrop.
  { intros w'. unfold queue_at, s1. cbn. rewrite lookup_insert_eq, Hqs. simpl.
    rewrite pop_front_lookup. case_bool_decide as E; [subst w'|apply dropped_refl].
    rewrite Hq. simpl. destruct queue as [|id queue]; simpl; [apply dropped_refl|].
    exists [id]. split; [done|]. repeat constructor. by apply Hhead. }
  assert (queue_weight s1 class < queue_weight s class)%nat as Hw1.
  { unfold queue_weight, s1. cbn. rewrite lookup_insert_eq, Hqs. simpl.
    pose proof (pop_front_weight queues w queue Hq).
    pose proof (queue_map_weight_nonneg (pop_front queues w queue)).
    unfold queue_map_weight in *. lia. }
  split.
  - by exists q, sv.
  - intros c w' Hc. rewrite Hother, Hother1; done.
  - lia.
  - destruct next as [id|].
    + destruct Hnext as (Hjob & Hw2 & w0 & Hsv & Hd & Hds & Hturn).
      split_and!; [done|lia|]. exists w0. split_and!; [done|by eapply dropped_trans| |].
      * intros w' Hne. eapply dropped_trans; [done|by apply Hds].
      * intros w' id' Hin Hid'. eapply Hturn; [by eapply dropped_queued|done].
    + intros w'. destruct (Hnext w') as [? ?]. split; [done|by eapply dropped_trans].
Qed.

Lemma next_queued_loop_spec fuel s class :
  (queue_weight s class < fuel)%nat →
  ∃ next s', next_queued_loop fuel s class = Some (next, s') ∧ popped s class next s'.
Proof.
  revert s. induction fuel as [|fuel IH]; intros s Hfuel; [lia|]. simpl.
  destruct (js_queues s !! class) as [queues|] eqn:Hqs.
  2: { exists None, s. split; [done|]. apply popped_nothing. intros w. unfold queue_at. by rewrite Hqs. }
  destruct (pick_workspace (js_served s !! class) queues) as [w|] eqn:Hpick.
  2: { exists None, s. split; [done|]. apply popped_nothing. intros w. unfold queue_at.
       rewrite Hqs. simpl. apply pick_workspace_None in Hpick as ->. by rewrite lookup_empty. }
  apply pick_workspace_Some in Hpick as [[queue Hq] Hturn]. rewrite Hq. cbn [mbind option_bind].
  fold (pop_front queues w queue).
  set (s1 := set_queues s (<[class:=pop_front queues w queue]> (js_queues s))).
  assert (queue_weight s1 class < queue_weight s class)%nat as Hw1.
  { unfold queue_weight, s1. cbn. rewrite lookup_insert_eq, Hqs. simpl.
    pose proof (pop_front_weight queues w queue Hq).
    pose proof (queue_map_weight_nonneg (pop_front queues w queue)).
    unfold queue_map_weight in *. lia. }
  destruct (head queue) as [id|] eqn:Hhead.
  2: { destruct (IH s1) as (next & s' & -> & Hp); [lia|]. exists next, s'. split; [done|].
       eapply popped_drop; [done|done| |done]. congruence. }
  change (job_is s1 id is_queued) with (job_is s id is_queued).
  destruct (job_is s id is_queued) eqn:Hjob.
  2: { destruct (IH s1) as (next & s' & -> & Hp); [lia|]. exists next, s'. split; [done|].
       eapply popped_drop; [done|done| |done]. congruence. }
  eexists (Some id), _. split; [done|].
  destruct queue as [|id' queue]; [done|]. injection Hhead as ->.
  assert (∀ w', queue_at (set_served s1 (<[class:=w]> (js_served s1))) class w' =
            if bool_decide (w = w') then queue else queue_at s class w') as Hat.
  { intros w'. unfold queue_at, s1. cbn. rewrite lookup_insert_eq, Hqs. simpl.
    apply pop_front_lookup. }
  split; [by eexists _, _| |by apply Nat.lt_le_incl|].
  - intros c w' Hc. unfold queue_at, s1. cbn. by rewrite lookup_insert_ne.
  - split_and!; [done|exact Hw1|]. exists w. split_and!.
    + cbn. by rewrite lookup_insert_eq.
    + rewrite Hat, bool_decide_true by done. exists []. split; [|constructor].
      unfold queue_at. rewrite Hqs. simpl. by rewrite Hq.
    + intros w' Hne. rewrite Hat, bool_decide_false by congruence. apply dropped_refl.
    + intros w' id' Hin _. apply Hturn. unfold queue_at in Hin. rewrite Hqs in Hin. simpl in Hin.
      destruct (queues !! w') as [q'|]; [by eexists|by apply elem_of_nil in Hin].
Qed.

Lemma next_queued_spec s class :
  ∃ next s', next_queued s class = Some (next, s') ∧ popped s class next s'.
Proof. apply next_queued_loop_spec. lia. Qed.

(** ** Tactics for the invariant *)

(** Close a clause of the invariant that the step does not touch. *)
Ltac inv_same HI :=
  first
    [ exact (inv_job _ _ HI) | exact (inv_active _ _ HI) | exact (inv_pending _ _ HI)
    | exact (inv_slot_used _ _ HI) | exact (inv_live _ _ HI) | exact (inv_running _ _ HI)
    | exact (inv_cap _ _ HI) | exact (inv_cap_pos _ _ HI) | exact (inv_lanes _ _ HI)
    | exact (inv_lane_job _ _ HI) | exact (inv_occupied _ _ HI)
    | exact (inv_queue_nodup _ _ HI) | exact (inv_queue_next _ _ HI)
    | exact (inv_queue_job _ _ HI) | exact (inv_waiting _ _ HI) | exact (inv_held _ _ HI)
    | exact (inv_leases _ _ HI) | exact (inv_owners _ _ HI)
    | exact (inv_finished_nodup _ _ HI) | exact (inv_finished _ _ HI)
    | exact (inv_started_nodup _ _ HI) | exact (inv_started _ _ HI) ].
Ltac inv_split HI := split; split; try inv_same HI.

Lemma job_is_queued s id :
  job_is s id is_queued = true ↔ ∃ j, js_jobs s !! id = Some j ∧ j_state j = Queued.
Proof.
  unfold job_is, is_queued. rewrite is_some_and_true.
  split; intros (j & ? & E); exists j; (split; [done|]); [by booleans|].
  by apply bool_decide_eq_true.
Qed.

(** Taking the next job moves it from its queue to the held ones. *)
Lemma Inv_popped_None held s class s' :
  Inv held s → popped s class None s' → Inv held s'.
Proof.
  intros HI [(q & sv & ->) Hother _ Hnext].
  assert (∀ c w, queue_at (set_served (set_queues s q) sv) c w =
            if bool_decide (c = class) then [] else queue_at s c w) as Hat.
  { intros c w. case_bool_decide as E; [subst; apply Hnext|by apply Hother]. }
  inv_split HI.
  - intros c w. rewrite Hat. case_bool_decide; [constructor|apply (inv_queue_nodup _ _ HI)].
  - intros c w id. rewrite Hat. case_bool_decide; [by intros ?%elem_of_nil|].
    apply (inv_queue_next _ _ HI).
  - intros c w id j. rewrite Hat. case_bool_decide; [by intros ?%elem_of_nil|].
    apply (inv_queue_job _ _ HI).
  - intros id j Hj Hst Hact. destruct (inv_waiting _ _ HI id j Hj Hst Hact) as [?|Hin]; [by left|].
    right. rewrite Hat. case_bool_decide as E; [exfalso|done]. rewrite E in Hin.
    destruct (Hnext (j_workspace j)) as [_ Hd].
    eapply dropped_queued in Hd; [|done|by apply job_is_queued; eauto]. by apply elem_of_nil in Hd.
Qed.

Lemma Inv_popped_Some held s class id s' :
  Inv held s → popped s class (Some id) s' →
  Inv ({[ id ]} ∪ held) s' ∧ id ∉ held ∧
  ∃ j, js_jobs s' !! id = Some j ∧ j_state j = Queued ∧ j_class j = class.
Proof.
  intros HI [(q & sv & ->) Hother _ (Hjob & _ & w & _ & Hd & Hds & _)].
  apply job_is_queued in Hjob as (j & Hj & Hst).
  set (s' := set_served (set_queues s q) sv) in *.
  assert (id ∈ queue_at s class w) as Hin by (eapply dropped_elem; [exact Hd|left]).
  destruct (inv_queue_job _ _ HI _ _ _ _ Hin Hj Hst) as (Hc & Hw & Hact & Hheld).
  assert (∀ c w' x, x ∈ queue_at s' c w' → x ∈ queue_at s c w') as Hsub.
  { intros c w' x Hx. destruct (decide (c = class)) as [->|Hne]; [|by rewrite Hother in Hx].
    destruct (decide (w' = w)) as [->|Hne]; [|by eapply dropped_elem; [apply Hds|]].
    eapply dropped_elem; [exact Hd|by right]. }
  assert (id ∉ queue_at s' class w) as Hout.
  { pose proof (inv_queue_nodup _ _ HI class w) as Hnd. destruct Hd as (pre & Heq & _).
    rewrite Heq in Hnd. apply NoDup_app in Hnd as (_ & _ & Hnd). by apply NoDup_cons in Hnd as [? _]. }
  split_and!; [|done|by exists j]. inv_split HI.
  - intros c w'. destruct (decide (c = class)) as [->|Hne];
      [|rewrite Hother by done; apply (inv_queue_nodup _ _ HI)].
    pose proof (inv_queue_nodup _ _ HI class w') as Hnd.
    destruct (decide (w' = w)) as [->|Hne].
    + destruct Hd as (pre & Heq & _). rewrite Heq in Hnd.
      apply NoDup_app in Hnd as (_ & _ & Hnd). by apply NoDup_cons in Hnd as [_ ?].
    + destruct (Hds w' Hne) as (pre & Heq & _). rewrite Heq in Hnd.
      by apply NoDup_app in Hnd as (_ & _ & ?).
  - intros c w' x Hx%Hsub. by eapply (inv_queue_next _ _ HI).
  - intros c w' x jx Hx Hjx Hstx.
    destruct (inv_queue_job _ _ HI c w' x jx (Hsub _ _ _ Hx) Hjx Hstx) as (Hcx & Hwx & ? & ?).
    split_and!; [done..|]. apply not_elem_of_union. split; [|done].
    intros ->%elem_of_singleton. apply Hout. change (js_jobs s' !! id) with (js_jobs s !! id) in Hjx.
    assert (jx = j) as -> by congruence. by rewrite <-Hc, <-Hw, Hcx, Hwx.
  - intros x jx Hjx Hstx Hactx. rewrite elem_of_union, elem_of_singleton.
    destruct (decide (x = id)) as [->|Hne]; [by left; left|].
    destruct (inv_waiting _ _ HI x jx Hjx Hstx Hactx) as [?|Hinx]; [by left; right|right].
    destruct (decide (j_class jx = class)) as [E|?]; [|by rewrite Hother]. rewrite E in *.
    assert (job_is s x is_queued = true) as Hqx by (apply job_is_queued; eauto).
    destruct (decide (j_workspace jx = w)) as [Ew|?].
    + rewrite Ew in *. eapply dropped_queued in Hd; [|done..].
      by apply elem_of_cons in Hd as [?|?].
    + by eapply dropped_queued; [apply Hds| |].
  - intros x [->%elem_of_singleton|Hx]%elem_of_union; [by exists j|].
    by apply (inv_held _ _ HI).
Qed.

(** ** Replacing a job's record *)

(** Case analysis on a job of the table after [id]'s record was replaced. *)
Ltac at_job H := try (progress cbn in H); apply lookup_insert_Some in H as [[<- <-]|[? H]].

(** Two states in the same phase: waiting, running or ended. *)
Definition same_phase (a b : JobState) : Prop :=
  is_queued a = is_queued b ∧ is_running a = is_running b ∧ terminal a = terminal b.

Lemma same_phase_queued a b : same_phase a b → a = Queued ↔ b = Queued.
Proof. unfold same_phase, is_queued. intros (E & _). repeat case_bool_decide; naive_solver. Qed.

(** A record that differs from the old one only in its times, its log and its state within
    the phase. *)
Lemma Inv_replace held s id j j' :
  Inv held s → js_jobs s !! id = Some j →
  j_id j' = j_id j → j_key j' = j_key j → j_class j' = j_class j →
  same_phase (j_state j') (j_state j) →
  j_slot j' = j_slot j → j_finished_at j' = j_finished_at j → log_ok (js_max_logs s) j' →
  Inv held (set_jobs s (<[id := j']> (js_jobs s))).
Proof.
  intros HI Hj Hid Hkey Hclass Hphase Hslot Hfin Hlog.
  pose proof (same_phase_queued _ _ Hphase) as Hq. destruct Hphase as (_ & Hr & Ht).
  assert (j_workspace j' = j_workspace j) as Hws by (unfold j_key in Hkey; congruence).
  assert (∀ c, occupies c j' = occupies c j) as Hocc.
  { intros c. unfold occupies. by rewrite Hr, Hclass. }
  assert (∀ x (P : Job → Prop), (P j → P j') → (∃ jx, js_jobs s !! x = Some jx ∧ P jx) →
            ∃ jx, <[id := j']> (js_jobs s) !! x = Some jx ∧ P jx) as Hex.
  { intros x P HP (jx & Hx & Px). destruct (decide (x = id)) as [->|Hne].
    - exists j'. rewrite lookup_insert_eq. split; [done|]. apply HP. congruence.
    - exists jx. by rewrite lookup_insert_ne. }
  destruct (inv_job _ _ HI id j Hj) as [? ? Hjs Hjf _].
  inv_split HI; cbn [js_jobs set_jobs].
  - intros x jx Hx. at_job Hx; [|by apply (inv_job _ _ HI)]. split; [congruence|done| | |done].
    + by rewrite Hslot, Hjs, Hocc.
    + by rewrite Hfin, Ht.
  - intros key x Hx. apply Hex; [|by apply (inv_active _ _ HI)]. unfold live. by rewrite Ht, Hkey.
  - intros key x Hx. destruct (inv_pending _ _ HI key x Hx) as (? & ? & Hp).
    split_and!; [done..|]. apply Hex; [|done]. by rewrite Hq, Hkey.
  - intros x jx Hx. at_job Hx; [|by apply (inv_live _ _ HI)]. unfold live. rewrite Ht, Hkey.
    by apply (inv_live _ _ HI).
  - intros c. rewrite (running_total_insert c _ id j j' Hj), Hocc, <-(inv_running _ _ HI).
    change (running_of (set_jobs _ _) c) with (running_of s c). lia.
  - intros i x. cbn. rewrite (inv_lane_job _ _ HI). split; [apply Hex; by rewrite Hslot|].
    intros (jx & Hx & Hi). at_job Hx; [|by eauto]. exists j. by rewrite <-Hslot.
  - intros c w x jx Hin Hx. at_job Hx; [|by eapply (inv_queue_job _ _ HI)].
    rewrite Hq, Hkey, Hclass, Hws. intros. by eapply (inv_queue_job _ _ HI).
  - intros x jx Hx. at_job Hx; [|by eapply (inv_waiting _ _ HI)].
    rewrite Hq, Hkey, Hclass, Hws. by apply (inv_waiting _ _ HI).
  - intros x Hx. apply Hex; [|by apply (inv_held _ _ HI)]. by rewrite Hq, Hkey.
  - intros x Hx. apply Hex; [unfold live; by rewrite Ht|by apply (inv_leases _ _ HI)].
  - intros x Hx. apply Hex; [unfold live; by rewrite Ht|by apply (inv_owners _ _ HI)].
  - intros x. rewrite (inv_finished _ _ HI). split; [apply Hex; by rewrite Ht|].
    intros (jx & Hx & Htx). at_job Hx; [|by eauto]. exists j. by rewrite <-Ht.
  - intros x Hx. destruct (inv_started _ _ HI x Hx) as [? Hns]. split; [done|].
    intros jx Hjx. at_job Hjx; [|by apply Hns]. rewrite Hq. by apply Hns.
Qed.

(** Reading a clock, serving a workspace and draining the started list touch no clause. *)
Lemma Inv_tick held s : Inv held s → Inv held (tick s).
Proof. intros HI. inv_split HI. Qed.

(** ** Logs *)

Lemma seqZ_snoc m n : 0 ≤ n → seqZ m (n + 1) = seqZ m n ++ [m + n].
Proof. intros Hn. rewrite seqZ_app by lia. done. Qed.

(** The log after one more record: the cursor is the next one, and a full log drops its
    oldest record. *)
Lemma log_ok_push max_logs j line progress :
  log_ok max_logs j → Z.of_nat (String.length line) ≤ MAX_LOG_LINE_BYTES →
  let cursor := j_log_start j + Z.of_nat (length (j_logs j)) in
  let logs := j_logs j ++ [(cursor, line)] in
  log_ok max_logs
    (if (max_logs <? length logs)%nat
     then with_job_log j (j_log_start j + 1) progress (tail logs)
     else with_job_log j (j_log_start j) progress logs).
Proof.
  intros [Hstart Hcur Hlen Hlines] Hline cursor logs.
  assert (logs.*1 = seqZ (j_log_start j) (Z.of_nat (length logs))) as Hl.
  { unfold logs. rewrite fmap_app, Hcur, length_app. simpl.
    rewrite Nat2Z.inj_add, seqZ_snoc by lia. done. }
  assert (Forall (λ e, Z.of_nat (String.length e.2) ≤ MAX_LOG_LINE_BYTES) logs) as Hf.
  { unfold logs. apply Forall_app. split; [done|]. by repeat constructor. }
  assert (length logs = S (length (j_logs j))) as Hll.
  { unfold logs. rewrite length_app. simpl. lia. }
  destruct (max_logs <? length logs)%nat eqn:E.
  - destruct logs as [|r logs]; [done|]. simpl in Hll. injection Hll as Hll.
    split; cbn [j_log_start j_logs with_job_log tail]; [lia| |lia|by apply Forall_cons in Hf as [_ ?]].
    rewrite fmap_cons in Hl. cbn [length] in Hl.
    rewrite seqZ_cons in Hl by lia. injection Hl as _ Hl. rewrite Hl. f_equal; lia.
  - apply Nat.ltb_ge in E. split; cbn [j_log_start j_logs with_job_log]; done.
Qed.

Section log.
Context (instant : nat → Z).

Lemma Inv_log held s id line : Inv held s → Inv held (log instant s id line).2.
Proof.
  intros HI. unfold log. destruct (MAX_LOG_LINE_BYTES <? _) eqn:Hline; [done|]. booleans.
  destruct (js_jobs s !! id) as [j|] eqn:Hj; [|done].
  pose proof (jo_logs _ _ _ _ (inv_job _ _ HI id j Hj)) as Hlog.
  set (cursor := j_log_start j + Z.of_nat (length (j_logs j))).
  set (lines := j_logs j ++ [(cursor, line)]).
  assert (∀ progress, Inv held (set_jobs s (<[id :=
     if (js_max_logs s <? length lines)%nat
     then with_job_log j (j_log_start j + 1) progress (tail lines)
     else with_job_log j (j_log_start j) progress lines]> (js_jobs s)))) as Hall.
  { intros progress. apply (Inv_replace held s id j); try done; [by destruct (_ <? _)%nat..|].
    by apply log_ok_push. }
  destruct (negb (terminal (j_state j))).
  - change (js_max_logs (tick s)) with (js_max_logs s).
    pose proof (Inv_tick _ _ (Hall (Some (instant_now instant s)))) as HI'.
    destruct (_ <? _)%nat; exact HI'.
  - pose proof (Hall (j_last_progress j)) as HI'. destruct (_ <? _)%nat; exact HI'.
Qed.
End log.

(** ** How a job table may change *)

(** The job state machine, closed under steps: queued jobs may go anywhere, a running job
    never waits again, a cancelling job can only end cancelled, an ended job stays as it is. *)
Definition may_become (a b : JobState) : bool :=
  match a with
  | Queued => true
  | Running => negb (bool_decide (b = Queued))
  | Cancelling => bool_decide (b = Cancelling) || bool_decide (b = Cancelled)
  | _ => bool_decide (b = a)
  end.

Lemma may_become_refl a : may_become a a = true.
Proof. by destruct a. Qed.
Lemma may_become_trans a b c :
  may_become a b = true → may_become b c = true → may_become a c = true.
Proof. by destruct a, b, c. Qed.

Record job_evolves (j j' : Job) : Prop := {
  je_id : j_id j' = j_id j;
  je_key : j_key j' = j_key j;
  je_digest : j_digest j' = j_digest j;
  je_class : j_class j' = j_class j;
  je_submitted : j_submitted_at j' = j_submitted_at j;
  je_state : may_become (j_state j) (j_state j') = true;
  je_final : terminal (j_state j) = true →
    j_error j' = j_error j ∧ j_finished_at j' = j_finished_at j;
}.

#[global] Instance job_evolves_refl : Reflexive job_evolves.
Proof. intros j. split; try done. apply may_become_refl. Qed.
Lemma may_become_terminal a b : may_become a b = true → terminal a = true → b = a.
Proof. by destruct a, b. Qed.
#[global] Instance job_evolves_trans : Transitive job_evolves.
Proof.
  intros j1 j2 j3 [? ? ? ? ? Hs1 Hf1] [? ? ? ? ? Hs2 Hf2].
  split; try congruence; [by eapply may_become_trans|].
  intros Ht. pose proof (may_become_terminal _ _ Hs1 Ht) as E. rewrite E in Hf2.
  destruct (Hf1 Ht), (Hf2 Ht). split; congruence.
Qed.

(** Two states of one scheduler: its configuration is fixed, jobs evolve, and a job that
    appears has a fresh ID. *)
Record evolves (s s' : Jobs) : Prop := {
  ev_policy : js_policy s' = js_policy s;
  ev_max_logs : js_max_logs s' = js_max_logs s;
  ev_next : js_next s ≤ js_next s';
  ev_job : ∀ id j j', js_jobs s !! id = Some j → js_jobs s' !! id = Some j' → job_evolves j j';
  ev_new : ∀ id, js_jobs s !! id = None → is_Some (js_jobs s' !! id) → js_next s ≤ id;
}.

#[global] Instance evolves_refl : Reflexive evolves.
Proof.
  intros s. split; try done. 
  - intros id j j' Hj Hj'. assert (j' = j) as -> by congruence. reflexivity.
  - intros id Hn [j Hj]. congruence.
Qed.

Lemma evolves_trans held s s' s'' :
  Inv held s → evolves s s' → evolves s' s'' → evolves s s''.
Proof.
  intros HI [Hp1 Hm1 Hn1 Hj1 Hnew1] [Hp2 Hm2 Hn2 Hj2 Hnew2]. split; [congruence|congruence|lia| |].
  - intros id j j'' Hj Hj''. destruct (js_jobs s' !! id) as [j'|] eqn:Hj'.
    + etrans; [by eapply Hj1|by eapply Hj2].
    + pose proof (jo_next _ _ _ _ (inv_job _ _ HI id j Hj)).
      pose proof (Hnew2 id Hj' ltac:(by eexists)). lia.
  - intros id Hn Hs. destruct (js_jobs s' !! id) as [j'|] eqn:Hj'.
    + apply Hnew1; [done|by eexists].
    + pose proof (Hnew2 id Hj' Hs). lia.
Qed.

Lemma evolves_replace s id j j' m :
  js_jobs s !! id = Some j → job_evolves j j' → m = <[id := j']> (js_jobs s) →
  ∀ s', js_policy s' = js_policy s → js_max_logs s' = js_max_logs s → js_next s' = js_next s →
  js_jobs s' = m → evolves s s'.
Proof.
  intros Hj Hev -> s' Hp Hm Hn Hjs. split; [done|done|lia| |].
  - intros x jx jx' Hx. rewrite Hjs. intros Hx'. at_job Hx'; [|by assert (jx = jx') as -> by congruence].
    by assert (jx = j) as -> by congruence.
  - intros x Hx [jx Hjx]. rewrite Hjs in Hjx. at_job Hjx; congruence.
Qed.

Definition queued_total (s : Jobs) : Z :=
  map_total (λ j, if is_queued (j_state j) then 1 else 0) (js_jobs s).

(** What the admission steps share: they keep the configuration and only remove leases. *)
Record admission (s s' : Jobs) : Prop := {
  ad_evolves : evolves s s';
  ad_queued : queued_total s' ≤ queued_total s;
  ad_closing : js_closing s' = js_closing s;
  ad_next : js_next s' = js_next s;
  ad_leases : ∀ id l, js_leases s' !! id = Some l → js_leases s !! id = Some l;
}.

#[global] Instance admission_refl : Reflexive admission.
Proof. intros s. by split. Qed.

Lemma admission_trans held s s' s'' :
  Inv held s → admission s s' → admission s' s'' → admission s s''.
Proof.
  intros HI [] []. split; [by eapply evolves_trans|lia|congruence|congruence|eauto].
Qed.

(** Queues, turns and clock reads are no part of it. *)
Lemma admission_frame s q sv reads :
  admission s (set_reads (set_served (set_queues s q) sv) reads).
Proof.
  split; [|done..]. split; [done..| |].
  - intros id j j' Hj Hj'. cbn in Hj'. assert (j' = j) as -> by congruence. reflexivity.
  - intros id Hn [j Hj]. cbn in Hj. congruence.
Qed.

Lemma popped_admission s class next s' : popped s class next s' → admission s s'.
Proof. intros [(q & sv & ->) _ _ _]. exact (admission_frame s q sv (js_reads s)). Qed.

(** The jobs of [P] that are unfinished stay so. *)
Definition keeps_live (P : Z → Prop) (s s' : Jobs) : Prop :=
  ∀ x j, P x → js_jobs s !! x = Some j → live j →
  ∃ j', js_jobs s' !! x = Some j' ∧ live j'.

Lemma keeps_live_trans (P : Z → Prop) s s' s'' :
  keeps_live P s s' → keeps_live P s' s'' → keeps_live P s s''.
Proof. intros H1 H2 x j Hx Hj Hl. destruct (H1 x j Hx Hj Hl) as (j' & ? & ?). by eapply H2. Qed.

Lemma keeps_live_weaken (P Q : Z → Prop) s s' :
  (∀ x, Q x → P x) → keeps_live P s s' → keeps_live Q s s'.
Proof. intros HPQ H x j Hx. apply H. by apply HPQ. Qed.

Lemma keeps_live_same (P : Z → Prop) s s' : js_jobs s' = js_jobs s → keeps_live P s s'.
Proof. intros E x j _ Hj Hl. rewrite E. eauto. Qed.

Lemma keeps_live_replace (P : Z → Prop) s s' id j' :
  js_jobs s' = <[id := j']> (js_jobs s) → (P id → live j') → keeps_live P s s'.
Proof.
  intros E Hl' x j HP Hj Hl. rewrite E. destruct (decide (id = x)) as [<-|Hne].
  - exists j'. rewrite lookup_insert_eq. split; [done|by apply Hl'].
  - exists j. by rewrite lookup_insert_ne.
Qed.

Lemma queued_total_insert s id j j' :
  js_jobs s !! id = Some j →
  queued_total (set_jobs s (<[id := j']> (js_jobs s))) =
    queued_total s - (if is_queued (j_state j) then 1 else 0)
                   + (if is_queued (j_state j') then 1 else 0).
Proof.
  intros Hj. unfold queued_total. cbn [js_jobs set_jobs]. rewrite map_total_insert, Hj. simpl. lia.
Qed.

(** ** Starting a job *)

Lemma running_of_set s m c n c' :
  js_running s = <[c := n]> m →
  running_of s c' = if bool_decide (c = c') then n else default 0%nat (m !! c').
Proof.
  intros E. unfold running_of. rewrite E. case_bool_decide; subst.
  - by rewrite lookup_insert_eq.
  - by rewrite lookup_insert_ne.
Qed.

(** The invariant after [id]'s record became a running one, for the runner slots [lanes] and
    counters that go with it. *)
Section started_record.
Context (held : gset Z) (s : Jobs) (class : JobClass) (id : Z) (j : Job) (slot : option nat).
Context (at_ now : Z) (lanes : list (option Z)) (reads : nat).
Context (HI : Inv ({[ id ]} ∪ held) s) (Hnh : id ∉ held).
Context (Hj : js_jobs s !! id = Some j) (Hst : j_state j = Queued) (Hclass : j_class j = class).
Context (Hcap : (running_of s class < cap s class)%nat).
Context (Hlen : length lanes = length (js_runner_slots s)).
Context (Hlanes : ∀ i x, lanes !! i = Some (Some x) ↔
   (x = id ∧ slot = Some i) ∨ (x ≠ id ∧ js_runner_slots s !! i = Some (Some x))).
Context (Hslot : is_Some slot ↔ class = Runner).
Context (Hocc : occupied lanes = occupied (js_runner_slots s) + (if slot then 1 else 0)).
Local Notation j' := (with_job_started j slot at_ now).
Local Notation s' := (set_started (set_running (set_reads
  (set_jobs (set_runner_slots s lanes) (<[id := with_job_started j slot at_ now]> (js_jobs s)))
  reads) (entry_update (js_running s) class 0%nat S)) (js_started s ++ [id])).

Lemma started_was_active : active s (j_key j) = Some id.
Proof.
  destruct (inv_held _ _ HI id) as (j0 & Hj0 & _ & Hact); [set_solver|].
  by assert (j0 = j) as <- by congruence.
Qed.

Lemma started_occupies c : occupies c j = false ∧ occupies c j' = bool_decide (class = c).
Proof using Hst Hclass.
  split; [unfold occupies; by rewrite Hst|]. by rewrite <-Hclass.
Qed.

Lemma started_running_of c :
  running_of s' c = if bool_decide (class = c) then S (running_of s class) else running_of s c.
Proof. by rewrite (running_of_set s' (js_running s) class (S (running_of s class)) c). Qed.

Lemma started_exists x (P : Job → Prop) :
  P j' → (∃ jx, js_jobs s !! x = Some jx ∧ P jx) → ∃ jx, js_jobs s' !! x = Some jx ∧ P jx.
Proof.
  intros HP (jx & Hx & Px). cbn. destruct (decide (id = x)) as [<-|Hne].
  - exists j'. by rewrite lookup_insert_eq.
  - exists jx. by rewrite lookup_insert_ne.
Qed.

Lemma SlotsInv_started : SlotsInv s'.
Proof.
  destruct (inv_job _ _ HI id j Hj) as [Hid Hnext Hjs Hjf Hjl].
  pose proof started_was_active as Hact. split; try inv_same HI.
  - intros x jx Hx. at_job Hx; [|by apply (inv_job _ _ HI)].
    split; [done|done| | |by destruct Hjl].
    + rewrite (proj2 (started_occupies Runner)), bool_decide_eq_true. done.
    + cbn. rewrite Hjf, Hst. done.
  - intros key x Hx. change (active s' key) with (active s key) in Hx.
    destruct (inv_active _ _ HI key x Hx) as (jx & Hjx & Hl & Hk).
    cbn. destruct (decide (id = x)) as [<-|Hne].
    + exists j'. rewrite lookup_insert_eq. assert (jx = j) as -> by congruence. done.
    + exists jx. by rewrite lookup_insert_ne.
  - intros key x Hx. destruct (inv_pending _ _ HI key x Hx) as (? & Hna & jx & Hjx & Hq & Hk).
    split_and!; [done..|]. exists jx. cbn. rewrite lookup_insert_ne; [done|].
    intros <-. apply Hna. assert (jx = j) as -> by congruence. by rewrite <-Hk.
  - intros x jx Hx. at_job Hx; [|by apply (inv_live _ _ HI)]. intros _. by left.
Qed.

Lemma LanesInv_started : LanesInv s'.
Proof.
  split; try inv_same HI.
  - intros c. rewrite started_running_of.
    cbn [js_jobs set_started set_running set_reads set_jobs].
    destruct (started_occupies c) as [Hno Hyes].
    rewrite (running_total_insert c _ id j j' Hj), Hno, Hyes, <-(inv_running _ _ HI).
    case_bool_decide as E; [rewrite E|]; lia.
  - intros c. rewrite started_running_of. change (cap s' c) with (cap s c).
    pose proof (inv_cap _ _ HI c). case_bool_decide as E; [rewrite E in Hcap |- *|]; lia.
  - change (length lanes = cap s Runner). rewrite Hlen. apply (inv_lanes _ _ HI).
  - intros i x. change (js_runner_slots s') with lanes.
    rewrite Hlanes, (inv_lane_job _ _ HI). cbn. split.
    + intros [[-> Hi]|[Hne (jx & Hjx & Hi)]].
      * exists j'. by rewrite lookup_insert_eq.
      * exists jx. by rewrite lookup_insert_ne.
    + intros (jx & Hx & Hi). at_job Hx; [by left|right]. eauto.
  - change (occupied lanes = Z.of_nat (running_of s' Runner)).
    rewrite Hocc, started_running_of, (inv_occupied _ _ HI).
    destruct slot as [i|]; case_bool_decide as E.
    + rewrite E. lia.
    + exfalso. apply E, Hslot. by eexists.
    + exfalso. apply Hslot in E as [? [=]].
    + lia.
Qed.

Lemma QueuesInv_started : QueuesInv held s'.
Proof.
  split; try inv_same HI.
  - intros c w x jx Hin Hx. cbn in Hx. at_job Hx; [done|]. intros Hq.
    destruct (inv_queue_job _ _ HI c w x jx Hin Hx Hq) as (? & ? & ? & ?). set_solver.
  - intros x jx Hx. cbn in Hx. at_job Hx; [done|]. intros Hq Ha.
    destruct (inv_waiting _ _ HI x jx Hx Hq Ha) as [?|?]; [left; set_solver|by right].
  - intros x Hx. destruct (inv_held _ _ HI x) as (jx & Hjx & ? & ?); [set_solver|].
    exists jx. cbn. rewrite lookup_insert_ne by set_solver. done.
Qed.

Lemma LedgerInv_started : LedgerInv s'.
Proof.
  destruct (inv_job _ _ HI id j Hj) as [_ Hnext _ _ _]. split; try inv_same HI.
  - intros x Hx. apply started_exists; [done|by apply (inv_leases _ _ HI)].
  - intros x Hx. apply started_exists; [done|by apply (inv_owners _ _ HI)].
  - intros x. change (js_finished s') with (js_finished s). rewrite (inv_finished _ _ HI).
    cbn. split.
    + intros (jx & Hjx & Ht). exists jx. rewrite lookup_insert_ne; [done|].
      intros <-. assert (jx = j) as -> by congruence. by rewrite Hst in Ht.
    + intros (jx & Hx & Ht). at_job Hx; [done|by eauto].
  - change (NoDup (js_started s ++ [id])). apply NoDup_app. split_and!.
    + apply (inv_started_nodup _ _ HI).
    + intros x Hx ->%list_elem_of_singleton. destruct (inv_started _ _ HI id Hx) as [_ Hns].
      by apply (Hns j Hj).
    + apply NoDup_singleton.
  - intros x. change (js_started s') with (js_started s ++ [id]).
    rewrite elem_of_app, list_elem_of_singleton. cbn. intros [Hx| ->].
    + destruct (inv_started _ _ HI x Hx) as [? Hns]. split; [done|]. intros jx Hjx.
      at_job Hjx; [done|by apply Hns].
    + split; [done|]. intros jx Hjx. rewrite lookup_insert_eq in Hjx. by injection Hjx as <-.
Qed.

Lemma Inv_started : Inv held s'.
Proof.
  split; [apply SlotsInv_started|apply LanesInv_started|apply QueuesInv_started
         |apply LedgerInv_started].
Qed.
End started_record.

Section admission.
Context (wall : nat → Z).

Lemma start_job_spec held s class id now :
  Inv ({[ id ]} ∪ held) s → id ∉ held →
  (∃ j, js_jobs s !! id = Some j ∧ j_state j = Queued ∧ j_class j = class) →
  (running_of s class < cap s class)%nat →
  ∃ s', start_job wall s class id now = Some s' ∧ Inv held s' ∧ admission s s' ∧
    js_queues s' = js_queues s ∧ js_leases s' = js_leases s ∧
    (∀ c, c ≠ class → running_of s' c = running_of s c) ∧ keeps_live (λ _, True) s s'.
Proof.
  intros HI Hnh (j & Hj & Hst & Hclass) Hcap.
  assert (j_slot j = None) as Hjslot.
  { destruct (inv_job _ _ HI id j Hj) as [_ _ Hjs _ _]. unfold occupies in Hjs.
    rewrite Hst in Hjs. destruct (j_slot j) eqn:E; [|done]. naive_solver. }
  assert (∀ i, js_runner_slots s !! i ≠ Some (Some id)) as Hnot.
  { intros i Hi. apply (inv_lane_job _ _ HI) in Hi as (j0 & Hj0 & Hs0). congruence. }
  assert (∀ slot lanes at_ s', js_policy s' = js_policy s → js_max_logs s' = js_max_logs s →
            js_next s' = js_next s → js_closing s' = js_closing s → js_leases s' = js_leases s →
            js_runner_slots s' = lanes →
            js_jobs s' = <[id := with_job_started j slot at_ now]> (js_jobs s) →
            admission s s') as Hadm.
  { intros slot lanes at_ s' ? ? ? ? Hle _ Hjs. split; [|..|done|done|by rewrite Hle].
    - eapply evolves_replace; [done| |done|done..]. split; try done; by rewrite Hst.
    - unfold queued_total. rewrite Hjs, map_total_insert, Hj. simpl.
      rewrite Hst. simpl. lia. }
  unfold start_job. destruct class.
  - destruct (free_slot (js_runner_slots s)) as [index|] eqn:Hfree.
    2: { exfalso. apply free_slot_None in Hfree. rewrite (inv_occupied _ _ HI) in Hfree.
         rewrite (inv_lanes _ _ HI) in Hfree. lia. }
    pose proof (free_slot_Some _ _ Hfree) as Hindex.
    pose proof (lookup_lt_Some _ _ _ Hindex) as Hlt.
    cbn [mbind option_bind js_jobs set_runner_slots]. rewrite Hj. cbn [mbind option_bind].
    eexists. split_and!; [done| |by eapply Hadm|done|done| |by eapply keeps_live_replace].
    + apply (Inv_started held s Runner id j (Some index)); try done.
      * apply length_insert.
      * intros i x. destruct (decide (index = i)) as [<-|Hne].
        -- rewrite list_lookup_insert_eq by done. rewrite Hindex. naive_solver.
        -- rewrite list_lookup_insert_ne by done. split.
           ++ intros Hi. right. split; [|done]. intros ->. by apply (Hnot i).
           ++ naive_solver.
      * unfold occupied. rewrite (sumZ_insert _ _ _ _ (Some id) Hindex). lia.
    + intros c Hc. erewrite (running_of_set _ (js_running s) Runner) by done.
      by rewrite bool_decide_false.
  - cbn [mbind option_bind]. rewrite Hj. cbn [mbind option_bind].
    eexists. split_and!; [done| |by eapply Hadm|done|done| |by eapply keeps_live_replace].
    + pose proof (Inv_started held s Control id j None (wall_now wall s) now (js_runner_slots s)
        (S (js_reads s))) as HI'.
      refine (HI' _ _ _ _ _ _ _ _ _ _); try done.
      * intros i x. split; [|naive_solver]. intros Hi. right. split; [|done].
        intros ->. by apply (Hnot i).
      * simpl. lia.
    + intros c Hc. erewrite (running_of_set _ (js_running s) Control) by done.
      by rewrite bool_decide_false.
Qed.

(** *** Restoring deferred jobs *)

Lemma Inv_requeue held s id j f :
  (∀ q, f q ≡ₚ id :: q) →
  Inv ({[ id ]} ∪ held) s → id ∉ held → js_jobs s !! id = Some j →
  Inv held (update_queue s (j_class j) (j_workspace j) f).
Proof.
  intros Hf HI Hnh Hj. destruct (inv_held _ _ HI id) as (j0 & Hj0 & Hst & Hact); [set_solver|].
  assert (j0 = j) as -> by congruence. clear Hj0.
  assert (∀ c w, id ∉ queue_at s c w) as Hout.
  { intros c w Hin. destruct (inv_queue_job _ _ HI c w id j Hin Hj Hst) as (_ & _ & _ & ?).
    set_solver. }
  pose proof (λ c w c' w' x, elem_of_update_add s c w f id c' w' x Hf) as Hadd.
  inv_split HI.
  - intros c w. rewrite queue_at_update. pose proof (inv_queue_nodup _ _ HI c w).
    case_bool_decide as E; [|done]. destruct E as [-> ->]. rewrite Hf. apply NoDup_cons. by split.
  - intros c w x. rewrite Hadd. intros [Hx|(-> & _ & _)].
    + by eapply (inv_queue_next _ _ HI).
    + apply (jo_next _ _ _ _ (inv_job _ _ HI id j Hj)).
  - intros c w x jx. rewrite Hadd. intros [Hx|(-> & <- & <-)] Hjx Hq.
    + destruct (inv_queue_job _ _ HI c w x jx Hx Hjx Hq) as (? & ? & ? & ?). set_solver.
    + cbn in Hjx. assert (jx = j) as -> by congruence. done.
  - intros x jx Hjx Hq Ha. rewrite Hadd.
    destruct (inv_waiting _ _ HI x jx Hjx Hq Ha) as [Hin|?]; [|by right; left].
    apply elem_of_union in Hin as [->%elem_of_singleton|?]; [right; right|by left].
    cbn in Hjx. assert (jx = j) as -> by congruence. done.
  - intros x Hx. apply (inv_held _ _ HI). set_solver.
Qed.

Lemma restore_deferred_spec class ids held s :
  Inv (list_to_set ids ∪ held) s → NoDup ids → (∀ id, id ∈ ids → id ∉ held) →
  (∀ id j, id ∈ ids → js_jobs s !! id = Some j → j_class j = class) →
  ∃ q, restore_deferred s class ids = Some (set_queues s q) ∧ Inv held (set_queues s q) ∧
    ∀ c w x, x ∈ queue_at (set_queues s q) c w ↔ x ∈ queue_at s c w ∨
      (c = class ∧ x ∈ ids ∧ ∃ j, js_jobs s !! x = Some j ∧ j_workspace j = w).
Proof.
  revert s. induction ids as [|id ids IH]; intros s HI Hnd Hdis Hcls; simpl.
  { exists (js_queues s). split_and!; [by destruct s| |].
    - assert (list_to_set [] ∪ held = held) as E by set_solver. rewrite E in HI.
      by destruct s.
    - intros c w x. split; [by left|]. intros [?|(_ & ?%elem_of_nil & _)]; done. }
  apply NoDup_cons in Hnd as [Hid Hnd].
  destruct (inv_held _ _ HI id) as (j & Hj & Hst & Hact); [set_solver|].
  rewrite Hj. cbn [mbind option_bind].
  assert (j_class j = class) as <- by (apply (Hcls id); [left|done]).
  destruct (IH (update_queue s (j_class j) (j_workspace j) (cons id))) as (q & Hr & HI' & Hq).
  - apply (Inv_requeue _ _ id); [done| |set_solver|done].
    assert ({[id]} ∪ (list_to_set ids ∪ held) = list_to_set (id :: ids) ∪ held) as -> by set_solver.
    done.
  - done.
  - intros x Hx. apply Hdis. by right.
  - intros x jx Hx. apply Hcls. by right.
  - exists q. split_and!; [exact Hr|exact HI'|]. intros c w x.
    change (set_queues s q) with
      (set_queues (update_queue s (j_class j) (j_workspace j) (cons id)) q).
    rewrite Hq, (elem_of_update_add _ _ _ _ id), elem_of_cons by done. cbn [js_jobs update_queue set_queues].
    split; [|naive_solver].
    intros [[?|(-> & <- & <-)]|(? & ? & ?)]; [by left| |by right; naive_solver].
    right. split_and!; [done|by left|]. by exists j.
Qed.

(** *** The admission loop of one class *)

Record admitted (held : gset Z) (class : JobClass) (now : Z) (s : Jobs)
    (lapsed deferred : list Z) (s' : Jobs) : Prop := {
  am_inv : Inv (list_to_set (lapsed ++ deferred) ∪ held) s';
  am_nodup : NoDup (lapsed ++ deferred);
  am_disjoint : ∀ id, id ∈ lapsed ++ deferred → id ∉ held;
  am_lapsed : ∀ id, id ∈ lapsed → lease_lapsed s' id now = true;
  am_live : keeps_live (λ _, True) s s';
  am_deferred : ∀ id, id ∈ deferred → lease_stale s' id now = true ∧
    ∃ j, js_jobs s' !! id = Some j ∧ j_class j = class;
  am_admission : admission s s';
  am_leases : js_leases s' = js_leases s;
  am_running : ∀ c, c ≠ class → running_of s' c = running_of s c;
  am_queues : ∀ c w, c ≠ class → queue_at s' c w = queue_at s c w;
  am_full : (running_of s' class < cap s' class)%nat → ∀ w, queue_at s' class w = [];
}.

Lemma admit_loop_spec fuel class now s lapsed deferred held :
  Inv (list_to_set (lapsed ++ deferred) ∪ held) s →
  NoDup (lapsed ++ deferred) → (∀ id, id ∈ lapsed ++ deferred → id ∉ held) →
  (∀ id, id ∈ lapsed → lease_lapsed s id now = true) →
  (∀ id, id ∈ deferred → lease_stale s id now = true ∧
     ∃ j, js_jobs s !! id = Some j ∧ j_class j = class) →
  (queue_weight s class < fuel)%nat →
  ∃ lapsed' deferred' s', admit_loop wall fuel s class now lapsed deferred =
      Some (lapsed', deferred', s') ∧ admitted held class now s lapsed' deferred' s'.
Proof.
  revert s lapsed deferred. induction fuel as [|fuel IH]; [lia|].
  intros s lapsed deferred HI Hnd Hdis Hlap Hdef Hfuel. simpl.
  destruct (running_of s class <? cap s class)%nat eqn:Hcap.
  2: { apply Nat.ltb_ge in Hcap. exists lapsed, deferred, s. split; [done|].
       split; try done; [by apply keeps_live_same|lia]. }
  apply Nat.ltb_lt in Hcap.
  destruct (next_queued_spec s class) as (next & s1 & -> & Hp). cbn [mbind option_bind].
  pose proof (popped_admission _ _ _ _ Hp) as Hadm1.
  pose proof Hp as [(q & sv & Hs1) Hother _ _].
  destruct next as [id|].
  2: { pose proof (Inv_popped_None _ _ _ _ HI Hp) as HI1. destruct Hp as [_ _ _ Hnext].
       exists lapsed, deferred, s1. split; [done|]. rewrite Hs1 in *.
       split; try done; [by apply keeps_live_same|]. intros _ w. apply Hnext. }
  destruct (Inv_popped_Some _ _ _ _ _ HI Hp) as (HI1 & Hnew & j & Hj & Hst & Hclass).
  destruct Hp as [_ _ _ (_ & Hw & _)].
  assert (id ∉ lapsed ++ deferred ∧ id ∉ held) as [Hnl Hnh] by set_solver.
  assert (∀ lapsed1 deferred1 s2, Inv (list_to_set (lapsed1 ++ deferred1) ∪ held) s2 →
    NoDup (lapsed1 ++ deferred1) → (∀ x, x ∈ lapsed1 ++ deferred1 → x ∉ held) →
    (∀ x, x ∈ lapsed1 → lease_lapsed s2 x now = true) → keeps_live (λ _, True) s s2 →
    (∀ x, x ∈ deferred1 → lease_stale s2 x now = true ∧
       ∃ j, js_jobs s2 !! x = Some j ∧ j_class j = class) →
    (queue_weight s2 class < queue_weight s class)%nat →
    admission s s2 → js_leases s2 = js_leases s →
    (∀ c, c ≠ class → running_of s2 c = running_of s c) →
    (∀ c w, c ≠ class → queue_at s2 c w = queue_at s c w) →
    ∃ l' d' s', admit_loop wall fuel s2 class now lapsed1 deferred1 = Some (l', d', s') ∧
      admitted held class now s l' d' s') as Hgo.
  { intros l1 d1 s2 HI2 Hnd2 Hdis2 Hlap2 Hlive2 Hdef2 Hw2 Hadm2 Hle2 Hrun2 Hq2.
    destruct (IH s2 l1 d1) as (l' & d' & s' & Heq & [? ? ? ? ? ? ? Hle ? ? ?]); [done..|lia|].
    exists l', d', s'. split; [done|]. split; try done.
    - by eapply keeps_live_trans.
    - by eapply admission_trans.
    - congruence.
    - intros c Hc. rewrite <-Hrun2; auto.
    - intros c w Hc. rewrite <-Hq2; auto. }
  assert (js_leases s1 = js_leases s ∧ js_jobs s1 = js_jobs s ∧
          (∀ c, running_of s1 c = running_of s c)) as (Hle1 & Hjs1 & Hrun1) by by rewrite Hs1.
  assert (∀ x, x ∈ deferred → lease_stale s1 x now = true ∧
            ∃ j, js_jobs s1 !! x = Some j ∧ j_class j = class) as Hdef1.
  { intros x Hx. unfold lease_stale. rewrite Hle1, Hjs1. by apply Hdef. }
  assert (∀ x, x ∈ lapsed → lease_lapsed s1 x now = true) as Hlap1.
  { intros x Hx. unfold lease_lapsed. rewrite Hle1. by apply Hlap. }
  pose proof (keeps_live_same (λ _, True) s s1 Hjs1) as Hlive1.
  destruct (lease_lapsed s1 id now) eqn:Hlapsed; [|destruct (lease_stale s1 id now) eqn:Hstale].
  - apply Hgo; try done.
    + assert (list_to_set ((lapsed ++ [id]) ++ deferred) ∪ held =
              {[id]} ∪ (list_to_set (lapsed ++ deferred) ∪ held)) as -> by set_solver. done.
    + rewrite <-app_assoc. simpl. rewrite <-Permutation_middle. by apply NoDup_cons.
    + set_solver.
    + intros x [Hx| ->%list_elem_of_singleton]%elem_of_app; [by apply Hlap1|done].
  - apply Hgo; try done.
    + assert (list_to_set (lapsed ++ deferred ++ [id]) ∪ held =
              {[id]} ∪ (list_to_set (lapsed ++ deferred) ∪ held)) as -> by set_solver. done.
    + rewrite app_assoc, <-Permutation_cons_append. by apply NoDup_cons.
    + set_solver.
    + intros x [Hx| ->%list_elem_of_singleton]%elem_of_app; [by apply Hdef1|]. eauto.
  - destruct (start_job_spec (list_to_set (lapsed ++ deferred) ∪ held) s1 class id now)
      as (s2 & -> & HI2 & Hadm2 & Hq2 & Hle2 & Hrun2 & Hlive2).
    { done. }
    { set_solver. }
    { by exists j. }
    { rewrite Hs1. done. }
    cbn [mbind option_bind]. apply Hgo; try done.
    + intros x Hx. unfold lease_lapsed. rewrite Hle2. by apply Hlap1.
    + by eapply keeps_live_trans.
    + intros x Hx. unfold lease_stale. rewrite Hle2, Hle1. split; [by apply Hdef|].
      destruct (Hdef1 x Hx) as [_ (jx & Hjx & Hcx)].
      destruct (inv_held _ _ HI2 x) as (jx2 & Hjx2 & _); [set_solver|].
      exists jx2. split; [done|].
      by rewrite (je_class _ _ (ev_job _ _ (ad_evolves _ _ Hadm2) x jx jx2 Hjx Hjx2)).
    + unfold queue_weight in *. by rewrite Hq2.
    + by eapply admission_trans.
    + congruence.
    + intros c Hc. rewrite Hrun2, Hrun1; done.
    + intros c w Hc. rewrite <-Hother by done. unfold queue_at. by rewrite Hq2.
Qed.
End admission.

(** ** Ending a job *)

Definition opt_set (o : option Z) : gset Z :=
  match o with Some x => {[ x ]} | None => ∅ end.

(** The key table after [id] left it. *)
Definition vacated (s : Jobs) (key : string * string) (sl : Slot) :
    gmap (string * string) Slot :=
  match sl_active sl, sl_pending sl with
  | None, None => delete key (js_slots s)
  | _, _ => <[key := sl]> (js_slots s)
  end.

Lemma vacated_lookup s key sl k :
  (vacated s key sl !! k ≫= sl_active) =
    (if bool_decide (key = k) then sl_active sl else active s k) ∧
  (vacated s key sl !! k ≫= sl_pending) =
    (if bool_decide (key = k) then sl_pending sl else pending s k) ∧
  (is_Some (vacated s key sl !! k) →
    if bool_decide (key = k) then sl_active sl ≠ None ∨ sl_pending sl ≠ None
    else is_Some (js_slots s !! k)).
Proof.
  unfold vacated, active, pending. case_bool_decide as E; subst.
  - destruct (sl_active sl) as [a|] eqn:Ha, (sl_pending sl) as [p|] eqn:Hp;
      rewrite ?lookup_insert_eq, ?lookup_delete_eq; cbn; rewrite ?Ha, ?Hp; (split_and!; [done..|]);
      try (intros _; by (left + right)). by intros [].
  - destruct (sl_active sl), (sl_pending sl);
      rewrite ?lookup_insert_ne, ?lookup_delete_ne by done; done.
Qed.

(** What [vacate] does to the active and pending jobs of [id]'s key. *)
Lemma vacate_spec held s id j sl :
  Inv held s → js_jobs s !! id = Some j → live j → js_slots s !! j_key j = Some sl →
  let '(sl', promoted) := vacate sl id in
  sl_pending sl' = None ∧ promoted ≠ Some id ∧ sl_active sl' ≠ Some id ∧
  ((active s (j_key j) = Some id ∧ sl_active sl' = pending s (j_key j) ∧
      promoted = pending s (j_key j)) ∨
   (pending s (j_key j) = Some id ∧ is_Some (active s (j_key j)) ∧
      sl_active sl' = active s (j_key j) ∧ promoted = None)).
Proof.
  intros HI Hj Hl Hsl. pose proof (inv_live _ _ HI id j Hj Hl) as Hlive.
  pose proof (inv_pending _ _ HI (j_key j)) as Hpend.
  unfold vacate. unfold active, pending in *. rewrite Hsl in *. cbn in *.
  case_bool_decide as Ha.
  - destruct (sl_pending sl) as [p|] eqn:Hp; cbn; [|by auto 10].
    destruct (Hpend p eq_refl) as (_ & Hne & _). split_and!; [done|congruence|congruence|auto].
  - destruct Hlive as [?|Hp]; [done|]. rewrite bool_decide_true by done. cbn.
    destruct (Hpend id Hp) as (? & _ & _). split_and!; [done..|auto].
Qed.

Lemma elem_of_opt_set (x : Z) o : x ∈ opt_set o ↔ o = Some x.
Proof. destruct o; cbn; [rewrite elem_of_singleton; naive_solver|set_solver]. Qed.

Section ended_record.
Context (held : gset Z) (s : Jobs) (id : Z) (j : Job) (st : JobState) (err : option string).
Context (at_ : Z) (lanes : list (option Z)) (running : gmap JobClass nat).
Context (sl' : Slot) (promoted : option Z) (reads : nat).
Context (HI : Inv held s) (Hj : js_jobs s !! id = Some j) (Hl : live j).
Context (Hst : terminal st = true).
Context (Hlen : length lanes = length (js_runner_slots s)).
Context (Hlanes : ∀ i x, lanes !! i = Some (Some x) ↔
   x ≠ id ∧ js_runner_slots s !! i = Some (Some x)).
Context (Hocc : occupied lanes =
   occupied (js_runner_slots s) - (if occupies Runner j then 1 else 0)).
Context (Hrun : ∀ c, Z.of_nat (default 0%nat (running !! c)) =
   Z.of_nat (running_of s c) - (if occupies c j then 1 else 0)).
Context (Hvac : ∃ sl, js_slots s !! j_key j = Some sl ∧ vacate sl id = (sl', promoted)).
Local Notation j' := (with_job_finished j st err at_).
Local Notation s' :=
  {| js_policy := js_policy s; js_max_logs := js_max_logs s; js_next := js_next s;
     js_running := running; js_closing := js_closing s;
     js_jobs := <[id := with_job_finished j st err at_]> (js_jobs s);
     js_slots := vacated s (j_key j) sl'; js_queues := js_queues s; js_served := js_served s;
     js_runner_slots := lanes; js_finished := js_finished s ++ [id];
     js_started := js_started s; js_leases := delete id (js_leases s);
     js_owners := delete id (js_owners s); js_reads := reads |}.

Lemma ended_slot :
  sl_pending sl' = None ∧ promoted ≠ Some id ∧ sl_active sl' ≠ Some id ∧
  ((active s (j_key j) = Some id ∧ sl_active sl' = pending s (j_key j) ∧
      promoted = pending s (j_key j)) ∨
   (pending s (j_key j) = Some id ∧ is_Some (active s (j_key j)) ∧
      sl_active sl' = active s (j_key j) ∧ promoted = None)).
Proof.
  destruct Hvac as (sl & Hsl & E).
  pose proof (vacate_spec held s id j sl HI Hj Hl Hsl) as Hv. by rewrite E in Hv.
Qed.

Lemma ended_active k :
  active s' k = if bool_decide (j_key j = k) then sl_active sl' else active s k.
Proof. apply vacated_lookup. Qed.

Lemma ended_pending k :
  pending s' k = if bool_decide (j_key j = k) then None else pending s k.
Proof. rewrite <-(proj1 ended_slot). apply vacated_lookup. Qed.

Lemma ended_keep x jx : x ≠ id → js_jobs s !! x = Some jx → js_jobs s' !! x = Some jx.
Proof. intros Hx Hjx. cbn. by rewrite lookup_insert_ne. Qed.

(** A job that was active and is not [id] still is. *)
Lemma ended_stay k x : x ≠ id → active s k = Some x → active s' k = Some x.
Proof.
  intros Hx Ha. rewrite ended_active. case_bool_decide as E; [subst k|done].
  destruct ended_slot as (_ & _ & _ & [[? _]|(_ & _ & -> & _)]); congruence.
Qed.

Lemma ended_occupies c : occupies c j' = false.
Proof using Hst. unfold occupies. cbn. by destruct st. Qed.

Lemma SlotsInv_ended : SlotsInv s'.
Proof.
  destruct ended_slot as (Hpn & Hprom & Hactn & Hcase).
  destruct (inv_job _ _ HI id j Hj) as [Hid Hnext Hjs Hjf Hjl]. split.
  - intros x jx Hx. at_job Hx; [|by apply (inv_job _ _ HI)]. split; [done|done| | |by destruct Hjl].
    + rewrite ended_occupies. split; [by intros []|done].
    + cbn. rewrite Hst. split; [done|by eexists].
  - intros k x Ha. rewrite ended_active in Ha. case_bool_decide as E.
    + subst k. destruct Hcase as [(_ & E & _)|(_ & _ & E & _)]; rewrite E in Ha.
      * destruct (inv_pending _ _ HI _ _ Ha) as (_ & _ & jx & ? & Hq & ?). exists jx.
        split_and!; [apply ended_keep; congruence| |done]. unfold live. by rewrite Hq.
      * destruct (inv_active _ _ HI _ _ Ha) as (jx & ? & ? & ?). exists jx.
        split_and!; [apply ended_keep; congruence|done..].
    + destruct (inv_active _ _ HI _ _ Ha) as (jx & Hjx & ? & ?). exists jx.
      split_and!; [apply ended_keep; congruence|done..].
  - intros k x Hp. rewrite ended_pending in Hp. case_bool_decide as E; [done|].
    destruct (inv_pending _ _ HI _ _ Hp) as ([a Ha] & Hne & jx & ? & ? & ?).
    rewrite ended_active, bool_decide_false by done. split_and!; [by eexists|done|]. exists jx.
    split_and!; [apply ended_keep; congruence|done..].
  - intros k Hk. apply (proj2 (proj2 (vacated_lookup s (j_key j) sl' k))) in Hk.
    rewrite ended_active. case_bool_decide; [|by apply (inv_slot_used _ _ HI)].
    rewrite Hpn in Hk. destruct Hk as [?|?]; [|done]. by apply not_eq_None_Some.
  - intros x jx Hx Hlx. at_job Hx; [unfold live in Hlx; cbn in Hlx; congruence|].
    destruct (inv_live _ _ HI x jx Hx Hlx) as [Ha|Hp]; [left; by apply ended_stay|].
    rewrite ended_active, ended_pending. case_bool_decide as E; [left|by right].
    rewrite <-E in Hp. destruct Hcase as [(_ & -> & _)|(? & _)]; [done|congruence].
Qed.

Lemma LanesInv_ended : LanesInv s'.
Proof.
  split; try inv_same HI.
  - intros c. change (running_of s' c) with (default 0%nat (running !! c)). rewrite Hrun.
    cbn [js_jobs]. rewrite (running_total_insert c _ id j j' Hj), ended_occupies, (inv_running _ _ HI).
    lia.
  - intros c. change (running_of s' c) with (default 0%nat (running !! c)).
    pose proof (inv_cap _ _ HI c). change (cap s' c) with (cap s c). pose proof (Hrun c).
    destruct (occupies c j); lia.
  - change (length lanes = cap s Runner). rewrite Hlen. apply (inv_lanes _ _ HI).
  - intros i x. change (js_runner_slots s') with lanes. rewrite Hlanes, (inv_lane_job _ _ HI). split.
    + intros (? & jx & ? & ?). exists jx. by split; [apply ended_keep|].
    + intros (jx & Hx & Hi). at_job Hx; [done|]. eauto.
  - change (occupied lanes = Z.of_nat (default 0%nat (running !! Runner))).
    rewrite Hocc, Hrun, (inv_occupied _ _ HI). done.
Qed.

(** The promoted job was waiting behind [id], so it is in no queue and is active now. *)
Lemma ended_promoted p :
  promoted = Some p →
  p ≠ id ∧ active s (j_key j) ≠ Some p ∧
  ∃ jp, js_jobs s !! p = Some jp ∧ j_state jp = Queued ∧ j_key jp = j_key j ∧
    active s' (j_key j) = Some p.
Proof.
  intros E. destruct ended_slot as (_ & Hprom & _ & [(_ & E1 & E2)|(_ & _ & _ & E2)]);
    [|congruence].
  destruct (inv_pending _ _ HI (j_key j) p) as (_ & Hna & jp & ? & ? & Hk); [congruence|].
  split_and!; [congruence|done|]. exists jp. split_and!; [done..|].
  rewrite ended_active, bool_decide_true by done. congruence.
Qed.

Lemma QueuesInv_ended : QueuesInv ((held ∖ {[ id ]}) ∪ opt_set promoted) s'.
Proof.
  split; try inv_same HI.
  - intros c w x jx Hin Hx Hq. at_job Hx; [cbn in Hq; by rewrite Hq in Hst|].
    destruct (inv_queue_job _ _ HI c w x jx Hin Hx Hq) as (? & ? & Ha & Hh).
    split_and!; [done|done|by apply ended_stay|].
    assert (x ∉ opt_set promoted) as Hxp; [|set_solver].
    intros (_ & Hna & jp & Hjp & _ & Hk & _)%elem_of_opt_set%ended_promoted. congruence.
  - intros x jx Hx Hq Ha. at_job Hx; [cbn in Hq; by rewrite Hq in Hst|].
    change (queue_at s' (j_class jx) (j_workspace jx)) with (queue_at s (j_class jx) (j_workspace jx)).
    assert (active s (j_key jx) = Some x ∨ x ∈ opt_set promoted) as [Ha'|?]; [| |left; set_solver].
    + rewrite ended_active in Ha. case_bool_decide as E; [|by left].
      destruct ended_slot as (_ & _ & _ & [(_ & E1 & E2)|(_ & _ & E1 & _)]); rewrite E1 in Ha.
      * right. apply elem_of_opt_set. congruence.
      * left. by rewrite <-E.
    + destruct (inv_waiting _ _ HI x jx Hx Hq Ha'); [left; set_solver|by right].
  - intros x [[Hx Hxi]%elem_of_difference|Hx]%elem_of_union.
    + destruct (inv_held _ _ HI x Hx) as (jx & ? & ? & ?). assert (x ≠ id) by set_solver.
      exists jx. split_and!; [by apply ended_keep|done|by apply ended_stay].
    + apply elem_of_opt_set, ended_promoted in Hx as (? & _ & jp & ? & ? & Hk & ?). exists jp.
      split_and!; [by apply ended_keep|done|]. by rewrite Hk.
Qed.

Lemma LedgerInv_ended : LedgerInv s'.
Proof.
  split; try inv_same HI.
  - intros x [l Hx]. cbn in Hx. apply lookup_delete_Some in Hx as [? Hx].
    destruct (inv_leases _ _ HI x) as (jx & ? & ?); [by eexists|].
    exists jx. by split; [apply ended_keep|].
  - intros x [l Hx]. cbn in Hx. apply lookup_delete_Some in Hx as [? Hx].
    destruct (inv_owners _ _ HI x) as (jx & ? & ?); [by eexists|].
    exists jx. by split; [apply ended_keep|].
  - change (NoDup (js_finished s ++ [id])). apply NoDup_app. split_and!.
    + apply (inv_finished_nodup _ _ HI).
    + intros x Hx ->%list_elem_of_singleton. apply (inv_finished _ _ HI) in Hx as (jx & ? & ?).
      unfold live in Hl. congruence.
    + apply NoDup_singleton.
  - intros x. change (js_finished s') with (js_finished s ++ [id]).
    rewrite elem_of_app, list_elem_of_singleton, (inv_finished _ _ HI). split.
    + intros [(jx & Hjx & Ht)| ->].
      * exists jx. split; [apply ended_keep; [|done]|done]. intros ->. unfold live in Hl. congruence.
      * exists j'. cbn. by rewrite lookup_insert_eq.
    + intros (jx & Hx & Ht). at_job Hx; [by right|left]. eauto.
  - intros x Hx. destruct (inv_started _ _ HI x Hx) as [? Hns]. split; [done|].
    intros jx Hjx. at_job Hjx; [cbn; by destruct st|by apply Hns].
Qed.

Lemma Inv_ended : Inv ((held ∖ {[ id ]}) ∪ opt_set promoted) s'.
Proof.
  split; [apply SlotsInv_ended|apply LanesInv_ended|apply QueuesInv_ended|apply LedgerInv_ended].
Qed.
End ended_record.
