(* ===== verification/JobsPump.v ===== *)
(** * Ending jobs and pumping the queues

    Retention of finished jobs, [finish_at] and [pump_at]: they never panic, their fuel is
    enough, they keep the invariant, and after a pump no admissible job waits for a free
    slot. *)

From S2P Require Export JobsInvariant.

Local Open Scope string_scope.
Local Open Scope list_scope.
Local Open Scope Z_scope.
Local Open Scope bosn_scope.

Section ending.
Context (wall : nat → Z).

(** *** Retention of finished jobs *)

(** A suffix of the finished list, the rest retired: never below the retained count. *)
Record retired (s s' : Jobs) : Prop := {
  re_admission : admission s s';
  re_queues : js_queues s' = js_queues s;
  re_running : js_running s' = js_running s;
  re_leases : js_leases s' = js_leases s;
  re_queued : queued_total s' = queued_total s;
  re_live : keeps_live (λ _, True) s s';
  re_suffix : js_finished s' `suffix_of` js_finished s;
  re_kept : (Nat.min RETAINED_FINISHED_JOBS (length (js_finished s)) ≤ length (js_finished s'))%nat;
}.

Lemma Inv_retire held s oldest rest :
  Inv held s → js_finished s = oldest :: rest →
  Inv held (set_finished (set_jobs s (delete oldest (js_jobs s))) rest).
Proof.
  intros HI Hfin.
  destruct (proj1 (inv_finished _ _ HI oldest)) as (jo & Hjo & Hto); [rewrite Hfin; left|].
  pose proof (inv_finished_nodup _ _ HI) as Hnd. rewrite Hfin in Hnd.
  apply NoDup_cons in Hnd as [Hold Hnd].
  assert (∀ x jx, js_jobs s !! x = Some jx → live jx →
            delete oldest (js_jobs s) !! x = Some jx) as Hkeep.
  { intros x jx Hx Hl. rewrite lookup_delete_ne; [done|]. intros <-. unfold live in Hl. congruence. }
  assert (∀ jx, j_state jx = Queued → live jx) as Hq by (intros jx E; unfold live; by rewrite E).
  inv_split HI; cbn [js_jobs set_finished set_jobs].
  - intros x jx [_ Hx]%lookup_delete_Some. by apply (inv_job _ _ HI).
  - intros k x Ha. destruct (inv_active _ _ HI k x Ha) as (jx & ? & ? & ?). eauto.
  - intros k x Hp. destruct (inv_pending _ _ HI k x Hp) as (? & ? & jx & ? & ? & ?). eauto 10.
  - intros x jx [_ Hx]%lookup_delete_Some. by apply (inv_live _ _ HI).
  - intros c. change (running_of _ c) with (running_of s c).
    rewrite (inv_running _ _ HI). unfold running_total.
    rewrite (map_total_delete _ _ _ _ Hjo). unfold occupies. by destruct (j_state jo).
  - intros i x. cbn. rewrite (inv_lane_job _ _ HI). split.
    + intros (jx & Hx & Hi). exists jx. split; [|done]. apply Hkeep; [done|].
      destruct (inv_job _ _ HI x jx Hx) as [_ _ Hjs _ _].
      assert (occupies Runner jx = true) as Ho by (apply Hjs; by eexists).
      unfold occupies, live in *. by destruct (j_state jx).
    + intros (jx & [_ Hx]%lookup_delete_Some & Hi). eauto.
  - intros c w x jx Hin [_ Hx]%lookup_delete_Some. by eapply (inv_queue_job _ _ HI).
  - intros x jx [_ Hx]%lookup_delete_Some. by apply (inv_waiting _ _ HI).
  - intros x Hx. destruct (inv_held _ _ HI x Hx) as (jx & ? & ? & ?). eauto 10.
  - intros x Hx. destruct (inv_leases _ _ HI x Hx) as (jx & ? & ?). eauto.
  - intros x Hx. destruct (inv_owners _ _ HI x Hx) as (jx & ? & ?). eauto.
  - exact Hnd.
  - intros x. cbn. split.
    + intros Hx. destruct (proj1 (inv_finished _ _ HI x)) as (jx & ? & ?); [rewrite Hfin; by right|].
      exists jx. rewrite lookup_delete_ne; [done|]. by intros ->.
    + intros (jx & [Hne Hx]%lookup_delete_Some & Ht).
      assert (x ∈ js_finished s) as Hin by (apply (inv_finished _ _ HI); eauto).
      rewrite Hfin in Hin. by apply elem_of_cons in Hin as [?|?].
  - intros x Hx. destruct (inv_started _ _ HI x Hx) as [? Hns]. split; [done|].
    intros jx [_ Hjx]%lookup_delete_Some. by apply Hns.
Qed.

Lemma retired_refl s s' reads : s' = set_reads s reads → retired s s'.
Proof.
  intros ->. split; try done; [|by apply keeps_live_same|apply Nat.le_min_r].
  exact (admission_frame s (js_queues s) (js_served s) reads).
Qed.

Lemma retired_one s oldest rest reads :
  (∃ jo, js_jobs s !! oldest = Some jo ∧ terminal (j_state jo) = true) →
  js_finished s = oldest :: rest → (RETAINED_FINISHED_JOBS < length (js_finished s))%nat →
  retired s (set_finished (set_jobs (set_reads s reads) (delete oldest (js_jobs s))) rest).
Proof.
  intros (jo & Hjo & Ht) Hfin Hlen. rewrite Hfin in Hlen. cbn [length] in Hlen.
  assert (queued_total (set_finished (set_jobs (set_reads s reads) (delete oldest (js_jobs s))) rest)
          = queued_total s) as Hq.
  { unfold queued_total. cbn. rewrite (map_total_delete _ (js_jobs s) _ _ Hjo).
    by destruct (j_state jo). }
  split; try done.
  - split; [|lia|done..]. split; [done|done|done| |]; cbn [js_jobs set_finished set_jobs].
    + intros id j j' Hj [_ Hj']%lookup_delete_Some. assert (j' = j) as -> by congruence. reflexivity.
    + intros id Hn [j [_ Hj]%lookup_delete_Some]. cbn in Hj. congruence.
  - intros x j _ Hj Hl. exists j. split; [|done]. cbn. rewrite lookup_delete_ne; [done|].
    intros <-. unfold live in Hl. congruence.
  - cbn. rewrite Hfin. by exists [oldest].
  - cbn [js_finished set_finished]. rewrite Hfin. cbn [length]. lia.
Qed.

Lemma retired_trans held s s' s'' : Inv held s → retired s s' → retired s' s'' → retired s s''.
Proof.
  intros HI [] []. split; try congruence;
    [by eapply admission_trans|by eapply keeps_live_trans|by etrans|].
  assert (length (js_finished s') ≤ length (js_finished s))%nat by by apply suffix_length. lia.
Qed.

Lemma retire_loop_spec fin s held :
  Inv held s → js_finished s = fin →
  ∃ fin' s', retire_loop wall fin s = Some (fin', s') ∧ Inv held (set_finished s' fin') ∧
    retired s (set_finished s' fin').
Proof.
  revert s. induction fin as [|oldest rest IH]; intros s HI Hfin; simpl.
  { exists [], s. assert (set_finished s [] = s) as -> by (rewrite <-Hfin; by destruct s).
    split_and!; [done..|]. apply (retired_refl _ _ (js_reads s)). by destruct s. }
  destruct (length rest <=? 255)%nat eqn:Hlen.
  { exists (oldest :: rest), s.
    assert (set_finished s (oldest :: rest) = s) as -> by (rewrite <-Hfin; by destruct s).
    split_and!; [done..|]. apply (retired_refl _ _ (js_reads s)). by destruct s. }
  apply Nat.leb_gt in Hlen.
  destruct (proj1 (inv_finished _ _ HI oldest)) as (jo & Hjo & Hto); [rewrite Hfin; left|].
  rewrite Hjo. cbn [mbind option_bind].
  destruct (inv_job _ _ HI oldest jo Hjo) as [_ _ _ Hjf _].
  destruct (j_finished_at jo) as [at_|] eqn:Hat; [|by destruct (proj2 Hjf Hto)].
  cbn zeta. destruct (negb _).
  { exists (oldest :: rest), (tick s).
    assert (set_finished (tick s) (oldest :: rest) = tick s) as -> by (rewrite <-Hfin; by destruct s).
    split_and!; [done|by apply Inv_tick|]. by eapply retired_refl. }
  set (s1 := set_finished (set_jobs (tick s) (delete oldest (js_jobs s))) rest).
  assert (Inv held s1) as HI1 by (apply (Inv_retire held (tick s)); [by apply Inv_tick|done]).
  assert (retired s s1) as Hr1.
  { apply retired_one; [by exists jo|done|]. rewrite Hfin. unfold RETAINED_FINISHED_JOBS. simpl. lia. }
  assert (∀ f s0 x, retire_loop wall f (set_finished s0 x) =
            '(fin', s') ← retire_loop wall f s0; Some (fin', set_finished s' x)) as Hcomm.
  { clear. induction f as [|o f IH]; intros s0 x; [done|]. cbn [retire_loop].
    destruct (_ <=? _)%nat; [done|]. cbn [js_jobs set_finished].
    destruct (js_jobs s0 !! o) as [jo|]; [|done]. cbn [mbind option_bind].
    destruct (j_finished_at jo); cbn zeta.
    - change (wall_now wall (set_finished s0 x)) with (wall_now wall s0).
      destruct (negb _); [done|]. exact (IH (set_jobs (tick s0) (delete o (js_jobs s0))) x).
    - destruct (negb _); [done|]. exact (IH (set_jobs s0 (delete o (js_jobs s0))) x). }
  destruct (IH s1 HI1 eq_refl) as (fin' & s' & Heq & HI' & Hr').
  unfold s1 in Heq. rewrite Hcomm in Heq. 
  destruct (retire_loop wall rest (set_jobs (tick s) (delete oldest (js_jobs s)))) as [[f2 s2]|] eqn:E;
    [|done].
  cbn in Heq. injection Heq as <- <-. exists f2, s2. split_and!; [exact E|exact HI'|].
  by eapply retired_trans.
Qed.

Lemma retire_finished_spec s held :
  Inv held s → ∃ s', retire_finished wall s = Some s' ∧ Inv held s' ∧ retired s s'.
Proof.
  intros HI. destruct (retire_loop_spec (js_finished s) s held HI eq_refl)
    as (fin' & s' & Heq & HI' & Hr).
  exists (set_finished s' fin'). unfold retire_finished. by rewrite Heq.
Qed.

(** *** [finish_at] *)

(** What ending [id] does: it is the newest finished job, with the given outcome, and one
    queued job fewer if it was waiting. *)
Record ended (s : Jobs) (id : Z) (j : Job) (st : JobState) (err : option string) (s' : Jobs) :
    Prop := {
  en_admission : admission s s';
  en_queued : queued_total s' = queued_total s - (if is_queued (j_state j) then 1 else 0);
  en_outcome : ∀ j', js_jobs s' !! id = Some j' → j_state j' = st ∧ j_error j' = err;
  en_listed : id ∈ js_finished s';
  en_live : keeps_live (λ x, x ≠ id) s s';
}.

(** The lanes and counters without [id]. *)
Lemma lanes_without held s id j :
  Inv held s → js_jobs s !! id = Some j →
  ∃ lanes,
    match j_slot j with
    | Some slot =>
        (slot < length (js_runner_slots s))%nat ∧ lanes = <[slot := None]> (js_runner_slots s)
    | None => lanes = js_runner_slots s
    end ∧
    length lanes = length (js_runner_slots s) ∧
    (∀ i x, lanes !! i = Some (Some x) ↔ x ≠ id ∧ js_runner_slots s !! i = Some (Some x)) ∧
    occupied lanes = occupied (js_runner_slots s) - (if occupies Runner j then 1 else 0).
Proof.
  intros HI Hj. destruct (inv_job _ _ HI id j Hj) as [_ _ Hjs _ _].
  pose proof (inv_lane_job _ _ HI) as Hlane.
  destruct (j_slot j) as [slot|] eqn:Hslot.
  - assert (js_runner_slots s !! slot = Some (Some id)) as Hat by (apply Hlane; eauto).
    pose proof (lookup_lt_Some _ _ _ Hat) as Hlt.
    exists (<[slot := None]> (js_runner_slots s)). split_and!; [done..|apply length_insert| |].
    + intros i x. destruct (decide (slot = i)) as [<-|Hne].
      * rewrite list_lookup_insert_eq, Hat by done. naive_solver.
      * rewrite list_lookup_insert_ne by done. split; [|naive_solver]. intros Hi. split; [|done].
        intros ->. apply Hlane in Hi as (j0 & ? & ?). congruence.
    + unfold occupied. rewrite (sumZ_insert _ _ _ _ None Hat).
      rewrite (proj1 Hjs); [lia|by eexists].
  - exists (js_runner_slots s). split_and!; [done..| |].
    + intros i x. split; [|naive_solver]. intros Hi. split; [|done]. intros ->.
      apply Hlane in Hi as (j0 & ? & ?). congruence.
    + destruct (occupies Runner j) eqn:E; [|lia]. by destruct (proj2 Hjs eq_refl).
Qed.

Lemma running_without held s id j :
  Inv held s → js_jobs s !! id = Some j →
  ∃ running,
    (if is_running (j_state j)
     then ∃ n, js_running s !! j_class j = Some (S n) ∧ running = <[j_class j := n]> (js_running s)
     else running = js_running s) ∧
    ∀ c, Z.of_nat (default 0%nat (running !! c)) =
           Z.of_nat (running_of s c) - (if occupies c j then 1 else 0).
Proof.
  intros HI Hj. unfold occupies. destruct (is_running (j_state j)) eqn:Hr; simpl.
  - assert (occupies (j_class j) j = true) as Hocc.
    { unfold occupies. rewrite Hr. by rewrite bool_decide_true. }
    assert (1 ≤ running_total (j_class j) (js_jobs s)) as Hpos.
    { unfold running_total. rewrite (map_total_delete _ _ _ _ Hj), Hocc.
      assert (0 ≤ map_total (λ j0, if occupies (j_class j) j0 then 1 else 0)
                    (delete id (js_jobs s))); [|lia].
      unfold map_total. apply sumZ_nonneg, Forall_fmap, Forall_true. intros j0. simpl.
      by destruct (occupies (j_class j) j0). }
    rewrite <-(inv_running _ _ HI) in Hpos. unfold running_of in Hpos.
    destruct (js_running s !! j_class j) as [[|n]|] eqn:Hn; simpl in Hpos; [lia| |lia].
    eexists. split; [by exists n|]. intros c. unfold running_of.
    case_bool_decide as E; [subst c; rewrite lookup_insert_eq, Hn; simpl; lia|].
    rewrite lookup_insert_ne by done. lia.
  - exists (js_running s). split; [done|]. intros c. unfold running_of. lia.
Qed.

Lemma finish_job_spec held s id j st err :
  Inv held s → js_jobs s !! id = Some j → live j → terminal st = true →
  may_become (j_state j) st = true →
  ∃ s', finish_job wall s id st err = Some s' ∧ Inv (held ∖ {[ id ]}) s' ∧ ended s id j st err s'.
Proof.
  intros HI Hj Hl Hst Hmay.
  destruct (lanes_without held s id j HI Hj) as (lanes & Hslot & Hlen & Hlanes & Hocc).
  destruct (running_without held s id j HI Hj) as (running & Hrunning & Hrun).
  assert (∃ sl, js_slots s !! j_key j = Some sl) as (sl & Hsl).
  { destruct (inv_live _ _ HI id j Hj Hl) as [E|E]; unfold active, pending in E;
      destruct (js_slots s !! j_key j); [by eexists|done|by eexists|done]. }
  destruct (vacate sl id) as [sl' promoted] eqn:Hvac.
  set (s1 := {| js_policy := js_policy s; js_max_logs := js_max_logs s; js_next := js_next s;
     js_running := running; js_closing := js_closing s;
     js_jobs := <[id := with_job_finished j st err (wall_now wall s)]> (js_jobs s);
     js_slots := vacated s (j_key j) sl'; js_queues := js_queues s; js_served := js_served s;
     js_runner_slots := lanes; js_finished := js_finished s ++ [id];
     js_started := js_started s; js_leases := delete id (js_leases s);
     js_owners := delete id (js_owners s); js_reads := S (js_reads s) |}).
  assert (Inv ((held ∖ {[ id ]}) ∪ opt_set promoted) s1) as HI1.
  { eapply Inv_ended; try done. by exists sl. }
  assert (queued_total s1 = queued_total s - (if is_queued (j_state j) then 1 else 0)) as Hq1.
  { assert (is_queued st = false) as Hnq by by destruct st.
    unfold queued_total. cbn [js_jobs s1]. rewrite map_total_insert, Hj.
    cbn [from_option j_state with_job_finished]. rewrite Hnq. lia. }
  assert (∀ q, admission s (set_queues s1 q)) as Hadm1.
  { intros q. split; [|..|done|done|].
    - eapply evolves_replace; [done| |done|done..]. split; try done.
      intros Ht. unfold live in Hl. congruence.
    - change (queued_total s1 ≤ queued_total s). rewrite Hq1. destruct (is_queued (j_state j)); lia.
    - intros x l. cbn [js_leases set_queues s1]. rewrite lookup_delete_Some. by intros [_ ?]. }
  assert (∃ q, (∀ s0, js_jobs s0 = js_jobs s1 → js_queues s0 = js_queues s1 →
                  match promoted with Some p => enqueue s0 p | None => Some s0 end
                    = Some (set_queues s0 q)) ∧
            Inv (held ∖ {[ id ]}) (set_queues s1 q)) as (q & Hen & HI2).
  { destruct promoted as [p|]; simpl in HI1.
    - destruct (inv_held _ _ HI1 p) as (jp & Hjp & _ & _); [set_solver|].
      eexists. split.
      { intros s0 Ej Eq. unfold enqueue, update_queue. rewrite Ej, Hjp, Eq. done. }
      refine (Inv_requeue _ s1 p jp _ _ _ _ Hjp).
      + intros l. by rewrite <-Permutation_cons_append.
      + by rewrite (comm_L (∪)).
      + intros Hp. pose proof (vacate_spec held s id j sl HI Hj Hl Hsl) as Hv. rewrite Hvac in Hv.
        destruct Hv as (_ & _ & _ & [(_ & _ & E)|(_ & _ & _ & [=])]). symmetry in E.
        apply (inv_pending _ _ HI) in E as (_ & Hna & jp' & Hjp' & _ & Hk).
        destruct (inv_held _ _ HI p) as (jp2 & ? & _ & ?); [set_solver|]. congruence.
    - exists (js_queues s1). split; [intros s0 _ <-; by destruct s0|].
      assert (held ∖ {[id]} ∪ ∅ = held ∖ {[id]}) as E by set_solver. rewrite E in HI1. exact HI1. }
  destruct (retire_finished_spec (set_queues s1 q) _ HI2) as (s' & Hret & HI' & Hr).
  exists s'. split_and!; [|done|].
  - unfold finish_job. rewrite Hj. cbn [mbind option_bind].
    assert (∀ s0, js_runner_slots s0 = js_runner_slots s →
      match j_slot j with
      | Some slot => if (slot <? length (js_runner_slots s0))%nat
                     then Some (set_runner_slots s0 (<[slot := None]> (js_runner_slots s0)))
                     else None
      | None => Some s0
      end = Some (set_runner_slots s0 lanes)) as Hl1.
    { intros s0 E. rewrite E. destruct (j_slot j) as [slot|].
      - destruct Hslot as [Hlt ->]. apply Nat.ltb_lt in Hlt. by rewrite Hlt.
      - subst lanes. rewrite <-E. by destruct s0. }
    rewrite Hl1 by done. cbn [mbind option_bind].
    assert (∀ s0, js_running s0 = js_running s →
      (if match j_state j with Running | Cancelling => true | _ => false end
       then match js_running s0 !! j_class j with
            | Some (S n) => Some (set_running s0 (<[j_class j := n]> (js_running s0)))
            | _ => None
            end
       else Some s0) = Some (set_running s0 running)) as Hr1.
    { intros s0 E. change (match j_state j with Running | Cancelling => true | _ => false end)
        with (is_running (j_state j)). rewrite E. destruct (is_running (j_state j)).
      - by destruct Hrunning as (n & -> & ->).
      - subst running. rewrite <-E. by destruct s0. }
    rewrite Hr1 by done. cbn [mbind option_bind js_slots set_running set_owners set_leases
      set_runner_slots tick set_reads set_jobs]. rewrite Hsl. cbn [mbind option_bind].
    rewrite Hvac. fold (vacated s (j_key j) sl').
    rewrite Hen by done. cbn [mbind option_bind]. exact Hret.
  - destruct Hr as [Hadm _ _ _ Hq Hlive Hsuf Hkept]. split.
    + eapply admission_trans; [exact HI|apply Hadm1|exact Hadm].
    + rewrite Hq. exact Hq1.
    + intros j' Hj'. destruct (ev_job _ _ (ad_evolves _ _ Hadm) id
        (with_job_finished j st err (wall_now wall s)) j') as [? ? ? ? ? Hms Hf]; [|done|].
      { cbn. by rewrite lookup_insert_eq. }
      cbn in Hms, Hf. split; [by apply may_become_terminal|by apply Hf].
    + destruct Hsuf as [pre Hpre]. cbn [js_finished set_queues s1] in Hpre, Hkept.
      rewrite length_app in Hkept. cbn [length] in Hkept.
      assert (js_finished s' ≠ []) as Hne.
      { intros E. rewrite E in Hkept. unfold RETAINED_FINISHED_JOBS in Hkept.
        cbn [length] in Hkept. lia. }
      destruct (exists_last Hne) as (fin & x & E). rewrite E in Hpre |- *.
      rewrite app_assoc in Hpre. apply app_inj_tail in Hpre as [_ ->].
      apply elem_of_app. right. by left.
    + eapply keeps_live_trans; [|by eapply keeps_live_weaken, Hlive].
      by eapply keeps_live_replace.
Qed.
End ending.

(** ** Pumping *)

(** No admissible job of the class waits for a free slot: with capacity left, every queued
    job of the class's queues has a follower that went quiet. *)
Definition conserving (s : Jobs) (now : Z) (class : JobClass) : Prop :=
  (running_of s class < cap s class)%nat →
  ∀ w id, id ∈ queue_at s class w → job_is s id is_queued = true → lease_stale s id now = true.

Lemma Inv_held_equiv held held' s : Inv held s → held ≡ held' → Inv held' s.
Proof. by intros HI <-%leibniz_equiv. Qed.

Section pump.
Context (instant wall : nat → Z).

(** A step that leaves a class's queues, counter and leases alone keeps it conserving. *)
Lemma conserving_frame held s s' now c :
  Inv held s → admission s s' → js_leases s' = js_leases s →
  running_of s' c = running_of s c →
  (∀ w id, id ∈ queue_at s' c w → id ∈ queue_at s c w) →
  conserving s now c → conserving s' now c.
Proof.
  intros HI Hadm Hle Hrun Hq Hc Hcap w id Hin Hid. unfold lease_stale. rewrite Hle.
  assert (cap s' c = cap s c) as Hcaps.
  { unfold cap. by rewrite (ev_policy _ _ (ad_evolves _ _ Hadm)). }
  rewrite Hrun, Hcaps in Hcap. apply Hq in Hin. apply (Hc Hcap w id Hin).
  apply job_is_queued in Hid as (j' & Hj' & Hst'). apply job_is_queued.
  destruct (js_jobs s !! id) as [j|] eqn:Hj.
  - exists j. split; [done|].
    pose proof (je_state _ _ (ev_job _ _ (ad_evolves _ _ Hadm) id j j' Hj Hj')) as Hm.
    rewrite Hst' in Hm. by destruct (j_state j).
  - pose proof (ev_new _ _ (ad_evolves _ _ Hadm) id Hj ltac:(by eexists)).
    pose proof (inv_queue_next _ _ HI c w id Hin). lia.
Qed.

Lemma admit_class_spec held s class now lapsed :
  Inv (list_to_set lapsed ∪ held) s → NoDup lapsed → (∀ id, id ∈ lapsed → id ∉ held) →
  (∀ id, id ∈ lapsed → lease_lapsed s id now = true) →
  ∃ lapsed' s', admit_class wall s class now lapsed = Some (lapsed', s') ∧
    Inv (list_to_set lapsed' ∪ held) s' ∧ NoDup lapsed' ∧ (∀ id, id ∈ lapsed' → id ∉ held) ∧
    (∀ id, id ∈ lapsed' → lease_lapsed s' id now = true) ∧ keeps_live (λ _, True) s s' ∧
    admission s s' ∧ conserving s' now class ∧
    (∀ c, c ≠ class → conserving s now c → conserving s' now c).
Proof.
  intros HI Hnd Hdis Hlap. unfold admit_class.
  destruct (admit_loop_spec wall (S (queue_weight s class)) class now s lapsed [] held)
    as (lapsed' & deferred & s1 & Heq & [HI1 Hnd1 Hdis1 Hlap1 Hlive Hdef Hadm Hle Hrun Hq Hfull]);
    [by rewrite app_nil_r..|done|by intros ? ?%elem_of_nil|lia|].
  rewrite Heq. cbn [mbind option_bind].
  apply NoDup_app in Hnd1 as (Hndl & Hld & Hndd).
  destruct (restore_deferred_spec class (reverse deferred) (list_to_set lapsed' ∪ held) s1)
    as (q & Hr & HI2 & Hq2).
  { apply (Inv_held_equiv _ _ _ HI1). intros x.
    rewrite !elem_of_union, !elem_of_list_to_set, elem_of_reverse, elem_of_app. tauto. }
  { by rewrite reverse_Permutation. }
  { intros id. rewrite elem_of_reverse. set_solver. }
  { intros id j. rewrite elem_of_reverse. intros Hin Hj. destruct (Hdef id Hin) as (_ & j0 & ? & ?). congruence. }
  rewrite Hr. cbn [mbind option_bind].
  assert (admission s (set_queues s1 q)) as Hadm2.
  { eapply admission_trans; [exact HI|exact Hadm|].
    exact (admission_frame s1 q (js_served s1) (js_reads s1)). }
  exists lapsed', (set_queues s1 q). split_and!; [done|done|done|set_solver|done|done| | |].
  - done.
  - intros Hcap w id Hin Hid. apply Hq2 in Hin as [Hin|(_ & Hin & _)].
    + rewrite Hfull in Hin by done. by apply elem_of_nil in Hin.
    + rewrite elem_of_reverse in Hin. by apply Hdef.
  - intros c Hc. apply (conserving_frame _ _ _ _ _ HI Hadm2); [done|by apply Hrun|].
    intros w id [Hin|(? & _)]%Hq2; [by rewrite Hq in Hin|done].
Qed.

Lemma admission_log s id line : admission s (log instant s id line).2.
Proof.
  unfold log. destruct (MAX_LOG_LINE_BYTES <? _); [done|].
  destruct (js_jobs s !! id) as [j|] eqn:Hj; [|done].
  assert (∀ start progress lines s0, js_policy s0 = js_policy s → js_max_logs s0 = js_max_logs s →
    js_next s0 = js_next s → js_closing s0 = js_closing s → js_leases s0 = js_leases s →
    js_jobs s0 = <[id := with_job_log j start progress lines]> (js_jobs s) → admission s s0) as Hall.
  { intros start progress lines s0 ? ? ? ? Hle Hjs. split; [|..|done|done|by rewrite Hle].
    - eapply evolves_replace; [done| |done|done..]. split; try done. apply may_become_refl.
    - unfold queued_total. rewrite Hjs, map_total_insert, Hj. simpl. lia. }
  destruct (negb _); cbn zeta; destruct (_ <? _)%nat; by eapply Hall.
Qed.

(** Logging changes no job's state. *)
Lemma log_state s id line x j :
  js_jobs s !! x = Some j →
  ∃ j', js_jobs (log instant s id line).2 !! x = Some j' ∧ j_state j' = j_state j ∧
    j_error j' = j_error j ∧ j_key j' = j_key j.
Proof.
  intros Hx. unfold log. destruct (MAX_LOG_LINE_BYTES <? _); [by eauto|].
  destruct (js_jobs s !! id) as [jo|] eqn:Hj; [|by eauto].
  destruct (negb _); cbn zeta; destruct (_ <? _)%nat; cbn;
    (destruct (decide (id = x)) as [<-|Hne];
      [rewrite lookup_insert_eq; eexists; split; [done|]; assert (jo = j) as -> by congruence; done
      |rewrite lookup_insert_ne by done; eauto]).
Qed.

Lemma keeps_live_log s id line P : keeps_live P s (log instant s id line).2.
Proof.
  intros x j _ Hj Hl. destruct (log_state s id line x j Hj) as (j' & ? & E & _).
  exists j'. unfold live in *. by rewrite E.
Qed.

(** A pump ends only jobs that wait with a lapsed lease. *)
Definition spared (s : Jobs) (now : Z) (x : Z) : Prop :=
  lease_lapsed s x now = false ∨
  x < js_next s ∧ ∀ j, js_jobs s !! x = Some j → j_state j ≠ Queued.

(** Pumping succeeds with fuel above the number of queued jobs, keeps the invariant and
    leaves both classes conserving. *)
Record pumped (held : gset Z) (s : Jobs) (now : Z) (s' : Jobs) : Prop := {
  pu_inv : Inv held s';
  pu_admission : admission s s';
  pu_conserving : js_closing s = false → ∀ class, conserving s' now class;
  pu_live : keeps_live (spared s now) s s';
}.

Lemma lease_lapsed_antitone s s' x now :
  admission s s' → lease_lapsed s x now = false → lease_lapsed s' x now = false.
Proof.
  intros Hadm. unfold lease_lapsed. destruct (js_leases s' !! x) as [l|] eqn:E; [|done].
  by rewrite (ad_leases _ _ Hadm x l E).
Qed.

Lemma spared_antitone s s' x now : admission s s' → spared s now x → spared s' now x.
Proof.
  intros Hadm [Hl|[Hx Hq]]; [left; by eapply lease_lapsed_antitone|right].
  split; [by rewrite (ad_next _ _ Hadm)|]. intros j' Hj' Hst'. destruct (js_jobs s !! x) as [j|] eqn:Hj.
  - pose proof (je_state _ _ (ev_job _ _ (ad_evolves _ _ Hadm) x j j' Hj Hj')) as Hm.
    rewrite Hst' in Hm. specialize (Hq j eq_refl). by destruct (j_state j).
  - pose proof (ev_new _ _ (ad_evolves _ _ Hadm) x Hj ltac:(by eexists)). lia.
Qed.

Lemma finish_lapsed_spec (P : Z → Prop) pump fuel now lapsed s held :
  (∀ s held, Inv held s → queued_total s < Z.of_nat fuel →
     ∃ s', pump s now = Some s' ∧ pumped held s now s') →
  Inv (list_to_set lapsed ∪ held) s → NoDup lapsed → (∀ id, id ∈ lapsed → id ∉ held) →
  (∀ id, id ∈ lapsed → ¬ P id) → (∀ x, P x → spared s now x) →
  queued_total s ≤ Z.of_nat fuel → js_closing s = false →
  (lapsed = [] → ∀ class, conserving s now class) →
  ∃ s', finish_lapsed instant wall pump s lapsed now = Some s' ∧ Inv held s' ∧
    admission s s' ∧ (∀ class, conserving s' now class) ∧ keeps_live P s s'.
Proof.
  intros Hpump. revert s. induction lapsed as [|id lapsed IH];
    intros s HI Hnd Hdis HnP HP Hfuel Hopen Hcons; simpl.
  { exists s. split_and!; [done| |done|by apply Hcons|by apply keeps_live_same].
    apply (Inv_held_equiv _ _ _ HI). set_solver. }
  apply NoDup_cons in Hnd as [Hid Hnd].
  set (s1 := (log instant s id lapsed_message).2).
  pose proof (Inv_log instant _ s id lapsed_message HI) as HI1. fold s1 in HI1.
  pose proof (admission_log s id lapsed_message) as Hadm1. fold s1 in Hadm1.
  destruct (inv_held _ _ HI1 id) as (j & Hj & Hst & _); [set_solver|].
  destruct (finish_job_spec wall _ s1 id j Cancelled (Some "cancelled") HI1 Hj)
    as (s2 & Heq2 & HI2 & [Hadm2 Hq2 _ _ Hlive2]); [by unfold live; rewrite Hst|done|by rewrite Hst|].
  rewrite Heq2. cbn [mbind option_bind]. rewrite Hst in Hq2.
  change (is_queued Queued) with true in Hq2. cbn iota in Hq2.
  assert (Inv (list_to_set lapsed ∪ held) s2) as HI2'.
  { apply (Inv_held_equiv _ _ _ HI2). set_solver. }
  pose proof (ad_queued _ _ Hadm1).
  assert (admission s s2) as Hadm02 by (eapply admission_trans; [exact HI|done..]).
  destruct (Hpump s2 _ HI2') as (s3 & Heq3 & [HI3 Hadm3 Hcons3 Hlive3]); [lia|].
  rewrite Heq3. cbn [mbind option_bind]. pose proof (ad_queued _ _ Hadm3).
  assert (admission s s3) as Hadm03 by (eapply admission_trans; [exact HI|done..]).
  assert (js_closing s2 = false) as Hopen2 by by rewrite (ad_closing _ _ Hadm02).
  destruct (IH s3 HI3 Hnd) as (s' & Heq & HI' & Hadm' & Hcons' & Hlive').
  { intros x Hx. apply Hdis. by right. }
  { intros x Hx. apply HnP. by right. }
  { intros x Hx. by eapply spared_antitone, HP. }
  { lia. }
  { by rewrite (ad_closing _ _ Hadm03). }
  { intros _. by apply Hcons3. }
  exists s'. split_and!; [done|done|eapply admission_trans; [exact HI|done..]|done|].
  eapply keeps_live_trans; [by eapply (keeps_live_log s id lapsed_message)|].
  eapply keeps_live_trans; [|eapply keeps_live_trans; [|exact Hlive']].
  - eapply keeps_live_weaken, Hlive2. intros x Hx ->. apply (HnP id); [left|done].
  - eapply keeps_live_weaken, Hlive3. intros x Hx. by eapply spared_antitone, HP.
Qed.

Lemma pump_fueled_spec fuel s now held :
  Inv held s → queued_total s < Z.of_nat fuel →
  ∃ s', pump_fueled instant wall fuel s now = Some s' ∧ pumped held s now s'.
Proof.
  revert s held. induction fuel as [|fuel IH]; intros s held HI Hfuel; simpl.
  { exfalso. assert (0 ≤ queued_total s); [|lia]. unfold queued_total, map_total.
    apply sumZ_nonneg, Forall_fmap, Forall_true. intros j. simpl. by destruct (is_queued _). }
  destruct (js_closing s) eqn:Hopen.
  { exists s. split; [done|]. split; [done|done|congruence|by apply keeps_live_same]. }
  destruct (admit_class_spec held s Control now []) as
    (l1 & s1 & Heq1 & HI1 & Hnd1 & Hdis1 & Hlap1 & Hlive1 & Hadm1 & Hc1 & _).
  { apply (Inv_held_equiv _ _ _ HI). set_solver. }
  { constructor. }
  1,2: by intros ? ?%elem_of_nil.
  rewrite Heq1. cbn [mbind option_bind].
  destruct (admit_class_spec held s1 Runner now l1 HI1 Hnd1 Hdis1 Hlap1) as
    (l2 & s2 & Heq2 & HI2 & Hnd2 & Hdis2 & Hlap2 & Hlive2 & Hadm2 & Hc2 & Hkeep).
  rewrite Heq2. cbn [mbind option_bind].
  assert (admission s s2) as Hadm02 by (eapply admission_trans; [exact HI|done..]).
  pose proof (ad_queued _ _ Hadm02).
  destruct (finish_lapsed_spec (spared s now)
    (pump_fueled instant wall fuel) fuel now l2 s2 held)
    as (s' & Heq & HI' & Hadm' & Hcons' & Hlive'); try done.
  { intros x Hx HP. apply (spared_antitone _ _ _ _ Hadm02) in HP as [HP|[_ HP]].
    - rewrite (Hlap2 x Hx) in HP. done.
    - destruct (inv_held _ _ HI2 x) as (jx & Hjx & Hqx & _); [set_solver|]. by apply (HP jx). }
  { intros x HP. by eapply spared_antitone. }
  { lia. }
  { by rewrite (ad_closing _ _ Hadm02). }
  { intros _ []; [done|]. by apply Hkeep. }
  exists s'. split; [done|]. split; [done|eapply admission_trans; [exact HI|done..]|done|].
  eapply keeps_live_trans; [by eapply keeps_live_weaken, Hlive1|].
  eapply keeps_live_trans; [by eapply keeps_live_weaken, Hlive2|done].
Qed.

Lemma queued_total_size s : queued_total s ≤ Z.of_nat (size (js_jobs s)).
Proof.
  unfold queued_total, map_total. rewrite <-length_map_to_list, <-(length_fmap snd).
  induction ((map_to_list (js_jobs s)).*2) as [|j l IH]; [done|].
  rewrite fmap_cons. cbn [sumZ length]. destruct (is_queued (j_state j)); lia.
Qed.

Lemma pump_at_spec held s now :
  Inv held s → ∃ s', pump_at instant wall s now = Some s' ∧ pumped held s now s'.
Proof.
  intros HI. apply pump_fueled_spec; [done|]. pose proof (queued_total_size s).
  unfold pump_fuel. lia.
Qed.

(** [finish_at] ends the job and pumps. *)
Lemma finish_at_spec held s id j st err now :
  Inv held s → js_jobs s !! id = Some j → live j → terminal st = true →
  may_become (j_state j) st = true →
  ∃ s', finish_at instant wall s id st err now = Some s' ∧ Inv (held ∖ {[ id ]}) s' ∧
    admission s s' ∧
    (∀ j', js_jobs s' !! id = Some j' → j_state j' = st ∧ j_error j' = err) ∧
    (js_closing s = false → ∀ class, conserving s' now class) ∧
    keeps_live (λ x, x ≠ id ∧ spared s now x) s s'.
Proof.
  intros HI Hj Hl Hst Hmay.
  destruct (finish_job_spec wall held s id j st err HI Hj Hl Hst Hmay)
    as (s1 & Heq1 & HI1 & [Hadm1 _ Hout _ Hlive1]).
  destruct (pump_at_spec _ s1 now HI1) as (s' & Heq' & [HI' Hadm' Hcons' Hlive']).
  exists s'. unfold finish_at. rewrite Heq1. cbn [mbind option_bind].
  split_and!; [done|done|by eapply admission_trans| | |].
  - intros j' Hj'. destruct (js_jobs s1 !! id) as [j1|] eqn:Hj1.
    + destruct (Hout j1 eq_refl) as [Hs1 He1].
      destruct (ev_job _ _ (ad_evolves _ _ Hadm') id j1 j' Hj1 Hj') as [? ? ? ? ? Hm Hf].
      rewrite Hs1 in *. destruct (Hf Hst). split; [by apply may_become_terminal|congruence].
    + pose proof (ev_new _ _ (ad_evolves _ _ Hadm') id Hj1 ltac:(by eexists)) as Hnew.
      pose proof (jo_next _ _ _ _ (inv_job _ _ HI id j Hj)).
      rewrite (ad_next _ _ Hadm1) in Hnew. lia.
  - intros Hopen. apply Hcons'. by rewrite (ad_closing _ _ Hadm1).
  - eapply keeps_live_trans.
    + eapply keeps_live_weaken, Hlive1. by intros x [? _].
    + eapply keeps_live_weaken, Hlive'. intros x [_ ?]. by eapply spared_antitone.
Qed.
End pump.
