(* ===== verification/JobsSpec.v ===== *)
(** * The scheduler's theorems

    The operations of Jobs.v as steps of one transition system, and what holds of every
    state the daemon can reach through them. *)

From S2P Require Export JobsPump.

Local Open Scope string_scope.
Local Open Scope list_scope.
Local Open Scope Z_scope.
Local Open Scope bosn_scope.

(** ** The initial state *)

Lemma Inv_with_policy policy : Inv ∅ (with_policy policy).
Proof.
  assert (∀ n, occupied (replicate n None) = 0) as Hocc by by (intros n; induction n).
  split; split; unfold active, pending, running_of, queue_at, with_policy, Jobs_default;
    cbn [js_jobs js_slots js_running js_queues js_runner_slots js_leases js_owners js_finished
         js_started]; intros; rewrite ?lookup_empty in *; try done.
  all: try match goal with
    | c : JobClass |- (_ ≤ _)%nat => destruct c; cbn; lia
    | |- NoDup _ => constructor
    | Hin : _ ∈ _ |- _ => by apply elem_of_nil in Hin
    end.
  - apply length_replicate.
  - rewrite lookup_replicate. split; [by intros [[=] _]|by intros (j & ? & _)].
  - split; [by intros ?%elem_of_nil|by intros (j & ? & _)].
Qed.

(** ** A new job *)

Definition new_job (id : Z) (key : string * string) (digest : string) (class : JobClass) (at_ : Z) :
    Job :=
  {| j_id := id; j_workspace := key.1; j_stack := key.2; j_digest := digest;
     j_state := Queued; j_error := None; j_log_start := 0; j_class := class;
     j_slot := None; j_submitted_at := at_; j_started_at := None;
     j_finished_at := None; j_last_progress := None; j_logs := [] |}.

Lemma new_job_key id key digest class at_ : j_key (new_job id key digest class at_) = key.
Proof. by destruct key. Qed.

(** The state with a fresh job in its key's slot. *)
Definition with_new (s : Jobs) (key : string * string) (digest : string) (class : JobClass)
    (at_ : Z) (sl : Slot) : Jobs :=
  set_slots (set_jobs (tick (set_next s (js_next s + 1)))
    (<[js_next s := new_job (js_next s) key digest class at_]> (js_jobs s)))
    (<[key := sl]> (js_slots s)).

Lemma fresh_id held s : Inv held s → js_jobs s !! js_next s = None.
Proof.
  intros HI. destruct (js_jobs s !! js_next s) as [j|] eqn:Hj; [|done].
  pose proof (jo_next _ _ _ _ (inv_job _ _ HI _ _ Hj)). lia.
Qed.

(** What the insertion of a fresh job changes in the slots. *)
Record new_slot (s : Jobs) (key : string * string) (sl : Slot) : Prop := {
  ns_cases : (js_slots s !! key = None ∧ sl_active sl = Some (js_next s) ∧ sl_pending sl = None) ∨
    (is_Some (active s key) ∧ pending s key = None ∧ sl_active sl = active s key ∧
     sl_pending sl = Some (js_next s));
}.

Definition new_held (s : Jobs) (sl : Slot) : gset Z :=
  if bool_decide (sl_active sl = Some (js_next s)) then {[ js_next s ]} else ∅.

Section new_record.
Context (held : gset Z) (s : Jobs) (key : string * string) (digest : string) (class : JobClass).
Context (at_ : Z) (sl : Slot) (HI : Inv held s) (Hslot : new_slot s key sl).
Local Notation id := (js_next s).
Local Notation j := (new_job (js_next s) key digest class at_).
Local Notation s' := (with_new s key digest class at_ sl).

Lemma with_new_lt x jx : js_jobs s !! x = Some jx → x < id.
Proof. intros Hx. apply (jo_next _ _ _ _ (inv_job _ _ HI x jx Hx)). Qed.

Lemma with_new_keep x jx : js_jobs s !! x = Some jx → js_jobs s' !! x = Some jx.
Proof.
  intros Hx. cbn. rewrite lookup_insert_ne; [done|]. pose proof (with_new_lt x jx Hx). lia.
Qed.

Lemma with_new_job : js_jobs s' !! id = Some j.
Proof. cbn. by rewrite lookup_insert_eq. Qed.

Lemma with_new_active k :
  active s' k = if bool_decide (key = k) then sl_active sl else active s k.
Proof.
  unfold active. cbn. case_bool_decide; subst;
    rewrite ?lookup_insert_eq, ?lookup_insert_ne by done; done.
Qed.

Lemma with_new_pending k :
  pending s' k = if bool_decide (key = k) then sl_pending sl else pending s k.
Proof.
  unfold pending. cbn. case_bool_decide; subst;
    rewrite ?lookup_insert_eq, ?lookup_insert_ne by done; done.
Qed.

Lemma with_new_same_active a : active s key = Some a → sl_active sl = Some a ∧ a < id.
Proof.
  intros Ha. destruct (inv_active _ _ HI _ _ Ha) as (ja & Hja & _).
  split; [|by eapply with_new_lt]. destruct Hslot as [[(E & _)|(_ & _ & -> & _)]]; [|done].
  unfold active in Ha. by rewrite E in Ha.
Qed.

Lemma with_new_stay k x : active s k = Some x → active s' k = Some x.
Proof.
  intros Ha. rewrite with_new_active. case_bool_decide as E; [|done].
  apply with_new_same_active. by rewrite E.
Qed.

Lemma new_held_cases : new_held s sl = ∅ ∨ new_held s sl = {[id]} ∧ sl_active sl = Some id.
Proof. unfold new_held. case_bool_decide; auto. Qed.

Lemma SlotsInv_new : SlotsInv s'.
Proof.
  pose proof (ns_cases _ _ _ Hslot) as Hcases. split.
  - intros x jx Hx. at_job Hx.
    + split; [done|cbn; lia| | |]; [split; [by intros []|done]|split; [by intros []|done]|].
      split; cbn; [lia|done|lia|constructor].
    + destruct (inv_job _ _ HI x jx Hx) as [? ? ? ? ?]. split; try done. cbn. lia.
  - intros k x Ha. rewrite with_new_active in Ha. case_bool_decide as E.
    + subst k. destruct Hcases as [(_ & E & _)|(_ & _ & E & _)]; rewrite E in Ha.
      * injection Ha as <-. exists j. split_and!; [apply with_new_job|done|apply new_job_key].
      * destruct (inv_active _ _ HI _ _ Ha) as (jx & ? & ? & ?). eauto using with_new_keep.
    + destruct (inv_active _ _ HI _ _ Ha) as (jx & ? & ? & ?). eauto using with_new_keep.
  - intros k x Hp. rewrite with_new_pending in Hp. rewrite with_new_active. case_bool_decide as E.
    + subst k. destruct Hcases as [(_ & _ & E)|([a Ha] & _ & E1 & E)]; rewrite E in Hp; [done|].
      injection Hp as <-. rewrite E1, Ha. destruct (with_new_same_active a Ha).
      split_and!; [by eexists|intros [=]; lia|]. exists j.
      split_and!; [apply with_new_job|done|apply new_job_key].
    + destruct (inv_pending _ _ HI _ _ Hp) as (? & ? & jx & ? & ? & ?).
      split_and!; [done..|]. eauto using with_new_keep.
  - intros k [sk Hk]. cbn in Hk. rewrite with_new_active. case_bool_decide as E.
    + destruct Hcases as [(_ & -> & _)|(? & _ & -> & _)]; [by eexists|done].
    + rewrite lookup_insert_ne in Hk by done. apply (inv_slot_used _ _ HI). by eexists.
  - intros x jx Hx Hl. at_job Hx.
    + rewrite new_job_key, with_new_active, with_new_pending, !bool_decide_true by done.
      destruct Hcases as [(_ & -> & _)|(_ & _ & _ & ->)]; [by left|by right].
    + destruct (inv_live _ _ HI x jx Hx Hl) as [Ha|Hp]; [left; by apply with_new_stay|right].
      rewrite with_new_pending. case_bool_decide as E; [|done]. rewrite <-E in Hp.
      destruct Hcases as [(E' & _)|(_ & E' & _)]; [|congruence].
      unfold pending in Hp. by rewrite E' in Hp.
Qed.

Lemma LanesInv_new : LanesInv s'.
Proof.
  pose proof (fresh_id held s HI) as Hfresh. split; try inv_same HI.
  - intros c. change (running_of s' c) with (running_of s c). rewrite (inv_running _ _ HI).
    unfold running_total. cbn. by rewrite map_total_insert_None.
  - intros i x. change (js_runner_slots s') with (js_runner_slots s).
    rewrite (inv_lane_job _ _ HI). split; [naive_solver eauto using with_new_keep|].
    intros (jx & Hx & Hi). at_job Hx; [done|eauto].
Qed.

Lemma QueuesInv_new : QueuesInv (new_held s sl ∪ held) s'.
Proof.
  pose proof (ns_cases _ _ _ Hslot) as Hcases. split; try inv_same HI.
  - intros c w x Hin. cbn. pose proof (inv_queue_next _ _ HI c w x Hin). lia.
  - intros c w x jx Hin Hx Hq. pose proof (inv_queue_next _ _ HI c w x Hin).
    at_job Hx; [lia|]. destruct (inv_queue_job _ _ HI c w x jx Hin Hx Hq) as (? & ? & ? & ?).
    split_and!; [done|done|by apply with_new_stay|].
    destruct new_held_cases as [-> |[-> _]]; [set_solver|].
    apply not_elem_of_union. split; [|done]. intros ?%elem_of_singleton. lia.
  - intros x jx Hx Hq Ha. rewrite with_new_active in Ha. at_job Hx.
    + left. rewrite new_job_key, bool_decide_true in Ha by done.
      unfold new_held. rewrite bool_decide_true by done. set_solver.
    + assert (active s (j_key jx) = Some x) as Ha'.
      { case_bool_decide as E; [|done]. destruct Hcases as [(_ & E' & _)|(_ & _ & E' & _)];
          rewrite E' in Ha; [|by rewrite <-E]. injection Ha as <-. done. }
      destruct (inv_waiting _ _ HI x jx Hx Hq Ha'); [left; set_solver|by right].
  - intros x [Hx|Hx]%elem_of_union.
    + destruct new_held_cases as [E|[E Ha]]; rewrite E in Hx; [set_solver|].
      apply elem_of_singleton in Hx as ->. exists j. split_and!; [apply with_new_job|done|].
      by rewrite with_new_active, new_job_key, bool_decide_true.
    + destruct (inv_held _ _ HI x Hx) as (jx & ? & ? & ?).
      eauto 10 using with_new_keep, with_new_stay.
Qed.

Lemma LedgerInv_new : LedgerInv s'.
Proof.
  split; try inv_same HI.
  - intros x Hx. destruct (inv_leases _ _ HI x Hx) as (jx & ? & ?). eauto using with_new_keep.
  - intros x Hx. destruct (inv_owners _ _ HI x Hx) as (jx & ? & ?). eauto using with_new_keep.
  - intros x. change (js_finished s') with (js_finished s). rewrite (inv_finished _ _ HI).
    split; [naive_solver eauto using with_new_keep|].
    intros (jx & Hx & Ht). at_job Hx; [done|eauto].
  - intros x Hx. destruct (inv_started _ _ HI x Hx) as [? Hns]. split; [cbn; lia|].
    intros jx Hjx. at_job Hjx; [lia|by apply Hns].
Qed.

Lemma Inv_new : Inv (new_held s sl ∪ held) s'.
Proof. split; [apply SlotsInv_new|apply LanesInv_new|apply QueuesInv_new|apply LedgerInv_new]. Qed.
End new_record.

(** ** Submission *)

(** The job an identical submission joins: the key's active job unless it is being cancelled,
    else the waiting one. *)
Definition joinable (s : Jobs) (key : string * string) (digest : string) : option Z :=
  let matches id p := is_some_and (js_jobs s !! id) (λ j, String.eqb (j_digest j) digest && p j) in
  match active s key with
  | Some a =>
      if matches a (λ j, negb (bool_decide (j_state j = Cancelling))) then Some a
      else match pending s key with
           | Some p => if matches p (λ _, true) then Some p else None
           | None => None
           end
  | None => None
  end.

(** A submission that starts new work. *)
Record accepted (s : Jobs) (key : string * string) (digest : string) (class : JobClass)
    (r : Submission) (s' : Jobs) : Prop := {
  ac_inv : Inv ∅ s';
  ac_evolves : evolves s s';
  ac_next : js_next s' = js_next s + 1;
  ac_job : ∃ j, js_jobs s' !! js_next s = Some j ∧ j_key j = key ∧ j_digest j = digest ∧
    j_class j = class ∧ live j ∧
    r = (if bool_decide (j_state j = Running) then SubStarted else SubQueued) (js_next s);
  (** Behind the key's active job it waits; else it is the active one and waits only for a full lane. *)
  ac_placed : ∀ j, js_jobs s' !! js_next s = Some j →
    match active s key with
    | Some _ => j_state j = Queued ∧ pending s' key = Some (js_next s)
    | None => active s' key = Some (js_next s) ∧
        (j_state j = Queued → (cap s class ≤ running_of s' class)%nat)
    end;
  ac_superseded : ∀ p j, pending s key = Some p → js_jobs s' !! p = Some j →
    j_state j = Superseded ∧ j_error j = Some "superseded";
}.

Lemma evolves_new held s key digest class at_ sl :
  Inv held s → evolves s (with_new s key digest class at_ sl).
Proof.
  intros HI. pose proof (fresh_id held s HI). split; [done|done|cbn; lia| |].
  - intros x j j' Hj Hj'. at_job Hj'; [congruence|]. by assert (j' = j) as -> by congruence.
  - intros x Hn [j Hj]. at_job Hj; [lia|congruence].
Qed.

(** A job that is live after an admission was live before it. *)
Lemma live_before_admission held held' s s' x jx :
  Inv held s → Inv held' s' → admission s s' → js_jobs s' !! x = Some jx → live jx →
  ∃ j, js_jobs s !! x = Some j ∧ live j ∧ j_key j = j_key jx.
Proof.
  intros HI HI' Hadm Hx Hl. destruct (js_jobs s !! x) as [j|] eqn:Hj.
  - pose proof (ev_job _ _ (ad_evolves _ _ Hadm) x j jx Hj Hx) as Hje. exists j. split_and!; [done| |by rewrite (je_key _ _ Hje)].
    unfold live in *. destruct (terminal (j_state j)) eqn:Ht; [|done].
    rewrite (may_become_terminal _ _ (je_state _ _ Hje) Ht) in Hl. congruence.
  - pose proof (ev_new _ _ (ad_evolves _ _ Hadm) x Hj ltac:(by eexists)) as Hn.
    pose proof (jo_next _ _ _ _ (inv_job _ _ HI' x jx Hx)). rewrite (ad_next _ _ Hadm) in *. lia.
Qed.

Section submission.
Context (instant wall : nat → Z).

Lemma admit_new_eq s key digest class act sl :
  js_slots s !! key = Some sl →
  admit_new instant wall s key digest class act =
  match act with
  | Some _ =>
      Some (Ok (SubQueued (js_next s)),
            with_new s key digest class (wall_now wall s)
              {| sl_active := sl_active sl; sl_pending := Some (js_next s) |})
  | None =>
      s1 ← enqueue (with_new s key digest class (wall_now wall s)
                      {| sl_active := Some (js_next s); sl_pending := sl_pending sl |}) (js_next s);
      s2 ← pump instant wall s1;
      j ← js_jobs s2 !! js_next s;
      Some (Ok (if bool_decide (j_state j = Running)
                then SubStarted (js_next s) else SubQueued (js_next s)), s2)
  end.
Proof.
  intros Hsl. destruct s. cbn in Hsl. unfold admit_new. cbn. rewrite Hsl. cbn. by destruct act.
Qed.

Lemma with_new_over s key digest class at_ sl0 sl :
  with_new (set_slots s (<[key := sl0]> (js_slots s))) key digest class at_ sl =
  with_new s key digest class at_ sl.
Proof. destruct s. unfold with_new. cbn. by rewrite insert_insert_eq. Qed.

(** A fresh job behind the key's active one. *)
Lemma admit_new_behind s s0 key digest class a :
  Inv ∅ s → active s key = Some a → pending s key = None →
  evolves s0 s → js_next s = js_next s0 → Inv ∅ s0 →
  (∀ p j, pending s0 key = Some p → js_jobs s !! p = Some j →
     j_state j = Superseded ∧ j_error j = Some "superseded") →
  (∀ p, pending s0 key = Some p → p < js_next s) → is_Some (active s0 key) →
  ∃ r s', admit_new instant wall s key digest class (Some a) = Some (Ok r, s') ∧
    accepted s0 key digest class r s'.
Proof.
  intros HI Ha Hp Hev Hnext HI0 Hsup Hlt [a0 Ha0].
  destruct (js_slots s !! key) as [sl|] eqn:Hsl; [|unfold active in Ha; by rewrite Hsl in Ha].
  rewrite (admit_new_eq _ _ _ _ _ sl) by done. eexists _, _. split; [done|].
  assert (sl_active sl = Some a) as Hsa by (unfold active in Ha; by rewrite Hsl in Ha).
  pose proof (inv_active _ _ HI _ _ Ha) as (ja & Hja & _).
  pose proof (jo_next _ _ _ _ (inv_job _ _ HI a ja Hja)) as Hla.
  set (sl' := {| sl_active := sl_active sl; sl_pending := Some (js_next s) |}).
  pose proof (Inv_new ∅ s key digest class (wall_now wall s) sl' HI) as HI'.
  assert (new_held s sl' = ∅) as Hh.
  { unfold new_held. rewrite bool_decide_false; [done|]. cbn. rewrite Hsa. intros [=]. lia. }
  split.
  - rewrite Hh, union_empty_l_L in HI'. apply HI'. split. right. cbn. rewrite Hsa, Ha. eauto.
  - eapply evolves_trans; [exact HI0|exact Hev|].
    exact (evolves_new ∅ s key digest class (wall_now wall s) sl' HI).
  - cbn. lia.
  - exists (new_job (js_next s) key digest class (wall_now wall s)).
    rewrite <-Hnext. cbn. rewrite lookup_insert_eq, new_job_key. done.
  - intros j. rewrite Ha0, <-Hnext. unfold pending. cbn. rewrite !lookup_insert_eq. by intros [= <-].
  - intros p j Hps Hj. pose proof (Hlt p Hps). at_job Hj; [lia|]. by eapply Hsup.
Qed.

(** A fresh job that becomes its key's active one. *)
Lemma admit_new_first s key digest class :
  Inv ∅ s → js_closing s = false → js_slots s !! key = None →
  ∃ r s', admit_new instant wall (set_slots s (<[key := Slot_default]> (js_slots s)))
      key digest class None = Some (Ok r, s') ∧ accepted s key digest class r s'.
Proof.
  intros HI Hopen Hsl. erewrite admit_new_eq by apply lookup_insert_eq.
  rewrite with_new_over. change (js_next (set_slots s _)) with (js_next s).
  change (wall_now wall (set_slots s _)) with (wall_now wall s). cbn [sl_pending Slot_default].
  set (sl' := {| sl_active := Some (js_next s); sl_pending := None |}).
  set (j := new_job (js_next s) key digest class (wall_now wall s)).
  set (s1 := with_new s key digest class (wall_now wall s) sl').
  pose proof (Inv_new ∅ s key digest class (wall_now wall s) sl' HI) as HI1. fold s1 in HI1.
  assert (new_held s sl' = {[ js_next s ]}) as Hh.
  { unfold new_held. by rewrite bool_decide_true. }
  rewrite Hh in HI1.
  assert (js_jobs s1 !! js_next s = Some j) as Hj by (cbn; by rewrite lookup_insert_eq).
  set (s2 := update_queue s1 class key.1 (λ q, q ++ [js_next s])).
  assert (Inv ∅ s2) as HI2.
  { refine (Inv_requeue ∅ s1 (js_next s) j _ _ _ _ Hj); [|apply HI1|set_solver].
    - intros l. by rewrite <-Permutation_cons_append.
    - split. by left. }
  assert (enqueue s1 (js_next s) = Some s2) as -> by (unfold enqueue; by rewrite Hj).
  cbn [mbind option_bind]. unfold pump.
  destruct (pump_at_spec instant wall ∅ (tick s2) (instant_now instant s2)) as
    (s3 & Heq & [HI3 Hadm Hcons Hlive]); [by apply Inv_tick|].
  rewrite Heq. cbn [mbind option_bind].
  destruct (Hlive (js_next s) j) as (j3 & Hj3 & Hl3); [|done|done|].
  { left. unfold lease_lapsed. destruct (js_leases (tick s2) !! js_next s) as [l|] eqn:Hle; [|done].
    destruct (inv_leases _ _ HI (js_next s)) as (j0 & Hj0 & _); [by exists l|].
    by rewrite (fresh_id ∅ s HI) in Hj0. }
  rewrite Hj3. cbn [mbind option_bind]. eexists _, _. split; [done|].
  assert (job_evolves j j3) as Hje.
  { eapply (ev_job _ _ (ad_evolves _ _ Hadm)); [|done]. exact Hj. }
  assert (j_key j3 = key) as Hk3 by (rewrite (je_key _ _ Hje); apply new_job_key).
  assert (active s3 key = Some (js_next s)) as Ha3.
  { destruct (inv_live _ _ HI3 _ _ Hj3 Hl3) as [E|E]; rewrite Hk3 in E; [done|].
    destruct (inv_pending _ _ HI3 _ _ E) as (_ & Hne & _).
    destruct (inv_slot_used _ _ HI3 key) as [a Ha]; [unfold pending in E; by destruct (js_slots s3 !! key)|].
    destruct (inv_active _ _ HI3 _ _ Ha) as (ja & Hja & Hla & Hka).
    destruct (live_before_admission ∅ ∅ (tick s2) s3 a ja) as (j0 & Hj0 & Hl0 & Hk0); [by apply Inv_tick|done..|].
    destruct (inv_live _ _ HI2 a j0 Hj0 Hl0) as [E'|E']; rewrite Hk0, Hka in E';
      unfold active, pending in E'; cbn in E'; rewrite lookup_insert_eq in E'; cbn in E'; congruence. }
  split; [done| | | | |].
  - eapply (evolves_trans ∅); [exact HI|exact (evolves_new ∅ s key digest class (wall_now wall s) sl' HI)|].
    destruct (ad_evolves _ _ Hadm). by split.
  - rewrite (ad_next _ _ Hadm). done.
  - exists j3. rewrite (je_key _ _ Hje), (je_digest _ _ Hje), (je_class _ _ Hje).
    split_and!; [done|apply new_job_key|done|done|done|]. by case_bool_decide.
  - intros j' Hj'. assert (j' = j3) as -> by congruence. unfold active at 1. rewrite Hsl. cbn.
    split; [done|]. intros Hq. destruct (decide (running_of s3 class < cap s class)%nat) as [Hroom|]; [exfalso|lia].
    assert (cap s3 class = cap s class) as Hcap by (unfold cap; by rewrite (ev_policy _ _ (ad_evolves _ _ Hadm))).
    destruct (inv_waiting _ _ HI3 _ _ Hj3 Hq) as [?|Hin]; [by rewrite Hk3|set_solver|].
    rewrite (je_class _ _ Hje) in Hin. rewrite <-Hcap in Hroom.
    assert (lease_stale s3 (js_next s) (instant_now instant s2) = true) as Hstale.
    { apply (Hcons Hopen class Hroom _ _ Hin). apply job_is_queued. eauto. }
    unfold lease_stale in Hstale. destruct (js_leases s3 !! js_next s) as [l|] eqn:Hle; [|done].
    apply (ad_leases _ _ Hadm) in Hle. destruct (inv_leases _ _ HI (js_next s)) as (j0 & Hj0 & _); [by exists l|].
    by rewrite (fresh_id ∅ s HI) in Hj0.
  - intros p jp Hp. unfold pending in Hp. by rewrite Hsl in Hp.
Qed.

(** The whole operation: it joins, it accepts a new job, or it panics because the waiting
    job it superseded let the pump end the active one. *)
Lemma submit_class_spec s workspace stack digest class :
  let key := (workspace, stack) in
  Inv ∅ s → js_closing s = false →
  match joinable s key digest with
  | Some id => submit_class instant wall s workspace stack digest class = Some (Ok (SubJoined id), s)
  | None =>
      (∃ r s', submit_class instant wall s workspace stack digest class = Some (Ok r, s') ∧
         accepted s key digest class r s') ∨
      (submit_class instant wall s workspace stack digest class = None ∧
       ∃ a p ja, active s key = Some a ∧ pending s key = Some p ∧
         js_jobs s !! a = Some ja ∧ j_state ja = Queued ∧
         lease_lapsed s a (instant_now instant s) = true)
  end.
Proof.
  intros key HI Hopen. unfold submit_class. rewrite Hopen. fold key.
  destruct (js_slots s !! key) as [sl|] eqn:Hsl.
  2: { unfold joinable, active. rewrite Hsl. cbn. left. by apply admit_new_first. }
  change (default Slot_default (Some sl)) with sl. rewrite (insert_id _ _ _ Hsl).
  replace (set_slots s (js_slots s)) with s by by destruct s.
  assert (active s key = sl_active sl) as Ha by (unfold active; by rewrite Hsl).
  assert (pending s key = sl_pending sl) as Hp by (unfold pending; by rewrite Hsl).
  unfold joinable. rewrite Ha, Hp. 
  destruct (inv_slot_used _ _ HI key) as [a Hact]; [by eexists|].
  rewrite Ha in Hact. rewrite Hact.
  destruct (inv_active _ _ HI key a) as (ja & Hja & Hla & Hka); [congruence|].
  rewrite Hja. cbn [mbind option_bind is_some_and]. cbn beta.
  destruct (String.eqb (j_digest ja) digest && negb (bool_decide (j_state ja = Cancelling))); [done|].
  unfold submit_over_pending. destruct (sl_pending sl) as [p|] eqn:Hpend.
  2: { left. eapply admit_new_behind; try done; [congruence|..|rewrite Ha; by eexists]; intros; congruence. }
  destruct (inv_pending _ _ HI key p Hp) as (_ & Hne & jp & Hjp & Hst & Hkp).
  rewrite Hjp. cbn [mbind option_bind is_some_and]. cbn beta. rewrite andb_true_r.
  destruct (String.eqb (j_digest jp) digest); [done|].
  unfold finish.
  destruct (finish_at_spec instant wall ∅ (tick s) p jp Superseded (Some "superseded")
    (instant_now instant s)) as (s1 & Heq & HI1 & Hadm & Hout & _ & Hlive);
    [by apply Inv_tick|done|by unfold live; rewrite Hst|done|by rewrite Hst|].
  rewrite Heq. cbn [mbind option_bind].
  assert (∅ ∖ {[p]} = (∅ : gset Z)) as E by set_solver. rewrite E in HI1. clear E.
  assert (∀ x jx, js_jobs s1 !! x = Some jx → live jx → j_key jx = key → x = a) as Honly.
  { intros x jx Hx Hlx Hkx.
    destruct (live_before_admission ∅ ∅ (tick s) s1 x jx) as (j0 & Hx0 & Hl0 & Hk0); [by apply Inv_tick|done..|].
    destruct (inv_live _ _ HI x j0 Hx0 Hl0) as [E|E]; rewrite Hk0, Hkx in E; [congruence|].
    assert (x = p) as -> by congruence. destruct (Hout jx Hx) as [E' _].
    unfold live in Hlx. by rewrite E' in Hlx. }
  destruct (js_slots s1 !! key) as [sl1|] eqn:Hsl1.
  - left. destruct (inv_slot_used _ _ HI1 key) as [a1 Ha1]; [by eexists|].
    destruct (inv_active _ _ HI1 key a1 Ha1) as (j1 & Hj1 & Hl1 & Hk1).
    assert (a1 = a) as -> by by eapply Honly.
    eapply admit_new_behind; try done.
    + destruct (pending s1 key) as [p1|] eqn:Hp1; [|done].
      destruct (inv_pending _ _ HI1 key p1 Hp1) as (_ & Hne1 & jp1 & Hjp1 & Hq1 & Hkp1).
      exfalso. apply Hne1. rewrite Ha1. f_equal. symmetry. eapply Honly; [done| |done].
      unfold live. by rewrite Hq1.
    + destruct (ad_evolves _ _ Hadm). by split.
    + by rewrite (ad_next _ _ Hadm).
    + intros p0 j0 Hp0 Hj0. assert (p0 = p) as -> by congruence. by apply Hout.
    + intros p0 Hp0. assert (p0 = p) as -> by congruence. rewrite (ad_next _ _ Hadm).
      apply (jo_next _ _ _ _ (inv_job _ _ HI p jp Hjp)).
    + rewrite Ha. by eexists.
  - right. split.
    + unfold admit_new. change (js_slots (set_jobs _ _)) with (js_slots s1). by rewrite Hsl1.
    + exists a, p, ja. split_and!; [done..| |].
      all: match goal with |- ?G => destruct (decide G) as [|Hspared]; [done|exfalso] end.
      all: destruct (Hlive a ja) as (ja1 & Hja1 & Hla1); [|done|done|].
      all: try (split; [congruence|]).
      1: { right. split; [|intros j0 Hj0; change (js_jobs s !! a = Some j0) in Hj0; by assert (j0 = ja) as -> by congruence].
           exact (jo_next _ _ _ _ (inv_job _ _ HI a ja Hja)). }
      2: { left. by apply not_true_iff_false. }
      all: pose proof (ev_job _ _ (ad_evolves _ _ Hadm) a ja ja1 Hja Hja1) as Hje.
      all: destruct (inv_live _ _ HI1 a ja1 Hja1 Hla1) as [E|E];
        rewrite (je_key _ _ Hje), Hka in E; unfold active, pending in E; by rewrite Hsl1 in E.
Qed.
End submission.

(** ** The other operations *)

Lemma Inv_lease s id period now : Inv ∅ s → Inv ∅ (lease s id period now).
Proof.
  intros HI. unfold lease. destruct (js_jobs s !! id) as [j|] eqn:Hj; [|done]. cbn [is_none_or].
  destruct (terminal (j_state j)) eqn:Ht; [done|]. inv_split HI.
  intros x [l Hx]. cbn in Hx. apply lookup_insert_Some in Hx as [[<- _]|[_ Hx]]; [by exists j|].
  apply (inv_leases _ _ HI). by eexists.
Qed.

Lemma Inv_own s id owner created : Inv ∅ s → Inv ∅ (own s id owner created).
Proof.
  intros HI. unfold own. destruct (job_is s id _) eqn:Hj; [|done].
  apply is_some_and_true in Hj as (j & Hj & Hl). booleans. inv_split HI.
  intros x [o Hx]. cbn [js_owners set_owners] in Hx. unfold submitted in Hx.
  assert (is_Some (js_owners s !! x) ∨ x = id) as [Hs| ->]; [|by apply (inv_owners _ _ HI)|by exists j].
  destruct owner as [owner|]; [destruct created|].
  - apply lookup_insert_Some in Hx as [[<- _]|[_ Hx]]; [by right|left; by eexists].
  - destruct (js_owners s !! id); [|left; by eexists].
    apply lookup_insert_Some in Hx as [[<- _]|[_ Hx]]; [by right|left; by eexists].
  - apply lookup_delete_Some in Hx as [_ Hx]. left. by eexists.
Qed.

Lemma Inv_orphaned s liveness : Inv ∅ s → Inv ∅ (jobs_orphaned s liveness).2.
Proof.
  intros HI. unfold jobs_orphaned.
  destruct (orphaned Z.compare liveness (js_owners s)) as [[out owned] asked] eqn:E. inv_split HI.
  intros x [o Hx]. cbn in Hx. apply (inv_owners _ _ HI). exists o.
  apply (orphaned_shrinks Z.compare liveness). by rewrite E.
Qed.

Lemma Inv_take_started s : Inv ∅ s → Inv ∅ (take_started s).2.
Proof. intros HI. inv_split HI; cbn; [constructor|by intros x ?%elem_of_nil]. Qed.

Lemma Inv_closing held s : Inv held s → Inv held (set_closing s true).
Proof. intros HI. inv_split HI. Qed.

Section operations.
Context (instant wall : nat → Z).

Lemma touch_spec s id now :
  Inv ∅ s → ∃ s', touch instant wall s id now = Some s' ∧ Inv ∅ s' ∧ evolves s s' ∧
    js_closing s' = js_closing s.
Proof.
  intros HI. unfold touch. destruct (js_leases s !! id) as [l|] eqn:Hl; [|by exists s].
  set (s1 := set_leases s _).
  assert (Inv ∅ s1) as HI1.
  { inv_split HI. intros x [lx Hx]. cbn in Hx.
    apply lookup_insert_Some in Hx as [[<- _]|[_ Hx]]; apply (inv_leases _ _ HI); by eexists. }
  assert (evolves s s1) as Hev.
  { split; [done|done|done| |].
    - intros x j j' Hj Hj'. cbn in Hj'. assert (j' = j) as -> by congruence. reflexivity.
    - intros x Hn [j Hj]. cbn in Hj. congruence. }
  destruct (job_is s1 id is_queued); [|by exists s1].
  destruct (pump_at_spec instant wall ∅ s1 now HI1) as (s' & -> & [HI' Hadm _ _]).
  exists s'. split_and!; [done|done|eapply evolves_trans; [exact HI|done|apply Hadm]|].
  by rewrite (ad_closing _ _ Hadm).
Qed.

Lemma evolves_tick s s' : evolves (tick s) s' → evolves s s'.
Proof. intros []. by split. Qed.

(** Ending one unfinished job, with the clock read by the operation itself. *)
Lemma finish_spec s id j st err :
  Inv ∅ s → js_jobs s !! id = Some j → live j → terminal st = true →
  may_become (j_state j) st = true →
  ∃ s', finish instant wall s id st err = Some s' ∧ Inv ∅ s' ∧ evolves s s' ∧
    js_closing s' = js_closing s ∧ js_next s' = js_next s ∧
    (∀ j', js_jobs s' !! id = Some j' → j_state j' = st ∧ j_error j' = err).
Proof.
  intros HI Hj Hl Hst Hmay.
  destruct (finish_at_spec instant wall ∅ (tick s) id j st err (instant_now instant s))
    as (s' & Heq & HI' & Hadm & Hout & _); [by apply Inv_tick|done..|].
  exists s'. split_and!; [done| |by apply evolves_tick, Hadm|by apply Hadm|by apply Hadm|done].
  apply (Inv_held_equiv _ _ _ HI'). set_solver.
Qed.

(** While closing, ending a job touches no other unfinished one. *)
Lemma finish_closing s id j st err :
  Inv ∅ s → js_closing s = true → js_jobs s !! id = Some j → live j → terminal st = true →
  may_become (j_state j) st = true →
  ∃ s', finish instant wall s id st err = Some s' ∧ keeps_live (λ x, x ≠ id) s s'.
Proof.
  intros HI Hc Hj Hl Hst Hmay. unfold finish, finish_at.
  destruct (finish_job_spec wall ∅ (tick s) id j st err) as (s' & Heq & _ & [Hadm _ _ _ Hlive]);
    [by apply Inv_tick|done..|].
  rewrite Heq. cbn [mbind option_bind]. exists s'. split; [|done].
  unfold pump_at, pump_fuel. cbn [pump_fueled]. by rewrite (ad_closing _ _ Hadm), (Hc : js_closing (tick s) = true).
Qed.

Lemma cancel_spec s id :
  Inv ∅ s →
  ∃ r s', cancel instant wall s id = Some (r, s') ∧ Inv ∅ s' ∧ evolves s s' ∧
    js_closing s' = js_closing s ∧ js_next s' = js_next s ∧
    match js_jobs s !! id with
    | None => r = Err UnknownJob ∧ s' = s
    | Some j =>
        if terminal (j_state j) then r = Err Finished ∧ s' = s
        else r = Ok () ∧
          if bool_decide (j_state j = Running)
          then js_jobs s' = <[id := with_job_state j Cancelling]> (js_jobs s)
          else ∀ j', js_jobs s' !! id = Some j' →
                 j_state j' = Cancelled ∧ j_error j' = Some "cancelled"
    end.
Proof.
  intros HI. unfold cancel. destruct (js_jobs s !! id) as [j|] eqn:Hj; [|by eexists _, s].
  destruct (terminal (j_state j)) eqn:Ht; [by eexists _, s|]. case_bool_decide as Hr.
  - eexists _, _. split_and!; [done| | |done|done|done|done].
    + destruct (jo_logs _ _ _ _ (inv_job _ _ HI id j Hj)).
      apply (Inv_replace ∅ s id j); try done; by rewrite Hr.
    + eapply evolves_replace; [done| |done|done..]. split; try done; by rewrite Hr.
  - destruct (finish_spec s id j Cancelled (Some "cancelled") HI Hj) as (s' & Heq & ? & ? & ? & ? & ?).
    { done. } { done. } { by destruct (j_state j). }
    rewrite Heq. cbn [mbind option_bind]. eexists _, s'. by split_and!.
Qed.

Lemma settle_with_error_at_spec s id ok err now :
  Inv ∅ s →
  ∃ r s', settle_with_error_at instant wall s id ok err now = Some (r, s') ∧ Inv ∅ s' ∧
    evolves s s' ∧ js_closing s' = js_closing s ∧
    match js_jobs s !! id with
    | None => r = Err UnknownJob ∧ s' = s
    | Some j =>
        if terminal (j_state j) then r = Err Finished ∧ s' = s
        else r = Ok () ∧ (∀ j', js_jobs s' !! id = Some j' →
               j_state j' = settled_state (j_state j) ok ∧
               j_error j' = if bool_decide (j_state j' = Failed) then err else None) ∧
             (js_closing s = false → ∀ class, conserving s' now class)
    end.
Proof.
  intros HI. unfold settle_with_error_at.
  destruct (js_jobs s !! id) as [j|] eqn:Hj; [|by eexists _, s].
  destruct (terminal (j_state j)) eqn:Ht; [by eexists _, s|].
  set (st := settled_state (j_state j) ok).
  destruct (finish_at_spec instant wall ∅ s id j st
    (if bool_decide (st = Failed) then err else None) now)
    as (s' & Heq & HI' & Hadm & Hout & Hcons & _); [done|done|done| | |].
  { unfold st, settled_state. case_bool_decide; [done|]. by destruct ok. }
  { unfold st, settled_state. case_bool_decide as E; [by rewrite E|].
    destruct ok; by destruct (j_state j). }
  rewrite Heq. cbn [mbind option_bind]. eexists _, s'.
  split_and!; [done| |apply Hadm|apply Hadm|done| |done].
  - apply (Inv_held_equiv _ _ _ HI'). set_solver.
  - intros j' Hj'. destruct (Hout j' Hj') as [-> ->]. done.
Qed.

(** A job that ended with some outcome keeps it, or is retired. *)
Lemma ended_stays s s' id (P : Job → Prop) j' :
  Inv ∅ s → Inv ∅ s' → evolves s s' → js_next s' = js_next s → id < js_next s →
  (∀ j, js_jobs s !! id = Some j → P j) → js_jobs s' !! id = Some j' →
  ∃ j, js_jobs s !! id = Some j ∧ P j ∧ job_evolves j j'.
Proof.
  intros HI HI' Hev Hn Hlt HP Hj'. destruct (js_jobs s !! id) as [j|] eqn:Hj.
  - exists j. split_and!; [done|by apply HP|by eapply ev_job].
  - pose proof (ev_new _ _ Hev id Hj ltac:(by eexists)). lia.
Qed.

Lemma finish_all_spec ids s err :
  Inv ∅ s → js_closing s = true → NoDup ids →
  (∀ id, id ∈ ids → ∃ j, js_jobs s !! id = Some j ∧ live j) →
  ∃ s', finish_all instant wall s ids err = Some s' ∧ Inv ∅ s' ∧ evolves s s' ∧
    js_closing s' = true ∧ js_next s' = js_next s ∧
    ∀ id j', id ∈ ids → js_jobs s' !! id = Some j' →
      j_state j' = Cancelled ∧ j_error j' = Some err.
Proof.
  revert s. induction ids as [|id ids IH]; intros s HI Hc Hnd Hids; simpl.
  { exists s. split_and!; try done. by intros ? ? ?%elem_of_nil. }
  apply NoDup_cons in Hnd as [Hid Hnd]. destruct (Hids id) as (j & Hj & Hl); [left|].
  assert (may_become (j_state j) Cancelled = true) as Hmay.
  { unfold live in Hl. by destruct (j_state j). }
  destruct (finish_closing s id j Cancelled (Some err) HI Hc Hj Hl eq_refl Hmay)
    as (s1 & Heq & Hlive).
  destruct (finish_spec s id j Cancelled (Some err) HI Hj Hl eq_refl Hmay)
    as (s1' & Heq' & HI1 & Hev1 & Hc1 & Hn1 & Hout). rewrite Heq in Heq'. injection Heq' as <-.
  rewrite Heq. cbn [mbind option_bind].
  destruct (IH s1 HI1 ltac:(congruence) Hnd) as (s' & Heq' & HI' & Hev' & Hc' & Hn' & Hall).
  { intros x Hx. destruct (Hids x) as (jx & Hjx & Hlx); [by right|].
    apply (Hlive x jx); [|done|done]. by intros ->. }
  exists s'. split_and!; [done|done|by eapply evolves_trans|done|congruence|].
  intros x j' [->|Hx]%elem_of_cons Hj'; [|by apply (Hall x)].
  destruct (ended_stays s1 s' id (λ j, j_state j = Cancelled ∧ j_error j = Some err) j')
    as (j1 & _ & [Hs1 He1] & Hje); try done.
  { rewrite Hn1. apply (jo_next _ _ _ _ (inv_job _ _ HI id j Hj)). }
  assert (terminal (j_state j1) = true) as Ht by by rewrite Hs1.
  rewrite <-Hs1, <-He1. split; [exact (may_become_terminal _ _ (je_state _ _ Hje) Ht)|by apply Hje].
Qed.

Lemma cancel_all_spec ids s :
  Inv ∅ s → (∀ id, id ∈ ids → id < js_next s) →
  ∃ s', cancel_all instant wall s ids = Some s' ∧ Inv ∅ s' ∧ evolves s s' ∧
    js_closing s' = js_closing s ∧ js_next s' = js_next s ∧
    ∀ id j', id ∈ ids → js_jobs s' !! id = Some j' →
      j_state j' = Cancelling ∨ terminal (j_state j') = true.
Proof.
  revert s. induction ids as [|id ids IH]; intros s HI Hids; simpl.
  { exists s. split_and!; try done. by intros ? ? ?%elem_of_nil. }
  destruct (cancel_spec s id HI) as (r & s1 & Heq & HI1 & Hev1 & Hc1 & Hn1 & Hout).
  rewrite Heq. cbn [mbind option_bind].
  destruct (IH s1 HI1) as (s' & Heq' & HI' & Hev' & Hc' & Hn' & Hall).
  { intros x Hx. rewrite Hn1. apply Hids. by right. }
  exists s'. split_and!; [done|done|by eapply evolves_trans|congruence|congruence|].
  intros x j' [->|Hx]%elem_of_cons Hj'; [|by apply (Hall x)].
  destruct (ended_stays s1 s' id
    (λ j, j_state j = Cancelling ∨ terminal (j_state j) = true) j')
    as (j1 & _ & Hs1 & Hje); try done.
  { rewrite Hn1. apply Hids. left. }
  { intros j1 Hj1. destruct (js_jobs s !! id) as [j|] eqn:Hj.
    - destruct (terminal (j_state j)) eqn:Ht.
      + destruct Hout as [_ ->]. right. congruence.
      + destruct Hout as [_ Hout]. case_bool_decide.
        * rewrite Hout, lookup_insert_eq in Hj1. injection Hj1 as <-. by left.
        * destruct (Hout j1 Hj1) as [-> _]. by right.
    - destruct Hout as [_ ->]. congruence. }
  pose proof (je_state _ _ Hje) as Hm. destruct Hs1 as [E|Ht].
  - rewrite E in Hm. destruct (j_state j'); simpl in *; auto; discriminate.
  - right. by rewrite (may_become_terminal _ _ Hm Ht).
Qed.
End operations.

Lemma elem_of_ids_where s p id :
  id ∈ ids_where s p ↔ ∃ j, js_jobs s !! id = Some j ∧ p (j_state j) = true.
Proof.
  unfold ids_where. rewrite list_elem_of_fmap. split.
  - intros ([x j] & -> & [Hp Hin]%elem_of_filterb). apply elem_of_btree_iter in Hin. by exists j.
  - intros (j & Hj & Hp). exists (id, j). split; [done|]. apply elem_of_filterb.
    split; [done|]. by apply elem_of_btree_iter.
Qed.

Lemma NoDup_ids_where s p : NoDup (ids_where s p).
Proof.
  eapply sublist_NoDup; [apply (NoDup_btree_keys Z.compare (js_jobs s))|].
  apply fmap_sublist, sublist_filter.
Qed.

(** ** The transition system *)

(** One call the daemon makes on its scheduler. *)
Inductive jobs_op :=
| OpSubmit (workspace stack digest : string) (class : JobClass)
| OpLease (id period now : Z)
| OpTouch (id now : Z)
| OpOwn (id : Z) (owner : option ClientOwner) (created : bool)
| OpOrphaned (liveness : history → ClientOwner → Liveness)
| OpTakeStarted
| OpCancel (id : Z)
| OpSettle (id : Z) (ok : bool) (error : option string)
| OpLog (id : Z) (line : string)
| OpClose
| OpShutdown
(** The daemon reads the clock itself, between two calls. *)
| OpInstant.

Section transitions.
Context (instant wall : nat → Z).

Definition jobs_step (s : Jobs) (op : jobs_op) : option Jobs :=
  match op with
  | OpSubmit workspace stack digest class =>
      snd <$> submit_class instant wall s workspace stack digest class
  | OpLease id period now => Some (lease s id period now)
  | OpTouch id now => touch instant wall s id now
  | OpOwn id owner created => Some (own s id owner created)
  | OpOrphaned liveness => Some (jobs_orphaned s liveness).2
  | OpTakeStarted => Some (take_started s).2
  | OpCancel id => snd <$> cancel instant wall s id
  | OpSettle id ok error => snd <$> settle_with_error instant wall s id ok error
  | OpLog id line => Some (log instant s id line).2
  | OpClose => close instant wall s
  | OpShutdown => shutdown instant wall s
  | OpInstant => Some (tick s)
  end.

Inductive reachable (policy : SchedulerPolicy) : Jobs → Prop :=
| reachable_start : reachable policy (with_policy policy)
| reachable_step s op s' :
    reachable policy s → jobs_step s op = Some s' → reachable policy s'.

(** The one submission that panics: it supersedes a waiting job while the key's active job
    waits with a lapsed lease. *)
Definition submit_hazard (s : Jobs) (op : jobs_op) : Prop :=
  match op with
  | OpSubmit workspace stack digest _ =>
      js_closing s = false ∧ joinable s (workspace, stack) digest = None ∧
      ∃ a p j, active s (workspace, stack) = Some a ∧ pending s (workspace, stack) = Some p ∧
        js_jobs s !! a = Some j ∧ j_state j = Queued ∧
        lease_lapsed s a (instant_now instant s) = true
  | _ => False
  end.

Lemma close_spec s :
  Inv ∅ s → ∃ s', close instant wall s = Some s' ∧ Inv ∅ s' ∧ evolves s s' ∧
    js_closing s' = true ∧ ∀ id j, js_jobs s' !! id = Some j → j_state j ≠ Queued.
Proof.
  intros HI. unfold close.
  destruct (finish_all_spec instant wall (ids_where (set_closing s true) is_queued)
    (set_closing s true) "daemon stopping") as (s' & Heq & HI' & Hev & Hc & Hn & Hall).
  { by apply Inv_closing. }
  { done. }
  { apply NoDup_ids_where. }
  { intros id (j & Hj & Hq)%elem_of_ids_where. exists j. split; [done|].
    unfold live. by destruct (j_state j). }
  exists s'. split_and!; [done|done|by destruct Hev; split|done|].
  intros id j' Hj' Hq.
  destruct (ended_stays (set_closing s true) s' id (λ _, True) j') as (j & Hj & _ & Hje);
    try done; [by apply Inv_closing|..].
  { pose proof (jo_next _ _ _ _ (inv_job _ _ HI' id j' Hj')). lia. }
  pose proof (je_state _ _ Hje) as Hm. rewrite Hq in Hm.
  destruct (Hall id j') as [E _]; [|done|congruence]. apply elem_of_ids_where.
  exists j. split; [done|]. by destruct (j_state j).
Qed.

Lemma shutdown_spec s :
  Inv ∅ s → ∃ s', shutdown instant wall s = Some s' ∧ Inv ∅ s' ∧ evolves s s' ∧
    js_closing s' = true ∧
    ∀ id j, js_jobs s' !! id = Some j → j_state j = Cancelling ∨ terminal (j_state j) = true.
Proof.
  intros HI. unfold shutdown. set (p := λ st, negb (terminal st)).
  destruct (cancel_all_spec instant wall (ids_where (set_closing s true) p) (set_closing s true))
    as (s' & Heq & HI' & Hev & Hc & Hn & Hall).
  { by apply Inv_closing. }
  { intros id (j & Hj & _)%elem_of_ids_where. apply (jo_next _ _ _ _ (inv_job _ _ HI id j Hj)). }
  exists s'. split_and!; [done|done|by destruct Hev; split|done|].
  intros id j' Hj'.
  destruct (ended_stays (set_closing s true) s' id (λ _, True) j') as (j & Hj & _ & Hje);
    try done; [by apply Inv_closing|..].
  { pose proof (jo_next _ _ _ _ (inv_job _ _ HI' id j' Hj')). lia. }
  destruct (terminal (j_state j)) eqn:Ht.
  - right. by rewrite (may_become_terminal _ _ (je_state _ _ Hje) Ht).
  - apply (Hall id j'); [|done]. apply elem_of_ids_where. exists j. split; [done|].
    unfold p. by rewrite Ht.
Qed.

Lemma evolves_same_jobs s s' :
  js_policy s' = js_policy s → js_max_logs s' = js_max_logs s → js_next s' = js_next s →
  js_jobs s' = js_jobs s → evolves s s'.
Proof.
  intros ? ? Hn Hj. split; [done|done|lia| |]; rewrite Hj.
  - intros id j j' Hid Hid'. assert (j' = j) as -> by congruence. reflexivity.
  - intros id Hid [j Hid']. congruence.
Qed.

(** Every step keeps the invariant and lets jobs evolve only along the state machine; every
    step but the hazardous submission succeeds. *)
Lemma jobs_step_spec s op :
  Inv ∅ s →
  (∃ s', jobs_step s op = Some s' ∧ Inv ∅ s' ∧ evolves s s') ∨
  (jobs_step s op = None ∧ submit_hazard s op).
Proof.
  intros HI. destruct op as [w st d c|id period now|id now|id owner created|liveness| |id
    |id ok error|id line| | | ]; cbn [jobs_step submit_hazard].
  - destruct (js_closing s) eqn:Hc.
    { left. exists s. unfold submit_class. by rewrite Hc. }
    pose proof (submit_class_spec instant wall s w st d c HI Hc) as Hs. cbn zeta in Hs.
    destruct (joinable s (w, st) d) as [id|] eqn:Hjoin.
    + left. exists s. by rewrite Hs.
    + destruct Hs as [(r & s' & -> & [? ? ? ? ?])|[-> Hhaz]]; [left; by exists s'|by right].
  - left. eexists. split_and!; [done|by apply Inv_lease|]. unfold lease.
    case_match; [done|by apply evolves_same_jobs].
  - left. destruct (touch_spec instant wall s id now HI) as (s' & ? & ? & ? & _). by exists s'.
  - left. eexists. split_and!; [done|by apply Inv_own|]. unfold own.
    case_match; [by apply evolves_same_jobs|done].
  - left. eexists. split_and!; [done|by apply Inv_orphaned|]. unfold jobs_orphaned.
    destruct (orphaned _ _ _) as [[] ?]. by apply evolves_same_jobs.
  - left. eexists. split_and!; [done|by apply Inv_take_started|by apply evolves_same_jobs].
  - left. destruct (cancel_spec instant wall s id HI) as (r & s' & -> & ? & ? & _). by exists s'.
  - left. unfold settle_with_error.
    destruct (settle_with_error_at_spec instant wall (tick s) id ok error (instant_now instant s))
      as (r & s' & -> & ? & ? & _); [by apply Inv_tick|].
    exists s'. split_and!; [done|done|by apply evolves_tick].
  - left. eexists. split_and!; [done|by apply Inv_log|apply admission_log].
  - left. destruct (close_spec s HI) as (s' & ? & ? & ? & _). by exists s'.
  - left. destruct (shutdown_spec s HI) as (s' & ? & ? & ? & _). by exists s'.
  - left. eexists. split_and!; [done|by apply Inv_tick|by apply evolves_same_jobs].
Qed.

Lemma reachable_Inv policy s : reachable policy s → Inv ∅ s.
Proof.
  induction 1 as [|s op s' _ IH Hstep]; [apply Inv_with_policy|].
  destruct (jobs_step_spec s op IH) as [(s1 & E & HI & _)|[E _]]; congruence.
Qed.
End transitions.
