(* ===== verification/JobsTheorems.v ===== *)
(** * What the scheduler guarantees

    The properties of every state the daemon's scheduler can reach, of its operations on
    every branch, and the two behaviours its module policy does not intend. *)

From S2P Require Export JobsSpec.

Local Open Scope string_scope.
Local Open Scope list_scope.
Local Open Scope Z_scope.
Local Open Scope bosn_scope.

Definition policy_cap (policy : SchedulerPolicy) (class : JobClass) : nat :=
  match class with
  | Runner => Nat.max (sp_runner_slots policy) 1
  | Control => Nat.max (sp_control_slots policy) 1
  end.

Lemma reachable_cap instant wall policy s class :
  reachable instant wall policy s → cap s class = policy_cap policy class.
Proof.
  intros Hr. unfold cap. assert (js_policy s = js_policy (with_policy policy)) as ->;
    [|by destruct class].
  induction Hr as [|s op s' Hr IH Hstep]; [done|].
  destruct (jobs_step_spec instant wall s op (reachable_Inv _ _ _ _ Hr)) as [(s1 & E & _ & Hev)|[E _]];
    [|congruence].
  rewrite <-IH. assert (s' = s1) as -> by congruence. apply Hev.
Qed.

(** A small run used by the witnesses: two workspaces on one runner slot. *)
Definition no_clock : nat → Z := λ _, 0.
Definition one_slot : SchedulerPolicy := {| sp_runner_slots := 1; sp_control_slots := 1 |}.
Fixpoint run_ops (instant wall : nat → Z) (s : Jobs) (ops : list jobs_op) : option Jobs :=
  match ops with
  | [] => Some s
  | op :: ops' => s' ← jobs_step instant wall s op; run_ops instant wall s' ops'
  end.

Lemma run_ops_reachable instant wall policy ops s s' :
  reachable instant wall policy s → run_ops instant wall s ops = Some s' →
  reachable instant wall policy s'.
Proof.
  revert s. induction ops as [|op ops IH]; intros s Hr; simpl; [by intros [= <-]|].
  destruct (jobs_step instant wall s op) as [s1|] eqn:E; [|done]. cbn.
  apply IH. by econstructor.
Qed.

Definition demo_ops : list jobs_op :=
  [OpSubmit "a" "s" "d1" Runner; OpSubmit "a" "s" "d2" Runner; OpSubmit "b" "s" "d1" Runner].
Definition demo : Jobs :=
  Eval vm_compute in
  default (with_policy one_slot) (run_ops no_clock no_clock (with_policy one_slot) demo_ops).

Definition demo_job (id : Z) : Job :=
  default (new_job id ("", "") "" Control 0) (js_jobs demo !! id).

Lemma demo_reachable : reachable no_clock no_clock one_slot demo.
Proof.
  apply (run_ops_reachable _ _ _ demo_ops (with_policy one_slot)); [constructor|].
  vm_compute. reflexivity.
Qed.

(** C2. Each lane runs at most its cap: the running and cancelling jobs of a class, counted in the
    job table, never exceed the configured slots, whatever calls the daemon makes. *)
Theorem lanes_never_oversubscribed instant wall policy s class :
  reachable instant wall policy s →
  running_total class (js_jobs s) ≤ Z.of_nat (policy_cap policy class) ∧
  Z.of_nat (running_of s class) = running_total class (js_jobs s).
Proof.
  intros Hr. pose proof (reachable_Inv _ _ _ _ Hr) as HI.
  rewrite <-(inv_running _ _ HI), <-(reachable_cap _ _ _ _ class Hr).
  pose proof (inv_cap _ _ HI class). split; [lia|done].
Qed.

Lemma lanes_never_oversubscribed_witness :
  running_total Runner (js_jobs demo) ≤ Z.of_nat (policy_cap one_slot Runner) ∧
  Z.of_nat (running_of demo Runner) = running_total Runner (js_jobs demo).
Proof. apply (lanes_never_oversubscribed no_clock no_clock), demo_reachable. Defined.

(** C3. Per [(workspace, stack)] key at most one job runs and one waits. *)
Theorem one_running_one_waiting_per_key instant wall policy s key id1 id2 j1 j2 :
  reachable instant wall policy s →
  js_jobs s !! id1 = Some j1 → js_jobs s !! id2 = Some j2 →
  j_key j1 = key → j_key j2 = key → live j1 → live j2 → id1 ≠ id2 →
  (active s key = Some id1 ∧ pending s key = Some id2 ∧ j_state j2 = Queued) ∨
  (active s key = Some id2 ∧ pending s key = Some id1 ∧ j_state j1 = Queued).
Proof.
  intros Hr H1 H2 K1 K2 L1 L2 Hne. pose proof (reachable_Inv _ _ _ _ Hr) as HI.
  pose proof (inv_live _ _ HI _ _ H1 L1) as A1. pose proof (inv_live _ _ HI _ _ H2 L2) as A2.
  rewrite K1 in A1. rewrite K2 in A2.
  destruct A1 as [A1|P1], A2 as [A2|P2]; try congruence.
  - left. destruct (inv_pending _ _ HI _ _ P2) as (_ & _ & j & ? & ? & _).
    split_and!; [done..|congruence].
  - right. destruct (inv_pending _ _ HI _ _ P1) as (_ & _ & j & ? & ? & _).
    split_and!; [done..|congruence].
Qed.

Lemma one_running_one_waiting_per_key_witness :
  (active demo ("a", "s") = Some 1 ∧ pending demo ("a", "s") = Some 2 ∧
     j_state (demo_job 2) = Queued) ∨
  (active demo ("a", "s") = Some 2 ∧ pending demo ("a", "s") = Some 1 ∧
     j_state (demo_job 1) = Queued).
Proof.
  refine (one_running_one_waiting_per_key no_clock no_clock one_slot demo ("a", "s") 1 2
    (demo_job 1) (demo_job 2) demo_reachable eq_refl eq_refl eq_refl eq_refl eq_refl eq_refl _).
  discriminate.
Defined.

(** C4. A running runner job holds a numbered slot below the cap that no other job holds. *)
Theorem runner_slots_exclusive instant wall policy s id1 j1 :
  reachable instant wall policy s →
  js_jobs s !! id1 = Some j1 → occupies Runner j1 = true →
  ∃ i, j_slot j1 = Some i ∧ (i < policy_cap policy Runner)%nat ∧
    js_runner_slots s !! i = Some (Some id1) ∧
    ∀ id2 j2, js_jobs s !! id2 = Some j2 → j_slot j2 = Some i → id2 = id1.
Proof.
  intros Hr H1 O1. pose proof (reachable_Inv _ _ _ _ Hr) as HI.
  destruct (proj2 (jo_slot _ _ _ _ (inv_job _ _ HI _ _ H1)) O1) as [i Hi].
  assert (js_runner_slots s !! i = Some (Some id1)) as Hat by (apply (inv_lane_job _ _ HI); eauto).
  exists i. split_and!; [done| |done|].
  - rewrite <-(reachable_cap _ _ _ _ Runner Hr), <-(inv_lanes _ _ HI). by eapply lookup_lt_Some.
  - intros id2 j2 H2 Hi2.
    assert (js_runner_slots s !! i = Some (Some id2)) by (apply (inv_lane_job _ _ HI); eauto).
    congruence.
Qed.

Lemma runner_slots_exclusive_witness :
  ∃ i, j_slot (demo_job 1) = Some i ∧ js_runner_slots demo !! i = Some (Some 1).
Proof.
  destruct (runner_slots_exclusive no_clock no_clock one_slot demo 1 (demo_job 1)
    demo_reachable eq_refl eq_refl) as (i & Hi & _ & Hat & _).
  exists i. split; [exact Hi|exact Hat].
Defined.

(** C1. No call panics: from every reachable state every operation returns, except a submission
    that supersedes a waiting job whose key's active job has a lapsed lease. *)
Theorem scheduler_never_panics instant wall policy s op :
  reachable instant wall policy s → ¬ submit_hazard instant s op →
  is_Some (jobs_step instant wall s op).
Proof.
  intros Hr Hno.
  destruct (jobs_step_spec instant wall s op (reachable_Inv _ _ _ _ Hr)) as [(s' & -> & _)|[_ Hh]];
    [by eexists|done].
Qed.

Lemma scheduler_never_panics_witness :
  is_Some (jobs_step no_clock no_clock demo (OpSettle 1 true None)).
Proof. apply (scheduler_never_panics _ _ one_slot); [apply demo_reachable|by intros []]. Defined.

(** C9. A job's identity never changes, its state moves only along the state machine (a cancelling
    job can only end cancelled, an ended job keeps its outcome), and a job that appears has a
    fresh ID. *)
Theorem jobs_follow_the_state_machine instant wall policy s op s' :
  reachable instant wall policy s → jobs_step instant wall s op = Some s' →
  (∀ id j j', js_jobs s !! id = Some j → js_jobs s' !! id = Some j' → job_evolves j j') ∧
  (∀ id, js_jobs s !! id = None → is_Some (js_jobs s' !! id) → js_next s ≤ id).
Proof.
  intros Hr Hstep.
  destruct (jobs_step_spec instant wall s op (reachable_Inv _ _ _ _ Hr)) as [(s1 & E & _ & Hev)|[E _]];
    [|congruence].
  assert (s' = s1) as -> by congruence. by destruct Hev.
Qed.

Definition demo_cancelled : Jobs :=
  Eval vm_compute in default demo (jobs_step no_clock no_clock demo (OpCancel 1)).

Lemma jobs_follow_the_state_machine_witness :
  job_evolves (demo_job 1) (with_job_state (demo_job 1) Cancelling).
Proof.
  refine (proj1 (jobs_follow_the_state_machine no_clock no_clock one_slot demo (OpCancel 1)
    demo_cancelled demo_reachable _) 1 _ _ _ _); vm_compute; reflexivity.
Defined.

(** C8. Settling decides the outcome on every branch: unknown and finished jobs are refused
    unchanged, a cancelling job ends cancelled whatever the executor reported, otherwise the
    report decides and only a failure keeps its error; afterwards no admissible job waits for
    a free slot. *)
Theorem settle_outcome instant wall policy s id ok err :
  reachable instant wall policy s →
  ∃ r s', settle_with_error instant wall s id ok err = Some (r, s') ∧
    match js_jobs s !! id with
    | None => r = Err UnknownJob ∧ js_jobs s' = js_jobs s
    | Some j =>
        if terminal (j_state j) then r = Err Finished ∧ js_jobs s' = js_jobs s
        else r = Ok () ∧
          (∀ j', js_jobs s' !! id = Some j' →
             j_state j' = (match j_state j with
                           | Cancelling => Cancelled
                           | _ => if ok then Succeeded else Failed
                           end) ∧
             j_error j' = (if bool_decide (j_state j' = Failed) then err else None)) ∧
          (js_closing s = false → ∀ class, conserving s' (instant_now instant s) class)
    end.
Proof.
  intros Hr. pose proof (Inv_tick _ _ (reachable_Inv _ _ _ _ Hr)) as HI. unfold settle_with_error.
  destruct (settle_with_error_at_spec instant wall (tick s) id ok err (instant_now instant s) HI)
    as (r & s' & Heq & _ & _ & _ & Hout).
  exists r, s'. split; [done|]. change (js_jobs (tick s)) with (js_jobs s) in Hout.
  destruct (js_jobs s !! id) as [j|]; [|by destruct Hout as [-> ->]].
  destruct (terminal (j_state j)) eqn:Ht; [by destruct Hout as [-> ->]|].
  destruct Hout as (-> & Hout & Hcons). split_and!; [done| |done].
  intros j' Hj'. destruct (Hout j' Hj') as [Hst He]. split.
  - rewrite Hst. unfold settled_state. by destruct (j_state j).
  - exact He.
Qed.

Lemma settle_outcome_witness :
  ∃ r s', settle_with_error no_clock no_clock demo 1 true None = Some (r, s') ∧ r = Ok ().
Proof.
  destruct (settle_outcome no_clock no_clock one_slot demo 1 true None demo_reachable)
    as (r & s' & Heq & Hout).
  exists r, s'. split; [exact Heq|]. exact (proj1 Hout).
Defined.

(** C5. Pumping is work conserving: after it, a class with capacity left has only queued jobs
    whose follower went quiet, and it terminates within its fuel from every reachable state. *)
Theorem pump_work_conserving instant wall policy s now :
  reachable instant wall policy s →
  ∃ s', pump_at instant wall s now = Some s' ∧
    (js_closing s = false → ∀ class, (running_of s' class < policy_cap policy class)%nat →
       ∀ id j, js_jobs s' !! id = Some j → j_state j = Queued → j_class j = class →
       active s' (j_key j) = Some id → lease_stale s' id now = true).
Proof.
  intros Hr. pose proof (reachable_Inv _ _ _ _ Hr) as HI.
  destruct (pump_at_spec instant wall ∅ s now HI) as (s' & Heq & [HI' Hadm Hcons _]).
  exists s'. split; [done|]. intros Hopen class Hcap id j Hj Hst Hclass Hact.
  assert (cap s' class = policy_cap policy class) as Hc.
  { rewrite <-(reachable_cap _ _ _ _ class Hr). unfold cap.
    by rewrite (ev_policy _ _ (ad_evolves _ _ Hadm)). }
  destruct (inv_waiting _ _ HI' id j Hj Hst Hact) as [?|Hin]; [set_solver|].
  rewrite <-Hc in Hcap. rewrite Hclass in Hin.
  apply (Hcons Hopen class Hcap _ id Hin). apply job_is_queued. eauto.
Qed.

Lemma pump_work_conserving_witness :
  is_Some (pump_at no_clock no_clock demo 0).
Proof.
  destruct (pump_work_conserving no_clock no_clock one_slot demo 0 demo_reachable) as (s' & Heq & _).
  exists s'. exact Heq.
Defined.

(** C6. Admission takes turns: the job taken is the first queued one of its workspace, and no
    workspace that comes earlier in the turn order after the one served last has a queued job;
    that workspace becomes the one served last. When nothing is taken, no queued job of the
    class was waiting. *)
Theorem next_queued_round_robin s class :
  ∃ next s', next_queued s class = Some (next, s') ∧ js_jobs s' = js_jobs s ∧
    match next with
    | Some id => job_is s id is_queued = true ∧
        ∃ w, js_served s' !! class = Some w ∧
          (∃ skipped rest, queue_at s class w = skipped ++ id :: rest ∧
             queue_at s' class w = rest ∧
             Forall (λ x, job_is s x is_queued = false) skipped) ∧
          ∀ w' id', id' ∈ queue_at s class w' → job_is s id' is_queued = true →
            ¬ turn_before (js_served s !! class) w' w
    | None => ∀ w id, id ∈ queue_at s class w → job_is s id is_queued = false
    end.
Proof.
  destruct (next_queued_spec s class) as (next & s' & Heq & [(q & sv & ->) _ _ Hnext]).
  exists next. eexists. split_and!; [exact Heq|done|]. destruct next as [id|].
  - destruct Hnext as (Hjob & _ & w & Hsv & (pre & Hpre & Hskip) & _ & Hturn).
    split; [done|]. exists w. split_and!; [done| |done]. by exists pre, (queue_at (set_served (set_queues s q) sv) class w).
  - intros w id Hin. destruct (Hnext w) as [_ (pre & Hpre & Hall)].
    rewrite app_nil_r in Hpre. subst pre. by eapply Forall_forall in Hall.
Qed.

(** C7. A submission on every branch: refused while closing; an identical one joins the key's job
    and changes nothing; otherwise a fresh job is recorded under the next ID. Behind an active job
    of its key it waits as the pending one, in place of the job that waited there, which ends
    superseded; else it is the key's active job and is left queued only if its lane is full
    afterwards, and the reply says whether it runs. Excluded is the submission that can panic
    ([submit_hazard]): it supersedes the waiting job of a key whose active job is queued too, with
    a lapsed lease. *)
Theorem submission_outcome instant wall policy s workspace stack digest class :
  reachable instant wall policy s →
  ¬ submit_hazard instant s (OpSubmit workspace stack digest class) →
  ∃ r s', submit_class instant wall s workspace stack digest class = Some (r, s') ∧
    if js_closing s then r = Err Closing ∧ s' = s
    else match joinable s (workspace, stack) digest with
         | Some id => r = Ok (SubJoined id) ∧ s' = s
         | None => ∃ sub, r = Ok sub ∧ accepted s (workspace, stack) digest class sub s'
         end.
Proof.
  intros Hr Hno. pose proof (reachable_Inv _ _ _ _ Hr) as HI.
  destruct (js_closing s) eqn:Hc.
  { exists (Err Closing), s. split; [|done]. unfold submit_class. by rewrite Hc. }
  pose proof (submit_class_spec instant wall s workspace stack digest class HI Hc) as Hs.
  cbn zeta in Hs. destruct (joinable s (workspace, stack) digest) as [id|] eqn:Hj.
  - exists (Ok (SubJoined id)), s. done.
  - destruct Hs as [(r & s' & Heq & Hacc)|[_ Hhaz]].
    + exists (Ok r), s'. split; [done|]. by exists r.
    + destruct Hno. by split.
Qed.

Lemma submission_outcome_witness :
  ∃ r s', submit_class no_clock no_clock demo "c" "s" "d" Control = Some (r, s') ∧
    ∃ sub, r = Ok sub ∧ accepted demo ("c", "s") "d" Control sub s'.
Proof.
  destruct (submission_outcome no_clock no_clock one_slot demo "c" "s" "d" Control demo_reachable)
    as (r & s' & Heq & Hout).
  { intros (_ & _ & a & p & j & Ha & _). vm_compute in Ha. discriminate. }
  exists r, s'. split; [exact Heq|exact Hout].
Defined.

(** C10. Stopping: [close] leaves no queued job and [shutdown] leaves every job ended or being
    cancelled, and neither admits anything. *)
Theorem stopping_drains_the_queue instant wall policy s :
  reachable instant wall policy s →
  (∃ s', close instant wall s = Some s' ∧ js_closing s' = true ∧
     ∀ id j, js_jobs s' !! id = Some j → j_state j ≠ Queued) ∧
  (∃ s', shutdown instant wall s = Some s' ∧ js_closing s' = true ∧
     ∀ id j, js_jobs s' !! id = Some j → j_state j = Cancelling ∨ terminal (j_state j) = true).
Proof.
  intros Hr. pose proof (reachable_Inv _ _ _ _ Hr) as HI. split.
  - destruct (close_spec instant wall s HI) as (s' & ? & _ & _ & ? & ?). by exists s'.
  - destruct (shutdown_spec instant wall s HI) as (s' & ? & _ & _ & ? & ?). by exists s'.
Qed.

Lemma stopping_drains_the_queue_witness :
  ∃ s', close no_clock no_clock demo = Some s' ∧
    ∀ id j, js_jobs s' !! id = Some j → j_state j ≠ Queued.
Proof.
  destruct (stopping_drains_the_queue no_clock no_clock one_slot demo demo_reachable)
    as [(s' & Heq & _ & Hall) _].
  exists s'. split; [exact Heq|exact Hall].
Defined.

(** ** Two behaviours beside the policy *)

(** A clock for the run below: it stands at 0 s for six reads, at 20 s for the two reads of the
    settlement and at 31 s from then on. *)
Definition stepped_clock (n : nat) : Z :=
  if (n <? 6)%nat then 0
  else if (n <? 8)%nat then 20 * nanos_per_sec else 31 * nanos_per_sec.

Definition hazard_ops : list jobs_op :=
  [OpSubmit "x" "s" "a" Runner; OpSubmit "w" "s" "a" Runner;
   OpLease 2 (30 * nanos_per_sec) 0; OpSubmit "w" "s" "b" Runner;
   OpSettle 1 true None].

(** C40. The hazard is real: with one runner slot, job 2 waits with a 30 s lease behind job 1, and
    job 3 waits behind it for the same key. Job 1 ends 20 s later, so job 2 is held back as
    quiet and the slot stays free. A third submission for that key 31 s after the last poll
    supersedes job 3, which makes the pump cancel job 2 and drop the key's slot, and the
    submission then panics on that slot. *)
Theorem superseding_submission_can_panic :
  ∃ s, reachable stepped_clock no_clock one_slot s ∧
    jobs_step stepped_clock no_clock s (OpSubmit "w" "s" "c" Runner) = None.
Proof.
  destruct (run_ops stepped_clock no_clock (with_policy one_slot) hazard_ops) as [s|] eqn:E;
    [|by vm_compute in E].
  exists s. split; [by eapply run_ops_reachable; [constructor|]|].
  assert (run_ops stepped_clock no_clock (with_policy one_slot)
            (hazard_ops ++ [OpSubmit "w" "s" "c" Runner]) = None) as Hnone by (vm_compute; reflexivity).
  assert (∀ ops s0 s1 op, run_ops stepped_clock no_clock s0 ops = Some s1 →
            run_ops stepped_clock no_clock s0 (ops ++ [op]) = jobs_step stepped_clock no_clock s1 op)
    as Hlast.
  { clear. induction ops as [|op0 ops IH]; intros s0 s1 op; simpl.
    - intros [= <-]. by destruct (jobs_step _ _ _ _).
    - destruct (jobs_step _ _ s0 op0); [|done]. cbn. apply IH. }
  rewrite <-(Hlast _ _ _ _ E). exact Hnone.
Qed.

(** Cancelling a cancelling job ends it at once: job 1 runs, job 2 waits for the same key, and
    two cancels of job 1 start job 2 although job 1's executor never settled; its later report
    is refused. *)
Theorem second_cancel_starts_the_next_job_early :
  let ops := [OpSubmit "w" "s" "a" Runner; OpSubmit "w" "s" "b" Runner; OpCancel 1; OpCancel 1] in
  ∃ s, run_ops no_clock no_clock (with_policy one_slot) ops = Some s ∧
    js_started s = [1; 2] ∧
    (j_state <$> js_jobs s !! 1) = Some Cancelled ∧ (j_state <$> js_jobs s !! 2) = Some Running ∧
    (∃ s', settle no_clock no_clock s 1 true = Some (Err Finished, s')).
Proof.
  eexists. split; [vm_compute; reflexivity|]. split_and!; [reflexivity..|].
  eexists. vm_compute. reflexivity.
Qed.
