(* ===== verification/JobsLogs.v ===== *)
(** * Job logs: appending and paging

    [Jobs::log], [Jobs::logs] and [Jobs::log_page] of [bosn-service/src/jobs.rs]: cursors are
    consecutive, a full log drops its oldest record, and a page is a bounded, contiguous piece
    of the retained records that always makes progress. *)

From S2P Require Export JobsTheorems.

Local Open Scope string_scope.
Local Open Scope list_scope.
Local Open Scope Z_scope.
Local Open Scope bosn_scope.

Definition line_bytes (l : list (Z * string)) : Z :=
  sumZ ((λ e : Z * string, Z.of_nat (String.length e.2)) <$> l).

(** The end of the log: the cursor the next record gets. *)
Definition log_end (j : Job) : Z := j_log_start j + Z.of_nat (length (j_logs j)).

Lemma length_tail {A} (l : list A) : length (tail l) = pred (length l).
Proof. by destruct l. Qed.

Lemma filterb_all {A} (f : A → bool) l : Forall (λ x, f x = true) l → filterb f l = l.
Proof. induction 1 as [|x l Hx Hl IH]; [done|]. by rewrite filterb_cons, Hx, IH. Qed.

(** With consecutive cursors, reading from a cursor on is dropping a prefix. *)
Lemma filterb_from_cursor start logs begin :
  logs.*1 = seqZ start (Z.of_nat (length logs)) → start ≤ begin →
  filterb (λ e : Z * string, begin <=? e.1) logs = drop (Z.to_nat (begin - start)) logs.
Proof.
  revert start. induction logs as [|[c line] logs IH]; intros start Hcur Hle.
  { by rewrite drop_nil. }
  rewrite fmap_cons in Hcur. cbn [length] in Hcur. rewrite seqZ_cons in Hcur by lia.
  injection Hcur as Hc Hcur. cbn in Hc. subst c.
  replace (Z.pred (Z.of_nat (S (length logs)))) with (Z.of_nat (length logs)) in Hcur by lia.
  rewrite filterb_cons. cbn [fst]. destruct (begin <=? start) eqn:E; booleans.
  - replace (Z.to_nat (begin - start)) with 0%nat by lia. cbn [drop]. f_equal. apply filterb_all.
    apply Forall_forall. intros [c l] Hin. cbn. apply Z.leb_le.
    assert (c ∈ logs.*1) as Hc by (apply list_elem_of_fmap; by exists (c, l)).
    rewrite Hcur in Hc. apply elem_of_seqZ in Hc. lia.
  - rewrite (IH (Z.succ start) Hcur) by lia.
    replace (Z.to_nat (begin - start)) with (S (Z.to_nat (begin - Z.succ start))) by lia. done.
Qed.

Lemma page_records_spec b l :
  0 ≤ b ≤ MAX_LOG_PAGE_BYTES →
  ∃ n, page_records b l = take n l ∧ (n ≤ length l)%nat ∧
    b + line_bytes (page_records b l) ≤ MAX_LOG_PAGE_BYTES ∧
    match drop n l with
    | [] => True
    | e :: _ => MAX_LOG_PAGE_BYTES <
        b + line_bytes (page_records b l) + Z.of_nat (String.length e.2)
    end.
Proof.
  revert b. induction l as [|[c line] l IH]; intros b Hb; cbn [page_records].
  { exists 0%nat. split_and!; [done|done|cbn; lia|done]. }
  destruct (MAX_LOG_PAGE_BYTES <? b + Z.of_nat (String.length line)) eqn:E; booleans.
  { exists 0%nat. split_and!; [done|lia|cbn; lia|]. cbn. lia. }
  destruct (IH (b + Z.of_nat (String.length line))) as (n & Heq & Hn & Hsum & Hrest); [lia|].
  exists (S n). cbn [take drop length]. rewrite Heq in *. split_and!; [done|lia| |].
  - unfold line_bytes in *. rewrite fmap_cons. cbn [sumZ snd]. lia.
  - destruct (drop n l); [done|]. unfold line_bytes in *. rewrite fmap_cons. cbn [sumZ snd]. lia.
Qed.

Lemma last_take_drop_cursor start (logs : list (Z * string)) k n e :
  logs.*1 = seqZ start (Z.of_nat (length logs)) →
  last (take n (drop k logs)) = Some e →
  e.1 + 1 = start + Z.of_nat k + Z.of_nat (length (take n (drop k logs))).
Proof.
  intros Hcur Hlast. rewrite last_lookup in Hlast.
  set (m := length (take n (drop k logs))) in *.
  destruct m as [|m'] eqn:Hm; cbn in Hlast.
  { destruct (take n (drop k logs)); done. }
  rewrite lookup_take_Some, lookup_drop in Hlast. destruct Hlast as [Hlast _].
  assert (logs.*1 !! (k + m')%nat = Some e.1) as Hc by (by rewrite list_lookup_fmap, Hlast).
  rewrite Hcur, lookup_seqZ in Hc. lia.
Qed.

(** Appending a record: refused when the line is too long or the job unknown; otherwise it
    gets the cursor after the last one, and only a full log loses a record, its oldest. *)
Theorem log_append instant wall policy s id line :
  reachable instant wall policy s →
  let '(r, s') := log instant s id line in
  if MAX_LOG_LINE_BYTES <? Z.of_nat (String.length line) then r = Err LogTooLarge ∧ s' = s
  else match js_jobs s !! id with
       | None => r = Err UnknownJob ∧ s' = s
       | Some j => r = Ok (log_end j) ∧
           ∃ j', js_jobs s' = <[id := j']> (js_jobs s) ∧ log_end j' = log_end j + 1 ∧
             j_logs j' =
               drop (S (length (j_logs j)) - js_max_logs s) (j_logs j ++ [(log_end j, line)]) ∧
             j_state j' = j_state j
       end.
Proof.
  intros Hr. pose proof (reachable_Inv _ _ _ _ Hr) as HI. unfold log.
  destruct (MAX_LOG_LINE_BYTES <? Z.of_nat (String.length line)); [done|].
  destruct (js_jobs s !! id) as [j|] eqn:Hj; [|done].
  pose proof (lo_length _ _ (jo_logs _ _ _ _ (inv_job _ _ HI id j Hj))) as Hlen.
  rewrite length_app. cbn [length]. rewrite Nat.add_1_r. fold (log_end j).
  assert (∀ progress s0, js_jobs s0 = js_jobs s → js_max_logs s0 = js_max_logs s →
    let '(r, s') := (let '(log_start, logs) :=
        if (js_max_logs s0 <? S (length (j_logs j)))%nat
        then (j_log_start j + 1, tail (j_logs j ++ [(log_end j, line)]))
        else (j_log_start j, j_logs j ++ [(log_end j, line)]) in
      (Ok (log_end j) : result JobError Z,
       set_jobs s0 (<[id := with_job_log j log_start progress logs]> (js_jobs s0)))) in
    r = Ok (log_end j) ∧ ∃ j', js_jobs s' = <[id := j']> (js_jobs s) ∧
      log_end j' = log_end j + 1 ∧
      j_logs j' = drop (S (length (j_logs j)) - js_max_logs s) (j_logs j ++ [(log_end j, line)]) ∧
      j_state j' = j_state j) as Hall.
  { intros progress s0 Ej Em. rewrite Ej, Em.
    destruct (js_max_logs s <? S (length (j_logs j)))%nat eqn:E.
    - apply Nat.ltb_lt in E. split; [done|]. eexists. split_and!; [done| | |done]; cbn [j_logs with_job_log].
      + unfold log_end. cbn [j_logs j_log_start with_job_log]. rewrite length_tail, length_app.
        cbn [length]. lia.
      + replace (S (length (j_logs j)) - js_max_logs s)%nat with 1%nat by lia.
        by destruct (j_logs j ++ _).
    - apply Nat.ltb_ge in E. split; [done|]. eexists. split_and!; [done| | |done]; cbn [j_logs with_job_log].
      + unfold log_end. cbn [j_logs j_log_start with_job_log]. rewrite length_app. cbn [length]. lia.
      + by replace (S (length (j_logs j)) - js_max_logs s)%nat with 0%nat by lia. }
  destruct (negb (terminal (j_state j))); by apply Hall.
Qed.

Lemma log_append_witness :
  (log no_clock demo 1 "hello").1 = Ok 0.
Proof.
  pose proof (log_append no_clock no_clock one_slot demo 1 "hello" demo_reachable) as H.
  destruct (log no_clock demo 1 "hello") as [r s'] eqn:E. destruct H as [H _]. exact H.
Defined.

(** A page of a log: the records from the requested cursor (or the oldest retained one) on, in
    order and without holes, at most 256 and 512 KiB of them; [next] is the cursor after them,
    [gap] says whether requested records were dropped, and a page is empty only when nothing
    was asked for or nothing is there. Cursors are assumed below the 64-bit limit. *)
Theorem log_page_contiguous instant wall policy s id j after limit :
  reachable instant wall policy s → js_jobs s !! id = Some j →
  log_end j ≤ u64_max →
  let begin := Z.max after (j_log_start j) in
  ∃ records, log_page s id after limit =
    Ok {| lp_retained_from := j_log_start j;
          lp_next := begin + Z.of_nat (length records);
          lp_gap := after <? j_log_start j;
          lp_records := records |} ∧
    records = take (length records) (drop (Z.to_nat (begin - j_log_start j)) (j_logs j)) ∧
    (length records ≤ Nat.min limit 256)%nat ∧ line_bytes records ≤ MAX_LOG_PAGE_BYTES ∧
    (records = [] → limit = 0%nat ∨ log_end j ≤ begin).
Proof.
  intros Hr Hj Hend begin. pose proof (reachable_Inv _ _ _ _ Hr) as HI.
  destruct (jo_logs _ _ _ _ (inv_job _ _ HI id j Hj)) as [Hstart Hcur _ Hlines].
  unfold log_page. rewrite Hj. cbn [ok_or]. fold begin.
  rewrite (filterb_from_cursor _ _ begin Hcur) by lia.
  set (k := Z.to_nat (begin - j_log_start j)).
  assert (Z.of_nat k = begin - j_log_start j) as Hk by lia.
  set (l := take (Nat.min limit MAX_LOG_PAGE_RECORDS) (drop k (j_logs j))).
  destruct (page_records_spec 0 l) as (n & Heq & Hn & Hsum & Hrest).
  { unfold MAX_LOG_PAGE_BYTES. lia. }
  set (records := page_records 0 l) in *.
  assert (records = take n (drop k (j_logs j))) as Hrec.
  { rewrite Heq. unfold l in *. rewrite take_take. f_equal. rewrite length_take in Hn. lia. }
  assert (length records = n) as Hlen by (rewrite Heq, length_take; lia).
  exists records. split_and!.
  - do 2 f_equal. destruct (last records) as [[c line]|] eqn:Hlast.
    + rewrite Hrec in Hlast. pose proof (last_take_drop_cursor _ _ _ _ _ Hcur Hlast) as Hc.
      rewrite <-Hrec in Hc. cbn in Hc. unfold u64_saturating_add. rewrite Z.min_r; [lia|].
      assert (k + length records ≤ length (j_logs j))%nat; [|unfold log_end in Hend; lia].
      rewrite Hrec, length_take, length_drop.
      destruct (decide (k ≤ length (j_logs j))%nat); [lia|].
      rewrite drop_ge, take_nil in Hlast by lia. done.
    + apply last_None in Hlast. rewrite Hlast. cbn. lia.
  - by rewrite Hlen.
  - unfold l, MAX_LOG_PAGE_RECORDS in Hn. rewrite length_take in Hn. lia.
  - lia.
  - intros Hnil. destruct (drop n l) as [|e rest] eqn:Hdrop.
    + assert (length l = 0)%nat as Hl.
      { apply (f_equal length) in Hdrop. rewrite length_drop in Hdrop. cbn in Hdrop.
        rewrite Hnil in Hlen. cbn in Hlen. lia. }
      unfold l in Hl. rewrite length_take, length_drop in Hl. unfold log_end, k, MAX_LOG_PAGE_RECORDS in *.
      destruct limit; [by left|right; lia].
    + exfalso. rewrite Hnil in Hrest. cbn in Hrest.
      assert (e ∈ j_logs j) as Hin.
      { assert (e ∈ drop n l) as He by (rewrite Hdrop; left).
        eapply sublist_elem_of; [|exact He].
        etrans; [apply sublist_drop|]. etrans; [apply sublist_take|apply sublist_drop]. }
      eapply Forall_forall in Hlines; [|exact Hin]. unfold MAX_LOG_LINE_BYTES, MAX_LOG_PAGE_BYTES in *. lia.
Qed.

Definition logged : Jobs :=
  Eval vm_compute in
  default demo (run_ops no_clock no_clock demo [OpLog 1 "one"; OpLog 1 "two"; OpLog 1 "three"]).

Lemma logged_reachable : reachable no_clock no_clock one_slot logged.
Proof.
  apply (run_ops_reachable _ _ _ [OpLog 1 "one"; OpLog 1 "two"; OpLog 1 "three"] demo);
    [apply demo_reachable|]. vm_compute. reflexivity.
Qed.

Definition logged_job : Job := default (demo_job 1) (js_jobs logged !! 1).

Lemma log_page_contiguous_witness :
  ∃ records, records = take (length records) (drop 1 (j_logs logged_job)) ∧ records ≠ [].
Proof.
  destruct (log_page_contiguous no_clock no_clock one_slot logged 1 logged_job 1 10
    logged_reachable eq_refl) as (records & _ & Hrec & _ & _ & Hne).
  { vm_compute. discriminate. }
  exists records. split; [exact Hrec|]. intros E. destruct (Hne E) as [H|H]; vm_compute in H.
  - discriminate.
  - by apply H.
Defined.
