(* ===== verification/JobsStarted.v ===== *)
(** * JobsStarted: a started job is always reported

    The job actor learns which jobs to launch from [take_started]. This file shows that no job
    begins to run without being listed there: [tracked known s] says that every running or
    cancelling job is in [known] or on the started list, and every scheduler operation keeps
    it. *)

From S2P Require Export JobsTheorems.

Local Open Scope string_scope.
Local Open Scope list_scope.
Local Open Scope Z_scope.
Local Open Scope bosn_scope.

Definition tracked (known : Z → Prop) (s : Jobs) : Prop :=
  ∀ id, job_is s id is_running = true → known id ∨ id ∈ js_started s.

Section tracked.
Context (instant wall : nat → Z) (known : Z → Prop).

(** Nothing new runs and nothing leaves the list. *)
Lemma tracked_quiet s s' :
  (∀ id, job_is s' id is_running = true → job_is s id is_running = true) →
  js_started s' = js_started s → tracked known s → tracked known s'.
Proof. intros Hj Hs Ht id Hid. rewrite Hs. by apply Ht, Hj. Qed.

Lemma tracked_same s s' :
  js_jobs s' = js_jobs s → js_started s' = js_started s → tracked known s → tracked known s'.
Proof. intros Hj. apply tracked_quiet. unfold job_is. by rewrite Hj. Qed.

(** One job replaced by another that runs only if it did. *)
Lemma tracked_replace s s' id j' :
  js_jobs s' = <[id := j']> (js_jobs s) → js_started s' = js_started s →
  (is_running (j_state j') = true → job_is s id is_running = true) →
  tracked known s → tracked known s'.
Proof.
  intros Hj Hs Hr. apply tracked_quiet; [|done]. intros x. unfold job_is at 1. rewrite Hj.
  destruct (decide (x = id)) as [->|Hne].
  - rewrite lookup_insert_eq. exact Hr.
  - by rewrite lookup_insert_ne by done.
Qed.

Lemma tracked_delete s s' id :
  js_jobs s' = delete id (js_jobs s) → js_started s' = js_started s →
  tracked known s → tracked known s'.
Proof.
  intros Hj Hs. apply tracked_quiet; [|done]. intros x. unfold job_is at 1. rewrite Hj.
  destruct (decide (x = id)) as [->|Hne]; [by rewrite lookup_delete_eq|].
  by rewrite lookup_delete_ne by done.
Qed.

Lemma tracked_log s id line : tracked known s → tracked known (log instant s id line).2.
Proof.
  unfold log. destruct (_ <? _); [done|]. destruct (js_jobs s !! id) as [j|] eqn:Hj; [|done].
  destruct (negb (terminal (j_state j))); cbn; case_match;
    (eapply (tracked_replace s _ id); [reflexivity|done|]; cbn; unfold job_is; by rewrite Hj).
Qed.

Lemma tracked_next_queued s class next s' :
  next_queued s class = Some (next, s') → tracked known s → tracked known s'.
Proof.
  destruct (next_queued_spec s class) as (n & s1 & Heq & [(q & sv & ->) _ _ _]).
  rewrite Heq. intros [= _ <-]. by apply tracked_same.
Qed.

Lemma tracked_start_job s class id now s' :
  start_job wall s class id now = Some s' → tracked known s → tracked known s'.
Proof.
  intros Heq Ht. unfold start_job in Heq.
  assert (∃ j', js_jobs s' = <[id := j']> (js_jobs s) ∧
    js_started s' = js_started s ++ [id]) as (j' & Hj & Hs).
  { destruct class; [destruct (free_slot (js_runner_slots s)); [|done]|]; cbn in Heq;
      (destruct (js_jobs s !! id) as [j|]; [|done]); injection Heq as <-;
      eexists; split; reflexivity. }
  intros x Hx. rewrite Hs, elem_of_app, elem_of_cons. destruct (decide (x = id)) as [->|Hne].
  { right. right. by left. }
  unfold job_is in Hx. rewrite Hj, lookup_insert_ne in Hx by done.
  destruct (Ht x Hx) as [?|?]; [by left|]. right. by left.
Qed.

Lemma tracked_admit_loop fuel s class now lapsed deferred r :
  admit_loop wall fuel s class now lapsed deferred = Some r →
  tracked known s → tracked known r.2.
Proof.
  revert s lapsed deferred. induction fuel as [|fuel IH]; intros s lapsed deferred; [done|].
  cbn [admit_loop]. destruct (_ <? _)%nat; [|by intros [= <-]].
  destruct (next_queued s class) as [[next s1]|] eqn:Hn; [|done]. cbn.
  intros Heq Ht. apply (tracked_next_queued _ _ _ _ Hn) in Ht.
  destruct next as [id|]; [|by injection Heq as <-].
  destruct (lease_lapsed s1 id now); [by eapply IH|].
  destruct (lease_stale s1 id now); [by eapply IH|].
  destruct (start_job wall s1 class id now) as [s2|] eqn:Hs; [|done].
  eapply IH; [exact Heq|]. by eapply tracked_start_job.
Qed.

Lemma tracked_restore class ids s s' :
  restore_deferred s class ids = Some s' → tracked known s → tracked known s'.
Proof.
  revert s. induction ids as [|id ids IH]; intros s; cbn; [by intros [= <-]|].
  destruct (js_jobs s !! id) as [j|]; [|done]. cbn. intros Heq Ht.
  eapply IH; [exact Heq|]. by eapply tracked_same.
Qed.

Lemma tracked_admit_class s class now lapsed r :
  admit_class wall s class now lapsed = Some r → tracked known s → tracked known r.2.
Proof.
  unfold admit_class. destruct (admit_loop _ _ _ _ _ _ _) as [[[l d] s1]|] eqn:Hl; [|done]. cbn.
  destruct (restore_deferred s1 class _) as [s2|] eqn:Hr; [|done]. cbn. intros [= <-] Ht.
  eapply tracked_restore; [exact Hr|]. by apply (tracked_admit_loop _ _ _ _ _ _ _ Hl).
Qed.

Lemma tracked_retire_loop fin s r :
  retire_loop wall fin s = Some r → tracked known s → tracked known r.2.
Proof.
  revert s. induction fin as [|oldest rest IH]; intros s; cbn [retire_loop]; [by intros [= <-]|].
  destruct (_ <=? _)%nat; [by intros [= <-]|].
  destruct (js_jobs s !! oldest) as [j|]; [|done]. cbn [mbind option_bind].
  destruct (j_finished_at j); cbn; [destruct (negb _)|]; (intros [= <-] || intros Heq); intros Ht;
    try done; (eapply IH; [exact Heq|]); by eapply tracked_delete.
Qed.

Lemma tracked_finish_job s id st err s' :
  terminal st = true → finish_job wall s id st err = Some s' →
  tracked known s → tracked known s'.
Proof.
  intros Hst. unfold finish_job. destruct (js_jobs s !! id) as [j|] eqn:Hj; [|done].
  cbn [mbind option_bind]. set (s1 := tick _). intros Heq Ht.
  assert (tracked known s1) as Ht1.
  { eapply (tracked_replace s s1 id); [reflexivity|done| |done]. cbn. by destruct st. }
  revert Heq. clearbody s1. 
  destruct (match j_slot j with Some _ => _ | None => _ end) as [s2|] eqn:H2; [|done].
  assert (tracked known s2) as Ht2.
  { destruct (j_slot j); [destruct (_ <? _)%nat; [|done]|]; injection H2 as <-;
      [by eapply tracked_same|done]. }
  cbn [mbind option_bind]. set (s3 := set_owners _ _).
  assert (tracked known s3) as Ht3 by by eapply tracked_same. clearbody s3.
  destruct (if match j_state j with Running | Cancelling => true | _ => false end then _ else _)
    as [s4|] eqn:H4; [|done].
  assert (tracked known s4) as Ht4.
  { destruct (match j_state j with Running | Cancelling => true | _ => false end);
      [|by injection H4 as <-].
    destruct (js_running s3 !! j_class j) as [[|n]|]; try done. injection H4 as <-.
    by eapply tracked_same. }
  cbn [mbind option_bind]. destruct (js_slots s4 !! j_key j) as [sl|]; [|done].
  cbn [mbind option_bind]. destruct (vacate sl id) as [sl' promoted].
  set (s5 := set_slots _ _). assert (tracked known s5) as Ht5 by by eapply tracked_same.
  clearbody s5. destruct (match promoted with Some _ => _ | None => _ end) as [s6|] eqn:H6; [|done].
  assert (tracked known s6) as Ht6.
  { destruct promoted as [next|]; [|by injection H6 as <-]. unfold enqueue in H6.
    destruct (js_jobs s5 !! next); [|done]. injection H6 as <-. by eapply tracked_same. }
  cbn [mbind option_bind]. unfold retire_finished.
  destruct (retire_loop _ _ _) as [[fin s7]|] eqn:H7; [|done]. cbn. intros [= <-].
  apply tracked_retire_loop in H7; [by eapply tracked_same|by eapply tracked_same].
Qed.

Lemma tracked_pump_fueled fuel s now s' :
  pump_fueled instant wall fuel s now = Some s' → tracked known s → tracked known s'.
Proof.
  revert s s'. induction fuel as [|fuel IH]; intros s s'; [done|]. cbn [pump_fueled].
  destruct (js_closing s); [by intros [= <-]|].
  destruct (admit_class wall s Control now []) as [[l1 s1]|] eqn:H1; [|done]. cbn [mbind option_bind].
  destruct (admit_class wall s1 Runner now l1) as [[l2 s2]|] eqn:H2; [|done]. cbn [mbind option_bind].
  intros Heq Ht. apply (tracked_admit_class _ _ _ _ _ H1) in Ht. cbn in Ht.
  apply (tracked_admit_class _ _ _ _ _ H2) in Ht. cbn in Ht. clear H1 H2 s s1 l1.
  revert s2 Heq Ht. induction l2 as [|id l IHl]; intros s; cbn [finish_lapsed]; [by intros [= <-]|].
  destruct (finish_job wall _ id Cancelled _) as [s3|] eqn:H3; [|done]. cbn [mbind option_bind].
  destruct (pump_fueled instant wall fuel s3 now) as [s4|] eqn:H4; [|done]. cbn [mbind option_bind].
  intros Heq Ht. eapply IHl; [exact Heq|]. eapply IH; [exact H4|].
  eapply tracked_finish_job; [|exact H3|]; [done|]. by apply tracked_log.
Qed.

Lemma tracked_finish s id st err s' :
  terminal st = true → finish instant wall s id st err = Some s' →
  tracked known s → tracked known s'.
Proof.
  intros Hst. unfold finish, finish_at. destruct (finish_job _ _ _ _ _) as [s1|] eqn:H1; [|done].
  cbn [mbind option_bind]. intros Heq Ht. eapply tracked_pump_fueled; [exact Heq|].
  eapply tracked_finish_job; [exact Hst|exact H1|]. by eapply tracked_same.
Qed.

Lemma tracked_touch s id now s' :
  touch instant wall s id now = Some s' → tracked known s → tracked known s'.
Proof.
  unfold touch. destruct (js_leases s !! id) as [l|]; [|by intros [= <-]].
  destruct (job_is _ _ _); [|intros [= <-]; by eapply tracked_same].
  intros Heq Ht. eapply tracked_pump_fueled; [exact Heq|]. by eapply tracked_same.
Qed.

Lemma tracked_cancel s id r s' :
  cancel instant wall s id = Some (r, s') → tracked known s → tracked known s'.
Proof.
  unfold cancel. destruct (js_jobs s !! id) as [j|] eqn:Hj; [|by intros [= _ <-]].
  destruct (terminal (j_state j)); [by intros [= _ <-]|]. case_bool_decide as Hr.
  - intros [= _ <-]. eapply tracked_replace; [reflexivity|done|]. intros _.
    unfold job_is. rewrite Hj. cbn. by rewrite Hr.
  - destruct (finish _ _ _ _ _ _) as [s1|] eqn:H1; [|done]. cbn [mbind option_bind]. intros [= _ <-].
    exact (tracked_finish _ _ Cancelled _ _ eq_refl H1).
Qed.

Lemma tracked_settle s id ok err r s' :
  settle_with_error instant wall s id ok err = Some (r, s') → tracked known s → tracked known s'.
Proof.
  unfold settle_with_error, settle_with_error_at.
  destruct (js_jobs (tick s) !! id) as [j|] eqn:Hj; [|intros [= _ <-]; by eapply tracked_same].
  destruct (terminal (j_state j)); [intros [= _ <-]; by eapply tracked_same|].
  set (st := settled_state (j_state j) ok).
  assert (terminal st = true) as Hst
    by (unfold st, settled_state; case_bool_decide; [done|by destruct ok]).
  intros Heq Ht. change (finish_at instant wall (tick s) id st ?e (instant_now instant s))
    with (finish instant wall s id st e) in Heq.
  destruct (finish _ _ _ _ _ _) as [s1|] eqn:H1; [|done]. injection Heq as _ <-.
  exact (tracked_finish _ _ _ _ _ Hst H1 Ht).
Qed.

Lemma tracked_finish_all ids s err s' :
  finish_all instant wall s ids err = Some s' → tracked known s → tracked known s'.
Proof.
  revert s. induction ids as [|id ids IH]; intros s; cbn [finish_all]; [by intros [= <-]|].
  destruct (finish _ _ _ _ _ _) as [s1|] eqn:H1; [|done]. cbn [mbind option_bind]. intros Heq Ht.
  eapply IH; [exact Heq|]. exact (tracked_finish _ _ Cancelled _ _ eq_refl H1 Ht).
Qed.

Lemma tracked_submit s w st d c r s' :
  submit_class instant wall s w st d c = Some (r, s') → tracked known s → tracked known s'.
Proof.
  assert (∀ s active, admit_new instant wall s (w, st) d c active = Some (r, s') →
            tracked known s → tracked known s') as Hnew.
  { clear s. intros s act. unfold admit_new. set (s1 := set_jobs _ _). intros Heq Ht.
    assert (tracked known s1) as Ht1.
    { eapply (tracked_replace s s1); [reflexivity|done| |done]. done. }
    revert Heq. destruct (js_slots s1 !! (w, st)) as [sl|]; [|done]. cbn [mbind option_bind].
    destruct act; [intros [= _ <-]; by eapply tracked_same|].
    set (s2 := set_slots _ _). assert (tracked known s2) as Ht2 by by eapply tracked_same.
    clearbody s2. unfold enqueue. destruct (js_jobs s2 !! _) as [j|]; [|done].
    cbn [mbind option_bind]. destruct (pump _ _ _) as [s3|] eqn:H3; [|done].
    cbn [mbind option_bind]. destruct (js_jobs s3 !! _) as [j3|]; [|done]. cbn [mbind option_bind].
    intros [= _ <-]. eapply tracked_pump_fueled; [exact H3|]. by eapply tracked_same. }
  assert (∀ s active pending,
            submit_over_pending instant wall s (w, st) d c active pending = Some (r, s') →
            tracked known s → tracked known s') as Hover.
  { clear s. intros s act [p|]; [|by apply Hnew]. unfold submit_over_pending.
    destruct (js_jobs s !! p) as [j|]; [|done]. cbn [mbind option_bind].
    destruct (String.eqb _ _); [by intros [= _ <-]|].
    destruct (finish _ _ _ _ _ _) as [s1|] eqn:H1; [|done]. cbn [mbind option_bind].
    intros Heq Ht. eapply Hnew; [exact Heq|]. exact (tracked_finish _ _ Superseded _ _ eq_refl H1 Ht). }
  unfold submit_class. destruct (js_closing s); [by intros [= _ <-]|].
  set (s1 := set_slots _ _). intros Heq Ht. assert (tracked known s1) as Ht1 by by eapply tracked_same.
  revert Heq. destruct (sl_active _); [|by intros Heq; eapply Hover].
  destruct (js_jobs s1 !! _) as [j|]; [|done]. cbn [mbind option_bind].
  destruct (_ && _); [by intros [= _ <-]|by intros Heq; eapply Hover].
Qed.
End tracked.

(** Taking the list makes its jobs the caller's. *)
Lemma tracked_take known s :
  tracked known s → tracked (λ id, known id ∨ id ∈ (take_started s).1) (take_started s).2.
Proof. intros Ht id Hid. left. exact (Ht id Hid). Qed.

(** ** Nothing starts while closing *)

(** [s'] has the started list and the closing flag of [s]. *)
Definition quiet (s s' : Jobs) : Prop :=
  js_started s' = js_started s ∧ js_closing s' = js_closing s.

#[global] Instance quiet_refl : Reflexive quiet.
Proof. by intros s. Qed.
#[global] Instance quiet_trans : Transitive quiet.
Proof. intros s1 s2 s3 [] []. split; congruence. Qed.

Section closing.
Context (instant wall : nat → Z).

Lemma retire_loop_quiet fin s r : retire_loop wall fin s = Some r → quiet s r.2.
Proof.
  revert s. induction fin as [|oldest rest IH]; intros s; cbn [retire_loop]; [by intros [= <-]|].
  destruct (_ <=? _)%nat; [by intros [= <-]|].
  destruct (js_jobs s !! oldest) as [j|]; [|done]. cbn [mbind option_bind].
  destruct (j_finished_at j); cbn; [destruct (negb _)|]; (intros [= <-] || intros Heq);
    try done; (etrans; [|exact (IH _ Heq)]); done.
Qed.

Lemma finish_job_quiet s id st err s' : finish_job wall s id st err = Some s' → quiet s s'.
Proof.
  unfold finish_job. destruct (js_jobs s !! id) as [j|] eqn:Hj; [|done].
  cbn [mbind option_bind]. set (s1 := tick _). assert (quiet s s1) as Q1 by done. clearbody s1.
  destruct (match j_slot j with Some _ => _ | None => _ end) as [s2|] eqn:H2; [|done].
  assert (quiet s1 s2) as Q2.
  { destruct (j_slot j); [destruct (_ <? _)%nat; [|done]|]; by injection H2 as <-. }
  cbn [mbind option_bind]. set (s3 := set_owners _ _). assert (quiet s2 s3) as Q3 by done.
  clearbody s3.
  destruct (if match j_state j with Running | Cancelling => true | _ => false end then _ else _)
    as [s4|] eqn:H4; [|done].
  assert (quiet s3 s4) as Q4.
  { destruct (match j_state j with Running | Cancelling => true | _ => false end);
      [|by injection H4 as <-].
    destruct (js_running s3 !! j_class j) as [[|n]|]; try done. by injection H4 as <-. }
  cbn [mbind option_bind]. destruct (js_slots s4 !! j_key j) as [sl|]; [|done].
  cbn [mbind option_bind]. destruct (vacate sl id) as [sl' promoted].
  set (s5 := set_slots _ _). assert (quiet s4 s5) as Q5 by done. clearbody s5.
  destruct (match promoted with Some _ => _ | None => _ end) as [s6|] eqn:H6; [|done].
  assert (quiet s5 s6) as Q6.
  { destruct promoted as [next|]; [|by injection H6 as <-]. unfold enqueue in H6.
    destruct (js_jobs s5 !! next); [|done]. by injection H6 as <-. }
  cbn [mbind option_bind]. unfold retire_finished.
  destruct (retire_loop _ _ _) as [[fin s7]|] eqn:H7; [|done]. cbn. intros [= <-].
  apply retire_loop_quiet in H7. rewrite Q1, Q2, Q3, Q4, Q5, Q6. exact H7.
Qed.

Lemma pump_closing fuel s now s' :
  js_closing s = true → pump_fueled instant wall fuel s now = Some s' → s' = s.
Proof. intros Hc. destruct fuel; [done|]. cbn [pump_fueled]. rewrite Hc. by intros [= ->]. Qed.

Lemma finish_quiet s id st err s' :
  js_closing s = true → finish instant wall s id st err = Some s' → quiet s s'.
Proof.
  intros Hc. unfold finish, finish_at. destruct (finish_job _ _ _ _ _) as [s1|] eqn:H1; [|done].
  cbn [mbind option_bind]. apply finish_job_quiet in H1. intros Heq.
  assert (js_closing s1 = true) as Hc1 by (destruct H1 as [_ ->]; done).
  rewrite (pump_closing _ _ _ _ Hc1 Heq). exact H1.
Qed.

Lemma finish_all_quiet ids s err s' :
  js_closing s = true → finish_all instant wall s ids err = Some s' → quiet s s'.
Proof.
  revert s. induction ids as [|id ids IH]; intros s Hc; cbn [finish_all]; [by intros [= <-]|].
  destruct (finish _ _ _ _ _ _) as [s1|] eqn:H1; [|done]. cbn [mbind option_bind].
  apply finish_quiet in H1; [|done]. intros Heq. rewrite H1. apply IH; [|done].
  by destruct H1 as [_ ->].
Qed.

Lemma log_quiet s id line : quiet s (log instant s id line).2.
Proof.
  unfold log. destruct (_ <? _); [done|]. destruct (js_jobs s !! id) as [j|]; [|done].
  destruct (negb _); cbn; by case_match.
Qed.

Lemma closing_step s op s' :
  js_closing s = true → op ≠ OpTakeStarted → op ≠ OpShutdown →
  jobs_step instant wall s op = Some s' → quiet s s'.
Proof.
  intros Hc Ht Hsd.
  destruct op as [w st d c|id period now|id now|id owner created|liveness| |id|id ok err|id line| | | ];
    cbn [jobs_step]; try done.
  - unfold submit_class. rewrite Hc. by intros [= <-].
  - intros [= <-]. unfold lease. by case_match.
  - unfold touch. destruct (js_leases s !! id); [|by intros [= <-]].
    destruct (job_is _ _ _); [|by intros [= <-]]. intros Heq.
    apply pump_closing in Heq; [|done]. by subst s'.
  - intros [= <-]. unfold own. by case_match.
  - intros [= <-]. unfold jobs_orphaned. by destruct (orphaned _ _ _) as [[] ?].
  - unfold cancel. destruct (js_jobs s !! id) as [j|]; [|by intros [= <-]].
    destruct (terminal _); [by intros [= <-]|]. case_bool_decide; [by intros [= <-]|].
    destruct (finish _ _ _ _ _ _) as [s1|] eqn:E; [|done]. intros [= <-]. by eapply finish_quiet.
  - unfold settle_with_error, settle_with_error_at.
    destruct (js_jobs (tick s) !! id) as [j|]; [|by intros [= <-]].
    destruct (terminal _); [by intros [= <-]|].
    destruct (finish_at _ _ _ _ _ _ _) as [s1|] eqn:E; [|done]. intros [= <-].
    by eapply (finish_quiet s).
  - intros [= <-]. apply log_quiet.
  - intros Heq. apply finish_all_quiet in Heq as [H1 H2]; [|done].
    split; [exact H1|]. rewrite H2. by rewrite Hc.
  - by intros [= <-].
Qed.
End closing.
