(* ===== verification/JobRequests.v ===== *)
(** * JobRequests: what the daemon's jobs carry

    The typed requests of [bosn-service/src/executors.rs], the command vocabulary around them
    ([job_api.rs]) and the helpers of the job actor ([job_support.rs]): the digest material that
    decides whether two submissions are the same work, the bound on a log line, and the audit
    events of a setup ensure. [blake3] (its hex digest) is a parameter. Paths are the UTF-8
    strings [to_string_lossy] gives; a [Duration] is in nanoseconds. *)

From Stdlib Require Import Ascii.
From stdpp Require Import pretty.
From S2P Require Export JobsTheorems.

Local Open Scope string_scope.
Local Open Scope list_scope.
Local Open Scope Z_scope.
Local Open Scope bosn_scope.

(** ** Requests *)

Inductive SetupPreparePolicy := Refresh | Offline.
#[global] Instance SetupPreparePolicy_eq_dec : EqDecision SetupPreparePolicy.
Proof. solve_decision. Defined.

Definition policy_wire (p : SetupPreparePolicy) : Z :=
  match p with Refresh => 1 | Offline => 2 end.
Definition policy_from_wire (value : Z) : option SetupPreparePolicy :=
  if value =? 1 then Some Refresh else if value =? 2 then Some Offline else None.

Record SetupPrepareRequest := {
  pr_workspace : string;
  pr_config : string;
  pr_policy : SetupPreparePolicy;
  pr_deadline : Z;
  pr_output_limit : Z;
}.
Record SetupTaskJobRequest := {
  st_workspace : string;
  st_config : string;
  st_policy : SetupPreparePolicy;
  st_task_name : string;
  st_deadline : Z;
  st_output_limit : Z;
}.
Record SetupAppTaskJobRequest := {
  sa_workspace : string;
  sa_config : string;
  sa_policy : SetupPreparePolicy;
  sa_task_name : string;
  sa_deadline : Z;
  sa_output_limit : Z;
}.
Record SetupEnsureJobRequest := {
  se_workspace : string;
  se_config : string;
  se_policy : SetupPreparePolicy;
  se_deadline : Z;
  se_output_limit : Z;
}.
Record ManifestEnsureJobRequest := {
  me_workspace : string;
  me_manifest : string;
  me_stack : string;
  me_deadline : Z;
  me_output_limit : Z;
}.
Record ManifestConvergeJobRequest := {
  mc_workspace : string;
  mc_manifest : string;
  mc_deadline : Z;
  mc_output_limit : Z;
}.
Record ManifestAppTaskJobRequest := {
  ma_workspace : string;
  ma_manifest : string;
  ma_stack : string;
  ma_task_name : string;
  ma_deadline : Z;
  ma_output_limit : Z;
}.

Inductive SetupJobRequest :=
| ReqPrepare (request : SetupPrepareRequest)
| ReqTask (request : SetupTaskJobRequest)
| ReqAppTask (request : SetupAppTaskJobRequest)
| ReqEnsure (request : SetupEnsureJobRequest)
| ReqManifestEnsure (request : ManifestEnsureJobRequest)
| ReqManifestConverge (request : ManifestConvergeJobRequest)
| ReqManifestAppTask (request : ManifestAppTaskJobRequest).

Inductive SetupJobKind :=
| KindPrepare | KindTask | KindAppTask | KindEnsure
| KindManifestEnsure | KindManifestConverge | KindManifestAppTask.
#[global] Instance SetupJobKind_eq_dec : EqDecision SetupJobKind.
Proof. solve_decision. Defined.

Definition request_kind (r : SetupJobRequest) : SetupJobKind :=
  match r with
  | ReqPrepare _ => KindPrepare
  | ReqTask _ => KindTask
  | ReqAppTask _ => KindAppTask
  | ReqEnsure _ => KindEnsure
  | ReqManifestEnsure _ => KindManifestEnsure
  | ReqManifestConverge _ => KindManifestConverge
  | ReqManifestAppTask _ => KindManifestAppTask
  end.

(** How a failure of each kind is named in the job's log. *)
Definition operation_name (kind : SetupJobKind) : string :=
  match kind with
  | KindPrepare => "setup prepare"
  | KindTask => "setup task"
  | KindAppTask => "setup app task"
  | KindEnsure => "setup ensure"
  | KindManifestEnsure => "manifest ensure"
  | KindManifestConverge => "manifest converge"
  | KindManifestAppTask => "manifest app task"
  end.

(** ** Audit events *)

Inductive SetupEnsureEventOutcome :=
| OutcomeSucceeded | OutcomeFailed | OutcomeCancelled | OutcomeSuperseded.
#[global] Instance SetupEnsureEventOutcome_eq_dec : EqDecision SetupEnsureEventOutcome.
Proof. solve_decision. Defined.

Record SetupEnsureEvent := { ev_kind : string; ev_detail : string }.
#[global] Instance SetupEnsureEvent_eq_dec : EqDecision SetupEnsureEvent.
Proof. solve_decision. Defined.

Definition config_locator_kind (config : string) : string :=
  if starts_with "https://" config then "https"
  else if starts_with "http://" config then "http"
  else if starts_with "file://" config then "file"
  else "path".

Definition event_submitted (id : Z) (request : SetupEnsureJobRequest) : SetupEnsureEvent :=
  let policy := match se_policy request with Refresh => "refresh" | Offline => "offline" end in
  let source := config_locator_kind (se_config request) in
  {| ev_kind := "setup.ensure.submitted";
     ev_detail := "job_id=" +:+ pretty id +:+ " policy=" +:+ policy +:+ " source=" +:+ source |}.

Definition outcome_name (outcome : SetupEnsureEventOutcome) : string :=
  match outcome with
  | OutcomeSucceeded => "succeeded"
  | OutcomeFailed => "failed"
  | OutcomeCancelled => "cancelled"
  | OutcomeSuperseded => "superseded"
  end.
Definition event_terminal (id : Z) (outcome : SetupEnsureEventOutcome) : SetupEnsureEvent :=
  {| ev_kind := "setup.ensure." +:+ outcome_name outcome;
     ev_detail := "job_id=" +:+ pretty id +:+ " outcome=" +:+ outcome_name outcome |}.

(** ** Digests *)

(** [to_le_bytes] of a [w]-byte integer. *)
Fixpoint le_string (w : nat) (n : Z) : string :=
  match w with
  | O => ""
  | S w' => String (ascii_of_N (Z.to_N (n mod 256))) (le_string w' (n / 256))
  end.

(** Each part preceded by its length as a [u64]. *)
Fixpoint material (parts : list string) : string :=
  match parts with
  | [] => ""
  | part :: parts' => le_string 8 (Z.of_nat (String.length part)) +:+ part +:+ material parts'
  end.

Definition as_millis (deadline : Z) : Z := deadline / 1000000.
Definition policy_bytes (p : SetupPreparePolicy) : string := le_string 4 (policy_wire p).
Definition deadline_bytes (deadline : Z) : string := le_string 16 (as_millis deadline).
Definition limit_bytes (output_limit : Z) : string := le_string 8 output_limit.

Definition setup_prepare_parts (r : SetupPrepareRequest) : list string :=
  ["bosn.setup-prepare.v1"; pr_workspace r; pr_config r; policy_bytes (pr_policy r);
   deadline_bytes (pr_deadline r); limit_bytes (pr_output_limit r)].
Definition setup_task_parts (r : SetupTaskJobRequest) : list string :=
  ["bosn.setup-task.v1"; st_workspace r; st_config r; policy_bytes (st_policy r);
   st_task_name r; deadline_bytes (st_deadline r); limit_bytes (st_output_limit r)].
Definition setup_app_task_parts (r : SetupAppTaskJobRequest) : list string :=
  ["bosn.setup-app-task.v1"; sa_workspace r; sa_config r; policy_bytes (sa_policy r);
   sa_task_name r; deadline_bytes (sa_deadline r); limit_bytes (sa_output_limit r)].
Definition setup_ensure_parts (r : SetupEnsureJobRequest) : list string :=
  ["bosn.setup-ensure.v1"; se_workspace r; se_config r; policy_bytes (se_policy r);
   deadline_bytes (se_deadline r); limit_bytes (se_output_limit r)].
Definition manifest_ensure_parts (r : ManifestEnsureJobRequest) : list string :=
  ["bosn.manifest-ensure.v1"; me_workspace r; me_manifest r; me_stack r;
   deadline_bytes (me_deadline r); limit_bytes (me_output_limit r)].
Definition manifest_converge_parts (r : ManifestConvergeJobRequest) : list string :=
  ["bosn.manifest-converge.v1"; mc_workspace r; mc_manifest r;
   deadline_bytes (mc_deadline r); limit_bytes (mc_output_limit r)].
Definition manifest_app_task_parts (r : ManifestAppTaskJobRequest) : list string :=
  ["bosn.manifest-app-task.v1"; ma_workspace r; ma_manifest r; ma_stack r; ma_task_name r;
   deadline_bytes (ma_deadline r); limit_bytes (ma_output_limit r)].

Section digests.
(** [blake3_bytes(..).to_hex()]. *)
Context (blake3_hex : string → string).

Definition setup_prepare_digest (r : SetupPrepareRequest) : string :=
  "setup:" +:+ blake3_hex (material (setup_prepare_parts r)).
Definition setup_task_digest (r : SetupTaskJobRequest) : string :=
  "setup:" +:+ blake3_hex (material (setup_task_parts r)).
Definition setup_app_task_digest (r : SetupAppTaskJobRequest) : string :=
  "setup:" +:+ blake3_hex (material (setup_app_task_parts r)).
Definition setup_ensure_digest (r : SetupEnsureJobRequest) : string :=
  "setup:" +:+ blake3_hex (material (setup_ensure_parts r)).
Definition manifest_ensure_digest (r : ManifestEnsureJobRequest) : string :=
  "manifest:" +:+ blake3_hex (material (manifest_ensure_parts r)).
Definition manifest_converge_digest (r : ManifestConvergeJobRequest) : string :=
  "manifest-converge:" +:+ blake3_hex (material (manifest_converge_parts r)).
Definition manifest_app_task_digest (r : ManifestAppTaskJobRequest) : string :=
  "manifest:" +:+ blake3_hex (material (manifest_app_task_parts r)).

Definition request_digest (r : SetupJobRequest) : string :=
  match r with
  | ReqPrepare r => setup_prepare_digest r
  | ReqTask r => setup_task_digest r
  | ReqAppTask r => setup_app_task_digest r
  | ReqEnsure r => setup_ensure_digest r
  | ReqManifestEnsure r => manifest_ensure_digest r
  | ReqManifestConverge r => manifest_converge_digest r
  | ReqManifestAppTask r => manifest_app_task_digest r
  end.
End digests.

(** ** Bounded log lines *)

(** [str::is_char_boundary]: the ends of the string, or a byte that continues no character. *)
Definition continuation (a : ascii) : bool := in_range 128 191 a.
Definition is_char_boundary (s : string) (i : nat) : bool :=
  (i =? 0)%nat || (i =? String.length s)%nat ||
  match String.get i s with Some a => negb (continuation a) | None => false end.

(** [while end > 0 && !value.is_char_boundary(end) { end -= 1 }]. *)
Fixpoint cut_at (s : string) (i : nat) : nat :=
  match i with
  | O => O
  | S i' => if is_char_boundary s i then i else cut_at s i'
  end.

Definition bounded_log_line (value : string) : string :=
  if Z.of_nat (String.length value) <=? MAX_LOG_LINE_BYTES then value
  else String.substring 0 (cut_at value (Z.to_nat (MAX_LOG_LINE_BYTES - 3))) value +:+ "...".

(** ** What a digest identifies *)

Lemma append_inj_length (a b x y : string) :
  String.length a = String.length b → a +:+ x = b +:+ y → a = b ∧ x = y.
Proof.
  revert b. induction a as [|c a IH]; intros [|d b]; simpl; try done.
  intros [= Hl] [= -> Hs]. destruct (IH b Hl Hs) as [-> ->]. done.
Qed.

Lemma append_inj_l (a x y : string) : a +:+ x = a +:+ y → x = y.
Proof. induction a as [|c a IH]; simpl; [done|]. intros [= H]. by apply IH. Qed.

Lemma length_le_string w n : String.length (le_string w n) = w.
Proof. revert n. induction w as [|w IH]; intros n; simpl; [done|]. by rewrite IH. Qed.

Lemma le_string_inj w a b :
  0 ≤ a < 256 ^ Z.of_nat w → 0 ≤ b < 256 ^ Z.of_nat w → le_string w a = le_string w b → a = b.
Proof.
  revert a b. induction w as [|w IH]; intros a b Ha Hb.
  { simpl in *. lia. }
  rewrite Nat2Z.inj_succ, Z.pow_succ_r in Ha, Hb by lia. cbn [le_string]. intros [= Hc Hs].
  apply (IH (a / 256) (b / 256)) in Hs;
    [|split; [by apply Z.div_pos; lia|by apply Z.div_lt_upper_bound; lia]..].
  pose proof (Z.mod_pos_bound a 256 ltac:(lia)). pose proof (Z.mod_pos_bound b 256 ltac:(lia)).
  assert (a mod 256 = b mod 256) as Hm.
  { apply (f_equal N_of_ascii) in Hc.
    rewrite !N_ascii_embedding in Hc by lia. lia. }
  rewrite (Z.div_mod a 256), (Z.div_mod b 256) by lia. by rewrite Hs, Hm.
Qed.

Definition part_ok (part : string) : Prop := Z.of_nat (String.length part) < 2 ^ 64.

Lemma material_inj ps qs :
  Forall part_ok ps → Forall part_ok qs → material ps = material qs → ps = qs.
Proof.
  assert (∀ p l, material (p :: l) ≠ "") as Hne by done.
  revert qs. induction ps as [|p ps IH]; intros [|q qs] Hps Hqs Heq; try done.
  inversion Hps as [|? ? Hp Hps']; inversion Hqs as [|? ? Hq Hqs']; subst. cbn [material] in Heq.
  apply append_inj_length in Heq as [Hl Heq]; [|by rewrite !length_le_string].
  unfold part_ok in *. apply le_string_inj in Hl; [|cbn; lia..].
  apply append_inj_length in Heq as [-> Heq]; [|lia]. by rewrite (IH qs Hps' Hqs' Heq).
Qed.

(** The fields a digest covers: everything, with the deadline in whole milliseconds. *)
Definition to_millis (deadline : Z) : Z := as_millis deadline * 1000000.
Definition canonical (r : SetupJobRequest) : SetupJobRequest :=
  match r with
  | ReqPrepare r => ReqPrepare
      {| pr_workspace := pr_workspace r; pr_config := pr_config r; pr_policy := pr_policy r;
         pr_deadline := to_millis (pr_deadline r); pr_output_limit := pr_output_limit r |}
  | ReqTask r => ReqTask
      {| st_workspace := st_workspace r; st_config := st_config r; st_policy := st_policy r;
         st_task_name := st_task_name r; st_deadline := to_millis (st_deadline r);
         st_output_limit := st_output_limit r |}
  | ReqAppTask r => ReqAppTask
      {| sa_workspace := sa_workspace r; sa_config := sa_config r; sa_policy := sa_policy r;
         sa_task_name := sa_task_name r; sa_deadline := to_millis (sa_deadline r);
         sa_output_limit := sa_output_limit r |}
  | ReqEnsure r => ReqEnsure
      {| se_workspace := se_workspace r; se_config := se_config r; se_policy := se_policy r;
         se_deadline := to_millis (se_deadline r); se_output_limit := se_output_limit r |}
  | ReqManifestEnsure r => ReqManifestEnsure
      {| me_workspace := me_workspace r; me_manifest := me_manifest r; me_stack := me_stack r;
         me_deadline := to_millis (me_deadline r); me_output_limit := me_output_limit r |}
  | ReqManifestConverge r => ReqManifestConverge
      {| mc_workspace := mc_workspace r; mc_manifest := mc_manifest r;
         mc_deadline := to_millis (mc_deadline r); mc_output_limit := mc_output_limit r |}
  | ReqManifestAppTask r => ReqManifestAppTask
      {| ma_workspace := ma_workspace r; ma_manifest := ma_manifest r; ma_stack := ma_stack r;
         ma_task_name := ma_task_name r; ma_deadline := to_millis (ma_deadline r);
         ma_output_limit := ma_output_limit r |}
  end.

Definition request_parts (r : SetupJobRequest) : list string :=
  match r with
  | ReqPrepare r => setup_prepare_parts r
  | ReqTask r => setup_task_parts r
  | ReqAppTask r => setup_app_task_parts r
  | ReqEnsure r => setup_ensure_parts r
  | ReqManifestEnsure r => manifest_ensure_parts r
  | ReqManifestConverge r => manifest_converge_parts r
  | ReqManifestAppTask r => manifest_app_task_parts r
  end.
Definition request_material (r : SetupJobRequest) : string := material (request_parts r).
Definition request_deadline (r : SetupJobRequest) : Z :=
  match r with
  | ReqPrepare r => pr_deadline r
  | ReqTask r => st_deadline r
  | ReqAppTask r => sa_deadline r
  | ReqEnsure r => se_deadline r
  | ReqManifestEnsure r => me_deadline r
  | ReqManifestConverge r => mc_deadline r
  | ReqManifestAppTask r => ma_deadline r
  end.
Definition request_limit (r : SetupJobRequest) : Z :=
  match r with
  | ReqPrepare r => pr_output_limit r
  | ReqTask r => st_output_limit r
  | ReqAppTask r => sa_output_limit r
  | ReqEnsure r => se_output_limit r
  | ReqManifestEnsure r => me_output_limit r
  | ReqManifestConverge r => mc_output_limit r
  | ReqManifestAppTask r => ma_output_limit r
  end.

(** The ranges of the Rust types: a [Duration] has at most 2^64 seconds, a string fewer than
    2^64 bytes, a limit is a 64-bit [usize]. *)
Record request_ok (r : SetupJobRequest) : Prop := {
  ro_parts : Forall part_ok (request_parts r);
  ro_deadline : 0 ≤ request_deadline r < 2 ^ 64 * 1000000000;
  ro_limit : in_u64 (request_limit r);
}.

Lemma deadline_bytes_inj a b :
  0 ≤ a < 2 ^ 64 * 1000000000 → 0 ≤ b < 2 ^ 64 * 1000000000 →
  deadline_bytes a = deadline_bytes b → to_millis a = to_millis b.
Proof.
  intros Ha Hb H. unfold to_millis. f_equal. apply (le_string_inj 16) in H; [done|..];
    unfold as_millis; (split; [by apply Z.div_pos; lia|]); apply Z.div_lt_upper_bound; cbn; lia.
Qed.

Lemma limit_bytes_inj a b : in_u64 a → in_u64 b → limit_bytes a = limit_bytes b → a = b.
Proof. unfold in_u64, u64_max. intros Ha Hb. apply le_string_inj; cbn; lia. Qed.

Lemma policy_bytes_inj p q : policy_bytes p = policy_bytes q → p = q.
Proof. by destruct p, q. Qed.

Lemma cons_eq_parts (x y : string) l k : x :: l = y :: k → x = y ∧ l = k.
Proof. by intros [= -> ->]. Qed.

Lemma request_parts_inj r1 r2 :
  request_ok r1 → request_ok r2 → request_parts r1 = request_parts r2 →
  canonical r1 = canonical r2.
Proof.
  intros [_ Hd1 Hl1] [_ Hd2 Hl2].
  destruct r1, r2; cbn [request_deadline request_limit request_parts canonical] in *; intros H;
    unfold setup_prepare_parts, setup_task_parts, setup_app_task_parts, setup_ensure_parts,
      manifest_ensure_parts, manifest_converge_parts, manifest_app_task_parts in H;
    apply cons_eq_parts in H as [Htag H]; try discriminate Htag;
    repeat (apply cons_eq_parts in H as [? H]);
    repeat match goal with
    | H : deadline_bytes _ = deadline_bytes _ |- _ => apply deadline_bytes_inj in H; [|done..]
    | H : limit_bytes _ = limit_bytes _ |- _ => apply limit_bytes_inj in H; [|done..]
    | H : policy_bytes _ = policy_bytes _ |- _ => apply policy_bytes_inj in H
    end; congruence.
Qed.

Lemma request_digest_material hash r :
  ∃ tag, request_digest hash r = tag +:+ hash (request_material r) ∧
    tag ∈ ["setup:"; "manifest:"; "manifest-converge:"].
Proof. destruct r; (eexists; split; [reflexivity|set_solver]). Qed.

(** Two requests get one digest only if they ask for the same work, up to the deadline's
    sub-millisecond part, or if their materials are a blake3 collision: no field, and no
    boundary between fields, can be confused with another. *)
Theorem digest_identifies_request blake3_hex r1 r2 :
  request_ok r1 → request_ok r2 →
  request_digest blake3_hex r1 = request_digest blake3_hex r2 →
  canonical r1 = canonical r2 ∨
  request_material r1 ≠ request_material r2 ∧
  blake3_hex (request_material r1) = blake3_hex (request_material r2).
Proof.
  intros H1 H2 Hd.
  destruct (decide (request_material r1 = request_material r2)) as [E|Hne].
  { left. apply request_parts_inj; [done..|].
    apply material_inj; [by apply ro_parts|by apply ro_parts|done]. }
  right. split; [done|].
  destruct (request_digest_material blake3_hex r1) as (t1 & E1 & Ht1).
  destruct (request_digest_material blake3_hex r2) as (t2 & E2 & Ht2).
  rewrite E1, E2 in Hd.
  repeat match goal with
  | H : _ ∈ _ :: _ |- _ => apply elem_of_cons in H as [->|H]
  | H : _ ∈ [] |- _ => by apply elem_of_nil in H
  end; first [discriminate Hd|by apply append_inj_l in Hd].
Qed.

Definition sample_task : SetupTaskJobRequest :=
  {| st_workspace := "/w"; st_config := "bosn.toml"; st_policy := Refresh;
     st_task_name := "test"; st_deadline := 60 * 1000000000 + 5; st_output_limit := 4096 |}.

Lemma sample_task_ok : request_ok (ReqTask sample_task).
Proof. split; [|vm_compute; done..]. repeat constructor. Qed.

Lemma digest_identifies_request_witness :
  canonical (ReqTask sample_task) = canonical (ReqTask sample_task) ∨
  request_material (ReqTask sample_task) ≠ request_material (ReqTask sample_task) ∧
  str_reverse (request_material (ReqTask sample_task)) =
  str_reverse (request_material (ReqTask sample_task)).
Proof.
  exact (digest_identifies_request str_reverse (ReqTask sample_task) (ReqTask sample_task)
    sample_task_ok sample_task_ok eq_refl).
Defined.

(** ** Bounded log lines are never refused *)

Lemma length_substring_0 n s : String.length (String.substring 0 n s) = Nat.min n (String.length s).
Proof. revert n. induction s as [|a s IH]; intros [|n]; simpl; [done..|]. by rewrite IH. Qed.

Lemma cut_at_spec s i :
  (cut_at s i ≤ i)%nat ∧ is_char_boundary s (cut_at s i) = true ∧
  ∀ k, (cut_at s i < k ≤ i)%nat → is_char_boundary s k = false.
Proof.
  induction i as [|i IH]; cbn [cut_at]; [split_and!; [done|done|lia]|].
  destruct (is_char_boundary s (S i)) eqn:E; [split_and!; [done|done|lia]|].
  destruct IH as (Hle & Hb & Hlast). split_and!; [lia|done|].
  intros k Hk. destruct (decide (k = S i)) as [->|]; [done|]. apply Hlast. lia.
Qed.

(** A log line is kept whole when it fits; a longer one is cut at the last character boundary
    that leaves room for the ellipsis. The result always fits, so the job's log never refuses
    it for its size. *)
Theorem bounded_log_line_fits instant s id value :
  (Z.of_nat (String.length value) ≤ MAX_LOG_LINE_BYTES → bounded_log_line value = value) ∧
  (MAX_LOG_LINE_BYTES < Z.of_nat (String.length value) →
     ∃ cut, bounded_log_line value = String.substring 0 cut value +:+ "..." ∧
       (cut + 3 ≤ Z.to_nat MAX_LOG_LINE_BYTES)%nat ∧ is_char_boundary value cut = true ∧
       ∀ k, (cut < k)%nat → (k + 3 ≤ Z.to_nat MAX_LOG_LINE_BYTES)%nat →
         is_char_boundary value k = false) ∧
  (log instant s id (bounded_log_line value)).1 ≠ Err LogTooLarge.
Proof.
  assert (Z.of_nat (String.length (bounded_log_line value)) ≤ MAX_LOG_LINE_BYTES) as Hfit.
  { unfold bounded_log_line. destruct (_ <=? _) eqn:E; [booleans; lia|].
    rewrite length_append, length_substring_0.
    pose proof (proj1 (cut_at_spec value (Z.to_nat (MAX_LOG_LINE_BYTES - 3)))).
    unfold MAX_LOG_LINE_BYTES in *. simpl String.length. lia. }
  split_and!.
  - intros Hle. unfold bounded_log_line. by rewrite (proj2 (Z.leb_le _ _) Hle).
  - intros Hgt. unfold bounded_log_line. rewrite (proj2 (Z.leb_gt _ _) Hgt).
    eexists. split; [reflexivity|].
    destruct (cut_at_spec value (Z.to_nat (MAX_LOG_LINE_BYTES - 3))) as (Hle & Hb & Hlast).
    unfold MAX_LOG_LINE_BYTES in *. split_and!; [lia|done|]. intros k Hk1 Hk2. apply Hlast. lia.
  - unfold log. rewrite (proj2 (Z.ltb_ge _ _) Hfit). destruct (js_jobs s !! id) as [j|]; [|done].
    destruct (negb _); cbn; case_match; done.
Qed.
