(* ===== verification/JobLoop.v ===== *)
(** * JobLoop: the daemon's job actor

    The model of [job_actor] ([bosn-service/src/job_loop.rs]): one function per command, the
    sweeps at the loop's head, [launch_started_setup_jobs] and [cancel_job_in_actor], composed
    on the scheduler of Jobs.v exactly as the loop composes them. [Actor] holds the loop's local
    variables and the trace of what it did to the outside: replies, registry calls with their
    answers, executors launched and signalled, runner records begun and finished, and the wait
    for the spawned tasks before the loop returns ([EfJoinTasks]; how long that wait takes is up to
    the tasks and is not modelled).

    The registry's answers are an arbitrary function of the trace, and so is the Docker activity
    of a runner; the process table is an arbitrary [liveness] per iteration. A
    [CancellationSource] is the flag it carries. What the loop receives in one iteration (a
    command, a timeout, or the end of the channel) is its input. [None] is a panic, which only
    a scheduler call can cause. Of an ensure's execution the actor itself reads the receipt;
    the facts beside it go to the registry. *)

From stdpp Require Import pretty.
From S2P Require Export Capacity JobRequests.

Local Open Scope string_scope.
Local Open Scope list_scope.
Local Open Scope Z_scope.
Local Open Scope bosn_scope.

Definition LEASE_SWEEP_INTERVAL : Z := 500 * 1000000.
Definition JOBS_VIEW_RECENT : nat := 20.

(** ** Commands, effects and state *)

Inductive Error := Protocol (what : string) | RegistryFailed (error : string).
Definition error_text (e : Error) : string :=
  match e with Protocol what => what | RegistryFailed error => error end.

Inductive JobCommand :=
| CmdSubmit (workspace stack digest : string)
| CmdStatus (id : Z)
| CmdCancel (id : Z)
| CmdLogs (id after : Z) (limit : nat)
| CmdSubmitSetupPrepare (request : SetupPrepareRequest)
| CmdSubmitSetupTask (request : SetupTaskJobRequest)
| CmdSubmitSetupAppTask (request : SetupAppTaskJobRequest)
| CmdSubmitSetupEnsure (request : SetupEnsureJobRequest)
| CmdSubmitManifestEnsure (request : ManifestEnsureJobRequest) (owner : option ClientOwner)
| CmdSubmitManifestConverge (request : ManifestConvergeJobRequest)
| CmdSubmitManifestAppTask (request : ManifestAppTaskJobRequest) (follow_lease : option Z)
    (owner : option ClientOwner)
| CmdPersistSetupEnsure (id : Z) (receipt : string)
| CmdPersistManifestEnsure (id : Z) (receipt : string)
| CmdPersistManifestConvergeStack (id : Z) (receipt : string)
| CmdLog (id : Z) (lines : list string)
| CmdCompleted (id : Z) (kind : SetupJobKind) (result : result string string)
| CmdList
| CmdUnfinished
| CmdStop.

Inductive registry_call :=
| CallAppendEvents (events : list SetupEnsureEvent)
| CallRecordSetupEnsure (id : Z) (receipt : string)
| CallRecordManifestEnsure (id : Z) (receipt : string).

Inductive reply :=
| ReplyId (r : result Error Z)
| ReplyJob (r : result Error Job)
| ReplyCancel (r : result Error unit)
| ReplyPage (r : result Error LogPage)
| ReplyPersist (r : result string unit)
| ReplyUnfinished (n : nat)
| ReplyList (jobs : list Job) (load : gmap JobClass (nat * nat))
| ReplyStopped.

Inductive effect :=
| EfReply (r : reply)
| EfRegistry (call : registry_call) (answer : result Error unit)
| EfLaunch (id : Z) (request : SetupJobRequest)
| EfSignal (id : Z)
| EfBegin (id : Z) (workspace stack task : string) (slot : option nat)
| EfFinish (id : Z)
(** The wait for every task the loop spawned. *)
| EfJoinTasks.

Record Actor := mkActor {
  ac_jobs : Jobs;
  ac_requests : gmap Z SetupJobRequest;
  ac_setup_kinds : gmap Z SetupJobKind;
  (** The cancellation source of each executor that has not settled; [true] once signalled. *)
  ac_cancellations : gmap Z bool;
  ac_stopping : bool;
  ac_next_sweep : Z;
  ac_returned : bool;
  ac_effects : list effect;
}.

Definition set_actor_jobs (a : Actor) v :=
  mkActor v (ac_requests a) (ac_setup_kinds a) (ac_cancellations a) (ac_stopping a)
    (ac_next_sweep a) (ac_returned a) (ac_effects a).
Definition set_requests (a : Actor) v :=
  mkActor (ac_jobs a) v (ac_setup_kinds a) (ac_cancellations a) (ac_stopping a)
    (ac_next_sweep a) (ac_returned a) (ac_effects a).
Definition set_setup_kinds (a : Actor) v :=
  mkActor (ac_jobs a) (ac_requests a) v (ac_cancellations a) (ac_stopping a)
    (ac_next_sweep a) (ac_returned a) (ac_effects a).
Definition set_cancellations (a : Actor) v :=
  mkActor (ac_jobs a) (ac_requests a) (ac_setup_kinds a) v (ac_stopping a)
    (ac_next_sweep a) (ac_returned a) (ac_effects a).
Definition set_stopping (a : Actor) v :=
  mkActor (ac_jobs a) (ac_requests a) (ac_setup_kinds a) (ac_cancellations a) v
    (ac_next_sweep a) (ac_returned a) (ac_effects a).
Definition set_next_sweep (a : Actor) v :=
  mkActor (ac_jobs a) (ac_requests a) (ac_setup_kinds a) (ac_cancellations a) (ac_stopping a)
    v (ac_returned a) (ac_effects a).
Definition set_returned (a : Actor) v :=
  mkActor (ac_jobs a) (ac_requests a) (ac_setup_kinds a) (ac_cancellations a) (ac_stopping a)
    (ac_next_sweep a) v (ac_effects a).
Definition emit (a : Actor) (e : effect) :=
  mkActor (ac_jobs a) (ac_requests a) (ac_setup_kinds a) (ac_cancellations a) (ac_stopping a)
    (ac_next_sweep a) (ac_returned a) (ac_effects a ++ [e]).
Definition send (a : Actor) (r : reply) : Actor := emit a (EfReply r).

(** The loop's variables before its first iteration. *)
Definition Actor_new (jobs : Jobs) (now : Z) : Actor := mkActor jobs ∅ ∅ ∅ false now false [].

Definition map_err {E F A} (f : E → F) (r : result E A) : result F A :=
  match r with Ok a => Ok a | Err e => Err (f e) end.

(** [cancellation.cancel()] of a source in the map. *)
Definition signal (a : Actor) (id : Z) : Actor :=
  emit (set_cancellations a (<[id := true]> (ac_cancellations a))) (EfSignal id).

(** The record [runners.begin] is called with. *)
Definition begin_effect (jobs : Jobs) (id : Z) (request : SetupJobRequest) (runners : bool) :
    option effect :=
  match request with
  | ReqManifestAppTask r =>
      if runners then
        Some (EfBegin id (ma_workspace r) (ma_stack r) (ma_task_name r)
                (j ← js_jobs jobs !! id; j_slot j))
      else None
  | _ => None
  end.

Section actor.
Context (instant wall : nat → Z) (blake3_hex : string → string).
(** The registry actor's answers. *)
Context (registry : list effect → registry_call → result Error unit).
(** [executors.runners]: the capacity it runs under and each job's last Docker activity. *)
Context (runners : option (RunnerCapacity * (list effect → Z → option Z))).

Definition call_registry (a : Actor) (call : registry_call) : result Error unit * Actor :=
  let answer := registry (ac_effects a) call in (answer, emit a (EfRegistry call answer)).

(** One [Instant::now()] of the actor's own. *)
Definition now_of (a : Actor) : Z := instant_now instant (ac_jobs a).
Definition read_clock (a : Actor) : Actor := set_actor_jobs a (tick (ac_jobs a)).

Definition log_line (a : Actor) (id : Z) (line : string) : Actor :=
  set_actor_jobs a (log instant (ac_jobs a) id line).2.

Definition settle_job (a : Actor) (id : Z) (ok : bool) (error : option string) : option Actor :=
  '(_, s) ← settle_with_error instant wall (ac_jobs a) id ok error;
  Some (set_actor_jobs a s).

(** ** Launching *)

Definition launch_one (a : Actor) (id : Z) : Actor :=
  match ac_requests a !! id with
  | None => a
  | Some request =>
      let a := set_requests a (delete id (ac_requests a)) in
      let a := set_cancellations a (<[id := false]> (ac_cancellations a)) in
      let a :=
        match begin_effect (ac_jobs a) id request (bool_decide (is_Some runners)) with
        | Some e => emit a e
        | None => a
        end in
      emit a (EfLaunch id request)
  end.
Definition launch_started_setup_jobs (a : Actor) : Actor :=
  let '(started, s) := take_started (ac_jobs a) in
  foldl launch_one (set_actor_jobs a s) started.

(** ** Cancelling *)

Definition cancel_job_in_actor (a : Actor) (id : Z) : option (result Error unit * Actor) :=
  '(r, s) ← cancel instant wall (ac_jobs a) id;
  let a := set_actor_jobs a s in
  match r with
  | Err _ => Some (Err (Protocol "job cancel"), a)
  | Ok _ =>
      let a :=
        match ac_cancellations a !! id with
        | Some _ => signal a id
        | None =>
            if job_is (ac_jobs a) id terminal then
              let kind := ac_setup_kinds a !! id in
              let a := set_requests a (delete id (ac_requests a)) in
              let a := set_setup_kinds a (delete id (ac_setup_kinds a)) in
              if bool_decide (kind = Some KindEnsure)
              then (call_registry a (CallAppendEvents [event_terminal id OutcomeCancelled])).2
              else a
            else a
        end in
      Some (Ok (), a)
  end.

(** [jobs.log] and [cancel_job_in_actor] for each job of a sweep. *)
Fixpoint cancel_each (a : Actor) (gone : list (Z * string)) : option Actor :=
  match gone with
  | [] => Some a
  | (id, line) :: gone' =>
      '(_, a) ← cancel_job_in_actor (log_line a id line) id;
      cancel_each a gone'
  end.

Definition stalled_line (after : Z) : string :=
  "[bosn] stalled: no output and no Docker activity for " +:+ pretty (after / nanos_per_sec)
  +:+ "s; tearing down this job (stall_seconds)".

Definition stall_sweep (a : Actor) (sweep : bool) : option Actor :=
  if sweep && negb (ac_stopping a) then
    match runners with
    | Some (capacity, activity) =>
        match rc_stall_after capacity with
        | Some after =>
            let now := now_of a in
            let a := read_clock a in
            cancel_each a
              ((λ id, (id, stalled_line after))
                 <$> stalled (ac_jobs a) now after (activity (ac_effects a)))
        | None => Some a
        end
    | None => Some a
    end
  else Some a.

Definition expired_line : string :=
  "[bosn] cancelling: the client following this job stopped polling (it exited or was killed)".

Definition add_gone (gone : list (Z * string)) (id : Z) : list (Z * string) :=
  if forallb (λ e : Z * string, negb (e.1 =? id)) gone then gone ++ [(id, expired_line)] else gone.

Definition clients_gone (s : Jobs) (sweep : bool)
    (liveness : history → ClientOwner → Liveness) : list (Z * string) * Jobs :=
  let '(gone, s) :=
    if sweep then
      let '(out, s) := jobs_orphaned s liveness in
      ((λ e : Z * list Z, (e.1, "[bosn] " +:+ orphaned_message e.2)) <$> out, s)
    else ([], s) in
  let now := instant_now instant s in
  let s := tick s in
  (foldl add_gone gone (expired_leases s now), s).

Definition client_sweep (a : Actor) (sweep : bool)
    (liveness : history → ClientOwner → Liveness) : option Actor :=
  if ac_stopping a then Some a
  else
    let '(gone, s) := clients_gone (ac_jobs a) sweep liveness in
    cancel_each (set_actor_jobs a s) gone.

(** ** Submissions *)

(** The [map] over a [Submission] every typed submission has: a new job's request is kept
    until its launch. The flag says whether this submission created the job. *)
Definition record_submission (a : Actor) (r : result JobError Submission)
    (request : SetupJobRequest) (what : string) : result Error (Z * bool) * Actor :=
  match r with
  | Ok (SubStarted id) | Ok (SubQueued id) | Ok (SubSuperseded _ id) =>
      (Ok (id, true), set_requests a (<[id := request]> (ac_requests a)))
  | Ok (SubJoined id) => (Ok (id, false), a)
  | Err _ => (Err (Protocol what), a)
  end.

Definition submit_typed (a : Actor) (workspace stack digest : string) (class : JobClass)
    (request : SetupJobRequest) (what : string) : option (result Error (Z * bool) * Actor) :=
  '(r, s) ← submit_class instant wall (ac_jobs a) workspace stack digest class;
  Some (record_submission (set_actor_jobs a s) r request what).

Definition id_of (r : result Error (Z * bool)) : result Error Z :=
  match r with Ok (id, _) => Ok id | Err e => Err e end.

(** Reply, then launch what the submission admitted. *)
Definition answer_submission (r : result Error Z) (a : Actor) : Actor :=
  launch_started_setup_jobs (send a (ReplyId r)).

Definition on_submit (a : Actor) (workspace stack digest : string) : option Actor :=
  '(r, s) ← submit instant wall (ac_jobs a) workspace stack digest;
  let r :=
    match r with
    | Ok (SubStarted id) | Ok (SubQueued id) | Ok (SubJoined id) | Ok (SubSuperseded _ id) => Ok id
    | Err _ => Err (Protocol "job admission")
    end in
  Some (send (set_actor_jobs a s) (ReplyId r)).

Definition on_submit_setup_prepare (a : Actor) (request : SetupPrepareRequest) : option Actor :=
  '(r, a) ← submit_typed a (pr_workspace request) "setup-prepare"
    (setup_prepare_digest blake3_hex request) Control (ReqPrepare request) "setup job admission";
  Some (answer_submission (id_of r) a).

Definition on_submit_setup_task (a : Actor) (request : SetupTaskJobRequest) : option Actor :=
  '(r, a) ← submit_typed a (st_workspace request) "setup-task"
    (setup_task_digest blake3_hex request) Runner (ReqTask request) "setup task job admission";
  Some (answer_submission (id_of r) a).

Definition on_submit_setup_app_task (a : Actor) (request : SetupAppTaskJobRequest) :
    option Actor :=
  '(r, a) ← submit_typed a (sa_workspace request) "setup-app-task"
    (setup_app_task_digest blake3_hex request) Runner (ReqAppTask request)
    "setup app task job admission";
  Some (answer_submission (id_of r) a).

Definition audit_unavailable : string := "setup ensure submission audit unavailable".

(** A setup ensure is kept only once its submission is in the durable audit trail. *)
Definition admit_ensure (a : Actor) (r : result JobError Submission)
    (request : SetupEnsureJobRequest) : option (result Error Z * Actor) :=
  match r with
  | Ok (SubJoined id) => Some (Ok id, a)
  | Ok (SubStarted id) | Ok (SubQueued id) =>
      match call_registry a (CallAppendEvents [event_submitted id request]) with
      | (Ok _, a) =>
          let a := set_setup_kinds a (<[id := KindEnsure]> (ac_setup_kinds a)) in
          Some (Ok id, set_requests a (<[id := ReqEnsure request]> (ac_requests a)))
      | (Err e, a) =>
          a ← settle_job a id false (Some audit_unavailable);
          Some (Err e, a)
      end
  | Ok (SubSuperseded old id) =>
      let events :=
        (if bool_decide (ac_setup_kinds a !! old = Some KindEnsure)
         then [event_terminal old OutcomeSuperseded] else [])
        ++ [event_submitted id request] in
      match call_registry a (CallAppendEvents events) with
      | (Ok _, a) =>
          let a := set_setup_kinds a (<[id := KindEnsure]> (delete old (ac_setup_kinds a))) in
          Some (Ok id, set_requests a (<[id := ReqEnsure request]> (delete old (ac_requests a))))
      | (Err e, a) =>
          a ← settle_job a id false (Some audit_unavailable);
          let a := set_requests a (delete old (ac_requests a)) in
          Some (Err e, set_setup_kinds a (delete old (ac_setup_kinds a)))
      end
  | Err _ => Some (Err (Protocol "setup ensure job admission"), a)
  end.

Definition on_submit_setup_ensure (a : Actor) (request : SetupEnsureJobRequest) : option Actor :=
  '(r, s) ← submit instant wall (ac_jobs a) (se_workspace request) "setup-ensure"
    (setup_ensure_digest blake3_hex request);
  '(r, a) ← admit_ensure (set_actor_jobs a s) r request;
  Some (answer_submission r a).

(** [jobs.own] for an accepted submission. *)
Definition own_submission (a : Actor) (r : result Error (Z * bool)) (owner : option ClientOwner) :
    Actor :=
  match r with
  | Ok (id, created) => set_actor_jobs a (own (ac_jobs a) id owner created)
  | Err _ => a
  end.

Definition on_submit_manifest_ensure (a : Actor) (request : ManifestEnsureJobRequest)
    (owner : option ClientOwner) : option Actor :=
  '(r, a) ← submit_typed a (me_workspace request) ("manifest-ensure:" +:+ me_stack request)
    (manifest_ensure_digest blake3_hex request) Control (ReqManifestEnsure request)
    "manifest ensure job admission";
  Some (answer_submission (id_of r) (own_submission a r owner)).

Definition on_submit_manifest_converge (a : Actor) (request : ManifestConvergeJobRequest) :
    option Actor :=
  '(r, a) ← submit_typed a (mc_workspace request) "manifest-converge"
    (manifest_converge_digest blake3_hex request) Control (ReqManifestConverge request)
    "manifest converge job admission";
  Some (answer_submission (id_of r) a).

(** Only the submission that created the job sets its lease. *)
Definition lease_submission (a : Actor) (r : result Error (Z * bool)) (follow_lease : option Z) :
    Actor :=
  match r, follow_lease with
  | Ok (id, true), Some period =>
      let now := now_of a in
      let a := read_clock a in
      set_actor_jobs a (lease (ac_jobs a) id period now)
  | _, _ => a
  end.

Definition on_submit_manifest_app_task (a : Actor) (request : ManifestAppTaskJobRequest)
    (follow_lease : option Z) (owner : option ClientOwner) : option Actor :=
  '(r, a) ← submit_typed a (ma_workspace request) ("manifest-app-task:" +:+ ma_stack request)
    (manifest_app_task_digest blake3_hex request) Runner (ReqManifestAppTask request)
    "manifest app task job admission";
  Some (answer_submission (id_of r) (own_submission (lease_submission a r follow_lease) r owner)).

(** ** Reading *)

Definition on_status (a : Actor) (id : Z) : option Actor :=
  let now := now_of a in
  s ← touch instant wall (tick (ac_jobs a)) id now;
  let a := set_actor_jobs a s in
  Some (send a (ReplyJob (map_err (λ _, Protocol "unknown job") (job s id)))).

Definition on_cancel (a : Actor) (id : Z) : option Actor :=
  '(r, a) ← cancel_job_in_actor a id;
  Some (send a (ReplyCancel r)).

Definition on_logs (a : Actor) (id after : Z) (limit : nat) : option Actor :=
  let now := now_of a in
  s ← touch instant wall (tick (ac_jobs a)) id now;
  let a := set_actor_jobs a s in
  Some (send a (ReplyPage (map_err (λ _, Protocol "unknown job") (log_page s id after limit)))).

Definition on_unfinished (a : Actor) : Actor :=
  send a (ReplyUnfinished
    (sum_list ((λ e : nat * nat, (e.1 + e.2)%nat) <$> (map_to_list (load (ac_jobs a))).*2))).

Definition on_list (a : Actor) : Actor :=
  send a (ReplyList (snapshot (ac_jobs a) JOBS_VIEW_RECENT) (load (ac_jobs a))).

(** ** Executors reporting *)

Definition is_job_running (a : Actor) (id : Z) : bool :=
  job_is (ac_jobs a) id (λ st, bool_decide (st = Running)).

(** A recorded ensure settles before the next command is read. *)
Definition persisted (a : Actor) (id : Z) (receipt : string) : option Actor :=
  let a := set_cancellations a (delete id (ac_cancellations a)) in
  settle_job (log_line a id (bounded_log_line receipt)) id true None.

Definition on_persist_setup_ensure (a : Actor) (id : Z) (receipt : string) : option Actor :=
  if is_job_running a id then
    match call_registry a (CallRecordSetupEnsure id receipt) with
    | (Ok _, a) =>
        a ← persisted (set_setup_kinds a (delete id (ac_setup_kinds a))) id receipt;
        Some (send a (ReplyPersist (Ok ())))
    | (Err e, a) =>
        Some (send a (ReplyPersist
          (Err ("setup ensure registry recording failed: " +:+ error_text e))))
    end
  else Some (send a (ReplyPersist (Err "setup ensure cancelled"))).

Definition on_persist_manifest_ensure (a : Actor) (id : Z) (receipt : string) : option Actor :=
  if is_job_running a id then
    match call_registry a (CallRecordManifestEnsure id receipt) with
    | (Ok _, a) =>
        a ← persisted a id receipt;
        Some (send a (ReplyPersist (Ok ())))
    | (Err e, a) =>
        Some (send a (ReplyPersist
          (Err ("manifest ensure registry recording failed: " +:+ error_text e))))
    end
  else Some (send a (ReplyPersist (Err "manifest ensure cancelled"))).

Definition on_persist_manifest_converge_stack (a : Actor) (id : Z) (receipt : string) : Actor :=
  if is_job_running a id then
    let '(answer, a) := call_registry a (CallRecordManifestEnsure id receipt) in
    send a (ReplyPersist
      (map_err (λ e, "manifest converge registry recording failed: " +:+ error_text e) answer))
  else send a (ReplyPersist (Err "manifest converge cancelled")).

Fixpoint on_log (a : Actor) (id : Z) (lines : list string) : Actor :=
  match lines with
  | [] => a
  | line :: lines' => on_log (log_line a id (bounded_log_line line)) id lines'
  end.

(** The audit outcome of a completed ensure. *)
Definition completed_outcome (a : Actor) (id : Z) (result : result string string) :
    SetupEnsureEventOutcome :=
  if job_is (ac_jobs a) id (λ st, bool_decide (st = Cancelling)) then OutcomeCancelled
  else match result with Ok _ => OutcomeSucceeded | Err _ => OutcomeFailed end.

Definition audit_completed (a : Actor) (id : Z) (kind : SetupJobKind)
    (result : result string string) : Actor :=
  if bool_decide (kind = KindEnsure) then
    let outcome := completed_outcome a id result in
    if negb (bool_decide (outcome = OutcomeSucceeded)) &&
       bool_decide (ac_setup_kinds a !! id = Some KindEnsure)
    then (call_registry a (CallAppendEvents [event_terminal id outcome])).2
    else a
  else a.

Definition settle_completed (a : Actor) (id : Z) (kind : SetupJobKind)
    (result : result string string) : option Actor :=
  match result with
  | Ok receipt => settle_job (log_line a id (bounded_log_line receipt)) id true None
  | Err error =>
      let error := bounded_log_line error in
      let a := log_line a id (operation_name kind +:+ " failed: " +:+ error) in
      settle_job a id false (Some error)
  end.

Definition on_completed (a : Actor) (id : Z) (kind : SetupJobKind)
    (result : result string string) : option Actor :=
  let a := set_cancellations a (delete id (ac_cancellations a)) in
  let a := match runners with Some _ => emit a (EfFinish id) | None => a end in
  let a := audit_completed a id kind result in
  a ← settle_completed a id kind result;
  Some (if job_is (ac_jobs a) id terminal
        then set_setup_kinds a (delete id (ac_setup_kinds a)) else a).

(** ** Stopping *)

Definition is_cancelled (st : JobState) : bool := bool_decide (st = Cancelled).

Definition cancelled_events (a : Actor) : list SetupEnsureEvent :=
  (λ e : Z * SetupJobKind, event_terminal e.1 OutcomeCancelled) <$>
    filterb (λ e : Z * SetupJobKind,
      bool_decide (e.2 = KindEnsure) && job_is (ac_jobs a) e.1 is_cancelled)
      (btree_iter Z.compare (ac_setup_kinds a)).

Definition retain_kinds (a : Actor) : gmap Z SetupJobKind :=
  filter (λ e : Z * SetupJobKind, job_is (ac_jobs a) e.1 is_cancelled = false) (ac_setup_kinds a).

(** [jobs.cancel(id)] and [cancellation.cancel()] for every source. *)
Fixpoint signal_each (a : Actor) (ids : list Z) : option Actor :=
  match ids with
  | [] => Some a
  | id :: ids' =>
      '(_, s) ← cancel instant wall (ac_jobs a) id;
      signal_each (signal (set_actor_jobs a s) id) ids'
  end.

Definition on_stop (a : Actor) : option Actor :=
  s ← close instant wall (ac_jobs a);
  let a := set_actor_jobs a s in
  let events := cancelled_events a in
  let a := match events with
           | [] => a
           | _ => (call_registry a (CallAppendEvents events)).2
           end in
  let a := set_setup_kinds a (retain_kinds a) in
  a ← signal_each a (btree_keys Z.compare (ac_cancellations a));
  Some (set_stopping a true).

(** ** One iteration of the loop *)

Definition handle (a : Actor) (command : JobCommand) : option Actor :=
  match command with
  | CmdSubmit workspace stack digest => on_submit a workspace stack digest
  | CmdStatus id => on_status a id
  | CmdCancel id => on_cancel a id
  | CmdLogs id after limit => on_logs a id after limit
  | CmdSubmitSetupPrepare request => on_submit_setup_prepare a request
  | CmdSubmitSetupTask request => on_submit_setup_task a request
  | CmdSubmitSetupAppTask request => on_submit_setup_app_task a request
  | CmdSubmitSetupEnsure request => on_submit_setup_ensure a request
  | CmdSubmitManifestEnsure request owner => on_submit_manifest_ensure a request owner
  | CmdSubmitManifestConverge request => on_submit_manifest_converge a request
  | CmdSubmitManifestAppTask request follow_lease owner =>
      on_submit_manifest_app_task a request follow_lease owner
  | CmdPersistSetupEnsure id receipt => on_persist_setup_ensure a id receipt
  | CmdPersistManifestEnsure id receipt => on_persist_manifest_ensure a id receipt
  | CmdPersistManifestConvergeStack id receipt =>
      Some (on_persist_manifest_converge_stack a id receipt)
  | CmdLog id lines => Some (on_log a id lines)
  | CmdCompleted id kind result => on_completed a id kind result
  | CmdList => Some (on_list a)
  | CmdUnfinished => Some (on_unfinished a)
  | CmdStop => on_stop a
  end.

Inductive received := Received (command : JobCommand) | TimedOut | ChannelClosed.
Record iteration := {
  it_received : received;
  it_liveness : history → ClientOwner → Liveness;
}.

(** Every executor has settled: wait for the tasks, reply to [Stop] and return. *)
Definition return_stopped (a : Actor) : Actor :=
  set_returned (send (emit a EfJoinTasks) ReplyStopped) true.

(** The end of an iteration. *)
Definition finish_iteration (a : Actor) : Actor :=
  if ac_stopping a then
    if bool_decide (ac_cancellations a = ∅) then return_stopped a else a
  else launch_started_setup_jobs a.

(** From the read of [sweep] to the end of the client sweep. *)
Definition sweeps (a : Actor) (liveness : history → ClientOwner → Liveness) : option Actor :=
  let sweep := ac_next_sweep a <=? now_of a in
  let a := read_clock a in
  let a :=
    if sweep then read_clock (set_next_sweep a (now_of a + LEASE_SWEEP_INTERVAL)) else a in
  a ← stall_sweep a sweep;
  client_sweep a sweep liveness.

Definition actor_step (a : Actor) (i : iteration) : option Actor :=
  if ac_returned a then Some a
  else
    let a := read_clock a in
    match it_received i with
    | ChannelClosed => Some (set_returned a true)
    | TimedOut => finish_iteration <$> sweeps a (it_liveness i)
    | Received command =>
        a ← sweeps a (it_liveness i);
        a ← handle a command;
        Some (finish_iteration a)
    end.

Fixpoint actor_run (a : Actor) (inputs : list iteration) : option Actor :=
  match inputs with
  | [] => Some a
  | i :: inputs' => a ← actor_step a i; actor_run a inputs'
  end.
End actor.
