(* ===== verification/JobLoopInvariant.v ===== *)
(** * JobLoopInvariant: what every iteration of the job actor keeps

    [ActorInv] ties the actor's maps to the scheduler and to the trace: its scheduler state is
    reachable by scheduler calls alone, each executor is launched at most once and has a
    cancellation source while its job is unfinished, a running job whose request is still
    waiting is on the started list, and an ensure is launched only after its submission was
    recorded. *)

From S2P Require Export JobLoop JobsStarted.

Local Open Scope string_scope.
Local Open Scope list_scope.
Local Open Scope Z_scope.
Local Open Scope bosn_scope.

(** ** Reading the trace *)

Definition launch_of (e : effect) : option Z :=
  match e with EfLaunch id _ => Some id | _ => None end.
Definition launched (trace : list effect) : list Z := omap launch_of trace.

Lemma launched_app l k : launched (l ++ k) = launched l ++ launched k.
Proof. apply omap_app. Qed.

(** The submission of ensure [id] was durably recorded. *)
Definition audited (trace : list effect) (id : Z) (request : SetupEnsureJobRequest) : Prop :=
  EfRegistry (CallAppendEvents [event_submitted id request]) (Ok ()) ∈ trace.

Definition launches_audited (trace : list effect) : Prop :=
  ∀ before id request after,
    trace = before ++ EfLaunch id (ReqEnsure request) :: after → audited before id request.

Lemma audited_app trace trace' id request :
  audited trace id request → audited (trace ++ trace') id request.
Proof. unfold audited. rewrite elem_of_app. by left. Qed.

Lemma launches_audited_snoc trace e :
  launches_audited trace →
  (∀ id request, e = EfLaunch id (ReqEnsure request) → audited trace id request) →
  launches_audited (trace ++ [e]).
Proof.
  intros Ht He before id request after Heq.
  destruct after as [|x after _] using rev_ind.
  - apply app_inj_tail in Heq as [-> ->]. by apply He.
  - rewrite app_comm_cons, app_assoc in Heq. apply app_inj_tail in Heq as [-> _].
    by eapply Ht.
Qed.

(** ** The invariant *)

Section invariant.
Context (instant wall : nat → Z) (policy : SchedulerPolicy).

(** [owed] are launched jobs that may have lost their source but not yet settled; [loose] are
    jobs taken off the started list but not yet launched. *)
Record CoreInv (owed loose : Z → Prop) (s : Jobs) (requests : gmap Z SetupJobRequest)
    (cancellations : gmap Z bool) (trace : list effect) : Prop := {
  ci_reachable : reachable instant wall policy s;
  ci_nodup : NoDup (launched trace);
  ci_launched : ∀ id, id ∈ launched trace → id < js_next s ∧ requests !! id = None;
  ci_requests : ∀ id, is_Some (requests !! id) → id < js_next s;
  ci_sources : ∀ id, is_Some (cancellations !! id) → id ∈ launched trace;
  ci_outstanding : ∀ id j, id ∈ launched trace → js_jobs s !! id = Some j → live j →
    owed id ∨ is_Some (cancellations !! id);
  ci_tracked : tracked (λ id, loose id ∨ requests !! id = None) s;
  ci_audited : ∀ id request, requests !! id = Some (ReqEnsure request) →
    audited trace id request;
  ci_launches : launches_audited trace;
}.

Definition nobody : Z → Prop := λ _, False.
Definition Inv_owing (owed : Z → Prop) (a : Actor) : Prop :=
  CoreInv owed nobody (ac_jobs a) (ac_requests a) (ac_cancellations a) (ac_effects a).
Definition ActorInv (a : Actor) : Prop := Inv_owing nobody a.

(** ** Scheduler calls *)

(** What any scheduler call but [take_started] and [shutdown] does. *)
Record moves (s s' : Jobs) : Prop := {
  mv_reachable : reachable instant wall policy s → reachable instant wall policy s';
  mv_evolves : reachable instant wall policy s → evolves s s';
  mv_tracked : ∀ known, tracked known s → tracked known s';
  mv_closing : js_closing s = true → quiet s s';
}.

#[local] Instance moves_refl : Reflexive moves.
Proof. intros s. by split. Qed.
#[local] Instance moves_trans : Transitive moves.
Proof.
  intros s1 s2 s3 [Hr1 He1 Ht1 Hc1] [Hr2 He2 Ht2 Hc2]. split; [by auto| |by auto|].
  - intros Hr. eapply (evolves_trans ∅); [by eapply reachable_Inv|by auto|by auto].
  - intros Hc. pose proof (Hc1 Hc) as Q1. rewrite Q1. apply Hc2. by destruct Q1 as [_ ->].
Qed.

Definition is_plain (op : jobs_op) : bool :=
  match op with OpTakeStarted | OpShutdown => false | _ => true end.

Lemma tracked_step known s op s' :
  is_plain op = true → jobs_step instant wall s op = Some s' → tracked known s → tracked known s'.
Proof.
  destruct op as [w st d c|id period now|id now|id owner created|liveness| |id|id ok err|id line| | | ];
    cbn [is_plain jobs_step]; intros Hp Heq; try done.
  - destruct (submit_class _ _ _ _ _ _ _) as [[r s1]|] eqn:E; [|done]. injection Heq as <-.
    by eapply tracked_submit.
  - injection Heq as <-. unfold lease. case_match; [done|by apply tracked_same].
  - by eapply tracked_touch.
  - injection Heq as <-. unfold own. case_match; [by apply tracked_same|done].
  - injection Heq as <-. unfold jobs_orphaned. destruct (orphaned _ _ _) as [[] ?].
    by apply tracked_same.
  - destruct (cancel _ _ _ _) as [[r s1]|] eqn:E; [|done]. injection Heq as <-.
    by eapply tracked_cancel.
  - destruct (settle_with_error _ _ _ _ _ _) as [[r s1]|] eqn:E; [|done]. injection Heq as <-.
    by eapply tracked_settle.
  - injection Heq as <-. by apply tracked_log.
  - intros Ht. eapply tracked_finish_all; [exact Heq|]. by eapply tracked_same.
  - injection Heq as <-. by apply tracked_same.
Qed.

Lemma step_moves s op s' :
  is_plain op = true → jobs_step instant wall s op = Some s' → moves s s'.
Proof.
  intros Hp Heq. split.
  - intros Hr. by econstructor.
  - intros Hr. destruct (jobs_step_spec instant wall s op (reachable_Inv _ _ _ _ Hr))
      as [(s1 & E & _ & Hev)|[E _]]; congruence.
  - intros known. by eapply tracked_step.
  - intros Hc. eapply closing_step; [done| | |done]; by intros E; rewrite E in Hp.
Qed.

Lemma tick_moves s : moves s (tick s).
Proof. by apply (step_moves s OpInstant). Qed.
Lemma log_moves s id line : moves s (log instant s id line).2.
Proof. by apply (step_moves s (OpLog id line)). Qed.
Lemma own_moves s id owner created : moves s (own s id owner created).
Proof. by apply (step_moves s (OpOwn id owner created)). Qed.
Lemma lease_moves s id period now : moves s (lease s id period now).
Proof. by apply (step_moves s (OpLease id period now)). Qed.
Lemma orphaned_moves s liveness : moves s (jobs_orphaned s liveness).2.
Proof. by apply (step_moves s (OpOrphaned liveness)). Qed.
Lemma close_moves s s' : close instant wall s = Some s' → moves s s'.
Proof. by apply (step_moves s OpClose). Qed.
Lemma touch_moves s id now s' : touch instant wall s id now = Some s' → moves s s'.
Proof. by apply (step_moves s (OpTouch id now)). Qed.
Lemma cancel_moves s id r s' : cancel instant wall s id = Some (r, s') → moves s s'.
Proof. intros E. apply (step_moves s (OpCancel id)); [done|]. cbn. by rewrite E. Qed.
Lemma settle_moves s id ok err r s' :
  settle_with_error instant wall s id ok err = Some (r, s') → moves s s'.
Proof. intros E. apply (step_moves s (OpSettle id ok err)); [done|]. cbn. by rewrite E. Qed.
Lemma submit_moves s w st d c r s' :
  submit_class instant wall s w st d c = Some (r, s') → moves s s'.
Proof. intros E. apply (step_moves s (OpSubmit w st d c)); [done|]. cbn. by rewrite E. Qed.

(** A job that already had an ID and is unfinished was unfinished before. *)
Lemma live_before s s' id j' :
  reachable instant wall policy s → moves s s' → id < js_next s →
  js_jobs s' !! id = Some j' → live j' → ∃ j, js_jobs s !! id = Some j ∧ live j.
Proof.
  intros Hr Hm Hlt Hj' Hl'. pose proof (mv_evolves _ _ Hm Hr) as Hev.
  destruct (js_jobs s !! id) as [j|] eqn:Hj.
  - exists j. split; [done|]. pose proof (je_state _ _ (ev_job _ _ Hev id j j' Hj Hj')) as Hmay.
    unfold live in *. destruct (terminal (j_state j)) eqn:Ht; [|done].
    rewrite <-Hl'. symmetry. by rewrite (may_become_terminal _ _ Hmay Ht).
  - pose proof (ev_new _ _ Hev id Hj ltac:(by eexists)). lia.
Qed.

(** ** Frame lemmas *)

Section frames.
Context (owed loose : Z → Prop).

Lemma Core_moves s s' rq cs tr :
  moves s s' → CoreInv owed loose s rq cs tr → CoreInv owed loose s' rq cs tr.
Proof.
  intros Hm [Hr Hnd Hla Hrq Hsrc Hout Htr Hau Hlau].
  pose proof (ev_next _ _ (mv_evolves _ _ Hm Hr)) as Hn. split; try done.
  - by apply Hm.
  - intros id Hid. destruct (Hla id Hid). split; [lia|done].
  - intros id Hid. pose proof (Hrq id Hid). lia.
  - intros id j' Hid Hj' Hl'. destruct (Hla id Hid) as [Hlt _].
    destruct (live_before s s' id j' Hr Hm Hlt Hj' Hl') as (j & Hj & Hl). by eapply Hout.
  - by apply Hm.
Qed.

Lemma Core_emit s rq cs tr e :
  launch_of e = None → CoreInv owed loose s rq cs tr → CoreInv owed loose s rq cs (tr ++ [e]).
Proof.
  intros He [Hr Hnd Hla Hrq Hsrc Hout Htr Hau Hlau].
  assert (launched (tr ++ [e]) = launched tr) as El.
  { rewrite launched_app. cbn. rewrite He. by rewrite app_nil_r. }
  split; rewrite ?El; try done.
  - intros id request Hid. by apply audited_app, Hau.
  - apply launches_audited_snoc; [done|]. by intros id request ->.
Qed.

Lemma Core_signal s rq cs tr id :
  is_Some (cs !! id) → CoreInv owed loose s rq cs tr → CoreInv owed loose s rq (<[id := true]> cs) tr.
Proof.
  intros Hid [Hr Hnd Hla Hrq Hsrc Hout Htr Hau Hlau]. split; try done.
  - intros x Hx. apply Hsrc. destruct (decide (x = id)) as [->|Hne]; [done|].
    by rewrite lookup_insert_ne in Hx.
  - intros x j Hx Hj Hl. destruct (Hout x j Hx Hj Hl) as [?|Hs]; [by left|right].
    destruct (decide (x = id)) as [->|Hne]; [by rewrite lookup_insert_eq|].
    by rewrite lookup_insert_ne.
Qed.

Lemma Core_drop_request s rq cs tr id :
  CoreInv owed loose s rq cs tr → CoreInv owed loose s (delete id rq) cs tr.
Proof.
  intros [Hr Hnd Hla Hrq Hsrc Hout Htr Hau Hlau].
  assert (∀ x, is_Some (delete id rq !! x) → is_Some (rq !! x)) as Hsub.
  { intros x [r Hx]. apply lookup_delete_Some in Hx as [_ ?]. by eexists. }
  assert (∀ x, rq !! x = None → delete id rq !! x = None) as Hnone.
  { intros x Hx. by apply lookup_delete_None; right. }
  split; try done.
  - intros x Hx. destruct (Hla x Hx). auto.
  - intros x Hx. by apply Hrq, Hsub.
  - intros x Hx. destruct (Htr x Hx) as [[?|?]|?]; auto.
  - intros x request Hx. apply Hau. by apply lookup_delete_Some in Hx as [_ ?].
Qed.

(** A fresh job's request is kept; an ensure's only once it is audited. *)
Lemma Core_add_request s s' rq cs tr id request :
  CoreInv owed loose s rq cs tr → moves s s' → id = js_next s → id < js_next s' →
  (∀ r, request = ReqEnsure r → audited tr id r) →
  CoreInv owed loose s' (<[id := request]> rq) cs tr.
Proof.
  intros HC Hm -> Hlt Hau'. pose proof (Core_moves _ _ _ _ _ Hm HC) as HC'.
  destruct HC as [Hr _ Hla Hrq _ _ Htr _ _].
  destruct HC' as [Hr' Hnd Hla' Hrq' Hsrc Hout _ Hau Hlau]. split; try done.
  - intros x Hx. destruct (Hla x Hx) as [Hx1 Hx2]. split; [by apply Hla'|].
    rewrite lookup_insert_ne by lia. done.
  - intros x Hx. destruct (decide (x = js_next s)) as [->|Hne]; [done|].
    rewrite lookup_insert_ne in Hx by done. by apply Hrq'.
  - assert (tracked (λ x, loose x ∨ rq !! x = None ∧ x < js_next s) s) as Ht0.
    { intros x Hx. destruct (Htr x Hx) as [[?|?]|?]; [by left; left| |by right]. left. right. split; [done|].
      unfold job_is in Hx. destruct (js_jobs s !! x) as [j|] eqn:Hj; [|done].
      exact (jo_next _ _ _ _ (inv_job _ _ (reachable_Inv _ _ _ _ Hr) x j Hj)). }
    intros x Hx. destruct (mv_tracked _ _ Hm _ Ht0 x Hx) as [[?|[Hn Hx']]|?]; [by left; left|left|by right].
    right. by rewrite lookup_insert_ne by lia.
  - intros x r. destruct (decide (x = js_next s)) as [->|Hne].
    + rewrite lookup_insert_eq. intros [= ->]. by apply Hau'.
    + rewrite lookup_insert_ne by done. apply Hau.
Qed.
End frames.

(** The source of [id] is dropped; its settlement is owed. *)
Lemma Core_drop_source loose s rq cs tr id :
  CoreInv nobody loose s rq cs tr → CoreInv (λ x, x = id) loose s rq (delete id cs) tr.
Proof.
  intros [Hr Hnd Hla Hrq Hsrc Hout Htr Hau Hlau]. split; try done.
  - intros x [b Hx]. apply lookup_delete_Some in Hx as [_ Hx]. apply Hsrc. by eexists.
  - intros x j Hx Hj Hl. destruct (decide (x = id)) as [->|Hne]; [by left|right].
    rewrite lookup_delete_ne by done. by destruct (Hout x j Hx Hj Hl).
Qed.

(** After a settlement the job is not unfinished. *)
Lemma settled_not_live s id ok err r s' j' :
  reachable instant wall policy s → id < js_next s →
  settle_with_error instant wall s id ok err = Some (r, s') →
  js_jobs s' !! id = Some j' → ¬ live j'.
Proof.
  intros Hr Hlt Heq Hj' Hl'. pose proof (Inv_tick _ _ (reachable_Inv _ _ _ _ Hr)) as HI.
  destruct (live_before s s' id j' Hr (settle_moves _ _ _ _ _ _ Heq) Hlt Hj' Hl') as (j & Hj & Hl).
  unfold settle_with_error in Heq.
  destruct (settle_with_error_at_spec instant wall (tick s) id ok err (instant_now instant s) HI)
    as (r1 & s1 & Heq1 & _ & _ & _ & Hout).
  rewrite Heq in Heq1. injection Heq1 as <- <-.
  change (js_jobs (tick s)) with (js_jobs s) in Hout. rewrite Hj in Hout.
  unfold live in *. rewrite Hl in Hout. destruct Hout as (_ & Hout & _).
  destruct (Hout j' Hj') as [Hst _]. rewrite Hst in Hl'. unfold settled_state in Hl'.
  case_bool_decide; [done|]. by destruct ok.
Qed.

Lemma Core_settle loose s rq cs tr id ok err r s' :
  settle_with_error instant wall s id ok err = Some (r, s') →
  CoreInv (λ x, x = id) loose s rq cs tr → CoreInv nobody loose s' rq cs tr.
Proof.
  intros Heq HC. pose proof (ci_reachable _ _ _ _ _ _ HC) as Hr.
  pose proof (ci_launched _ _ _ _ _ _ HC) as Hla.
  destruct (Core_moves _ _ _ _ _ _ _ (settle_moves _ _ _ _ _ _ Heq) HC)
    as [Hr' Hnd Hla' Hrq Hsrc Hout Htr Hau Hlau]. split; try done.
  intros x j Hx Hj Hl. right. destruct (Hout x j Hx Hj Hl) as [->|?]; [|done].
  destruct (Hla id Hx) as [Hlt _]. by destruct (settled_not_live _ _ _ _ _ _ _ Hr Hlt Heq Hj Hl).
Qed.

(** ** Launching *)

Lemma Core_take owed s rq cs tr :
  CoreInv owed nobody s rq cs tr →
  CoreInv owed (λ x, x ∈ (take_started s).1) (take_started s).2 rq cs tr.
Proof.
  intros [Hr Hnd Hla Hrq Hsrc Hout Htr Hau Hlau]. split; try done.
  - by apply (reachable_step _ _ _ s OpTakeStarted).
  - intros x Hx. destruct (tracked_take _ _ Htr x Hx) as [[[[]|?]|?]|?]; auto.
Qed.

(** Nothing is waiting for the next job of the list. *)
Lemma Core_skip owed ids s rq cs tr id :
  rq !! id = None → CoreInv owed (λ x, x ∈ id :: ids) s rq cs tr →
  CoreInv owed (λ x, x ∈ ids) s rq cs tr.
Proof.
  intros Hid [Hr Hnd Hla Hrq Hsrc Hout Htr Hau Hlau]. split; try done.
  intros x Hx. destruct (Htr x Hx) as [[[->|?]%elem_of_cons|?]|?]; auto.
Qed.

(** Its request becomes an executor. *)
Lemma Core_launch owed ids s rq cs tr id request :
  rq !! id = Some request → CoreInv owed (λ x, x ∈ id :: ids) s rq cs tr →
  CoreInv owed (λ x, x ∈ ids) s (delete id rq) (<[id := false]> cs) (tr ++ [EfLaunch id request]).
Proof.
  intros Hid HC. assert (id ∉ launched tr) as Hfresh.
  { intros Hin. destruct (ci_launched _ _ _ _ _ _ HC id Hin). congruence. }
  pose proof (ci_audited _ _ _ _ _ _ HC) as Hau0. pose proof (ci_requests _ _ _ _ _ _ HC) as Hrq0.
  destruct (Core_drop_request _ _ _ _ _ _ id HC) as [Hr Hnd Hla Hrq Hsrc Hout Htr Hau Hlau].
  assert (launched (tr ++ [EfLaunch id request]) = launched tr ++ [id]) as El
    by by rewrite launched_app.
  split; rewrite ?El; try done.
  - apply NoDup_app. split_and!; [done| |apply NoDup_singleton].
    intros x Hx ->%list_elem_of_singleton. done.
  - intros x [Hx| ->%list_elem_of_singleton]%elem_of_app; [by apply Hla|].
    split; [apply Hrq0; by eexists|apply lookup_delete_eq].
  - intros x Hx. rewrite elem_of_app. destruct (decide (x = id)) as [->|Hne]; [right; by left|].
    rewrite lookup_insert_ne in Hx by done. left. by apply Hsrc.
  - intros x j Hx Hj Hl. destruct (decide (x = id)) as [->|Hne].
    { right. by rewrite lookup_insert_eq. }
    rewrite lookup_insert_ne by done. apply (Hout x j); [|done|done].
    apply elem_of_app in Hx as [?|?%list_elem_of_singleton]; done.
  - intros x Hx. destruct (Htr x Hx) as [[[->|?]%elem_of_cons|?]|?]; [|auto..].
    left. right. apply lookup_delete_eq.
  - intros x r Hx. by apply audited_app, Hau.
  - apply launches_audited_snoc; [done|]. intros x r [= -> ->]. by apply Hau0.
Qed.
End invariant.
