(* ===== verification/JobLoopSpec.v ===== *)
(** * JobLoopSpec: every handler of the job actor

    Each handler succeeds from a state with the invariant, keeps the invariant and never takes
    on more work while the scheduler is closing; a submission may panic only on the scheduler's
    hazard. *)

From S2P Require Export JobLoopInvariant.

Local Open Scope string_scope.
Local Open Scope list_scope.
Local Open Scope Z_scope.
Local Open Scope bosn_scope.

(** The executors the actor still waits for, and the jobs it has yet to launch. *)
Definition work_left (a : Actor) : nat :=
  (size (ac_cancellations a) + length (js_started (ac_jobs a)))%nat.

Section spec.
Context (instant wall : nat → Z) (blake3_hex : string → string).
Context (registry : list effect → registry_call → result Error unit).
Context (runners : option (RunnerCapacity * (list effect → Z → option Z))).
Context (policy : SchedulerPolicy).

Notation Inv_owing := (Inv_owing instant wall policy).
Notation ActorInv := (ActorInv instant wall policy).
Notation moves := (moves instant wall policy).
#[local] Existing Instances moves_refl moves_trans.

(** Job [id] was admitted and is over. *)
Definition ended (s : Jobs) (id : Z) : Prop :=
  id < js_next s ∧ ∀ j, js_jobs s !! id = Some j → ¬ live j.

(** The request of job [id] still waits for its launch, or its executor was launched with it,
    or the job is over. *)
Definition request_kept (id : Z) (request : SetupJobRequest) (a : Actor) : Prop :=
  ac_requests a !! id = Some request ∨ EfLaunch id request ∈ ac_effects a ∨ ended (ac_jobs a) id.

Lemma ended_moves s s' id :
  reachable instant wall policy s → moves s s' → ended s id → ended s' id.
Proof.
  intros Hr Hm [Hlt Hj]. split; [pose proof (ev_next _ _ (mv_evolves _ _ _ _ _ Hm Hr)); lia|].
  intros j' Hj' Hl'. destruct (live_before instant wall policy s s' id j' Hr Hm Hlt Hj' Hl')
    as (j & Hjx & Hl). by apply (Hj j).
Qed.

(** What a handler does between two iterations. *)
Record acts (a a' : Actor) : Prop := {
  act_inv : ∀ owed, Inv_owing owed a → Inv_owing owed a';
  act_closing : js_closing (ac_jobs a) = true →
    js_closing (ac_jobs a') = true ∧ (work_left a' ≤ work_left a)%nat;
  act_stopping : ac_stopping a' = ac_stopping a;
  act_returned : ac_returned a' = ac_returned a;
  act_kept : ∀ owed id request,
    Inv_owing owed a → request_kept id request a → request_kept id request a';
}.

#[local] Instance acts_refl : Reflexive acts.
Proof. by intros a. Qed.
#[local] Instance acts_trans : Transitive acts.
Proof.
  intros a1 a2 a3 [Hi1 Hc1 Hs1 Hr1 Hk1] [Hi2 Hc2 Hs2 Hr2 Hk2].
  split; [by auto| |congruence|congruence|by eauto]. intros Hc. destruct (Hc1 Hc) as [Hc' ?]. destruct (Hc2 Hc'). split; [done|lia].
Qed.

(** *** Steps *)

Lemma acts_moves a s' : moves (ac_jobs a) s' → acts a (set_actor_jobs a s').
Proof.
  intros Hm. split; [| |done|done|].
  - intros owed HI. by eapply Core_moves.
  - intros Hc. destruct (mv_closing _ _ _ _ _ Hm Hc) as [E1 E2]. cbn.
    unfold work_left. cbn. rewrite E1, E2. split; [done|lia].
  - intros owed id request HI [?|[?|He]]; [by left|by right; left|right; right].
    by apply (ended_moves _ _ _ (ci_reachable _ _ _ _ _ _ _ _ _ HI) Hm).
Qed.

Lemma acts_emit a e : launch_of e = None → acts a (emit a e).
Proof.
  intros He. split; [|done..|].
  - intros owed HI. by apply Core_emit.
  - intros owed id request _ [?|[?|?]]; [by left| |by right; right].
    right. left. cbn. set_solver.
Qed.

Lemma acts_send a r : acts a (send a r).
Proof. by apply acts_emit. Qed.

Lemma acts_kinds a v : acts a (set_setup_kinds a v).
Proof. done. Qed.

Lemma acts_next_sweep a v : acts a (set_next_sweep a v).
Proof. done. Qed.

(** Only the request of a job that is over may be dropped. *)
Lemma acts_drop_request a id :
  job_is (ac_jobs a) id terminal = true →
  acts a (set_requests a (delete id (ac_requests a))).
Proof.
  intros Ht. split; [|done..|].
  - intros owed HI. by apply Core_drop_request.
  - intros owed x request HI [Hx|[?|?]]; [|by right; left|by right; right].
    destruct (decide (x = id)) as [->|Hne]; [|left; cbn; by rewrite lookup_delete_ne].
    right. right. split; [by apply (ci_requests _ _ _ _ _ _ _ _ _ HI); eexists|].
    intros j Hj Hl. unfold job_is in Ht. cbn in Hj. rewrite Hj in Ht. unfold live in Hl. cbn in Ht. congruence.
Qed.

Lemma acts_signal a id : is_Some (ac_cancellations a !! id) → acts a (signal a id).
Proof.
  intros Hid. unfold signal. etrans; [|by apply acts_emit]. split; [|..|done|done|done].
  - intros owed HI. by apply Core_signal.
  - intros Hc. split; [done|]. unfold work_left. cbn. by rewrite map_size_insert_Some.
Qed.

Lemma acts_registry a call : acts a (call_registry registry a call).2.
Proof. by apply acts_emit. Qed.

Lemma acts_read a : acts a (read_clock a).
Proof. apply acts_moves, tick_moves. Qed.

Lemma acts_log a id line : acts a (log_line instant a id line).
Proof. apply acts_moves, log_moves. Qed.

Lemma owing_reachable owed a : Inv_owing owed a → reachable instant wall policy (ac_jobs a).
Proof. apply ci_reachable. Qed.

(** A scheduler call that cannot hit the hazard succeeds. *)
Lemma call_ok s op :
  reachable instant wall policy s → (∀ w st d c, op ≠ OpSubmit w st d c) →
  is_Some (jobs_step instant wall s op).
Proof.
  intros Hr Hop.
  destruct (jobs_step_spec instant wall s op (reachable_Inv _ _ _ _ Hr)) as [(s' & -> & _)|[_ Hh]];
    [by eexists|]. destruct op; try done. by destruct (Hop workspace stack digest class).
Qed.

Lemma cancel_ok owed a id :
  Inv_owing owed a → ∃ r s', cancel instant wall (ac_jobs a) id = Some (r, s').
Proof.
  intros HI. destruct (call_ok (ac_jobs a) (OpCancel id)) as [s' E]; [by eapply owing_reachable|done|].
  cbn in E. destruct (cancel _ _ _ _) as [[r s1]|]; [eauto|done].
Qed.

Lemma settle_ok owed a id ok err :
  Inv_owing owed a → ∃ a', settle_job instant wall a id ok err = Some a' ∧ acts a a'.
Proof.
  intros HI. destruct (call_ok (ac_jobs a) (OpSettle id ok err)) as [s' E];
    [by eapply owing_reachable|done|].
  unfold settle_job. cbn in E. destruct (settle_with_error _ _ _ _ _ _) as [[r s1]|] eqn:E1; [|done].
  eexists. split; [done|]. eapply acts_moves, settle_moves, E1.
Qed.

(** A settled job is over. *)
Lemma settle_ended owed a id ok err a' :
  Inv_owing owed a → id < js_next (ac_jobs a) → settle_job instant wall a id ok err = Some a' →
  ended (ac_jobs a') id.
Proof.
  intros HI Hlt. unfold settle_job.
  destruct (settle_with_error _ _ _ _ _ _) as [[r s']|] eqn:E; [|done]. intros [= <-]. cbn.
  pose proof (ci_reachable _ _ _ _ _ _ _ _ _ HI) as Hr. split.
  - pose proof (ev_next _ _ (mv_evolves _ _ _ _ _ (settle_moves _ _ policy _ _ _ _ _ _ E) Hr)). lia.
  - intros j. by eapply settled_not_live.
Qed.

Lemma touch_ok owed a id now :
  Inv_owing owed a → ∃ s', touch instant wall (tick (ac_jobs a)) id now = Some s' ∧
    moves (ac_jobs a) s'.
Proof.
  intros HI. destruct (call_ok (tick (ac_jobs a)) (OpTouch id now)) as [s' E]; [|done|].
  { eapply (mv_reachable _ _ _ _ _ (tick_moves _ _ _ _)), owing_reachable, HI. }
  exists s'. split; [exact E|]. etrans; [apply tick_moves|]. by eapply touch_moves.
Qed.

(** *** Launching *)

Lemma launch_one_work a id :
  (size (ac_cancellations (launch_one runners a id)) ≤ S (size (ac_cancellations a)))%nat ∧
  ac_jobs (launch_one runners a id) = ac_jobs a ∧
  ac_stopping (launch_one runners a id) = ac_stopping a ∧
  ac_returned (launch_one runners a id) = ac_returned a.
Proof.
  unfold launch_one. destruct (ac_requests a !! id) as [request|]; [|cbn; split_and!; [lia|done..]].
  destruct (begin_effect _ _ _ _); cbn; rewrite map_size_insert; split_and!; try done;
    case_match; cbn; lia.
Qed.

Lemma launch_one_inv owed ids a id :
  CoreInv instant wall policy owed (λ x, x ∈ id :: ids) (ac_jobs a) (ac_requests a)
    (ac_cancellations a) (ac_effects a) →
  let a' := launch_one runners a id in
  CoreInv instant wall policy owed (λ x, x ∈ ids) (ac_jobs a') (ac_requests a')
    (ac_cancellations a') (ac_effects a').
Proof.
  intros HI. unfold launch_one. destruct (ac_requests a !! id) as [request|] eqn:Hid.
  - destruct (begin_effect _ _ _ _) as [e|] eqn:He; cbn; (apply Core_launch; [done|]); [|done].
    apply Core_emit; [|done]. unfold begin_effect in He.
    destruct request; try done. case_match; [|done]. by injection He as <-.
  - cbn. by eapply Core_skip.
Qed.

Lemma launch_fold_inv owed ids a :
  CoreInv instant wall policy owed (λ x, x ∈ ids) (ac_jobs a) (ac_requests a)
    (ac_cancellations a) (ac_effects a) →
  Inv_owing owed (foldl (launch_one runners) a ids).
Proof.
  revert a. induction ids as [|id ids IH]; intros a HI; cbn [foldl].
  - destruct HI as [? ? ? ? ? ? Htr ? ?]. split; try done.
    intros x Hx. destruct (Htr x Hx) as [[?%elem_of_nil|?]|?]; [done|left; by right|by right].
  - by apply IH, launch_one_inv.
Qed.

Lemma launch_fold_work ids a :
  (size (ac_cancellations (foldl (launch_one runners) a ids)) ≤
     size (ac_cancellations a) + length ids)%nat ∧
  ac_jobs (foldl (launch_one runners) a ids) = ac_jobs a ∧
  ac_stopping (foldl (launch_one runners) a ids) = ac_stopping a ∧
  ac_returned (foldl (launch_one runners) a ids) = ac_returned a.
Proof.
  revert a. induction ids as [|id ids IH]; intros a; cbn [foldl length]; [split_and!; [lia|done..]|].
  destruct (IH (launch_one runners a id)) as (IH1 & -> & -> & ->).
  destruct (launch_one_work a id) as (H1 & -> & -> & ->). split_and!; [lia|done..].
Qed.

(** A launch starts the executor with the request that waited for it. *)
Lemma launch_one_kept a id x request :
  request_kept x request a → request_kept x request (launch_one runners a id).
Proof.
  unfold request_kept, launch_one. destruct (ac_requests a !! id) as [r|] eqn:Hid; [|done].
  set (b := match begin_effect _ _ _ _ with Some _ => _ | None => _ end).
  assert (ac_requests b = delete id (ac_requests a) ∧ ac_jobs b = ac_jobs a ∧
    ∀ e, e ∈ ac_effects a → e ∈ ac_effects b) as (Er & Ej & Ee).
  { unfold b. destruct (begin_effect _ _ _ _); cbn; split_and!; set_solver. }
  clearbody b. cbn. rewrite Er, Ej, elem_of_app. intros [Hx|[Hx|Hx]]; [|by auto..].
  destruct (decide (x = id)) as [->|Hne]; [|left; by rewrite lookup_delete_ne].
  right. left. right. apply list_elem_of_singleton. congruence.
Qed.

Lemma launch_kept a x request :
  request_kept x request a → request_kept x request (launch_started_setup_jobs runners a).
Proof.
  intros Hx. unfold launch_started_setup_jobs.
  change (take_started (ac_jobs a)) with (js_started (ac_jobs a), set_started (ac_jobs a) []).
  cbn zeta iota. generalize (js_started (ac_jobs a)). intros ids.
  assert (request_kept x request (set_actor_jobs a (set_started (ac_jobs a) []))) as Hx' by exact Hx.
  revert Hx'. generalize (set_actor_jobs a (set_started (ac_jobs a) [])).
  induction ids as [|id ids IH]; intros b Hb; [done|]. by apply IH, launch_one_kept.
Qed.

Lemma launch_acts a : acts a (launch_started_setup_jobs runners a).
Proof.
  unfold launch_started_setup_jobs.
  destruct (launch_fold_work (js_started (ac_jobs a)) (set_actor_jobs a (set_started (ac_jobs a) [])))
    as (Hw & Hj & Hs & Hr).
  change (take_started (ac_jobs a)) with (js_started (ac_jobs a), set_started (ac_jobs a) []).
  cbn zeta iota. split.
  - intros owed HI. apply launch_fold_inv. exact (Core_take _ _ _ _ _ _ _ _ HI).
  - intros Hc. rewrite Hj. split; [done|]. unfold work_left. rewrite Hj. cbn in *. lia.
  - done.
  - done.
  - intros owed id request _. apply launch_kept.
Qed.

Lemma launch_started_nil a : js_started (ac_jobs (launch_started_setup_jobs runners a)) = [].
Proof.
  unfold launch_started_setup_jobs.
  change (take_started (ac_jobs a)) with (js_started (ac_jobs a), set_started (ac_jobs a) []).
  by destruct (launch_fold_work (js_started (ac_jobs a))
    (set_actor_jobs a (set_started (ac_jobs a) []))) as (_ & -> & _).
Qed.

(** *** Cancelling *)

Lemma cancel_job_spec owed a id :
  Inv_owing owed a →
  ∃ r a', cancel_job_in_actor instant wall registry a id = Some (r, a') ∧ acts a a'.
Proof.
  intros HI. unfold cancel_job_in_actor. destruct (cancel_ok owed a id HI) as (r & s' & Heq).
  rewrite Heq. cbn [mbind option_bind]. pose proof (acts_moves a s' (cancel_moves _ _ _ _ _ _ _ Heq)).
  destruct r as [u|e]; [|by eexists _, _]. eexists _, _. split; [done|].
  etrans; [done|]. set (a1 := set_actor_jobs a s'). clearbody a1.
  destruct (ac_cancellations a1 !! id) eqn:Hc; [by apply acts_signal; eexists|].
  destruct (job_is _ _ _) eqn:Ht; [|done]. etrans; [by apply (acts_drop_request a1 id)|].
  etrans; [apply acts_kinds|]. case_bool_decide; [apply acts_registry|done].
Qed.

Lemma cancel_each_spec owed gone a :
  Inv_owing owed a →
  ∃ a', cancel_each instant wall registry a gone = Some a' ∧ acts a a'.
Proof.
  revert a. induction gone as [|[id line] gone IH]; intros a HI; cbn [cancel_each].
  { by exists a. }
  pose proof (acts_log a id line) as Hl.
  destruct (cancel_job_spec owed _ id (act_inv _ _ Hl _ HI)) as (r & a1 & -> & H1).
  cbn [mbind option_bind].
  destruct (IH a1) as (a2 & -> & H2); [by apply H1, Hl|].
  exists a2. split; [done|]. by rewrite Hl, H1.
Qed.

Lemma clients_gone_moves s sweep liveness : moves s (clients_gone instant s sweep liveness).2.
Proof.
  unfold clients_gone. destruct sweep; [|apply tick_moves].
  pose proof (orphaned_moves instant wall policy s liveness) as Hm.
  destruct (jobs_orphaned s liveness) as [out s1]. cbn in *. rewrite Hm. apply tick_moves.
Qed.

Lemma stall_sweep_spec owed a sweep :
  Inv_owing owed a → ∃ a', stall_sweep instant wall registry runners a sweep = Some a' ∧ acts a a'.
Proof.
  intros HI. unfold stall_sweep. destruct (sweep && _); [|by exists a].
  destruct runners as [[capacity activity]|]; [|by exists a].
  destruct (rc_stall_after capacity) as [after|]; [|by exists a].
  destruct (cancel_each_spec owed
    ((λ id, (id, stalled_line after)) <$> stalled (ac_jobs (read_clock a)) (now_of instant a)
       after (activity (ac_effects (read_clock a)))) (read_clock a)) as (a2 & -> & H2).
  - by apply acts_read.
  - exists a2. split; [done|]. by rewrite (acts_read a).
Qed.
Lemma sweeps_spec owed a liveness :
  Inv_owing owed a →
  ∃ a', sweeps instant wall registry runners a liveness = Some a' ∧ acts a a'.
Proof.
  intros HI. unfold sweeps. set (sweep := _ <=? _).
  set (a1 := if sweep then _ else _). assert (acts a a1) as H1.
  { unfold a1. etrans; [apply (acts_read a)|]. destruct sweep; [|done].
    etrans; [|apply acts_read]. apply acts_next_sweep. }
  clearbody a1. destruct (stall_sweep_spec owed a1 sweep) as (a2 & -> & H2); [by apply H1|].
  cbn [mbind option_bind]. unfold client_sweep.
  destruct (ac_stopping a2); [exists a2; split; [done|by rewrite H1]|].
  pose proof (clients_gone_moves (ac_jobs a2) sweep liveness) as Hm.
  destruct (clients_gone instant (ac_jobs a2) sweep liveness) as [gone s3]. cbn in Hm.
  apply acts_moves in Hm.
  destruct (cancel_each_spec owed gone (set_actor_jobs a2 s3)) as (a4 & -> & H4).
  { by apply Hm, H2, H1. }
  exists a4. split; [done|]. by rewrite H1, H2, Hm.
Qed.

(** *** Submissions *)

(** The scheduler's answer to a submission: a new job has the next ID, and a superseded job is
    never reported as such. *)
Lemma submit_result s w st d c :
  reachable instant wall policy s →
  (∃ r s', submit_class instant wall s w st d c = Some (r, s') ∧ moves s s' ∧
     match r with
     | Ok (SubStarted id) | Ok (SubQueued id) => id = js_next s ∧ id < js_next s'
     | Ok (SubSuperseded _ _) => False
     | _ => True
     end) ∨
  (submit_class instant wall s w st d c = None ∧ submit_hazard instant s (OpSubmit w st d c)).
Proof.
  intros Hr. pose proof (reachable_Inv _ _ _ _ Hr) as HI. destruct (js_closing s) eqn:Hc.
  { left. exists (Err Closing), s. unfold submit_class. by rewrite Hc. }
  pose proof (submit_class_spec instant wall s w st d c HI Hc) as Hs. cbn zeta in Hs.
  destruct (joinable s (w, st) d) as [id|] eqn:Hj; [left; by eexists (Ok (SubJoined id)), s|].
  destruct Hs as [(r & s' & Heq & [_ _ Hn (j & _ & _ & _ & _ & _ & ->) _])|[Heq Hh]].
  - left. eexists _, s'. split_and!; [exact Heq|by eapply submit_moves|].
    case_bool_decide; split; [done|lia|done|lia].
  - right. split; [exact Heq|]. by split.
Qed.

(** The request of a job just admitted is kept, and no other is lost. *)
Lemma add_request_kept owed a a' id request :
  Inv_owing owed a → id = js_next (ac_jobs a) →
  ac_requests a' = <[id := request]> (ac_requests a) → moves (ac_jobs a) (ac_jobs a') →
  (∀ e, e ∈ ac_effects a → e ∈ ac_effects a') →
  ∀ x r, request_kept x r a ∨ (x, r) = (id, request) → request_kept x r a'.
Proof.
  intros HI -> Er Hm Ee x r [Hx|[= -> ->]]; [|left; rewrite Er; apply lookup_insert_eq].
  destruct Hx as [Hx|[Hx|Hx]]; [left|right; left; by auto|right; right].
  - rewrite Er, lookup_insert_ne; [done|]. intros <-.
    pose proof (ci_requests _ _ _ _ _ _ _ _ _ HI (js_next (ac_jobs a)) ltac:(by eexists)). lia.
  - by apply (ended_moves _ _ _ (ci_reachable _ _ _ _ _ _ _ _ _ HI) Hm).
Qed.

(** The job a submission creates. *)
Definition created (r : result JobError Submission) : option Z :=
  match r with Ok (SubStarted id) | Ok (SubQueued id) => Some id | _ => None end.

Lemma submit_typed_spec owed a w st d c request what :
  Inv_owing owed a → (∀ r, request ≠ ReqEnsure r) →
  (∃ r a', submit_typed instant wall a w st d c request what = Some (r, a') ∧ acts a a' ∧
     ∀ r0 s0 id, submit_class instant wall (ac_jobs a) w st d c = Some (r0, s0) →
       created r0 = Some id → request_kept id request a') ∨
  (submit_typed instant wall a w st d c request what = None ∧
   submit_hazard instant (ac_jobs a) (OpSubmit w st d c)).
Proof.
  intros HI Hreq. unfold submit_typed.
  destruct (submit_result (ac_jobs a) w st d c (owing_reachable _ _ HI))
    as [(r & s' & -> & Hm & Hr)|[-> Hh]]; [left|by right].
  cbn [mbind option_bind]. pose proof (acts_moves a s' Hm) as Ha.
  assert (∀ id, id = js_next (ac_jobs a) → id < js_next s' →
    acts a (set_requests (set_actor_jobs a s') (<[id := request]> (ac_requests a)))) as Hadd.
  { intros id Hid Hlt. destruct Ha as [_ Hc Hs Hret _]. split; [|done..|].
    - intros o Ho. eapply Core_add_request; [exact Ho|done|done|done|].
      intros r0 ->. by destruct (Hreq r0).
    - intros o x r0 Ho Hx. eapply (add_request_kept o a _ id request); try done. by left. }
  destruct r as [[id|id|id|? ?]|e]; try done; eexists _, _; (split; [reflexivity|]); cbn;
    (split; [try done; by apply Hadd; destruct Hr|]); intros r0 s0 x [= <- <-]; try done;
    intros [= <-]; left; apply lookup_insert_eq.
Qed.

Lemma answer_acts r a : acts a (answer_submission runners r a).
Proof. unfold answer_submission. etrans; [|apply launch_acts]. apply acts_send. Qed.

Lemma own_acts a r owner : acts a (own_submission a r owner).
Proof. destruct r as [[id created]|e]; [|done]. apply acts_moves, own_moves. Qed.

Lemma lease_acts a r period : acts a (lease_submission instant a r period).
Proof.
  destruct r as [[id []]|e]; try done. destruct period as [p|]; [|done]. cbn.
  etrans; [apply acts_read|]. apply acts_moves, lease_moves.
Qed.

(** A setup ensure is accepted only with its submission in the audit trail. *)
Lemma submit_ensure_spec owed a request :
  Inv_owing owed a →
  (∃ a', on_submit_setup_ensure instant wall blake3_hex registry runners a request = Some a' ∧
     acts a a' ∧
     ∀ r0 s0 id, submit_class instant wall (ac_jobs a) (se_workspace request) "setup-ensure"
         (setup_ensure_digest blake3_hex request) Control = Some (r0, s0) →
       created r0 = Some id → request_kept id (ReqEnsure request) a') ∨
  (on_submit_setup_ensure instant wall blake3_hex registry runners a request = None ∧
   submit_hazard instant (ac_jobs a) (OpSubmit (se_workspace request) "setup-ensure"
     (setup_ensure_digest blake3_hex request) Control)).
Proof.
  intros HI. unfold on_submit_setup_ensure, submit.
  destruct (submit_result (ac_jobs a) (se_workspace request) "setup-ensure"
    (setup_ensure_digest blake3_hex request) Control (owing_reachable _ _ HI))
    as [(r & s' & Hsub & Hm & Hr)|[-> Hh]]; [left; rewrite Hsub|by right].
  cbn [mbind option_bind]. pose proof (acts_moves a s' Hm) as Ha.
  assert (∃ r' a', admit_ensure instant wall registry (set_actor_jobs a s') r request = Some (r', a')
    ∧ acts a a' ∧ ∀ id, created r = Some id → request_kept id (ReqEnsure request) a')
    as (r' & a' & -> & Ha' & Hk').
  { unfold admit_ensure. set (a1 := set_actor_jobs a s') in *.
    assert (∀ id, id = js_next (ac_jobs a) → id < js_next s' →
      ∃ r' a', match call_registry registry a1 (CallAppendEvents [event_submitted id request]) with
        | (Ok _, a2) =>
            let a2 := set_setup_kinds a2 (<[id := KindEnsure]> (ac_setup_kinds a2)) in
            Some (Ok id, set_requests a2 (<[id := ReqEnsure request]> (ac_requests a2)))
        | (Err e, a2) =>
            a2 ← settle_job instant wall a2 id false (Some audit_unavailable); Some (Err e, a2)
        end = Some (r', a') ∧ acts a a' ∧ request_kept id (ReqEnsure request) a') as Hnew.
    { intros id Hid Hlt. unfold call_registry.
      destruct (registry (ac_effects a1) _) as [[]|e] eqn:Hreg.
      - eexists _, _. split; [done|]. destruct Ha as [_ Hc Hs Hret _].
        split; [|left; apply lookup_insert_eq]. split; [|done..|].
        + intros o Ho. cbn. eapply Core_add_request; [by apply Core_emit|done|done|done|].
          intros r0 [= <-]. unfold audited. apply elem_of_app. right. by left.
        + intros o x r0 Ho Hx. eapply (add_request_kept o a _ id (ReqEnsure request)); try done; [|by left].
          intros e He. cbn. set_solver.
      - pose proof (acts_emit a1 (EfRegistry
          (CallAppendEvents [event_submitted id request]) (Err e)) eq_refl) as He.
        destruct (settle_ok owed (emit a1 (EfRegistry
          (CallAppendEvents [event_submitted id request]) (Err e))) id false
          (Some audit_unavailable)) as (a2 & Heq2 & H2); [by apply He, Ha|].
        rewrite Heq2. eexists _, a2. split; [done|]. split; [by rewrite Ha, He|].
        right. right. eapply settle_ended; [by apply He, Ha|exact Hlt|exact Heq2]. }
    destruct r as [[id|id|id|? ?]|e]; try done; cbn [created].
    - destruct (Hnew id) as (r' & a' & Heq' & Hx & Hy); [by destruct Hr..|].
      eexists _, _. split_and!; [exact Heq'|done|]. by intros ? [= <-].
    - destruct (Hnew id) as (r' & a' & Heq' & Hx & Hy); [by destruct Hr..|].
      eexists _, _. split_and!; [exact Heq'|done|]. by intros ? [= <-].
    - by eexists _, _.
    - by eexists _, _. }
  cbn [mbind option_bind]. eexists. split; [done|]. pose proof (answer_acts r' a') as Hans.
  split; [by rewrite Ha'|]. intros r0 s0 id Hsub0 Hid. assert (r0 = r) as -> by congruence.
  apply (act_kept _ _ Hans owed); [by apply Ha'|by apply Hk'].
Qed.

(** *** Executors reporting *)

(** A settlement pays what was owed. *)
Lemma settle_pays a id ok err :
  Inv_owing (λ x, x = id) a →
  ∃ a', settle_job instant wall a id ok err = Some a' ∧ acts a a' ∧ ActorInv a'.
Proof.
  intros HI. destruct (settle_ok _ a id ok err HI) as (a' & Heq & Ha). exists a'.
  split_and!; [done|done|]. unfold settle_job in Heq.
  destruct (settle_with_error _ _ _ _ _ _) as [[r s']|] eqn:E; [|done]. injection Heq as <-.
  eapply Core_settle; [exact E|exact HI].
Qed.

(** A report: the source is dropped, then the job settles. *)
Record reported (id : Z) (a a' : Actor) : Prop := {
  re_inv : ActorInv a';
  re_closing : js_closing (ac_jobs a) = true →
    js_closing (ac_jobs a') = true ∧
    (work_left a' + (if ac_cancellations a !! id then 1 else 0) ≤ work_left a)%nat;
  re_stopping : ac_stopping a' = ac_stopping a;
  re_returned : ac_returned a' = ac_returned a;
  re_kept : ∀ x request, request_kept x request a → request_kept x request a';
}.

Lemma reported_via id a a1 a' :
  ActorInv a →
  acts (set_cancellations a (delete id (ac_cancellations a))) a1 → acts a1 a' → ActorInv a' →
  reported id a a'.
Proof.
  intros H0 H1 H2 HI. destruct (transitivity H1 H2) as [_ Hc Hs Hr Hk].
  split; [done| |done|done|intros x r; by apply (Hk (λ x, x = id)), Core_drop_source].
  intros Hcl. destruct (Hc Hcl) as [? Hw]. split; [done|]. unfold work_left in *. cbn in Hw.
  rewrite map_size_delete in Hw. destruct (ac_cancellations a !! id) eqn:E; cbn in *; [|lia].
  assert (size (ac_cancellations a) ≠ 0%nat); [|lia].
  intros ?%map_size_empty_iff. by rewrite H3, lookup_empty in E.
Qed.

Lemma persisted_spec a id receipt :
  ActorInv a → ∃ a', persisted instant wall a id receipt = Some a' ∧ reported id a a'.
Proof.
  intros HI. unfold persisted. set (a0 := set_cancellations _ _).
  assert (Inv_owing (λ x, x = id) a0) as H0 by by apply Core_drop_source.
  pose proof (acts_log a0 id (bounded_log_line receipt)) as Hl.
  destruct (settle_pays (log_line instant a0 id (bounded_log_line receipt)) id true None)
    as (a' & -> & Ha & HI'); [by apply Hl|].
  exists a'. split; [done|]. by eapply reported_via.
Qed.

Lemma completed_spec a id kind res :
  ActorInv a →
  ∃ a', on_completed instant wall registry runners a id kind res = Some a' ∧ reported id a a'.
Proof.
  intros HI. unfold on_completed. set (a0 := set_cancellations _ _).
  assert (Inv_owing (λ x, x = id) a0) as H0 by by apply Core_drop_source.
  set (a1 := match runners with Some _ => _ | None => _ end).
  assert (acts a0 a1) as H1 by (unfold a1; destruct runners; [by apply acts_emit|done]).
  set (a2 := audit_completed registry a1 id kind res). assert (acts a1 a2) as H2.
  { unfold a2, audit_completed. case_bool_decide; [|done]. case_match; [apply acts_registry|done]. }
  assert (∃ a3, settle_completed instant wall a2 id kind res = Some a3 ∧ acts a0 a3 ∧ ActorInv a3)
    as (a3 & -> & H3 & HI3).
  { assert (∀ line ok err, ∃ a3, settle_job instant wall (log_line instant a2 id line) id ok err
      = Some a3 ∧ acts a0 a3 ∧ ActorInv a3) as Hs.
    { intros line ok err. pose proof (acts_log a2 id line) as Hl.
      destruct (settle_pays (log_line instant a2 id line) id ok err) as (a3 & -> & Ha & HI');
        [by apply Hl, H2, H1|].
      exists a3. split_and!; [done| |done]. by rewrite H1, H2, Hl. }
    destruct res; apply Hs. }
  cbn [mbind option_bind]. eexists. split; [done|]. case_match.
  - eapply reported_via; [done|exact H3|apply acts_kinds|exact HI3].
  - by eapply reported_via; [|exact H3|..].
Qed.

(** *** Stopping *)

Lemma signal_each_spec owed ids a :
  Inv_owing owed a → (∀ id, id ∈ ids → is_Some (ac_cancellations a !! id)) →
  ∃ a', signal_each instant wall a ids = Some a' ∧ acts a a' ∧
    (∀ id, id ∈ ids → ac_cancellations a' !! id = Some true) ∧
    (∀ id, id ∉ ids → ac_cancellations a' !! id = ac_cancellations a !! id).
Proof.
  revert a. induction ids as [|id ids IH]; intros a HI Hids; cbn [signal_each].
  { exists a. split_and!; [done..| |done]. by intros id ?%elem_of_nil. }
  destruct (cancel_ok owed a id HI) as (r & s' & Heq). rewrite Heq. cbn [mbind option_bind].
  pose proof (acts_moves a s' (cancel_moves _ _ _ _ _ _ _ Heq)) as H1.
  pose proof (acts_signal (set_actor_jobs a s') id (Hids id ltac:(by left))) as H2.
  destruct (IH (signal (set_actor_jobs a s') id)) as (a' & -> & H3 & Hin & Hout).
  - by apply H2, H1.
  - intros x Hx. cbn. destruct (decide (x = id)) as [->|Hne]; [by rewrite lookup_insert_eq|].
    rewrite lookup_insert_ne by done. apply Hids. by right.
  - exists a'. split_and!; [done|by rewrite H1, H2| |].
    + intros x [->|Hx]%elem_of_cons; [|by apply Hin].
      destruct (decide (id ∈ ids)) as [?|Hn]; [by apply Hin|].
      rewrite (Hout id Hn). cbn. by rewrite lookup_insert_eq.
    + intros x [Hne Hx]%not_elem_of_cons. rewrite (Hout x Hx). cbn.
      by rewrite lookup_insert_ne.
Qed.

Lemma stop_spec a :
  ActorInv a → ∃ a', on_stop instant wall registry a = Some a' ∧ ActorInv a' ∧
    js_closing (ac_jobs a') = true ∧
    (js_closing (ac_jobs a) = true → (work_left a' ≤ work_left a)%nat) ∧
    ac_stopping a' = true ∧ ac_returned a' = ac_returned a ∧
    (∀ id b, ac_cancellations a' !! id = Some b → b = true) ∧
    (∀ id, is_Some (ac_cancellations a' !! id) ↔ is_Some (ac_cancellations a !! id)) ∧
    (∀ id request, request_kept id request a → request_kept id request a').
Proof.
  intros HI. unfold on_stop.
  destruct (close_spec instant wall (ac_jobs a)) as (s' & Heq & _ & _ & Hcl & _).
  { eapply reachable_Inv, owing_reachable, HI. }
  rewrite Heq. cbn [mbind option_bind].
  pose proof (acts_moves a s' (close_moves _ _ _ _ _ Heq)) as H1.
  set (a1 := set_actor_jobs a s') in *. set (a2 := match cancelled_events a1 with [] => _ | _ => _ end).
  assert (acts a1 a2 ∧ ac_cancellations a2 = ac_cancellations a ∧ js_closing (ac_jobs a2) = true)
    as (H2 & Ec & Hc2).
  { unfold a2. destruct (cancelled_events a1); (split; [|done]); [done|apply acts_registry]. }
  clearbody a2. set (a3 := set_setup_kinds a2 _).
  destruct (signal_each_spec nobody (btree_keys Z.compare (ac_cancellations a3)) a3)
    as (a4 & -> & H4 & Hin & Hout).
  { by apply H2, H1. }
  { intros id. by rewrite elem_of_btree_keys. }
  cbn [mbind option_bind]. eexists. split; [done|].
  assert (acts a a4) as H.
  { etrans; [exact H1|]. etrans; [exact H2|]. etrans; [|exact H4]. apply acts_kinds. }
  assert (∀ id, is_Some (ac_cancellations a !! id) → ac_cancellations a4 !! id = Some true) as Hsig.
  { intros id Hid. apply Hin. rewrite elem_of_btree_keys. cbn. by rewrite Ec. }
  assert (∀ id, ac_cancellations a !! id = None → ac_cancellations a4 !! id = None) as Hnone.
  { intros id Hid. rewrite (Hout id); [cbn; by rewrite Ec|].
    rewrite elem_of_btree_keys. cbn. rewrite Ec, Hid. by intros []. }
  destruct (act_closing _ _ H4 Hc2) as [Hc4 _]. cbn [set_stopping ac_jobs ac_cancellations].
  split_and!; [exact (act_inv _ _ H nobody HI)|done| |done|by rewrite <-(act_returned _ _ H)| | |].
  - intros Hcl0. by destruct (act_closing _ _ H Hcl0).
  - intros id b Hb. destruct (ac_cancellations a !! id) as [b0|] eqn:E.
    + rewrite Hsig in Hb by (by eexists). congruence.
    + rewrite Hnone in Hb; [done|exact E].
  - intros id. split; [|intros Hid; rewrite (Hsig id Hid); by eexists].
    intros [b Hb]. destruct (ac_cancellations a !! id) eqn:E; [by eexists|].
    rewrite (Hnone id E) in Hb. done.
  - intros id request. exact (act_kept _ _ H nobody id request HI).
Qed.

(** *** Every command *)

(** What a submission asks the scheduler for. *)
Definition submission_of (command : JobCommand) : option jobs_op :=
  match command with
  | CmdSubmit w st d => Some (OpSubmit w st d Control)
  | CmdSubmitSetupPrepare r =>
      Some (OpSubmit (pr_workspace r) "setup-prepare" (setup_prepare_digest blake3_hex r) Control)
  | CmdSubmitSetupTask r =>
      Some (OpSubmit (st_workspace r) "setup-task" (setup_task_digest blake3_hex r) Runner)
  | CmdSubmitSetupAppTask r =>
      Some (OpSubmit (sa_workspace r) "setup-app-task" (setup_app_task_digest blake3_hex r) Runner)
  | CmdSubmitSetupEnsure r =>
      Some (OpSubmit (se_workspace r) "setup-ensure" (setup_ensure_digest blake3_hex r) Control)
  | CmdSubmitManifestEnsure r _ =>
      Some (OpSubmit (me_workspace r) ("manifest-ensure:" +:+ me_stack r)
        (manifest_ensure_digest blake3_hex r) Control)
  | CmdSubmitManifestConverge r =>
      Some (OpSubmit (mc_workspace r) "manifest-converge" (manifest_converge_digest blake3_hex r)
        Control)
  | CmdSubmitManifestAppTask r _ _ =>
      Some (OpSubmit (ma_workspace r) ("manifest-app-task:" +:+ ma_stack r)
        (manifest_app_task_digest blake3_hex r) Runner)
  | _ => None
  end.

(** The request of a typed submission. *)
Definition request_of (command : JobCommand) : option SetupJobRequest :=
  match command with
  | CmdSubmitSetupPrepare r => Some (ReqPrepare r)
  | CmdSubmitSetupTask r => Some (ReqTask r)
  | CmdSubmitSetupAppTask r => Some (ReqAppTask r)
  | CmdSubmitSetupEnsure r => Some (ReqEnsure r)
  | CmdSubmitManifestEnsure r _ => Some (ReqManifestEnsure r)
  | CmdSubmitManifestConverge r => Some (ReqManifestConverge r)
  | CmdSubmitManifestAppTask r _ _ => Some (ReqManifestAppTask r)
  | _ => None
  end.

(** The job a command creates, with its request. *)
Definition created_by (command : JobCommand) (a : Actor) : option (Z * SetupJobRequest) :=
  request ← request_of command;
  match submission_of command with
  | Some (OpSubmit w st d c) =>
      '(r, _) ← submit_class instant wall (ac_jobs a) w st d c;
      id ← created r; Some (id, request)
  | _ => None
  end.

Definition hazardous (command : JobCommand) (a : Actor) : Prop :=
  ∃ op, submission_of command = Some op ∧ submit_hazard instant (ac_jobs a) op.

Definition is_stop (command : JobCommand) : bool :=
  match command with CmdStop => true | _ => false end.

(** The executor a command reports the end of, if it has a source. *)
Definition releases (command : JobCommand) (a : Actor) : nat :=
  match command with
  | CmdCompleted id _ _ => if ac_cancellations a !! id then 1 else 0
  | _ => 0
  end.

Record handled (command : JobCommand) (a a' : Actor) : Prop := {
  ha_inv : ActorInv a';
  ha_closing : js_closing (ac_jobs a) = true →
    js_closing (ac_jobs a') = true ∧ (work_left a' + releases command a ≤ work_left a)%nat;
  ha_stopping : ac_stopping a' = ac_stopping a || is_stop command;
  ha_stop : is_stop command = true → js_closing (ac_jobs a') = true;
  ha_returned : ac_returned a' = ac_returned a;
  ha_kept : ∀ id request, request_kept id request a → request_kept id request a';
  ha_created : ∀ id request, created_by command a = Some (id, request) → request_kept id request a';
}.

Lemma handled_acts command a a' :
  ActorInv a → acts a a' → releases command a = 0%nat → is_stop command = false →
  (∀ id request, created_by command a = Some (id, request) → request_kept id request a') →
  handled command a a'.
Proof.
  intros HI [Hi Hc Hs Hr Hk] Hrel Hst Hnew.
  split; [by apply Hi| |by rewrite Hst, orb_false_r|by rewrite Hst|done|by eauto|done].
  intros Hcl. rewrite Hrel, Nat.add_0_r. by apply Hc.
Qed.

Lemma reported_handled command id a a' :
  reported id a a' → is_stop command = false → request_of command = None →
  (releases command a ≤ if ac_cancellations a !! id then 1 else 0)%nat → handled command a a'.
Proof.
  intros [Hi Hc Hs Hr Hk] Hst Hreq Hrel.
  split; [done| |by rewrite Hst, orb_false_r|by rewrite Hst|done|done|unfold created_by; by rewrite Hreq].
  intros Hcl. destruct (Hc Hcl). split; [done|]. lia.
Qed.

Lemma reported_acts id a a1 a' : reported id a a1 → acts a1 a' → reported id a a'.
Proof.
  intros [Hi Hc Hs Hr Hk] [Hi' Hc' Hs' Hr' Hk'].
  split; [by apply Hi'| |congruence|congruence|intros x r Hx; by apply (Hk' nobody), Hk].
  intros Hcl. destruct (Hc Hcl) as [Hcl1 ?]. destruct (Hc' Hcl1). split; [done|lia].
Qed.

Lemma on_log_acts a id lines : acts a (on_log instant a id lines).
Proof.
  revert a. induction lines as [|line lines IH]; intros a; cbn [on_log]; [done|].
  etrans; [|apply IH]. apply acts_log.
Qed.

Lemma submit_handled a w st d :
  ActorInv a →
  (∃ a', on_submit instant wall a w st d = Some a' ∧ acts a a') ∨
  (on_submit instant wall a w st d = None ∧
   submit_hazard instant (ac_jobs a) (OpSubmit w st d Control)).
Proof.
  intros HI. unfold on_submit, submit.
  destruct (submit_result (ac_jobs a) w st d Control (owing_reachable _ _ HI))
    as [(r & s' & -> & Hm & _)|[-> Hh]]; [left|by right].
  eexists. split; [done|]. etrans; [apply (acts_moves a s' Hm)|apply acts_send].
Qed.

Lemma persist_spec a id receipt (call : registry_call) (kinds : Actor → gmap Z SetupJobKind)
    (text : Error → string) (refused : string) :
  ActorInv a →
  ∃ a', (if is_job_running a id then
           match call_registry registry a call with
           | (Ok _, a) =>
               a ← persisted instant wall (set_setup_kinds a (kinds a)) id receipt;
               Some (send a (ReplyPersist (Ok ())))
           | (Err e, a) => Some (send a (ReplyPersist (Err (text e))))
           end
         else Some (send a (ReplyPersist (Err refused)))) = Some a' ∧
    ActorInv a' ∧ (js_closing (ac_jobs a) = true →
      js_closing (ac_jobs a') = true ∧ (work_left a' ≤ work_left a)%nat) ∧
    ac_stopping a' = ac_stopping a ∧ ac_returned a' = ac_returned a ∧
    (∀ x request, request_kept x request a → request_kept x request a').
Proof.
  intros HI. assert (∀ a', acts a a' → ActorInv a' ∧ (js_closing (ac_jobs a) = true →
      js_closing (ac_jobs a') = true ∧ (work_left a' ≤ work_left a)%nat) ∧
    ac_stopping a' = ac_stopping a ∧ ac_returned a' = ac_returned a ∧
    (∀ x request, request_kept x request a → request_kept x request a')) as Hacts.
  { intros a' [Hi Hc Hs Hr Hk]. split_and!; [by apply Hi|done..|by eauto]. }
  destruct (is_job_running a id); [|eexists; split; [done|apply Hacts, acts_send]].
  pose proof (acts_registry a call) as H1.
  destruct (call_registry registry a call) as [[u|e] a1] eqn:E; cbn in H1.
  - assert (acts a (set_setup_kinds a1 (kinds a1))) as H2 by (etrans; [exact H1|apply acts_kinds]).
    destruct (persisted_spec _ id receipt (act_inv _ _ H2 nobody HI)) as (a2 & -> & Hrep).
    cbn [mbind option_bind]. eexists. split; [done|].
    destruct (reported_acts _ _ _ _ Hrep (acts_send a2 (ReplyPersist (Ok ())))) as [Hi Hc Hs Hr Hk].
    destruct H2 as [_ Hc2 Hs2 Hr2 Hk2]. split_and!; [done| |congruence|congruence|by eauto].
    intros Hcl. destruct (Hc2 Hcl) as [Hcl2 ?]. destruct (Hc Hcl2). split; [done|lia].
  - eexists. split; [done|]. apply Hacts. etrans; [exact H1|apply acts_send].
Qed.

(** Every command succeeds and is [handled], but for a hazardous submission. *)
Lemma handle_spec a command :
  ActorInv a →
  (∃ a', handle instant wall blake3_hex registry runners a command = Some a' ∧
     handled command a a') ∨
  (handle instant wall blake3_hex registry runners a command = None ∧ hazardous command a).
Proof.
  intros HI.
  assert (∀ w st d c request what k, (∀ r, request ≠ ReqEnsure r) →
    submission_of command = Some (OpSubmit w st d c) → request_of command = Some request →
    is_stop command = false →
    releases command a = 0%nat → (∀ r a1, acts a1 (k r a1)) →
    (∃ a', ('(r, a1) ← submit_typed instant wall a w st d c request what; Some (k r a1)) = Some a' ∧
       handled command a a') ∨
    (('(r, a1) ← submit_typed instant wall a w st d c request what; Some (k r a1)) = None ∧
     hazardous command a)) as Htyped.
  { intros w st d c request what k Hreq Hsub Hof Hst Hrel Hk.
    destruct (submit_typed_spec nobody a w st d c request what HI Hreq)
      as [(r & a1 & -> & H1 & Hnew)|[-> Hh]]; [left|right; split; [done|by eexists]].
    cbn [mbind option_bind]. eexists. split; [done|].
    apply handled_acts; [done|etrans; [exact H1|apply Hk]|done|done|].
    unfold created_by. rewrite Hof, Hsub. cbn [mbind option_bind]. intros id r0.
    destruct (submit_class _ _ _ _ _ _ _) as [[r1 s1]|] eqn:E; [|done]. cbn [mbind option_bind].
    destruct (created r1) as [x|] eqn:Ec; [|done]. intros [= <- <-].
    apply (act_kept _ _ (Hk r a1) nobody); [by apply H1|by eapply Hnew]. }
  assert (∀ a', acts a a' → is_stop command = false → releases command a = 0%nat →
    request_of command = None → ∃ a'', Some a' = Some a'' ∧ handled command a a'') as Hplain.
  { intros a' Ha Hst Hrel Hof. eexists. split; [done|]. apply handled_acts; try done.
    unfold created_by. by rewrite Hof. }
  destruct command; cbn [handle].
  - destruct (submit_handled a workspace stack digest HI) as [(a' & -> & Ha)|[-> Hh]];
      [left; by apply Hplain|right; split; [done|by eexists]].
  - left. unfold on_status. destruct (touch_ok nobody a id (now_of instant a) HI) as (s' & -> & Hm).
    cbn [mbind option_bind]. apply Hplain; [|done..].
    etrans; [by apply acts_moves|apply acts_send].
  - left. unfold on_cancel. destruct (cancel_job_spec nobody a id HI) as (r & a' & -> & Ha).
    cbn [mbind option_bind]. apply Hplain; [|done..]. etrans; [exact Ha|apply acts_send].
  - left. unfold on_logs. destruct (touch_ok nobody a id (now_of instant a) HI) as (s' & -> & Hm).
    cbn [mbind option_bind]. apply Hplain; [|done..].
    etrans; [by apply acts_moves|apply acts_send].
  - apply Htyped; try done. intros r a1. apply answer_acts.
  - apply Htyped; try done. intros r a1. apply answer_acts.
  - apply Htyped; try done. intros r a1. apply answer_acts.
  - destruct (submit_ensure_spec nobody a request HI) as [(a' & -> & Ha & Hnew)|[-> Hh]];
      [left|right; split; [done|by eexists]].
    eexists. split; [done|]. apply handled_acts; try done. unfold created_by.
    cbn [request_of submission_of mbind option_bind]. intros id r0.
    destruct (submit_class _ _ _ _ _ _ _) as [[r1 s1]|]; [|done]. cbn [mbind option_bind].
    destruct (created r1) as [x|] eqn:Ec; [|done]. intros [= <- <-]. by eapply Hnew.
  - apply Htyped; try done. intros r a1. etrans; [apply own_acts|apply answer_acts].
  - apply Htyped; try done. intros r a1. apply answer_acts.
  - apply Htyped; try done. intros r a1. etrans; [apply lease_acts|].
    etrans; [apply own_acts|apply answer_acts].
  - left. destruct (persist_spec a id receipt (CallRecordSetupEnsure id receipt)
      (λ a, delete id (ac_setup_kinds a))
      (λ e, "setup ensure registry recording failed: " +:+ error_text e)
      "setup ensure cancelled" HI) as (a' & Heq & Hi & Hc & Hs & Hr & Hk).
    exists a'. split; [exact Heq|]. split; [done| |by rewrite orb_false_r|done..].
    cbn. by rewrite Nat.add_0_r.
  - left. destruct (persist_spec a id receipt (CallRecordManifestEnsure id receipt) ac_setup_kinds
      (λ e, "manifest ensure registry recording failed: " +:+ error_text e)
      "manifest ensure cancelled" HI) as (a' & Heq & Hi & Hc & Hs & Hr & Hk).
    exists a'. split.
    { unfold on_persist_manifest_ensure. rewrite <-Heq. destruct (is_job_running a id); [|done].
      by destruct (call_registry registry a _) as [[] []]. }
    split; [done| |by rewrite orb_false_r|done..]. cbn. by rewrite Nat.add_0_r.
  - left. apply Hplain; [|done..]. unfold on_persist_manifest_converge_stack.
    destruct (is_job_running a id); [|apply acts_send].
    pose proof (acts_registry a (CallRecordManifestEnsure id receipt)) as H1.
    destruct (call_registry registry a _) as [answer a1]. etrans; [exact H1|apply acts_send].
  - left. apply Hplain; [|done..]. apply on_log_acts.
  - left. destruct (completed_spec a id kind result HI) as (a' & -> & Hrep). exists a'.
    split; [done|]. by eapply reported_handled.
  - left. apply Hplain; [|done..]. apply acts_send.
  - left. apply Hplain; [|done..]. apply acts_send.
  - left. destruct (stop_spec a HI) as (a' & -> & Hi & Hcl & Hw & Hs & Hr & _ & _ & Hk). exists a'.
    split; [done|]. split; [done| |by rewrite orb_true_r|done..].
    intros Hcl0. split; [done|]. cbn. rewrite Nat.add_0_r. by apply Hw.
Qed.
End spec.
