(* ===== verification/JobLoopTheorems.v ===== *)
(** * What the job actor guarantees

    The job actor composed with the scheduler: every state it reaches keeps the scheduler's
    guarantees, each executor is launched once and can be cancelled, stopping terminates, and
    three behaviours that its comments do not intend. *)

From S2P Require Export JobLoopSpec.

Local Open Scope string_scope.
Local Open Scope list_scope.
Local Open Scope Z_scope.
Local Open Scope bosn_scope.

(** ** Reachable states *)

Section reachable.
Context (instant wall : nat → Z) (blake3_hex : string → string).
Context (registry : list effect → registry_call → result Error unit).
Context (runners : option (RunnerCapacity * (list effect → Z → option Z))).
Context (policy : SchedulerPolicy).

Notation step := (actor_step instant wall blake3_hex registry runners).
Notation run := (actor_run instant wall blake3_hex registry runners).

Inductive actor_reachable : Actor → Prop :=
| actor_start now : actor_reachable (Actor_new (with_policy policy) now)
| actor_next a i a' : actor_reachable a → step a i = Some a' → actor_reachable a'.

(** Between iterations: a stopping actor's scheduler is closing and an executor is still out;
    an open actor has launched everything that was admitted. *)
Record LoopInv (a : Actor) : Prop := {
  lo_inv : ActorInv instant wall policy a;
  lo_closing : ac_stopping a = true → js_closing (ac_jobs a) = true;
  lo_launched : ac_stopping a = false → ac_returned a = false → js_started (ac_jobs a) = [];
  lo_waiting : ac_stopping a = true → ac_returned a = false → ac_cancellations a ≠ ∅;
}.

Lemma LoopInv_start now : LoopInv (Actor_new (with_policy policy) now).
Proof.
  split; try done. split; cbn; try done; [constructor|constructor|..].
  - by intros id ?%elem_of_nil.
  - by intros id [? ?].
  - by intros id [? ?].
  - intros [|? ?]; done.
Qed.

Lemma finish_iteration_spec a :
  ActorInv instant wall policy a → (ac_stopping a = true → js_closing (ac_jobs a) = true) →
  ac_returned a = false →
  let a' := finish_iteration runners a in
  LoopInv a' ∧ ac_stopping a' = ac_stopping a ∧
  (ac_stopping a = true → work_left a' = work_left a) ∧
  (∀ id request, request_kept id request a → request_kept id request a').
Proof.
  intros HI Hc Hr. unfold finish_iteration. destruct (ac_stopping a) eqn:Hs.
  - assert (acts instant wall policy a (send (emit a EfJoinTasks) ReplyStopped)) as Ha
      by exact (acts_trans _ _ _ _ _ _ (acts_emit _ _ _ a EfJoinTasks eq_refl) (acts_send _ _ _ _ _)).
    case_bool_decide as He.
    + split; [|split_and!; [done..|intros id r; exact (act_kept _ _ _ _ _ Ha nobody id r HI)]].
      split; [exact (act_inv _ _ _ _ _ Ha nobody HI)|by auto|by cbn|by cbn].
    + split; [|by split_and!]. split; rewrite ?Hs; by auto.
  - pose proof (launch_acts instant wall runners policy a) as Ha.
    split; [|split_and!; [by rewrite (act_stopping _ _ _ _ _ Ha)|done|
      intros id r; exact (act_kept _ _ _ _ _ Ha nobody id r HI)]].
    pose proof (act_stopping _ _ _ _ _ Ha) as Hs'. rewrite Hs in Hs'.
    split; [by apply Ha|by rewrite Hs'|by intros; apply launch_started_nil|by rewrite Hs'].
Qed.

(** A stopping actor sweeps nothing. *)
Lemma sweeps_stopping a liveness a1 :
  ac_stopping a = true → sweeps instant wall registry runners a liveness = Some a1 →
  ac_cancellations a1 = ac_cancellations a.
Proof.
  intros Hs. unfold sweeps. set (sweep := _ <=? _). set (a0 := if sweep then _ else _).
  assert (ac_stopping a0 = true ∧ ac_cancellations a0 = ac_cancellations a) as [Hs0 E0]
    by (unfold a0; by destruct sweep).
  clearbody a0. unfold stall_sweep, client_sweep. rewrite Hs0, andb_false_r.
  cbn [mbind option_bind]. rewrite Hs0. by intros [= <-].
Qed.

(** The executor an iteration reports the end of. *)
Definition released (a : Actor) (i : iteration) : nat :=
  if ac_returned a then 0%nat
  else match it_received i with Received command => releases command a | _ => 0%nat end.

(** The job an iteration's submission creates, with its request. *)
Definition submitted (a : Actor) (i : iteration) : option (Z * SetupJobRequest) :=
  if ac_returned a then None
  else match it_received i with
       | Received command =>
           a1 ← sweeps instant wall registry runners (read_clock a) (it_liveness i);
           created_by instant wall blake3_hex command a1
       | _ => None
       end.

(** One iteration succeeds or meets the scheduler's hazard. *)
Lemma step_spec a i :
  LoopInv a →
  (∃ a', step a i = Some a' ∧ LoopInv a' ∧
     (ac_stopping a = true → ac_stopping a' = true ∧
        (work_left a' + released a i ≤ work_left a)%nat) ∧
     (∀ id request, request_kept id request a ∨ submitted a i = Some (id, request) →
        request_kept id request a')) ∨
  (step a i = None ∧ ac_returned a = false ∧ ∃ command a1, it_received i = Received command ∧
     sweeps instant wall registry runners (read_clock a) (it_liveness i) = Some a1 ∧
     hazardous instant blake3_hex command a1).
Proof.
  intros HL. unfold actor_step, released, submitted. destruct (ac_returned a) eqn:Hr.
  { left. exists a. split; [done|]. split; [done|]. split; [|by intros id r [?|?]].
    intros Hs. split; [done|]. lia. }
  destruct HL as [HI Hc Hl Hw].
  pose proof (acts_read instant wall policy a) as H0.
  destruct (sweeps_spec instant wall registry runners policy nobody (read_clock a)
    (it_liveness i)) as (a1 & Hsw & H1); [by apply H0|].
  assert (acts instant wall policy a a1) as Ha by (eapply acts_trans; eassumption).
  destruct Ha as [Hi1 Hc1 Hs1 Hr1 Hk1].
  assert (ac_stopping a1 = true → js_closing (ac_jobs a1) = true) as Hc1'.
  { intros Hs. apply Hc1, Hc. by rewrite <-Hs1. }
  destruct (it_received i) as [command| | ].
  - rewrite Hsw. cbn [mbind option_bind].
    destruct (handle_spec instant wall blake3_hex registry runners policy a1 command (Hi1 _ HI))
      as [(a2 & -> & [Hi2 Hc2 Hs2 Hst2 Hr2 Hk2 Hnew2])|[-> Hh]]; [left|].
    2: { right. split_and!; [done|done|]. by eexists _, a1. }
    cbn [mbind option_bind]. eexists. split; [done|].
    assert (ac_stopping a2 = true → js_closing (ac_jobs a2) = true) as Hc2'.
    { rewrite Hs2. intros [Hs|Hs]%orb_true_iff; [|by apply Hst2]. by apply Hc2, Hc1'. }
    destruct (finish_iteration_spec a2 Hi2 Hc2' ltac:(congruence)) as (HL & Hs3 & Hw3 & Hk3).
    split; [exact HL|]. split; [|intros id r [Hx|Hx]; apply Hk3; by eauto]. intros Hs.
    assert (ac_stopping a2 = true) as Hs2' by (rewrite Hs2, Hs1, Hs; done).
    rewrite Hs3, (Hw3 Hs2'). split; [done|].
    destruct (Hc1 (Hc Hs)) as [Hcl1 ?]. destruct (Hc2 Hcl1) as [_ Hw2].
    assert (ac_cancellations a1 = ac_cancellations a) as Ec
      by exact (sweeps_stopping (read_clock a) _ _ Hs Hsw).
    unfold releases in *. rewrite Ec in Hw2. lia.
  - rewrite Hsw. left. eexists. split; [done|].
    destruct (finish_iteration_spec a1 (Hi1 _ HI) Hc1' ltac:(congruence)) as (HL & Hs3 & Hw3 & Hk3).
    split; [exact HL|]. split; [|intros id r [Hx|Hx]; [apply Hk3; by eauto|done]].
    intros Hs. rewrite Hs3, Hs1. split; [done|].
    rewrite Hw3 by congruence. destruct (Hc1 (Hc Hs)). lia.
  - left. eexists. split; [done|]. split; [split; try done; by apply H0|].
    split; [|intros id r [Hx|Hx]; [exact (act_kept _ _ _ _ _ H0 nobody id r HI Hx)|done]].
    intros Hs. split; [done|]. unfold work_left. cbn. lia.
Qed.

Lemma reachable_LoopInv a : actor_reachable a → LoopInv a.
Proof.
  induction 1 as [now|a i a' _ IH Hstep]; [apply LoopInv_start|].
  destruct (step_spec a i IH) as [(a1 & E & HL & _)|[E _]]; congruence.
Qed.

Lemma run_reachable a inputs a' : actor_reachable a → run a inputs = Some a' → actor_reachable a'.
Proof.
  revert a. induction inputs as [|i inputs IH]; intros a Hr; cbn; [by intros [= <-]|].
  destruct (step a i) as [a1|] eqn:E; [|done]. cbn. apply IH. by econstructor.
Qed.









(** *** The lease sweep *)

Lemma cancel_admission s id r s' :
  Inv ∅ s → cancel instant wall s id = Some (r, s') → admission s s'.
Proof.
  intros HI. unfold cancel. destruct (js_jobs s !! id) as [j|] eqn:Hj; [|by intros [= _ <-]].
  destruct (terminal (j_state j)) eqn:Ht; [by intros [= _ <-]|]. case_bool_decide as Hr.
  - intros [= _ <-]. split; [|..|done|done|done].
    + eapply evolves_replace; [done| |done|done..]. split; try done; by rewrite Hr.
    + unfold queued_total. cbn. rewrite map_total_insert, Hj. cbn. rewrite Hr.
      change (is_queued Cancelling) with false. change (is_queued Running) with false. lia.
  - unfold finish. destruct (finish_at_spec instant wall ∅ (tick s) id j Cancelled (Some "cancelled")
      (instant_now instant s)) as (s1 & Heq & _ & Hadm & _); [by apply Inv_tick|done|done|done|by destruct (j_state j)|].
    rewrite Heq. intros [= _ <-]. by destruct Hadm as [[] ? ? ? ?].
Qed.
(** A job that was cancelled no longer waits. *)
Lemma cancel_not_queued s id r s' :
  Inv ∅ s → id < js_next s → cancel instant wall s id = Some (r, s') →
  id < js_next s' ∧ ∀ j, js_jobs s' !! id = Some j → j_state j ≠ Queued.
Proof.
  intros HI Hid Hc. destruct (cancel_spec instant wall s id HI) as (r0 & s0 & Heq & _ & _ & _ & Hn & Hout).
  rewrite Hc in Heq. injection Heq as -> ->. split; [by rewrite Hn|]. intros j' Hj'.
  destruct (js_jobs s !! id) as [j|] eqn:Hj; [|destruct Hout as [_ ->]; congruence].
  destruct (terminal (j_state j)) eqn:Ht; [destruct Hout as [_ ->]|].
  - assert (j' = j) as -> by congruence. intros E. by rewrite E in Ht.
  - destruct Hout as [_ Hout]. case_bool_decide; [|by destruct (Hout j' Hj') as [-> _]].
    rewrite Hout, lookup_insert_eq in Hj'. by injection Hj' as <-.
Qed.
Lemma cancel_job_jobs a id r a' :
  cancel_job_in_actor instant wall registry a id = Some (r, a') →
  ∃ r', cancel instant wall (ac_jobs a) id = Some (r', ac_jobs a').
Proof.
  unfold cancel_job_in_actor. destruct (cancel _ _ _ _) as [[r' s']|]; [|done]. cbn [mbind option_bind].
  intros Heq. exists r'. do 2 f_equal. destruct r'; [|by injection Heq as _ <-]. injection Heq as _ <-.
  cbn [ac_cancellations set_actor_jobs]. case_match; [done|]. case_match; [|done]. by case_match.
Qed.
(** After a sweep cancelled the jobs of [gone], they do not wait, and no job that was spared is
    any worse. *)
Lemma cancel_each_spares now gone a a' :
  Inv ∅ (ac_jobs a) → Forall (λ e : Z * string, e.1 < js_next (ac_jobs a)) gone →
  cancel_each instant wall registry a gone = Some a' →
  (∀ x, x ∈ gone.*1 ∨ spared (ac_jobs a) now x → spared (ac_jobs a') now x)
  ∧ js_next (ac_jobs a') = js_next (ac_jobs a).
Proof.
  intros HI Hg. revert a HI Hg. induction gone as [|[id line] gone IH]; intros a HI Hg; cbn [cancel_each].
  { intros [= <-]. split; [|done]. by intros x [?%not_elem_of_nil|?]. }
  destruct (cancel_job_in_actor _ _ _ _ id) as [[r a1]|] eqn:Hc; [|done]. cbn [mbind option_bind].
  apply cancel_job_jobs in Hc as [r' Hc]. apply Forall_cons in Hg as [Hid Hg]. cbn in Hid.
  set (s1 := ac_jobs (log_line instant a id line)) in Hc.
  pose proof (Inv_log instant _ _ id line HI) as HI1. fold s1 in HI1.
  pose proof (admission_log instant (ac_jobs a) id line) as Hadm1. fold s1 in Hadm1.
  pose proof (cancel_admission _ _ _ _ HI1 Hc) as Hadm2.
  destruct (cancel_not_queued _ _ _ _ HI1 ltac:(rewrite (ad_next _ _ Hadm1); exact Hid) Hc) as [Hid2 Hnq].
  destruct (cancel_spec instant wall s1 id HI1) as (r0 & s0 & Heq & HI2 & _). rewrite Hc in Heq. injection Heq as -> <-.
  intros Heach. destruct (IH a1 HI2) as [Hs Hn]; [|done|].
  { eapply Forall_impl; [exact Hg|]. intros e He. by rewrite (ad_next _ _ Hadm2), (ad_next _ _ Hadm1). }
  split; [|by rewrite Hn, (ad_next _ _ Hadm2), (ad_next _ _ Hadm1)].
  intros x Hx. apply Hs. rewrite fmap_cons, elem_of_cons in Hx. cbn in Hx.
  destruct Hx as [[->|Hx]|Hx]; [right; by right|by left|right]. by eapply spared_antitone, spared_antitone.
Qed.
Lemma add_gone_mono gone id x : x ∈ gone.*1 → x ∈ (add_gone gone id).*1.
Proof. unfold add_gone. destruct (forallb _ _); [|done]. rewrite fmap_app, elem_of_app. by left. Qed.
Lemma add_gone_new gone id : id ∈ (add_gone gone id).*1.
Proof.
  unfold add_gone. destruct (forallb _ _) eqn:E; [rewrite fmap_app, elem_of_app; right; left|].
  apply not_true_iff_false in E. rewrite forallb_forall in E. apply list_elem_of_fmap.
  destruct (decide (Exists (λ e : Z * string, e.1 = id) gone)) as [(e & He & Heq)%Exists_exists|Hno]; [by exists e|].
  destruct E. intros e He%list_elem_of_In. apply negb_true_iff, Z.eqb_neq. intros Heq. apply Hno, Exists_exists. eauto.
Qed.
Lemma add_gone_all ids gone x :
  x ∈ ids ∨ x ∈ gone.*1 → x ∈ (foldl add_gone gone ids).*1.
Proof.
  revert gone. induction ids as [|id ids IH]; intros gone Hx; cbn.
  { by destruct Hx as [?%not_elem_of_nil|?]. }
  apply IH. destruct Hx as [[->|?]%elem_of_cons|?]; [right; apply add_gone_new|by left|right; by apply add_gone_mono].
Qed.
Lemma add_gone_sub ids gone x :
  x ∈ (foldl add_gone gone ids).*1 → x ∈ ids ∨ x ∈ gone.*1.
Proof.
  revert gone. induction ids as [|id ids IH]; intros gone Hx; cbn in Hx; [by right|].
  apply IH in Hx as [?|Hx]; [left; by right|]. unfold add_gone in Hx. destruct (forallb _ _); [|by right].
  rewrite fmap_app, elem_of_app in Hx. destruct Hx as [?|Hx]; [by right|]. left.
  apply list_elem_of_singleton in Hx as ->. left.
Qed.

(** The time the lease sweep of this iteration goes by: its last clock read before it cancels. *)
Definition lease_sweep_at (a : Actor) (liveness : history → ClientOwner → Liveness) : option Z :=
  let sweep := ac_next_sweep a <=? now_of instant a in
  let a := read_clock a in
  let a := if sweep then read_clock (set_next_sweep a (now_of instant a + LEASE_SWEEP_INTERVAL)) else a in
  a ← stall_sweep instant wall registry runners a sweep;
  Some (instant_now instant (if sweep then (jobs_orphaned (ac_jobs a) liveness).2 else ac_jobs a)).

Lemma expired_or_spared s now x :
  x < js_next s → x ∈ expired_leases s now ∨ spared s now x.
Proof.
  intros Hx. unfold spared, lease_lapsed. destruct (js_leases s !! x) as [l|] eqn:Hl; [|by right; left].
  cbn. destruct (_ <? _) eqn:Hlap; [|by right; left]. destruct (job_is s x is_queued_or_running) eqn:Hj.
  - left. unfold expired_leases. apply list_elem_of_fmap. exists (x, l). split; [done|].
    apply elem_of_filterb. cbn. rewrite Hlap, Hj. split; [done|]. by apply elem_of_btree_iter.
  - right. right. split; [done|]. intros j Hjx Hq. unfold job_is in Hj. rewrite Hjx in Hj. cbn in Hj. by rewrite Hq in Hj.
Qed.
Lemma job_is_next held s x p : Inv held s → job_is s x p = true → x < js_next s.
Proof.
  intros HI Hj. unfold job_is in Hj. destruct (js_jobs s !! x) as [j|] eqn:Hjx; [|done].
  exact (jo_next _ _ _ _ (inv_job _ _ HI x j Hjx)).
Qed.
(** After the lease sweep no waiting job's lease had lapsed at its time. *)
Lemma client_sweep_spares a sweep liveness a' x :
  ac_stopping a = false → Inv ∅ (ac_jobs a) →
  client_sweep instant wall registry a sweep liveness = Some a' → x < js_next (ac_jobs a') →
  spared (ac_jobs a') (instant_now instant (if sweep then (jobs_orphaned (ac_jobs a) liveness).2 else ac_jobs a)) x.
Proof.
  intros Hs HI Hc Hx. unfold client_sweep in Hc. rewrite Hs in Hc. unfold clients_gone in Hc.
  set (s := if sweep then _ else _). set (now := instant_now instant s).
  assert (∃ gone, Forall (λ e : Z * string, e.1 < js_next s) gone ∧ js_next s = js_next (ac_jobs a) ∧ Inv ∅ s ∧
    cancel_each instant wall registry (set_actor_jobs a (tick s))
      (foldl add_gone gone (expired_leases (tick s) now)) = Some a') as (gone & Hg & _ & HIs & Heach).
  { destruct sweep.
    - unfold s, now, s, jobs_orphaned in *. destruct (orphaned _ _ _) as [[out owned] ?] eqn:Ho.
      eexists. split_and!; [|done| |exact Hc].
      + apply Forall_fmap, Forall_forall. intros e [He _]%elem_of_filterb. cbn. by eapply job_is_next.
      + assert (jobs_step instant wall (ac_jobs a) (OpOrphaned liveness) = Some (set_owners (ac_jobs a) owned)) as Hstep
          by (cbn; unfold jobs_orphaned; by rewrite Ho).
        destruct (jobs_step_spec instant wall _ (OpOrphaned liveness) HI) as [(s1 & E & HI1 & _)|[E _]]; [|done].
        rewrite Hstep in E. by injection E as ->.
    - exists []. by split_and!. }
  destruct (cancel_each_spares now (foldl add_gone gone (expired_leases (tick s) now))
    (set_actor_jobs a (tick s)) a' (Inv_tick _ _ HIs)) as [Hsp Hn]; [|exact Heach|].
  { apply Forall_forall. intros e He. cbn.
    assert (e.1 ∈ (foldl add_gone gone (expired_leases (tick s) now)).*1) as Hin by by apply list_elem_of_fmap_2.
    apply add_gone_sub in Hin as [Hin|Hin].
    - unfold expired_leases in Hin. apply list_elem_of_fmap in Hin as (e' & -> & [[_ Hj]%andb_true_iff _]%elem_of_filterb).
      by eapply (job_is_next ∅ (tick s)); [apply Inv_tick|].
    - apply list_elem_of_fmap in Hin as (e' & -> & Hin). rewrite Forall_forall in Hg. by apply Hg. }
  rewrite Hn in Hx. apply Hsp. destruct (expired_or_spared (tick s) now x Hx); [left; apply add_gone_all; by left|by right].
Qed.
(** The sweeps of an iteration leave no waiting job whose lease had lapsed at their time. *)
Lemma swept_spares a liveness a1 x :
  ActorInv instant wall policy a → ac_stopping a = false →
  sweeps instant wall registry runners a liveness = Some a1 → x < js_next (ac_jobs a1) →
  ∃ swept, lease_sweep_at a liveness = Some swept ∧ spared (ac_jobs a1) swept x.
Proof.
  intros HI Hs. unfold sweeps, lease_sweep_at. set (sweep := _ <=? _). set (a0 := if sweep then _ else _).
  assert (acts instant wall policy a a0) as H0.
  { unfold a0. eapply acts_trans; [apply (acts_read instant wall policy a)|]. destruct sweep; [|apply acts_refl].
    eapply acts_trans; [|apply acts_read]. apply acts_next_sweep. }
  clearbody a0. assert (ActorInv instant wall policy a0) as HI0 by by apply H0.
  destruct (stall_sweep_spec instant wall registry runners policy nobody a0 sweep HI0) as (a2 & -> & H2).
  cbn [mbind option_bind]. intros Hc Hx. eexists. split; [done|].
  eapply client_sweep_spares; [|eapply reachable_Inv, (act_inv _ _ _ _ _ H2 _ HI0)|exact Hc|done].
  by rewrite (act_stopping _ _ _ _ _ H2), (act_stopping _ _ _ _ _ H0).
Qed.
(** A submission that supersedes a waiting job of a key whose active job waits too, with a lease
    that lapsed after the sweep at [swept]. *)
Definition late_lapse (command : JobCommand) (swept : Z) (a : Actor) : Prop :=
  let s := ac_jobs a in
  ∃ workspace stack digest class x p j,
    submission_of blake3_hex command = Some (OpSubmit workspace stack digest class) ∧
    js_closing s = false ∧ joinable s (workspace, stack) digest = None ∧
    active s (workspace, stack) = Some x ∧ pending s (workspace, stack) = Some p ∧
    js_jobs s !! x = Some j ∧ j_state j = Queued ∧
    lease_lapsed s x swept = false ∧ lease_lapsed s x (now_of instant a) = true.

(** C13. The actor panics only through the scheduler's hazard, and its lease sweep narrows the
    hazard: from every reachable state an iteration returns, unless it receives a submission that
    supersedes a waiting job of a key whose active job is queued too, with a lease that had not
    lapsed when this iteration's own sweep read the clock but has when the submission does. *)
Theorem actor_never_panics a i :
  actor_reachable a →
  (∀ command swept a1, it_received i = Received command →
     lease_sweep_at (read_clock a) (it_liveness i) = Some swept →
     sweeps instant wall registry runners (read_clock a) (it_liveness i) = Some a1 →
     ¬ late_lapse command swept a1) →
  is_Some (step a i).
Proof.
  intros Hr Hno. pose proof (reachable_LoopInv a Hr) as HL. destruct (step_spec a i HL)
    as [(a' & -> & _)|(_ & Hret & command & a1 & Hrec & Hsw & op & Hop & Hh)]; [by eexists|].
  exfalso. destruct op as [workspace stack digest class| | | | | | | | | | | ]; try done.
  destruct Hh as (Hopen & Hj & x & p & j & Hact & Hpend & Hjx & Hq & Hlap).
  destruct (sweeps_spec instant wall registry runners policy nobody (read_clock a) (it_liveness i))
    as (a2 & Hsw2 & H2); [apply (acts_read instant wall policy a), HL|].
  assert (a2 = a1) as -> by congruence. clear Hsw2.
  assert (Inv ∅ (ac_jobs a1)) as HI1.
  { eapply reachable_Inv, (ci_reachable _ _ _ _ _ _ _ _ _ (act_inv _ _ _ _ _ H2 nobody
      (act_inv _ _ _ _ _ (acts_read instant wall policy a) nobody (lo_inv _ HL)))). }
  assert (ac_stopping a = false) as Hst.
  { destruct (ac_stopping a) eqn:E; [|done]. destruct (act_closing _ _ _ _ _ H2) as [Hcl _]; [by apply (lo_closing _ HL)|].
    congruence. }
  destruct (swept_spares (read_clock a) (it_liveness i) a1 x) as (swept & Hat & Hsp);
    [apply (acts_read instant wall policy a), HL|done|done|exact (jo_next _ _ _ _ (inv_job _ _ HI1 x j Hjx))|].
  apply (Hno command swept a1 Hrec Hat Hsw). exists workspace, stack, digest, class, x, p, j.
  split_and!; try done. destruct Hsp as [?|[_ Hnq]]; [done|]. by destruct (Hnq j Hjx).
Qed.

(** The actor refines the scheduler: its scheduler is in a state that scheduler calls alone can
    reach, so every guarantee of the scheduler holds in the daemon. *)
Theorem actor_refines_scheduler a :
  actor_reachable a → reachable instant wall policy (ac_jobs a).
Proof. intros Hr. apply (lo_inv _ (reachable_LoopInv a Hr)). Qed.

(** C12. Every admitted job is executed exactly once and stays in hand. The request of a job that a
    submission creates is kept from then on: in every later state it waits for its launch, or the
    job's executor was launched with that request, or the job is over. Between iterations of an
    open actor no admitted job is waiting for its launch, so a running one was launched; no
    executor is launched twice; a launched job that has not ended has a cancellation source, and
    a source belongs to a launched executor; a setup ensure is launched only after its submission
    was durably recorded. *)
Theorem executors_launched_once a :
  actor_reachable a →
  (∀ i a' id request, step a i = Some a' →
     request_kept id request a ∨ submitted a i = Some (id, request) → request_kept id request a') ∧
  NoDup (launched (ac_effects a)) ∧
  (ac_stopping a = false → ac_returned a = false →
     js_started (ac_jobs a) = [] ∧
     ∀ id, job_is (ac_jobs a) id is_running = true → ac_requests a !! id = None) ∧
  (∀ id j, id ∈ launched (ac_effects a) → js_jobs (ac_jobs a) !! id = Some j → live j →
     is_Some (ac_cancellations a !! id)) ∧
  (∀ id, is_Some (ac_cancellations a !! id) → id ∈ launched (ac_effects a)) ∧
  (∀ before id request after,
     ac_effects a = before ++ EfLaunch id (ReqEnsure request) :: after →
     EfRegistry (CallAppendEvents [event_submitted id request]) (Ok ()) ∈ before).
Proof.
  intros Hr. pose proof (reachable_LoopInv a Hr) as HL. pose proof (lo_inv _ HL) as HI.
  destruct HI as [_ Hnd _ _ Hsrc Hout _ _ _]. split_and!; [|done|..|done|].
  - intros i a' id request Hstep. destruct (step_spec a i HL) as [(a1 & E & _ & _ & Hk)|[E _]];
      [|congruence]. assert (a1 = a') as -> by congruence. apply Hk.
  - intros Hs Hret. pose proof (lo_launched _ HL Hs Hret) as Hst. split; [done|]. intros id Hid.
    destruct (ci_tracked _ _ _ _ _ _ _ _ _ (lo_inv _ HL) id Hid) as [[[]|?]|Hin]; [done|].
    rewrite Hst in Hin. by apply elem_of_nil in Hin.
  - intros id j Hid Hj Hl. by destruct (Hout id j Hid Hj Hl).
  - apply (ci_launches _ _ _ _ _ _ _ _ _ (lo_inv _ HL)).
Qed.

Lemma settle_job_outcome a id ok err j :
  Inv ∅ (ac_jobs a) → js_jobs (ac_jobs a) !! id = Some j → live j →
  ∃ a', settle_job instant wall a id ok err = Some a' ∧
    ac_cancellations a' = ac_cancellations a ∧ ac_setup_kinds a' = ac_setup_kinds a ∧
    ac_effects a' = ac_effects a ∧
    ∀ j', js_jobs (ac_jobs a') !! id = Some j' →
      j_state j' = settled_state (j_state j) ok ∧
      j_error j' = (if bool_decide (j_state j' = Failed) then err else None).
Proof.
  intros HI Hj Hl. unfold settle_job, settle_with_error.
  destruct (settle_with_error_at_spec instant wall (tick (ac_jobs a)) id ok err (instant_now instant (ac_jobs a))
    (Inv_tick _ _ HI)) as (r & s' & -> & _ & _ & _ & Hout).
  change (js_jobs (tick (ac_jobs a))) with (js_jobs (ac_jobs a)) in Hout. rewrite Hj in Hout.
  unfold live in Hl. rewrite Hl in Hout. destruct Hout as (_ & Hout & _).
  eexists. split_and!; [done|done|done|done|]. exact Hout.
Qed.
Lemma audit_completed_spec a id kind report :
  let a' := audit_completed registry a id kind report in
  ac_jobs a' = ac_jobs a ∧ ac_cancellations a' = ac_cancellations a ∧ ac_setup_kinds a' = ac_setup_kinds a ∧
  (kind = KindEnsure → ac_setup_kinds a !! id = Some KindEnsure →
   completed_outcome a id report ≠ OutcomeSucceeded →
   ∃ answer, EfRegistry (CallAppendEvents [event_terminal id (completed_outcome a id report)]) answer ∈ ac_effects a').
Proof.
  cbn zeta. unfold audit_completed. case_bool_decide as Hk; [|by split_and!]. split_and!; [by case_match..|].
  intros _ Hkind Ho. rewrite (bool_decide_false _ Ho), (bool_decide_true _ Hkind). cbn. eexists.
  apply elem_of_app. right. left.
Qed.
(** C22. The report of an executor settles its job: a job being cancelled ends cancelled whatever the
    report, otherwise the report decides, and a failure keeps the error, cut to a log line; the
    cancellation source and the kind of the job are forgotten, and an ensure that failed or was
    cancelled has its end written to the registry. *)
Theorem report_settles_job a id kind report j :
  actor_reachable a → js_jobs (ac_jobs a) !! id = Some j → live j →
  ∃ a', on_completed instant wall registry runners a id kind report = Some a' ∧
    ac_cancellations a' = delete id (ac_cancellations a) ∧
    (∀ j', js_jobs (ac_jobs a') !! id = Some j' →
       ac_setup_kinds a' !! id = None ∧
       match j_state j, report with
       | Cancelling, _ => j_state j' = Cancelled ∧ j_error j' = None
       | _, Ok _ => j_state j' = Succeeded ∧ j_error j' = None
       | _, Err error => j_state j' = Failed ∧ j_error j' = Some (bounded_log_line error)
       end) ∧
    (kind = KindEnsure → ac_setup_kinds a !! id = Some KindEnsure →
     match j_state j, report with
     | Cancelling, _ => ∃ answer, EfRegistry (CallAppendEvents [event_terminal id OutcomeCancelled]) answer ∈ ac_effects a'
     | _, Err _ => ∃ answer, EfRegistry (CallAppendEvents [event_terminal id OutcomeFailed]) answer ∈ ac_effects a'
     | _, Ok _ => True
     end).
Proof.
  intros Hr Hj Hl. pose proof (reachable_Inv _ _ _ _ (ci_reachable _ _ _ _ _ _ _ _ _
    (lo_inv _ (reachable_LoopInv a Hr)))) as HI.
  unfold on_completed. set (a0 := match runners with Some _ => _ | None => _ end).
  assert (ac_jobs a0 = ac_jobs a ∧ ac_cancellations a0 = delete id (ac_cancellations a) ∧
    ac_setup_kinds a0 = ac_setup_kinds a) as (Ej & Ec & Ek) by (unfold a0; by destruct runners).
  clearbody a0. set (a1 := audit_completed registry a0 id kind report).
  destruct (audit_completed_spec a0 id kind report) as (Ej1 & Ec1 & Ek1 & Haudit). fold a1 in Ej1, Ec1, Ek1, Haudit.
  unfold completed_outcome in Haudit. rewrite Ej in Ej1, Haudit. rewrite Ek in Ek1, Haudit. rewrite Ec in Ec1.
  clearbody a1.
  assert (∃ a2 line ok err, settle_completed instant wall a1 id kind report
      = settle_job instant wall (log_line instant a1 id line) id ok err ∧ a2 = log_line instant a1 id line ∧
      ok = (match report with Ok _ => true | Err _ => false end) ∧
      err = (match report with Ok _ => None | Err e => Some (bounded_log_line e) end))
    as (a2 & line & ok & err & -> & -> & Hok & Herr) by (destruct report; cbn; eauto 10).
  destruct (log_state instant (ac_jobs a1) id line id j) as (j2 & Hj2 & Est & _); [by rewrite Ej1|].
  destruct (settle_job_outcome (log_line instant a1 id line) id ok err j2) as (a3 & -> & Ec3 & Ek3 & Ee3 & Hout).
  { apply Inv_log. by rewrite Ej1. } { done. } { unfold live. by rewrite Est. }
  cbn [mbind option_bind]. eexists. split; [done|]. rewrite Est in Hout. split_and!.
  - transitivity (ac_cancellations a3); [by destruct (job_is (ac_jobs a3) id terminal)|]. rewrite Ec3. exact Ec1.
  - intros j' Hj'. assert (js_jobs (ac_jobs a3) !! id = Some j') as Hj3 by (destruct (job_is (ac_jobs a3) id terminal); exact Hj').
    destruct (Hout j' Hj3) as [Hst He].
    assert (job_is (ac_jobs a3) id terminal = true) as Hterm.
    { unfold job_is. rewrite Hj3. cbn. rewrite Hst. unfold settled_state. by destruct (bool_decide (j_state j = Cancelling)), ok. }
    rewrite Hterm in *. split; [cbn; apply lookup_delete_eq|].
    rewrite Hst in He. unfold settled_state in *. unfold live in Hl. subst ok err.
    destruct (j_state j) eqn:Es, report; try done; rewrite ?bool_decide_true, ?bool_decide_false in * by done; done.
  - intros Hk Hkind. assert (∀ e, e ∈ ac_effects a1 → e ∈ ac_effects (if job_is (ac_jobs a3) id terminal
      then set_setup_kinds a3 (delete id (ac_setup_kinds a3)) else a3)) as Hin.
    { intros e He. assert (e ∈ ac_effects a3) by (rewrite Ee3; exact He). by destruct (job_is (ac_jobs a3) id terminal). }
    specialize (Haudit Hk Hkind). unfold job_is in Haudit. rewrite Hj in Haudit. cbn in Haudit.
    destruct (j_state j) eqn:Es, report; try done; rewrite ?bool_decide_true, ?bool_decide_false in Haudit by done;
      (destruct Haudit as [answer ?]; [done|]; exists answer; by apply Hin).
Qed.

(** Stopping signals every executor: after [Stop] the scheduler admits nothing more and the
    cancellation source of exactly the outstanding executors has been cancelled. *)
Theorem stop_signals_every_executor a :
  actor_reachable a →
  ∃ a', on_stop instant wall registry a = Some a' ∧ ac_stopping a' = true ∧
    js_closing (ac_jobs a') = true ∧
    (∀ id, ac_cancellations a' !! id = (λ _, true) <$> ac_cancellations a !! id).
Proof.
  intros Hr. destruct (stop_spec instant wall registry policy a (lo_inv _ (reachable_LoopInv a Hr)))
    as (a' & Heq & _ & Hcl & _ & Hs & _ & Htrue & Hiff & _).
  exists a'. split_and!; [done..|]. intros id. specialize (Hiff id). specialize (Htrue id).
  destruct (ac_cancellations a' !! id) as [b|], (ac_cancellations a !! id) as [b'|]; cbn.
  - f_equal. by apply Htrue.
  - by destruct (proj1 Hiff ltac:(by eexists)).
  - by destruct (proj2 Hiff ltac:(by eexists)).
  - done.
Qed.

(** Cancelling reaches the executor: for an unfinished job whose executor is out, a cancel is
    accepted, its source is cancelled, and the job is cancelling or already cancelled. *)
Theorem cancel_reaches_executor a id j :
  actor_reachable a → js_jobs (ac_jobs a) !! id = Some j → live j →
  is_Some (ac_cancellations a !! id) →
  ∃ a', cancel_job_in_actor instant wall registry a id = Some (Ok (), a') ∧
    ac_cancellations a' !! id = Some true ∧
    ∀ j', js_jobs (ac_jobs a') !! id = Some j' →
      j_state j' = (if bool_decide (j_state j = Running) then Cancelling else Cancelled).
Proof.
  intros Hr Hj Hl [b Hb].
  pose proof (reachable_Inv _ _ _ _ (ci_reachable _ _ _ _ _ _ _ _ _
    (lo_inv _ (reachable_LoopInv a Hr)))) as HI.
  destruct (cancel_spec instant wall (ac_jobs a) id HI) as (r & s' & Heq & _ & _ & _ & _ & Hout).
  rewrite Hj in Hout. unfold live in Hl. rewrite Hl in Hout. destruct Hout as [-> Hout].
  unfold cancel_job_in_actor. rewrite Heq. cbn [mbind option_bind set_actor_jobs ac_cancellations].
  rewrite Hb. eexists. split; [done|]. cbn. split; [apply lookup_insert_eq|]. intros j' Hj'.
  case_bool_decide; [|by destruct (Hout j' Hj')].
  rewrite Hout, lookup_insert_eq in Hj'. by injection Hj' as <-.
Qed.
End reachable.

(** ** A small daemon for the witnesses *)

Definition app_task (workspace task : string) : ManifestAppTaskJobRequest :=
  {| ma_workspace := workspace; ma_manifest := "bosn.toml"; ma_stack := "s"; ma_task_name := task;
     ma_deadline := 3600 * nanos_per_sec; ma_output_limit := 4096 |}.
Definition ensure_of (config : string) : SetupEnsureJobRequest :=
  {| se_workspace := "w"; se_config := config; se_policy := Refresh;
     se_deadline := 60 * nanos_per_sec; se_output_limit := 4096 |}.
Definition client : ClientOwner := {| co_pid := 7; co_created := (1, 2) |}.
Definition receive (command : JobCommand) : iteration :=
  {| it_received := Received command; it_liveness := λ _ _, Alive |}.
Definition client_gone : iteration := {| it_received := TimedOut; it_liveness := λ _ _, Gone |}.
Definition registry_up : list effect → registry_call → result Error unit := λ _ _, Ok ().

Definition small_daemon (instant : nat → Z) (inputs : list iteration) : option Actor :=
  actor_run instant no_clock str_reverse registry_up None (Actor_new (with_policy one_slot) 0) inputs.
Definition daemon_state (inputs : list iteration) : Actor :=
  default (Actor_new (with_policy one_slot) 0) (small_daemon no_clock inputs).

Lemma small_daemon_reachable instant inputs a :
  small_daemon instant inputs = Some a →
  actor_reachable instant no_clock str_reverse registry_up None one_slot a.
Proof. unfold small_daemon. intros Heq. eapply run_reachable; [|exact Heq]. apply actor_start. Qed.

(** Two tasks, one running, and an ensure. *)
Definition busy_inputs : list iteration :=
  [receive (CmdSubmitManifestAppTask (app_task "x" "t") None None);
   receive (CmdSubmitManifestAppTask (app_task "w" "t") None (Some client));
   receive (CmdSubmitSetupEnsure (ensure_of "a"))].
Definition busy : Actor := Eval vm_compute in daemon_state busy_inputs.
Lemma busy_reachable : actor_reachable no_clock no_clock str_reverse registry_up None one_slot busy.
Proof. apply (small_daemon_reachable no_clock busy_inputs). vm_compute. reflexivity. Qed.




Lemma actor_never_panics_witness :
  is_Some (actor_step no_clock no_clock str_reverse registry_up None busy (receive CmdStop)).
Proof.
  apply (actor_never_panics _ _ _ _ _ one_slot); [apply busy_reachable|].
  intros command swept a1 [= <-] _ _ (? & ? & ? & ? & ? & ? & ? & Hop & _). discriminate Hop.
Defined.

Lemma actor_refines_scheduler_witness : reachable no_clock no_clock one_slot (ac_jobs busy).
Proof.
  apply (actor_refines_scheduler no_clock no_clock str_reverse registry_up None), busy_reachable.
Defined.

Lemma executors_launched_once_witness :
  NoDup (launched (ac_effects busy)) ∧ launched (ac_effects busy) = [1; 3] ∧
  is_Some (ac_cancellations busy !! 1) ∧
  EfRegistry (CallAppendEvents [event_submitted 3 (ensure_of "a")]) (Ok ()) ∈ take 5 (ac_effects busy) ∧
  ∃ a', actor_step no_clock no_clock str_reverse registry_up None busy
          (receive (CmdSubmitSetupEnsure (ensure_of "b"))) = Some a' ∧
    request_kept 4 (ReqEnsure (ensure_of "b")) a'.
Proof.
  destruct (executors_launched_once no_clock no_clock str_reverse registry_up None one_slot busy busy_reachable)
    as (Hkept & Hnd & _ & Hsrc & _ & Haudit).
  split_and!; [exact Hnd|reflexivity|..].
  - apply (Hsrc 1 (default (new_job 1 ("", "") "" Control 0) (js_jobs (ac_jobs busy) !! 1))); [left|reflexivity..].
  - apply (Haudit (take 5 (ac_effects busy)) 3 (ensure_of "a") []). vm_compute. reflexivity.
  - eexists. split; [vm_compute; reflexivity|].
    apply (Hkept (receive (CmdSubmitSetupEnsure (ensure_of "b")))); [vm_compute; reflexivity|].
    right. vm_compute. reflexivity.
Defined.

Lemma stop_signals_every_executor_witness :
  ∃ a', on_stop no_clock no_clock registry_up busy = Some a' ∧
    ac_cancellations a' !! 1 = Some true.
Proof.
  destruct (stop_signals_every_executor no_clock no_clock str_reverse registry_up None one_slot busy
    busy_reachable) as (a' & Heq & _ & _ & Hsig).
  exists a'. split; [exact Heq|]. rewrite (Hsig 1). vm_compute. reflexivity.
Defined.

Definition busy_job (id : Z) : Job :=
  default (new_job id ("", "") "" Control 0) (js_jobs (ac_jobs busy) !! id).

Lemma cancel_reaches_executor_witness :
  ∃ a', cancel_job_in_actor no_clock no_clock registry_up busy 1 = Some (Ok (), a') ∧
    ac_cancellations a' !! 1 = Some true.
Proof.
  destruct (cancel_reaches_executor no_clock no_clock str_reverse registry_up None one_slot busy 1
    (busy_job 1) busy_reachable eq_refl eq_refl) as (a' & Heq & Hsig & _).
  { eexists. vm_compute. reflexivity. }
  exists a'. split; [exact Heq|exact Hsig].
Defined.

Lemma report_settles_job_witness :
  ∃ a', on_completed no_clock no_clock registry_up None busy 1 KindManifestAppTask (Err "boom") = Some a' ∧
    ac_cancellations a' !! 1 = None.
Proof.
  destruct (report_settles_job no_clock no_clock str_reverse registry_up None one_slot busy 1
    KindManifestAppTask (Err "boom") (busy_job 1) busy_reachable eq_refl eq_refl) as (a' & Heq & Hc & _).
  exists a'. split; [exact Heq|]. rewrite Hc. apply lookup_delete_eq.
Defined.

(** ** Three behaviours beside the intention *)

(** 0 s for the submissions, 20 s for the first task's completion, 21 s afterwards. *)
Definition sweep_clock (n : nat) : Z :=
  if (n <? 17)%nat then 0
  else if (n <? 24)%nat then 20 * nanos_per_sec else 21 * nanos_per_sec.

(** A sweep can launch a job it has just cancelled. One runner slot; job 2 waits with a 30 s
    lease and job 3 behind it for the same key, both owned by one client. Job 1 ends 20 s
    after the last poll, so job 2 is held back as quiet. When the client dies, the sweep
    cancels job 2, which admits job 3, and then cancels job 3: it has no cancellation source
    yet, so nothing is signalled, and the launch at the end of the iteration starts its
    executor with a fresh source. Job 3 stays cancelling with an unsignalled executor, and
    later sweeps do not look at it again. *)
Theorem sweep_launches_cancelled_job_unsignalled :
  ∃ a, small_daemon sweep_clock
      [receive (CmdSubmitManifestAppTask (app_task "x" "t") None None);
       receive (CmdSubmitManifestAppTask (app_task "w" "t1") (Some (30 * nanos_per_sec)) (Some client));
       receive (CmdSubmitManifestAppTask (app_task "w" "t2") None (Some client));
       receive (CmdCompleted 1 KindManifestAppTask (Ok "done"));
       client_gone; client_gone; client_gone] = Some a ∧
    (j_state <$> js_jobs (ac_jobs a) !! 3) = Some Cancelling ∧
    launched (ac_effects a) = [1; 3] ∧ ac_cancellations a !! 3 = Some false ∧
    forallb (λ e, match e with EfSignal _ => false | _ => true end) (ac_effects a) = true.
Proof. eexists. split; [vm_compute; reflexivity|]. split_and!; vm_compute; reflexivity. Qed.

(** A submission never answers [Superseded], so the arms that handle it never run. *)
Theorem submit_never_reports_superseded instant wall policy s w st d c r s' old new :
  reachable instant wall policy s →
  submit_class instant wall s w st d c = Some (r, s') → r ≠ Ok (SubSuperseded old new).
Proof.
  intros Hr Heq ->.
  destruct (submit_result instant wall policy s w st d c Hr) as [(r & s1 & E & _ & Hr1)|[E _]];
    [|congruence]. rewrite Heq in E. by injection E as <- <-.
Qed.

Lemma submit_never_reports_superseded_witness :
  ∀ r s', submit_class no_clock no_clock demo "a" "s" "d3" Runner = Some (r, s') →
    r ≠ Ok (SubSuperseded 2 4).
Proof.
  intros r s'. apply (submit_never_reports_superseded no_clock no_clock one_slot), demo_reachable.
Defined.

(** A superseded ensure leaves its entries behind: job 2 ended superseded, yet its request and
    kind stay in the actor's maps after every job ended, and the trace holds no
    [setup.ensure.superseded] event for it. *)
Theorem superseded_ensure_is_never_audited :
  ∃ a, small_daemon no_clock
      [receive (CmdSubmitSetupEnsure (ensure_of "a")); receive (CmdSubmitSetupEnsure (ensure_of "b"));
       receive (CmdSubmitSetupEnsure (ensure_of "c"));
       receive (CmdCompleted 1 KindEnsure (Err "failed"));
       receive (CmdCompleted 3 KindEnsure (Err "failed"))] = Some a ∧
    (j_state <$> js_jobs (ac_jobs a) !! 2) = Some Superseded ∧
    ac_requests a !! 2 = Some (ReqEnsure (ensure_of "b")) ∧
    ac_setup_kinds a !! 2 = Some KindEnsure ∧
    forallb (λ e, match e with
      | EfRegistry (CallAppendEvents evs) _ =>
          forallb (λ ev, negb (String.eqb (ev_kind ev) "setup.ensure.superseded")) evs
      | _ => true end) (ac_effects a) = true.
Proof. eexists. split; [vm_compute; reflexivity|]. split_and!; vm_compute; reflexivity. Qed.

(** A failure's log line can be refused: the error is cut to the line limit before the
    operation's name is put in front of it, so an error that nearly fills a line makes a line
    that is too large and the job's log never shows it. *)
Theorem long_failure_is_not_logged instant s id kind error :
  Z.of_nat (String.length error) ≤ MAX_LOG_LINE_BYTES →
  MAX_LOG_LINE_BYTES < Z.of_nat (String.length (operation_name kind +:+ " failed: " +:+ error)) →
  log instant s id (operation_name kind +:+ " failed: " +:+ bounded_log_line error)
  = (Err LogTooLarge, s).
Proof.
  intros Hle Hgt. unfold bounded_log_line. rewrite (proj2 (Z.leb_le _ _) Hle). unfold log.
  by rewrite (proj2 (Z.ltb_lt _ _) Hgt).
Qed.

Fixpoint repeat_x (n : nat) : string :=
  match n with O => "" | S n => "x" +:+ repeat_x n end.
Definition long_error : string := Eval vm_compute in repeat_x (Z.to_nat MAX_LOG_LINE_BYTES).

Lemma long_failure_is_not_logged_witness :
  log no_clock demo 1 (operation_name KindEnsure +:+ " failed: " +:+ bounded_log_line long_error)
  = (Err LogTooLarge, demo).
Proof.
  apply (long_failure_is_not_logged no_clock demo 1 KindEnsure long_error);
    vm_compute; [discriminate|reflexivity].
Defined.
