(* ===== verification/ManifestRecovery.v ===== *)
(** * ManifestRecovery: restarting manifest containers at daemon start

    The model of [bosn-service/src/manifest_recovery.rs]: the contract a successful manifest
    ensure leaves behind, its JSON form, and [recover_manifest_startup], which decides from the
    contracts which containers may be started. [serde_json] is a parameter (an object's text and
    back); the registry, the manifest planner and the engine answer arbitrarily, as functions of
    the calls made so far. [None] of a timed call is the deadline passing. *)

From Stdlib Require Import Ascii.
From stdpp Require Import pretty.
From S2P Require Import Labels.
From S2P Require Export JobRequests.

Local Open Scope string_scope.
Local Open Scope list_scope.
Local Open Scope Z_scope.
Local Open Scope bosn_scope.

(** ** What an ensure produced *)

Record SetupEnsureResource := {
  er_id : string;
  er_name : string;
  er_stack : string;
  er_generation : string;
  er_workspace : string;
}.
Record SetupEnsureImageResource := {
  ei_id : string;
  ei_name : string;
  ei_stack : string;
  ei_generation : string;
  ei_workspace : string;
}.
Record ManifestVolumeResource := {
  mv_id : string;
  mv_name : string;
  mv_stack : string;
  mv_generation : string;
  mv_scope : Scope;
  mv_workspace : string;
  mv_retention : Retention;
  mv_target : string;
  mv_labels : gmap string string;
}.
Record SetupEnsureExecution := {
  ex_receipt : string;
  ex_resource : SetupEnsureResource;
  ex_image : SetupEnsureImageResource;
  ex_volumes : list ManifestVolumeResource;
  ex_manifest_autostart : bool;
}.

Record ManifestRecoveryContract := {
  rc_resource_id : string;
  rc_name : string;
  rc_workspace : string;
  rc_stack : string;
  rc_generation : string;
  rc_manifest : string;
  rc_image_identity : string;
  rc_guest : bool;
  rc_intent_id : string;
  rc_autostart : bool;
}.
#[global] Instance ManifestRecoveryContract_eq_dec : EqDecision ManifestRecoveryContract.
Proof. solve_decision. Defined.

Record SetupReconcileObserved := {
  ob_name : string;
  ob_running : bool;
  ob_image_identity : string;
  ob_managed : string;
  ob_content : string;
  ob_container : string;
}.

Definition no_byte (c : ascii) (s : string) : bool := all_bytes (λ a, negb (Ascii.eqb a c)) s.

(** A relative path with no empty, [.] or [..] component. *)
Definition safe_manifest_relative_path (value : string) : bool :=
  negb (String.eqb value "") && (str_len value <=? 4096)
  && no_byte "000" value && no_byte "\" value
  && negb (starts_with "/" value)
  && negb (existsb (λ part, String.eqb part "" || String.eqb part "." || String.eqb part "..")
             (str_split "/" value)).

Definition manifest_resource (id : string) : bool :=
  starts_with "manifest-container:" id || starts_with "manifest-guest:" id.

Definition manifest_recovery_contract (request : ManifestEnsureJobRequest)
    (execution : SetupEnsureExecution) (job_id : Z) : result string ManifestRecoveryContract :=
  let resource := ex_resource execution in
  if negb (safe_manifest_relative_path (me_manifest request))
     || negb (String.eqb (er_stack resource) (me_stack request))
     || negb (starts_with "sha256:" (er_generation resource))
     || negb (manifest_resource (er_id resource))
     || String.eqb (ei_generation (ex_image execution)) ""
     || (1024 <? str_len (ei_generation (ex_image execution)))
  then Err "manifest recovery contract cannot be derived"
  else Ok {| rc_resource_id := er_id resource; rc_name := er_name resource;
             rc_workspace := er_workspace resource; rc_stack := er_stack resource;
             rc_generation := er_generation resource; rc_manifest := me_manifest request;
             rc_image_identity := ei_generation (ex_image execution);
             rc_guest := starts_with "manifest-guest:" (er_id resource);
             rc_intent_id := "job-" +:+ pretty job_id;
             rc_autostart := ex_manifest_autostart execution |}.

(** ** JSON *)

(** The values of an object, as far as the contract reads them. *)
Inductive JsonValue := JString (s : string) | JBool (b : bool) | JNumber (n : Z) | JOther.
Definition as_str (v : JsonValue) : option string := match v with JString s => Some s | _ => None end.
Definition as_bool (v : JsonValue) : option bool := match v with JBool b => Some b | _ => None end.
Definition as_u64 (v : JsonValue) : option Z :=
  match v with JNumber n => bounded 0 u64_max n | _ => None end.

Definition contract_object (c : ManifestRecoveryContract) : gmap string JsonValue :=
  list_to_map
    [("v", JNumber 2); ("resource_id", JString (rc_resource_id c)); ("name", JString (rc_name c));
     ("workspace", JString (rc_workspace c)); ("stack", JString (rc_stack c));
     ("generation", JString (rc_generation c)); ("manifest", JString (rc_manifest c));
     ("image_identity", JString (rc_image_identity c)); ("guest", JBool (rc_guest c));
     ("intent_id", JString (rc_intent_id c)); ("autostart", JBool (rc_autostart c))].

Definition intent_object (c : ManifestRecoveryContract) : gmap string JsonValue :=
  list_to_map
    [("v", JNumber 1); ("resource_id", JString (rc_resource_id c));
     ("generation", JString (rc_generation c)); ("intent_id", JString (rc_intent_id c))].

(** The bounds a stored contract must meet to be recovery authority. *)
Definition contract_bounds (c : ManifestRecoveryContract) : bool :=
  (str_len (rc_resource_id c) <=? 512) && (str_len (rc_name c) <=? 512)
  && (str_len (rc_workspace c) <=? 4096) && (str_len (rc_stack c) <=? 256)
  && (str_len (rc_image_identity c) <=? 1024) && (str_len (rc_intent_id c) <=? 64)
  && is_some_and (strip_prefix "job-" (rc_intent_id c)) (all_bytes is_digit)
  && safe_manifest_relative_path (rc_manifest c)
  && starts_with "sha256:" (rc_generation c)
  && (rc_guest c && starts_with "manifest-guest:" (rc_resource_id c)
      || negb (rc_guest c) && starts_with "manifest-container:" (rc_resource_id c)).

Definition contract_of_object (object : gmap string JsonValue) : option ManifestRecoveryContract :=
  let field name := object !! name ≫= as_str in
  v ← object !! "v" ≫= as_u64;
  if negb (v =? 2) then None
  else
    resource_id ← field "resource_id"; name ← field "name"; workspace ← field "workspace";
    stack ← field "stack"; generation ← field "generation"; manifest ← field "manifest";
    image_identity ← field "image_identity"; guest ← object !! "guest" ≫= as_bool;
    intent_id ← field "intent_id"; autostart ← object !! "autostart" ≫= as_bool;
    let c := {| rc_resource_id := resource_id; rc_name := name; rc_workspace := workspace;
                rc_stack := stack; rc_generation := generation; rc_manifest := manifest;
                rc_image_identity := image_identity; rc_guest := guest;
                rc_intent_id := intent_id; rc_autostart := autostart |} in
    if contract_bounds c then Some c else None.

Section json.
(** [Value::to_string] of an object, and [from_str] followed by [as_object]. *)
Context (print : gmap string JsonValue → string) (parse : string → option (gmap string JsonValue)).

Definition manifest_recovery_contract_json (c : ManifestRecoveryContract) : string :=
  print (contract_object c).
Definition manifest_autostart_intent_detail (c : ManifestRecoveryContract) : string :=
  print (intent_object c).
Definition parse_manifest_recovery_contract (detail : string) : option ManifestRecoveryContract :=
  object ← parse detail; contract_of_object object.
End json.

(** ** Observing a container *)

Definition classify_manifest_recovery_observation (c : ManifestRecoveryContract)
    (observed : SetupReconcileObserved) : option string :=
  content ← strip_prefix "sha256:" (rc_generation c);
  if negb (String.eqb (ob_name observed) ("/" +:+ rc_name c)) then None
  else if negb (String.eqb (ob_managed observed) "v1")
       || negb (String.eqb (ob_content observed) content)
       || negb (String.eqb (ob_container observed) (rc_name c))
       || negb (String.eqb (ob_image_identity observed) (rc_image_identity c))
  then None
  else Some (if ob_running observed then "running" else "stopped").

(** ** Recovery at start *)

(** What the planner says of the manifest as it is now; its plan is only handed on to the
    verification of the creation profile, and a text stands for it. *)
Record ManifestRuntime := {
  rt_plan : string; rt_generation : string; rt_is_guest : bool; rt_autostart : bool }.

(** A call and its answer. *)
Inductive recovery_call :=
| RcDisabled (c : ManifestRecoveryContract) (answer : result string bool)
| RcPlan (workspace manifest stack : string) (answer : option (result string ManifestRuntime))
| RcAuthorized (c : ManifestRecoveryContract) (answer : result string bool)
| RcVerify (plan : string) (c : ManifestRecoveryContract) (proved : bool)
| RcInspect (c : ManifestRecoveryContract)
    (answer : option (result string (option SetupReconcileObserved)))
| RcStart (c : ManifestRecoveryContract) (answer : option (result string unit)).

Record recovery_env := {
  re_disabled : list recovery_call → ManifestRecoveryContract → result string bool;
  re_deadline_zero : list recovery_call → bool;
  re_plan : list recovery_call → string → string → string →
    option (result string ManifestRuntime);
  re_authorized : list recovery_call → ManifestRecoveryContract → result string bool;
  re_verify : list recovery_call → string → ManifestRecoveryContract → bool;
  re_inspect : list recovery_call → ManifestRecoveryContract →
    option (result string (option SetupReconcileObserved));
  re_start : list recovery_call → ManifestRecoveryContract → option (result string unit);
}.

Record Recovery := {
  rs_seen : gset string;
  rs_events : list (string * string);
  rs_calls : list recovery_call;
}.
Definition called (s : Recovery) (call : recovery_call) : Recovery :=
  {| rs_seen := rs_seen s; rs_events := rs_events s; rs_calls := rs_calls s ++ [call] |}.
Definition event (s : Recovery) (kind detail : string) : Recovery :=
  {| rs_seen := rs_seen s; rs_events := rs_events s ++ [(kind, detail)]; rs_calls := rs_calls s |}.
Definition mark_seen (s : Recovery) (id : string) : Recovery :=
  {| rs_seen := {[id]} ∪ rs_seen s; rs_events := rs_events s; rs_calls := rs_calls s |}.

(** How one candidate ends: [continue], [break], or an error that ends the recovery. *)
Inductive flow := Continue (s : Recovery) | Break (s : Recovery) | Fail (e : string) (s : Recovery).
Definition flow_state (f : flow) : Recovery :=
  match f with Continue s | Break s | Fail _ s => s end.

Section recovery.
Context (print : gmap string JsonValue → string) (parse : string → option (gmap string JsonValue)).
Context (env : recovery_env).

(** After a start: confirm what runs. *)
Definition confirm_start (s : Recovery) (c : ManifestRecoveryContract) : Recovery :=
  let answer := re_inspect env (rs_calls s) c in
  let s := called s (RcInspect c answer) in
  match answer with
  | Some (Ok (Some observed)) =>
      if bool_decide (classify_manifest_recovery_observation c observed = Some "running")
      then event s "manifest.recovery.started" "exact"
      else event s "manifest.recovery.start_unconfirmed" "post_start_mismatch"
  | Some (Ok None) => event s "manifest.recovery.start_unconfirmed" "post_start_mismatch"
  | Some (Err _) => event s "manifest.recovery.start_unconfirmed" "post_start_inspect_error"
  | None => event s "manifest.recovery.deadline" "post_start_inspect"
  end.

Definition start_stopped (s : Recovery) (c : ManifestRecoveryContract) : Recovery :=
  let answer := re_start env (rs_calls s) c in
  let s := called s (RcStart c answer) in
  match answer with
  | Some (Ok _) => confirm_start s c
  | Some (Err _) => event s "manifest.recovery.start_error" "bounded"
  | None => event s "manifest.recovery.deadline" "start"
  end.

(** Inspect the exact container and act on what it is. *)
Definition recover_observed (s : Recovery) (c : ManifestRecoveryContract) : flow :=
  let answer := re_inspect env (rs_calls s) c in
  let s := called s (RcInspect c answer) in
  match answer with
  | Some (Ok (Some observed)) =>
      match classify_manifest_recovery_observation c observed with
      | Some state =>
          if String.eqb state "running"
          then Continue (event s "manifest.recovery.already_running" "exact")
          else Continue (start_stopped s c)
      | None => Continue (event s "manifest.recovery.refused_engine" "identity_mismatch")
      end
  | Some (Ok None) => Continue (event s "manifest.recovery.missing" "exact_container_absent")
  | Some (Err _) => Continue (event s "manifest.recovery.inspect_error" "bounded")
  | None => Break (event s "manifest.recovery.deadline" "inspect")
  end.

(** Registry and engine authority, once the source is proved. *)
Definition recover_authorized (s : Recovery) (runtime : ManifestRuntime)
    (c : ManifestRecoveryContract) : flow :=
  let answer := re_authorized env (rs_calls s) c in
  let s := called s (RcAuthorized c answer) in
  match answer with
  | Err e => Fail e s
  | Ok false =>
      Continue (event s "manifest.recovery.refused_registry" "inactive_session_or_volume_intent")
  | Ok true =>
      let proved := re_verify env (rs_calls s) (rt_plan runtime) c in
      let s := called s (RcVerify (rt_plan runtime) c proved) in
      if proved then recover_observed s c
      else Continue (event s "manifest.recovery.refused_engine" "creation_profile_unproven")
  end.

Definition refuse_source (s : Recovery) (c : ManifestRecoveryContract) (kind detail : string) :
    flow :=
  Continue (event (event s "manifest.autostart.disabled" (manifest_autostart_intent_detail print c))
    kind detail).

(** The manifest must still describe the same stack. *)
Definition recover_source (s : Recovery) (c : ManifestRecoveryContract) : flow :=
  let answer := re_plan env (rs_calls s) (rc_workspace c) (rc_manifest c) (rc_stack c) in
  let s := called s (RcPlan (rc_workspace c) (rc_manifest c) (rc_stack c) answer) in
  match answer with
  | Some (Ok runtime) =>
      if String.eqb (rt_generation runtime) (rc_generation c)
         && Bool.eqb (rt_is_guest runtime) (rc_guest c) && rt_autostart runtime
      then recover_authorized s runtime c
      else if negb (rt_autostart runtime)
      then refuse_source s c "manifest.recovery.refused_policy" "default_stack_changed"
      else refuse_source s c "manifest.recovery.refused_source" "generation_mismatch"
  | Some (Err _) => refuse_source s c "manifest.recovery.refused_source" "unavailable_or_invalid"
  | None => Break (event s "manifest.recovery.deadline" "source_proof")
  end.

Definition recover_contract (s : Recovery) (c : ManifestRecoveryContract) : flow :=
  if bool_decide (rc_resource_id c ∈ rs_seen s) then Continue s
  else
    let s := mark_seen s (rc_resource_id c) in
    if negb (rc_autostart c) then Continue s
    else
      let answer := re_disabled env (rs_calls s) c in
      let s := called s (RcDisabled c answer) in
      match answer with
      | Err e => Fail e s
      | Ok true =>
          Continue (event s "manifest.autostart.already_disabled"
                      (manifest_autostart_intent_detail print c))
      | Ok false =>
          if re_deadline_zero env (rs_calls s)
          then Break (event s "manifest.recovery.deadline" "bounded")
          else recover_source s c
      end.

Definition recover_candidate (s : Recovery) (detail : string) : flow :=
  match parse_manifest_recovery_contract parse detail with
  | None => Continue (event s "manifest.recovery.refused_contract" "malformed")
  | Some c => recover_contract s c
  end.

(** The loop; [Ok] carries the events that are appended to the registry, an error drops them. *)
Fixpoint recover_loop (s : Recovery) (details : list string) :
    result string (list (string * string)) * Recovery :=
  match details with
  | [] => (Ok (rs_events s), s)
  | detail :: details' =>
      match recover_candidate s detail with
      | Continue s => recover_loop s details'
      | Break s => (Ok (rs_events s), s)
      | Fail e s => (Err e, s)
      end
  end.

Definition recover_manifest_startup (details : list string) :
    result string (list (string * string)) * Recovery :=
  recover_loop {| rs_seen := ∅; rs_events := []; rs_calls := [] |} details.
End recovery.

(** ** The contract survives its JSON form *)

Lemma contract_object_roundtrip c :
  contract_of_object (contract_object c) = if contract_bounds c then Some c else None.
Proof. by destruct c. Qed.

Lemma pretty_N_go_digits k x acc :
  (x < 10 ^ N.of_nat k)%N → all_bytes is_digit acc = true →
  all_bytes is_digit (pretty_N_go x acc) = true ∧
  (String.length (pretty_N_go x acc) ≤ k + String.length acc)%nat.
Proof.
  revert x acc. induction k as [|k IH]; intros x acc Hx Hacc.
  { assert (x = 0%N) as -> by (cbn in Hx; lia). rewrite pretty_N_go_0. split; [done|lia]. }
  destruct (decide (x = 0)%N) as [->|Hne]; [rewrite pretty_N_go_0; split; [done|lia]|].
  rewrite pretty_N_go_step by lia.
  destruct (IH (x `div` 10)%N (String (pretty_N_char (x `mod` 10)) acc)) as [Hd Hl].
  - rewrite Nat2N.inj_succ, N.pow_succ_r' in Hx. by apply N.Div0.div_lt_upper_bound.
  - cbn [all_bytes]. rewrite Hacc, andb_true_r. unfold pretty_N_char. by repeat case_match.
  - split; [done|]. cbn [String.length] in Hl. lia.
Qed.

(** A [u64] prints as at most twenty digits. *)
Lemma pretty_u64_digits (z : Z) :
  in_u64 z → all_bytes is_digit (pretty z) = true ∧ str_len (pretty z) ≤ 20.
Proof.
  unfold in_u64, u64_max, str_len. intros Hz. destruct z as [|p|p]; [done| |lia].
  change (pretty (Z.pos p)) with (pretty (N.pos p)).
  unfold pretty, pretty_N. rewrite decide_False by done.
  destruct (pretty_N_go_digits 20 (N.pos p) "") as [? Hl]; [cbn; lia|done|].
  split; [done|]. cbn [String.length] in Hl. lia.
Qed.

(** The identity fields that a stored contract bounds and its derivation does not. *)
Definition contract_fits (c : ManifestRecoveryContract) : bool :=
  (str_len (rc_resource_id c) <=? 512) && (str_len (rc_name c) <=? 512)
  && (str_len (rc_workspace c) <=? 4096) && (str_len (rc_stack c) <=? 256).

Lemma derived_contract_bounds request execution job_id c :
  in_u64 job_id → manifest_recovery_contract request execution job_id = Ok c →
  contract_bounds c = contract_fits c.
Proof.
  intros Hid. unfold manifest_recovery_contract. destruct (_ || _) eqn:Hg; [done|].
  rewrite !orb_false_iff, !negb_false_iff in Hg.
  destruct Hg as (((((Hpath & Hst) & Hgen) & Hres) & _) & Hlen). intros [= <-].
  unfold contract_bounds, contract_fits.
  cbn [rc_resource_id rc_name rc_workspace rc_stack rc_generation rc_manifest rc_image_identity
    rc_guest rc_intent_id]. rewrite strip_prefix_app. cbn [is_some_and].
  destruct (pretty_u64_digits job_id Hid) as [Hd Hl].
  assert (str_len ("job-" +:+ pretty job_id) <=? 64 = true) as ->.
  { apply Z.leb_le. unfold str_len in *. rewrite length_append. simpl String.length. lia. }
  rewrite Hpath, Hgen, Hd. apply Z.ltb_ge in Hlen. rewrite (proj2 (Z.leb_le _ _) Hlen).
  rewrite !andb_true_r. unfold manifest_resource in Hres.
  destruct (starts_with "manifest-guest:" (er_id (ex_resource execution)));
    cbn; rewrite ?andb_true_r; [done|]. rewrite orb_false_r in Hres. by rewrite Hres, andb_true_r.
Qed.

(** The contract a successful ensure leaves behind is read back exactly at the next start, or
    refused when one of its identity fields is too long; it is never read back as another. *)
Theorem recovery_contract_roundtrip print parse request execution job_id c :
  (∀ object, parse (print object) = Some object) → in_u64 job_id →
  manifest_recovery_contract request execution job_id = Ok c →
  parse_manifest_recovery_contract parse (manifest_recovery_contract_json print c)
  = if contract_fits c then Some c else None.
Proof.
  intros Hjson Hid Hc. unfold parse_manifest_recovery_contract, manifest_recovery_contract_json.
  rewrite Hjson. cbn [mbind option_bind]. rewrite contract_object_roundtrip.
  by rewrite (derived_contract_bounds _ _ _ _ Hid Hc).
Qed.

(** ** Only proved containers are started *)

(** Everything that must have been established before [c] is started. *)
Record start_proved (parse : string → option (gmap string JsonValue)) (details : list string)
    (before : list recovery_call) (c : ManifestRecoveryContract) : Prop := {
  sp_contract : ∃ detail, detail ∈ details ∧ parse_manifest_recovery_contract parse detail = Some c;
  sp_autostart : rc_autostart c = true;
  sp_enabled : RcDisabled c (Ok false) ∈ before;
  sp_source : ∃ runtime,
    RcPlan (rc_workspace c) (rc_manifest c) (rc_stack c) (Some (Ok runtime)) ∈ before ∧
    rt_generation runtime = rc_generation c ∧ rt_is_guest runtime = rc_guest c ∧
    rt_autostart runtime = true ∧ RcVerify (rt_plan runtime) c true ∈ before;
  sp_registry : RcAuthorized c (Ok true) ∈ before;
  sp_observed : ∃ earlier observed,
    before = earlier ++ [RcInspect c (Some (Ok (Some observed)))] ∧
    classify_manifest_recovery_observation c observed = Some "stopped";
}.

Definition start_of (call : recovery_call) : option string :=
  match call with RcStart c _ => Some (rc_resource_id c) | _ => None end.

Section safety.
Context (print : gmap string JsonValue → string) (parse : string → option (gmap string JsonValue)).
Context (env : recovery_env) (all : list string).

Record RecoveryInv (s : Recovery) : Prop := {
  ri_proved : ∀ before c answer after, rs_calls s = before ++ RcStart c answer :: after →
    start_proved parse all before c;
  ri_once : NoDup (omap start_of (rs_calls s));
  ri_seen : ∀ id, id ∈ omap start_of (rs_calls s) → id ∈ rs_seen s;
}.

Lemma RI_event s kind detail : RecoveryInv s → RecoveryInv (event s kind detail).
Proof. by intros []. Qed.

Lemma RI_called s call : start_of call = None → RecoveryInv s → RecoveryInv (called s call).
Proof.
  intros Hn [Hp Ho Hs].
  assert (omap start_of (rs_calls s ++ [call]) = omap start_of (rs_calls s)) as E.
  { rewrite omap_app. cbn. by rewrite Hn, app_nil_r. }
  split; cbn; rewrite ?E; try done.
  intros before c answer after Heq. destruct after as [|x after _] using rev_ind.
  - apply app_inj_tail in Heq as [_ ->]. done.
  - rewrite app_comm_cons, app_assoc in Heq. apply app_inj_tail in Heq as [Heq _]. by eapply Hp.
Qed.

Lemma RI_start s c answer :
  start_proved parse all (rs_calls s) c → rc_resource_id c ∈ rs_seen s →
  rc_resource_id c ∉ omap start_of (rs_calls s) → RecoveryInv s →
  RecoveryInv (called s (RcStart c answer)).
Proof.
  intros Hsp Hin Hnew [Hp Ho Hs].
  assert (omap start_of (rs_calls s ++ [RcStart c answer])
          = omap start_of (rs_calls s) ++ [rc_resource_id c]) as E by by rewrite omap_app.
  split; cbn; rewrite ?E.
  - intros before c' answer' after Heq. destruct after as [|x after _] using rev_ind.
    + apply app_inj_tail in Heq as [<- [= <- _]]. done.
    + rewrite app_comm_cons, app_assoc in Heq. apply app_inj_tail in Heq as [Heq _]. by eapply Hp.
  - apply NoDup_app. split_and!; [done| |apply NoDup_singleton].
    intros x Hx ->%list_elem_of_singleton. done.
  - intros x [Hx| ->%list_elem_of_singleton]%elem_of_app; [by apply Hs|done].
Qed.

Lemma RI_start_stopped s c :
  start_proved parse all (rs_calls s) c → rc_resource_id c ∈ rs_seen s →
  rc_resource_id c ∉ omap start_of (rs_calls s) → RecoveryInv s →
  RecoveryInv (start_stopped env s c).
Proof.
  intros. unfold start_stopped. set (answer := re_start env _ _).
  assert (RecoveryInv (called s (RcStart c answer))) as HI by by apply RI_start.
  destruct answer as [[u|e]|]; [|by apply RI_event..]. unfold confirm_start.
  set (inspected := re_inspect env _ _).
  assert (RecoveryInv (called (called s (RcStart c (Some (Ok u)))) (RcInspect c inspected))) as HI2
    by by apply RI_called.
  destruct inspected as [[[observed|]|]|]; [|by apply RI_event..].
  case_bool_decide; by apply RI_event.
Qed.

(** One contract, from its first check to the start. *)
Lemma RI_contract s c :
  (∃ detail, detail ∈ all ∧ parse_manifest_recovery_contract parse detail = Some c) →
  RecoveryInv s → RecoveryInv (flow_state (recover_contract print env s c)).
Proof.
  intros Hdetail HI. unfold recover_contract. case_bool_decide as Hseen; [done|].
  set (s1 := mark_seen s _).
  assert (rc_resource_id c ∉ omap start_of (rs_calls s1)) as Hnew
    by (intros Hin; by apply Hseen, (ri_seen _ HI)).
  assert (RecoveryInv s1) as H1.
  { destruct HI as [Hp Ho Hs]. split; [done|done|]. intros id Hid. cbn. apply Hs in Hid. set_solver. }
  assert (rc_resource_id c ∈ rs_seen s1) as Hin by (cbn; set_solver). clearbody s1. clear s HI Hseen.
  destruct (rc_autostart c) eqn:Hauto; [cbn [negb]|done].
  destruct (re_disabled env (rs_calls s1) c) as [[]|e]; cbn [flow_state];
    [by apply RI_event, RI_called| |by apply RI_called].
  set (s2 := called s1 _). assert (RecoveryInv s2) as H2 by by apply RI_called.
  destruct (re_deadline_zero env (rs_calls s2)); [by apply RI_event|].
  unfold recover_source, refuse_source. set (plan := re_plan env _ _ _ _).
  set (s3 := called s2 _). assert (RecoveryInv s3) as H3 by by apply RI_called.
  destruct plan as [[runtime|e]|]; [|by repeat apply RI_event..].
  destruct (String.eqb (rt_generation runtime) _ && _ && _) eqn:Hsrc;
    [|destruct (negb _); by repeat apply RI_event].
  apply andb_true_iff in Hsrc as [[Hgen Hguest]%andb_true_iff Hrt].
  apply String.eqb_eq in Hgen. apply eqb_prop in Hguest.
  unfold recover_authorized. destruct (re_authorized env (rs_calls s3) c) as [[]|e];
    [|by apply RI_event, RI_called|by apply RI_called].
  set (s4 := called s3 _). assert (RecoveryInv s4) as H4 by by apply RI_called.
  destruct (re_verify env (rs_calls s4) (rt_plan runtime) c); [|by apply RI_event, RI_called].
  set (s5 := called s4 _). assert (RecoveryInv s5) as H5 by by apply RI_called.
  unfold recover_observed. set (inspected := re_inspect env _ _).
  set (s6 := called s5 _). assert (RecoveryInv s6) as H6 by by apply RI_called.
  destruct inspected as [[[observed|]|]|]; [|by apply RI_event..].
  destruct (classify_manifest_recovery_observation c observed) as [state|] eqn:Hcl; [|by apply RI_event].
  destruct (String.eqb state "running") eqn:Hst; [by apply RI_event|].
  apply RI_start_stopped; [|done| |done].
  - assert (state = "stopped") as ->.
    { unfold classify_manifest_recovery_observation in Hcl.
      destruct (strip_prefix _ _); [|done]. cbn in Hcl. do 2 (case_match; [done|]).
      injection Hcl as <-. by destruct (ob_running observed). }
    split; try done; cbn.
    + rewrite !elem_of_app, !list_elem_of_singleton. auto 10.
    + exists runtime. rewrite !elem_of_app, !list_elem_of_singleton. auto 15.
    + rewrite !elem_of_app, !list_elem_of_singleton. auto 10.
    + eexists _, observed. split; [reflexivity|done].
  - cbn. rewrite !omap_app. cbn. by rewrite !app_nil_r.
Qed.

Lemma RI_loop details s :
  (∀ detail, detail ∈ details → detail ∈ all) → RecoveryInv s →
  RecoveryInv (recover_loop print parse env s details).2.
Proof.
  revert s. induction details as [|detail details IH]; intros s Hall HI; cbn [recover_loop]; [done|].
  assert (RecoveryInv (flow_state (recover_candidate print parse env s detail))) as HI1.
  { unfold recover_candidate. destruct (parse_manifest_recovery_contract parse detail) as [c|] eqn:E;
      [|by apply RI_event]. apply RI_contract; [|done]. exists detail. split; [|done].
    apply Hall. by left. }
  destruct (recover_candidate print parse env s detail) as [s1|s1|e s1]; [|done..].
  apply IH; [|done]. intros d Hd. apply Hall. by right.
Qed.
End safety.

(** C37. Recovery starts a container only after every proof: a stored contract that asked for
    autostart, not vetoed since, whose manifest still plans the same generation, authorised by
    the registry, with the creation profile verified against that very plan, and observed stopped
    under its exact identity by the call just before. No resource ID is started twice in one
    recovery. *)
Theorem recovery_starts_only_proved print parse env details before c answer after :
  rs_calls (recover_manifest_startup print parse env details).2
    = before ++ RcStart c answer :: after →
  start_proved parse details before c ∧
  rc_resource_id c ∉ omap start_of before ∧ rc_resource_id c ∉ omap start_of after.
Proof.
  intros Heq.
  destruct (RI_loop print parse env details details
    {| rs_seen := ∅; rs_events := []; rs_calls := [] |}) as [Hp Ho _].
  { done. }
  { split; cbn; [|constructor|by intros id ?%elem_of_nil].
    intros [|] ? ? ? ?; done. }
  split; [by eapply Hp|]. unfold recover_manifest_startup in Heq. rewrite Heq in Ho.
  rewrite omap_app in Ho. cbn in Ho. apply NoDup_app in Ho as (_ & Hd & [Ha _]%NoDup_cons).
  split; [|done]. intros Hin. apply (Hd _ Hin). by left.
Qed.

(** ** A run *)

Definition sample_contract : ManifestRecoveryContract :=
  {| rc_resource_id := "manifest-container:app"; rc_name := "bosn-app"; rc_workspace := "/w";
     rc_stack := "app"; rc_generation := "sha256:ab"; rc_manifest := "bosn.toml";
     rc_image_identity := "sha256:img"; rc_guest := false; rc_intent_id := "job-7";
     rc_autostart := true |}.
Definition sample_execution : SetupEnsureExecution :=
  {| ex_receipt := "ok";
     ex_resource := {| er_id := "manifest-container:app"; er_name := "bosn-app"; er_stack := "app";
                       er_generation := "sha256:ab"; er_workspace := "/w" |};
     ex_image := {| ei_id := "i"; ei_name := "i"; ei_stack := "app"; ei_generation := "sha256:img";
                    ei_workspace := "/w" |};
     ex_volumes := [];
     ex_manifest_autostart := true |}.
Definition sample_ensure : ManifestEnsureJobRequest :=
  {| me_workspace := "/w"; me_manifest := "bosn.toml"; me_stack := "app";
     me_deadline := 1; me_output_limit := 1 |}.

(** A printer for objects: the text is the object, coded by its position in an enumeration. *)
Definition enc (v : JsonValue) : string + bool + Z + unit :=
  match v with
  | JString s => inl (inl (inl s))
  | JBool b => inl (inl (inr b))
  | JNumber n => inl (inr n)
  | JOther => inr ()
  end.
#[global] Instance JsonValue_eq_dec : EqDecision JsonValue.
Proof. solve_decision. Defined.
#[global] Instance JsonValue_countable : Countable JsonValue.
Proof.
  refine (inj_countable' enc (λ e, match e with
    | inl (inl (inl s)) => JString s
    | inl (inl (inr b)) => JBool b
    | inl (inr n) => JNumber n
    | inr _ => JOther
    end) _). by intros [].
Defined.
Fixpoint unary (p : positive) : string :=
  match p with xH => "" | xO p => String "0" (unary p) | xI p => String "1" (unary p) end.
Fixpoint of_unary (s : string) : positive :=
  match s with
  | EmptyString => xH
  | String a s => if Ascii.eqb a "0" then xO (of_unary s) else xI (of_unary s)
  end.
Lemma of_unary_unary p : of_unary (unary p) = p.
Proof. induction p as [p IH|p IH|]; cbn; by rewrite ?IH. Qed.
Definition print_object (m : gmap string JsonValue) : string := unary (encode m).
Definition parse_object (s : string) : option (gmap string JsonValue) := decode (of_unary s).
Lemma parse_print_object m : parse_object (print_object m) = Some m.
Proof. unfold parse_object, print_object. by rewrite of_unary_unary, decode_encode. Qed.

Lemma recovery_contract_roundtrip_witness :
  parse_manifest_recovery_contract parse_object
    (manifest_recovery_contract_json print_object sample_contract) = Some sample_contract.
Proof.
  exact (recovery_contract_roundtrip print_object parse_object sample_ensure sample_execution 7
    sample_contract parse_print_object ltac:(split; vm_compute; discriminate) eq_refl).
Defined.

Definition stopped_app (running : bool) : SetupReconcileObserved :=
  {| ob_name := "/bosn-app"; ob_running := running; ob_image_identity := "sha256:img";
     ob_managed := "v1"; ob_content := "ab"; ob_container := "bosn-app" |}.
Definition sample_env : recovery_env :=
  {| re_disabled := λ _ _, Ok false; re_deadline_zero := λ _, false;
     re_plan := λ _ _ _ _, Some (Ok {| rt_plan := "p"; rt_generation := "sha256:ab"; rt_is_guest := false;
                                       rt_autostart := true |});
     re_authorized := λ _ _, Ok true; re_verify := λ _ _ _, true;
     re_inspect := λ calls _, Some (Ok (Some (stopped_app (5 <? length calls)%nat)));
     re_start := λ _ _, Some (Ok ()) |}.
Definition sample_parse (detail : string) : option (gmap string JsonValue) :=
  if String.eqb detail "c" then Some (contract_object sample_contract) else None.
Definition sample_calls : list recovery_call :=
  Eval vm_compute in
  rs_calls (recover_manifest_startup print_object sample_parse sample_env ["c"]).2.

Lemma recovery_starts_only_proved_witness :
  start_proved sample_parse ["c"] (take 5 sample_calls) sample_contract.
Proof.
  refine (proj1 (recovery_starts_only_proved print_object sample_parse sample_env ["c"]
    (take 5 sample_calls) sample_contract (Some (Ok ())) (drop 6 sample_calls) _)).
  vm_compute. reflexivity.
Defined.
