(* ===== verification/ManifestConverge.v ===== *)
(** * ManifestConverge: every stack of a manifest, one after the other

    The model of [execute_manifest_converge] ([bosn-service/src/job_loop.rs]) and of the planning
    it starts from ([manifest_plan.rs]): the output budget is split over the stacks, each stack
    is ensured and recorded before the next one starts, and the first failure ends the job. The
    executor, the job actor, the log and the clock answer arbitrarily per stack. [None] is a
    panic (a division by a stack count of zero, which planning rules out). *)

From stdpp Require Import pretty.
From S2P Require Export ManifestRecovery.

Local Open Scope string_scope.
Local Open Scope list_scope.
Local Open Scope Z_scope.
Local Open Scope bosn_scope.

(** [manifest_converge_stack_order] lists the keys of a [BTreeMap]; no stacks is an error. *)
Definition manifest_converge_stack_names (load : string → string → result string (gmap string unit))
    (request : ManifestConvergeJobRequest) : result string (list string) :=
  let? stacks := load (mc_workspace request) (mc_manifest request) in
  match btree_keys String.compare stacks with
  | [] => Err "manifest declares no stacks"
  | names => Ok names
  end.

(** What planning met: a cancellation, the deadline, or its own result. *)
Inductive planning := PlanCancelled | PlanTimedOut | Planned (names : result string (list string)).

(** What one stack's turn meets. *)
Record turn := {
  tu_cancelled : bool;
  tu_remaining : Z;
  tu_announced : bool;
  tu_execute : ManifestEnsureJobRequest → result string SetupEnsureExecution;
  tu_sent : bool;
  (** The actor's answer, or [None] when it stopped. *)
  tu_persisted : option (result string unit);
  tu_logged : bool;
}.

Inductive converge_effect :=
| CvEnsure (request : ManifestEnsureJobRequest)
| CvPersist (stack receipt : string) (answer : option (result string unit)).

Definition stopped_at (stack error : string) : string :=
  "manifest converge stopped at stack " +:+ stack +:+ ": " +:+ error.

Definition ensure_request (request : ManifestConvergeJobRequest) (stack : string)
    (remaining output_limit : Z) : ManifestEnsureJobRequest :=
  {| me_workspace := mc_workspace request; me_manifest := mc_manifest request; me_stack := stack;
     me_deadline := remaining; me_output_limit := output_limit |}.

(** The body of the loop for one stack: what it did, and the error that ends the job. *)
Definition converge_stack (id : Z) (request : ManifestConvergeJobRequest) (t : turn)
    (stack : string) (output_limit : Z) : list converge_effect * result string unit :=
  if tu_cancelled t || (tu_remaining t <=? 0)
  then ([], Err "manifest converge ended before the next stack")
  else if negb (tu_announced t) then ([], Err "manifest converge log consumer closed")
  else
    let ensure := ensure_request request stack (tu_remaining t) output_limit in
    match tu_execute t ensure with
    | Err e => ([CvEnsure ensure], Err (stopped_at stack e))
    | Ok execution =>
        match manifest_recovery_contract ensure execution id with
        | Err e => ([CvEnsure ensure], Err (stopped_at stack e))
        | Ok _ =>
            if negb (tu_sent t) then ([CvEnsure ensure], Err "manifest converge registry actor stopped")
            else
              let did := [CvEnsure ensure; CvPersist stack (ex_receipt execution) (tu_persisted t)] in
              match tu_persisted t with
              | None => (did, Err "manifest converge registry actor stopped")
              | Some (Err e) => (did, Err (stopped_at stack e))
              | Some (Ok _) =>
                  (did, if tu_logged t then Ok () else Err "manifest converge log consumer closed")
              end
        end
    end.

(** The output budget of the stack at [index]. *)
Definition stack_budget (output_limit stack_count : Z) (index : nat) : Z :=
  output_limit / stack_count + (if Z.of_nat index <? output_limit mod stack_count then 1 else 0).

Fixpoint converge_loop (id : Z) (request : ManifestConvergeJobRequest) (turns : nat → turn)
    (stack_count : Z) (index : nat) (stacks : list string) :
    list converge_effect * result string unit :=
  match stacks with
  | [] => ([], Ok ())
  | stack :: stacks' =>
      let '(did, r) := converge_stack id request (turns index) stack
        (stack_budget (mc_output_limit request) stack_count index) in
      match r with
      | Err e => (did, Err e)
      | Ok _ =>
          let '(rest, r) := converge_loop id request turns stack_count (S index) stacks' in
          (did ++ rest, r)
      end
  end.

Definition execute_manifest_converge (id : Z) (request : ManifestConvergeJobRequest)
    (plan : planning) (turns : nat → turn) : option (list converge_effect * result string string) :=
  match plan with
  | PlanCancelled => Some ([], Err "manifest converge cancelled before topology planning")
  | PlanTimedOut => Some ([], Err "manifest converge planning exceeded its deadline")
  | Planned (Err e) => Some ([], Err e)
  | Planned (Ok stacks) =>
      let stack_count := Z.of_nat (length stacks) in
      if mc_output_limit request <? u64_saturating_mul stack_count 2
      then Some ([], Err "manifest converge output budget cannot fund every stack")
      else if stack_count =? 0 then None
      else
        let '(did, r) := converge_loop id request turns stack_count 0 stacks in
        Some (did, match r with
                   | Ok _ => Ok ("converged " +:+ pretty stack_count +:+ " manifest stack(s)")
                   | Err e => Err e
                   end)
  end.

(** ** The budget *)

Lemma sum_budget_prefix limit count n :
  0 < count → 0 ≤ limit → (n ≤ Z.to_nat count)%nat →
  sumZ (stack_budget limit count <$> seq 0 n)
  = limit / count * Z.of_nat n + Z.min (Z.of_nat n) (limit mod count).
Proof.
  intros Hc Hl. pose proof (Z.mod_pos_bound limit count Hc) as Hm.
  induction n as [|n IH]; intros Hn; [cbn; lia|].
  rewrite seq_S, fmap_app, sumZ_app, IH by lia. cbn. unfold stack_budget.
  destruct (Z.ltb_spec (Z.of_nat n) (limit mod count)); lia.
Qed.

(** The budget is split without loss and without favour: over a plan the limits passed to the
    stacks add up to the job's limit, differ by at most one, and none is below two bytes. *)
Theorem converge_budget_conserved (limit : Z) (stacks : list string) :
  stacks ≠ [] → in_u64 limit → u64_saturating_mul (Z.of_nat (length stacks)) 2 ≤ limit →
  Z.of_nat (length stacks) * 2 ≤ u64_max →
  sumZ (stack_budget limit (Z.of_nat (length stacks)) <$> seq 0 (length stacks)) = limit ∧
  ∀ i, 2 ≤ stack_budget limit (Z.of_nat (length stacks)) i ∧
    limit / Z.of_nat (length stacks) ≤ stack_budget limit (Z.of_nat (length stacks)) i
      ≤ limit / Z.of_nat (length stacks) + 1.
Proof.
  intros Hne Hl Hmin Hmax. set (count := Z.of_nat (length stacks)) in *.
  assert (0 < count) as Hc by (destruct stacks; [done|unfold count; cbn; lia]).
  unfold in_u64, u64_saturating_mul in *. split.
  - rewrite sum_budget_prefix; [|lia..]. pose proof (Z.mod_pos_bound limit count Hc).
    pose proof (Z.div_mod limit count ltac:(lia)). fold count. lia.
  - intros i. assert (2 ≤ limit / count) by (apply Z.div_le_lower_bound; lia).
    unfold stack_budget. case_match; lia.
Qed.

Lemma converge_budget_conserved_witness :
  sumZ (stack_budget 7 3 <$> seq 0 3) = 7.
Proof.
  refine (proj1 (converge_budget_conserved 7 ["a"; "b"; "c"] _ _ _ _)); [done|..];
    vm_compute; (split; discriminate) || discriminate.
Defined.

(** ** Order and recording *)

(** The effects of the stacks that succeeded, in order. *)
Definition ensured (request : ManifestConvergeJobRequest) (turns : nat → turn) (count : Z)
    (index : nat) (stack receipt : string) : list converge_effect :=
  [CvEnsure (ensure_request request stack (tu_remaining (turns index))
     (stack_budget (mc_output_limit request) count index));
   CvPersist stack receipt (Some (Ok ()))].

Inductive converged (request : ManifestConvergeJobRequest) (turns : nat → turn) (count : Z) :
    nat → list string → list converge_effect → Prop :=
| converged_nil index : converged request turns count index [] []
| converged_cons index stack receipt stacks did :
    converged request turns count (S index) stacks did →
    converged request turns count index (stack :: stacks)
      (ensured request turns count index stack receipt ++ did).

Lemma converge_stack_Ok id request t stack limit did :
  converge_stack id request t stack limit = (did, Ok ()) →
  ∃ receipt, did = [CvEnsure (ensure_request request stack (tu_remaining t) limit);
                    CvPersist stack receipt (Some (Ok ()))].
Proof.
  unfold converge_stack. destruct (_ || _); [done|]. destruct (negb (tu_announced t)); [done|].
  destruct (tu_execute t _) as [execution|]; [|done].
  destruct (manifest_recovery_contract _ _ _); [|done].
  destruct (negb (tu_sent t)); [done|].
  destruct (tu_persisted t) as [[[]|]|]; [|done..]. destruct (tu_logged t); [|done].
  intros [= <-]. eauto.
Qed.

(** A stack's turn ensures at most itself, and records only what it ensured. *)
Lemma converge_stack_effects id request t stack limit did r :
  converge_stack id request t stack limit = (did, r) →
  ∃ receipt answer, did `prefix_of`
    [CvEnsure (ensure_request request stack (tu_remaining t) limit); CvPersist stack receipt answer].
Proof.
  set (ensure := ensure_request request stack (tu_remaining t) limit).
  unfold converge_stack. fold ensure. intros Heq.
  assert (did = [] ∨ did = [CvEnsure ensure] ∨
    ∃ receipt answer, did = [CvEnsure ensure; CvPersist stack receipt answer]) as Hdid
    by (repeat (case_match; simplify_eq); eauto 6).
  destruct Hdid as [->|[->|(receipt & answer & ->)]].
  - exists "", None. apply prefix_nil.
  - exists "", None. by eexists [_].
  - exists receipt, answer. done.
Qed.

(** Convergence goes stack by stack: on every outcome the effects are those of a prefix of the
    planned stacks, each ensured under its share of the budget and durably recorded before the
    next stack is touched, followed by at most one turn that failed; the job succeeds exactly
    when every stack was recorded. *)
Theorem converge_records_each_stack id request stacks turns :
  stacks ≠ [] → u64_saturating_mul (Z.of_nat (length stacks)) 2 ≤ mc_output_limit request →
  ∃ did r done_ rest complete partial,
    execute_manifest_converge id request (Planned (Ok stacks)) turns = Some (did, r) ∧
    stacks = done_ ++ rest ∧ did = complete ++ partial ∧
    converged request turns (Z.of_nat (length stacks)) 0 done_ complete ∧
    match rest with
    | [] => partial = []
    | stack :: _ => ∃ receipt answer, partial `prefix_of`
        [CvEnsure (ensure_request request stack (tu_remaining (turns (length done_)))
           (stack_budget (mc_output_limit request) (Z.of_nat (length stacks)) (length done_)));
         CvPersist stack receipt answer]
    end ∧
    (is_ok r = true ↔ rest = []).
Proof.
  intros Hne Hmin. unfold execute_manifest_converge.
  rewrite (proj2 (Z.ltb_ge _ _) Hmin). set (count := Z.of_nat (length stacks)).
  assert (count =? 0 = false) as -> by (apply Z.eqb_neq; destruct stacks; [done|unfold count; cbn; lia]).
  assert (∀ l index, ∃ done_ rest complete partial,
    let '(did, r) := converge_loop id request turns count index l in
    l = done_ ++ rest ∧ did = complete ++ partial ∧
    converged request turns count index done_ complete ∧
    match rest with
    | [] => partial = []
    | stack :: _ => ∃ receipt answer, partial `prefix_of`
        [CvEnsure (ensure_request request stack (tu_remaining (turns (index + length done_)%nat))
           (stack_budget (mc_output_limit request) count (index + length done_)));
         CvPersist stack receipt answer]
    end ∧ (is_ok r = true ↔ rest = [])) as Hloop.
  { induction l as [|stack l IH]; intros index; cbn [converge_loop].
    { exists [], [], [], []. split_and!; try done. constructor. }
    destruct (converge_stack _ _ _ _ _) as [did [[]|e]] eqn:Hs.
    - destruct (converge_stack_Ok _ _ _ _ _ _ Hs) as (receipt & ->).
      destruct (IH (S index)) as (dn & rest & complete & partial & Hrest).
      destruct (converge_loop id request turns count (S index) l) as [did r].
      destruct Hrest as (-> & -> & Hconv & Hpart & Hok).
      exists (stack :: dn), rest, (ensured request turns count index stack receipt ++ complete), partial.
      split_and!; [done|done|by constructor| |done].
      cbn [length]. by rewrite <-Nat.add_succ_comm.
    - exists [], (stack :: l), [], did. split_and!; [done|done|constructor| |done].
      cbn [length]. rewrite Nat.add_0_r. by eapply converge_stack_effects. }
  destruct (Hloop stacks 0%nat) as (dn & rest & complete & partial & H).
  destruct (converge_loop id request turns count 0 stacks) as [did r].
  destruct H as (Hst & Hdid & Hconv & Hpart & Hok).
  eexists did, _, dn, rest, complete, partial. split_and!; [done..|]. by destruct r.
Qed.

Definition good_turn : turn :=
  {| tu_cancelled := false; tu_remaining := 5; tu_announced := true;
     tu_execute := λ r, if String.eqb (me_stack r) "app" then Ok sample_execution else Err "no";
     tu_sent := true; tu_persisted := Some (Ok ()); tu_logged := true |}.
Definition sample_converge : ManifestConvergeJobRequest :=
  {| mc_workspace := "/w"; mc_manifest := "bosn.toml"; mc_deadline := 9; mc_output_limit := 5 |}.

Lemma converge_records_each_stack_witness :
  ∃ did r, execute_manifest_converge 7 sample_converge (Planned (Ok ["app"; "db"]))
    (λ _, good_turn) = Some (did, r) ∧ is_ok r = false ∧ length did = 3%nat.
Proof.
  destruct (converge_records_each_stack 7 sample_converge ["app"; "db"] (λ _, good_turn))
    as (did & r & _ & _ & _ & _ & Heq & _); [done|vm_compute; discriminate|].
  exists did, r. split; [exact Heq|]. vm_compute in Heq. injection Heq as <- <-. by split.
Defined.
