(* ===== verification/Runners.v ===== *)
(** * Runners: what each running task job holds

    The model of [bosn-service/src/runners.rs]: the registry of runs, the cache volumes they
    lease and the volume mapping of a job's containers. [System] is every daemon of one user on
    one machine with the table of OS file locks they share; the lock directory and the Docker
    API answer as given per call ([LockFault], [volume_api]); a lock directory that cannot be
    created is one of those answers, and a lease taken then keeps [DevNull] for its lock file.
    [Writer]s are the runs an exclusive lease was returned to. [flock] itself is modelled by its
    documented behaviour: one holder per file, dropped when released or when its process ends.
    [short_hash] is blake3, a parameter. *)

From stdpp Require Import pretty.
From S2P Require Export Capacity.

Local Open Scope string_scope.
Local Open Scope list_scope.
Local Open Scope Z_scope.
Local Open Scope bosn_scope.

Definition LABEL_RUN : string := "com.zackees.bosn.run".
Definition LABEL_DAEMON : string := "com.zackees.bosn.daemon".
Definition LABEL_JOB : string := "com.zackees.bosn.job".
Definition LABEL_SLOT : string := "com.zackees.bosn.slot".
Definition LABEL_CACHE : string := "com.zackees.bosn.cache".
Definition LABEL_CACHE_KEY : string := "com.zackees.bosn.cache-key".

Inductive CacheMode := Exclusive | Shared.
Inductive CacheScope := ScopeMachine | ScopeRepo | ScopeWorkspace.

Record CacheRule := {
  cr_name : string;
  cr_volume : option string;
  cr_destination : option string;
  cr_scope : CacheScope;
  cr_mode : CacheMode;
  cr_replicas : nat;
}.

Definition act_toolcache : CacheRule :=
  {| cr_name := "act-toolcache"; cr_volume := Some "act-toolcache"; cr_destination := None;
     cr_scope := ScopeMachine; cr_mode := Exclusive; cr_replicas := 4 |}.

Record RunRecord := {
  rr_job_id : Z;
  rr_run : string;
  rr_workspace : string;
  rr_stack : string;
  rr_task : string;
  rr_slot : option nat;
  rr_nano_cpus : Z;
  rr_memory : option Z;
  rr_started_ms : Z;
  rr_container : option string;
  rr_proxy_socket : option string;
  rr_caches : list string;
}.

Definition with_caches (r : RunRecord) (caches : list string) : RunRecord :=
  {| rr_job_id := rr_job_id r; rr_run := rr_run r; rr_workspace := rr_workspace r;
     rr_stack := rr_stack r; rr_task := rr_task r; rr_slot := rr_slot r;
     rr_nano_cpus := rr_nano_cpus r; rr_memory := rr_memory r; rr_started_ms := rr_started_ms r;
     rr_container := rr_container r; rr_proxy_socket := rr_proxy_socket r; rr_caches := caches |}.

Inductive Lease := Kept (name : string) | Private (name : string).
Definition lease_name (l : Lease) : string := match l with Kept name | Private name => name end.

Record CacheKeys := { ck_repo : string; ck_workspace : string }.
Definition cache_key (keys : CacheKeys) (scope : CacheScope) : string :=
  match scope with
  | ScopeMachine => "m"
  | ScopeRepo => ck_repo keys
  | ScopeWorkspace => ck_workspace keys
  end.

(** The fixed parts of one daemon process. *)
Record RunnersConfig := {
  ru_capacity : RunnerCapacity;
  ru_daemon : string;
  ru_instance : string;
}.

(** The open file kept beside an exclusive lease: the replica's lock file, locked (see
    [System]), or [/dev/null], which excludes nobody outside this process. *)
Inductive LockFile := Locked | DevNull.
#[export] Instance LockFile_eq_dec : EqDecision LockFile.
Proof. solve_decision. Defined.

(** Its mutable state: the runs, the volumes' holders, the exclusive leases (the holding job and
    the file) and the ledger file. *)
Record Daemon := {
  da_runs : gmap Z RunRecord;
  da_holders : gmap string (gset Z);
  da_locks : gmap string (Z * LockFile);
  da_ledger : list RunRecord;
}.
Definition Daemon_new (ledger : list RunRecord) : Daemon :=
  {| da_runs := ∅; da_holders := ∅; da_locks := ∅; da_ledger := ledger |}.

Definition run_label (cfg : RunnersConfig) (job_id : Z) : string :=
  ru_daemon cfg +:+ "-" +:+ ru_instance cfg +:+ "-" +:+ pretty job_id.

Definition run_labels (cfg : RunnersConfig) (record : RunRecord) : gmap string string :=
  let labels := list_to_map
    [(LABEL_RUN, rr_run record); (LABEL_DAEMON, ru_daemon cfg); (LABEL_JOB, pretty (rr_job_id record))] in
  match rr_slot record with
  | Some slot => <[LABEL_SLOT := pretty (Z.of_nat slot)]> labels
  | None => labels
  end.

(** Write the ledger; a failed write leaves the file as it was. *)
Definition persist (d : Daemon) (written : bool) : Daemon :=
  {| da_runs := da_runs d; da_holders := da_holders d; da_locks := da_locks d;
     da_ledger := if written then btree_values Z.compare (da_runs d) else da_ledger d |}.

Definition begin_run (cfg : RunnersConfig) (d : Daemon) (job_id : Z) (workspace stack task : string)
    (slot : option nat) (now_ms : Z) (written : bool) : RunRecord * Daemon :=
  let record :=
    {| rr_job_id := job_id; rr_run := run_label cfg job_id; rr_workspace := workspace;
       rr_stack := stack; rr_task := task; rr_slot := slot;
       rr_nano_cpus := nano_cpus (ru_capacity cfg);
       rr_memory := rc_memory_per_slot (ru_capacity cfg); rr_started_ms := now_ms;
       rr_container := None; rr_proxy_socket := None; rr_caches := [] |} in
  (record,
   persist {| da_runs := <[job_id := record]> (da_runs d); da_holders := da_holders d;
              da_locks := da_locks d; da_ledger := da_ledger d |} written).

Definition update_run (d : Daemon) (job_id : Z) (change : RunRecord → RunRecord) (written : bool) :
    Daemon :=
  match da_runs d !! job_id with
  | None => d
  | Some run =>
      persist {| da_runs := <[job_id := change run]> (da_runs d); da_holders := da_holders d;
                 da_locks := da_locks d; da_ledger := da_ledger d |} written
  end.

(** The OS locks of one user: which daemon process holds each cache volume's lock file. *)
Notation OsLocks := (gmap string nat).

(** Forget a finished run, its holds and its locks. *)
Definition finish_run (d : Daemon) (os : OsLocks) (job_id : Z) (written : bool) :
    option RunRecord * Daemon * OsLocks :=
  match da_runs d !! job_id with
  | None => (None, d, os)
  | Some run =>
      let holders := filter (λ e : string * gset Z, e.2 ≠ ∅)
        ((λ h : gset Z, h ∖ {[job_id]}) <$> da_holders d) in
      let locks := filter (λ e : string * (Z * LockFile), e.2.1 ≠ job_id) (da_locks d) in
      let os := filter (λ e : string * nat, da_locks d !! e.1 ≠ Some (job_id, Locked)) os in
      (Some run,
       persist {| da_runs := delete job_id (da_runs d); da_holders := holders; da_locks := locks;
                  da_ledger := da_ledger d |} written,
       os)
  end.

(** ** Cache leases *)

Inductive LockFault :=
| LockHealthy
(** The lock directory cannot be created: the daemon falls back to its own bookkeeping. *)
| LockNoDirectory (dev_null : bool)
| LockFailed (error : string).

Definition try_lock (me : nat) (os : OsLocks) (volume : string) (fault : LockFault) :
    result string (option LockFile) * OsLocks :=
  match fault with
  | LockNoDirectory true => (Ok (Some DevNull), os)
  | LockNoDirectory false => (Err "/dev/null", os)
  | LockFailed error => (Err error, os)
  | LockHealthy =>
      match os !! volume with
      | Some _ => (Ok None, os)
      | None => (Ok (Some Locked), <[volume := me]> os)
      end
  end.

Definition cache_base (rule : CacheRule) (key : string) : string :=
  "bosn-cache-" +:+ key +:+ "-" +:+ cr_name rule.
Definition replica (base : string) (i : nat) : string := base +:+ "-" +:+ pretty (Z.of_nat i).

(** The loop over the replicas of an exclusive cache. *)
Fixpoint pick_replica (me : nat) (job_id : Z) (fault : string → LockFault)
    (locks : gmap string (Z * LockFile)) (os : OsLocks) (candidates : list string) :
    result string (option string) * gmap string (Z * LockFile) * OsLocks :=
  match candidates with
  | [] => (Ok None, locks, os)
  | name :: candidates' =>
      match locks !! name with
      | Some (holder, _) =>
          if holder =? job_id then (Ok (Some name), locks, os)
          else pick_replica me job_id fault locks os candidates'
      | None =>
          match try_lock me os name (fault name) with
          | (Err e, os) => (Err e, locks, os)
          | (Ok (Some file), os) => (Ok (Some name), <[name := (job_id, file)]> locks, os)
          | (Ok None, os) => pick_replica me job_id fault locks os candidates'
          end
      end
  end.

Record volume_api := {
  va_exists : string → result string bool;
  va_create : string → list (string * string) → result string unit;
}.

(** Create the leased volume when it is missing; a private one carries the run's label. *)
Definition ensure_volume (cfg : RunnersConfig) (api : option volume_api) (rule : CacheRule)
    (key : string) (job_id : Z) (l : Lease) : result string (option (list (string * string))) :=
  match api with
  | None => Ok None
  | Some api =>
      let? there := va_exists api (lease_name l) in
      if there then Ok None
      else
        let labels :=
          [(LABEL_CACHE, cr_name rule); (LABEL_CACHE_KEY, key); (LABEL_DAEMON, ru_daemon cfg)]
          ++ match l with Private _ => [(LABEL_RUN, run_label cfg job_id)] | Kept _ => [] end in
        let? _ := va_create api (lease_name l) labels in
        Ok (Some labels)
  end.

Definition hold_volume (d : Daemon) (locks : gmap string (Z * LockFile)) (job_id : Z) (pick : option string) :
    Daemon :=
  {| da_runs := da_runs d;
     da_holders := match pick with
                   | Some name => entry_update (da_holders d) name ∅ (λ h, {[job_id]} ∪ h)
                   | None => da_holders d
                   end;
     da_locks := locks; da_ledger := da_ledger d |}.

Definition private_name (cfg : RunnersConfig) (base : string) (job_id : Z) : string :=
  base +:+ "-x" +:+ pretty job_id +:+ "-" +:+ ru_instance cfg.

Definition push_cache (name : string) (r : RunRecord) : RunRecord :=
  if bool_decide (name ∈ rr_caches r) then r else with_caches r (rr_caches r ++ [name]).

Definition lease_cache (cfg : RunnersConfig) (me : nat) (d : Daemon) (os : OsLocks) (job_id : Z)
    (rule : CacheRule) (key : string) (fault : string → LockFault) (api : option volume_api)
    (written : bool) : result string Lease * Daemon * OsLocks :=
  let base := cache_base rule key in
  let '(chosen, locks, os) :=
    match cr_mode rule with
    | Shared => (Ok (Some base), da_locks d, os)
    | Exclusive =>
        pick_replica me job_id fault (da_locks d) os
          (replica base <$> seq 0 (Nat.max (cr_replicas rule) 1))
    end in
  match chosen with
  | Err e => (Err e, hold_volume d locks job_id None, os)
  | Ok pick =>
      let d := hold_volume d locks job_id pick in
      let l := match pick with
               | Some name => Kept name
               | None => Private (private_name cfg base job_id)
               end in
      match ensure_volume cfg api rule key job_id l with
      | Err e => (Err e, d, os)
      | Ok _ => (Ok l, update_run d job_id (push_cache (lease_name l)) written, os)
      end
  end.

(** ** Strays *)

(** Run labels of this daemon that name no live run; [objects] are the labels of the
    containers, networks and volumes that carry a run label. *)
Definition stray_runs (cfg : RunnersConfig) (d : Daemon) (objects : list (gmap string string)) :
    gset string :=
  let live : gset string := list_to_set (rr_run <$> btree_values Z.compare (da_runs d)) in
  list_to_set (omap (λ labels : gmap string string,
    run ← labels !! LABEL_RUN;
    if bool_decide (labels !! LABEL_DAEMON = Some (ru_daemon cfg)) && negb (bool_decide (run ∈ live))
    then Some run else None) objects).

(** ** The daemons of one machine *)

Record System := { sy_daemons : gmap nat Daemon; sy_os : OsLocks }.

Inductive runners_op :=
| RoStart (me : nat) (ledger : list RunRecord)
| RoBegin (cfg : RunnersConfig) (me : nat) (job_id : Z) (workspace stack task : string)
    (slot : option nat) (now_ms : Z) (written : bool)
| RoLease (cfg : RunnersConfig) (me : nat) (job_id : Z) (rule : CacheRule) (key : string)
    (fault : string → LockFault) (api : option volume_api) (written : bool)
| RoFinish (me : nat) (job_id : Z) (written : bool)
(** The process ends: the kernel drops its locks. *)
| RoDie (me : nat).

Definition runners_step (s : System) (op : runners_op) : System :=
  match op with
  | RoStart me ledger =>
      match sy_daemons s !! me with
      | Some _ => s
      | None => {| sy_daemons := <[me := Daemon_new ledger]> (sy_daemons s); sy_os := sy_os s |}
      end
  | RoBegin cfg me job_id workspace stack task slot now_ms written =>
      match sy_daemons s !! me with
      | None => s
      | Some d =>
          {| sy_daemons := <[me := (begin_run cfg d job_id workspace stack task slot now_ms written).2]>
               (sy_daemons s); sy_os := sy_os s |}
      end
  | RoLease cfg me job_id rule key fault api written =>
      match sy_daemons s !! me with
      | None => s
      | Some d =>
          let '(_, d, os) := lease_cache cfg me d (sy_os s) job_id rule key fault api written in
          {| sy_daemons := <[me := d]> (sy_daemons s); sy_os := os |}
      end
  | RoFinish me job_id written =>
      match sy_daemons s !! me with
      | None => s
      | Some d =>
          let '(_, d, os) := finish_run d (sy_os s) job_id written in
          {| sy_daemons := <[me := d]> (sy_daemons s); sy_os := os |}
      end
  | RoDie me =>
      {| sy_daemons := delete me (sy_daemons s);
         sy_os := filter (λ e : string * nat, e.2 ≠ me) (sy_os s) |}
  end.

(** A run that was handed the replica [wr_volume] of an exclusive cache and has not ended. *)
Record Writer := { wr_daemon : nat; wr_job : Z; wr_volume : string }.

(** The exclusive lease an operation returns to its caller. *)
Definition leased_replica (s : System) (op : runners_op) : option Writer :=
  match op with
  | RoLease cfg me job_id rule key fault api written =>
      d ← sy_daemons s !! me;
      match cr_mode rule,
            (lease_cache cfg me d (sy_os s) job_id rule key fault api written).1.1 with
      | Exclusive, Ok (Kept v) =>
          Some {| wr_daemon := me; wr_job := job_id; wr_volume := v |}
      | _, _ => None
      end
  | _ => None
  end.

(** The operation leaves [w] writing: it neither finishes its recorded run nor ends its
    daemon. *)
Definition still_writing (s : System) (op : runners_op) (w : Writer) : bool :=
  match op with
  | RoFinish me job_id _ =>
      negb (bool_decide (wr_daemon w = me) && (wr_job w =? job_id)
            && bool_decide (is_Some (d ← sy_daemons s !! me; da_runs d !! job_id)))
  | RoDie me => negb (bool_decide (wr_daemon w = me))
  | _ => true
  end.

(** Every state any sequence of operations leads to, with the runs writing exclusive caches
    according to the leases that were returned. *)
Inductive system_reachable : System → list Writer → Prop :=
| system_start : system_reachable {| sy_daemons := ∅; sy_os := ∅ |} []
| system_step s ws op :
    system_reachable s ws →
    system_reachable (runners_step s op)
      (option_list (leased_replica s op) ++ List.filter (still_writing s op) ws).

(** ** One writer per exclusive cache *)

(** Daemon [me] leases [v] to [job_id] and keeps [file] for it. *)
Definition leases_to (s : System) (me : nat) (v : string) (job_id : Z) (file : LockFile) : Prop :=
  ∃ d, sy_daemons s !! me = Some d ∧ da_locks d !! v = Some (job_id, file).

(** The locked files and the OS locks agree, in both directions. *)
Definition SystemInv (s : System) : Prop :=
  ∀ v me, sy_os s !! v = Some me ↔ ∃ job_id, leases_to s me v job_id Locked.

(** Every writer is its daemon's recorded holder. *)
Definition WritersInv (s : System) (ws : list Writer) : Prop :=
  ∀ w, w ∈ ws → ∃ file, leases_to s (wr_daemon w) (wr_volume w) (wr_job w) file.

(** What one attempt at the replicas does to the leases and the OS locks. *)
Definition takes (me : nat) (job_id : Z) (locks : gmap string (Z * LockFile)) (os : OsLocks)
    (locks' : gmap string (Z * LockFile)) (os' : OsLocks) : Prop :=
  (locks' = locks ∧ os' = os) ∨
  ∃ v, locks !! v = None ∧
    ((os !! v = None ∧ locks' = <[v := (job_id, Locked)]> locks ∧ os' = <[v := me]> os) ∨
     (locks' = <[v := (job_id, DevNull)]> locks ∧ os' = os)).

(** The replica picked is then this job's; no other job's lease is touched. *)
Lemma pick_replica_takes me job_id fault locks os candidates r locks' os' :
  pick_replica me job_id fault locks os candidates = (r, locks', os') →
  takes me job_id locks os locks' os' ∧
  ∀ v, r = Ok (Some v) → ∃ file, locks' !! v = Some (job_id, file).
Proof.
  induction candidates as [|name l IH]; cbn [pick_replica].
  { intros [= <- <- <-]. split; [by left|done]. }
  destruct (locks !! name) as [[holder file]|] eqn:Hl.
  { destruct (Z.eqb_spec holder job_id) as [->|]; [|done]. intros [= <- <- <-].
    split; [by left|]. intros v [= <-]. eauto. }
  unfold try_lock. destruct (fault name) as [|[]|e] eqn:Hn.
  - destruct (os !! name) eqn:Ho; [done|]. intros [= <- <- <-].
    split; [right; exists name; by eauto|]. intros v [= <-]. rewrite lookup_insert_eq. eauto.
  - intros [= <- <- <-]. split; [right; exists name; by eauto|].
    intros v [= <-]. rewrite lookup_insert_eq. eauto.
  - intros [= <- <- <-]. split; [by left|done].
  - intros [= <- <- <-]. split; [by left|done].
Qed.

Lemma update_run_locks d job_id change written :
  da_locks (update_run d job_id change written) = da_locks d.
Proof. unfold update_run. by destruct (da_runs d !! job_id). Qed.

Lemma lease_cache_takes cfg me d os job_id rule key fault api written r d' os' :
  lease_cache cfg me d os job_id rule key fault api written = (r, d', os') →
  takes me job_id (da_locks d) os (da_locks d') os' ∧
  ∀ v, cr_mode rule = Exclusive → r = Ok (Kept v) → ∃ file, da_locks d' !! v = Some (job_id, file).
Proof.
  unfold lease_cache.
  destruct (match cr_mode rule with Exclusive => _ | Shared => _ end) as [[chosen locks] os1] eqn:Hp.
  assert (takes me job_id (da_locks d) os locks os1 ∧
    ∀ v, cr_mode rule = Exclusive → chosen = Ok (Some v) →
      ∃ file, locks !! v = Some (job_id, file)) as [Ht Hc].
  { destruct (cr_mode rule).
    - apply pick_replica_takes in Hp as [Ht Hc]. split; [done|]. intros v _. apply Hc.
    - injection Hp as <- <- <-. split; [by left|done]. }
  destruct chosen as [pick|e]; [|intros [= <- <- <-]; by split].
  destruct (ensure_volume _ _ _ _ _ _); intros [= <- <- <-]; [|by split].
  rewrite update_run_locks. split; [done|]. intros v Hm Hl. apply Hc; [done|].
  destruct pick; [|discriminate Hl]. by injection Hl as ->.
Qed.

Lemma takes_keeps me job_id locks os locks' os' v l :
  takes me job_id locks os locks' os' → locks !! v = Some l → locks' !! v = Some l.
Proof.
  intros [[-> _]|(v0 & Hn & [(_ & -> & _)|[-> _]])] Hv; [done| |];
    (rewrite lookup_insert_ne; [done|congruence]).
Qed.

Lemma leases_to_insert s me d' os' who v j f :
  leases_to {| sy_daemons := <[me := d']> (sy_daemons s); sy_os := os' |} who v j f ↔
  if decide (who = me) then da_locks d' !! v = Some (j, f) else leases_to s who v j f.
Proof.
  unfold leases_to. cbn. destruct (decide (who = me)) as [->|Hne].
  - rewrite lookup_insert_eq. split; [by intros (d & [= <-] & ?)|eauto].
  - by rewrite lookup_insert_ne.
Qed.

(** The state of one daemon and the locks change together. *)
Lemma SystemInv_set s me d' os' :
  SystemInv s →
  (∀ v, os' !! v = Some me ↔ ∃ j, da_locks d' !! v = Some (j, Locked)) →
  (∀ v other, other ≠ me → os' !! v = Some other ↔ sy_os s !! v = Some other) →
  SystemInv {| sy_daemons := <[me := d']> (sy_daemons s); sy_os := os' |}.
Proof.
  intros HI Hme Hother v who. setoid_rewrite leases_to_insert. cbn.
  destruct (decide (who = me)) as [->|Hne]; [by rewrite Hme|]. rewrite Hother by done. apply HI.
Qed.

(** What a daemon's own table says of the OS locks. *)
Lemma SystemInv_own s me d v :
  SystemInv s → sy_daemons s !! me = Some d →
  sy_os s !! v = Some me ↔ ∃ j, da_locks d !! v = Some (j, Locked).
Proof.
  intros HI Hd. rewrite (HI v me). unfold leases_to. split.
  - intros (j & d0 & Hd0 & ?). exists j. by assert (d0 = d) as -> by congruence.
  - intros [j Hj]. eauto.
Qed.

Lemma SystemInv_takes s me d d' os' job_id :
  SystemInv s → sy_daemons s !! me = Some d →
  takes me job_id (da_locks d) (sy_os s) (da_locks d') os' →
  SystemInv {| sy_daemons := <[me := d']> (sy_daemons s); sy_os := os' |}.
Proof.
  intros HI Hd Ht. pose proof (λ v, SystemInv_own s me d v HI Hd) as Hown.
  apply SystemInv_set; [done| |];
    destruct Ht as [[El ->]|(v0 & Hn & [(Ho & El & ->)|[El ->]])]; rewrite ?El; [done| | |done| |done].
  - intros v. destruct (decide (v = v0)) as [->|Hne].
    + rewrite !lookup_insert_eq. naive_solver.
    + rewrite !lookup_insert_ne by done. apply Hown.
  - intros v. rewrite Hown. destruct (decide (v = v0)) as [->|Hne].
    + rewrite lookup_insert_eq, Hn. naive_solver.
    + by rewrite lookup_insert_ne by done.
  - intros v other Hne. destruct (decide (v = v0)) as [->|Hne'].
    + rewrite lookup_insert_eq, Ho. split; congruence.
    + by rewrite lookup_insert_ne by done.
Qed.

Lemma SystemInv_finish s me d job_id written r d' os' :
  SystemInv s → sy_daemons s !! me = Some d →
  finish_run d (sy_os s) job_id written = (r, d', os') →
  SystemInv {| sy_daemons := <[me := d']> (sy_daemons s); sy_os := os' |}.
Proof.
  intros HI Hd. pose proof (λ v, SystemInv_own s me d v HI Hd) as Hown. unfold finish_run.
  destruct (da_runs d !! job_id) as [run|]; intros [= _ <- <-]; [|by apply SystemInv_set].
  apply SystemInv_set; [done| |].
  - intros v. cbn. rewrite map_lookup_filter_Some. cbn. rewrite Hown. split.
    + intros [[j Hj] Hne]. exists j. apply map_lookup_filter_Some. split; [done|]. cbn. congruence.
    + intros [j [Hj Hne]%map_lookup_filter_Some]. cbn in Hne. split; [by eexists|congruence].
  - intros v other Hne. rewrite map_lookup_filter_Some. cbn. split; [by intros []|].
    intros Ho. split; [done|]. intros Hj.
    assert (sy_os s !! v = Some me) by (apply Hown; by eexists). congruence.
Qed.

Lemma SystemInv_step s op : SystemInv s → SystemInv (runners_step s op).
Proof.
  intros HI.
  destruct op as [me ledger|cfg me job ws st task slot now w|cfg me job rule key fault api w|me job w|me];
    cbn [runners_step]; try (destruct (sy_daemons s !! me) as [d|] eqn:Hd; [|done]).
  - destruct (sy_daemons s !! me) as [d|] eqn:Hd; [done|].
    apply SystemInv_set; [done| |done]. intros v. cbn. rewrite (HI v me).
    unfold leases_to. rewrite Hd. setoid_rewrite lookup_empty. naive_solver.
  - apply (SystemInv_takes s me d _ _ job HI Hd). by left.
  - destruct (lease_cache _ _ _ _ _ _ _ _ _ _) as [[r d'] os'] eqn:Hl.
    apply lease_cache_takes in Hl as [Ht _]. by eapply SystemInv_takes.
  - destruct (finish_run _ _ _ _) as [[r d'] os'] eqn:Hf. by eapply SystemInv_finish.
  - intros v who. cbn. rewrite map_lookup_filter_Some. cbn. rewrite (HI v who).
    unfold leases_to. cbn. split.
    + intros [(j & d & Hd & Hs) Hne]. exists j, d. by rewrite lookup_delete_ne.
    + intros (j & d & [Hne Hd]%lookup_delete_Some & Hs). eauto.
Qed.
Lemma elem_of_still_writing s op ws w :
  w ∈ List.filter (still_writing s op) ws ↔ w ∈ ws ∧ still_writing s op w = true.
Proof. rewrite !list_elem_of_In. apply filter_In. Qed.

Lemma WritersInv_lease s ws cfg me job_id rule key fault api written :
  let op := RoLease cfg me job_id rule key fault api written in
  WritersInv s ws →
  WritersInv (runners_step s op)
    (option_list (leased_replica s op) ++ List.filter (still_writing s op) ws).
Proof.
  intros op HW. unfold op. cbn [runners_step leased_replica].
  destruct (sy_daemons s !! me) as [d|] eqn:Hd; cbn [mbind option_bind];
    [|by intros w [? _]%elem_of_still_writing; apply HW].
  destruct (lease_cache _ _ _ _ _ _ _ _ _ _) as [[r d'] os'] eqn:Hl.
  apply lease_cache_takes in Hl as [Ht Hr]. cbn. intros w [Hw|[Hw _]%elem_of_still_writing]%elem_of_app.
  - destruct (cr_mode rule); [|by apply elem_of_nil in Hw].
    destruct r as [[v|v]|e]; cbn in Hw; [|by apply elem_of_nil in Hw..].
    apply list_elem_of_singleton in Hw as ->. destruct (Hr v eq_refl eq_refl) as [f Hf].
    exists f. rewrite leases_to_insert. cbn. by rewrite decide_True.
  - destruct (HW w Hw) as [f Hf]. exists f. rewrite leases_to_insert.
    destruct (decide (wr_daemon w = me)) as [E|]; [|done].
    eapply takes_keeps; [exact Ht|]. rewrite E in Hf. destruct Hf as (d0 & Hd0 & ?). congruence.
Qed.

Lemma WritersInv_finish s ws me job_id written :
  let op := RoFinish me job_id written in
  WritersInv s ws → WritersInv (runners_step s op) (List.filter (still_writing s op) ws).
Proof.
  intros op HW w [Hw Hs]%elem_of_still_writing. destruct (HW w Hw) as [f Hf]. exists f.
  unfold op in *. cbn [runners_step]. cbn in Hs.
  destruct (sy_daemons s !! me) as [d|] eqn:Hd; [|done]. cbn in Hs. unfold finish_run.
  destruct (da_runs d !! job_id) as [run|] eqn:Hrun; rewrite leases_to_insert;
    (destruct (decide (wr_daemon w = me)) as [E|]; [|done]); rewrite E in Hf;
    destruct Hf as (d0 & Hd0 & Hl); assert (d0 = d) as -> by congruence; [|done].
  cbn. apply map_lookup_filter_Some. split; [done|]. cbn. intros Hj.
  by rewrite (bool_decide_eq_true_2 _ E), Hj, Z.eqb_refl, bool_decide_eq_true_2 in Hs.
Qed.

Lemma WritersInv_step s ws op :
  WritersInv s ws →
  WritersInv (runners_step s op)
    (option_list (leased_replica s op) ++ List.filter (still_writing s op) ws).
Proof.
  intros HW.
  destruct op as [me ledger|cfg me job wsp st task slot now wr|cfg me job rule key fault api wr|me job wr|me];
    cbn [leased_replica option_list app];
    [| |by apply WritersInv_lease|by apply WritersInv_finish|];
    intros w [Hw Hs]%elem_of_still_writing; destruct (HW w Hw) as [f Hf]; exists f;
    cbn [runners_step].
  - destruct (sy_daemons s !! me) as [d|] eqn:Hd; [done|]. rewrite leases_to_insert.
    destruct (decide (wr_daemon w = me)) as [E|]; [|done]. rewrite E in Hf.
    destruct Hf as (? & ? & _). congruence.
  - destruct (sy_daemons s !! me) as [d|] eqn:Hd; [|done]. rewrite leases_to_insert.
    destruct (decide (wr_daemon w = me)) as [E|]; [|done]. rewrite E in Hf.
    destruct Hf as (d0 & Hd0 & ?). by assert (d0 = d) as -> by congruence.
  - cbn in Hs. apply negb_true_iff, bool_decide_eq_false in Hs.
    destruct Hf as (d & Hd & ?). exists d. cbn. by rewrite lookup_delete_ne.
Qed.

Lemma reachable_inv s ws : system_reachable s ws → SystemInv s ∧ WritersInv s ws.
Proof.
  induction 1 as [|s ws op _ [IHs IHw]]; [|split; [by apply SystemInv_step|by apply WritersInv_step]].
  split; [|by intros w ?%elem_of_nil]. intros v me. unfold leases_to. cbn.
  rewrite lookup_empty. setoid_rewrite lookup_empty. naive_solver.
Qed.

(** C38. Two runs never write one exclusive cache at once. Over every daemon of the user and
    whatever the order of leases, finishes, crashes and restarts, take two runs that were both
    handed a lease of the same replica by [lease_cache] for an exclusive rule and have not ended.
    They are the same job of the same daemon and that daemon holds the OS lock on the replica;
    the one exception is a daemon that could not create the lock directory when it took the
    replica and fell back to its own bookkeeping: such a daemon still gives the replica to one
    job only, but another daemon may give it to a job too. *)
Theorem exclusive_cache_has_one_writer s ws w1 w2 :
  system_reachable s ws → w1 ∈ ws → w2 ∈ ws → wr_volume w1 = wr_volume w2 →
  let fell_back w := leases_to s (wr_daemon w) (wr_volume w) (wr_job w) DevNull in
  (wr_daemon w1 = wr_daemon w2 → w1 = w2) ∧
  (fell_back w1 ∨ sy_os s !! wr_volume w1 = Some (wr_daemon w1)) ∧
  (w1 = w2 ∨ fell_back w1 ∨ fell_back w2).
Proof.
  intros [HI HW]%reachable_inv H1 H2 Hv fell_back.
  destruct (HW w1 H1) as [f1 L1], (HW w2 H2) as [f2 L2].
  assert (∀ w f, leases_to s (wr_daemon w) (wr_volume w) (wr_job w) f →
    fell_back w ∨ sy_os s !! wr_volume w = Some (wr_daemon w)) as Hos.
  { intros w [] Hf; [right|by left]. apply HI. eauto. }
  assert (wr_daemon w1 = wr_daemon w2 → w1 = w2) as Hsame.
  { intros Hd. destruct L1 as (d1 & Hd1 & L1), L2 as (d2 & Hd2 & L2).
    rewrite Hd, Hd2 in Hd1. injection Hd1 as ->. rewrite Hv, L2 in L1.
    destruct w1, w2; cbn in *; congruence. }
  split_and!; [done|by eapply Hos|].
  destruct (Hos w1 f1 L1) as [|O1]; [by auto|]. destruct (Hos w2 f2 L2) as [|O2]; [by auto|].
  left. apply Hsame. rewrite Hv in O1. congruence.
Qed.

(** ** What a lease gives *)

(** Volume [v] is in use by another run of this or another daemon. *)
Definition busy_elsewhere (locks : gmap string (Z * LockFile)) (os : OsLocks) (job_id : Z)
    (v : string) : Prop :=
  match locks !! v with Some (holder, _) => holder ≠ job_id | None => is_Some (os !! v) end.

Lemma pick_replica_spec me job_id locks os base start n r locks' os' :
  pick_replica me job_id (λ _, LockHealthy) locks os (replica base <$> seq start n)
    = (r, locks', os') →
  (∃ i, (start ≤ i < start + n)%nat ∧ r = Ok (Some (replica base i)) ∧
     (∃ file, locks' !! replica base i = Some (job_id, file)) ∧
     ∀ k, (start ≤ k < i)%nat → busy_elsewhere locks os job_id (replica base k)) ∨
  (r = Ok None ∧ locks' = locks ∧ os' = os ∧
     ∀ k, (start ≤ k < start + n)%nat → busy_elsewhere locks os job_id (replica base k)).
Proof.
  revert start. induction n as [|n IH]; intros start; cbn [seq fmap list_fmap pick_replica].
  { intros [= <- <- <-]. right. split_and!; [done..|lia]. }
  assert (busy_elsewhere locks os job_id (replica base start) →
    pick_replica me job_id (λ _, LockHealthy) locks os (replica base <$> seq (S start) n)
      = (r, locks', os') →
    (∃ i, (start ≤ i < start + S n)%nat ∧ r = Ok (Some (replica base i)) ∧
       (∃ file, locks' !! replica base i = Some (job_id, file)) ∧
       ∀ k, (start ≤ k < i)%nat → busy_elsewhere locks os job_id (replica base k)) ∨
    (r = Ok None ∧ locks' = locks ∧ os' = os ∧
       ∀ k, (start ≤ k < start + S n)%nat → busy_elsewhere locks os job_id (replica base k))) as Hnext.
  { intros Hb Heq. destruct (IH (S start) Heq) as [(i & Hi & -> & Hl & Hk)|(-> & -> & -> & Hk)].
    - left. exists i. split_and!; [lia|lia|done|done|]. intros k Hlt.
      destruct (decide (k = start)) as [->|]; [done|]. apply Hk. lia.
    - right. split_and!; [done..|]. intros k Hlt.
      destruct (decide (k = start)) as [->|]; [done|]. apply Hk. lia. }
  unfold busy_elsewhere in Hnext. destruct (locks !! replica base start) as [[holder file]|] eqn:Hl.
  - destruct (Z.eqb_spec holder job_id) as [->|Hne]; [|by apply Hnext].
    intros [= <- <- <-]. left. exists start. split_and!; [lia|lia|done|by eauto|lia].
  - unfold try_lock. destruct (os !! replica base start) eqn:Ho; [apply Hnext; by eexists|].
    intros [= <- <- <-]. left. exists start. split_and!; [lia|lia|done| |lia].
    rewrite lookup_insert_eq. by eauto.
Qed.

(** An exclusive lease is the lowest-numbered replica no other run uses, held by this job from
    now on; only when every replica is in use does the run get a private volume, and then no
    replica is touched. *)
Theorem lease_cache_outcome cfg me d os job_id rule key api written l d' os' :
  cr_mode rule = Exclusive →
  lease_cache cfg me d os job_id rule key (λ _, LockHealthy) api written = (Ok l, d', os') →
  (∃ i, (i < Nat.max (cr_replicas rule) 1)%nat ∧ l = Kept (replica (cache_base rule key) i) ∧
     (∃ file, da_locks d' !! replica (cache_base rule key) i = Some (job_id, file)) ∧
     ∀ k, (k < i)%nat →
       busy_elsewhere (da_locks d) os job_id (replica (cache_base rule key) k)) ∨
  (l = Private (private_name cfg (cache_base rule key) job_id) ∧
     da_locks d' = da_locks d ∧ os' = os ∧
     ∀ k, (k < Nat.max (cr_replicas rule) 1)%nat →
       busy_elsewhere (da_locks d) os job_id (replica (cache_base rule key) k)).
Proof.
  intros Hm. unfold lease_cache. rewrite Hm.
  destruct (pick_replica _ _ _ _ _ _) as [[chosen locks] os1] eqn:Hp. intros Heq.
  assert (∃ pick, chosen = Ok pick ∧ da_locks d' = locks ∧ os' = os1 ∧
    l = match pick with
        | Some name => Kept name
        | None => Private (private_name cfg (cache_base rule key) job_id)
        end) as (pick & -> & -> & -> & ->).
  { destruct chosen as [pick|e]; [|done]. exists pick.
    destruct (ensure_volume _ _ _ _ _ _); [|done]. injection Heq as <- <- <-.
    by rewrite update_run_locks. }
  apply pick_replica_spec in Hp as [(i & Hi & [= ->] & Hl & Hk)|([= ->] & -> & -> & Hk)].
  - left. exists i. split_and!; [lia|done|done|]. intros k Hlt. apply Hk. lia.
  - right. split_and!; [done..|]. intros k Hlt. apply Hk. lia.
Qed.

(** Finishing a recorded run leaves it nothing: no lease, no hold and no OS lock of this daemon
    names it, and every other run keeps what it had. *)
Theorem finish_run_releases d os job_id written run d' os' :
  finish_run d os job_id written = (Some run, d', os') →
  da_runs d' !! job_id = None ∧
  (∀ v file, da_locks d' !! v ≠ Some (job_id, file)) ∧
  (∀ v h, da_holders d' !! v = Some h → job_id ∉ h ∧ h ≠ ∅) ∧
  (∀ v, da_locks d !! v = Some (job_id, Locked) → os' !! v = None) ∧
  (∀ v j file, j ≠ job_id →
     da_locks d' !! v = Some (j, file) ↔ da_locks d !! v = Some (j, file)).
Proof.
  unfold finish_run. destruct (da_runs d !! job_id); [|done]. intros [= _ <- <-].
  cbn. split_and!.
  - apply lookup_delete_eq.
  - intros v file [_ Hne]%map_lookup_filter_Some. done.
  - intros v h [Hh Hne]%map_lookup_filter_Some. split; [|done].
    apply lookup_fmap_Some in Hh as (h0 & <- & _). set_solver.
  - intros v Hv. apply map_lookup_filter_None. right. intros who Hw. cbn. rewrite Hv. auto.
  - intros v j file Hne. rewrite map_lookup_filter_Some. cbn. split; [by intros []|done].
Qed.

(** ** Witnesses *)

Definition runners_config : RunnersConfig :=
  {| ru_capacity := defaults true (Some 4); ru_daemon := "d"; ru_instance := "i" |}.
Definition lease_op (me : nat) (job : Z) : runners_op :=
  RoLease runners_config me job act_toolcache "m" (λ _, LockHealthy) None true.
Definition begin_op (me : nat) (job : Z) : runners_op :=
  RoBegin runners_config me job "/w" "s" "t" None 0 true.
Definition run_system (ops : list runners_op) : System :=
  foldl runners_step {| sy_daemons := ∅; sy_os := ∅ |} ops.

(** Two daemons, three runs of one cache. *)
Definition two_daemons_ops : list runners_op :=
  [RoStart 1 []; RoStart 2 []; begin_op 1 1; begin_op 2 1; begin_op 2 2;
   lease_op 1 1; lease_op 2 1; lease_op 2 2].
Fixpoint writers_after (s : System) (ws : list Writer) (ops : list runners_op) : list Writer :=
  match ops with
  | [] => ws
  | op :: ops' =>
      writers_after (runners_step s op)
        (option_list (leased_replica s op) ++ List.filter (still_writing s op) ws) ops'
  end.
Definition two_daemons : System := run_system two_daemons_ops.
Definition two_daemons_writers : list Writer :=
  writers_after {| sy_daemons := ∅; sy_os := ∅ |} [] two_daemons_ops.

Lemma two_daemons_reachable : system_reachable two_daemons two_daemons_writers.
Proof.
  assert (∀ ops s ws, system_reachable s ws →
    system_reachable (foldl runners_step s ops) (writers_after s ws ops)) as Hrun.
  { induction ops as [|op ops IH]; intros s ws Hs; [done|]. cbn. apply IH. by apply system_step. }
  apply Hrun, system_start.
Qed.

Definition daemon_at (s : System) (me : nat) : Daemon := default (Daemon_new []) (sy_daemons s !! me).

(** The lease that job 1 of the second daemon was handed. *)
Definition second_writer : Writer :=
  {| wr_daemon := 2; wr_job := 1; wr_volume := replica "bosn-cache-m-act-toolcache" 1 |}.

Lemma exclusive_cache_has_one_writer_witness :
  length two_daemons_writers = 3%nat ∧
  (leases_to two_daemons 2 (wr_volume second_writer) 1 DevNull ∨
   sy_os two_daemons !! wr_volume second_writer = Some 2%nat).
Proof.
  split; [vm_compute; reflexivity|].
  assert (second_writer ∈ two_daemons_writers) as Hin
    by (apply list_elem_of_In; vm_compute; right; left; reflexivity).
  exact (proj1 (proj2 (exclusive_cache_has_one_writer two_daemons two_daemons_writers
    second_writer second_writer two_daemons_reachable Hin Hin eq_refl))).
Defined.

Definition first_taken : OsLocks := {[ replica (cache_base act_toolcache "m") 0 := 7%nat ]}.
Definition leased : Daemon * OsLocks := Eval vm_compute in
  let '(_, d, os) := lease_cache runners_config 2 (Daemon_new []) first_taken 3 act_toolcache "m"
    (λ _, LockHealthy) None true in (d, os).

Lemma leased_eq :
  lease_cache runners_config 2 (Daemon_new []) first_taken 3 act_toolcache "m" (λ _, LockHealthy)
    None true = (Ok (Kept "bosn-cache-m-act-toolcache-1"), leased.1, leased.2).
Proof. vm_compute. reflexivity. Qed.

Lemma lease_cache_outcome_witness :
  ∃ i, (i < 4)%nat ∧ da_locks leased.1 !! replica (cache_base act_toolcache "m") i = Some (3, Locked).
Proof.
  destruct (lease_cache_outcome runners_config 2 (Daemon_new []) first_taken 3
    act_toolcache "m" None true _ _ _ eq_refl leased_eq) as [(i & Hi & _ & Hl & _)|[Hp _]];
    [|discriminate Hp].
  exists i. split; [exact Hi|]. destruct Hl as [[] Hl]; [exact Hl|].
  assert (∀ j, (j < 4)%nat →
    da_locks leased.1 !! replica (cache_base act_toolcache "m") j ≠ Some (3, DevNull)) as Hno.
  { intros [|[|[|[|j]]]] Hj; [vm_compute; discriminate..|lia]. }
  by destruct (Hno i Hi).
Defined.

Definition one_daemon : Daemon := Eval vm_compute in
  daemon_at (run_system [RoStart 1 []; begin_op 1 1; lease_op 1 1]) 1.
Definition one_system : System :=
  {| sy_daemons := {[ 1%nat := one_daemon ]};
     sy_os := {[ replica (cache_base act_toolcache "m") 0 := 1%nat ]} |}.
Definition finished : option RunRecord * Daemon * OsLocks := Eval vm_compute in
  finish_run one_daemon (sy_os one_system) 1 true.
Definition finished_run : RunRecord := default (begin_run runners_config one_daemon 1 "" "" "" None 0 true).1 finished.1.1.

Lemma finished_eq :
  finish_run one_daemon (sy_os one_system) 1 true = (Some finished_run, finished.1.2, finished.2).
Proof. vm_compute. reflexivity. Qed.

Lemma finish_run_releases_witness : ∀ v file, da_locks finished.1.2 !! v ≠ Some (1, file).
Proof.
  exact (proj1 (proj2 (finish_run_releases one_daemon (sy_os one_system) 1 true finished_run
    finished.1.2 finished.2 finished_eq))).
Defined.

(** ** A lease without a run *)

(** A lease taken for a job whose run is not recorded, such as one that has just finished, is
    never released: finishing it again changes nothing, and the replica stays locked for every
    daemon until this one ends. *)
Theorem late_lease_is_never_released :
  let s := run_system [RoStart 1 []; begin_op 1 1; RoFinish 1 1 true; lease_op 1 1;
                       RoFinish 1 1 true; RoFinish 1 1 true] in
  sy_os s !! replica "bosn-cache-m-act-toolcache" 0 = Some 1%nat ∧
  da_runs (daemon_at s 1) = ∅.
Proof. vm_compute. done. Qed.

(** ** The volumes of a job's containers *)

Record JobVolumes := {
  jv_job_id : Z;
  jv_rules : list CacheRule;
  jv_keys : CacheKeys;
  jv_memo : gmap string string;
}.
Definition remember (jv : JobVolumes) (key name : string) : JobVolumes :=
  {| jv_job_id := jv_job_id jv; jv_rules := jv_rules jv; jv_keys := jv_keys jv;
     jv_memo := <[key := name]> (jv_memo jv) |}.

Section volumes.
Context (short_hash : string → nat → string) (cfg : RunnersConfig) (me : nat).

Definition run_suffix (run : string) : string := "b" +:+ short_hash run 8.

(** Lease a rule's volume once per job. *)
Definition volumes_lease (jv : JobVolumes) (d : Daemon) (os : OsLocks) (rule : CacheRule)
    (fault : string → LockFault) (api : option volume_api) (written : bool) :
    result string string * JobVolumes * Daemon * OsLocks :=
  let memo_key := "rule:" +:+ cr_name rule in
  match jv_memo jv !! memo_key with
  | Some name => (Ok name, jv, d, os)
  | None =>
      match lease_cache cfg me d os (jv_job_id jv) rule (cache_key (jv_keys jv) (cr_scope rule))
              fault api written with
      | (Err e, d, os) => (Err e, jv, d, os)
      | (Ok l, d, os) => (Ok (lease_name l), remember jv memo_key (lease_name l), d, os)
      end
  end.

(** The labels of a volume the job brings into existence. *)
Definition own_volume_labels (job_id : Z) : list (string * string) :=
  [(LABEL_RUN, run_label cfg job_id); (LABEL_DAEMON, ru_daemon cfg); (LABEL_JOB, pretty job_id)].

(** An existing volume is used as it is; a new one gets the run's own name. *)
Definition resolve_volume (api : volume_api) (job_id : Z) (name : string) : result string string :=
  let? there := va_exists api name in
  if there then Ok name
  else
    let mapped := name +:+ "-" +:+ run_suffix (run_label cfg job_id) in
    let? there := va_exists api mapped in
    if there then Ok mapped
    else let? _ := va_create api mapped (own_volume_labels job_id) in Ok mapped.

Definition map_volume (jv : JobVolumes) (d : Daemon) (os : OsLocks) (name : string)
    (fault : string → LockFault) (api : option volume_api) (written : bool) :
    result string string * JobVolumes * Daemon * OsLocks :=
  match find (λ r, bool_decide (cr_volume r = Some name)) (jv_rules jv) with
  | Some rule => volumes_lease jv d os rule fault api written
  | None =>
      match jv_memo jv !! name with
      | Some mapped => (Ok mapped, jv, d, os)
      | None =>
          let suffix := "-" +:+ run_suffix (run_label cfg (jv_job_id jv)) in
          if starts_with "bosn-cache-" name || bool_decide (is_Some (strip_suffix suffix name))
          then (Ok name, jv, d, os)
          else
            match api with
            | None => (Ok name, jv, d, os)
            | Some api =>
                match resolve_volume api (jv_job_id jv) name with
                | Err e => (Err e, jv, d, os)
                | Ok mapped => (Ok mapped, remember jv name mapped, d, os)
                end
            end
      end
  end.

(** The leases mounted into every container that has nothing at their destination. *)
Fixpoint injected_mounts (jv : JobVolumes) (d : Daemon) (os : OsLocks) (rules : list CacheRule)
    (fault : string → LockFault) (api : option volume_api) (written : bool) :
    result string (list (string * string)) * JobVolumes * Daemon * OsLocks :=
  match rules with
  | [] => (Ok [], jv, d, os)
  | rule :: rules' =>
      match cr_volume rule, cr_destination rule with
      | None, Some destination =>
          match volumes_lease jv d os rule fault api written with
          | (Err e, jv, d, os) => (Err e, jv, d, os)
          | (Ok name, jv, d, os) =>
              match injected_mounts jv d os rules' fault api written with
              | (Err e, jv, d, os) => (Err e, jv, d, os)
              | (Ok mounts, jv, d, os) => (Ok ((destination, name) :: mounts), jv, d, os)
              end
          end
      | _, _ => injected_mounts jv d os rules' fault api written
      end
  end.

(** Within a run a volume name always means one volume: once [map_volume] has answered for a
    name, it gives the same answer again and changes nothing, whatever Docker, the lock
    directory or the other daemons say by then. *)
Theorem volume_mapping_stable jv d os name fault api written mapped jv1 d1 os1 :
  map_volume jv d os name fault (Some api) written = (Ok mapped, jv1, d1, os1) →
  ∀ d2 os2 fault2 api2 written2,
    map_volume jv1 d2 os2 name fault2 (Some api2) written2 = (Ok mapped, jv1, d2, os2).
Proof.
  unfold map_volume. intros Heq d2 os2 fault2 api2 written2.
  destruct (find _ (jv_rules jv)) as [rule|] eqn:Hrule.
  - unfold volumes_lease in Heq. destruct (jv_memo jv !! _) as [n|] eqn:Hm.
    + injection Heq as <- <- <- <-. rewrite Hrule. unfold volumes_lease. by rewrite Hm.
    + destruct (lease_cache _ _ _ _ _ _ _ _ _ _) as [[[l|e] d'] os']; [|done].
      injection Heq as <- <- <- <-. cbn. rewrite Hrule. unfold volumes_lease. cbn.
      by rewrite lookup_insert_eq.
  - destruct (jv_memo jv !! name) as [m|] eqn:Hm.
    + injection Heq as <- <- <- <-. by rewrite Hrule, Hm.
    + destruct (_ || _) eqn:Hown.
      * injection Heq as <- <- <- <-. by rewrite Hrule, Hm, Hown.
      * destruct (resolve_volume api _ _) as [m|e]; [|done]. injection Heq as <- <- <- <-.
        cbn. by rewrite Hrule, lookup_insert_eq.
Qed.
End volumes.

Definition empty_volumes : JobVolumes :=
  {| jv_job_id := 1; jv_rules := [act_toolcache]; jv_keys := {| ck_repo := "r"; ck_workspace := "w" |};
     jv_memo := ∅ |}.
Definition docker_empty : volume_api := {| va_exists := λ _, Ok false; va_create := λ _ _, Ok () |}.
Definition docker_down : volume_api := {| va_exists := λ _, Err "down"; va_create := λ _ _, Err "down" |}.

Lemma volume_mapping_stable_witness :
  map_volume (λ s _, s) runners_config 1 (remember empty_volumes "job-env" ("job-env-bd-i-1"))
    one_daemon ∅ "job-env" (λ _, LockHealthy) (Some docker_down) true
  = (Ok "job-env-bd-i-1", remember empty_volumes "job-env" "job-env-bd-i-1", one_daemon, ∅).
Proof.
  exact (volume_mapping_stable (λ s _, s) runners_config 1 empty_volumes one_daemon ∅ "job-env"
    (λ _, LockHealthy) docker_empty true "job-env-bd-i-1"
    (remember empty_volumes "job-env" "job-env-bd-i-1") one_daemon ∅ eq_refl one_daemon ∅
    (λ _, LockHealthy) docker_down true).
Defined.
