(* ===== verification/GcTokens.v ===== *)
(** * GcTokens: the tokens that bind a GC decision to its preview

    The token functions of [bosn-service/src/diagnostics.rs]: a candidate's identity as hex
    bytes behind a namespace prefix, and its parser. Strings are their UTF-8 bytes. *)

From Stdlib Require Import Ascii.
From S2P Require Export Text.

Local Open Scope string_scope.
Local Open Scope list_scope.
Local Open Scope Z_scope.
Local Open Scope bosn_scope.

(** [SetupGcCandidate] and [ManifestVolumeGcCandidate] of bosn-registry. *)
Record GcCandidate := { gc_id : string; gc_name : string; gc_generation : string }.
#[global] Instance GcCandidate_eq_dec : EqDecision GcCandidate.
Proof. solve_decision. Defined.

Definition nul : ascii := "000".

(** ** Encoding *)

Definition hex_digit (n : Z) : ascii :=
  ascii_of_N (Z.to_N (if n <? 10 then 48 + n else 87 + n)).
(** [format!("{byte:02x}")] of every byte. *)
Fixpoint hex_bytes (s : string) : string :=
  match s with
  | EmptyString => ""
  | String a s' => String (hex_digit (code a / 16)) (String (hex_digit (code a mod 16)) (hex_bytes s'))
  end.

Definition token_bytes (c : GcCandidate) : string :=
  gc_id c +:+ String nul (gc_name c +:+ String nul (gc_generation c +:+ String nul "")).

Definition setup_gc_token (c : GcCandidate) : string := "sgc1-" +:+ hex_bytes (token_bytes c).
Definition manifest_volume_gc_token (c : GcCandidate) : string := "mvg1-" +:+ hex_bytes (token_bytes c).
Definition manifest_volume_release_token (c : GcCandidate) : string :=
  "mvr1-" +:+ hex_bytes (token_bytes c).
Definition setup_reconcile_missing_token (c : GcCandidate) : string :=
  "srm1-" +:+ hex_bytes (token_bytes c).

(** ** Decoding *)

Definition hex_value (a : ascii) : option Z :=
  if in_range 48 57 a then Some (code a - 48)
  else if in_range 97 102 a then Some (code a - 87)
  else if in_range 65 70 a then Some (code a - 55)
  else None.

(** [u8::from_str_radix(text, 16)] of two characters: a leading [+] is allowed. *)
Definition hex_pair (a b : ascii) : option ascii :=
  if Ascii.eqb a "+" then v ← hex_value b; Some (ascii_of_N (Z.to_N v))
  else x ← hex_value a; y ← hex_value b; Some (ascii_of_N (Z.to_N (16 * x + y))).

(** [chunks_exact(2)], each decoded. *)
Fixpoint unhex (s : string) : option string :=
  match s with
  | EmptyString => Some ""
  | String _ EmptyString => Some ""
  | String a (String b s') => byte ← hex_pair a b; rest ← unhex s'; Some (String byte rest)
  end.

Definition token_field (field : string) : option string :=
  if String.eqb field "" || (8 * 1024 <? Z.of_nat (String.length field)) then None
  else if is_utf8 field then Some field else None.

Definition token_fields (fields : list string) : option GcCandidate :=
  match fields with
  | [a; b; c; last] =>
      id ← token_field a; name ← token_field b; generation ← token_field c;
      if String.eqb last ""
      then Some {| gc_id := id; gc_name := name; gc_generation := generation |} else None
  | _ => None
  end.

Definition parse_setup_gc_token (token : string) : result string GcCandidate :=
  ok_or
    (encoded ← strip_prefix "sgc1-" token;
     let n := Z.of_nat (String.length encoded) in
     if String.eqb encoded "" || (24 * 1024 <? n) || negb (n mod 2 =? 0) then None
     else bytes ← unhex encoded; token_fields (str_split nul bytes))
    "invalid setup gc candidate".

(** The other namespaces reuse the parser behind their own prefix. *)
Definition parse_namespaced (prefix invalid token : string) : result string GcCandidate :=
  ok_or
    (encoded ← strip_prefix prefix token;
     match parse_setup_gc_token ("sgc1-" +:+ encoded) with Ok c => Some c | Err _ => None end)
    invalid.
Definition parse_manifest_volume_gc_token : string → result string GcCandidate :=
  parse_namespaced "mvg1-" "invalid manifest volume gc candidate".
Definition parse_manifest_volume_release_token : string → result string GcCandidate :=
  parse_namespaced "mvr1-" "invalid manifest volume release candidate".
Definition parse_setup_reconcile_missing_token : string → result string GcCandidate :=
  parse_namespaced "srm1-" "invalid setup reconcile repair candidate".

(** ** Round trip *)

Lemma code_lt a : 0 ≤ code a < 256.
Proof. unfold code. pose proof (N_ascii_bounded a). lia. Qed.

Lemma ascii_of_code a : ascii_of_N (Z.to_N (code a)) = a.
Proof. unfold code. rewrite N2Z.id. apply ascii_N_embedding. Qed.

Lemma hex_pair_digits a :
  hex_pair (hex_digit (code a / 16)) (hex_digit (code a mod 16)) = Some a.
Proof. destruct a as [[] [] [] [] [] [] [] []]; reflexivity. Qed.

Lemma unhex_hex s : unhex (hex_bytes s) = Some s.
Proof. induction s as [|a s IH]; [done|]. cbn [hex_bytes unhex]. by rewrite hex_pair_digits, IH. Qed.

Lemma length_hex_bytes s : String.length (hex_bytes s) = (2 * String.length s)%nat.
Proof. induction s as [|a s IH]; [done|]. cbn [hex_bytes String.length]. rewrite IH. lia. Qed.

(** What a field of a token may be: the bounds the parser enforces. *)
Record field_ok (s : string) : Prop := {
  fo_nonempty : s ≠ "";
  fo_short : Z.of_nat (String.length s) ≤ 8 * 1024;
  fo_utf8 : is_utf8 s = true;
  fo_no_nul : all_bytes (λ a, negb (Ascii.eqb a nul)) s = true;
}.

Record candidate_ok (c : GcCandidate) : Prop := {
  co_id : field_ok (gc_id c);
  co_name : field_ok (gc_name c);
  co_generation : field_ok (gc_generation c);
  co_short : 2 * Z.of_nat (String.length (token_bytes c)) ≤ 24 * 1024;
}.

Lemma token_field_ok s : field_ok s → token_field s = Some s.
Proof.
  intros [Hne Hs Hu _]. unfold token_field. rewrite (proj2 (String.eqb_neq _ _) Hne), Hu.
  by rewrite (proj2 (Z.ltb_ge _ _) Hs).
Qed.

Lemma token_field_Some s t : token_field s = Some t →
  t = s ∧ s ≠ "" ∧ Z.of_nat (String.length s) ≤ 8 * 1024 ∧ is_utf8 s = true.
Proof.
  unfold token_field. destruct (_ || _) eqn:E; [done|]. apply orb_false_iff in E as [E1 E2].
  apply String.eqb_neq in E1. apply Z.ltb_ge in E2. destruct (is_utf8 s); [|done]. by intros [= <-].
Qed.

Lemma split_token c :
  candidate_ok c → str_split nul (token_bytes c) = [gc_id c; gc_name c; gc_generation c; ""].
Proof.
  intros [[_ _ _ H1] [_ _ _ H2] [_ _ _ H3] _]. unfold token_bytes.
  rewrite (split_app nul) by done. f_equal. rewrite (split_app nul) by done. f_equal.
  by rewrite (split_app nul).
Qed.

Lemma token_bytes_nonempty c : candidate_ok c → hex_bytes (token_bytes c) ≠ "".
Proof.
  intros [[Hne _ _ _] _ _ _]. unfold token_bytes. destruct (gc_id c); [done|]. done.
Qed.

Lemma parse_token c : candidate_ok c → parse_setup_gc_token (setup_gc_token c) = Ok c.
Proof.
  intros Hok. unfold parse_setup_gc_token, setup_gc_token. rewrite strip_prefix_app.
  cbn [mbind option_bind]. rewrite (proj2 (String.eqb_neq _ _) (token_bytes_nonempty c Hok)).
  rewrite length_hex_bytes. pose proof (co_short _ Hok).
  assert (24 * 1024 <? Z.of_nat (2 * String.length (token_bytes c)) = false) as -> by (apply Z.ltb_ge; lia).
  assert (Z.of_nat (2 * String.length (token_bytes c)) mod 2 = 0) as ->
    by (rewrite Nat2Z.inj_mul, Z.mul_comm; apply Z_mod_mult).
  cbn [orb negb Z.eqb]. rewrite unhex_hex. cbn [mbind option_bind]. rewrite split_token by done.
  cbn [token_fields]. rewrite !token_field_ok by apply Hok. by destruct c.
Qed.

(** A token names exactly the candidate it was made for, in its own namespace: every parser
    reads its own tokens back, and rejects the tokens of the other namespaces whatever they
    encode. *)
Theorem gc_token_roundtrip c :
  candidate_ok c →
  parse_setup_gc_token (setup_gc_token c) = Ok c ∧
  parse_manifest_volume_gc_token (manifest_volume_gc_token c) = Ok c ∧
  parse_manifest_volume_release_token (manifest_volume_release_token c) = Ok c ∧
  parse_setup_reconcile_missing_token (setup_reconcile_missing_token c) = Ok c ∧
  ∀ d, is_ok (parse_setup_gc_token (manifest_volume_gc_token d)) = false ∧
       is_ok (parse_manifest_volume_gc_token (manifest_volume_release_token d)) = false ∧
       is_ok (parse_manifest_volume_release_token (manifest_volume_gc_token d)) = false ∧
       is_ok (parse_setup_reconcile_missing_token (setup_gc_token d)) = false.
Proof.
  intros Hok. pose proof (parse_token c Hok) as Hp. unfold setup_gc_token in Hp.
  split_and!; [exact Hp| | | |intros d; split_and!; reflexivity];
    unfold parse_manifest_volume_gc_token, parse_manifest_volume_release_token,
      parse_setup_reconcile_missing_token, parse_namespaced, manifest_volume_gc_token,
      manifest_volume_release_token, setup_reconcile_missing_token;
    rewrite strip_prefix_app; cbn [mbind option_bind]; by rewrite Hp.
Qed.

Definition sample_candidate : GcCandidate :=
  {| gc_id := "setup:a"; gc_name := "bosn-a"; gc_generation := "sha256:ff" |}.
Lemma sample_candidate_ok : candidate_ok sample_candidate.
Proof. split; [split; (done || vm_compute; done)..|]. vm_compute. done. Qed.
Lemma gc_token_roundtrip_witness :
  parse_setup_gc_token (setup_gc_token sample_candidate) = Ok sample_candidate.
Proof. exact (proj1 (gc_token_roundtrip sample_candidate sample_candidate_ok)). Defined.

(** Whatever a client sends, an accepted token decodes to three non-empty, bounded, valid
    UTF-8 fields with no NUL byte. *)
Theorem gc_token_parse_sound token c :
  parse_setup_gc_token token = Ok c →
  ∀ field, field ∈ [gc_id c; gc_name c; gc_generation c] → field_ok field.
Proof.
  unfold parse_setup_gc_token. rewrite ok_or_Ok.
  destruct (strip_prefix "sgc1-" token) as [encoded|]; [|done]. cbn [mbind option_bind].
  destruct (_ || _); [done|]. destruct (unhex encoded) as [bytes|]; [|done].
  cbn [mbind option_bind]. intros Hf.
  assert (∀ part, part ∈ str_split nul bytes → all_bytes (λ a, negb (Ascii.eqb a nul)) part = true)
    as Hsplit by (intros part; apply split_no_sep).
  destruct (str_split nul bytes) as [|a [|b [|g [|last [|]]]]]; try done.
  cbn [token_fields] in Hf.
  destruct (token_field a) as [a'|] eqn:Ha; [|done]. destruct (token_field b) as [b'|] eqn:Hb; [|done].
  destruct (token_field g) as [g'|] eqn:Hg; [|done]. cbn in Hf.
  destruct (String.eqb last ""); [|done]. injection Hf as <-. cbn.
  apply token_field_Some in Ha as (-> & ? & ? & ?). apply token_field_Some in Hb as (-> & ? & ? & ?).
  apply token_field_Some in Hg as (-> & ? & ? & ?).
  intros field Hin. rewrite !elem_of_cons, elem_of_nil in Hin.
  destruct Hin as [->|[->|[->|[]]]]; (split; [done..|]); apply Hsplit; set_solver.
Qed.

Lemma gc_token_parse_sound_witness : field_ok "setup:a".
Proof.
  refine (gc_token_parse_sound (setup_gc_token sample_candidate) sample_candidate _ "setup:a" _);
    [vm_compute; reflexivity|]. left.
Defined.
