(* ===== verification/Registry.v ===== *)
(** * Registry: the durable tables and their transitions

    The model of the registry of [bosn-registry]: its tables ([lib.rs], [rows.rs]), the
    garbage-collection and repair queries ([gc_query.rs]) and the write transactions
    ([immediate.rs]). A table is a map from its primary key to its rows and a query is the
    boolean reading of its SQL condition; a statement that violates a constraint is an error,
    which drops the transaction. Whether the connection enforces foreign keys is set by the
    SQLite wrapper crate: [foreign_keys]. Failures of the storage engine itself (I/O, its row
    and byte limits) can end any call with an error and no change; they add nothing to the
    transitions and have no constructor here. CI snapshot events ([ci_state.rs]) are written by
    [ci_append]. *)

From S2P Require Export Lifecycle GcTokens.

Local Open Scope string_scope.
Local Open Scope list_scope.
Local Open Scope Z_scope.
Local Open Scope bosn_scope.

(** ** Rows *)

Record Resource := mkResource {
  re_id : string;
  re_kind : ResourceKind;
  re_name : string;
  re_stack : string;
  re_generation : string;
  re_scope : Scope;
  re_workspace : string;
  re_created_at : f64;
  re_last_used : f64;
  re_state : ResourceState;
  re_retention : Retention;
}.
Record ResourceUse := mkResourceUse {
  us_resource_id : string;
  us_workspace : string;
  us_stack : string;
  us_generation : string;
  us_last_used : f64;
  us_state : ResourceState;
}.
Record LeaseRow := {
  le_id : string;
  le_resource_id : string;
  le_pid : Z;
  le_proc_start : option f64;
  le_acquired_at : f64;
  le_heartbeat_at : f64;
  le_ttl_seconds : f64;
}.
Record ExecutionSession := {
  xs_id : string;
  xs_container_id : string;
  xs_engine_binary : string;
  xs_client_pid : Z;
  xs_client_start : option f64;
  xs_lease_ids : list string;
}.
Record VolumeCreationIntent := {
  vi_name : string;
  vi_labels : gmap string string;
  vi_stack : string;
  vi_generation : string;
  vi_scope : Scope;
  vi_workspace : string;
}.
Record GenerationRow := {
  gn_workspace : string;
  gn_stack : string;
  gn_digest : string;
  gn_created_at : f64;
  gn_superseded_at : option f64;
}.
Record EventRow := { et_id : Z; et_at : f64; et_kind : string; et_detail : string }.

Notation use_key_type := (string * string * string * string)%type.
Definition use_key (u : ResourceUse) : use_key_type :=
  (us_resource_id u, us_workspace u, us_stack u, us_generation u).

(** The tables, and the next value of the events' rowid. *)
Record Db := mkDb {
  db_meta : gmap string string;
  db_resources : gmap string Resource;
  db_uses : gmap use_key_type ResourceUse;
  db_leases : gmap string LeaseRow;
  db_sessions : gmap string ExecutionSession;
  db_intents : gmap string VolumeCreationIntent;
  db_generations : gmap (string * string * string) GenerationRow;
  db_events : list EventRow;
  db_next_event : Z;
}.

Definition set_resources (d : Db) v := mkDb (db_meta d) v (db_uses d) (db_leases d) (db_sessions d)
  (db_intents d) (db_generations d) (db_events d) (db_next_event d).
Definition set_uses (d : Db) v := mkDb (db_meta d) (db_resources d) v (db_leases d) (db_sessions d)
  (db_intents d) (db_generations d) (db_events d) (db_next_event d).
Definition set_leases (d : Db) v := mkDb (db_meta d) (db_resources d) (db_uses d) v (db_sessions d)
  (db_intents d) (db_generations d) (db_events d) (db_next_event d).
Definition set_sessions (d : Db) v := mkDb (db_meta d) (db_resources d) (db_uses d) (db_leases d) v
  (db_intents d) (db_generations d) (db_events d) (db_next_event d).
Definition set_intents (d : Db) v := mkDb (db_meta d) (db_resources d) (db_uses d) (db_leases d)
  (db_sessions d) v (db_generations d) (db_events d) (db_next_event d).
Definition set_generations (d : Db) v := mkDb (db_meta d) (db_resources d) (db_uses d) (db_leases d)
  (db_sessions d) (db_intents d) v (db_events d) (db_next_event d).
Definition set_meta_table (d : Db) v := mkDb v (db_resources d) (db_uses d) (db_leases d)
  (db_sessions d) (db_intents d) (db_generations d) (db_events d) (db_next_event d).
Definition add_event (d : Db) (at_ : f64) (kind detail : string) : Db :=
  mkDb (db_meta d) (db_resources d) (db_uses d) (db_leases d) (db_sessions d) (db_intents d)
    (db_generations d)
    (db_events d ++ [{| et_id := db_next_event d; et_at := at_; et_kind := kind; et_detail := detail |}])
    (db_next_event d + 1).

(** The tables [create_writer] leaves. *)
Definition Db_new (registry_id : string) : Db :=
  mkDb (<["schema_version" := "6"]> {[ "registry_id" := registry_id ]}) ∅ ∅ ∅ ∅ ∅ ∅ [] 1.

Inductive RegError :=
| SqlConstraint
| BadRow (what : string)
| ResourceIdentityConflict
| ReservedMeta (what : string)
| ReplacedPath
| RegistryIo
| MigrationInProgress
| CiMetadataStoragePressure (allocated database projected limit : Z).

(** ** Queries *)

(** [EXISTS (SELECT 1 FROM table WHERE ...)]. *)
Definition exists_row {K R} `{Countable K} (m : gmap K R) (p : R → bool) : bool :=
  existsb p (map_to_list m).*2.
(** [SELECT COUNT] over the rows of a table with a condition. *)
Definition count_rows {K R} `{Countable K} (m : gmap K R) (p : R → bool) : Z :=
  Z.of_nat (length (filterb p (map_to_list m).*2)).


Definition leased (d : Db) (r : Resource) : bool :=
  exists_row (db_leases d) (λ l, le_resource_id l ==? re_id r).
Definition in_session (d : Db) (r : Resource) : bool :=
  exists_row (db_sessions d)
    (λ s, (xs_container_id s ==? re_id r) || (xs_container_id s ==? re_name r)).
Definition intended (d : Db) (r : Resource) : bool :=
  exists_row (db_intents d) (λ v, vi_name v ==? re_name r).

(** The use conditions: at least one use of the resource's own workspace and stack in the
    given state, and no use that is anything else. *)
Definition owned_use (d : Db) (workspace : string) (r : Resource) (st : ResourceState) : bool :=
  exists_row (db_uses d) (λ u,
    (us_resource_id u ==? re_id r) && (us_workspace u ==? workspace) && (us_stack u ==? re_stack r)
    && (us_state u ==? st))
  && negb (exists_row (db_uses d) (λ u,
    (us_resource_id u ==? re_id r)
    && (negb (us_workspace u ==? workspace) || negb (us_stack u ==? re_stack r)
        || negb (us_state u ==? st)))).
(** The same, of the resource's own generation as well. *)
Definition owned_generation_use (d : Db) (workspace : string) (r : Resource) (st : ResourceState) :
    bool :=
  exists_row (db_uses d) (λ u,
    (us_resource_id u ==? re_id r) && (us_workspace u ==? workspace) && (us_stack u ==? re_stack r)
    && (us_generation u ==? re_generation r) && (us_state u ==? st))
  && negb (exists_row (db_uses d) (λ u,
    (us_resource_id u ==? re_id r)
    && (negb (us_workspace u ==? workspace) || negb (us_stack u ==? re_stack r)
        || negb (us_generation u ==? re_generation r) || negb (us_state u ==? st)))).

Definition setup_namespace (r : Resource) : bool :=
  ((re_stack r ==? "setup") && starts_with "setup-container:" (re_id r))
  || starts_with "manifest-container:" (re_id r) || starts_with "manifest-guest:" (re_id r).

Definition setup_gc_where (d : Db) (workspace : string) (r : Resource) : bool :=
  (re_kind r ==? Container) && (re_workspace r ==? workspace) && (re_state r ==? Retired)
  && (re_scope r ==? Machine) && setup_namespace r && starts_with "bosn-setup-" (re_name r)
  && owned_use d workspace r Retired && negb (leased d r) && negb (in_session d r).

Definition volume_gc_where (d : Db) (workspace : string) (r : Resource) : bool :=
  (re_kind r ==? Volume) && (re_workspace r ==? workspace) && (re_state r ==? Retired)
  && (re_scope r ==? Spec) && (re_retention r ==? Warm)
  && starts_with "manifest-volume:" (re_id r) && starts_with "bosn-v-spec-" (re_name r)
  && owned_generation_use d workspace r Retired
  && negb (leased d r) && negb (in_session d r) && negb (intended d r).

Definition volume_release_where (d : Db) (workspace : string) (r : Resource) : bool :=
  (re_kind r ==? Volume) && (re_workspace r ==? workspace) && (re_state r ==? Active)
  && ((re_scope r ==? Stack) || (re_scope r ==? Machine) || (re_retention r ==? Pinned))
  && starts_with "manifest-volume:" (re_id r) && starts_with "bosn-v-" (re_name r)
  && owned_generation_use d workspace r Active
  && negb (leased d r) && negb (in_session d r) && negb (intended d r).

Definition named (c : GcCandidate) (r : Resource) : bool :=
  (re_id r ==? gc_id c) && (re_name r ==? gc_name c) && (re_generation r ==? gc_generation c).

Definition setup_gc_candidate_exists (d : Db) (workspace : string) (c : GcCandidate) : bool :=
  exists_row (db_resources d) (λ r, named c r && setup_gc_where d workspace r).
Definition manifest_volume_gc_candidate_exists (d : Db) (workspace : string) (c : GcCandidate) :
    bool :=
  exists_row (db_resources d) (λ r, named c r && volume_gc_where d workspace r).
Definition manifest_volume_release_candidate_exists (d : Db) (workspace : string)
    (c : GcCandidate) : bool :=
  exists_row (db_resources d) (λ r, named c r && volume_release_where d workspace r).

Definition setup_missing_repair_candidate_exists (d : Db) (workspace : string) (c : GcCandidate)
    (st : ResourceState) : bool :=
  exists_row (db_resources d) (λ r,
    named c r && (re_kind r ==? Container) && (re_stack r ==? "setup")
    && (re_workspace r ==? workspace) && (re_state r ==? st) && (re_scope r ==? Machine)
    && starts_with "setup-container:" (re_id r) && starts_with "bosn-setup-" (re_name r)
    && exists_row (db_uses d) (λ u,
         (us_resource_id u ==? re_id r) && (us_workspace u ==? workspace) && (us_stack u ==? "setup")
         && (us_generation u ==? gc_generation c) && (us_state u ==? st))
    && negb (exists_row (db_uses d) (λ u,
         (us_resource_id u ==? re_id r)
         && (negb (us_workspace u ==? workspace) || negb (us_stack u ==? "setup")
             || negb (us_generation u ==? gc_generation c) || negb (us_state u ==? st))))
    && negb (leased d r) && negb (in_session d r)).

Definition setup_gc_candidate (d : Db) (workspace : string) (c : GcCandidate) : option GcCandidate :=
  if setup_gc_candidate_exists d workspace c then Some c else None.
Definition manifest_volume_gc_candidate (d : Db) (workspace : string) (c : GcCandidate) :
    option GcCandidate :=
  if manifest_volume_gc_candidate_exists d workspace c then Some c else None.
Definition manifest_volume_release_candidate (d : Db) (workspace : string) (c : GcCandidate) :
    option GcCandidate :=
  if manifest_volume_release_candidate_exists d workspace c then Some c else None.
Definition setup_missing_repair_candidate (d : Db) (workspace : string) (c : GcCandidate) : bool :=
  setup_missing_repair_candidate_exists d workspace c Active.

(** *** Pages *)

Record Page (A : Type) := { pa_items : list A; pa_next_offset : option Z }.
Arguments pa_items {A} _.
Arguments pa_next_offset {A} _.

Definition MAX_PAGE_SIZE : Z := 1000.

(** [SELECT ... ORDER BY id LIMIT limit+1 OFFSET offset], cut into a page. *)
Definition page_rows {A} (rows : list A) (offset limit : Z) : result RegError (Page A) :=
  let limit := Z.min (Z.max limit 1) MAX_PAGE_SIZE in
  if i64_max <? offset then Err (BadRow "page offset")
  else
    let rows := take (Z.to_nat (limit + 1)) (drop (Z.to_nat offset) rows) in
    Ok {| pa_items := take (Z.to_nat limit) rows;
          pa_next_offset := if limit <? Z.of_nat (length rows) then Some (offset + limit) else None |}.

Definition candidate_of (r : Resource) : GcCandidate :=
  {| gc_id := re_id r; gc_name := re_name r; gc_generation := re_generation r |}.
Definition select_candidates (d : Db) (where_ : Resource → bool) : list GcCandidate :=
  candidate_of <$> filterb where_ (btree_values String.compare (db_resources d)).

Record SetupGcPreviewCounts := {
  gp_protected_not_retired : Z;
  gp_protected_ambiguous_use : Z;
  gp_protected_lease : Z;
  gp_protected_session : Z;
  gp_excluded_unmanaged : Z;
}.
Record SetupGcPreview := { gv_candidates : Page GcCandidate; gv_counts : SetupGcPreviewCounts }.

Definition setup_gc_counts (d : Db) (workspace : string) : SetupGcPreviewCounts :=
  let count p := count_rows (db_resources d)
    (λ r, (re_kind r ==? Container) && (re_workspace r ==? workspace) && p r) in
  let managed r :=
    (re_scope r ==? Machine) && starts_with "bosn-setup-" (re_name r) && setup_namespace r in
  {| gp_protected_not_retired := count (λ r, managed r && negb (re_state r ==? Retired));
     gp_protected_ambiguous_use :=
       count (λ r, managed r && (re_state r ==? Retired)
                   && negb (owned_use d (re_workspace r) r Retired));
     gp_protected_lease := count (λ r, managed r && (re_state r ==? Retired) && leased d r);
     gp_protected_session := count (λ r, managed r && (re_state r ==? Retired) && in_session d r);
     gp_excluded_unmanaged := count (λ r, negb (managed r)) |}.

Definition setup_gc_preview (d : Db) (workspace : string) (offset limit : Z) :
    result RegError SetupGcPreview :=
  let? page := page_rows (select_candidates d (setup_gc_where d workspace)) offset limit in
  Ok {| gv_candidates := page; gv_counts := setup_gc_counts d workspace |}.

Record ManifestVolumeGcPreviewCounts := {
  vp_protected_not_retired : Z;
  vp_protected_policy : Z;
  vp_protected_ambiguous_use : Z;
  vp_protected_lease : Z;
  vp_protected_session : Z;
  vp_protected_intent : Z;
  vp_excluded_unmanaged : Z;
}.
Record ManifestVolumeGcPreview := {
  vv_candidates : Page GcCandidate;
  vv_counts : ManifestVolumeGcPreviewCounts;
}.

Definition volume_gc_counts (d : Db) (workspace : string) : ManifestVolumeGcPreviewCounts :=
  let count p := count_rows (db_resources d)
    (λ r, (re_kind r ==? Volume) && (re_workspace r ==? workspace) && p r) in
  let managed r := starts_with "manifest-volume:" (re_id r) && starts_with "bosn-v-" (re_name r) in
  {| vp_protected_not_retired := count (λ r, managed r && negb (re_state r ==? Retired));
     vp_protected_policy :=
       count (λ r, managed r && (re_state r ==? Retired)
                   && (negb (re_scope r ==? Spec) || negb (re_retention r ==? Warm)));
     vp_protected_ambiguous_use :=
       count (λ r, managed r && (re_state r ==? Retired)
                   && negb (owned_generation_use d (re_workspace r) r Retired));
     vp_protected_lease := count (λ r, managed r && (re_state r ==? Retired) && leased d r);
     vp_protected_session := count (λ r, managed r && (re_state r ==? Retired) && in_session d r);
     vp_protected_intent := count (λ r, managed r && (re_state r ==? Retired) && intended d r);
     vp_excluded_unmanaged := count (λ r, negb (managed r)) |}.

Definition manifest_volume_gc_preview (d : Db) (workspace : string) (offset limit : Z) :
    result RegError ManifestVolumeGcPreview :=
  let? page := page_rows (select_candidates d (volume_gc_where d workspace)) offset limit in
  Ok {| vv_candidates := page; vv_counts := volume_gc_counts d workspace |}.

Definition manifest_volume_release_preview (d : Db) (workspace : string) (offset limit : Z) :
    result RegError (Page GcCandidate) :=
  page_rows (select_candidates d (volume_release_where d workspace)) offset limit.

(** The first row with this kind and name; the index makes it the only one. *)
Definition resource_by_kind_name (d : Db) (kind : ResourceKind) (name : string) : option Resource :=
  head (filterb (λ r, (re_kind r ==? kind) && (re_name r ==? name)) (map_to_list (db_resources d)).*2).

(** *** Manifest recovery *)

Definition manifest_recovery_contract_details (d : Db) (limit : Z) : list string :=
  take (Z.to_nat (Z.min (Z.max limit 1) MAX_PAGE_SIZE))
    (et_detail <$> rev (filterb (λ e, et_kind e ==? "manifest.recovery.contract") (db_events d))).

Definition autostart_disabled (detail : string) (e : EventRow) : bool :=
  (et_kind e ==? "manifest.autostart.disabled") && (et_detail e ==? detail).
Definition manifest_autostart_intent_disabled (d : Db) (detail : string) : bool :=
  existsb (autostart_disabled detail) (db_events d).

Definition manifest_recovery_container_active (d : Db) (id name stack generation workspace
    disabled_intent_detail : string) : bool :=
  exists_row (db_resources d) (λ r,
    (re_id r ==? id) && (re_name r ==? name) && (re_stack r ==? stack)
    && (re_generation r ==? generation) && (re_workspace r ==? workspace)
    && (re_kind r ==? Container) && (re_scope r ==? Machine) && (re_state r ==? Active)
    && (starts_with "manifest-container:" (re_id r) || starts_with "manifest-guest:" (re_id r))
    && exists_row (db_uses d) (λ u,
         (us_resource_id u ==? re_id r) && (us_workspace u ==? workspace) && (us_stack u ==? stack)
         && (us_generation u ==? generation) && (us_state u ==? Active))
    && negb (exists_row (db_intents d) (λ v,
         (vi_workspace v ==? workspace) && (vi_stack v ==? stack)))
    && negb (in_session d r)
    && negb (existsb (autostart_disabled disabled_intent_detail) (db_events d))).

(** ** Write transactions ([immediate.rs]) *)

Definition RECONCILIATION_REQUIRED : string := "migration.reconciliation_required".
Inductive SetupMissingRepair := Repaired | AlreadyRepaired.
#[global] Instance SetupMissingRepair_eq_dec : EqDecision SetupMissingRepair.
Proof. solve_decision. Defined.
Record SetupDone := { sd_uses_completed : Z; sd_resources_completed : Z }.

(** The event kinds that carry CI snapshots. *)
Definition ci_kind (kind : string) : bool :=
  starts_with "act.engine.v1:" kind || starts_with "ci.cache-helper.v1:" kind.

(** [UPDATE table SET ... WHERE ...], with the number of rows it changed. *)
Definition update_rows {K R} `{Countable K} (m : gmap K R) (p : R → bool) (f : R → R) : gmap K R :=
  (λ r, if p r then f r else r) <$> m.
Definition delete_rows {K R} `{Countable K} (m : gmap K R) (p : R → bool) : gmap K R :=
  filter (λ kr, p kr.2 = false) m.

Definition with_resource_state (st : ResourceState) (at_ : option f64) (r : Resource) : Resource :=
  mkResource (re_id r) (re_kind r) (re_name r) (re_stack r) (re_generation r) (re_scope r)
    (re_workspace r) (re_created_at r) (default (re_last_used r) at_) st (re_retention r).
Definition with_use_state (st : ResourceState) (at_ : option f64) (u : ResourceUse) : ResourceUse :=
  mkResourceUse (us_resource_id u) (us_workspace u) (us_stack u) (us_generation u)
    (default (us_last_used u) at_) st.

Section transactions.
Context (foreign_keys : bool).
Context (ci_append : f64 → string → string → Db → result RegError Db).

Definition append_event (d : Db) (at_ : f64) (kind detail : string) : result RegError Db :=
  match db_meta d !! "registry_id" with
  | None => Err (BadRow "registry_id")
  | Some _ => if ci_kind kind then ci_append at_ kind detail d else Ok (add_event d at_ kind detail)
  end.

Definition set_meta (d : Db) (key value : string) : result RegError Db :=
  if (key ==? "schema_version") || (key ==? "registry_id") || (key ==? RECONCILIATION_REQUIRED)
     || starts_with "ci.retention." key || starts_with "ci.migration." key
  then Err (ReservedMeta "registry identity, migration or retention authority")
  else Ok (set_meta_table d (<[key := value]> (db_meta d))).

(** The row an upsert leaves in place of an existing one. *)
Definition merge_resource (preserve_pin : bool) (old v : Resource) : Resource :=
  mkResource (re_id old) (re_kind old) (re_name old) (re_stack v) (re_generation v) (re_scope v)
    (re_workspace v) (re_created_at old) (re_last_used v) (re_state v)
    (if preserve_pin && (re_retention old ==? Pinned) then Pinned else re_retention v).

Definition upsert_resource (preserve_pin : bool) (d : Db) (v : Resource) : result RegError Db :=
  match resource_by_kind_name d (re_kind v) (re_name v) with
  | Some old =>
      if re_id old ==? re_id v
      then Ok (set_resources d
                 (<[re_id old := merge_resource preserve_pin old v]> (db_resources d)))
      else Err ResourceIdentityConflict
  | None =>
      match db_resources d !! re_id v with
      | Some _ => Err SqlConstraint
      | None => Ok (set_resources d (<[re_id v := v]> (db_resources d)))
      end
  end.
Definition put_resource : Db → Resource → result RegError Db := upsert_resource false.
Definition put_resource_preserving_pin : Db → Resource → result RegError Db := upsert_resource true.

Definition has_resource (d : Db) (id : string) : bool :=
  bool_decide (is_Some (db_resources d !! id)).
Definition put_resource_use (d : Db) (v : ResourceUse) : result RegError Db :=
  if foreign_keys && negb (has_resource d (us_resource_id v)) then Err SqlConstraint
  else Ok (set_uses d (<[use_key v := v]> (db_uses d))).
Definition put_lease (d : Db) (v : LeaseRow) : result RegError Db :=
  if foreign_keys && negb (has_resource d (le_resource_id v)) then Err SqlConstraint
  else Ok (set_leases d (<[le_id v := v]> (db_leases d))).
Definition put_execution_session (d : Db) (v : ExecutionSession) : Db :=
  set_sessions d (<[xs_id v := v]> (db_sessions d)).
Definition put_volume_creation_intent (d : Db) (v : VolumeCreationIntent) : Db :=
  set_intents d (<[vi_name v := v]> (db_intents d)).
Definition put_generation (d : Db) (v : GenerationRow) : Db :=
  set_generations d (<[(gn_workspace v, gn_stack v, gn_digest v) := v]> (db_generations d)).

(** Deleting a resource takes its uses and leases along. *)
Definition delete_resource (d : Db) (id : string) : Db :=
  let d := set_resources d (delete id (db_resources d)) in
  if foreign_keys
  then set_leases (set_uses d (delete_rows (db_uses d) (λ u, us_resource_id u ==? id)))
         (delete_rows (db_leases d) (λ l, le_resource_id l ==? id))
  else d.
Definition delete_lease (d : Db) (id : string) : Db := set_leases d (delete id (db_leases d)).
Definition delete_execution_session (d : Db) (id : string) : Db :=
  set_sessions d (delete id (db_sessions d)).
Definition delete_volume_creation_intent (d : Db) (name : string) : Db :=
  set_intents d (delete name (db_intents d)).
Definition delete_generation (d : Db) (workspace stack digest : string) : Db :=
  set_generations d (delete (workspace, stack, digest) (db_generations d)).

(** *** Finalization *)

Definition finalize_setup_gc_candidate (d : Db) (workspace : string) (c : GcCandidate) (at_ : f64)
    (event_kind : string) : result RegError (bool * Db) :=
  if negb (setup_gc_candidate_exists d workspace c) then Ok (false, d)
  else let? d := append_event (delete_resource d (gc_id c)) at_ event_kind
                   "retired_managed_setup_container" in Ok (true, d).

Definition finalize_manifest_volume_gc_candidate (d : Db) (workspace : string) (c : GcCandidate)
    (at_ : f64) (event_kind : string) : result RegError (bool * Db) :=
  if negb (manifest_volume_gc_candidate_exists d workspace c) then Ok (false, d)
  else let? d := append_event (delete_resource d (gc_id c)) at_ event_kind
                   "retired_manifest_warm_spec_volume" in Ok (true, d).

Definition finalize_manifest_volume_release_candidate (d : Db) (workspace : string)
    (c : GcCandidate) (at_ : f64) (event_kind : string) : result RegError (bool * Db) :=
  if negb (manifest_volume_release_candidate_exists d workspace c) then Ok (false, d)
  else let? d := append_event (delete_resource d (gc_id c)) at_ event_kind
                   "explicit_durable_manifest_volume_release" in Ok (true, d).

Definition confirm_setup_retired_container_stopped (d : Db) (workspace : string) (c : GcCandidate)
    (at_ : f64) : result RegError (bool * Db) :=
  if negb (setup_gc_candidate_exists d workspace c) then Ok (false, d)
  else let? d := append_event d at_ "setup.ensure.retired_stopped"
                   "retired_managed_setup_container" in Ok (true, d).

Definition repaired_use (workspace : string) (c : GcCandidate) (u : ResourceUse) : bool :=
  (us_resource_id u ==? gc_id c) && (us_workspace u ==? workspace) && (us_stack u ==? "setup")
  && (us_generation u ==? gc_generation c) && (us_state u ==? Active).
Definition repaired_resource (c : GcCandidate) (r : Resource) : bool :=
  (re_id r ==? gc_id c) && (re_state r ==? Active).

Definition repair_missing_setup_container (d : Db) (workspace : string) (c : GcCandidate)
    (at_ : f64) : result RegError (option SetupMissingRepair * Db) :=
  if setup_missing_repair_candidate_exists d workspace c Active then
    let uses := count_rows (db_uses d) (repaired_use workspace c) in
    let resources := count_rows (db_resources d) (repaired_resource c) in
    let d1 := set_uses d (update_rows (db_uses d) (repaired_use workspace c)
                            (with_use_state Retired (Some at_))) in
    let d2 := set_resources d1 (update_rows (db_resources d) (repaired_resource c)
                                  (with_resource_state Retired (Some at_))) in
    if negb (uses =? 1) || negb (resources =? 1)
    then Err (BadRow "missing setup repair transition")
    else let? d3 := append_event d2 at_ "setup.reconcile.missing_repaired"
                      "missing_managed_setup_container" in Ok (Some Repaired, d3)
  else if setup_missing_repair_candidate_exists d workspace c Retired
  then Ok (Some AlreadyRepaired, d)
  else Ok (None, d).

(** *** Rollover and completion *)

(** An active use of the resource outside one workspace and stack. *)
Definition active_elsewhere (d : Db) (workspace stack id : string) : bool :=
  exists_row (db_uses d) (λ u,
    (us_resource_id u ==? id) && (us_state u ==? Active)
    && (negb (us_workspace u ==? workspace) || negb (us_stack u ==? stack))).

(** The active containers of one workspace and stack, of another generation, in the namespace
    [ns], that nothing outside that workspace and stack actively uses. *)
Definition superseded_container (d : Db) (ns : string → bool) (workspace stack generation : string)
    (r : Resource) : bool :=
  (re_kind r ==? Container) && (re_stack r ==? stack) && (re_workspace r ==? workspace)
  && negb (re_generation r ==? generation) && (re_state r ==? Active) && ns (re_id r)
  && negb (active_elsewhere d workspace stack (re_id r)).
Definition superseded_use (d : Db) (ns : string → bool) (workspace stack generation : string)
    (u : ResourceUse) : bool :=
  (us_workspace u ==? workspace) && (us_stack u ==? stack)
  && negb (us_generation u ==? generation) && (us_state u ==? Active)
  && exists_row (db_resources d) (λ r,
       (re_id r ==? us_resource_id u) && superseded_container d ns workspace stack generation r).

(** Both updates of a rollover; the second reads the uses the first left. *)
Definition retire_containers (d : Db) (ns : string → bool) (workspace stack generation : string) :
    Db :=
  let d := set_uses d (update_rows (db_uses d) (superseded_use d ns workspace stack generation)
                         (with_use_state Retired None)) in
  set_resources d (update_rows (db_resources d) (superseded_container d ns workspace stack generation)
                     (with_resource_state Retired None)).

Definition retire_prior_setup_container_generations (d : Db) (workspace stack generation : string) :
    Db :=
  if negb (stack ==? "setup") then d
  else retire_containers d (starts_with "setup-container:") workspace stack generation.
Definition manifest_namespace (id : string) : bool :=
  starts_with "manifest-container:" id || starts_with "manifest-guest:" id.
Definition retire_prior_manifest_container_generations (d : Db)
    (workspace stack generation : string) : Db :=
  retire_containers d manifest_namespace workspace stack generation.

Definition superseded_volume (d : Db) (workspace stack : string) (keep_names : list string)
    (r : Resource) : bool :=
  (re_kind r ==? Volume) && (re_stack r ==? stack) && (re_workspace r ==? workspace)
  && (re_state r ==? Active) && (re_scope r ==? Spec) && (re_retention r ==? Warm)
  && starts_with "manifest-volume:" (re_id r) && negb (bool_decide (re_name r ∈ keep_names))
  && negb (active_elsewhere d workspace stack (re_id r)).
Definition superseded_volume_use (d : Db) (workspace stack : string) (keep_names : list string)
    (u : ResourceUse) : bool :=
  (us_workspace u ==? workspace) && (us_stack u ==? stack) && (us_state u ==? Active)
  && exists_row (db_resources d) (λ r,
       (re_id r ==? us_resource_id u) && superseded_volume d workspace stack keep_names r).

(** The keep table has the names as its primary key: a repeated name is refused. *)
Definition retire_prior_manifest_warm_spec_volume_generations (d : Db) (workspace stack : string)
    (keep_names : list string) : result RegError Db :=
  if negb (bool_decide (NoDup keep_names)) then Err SqlConstraint
  else
    let d := set_uses d (update_rows (db_uses d) (superseded_volume_use d workspace stack keep_names)
                           (with_use_state Retired None)) in
    Ok (set_resources d (update_rows (db_resources d) (superseded_volume d workspace stack keep_names)
                           (with_resource_state Retired None))).

Definition setup_use (workspace : string) (u : ResourceUse) : bool :=
  (us_workspace u ==? workspace) && (us_stack u ==? "setup") && (us_state u ==? Active).
(** A resource of the completed uses that no use keeps active any more. *)
Definition completed_resource (before after : Db) (workspace : string) (r : Resource) : bool :=
  exists_row (db_uses before) (λ u, setup_use workspace u && (us_resource_id u ==? re_id r))
  && (re_state r ==? Active)
  && negb (exists_row (db_uses after) (λ u, (us_resource_id u ==? re_id r) && (us_state u ==? Active))).

Definition complete_setup_workspace (d : Db) (workspace : string) (at_ : f64) :
    result RegError (SetupDone * Db) :=
  let uses := count_rows (db_uses d) (setup_use workspace) in
  let d1 := set_uses d (update_rows (db_uses d) (setup_use workspace) (with_use_state Done (Some at_))) in
  if uses =? 0 then Ok ({| sd_uses_completed := 0; sd_resources_completed := 0 |}, d1)
  else
    let resources := count_rows (db_resources d1) (completed_resource d d1 workspace) in
    let d2 := set_resources d1 (update_rows (db_resources d1) (completed_resource d d1 workspace)
                                  (with_resource_state Done (Some at_))) in
    let? d3 := append_event d2 at_ "setup.done" "workspace_setup_completed" in
    Ok ({| sd_uses_completed := uses; sd_resources_completed := resources |}, d3).

(** ** The registry actor's handlers ([registry_actor.rs]): a transaction is committed only
    when it changed something, and an error or a refusal leaves the tables as they were. *)

Definition commit_if {A} (keep : A → bool) (d : Db) (r : result RegError (A * Db)) :
    result RegError A * Db :=
  match r with
  | Ok (a, d') => (Ok a, if keep a then d' else d)
  | Err e => (Err e, d)
  end.

(** A clock before the epoch refuses the call. *)
Definition with_clock {A} (now : option f64) (d : Db) (k : f64 → result RegError (A * Db))
    (keep : A → bool) : result RegError A * Db :=
  match now with
  | None => (Err (BadRow "system clock before epoch"), d)
  | Some now => commit_if keep d (k now)
  end.

Definition on_finalize_setup_gc (d : Db) (workspace : string) (c : GcCandidate) (missing : bool)
    (now : option f64) : result RegError bool * Db :=
  with_clock now d (λ now, finalize_setup_gc_candidate d workspace c now
    (if missing then "setup.gc.reconciled_missing" else "setup.gc.removed")) (λ removed, removed).
Definition on_finalize_manifest_volume_gc (d : Db) (workspace : string) (c : GcCandidate)
    (missing : bool) (now : option f64) : result RegError bool * Db :=
  with_clock now d (λ now, finalize_manifest_volume_gc_candidate d workspace c now
    (if missing then "manifest.volume_gc.reconciled_missing" else "manifest.volume_gc.removed"))
    (λ removed, removed).
Definition on_finalize_manifest_volume_release (d : Db) (workspace : string) (c : GcCandidate)
    (missing : bool) (now : option f64) : result RegError bool * Db :=
  with_clock now d (λ now, finalize_manifest_volume_release_candidate d workspace c now
    (if missing then "manifest.volume_release.reconciled_missing"
     else "manifest.volume_release.removed")) (λ removed, removed).
Definition on_confirm_setup_retired_stopped (d : Db) (workspace : string) (c : GcCandidate)
    (now : option f64) : result RegError bool * Db :=
  with_clock now d (confirm_setup_retired_container_stopped d workspace c) (λ recorded, recorded).
Definition on_repair_missing_setup_container (d : Db) (workspace : string) (c : GcCandidate)
    (now : option f64) : result RegError (option SetupMissingRepair) * Db :=
  with_clock now d (repair_missing_setup_container d workspace c) (λ r, r ==? Some Repaired).
Definition on_complete_setup_workspace (d : Db) (workspace : string) (now : option f64) :
    result RegError SetupDone * Db :=
  with_clock now d (complete_setup_workspace d workspace)
    (λ done, negb (sd_uses_completed done =? 0)).
End transactions.
