(* ===== verification/RegistryRecords.v ===== *)
(** * RegistryRecords: what the daemon writes to the registry

    The model of [bosn-service/src/registry_records.rs]: recording ensures, adoptions, task
    sessions, volume intents and events, each as one transaction over the tables of [Registry].
    [print] writes a JSON object ([serde_json]). *)

From stdpp Require Import pretty.
From S2P Require Import ManifestRecovery.
From S2P Require Export Registry.

Local Open Scope string_scope.
Local Open Scope list_scope.
Local Open Scope Z_scope.
Local Open Scope bosn_scope.

(** ** Reading a table page by page *)

(** The loop [offset = page.next_offset] over the pages of [rows]; [fuel] bounds the pages. *)
Fixpoint fetch_pages {A} (fuel : nat) (rows : list A) (offset limit : Z) : option (list A) :=
  match fuel with
  | O => None
  | S fuel =>
      match page_rows rows offset limit with
      | Err _ => None
      | Ok page =>
          match pa_next_offset page with
          | None => Some (pa_items page)
          | Some next => rest ← fetch_pages fuel rows next limit; Some (pa_items page ++ rest)
          end
      end
  end.
Definition fetch_all {A} (rows : list A) (limit : Z) : option (list A) :=
  fetch_pages (S (length rows)) rows 0 limit.

Definition setup_app_task_session_id (job_id : Z) : string := "setup-app-task:" +:+ pretty job_id.
Definition manifest_app_task_session_id (job_id : Z) : string :=
  "manifest-app-task:" +:+ pretty job_id.

Definition touch_resource (now : f64) (r : Resource) : Resource :=
  mkResource (re_id r) (re_kind r) (re_name r) (re_stack r) (re_generation r) (re_scope r)
    (re_workspace r) (re_created_at r) (f64_max (re_last_used r) now) (re_state r) (re_retention r).

(** The resources a finished task used, their idle clock restarted. *)
Definition completed_session_resources (d : Db) (session_id : string) (now : f64) :
    option (list Resource) :=
  sessions ← fetch_all (btree_values String.compare (db_sessions d)) 64;
  match head (filterb (λ s, xs_id s ==? session_id) sessions) with
  | None => Some []
  | Some session =>
      match resource_by_kind_name d Container (xs_container_id session) with
      | None => Some []
      | Some container =>
          resources ← fetch_all (btree_values String.compare (db_resources d)) 64;
          Some (touch_resource now <$>
            filterb (λ r, (re_workspace r ==? re_workspace container)
                          && (re_stack r ==? re_stack container)) resources)
      end
  end.

Section records.
Context (foreign_keys : bool).
Context (ci_append : f64 → string → string → Db → result RegError Db).
Context (print : gmap string JsonValue → string).
Notation append_event := (append_event ci_append).
Notation put_resource_use := (put_resource_use foreign_keys).

(** A transaction that always commits. *)
Definition transact (now : option f64) (d : Db) (k : f64 → result RegError Db) :
    result RegError unit * Db :=
  with_clock now d (λ now, let? d := k now in Ok ((), d)) (λ _, true).

Definition session_row (id container_id : string) (pid : Z) : ExecutionSession :=
  {| xs_id := id; xs_container_id := container_id; xs_engine_binary := "docker";
     xs_client_pid := pid; xs_client_start := None; xs_lease_ids := [] |}.

Definition record_setup_app_task_session (d : Db) (now : option f64) (pid job_id : Z)
    (container_id : string) : result RegError unit * Db :=
  transact now d (λ now,
    append_event
      (put_execution_session d (session_row (setup_app_task_session_id job_id) container_id pid))
      now "setup.app-task.started" "owned_declared_task").
Definition record_manifest_app_task_session (d : Db) (now : option f64) (pid job_id : Z)
    (container_id : string) : result RegError unit * Db :=
  transact now d (λ now,
    append_event
      (put_execution_session d (session_row (manifest_app_task_session_id job_id) container_id pid))
      now "manifest.app-task.started" "owned_declared_task").

Fixpoint put_resources (d : Db) (l : list Resource) : result RegError Db :=
  match l with [] => Ok d | r :: l => let? d := put_resource d r in put_resources d l end.

(** An uncertain outcome keeps the session: the remote process may still run. *)
Definition finish_session (d : Db) (now : option f64) (session_id uncertain finished outcome : string) :
    result RegError unit * Db :=
  transact now d (λ now,
    match completed_session_resources d session_id now with
    | None => Err (BadRow "page offset")
    | Some touched =>
        if outcome ==? "uncertain" then append_event d now uncertain "remote_completion_unknown"
        else
          let? d := put_resources d touched in
          append_event (delete_execution_session d session_id) now finished outcome
    end).
Definition finish_setup_app_task_session (d : Db) (now : option f64) (job_id : Z)
    (outcome : string) : result RegError unit * Db :=
  finish_session d now (setup_app_task_session_id job_id) "setup.app-task.uncertain"
    "setup.app-task.finished" outcome.
Definition finish_manifest_app_task_session (d : Db) (now : option f64) (job_id : Z)
    (outcome : string) : result RegError unit * Db :=
  finish_session d now (manifest_app_task_session_id job_id) "manifest.app-task.uncertain"
    "manifest.app-task.finished" outcome.

(** ** Ensures *)

Definition app_row (kind : ResourceKind) (id name stack generation workspace : string) (now : f64) :
    Resource :=
  mkResource id kind name stack generation Machine workspace now now Active Warm.
Definition active_use (id workspace stack generation : string) (now : f64) : ResourceUse :=
  mkResourceUse id workspace stack generation now Active.

(** An app's container or image with its use. *)
Definition put_app (d : Db) (kind : ResourceKind) (id name stack generation workspace : string)
    (now : f64) : result RegError Db :=
  let? d := put_resource_preserving_pin d (app_row kind id name stack generation workspace now) in
  put_resource_use d (active_use id workspace stack generation now).
Definition put_container (d : Db) (c : SetupEnsureResource) (now : f64) : result RegError Db :=
  put_app d Container (er_id c) (er_name c) (er_stack c) (er_generation c) (er_workspace c) now.
Definition put_image (d : Db) (i : SetupEnsureImageResource) (now : f64) : result RegError Db :=
  put_app d Image (ei_id i) (ei_name i) (ei_stack i) (ei_generation i) (ei_workspace i) now.

Definition record_setup_ensure (d : Db) (now : option f64) (job_id : Z)
    (execution : SetupEnsureExecution) : result RegError unit * Db :=
  let container := ex_resource execution in
  transact now d (λ now,
    let? d := put_container d container now in
    let? d := put_image d (ex_image execution) now in
    let d := retire_prior_setup_container_generations d (er_workspace container)
               (er_stack container) (er_generation container) in
    let event := event_terminal job_id OutcomeSucceeded in
    append_event d now (ev_kind event) (ev_detail event)).

Definition volume_row (v : ManifestVolumeResource) (now : f64) : Resource :=
  mkResource (mv_id v) Volume (mv_name v) (mv_stack v) (mv_generation v) (mv_scope v)
    (mv_workspace v) now now Active (mv_retention v).
Fixpoint put_volumes (d : Db) (volumes : list ManifestVolumeResource) (now : f64) :
    result RegError Db :=
  match volumes with
  | [] => Ok d
  | v :: volumes =>
      let? d := put_resource d (volume_row v now) in
      let? d := put_resource_use d
        (active_use (mv_id v) (mv_workspace v) (mv_stack v) (mv_generation v) now) in
      put_volumes (delete_volume_creation_intent d (mv_name v)) volumes now
  end.

Definition contract_matches (contract : ManifestRecoveryContract)
    (execution : SetupEnsureExecution) : bool :=
  (rc_resource_id contract ==? er_id (ex_resource execution))
  && (rc_name contract ==? er_name (ex_resource execution))
  && (rc_workspace contract ==? er_workspace (ex_resource execution))
  && (rc_stack contract ==? er_stack (ex_resource execution))
  && (rc_generation contract ==? er_generation (ex_resource execution))
  && (rc_image_identity contract ==? ei_generation (ex_image execution))
  && Bool.eqb (rc_guest contract) (starts_with "manifest-guest:" (er_id (ex_resource execution)))
  && safe_manifest_relative_path (rc_manifest contract).

Definition record_manifest_ensure (d : Db) (now : option f64) (job_id : Z)
    (execution : SetupEnsureExecution) (contract : ManifestRecoveryContract) :
    result RegError unit * Db :=
  if negb (contract_matches contract execution) then (Err (BadRow "manifest recovery contract"), d)
  else
    let container := ex_resource execution in
    transact now d (λ now,
      let? d := put_container d container now in
      let? d := put_image d (ex_image execution) now in
      let? d := put_volumes d (ex_volumes execution) now in
      let d := retire_prior_manifest_container_generations d (er_workspace container)
                 (er_stack container) (er_generation container) in
      let? d := retire_prior_manifest_warm_spec_volume_generations d (er_workspace container)
                  (er_stack container) (mv_name <$> ex_volumes execution) in
      let? d := append_event d now "manifest.recovery.contract"
                  (manifest_recovery_contract_json print contract) in
      let? d := append_event d now
                  (if rc_autostart contract then "manifest.autostart.intent_recorded"
                   else "manifest.autostart.not_selected")
                  (manifest_autostart_intent_detail print contract) in
      append_event d now "manifest.ensure.succeeded" ("job_id=" +:+ pretty job_id)).

(** ** Intents, adoption and events *)

Definition put_manifest_volume_intents (d : Db) (volumes : list ManifestVolumeResource) : Db :=
  fold_left (λ d v, put_volume_creation_intent d
    {| vi_name := mv_name v; vi_labels := mv_labels v; vi_stack := mv_stack v;
       vi_generation := mv_generation v; vi_scope := mv_scope v; vi_workspace := mv_workspace v |})
    volumes d.

(** What adoption finds under a kind and name must be the very same active fact. *)
Definition adoptable (d : Db) (kind : ResourceKind) (id name stack generation workspace : string) :
    bool :=
  match resource_by_kind_name d kind name with
  | None => true
  | Some r =>
      (re_id r ==? id) && (re_stack r ==? stack) && (re_generation r ==? generation)
      && (re_workspace r ==? workspace) && (re_scope r ==? Machine) && (re_state r ==? Active)
  end.

Definition record_setup_adoption (d : Db) (now : option f64) (execution : SetupEnsureExecution) :
    result RegError unit * Db :=
  let c := ex_resource execution in
  let i := ex_image execution in
  if negb (adoptable d Container (er_id c) (er_name c) (er_stack c) (er_generation c) (er_workspace c))
     || negb (adoptable d Image (ei_id i) (ei_name i) (ei_stack i) (ei_generation i) (ei_workspace i))
  then (Err ResourceIdentityConflict, d)
  else transact now d (λ now,
    let? d := put_container d c now in
    let? d := put_image d i now in
    append_event d now "setup.ensure.adopted" "managed_setup_app_restored").

Fixpoint append_events (d : Db) (now : f64) (events : list (string * string)) :
    result RegError Db :=
  match events with
  | [] => Ok d
  | (kind, detail) :: events =>
      let? d := append_event d now kind detail in append_events d now events
  end.
Definition append_setup_ensure_events (d : Db) (now : option f64) (events : list SetupEnsureEvent) :
    result RegError unit * Db :=
  if bool_decide (events = []) then (Ok (), d)
  else transact now d (λ now,
    append_events d now ((λ e, (ev_kind e, ev_detail e)) <$> events)).

Definition recovery_event_ok (e : string * string) : bool :=
  (starts_with "manifest.recovery." e.1 || starts_with "manifest.autostart." e.1)
  && (str_len e.1 <=? 128) && (str_len e.2 <=? 1024).
Fixpoint append_recovery_events (d : Db) (now : f64) (events : list (string * string)) :
    result RegError Db :=
  match events with
  | [] => Ok d
  | e :: events =>
      if negb (recovery_event_ok e) then Err (BadRow "manifest recovery event")
      else let? d := append_event d now e.1 e.2 in append_recovery_events d now events
  end.
Definition append_manifest_recovery_events (d : Db) (now : option f64)
    (events : list (string * string)) : result RegError unit * Db :=
  if bool_decide (events = []) then (Ok (), d)
  else transact now d (λ now, append_recovery_events d now events).
End records.
