(* ===== verification/RegistryInvariant.v ===== *)
(** * RegistryInvariant: the tables stay consistent

    Keys, the engine-identity index, referential integrity and the event order, and that every
    write of [Registry] and [RegistryRecords] preserves them. The connection is taken to enforce
    foreign keys ([foreign_keys] is [true] here), which no statement of the sources sets. *)

From stdpp Require Import pretty.
From S2P Require Import ManifestRecovery.
From S2P Require Export RegistryRecords.

Local Open Scope string_scope.
Local Open Scope list_scope.
Local Open Scope Z_scope.
Local Open Scope bosn_scope.

Create HintDb registry.

(** ** Row queries *)

Section rows.
Context {K R : Type} `{Countable K}.
Implicit Types (m : gmap K R) (p : R → bool).

Lemma elem_of_rows m r : r ∈ (map_to_list m).*2 ↔ ∃ k, m !! k = Some r.
Proof.
  rewrite list_elem_of_fmap. split.
  - intros ([k r'] & -> & Hin). exists k. by apply elem_of_map_to_list.
  - intros [k Hk]. exists (k, r). by rewrite elem_of_map_to_list.
Qed.

Lemma exists_row_true m p : exists_row m p = true ↔ ∃ k r, m !! k = Some r ∧ p r = true.
Proof.
  unfold exists_row. rewrite existsb_exists. split.
  - intros (r & Hin%list_elem_of_In & Hp). apply elem_of_rows in Hin as [k Hk]. eauto.
  - intros (k & r & Hk & Hp). exists r. split; [|done]. apply list_elem_of_In, elem_of_rows. eauto.
Qed.
Lemma exists_row_false m p : exists_row m p = false ↔ ∀ k r, m !! k = Some r → p r = false.
Proof.
  rewrite <- not_true_iff_false, exists_row_true. split.
  - intros Hn k r Hk. destruct (p r) eqn:E; [|done]. exfalso. eauto.
  - intros Ha (k & r & Hk & Hp). specialize (Ha k r Hk). congruence.
Qed.

Lemma lookup_update_rows m p f k :
  update_rows m p f !! k = (λ r, if p r then f r else r) <$> m !! k.
Proof. apply lookup_fmap. Qed.

Lemma lookup_delete_rows m p k r :
  delete_rows m p !! k = Some r ↔ m !! k = Some r ∧ p r = false.
Proof. unfold delete_rows. apply map_lookup_filter_Some. Qed.
End rows.

(** ** Consistency *)

Record db_wf (d : Db) : Prop := {
  wf_registry : is_Some (db_meta d !! "registry_id");
  wf_resource_key id r : db_resources d !! id = Some r → re_id r = id;
  wf_identity id1 id2 r1 r2 :
    db_resources d !! id1 = Some r1 → db_resources d !! id2 = Some r2 →
    re_kind r1 = re_kind r2 → re_name r1 = re_name r2 → id1 = id2;
  wf_use_key k u : db_uses d !! k = Some u → use_key u = k;
  wf_use_resource k u : db_uses d !! k = Some u → is_Some (db_resources d !! us_resource_id u);
  wf_lease_key id l : db_leases d !! id = Some l → le_id l = id;
  wf_lease_resource id l : db_leases d !! id = Some l → is_Some (db_resources d !! le_resource_id l);
  wf_session_key id s : db_sessions d !! id = Some s → xs_id s = id;
  wf_intent_key n v : db_intents d !! n = Some v → vi_name v = n;
  wf_events : StronglySorted (λ a b, et_id a < et_id b) (db_events d);
  wf_next_event e : e ∈ db_events d → et_id e < db_next_event d;
}.

(** A change of resource rows that keeps their keys and identities. *)
Definition same_identity (a b : Resource) : Prop :=
  re_id a = re_id b ∧ re_kind a = re_kind b ∧ re_name a = re_name b.

Lemma wf_update_resources d (f : Resource → Resource) :
  (∀ r, same_identity (f r) r) → db_wf d → db_wf (set_resources d (f <$> db_resources d)).
Proof.
  intros Hf []. split; cbn; try done.
  - intros id r Hr. apply lookup_fmap_Some in Hr as (r0 & <- & Hr).
    rewrite (proj1 (Hf r0)). eauto.
  - intros id1 id2 r1 r2 H1 H2. apply lookup_fmap_Some in H1 as (a & <- & H1), H2 as (b & <- & H2).
    destruct (Hf a) as (_ & -> & ->), (Hf b) as (_ & -> & ->). eauto.
  - intros k u Hu. rewrite lookup_fmap, fmap_is_Some. eauto.
  - intros k l Hl. rewrite lookup_fmap, fmap_is_Some. eauto.
Qed.

Lemma wf_update_uses d (f : ResourceUse → ResourceUse) :
  (∀ u, use_key (f u) = use_key u) → db_wf d → db_wf (set_uses d (f <$> db_uses d)).
Proof.
  intros Hf []. split; cbn; try done.
  - intros k u Hu. apply lookup_fmap_Some in Hu as (u0 & <- & Hu). rewrite Hf. eauto.
  - intros k u Hu. apply lookup_fmap_Some in Hu as (u0 & <- & Hu).
    specialize (Hf u0). unfold use_key in Hf. injection Hf as Heq _ _ _. rewrite Heq. eauto.
Qed.

Lemma wf_add_event d at_ kind detail : db_wf d → db_wf (add_event d at_ kind detail).
Proof.
  intros []. split; cbn; try done.
  - apply StronglySorted_app_2; [|done|repeat constructor].
    intros a b Ha ->%list_elem_of_singleton. cbn. eauto.
  - intros e [He| ->%list_elem_of_singleton]%elem_of_app; cbn; [|lia].
    specialize (wf_next_event0 e He). lia.
Qed.

Lemma by_kind_name_Some d kind name r :
  resource_by_kind_name d kind name = Some r →
  (∃ id, db_resources d !! id = Some r) ∧ re_kind r = kind ∧ re_name r = name.
Proof.
  unfold resource_by_kind_name. intros Hh.
  assert (r ∈ filterb (λ r, (re_kind r ==? kind) && (re_name r ==? name))
    (map_to_list (db_resources d)).*2) as Hin.
  { destruct (filterb _ _); [done|]. injection Hh as ->. by left. }
  apply list_elem_of_filter in Hin as [Hp Hin]. apply andb_true_iff in Hp as [H1 H2].
  apply bool_decide_eq_true in H1, H2. by apply elem_of_rows in Hin.
Qed.

Lemma by_kind_name_None d kind name id r :
  resource_by_kind_name d kind name = None → db_resources d !! id = Some r →
  re_kind r = kind → re_name r = name → False.
Proof.
  unfold resource_by_kind_name. intros Hh Hr Hk Hn.
  assert (r ∈ filterb (λ r, (re_kind r ==? kind) && (re_name r ==? name))
    (map_to_list (db_resources d)).*2) as Hin.
  { apply list_elem_of_filter. split; [|apply elem_of_rows; eauto].
    by rewrite !bool_decide_eq_true_2. }
  destruct (filterb _ _); [by apply not_elem_of_nil in Hin|done].
Qed.

(** Replacing one resource row by one of the same identity, or adding one of a fresh identity. *)
Lemma wf_insert_resource d v :
  db_wf d →
  (∀ id r, db_resources d !! id = Some r → re_kind r = re_kind v → re_name r = re_name v →
     id = re_id v) →
  db_wf (set_resources d (<[re_id v := v]> (db_resources d))).
Proof.
  intros [] Hid. split; cbn; try done.
  - intros id r. rewrite lookup_insert_Some. intros [[<- <-]|[_ Hr]]; [done|eauto].
  - intros id1 id2 r1 r2. rewrite !lookup_insert_Some.
    intros [[<- <-]|[Hn1 H1]] [[<- <-]|[Hn2 H2]] Hk Hn; [done| | |by eauto].
    + symmetry. by eapply Hid.
    + by eapply Hid.
  - intros k u Hu. rewrite lookup_insert_is_Some'. right. eauto.
  - intros k l Hl. rewrite lookup_insert_is_Some'. right. eauto.
Qed.

Lemma upsert_Ok preserve d v d' :
  db_wf d → upsert_resource preserve d v = Ok d' →
  ∃ w, d' = set_resources d (<[re_id v := w]> (db_resources d)) ∧ same_identity w v ∧
    re_stack w = re_stack v ∧ re_generation w = re_generation v ∧ re_scope w = re_scope v ∧
    re_workspace w = re_workspace v ∧ re_state w = re_state v ∧ re_last_used w = re_last_used v ∧
    (re_retention w = re_retention v ∨
     preserve = true ∧ re_retention w = Pinned ∧
       ∃ old, db_resources d !! re_id v = Some old ∧ re_retention old = Pinned) ∧
    (∀ old, db_resources d !! re_id v = Some old → same_identity old v).
Proof.
  intros Hwf. unfold upsert_resource.
  destruct (resource_by_kind_name d (re_kind v) (re_name v)) as [old|] eqn:E.
  - apply by_kind_name_Some in E as ([id Hold] & Hk & Hn).
    pose proof (wf_resource_key _ Hwf _ _ Hold) as Hid.
    case_bool_decide as Heq; [|done]. intros [= <-].
    assert (db_resources d !! re_id v = Some old) as Hlook by congruence.
    exists (merge_resource preserve old v). split; [by rewrite <- Heq|]. split; [done|].
    split_and!; [done..| |].
    + cbn. destruct preserve; [|by left]. cbn. case_bool_decide; [right|by left]. eauto.
    + intros old' Hold'. rewrite Hlook in Hold'. by injection Hold' as <-.
  - destruct (db_resources d !! re_id v) eqn:Ev; [done|]. intros [= <-]. exists v.
    split_and!; try done. by left.
Qed.

Lemma wf_upsert preserve d v d' : db_wf d → upsert_resource preserve d v = Ok d' → db_wf d'.
Proof.
  intros Hwf Hup. pose proof Hup as Hup'. apply (upsert_Ok _ _ _ _ Hwf) in Hup' as
    (w & -> & (Hi & Hk & Hn) & _). rewrite <- Hi. apply wf_insert_resource; [done|].
  intros id r Hr Hk' Hn'. rewrite Hk in Hk'. rewrite Hn in Hn'. rewrite Hi.
  revert Hup. unfold upsert_resource.
  destruct (resource_by_kind_name d (re_kind v) (re_name v)) as [old|] eqn:E.
  - apply by_kind_name_Some in E as ([id' Hold] & Hko & Hno).
    case_bool_decide as Heq; [|done]. intros _. rewrite <- Heq.
    rewrite (wf_resource_key _ Hwf _ _ Hold). eapply (wf_identity _ Hwf); [done..| |]; congruence.
  - by destruct (by_kind_name_None _ _ _ _ _ E Hr Hk' Hn').
Qed.

Lemma wf_put_use d v d' :
  db_wf d → put_resource_use true d v = Ok d' →
  db_wf d' ∧ d' = set_uses d (<[use_key v := v]> (db_uses d)).
Proof.
  intros [] Hput. unfold put_resource_use in Hput. destruct (has_resource d _) eqn:Hr; [|done].
  injection Hput as <-. split; [|done]. apply bool_decide_eq_true in Hr. split; cbn; try done.
  - intros k u. rewrite lookup_insert_Some. intros [[<- <-]|[_ Hu]]; [done|eauto].
  - intros k u. rewrite lookup_insert_Some. intros [[<- <-]|[_ Hu]]; [done|eauto].
Qed.

Lemma wf_put_lease d v d' : db_wf d → put_lease true d v = Ok d' → db_wf d'.
Proof.
  intros [] Hput. unfold put_lease in Hput. destruct (has_resource d _) eqn:Hr; [|done].
  injection Hput as <-. apply bool_decide_eq_true in Hr. split; cbn; try done.
  - intros k u. rewrite lookup_insert_Some. intros [[<- <-]|[_ Hu]]; [done|eauto].
  - intros k u. rewrite lookup_insert_Some. intros [[<- <-]|[_ Hu]]; [done|eauto].
Qed.

Lemma wf_put_session d v : db_wf d → db_wf (put_execution_session d v).
Proof.
  intros []. split; cbn; try done.
  intros k u. rewrite lookup_insert_Some. intros [[<- <-]|[_ Hu]]; [done|eauto].
Qed.
Lemma wf_delete_session d id : db_wf d → db_wf (delete_execution_session d id).
Proof. intros []. split; cbn; try done. intros k u. rewrite lookup_delete_Some. intros [_ Hu]. eauto. Qed.
Lemma wf_put_intent d v : db_wf d → db_wf (put_volume_creation_intent d v).
Proof.
  intros []. split; cbn; try done.
  intros k u. rewrite lookup_insert_Some. intros [[<- <-]|[_ Hu]]; [done|eauto].
Qed.
Lemma wf_delete_intent d name : db_wf d → db_wf (delete_volume_creation_intent d name).
Proof. intros []. split; cbn; try done. intros k u. rewrite lookup_delete_Some. intros [_ Hu]. eauto. Qed.
Lemma wf_delete_lease d id : db_wf d → db_wf (delete_lease d id).
Proof.
  intros []. split; cbn; try done; intros k u; rewrite lookup_delete_Some; intros [_ Hu]; eauto.
Qed.
Lemma wf_put_generation d v : db_wf d → db_wf (put_generation d v).
Proof. by intros []. Qed.
Lemma wf_delete_generation d w s g : db_wf d → db_wf (delete_generation d w s g).
Proof. by intros []. Qed.

Lemma wf_set_meta d key value d' : db_wf d → set_meta d key value = Ok d' → db_wf d'.
Proof.
  intros []. unfold set_meta. destruct (_ || _) eqn:E; [done|]. intros [= <-].
  split; cbn; try done. rewrite lookup_insert_is_Some'. by right.
Qed.

Lemma wf_delete_resource d id : db_wf d → db_wf (delete_resource true d id).
Proof.
  intros []. unfold delete_resource. split; cbn; try done.
  - intros k r. rewrite lookup_delete_Some. intros [_ Hr]. eauto.
  - intros id1 id2 r1 r2. rewrite !lookup_delete_Some. intros [_ H1] [_ H2]. eauto.
  - intros k u. rewrite lookup_delete_rows. intros [Hu _]. eauto.
  - intros k u. rewrite lookup_delete_rows. intros [Hu Hne%bool_decide_eq_false].
    rewrite lookup_delete_ne by congruence. eauto.
  - intros k u. rewrite lookup_delete_rows. intros [Hu _]. eauto.
  - intros k u. rewrite lookup_delete_rows. intros [Hu Hne%bool_decide_eq_false].
    rewrite lookup_delete_ne by congruence. eauto.
Qed.

#[export] Hint Resolve wf_put_session wf_delete_session wf_put_intent wf_delete_intent
  wf_delete_lease wf_put_generation wf_delete_generation wf_delete_resource wf_add_event : registry.

(** ** Handlers *)

(** A handler keeps what its transaction keeps. *)
Lemma with_clock_db {A} (P : Db → Prop) now d (k : f64 → result RegError (A * Db)) keep :
  P d → (∀ now a d', k now = Ok (a, d') → P d') → P (with_clock now d k keep).2.
Proof.
  intros Hd Hk. destruct now as [now|]; [|done]. cbn. unfold commit_if.
  destruct (k now) as [[a d']|e] eqn:E; [|done]. cbn. destruct (keep a); [by eapply Hk|done].
Qed.
Lemma transact_db (P : Db → Prop) now d k :
  P d → (∀ now d', k now = Ok d' → P d') → P (transact now d k).2.
Proof.
  intros Hd Hk. unfold transact. apply (with_clock_db P); [done|]. intros t [] d'. destruct (k t) as [d''|] eqn:E; [|done].
  intros [= <-]. by eapply Hk.
Qed.

(** ** Every write preserves consistency *)

Section preservation.
Context (ci_append : f64 → string → string → Db → result RegError Db).
Context (ci_wf : ∀ at_ kind detail d d', db_wf d → ci_append at_ kind detail d = Ok d' → db_wf d').
Context (print : gmap string JsonValue → string).

Lemma wf_append_event d at_ kind detail d' :
  db_wf d → append_event ci_append d at_ kind detail = Ok d' → db_wf d'.
Proof.
  intros Hwf. unfold append_event. destruct (db_meta d !! _); [|done].
  destruct (ci_kind kind); [by apply ci_wf|]. intros [= <-]. by apply wf_add_event.
Qed.

Lemma wf_update_use_rows d p st at_ :
  db_wf d → db_wf (set_uses d (update_rows (db_uses d) p (with_use_state st at_))).
Proof. apply wf_update_uses. intros u. by destruct (p u). Qed.
Lemma wf_update_resource_rows d p st at_ :
  db_wf d → db_wf (set_resources d (update_rows (db_resources d) p (with_resource_state st at_))).
Proof. apply wf_update_resources. intros r. by destruct (p r). Qed.

(** Both tables updated, as every rollover, repair and completion does. *)
Lemma wf_update_both d pu stu atu pr st at_ :
  db_wf d →
  db_wf (set_resources (set_uses d (update_rows (db_uses d) pu (with_use_state stu atu)))
    (update_rows (db_resources d) pr (with_resource_state st at_))).
Proof.
  intros Hwf. exact (wf_update_resource_rows (set_uses d _) pr st at_ (wf_update_use_rows d pu stu atu Hwf)).
Qed.

Lemma wf_retire_containers d ns w s g : db_wf d → db_wf (retire_containers d ns w s g).
Proof. intros Hwf. by apply (wf_update_both d). Qed.

Lemma wf_retire_volumes d w s names d' :
  db_wf d → retire_prior_manifest_warm_spec_volume_generations d w s names = Ok d' → db_wf d'.
Proof.
  intros Hwf. unfold retire_prior_manifest_warm_spec_volume_generations.
  case_bool_decide; [|done]. intros [= <-]. by apply (wf_update_both d).
Qed.

Lemma wf_put_app d kind id name stack g w now d' :
  db_wf d → put_app true d kind id name stack g w now = Ok d' → db_wf d'.
Proof.
  intros Hwf. unfold put_app. destruct (put_resource_preserving_pin _ _) as [d1|] eqn:E; [|done].
  intros Hu. apply wf_upsert in E; [|done]. by apply wf_put_use in Hu as [].
Qed.

Lemma wf_put_volumes volumes d now d' :
  db_wf d → put_volumes true d volumes now = Ok d' → db_wf d'.
Proof.
  revert d. induction volumes as [|v volumes IH]; intros d Hwf; cbn; [by intros [= <-]|].
  destruct (put_resource _ _) as [d1|] eqn:E1; [|done]. apply wf_upsert in E1; [|done].
  destruct (put_resource_use _ _ _) as [d2|] eqn:E2; [|done]. apply wf_put_use in E2 as [E2 _]; [|done].
  intros H. eapply IH; [|exact H]. by apply wf_delete_intent.
Qed.

Lemma wf_put_resources l d d' : db_wf d → put_resources d l = Ok d' → db_wf d'.
Proof.
  revert d. induction l as [|r l IH]; intros d Hwf; cbn; [by intros [= <-]|].
  destruct (put_resource d r) as [d1|] eqn:E1; [|done]. apply wf_upsert in E1; [|done]. by apply IH.
Qed.

Lemma wf_append_events l d now d' :
  db_wf d → append_events ci_append d now l = Ok d' → db_wf d'.
Proof.
  revert d. induction l as [|[kind detail] l IH]; intros d Hwf; cbn; [by intros [= <-]|].
  destruct (append_event _ _ _ _ _) as [d1|] eqn:E1; [|done].
  apply wf_append_event in E1; [|done]. by apply IH.
Qed.

Lemma wf_append_recovery_events l d now d' :
  db_wf d → append_recovery_events ci_append d now l = Ok d' → db_wf d'.
Proof.
  revert d. induction l as [|e l IH]; intros d Hwf; cbn; [by intros [= <-]|].
  destruct (negb _); [done|]. destruct (append_event _ _ _ _ _) as [d1|] eqn:E1; [|done].
  apply wf_append_event in E1; [|done]. by apply IH.
Qed.

(** The writes of the registry, as the daemon makes them. *)
Inductive reg_op :=
| RecordSetupEnsure (job_id : Z) (execution : SetupEnsureExecution)
| RecordManifestEnsure (job_id : Z) (execution : SetupEnsureExecution)
    (contract : ManifestRecoveryContract)
| RecordSetupAdoption (execution : SetupEnsureExecution)
| RecordSetupSession (pid job_id : Z) (container_id : string)
| RecordManifestSession (pid job_id : Z) (container_id : string)
| FinishSetupSession (job_id : Z) (outcome : string)
| FinishManifestSession (job_id : Z) (outcome : string)
| PutVolumeIntents (volumes : list ManifestVolumeResource)
| AppendSetupEvents (events : list SetupEnsureEvent)
| AppendRecoveryEvents (events : list (string * string))
| FinalizeSetupGc (workspace : string) (c : GcCandidate) (missing : bool)
| FinalizeVolumeGc (workspace : string) (c : GcCandidate) (missing : bool)
| FinalizeVolumeRelease (workspace : string) (c : GcCandidate) (missing : bool)
| ConfirmRetiredStopped (workspace : string) (c : GcCandidate)
| RepairMissing (workspace : string) (c : GcCandidate)
| CompleteWorkspace (workspace : string)
| PutLease (lease : LeaseRow)
| DeleteLease (id : string)
| SetMeta (key value : string).

Definition reg_step (d : Db) (now : option f64) (op : reg_op) : Db :=
  match op with
  | RecordSetupEnsure id e => (record_setup_ensure true ci_append d now id e).2
  | RecordManifestEnsure id e c => (record_manifest_ensure true ci_append print d now id e c).2
  | RecordSetupAdoption e => (record_setup_adoption true ci_append d now e).2
  | RecordSetupSession pid id c => (record_setup_app_task_session ci_append d now pid id c).2
  | RecordManifestSession pid id c => (record_manifest_app_task_session ci_append d now pid id c).2
  | FinishSetupSession id o => (finish_setup_app_task_session ci_append d now id o).2
  | FinishManifestSession id o => (finish_manifest_app_task_session ci_append d now id o).2
  | PutVolumeIntents vs => put_manifest_volume_intents d vs
  | AppendSetupEvents es => (append_setup_ensure_events ci_append d now es).2
  | AppendRecoveryEvents es => (append_manifest_recovery_events ci_append d now es).2
  | FinalizeSetupGc w c m => (on_finalize_setup_gc true ci_append d w c m now).2
  | FinalizeVolumeGc w c m => (on_finalize_manifest_volume_gc true ci_append d w c m now).2
  | FinalizeVolumeRelease w c m => (on_finalize_manifest_volume_release true ci_append d w c m now).2
  | ConfirmRetiredStopped w c => (on_confirm_setup_retired_stopped ci_append d w c now).2
  | RepairMissing w c => (on_repair_missing_setup_container ci_append d w c now).2
  | CompleteWorkspace w => (on_complete_setup_workspace ci_append d w now).2
  | PutLease l => match put_lease true d l with Ok d' => d' | Err _ => d end
  | DeleteLease id => delete_lease d id
  | SetMeta k v => match set_meta d k v with Ok d' => d' | Err _ => d end
  end.

Ltac step_ok E := match type of E with
  | match ?x with Ok _ => _ | Err _ => Err _ end = Ok _ =>
      let d := fresh "d" in let E1 := fresh "E" in destruct x as [d|] eqn:E1; [|done]
  end.

Lemma wf_finalize d w c at_ kind a d' :
  db_wf d →
  (finalize_setup_gc_candidate true ci_append d w c at_ kind = Ok (a, d') ∨
   finalize_manifest_volume_gc_candidate true ci_append d w c at_ kind = Ok (a, d') ∨
   finalize_manifest_volume_release_candidate true ci_append d w c at_ kind = Ok (a, d')) → db_wf d'.
Proof.
  intros Hwf. unfold finalize_setup_gc_candidate, finalize_manifest_volume_gc_candidate,
    finalize_manifest_volume_release_candidate.
  intros [H|[H|H]]; destruct (negb _); try (by injection H as _ <-);
    step_ok H; injection H as _ <-; (eapply wf_append_event; [|done]); by apply wf_delete_resource.
Qed.

Lemma wf_repair d w c at_ a d' :
  db_wf d → repair_missing_setup_container ci_append d w c at_ = Ok (a, d') → db_wf d'.
Proof.
  intros Hwf H. unfold repair_missing_setup_container in H.
  destruct (setup_missing_repair_candidate_exists d w c Active).
  - destruct (_ || _); [done|]. step_ok H. injection H as _ <-.
    eapply wf_append_event; [|done]. by apply (wf_update_both d).
  - destruct (setup_missing_repair_candidate_exists d w c Retired); by injection H as _ <-.
Qed.

Lemma wf_complete d w at_ a d' :
  db_wf d → complete_setup_workspace ci_append d w at_ = Ok (a, d') → db_wf d'.
Proof.
  intros Hwf H. unfold complete_setup_workspace in H. destruct (_ =? 0).
  - injection H as _ <-. by apply wf_update_use_rows.
  - step_ok H. injection H as _ <-. eapply wf_append_event; [|done].
    by apply (wf_update_both d).
Qed.

Lemma wf_put_intents volumes d : db_wf d → db_wf (put_manifest_volume_intents d volumes).
Proof.
  revert d. induction volumes as [|v volumes IH]; intros d Hwf; [done|].
  apply IH. by apply wf_put_intent.
Qed.

Lemma wf_record_ensures d now op :
  db_wf d →
  match op with
  | RecordSetupEnsure _ _ | RecordManifestEnsure _ _ _ | RecordSetupAdoption _ =>
      db_wf (reg_step d now op)
  | _ => True
  end.
Proof.
  intros Hwf. destruct op; try done; cbn [reg_step].
  - apply (transact_db db_wf); [done|]. intros t d' H. step_ok H. step_ok H.
    apply wf_put_app in E; [|done]. apply wf_put_app in E0; [|done].
    eapply wf_append_event; [|exact H]. unfold retire_prior_setup_container_generations.
    destruct (negb _); [done|by apply wf_retire_containers].
  - unfold record_manifest_ensure. destruct (negb _); [done|]. apply (transact_db db_wf); [done|].
    intros t d' H. step_ok H. step_ok H. step_ok H. step_ok H. step_ok H. step_ok H.
    apply wf_put_app in E; [|done]. apply wf_put_app in E0; [|done].
    apply wf_put_volumes in E1; [|done]. apply wf_retire_volumes in E2; [|by apply wf_retire_containers].
    eapply wf_append_event; [|exact H]. eapply wf_append_event; [|exact E4].
    by eapply wf_append_event; [|exact E3].
  - unfold record_setup_adoption. destruct (_ || _); [done|]. apply (transact_db db_wf); [done|].
    intros t d' H. step_ok H. step_ok H. apply wf_put_app in E; [|done].
    apply wf_put_app in E0; [|done]. by eapply wf_append_event; [|exact H].
Qed.

Lemma wf_finish_session d now id uncertain finished outcome :
  db_wf d → db_wf (finish_session ci_append d now id uncertain finished outcome).2.
Proof.
  intros Hwf. apply (transact_db db_wf); [done|]. intros t d'.
  destruct (completed_session_resources d id t) as [touched|]; [|done].
  case_bool_decide as Ho; [by apply wf_append_event|]. intros H. step_ok H.
  apply wf_put_resources in E; [|done]. eapply wf_append_event; [|exact H]. by apply wf_delete_session.
Qed.

(** Consistency is an invariant of every write. *)
Lemma wf_reg_step d now op : db_wf d → db_wf (reg_step d now op).
Proof.
  intros Hwf. pose proof (wf_record_ensures d now op Hwf) as Hrec.
  destruct op; try exact Hrec; cbn [reg_step] in *.
  - apply (transact_db db_wf); [done|]. intros t d'. apply wf_append_event. by apply wf_put_session.
  - apply (transact_db db_wf); [done|]. intros t d'. apply wf_append_event. by apply wf_put_session.
  - by apply wf_finish_session.
  - by apply wf_finish_session.
  - by apply wf_put_intents.
  - unfold append_setup_ensure_events. case_bool_decide; [done|]. apply (transact_db db_wf); [done|].
    intros t d'. by apply wf_append_events.
  - unfold append_manifest_recovery_events. case_bool_decide; [done|]. apply (transact_db db_wf); [done|].
    intros t d'. by apply wf_append_recovery_events.
  - apply (with_clock_db db_wf); [done|]. intros t a d' H. eapply wf_finalize; eauto.
  - apply (with_clock_db db_wf); [done|]. intros t a d' H. eapply wf_finalize; eauto.
  - apply (with_clock_db db_wf); [done|]. intros t a d' H. eapply wf_finalize; eauto.
  - apply (with_clock_db db_wf); [done|]. intros t a d' H.
    unfold confirm_setup_retired_container_stopped in H. destruct (negb _); [by injection H as _ <-|].
    step_ok H. injection H as _ <-. by eapply wf_append_event.
  - apply (with_clock_db db_wf); [done|]. intros t a d'. by apply wf_repair.
  - apply (with_clock_db db_wf); [done|]. intros t a d'. by apply wf_complete.
  - destruct (put_lease true d lease) as [d'|] eqn:E; [|done]. by eapply wf_put_lease.
  - by apply wf_delete_lease.
  - destruct (set_meta d key value) as [d'|] eqn:E; [|done]. by eapply wf_set_meta.
Qed.

Inductive reg_reachable (start : Db) : Db → Prop :=
| reg_start : reg_reachable start start
| reg_next d now op : reg_reachable start d → reg_reachable start (reg_step d now op).

Lemma wf_reachable start d : db_wf start → reg_reachable start d → db_wf d.
Proof. intros Hwf. induction 1; [done|]. by apply wf_reg_step. Qed.
End preservation.

Lemma wf_new id : db_wf (Db_new id).
Proof.
  split; cbn; try (intros *; rewrite lookup_empty; done); [|constructor|].
  - by eexists.
  - intros e He. by apply not_elem_of_nil in He.
Qed.
