(* ===== verification/RegistryTheorems.v ===== *)
(** * RegistryTheorems: what the registry promises

    Candidates are unprotected, finalization removes exactly the candidate, a rollover retires
    exactly what the new generation superseded, repairs and completions are idempotent, previews
    list exactly the candidates, and a running task's session protects its container. *)

From stdpp Require Import pretty.
From S2P Require Import ManifestRecovery.
From S2P Require Export RegistryInvariant.

Local Open Scope string_scope.
Local Open Scope list_scope.
Local Open Scope Z_scope.
Local Open Scope bosn_scope.

(** No CI snapshot is written in the examples. *)
Definition no_ci (_ : f64) (_ _ : string) (d : Db) : result RegError Db := Ok d.

(** The registry's tables stay consistent through every sequence of writes, refused ones
    included: primary keys and the (kind, name) identity are unique, every use and lease
    belongs to an existing resource, and events keep their order under fresh IDs. *)
Theorem registry_stays_consistent ci_append print id d :
  (∀ at_ kind detail d d', db_wf d → ci_append at_ kind detail d = Ok d' → db_wf d') →
  reg_reachable ci_append print (Db_new id) d → db_wf d.
Proof. intros Hci. apply wf_reachable; [exact Hci|apply wf_new]. Qed.

(** ** Reading conditions *)

Ltac conds := repeat match goal with
  | H : _ && _ = true |- _ => apply andb_true_iff in H as [? ?]
  | H : negb _ = true |- _ => apply negb_true_iff in H
  | H : negb _ = false |- _ => apply negb_false_iff in H
  | H : bool_decide _ = true |- _ => apply bool_decide_eq_true in H
  | H : bool_decide _ = false |- _ => apply bool_decide_eq_false in H
  | H : _ || _ = false |- _ => apply orb_false_iff in H as [? ?]
  end.

(** Nothing holds on to a resource. *)
Definition unprotected (d : Db) (r : Resource) : Prop :=
  (∀ id l, db_leases d !! id = Some l → le_resource_id l ≠ re_id r) ∧
  (∀ id s, db_sessions d !! id = Some s →
     xs_container_id s ≠ re_id r ∧ xs_container_id s ≠ re_name r).

Lemma leased_false d r :
  leased d r = false → ∀ id l, db_leases d !! id = Some l → le_resource_id l ≠ re_id r.
Proof. intros H id l Hl. apply (proj1 (exists_row_false _ _) H) in Hl. by conds. Qed.
Lemma in_session_false d r :
  in_session d r = false → ∀ id s, db_sessions d !! id = Some s →
    xs_container_id s ≠ re_id r ∧ xs_container_id s ≠ re_name r.
Proof. intros H id s Hs. apply (proj1 (exists_row_false _ _) H) in Hs. by conds. Qed.

Lemma unprotected_intro d r : leased d r = false → in_session d r = false → unprotected d r.
Proof. intros H1 H2. split; [by apply leased_false|by apply in_session_false]. Qed.

(** Every use of the resource is of this workspace and its own stack, in state [st]. *)
Definition only_used (d : Db) (workspace : string) (r : Resource) (st : ResourceState) : Prop :=
  (∃ k u, db_uses d !! k = Some u ∧ us_resource_id u = re_id r) ∧
  ∀ k u, db_uses d !! k = Some u → us_resource_id u = re_id r →
    us_workspace u = workspace ∧ us_stack u = re_stack r ∧ us_state u = st.

Lemma owned_use_true d w r st : owned_use d w r st = true → only_used d w r st.
Proof.
  unfold owned_use. intros H. conds. apply exists_row_true in H as (k & u & Hu & Hp). conds.
  split; [by exists k, u|]. intros k' u' Hu' Hid.
  apply (proj1 (exists_row_false _ _) H0) in Hu'. rewrite (bool_decide_eq_true_2 _ Hid) in Hu'.
  cbn in Hu'. by conds.
Qed.
Lemma owned_generation_use_true d w r st :
  owned_generation_use d w r st = true → only_used d w r st.
Proof.
  unfold owned_generation_use. intros H. conds.
  apply exists_row_true in H as (k & u & Hu & Hp). conds.
  split; [by exists k, u|]. intros k' u' Hu' Hid.
  apply (proj1 (exists_row_false _ _) H0) in Hu'. rewrite (bool_decide_eq_true_2 _ Hid) in Hu'.
  cbn in Hu'. by conds.
Qed.

(** The row a candidate names. *)
Lemma candidate_row d (where_ : Resource → bool) c :
  db_wf d → exists_row (db_resources d) (λ r, named c r && where_ r) = true →
  ∃ r, db_resources d !! gc_id c = Some r ∧ candidate_of r = c ∧ where_ r = true.
Proof.
  intros Hwf H. apply exists_row_true in H as (k & r & Hr & Hp). unfold named in Hp. conds.
  pose proof (wf_resource_key _ Hwf _ _ Hr). exists r. split; [congruence|]. split; [|done].
  destruct c. unfold candidate_of. cbn in *. congruence.
Qed.

(** ** Candidates *)

Lemma setup_candidate_row d w c c' :
  db_wf d → setup_gc_candidate d w c = Some c' →
  c' = c ∧ ∃ r, db_resources d !! gc_id c = Some r ∧ candidate_of r = c ∧
    setup_gc_where d w r = true.
Proof.
  intros Hwf. unfold setup_gc_candidate. destruct (setup_gc_candidate_exists d w c) eqn:E; [|done].
  intros [= <-]. split; [done|]. by apply candidate_row.
Qed.

(** A setup container is offered for removal or a stop only when the row of exactly that ID,
    name and generation is a retired machine container of this workspace in one of the three
    managed namespaces, all of its uses are retired uses of this workspace and its stack, and
    no lease or execution session holds it. *)
Theorem setup_candidates_are_unprotected d w c c' :
  db_wf d → setup_gc_candidate d w c = Some c' →
  c' = c ∧ ∃ r, db_resources d !! gc_id c = Some r ∧ candidate_of r = c ∧
    re_kind r = Container ∧ re_state r = Retired ∧ re_scope r = Machine ∧ re_workspace r = w ∧
    setup_namespace r = true ∧ only_used d w r Retired ∧ unprotected d r.
Proof.
  intros Hwf Hc. apply setup_candidate_row in Hc as (-> & r & Hr & Hof & Hw); [|done].
  split; [done|]. exists r. unfold setup_gc_where in Hw. conds.
  split_and!; try done; [by apply owned_use_true|by apply unprotected_intro].
Qed.

Lemma where_disjoint d w1 w2 r :
  volume_gc_where d w1 r = true → volume_release_where d w2 r = true → False.
Proof. unfold volume_gc_where, volume_release_where. intros. conds. congruence. Qed.

(** Automatic collection and explicit release of volumes never meet: a volume collected
    automatically is a retired, warm, spec-scoped manifest volume all of whose uses are retired,
    a released one is active and durable (stack or machine scope, or pinned), and neither is
    leased, in a session or about to be created; no volume is both, whatever workspaces ask. *)
Theorem volume_gc_and_release_disjoint d w c c' :
  db_wf d →
  (manifest_volume_gc_candidate d w c = Some c' →
     c' = c ∧ (∃ r, db_resources d !! gc_id c = Some r ∧ re_kind r = Volume ∧ re_state r = Retired ∧
       re_scope r = Spec ∧ re_retention r = Warm ∧ only_used d w r Retired ∧ unprotected d r ∧
       ∀ n v, db_intents d !! n = Some v → vi_name v ≠ re_name r) ∧
     ∀ w2, manifest_volume_release_candidate d w2 c = None) ∧
  (manifest_volume_release_candidate d w c = Some c' →
     c' = c ∧ (∃ r, db_resources d !! gc_id c = Some r ∧ re_kind r = Volume ∧ re_state r = Active ∧
       (re_scope r ≠ Spec ∨ re_retention r = Pinned) ∧ only_used d w r Active ∧ unprotected d r ∧
       ∀ n v, db_intents d !! n = Some v → vi_name v ≠ re_name r) ∧
     ∀ w2, manifest_volume_gc_candidate d w2 c = None).
Proof.
  intros Hwf. unfold manifest_volume_gc_candidate, manifest_volume_release_candidate.
  assert (∀ r, intended d r = false → ∀ n v, db_intents d !! n = Some v → vi_name v ≠ re_name r)
    as Hint.
  { intros r H n v Hv. apply (proj1 (exists_row_false _ _) H) in Hv. by conds. }
  split.
  - destruct (manifest_volume_gc_candidate_exists d w c) eqn:E; [|done]. intros [= <-].
    apply candidate_row in E as (r & Hr & Hof & Hw); [|done]. split; [done|]. split.
    + exists r. unfold volume_gc_where in Hw. conds. split_and!; try done;
        [by apply owned_generation_use_true|by apply unprotected_intro|by apply Hint].
    + intros w2. destruct (manifest_volume_release_candidate_exists d w2 c) eqn:E2; [|done].
      apply candidate_row in E2 as (r2 & Hr2 & _ & Hw2); [|done]. rewrite Hr in Hr2.
      injection Hr2 as <-. by destruct (where_disjoint _ _ _ _ Hw Hw2).
  - destruct (manifest_volume_release_candidate_exists d w c) eqn:E; [|done]. intros [= <-].
    apply candidate_row in E as (r & Hr & Hof & Hw); [|done]. split; [done|]. split.
    + exists r. unfold volume_release_where in Hw. conds.
      assert (re_scope r ≠ Spec ∨ re_retention r = Pinned) as Hdur.
      { match goal with H : _ || _ || _ = true |- _ => rewrite !orb_true_iff, !bool_decide_eq_true in H;
          destruct H as [[->| ->]| ->]; [left; done..|by right] end. }
      split_and!; try done;
        [by apply owned_generation_use_true|by apply unprotected_intro|by apply Hint].
    + intros w2. destruct (manifest_volume_gc_candidate_exists d w2 c) eqn:E2; [|done].
      apply candidate_row in E2 as (r2 & Hr2 & _ & Hw2); [|done]. rewrite Hr in Hr2.
      injection Hr2 as <-. by destruct (where_disjoint _ _ _ _ Hw2 Hw).
Qed.

(** ** Finalization *)

(** The tables without the resource [id] and its uses; leases of it were excluded. *)
Definition removed_row (d d' : Db) (id kind detail : string) : Prop :=
  db_resources d' = delete id (db_resources d) ∧
  (∀ k u, db_uses d' !! k = Some u ↔ db_uses d !! k = Some u ∧ us_resource_id u ≠ id) ∧
  db_leases d' = db_leases d ∧ db_sessions d' = db_sessions d ∧ db_intents d' = db_intents d ∧
  db_generations d' = db_generations d ∧ db_meta d' = db_meta d ∧
  ∃ e, db_events d' = db_events d ++ [e] ∧ et_kind e = kind ∧ et_detail e = detail.

Lemma delete_rows_id {K R} `{Countable K} (m : gmap K R) p :
  (∀ k r, m !! k = Some r → p r = false) → delete_rows m p = m.
Proof.
  intros Hp. apply map_eq. intros k. destruct (m !! k) as [r|] eqn:E.
  - apply lookup_delete_rows. eauto.
  - apply map_lookup_filter_None. by left.
Qed.

Lemma removed_row_intro ci_append d r at_ kind detail :
  db_wf d → leased d r = false → ci_kind kind = false →
  ∃ d', append_event ci_append (delete_resource true d (re_id r)) at_ kind detail = Ok d' ∧
    removed_row d d' (re_id r) kind detail.
Proof.
  intros Hwf Hl Hk. unfold append_event.
  change (db_meta (delete_resource true d (re_id r))) with (db_meta d).
  destruct (wf_registry _ Hwf) as [x ->]. rewrite Hk. eexists. split; [done|].
  assert (delete_rows (db_leases d) (λ l, le_resource_id l ==? re_id r) = db_leases d) as Hleases.
  { apply delete_rows_id. intros k l Hlk. apply bool_decide_eq_false. by eapply leased_false. }
  unfold removed_row. cbn. rewrite Hleases. split_and!; try done; [|by eexists].
  intros k u. rewrite lookup_delete_rows, bool_decide_eq_false. done.
Qed.

(** What a finalization [run] does, for candidates given by [cand]. *)
Definition exact_removal (d : Db) (c : GcCandidate) (now : option f64) (cand : option GcCandidate)
    (kind detail : string) (run : result RegError bool * Db) : Prop :=
  (run.1 = Ok true ↔ is_Some now ∧ cand = Some c) ∧
  (run.1 = Ok true → removed_row d run.2 (gc_id c) kind detail) ∧
  (run.1 ≠ Ok true → run.2 = d).

Lemma finalize_exact ci_append d c now (exists_ : bool) where_ kind detail :
  db_wf d → exists_ = exists_row (db_resources d) (λ r, named c r && where_ r) →
  (∀ r, where_ r = true → leased d r = false) → ci_kind kind = false →
  exact_removal d c now (if exists_ then Some c else None) kind detail
    (with_clock now d (λ now,
      if negb exists_ then Ok (false, d)
      else let? d := append_event ci_append (delete_resource true d (gc_id c)) now kind detail in
           Ok (true, d)) (λ removed, removed)).
Proof.
  intros Hwf Hex Hfree Hk. unfold exact_removal. destruct now as [now|].
  2: { split; [split; [done|intros [[? [=]] _]]|done]. }
  destruct exists_; [|split; [split; [done|by intros [_ [=]]]|done]].
  symmetry in Hex. apply candidate_row in Hex as (r & Hr & <- & Hw); [|done].
  cbn [with_clock negb gc_id candidate_of].
  destruct (removed_row_intro ci_append d r now kind detail Hwf (Hfree r Hw) Hk) as (d' & -> & Hrm).
  split; [split; [|done]; intros _; split; [by eexists|done]|done].
Qed.

(** Finalizing a collection, a volume collection or a release succeeds exactly on a current
    candidate; it then removes the candidate's row and its uses, records one event, and leaves
    every other row of every table alone. Otherwise, and on a clock before the epoch, nothing
    is written. *)
Theorem finalization_is_exact ci_append d w c (missing : bool) now :
  db_wf d →
  exact_removal d c now (setup_gc_candidate d w c)
    (if missing then "setup.gc.reconciled_missing" else "setup.gc.removed")
    "retired_managed_setup_container" (on_finalize_setup_gc true ci_append d w c missing now) ∧
  exact_removal d c now (manifest_volume_gc_candidate d w c)
    (if missing then "manifest.volume_gc.reconciled_missing" else "manifest.volume_gc.removed")
    "retired_manifest_warm_spec_volume"
    (on_finalize_manifest_volume_gc true ci_append d w c missing now) ∧
  exact_removal d c now (manifest_volume_release_candidate d w c)
    (if missing then "manifest.volume_release.reconciled_missing"
     else "manifest.volume_release.removed")
    "explicit_durable_manifest_volume_release"
    (on_finalize_manifest_volume_release true ci_append d w c missing now).
Proof.
  intros Hwf. split_and!.
  - apply (finalize_exact ci_append d c now _ (setup_gc_where d w)); [done..| |by destruct missing].
    unfold setup_gc_where. intros. by conds.
  - apply (finalize_exact ci_append d c now _ (volume_gc_where d w)); [done..| |by destruct missing].
    unfold volume_gc_where. intros. by conds.
  - apply (finalize_exact ci_append d c now _ (volume_release_where d w)); [done..| |by destruct missing].
    unfold volume_release_where. intros. by conds.
Qed.

(** ** Rollover *)

Lemma active_elsewhere_ext d1 d2 w s id :
  (∀ k u, us_resource_id u = id → db_uses d1 !! k = Some u ↔ db_uses d2 !! k = Some u) →
  active_elsewhere d1 w s id = active_elsewhere d2 w s id.
Proof.
  intros Hext. apply eq_bool_prop_intro. unfold active_elsewhere.
  rewrite !Is_true_true, !exists_row_true. split; intros (k & u & Hu & Hp); exists k, u;
    (split; [|done]); apply Hext; try done; by conds.
Qed.

(** Retiring uses of a workspace and stack changes nothing elsewhere. *)
Lemma active_elsewhere_retired d w s id (p : ResourceUse → bool) :
  (∀ u, p u = true → us_workspace u = w ∧ us_stack u = s) →
  active_elsewhere (set_uses d (update_rows (db_uses d) p (with_use_state Retired None))) w s id
  = active_elsewhere d w s id.
Proof.
  intros Hp. apply eq_bool_prop_intro. unfold active_elsewhere. cbn [db_uses set_uses].
  rewrite !Is_true_true, !exists_row_true. setoid_rewrite lookup_update_rows. split.
  - intros (k & u & Hu & Hq). apply fmap_Some in Hu as (u0 & Hu0 & ->). exists k, u0.
    split; [done|]. destruct (p u0) eqn:E; [|done]. conds. discriminate.
  - intros (k & u & Hu & Hq). exists k, u. rewrite Hu. split; [|done]. cbn.
    destruct (p u) eqn:E; [|done]. apply Hp in E as [E1 E2].
    by rewrite (bool_decide_eq_true_2 _ E1), (bool_decide_eq_true_2 _ E2), andb_false_r in Hq.
Qed.

Lemma superseded_use_ws d ns w s g u :
  superseded_use d ns w s g u = true → us_workspace u = w ∧ us_stack u = s.
Proof. unfold superseded_use. intros. by conds. Qed.
Lemma superseded_volume_use_ws d w s names u :
  superseded_volume_use d w s names u = true → us_workspace u = w ∧ us_stack u = s.
Proof. unfold superseded_volume_use. intros. by conds. Qed.

(** The resource row a rollover leaves, from the tables it starts in. *)
Lemma lookup_retire_containers d ns w s g id :
  db_resources (retire_containers d ns w s g) !! id
  = (λ r, if superseded_container d ns w s g r then with_resource_state Retired None r else r)
    <$> db_resources d !! id.
Proof.
  unfold retire_containers. cbn [db_resources set_resources set_uses]. rewrite lookup_update_rows.
  destruct (db_resources d !! id) as [r|]; [|done]. cbn. f_equal.
  unfold superseded_container. by rewrite (active_elsewhere_retired d w s) by apply superseded_use_ws.
Qed.
Lemma lookup_retire_volumes d w s names d' id :
  retire_prior_manifest_warm_spec_volume_generations d w s names = Ok d' →
  db_resources d' !! id
  = (λ r, if superseded_volume d w s names r then with_resource_state Retired None r else r)
    <$> db_resources d !! id.
Proof.
  unfold retire_prior_manifest_warm_spec_volume_generations. case_bool_decide; [|done].
  intros [= <-]. cbn [db_resources set_resources set_uses]. rewrite lookup_update_rows.
  destruct (db_resources d !! id) as [r|]; [|done]. cbn. f_equal. unfold superseded_volume.
  by rewrite (active_elsewhere_retired d w s) by apply superseded_volume_use_ws.
Qed.

(** What recording an app's container, image or volume leaves: its row and its active use. *)
Record put_spec (d d' : Db) (kind : ResourceKind) (id name stack generation workspace : string) :
    Prop := {
  ps_wf : db_wf d';
  ps_row : ∃ r, db_resources d' !! id = Some r ∧ re_kind r = kind ∧ re_name r = name ∧
    re_stack r = stack ∧ re_generation r = generation ∧ re_workspace r = workspace ∧
    re_state r = Active;
  ps_use : ∃ u, db_uses d' !! (id, workspace, stack, generation) = Some u ∧ us_state u = Active;
  ps_frame id' : id' ≠ id → db_resources d' !! id' = db_resources d !! id';
  ps_uses k u : us_resource_id u ≠ id → db_uses d' !! k = Some u ↔ db_uses d !! k = Some u;
  ps_kept k u : db_uses d !! k = Some u → us_state u = Active → 
    ∃ u', db_uses d' !! k = Some u' ∧ us_state u' = Active;
  ps_same r : db_resources d !! id = Some r → re_kind r = kind ∧ re_name r = name;
}.

Lemma put_both preserve d v d1 d' now :
  db_wf d → re_state v = Active → upsert_resource preserve d v = Ok d1 →
  put_resource_use true d1
    (active_use (re_id v) (re_workspace v) (re_stack v) (re_generation v) now) = Ok d' →
  put_spec d d' (re_kind v) (re_id v) (re_name v) (re_stack v) (re_generation v) (re_workspace v).
Proof.
  intros Hwf Hst Hup Huse. pose proof (wf_upsert _ _ _ _ Hwf Hup) as Hwf1.
  apply upsert_Ok in Hup as (x & -> & (Hi & Hk & Hn) & Hs & Hg & _ & Hw & Hx & _ & _ & Hold); [|done].
  apply wf_put_use in Huse as [Hwf' ->]; [|done]. split; cbn; [done|..].
  - exists x. rewrite lookup_insert_eq. by rewrite Hx.
  - eexists. by rewrite lookup_insert_eq.
  - intros id' Hne. by rewrite lookup_insert_ne.
  - intros k u Hne. rewrite lookup_insert_Some. split; [|intros Hu; right; split; [|done]].
    + intros [[<- <-]|[_ Hu]]; done.
    + intros <-. apply (wf_use_key _ Hwf) in Hu. unfold use_key in Hu. cbn in Hu. by injection Hu.
  - intros k u Hu Hact. destruct (decide (use_key
      (active_use (re_id v) (re_workspace v) (re_stack v) (re_generation v) now) = k)) as [<-|Hne].
    + eexists. by rewrite lookup_insert_eq.
    + exists u. by rewrite lookup_insert_ne.
  - intros r Hr. by apply Hold in Hr as (_ & -> & ->).
Qed.

Lemma put_app_spec d kind id name s g w now d' :
  db_wf d → put_app true d kind id name s g w now = Ok d' → put_spec d d' kind id name s g w.
Proof.
  intros Hwf. unfold put_app. destruct (put_resource_preserving_pin d _) as [d1|] eqn:E; [|done].
  exact (put_both true d (app_row kind id name s g w now) d1 d' now Hwf eq_refl E).
Qed.

Lemma append_event_Ok ci_append d at_ kind detail d' :
  ci_kind kind = false → append_event ci_append d at_ kind detail = Ok d' →
  d' = add_event d at_ kind detail.
Proof. unfold append_event. intros ->. destruct (db_meta d !! _); [|done]. by intros [= <-]. Qed.

Lemma put_volumes_spec vs d now d' :
  db_wf d → put_volumes true d vs now = Ok d' →
  db_wf d' ∧
  (∀ v, v ∈ vs → ∃ r, db_resources d' !! mv_id v = Some r ∧ re_kind r = Volume ∧
     re_name r = mv_name v ∧ re_state r = Active) ∧
  (∀ id, id ∉ mv_id <$> vs → db_resources d' !! id = db_resources d !! id) ∧
  (∀ k u, us_resource_id u ∉ mv_id <$> vs → db_uses d' !! k = Some u ↔ db_uses d !! k = Some u) ∧
  (∀ v r, v ∈ vs → db_resources d !! mv_id v = Some r → re_kind r = Volume ∧ re_name r = mv_name v).
Proof.
  revert d. induction vs as [|v vs IH]; intros d Hwf; cbn [put_volumes].
  { intros [= <-]. split_and!; try done; intros v *; by rewrite elem_of_nil. }
  destruct (put_resource _ _) as [d1|] eqn:E1; [|done].
  destruct (put_resource_use _ _ _) as [d2|] eqn:E2; [|done]. intros H.
  destruct (put_both false d (volume_row v now) d1 d2 now Hwf eq_refl E1 E2)
    as [Hwf2 (r & Hr & Hk & Hn & _ & _ & _ & Ha) _ Hframe Huses _ Hsame].
  apply IH in H as (Hwf' & Hrows & Hframe' & Huses' & Hsame'); [|by apply wf_delete_intent].
  change (db_resources (delete_volume_creation_intent d2 (mv_name v))) with (db_resources d2) in *.
  change (db_uses (delete_volume_creation_intent d2 (mv_name v))) with (db_uses d2) in *.
  cbn [re_id volume_row] in *.
  split_and!; [done|..].
  - intros v' [->|Hin]%elem_of_cons; [|by apply Hrows]. destruct (decide (mv_id v ∈ mv_id <$> vs)) as [Hin|Hni].
    + apply list_elem_of_fmap in Hin as (v2 & Hid & Hin). destruct (Hrows v2 Hin) as (r2 & Hr2 & Hk2 & Hn2 & Ha2).
      rewrite Hid in Hr |- *. destruct (Hsame' v2 r Hin Hr) as [_ Hnn]. exists r2.
      split_and!; try done. rewrite Hn2, <- Hnn, Hn. done.
    + exists r. by rewrite Hframe'.
  - intros id. rewrite fmap_cons, not_elem_of_cons. intros [Hne Hni]. rewrite Hframe' by done. by apply Hframe.
  - intros k u. rewrite fmap_cons, not_elem_of_cons. intros [Hne Hni]. rewrite Huses' by done. by apply Huses.
  - intros v' r' [->|Hin]%elem_of_cons Hr'; [by apply Hsame|].
    destruct (decide (mv_id v' = mv_id v)) as [Heq|Hne].
    + destruct (Hsame' v' r Hin) as [_ Hnn]; [by rewrite Heq|]. rewrite Heq in Hr'.
      apply Hsame in Hr' as [-> ->]. split; [done|]. cbn in Hn |- *. congruence.
    + apply (Hsame' v'); [done|]. by rewrite Hframe.
Qed.

Definition new_ids (e : SetupEnsureExecution) : list string :=
  er_id (ex_resource e) :: ei_id (ex_image e) :: (mv_id <$> ex_volumes e).

(** The rows a manifest ensure supersedes, in the tables it found. *)
Definition superseded (d : Db) (e : SetupEnsureExecution) (r : Resource) : bool :=
  let c := ex_resource e in
  superseded_container d manifest_namespace (er_workspace c) (er_stack c) (er_generation c) r
  || superseded_volume d (er_workspace c) (er_stack c) (mv_name <$> ex_volumes e) r.

(** The row of a fact the ensure recorded. *)
Definition recorded (d : Db) (kind : ResourceKind) (id name : string) : Prop :=
  ∃ r, db_resources d !! id = Some r ∧ re_kind r = kind ∧ re_name r = name ∧ re_state r = Active.

(** The tables between the new facts and the rollover. *)
Lemma put_ensure_spec d e now d1 d2 d3 :
  db_wf d → put_container true d (ex_resource e) now = Ok d1 →
  put_image true d1 (ex_image e) now = Ok d2 → put_volumes true d2 (ex_volumes e) now = Ok d3 →
  (∃ r, db_resources d3 !! er_id (ex_resource e) = Some r ∧ re_kind r = Container ∧
     re_name r = er_name (ex_resource e) ∧ re_generation r = er_generation (ex_resource e) ∧
     re_state r = Active) ∧
  recorded d3 Image (ei_id (ex_image e)) (ei_name (ex_image e)) ∧
  (∀ v, v ∈ ex_volumes e → recorded d3 Volume (mv_id v) (mv_name v)) ∧
  (∀ id, id ∉ new_ids e → db_resources d3 !! id = db_resources d !! id) ∧
  (∀ k u, us_resource_id u ∉ new_ids e → db_uses d3 !! k = Some u ↔ db_uses d !! k = Some u).
Proof.
  intros Hwf H1 H2 H3.
  apply put_app_spec in H1 as [Hwf1 (rc & Hrc & Hkc & Hnc & _ & Hgc & _ & Hac) _ Hf1 Hu1 _ _]; [|done].
  apply put_app_spec in H2 as [Hwf2 (ri & Hri & Hki & Hni & _ & _ & _ & Hai) _ Hf2 Hu2 _ Hsame2];
    [|done].
  destruct (put_volumes_spec _ _ _ _ Hwf2 H3) as (Hwf3 & Hvs & Hf3 & Hu3 & Hsame3).
  set (cid := er_id _) in *. set (iid := ei_id _) in *.
  assert (cid ≠ iid) as Hci by (intros Heq; destruct (Hsame2 rc) as [Hk _]; congruence).
  assert (∀ r, db_resources d2 !! cid = Some r → re_kind r = Container → cid ∉ mv_id <$> ex_volumes e) as Hcv.
  { intros r Hr Hk (v & Heq & Hin)%list_elem_of_fmap. rewrite Heq in Hr.
    destruct (Hsame3 v r Hin Hr). congruence. }
  assert (iid ∉ mv_id <$> ex_volumes e) as Hiv.
  { intros (v & Heq & Hin)%list_elem_of_fmap. rewrite Heq in Hri.
    destruct (Hsame3 v ri Hin Hri). congruence. }
  assert (db_resources d2 !! cid = Some rc) as Hrc2 by (by rewrite Hf2).
  split_and!.
  - exists rc. rewrite Hf3 by (by eapply Hcv). done.
  - exists ri. rewrite Hf3 by done. done.
  - intros v Hv. by apply Hvs.
  - intros id. unfold new_ids. rewrite !not_elem_of_cons. intros (? & ? & ?).
    rewrite Hf3, Hf2, Hf1 by done. done.
  - intros k u. unfold new_ids. rewrite !not_elem_of_cons. intros (? & ? & ?).
    rewrite Hu3, Hu2, Hu1 by done. done.
Qed.

Lemma not_superseded_container d ns w s g r :
  re_kind r ≠ Container ∨ re_generation r = g → superseded_container d ns w s g r = false.
Proof.
  intros Hr. destruct (superseded_container d ns w s g r) eqn:E; [|done].
  unfold superseded_container in E. conds. by destruct Hr.
Qed.
Lemma not_superseded_volume d w s names r :
  re_kind r ≠ Volume ∨ re_name r ∈ names → superseded_volume d w s names r = false.
Proof.
  intros Hr. destruct (superseded_volume d w s names r) eqn:E; [|done].
  unfold superseded_volume in E. conds. by destruct Hr.
Qed.

Lemma retire_containers_elsewhere d ns w s g id :
  active_elsewhere (retire_containers d ns w s g) w s id = active_elsewhere d w s id.
Proof. apply (active_elsewhere_retired d w s), superseded_use_ws. Qed.

(** Both rollovers of a manifest ensure, as one update of the rows it found. *)
Lemma rollover_lookup d3 d5 w s g names id :
  retire_prior_manifest_warm_spec_volume_generations
    (retire_prior_manifest_container_generations d3 w s g) w s names = Ok d5 →
  db_resources d5 !! id
  = (λ r, if superseded_container d3 manifest_namespace w s g r || superseded_volume d3 w s names r
          then with_resource_state Retired None r else r) <$> db_resources d3 !! id.
Proof.
  intros H. rewrite (lookup_retire_volumes _ _ _ _ _ _ H).
  unfold retire_prior_manifest_container_generations. rewrite lookup_retire_containers.
  destruct (db_resources d3 !! id) as [r|]; [|done]. cbn. f_equal.
  destruct (superseded_container d3 manifest_namespace w s g r) eqn:E.
  - cbn. unfold superseded_container in E. conds. rewrite not_superseded_volume; [done|].
    left. cbn. congruence.
  - cbn. unfold superseded_volume. by rewrite retire_containers_elsewhere.
Qed.

(** Recording a manifest ensure is one exact rollover. When it succeeds, the new container,
    image and volumes are active rows of their kind and name, and of every other resource
    exactly those the ensure superseded are retired, with nothing else of their row changed:
    active containers of the manifest namespaces with another generation, and active warm
    spec-scoped manifest volumes the new generation does not name, of this workspace and stack,
    that no other workspace or stack actively uses. Images, setup containers, pinned and durable
    volumes and everything of other workspaces stay as they are. When it fails, nothing
    changes. *)
Theorem manifest_rollover_exact ci_append print d now job_id e contract r d' :
  db_wf d → record_manifest_ensure true ci_append print d now job_id e contract = (r, d') →
  (r = Ok () →
    recorded d' Container (er_id (ex_resource e)) (er_name (ex_resource e)) ∧
    recorded d' Image (ei_id (ex_image e)) (ei_name (ex_image e)) ∧
    (∀ v, v ∈ ex_volumes e → recorded d' Volume (mv_id v) (mv_name v)) ∧
    (∀ id, id ∉ new_ids e → db_resources d' !! id
       = (λ row, if superseded d e row then with_resource_state Retired None row else row)
         <$> db_resources d !! id)) ∧
  (r ≠ Ok () → d' = d).
Proof.
  intros Hwf. unfold record_manifest_ensure. destruct (negb _); [by intros [= <- <-]|].
  unfold transact, with_clock, commit_if. destruct now as [now|]; [|by intros [= <- <-]].
  destruct (put_container _ _ _ _) as [d1|] eqn:E1; [|by intros [= <- <-]].
  destruct (put_image _ _ _ _) as [d2|] eqn:E2; [|by intros [= <- <-]].
  destruct (put_volumes _ _ _ _) as [d3|] eqn:E3; [|by intros [= <- <-]].
  destruct (retire_prior_manifest_warm_spec_volume_generations _ _ _ _) as [d5|] eqn:E5;
    [|by intros [= <- <-]].
  destruct (append_event _ _ _ _ _) as [d6|] eqn:E6 in |- *; [|by intros [= <- <-]].
  destruct (append_event _ _ _ _ _) as [d7|] eqn:E7 in |- *; [|by intros [= <- <-]].
  destruct (append_event _ _ _ _ _) as [d8|] eqn:E8 in |- *; [|by intros [= <- <-]].
  intros [= <- <-]. split; [intros _|done].
  apply append_event_Ok in E6 as ->; [|done]. apply append_event_Ok in E7 as ->; [|by destruct rc_autostart].
  apply append_event_Ok in E8 as ->; [|done]. cbn [add_event db_resources].
  destruct (put_ensure_spec _ _ _ _ _ _ Hwf E1 E2 E3)
    as ((rc & Hrc & Hkc & Hnc & Hgc & Hac) & (ri & Hri & Hki & Hni & Hai) & Hvs & Hframe & Huses).
  unfold recorded. cbn [add_event db_resources]. setoid_rewrite (rollover_lookup _ _ _ _ _ _ _ E5).
  split_and!.
  - exists rc. rewrite Hrc. cbn. rewrite not_superseded_container, not_superseded_volume; [done|..];
      [left; congruence|by right].
  - exists ri. rewrite Hri. cbn. rewrite not_superseded_container, not_superseded_volume; [done|..];
      left; congruence.
  - intros v Hv. destruct (Hvs v Hv) as (rv & Hrv & Hkv & Hnv & Hav). exists rv. rewrite Hrv. cbn.
    rewrite not_superseded_container, not_superseded_volume; [done|..].
    + right. rewrite Hnv. by apply list_elem_of_fmap_2.
    + left. congruence.
  - intros id Hid. rewrite Hframe by done. destruct (db_resources d !! id) as [row|] eqn:Erow; [|done].
    cbn. do 2 f_equal. unfold superseded, superseded_container, superseded_volume.
    pose proof (wf_resource_key _ Hwf _ _ Erow) as Hkey.
    rewrite (active_elsewhere_ext d3 d); [done|]. intros k u Hu. apply Huses. congruence.
Qed.

(** ** Repair *)

Lemma count_rows_one {K R} `{Countable K} (m : gmap K R) (p : R → bool) k r :
  m !! k = Some r → p r = true → (∀ k' r', m !! k' = Some r' → p r' = true → k' = k) →
  count_rows m p = 1.
Proof.
  intros Hk Hp Huniq. unfold count_rows.
  assert (map_to_list m ≡ₚ (k, r) :: map_to_list (delete k m)) as Hperm.
  { rewrite <- map_to_list_insert by apply lookup_delete_eq.
    by rewrite insert_delete_eq, insert_id. }
  assert (filterb p (map_to_list (delete k m)).*2 = []) as Hrest.
  { apply elem_of_nil_inv. intros x Hx. apply list_elem_of_filter in Hx as [Hpx Hx].
    apply elem_of_rows in Hx as [k' Hk']. apply lookup_delete_Some in Hk' as [Hne Hk'].
    by apply Hne, eq_sym, (Huniq k' x). }
  unfold filterb in *. rewrite Hperm. cbn [fmap list_fmap].
  rewrite filter_cons_True by done. by rewrite Hrest.
Qed.

(** What a repair candidate in state [st] is: a setup container with exactly one use. *)
Record repair_shape (d : Db) (w : string) (c : GcCandidate) (st : ResourceState) (r : Resource) :
    Prop := {
  sh_row : db_resources d !! gc_id c = Some r;
  sh_name : candidate_of r = c;
  sh_kind : re_kind r = Container;
  sh_stack : re_stack r = "setup";
  sh_workspace : re_workspace r = w;
  sh_state : re_state r = st;
  sh_scope : re_scope r = Machine;
  sh_id : starts_with "setup-container:" (re_id r) = true;
  sh_prefix : starts_with "bosn-setup-" (re_name r) = true;
  sh_use : ∃ u, db_uses d !! (gc_id c, w, "setup", gc_generation c) = Some u ∧ us_state u = st;
  sh_uses k u : db_uses d !! k = Some u → us_resource_id u = gc_id c →
    us_workspace u = w ∧ us_stack u = "setup" ∧ us_generation u = gc_generation c ∧ us_state u = st;
  sh_leased : leased d r = false;
  sh_session : in_session d r = false;
}.

Lemma repair_shape_iff d w c st :
  db_wf d → setup_missing_repair_candidate_exists d w c st = true ↔ ∃ r, repair_shape d w c st r.
Proof.
  intros Hwf. unfold setup_missing_repair_candidate_exists. rewrite exists_row_true. split.
  - intros (k & r & Hr & Hp). unfold named in Hp. conds.
    pose proof (wf_resource_key _ Hwf _ _ Hr) as Hkey. exists r.
    match goal with H : exists_row _ _ = true |- _ =>
      apply exists_row_true in H as (k' & u & Hu & Hq) end. conds.
    match goal with H : exists_row _ _ = false |- _ =>
      pose proof (proj1 (exists_row_false _ _) H) as Hall end.
    assert (re_id r = gc_id c) as Hid by done.
    split; try done; [congruence|by destruct c; unfold candidate_of; cbn in *; congruence| |].
    + exists u. split; [|done]. pose proof (wf_use_key _ Hwf _ _ Hu) as Huk. unfold use_key in Huk. congruence.
    + intros k2 u2 Hu2 Hid2. specialize (Hall k2 u2 Hu2). cbn beta in Hall.
      rewrite bool_decide_eq_true_2 in Hall by congruence. cbn in Hall. by conds.
  - intros [r [Hr <- Hk Hs Hw Hst Hsc Hi Hp (u & Hu & Hus) Huses Hl Hse]].
    exists (re_id r), r. cbn [gc_id gc_generation candidate_of] in *. split; [done|]. unfold named.
    cbn [gc_id gc_name gc_generation candidate_of].
    rewrite !(bool_decide_eq_true_2 (_ = _)) by done. rewrite Hi, Hp, Hl, Hse. cbn.
    rewrite !andb_true_r. apply andb_true_iff. split.
    + apply exists_row_true. do 2 eexists. split; [exact Hu|]. apply (wf_use_key _ Hwf) in Hu.
      unfold use_key in Hu. injection Hu as -> -> -> ->. by rewrite !bool_decide_eq_true_2.
    + apply negb_true_iff, exists_row_false. intros k2 u2 Hu2.
      destruct (decide (us_resource_id u2 = re_id r)) as [Hid|Hid]; [|by rewrite bool_decide_eq_false_2].
      destruct (Huses _ _ Hu2 Hid) as (-> & -> & -> & ->). by rewrite !bool_decide_eq_true_2.
Qed.

(** The tables after a repair. *)
Definition repaired_db (d : Db) (w : string) (c : GcCandidate) (at_ : f64) : Db :=
  set_resources
    (set_uses d (update_rows (db_uses d) (repaired_use w c) (with_use_state Retired (Some at_))))
    (update_rows (db_resources d) (repaired_resource c) (with_resource_state Retired (Some at_))).

Lemma repaired_shape d w c at_ r :
  db_wf d → repair_shape d w c Active r →
  repair_shape (repaired_db d w c at_) w c Retired (with_resource_state Retired (Some at_) r).
Proof.
  intros Hwf [Hr Hc Hk Hs Hw Hst Hsc Hi Hp (u & Hu & Hus) Huses Hl Hse].
  assert (repaired_resource c r = true) as Hrr.
  { unfold repaired_resource. rewrite Hst, <- Hc. by rewrite !bool_decide_eq_true_2. }
  assert (∀ k u', db_uses d !! k = Some u' → us_resource_id u' = gc_id c → repaired_use w c u' = true)
    as Hru.
  { intros k u' Hu' Hid. unfold repaired_use. destruct (Huses _ _ Hu' Hid) as (-> & -> & -> & ->).
    by rewrite Hid, !bool_decide_eq_true_2. }
  split; try done; cbn [db_resources set_resources db_uses set_uses repaired_db].
  - rewrite lookup_update_rows, Hr. cbn. by rewrite Hrr.
  - exists (with_use_state Retired (Some at_) u). rewrite lookup_update_rows, Hu. cbn.
    rewrite (Hru _ _ Hu); [done|]. apply (wf_use_key _ Hwf) in Hu. unfold use_key in Hu. congruence.
  - intros k u'. rewrite lookup_update_rows. intros (u0 & Hu0 & ->)%fmap_Some Hid.
    assert (us_resource_id u0 = gc_id c) as Hid0 by (by destruct (repaired_use w c u0)).
    rewrite (Hru _ _ Hu0 Hid0). cbn. destruct (Huses _ _ Hu0 Hid0) as (-> & -> & -> & _). done.
Qed.

Lemma repair_counts d w c r :
  db_wf d → repair_shape d w c Active r →
  count_rows (db_uses d) (repaired_use w c) = 1 ∧
  count_rows (db_resources d) (repaired_resource c) = 1.
Proof.
  intros Hwf [Hr Hc _ _ _ Hst _ _ _ (u & Hu & Hus) _ _ _]. split.
  - apply (count_rows_one _ _ _ u Hu).
    + pose proof (wf_use_key _ Hwf _ _ Hu) as Hk. unfold use_key in Hk. injection Hk as H1 H2 H3 H4.
      unfold repaired_use. rewrite H1, H2, H3, H4, Hus. by rewrite !bool_decide_eq_true_2.
    + intros k' u' Hu' Hp. unfold repaired_use in Hp. conds.
      apply (wf_use_key _ Hwf) in Hu'. unfold use_key in Hu'. congruence.
  - apply (count_rows_one _ _ _ r Hr).
    + unfold repaired_resource. rewrite Hst, <- Hc. by rewrite !bool_decide_eq_true_2.
    + intros k' r' Hr' Hp. unfold repaired_resource in Hp. conds.
      apply (wf_resource_key _ Hwf) in Hr'. congruence.
Qed.

Lemma shape_is_candidate d w c r :
  db_wf d → repair_shape d w c Retired r → setup_gc_candidate d w c = Some c.
Proof.
  intros Hwf [Hr Hc Hk Hs Hw Hst Hsc Hi Hp (u & Hu & Hus) Huses Hl Hse].
  unfold setup_gc_candidate, setup_gc_candidate_exists.
  replace (exists_row _ _) with true; [done|]. symmetry. apply exists_row_true.
  exists (gc_id c), r. split; [done|]. subst c. cbn [gc_id gc_generation candidate_of] in *.
  unfold named, setup_gc_where, setup_namespace, owned_use. cbn [gc_id gc_name gc_generation candidate_of].
  rewrite Hi, Hp, Hl, Hse, Hs, Hk, Hw, Hst, Hsc. rewrite !(bool_decide_eq_true_2 (_ = _)) by done. cbn.
  rewrite !andb_true_r. apply andb_true_iff. split.
  - apply exists_row_true. do 2 eexists. split; [exact Hu|]. apply (wf_use_key _ Hwf) in Hu.
    unfold use_key in Hu. injection Hu as -> -> -> _. by rewrite Hus, !bool_decide_eq_true_2.
  - apply negb_true_iff, exists_row_false. intros k2 u2 Hu2.
    destruct (decide (us_resource_id u2 = re_id r)) as [Hid|Hid]; [|by rewrite bool_decide_eq_false_2].
    destruct (Huses _ _ Hu2 Hid) as (-> & -> & _ & ->). by rewrite !bool_decide_eq_true_2.
Qed.

Lemma wf_repaired_db d w c at_ : db_wf d → db_wf (repaired_db d w c at_).
Proof. intros Hwf. by apply (wf_update_both d). Qed.

Lemma shape_add_event d w c st r at_ kind detail :
  repair_shape d w c st r → repair_shape (add_event d at_ kind detail) w c st r.
Proof. by intros []. Qed.

(** Repairing a setup container that Docker proved absent always goes through: its transition
    check cannot fail, the row and its only use become retired, no other resource changes, and
    the container is then up for collection. Repeating the repair changes nothing and says so. *)
Theorem missing_repair_idempotent ci_append d w c now :
  db_wf d → setup_missing_repair_candidate d w c = true →
  ∃ d', on_repair_missing_setup_container ci_append d w c (Some now) = (Ok (Some Repaired), d') ∧
    setup_missing_repair_candidate d' w c = false ∧ setup_gc_candidate d' w c = Some c ∧
    (∀ later, on_repair_missing_setup_container ci_append d' w c (Some later)
       = (Ok (Some AlreadyRepaired), d')) ∧
    (∀ id, id ≠ gc_id c → db_resources d' !! id = db_resources d !! id).
Proof.
  intros Hwf Hc. unfold setup_missing_repair_candidate in *.
  pose proof Hc as Hshape. apply (repair_shape_iff d w c Active Hwf) in Hshape as [r Hshape].
  destruct (repair_counts d w c r Hwf Hshape) as [Hu Hr].
  set (kind := "setup.reconcile.missing_repaired"). set (detail := "missing_managed_setup_container").
  set (d' := add_event (repaired_db d w c now) now kind detail).
  assert (db_wf d') as Hwf' by (by apply wf_add_event, wf_repaired_db).
  assert (∃ r', repair_shape d' w c Retired r') as [r' Hshape'].
  { eexists. apply shape_add_event. by apply repaired_shape. }
  assert (setup_missing_repair_candidate_exists d' w c Active = false) as Hactive.
  { apply not_true_iff_false. rewrite repair_shape_iff by done. intros [r2 Hs2].
    pose proof (sh_row _ _ _ _ _ Hshape'). pose proof (sh_row _ _ _ _ _ Hs2).
    pose proof (sh_state _ _ _ _ _ Hshape'). pose proof (sh_state _ _ _ _ _ Hs2). congruence. }
  assert (setup_missing_repair_candidate_exists d' w c Retired = true) as Hretired
    by (apply repair_shape_iff; eauto).
  exists d'. split_and!; [| done|by eapply shape_is_candidate| |].
  - unfold on_repair_missing_setup_container, repair_missing_setup_container. cbn [with_clock].
    rewrite Hc, Hu, Hr. cbn [Z.eqb Pos.eqb negb orb]. unfold append_event.
    change (db_meta (set_resources (set_uses d ?x) ?y)) with (db_meta d).
    by destruct (wf_registry _ Hwf) as [x ->].
  - intros later. unfold on_repair_missing_setup_container, repair_missing_setup_container.
    cbn [with_clock]. by rewrite Hactive, Hretired.
  - intros id Hne. cbn [d' add_event db_resources repaired_db set_resources].
    rewrite lookup_update_rows. destruct (db_resources d !! id) as [row|] eqn:E; [|done].
    cbn. unfold repaired_resource. rewrite bool_decide_eq_false_2; [done|].
    apply (wf_resource_key _ Hwf) in E. congruence.
Qed.

(** ** Previews *)

(** The page loop over a listing that does not change returns the whole listing, whatever the
    page size. *)
Lemma fetch_pages_all {A} (rows : list A) limit fuel offset :
  Z.of_nat (length rows) ≤ i64_max → 0 ≤ offset ≤ Z.of_nat (length rows) →
  (length rows - Z.to_nat offset < fuel)%nat →
  fetch_pages fuel rows offset limit = Some (drop (Z.to_nat offset) rows).
Proof.
  intros Hmax. revert offset. induction fuel as [|fuel IH]; intros offset Hoff Hfuel; [lia|].
  cbn [fetch_pages]. unfold page_rows. rewrite (proj2 (Z.ltb_ge _ _)) by lia.
  set (l := Z.min (Z.max limit 1) MAX_PAGE_SIZE). assert (1 ≤ l ≤ 1000) by (unfold l, MAX_PAGE_SIZE; lia).
  cbn [pa_next_offset pa_items]. rewrite length_take, length_drop.
  rewrite take_take, (Nat.min_l (Z.to_nat l) (Z.to_nat (l + 1))) by lia. clearbody l.
  destruct (l <? _) eqn:E.
  - apply Z.ltb_lt in E. rewrite IH by lia. cbn [mbind option_bind]. f_equal.
    rewrite Z2Nat.inj_add by lia. rewrite <- drop_drop. apply take_drop.
  - apply Z.ltb_ge in E. f_equal. rewrite take_ge; [done|]. rewrite length_drop. lia.
Qed.

Lemma fetch_all_rows {A} (rows : list A) limit :
  Z.of_nat (length rows) ≤ i64_max → fetch_all rows limit = Some rows.
Proof. intros Hmax. unfold fetch_all. rewrite fetch_pages_all by lia. done. Qed.

Lemma elem_of_select d where_ c :
  db_wf d →
  c ∈ select_candidates d where_ ↔
  ∃ r, db_resources d !! gc_id c = Some r ∧ candidate_of r = c ∧ where_ r = true.
Proof.
  intros Hwf. unfold select_candidates. rewrite list_elem_of_fmap. split.
  - intros (r & -> & [Hw Hr]%elem_of_filterb). apply elem_of_btree_values in Hr as [id Hr].
    pose proof (wf_resource_key _ Hwf _ _ Hr). exists r. cbn. split; [congruence|done].
  - intros (r & Hr & <- & Hw). exists r. split; [done|]. rewrite elem_of_filterb, elem_of_btree_values.
    split; [done|]. by exists (gc_id (candidate_of r)).
Qed.

Lemma candidate_exists_iff d where_ c :
  db_wf d →
  exists_row (db_resources d) (λ r, named c r && where_ r) = true ↔
  ∃ r, db_resources d !! gc_id c = Some r ∧ candidate_of r = c ∧ where_ r = true.
Proof.
  intros Hwf. split; [by apply candidate_row|]. intros (r & Hr & <- & Hw). apply exists_row_true.
  exists (re_id r), r. split; [done|]. unfold named. cbn. by rewrite !bool_decide_eq_true_2, Hw.
Qed.

Lemma length_select d where_ :
  (length (select_candidates d where_) ≤ length (map_to_list (db_resources d)))%nat.
Proof.
  unfold select_candidates, btree_values. rewrite length_fmap. unfold filterb.
  etrans; [apply length_filter|]. rewrite length_fmap.
  by rewrite (Permutation_length (btree_iter_perm String.compare (db_resources d))).
Qed.

Lemma NoDup_select d where_ : db_wf d → NoDup (select_candidates d where_).
Proof.
  intros Hwf. unfold select_candidates.
  assert (NoDup (gc_id <$> (candidate_of <$> btree_values String.compare (db_resources d)))) as Hids.
  { replace (gc_id <$> _) with (btree_keys String.compare (db_resources d));
      [apply NoDup_btree_keys|]. unfold btree_keys, btree_values. rewrite <- !list_fmap_compose.
    apply list_fmap_ext. intros i [id r] Hi. cbn. symmetry. apply (wf_resource_key _ Hwf).
    apply (elem_of_btree_iter String.compare). by apply list_elem_of_lookup_2 in Hi. }
  apply NoDup_fmap_1 in Hids. revert Hids. generalize (btree_values String.compare (db_resources d)).
  intros l. induction l as [|r l IH]; [done|]. rewrite filterb_cons, fmap_cons, NoDup_cons.
  intros [Hni Hnd]. destruct (where_ r); [|by apply IH]. rewrite fmap_cons, NoDup_cons.
  split; [|by apply IH]. intros Hin. apply Hni.
  apply list_elem_of_fmap in Hin as (r' & -> & [_ Hin]%elem_of_filterb).
  by apply list_elem_of_fmap_2.
Qed.

(** The listed candidates of a preview and the recheck of one candidate are two copies of the
    same SQL condition: reading every page of a preview, with any page size, yields without
    repetition exactly the candidates the recheck accepts, for all three kinds of candidate. *)
Theorem previews_list_the_candidates d w limit :
  db_wf d → Z.of_nat (length (map_to_list (db_resources d))) ≤ i64_max →
  ∃ setup volumes releases,
    fetch_all (select_candidates d (setup_gc_where d w)) limit = Some setup ∧
    fetch_all (select_candidates d (volume_gc_where d w)) limit = Some volumes ∧
    fetch_all (select_candidates d (volume_release_where d w)) limit = Some releases ∧
    NoDup setup ∧ NoDup volumes ∧ NoDup releases ∧
    ∀ c, (c ∈ setup ↔ setup_gc_candidate d w c = Some c) ∧
         (c ∈ volumes ↔ manifest_volume_gc_candidate d w c = Some c) ∧
         (c ∈ releases ↔ manifest_volume_release_candidate d w c = Some c).
Proof.
  intros Hwf Hmax.
  assert (∀ where_, fetch_all (select_candidates d where_) limit = Some (select_candidates d where_) ∧
    NoDup (select_candidates d where_)) as Hsel.
  { intros where_. split; [apply fetch_all_rows|by apply NoDup_select].
    etrans; [|exact Hmax]. apply inj_le. apply length_select. }
  do 3 eexists. split_and!; [apply Hsel..|]. intros c.
  unfold setup_gc_candidate, manifest_volume_gc_candidate, manifest_volume_release_candidate,
    setup_gc_candidate_exists, manifest_volume_gc_candidate_exists,
    manifest_volume_release_candidate_exists.
  rewrite !elem_of_select, <- !candidate_exists_iff by done.
  split_and!; by destruct (exists_row _ _).
Qed.

(** ** Sessions *)

Section sessions.
Context (ci_append : f64 → string → string → Db → result RegError Db).
Context (ci_sessions : ∀ at_ kind detail d d',
  ci_append at_ kind detail d = Ok d' → db_sessions d' = db_sessions d).
Context (print : gmap string JsonValue → string).

Lemma sessions_append_event d at_ kind detail d' :
  append_event ci_append d at_ kind detail = Ok d' → db_sessions d' = db_sessions d.
Proof.
  unfold append_event. destruct (db_meta d !! _); [|done].
  destruct (ci_kind kind); [by apply ci_sessions|]. by intros [= <-].
Qed.
Lemma sessions_upsert preserve d v d' :
  upsert_resource preserve d v = Ok d' → db_sessions d' = db_sessions d.
Proof. unfold upsert_resource. by repeat case_match; intros [= <-]. Qed.
Lemma sessions_put_use d v d' :
  put_resource_use true d v = Ok d' → db_sessions d' = db_sessions d.
Proof. unfold put_resource_use. destruct (_ && _); [done|]. by intros [= <-]. Qed.
Lemma sessions_put_app d kind id name s g w now d' :
  put_app true d kind id name s g w now = Ok d' → db_sessions d' = db_sessions d.
Proof.
  unfold put_app. destruct (put_resource_preserving_pin d _) as [d1|] eqn:E; [|done].
  apply sessions_upsert in E. intros ->%sessions_put_use. done.
Qed.
Lemma sessions_put_volumes vs d now d' :
  put_volumes true d vs now = Ok d' → db_sessions d' = db_sessions d.
Proof.
  revert d. induction vs as [|v vs IH]; intros d; cbn; [by intros [= <-]|].
  destruct (put_resource d _) as [d1|] eqn:E1; [|done]. apply sessions_upsert in E1.
  destruct (put_resource_use _ _ _) as [d2|] eqn:E2; [|done]. apply sessions_put_use in E2.
  intros ->%IH. cbn. congruence.
Qed.
Lemma sessions_put_resources l d d' : put_resources d l = Ok d' → db_sessions d' = db_sessions d.
Proof.
  revert d. induction l as [|r l IH]; intros d; cbn; [by intros [= <-]|].
  destruct (put_resource d r) as [d1|] eqn:E1; [|done]. apply sessions_upsert in E1.
  intros ->%IH. done.
Qed.
Lemma sessions_append_events l d now d' :
  append_events ci_append d now l = Ok d' → db_sessions d' = db_sessions d.
Proof.
  revert d. induction l as [|[kind detail] l IH]; intros d; cbn; [by intros [= <-]|].
  destruct (append_event _ _ _ _ _) as [d1|] eqn:E1; [|done]. apply sessions_append_event in E1.
  intros ->%IH. done.
Qed.
Lemma sessions_append_recovery l d now d' :
  append_recovery_events ci_append d now l = Ok d' → db_sessions d' = db_sessions d.
Proof.
  revert d. induction l as [|e l IH]; intros d; cbn; [by intros [= <-]|]. destruct (negb _); [done|].
  destruct (append_event _ _ _ _ _) as [d1|] eqn:E1; [|done]. apply sessions_append_event in E1.
  intros ->%IH. done.
Qed.

(** The writes that may add, replace or remove the session [id]. *)
Definition may_change_session (id : string) (op : reg_op) : Prop :=
  match op with
  | RecordSetupSession _ job _ => setup_app_task_session_id job = id
  | RecordManifestSession _ job _ => manifest_app_task_session_id job = id
  | FinishSetupSession job outcome => setup_app_task_session_id job = id ∧ outcome ≠ "uncertain"
  | FinishManifestSession job outcome => manifest_app_task_session_id job = id ∧ outcome ≠ "uncertain"
  | _ => False
  end.

Ltac ok_step H := match type of H with
  | match ?x with Ok _ => _ | Err _ => Err _ end = Ok _ =>
      let d := fresh "d" in let E := fresh "E" in destruct x as [d|] eqn:E; [|done]
  end.

Lemma session_finish d now id fid uncertain finished outcome :
  (fid = id → outcome = "uncertain") →
  db_sessions (finish_session ci_append d now fid uncertain finished outcome).2 !! id
  = db_sessions d !! id.
Proof.
  intros Hid. apply (transact_db (λ d', db_sessions d' !! id = db_sessions d !! id)); [done|].
  intros t d'. destruct (completed_session_resources d fid t) as [touched|]; [|done].
  case_bool_decide as Ho; [by intros ->%sessions_append_event|]. intros H. ok_step H.
  apply sessions_append_event in H. rewrite H. cbn. apply sessions_put_resources in E.
  rewrite lookup_delete_ne, E; [done|]. intros Heq. by apply Ho, Hid.
Qed.

Lemma session_record d now pid fid id container kind detail :
  fid ≠ id →
  db_sessions (transact now d (λ now, append_event ci_append
    (put_execution_session d (session_row fid container pid)) now kind detail)).2 !! id
  = db_sessions d !! id.
Proof.
  intros Hne. apply (transact_db (λ d', db_sessions d' !! id = db_sessions d !! id)); [done|].
  intros t d' ->%sessions_append_event. cbn. by rewrite lookup_insert_ne.
Qed.

Lemma session_ensures d now op id :
  match op with
  | RecordSetupEnsure _ _ | RecordManifestEnsure _ _ _ | RecordSetupAdoption _ =>
      db_sessions (reg_step ci_append print d now op) !! id = db_sessions d !! id
  | _ => True
  end.
Proof.
  destruct op; try done; cbn [reg_step].
  - apply (transact_db (λ d', db_sessions d' !! id = db_sessions d !! id)); [done|].
    intros t d' H. ok_step H. ok_step H. apply sessions_append_event in H. rewrite H.
    apply sessions_put_app in E, E0. unfold retire_prior_setup_container_generations.
    destruct (negb _); cbn; congruence.
  - unfold record_manifest_ensure. destruct (negb _); [done|].
    apply (transact_db (λ d', db_sessions d' !! id = db_sessions d !! id)); [done|].
    intros t d' H. do 6 ok_step H. apply sessions_append_event in H, E3, E4.
    apply sessions_put_app in E, E0. apply sessions_put_volumes in E1.
    unfold retire_prior_manifest_warm_spec_volume_generations in E2. destruct (negb _); [done|].
    injection E2 as <-. cbn in *. congruence.
  - unfold record_setup_adoption. destruct (_ || _); [done|].
    apply (transact_db (λ d', db_sessions d' !! id = db_sessions d !! id)); [done|].
    intros t d' H. do 2 ok_step H. apply sessions_append_event in H. apply sessions_put_app in E, E0.
    congruence.
Qed.

Lemma session_kept d now op id :
  (may_change_session id op → False) →
  db_sessions (reg_step ci_append print d now op) !! id = db_sessions d !! id.
Proof.
  intros Hno. pose proof (session_ensures d now op id) as Hens.
  set (P := λ d', db_sessions d' !! id = db_sessions d !! id).
  destruct op; try exact Hens; cbn [reg_step may_change_session] in *; try done.
  - by apply session_record.
  - by apply session_record.
  - apply session_finish. intros Heq. apply dec_stable. tauto.
  - apply session_finish. intros Heq. apply dec_stable. tauto.
  - clear. unfold put_manifest_volume_intents. revert d.
    induction volumes as [|v vs IH]; intros d; [done|]. cbn [fold_left]. by rewrite IH.
  - unfold append_setup_ensure_events. case_bool_decide; [done|].
    apply (transact_db P); [done|]. intros t d' H'. unfold P. by rewrite (sessions_append_events _ _ _ _ H').
  - unfold append_manifest_recovery_events. case_bool_decide; [done|].
    apply (transact_db P); [done|]. intros t d' H'. unfold P. by rewrite (sessions_append_recovery _ _ _ _ H').
  - apply (with_clock_db P); [done|]. intros t a d'. unfold finalize_setup_gc_candidate.
    destruct (negb _); [by intros [= _ <-]|]. intros H. ok_step H. injection H as _ <-.
    apply sessions_append_event in E. unfold P. by rewrite E.
  - apply (with_clock_db P); [done|]. intros t a d'. unfold finalize_manifest_volume_gc_candidate.
    destruct (negb _); [by intros [= _ <-]|]. intros H. ok_step H. injection H as _ <-.
    apply sessions_append_event in E. unfold P. by rewrite E.
  - apply (with_clock_db P); [done|]. intros t a d'. unfold finalize_manifest_volume_release_candidate.
    destruct (negb _); [by intros [= _ <-]|]. intros H. ok_step H. injection H as _ <-.
    apply sessions_append_event in E. unfold P. by rewrite E.
  - apply (with_clock_db P); [done|]. intros t a d'. unfold confirm_setup_retired_container_stopped.
    destruct (negb _); [by intros [= _ <-]|]. intros H. ok_step H. injection H as _ <-.
    apply sessions_append_event in E. unfold P. by rewrite E.
  - apply (with_clock_db P); [done|]. intros t a d' H. unfold repair_missing_setup_container in H.
    destruct (setup_missing_repair_candidate_exists d workspace c Active).
    + destruct (_ || _); [done|]. ok_step H. injection H as _ <-.
      apply sessions_append_event in E. unfold P. by rewrite E.
    + by destruct (setup_missing_repair_candidate_exists d workspace c Retired); injection H as _ <-.
  - apply (with_clock_db P); [done|]. intros t a d' H. unfold complete_setup_workspace in H.
    destruct (_ =? 0); [by injection H as _ <-|]. ok_step H. injection H as _ <-.
    apply sessions_append_event in E. unfold P. by rewrite E.
  - unfold put_lease. by destruct (_ && _).
  - unfold set_meta. by destruct (_ || _).
Qed.
End sessions.

(** The writes of a run, none of which may change the session [id]. *)
Inductive session_run ci_append print (id : string) : Db → Db → Prop :=
| run_none d : session_run ci_append print id d d
| run_write d now op d' :
    (may_change_session id op → False) →
    session_run ci_append print id (reg_step ci_append print d now op) d' →
    session_run ci_append print id d d'.

Lemma session_run_kept ci_append print id d d' :
  (∀ at_ kind detail d d', ci_append at_ kind detail d = Ok d' → db_sessions d' = db_sessions d) →
  session_run ci_append print id d d' → db_sessions d' !! id = db_sessions d !! id.
Proof.
  intros Hci. induction 1 as [|d now op d' Hno _ IH]; [done|]. rewrite IH. by apply session_kept.
Qed.

(** While a task runs in a container, nothing may take the container away. Once the daemon has
    recorded a task's session, the container it names is, until the task is reported finished,
    no candidate for collection or a retired stop, and not repairable as missing, whatever else
    is written meanwhile; an uncertain end keeps the protection. *)
Theorem session_protects_container ci_append print d now pid job name d1 d2 w c :
  (∀ at_ kind detail d d', ci_append at_ kind detail d = Ok d' → db_sessions d' = db_sessions d) →
  record_manifest_app_task_session ci_append d now pid job name = (Ok (), d1) →
  session_run ci_append print (manifest_app_task_session_id job) d1 d2 →
  gc_name c = name ∨ gc_id c = name →
  setup_gc_candidate d2 w c = None ∧ manifest_volume_gc_candidate d2 w c = None ∧
  setup_missing_repair_candidate d2 w c = false.
Proof.
  intros Hci Hrec Hrun Hname.
  assert (db_sessions d1 !! manifest_app_task_session_id job
    = Some (session_row (manifest_app_task_session_id job) name pid)) as Hs1.
  { unfold record_manifest_app_task_session, transact, with_clock, commit_if in Hrec.
    destruct now as [now|]; [|done]. destruct (append_event _ _ _ _ _) as [d'|] eqn:E; [|done].
    injection Hrec as <-. apply (sessions_append_event ci_append Hci) in E. rewrite E. cbn.
    apply lookup_insert_eq. }
  rewrite <- (session_run_kept _ _ _ _ _ Hci Hrun) in Hs1.
  assert (∀ r, named c r = true → in_session d2 r = true) as Hin.
  { intros r Hr. unfold named in Hr. conds. apply exists_row_true. do 2 eexists. split; [exact Hs1|].
    cbn. apply orb_true_iff. rewrite !bool_decide_eq_true. destruct Hname; [right|left]; congruence. }
  assert (∀ where_ : Resource → bool, (∀ r, where_ r = true → in_session d2 r = false) →
    exists_row (db_resources d2) (λ r, named c r && where_ r) = false) as Hnone.
  { intros where_ Hw. apply exists_row_false. intros k r Hr. destruct (named c r) eqn:En; [|done].
    cbn. destruct (where_ r) eqn:Ew; [|done]. specialize (Hw r Ew). by rewrite (Hin r En) in Hw. }
  unfold setup_gc_candidate, manifest_volume_gc_candidate, setup_missing_repair_candidate,
    setup_gc_candidate_exists, manifest_volume_gc_candidate_exists,
    setup_missing_repair_candidate_exists.
  rewrite (Hnone (setup_gc_where d2 w)), (Hnone (volume_gc_where d2 w)).
  2: { unfold volume_gc_where. intros. by conds. }
  2: { unfold setup_gc_where. intros. by conds. }
  split_and!; [done..|]. apply exists_row_false. intros k r Hr. apply not_true_iff_false.
  intros Hp. conds. rewrite Hin in *; done.
Qed.

(** ** A registry with two generations of everything *)

Definition sample_now : option f64 := Some f64_zero.
Definition no_print (_ : gmap string JsonValue) : string := "{}".

Definition setup_execution (tag : string) : SetupEnsureExecution :=
  {| ex_receipt := "ok";
     ex_resource := {| er_id := "setup-container:setup:bosn-setup-" +:+ tag;
                       er_name := "bosn-setup-" +:+ tag; er_stack := "setup";
                       er_generation := "sha256:" +:+ tag; er_workspace := "/w" |};
     ex_image := {| ei_id := "image:" +:+ tag; ei_name := "image-" +:+ tag; ei_stack := "setup";
                    ei_generation := "sha256:image"; ei_workspace := "/w" |};
     ex_volumes := []; ex_manifest_autostart := false |}.
Definition manifest_volume (tag : string) (scope : Scope) (retention : Retention) :
    ManifestVolumeResource :=
  {| mv_id := "manifest-volume:" +:+ tag; mv_name := "bosn-v-" +:+ tag; mv_stack := "app";
     mv_generation := "sha256:v"; mv_scope := scope; mv_workspace := "/w";
     mv_retention := retention; mv_target := "/data"; mv_labels := ∅ |}.
Definition manifest_execution (tag : string) : SetupEnsureExecution :=
  {| ex_receipt := "ok";
     ex_resource := {| er_id := "manifest-container:app:bosn-setup-m" +:+ tag;
                       er_name := "bosn-setup-m" +:+ tag; er_stack := "app";
                       er_generation := "sha256:" +:+ tag; er_workspace := "/w" |};
     ex_image := {| ei_id := "image:m" +:+ tag; ei_name := "image-m" +:+ tag; ei_stack := "app";
                    ei_generation := "sha256:image"; ei_workspace := "/w" |};
     ex_volumes := [manifest_volume ("spec-" +:+ tag) Spec Warm; manifest_volume "machine" Machine Warm];
     ex_manifest_autostart := true |}.
Definition manifest_contract (tag : string) : ManifestRecoveryContract :=
  {| rc_resource_id := er_id (ex_resource (manifest_execution tag));
     rc_name := er_name (ex_resource (manifest_execution tag)); rc_workspace := "/w";
     rc_stack := "app"; rc_generation := "sha256:" +:+ tag; rc_manifest := "bosn.toml";
     rc_image_identity := "sha256:image"; rc_guest := false; rc_intent_id := "job-1";
     rc_autostart := true |}.

Fixpoint reg_run (d : Db) (ops : list reg_op) : Db :=
  match ops with [] => d | op :: ops => reg_run (reg_step no_ci no_print d sample_now op) ops end.
Lemma reg_run_reachable start d ops :
  reg_reachable no_ci no_print start d → reg_reachable no_ci no_print start (reg_run d ops).
Proof.
  revert d. induction ops as [|op ops IH]; intros d H; [done|]. apply IH. by apply reg_next.
Qed.

Definition sample_ops : list reg_op :=
  [RecordSetupEnsure 1 (setup_execution "a"); RecordSetupEnsure 2 (setup_execution "b");
   RecordManifestEnsure 3 (manifest_execution "a") (manifest_contract "a")].
Definition sample_db : Db := reg_run (Db_new "registry") sample_ops.
Lemma sample_db_reachable : reg_reachable no_ci no_print (Db_new "registry") sample_db.
Proof. unfold sample_db. apply reg_run_reachable, reg_start. Qed.
Lemma no_ci_wf at_ kind detail d d' : db_wf d → no_ci at_ kind detail d = Ok d' → db_wf d'.
Proof. by intros Hwf [= <-]. Qed.
Lemma no_ci_sessions at_ kind detail d d' :
  no_ci at_ kind detail d = Ok d' → db_sessions d' = db_sessions d.
Proof. by intros [= <-]. Qed.
Lemma sample_db_wf : db_wf sample_db.
Proof.
  apply (wf_reachable no_ci no_ci_wf no_print (Db_new "registry")); [apply wf_new|].
  apply sample_db_reachable.
Qed.

Definition candidate (id name generation : string) : GcCandidate :=
  {| gc_id := id; gc_name := name; gc_generation := generation |}.
Definition old_setup : GcCandidate :=
  candidate "setup-container:setup:bosn-setup-a" "bosn-setup-a" "sha256:a".
Definition new_setup : GcCandidate :=
  candidate "setup-container:setup:bosn-setup-b" "bosn-setup-b" "sha256:b".

Lemma registry_stays_consistent_witness : db_wf sample_db.
Proof.
  exact (registry_stays_consistent no_ci no_print "registry" sample_db no_ci_wf sample_db_reachable).
Defined.

Lemma setup_candidates_are_unprotected_witness :
  ∃ r, db_resources sample_db !! gc_id old_setup = Some r ∧ re_state r = Retired.
Proof.
  destruct (setup_candidates_are_unprotected sample_db "/w" old_setup old_setup sample_db_wf)
    as (_ & r & Hr & _ & _ & Hst & _); [vm_compute; reflexivity|]. exists r. exact (conj Hr Hst).
Defined.

Definition durable_volume : GcCandidate :=
  candidate "manifest-volume:machine" "bosn-v-machine" "sha256:v".
Lemma volume_gc_and_release_disjoint_witness :
  manifest_volume_release_candidate sample_db "/w" durable_volume = Some durable_volume ∧
  manifest_volume_gc_candidate sample_db "/w" durable_volume = None.
Proof.
  assert (manifest_volume_release_candidate sample_db "/w" durable_volume = Some durable_volume) as H
    by (vm_compute; reflexivity).
  split; [exact H|].
  destruct (volume_gc_and_release_disjoint sample_db "/w" durable_volume durable_volume sample_db_wf)
    as [_ Hrel]. destruct (Hrel H) as (_ & _ & Hnone). apply Hnone.
Defined.

Lemma finalization_is_exact_witness :
  (on_finalize_setup_gc true no_ci sample_db "/w" old_setup false sample_now).1 = Ok true ∧
  (on_finalize_setup_gc true no_ci sample_db "/w" new_setup false sample_now).2 = sample_db.
Proof.
  destruct (finalization_is_exact no_ci sample_db "/w" old_setup false sample_now sample_db_wf)
    as [[[_ H1] _] _].
  destruct (finalization_is_exact no_ci sample_db "/w" new_setup false sample_now sample_db_wf)
    as [[_ [_ H2]] _].
  split; [apply H1; split; [exists f64_zero; reflexivity|vm_compute; reflexivity]|].
  apply H2. vm_compute. discriminate.
Defined.

Definition rolled_over : result RegError unit * Db :=
  record_manifest_ensure true no_ci no_print sample_db sample_now 4 (manifest_execution "b")
    (manifest_contract "b").
Lemma manifest_rollover_exact_witness :
  rolled_over.1 = Ok () ∧
  (re_state <$> db_resources rolled_over.2 !! "manifest-container:app:bosn-setup-ma") = Some Retired ∧
  (re_state <$> db_resources rolled_over.2 !! "setup-container:setup:bosn-setup-b") = Some Active.
Proof.
  destruct (manifest_rollover_exact no_ci no_print sample_db sample_now 4 (manifest_execution "b")
    (manifest_contract "b") rolled_over.1 rolled_over.2 sample_db_wf
    (surjective_pairing rolled_over)) as [Hok _].
  assert (rolled_over.1 = Ok ()) as H1 by (vm_compute; reflexivity).
  destruct (Hok H1) as (_ & _ & _ & Hrows). split; [exact H1|].
  rewrite (Hrows "manifest-container:app:bosn-setup-ma"), (Hrows "setup-container:setup:bosn-setup-b");
    [split; vm_compute; reflexivity|apply (bool_decide_unpack _); vm_compute; exact I..].
Defined.

Lemma missing_repair_idempotent_witness :
  ∃ d', on_repair_missing_setup_container no_ci sample_db "/w" new_setup sample_now
        = (Ok (Some Repaired), d') ∧ setup_gc_candidate d' "/w" new_setup = Some new_setup.
Proof.
  destruct (missing_repair_idempotent no_ci sample_db "/w" new_setup f64_zero sample_db_wf)
    as (d' & Heq & _ & Hc & _); [vm_compute; reflexivity|]. exists d'. exact (conj Heq Hc).
Defined.

Lemma previews_list_the_candidates_witness :
  ∃ setup, fetch_all (select_candidates sample_db (setup_gc_where sample_db "/w")) 1 = Some setup ∧
    old_setup ∈ setup.
Proof.
  destruct (previews_list_the_candidates sample_db "/w" 1 sample_db_wf)
    as (setup & vs & rs & H & _ & _ & _ & _ & _ & Hc); [vm_compute; discriminate|].
  exists setup. split; [exact H|]. apply (Hc old_setup). vm_compute. reflexivity.
Defined.

(** A task runs in the old container when the collector looks at it. *)
Definition with_task : result RegError unit * Db :=
  record_manifest_app_task_session no_ci sample_db sample_now 42 7 "bosn-setup-a".
Lemma session_protects_container_witness :
  setup_gc_candidate sample_db "/w" old_setup = Some old_setup ∧
  setup_gc_candidate with_task.2 "/w" old_setup = None.
Proof.
  split; [vm_compute; reflexivity|].
  assert (record_manifest_app_task_session no_ci sample_db sample_now 42 7 "bosn-setup-a"
    = (Ok (), with_task.2)) as Heq.
  { replace (Ok ()) with with_task.1 by (vm_compute; reflexivity). apply surjective_pairing. }
  apply (session_protects_container no_ci no_print sample_db sample_now 42 7 "bosn-setup-a"
    with_task.2 with_task.2 "/w" old_setup no_ci_sessions Heq); [apply run_none|left; reflexivity].
Defined.
