(* ===== verification/GcApply.v ===== *)
(** * GcApply: token-bound removal, release, repair and stop

    The model of [bosn-service/src/gc_apply.rs]. Every operation is a program of [Effects] over
    calls to the registry actor and the Docker command line, whose answers are arbitrary. An
    engine call that could not be run (spawn failure, deadline, output limit) answers [None].
    The answers themselves are those of [Engine]. *)

From Stdlib Require Import Ascii.
From S2P Require Import Effects.
From S2P Require Export Engine.
From S2P Require Import ManifestRecovery.
From S2P Require Export Registry.

Local Open Scope string_scope.
Local Open Scope list_scope.
Local Open Scope Z_scope.
Local Open Scope bosn_scope.

(** ** Calls *)

Definition SETUP_GC_ENGINE_DEADLINE : Z := 5.
Definition SETUP_GC_ENGINE_OUTPUT : Z := 16 * 1024.

Inductive GcError := GcProtocol (what : string) | GcRegistry (error : string).
Record SetupGcApplyResult := { ga_removed : bool; ga_reconciled_missing : bool }.
Record ManifestVolumeGcApplyResult := { va_removed : bool; va_reconciled_missing : bool }.
Record SetupReconcileMissingRepairResult := { rr_repaired : bool; rr_already_repaired : bool }.
Record SetupRetiredStopResult := { st_stopped : bool; st_already_stopped : bool }.
Record RetiredStackStops := { rs_stopped : list string; rs_failed : list (string * GcError) }.
(** The candidates of a preview page; its counts and the candidates' tokens are not read. *)
Record SetupGcPreviewPage := { pg_next : option Z; pg_candidates : list GcCandidate }.

Inductive gc_call :=
| CallEngine (args : list string) (deadline_secs output_limit : Z)
| CallSetupCandidate (workspace : string) (c : GcCandidate)
| CallVolumeCandidate (workspace : string) (c : GcCandidate)
| CallReleaseCandidate (workspace : string) (c : GcCandidate)
| CallFinalizeSetup (workspace : string) (c : GcCandidate) (missing : bool)
| CallFinalizeVolume (workspace : string) (c : GcCandidate) (missing : bool)
| CallFinalizeRelease (workspace : string) (c : GcCandidate) (missing : bool)
| CallConfirmStopped (workspace : string) (c : GcCandidate)
| CallRepairCandidate (workspace : string) (c : GcCandidate)
| CallRepairMissing (workspace : string) (c : GcCandidate)
| CallReconcileInspect (name : string)
| CallPreview (workspace : string) (after limit : Z).

Definition gc_answer (c : gc_call) : Type :=
  match c with
  | CallEngine _ _ _ => option CommandResult
  | CallSetupCandidate _ _ | CallVolumeCandidate _ _ | CallReleaseCandidate _ _ =>
      result GcError (option GcCandidate)
  | CallFinalizeSetup _ _ _ | CallFinalizeVolume _ _ _ | CallFinalizeRelease _ _ _
  | CallConfirmStopped _ _ | CallRepairCandidate _ _ => result GcError bool
  | CallRepairMissing _ _ => result GcError (option SetupMissingRepair)
  | CallReconcileInspect _ => result string (option SetupReconcileObserved)
  | CallPreview _ _ _ => result GcError SetupGcPreviewPage
  end.

Notation gc_prog A := (prog gc_answer (result GcError A)).

Definition fail {A} (what : string) : gc_prog A := Ret (Err (GcProtocol what)).
Definition protocol {A} (r : result string A) : gc_prog A :=
  match r with Ok a => Ret (Ok a) | Err what => fail what end.
Definition engine (args : list string) : prog gc_answer (option CommandResult) :=
  perform (CallEngine args SETUP_GC_ENGINE_DEADLINE SETUP_GC_ENGINE_OUTPUT).

(** ** Inspections *)

Definition tab : ascii := "009".
Definition quoted (s : string) : string := String "034" (s +:+ String "034" "").
Definition label_index (labels label : string) : string :=
  "{{index " +:+ labels +:+ " " +:+ quoted label +:+ "}}".

Definition container_format : string :=
  str_join (String tab "")
    ["{{.Name}}"; "{{.State.Running}}";
     label_index ".Config.Labels" "com.zackees.bosn.setup-managed";
     label_index ".Config.Labels" "com.zackees.bosn.setup-content-sha256";
     label_index ".Config.Labels" "com.zackees.bosn.setup-container"].
Definition inspect_container_args (c : GcCandidate) : list string :=
  ["container"; "inspect"; "--format"; container_format; gc_name c].

Definition output_fields (output : string) : list string :=
  str_split tab (trim_end_by (λ a, Ascii.eqb a cr || Ascii.eqb a lf) output).

(** What [inspect_setup_gc_container] makes of Docker's answer. *)
Definition read_container (c : GcCandidate) (answer : option CommandResult) :
    result string (option bool) :=
  match answer with
  | None => Err "setup gc container inspection failed"
  | Some r =>
      if reports_missing r then Ok None
      else if negb (cr_ok r) then Err "setup gc container inspection failed"
      else if negb (is_utf8 (cr_stdout r)) then Err "setup gc container inspection invalid"
      else match strip_prefix "sha256:" (gc_generation c) with
      | None => Err "setup gc candidate identity invalid"
      | Some content =>
          match output_fields (cr_stdout r) with
          | [f0; f1; f2; f3; f4] =>
              if negb (String.eqb f0 ("/" +:+ gc_name c)) || negb (String.eqb f2 "v1")
                 || negb (String.eqb f3 content) || negb (String.eqb f4 (gc_name c))
              then Err "setup gc container ownership mismatch"
              else if String.eqb f1 "true" then Ok (Some true)
              else if String.eqb f1 "false" then Ok (Some false)
              else Err "setup gc container inspection invalid"
          | _ => Err "setup gc container ownership mismatch"
          end
      end
  end.

Definition inspect_setup_gc_container (c : GcCandidate) : gc_prog (option bool) :=
  prog_bind (engine (inspect_container_args c)) (λ answer, protocol (read_container c answer)).

Definition volume_format : string :=
  str_join (String tab "")
    ["{{.Name}}";
     label_index ".Labels" "com.zackees.bosn.setup-managed";
     label_index ".Labels" "com.zackees.bosn.setup-content-sha256";
     label_index ".Labels" "com.zackees.bosn.setup-container"].
Definition inspect_volume_args (c : GcCandidate) : list string :=
  ["volume"; "inspect"; "--format"; volume_format; gc_name c].
Definition attached_args (c : GcCandidate) : list string :=
  ["container"; "ls"; "-a"; "--filter"; "volume=" +:+ gc_name c; "--format"; "{{.ID}}"].

(** [None] for an absent volume, [Some ()] for one whose labels prove the candidate. *)
Definition read_volume (c : GcCandidate) (answer : option CommandResult) :
    result string (option unit) :=
  match answer with
  | None => Err "manifest volume gc inspection failed"
  | Some r =>
      if reports_missing r then Ok None
      else if negb (cr_ok r) then Err "manifest volume gc inspection failed"
      else if negb (is_utf8 (cr_stdout r)) then Err "manifest volume gc inspection invalid"
      else match strip_prefix "sha256:" (gc_generation c) with
      | None => Err "manifest volume gc candidate identity invalid"
      | Some content =>
          if bool_decide (output_fields (cr_stdout r) = [gc_name c; "v1"; content; gc_name c])
          then Ok (Some ()) else Err "manifest volume gc ownership mismatch"
      end
  end.

Definition is_ascii_whitespace (a : ascii) : bool :=
  (code a =? 32) || (code a =? 9) || (code a =? 10) || (code a =? 12) || (code a =? 13).

Definition read_attached (answer : option CommandResult) : result string bool :=
  match answer with
  | Some r =>
      if cr_ok r then Ok (negb (all_bytes is_ascii_whitespace (cr_stdout r)))
      else Err "manifest volume gc attachment inspection failed"
  | None => Err "manifest volume gc attachment inspection failed"
  end.

Definition inspect_manifest_volume_gc (c : GcCandidate) : gc_prog (option bool) :=
  do! found := prog_bind (engine (inspect_volume_args c)) (λ a, protocol (read_volume c a)) in
  match found with
  | None => Ret (Ok None)
  | Some _ =>
      do! attached := prog_bind (engine (attached_args c)) (λ a, protocol (read_attached a)) in
      Ret (Ok (Some attached))
  end.

(** ** Removal *)

(** Record the outcome with the registry; [false] means its row changed meanwhile. *)
Definition finalize {A} (call : gc_prog bool) (outcome : A) (stale : string) : gc_prog A :=
  do! recorded := call in if recorded then Ret (Ok outcome) else fail stale.

(** An engine command that must run and exit with zero. *)
Definition mutate (call : prog gc_answer (option CommandResult)) (failed : string) : gc_prog unit :=
  prog_bind call (λ answer,
    match answer with
    | Some r => if cr_ok r then Ret (Ok ()) else fail failed
    | None => fail failed
    end).

Definition candidate_or_stale (call : gc_prog (option GcCandidate)) (stale : string) :
    gc_prog GcCandidate :=
  do! found := call in protocol (ok_or found stale).

Definition gc_removed : SetupGcApplyResult :=
  {| ga_removed := true; ga_reconciled_missing := false |}.
Definition gc_reconciled : SetupGcApplyResult :=
  {| ga_removed := false; ga_reconciled_missing := true |}.

Definition apply_setup_gc_candidate (workspace token : string) : gc_prog SetupGcApplyResult :=
  do! t := protocol (parse_setup_gc_token token) in
  do! c := candidate_or_stale (perform (CallSetupCandidate workspace t))
             "setup gc preview is stale or protected" in
  let reconcile :=
    finalize (perform (CallFinalizeSetup workspace c true)) gc_reconciled
      "setup gc preview became stale" in
  do! first := inspect_setup_gc_container c in
  match first with
  | None => reconcile
  | Some true => fail "setup gc candidate is still running"
  | Some false =>
      do! second := inspect_setup_gc_container c in
      match second with
      | None => reconcile
      | Some true => fail "setup gc candidate is still running"
      | Some false =>
          do! _ := mutate (engine ["container"; "rm"; gc_name c])
                     "setup gc container removal failed" in
          finalize (perform (CallFinalizeSetup workspace c false)) gc_removed
            "setup gc registry finalization failed after container removal"
      end
  end.

Definition volume_removed : ManifestVolumeGcApplyResult :=
  {| va_removed := true; va_reconciled_missing := false |}.
Definition volume_reconciled : ManifestVolumeGcApplyResult :=
  {| va_removed := false; va_reconciled_missing := true |}.

Definition apply_manifest_volume_gc_candidate (workspace token : string) :
    gc_prog ManifestVolumeGcApplyResult :=
  do! t := protocol (parse_manifest_volume_gc_token token) in
  do! c := candidate_or_stale (perform (CallVolumeCandidate workspace t))
             "manifest volume gc preview is stale or protected" in
  let reconcile :=
    finalize (perform (CallFinalizeVolume workspace c true)) volume_reconciled
      "manifest volume gc preview became stale" in
  do! first := inspect_manifest_volume_gc c in
  match first with
  | None => reconcile
  | Some true => fail "manifest volume gc candidate is attached"
  | Some false =>
      do! second := inspect_manifest_volume_gc c in
      match second with
      | None => reconcile
      | Some true => fail "manifest volume gc candidate is attached"
      | Some false =>
          do! _ := mutate (engine ["volume"; "rm"; gc_name c])
                     "manifest volume gc removal failed" in
          finalize (perform (CallFinalizeVolume workspace c false)) volume_removed
            "manifest volume gc registry finalization failed after volume removal"
      end
  end.

(** The durable predicate is evaluated again right before the removal. *)
Definition apply_manifest_volume_release_candidate (workspace token : string) :
    gc_prog ManifestVolumeGcApplyResult :=
  do! t := protocol (parse_manifest_volume_release_token token) in
  do! c := candidate_or_stale (perform (CallReleaseCandidate workspace t))
             "manifest volume release preview is stale or protected" in
  let reconcile :=
    finalize (perform (CallFinalizeRelease workspace c true)) volume_reconciled
      "manifest volume release preview became stale" in
  do! first := inspect_manifest_volume_gc c in
  match first with
  | None => reconcile
  | Some true => fail "manifest volume release candidate is attached"
  | Some false =>
      do! second := inspect_manifest_volume_gc c in
      match second with
      | None => reconcile
      | Some true => fail "manifest volume release candidate is attached"
      | Some false =>
          do! c' := candidate_or_stale (perform (CallReleaseCandidate workspace c))
                      "manifest volume release preview became stale" in
          do! _ := mutate (engine ["volume"; "rm"; gc_name c'])
                     "manifest volume release removal failed" in
          finalize (perform (CallFinalizeRelease workspace c' false)) volume_removed
            "manifest volume release registry finalization failed after volume removal"
      end
  end.

(** ** Repair of a container that is gone *)

Definition repaired : SetupReconcileMissingRepairResult :=
  {| rr_repaired := true; rr_already_repaired := false |}.
Definition already_repaired : SetupReconcileMissingRepairResult :=
  {| rr_repaired := false; rr_already_repaired := true |}.

Definition repair_missing_setup_reconcile_candidate (workspace token : string) :
    gc_prog SetupReconcileMissingRepairResult :=
  do! t := protocol (parse_setup_reconcile_missing_token token) in
  do! eligible := perform (CallRepairCandidate workspace t) in
  if eligible : bool then
    prog_bind (perform (CallReconcileInspect (gc_name t))) (λ observed,
      match observed with
      | Ok None =>
          do! repair := perform (CallRepairMissing workspace t) in
          match repair with
          | Some Repaired => Ret (Ok repaired)
          | Some AlreadyRepaired => Ret (Ok already_repaired)
          | None => fail "setup reconcile repair preview became stale"
          end
      | Ok (Some _) => fail "setup reconcile candidate is no longer missing"
      | Err _ => fail "setup reconcile container inspection failed"
      end)
  else
    do! repair := perform (CallRepairMissing workspace t) in
    match repair with
    | Some AlreadyRepaired => Ret (Ok already_repaired)
    | _ => fail "setup reconcile repair preview is stale or protected"
    end.

(** ** Stopping retired containers *)

(** A guest's disk needs its longer grace. *)
Definition stop_grace (c : GcCandidate) : string * Z :=
  if starts_with "manifest-guest:" (gc_id c) then ("120", 150) else ("1", SETUP_GC_ENGINE_DEADLINE).
Definition stop_args (c : GcCandidate) : list string :=
  ["container"; "stop"; "--time"; (stop_grace c).1; gc_name c].

Definition stop_retired_container (workspace : string) (t : GcCandidate) :
    gc_prog (option SetupRetiredStopResult) :=
  do! c := candidate_or_stale (perform (CallSetupCandidate workspace t))
             "setup retired stop preview is stale or protected" in
  do! first := inspect_setup_gc_container c in
  match first with
  | None => Ret (Ok None)
  | Some false => Ret (Ok (Some {| st_stopped := false; st_already_stopped := true |}))
  | Some true =>
      do! second := inspect_setup_gc_container c in
      if negb (bool_decide (second = Some true)) then fail "setup retired stop candidate changed"
      else
        do! _ := mutate (perform (CallEngine (stop_args c) (stop_grace c).2 SETUP_GC_ENGINE_OUTPUT))
                   "setup retired stop failed" in
        do! third := inspect_setup_gc_container c in
        if negb (bool_decide (third = Some false))
        then fail "setup retired stop did not stop candidate"
        else
          do! recorded := perform (CallConfirmStopped workspace c) in
          if recorded : bool
          then Ret (Ok (Some {| st_stopped := true; st_already_stopped := false |}))
          else fail "setup retired stop registry became stale"
  end.

Definition stop_setup_retired_candidate (workspace token : string) :
    gc_prog SetupRetiredStopResult :=
  do! t := protocol (parse_setup_gc_token token) in
  do! stopped := stop_retired_container workspace t in
  protocol (ok_or stopped "setup retired stop candidate is absent").

Definition MAX_REGISTRY_DIAGNOSTIC_PAGE : Z := 64.
Definition setup_container_resource_id (kind stack creation_name : string) : string :=
  kind +:+ ":" +:+ stack +:+ ":" +:+ creation_name.

(** The page loop: [None] when [fuel] pages were not enough. *)
Fixpoint retired_of_stack (fuel : nat) (workspace prefix : string) (after : Z)
    (retired : list GcCandidate) : prog gc_answer (option (result GcError (list GcCandidate))) :=
  match fuel with
  | O => Ret None
  | S fuel =>
      prog_bind (perform (CallPreview workspace after MAX_REGISTRY_DIAGNOSTIC_PAGE)) (λ answer,
        match answer with
        | Err e => Ret (Some (Err e))
        | Ok page =>
            let retired :=
              retired ++ filterb (λ c, starts_with prefix (gc_id c)) (pg_candidates page) in
            match pg_next page with
            | Some next => retired_of_stack fuel workspace prefix next retired
            | None => Ret (Some (Ok retired))
            end
        end)
  end.

Fixpoint stop_each (workspace : string) (retired : list GcCandidate) (stops : RetiredStackStops) :
    prog gc_answer RetiredStackStops :=
  match retired with
  | [] => Ret stops
  | c :: retired =>
      prog_bind (stop_retired_container workspace c) (λ outcome,
        stop_each workspace retired
          match outcome with
          | Ok (Some r) =>
              if st_stopped r
              then {| rs_stopped := rs_stopped stops ++ [gc_name c]; rs_failed := rs_failed stops |}
              else stops
          | Ok None => stops
          | Err e =>
              {| rs_stopped := rs_stopped stops; rs_failed := rs_failed stops ++ [(gc_name c, e)] |}
          end)
  end.

Definition stop_retired_stack_containers (fuel : nat) (workspace stack : string) :
    prog gc_answer (option (result GcError RetiredStackStops)) :=
  let prefix := setup_container_resource_id "manifest-container" stack "" in
  prog_bind (retired_of_stack fuel workspace prefix 0 []) (λ retired,
    match retired with
    | None => Ret None
    | Some (Err e) => Ret (Some (Err e))
    | Some (Ok retired) =>
        prog_bind (stop_each workspace retired {| rs_stopped := []; rs_failed := [] |})
          (λ stops, Ret (Some (Ok stops)))
    end).

(** ** Traces *)

Inductive gc_event :=
| EvEngine (args : list string) (deadline_secs output_limit : Z) (answer : option CommandResult)
| EvSetupCandidate (workspace : string) (c : GcCandidate) (answer : result GcError (option GcCandidate))
| EvVolumeCandidate (workspace : string) (c : GcCandidate) (answer : result GcError (option GcCandidate))
| EvReleaseCandidate (workspace : string) (c : GcCandidate)
    (answer : result GcError (option GcCandidate))
| EvFinalizeSetup (workspace : string) (c : GcCandidate) (missing : bool) (answer : result GcError bool)
| EvFinalizeVolume (workspace : string) (c : GcCandidate) (missing : bool) (answer : result GcError bool)
| EvFinalizeRelease (workspace : string) (c : GcCandidate) (missing : bool)
    (answer : result GcError bool)
| EvConfirmStopped (workspace : string) (c : GcCandidate) (answer : result GcError bool)
| EvRepairCandidate (workspace : string) (c : GcCandidate) (answer : result GcError bool)
| EvRepairMissing (workspace : string) (c : GcCandidate)
    (answer : result GcError (option SetupMissingRepair))
| EvReconcileInspect (name : string) (answer : result string (option SetupReconcileObserved))
| EvPreview (workspace : string) (after limit : Z) (answer : result GcError SetupGcPreviewPage).

Definition gc_event_of (c : gc_call) : gc_answer c → gc_event :=
  match c with
  | CallEngine args deadline output => EvEngine args deadline output
  | CallSetupCandidate w c => EvSetupCandidate w c
  | CallVolumeCandidate w c => EvVolumeCandidate w c
  | CallReleaseCandidate w c => EvReleaseCandidate w c
  | CallFinalizeSetup w c m => EvFinalizeSetup w c m
  | CallFinalizeVolume w c m => EvFinalizeVolume w c m
  | CallFinalizeRelease w c m => EvFinalizeRelease w c m
  | CallConfirmStopped w c => EvConfirmStopped w c
  | CallRepairCandidate w c => EvRepairCandidate w c
  | CallRepairMissing w c => EvRepairMissing w c
  | CallReconcileInspect name => EvReconcileInspect name
  | CallPreview w after limit => EvPreview w after limit
  end.

(** The operations a client can ask for. *)
Inductive gc_op :=
| OpSetupGc (workspace token : string)
| OpVolumeGc (workspace token : string)
| OpVolumeRelease (workspace token : string)
| OpRepair (workspace token : string)
| OpRetiredStop (workspace token : string)
| OpStackStop (fuel : nat) (workspace stack : string).

Definition gc_outcome (op : gc_op) : Type :=
  match op with
  | OpSetupGc _ _ => result GcError SetupGcApplyResult
  | OpVolumeGc _ _ | OpVolumeRelease _ _ => result GcError ManifestVolumeGcApplyResult
  | OpRepair _ _ => result GcError SetupReconcileMissingRepairResult
  | OpRetiredStop _ _ => result GcError SetupRetiredStopResult
  | OpStackStop _ _ _ => option (result GcError RetiredStackStops)
  end.
Definition gc_program (op : gc_op) : prog gc_answer (gc_outcome op) :=
  match op with
  | OpSetupGc w t => apply_setup_gc_candidate w t
  | OpVolumeGc w t => apply_manifest_volume_gc_candidate w t
  | OpVolumeRelease w t => apply_manifest_volume_release_candidate w t
  | OpRepair w t => repair_missing_setup_reconcile_candidate w t
  | OpRetiredStop w t => stop_setup_retired_candidate w t
  | OpStackStop fuel w s => stop_retired_stack_containers fuel w s
  end.
Definition gc_run (env : list gc_event → ∀ c, gc_answer c) (op : gc_op) :
    gc_outcome op * list gc_event :=
  run gc_event_of env (gc_program op) [].

(** ** What an inspection proves *)

(** The output of a container inspection that proves ownership of [c]: its name, its state and
    the three labels, in this order. *)
Definition owned_container (c : GcCandidate) (running : bool) (r : CommandResult) : Prop :=
  cr_exit_code r = 0 ∧
  ∃ content ending, gc_generation c = "sha256:" +:+ content ∧
    all_bytes (λ a, Ascii.eqb a cr || Ascii.eqb a lf) ending = true ∧
    cr_stdout r = str_join (String tab "")
      ["/" +:+ gc_name c; if running then "true" else "false"; "v1"; content; gc_name c] +:+ ending.

Definition owned_volume (c : GcCandidate) (r : CommandResult) : Prop :=
  cr_exit_code r = 0 ∧
  ∃ content ending, gc_generation c = "sha256:" +:+ content ∧
    all_bytes (λ a, Ascii.eqb a cr || Ascii.eqb a lf) ending = true ∧
    cr_stdout r
    = str_join (String tab "") [gc_name c; "v1"; content; gc_name c] +:+ ending.

(** No container, running or not, has the volume. *)
Definition unattached (r : CommandResult) : Prop :=
  cr_exit_code r = 0 ∧ all_bytes is_ascii_whitespace (cr_stdout r) = true.

Lemma trim_end_by_app p s :
  ∃ ending, s = trim_end_by p s +:+ ending ∧ all_bytes p ending = true.
Proof.
  destruct (span_app p (str_reverse s)) as [H1 H2].
  exists (str_reverse (span p (str_reverse s)).1). unfold trim_end_by.
  rewrite <- str_reverse_app, <- H1, str_reverse_involutive, all_bytes_str_reverse. done.
Qed.

Lemma output_fields_app output fields :
  output_fields output = fields →
  ∃ ending, output = str_join (String tab "") fields +:+ ending ∧
    all_bytes (λ a, Ascii.eqb a cr || Ascii.eqb a lf) ending = true.
Proof.
  intros <-. unfold output_fields. rewrite join_split.
  apply (trim_end_by_app (λ a, Ascii.eqb a cr || Ascii.eqb a lf) output).
Qed.

Lemma read_container_Some c answer b :
  read_container c answer = Ok (Some b) → ∃ r, answer = Some r ∧ owned_container c b r.
Proof.
  destruct answer as [r|]; [|done]. cbn [read_container].
  destruct (reports_missing r); [done|]. destruct (cr_ok r) eqn:Hok; [|done]. cbn [negb].
  destruct (is_utf8 (cr_stdout r)); [|done]. cbn [negb].
  destruct (strip_prefix "sha256:" (gc_generation c)) as [content|] eqn:Hgen; [|done].
  destruct (output_fields (cr_stdout r)) as [|f0 [|f1 [|f2 [|f3 [|f4 [|]]]]]] eqn:Hf; try done.
  destruct (_ || _ || _ || _) eqn:E; [done|]. rewrite !orb_false_iff, !negb_false_iff in E.
  destruct E as [[[->%String.eqb_eq ->%String.eqb_eq] ->%String.eqb_eq] ->%String.eqb_eq].
  apply output_fields_app in Hf as (ending & Hout & Hend). apply strip_prefix_Some in Hgen.
  apply Z.eqb_eq in Hok. intros Hb. exists r. split; [done|]. split; [done|].
  exists content, ending. split_and!; [done..|]. rewrite Hout. f_equal. do 2 f_equal.
  destruct (String.eqb f1 "true") eqn:E1; [apply String.eqb_eq in E1; by simplify_eq|].
  destruct (String.eqb f1 "false") eqn:E2; [apply String.eqb_eq in E2; by simplify_eq|done].
Qed.

Lemma read_volume_Some c answer :
  read_volume c answer = Ok (Some ()) → ∃ r, answer = Some r ∧ owned_volume c r.
Proof.
  destruct answer as [r|]; [|done]. cbn [read_volume].
  destruct (reports_missing r); [done|]. destruct (cr_ok r) eqn:Hok; [|done]. cbn [negb].
  destruct (is_utf8 (cr_stdout r)); [|done]. cbn [negb].
  destruct (strip_prefix "sha256:" (gc_generation c)) as [content|] eqn:Hgen; [|done].
  case_bool_decide as Hf; [|done]. intros _. exists r. split; [done|].
  apply output_fields_app in Hf as (ending & Hout & Hend). apply strip_prefix_Some in Hgen.
  apply Z.eqb_eq in Hok. split; [done|]. by exists content, ending.
Qed.

Lemma read_attached_Ok answer :
  read_attached answer = Ok false → ∃ r, answer = Some r ∧ unattached r.
Proof.
  destruct answer as [r|]; [|done]. cbn [read_attached]. destruct (cr_ok r) eqn:Hok; [|done].
  intros [= Hall%negb_false_iff]. exists r. split; [done|]. split; [by apply Z.eqb_eq|done].
Qed.

(** ** Every mutation is licensed *)

(** Commands that only read. *)
Definition read_only (args : list string) : bool :=
  match args with
  | "container" :: "inspect" :: _ | "volume" :: "inspect" :: _ | "container" :: "ls" :: _ => true
  | _ => false
  end.

(** The events of one inspection that proves [c]. *)
Inductive container_proof (c : GcCandidate) (running : bool) : gc_event → Prop :=
| cp_inspected d o r :
    owned_container c running r →
    container_proof c running (EvEngine (inspect_container_args c) d o (Some r)).
Inductive volume_proof (c : GcCandidate) : list gc_event → Prop :=
| vp_inspected d o r d' o' r' :
    owned_volume c r → unattached r' →
    volume_proof c [EvEngine (inspect_volume_args c) d o (Some r);
                    EvEngine (attached_args c) d' o' (Some r')].

(** Which candidate an operation may act on, given the events so far. *)
Definition chosen (op : gc_op) (before : list gc_event) (t : GcCandidate) : Prop :=
  match op with
  | OpSetupGc _ token | OpRetiredStop _ token => parse_setup_gc_token token = Ok t
  | OpVolumeGc _ token => parse_manifest_volume_gc_token token = Ok t
  | OpVolumeRelease _ token => parse_manifest_volume_release_token token = Ok t
  | OpRepair _ token => parse_setup_reconcile_missing_token token = Ok t
  | OpStackStop _ w stack =>
      starts_with ("manifest-container:" +:+ stack +:+ ":") (gc_id t) = true ∧
      ∃ after limit page, EvPreview w after limit (Ok page) ∈ before ∧ t ∈ pg_candidates page
  end.

(** The workspace of the operations that stop containers. *)
Definition op_workspace (op : gc_op) : option string :=
  match op with OpRetiredStop w _ | OpStackStop _ w _ => Some w | _ => None end.

(** The events that must immediately precede a mutating command: the registry's approval of
    the chosen candidate, then two proofs that the approved object is Bosn's own and idle (or,
    for a stop, running), and for a release the registry's approval once more. *)
Inductive licensed : gc_op → list gc_event → list string → Prop :=
| lic_setup w token before t c e1 e2 :
    chosen (OpSetupGc w token) before t → container_proof c false e1 → container_proof c false e2 →
    licensed (OpSetupGc w token) (before ++ [EvSetupCandidate w t (Ok (Some c)); e1; e2])
      ["container"; "rm"; gc_name c]
| lic_volume w token before t c p1 p2 :
    chosen (OpVolumeGc w token) before t → volume_proof c p1 → volume_proof c p2 →
    licensed (OpVolumeGc w token) (before ++ [EvVolumeCandidate w t (Ok (Some c))] ++ p1 ++ p2)
      ["volume"; "rm"; gc_name c]
| lic_release w token before t c c' p1 p2 :
    chosen (OpVolumeRelease w token) before t → volume_proof c p1 → volume_proof c p2 →
    licensed (OpVolumeRelease w token)
      (before ++ [EvReleaseCandidate w t (Ok (Some c))] ++ p1 ++ p2
        ++ [EvReleaseCandidate w c (Ok (Some c'))])
      ["volume"; "rm"; gc_name c']
| lic_stop op w before t c e1 e2 :
    op_workspace op = Some w → chosen op before t →
    container_proof c true e1 → container_proof c true e2 →
    licensed op (before ++ [EvSetupCandidate w t (Ok (Some c)); e1; e2]) (stop_args c).

Definition all_licensed (op : gc_op) (tr : list gc_event) : Prop :=
  ∀ before args d o answer after, tr = before ++ EvEngine args d o answer :: after →
    read_only args = false → licensed op before args.

Definition mutates (e : gc_event) : bool :=
  match e with EvEngine args _ _ _ => negb (read_only args) | _ => false end.

Lemma licensed_quiet op tr e : all_licensed op tr → mutates e = false → all_licensed op (tr ++ [e]).
Proof.
  intros Hl Hq before args d o answer after Heq Hargs.
  apply snoc_split in Heq as [(-> & -> & ->)|(after' & -> & ->)]; [|by eapply Hl].
  cbn in Hq. by rewrite Hargs in Hq.
Qed.

Lemma licensed_mutation op tr args d o answer :
  all_licensed op tr → licensed op tr args → all_licensed op (tr ++ [EvEngine args d o answer]).
Proof.
  intros Hl Hlic before args' d' o' answer' after Heq Hargs.
  apply snoc_split in Heq as [(-> & [= -> -> -> ->] & ->)|(after' & -> & ->)]; [done|by eapply Hl].
Qed.

Lemma licensed_nil op : all_licensed op [].
Proof. intros before args d o answer after Heq. by destruct before. Qed.

Section licensed.
Context (op : gc_op).
Notation L := (all_licensed op).

Lemma wp_protocol {A} (r : result string A) tr (Q : result GcError A → list gc_event → Prop) :
  (∀ a, r = Ok a → Q (Ok a) tr) → (∀ e, Q (Err e) tr) → wp gc_event_of (protocol r) tr Q.
Proof. intros HOk HErr. destruct r; [by apply HOk|apply HErr]. Qed.

Lemma wp_inspect_container c tr (Q : result GcError (option bool) → list gc_event → Prop) :
  L tr → (∀ e tr', L tr' → Q (Err e) tr') → (∀ tr', L tr' → Q (Ok None) tr') →
  (∀ b e, container_proof c b e → L (tr ++ [e]) → Q (Ok (Some b)) (tr ++ [e])) →
  wp gc_event_of (inspect_setup_gc_container c) tr Q.
Proof.
  intros Hl HErr HNone HSome. apply wp_bind. intros x.
  assert (L (tr ++ [EvEngine (inspect_container_args c) SETUP_GC_ENGINE_DEADLINE
    SETUP_GC_ENGINE_OUTPUT x])) as Hl' by (by apply licensed_quiet).
  apply wp_protocol; [|by intros; apply HErr]. intros [b|] Hr; [|by apply HNone].
  apply read_container_Some in Hr as (r & -> & Hr). by apply HSome; [constructor|].
Qed.

Lemma wp_inspect_volume c tr (Q : result GcError (option bool) → list gc_event → Prop) :
  L tr → (∀ e tr', L tr' → Q (Err e) tr') → (∀ tr', L tr' → Q (Ok None) tr') →
  (∀ tr', L tr' → Q (Ok (Some true)) tr') →
  (∀ p, volume_proof c p → L (tr ++ p) → Q (Ok (Some false)) (tr ++ p)) →
  wp gc_event_of (inspect_manifest_volume_gc c) tr Q.
Proof.
  intros Hl HErr HNone HTrue HSome. apply wp_bind_ok, wp_bind. intros x.
  assert (L (tr ++ [EvEngine (inspect_volume_args c) SETUP_GC_ENGINE_DEADLINE
    SETUP_GC_ENGINE_OUTPUT x])) as Hl1 by (by apply licensed_quiet).
  apply wp_protocol; [|by intros; apply HErr]. intros [[]|] Hr; [|by apply HNone].
  apply read_volume_Some in Hr as (r & -> & Hr). apply wp_bind_ok, wp_bind. intros y.
  assert (L ((tr ++ [EvEngine (inspect_volume_args c) SETUP_GC_ENGINE_DEADLINE
    SETUP_GC_ENGINE_OUTPUT (Some r)]) ++ [EvEngine (attached_args c) SETUP_GC_ENGINE_DEADLINE
    SETUP_GC_ENGINE_OUTPUT y])) as Hl2 by (by apply licensed_quiet).
  apply wp_protocol; [|by intros; apply HErr]. intros [] Hy; [by apply HTrue|].
  apply read_attached_Ok in Hy as (r' & -> & Hr'). cbn [wp gc_event_of] in Hl2 |- *.
  rewrite <- app_assoc in Hl2 |- *. apply HSome; [by constructor|done].
Qed.

Lemma wp_mutate args d o failed tr (Q : result GcError unit → list gc_event → Prop) :
  L tr → licensed op tr args → (∀ r tr', L tr' → Q r tr') →
  wp gc_event_of (mutate (perform (CallEngine args d o)) failed) tr Q.
Proof.
  intros Hl Hlic HQ x. pose proof (licensed_mutation op tr args d o x Hl Hlic) as Hl'.
  destruct x as [r|]; cbn; [destruct (cr_ok r)|]; by apply HQ.
Qed.

Lemma wp_candidate call stale tr (Q : result GcError GcCandidate → list gc_event → Prop) :
  (∀ e, wp gc_event_of call tr (λ _ tr', Q (Err e) tr')) →
  wp gc_event_of call tr (λ r tr', ∀ c, r = Ok (Some c) → Q (Ok c) tr') →
  wp gc_event_of (candidate_or_stale call stale) tr Q.
Proof.
  intros HErr HOk. apply wp_bind_ok. revert tr HErr HOk.
  induction call as [[[c|]|e]|c k IH]; intros tr HErr HOk.
  - by apply HOk.
  - apply (HErr (GcProtocol stale)).
  - apply HErr.
  - intros x. apply IH; [intros e; apply (HErr e)|apply HOk].
Qed.
End licensed.

(** The calls that only read or record keep a trace licensed. *)
Ltac quiet := repeat (apply licensed_quiet; [|done]); assumption.

Lemma licensed_stop op w tr t :
  op_workspace op = Some w → chosen op tr t → all_licensed op tr →
  wp gc_event_of (stop_retired_container w t) tr (λ _ tr', all_licensed op tr').
Proof.
  intros Hw Ht Hl. apply wp_bind_ok, wp_candidate; [intros e x; quiet|].
  intros x c ->. cbn [gc_event_of]. set (e0 := EvSetupCandidate _ _ _).
  apply wp_bind_ok, (wp_inspect_container op); [quiet|done|done|]. intros [] e1 H1 Hl1; [|done].
  apply wp_bind_ok, (wp_inspect_container op); [quiet|done|done|]. intros [] e2 H2 Hl2; [|done].
  cbn [bool_decide negb]. apply wp_bind_ok, (wp_mutate op); [done| |].
  { rewrite <- !app_assoc. by apply (lic_stop op w). }
  intros [[]|e] tr' Hl'; [|done]. apply wp_bind_ok, (wp_inspect_container op); [done..|].
  intros b e H Hl3. case_match; [done|]. intros [[]|]; quiet.
Qed.

Lemma licensed_setup_gc w token :
  wp gc_event_of (apply_setup_gc_candidate w token) []
    (λ _ tr', all_licensed (OpSetupGc w token) tr').
Proof.
  set (op := OpSetupGc w token). assert (Hl := licensed_nil op).
  apply wp_bind_ok, wp_protocol; [|done]. intros t Ht.
  apply wp_bind_ok, wp_candidate; [intros e x; quiet|]. intros x c ->. cbn [gc_event_of].
  set (e0 := EvSetupCandidate _ _ _).
  apply wp_bind_ok, (wp_inspect_container op); [quiet|done|by intros tr' Hl' [[]|]; quiet|].
  intros [] e1 H1 Hl1; [done|].
  apply wp_bind_ok, (wp_inspect_container op); [quiet|done|by intros tr' Hl' [[]|]; quiet|].
  intros [] e2 H2 Hl2; [done|].
  apply wp_bind_ok, (wp_mutate op); [done| |].
  { rewrite <- !app_assoc. by eapply lic_setup. }
  intros [[]|e] tr' Hl'; [|done]. intros [[]|]; quiet.
Qed.

Lemma licensed_volume_gc w token :
  wp gc_event_of (apply_manifest_volume_gc_candidate w token) []
    (λ _ tr', all_licensed (OpVolumeGc w token) tr').
Proof.
  set (op := OpVolumeGc w token). assert (Hl := licensed_nil op).
  apply wp_bind_ok, wp_protocol; [|done]. intros t Ht.
  apply wp_bind_ok, wp_candidate; [intros e x; quiet|]. intros x c ->. cbn [gc_event_of].
  set (e0 := EvVolumeCandidate _ _ _).
  apply wp_bind_ok, (wp_inspect_volume op); [quiet|done|by intros tr' Hl' [[]|]; quiet|done|].
  intros p1 H1 Hl1.
  apply wp_bind_ok, (wp_inspect_volume op); [quiet|done|by intros tr' Hl' [[]|]; quiet|done|].
  intros p2 H2 Hl2. apply wp_bind_ok, (wp_mutate op); [done| |].
  { rewrite <- !app_assoc. by eapply lic_volume. }
  intros [[]|e] tr' Hl'; [|done]. intros [[]|]; quiet.
Qed.

Lemma licensed_volume_release w token :
  wp gc_event_of (apply_manifest_volume_release_candidate w token) []
    (λ _ tr', all_licensed (OpVolumeRelease w token) tr').
Proof.
  set (op := OpVolumeRelease w token). assert (Hl := licensed_nil op).
  apply wp_bind_ok, wp_protocol; [|done]. intros t Ht.
  apply wp_bind_ok, wp_candidate; [intros e x; quiet|]. intros x c ->. cbn [gc_event_of].
  set (e0 := EvReleaseCandidate _ _ _).
  apply wp_bind_ok, (wp_inspect_volume op); [quiet|done|by intros tr' Hl' [[]|]; quiet|done|].
  intros p1 H1 Hl1.
  apply wp_bind_ok, (wp_inspect_volume op); [quiet|done|by intros tr' Hl' [[]|]; quiet|done|].
  intros p2 H2 Hl2. apply wp_bind_ok, wp_candidate; [intros e x; quiet|]. intros x c' ->.
  apply wp_bind_ok, (wp_mutate op); [quiet| |].
  { cbn [gc_event_of]. rewrite <- !app_assoc. by eapply lic_release. }
  intros [[]|e] tr' Hl'; [|done]. intros [[]|]; quiet.
Qed.

Lemma licensed_repair w token :
  wp gc_event_of (repair_missing_setup_reconcile_candidate w token) []
    (λ _ tr', all_licensed (OpRepair w token) tr').
Proof.
  assert (Hl := licensed_nil (OpRepair w token)).
  apply wp_bind_ok, wp_protocol; [|done]. intros t Ht [[]|e]; [| |quiet].
  - intros [[o|]|e]; [quiet| |quiet]. intros [[[]|]|e]; quiet.
  - intros [[[]|]|e]; quiet.
Qed.

Lemma licensed_retired_stop w token :
  wp gc_event_of (stop_setup_retired_candidate w token) []
    (λ _ tr', all_licensed (OpRetiredStop w token) tr').
Proof.
  apply wp_bind_ok, wp_protocol; [|intros; apply licensed_nil]. intros t Ht.
  apply wp_bind_ok. eapply wp_mono; [|by apply (licensed_stop (OpRetiredStop w token)), licensed_nil].
  intros [a|e] tr Hl; [|done]. by apply wp_protocol.
Qed.

Lemma chosen_mono op tr tr' t : tr `prefix_of` tr' → chosen op tr t → chosen op tr' t.
Proof.
  intros [k ->]. destruct op; cbn; try done.
  intros (Hid & after & limit & page & Hin & Ht). split; [done|]. exists after, limit, page.
  split; [|done]. apply elem_of_app. by left.
Qed.

Lemma licensed_stop_each op w retired stops tr :
  op_workspace op = Some w → Forall (chosen op tr) retired → all_licensed op tr →
  wp gc_event_of (stop_each w retired stops) tr (λ _ tr', all_licensed op tr').
Proof.
  intros Hw. revert stops tr. induction retired as [|c retired IH]; intros stops tr Hall Hl; [done|].
  inversion Hall as [|? ? Hc Hrest]; subst. apply wp_bind.
  eapply wp_mono; [|by apply wp_extends, (licensed_stop op)]. intros outcome tr' [Hl' Hp].
  apply IH; [|done]. eapply Forall_impl; [exact Hrest|]. intros t. by apply chosen_mono.
Qed.

Lemma retired_chosen fuel w stack limit after retired tr :
  let op := OpStackStop limit w stack in
  Forall (chosen op tr) retired → all_licensed op tr →
  wp gc_event_of
    (retired_of_stack fuel w (setup_container_resource_id "manifest-container" stack "") after
      retired) tr
    (λ r tr', all_licensed op tr' ∧
      match r with Some (Ok retired') => Forall (chosen op tr') retired' | _ => True end).
Proof.
  intros op. revert after retired tr. induction fuel as [|fuel IH]; intros after retired tr Hall Hl;
    [done|]. intros [page|e]; [|split; [quiet|done]]. cbn [prog_bind].
  set (tr1 := tr ++ _). assert (all_licensed op tr1) as Hl1 by quiet.
  assert (Forall (chosen op tr1) (retired ++ filterb (λ c, starts_with
    (setup_container_resource_id "manifest-container" stack "") (gc_id c)) (pg_candidates page)))
    as Hall1.
  { apply Forall_app. split.
    - eapply Forall_impl; [exact Hall|]. intros t. apply chosen_mono. by apply prefix_app_r.
    - apply Forall_forall. intros t Ht. apply list_elem_of_filter in Ht as [Hpre Hin].
      split; [exact Hpre|]. exists after, MAX_REGISTRY_DIAGNOSTIC_PAGE, page.
      split; [|done]. apply elem_of_app. right. by left. }
  destruct (pg_next page) as [next|]; [by apply IH|done].
Qed.

Lemma licensed_stack_stop fuel w stack :
  wp gc_event_of (stop_retired_stack_containers fuel w stack) []
    (λ _ tr', all_licensed (OpStackStop fuel w stack) tr').
Proof.
  apply wp_bind. eapply wp_mono; [|by apply (retired_chosen fuel w stack fuel), licensed_nil].
  intros [[retired|e]|] tr [Hl Hall]; [|done..]. apply wp_bind.
  eapply wp_mono; [|by apply (licensed_stop_each (OpStackStop fuel w stack))]. done.
Qed.

Lemma all_runs_licensed op env r tr :
  gc_run env op = (r, tr) → all_licensed op tr.
Proof.
  intros Hrun. unfold gc_run in Hrun.
  assert (wp gc_event_of (gc_program op) [] (λ _ tr', all_licensed op tr')) as Hwp.
  { destruct op; [apply licensed_setup_gc|apply licensed_volume_gc|apply licensed_volume_release
      |apply licensed_repair|apply licensed_retired_stop|apply licensed_stack_stop]. }
  apply (run_wp gc_event_of env) in Hwp. by rewrite Hrun in Hwp.
Qed.

(** The registry answers a question about a candidate with that candidate or not at all, as
    [manifest_volume_release_candidate] does. *)
Definition answers_the_question (env : list gc_event → ∀ c, gc_answer c) : Prop :=
  ∀ tr w t c, env tr (CallReleaseCandidate w t) = Ok (Some c) → c = t.

(** C18. Whatever the registry and Docker answer, every Docker command of these operations that is
    not a read was licensed: directly before it the registry approved the candidate the client
    named (for a stack, a candidate it listed whose ID is of that stack), and two successive
    inspections proved the object of that approval to be Bosn's own and, to remove a container,
    stopped; to stop one, running; to remove a volume, attached to no container. The command names
    that object. A release has the registry asked again after the inspections and names the volume
    of this second answer, which is the inspected one if the registry answers the question it was
    asked. A repair sends Docker nothing but reads. *)
Theorem gc_mutations_licensed op env r tr before args d o answer after :
  gc_run env op = (r, tr) → tr = before ++ EvEngine args d o answer :: after →
  read_only args = false →
  licensed op before args ∧
  (answers_the_question env → ∀ earlier w c c',
     before = earlier ++ [EvReleaseCandidate w c (Ok (Some c'))] → c' = c).
Proof.
  intros Hrun Htr Hargs. split; [by apply (all_runs_licensed op env r tr Hrun before args d o answer after)|].
  intros Hexact earlier w c c' ->.
  destruct (run_event gc_event_of env (gc_program op) [] earlier (EvReleaseCandidate w c (Ok (Some c')))
    (EvEngine args d o answer :: after)) as [call Hcall]; [|apply prefix_nil|].
  { unfold gc_run in Hrun. rewrite Hrun. cbn. by rewrite Htr, <- app_assoc. }
  destruct call; try done. injection Hcall as -> -> Hcall. symmetry in Hcall. by apply (Hexact _ _ _ _ Hcall).
Qed.

(** ** What a removal reports *)

Definition quiet_trace (tr : list gc_event) : Prop := Forall (λ e, mutates e = false) tr.

(** The runs a removal may have, with whether it reports the object as removed by it: [rm] is
    its removal command, [look] its inspection and [fin] its registry record. *)
Inductive removal_run (look rm : GcCandidate → list string)
    (fin : GcCandidate → bool → result GcError bool → gc_event) :
    result GcError bool → list gc_event → Prop :=
| rm_refused tr e : quiet_trace tr → removal_run look rm fin (Err e) tr
| rm_reconciled tr c d o a :
    quiet_trace tr → reports_missing a = true →
    removal_run look rm fin (Ok false)
      (tr ++ [EvEngine (look c) d o (Some a); fin c true (Ok true)])
| rm_engine_failed tr c d o a e :
    quiet_trace tr → (∀ r, a = Some r → cr_exit_code r ≠ 0) →
    removal_run look rm fin (Err e) (tr ++ [EvEngine (rm c) d o a])
| rm_unrecorded tr c d o r x e :
    quiet_trace tr → cr_exit_code r = 0 → x ≠ Ok true →
    removal_run look rm fin (Err e) (tr ++ [EvEngine (rm c) d o (Some r); fin c false x])
| rm_removed tr c d o r :
    quiet_trace tr → cr_exit_code r = 0 →
    removal_run look rm fin (Ok true) (tr ++ [EvEngine (rm c) d o (Some r); fin c false (Ok true)]).

Definition map_ok {E A B} (f : A → B) (r : result E A) : result E B :=
  match r with Ok a => Ok (f a) | Err e => Err e end.

Lemma quiet_snoc tr e : quiet_trace tr → mutates e = false → quiet_trace (tr ++ [e]).
Proof. intros. apply Forall_app. by repeat constructor. Qed.

Lemma wp_inspect_container_report c tr (Q : result GcError (option bool) → list gc_event → Prop) :
  quiet_trace tr → (∀ e tr', quiet_trace tr' → Q (Err e) tr') →
  (∀ b tr', quiet_trace tr' → Q (Ok (Some b)) tr') →
  (∀ d o a, reports_missing a = true →
     Q (Ok None) (tr ++ [EvEngine (inspect_container_args c) d o (Some a)])) →
  wp gc_event_of (inspect_setup_gc_container c) tr Q.
Proof.
  intros Hq HErr HSome HNone x. set (e := gc_event_of _ x).
  assert (quiet_trace (tr ++ [e])) as Hq1 by (by apply quiet_snoc).
  apply wp_protocol; [|by intros; apply HErr]. intros [b|] Hr; [by apply HSome|].
  destruct x as [a|]; [|done]. apply HNone. cbn [read_container] in Hr.
  destruct (reports_missing a); [done|]. repeat case_match; discriminate.
Qed.

Lemma wp_inspect_volume_report c tr (Q : result GcError (option bool) → list gc_event → Prop) :
  quiet_trace tr → (∀ e tr', quiet_trace tr' → Q (Err e) tr') →
  (∀ b tr', quiet_trace tr' → Q (Ok (Some b)) tr') →
  (∀ d o a, reports_missing a = true →
     Q (Ok None) (tr ++ [EvEngine (inspect_volume_args c) d o (Some a)])) →
  wp gc_event_of (inspect_manifest_volume_gc c) tr Q.
Proof.
  intros Hq HErr HSome HNone. apply wp_bind_ok. intros x. set (e := gc_event_of _ x).
  assert (quiet_trace (tr ++ [e])) as Hq1 by (by apply quiet_snoc).
  apply wp_protocol; [|by intros; apply HErr]. intros [[]|] Hr.
  - apply wp_bind_ok. intros y. apply wp_protocol; intros; (apply HSome || apply HErr);
      by apply quiet_snoc.
  - destruct x as [a|]; [|done]. apply HNone. cbn [read_volume] in Hr.
    destruct (reports_missing a); [done|]. repeat case_match; discriminate.
Qed.

Section removal.
Context (look rm : GcCandidate → list string).
Context (fin : GcCandidate → bool → result GcError bool → gc_event).
Context (record : GcCandidate → bool → gc_prog bool).
Context (wp_record : ∀ c missing tr Q,
  (∀ x, Q x (tr ++ [fin c missing x])) → wp gc_event_of (record c missing) tr Q).
Context (fin_quiet : ∀ c missing x, mutates (fin c missing x) = false).
Context {A : Type} (removed : A → bool).
Notation removal := (removal_run look rm fin).

(** The end of a removal: the command, then the registry's record of it. *)
Lemma removal_tail (outcome : A) failed stale c d o tr :
  quiet_trace tr → removed outcome = true →
  wp gc_event_of
    (bind_ok (mutate (perform (CallEngine (rm c) d o)) failed)
       (λ _, finalize (record c false) outcome stale)) tr
    (λ r tr', removal (map_ok removed r) tr').
Proof.
  intros Hq Hout. apply wp_bind_ok. intros x.
  destruct x as [r|]; cbn; [destruct (cr_ok r) eqn:Hok|].
  - apply Z.eqb_eq in Hok. apply wp_bind_ok, wp_record.
    intros [[]|e]; cbn; rewrite <- app_assoc, ?Hout; by constructor.
  - apply rm_engine_failed; [done|]. intros r' [= <-]. by apply Z.eqb_neq.
  - by apply rm_engine_failed.
Qed.

(** An object found missing is only recorded as gone. *)
Lemma removal_missing (outcome : A) stale c d o a tr :
  quiet_trace tr → removed outcome = false → reports_missing a = true →
  read_only (look c) = true →
  wp gc_event_of (finalize (record c true) outcome stale) (tr ++ [EvEngine (look c) d o (Some a)])
    (λ r tr', removal (map_ok removed r) tr').
Proof.
  intros Hq Hout Ha Hlook. apply wp_bind_ok, wp_record.
  assert (quiet_trace (tr ++ [EvEngine (look c) d o (Some a)])) as Hq1
    by (apply quiet_snoc; [done|]; cbn; by rewrite Hlook).
  intros [[]|e]; cbn; rewrite ?Hout.
  - rewrite <- app_assoc. by constructor.
  - apply rm_refused. by apply quiet_snoc.
  - apply rm_refused. by apply quiet_snoc.
Qed.
End removal.

Ltac calm := repeat (apply quiet_snoc; [|done]); assumption.

Lemma setup_gc_run w token :
  wp gc_event_of (apply_setup_gc_candidate w token) []
    (λ r tr, removal_run inspect_container_args (λ c, ["container"; "rm"; gc_name c])
       (EvFinalizeSetup w) (map_ok ga_removed r) tr).
Proof.
  assert (Hq : quiet_trace []) by constructor.
  assert (Hrec : ∀ c m tr Q, (∀ x, Q x (tr ++ [EvFinalizeSetup w c m x])) →
    wp gc_event_of (perform (CallFinalizeSetup w c m)) tr Q) by (intros c m tr Q H x; apply H).
  pose proof (removal_missing inspect_container_args (λ c, ["container"; "rm"; gc_name c]) (EvFinalizeSetup w)
    (λ c m, perform (CallFinalizeSetup w c m)) Hrec (λ _ _ _, eq_refl) ga_removed) as Hmissing.
  pose proof (removal_tail inspect_container_args (λ c, ["container"; "rm"; gc_name c]) (EvFinalizeSetup w)
    (λ c m, perform (CallFinalizeSetup w c m)) Hrec ga_removed) as Htail.
  apply wp_bind_ok, wp_protocol; [|by intros; apply rm_refused]. intros t Ht.
  apply wp_bind_ok, wp_candidate; [intros e x; apply rm_refused; calm|]. intros x c ->.
  apply wp_bind_ok, wp_inspect_container_report; [calm|by intros; apply rm_refused| |].
  2: { intros d o a Ha. apply Hmissing; [calm|done..]. }
  intros [] tr Hq1; [by apply rm_refused|].
  apply wp_bind_ok, wp_inspect_container_report; [calm|by intros; apply rm_refused| |].
  2: { intros d o a Ha. apply Hmissing; [calm|done..]. }
  intros [] tr2 Hq2; [by apply rm_refused|]. apply Htail; [calm|done].
Qed.

Lemma volume_gc_run w token :
  wp gc_event_of (apply_manifest_volume_gc_candidate w token) []
    (λ r tr, removal_run inspect_volume_args (λ c, ["volume"; "rm"; gc_name c])
       (EvFinalizeVolume w) (map_ok va_removed r) tr).
Proof.
  assert (Hq : quiet_trace []) by constructor.
  assert (Hrec : ∀ c m tr Q, (∀ x, Q x (tr ++ [EvFinalizeVolume w c m x])) →
    wp gc_event_of (perform (CallFinalizeVolume w c m)) tr Q) by (intros c m tr Q H x; apply H).
  pose proof (removal_missing inspect_volume_args (λ c, ["volume"; "rm"; gc_name c]) (EvFinalizeVolume w)
    (λ c m, perform (CallFinalizeVolume w c m)) Hrec (λ _ _ _, eq_refl) va_removed) as Hmissing.
  pose proof (removal_tail inspect_volume_args (λ c, ["volume"; "rm"; gc_name c]) (EvFinalizeVolume w)
    (λ c m, perform (CallFinalizeVolume w c m)) Hrec va_removed) as Htail.
  apply wp_bind_ok, wp_protocol; [|by intros; apply rm_refused]. intros t Ht.
  apply wp_bind_ok, wp_candidate; [intros e x; apply rm_refused; calm|]. intros x c ->.
  apply wp_bind_ok, wp_inspect_volume_report; [calm|by intros; apply rm_refused| |].
  2: { intros d o a Ha. apply Hmissing; [calm|done..]. }
  intros [] tr Hq1; [by apply rm_refused|].
  apply wp_bind_ok, wp_inspect_volume_report; [calm|by intros; apply rm_refused| |].
  2: { intros d o a Ha. apply Hmissing; [calm|done..]. }
  intros [] tr2 Hq2; [by apply rm_refused|]. apply Htail; [calm|done].
Qed.

Lemma volume_release_run w token :
  wp gc_event_of (apply_manifest_volume_release_candidate w token) []
    (λ r tr, removal_run inspect_volume_args (λ c, ["volume"; "rm"; gc_name c])
       (EvFinalizeRelease w) (map_ok va_removed r) tr).
Proof.
  assert (Hq : quiet_trace []) by constructor.
  assert (Hrec : ∀ c m tr Q, (∀ x, Q x (tr ++ [EvFinalizeRelease w c m x])) →
    wp gc_event_of (perform (CallFinalizeRelease w c m)) tr Q) by (intros c m tr Q H x; apply H).
  pose proof (removal_missing inspect_volume_args (λ c, ["volume"; "rm"; gc_name c]) (EvFinalizeRelease w)
    (λ c m, perform (CallFinalizeRelease w c m)) Hrec (λ _ _ _, eq_refl) va_removed) as Hmissing.
  pose proof (removal_tail inspect_volume_args (λ c, ["volume"; "rm"; gc_name c]) (EvFinalizeRelease w)
    (λ c m, perform (CallFinalizeRelease w c m)) Hrec va_removed) as Htail.
  apply wp_bind_ok, wp_protocol; [|by intros; apply rm_refused]. intros t Ht.
  apply wp_bind_ok, wp_candidate; [intros e x; apply rm_refused; calm|]. intros x c ->.
  apply wp_bind_ok, wp_inspect_volume_report; [calm|by intros; apply rm_refused| |].
  2: { intros d o a Ha. apply Hmissing; [calm|done..]. }
  intros [] tr Hq1; [by apply rm_refused|].
  apply wp_bind_ok, wp_inspect_volume_report; [calm|by intros; apply rm_refused| |].
  2: { intros d o a Ha. apply Hmissing; [calm|done..]. }
  intros [] tr2 Hq2; [by apply rm_refused|].
  apply wp_bind_ok, wp_candidate; [intros e x; apply rm_refused; calm|]. intros x c' ->.
  apply Htail; [calm|done].
Qed.

(** The removals implement one protocol: a run reports "removed" exactly when its own command
    exited with zero and the registry recorded it, "reconciled" only when Docker itself
    reported the object missing and nothing was changed, and an error either left everything
    as it was or tells of a command that failed or a record that could not be made. *)
Theorem removals_follow_the_protocol env w token :
  (let run := gc_run env (OpSetupGc w token) in
   removal_run inspect_container_args (λ c, ["container"; "rm"; gc_name c]) (EvFinalizeSetup w)
     (map_ok ga_removed run.1) run.2) ∧
  (let run := gc_run env (OpVolumeGc w token) in
   removal_run inspect_volume_args (λ c, ["volume"; "rm"; gc_name c]) (EvFinalizeVolume w)
     (map_ok va_removed run.1) run.2) ∧
  (let run := gc_run env (OpVolumeRelease w token) in
   removal_run inspect_volume_args (λ c, ["volume"; "rm"; gc_name c]) (EvFinalizeRelease w)
     (map_ok va_removed run.1) run.2).
Proof.
  split_and!.
  - exact (run_wp gc_event_of env _ _ _ (setup_gc_run w token)).
  - exact (run_wp gc_event_of env _ _ _ (volume_gc_run w token)).
  - exact (run_wp gc_event_of env _ _ _ (volume_release_run w token)).
Qed.

(** ** A run that removes a container *)

Definition exited (code : Z) (stdout stderr : string) : CommandResult :=
  {| cr_exit_code := code; cr_stdout := stdout; cr_stderr := stderr |}.
Definition stopped_output : string :=
  str_join (String tab "") ["/bosn-a"; "false"; "v1"; "ff"; "bosn-a"] +:+ String lf "".

Definition sample_docker (_ : list gc_event) (c : gc_call) : gc_answer c :=
  match c with
  | CallEngine args _ _ => Some (exited 0 (if read_only args then stopped_output else "") "")
  | CallSetupCandidate _ t | CallVolumeCandidate _ t | CallReleaseCandidate _ t => Ok (Some t)
  | CallFinalizeSetup _ _ _ | CallFinalizeVolume _ _ _ | CallFinalizeRelease _ _ _
  | CallConfirmStopped _ _ | CallRepairCandidate _ _ => Ok true
  | CallRepairMissing _ _ => Ok None
  | CallReconcileInspect _ => Ok None
  | CallPreview _ _ _ => Ok {| pg_next := None; pg_candidates := [] |}
  end.
Definition sample_op : gc_op := OpSetupGc "/w" (setup_gc_token sample_candidate).
Definition sample_inspection : gc_event :=
  EvEngine (inspect_container_args sample_candidate) 5 16384 (Some (exited 0 stopped_output "")).
Definition sample_before : list gc_event :=
  [EvSetupCandidate "/w" sample_candidate (Ok (Some sample_candidate)); sample_inspection;
   sample_inspection].

Lemma gc_mutations_licensed_witness :
  licensed sample_op sample_before ["container"; "rm"; "bosn-a"] ∧
  (gc_run sample_docker sample_op).1 = Ok gc_removed.
Proof.
  split; [|vm_compute; reflexivity].
  refine (proj1 _). eapply (gc_mutations_licensed sample_op sample_docker (Ok gc_removed)
    (sample_before ++ [EvEngine ["container"; "rm"; "bosn-a"] 5 16384 (Some (exited 0 "" ""));
       EvFinalizeSetup "/w" sample_candidate false (Ok true)])
    sample_before ["container"; "rm"; "bosn-a"] 5 16384 (Some (exited 0 "" ""))
    [EvFinalizeSetup "/w" sample_candidate false (Ok true)]);
    [vm_compute; reflexivity|reflexivity..].
Defined.

(** Only Docker's own answer counts as absence. *)
Example missing_answer :
  reports_missing (exited 1 "" ("Error: No such container: bosn-a" +:+ String lf "")) = true ∧
  reports_missing (exited 1 "" "Cannot connect to the Docker daemon") = false ∧
  reports_missing (exited 1 "" "") = false.
Proof. vm_compute. done. Qed.
