(* ===== verification/GcRegistry.v ===== *)
(** * GcRegistry: collection against the registry

    The composition of [GcApply] with [Registry]: the registry calls of a collection are
    answered by the registry's own queries on its tables, which other work may change between
    any two calls. What Docker is told to remove or stop was, when the registry approved it,
    unprotected in those tables; and the sweep of a retired stack ends and misses nothing. *)

From S2P Require Import Effects.
From S2P Require Import GcApply.
From S2P Require Import RegistryTheorems.

Local Open Scope string_scope.
Local Open Scope list_scope.
Local Open Scope Z_scope.
Local Open Scope bosn_scope.

(** What [setup_gc_preview_diagnostic] passes on of a preview. *)
Definition preview_page (p : SetupGcPreview) : SetupGcPreviewPage :=
  {| pg_next := pa_next_offset (gv_candidates p); pg_candidates := pa_items (gv_candidates p) |}.

(** The tables in which the registry answers a call made after the events [tr]. *)
Record registry_answers (env : list gc_event → ∀ c, gc_answer c) (db_at : list gc_event → Db) :
    Prop := {
  ra_wf tr : db_wf (db_at tr);
  ra_setup tr w t c : env tr (CallSetupCandidate w t) = Ok (Some c) →
    setup_gc_candidate (db_at tr) w t = Some c;
  ra_volume tr w t c : env tr (CallVolumeCandidate w t) = Ok (Some c) →
    manifest_volume_gc_candidate (db_at tr) w t = Some c;
  ra_release tr w t c : env tr (CallReleaseCandidate w t) = Ok (Some c) →
    manifest_volume_release_candidate (db_at tr) w t = Some c;
}.

(** Nothing in the tables stands against what [op] does to the object [name]. *)
Definition expendable (d : Db) (op : gc_op) (name : string) : Prop :=
  ∃ r, db_resources d !! re_id r = Some r ∧ re_name r = name ∧ unprotected d r ∧
  match op with
  | OpSetupGc w _ | OpRetiredStop w _ | OpStackStop _ w _ =>
      re_kind r = Container ∧ re_state r = Retired ∧ only_used d w r Retired
  | OpVolumeGc w _ =>
      re_kind r = Volume ∧ re_state r = Retired ∧ re_scope r = Spec ∧ re_retention r = Warm ∧
      only_used d w r Retired
  | OpVolumeRelease w _ =>
      re_kind r = Volume ∧ re_state r = Active ∧ (re_scope r ≠ Spec ∨ re_retention r = Pinned) ∧
      only_used d w r Active
  | OpRepair _ _ => False
  end.

Lemma expendable_setup d op w t c :
  match op with
  | OpSetupGc w' _ | OpRetiredStop w' _ | OpStackStop _ w' _ => w' = w
  | _ => False
  end →
  db_wf d → setup_gc_candidate d w t = Some c → expendable d op (gc_name c).
Proof.
  intros Hop Hwf Hc. apply setup_candidate_row in Hc as (-> & r & Hr & <- & Hw); [|done].
  unfold setup_gc_where in Hw. conds. exists r. split_and!; [done..|by apply unprotected_intro|].
  destruct op; subst; try done; split_and!; try done; by apply owned_use_true.
Qed.

Lemma expendable_volume d w token t c :
  db_wf d → manifest_volume_gc_candidate d w t = Some c →
  expendable d (OpVolumeGc w token) (gc_name c).
Proof.
  intros Hwf. unfold manifest_volume_gc_candidate.
  destruct (manifest_volume_gc_candidate_exists d w t) eqn:E; [|done]. intros [= <-].
  apply candidate_row in E as (r & Hr & <- & Hw); [|done]. unfold volume_gc_where in Hw. conds.
  exists r. split_and!; try done; [by apply unprotected_intro|by apply owned_generation_use_true].
Qed.

Lemma expendable_release d w token t c :
  db_wf d → manifest_volume_release_candidate d w t = Some c →
  expendable d (OpVolumeRelease w token) (gc_name c).
Proof.
  intros Hwf. unfold manifest_volume_release_candidate.
  destruct (manifest_volume_release_candidate_exists d w t) eqn:E; [|done]. intros [= <-].
  apply candidate_row in E as (r & Hr & <- & Hw); [|done].
  exists r. pose proof Hw as Hw'. unfold volume_release_where in Hw'. conds.
  split_and!; try done; [by apply unprotected_intro| |by apply owned_generation_use_true].
  match goal with H : _ || _ || _ = true |- _ => rewrite !orb_true_iff, !bool_decide_eq_true in H;
    destruct H as [[->| ->]| ->]; [left; done..|by right] end.
Qed.

(** C19. Collection and the registry together: whenever one of the operations has Docker remove or
    stop something, the registry had approved that very object earlier in the same operation,
    and in the tables as they were then the object was retired (for an explicit release: active
    and durable), used by nothing but this workspace's own uses in that state, and held by no
    lease and no execution session. *)
Theorem collected_objects_were_unprotected env db_at op r tr before args d o answer after :
  registry_answers env db_at → gc_run env op = (r, tr) →
  tr = before ++ EvEngine args d o answer :: after → read_only args = false →
  ∃ earlier name, earlier `prefix_of` before ∧ last args = Some name ∧
    expendable (db_at earlier) op name.
Proof.
  intros [Hwf Hsetup Hvolume Hrelease] Hrun Htr Hargs.
  assert (licensed op before args) as Hlic by (eapply (all_runs_licensed op env); eauto).
  assert (∀ earlier e rest, before = earlier ++ e :: rest →
    ∃ c, e = gc_event_of c (env earlier c)) as Hev.
  { intros earlier e rest ->. unfold gc_run in Hrun.
    apply (run_event gc_event_of env (gc_program op) [] earlier e
      (rest ++ EvEngine args d o answer :: after)); [|apply prefix_nil].
    rewrite Hrun. cbn. rewrite Htr, <- app_assoc. done. }
  destruct Hlic as [w token earlier t c e1 e2 Ht H1 H2|w token earlier t c p1 p2 Ht H1 H2
    |w token earlier t c c' p1 p2 Ht H1 H2|op w earlier t c e1 e2 Hw Ht H1 H2].
  - destruct (Hev earlier _ _ eq_refl) as [[] Hc]; try done. injection Hc as -> -> Hc.
    exists earlier, (gc_name c). split; [by apply prefix_app_r|]. split; [done|].
    by eapply expendable_setup; eauto.
  - destruct (Hev earlier _ _ eq_refl) as [[] Hc]; try done. injection Hc as -> -> Hc.
    exists earlier, (gc_name c). split; [by apply prefix_app_r|]. split; [done|].
    eapply expendable_volume; eauto.
  - set (earlier' := earlier ++ [EvReleaseCandidate w t (Ok (Some c))] ++ p1 ++ p2).
    destruct (Hev earlier' (EvReleaseCandidate w c (Ok (Some c'))) []) as [[] Hc]; try done.
    { unfold earlier'. by rewrite <- !app_assoc. }
    injection Hc as -> -> Hc. exists earlier', (gc_name c'). split.
    { unfold earlier'. exists [EvReleaseCandidate workspace c0 (Ok (Some c'))]. by rewrite <- !app_assoc. }
    split; [done|]. eapply expendable_release; eauto.
  - destruct (Hev earlier _ _ eq_refl) as [[] Hc]; try done. injection Hc as -> -> Hc.
    exists earlier, (gc_name c). split; [by apply prefix_app_r|]. split; [done|].
    eapply (expendable_setup _ op); eauto. destruct op; cbn in Hw; by simplify_eq.
Qed.

(** ** The sweep of a stack *)

(** The candidates an operation had the registry recheck, in order. *)
Definition rechecked (tr : list gc_event) : list GcCandidate :=
  omap (λ e, match e with EvSetupCandidate _ c _ => Some c | _ => None end) tr.

Lemma rechecked_snoc tr e :
  rechecked (tr ++ [e]) = rechecked tr ++ rechecked [e].
Proof. apply omap_app. Qed.

Lemma rechecked_other tr e : rechecked [e] = [] → rechecked (tr ++ [e]) = rechecked tr.
Proof. intros H. by rewrite rechecked_snoc, H, app_nil_r. Qed.

Lemma wp_inspect_rechecked c tr (Q : result GcError (option bool) → list gc_event → Prop) :
  (∀ r tr', rechecked tr' = rechecked tr → Q r tr') →
  wp gc_event_of (inspect_setup_gc_container c) tr Q.
Proof.
  intros HQ. apply wp_bind. intros x. apply wp_protocol; intros; apply HQ; by apply rechecked_other.
Qed.

Lemma wp_mutate_rechecked args d o failed tr (Q : result GcError unit → list gc_event → Prop) :
  (∀ r tr', rechecked tr' = rechecked tr → Q r tr') →
  wp gc_event_of (mutate (perform (CallEngine args d o)) failed) tr Q.
Proof.
  intros HQ x. destruct x as [r|]; cbn; [destruct (cr_ok r)|]; apply HQ; by apply rechecked_other.
Qed.

(** Stopping a candidate rechecks it once, and nothing else. *)
Lemma stop_rechecks w c tr :
  wp gc_event_of (stop_retired_container w c) tr (λ _ tr', rechecked tr' = rechecked tr ++ [c]).
Proof.
  apply wp_bind_ok, wp_candidate; [intros e x; apply rechecked_snoc|]. intros x c' ->.
  set (tr0 := tr ++ _). assert (rechecked tr0 = rechecked tr ++ [c]) as <- by apply rechecked_snoc.
  clearbody tr0.
  apply wp_bind_ok, wp_inspect_rechecked. intros [[[]|]|e1] tr1 <-; [|done..].
  apply wp_bind_ok, wp_inspect_rechecked. intros [second|e2] tr2 <-; [|done].
  case_match; [done|]. apply wp_bind_ok, wp_mutate_rechecked. intros [[]|e2] tr3 <-; [|done].
  apply wp_bind_ok, wp_inspect_rechecked. intros [third|e3] tr4 <-; [|done].
  case_match; [done|]. intros [[]|]; by apply rechecked_other.
Qed.

Lemma stop_each_rechecks w retired stops tr :
  wp gc_event_of (stop_each w retired stops) tr (λ _ tr', rechecked tr' = rechecked tr ++ retired).
Proof.
  revert stops tr. induction retired as [|c retired IH]; intros stops tr.
  { cbn. by rewrite app_nil_r. }
  apply wp_bind. eapply wp_mono; [|apply stop_rechecks]. intros outcome tr1 H1.
  eapply wp_mono; [|apply IH]. cbn. intros _ tr2 ->. by rewrite H1, <- app_assoc.
Qed.

(** Previews are answered from the tables [d]. *)
Definition previews_from (env : list gc_event → ∀ c, gc_answer c) (d : Db) : Prop :=
  ∀ tr w after limit, ∃ e, env tr (CallPreview w after limit) =
    match setup_gc_preview d w after limit with Ok p => Ok (preview_page p) | Err _ => Err e end.

Lemma retired_of_stack_lists env d w prefix fuel after retired tr :
  let rows := select_candidates d (setup_gc_where d w) in
  previews_from env d → Z.of_nat (length rows) ≤ i64_max → 0 ≤ after ≤ Z.of_nat (length rows) →
  (length rows - Z.to_nat after < fuel)%nat →
  let r := run gc_event_of env (retired_of_stack fuel w prefix after retired) tr in
  r.1 = Some (Ok (retired ++
    filterb (λ c, starts_with prefix (gc_id c)) (drop (Z.to_nat after) rows))) ∧
  rechecked r.2 = rechecked tr.
Proof.
  intros rows Henv Hmax. revert after retired tr.
  induction fuel as [|fuel IH]; intros after retired tr Hafter Hfuel; [lia|].
  cbn [retired_of_stack perform prog_bind run].
  destruct (Henv tr w after MAX_REGISTRY_DIAGNOSTIC_PAGE) as [e ->].
  unfold setup_gc_preview, page_rows. fold rows. rewrite (proj2 (Z.ltb_ge _ _)) by lia.
  change (Z.min _ MAX_PAGE_SIZE) with 64. cbn [pg_next pg_candidates preview_page gv_candidates
    pa_next_offset pa_items].
  rewrite length_take, length_drop, take_take. change (Z.to_nat 64 `min` Z.to_nat (64 + 1))%nat with 64%nat.
  set (tr1 := tr ++ _). assert (rechecked tr1 = rechecked tr) as <- by by apply rechecked_other.
  destruct (64 <? _) eqn:E.
  - apply Z.ltb_lt in E.
    edestruct (IH (after + 64) (retired ++ filterb (λ c, starts_with prefix (gc_id c))
      (take 64 (drop (Z.to_nat after) rows))) tr1) as [H1 H2]; [lia..|]. split; [|exact H2].
    rewrite H1, <- app_assoc. do 3 f_equal. rewrite <- filterb_app. f_equal.
    rewrite Z2Nat.inj_add by lia. rewrite <- drop_drop. apply take_drop.
  - apply Z.ltb_ge in E. cbn. split; [|done]. do 3 f_equal. rewrite take_ge; [done|].
    rewrite length_drop. lia.
Qed.

(** C21. The sweep of a stack ends and misses nothing, as long as its pages are read from one state
    of the registry: every preview succeeds and reads the same tables ([previews_from]; with
    offsets, rows that come or go between two pages could be missed or repeated). Then, with one
    turn more than there are retired candidates in the workspace, the page loop of
    [stop_retired_stack_containers] comes to its end whatever Docker and the rest of the registry
    answer, the sweep reports a result rather than an error, and the candidates it rechecked and
    tried to stop are exactly the stack's retired containers that nothing protects, each once and
    in the order of their ids. *)
Theorem stack_sweep_is_complete env d fuel w stack :
  let rows := select_candidates d (setup_gc_where d w) in
  previews_from env d → Z.of_nat (length rows) ≤ i64_max → (length rows < fuel)%nat →
  ∃ stops tr, gc_run env (OpStackStop fuel w stack) = (Some (Ok stops), tr) ∧
    rechecked tr = filterb (λ c, starts_with ("manifest-container:" +:+ stack +:+ ":") (gc_id c)) rows.
Proof.
  intros rows Henv Hmax Hfuel.
  set (prefix := setup_container_resource_id "manifest-container" stack "").
  pose proof (retired_of_stack_lists env d w prefix fuel 0 [] [] Henv Hmax) as Hlist.
  destruct (run gc_event_of env (retired_of_stack fuel w prefix 0 []) []) as [retired tr1] eqn:E1.
  fold rows in Hlist. destruct Hlist as [H1 H2]; [lia..|]. cbn [fst snd app] in H1, H2. rewrite drop_0 in H1. fold rows in H1.
  set (sel := filterb _ rows) in H1. subst retired.
  pose proof (run_wp gc_event_of env _ tr1 _
    (stop_each_rechecks w sel {| rs_stopped := []; rs_failed := [] |} tr1)) as H3.
  destruct (run gc_event_of env (stop_each w sel _) tr1) as [stops tr2] eqn:E2. cbn [fst snd] in H3.
  exists stops, tr2. split; [|rewrite H3, H2; cbn; unfold sel, prefix; done].
  unfold gc_run. cbn [gc_program]. unfold stop_retired_stack_containers. fold prefix.
  rewrite run_bind, E1, run_bind, E2. done.
Qed.

(** ** A collection against concrete tables *)

Definition old_setup_output : string :=
  str_join (String tab "") ["/bosn-setup-a"; "false"; "v1"; "a"; "bosn-setup-a"].

Definition answers_from (d : Db) (_ : list gc_event) (c : gc_call) : gc_answer c :=
  match c with
  | CallEngine args _ _ => Some (exited 0 (if read_only args then old_setup_output else "") "")
  | CallSetupCandidate w t => Ok (setup_gc_candidate d w t)
  | CallVolumeCandidate w t => Ok (manifest_volume_gc_candidate d w t)
  | CallReleaseCandidate w t => Ok (manifest_volume_release_candidate d w t)
  | CallFinalizeSetup _ _ _ | CallFinalizeVolume _ _ _ | CallFinalizeRelease _ _ _
  | CallConfirmStopped _ _ | CallRepairCandidate _ _ => Ok true
  | CallRepairMissing _ _ => Ok None
  | CallReconcileInspect _ => Ok None
  | CallPreview w after limit =>
      match setup_gc_preview d w after limit with
      | Ok p => Ok (preview_page p)
      | Err _ => Err (GcProtocol "registry")
      end
  end.

Lemma answers_from_registry d : db_wf d → registry_answers (answers_from d) (λ _, d).
Proof. intros Hwf. split; [done|by intros tr w t c [=]..]. Qed.

Definition old_setup_op : gc_op := OpSetupGc "/w" (setup_gc_token old_setup).
Definition old_setup_inspection : gc_event :=
  EvEngine (inspect_container_args old_setup) 5 16384 (Some (exited 0 old_setup_output "")).
Definition before_removal : list gc_event :=
  [EvSetupCandidate "/w" old_setup (Ok (Some old_setup)); old_setup_inspection; old_setup_inspection].

Lemma collected_objects_were_unprotected_witness :
  ∃ earlier name, earlier `prefix_of` before_removal ∧
    last ["container"; "rm"; "bosn-setup-a"] = Some name ∧ expendable sample_db old_setup_op name.
Proof.
  apply (collected_objects_were_unprotected (answers_from sample_db) (λ _, sample_db) old_setup_op
    (Ok gc_removed)
    (before_removal ++ [EvEngine ["container"; "rm"; "bosn-setup-a"] 5 16384 (Some (exited 0 "" ""));
       EvFinalizeSetup "/w" old_setup false (Ok true)])
    before_removal ["container"; "rm"; "bosn-setup-a"] 5 16384 (Some (exited 0 "" ""))
    [EvFinalizeSetup "/w" old_setup false (Ok true)] (answers_from_registry sample_db sample_db_wf));
    [vm_compute; reflexivity|reflexivity..].
Defined.

Lemma stack_sweep_is_complete_witness :
  ∃ stops tr, gc_run (answers_from (rolled_over.2)) (OpStackStop 4 "/w" "app") = (Some (Ok stops), tr) ∧
    gc_name <$> rechecked tr = ["bosn-setup-ma"].
Proof.
  destruct (stack_sweep_is_complete (answers_from (rolled_over.2)) (rolled_over.2) 4 "/w" "app")
    as (stops & tr & Hrun & Hre).
  - intros tr w after limit. by exists (GcProtocol "registry").
  - vm_compute. discriminate.
  - apply Nat.ltb_lt. vm_compute. reflexivity.
  - exists stops, tr. split; [exact Hrun|]. rewrite Hre. vm_compute. reflexivity.
Defined.
