(* ===== verification/RetentionAuthority.v ===== *)
(** * RetentionAuthority: how a managed pass proves ownership

    The model of [managed_retention/registered.rs], [registered/images.rs] and
    [managed_retention/authority.rs]: the registry's records and the abandoned registries turn
    an engine observation into what is proven about it. One load reads one state of the tables
    ([Registry]). The decimal text of an [f64] (the [created] label) is a parameter. *)

From Stdlib Require Import Ascii.
From S2P Require Export Unmanaged.
From S2P Require Export Registry.

Local Open Scope string_scope.
Local Open Scope list_scope.
Local Open Scope Z_scope.
Local Open Scope bosn_scope.

(** ** The registry's records *)

Definition LABEL_SETUP_MANAGED := "com.zackees.bosn.setup-managed".
Definition SETUP_MANAGED_VALUE := "v1".
Definition LABEL_SETUP_DIGEST := "com.zackees.bosn.setup-content-sha256".
Definition LABEL_SETUP_NAME := "com.zackees.bosn.setup-container".
Definition PAGE : Z := 256.
Definition MAX_RECORDS : Z := 100000.

Record RegisteredOwnership := {
  ro_owner : string;
  ro_resources : list Resource;
  ro_protected : gset string;
}.
Record Normalized := { nm_labels : gmap string string; nm_idle_seconds : f64; nm_protected : bool }.

(** The page loop; [None] when [fuel] pages were not enough. *)
Fixpoint read_pages {A} (fuel : nat) (rows : list A) (offset : Z) (items : list A) :
    option (result string (list A)) :=
  match fuel with
  | O => None
  | S fuel =>
      match page_rows rows offset PAGE with
      | Err _ => Some (Err "BadRow(page offset)")
      | Ok page =>
          let items := items ++ pa_items page in
          if MAX_RECORDS <? Z.of_nat (length items)
          then Some (Err "registry holds more than 100000 records")
          else match pa_next_offset page with
               | None => Some (Ok items)
               | Some following => read_pages fuel rows following items
               end
      end
  end.
Definition read_all {A} (rows : list A) : option (result string (list A)) :=
  read_pages (S (length rows)) rows 0 [].

(** [RegisteredOwnership::load] of the registry found in the state directory, if any. *)
Definition ownership_load (found : option Db) : option (result string RegisteredOwnership) :=
  match found with
  | None => Some (Err "registry unavailable")
  | Some d =>
      match db_meta d !! "registry_id" with
      | None => Some (Err "BadRow(registry_id)")
      | Some owner =>
          resources ← read_all (btree_values String.compare (db_resources d));
          leases ← read_all (btree_values String.compare (db_leases d));
          sessions ← read_all (btree_values String.compare (db_sessions d));
          intents ← read_all (btree_values String.compare (db_intents d));
          Some
            (let? resources := resources in
             let? leases := leases in
             let? sessions := sessions in
             let? intents := intents in
             Ok {| ro_owner := owner; ro_resources := resources;
                   ro_protected := list_to_set
                     ((le_resource_id <$> leases) ++ (xs_container_id <$> sessions)
                      ++ (vi_name <$> intents)) |})
      end
  end.

Definition setup_record_id (kind : ResourceKind) (id : string) : bool :=
  match kind with
  | Container => starts_with "setup-container:" id || starts_with "manifest-container:" id
                 || starts_with "manifest-guest:" id
  | Volume => starts_with "manifest-volume:" id
  | _ => false
  end.

Definition record_retention (kind : ResourceKind) (r : Resource) (labels : gmap string string) :
    Retention :=
  if labels !! LABEL_RETENTION ==? Some "pinned" then Pinned
  else match kind with Volume => re_retention r | _ => Warm end.

(** Canonical ownership labels, complete or not, are never reinterpreted. *)
Definition speaks_for_itself (labels : gmap string string) : bool :=
  bool_decide (is_Some (labels !! LABEL_REGISTRY)) || bool_decide (is_Some (labels !! LABEL_KIND)).

Definition setup_labelled (engine_name : string) (labels : gmap string string) : bool :=
  negb (speaks_for_itself labels)
  && (labels !! LABEL_SETUP_MANAGED ==? Some SETUP_MANAGED_VALUE)
  && (labels !! LABEL_SETUP_NAME ==? Some engine_name).

(** The record an object of this kind, name and content digest was created under. *)
Definition setup_record (kind : ResourceKind) (engine_name digest : string) (r : Resource) : bool :=
  (re_kind r ==? kind) && (re_name r ==? engine_name)
  && (strip_prefix "sha256:" (re_generation r) ==? Some digest) && setup_record_id kind (re_id r).

(** [max_by]: the last of the greatest. *)
Definition max_by {A} (cmp : A → A → comparison) (l : list A) : option A :=
  match l with
  | [] => None
  | x :: l => Some (foldl (λ best x, match cmp best x with Gt => best | _ => x end) x l)
  end.

Section ownership.
Context (f64_to_string : f64 → string).

(** The engine labels with the ownership labels of a record put over them. *)
Definition canonical_labels (o : RegisteredOwnership) (kind : ResourceKind) (r : Resource)
    (retention : Retention) (labels : gmap string string) : option (gmap string string) :=
  match ResourceLabels_new (ro_owner o) kind (re_stack r) (re_generation r) (re_scope r)
          (re_workspace r) (f64_to_string (re_created_at r)) (Some retention) with
  | Ok canonical => Some (to_map canonical ∪ labels)
  | Err _ => None
  end.
Definition is_protected (o : RegisteredOwnership) (r : Resource) : bool :=
  bool_decide (re_id r ∈ ro_protected o) || bool_decide (re_name r ∈ ro_protected o).
Definition idle_since (now : f64) (r : Resource) : f64 :=
  f64_max (f64_sub now (re_last_used r)) f64_zero.

Definition normalize (o : RegisteredOwnership) (kind : ResourceKind) (engine_name : string)
    (labels : gmap string string) (now : f64) : option Normalized :=
  if negb (setup_labelled engine_name labels) then None
  else
    digest ← labels !! LABEL_SETUP_DIGEST;
    match filterb (setup_record kind engine_name digest) (ro_resources o) with
    | [r] =>
        if negb (is_finite (re_last_used r)) then None
        else
          normalized ← canonical_labels o kind r (record_retention kind r labels) labels;
          Some {| nm_labels := normalized; nm_idle_seconds := idle_since now r;
                  nm_protected := is_protected o r |}
    | _ => None
    end.

(** ** Built images *)

Definition BUILT_IMAGE_REPOSITORY := "bosn-setup".
Definition lower_hex (a : ascii) : bool := is_digit a || in_range 97 102 a.
Definition built_tag (tag : string) : bool :=
  match (rest ← strip_prefix BUILT_IMAGE_REPOSITORY tag; strip_prefix ":" rest) with
  | Some digest => (String.length digest =? 64)%nat && all_bytes lower_hex digest
  | None => false
  end.
Definition only_built_tags (tags : list string) : bool :=
  negb (bool_decide (tags = [])) && forallb built_tag tags.

Definition image_record (id : string) (r : Resource) : bool :=
  (re_kind r ==? Image) && (re_generation r ==? id)
  && ((re_id r ==? "setup-image:" +:+ id) || (re_id r ==? "manifest-image:" +:+ id)).

Definition normalize_image (o : RegisteredOwnership) (id : string) (tags : list string)
    (labels : gmap string string) (now : f64) : option Normalized :=
  if speaks_for_itself labels || negb (only_built_tags tags) then None
  else
    let records := filterb (image_record id) (ro_resources o) in
    if existsb (λ r, negb (is_finite (re_last_used r))) records then None
    else
      latest ← max_by (λ l r, total_cmp (re_last_used l) (re_last_used r)) records;
      normalized ← canonical_labels o Image latest Warm labels;
      Some {| nm_labels := normalized; nm_idle_seconds := idle_since now latest;
              nm_protected := existsb (is_protected o) records |}.

(** ** The authority of a pass *)

Record Authority := {
  au_ownership : option RegisteredOwnership;
  au_our : option string;
  au_abandoned : gset string;
}.
Record Proven := { pr_labels : gmap string string; pr_age : f64; pr_in_use : bool }.

(** [Authority::load]: the registry is opened twice; [abandoned] is what the catalog gives. *)
Definition Authority_load (first second : option Db) (abandoned : option string → gset string) :
    option Authority :=
  let our := d ← first; db_meta d !! "registry_id" in
  ownership ← ownership_load second;
  Some {| au_ownership := match ownership with Ok o => Some o | Err _ => None end;
          au_our := our; au_abandoned := abandoned our |}.

Definition with_proof (proof : Normalized) (age : f64) (in_use : bool) : Proven :=
  {| pr_labels := nm_labels proof; pr_age := f64_min age (nm_idle_seconds proof);
     pr_in_use := in_use || nm_protected proof |}.

(** An object whose labels name an abandoned registry is judged as ours. *)
Definition adopt_labels (au : Authority) (labels : gmap string string) : gmap string string :=
  match au_our au, labels !! LABEL_REGISTRY with
  | Some ours, Some registry =>
      if bool_decide (registry ∈ au_abandoned au) then <[LABEL_REGISTRY := ours]> labels else labels
  | _, _ => labels
  end.

(** [now] is read from the clock only when there are records to prove against. *)
Definition prove_at (now : f64) (au : Authority) (kind : ResourceKind) (name : string)
    (labels : gmap string string) (age : f64) (in_use : bool) : Proven :=
  match (o ← au_ownership au; normalize o kind name labels now) with
  | Some proof => with_proof proof age in_use
  | None => {| pr_labels := adopt_labels au labels; pr_age := age; pr_in_use := in_use |}
  end.
End ownership.

(** ** What a load proves *)

Lemma read_pages_all {A} (rows : list A) fuel offset items :
  Z.of_nat (length rows) ≤ i64_max → 0 ≤ offset ≤ Z.of_nat (length rows) →
  items = take (Z.to_nat offset) rows → (length rows - Z.to_nat offset < fuel)%nat →
  read_pages fuel rows offset items =
  Some (if MAX_RECORDS <? Z.of_nat (length rows)
        then Err "registry holds more than 100000 records" else Ok rows).
Proof.
  intros Hmax. revert offset items. induction fuel as [|fuel IH]; intros offset items Hoff -> Hfuel; [lia|].
  cbn [read_pages]. unfold page_rows. rewrite (proj2 (Z.ltb_ge _ _)) by lia.
  change (Z.min (Z.max PAGE 1) MAX_PAGE_SIZE) with 256. cbn [pa_next_offset pa_items].
  rewrite take_take, (Nat.min_l (Z.to_nat 256) (Z.to_nat (256 + 1))) by lia.
  rewrite take_take_drop. set (upto := (Z.to_nat offset + Z.to_nat 256)%nat).
  rewrite !length_take, length_drop.
  destruct (256 <? _) eqn:Enext; [apply Z.ltb_lt in Enext|apply Z.ltb_ge in Enext].
  - destruct (MAX_RECORDS <? Z.of_nat (_ `min` _)) eqn:Elim.
    + apply Z.ltb_lt in Elim. by rewrite (proj2 (Z.ltb_lt _ _)) by lia.
    + apply IH; [lia| |lia]. f_equal. lia.
  - rewrite (Nat.min_r upto (length rows)), (take_ge rows upto) by lia. by case_match.
Qed.

(** Reading a whole table ends, with its rows or the limit's error. *)
Lemma read_all_rows {A} (rows : list A) :
  Z.of_nat (length rows) ≤ i64_max →
  read_all rows = Some (if MAX_RECORDS <? Z.of_nat (length rows)
                        then Err "registry holds more than 100000 records" else Ok rows).
Proof. intros Hmax. unfold read_all. apply read_pages_all; [done|lia|done|lia]. Qed.

Section proven.
Context (f64_to_string : f64 → string).

(** The labels of a record are complete and name this registry. *)
Lemma canonical_labels_ours o kind r retention labels normalized :
  canonical_labels f64_to_string o kind r retention labels = Some normalized →
  classify_ownership normalized (Some (ro_owner o)) = Ours ∧
  normalized !! LABEL_RETENTION = Some (Retention_as_str retention) ∧
  normalized !! LABEL_WORKSPACE = Some (re_workspace r).
Proof.
  unfold canonical_labels. intros H. destruct (ResourceLabels_new _ _ _ _ _ _ _ _) as [l|] eqn:E; [|done].
  injection H as <-. set (l' := {| rl_registry := ro_owner o; rl_kind := kind; rl_stack := re_stack r;
    rl_generation := re_generation r; rl_scope := re_scope r; rl_workspace := re_workspace r;
    rl_created := f64_to_string (re_created_at r); rl_retention := retention;
    rl_retention_explicit := true |}).
  assert (l = l') as ->.
  { unfold ResourceLabels_new in E. by split_match. }
  pose proof (to_map_lookup l') as (H1 & H2 & H3 & H4 & H5 & H6 & H7).
  assert (∀ k v, to_map l' !! k = Some v → (to_map l' ∪ labels) !! k = Some v) as Hu
    by (intros; by apply lookup_union_Some_l).
  split_and!; [|apply Hu; by rewrite to_map_retention|by apply Hu].
  unfold classify_ownership, has_bosn_label. rewrite (proj2 (existsb_exists _ _)).
  2: { exists LABEL_REGISTRY. split; [|by vm_compute]. apply list_elem_of_In, elem_of_btree_keys.
       by rewrite (Hu _ _ H1). }
  cbn [negb]. rewrite (proj2 (forallb_forall _ _)).
  2: { intros key Hkey. apply bool_decide_eq_true. unfold REQUIRED_LABELS in Hkey. cbn [In] in Hkey.
       repeat (destruct Hkey as [<-|Hkey]; [eexists; apply Hu; eassumption|]). destruct Hkey. }
  cbn [negb]. rewrite (Hu _ _ H1), String.eqb_refl. reflexivity.
Qed.

(** A name in one of the tables that keep an object alive. *)
Definition named_by_tables (d : Db) (name : string) : Prop :=
  (∃ id lease, db_leases d !! id = Some lease ∧ le_resource_id lease = name) ∨
  (∃ id session, db_sessions d !! id = Some session ∧ xs_container_id session = name) ∨
  (∃ id intent, db_intents d !! id = Some intent ∧ vi_name intent = name).
Definition held_by_tables (d : Db) (r : Resource) : Prop :=
  named_by_tables d (re_id r) ∨ named_by_tables d (re_name r).
Definition rows_fit (d : Db) : Prop :=
  Z.of_nat (size (db_resources d)) ≤ i64_max ∧ Z.of_nat (size (db_leases d)) ≤ i64_max ∧
  Z.of_nat (size (db_sessions d)) ≤ i64_max ∧ Z.of_nat (size (db_intents d)) ≤ i64_max.

Lemma length_btree_values {K V} `{Countable K} cmp (m : gmap K V) :
  length (btree_values cmp m) = size m.
Proof. unfold btree_values. by rewrite length_fmap, btree_iter_perm, length_map_to_list. Qed.

(** The values of one column of a table. *)
Lemma elem_of_column {V B} (f : V → B) (m : gmap string V) b :
  b ∈ f <$> btree_values String.compare m ↔ ∃ id v, m !! id = Some v ∧ f v = b.
Proof.
  rewrite list_elem_of_fmap. split.
  - intros (v & -> & [id Hv]%elem_of_btree_values). by exists id, v.
  - intros (id & v & Hv & <-). exists v. rewrite elem_of_btree_values. eauto.
Qed.

Lemma ownership_load_spec d owner :
  rows_fit d → db_meta d !! "registry_id" = Some owner →
  ∃ r, ownership_load (Some d) = Some r ∧
    match r with
    | Ok o => ro_owner o = owner ∧ ro_resources o = btree_values String.compare (db_resources d) ∧
        ∀ name, name ∈ ro_protected o ↔ named_by_tables d name
    | Err e => e = "registry holds more than 100000 records"
    end.
Proof.
  intros (H1 & H2 & H3 & H4) Howner. unfold ownership_load. rewrite Howner.
  rewrite !read_all_rows by (rewrite length_btree_values; assumption). cbn [mbind option_bind].
  do 4 (destruct (MAX_RECORDS <? _); [eexists; split; reflexivity|]).
  eexists. split; [reflexivity|]. cbn [ro_owner ro_resources ro_protected].
  split; [reflexivity|]. split; [reflexivity|]. intros name.
  unfold named_by_tables. by rewrite elem_of_list_to_set, !elem_of_app, !elem_of_column.
Qed.

(** A setup object is only ever judged by the one record of its kind, name and content in the
    tables: the proof carries complete labels of this registry, the time since that record was
    last used, and it is unprotected exactly when no lease, session or volume intent of the same
    tables names the record. *)
Theorem setup_proof_is_the_tables d o kind name labels now proof :
  rows_fit d → ownership_load (Some d) = Some (Ok o) →
  normalize f64_to_string o kind name labels now = Some proof →
  ∃ r digest, (∃ id, db_resources d !! id = Some r) ∧ labels !! LABEL_SETUP_DIGEST = Some digest ∧
    setup_record kind name digest r = true ∧
    (∀ id r', db_resources d !! id = Some r' → setup_record kind name digest r' = true → r' = r) ∧
    classify_ownership (nm_labels proof) (db_meta d !! "registry_id") = Ours ∧
    nm_labels proof !! LABEL_WORKSPACE = Some (re_workspace r) ∧
    nm_idle_seconds proof = idle_since now r ∧
    (nm_protected proof = true ↔ held_by_tables d r).
Proof.
  intros Hfit Hload Hn. destruct (db_meta d !! "registry_id") as [owner|] eqn:Eo;
    [|unfold ownership_load in Hload; by rewrite Eo in Hload].
  destruct (ownership_load_spec d owner Hfit Eo) as (x & Hx & Hspec). rewrite Hload in Hx.
  injection Hx as <-. destruct Hspec as (Ho & Hres & Hprot).
  unfold normalize in Hn. destruct (setup_labelled name labels); [|done]. cbn [negb] in Hn.
  destruct (labels !! LABEL_SETUP_DIGEST) as [digest|]; [|done]. cbn [mbind option_bind] in Hn.
  destruct (filterb _ _) as [|r [|]] eqn:Ef; [done| |done].
  assert (∀ r', r' ∈ [r] ↔ setup_record kind name digest r' = true ∧ ∃ id, db_resources d !! id = Some r') as Hin.
  { intros r'. by rewrite <- Ef, elem_of_filterb, Hres, elem_of_btree_values. }
  destruct (is_finite (re_last_used r)); [|done]. cbn [negb] in Hn.
  destruct (canonical_labels _ _ _ _ _ _) as [normalized|] eqn:Ec; [|done]. injection Hn as <-.
  apply canonical_labels_ours in Ec as (Hours & _ & Hws). rewrite Ho in Hours.
  exists r, digest. destruct (proj1 (Hin r)) as [Hr Hid]; [by constructor|]. split_and!; try done.
  - intros id r' Hr' Hrec. apply list_elem_of_singleton, Hin. eauto.
  - cbn [nm_protected]. unfold is_protected, held_by_tables.
    rewrite orb_true_iff, !bool_decide_eq_true, !Hprot. done.
Qed.
End proven.

(** ** A stopped setup container and its record *)

Definition sample_digest : string := "d1".
Definition setup_labels : gmap string string :=
  <[LABEL_SETUP_MANAGED := SETUP_MANAGED_VALUE]> (<[LABEL_SETUP_NAME := "c1"]>
    {[ LABEL_SETUP_DIGEST := sample_digest ]}).
Definition setup_row : Resource :=
  mkResource "setup-container:c1" Container "c1" "stack" "sha256:d1" Stack "/w" f64_zero f64_zero
    Active Warm.
Definition setup_db : Db := set_resources (Db_new "registry") {[ "setup-container:c1" := setup_row ]}.
Definition setup_ownership : RegisteredOwnership :=
  {| ro_owner := "registry"; ro_resources := [setup_row]; ro_protected := ∅ |}.

Lemma setup_proof_is_the_tables_witness :
  ∃ proof, normalize (λ _, "0") setup_ownership Container "c1" setup_labels f64_zero = Some proof ∧
    classify_ownership (nm_labels proof) (db_meta setup_db !! "registry_id") = Ours.
Proof.
  destruct (normalize (λ _, "0") setup_ownership Container "c1" setup_labels f64_zero) as [proof|] eqn:E;
    [|vm_compute in E; discriminate].
  exists proof. split; [reflexivity|].
  destruct (setup_proof_is_the_tables (λ _, "0") setup_db setup_ownership Container "c1" setup_labels
    f64_zero proof) as (r & digest & _ & _ & _ & _ & Hours & _); [|vm_compute; reflexivity|exact E|exact Hours].
  vm_compute. repeat split; discriminate.
Defined.
