(* ===== verification/ManagedRetention.v ===== *)
(** * ManagedRetention: a retention pass over the engine

    The model of [bosn-service/src/managed_retention.rs] with its modules [images], [sizes],
    [workspaces], [idle], [pressure] and [report]: programs of [Effects] whose calls are the
    Docker command line, the clock, fresh loads of the registry and the catalog, and the file
    system, all answered arbitrarily. The JSON decoding of Docker's documents is a parameter.
    Log lines are not modelled. *)

From Stdlib Require Import Ascii.
From stdpp Require Import pretty.
From S2P Require Export Effects.
From S2P Require Export Engine.
From S2P Require Export DockerDf.
From S2P Require Export Retention.
From S2P Require Export RetentionAuthority.

Local Open Scope string_scope.
Local Open Scope list_scope.
Local Open Scope Z_scope.
Local Open Scope bosn_scope.

(** ** Calls *)

Definition RETENTION_READ_DEADLINE : Z := 30.
Definition RETENTION_OUTPUT_LIMIT : Z := 8 * 1024 * 1024.
Definition RETENTION_REMOVAL_DEADLINE : Z := 60.
Definition RETENTION_REMOVAL_OUTPUT_LIMIT : Z := 1024 * 1024.
Definition INSPECT_CHUNK : nat := 128.
Definition VOLUME_SIZE_DEADLINE : Z := 300.
Definition VOLUME_SIZE_OUTPUT_LIMIT : Z := 64 * 1024 * 1024.

(** What the file system says of a workspace: absent for certain, there (with the git common
    directory of its repository), or not readable. *)
Inductive WorkspaceState := WsMissing | WsPresent (family : option string) | WsUnreadable.
(** [retention.toml]: its text, absent for certain, or not readable. *)
Inductive ConfigRead := ConfigText (text : string) | ConfigMissing | ConfigUnreadable.

Inductive rt_call :=
| RtEngine (args : list string) (deadline_secs output_limit : Z)
| RtClock
| RtAuthority
| RtOwnership
| RtWorkspace (path : string)
| RtForget (registry_id : string)
| RtConfig
| RtDisk.

Definition rt_answer (c : rt_call) : Type :=
  match c with
  | RtEngine _ _ _ => result string CommandResult
  | RtClock => f64
  | RtAuthority => Authority
  | RtOwnership => result string RegisteredOwnership
  | RtWorkspace _ => WorkspaceState
  | RtForget _ => unit
  | RtConfig => ConfigRead
  | RtDisk => option DiskSpace
  end.
Notation rt_prog A := (prog rt_answer A).

Definition now_seconds : rt_prog f64 := perform RtClock.
Definition read_engine (args : list string) : rt_prog (result string CommandResult) :=
  perform (RtEngine args RETENTION_READ_DEADLINE RETENTION_OUTPUT_LIMIT).
Definition read_census (read : CommandResult → string → CensusRead) (args : list string)
    (what : string) : rt_prog (result string CensusRead) :=
  answer ← read_engine args;
  Ret (match answer with Ok r => Ok (read r what) | Err e => Err e end).

(** ** Reading lists and documents *)

Definition labeled_ids (r : result string CensusRead) (what : string) (unreadable : list string) :
    option (list string) * list string :=
  match r with
  | Ok (Document text) => (Some (text_lines text), unreadable)
  | Ok (Unavailable detail) => (None, unreadable ++ [detail])
  | Err error => (None, unreadable ++ [what +:+ " failed: " +:+ error])
  end.

(** [found.into_iter().filter(|id| seen.insert(id.clone()))]. *)
Fixpoint unseen (seen : gset string) (found : list string) : list string * gset string :=
  match found with
  | [] => ([], seen)
  | id :: found =>
      if bool_decide (id ∈ seen) then unseen seen found
      else let '(ids, seen) := unseen ({[id]} ∪ seen) found in (id :: ids, seen)
  end.

Record union_state := {
  un_seen : gset string; un_ids : list string; un_complete : bool; un_unreadable : list string }.
Definition union_add (st : union_state) (r : option (list string) * list string) : union_state :=
  match r.1 with
  | Some found =>
      let '(ids, seen) := unseen (un_seen st) found in
      {| un_seen := seen; un_ids := un_ids st ++ ids; un_complete := un_complete st;
         un_unreadable := r.2 |}
  | None =>
      {| un_seen := un_seen st; un_ids := un_ids st; un_complete := false; un_unreadable := r.2 |}
  end.
Definition labeled_union (probes : list string) (read : string → rt_prog (result string CensusRead))
    (what : string) (unreadable : list string) : rt_prog (option (list string) * list string) :=
  st ← prog_fold (λ st probe, r ← read probe; Ret (union_add st (labeled_ids r what (un_unreadable st))))
         {| un_seen := ∅; un_ids := []; un_complete := true; un_unreadable := unreadable |} probes;
  Ret (if un_complete st then Some (un_ids st) else None, un_unreadable st).

Definition parse_inspect {T} (decode : string → option (list T)) (r : result string CensusRead)
    (what : string) (unreadable : list string) : option (list T) * list string :=
  match r with
  | Ok (Document text) =>
      match decode text with
      | Some entries => (Some entries, unreadable)
      | None => (None, unreadable ++ [what +:+ " returned a document this build cannot read"])
      end
  | Ok (Unavailable detail) => (None, unreadable ++ [detail])
  | Err error => (None, unreadable ++ [what +:+ " failed: " +:+ error])
  end.
Definition parse_read {T} (decode : string → option (list T)) (r : result string CensusRead) :
    option (list T) :=
  match r with Ok (Document text) => decode text | _ => None end.

(** ** Engine read shapes *)

Record ContainerState := { cs_running : bool; cs_started_at : string }.
Record ContainerMount := { cm_type : string; cm_name : option string }.
Record LabelledConfig := { lc_labels : gmap string string; lc_cmd : option (list string) }.
Record ContainerDetail := {
  cd_id : string; cd_name : string; cd_created : string; cd_state : option ContainerState;
  cd_mounts : list ContainerMount; cd_config : option LabelledConfig; cd_size_rw : option Z }.
Record VolumeDetail := {
  vd_name : string; vd_created_at : string; vd_labels : gmap string string;
  vd_usage : option (option string) }.
Record ImageDetail := {
  im_id : string; im_created : string; im_size : option Z; im_config : option LabelledConfig;
  im_repo_tags : list string }.

Definition age_from (now : f64) (created : string) : option f64 :=
  (λ at_, f64_max (f64_sub now at_) f64_zero) <$> parse_rfc3339_timestamp created.
Definition config_labels (config : option LabelledConfig) : gmap string string :=
  match config with Some config => lc_labels config | None => ∅ end.
Definition engine_name (c : ContainerDetail) : string :=
  default (cd_name c) (strip_prefix "/" (cd_name c)).
Definition container_running (c : ContainerDetail) : bool := is_some_and (cd_state c) cs_running.
Definition volume_size_bytes (v : VolumeDetail) : option Z :=
  usage ← vd_usage v; size ← usage; parse_docker_size size.
Definition pinned_volume_names (c : ContainerDetail) : list string :=
  let names := omap (λ m, if cm_type m ==? "volume" then
                            name ← cm_name m; if name ==? "" then None else Some name
                          else None) (cd_mounts c) in
  btree_keys String.compare (list_to_map ((λ name, (name, ())) <$> names) : gmap string unit).

Definition signals (in_use : bool) : Signals := Unmanaged.mkSignals in_use false false.

Record StoppedSetupContainer := {
  ss_id : string; ss_age_seconds : f64; ss_pinned_volumes : list string }.
Definition container_count (stopped : list StoppedSetupContainer) : nat := length stopped.
Definition pinned_volume_count (stopped : list StoppedSetupContainer) : nat :=
  size (list_to_set (stopped ≫= ss_pinned_volumes) : gset string).
Definition oldest_age_seconds (stopped : list StoppedSetupContainer) : option f64 :=
  foldl (λ oldest s, Some (match oldest with Some prior => f64_max prior (ss_age_seconds s)
                                          | None => ss_age_seconds s end)) None stopped.
Definition stopped_cmp (l r : StoppedSetupContainer) : comparison :=
  match total_cmp (ss_age_seconds r) (ss_age_seconds l) with
  | Eq => String.compare (ss_id l) (ss_id r)
  | c => c
  end.

Section pass.
Context (decode_containers : string → option (list ContainerDetail)).
Context (decode_volumes : string → option (list VolumeDetail)).
Context (decode_images : string → option (list ImageDetail)).
Context (decode_df : string → option SystemDfReport).
Context (f64_to_string : f64 → string).

(** ** Proofs of ownership *)

Definition prove (au : Authority) (kind : ResourceKind) (name : string)
    (labels : gmap string string) (age : f64) (in_use : bool) : rt_prog Proven :=
  match au_ownership au with
  | Some _ => now ← now_seconds; Ret (prove_at f64_to_string now au kind name labels age in_use)
  | None => Ret (prove_at f64_to_string f64_zero au kind name labels age in_use)
  end.
Definition prove_image (au : Authority) (id : string) (tags : list string)
    (labels : gmap string string) (age : f64) (in_use : bool) : rt_prog Proven :=
  match au_ownership au with
  | Some o =>
      now ← now_seconds;
      match normalize_image f64_to_string o id tags labels now with
      | Some proof => Ret (with_proof proof age in_use)
      | None => prove au Image id labels age in_use
      end
  | None => prove au Image id labels age in_use
  end.

(** Whether Docker lists no container for this filter; a command that could not be run is not
    an all-clear. *)
Definition is_unused (args : list string) : rt_prog bool :=
  answer ← read_engine args;
  Ret (match answer with Ok r => bool_decide (split_lines r = []) | Err _ => false end).
Definition volume_is_unused (name : string) : rt_prog bool :=
  is_unused (container_ids_using_volume name).
Definition image_is_unused (id : string) : rt_prog bool :=
  is_unused (container_ids_using_image id).

(** ** Observation *)

Record observed := {
  ob_artifacts : list ObservedArtifact;
  ob_stopped : list StoppedSetupContainer;
  ob_unreadable : list string }.
Definition refuse_read (st : observed) (detail : string) : observed :=
  {| ob_artifacts := ob_artifacts st; ob_stopped := ob_stopped st;
     ob_unreadable := ob_unreadable st ++ [detail] |}.
Definition with_unreadable (st : observed) (unreadable : list string) : observed :=
  {| ob_artifacts := ob_artifacts st; ob_stopped := ob_stopped st; ob_unreadable := unreadable |}.
Definition add_artifact (st : observed) (a : ObservedArtifact) : observed :=
  {| ob_artifacts := ob_artifacts st ++ [a]; ob_stopped := ob_stopped st;
     ob_unreadable := ob_unreadable st |}.
Definition add_stopped (st : observed) (s : StoppedSetupContainer) : observed :=
  {| ob_artifacts := ob_artifacts st; ob_stopped := ob_stopped st ++ [s];
     ob_unreadable := ob_unreadable st |}.

Definition artifact (id : string) (kind : ResourceKind) (proven : Proven) (bytes : option Z) :
    ObservedArtifact :=
  mkArtifact id kind (pr_labels proven) (signals (pr_in_use proven)) bytes (Some (pr_age proven)).

Definition observe_container_entry (au : Authority) (st : observed) (entry : ContainerDetail) :
    rt_prog observed :=
  now ← now_seconds;
  match age_from now (cd_created entry) with
  | None => Ret (refuse_read st ("container " +:+ cd_id entry +:+ " has no usable creation time"))
  | Some age =>
      proven ← prove au Container (engine_name entry) (config_labels (cd_config entry)) age
                 (container_running entry);
      let st :=
        if negb (container_running entry)
           && bool_decide (classify_ownership (pr_labels proven) (au_our au) = Ours)
        then add_stopped st {| ss_id := cd_id entry; ss_age_seconds := age;
                               ss_pinned_volumes := pinned_volume_names entry |}
        else st in
      Ret (add_artifact st (artifact (cd_id entry) Container proven (cd_size_rw entry)))
  end.

Definition observe_volume_entry (au : Authority) (sizes : gmap string Z) (st : observed)
    (entry : VolumeDetail) : rt_prog observed :=
  now ← now_seconds;
  match age_from now (vd_created_at entry) with
  | None => Ret (refuse_read st ("volume " +:+ vd_name entry +:+ " has no usable creation time"))
  | Some age =>
      unused ← volume_is_unused (vd_name entry);
      let bytes := match volume_size_bytes entry with
                   | Some bytes => Some bytes
                   | None => sizes !! vd_name entry
                   end in
      proven ← prove au Volume (vd_name entry) (vd_labels entry) age (negb unused);
      Ret (add_artifact st (artifact (vd_name entry) Volume proven bytes))
  end.

Definition observe_image_entry (au : Authority) (st : observed) (entry : ImageDetail) :
    rt_prog observed :=
  now ← now_seconds;
  match age_from now (im_created entry) with
  | None => Ret st
  | Some age =>
      unused ← image_is_unused (im_id entry);
      proven ← prove_image au (im_id entry) (im_repo_tags entry) (config_labels (im_config entry))
                 age (negb unused);
      Ret (add_artifact st (artifact (im_id entry) Image proven (im_size entry)))
  end.

(** The chunks of a listing, inspected and observed one entry at a time. *)
Definition observe_chunks {T} (decode : string → option (list T)) (inspect : list string → list string)
    (what : string) (entry : observed → T → rt_prog observed) (st : observed) (ids : list string) :
    rt_prog observed :=
  prog_fold (λ st chunk,
    r ← read_census inspect_read (inspect chunk) what;
    let '(entries, unreadable) := parse_inspect decode r what (ob_unreadable st) in
    match entries with
    | None => Ret (with_unreadable st unreadable)
    | Some entries => prog_fold entry (with_unreadable st unreadable) entries
    end) st (chunks INSPECT_CHUNK ids).

Definition observe_containers (au : Authority) (probes : list string) (st : observed) :
    rt_prog observed :=
  listed ← labeled_union probes
    (λ probe, read_census census_read (container_ids_with_label probe) "docker ps -a --filter label")
    "docker ps -a" (ob_unreadable st);
  let st := with_unreadable st listed.2 in
  match listed.1 with
  | None => Ret st
  | Some ids =>
      observe_chunks decode_containers inspect_containers "docker inspect"
        (observe_container_entry au) st ids
  end.

Definition df_sizes (report : SystemDfReport) : gmap string Z :=
  collect_map (omap (λ v, bytes ← parse_docker_size (dv_size v); Some (dv_name v, bytes))
                 (df_volumes report)).
(** A failed size read leaves every volume unmeasured. *)
Definition volume_sizes : rt_prog (gmap string Z) :=
  answer ← perform (RtEngine system_df_verbose VOLUME_SIZE_DEADLINE VOLUME_SIZE_OUTPUT_LIMIT);
  Ret (match answer with
       | Ok r => match census_read r "docker system df -v" with
                 | Document text => match decode_df text with Some report => df_sizes report | None => ∅ end
                 | Unavailable _ => ∅
                 end
       | Err _ => ∅
       end).

Definition observe_volumes (au : Authority) (probes : list string) (st : observed) :
    rt_prog observed :=
  listed ← labeled_union probes
    (λ probe, read_census census_read (volume_names_with_label probe) "docker volume ls --filter label")
    "docker volume ls" (ob_unreadable st);
  let st := with_unreadable st listed.2 in
  match listed.1 with
  | None => Ret st
  | Some names =>
      sizes ← (if bool_decide (names = []) then Ret ∅ else volume_sizes);
      observe_chunks decode_volumes inspect_volumes "docker volume inspect"
        (observe_volume_entry au sizes) st names
  end.

Definition BUILT_REFERENCE_PROBE := "reference:bosn-setup".
Definition image_ids (probe : string) : rt_prog (result string CensusRead) :=
  if probe ==? BUILT_REFERENCE_PROBE
  then read_census census_read (image_ids_with_reference BUILT_IMAGE_REPOSITORY)
         "docker image ls --filter reference"
  else read_census census_read (image_ids_with_label probe) "docker image ls --filter label".

Definition observe_images (au : Authority) (probe : string) (st : observed) : rt_prog observed :=
  listed ← labeled_union [probe; BUILT_REFERENCE_PROBE] image_ids "docker image ls" (ob_unreadable st);
  let st := with_unreadable st listed.2 in
  match listed.1 with
  | None => Ret st
  | Some ids =>
      observe_chunks decode_images inspect_images "docker image inspect" (observe_image_entry au) st ids
  end.

(** The observations, or why they are incomplete. *)
Definition observe_owned (au : Authority) :
    rt_prog (list ObservedArtifact * list StoppedSetupContainer * option string) :=
  let probes := [LABEL_KIND; LABEL_SETUP_MANAGED] in
  st ← observe_containers au probes {| ob_artifacts := []; ob_stopped := []; ob_unreadable := [] |};
  st ← observe_volumes au probes st;
  st ← observe_images au LABEL_KIND st;
  Ret (if bool_decide (ob_unreadable st = [])
       then (ob_artifacts st, sort_by stopped_cmp (ob_stopped st), None)
       else ([], [], Some (pretty (length (ob_unreadable st)) +:+
              " engine read(s) failed, so this pass cannot prove what is safe to remove: " +:+
              str_join "; " (ob_unreadable st)))).

(** ** Workspaces *)

Definition volume_workspace (a : ObservedArtifact) : option string :=
  if (oa_kind a ==? Volume)
     && ((oa_labels a !! LABEL_SCOPE ==? Some "stack") || (oa_labels a !! LABEL_SCOPE ==? Some "spec"))
  then workspace ← oa_labels a !! LABEL_WORKSPACE;
       if starts_with "/" workspace then Some workspace else None
  else None.
Definition observed_workspaces (artifacts : list ObservedArtifact) : list string :=
  btree_keys String.compare
    (list_to_map ((λ w, (w, ())) <$> omap volume_workspace artifacts) : gmap string unit).
Definition workspaces_observe (artifacts : list ObservedArtifact) : rt_prog EagerFacts :=
  prog_fold (λ facts workspace,
    state ← perform (RtWorkspace workspace);
    Ret (match state with
         | WsMissing => mkFacts ({[workspace]} ∪ gone_workspaces facts) (families facts)
         | WsPresent (Some family) =>
             mkFacts (gone_workspaces facts) (<[workspace := family]> (families facts))
         | WsPresent None | WsUnreadable => facts
         end)) EagerFacts_default (observed_workspaces artifacts).

(** ** The re-check before a removal *)

Inductive Recheck := Gone | StillReclaimable (measured : option Z).
(** What one fresh inspection shows of a candidate. *)
Record fresh := {
  fr_name : string; fr_labels : gmap string string; fr_age : option f64; fr_in_use : bool;
  fr_bytes : option Z; fr_tags : option (list string) }.

(** The first entry of a fresh inspection: [None] when Docker no longer has the object. *)
Definition reread {T} (decode : string → option (list T)) (args : list string) (what : string)
    (kind id : string) : rt_prog (result string (option T)) :=
  r ← read_census inspect_read args what;
  Ret (match parse_read decode r with
       | None => Err (kind +:+ " " +:+ id +:+ " could not be re-read")
       | Some entries => Ok (head entries)
       end).

Definition fresh_container (id : string) : rt_prog (result string (option fresh)) :=
  do! entry := reread decode_containers (inspect_containers [id]) "docker inspect" "container" id in
  match entry with
  | None => Ret (Ok None)
  | Some entry =>
      now ← now_seconds;
      Ret (Ok (Some {| fr_name := engine_name entry; fr_labels := config_labels (cd_config entry);
                       fr_age := age_from now (cd_created entry);
                       fr_in_use := container_running entry; fr_bytes := cd_size_rw entry;
                       fr_tags := None |}))
  end.
Definition fresh_volume (candidate : RetentionVerdict) : rt_prog (result string (option fresh)) :=
  do! entry := reread decode_volumes (inspect_volumes [rv_id candidate]) "docker volume inspect"
                 "volume" (rv_id candidate) in
  match entry with
  | None => Ret (Ok None)
  | Some entry =>
      unused ← volume_is_unused (vd_name entry);
      now ← now_seconds;
      Ret (Ok (Some {| fr_name := vd_name entry; fr_labels := vd_labels entry;
                       fr_age := age_from now (vd_created_at entry); fr_in_use := negb unused;
                       fr_bytes := match volume_size_bytes entry with
                                   | Some bytes => Some bytes
                                   | None => rv_bytes candidate
                                   end;
                       fr_tags := None |}))
  end.
Definition fresh_image (id : string) : rt_prog (result string (option fresh)) :=
  do! entry := reread decode_images (inspect_images [id]) "docker image inspect" "image" id in
  match entry with
  | None => Ret (Ok None)
  | Some entry =>
      unused ← image_is_unused (im_id entry);
      now ← now_seconds;
      Ret (Ok (Some {| fr_name := im_id entry; fr_labels := config_labels (im_config entry);
                       fr_age := age_from now (im_created entry); fr_in_use := negb unused;
                       fr_bytes := im_size entry; fr_tags := Some (im_repo_tags entry) |}))
  end.

Definition names (candidate : RetentionVerdict) : string :=
  ResourceKind_as_str (rv_kind candidate) +:+ " " +:+ rv_id candidate.

Definition judge (candidate : RetentionVerdict) (our_registry : option string)
    (policy : RetentionPolicy) (proven : Proven) (bytes : option Z) : result string Recheck :=
  match rv_hold (classify_managed (artifact (rv_id candidate) (rv_kind candidate) proven bytes)
                   our_registry (recheck_gates policy)) with
  | None => Ok (StillReclaimable bytes)
  | Some reason =>
      Err (names candidate +:+ " is no longer reclaimable: " +:+ HoldReason_as_str reason)
  end.

Definition revalidate (candidate : RetentionVerdict) (our_registry : option string)
    (policy : RetentionPolicy) : rt_prog (result string Recheck) :=
  au ← perform RtAuthority;
  do! found := match rv_kind candidate with
               | Container => fresh_container (rv_id candidate)
               | Volume => fresh_volume candidate
               | Image => fresh_image (rv_id candidate)
               | _ => Ret (Err "unsupported kind for removal")
               end in
  match found with
  | None => Ret (Ok Gone)
  | Some f =>
      match fr_age f with
      | None => Ret (Err (names candidate +:+ " has no usable age"))
      | Some age =>
          proven ← match fr_tags f with
                   | Some tags => prove_image au (fr_name f) tags (fr_labels f) age (fr_in_use f)
                   | None => prove au (rv_kind candidate) (fr_name f) (fr_labels f) age (fr_in_use f)
                   end;
          Ret (judge candidate our_registry policy proven (fr_bytes f))
      end
  end.

(** ** Removal *)

(** The tags of an image that has several, all of them Bosn's own. *)
Definition removal_tags (id : string) (r : result string CensusRead) : option (list string) :=
  entries ← parse_read decode_images r;
  entry ← head entries;
  if (im_id entry ==? id) && (1 <? length (im_repo_tags entry))%nat
     && only_built_tags (im_repo_tags entry)
  then Some (im_repo_tags entry) else None.
Definition removal_argv (id : string) : rt_prog (list string) :=
  r ← read_census inspect_read (inspect_images [id]) "docker image inspect";
  Ret ("rmi" :: default [id] (removal_tags id r)).

Definition removed_as (candidate : RetentionVerdict) (answer : result string CommandResult) :
    result string bool :=
  match answer with
  | Err error => Err ("removing " +:+ names candidate +:+ ": " +:+ error)
  | Ok r =>
      if cr_ok r then Ok true
      else if reports_missing r then Ok false
      else Err ("removing " +:+ names candidate +:+ ": " +:+ trim (cr_stderr r))
  end.
Definition remove_owned (candidate : RetentionVerdict) : rt_prog (result string bool) :=
  do! argv := match rv_kind candidate with
              | Container => Ret (Ok ["rm"; rv_id candidate])
              | Volume => Ret (Ok ["volume"; "rm"; rv_id candidate])
              | Image => argv ← removal_argv (rv_id candidate); Ret (Ok argv)
              | _ => Ret (Err "unsupported kind for removal")
              end in
  answer ← perform (RtEngine argv RETENTION_REMOVAL_DEADLINE RETENTION_REMOVAL_OUTPUT_LIMIT);
  Ret (removed_as candidate answer).

(** ** The pass *)

Record ManagedRetentionSummary := {
  su_applied : bool; su_planned : Z; su_removed : Z; su_removed_bytes : Z; su_deferred : Z;
  su_failed : Z; su_failures : list string; su_refused : option string;
  su_held : gmap HoldReason Z; su_eager : gmap EagerReason Z }.
Record ManagedRetentionOutcome := {
  mo_summary : ManagedRetentionSummary;
  mo_plan : RetentionPlan;
  mo_stopped : list StoppedSetupContainer }.

Definition refused_summary (detail : string) : ManagedRetentionSummary :=
  {| su_applied := false; su_planned := 0; su_removed := 0; su_removed_bytes := 0; su_deferred := 0;
     su_failed := 0; su_failures := []; su_refused := Some detail; su_held := ∅; su_eager := ∅ |}.

Record tally := { ta_removed : Z; ta_removed_bytes : Z; ta_failed : Z; ta_failures : list string }.
Definition count_outcome (t : tally) (outcome : result string (option (option Z))) : tally :=
  match outcome with
  | Ok (Some measured) =>
      {| ta_removed := ta_removed t + 1;
         ta_removed_bytes := i128_saturating_add (ta_removed_bytes t) (default 0 measured);
         ta_failed := ta_failed t; ta_failures := ta_failures t |}
  | Ok None => t
  | Err detail =>
      {| ta_removed := ta_removed t; ta_removed_bytes := ta_removed_bytes t;
         ta_failed := ta_failed t + 1; ta_failures := ta_failures t ++ [detail] |}
  end.

Definition reclaim (candidate : RetentionVerdict) (our_registry : option string)
    (policy : RetentionPolicy) : rt_prog (result string (option (option Z))) :=
  do! recheck := revalidate candidate our_registry policy in
  match recheck with
  | Gone => Ret (Ok None)
  | StillReclaimable measured =>
      do! removed := remove_owned candidate in
      Ret (Ok (if removed : bool then Some measured else None))
  end.

(** [valid_registry_id]: a UUID in text. *)
Definition uuid_byte (index : nat) (a : ascii) : bool :=
  if bool_decide (index ∈ [8; 13; 18; 23]%nat) then Ascii.eqb a "-" else is_hexdigit a.
Fixpoint uuid_bytes (index : nat) (id : string) : bool :=
  match id with EmptyString => true | String a id => uuid_byte index a && uuid_bytes (S index) id end.
Definition valid_registry_id (id : string) : bool :=
  (String.length id =? 36)%nat && uuid_bytes 0 id.

(** Every read must succeed and come back empty. *)
Definition is_emptied (args : list string) (what : string) : rt_prog bool :=
  answer ← perform (RtEngine args RETENTION_READ_DEADLINE (64 * 1024));
  Ret (match answer with
       | Ok r => match census_read r what with
                 | Document text => trim text ==? ""
                 | Unavailable _ => false
                 end
       | Err _ => false
       end).
Definition forget_emptied (abandoned : gset string) : rt_prog unit :=
  prog_fold (λ _ registry_id,
    let filter := LABEL_REGISTRY +:+ "=" +:+ registry_id in
    containers ← is_emptied (container_ids_with_label filter) "docker ps -a --filter label";
    if negb containers then Ret () else
    volumes ← is_emptied (volume_names_with_label filter) "docker volume ls --filter label";
    if negb volumes then Ret () else
    images ← is_emptied (image_ids_with_label filter) "docker image ls --filter label";
    if negb images then Ret ()
    else if valid_registry_id registry_id then perform (RtForget registry_id) else Ret ())
    () (btree_keys String.compare (list_to_map ((λ id, (id, ())) <$> elements abandoned) : gmap string unit)).

Definition managed_retention_pass (policy : RetentionPolicy) (apply : bool) :
    rt_prog ManagedRetentionOutcome :=
  au ← perform RtAuthority;
  let our_registry := au_our au in
  observation ← observe_owned au;
  let '(artifacts, stopped, refusal) := observation in
  match refusal with
  | Some detail =>
      Ret {| mo_summary := refused_summary detail; mo_plan := mkRPlan [] [] 0 0; mo_stopped := stopped |}
  | None =>
      let policy := for_footprint policy (footprint_of artifacts) DEFAULT_OWNED_CEILING in
      facts ← workspaces_observe artifacts;
      let plan := plan_managed_with artifacts our_registry policy facts in
      t ← (if apply then
             t ← prog_fold (λ t candidate,
                   outcome ← reclaim candidate our_registry policy; Ret (count_outcome t outcome))
                   {| ta_removed := 0; ta_removed_bytes := 0; ta_failed := 0; ta_failures := [] |}
                   (rp_candidates plan);
             _ ← forget_emptied (au_abandoned au);
             Ret t
           else Ret {| ta_removed := 0; ta_removed_bytes := 0; ta_failed := 0; ta_failures := [] |});
      Ret {| mo_summary :=
               {| su_applied := apply; su_planned := Z.of_nat (length (rp_candidates plan));
                  su_removed := ta_removed t; su_removed_bytes := ta_removed_bytes t;
                  su_deferred := Z.of_nat (rp_deferred plan); su_failed := ta_failed t;
                  su_failures := ta_failures t; su_refused := None; su_held := held_counts plan;
                  su_eager := eager_counts plan |};
             mo_plan := plan; mo_stopped := stopped |}
  end.
End pass.
