(* ===== verification/RetentionPass.v ===== *)
(** * RetentionPass: what a managed pass removes

    Theorems on [ManagedRetention.managed_retention_pass] in every environment: each removal
    command was licensed by a fresh re-check of a planned candidate, an incomplete read removes
    nothing, and the summary counts what happened. *)

From Stdlib Require Import Ascii.
From S2P Require Export ManagedRetention.

Local Open Scope string_scope.
Local Open Scope list_scope.
Local Open Scope Z_scope.
Local Open Scope bosn_scope.

(** ** Traces *)

Inductive rt_event :=
| EvEngine (args : list string) (deadline_secs output_limit : Z) (answer : result string CommandResult)
| EvClock (now : f64)
| EvAuthority (au : Authority)
| EvOwnership (o : result string RegisteredOwnership)
| EvWorkspace (path : string) (state : WorkspaceState)
| EvForget (registry_id : string)
| EvConfig (config : ConfigRead)
| EvDisk (disk : option DiskSpace).
Definition rt_event_of (c : rt_call) : rt_answer c → rt_event :=
  match c with
  | RtEngine args d o => EvEngine args d o
  | RtClock => EvClock
  | RtAuthority => EvAuthority
  | RtOwnership => EvOwnership
  | RtWorkspace path => EvWorkspace path
  | RtForget id => λ _, EvForget id
  | RtConfig => EvConfig
  | RtDisk => EvDisk
  end.

(** The Docker commands that change nothing. *)
Definition reads_only (args : list string) : bool :=
  match args with
  | "ps" :: _ | "inspect" :: _ | "top" :: _ | "system" :: "df" :: _ => true
  | "volume" :: sub :: _ => (sub ==? "ls") || (sub ==? "inspect")
  | "image" :: sub :: _ => (sub ==? "ls") || (sub ==? "inspect")
  | _ => false
  end.
Definition mutates (e : rt_event) : bool :=
  match e with EvEngine args _ _ _ => negb (reads_only args) | _ => false end.

(** A program whose every command is a read. *)
Notation reading := (quiet rt_event_of mutates).

Create HintDb reading.

(** Walks a program's binds, loops and branches down to single calls. *)
Ltac reads :=
  repeat first
    [ done
    | solve [eauto with reading]
    | apply quiet_bind; [|intros ?]
    | apply quiet_fold; intros ? ?
    | match goal with |- quiet _ _ (match ?x with _ => _ end) => destruct x end
    | match goal with |- quiet _ _ (let '_ := ?x in _) => destruct x end
    | split; [done|intros ?] ].

(** Every changing command of a trace is licensed by the events before it. *)
Definition licensed (P : list rt_event → list string → Prop) (tr : list rt_event) : Prop :=
  ∀ before args d o answer after, tr = before ++ EvEngine args d o answer :: after →
    reads_only args = false → P before args.

Lemma licensed_reads P tr new :
  licensed P tr → Forall (λ e, mutates e = false) new → licensed P (tr ++ new).
Proof.
  intros Hl Hnew. induction new as [|e new IH] using rev_ind; [by rewrite app_nil_r|].
  apply Forall_app in Hnew as [Hnew He]. rewrite app_assoc.
  intros before args d o answer after Heq Hargs.
  apply snoc_split in Heq as [(<- & -> & ->)|(after' & -> & Heq)].
  - rewrite Forall_singleton in He. cbv beta iota delta [mutates] in He. by rewrite Hargs in He.
  - by eapply IH.
Qed.
Lemma licensed_of_reads P tr : Forall (λ e, mutates e = false) tr → licensed P tr.
Proof. apply (licensed_reads P []). by intros []. Qed.
Lemma licensed_command P tr args d o answer :
  licensed P tr → P tr args → licensed P (tr ++ [EvEngine args d o answer]).
Proof.
  intros Hl Hlic before args' d' o' answer' after Heq Hargs.
  apply snoc_split in Heq as [(<- & [= -> -> -> ->] & ->)|(after' & -> & ->)]; [done|by eapply Hl].
Qed.

Notation read_event args answer :=
  (EvEngine args RETENTION_READ_DEADLINE RETENTION_OUTPUT_LIMIT answer).
(** Docker listed no container for the filter: the command ran and printed no ID. *)
Definition no_users (answer : result string CommandResult) : bool :=
  match answer with Ok r => bool_decide (split_lines r = []) | Err _ => false end.

Lemma wp_clock tr Q :
  (∀ now, Q now (tr ++ [EvClock now])) → wp rt_event_of now_seconds tr Q.
Proof. intros H x. apply H. Qed.
Lemma wp_is_unused args tr Q :
  (∀ x, Q (no_users x) (tr ++ [read_event args x])) → wp rt_event_of (is_unused args) tr Q.
Proof. intros H x. apply H. Qed.

Section reads.
Context (decode_containers : string → option (list ContainerDetail)).
Context (decode_volumes : string → option (list VolumeDetail)).
Context (decode_images : string → option (list ImageDetail)).
Context (decode_df : string → option SystemDfReport).
Context (f64_to_string : f64 → string).

Lemma reading_read_census read args what : reads_only args = true → reading (read_census read args what).
Proof. intros H. split; [|done]. intros x. cbn. by rewrite H. Qed.
Lemma reading_is_unused args : reads_only args = true → reading (is_unused args).
Proof. intros H. split; [|done]. intros x. cbn. by rewrite H. Qed.
Lemma reading_prove au kind name labels age in_use :
  reading (prove f64_to_string au kind name labels age in_use).
Proof. unfold prove. reads. Qed.
Hint Resolve reading_read_census reading_is_unused reading_prove : reading.
Lemma reading_prove_image au id tags labels age in_use :
  reading (prove_image f64_to_string au id tags labels age in_use).
Proof. unfold prove_image. reads. Qed.
Hint Resolve reading_prove_image : reading.

Lemma reading_labeled_union probes read what unreadable :
  (∀ probe, reading (read probe)) → reading (labeled_union probes read what unreadable).
Proof. intros H. unfold labeled_union. reads. Qed.
Lemma reading_observe_chunks {T} (decode : string → option (list T)) inspect what entry st ids :
  (∀ chunk, reads_only (inspect chunk) = true) → (∀ st x, reading (entry st x)) →
  reading (observe_chunks decode inspect what entry st ids).
Proof. intros Hi He. unfold observe_chunks. reads. Qed.

Lemma reading_observe_container_entry au st entry :
  reading (observe_container_entry f64_to_string au st entry).
Proof. unfold observe_container_entry. reads. Qed.
Lemma reading_observe_volume_entry au sizes st entry :
  reading (observe_volume_entry f64_to_string au sizes st entry).
Proof. unfold observe_volume_entry, volume_is_unused. reads. Qed.
Lemma reading_observe_image_entry au st entry :
  reading (observe_image_entry f64_to_string au st entry).
Proof. unfold observe_image_entry, image_is_unused. reads. Qed.

Lemma reading_observe_owned au :
  reading (observe_owned decode_containers decode_volumes decode_images decode_df f64_to_string au).
Proof.
  unfold observe_owned, observe_containers, observe_volumes, observe_images.
  repeat first
    [ done
    | apply quiet_bind; [|intros ?]
    | apply reading_labeled_union; intros ?; unfold image_ids; reads
    | apply reading_observe_chunks; [done|intros; first [apply reading_observe_container_entry
        |apply reading_observe_volume_entry|apply reading_observe_image_entry]]
    | unfold volume_sizes; reads
    | case_match ].
Qed.

(** ** The evidence of a re-check *)

(** The clock reads and result of proving an object's ownership. *)
Inductive proves (au : Authority) (kind : ResourceKind) (name : string)
    (labels : gmap string string) (age : f64) (in_use : bool) : list rt_event → Proven → Prop :=
| proves_recorded o now :
    au_ownership au = Some o →
    proves au kind name labels age in_use [EvClock now]
      (prove_at f64_to_string now au kind name labels age in_use)
| proves_labels :
    au_ownership au = None →
    proves au kind name labels age in_use []
      (prove_at f64_to_string f64_zero au kind name labels age in_use).
Inductive proves_image (au : Authority) (id : string) (tags : list string)
    (labels : gmap string string) (age : f64) (in_use : bool) : list rt_event → Proven → Prop :=
| proves_built o now proof :
    au_ownership au = Some o → normalize_image f64_to_string o id tags labels now = Some proof →
    proves_image au id tags labels age in_use [EvClock now] (with_proof proof age in_use)
| proves_unbuilt o now clocks proven :
    au_ownership au = Some o → normalize_image f64_to_string o id tags labels now = None →
    proves au Image id labels age in_use clocks proven →
    proves_image au id tags labels age in_use (EvClock now :: clocks) proven
| proves_unrecorded clocks proven :
    au_ownership au = None → proves au Image id labels age in_use clocks proven →
    proves_image au id tags labels age in_use clocks proven.

(** The first entry of a document Docker printed for this object alone. *)
Definition inspected {T} (decode : string → option (list T)) (what : string) (r : CommandResult)
    (entry : T) : Prop :=
  ∃ text entries, inspect_read r what = Document text ∧ decode text = Some (entry :: entries).

(** The events of one fresh look at a candidate, and the observation they make. *)
Inductive seen (au : Authority) (c : RetentionVerdict) : list rt_event → ObservedArtifact → Prop :=
| seen_container r entry now age clocks proven :
    rv_kind c = Container → inspected decode_containers "docker inspect" r entry →
    age_from now (cd_created entry) = Some age →
    proves au Container (engine_name entry) (config_labels (cd_config entry)) age
      (container_running entry) clocks proven →
    seen au c (read_event (inspect_containers [rv_id c]) (Ok r) :: EvClock now :: clocks)
      (artifact (rv_id c) Container proven (cd_size_rw entry))
| seen_volume r entry users now age clocks proven :
    rv_kind c = Volume → inspected decode_volumes "docker volume inspect" r entry →
    age_from now (vd_created_at entry) = Some age →
    proves au Volume (vd_name entry) (vd_labels entry) age (negb (no_users users)) clocks proven →
    seen au c (read_event (inspect_volumes [rv_id c]) (Ok r) ::
               read_event (container_ids_using_volume (vd_name entry)) users :: EvClock now :: clocks)
      (artifact (rv_id c) Volume proven
         match volume_size_bytes entry with Some bytes => Some bytes | None => rv_bytes c end)
| seen_image r entry users now age clocks proven :
    rv_kind c = Image → inspected decode_images "docker image inspect" r entry →
    age_from now (im_created entry) = Some age →
    proves_image au (im_id entry) (im_repo_tags entry) (config_labels (im_config entry)) age
      (negb (no_users users)) clocks proven →
    seen au c (read_event (inspect_images [rv_id c]) (Ok r) ::
               read_event (container_ids_using_image (im_id entry)) users :: EvClock now :: clocks)
      (artifact (rv_id c) Image proven (im_size entry)).

(** The commands that remove a candidate; an image may be removed by its Bosn tags. *)
Definition removal_of (c : RetentionVerdict) (args : list string) : Prop :=
  match rv_kind c with
  | Container => args = ["rm"; rv_id c]
  | Volume => args = ["volume"; "rm"; rv_id c]
  | Image => ∃ tags, args = "rmi" :: tags ∧ (tags = [rv_id c] ∨ only_built_tags tags = true)
  | _ => False
  end.

(** A fresh load of the registry and a fresh look at the candidate, directly before the command
    (an image's tags are read in between), show it reclaimable under the re-check gates. *)
Inductive removal_licensed (our : option string) (policy : RetentionPolicy)
    (candidates : list RetentionVerdict) : list rt_event → list string → Prop :=
| removal_licensed_by c earlier au look tags a args :
    c ∈ candidates → removal_of c args →
    seen au c look a → Forall (λ e, mutates e = false) tags →
    rv_hold (classify_managed a our (recheck_gates policy)) = None →
    removal_licensed our policy candidates (earlier ++ EvAuthority au :: look ++ tags) args.

Definition pass_licensed our policy candidates : list rt_event → Prop :=
  licensed (removal_licensed our policy candidates).

(** ** Rules *)

Lemma wp_prove au kind name labels age in_use tr Q :
  (∀ clocks proven, proves au kind name labels age in_use clocks proven → Q proven (tr ++ clocks)) →
  wp rt_event_of (prove f64_to_string au kind name labels age in_use) tr Q.
Proof.
  intros H. unfold prove. destruct (au_ownership au) as [o|] eqn:E.
  - intros now. apply H. by econstructor.
  - cbn. rewrite <- (app_nil_r tr). apply H. by constructor.
Qed.
Lemma wp_prove_image au id tags labels age in_use tr Q :
  (∀ clocks proven, proves_image au id tags labels age in_use clocks proven →
     Q proven (tr ++ clocks)) →
  wp rt_event_of (prove_image f64_to_string au id tags labels age in_use) tr Q.
Proof.
  intros H. unfold prove_image. destruct (au_ownership au) as [o|] eqn:E.
  - apply wp_mbind, wp_clock. intros now.
    destruct (normalize_image f64_to_string o id tags labels now) as [proof|] eqn:En.
    + apply H. by econstructor.
    + apply wp_prove. intros clocks proven Hp. rewrite <- app_assoc. apply H.
      by eapply proves_unbuilt.
  - apply wp_prove. intros clocks proven Hp. apply H. by apply proves_unrecorded.
Qed.

Lemma wp_reread {T} (decode : string → option (list T)) args what kind id tr Q :
  (∀ r entry, inspected decode what r entry → Q (Ok (Some entry)) (tr ++ [read_event args (Ok r)])) →
  (∀ x, Q (Ok None) (tr ++ [read_event args x])) →
  (∀ e x, Q (Err e) (tr ++ [read_event args x])) →
  wp rt_event_of (reread decode args what kind id) tr Q.
Proof.
  intros HSome HNone HErr [r|e]; cbn.
  - destruct (inspect_read r what) as [text|detail] eqn:E; [|by apply HErr]. cbn.
    destruct (decode text) as [[|entry entries]|] eqn:Ed; [by apply HNone| |by apply HErr].
    apply HSome. by exists text, entries.
  - by apply HErr.
Qed.

Notation revalidate := (revalidate decode_containers decode_volumes decode_images f64_to_string).

Lemma proves_reads au kind name labels age in_use clocks proven :
  proves au kind name labels age in_use clocks proven → Forall (λ e, mutates e = false) clocks.
Proof. destruct 1; by repeat constructor. Qed.
Lemma proves_image_reads au id tags labels age in_use clocks proven :
  proves_image au id tags labels age in_use clocks proven → Forall (λ e, mutates e = false) clocks.
Proof.
  destruct 1 as [| |]; repeat constructor; by eauto using proves_reads.
Qed.
Lemma seen_reads au c new a : seen au c new a → Forall (λ e, mutates e = false) new.
Proof. destruct 1; repeat constructor; by eauto using proves_reads, proves_image_reads. Qed.

(** A re-check that lets a removal go ahead has seen the candidate reclaimable; any other only
    reads. *)
Lemma wp_revalidate c our policy tr Q :
  (∀ au new a, seen au c new a → rv_hold (classify_managed a our (recheck_gates policy)) = None →
     Q (Ok (StillReclaimable (oa_bytes a))) (tr ++ EvAuthority au :: new)) →
  (∀ new, Forall (λ e, mutates e = false) new → Q (Ok Gone) (tr ++ new)) →
  (∀ e new, Forall (λ e, mutates e = false) new → Q (Err e) (tr ++ new)) →
  wp rt_event_of (revalidate c our policy) tr Q.
Proof.
  intros HOk HGone HErr. apply wp_mbind, (wp_perform rt_event_of RtAuthority). intros au. cbn [rt_event_of].
  assert (∀ new a, seen au c new a → ∀ name,
    Q match rv_hold (classify_managed a our (recheck_gates policy)) with
      | None => Ok (StillReclaimable (oa_bytes a)) | Some reason => Err (name reason) end
      (tr ++ EvAuthority au :: new)) as Hjudge.
  { intros new a Hs name. destruct (rv_hold _) as [reason|] eqn:E; [|by apply HOk].
    apply HErr. constructor; [done|by eapply seen_reads]. }
  assert (∀ e r, mutates e = false → Q (Err r) ((tr ++ [EvAuthority au]) ++ [e])) as Hfail.
  { intros e r He. rewrite <- app_assoc. apply HErr. by repeat constructor. }
  apply wp_bind_ok. destruct (rv_kind c) eqn:Hk.
  - apply wp_bind_ok, wp_reread; [|intros x; rewrite <- app_assoc; apply HGone; by repeat constructor
      |intros e x; by apply Hfail].
    intros r entry Hi. apply wp_mbind, wp_clock. intros now. cbn [wp fr_age fr_tags].
    destruct (age_from now (cd_created entry)) as [age|] eqn:Eage.
    2:{ rewrite <- !app_assoc. apply HErr. by repeat constructor. }
    apply wp_mbind, wp_prove. intros clocks proven Hp. cbn [wp]. unfold judge. rewrite Hk.
    rewrite <- !app_assoc. cbn [app fr_bytes]. apply Hjudge. by eapply seen_container.
  - apply wp_bind_ok, wp_reread; [|intros x; rewrite <- app_assoc; apply HGone; by repeat constructor
      |intros e x; by apply Hfail].
    intros r entry Hi. apply wp_mbind, wp_is_unused. intros users.
    apply wp_mbind, wp_clock. intros now. cbn [wp fr_age fr_tags].
    destruct (age_from now (vd_created_at entry)) as [age|] eqn:Eage.
    2:{ rewrite <- !app_assoc. apply HErr. by repeat constructor. }
    apply wp_mbind, wp_prove. intros clocks proven Hp. cbn [wp]. unfold judge. rewrite Hk.
    rewrite <- !app_assoc. cbn [app fr_bytes]. apply Hjudge. by eapply seen_volume.
  - apply wp_bind_ok, wp_reread; [|intros x; rewrite <- app_assoc; apply HGone; by repeat constructor
      |intros e x; by apply Hfail].
    intros r entry Hi. apply wp_mbind, wp_is_unused. intros users.
    apply wp_mbind, wp_clock. intros now. cbn [wp fr_age fr_tags].
    destruct (age_from now (im_created entry)) as [age|] eqn:Eage.
    2:{ rewrite <- !app_assoc. apply HErr. by repeat constructor. }
    apply wp_mbind, wp_prove_image. intros clocks proven Hp. cbn [wp]. unfold judge. rewrite Hk.
    rewrite <- !app_assoc. cbn [app fr_bytes]. apply Hjudge. by eapply seen_image.
  - apply HErr. by repeat constructor.
  - apply HErr. by repeat constructor.
Qed.

Lemma wp_removal_argv id tr Q :
  (∀ x tags, tags = [id] ∨ only_built_tags tags = true →
     Q ("rmi" :: tags) (tr ++ [read_event (inspect_images [id]) x])) →
  wp rt_event_of (removal_argv decode_images id) tr Q.
Proof.
  intros HQ x. cbn. apply HQ. unfold removal_tags.
  destruct (parse_read decode_images _) as [[|entry entries]|]; [by left|cbn|by left].
  case_match eqn:E; [|by left]. right. by apply andb_true_iff in E as [_ E].
Qed.

(** A removal is one command, after at most one read of an image's tags. *)
Lemma wp_remove_owned c tr Q :
  (∀ tags args answer, Forall (λ e, mutates e = false) tags → removal_of c args →
     Q (removed_as c answer)
       (tr ++ tags ++ [EvEngine args RETENTION_REMOVAL_DEADLINE RETENTION_REMOVAL_OUTPUT_LIMIT answer])) →
  (∀ e, Q (Err e) tr) →
  wp rt_event_of (remove_owned decode_images c) tr Q.
Proof.
  intros HQ HErr. apply wp_bind_ok. unfold removal_of in HQ. destruct (rv_kind c).
  - intros answer. by apply (HQ [] ["rm"; rv_id c] answer).
  - intros answer. by apply (HQ [] ["volume"; "rm"; rv_id c] answer).
  - apply wp_mbind, wp_removal_argv. intros x tags Htags answer. rewrite <- app_assoc.
    apply (HQ [read_event (inspect_images [rv_id c]) x] ("rmi" :: tags) answer); [by repeat constructor|].
    by exists tags.
  - apply HErr.
  - apply HErr.
Qed.

(** ** The loop over the candidates *)

Section loop.
Context (our : option string) (policy : RetentionPolicy) (candidates : list RetentionVerdict).
Notation L := (pass_licensed our policy candidates).

(** The removal commands Docker answered with success. *)
Definition removed_ok (e : rt_event) : bool :=
  match e with EvEngine args _ _ (Ok r) => negb (reads_only args) && cr_ok r | _ => false end.
Definition removals (tr : list rt_event) : list rt_event := filterb removed_ok tr.
Lemma removals_reads tr new :
  Forall (λ e, mutates e = false) new → removals (tr ++ new) = removals tr.
Proof.
  intros Hnew. unfold removals. rewrite filterb_app.
  cut (filterb removed_ok new = []); [by intros ->; rewrite app_nil_r|].
  induction Hnew as [|e new He Hnew IH]; [done|]. rewrite filterb_cons, IH.
  destruct e as [args d o [r|]| | | | | | |]; try done. cbv beta iota delta [mutates] in He. cbv beta iota delta [removed_ok].
  by rewrite He.
Qed.

Record loop_ok (before : list RetentionVerdict) (t : tally) (tr : list rt_event) : Prop := {
  lo_licensed : L tr;
  lo_removed : ta_removed t = Z.of_nat (length (removals tr));
  lo_failed : ta_failed t = Z.of_nat (length (ta_failures t));
  lo_count : ta_removed t + ta_failed t ≤ Z.of_nat (length before);
}.

Lemma loop_ok_reads before c t tr new outcome :
  loop_ok before t tr → Forall (λ e, mutates e = false) new →
  match outcome with Ok (Some _) => False | _ => True end →
  loop_ok (before ++ [c]) (count_outcome t outcome) (tr ++ new).
Proof.
  intros [Hl Hr Hf Hc] Hnew Hout. split.
  - by apply licensed_reads.
  - rewrite removals_reads by done. by destruct outcome as [[|]|].
  - destruct outcome as [[|]|]; cbn; [done..|]. rewrite length_app, Hf. cbn. lia.
  - rewrite length_app. destruct outcome as [[|]|]; cbn; [done|lia..].
Qed.

Lemma loop_ok_step before c t tr :
  c ∈ candidates → loop_ok before t tr →
  wp rt_event_of (outcome ← reclaim decode_containers decode_volumes decode_images f64_to_string c our
                              policy; Ret (count_outcome t outcome)) tr (loop_ok (before ++ [c])).
Proof.
  intros Hc Hlo. apply wp_mbind, wp_bind_ok, wp_revalidate; cbn [wp].
  - intros au new a Hs Hhold. apply wp_bind_ok, wp_remove_owned; cbn [wp].
    + intros tags args answer Htags Hcmd.
      assert (reads_only args = false) as Hargs.
      { unfold removal_of in Hcmd. destruct (rv_kind c); try done; try (by subst).
        by destruct Hcmd as (tags' & -> & _). }
      assert (Forall (λ e, mutates e = false) (EvAuthority au :: new ++ tags)) as Hnew.
      { constructor; [done|]. apply Forall_app. split; [by eapply seen_reads|done]. }
      set (cmd := EvEngine args _ _ answer).
      assert (tr ++ (EvAuthority au :: new) ++ tags ++ [cmd] = (tr ++ EvAuthority au :: new ++ tags) ++ [cmd]) as Heq
        by (cbn; by rewrite <- !app_assoc; cbn; rewrite <- !app_assoc).
      rewrite <- app_assoc, Heq.
      destruct (loop_ok_reads before c t tr _ (Ok None) Hlo Hnew I) as [Hl Hr Hf Hn].
      assert (L ((tr ++ EvAuthority au :: new ++ tags) ++ [cmd])) as Hl'.
      { apply licensed_command; [done|]. by eapply removal_licensed_by. }
      assert (removals ((tr ++ EvAuthority au :: new ++ tags) ++ [cmd])
        = removals (tr ++ EvAuthority au :: new ++ tags) ++ if removed_ok cmd then [cmd] else []) as Hrem.
      { unfold removals. by rewrite filterb_app, filterb_cons, filterb_nil. }
      cbn [removed_ok cmd] in Hrem. rewrite Hargs in Hrem. destruct Hlo as [_ _ _ Hn0].
      cbn [count_outcome] in Hr, Hf, Hn.
      unfold removed_as. destruct answer as [r|e]; [destruct (cr_ok r) eqn:Eok; [|destruct (reports_missing r)]|];
        (split; [exact Hl'|rewrite Hrem|..]); cbn; rewrite ?length_app; cbn; lia.
    + intros e. by apply loop_ok_reads; [|constructor; [done|by eapply seen_reads]|].
  - intros new Hnew. by apply loop_ok_reads.
  - intros e new Hnew. by apply loop_ok_reads.
Qed.
End loop.

(** ** The pass *)

Notation pass :=
  (managed_retention_pass decode_containers decode_volumes decode_images decode_df f64_to_string).

(** What every run of a pass satisfies; [au] is the authority it loaded first. *)
Record pass_ok (policy : RetentionPolicy) (applied : bool) (r : ManagedRetentionOutcome)
    (tr : list rt_event) (au : Authority) (gates : RetentionPolicy) : Prop := {
  po_authority : head tr = Some (EvAuthority au);
  po_gates : gates = policy ∨ gates = under_disk_pressure policy;
  po_licensed : pass_licensed (au_our au) gates (rp_candidates (mo_plan r)) tr;
  po_quiet : applied = false ∨ su_refused (mo_summary r) ≠ None → Forall (λ e, mutates e = false) tr;
  po_applied : su_applied (mo_summary r) = applied && bool_decide (su_refused (mo_summary r) = None);
  po_planned : su_planned (mo_summary r) = Z.of_nat (length (rp_candidates (mo_plan r)));
  po_removed : su_removed (mo_summary r) = Z.of_nat (length (removals tr));
  po_failed : su_failed (mo_summary r) = Z.of_nat (length (su_failures (mo_summary r)));
  po_count : su_removed (mo_summary r) + su_failed (mo_summary r) ≤ su_planned (mo_summary r);
}.

Lemma reading_workspaces_observe artifacts : reading (workspaces_observe artifacts).
Proof. unfold workspaces_observe. reads. Qed.
Lemma reading_forget_emptied abandoned : reading (forget_emptied abandoned).
Proof.
  unfold forget_emptied. apply quiet_fold. intros _ id. unfold is_emptied.
  repeat first [done | apply quiet_bind; [|intros ?] | split; [done|intros ?] | case_match].
Qed.

Lemma removals_none tr : Forall (λ e, mutates e = false) tr → removals tr = [].
Proof. exact (removals_reads [] tr). Qed.

Lemma wp_pass policy applied :
  wp rt_event_of (pass policy applied) [] (λ r tr, ∃ au gates, pass_ok policy applied r tr au gates).
Proof.
  apply wp_mbind, (wp_perform rt_event_of RtAuthority). intros au. cbn [rt_event_of app].
  apply wp_mbind. eapply wp_mono; [|apply wp_quiet, reading_observe_owned].
  intros [[artifacts stopped] refusal] tr1 (new1 & -> & Hnew1).
  cbn [app]. assert (Forall (λ e, mutates e = false) (EvAuthority au :: new1)) as Hq1 by (by constructor).
  destruct refusal as [detail|].
  { exists au, policy. split; cbn; try done; [by left| |by rewrite andb_false_r|by rewrite (removals_none _ Hq1)].
    by apply licensed_of_reads. }
  set (gates := for_footprint policy _ _).
  assert (gates = policy ∨ gates = under_disk_pressure policy) as Hgates.
  { unfold gates, for_footprint. case_match; [by right|by left]. }
  apply wp_mbind. eapply wp_mono; [|apply wp_quiet, reading_workspaces_observe].
  intros facts tr2 (new2 & -> & Hnew2). set (plan := plan_managed_with _ _ _ _).
  set (tr2 := (_ :: new1) ++ new2).
  assert (Forall (λ e, mutates e = false) tr2) as Hq2 by (by apply Forall_app).
  assert (pass_licensed (au_our au) gates (rp_candidates plan) tr2) as Hl2.
  { by apply licensed_of_reads. }
  assert (head tr2 = Some (EvAuthority au)) as Hh2 by done. clearbody tr2.
  destruct applied.
  - apply wp_mbind, wp_mbind. eapply wp_mono; [|apply (wp_fold rt_event_of _
      (λ before t tr, loop_ok (au_our au) gates (rp_candidates plan) before t tr
                      ∧ head tr = Some (EvAuthority au)))].
    + intros t tr3 [[Hl Hr Hf Hc] Hh]. apply wp_mbind.
      eapply wp_mono; [|apply wp_quiet, reading_forget_emptied]. intros _ tr4 (new4 & -> & Hnew4).
      exists au, gates. split; cbn; try done; [by destruct tr3| |by intros [|]|].
      * by apply licensed_reads.
      * by rewrite removals_reads.
    + split; [|done]. split; [exact Hl2|by rewrite (removals_none _ Hq2)|done|done].
    + intros before c after t tr3 Hcs [Hlo Hh].
      eapply wp_mono; [|apply wp_extends, (loop_ok_step (au_our au) gates (rp_candidates plan));
        [rewrite Hcs; set_solver|exact Hlo]].
      intros t' tr4 [Hlo' [new ->]]. split; [done|]. by destruct tr3.
  - exists au, gates. split; cbn; try done; rewrite ?(removals_none _ Hq2); cbn; [done|lia].
Qed.


(** The summary of a pass is what happened: it counts as removed exactly the removal commands
    Docker answered with success, every failure with its message, and together no more than
    were planned; a preview and a refused pass sent Docker only reads. *)
Theorem retention_summary_exact env policy applied r tr :
  run rt_event_of env (pass policy applied) [] = (r, tr) →
  let s := mo_summary r in
  su_removed s = Z.of_nat (length (removals tr)) ∧
  su_failed s = Z.of_nat (length (su_failures s)) ∧
  su_planned s = Z.of_nat (length (rp_candidates (mo_plan r))) ∧
  su_removed s + su_failed s ≤ su_planned s ∧
  su_applied s = applied && bool_decide (su_refused s = None) ∧
  (su_applied s = false → Forall (λ e, mutates e = false) tr).
Proof.
  intros Hrun s. pose proof (run_wp rt_event_of env _ _ _ (wp_pass policy applied)) as Hok.
  rewrite Hrun in Hok. destruct Hok as (ours & gates & [? ? ? Hq Ha ? ? ? ?]). cbn [fst snd] in *.
  split_and!; try done. unfold s. intros Hs. apply Hq. rewrite Hs in Ha.
  destruct applied; [right|by left]. destruct (su_refused _); done.
Qed.
End reads.

(** ** A pass over one old volume *)

Definition old_volume : VolumeDetail :=
  {| vd_name := "v1"; vd_created_at := "2020-01-01T00:00:00Z"; vd_labels := sample_labels_map;
     vd_usage := None |}.
Definition decode_old (text : string) : option (list VolumeDetail) :=
  if text ==? "[v1]" then Some [old_volume] else None.
Definition decode_none {T} (_ : string) : option T := None.
Definition no_text (_ : f64) : string := "".
Definition sample_authority : Authority :=
  {| au_ownership := None; au_our := Some (rl_registry sample_labels); au_abandoned := ∅ |}.

Definition exits (code : Z) (stdout stderr : string) : result string CommandResult :=
  Ok {| cr_exit_code := code; cr_stdout := stdout; cr_stderr := stderr |}.
(** Docker with the one volume; [users] answers the question who uses it. *)
Definition docker_answer (users : result string CommandResult) (args : list string) :
    result string CommandResult :=
  if bool_decide (args = volume_names_with_label LABEL_KIND) then exits 0 ("v1" +:+ String lf "") ""
  else if bool_decide (args = inspect_volumes ["v1"]) then exits 0 "[v1]" ""
  else if bool_decide (args = container_ids_using_volume "v1") then users
  else if bool_decide (args = system_df_verbose) then Err "deadline"
  else exits 0 "" "".
Definition sample_world (users : result string CommandResult) (_ : list rt_event) (c : rt_call) :
    rt_answer c :=
  match c with
  | RtEngine args _ _ => docker_answer users args
  | RtClock => f64_of_Z 2000000000
  | RtAuthority => sample_authority
  | RtOwnership => Err "registry unavailable"
  | RtWorkspace _ => WsPresent None
  | RtForget _ => ()
  | RtConfig => ConfigMissing
  | RtDisk => None
  end.
Definition sample_pass (users : result string CommandResult) : ManagedRetentionOutcome * list rt_event :=
  run rt_event_of (sample_world users)
    (managed_retention_pass decode_none decode_old decode_none decode_none no_text
       RetentionPolicy_default true) [].

Definition sample_removal : rt_event :=
  EvEngine ["volume"; "rm"; "v1"] RETENTION_REMOVAL_DEADLINE RETENTION_REMOVAL_OUTPUT_LIMIT (exits 0 "" "").

Lemma retention_summary_exact_witness :
  su_removed (mo_summary (sample_pass (exits 0 "" "")).1) = 1 ∧
  length (removals (sample_pass (exits 0 "" "")).2) = 1%nat.
Proof.
  destruct (retention_summary_exact decode_none decode_old decode_none decode_none no_text
    (sample_world (exits 0 "" "")) RetentionPolicy_default true _ _
    (surjective_pairing (sample_pass (exits 0 "" "")))) as [Hr _].
  assert (length (removals (sample_pass (exits 0 "" "")).2) = 1%nat) as H1 by (vm_compute; reflexivity).
  split; [|exact H1]. rewrite Hr, H1. reflexivity.
Defined.


(** The question who uses an object is only a guard when Docker answers it: a [docker ps] that
    exits with an error, as when the daemon cannot be reached for a moment, is read as an empty
    list of users. In this run both questions fail and the volume is removed all the same. *)
Theorem failed_use_query_does_not_hold :
  let refused := exits 1 "" "Cannot connect to the Docker daemon" in
  let asked := EvEngine (container_ids_using_volume "v1") RETENTION_READ_DEADLINE
                 RETENTION_OUTPUT_LIMIT refused in
  ∃ before now, (sample_pass refused).2 = before ++ [asked; EvClock now; sample_removal] ∧
    su_removed (mo_summary (sample_pass refused).1) = 1 ∧
    su_failed (mo_summary (sample_pass refused).1) = 0.
Proof.
  cbv zeta. exists (take 14 (sample_pass (exits 1 "" "Cannot connect to the Docker daemon")).2),
    (f64_of_Z 2000000000).
  vm_compute. repeat split.
Qed.
