(* ===== verification/IdleRetirement.v ===== *)
(** * IdleRetirement: stopping idle keepalives, and the unattended maintenance pass

    The model of [managed_retention/idle.rs], of [shell.rs] of bosn-setup (the launcher of a
    keepalive) and of the pass of [managed_retention/report.rs], as programs over the calls of
    [ManagedRetention]. A container is stopped only when it is provably an idle keepalive that
    nothing in the registry still names. *)

From Stdlib Require Import Ascii.
From S2P Require Export RetentionPass.

Local Open Scope string_scope.
Local Open Scope list_scope.
Local Open Scope Z_scope.
Local Open Scope bosn_scope.

(** ** The launcher of a keepalive *)

Definition dq : string := String "034" "".
Definition LAUNCHER : string :=
  "BOSN_IMAGE_PATH=" +:+ dq +:+ "$PATH" +:+ dq +:+ "; export BOSN_IMAGE_PATH; exec sh -lc "
  +:+ dq +:+ "$1" +:+ dq.
Definition RESTORE_IMAGE_PATH : string :=
  "PATH=" +:+ dq +:+ "${BOSN_IMAGE_PATH:+$BOSN_IMAGE_PATH:}$PATH" +:+ dq
  +:+ "; export PATH; unset BOSN_IMAGE_PATH".
Definition shell_args (launcher command : string) : list string :=
  ["sh"; "-c"; launcher; "sh"; RESTORE_IMAGE_PATH +:+ String lf command].
Definition login_shell_args (command : string) : list string := shell_args LAUNCHER command.
Definition TASK_UMASK : string := "umask 0022".
Definition task_shell_args (command : string) : list string :=
  shell_args (TASK_UMASK +:+ "; " +:+ LAUNCHER) command.
Definition MANIFEST_LINUX_IDLE_COMMAND : string :=
  "trap 'exit 0' TERM INT; while :; do sleep 3600 & wait $!; done".

Definition is_keepalive (entry : ContainerDetail) : bool :=
  bool_decide ((config ← cd_config entry; lc_cmd config)
    = Some (login_shell_args MANIFEST_LINUX_IDLE_COMMAND)).

(** One process of [docker top -eo pid,comm]. *)
Definition u32_max : Z := 2 ^ 32 - 1.
Definition top_process (line : string) : option string :=
  match split_whitespace line with
  | [pid; comm] => match parse_unsigned u32_max pid with Some _ => Some comm | None => None end
  | _ => None
  end.
(** Shells and sleeps counted; any other process is not a keepalive's. *)
Fixpoint count_keepalive (shells sleeps : nat) (processes : list string) : option (nat * nat) :=
  match processes with
  | [] => Some (shells, sleeps)
  | line :: processes =>
      comm ← top_process line;
      if comm ==? "sh" then count_keepalive (S shells) sleeps processes
      else if comm ==? "sleep" then count_keepalive shells (S sleeps) processes
      else None
  end.
Definition only_keepalive_processes (bytes : string) : bool :=
  is_utf8 bytes &&
  match lines bytes with
  | header :: processes =>
      bool_decide (split_whitespace header = ["PID"; "COMMAND"])
      && bool_decide (count_keepalive 0 0 processes = Some (1, 1)%nat)
  | [] => false
  end.

(** ** Retirement *)

Definition MAX_STOPS_PER_PASS : nat := 16.
Definition STOP_GRACE_SECS : string := "10".
Definition STOP_DEADLINE : Z := 60.
Record IdleOutcome := { io_stopped : list string; io_failures : list string }.

Definition top_args (id : string) : list string := ["top"; id; "-eo"; "pid,comm"].
Definition stop_args (id : string) : list string := ["stop"; "--time"; STOP_GRACE_SECS; id].

Section idle.
Context (decode_containers : string → option (list ContainerDetail)).
Context (f64_to_string : f64 → string).

(** The gates a proof must pass. *)
Definition proof_is_idle (proof : Normalized) (age gate : f64) : bool :=
  negb (nm_protected proof)
  && negb (nm_labels proof !! LABEL_RETENTION ==? Some "pinned")
  && f64_ge age gate && f64_ge (nm_idle_seconds proof) gate.
Definition idle_keepalive (o : RegisteredOwnership) (entry : ContainerDetail) (gate : f64) :
    rt_prog bool :=
  if negb (container_running entry) || negb (is_keepalive entry) then Ret false
  else
    now ← now_seconds;
    match age_from now (cd_created entry) with
    | None => Ret false
    | Some age =>
        now' ← now_seconds;
        Ret (match normalize f64_to_string o Container (engine_name entry)
                     (config_labels (cd_config entry)) now' with
             | Some proof => proof_is_idle proof age gate
             | None => false
             end)
    end.

Definition stopped_as (name : string) (answer : result string CommandResult) : result string bool :=
  match answer with
  | Err error => Err ("stopping idle container " +:+ name +:+ ": " +:+ error)
  | Ok r =>
      if cr_ok r then Ok true
      else if reports_missing r then Ok false
      else Err ("stopping idle container " +:+ name +:+ ": " +:+ trim (cr_stderr r))
  end.

Definition stop_if_still_idle (planned : ContainerDetail) (gate : f64) : rt_prog (result string bool) :=
  let name := engine_name planned in
  r ← read_census inspect_read (inspect_containers [cd_id planned]) "docker inspect";
  match parse_read decode_containers r with
  | None => Ret (Err ("idle container " +:+ name +:+ " could not be re-read"))
  | Some [] => Ret (Ok false)
  | Some (entry :: _) =>
      top ← read_engine (top_args (cd_id entry));
      match top with
      | Err error =>
          Ret (Err ("idle container " +:+ name +:+ ": process table unreadable: " +:+ error))
      | Ok top =>
          if negb (cr_ok top) || negb (only_keepalive_processes (cr_stdout top)) then Ret (Ok false)
          else
            loaded ← perform RtOwnership;
            match loaded with
            | Err error =>
                Ret (Err ("idle container " +:+ name +:+ ": registry unreadable: " +:+ error))
            | Ok o =>
                if negb (cd_id entry ==? cd_id planned) then Ret (Ok false)
                else
                  idle ← idle_keepalive o entry gate;
                  if negb idle then Ret (Ok false)
                  else
                    answer ← perform (RtEngine (stop_args (cd_id entry)) STOP_DEADLINE (64 * 1024));
                    Ret (stopped_as name answer)
            end
      end
  end.

(** The running keepalives of the listing that pass every gate. *)
Definition idle_candidates (o : RegisteredOwnership) (gate : f64) (ids : list string) :
    rt_prog (list ContainerDetail) :=
  prog_fold (λ candidates chunk,
    r ← read_census inspect_read (inspect_containers chunk) "docker inspect";
    match (parse_inspect decode_containers r "docker inspect" []).1 with
    | None => Ret candidates
    | Some entries =>
        prog_fold (λ candidates entry,
          idle ← idle_keepalive o entry gate;
          Ret (if idle : bool then candidates ++ [entry] else candidates)) candidates entries
    end) [] (chunks INSPECT_CHUNK ids).

(** The loop that stops candidates until [limit] were stopped. *)
Definition stop_idle (gate : f64) (limit : nat) (outcome : IdleOutcome) (entry : ContainerDetail) :
    rt_prog IdleOutcome :=
  if (limit <=? length (io_stopped outcome))%nat then Ret outcome
  else
    stopped ← stop_if_still_idle entry gate;
    Ret (match stopped with
         | Ok true => {| io_stopped := io_stopped outcome ++ [engine_name entry];
                         io_failures := io_failures outcome |}
         | Ok false => outcome
         | Err detail => {| io_stopped := io_stopped outcome;
                            io_failures := io_failures outcome ++ [detail] |}
         end).

Definition retire_idle_keepalives (idle_ttl : Z) (limit : nat) : rt_prog IdleOutcome :=
  let none := {| io_stopped := []; io_failures := [] |} in
  if (limit =? 0)%nat then Ret none
  else
    loaded ← perform RtOwnership;
    match loaded with
    | Err _ => Ret none
    | Ok o =>
        r ← read_census census_read (container_ids_with_label LABEL_SETUP_MANAGED)
              "docker ps -a --filter label";
        match (labeled_ids r "docker ps -a" []).1 with
        | None => Ret none
        | Some ids =>
            candidates ← idle_candidates o (as_secs_f64 idle_ttl) ids;
            prog_fold (stop_idle (as_secs_f64 idle_ttl) limit) none candidates
        end
    end.
End idle.

(** ** The maintenance pass *)

(** [auto_retention_enabled]: the last [auto_retention] key of the file decides. *)
Definition config_line (enabled : bool) (line : string) : bool :=
  let line := trim (default "" (head (str_split "#" line))) in
  match split_once "=" line with
  | Some (key, value) =>
      if trim key ==? "auto_retention"
      then bool_decide (trim value ∈ ["true"; "yes"; "1"]) else enabled
  | None => enabled
  end.
Definition auto_retention (config : ConfigRead) : bool :=
  match config with
  | ConfigText text => foldl config_line true (lines text)
  | ConfigMissing => true
  | ConfigUnreadable => false
  end.

Record MaintenanceOutcome := {
  ma_stopped_idle : list string;
  ma_retention : ManagedRetentionOutcome }.

Section maintenance.
Context (decode_containers : string → option (list ContainerDetail)).
Context (decode_volumes : string → option (list VolumeDetail)).
Context (decode_images : string → option (list ImageDetail)).
Context (decode_df : string → option SystemDfReport).
Context (f64_to_string : f64 → string).

Definition maintenance_pass_with (policy : RetentionPolicy) : rt_prog MaintenanceOutcome :=
  config ← perform RtConfig;
  let apply := auto_retention config in
  stopped ← (if apply then
               idle ← retire_idle_keepalives decode_containers f64_to_string (container_ttl policy)
                        MAX_STOPS_PER_PASS;
               Ret (io_stopped idle)
             else Ret []);
  retention ← managed_retention_pass decode_containers decode_volumes decode_images decode_df
                f64_to_string policy apply;
  Ret {| ma_stopped_idle := stopped; ma_retention := retention |}.

Definition maintenance_pass : rt_prog MaintenanceOutcome :=
  disk ← perform RtDisk;
  maintenance_pass_with (for_disk RetentionPolicy_default disk).
End maintenance.

(** ** What a stop is based on *)

Section theorems.
Context (decode_containers : string → option (list ContainerDetail)).
Context (decode_volumes : string → option (list VolumeDetail)).
Context (decode_images : string → option (list ImageDetail)).
Context (decode_df : string → option SystemDfReport).
Context (f64_to_string : f64 → string).

(** The reads directly before a stop, and what they show of the container. *)
Inductive idle_evidence (gate : f64) : list rt_event → string → Prop :=
| idle_seen r entry top o now now' age proof :
    inspected decode_containers "docker inspect" r entry →
    cr_ok top = true → only_keepalive_processes (cr_stdout top) = true →
    container_running entry = true → is_keepalive entry = true →
    age_from now (cd_created entry) = Some age →
    normalize f64_to_string o Container (engine_name entry) (config_labels (cd_config entry)) now'
      = Some proof →
    proof_is_idle proof age gate = true →
    idle_evidence gate
      [read_event (inspect_containers [cd_id entry]) (Ok r);
       read_event (top_args (cd_id entry)) (Ok top); EvOwnership (Ok o); EvClock now; EvClock now']
      (cd_id entry).

Lemma reading_idle_keepalive o entry gate : reading (idle_keepalive f64_to_string o entry gate).
Proof. unfold idle_keepalive. reads. Qed.
Lemma reading_idle_candidates o gate ids :
  reading (idle_candidates decode_containers f64_to_string o gate ids).
Proof.
  unfold idle_candidates. apply quiet_fold. intros s chunk.
  apply quiet_bind; [by apply reading_read_census|]. intros r. case_match; [|done].
  apply quiet_fold. intros s' entry. apply quiet_bind; [apply reading_idle_keepalive|done].
Qed.

Lemma wp_idle_keepalive o entry gate tr Q :
  (∀ now now' age proof,
     container_running entry = true → is_keepalive entry = true →
     age_from now (cd_created entry) = Some age →
     normalize f64_to_string o Container (engine_name entry) (config_labels (cd_config entry)) now'
       = Some proof → proof_is_idle proof age gate = true →
     Q true (tr ++ [EvClock now; EvClock now'])) →
  (∀ new, Forall (λ e, mutates e = false) new → Q false (tr ++ new)) →
  wp rt_event_of (idle_keepalive f64_to_string o entry gate) tr Q.
Proof.
  intros HQ HF. unfold idle_keepalive.
  destruct (container_running entry) eqn:Er, (is_keepalive entry) eqn:Ek; cbn [negb orb];
    try (cbn; rewrite <- (app_nil_r tr); by apply HF).
  apply wp_mbind, wp_clock. intros now. destruct (age_from now (cd_created entry)) as [age|] eqn:Ea;
    [|apply HF; by repeat constructor].
  apply wp_mbind, wp_clock. intros now'. cbn [wp]. rewrite <- app_assoc. cbn [app].
  assert (Forall (λ e, mutates e = false) [EvClock now; EvClock now']) by (by repeat constructor).
  destruct (normalize _ _ _ _ _ now') as [proof|] eqn:En; [|by apply HF].
  destruct (proof_is_idle proof age gate) eqn:Ep; [by eapply HQ|by apply HF].
Qed.

Lemma wp_read_census read args what tr Q :
  (∀ x, Q (match x with Ok r => Ok (read r what) | Err e => Err e end) (tr ++ [read_event args x])) →
  wp rt_event_of (read_census read args what) tr Q.
Proof. intros H x. apply H. Qed.
Lemma wp_read_engine args tr Q :
  (∀ x, Q x (tr ++ [read_event args x])) → wp rt_event_of (read_engine args) tr Q.
Proof. intros H x. apply H. Qed.

(** A stop is sent only on fresh evidence; otherwise the step only reads and stops nothing. *)
Lemma wp_stop_if_still_idle planned gate tr Q :
  (∀ look answer, idle_evidence gate look (cd_id planned) →
     Q (stopped_as (engine_name planned) answer)
       (tr ++ look ++ [EvEngine (stop_args (cd_id planned)) STOP_DEADLINE (64 * 1024) answer])) →
  (∀ r new, Forall (λ e, mutates e = false) new → r ≠ Ok true → Q r (tr ++ new)) →
  wp rt_event_of (stop_if_still_idle decode_containers f64_to_string planned gate) tr Q.
Proof.
  intros HQ HF. apply wp_mbind, wp_read_census. intros [r|e]; [|by apply HF; [repeat constructor|]].
  cbn [parse_read].
  destruct (inspect_read r "docker inspect") as [text|detail] eqn:Er; [|by apply HF; [repeat constructor|]].
  destruct (decode_containers text) as [[|entry entries]|] eqn:Ed;
    [by apply HF; [repeat constructor|]| |by apply HF; [repeat constructor|]].
  apply wp_mbind, wp_read_engine. intros [top|e]; rewrite <- app_assoc; cbn [app];
    [|by apply HF; [repeat constructor|]].
  destruct (cr_ok top) eqn:Eok, (only_keepalive_processes (cr_stdout top)) eqn:Etop; cbn [negb orb];
    try (by apply HF; [repeat constructor|]).
  apply wp_mbind, (wp_perform rt_event_of RtOwnership). intros [o|e]; rewrite <- app_assoc; cbn [app rt_event_of];
    [|by apply HF; [repeat constructor|]].
  destruct (cd_id entry ==? cd_id planned) eqn:Eid; cbn [negb]; [|by apply HF; [repeat constructor|]].
  apply bool_decide_eq_true in Eid.
  apply wp_mbind, wp_idle_keepalive; cbn [negb].
  - intros now now' age proof Hrun Hkeep Hage Hnorm Hidle. rewrite <- app_assoc, Eid.
    apply wp_mbind, (wp_perform rt_event_of (RtEngine _ _ _)). intros answer. rewrite <- app_assoc.
    cbn [app rt_event_of]. rewrite <- Eid at 2.
    apply (HQ [_; _; _; _; _]). rewrite <- Eid. econstructor; eauto. by exists text, entries.
  - intros new Hnew. rewrite <- app_assoc. apply HF; [|done]. by repeat constructor.
Qed.

(** A command that stops a container, sent directly after the reads that prove it idle. *)
Definition stop_licensed (gate : f64) (before : list rt_event) (args : list string) : Prop :=
  ∃ earlier look id, before = earlier ++ look ∧ idle_evidence gate look id ∧ args = stop_args id.
(** The stops Docker answered with success. *)
Definition stopped_ok (e : rt_event) : bool :=
  match e with
  | EvEngine args _ _ (Ok r) => bool_decide (head args = Some "stop") && cr_ok r
  | _ => false
  end.
Definition stops (tr : list rt_event) : list rt_event := filterb stopped_ok tr.

Lemma stopped_ok_mutates e : mutates e = false → stopped_ok e = false.
Proof.
  destruct e as [args d o [r|]| | | | | | |]; try done. cbn [stopped_ok].
  case_bool_decide as Hstop; [|done]. destruct args as [|cmd args]; [done|]. by injection Hstop as ->.
Qed.
Lemma stops_reads new : Forall (λ e, mutates e = false) new → stops new = [].
Proof.
  induction 1 as [|e new He Hnew IH]; [done|]. unfold stops in *. rewrite filterb_cons, IH.
  by rewrite stopped_ok_mutates.
Qed.
(** What holds after every candidate of the idle loop. *)
Record idle_ok (gate : f64) (limit : nat) (s : IdleOutcome) (tr : list rt_event) : Prop := {
  id_licensed : licensed (stop_licensed gate) tr;
  id_stopped : length (io_stopped s) = length (stops tr);
  id_limit : (length (io_stopped s) ≤ limit)%nat;
}.

Lemma idle_ok_step gate limit s entry tr :
  idle_ok gate limit s tr →
  wp rt_event_of (stop_idle decode_containers f64_to_string gate limit s entry) tr (idle_ok gate limit).
Proof.
  intros [Hl Hs Hn]. unfold stop_idle. destruct (limit <=? _)%nat eqn:Elim; [by split|].
  apply Nat.leb_gt in Elim. apply wp_mbind, wp_stop_if_still_idle; cbn [wp].
  - intros look answer Hlook. rewrite app_assoc. set (cmd := EvEngine _ _ _ answer).
    assert (Forall (λ e, mutates e = false) look) as Hreads by (by destruct Hlook; repeat constructor).
    assert (stops ((tr ++ look) ++ [cmd]) = stops tr ++ if stopped_ok cmd then [cmd] else []) as Hst.
    { unfold stops. rewrite !filterb_app, filterb_cons, filterb_nil.
      fold (stops look). by rewrite (stops_reads _ Hreads), app_nil_r. }
    assert (licensed (stop_licensed gate) ((tr ++ look) ++ [cmd])) as Hl'.
    { apply licensed_command; [by apply licensed_reads|]. by exists tr, look, (cd_id entry). }
    cbn [stopped_ok cmd stop_args head] in Hst. rewrite bool_decide_true in Hst by done. cbn [andb] in Hst.
    unfold stopped_as.
    destruct answer as [r|e]; [destruct (cr_ok r); [|destruct (reports_missing r)]|];
      (split; [exact Hl'|rewrite Hst|]); cbn; rewrite ?length_app; cbn; lia.
  - intros r new Hnew Hr.
    assert (stops (tr ++ new) = stops tr) as Hst
      by (unfold stops; rewrite filterb_app; fold (stops new); by rewrite (stops_reads _ Hnew), app_nil_r).
    destruct r as [[|]|e]; [done|..];
      (split; [by apply licensed_reads|by rewrite Hst|done]).
Qed.

Lemma wp_retire_idle_keepalives idle_ttl limit :
  wp rt_event_of (retire_idle_keepalives decode_containers f64_to_string idle_ttl limit) []
    (idle_ok (as_secs_f64 idle_ttl) limit).
Proof.
  assert (∀ tr, Forall (λ e, mutates e = false) tr →
    idle_ok (as_secs_f64 idle_ttl) limit {| io_stopped := []; io_failures := [] |} tr) as Hnone.
  { intros tr Htr. split; [by apply licensed_of_reads|by rewrite stops_reads|cbn; lia]. }
  unfold retire_idle_keepalives. case_match; [by apply Hnone|].
  apply wp_mbind, (wp_perform rt_event_of RtOwnership). intros [o|e]; [|by apply Hnone; repeat constructor].
  apply wp_mbind, wp_read_census. intros x. cbn [app rt_event_of].
  destruct (labeled_ids _ _ _).1 as [ids|]; [|by apply Hnone; repeat constructor].
  apply wp_mbind. eapply wp_mono; [|apply wp_quiet, reading_idle_candidates].
  intros candidates tr (new & -> & Hnew). apply (wp_fold rt_event_of _ (λ _, idle_ok _ limit)).
  - apply Hnone. by repeat constructor.
  - intros before entry after s tr _. apply idle_ok_step.
Qed.

(** ** The maintenance pass *)

Notation pass :=
  (managed_retention_pass decode_containers decode_volumes decode_images decode_df f64_to_string).
Notation maintenance :=
  (maintenance_pass_with decode_containers decode_volumes decode_images decode_df f64_to_string).

Notation removal_licensed :=
  (removal_licensed decode_containers decode_volumes decode_images f64_to_string).

(** A removal licensed within the managed pass that ends the maintenance. *)
Definition removal_in (policy : RetentionPolicy) (candidates : list RetentionVerdict)
    (before : list rt_event) (args : list string) : Prop :=
  ∃ earlier since our gates, before = earlier ++ since ∧
    (gates = policy ∨ gates = under_disk_pressure policy) ∧
    removal_licensed our gates candidates since args.

Lemma removal_not_stop our policy candidates since args :
  removal_licensed our policy candidates since args → head args ≠ Some "stop".
Proof.
  destruct 1 as [c earlier au look tags a args Hc Hrm]. unfold removal_of in Hrm.
  destruct (rv_kind c); try done; try by subst. by destruct Hrm as (tags' & -> & _).
Qed.
(** A pass whose commands are removals stops nothing. *)
Lemma stops_removals our policy candidates tr :
  licensed (removal_licensed our policy candidates) tr → stops tr = [].
Proof.
  induction tr as [|e tr IH] using rev_ind; intros Hl; [done|].
  unfold stops in *. rewrite filterb_app, IH; cbn [app].
  - rewrite filterb_cons, filterb_nil. destruct e as [args d o [r|]| | | | | | |]; try done.
    cbn [stopped_ok]. case_bool_decide as Hstop; [|done].
    destruct (reads_only args) eqn:Er; [destruct args; [done|by injection Hstop as ->]|].
    exfalso. eapply removal_not_stop; [|exact Hstop]. by eapply (Hl tr _ _ _ _ []).
  - intros before args d o answer after Heq. apply (Hl before args d o answer (after ++ [e])).
    by rewrite Heq, <- app_assoc.
Qed.

Lemma licensed_app P Q tr new :
  licensed P tr → licensed Q new →
  licensed (λ before args, P before args ∨ ∃ since, before = tr ++ since ∧ Q since args) (tr ++ new).
Proof.
  intros HP. induction new as [|e new IH] using rev_ind; intros HQ before args d o answer after Heq Hargs.
  - rewrite app_nil_r in Heq. left. by eapply HP.
  - rewrite app_assoc in Heq. apply snoc_split in Heq as [(<- & -> & ->)|(after' & -> & Heq)].
    + right. exists new. split; [done|]. by eapply (HQ new _ _ _ _ []).
    + eapply IH; [|exact Heq|done]. intros b x y z w v Hb. apply (HQ b x y z w (v ++ [e])).
      by rewrite Hb, <- app_assoc.
Qed.

Record maintenance_ok (policy : RetentionPolicy) (out : MaintenanceOutcome) (tr : list rt_event)
    (config : ConfigRead) : Prop := {
  mk_config : head tr = Some (EvConfig config);
  mk_off : auto_retention config = false → Forall (λ e, mutates e = false) tr ∧ ma_stopped_idle out = [];
  mk_licensed : licensed (λ before args,
    stop_licensed (as_secs_f64 (container_ttl policy)) before args ∨
    removal_in policy (rp_candidates (mo_plan (ma_retention out))) before args) tr;
  mk_stopped : length (ma_stopped_idle out) = length (stops tr);
  mk_limit : (length (ma_stopped_idle out) ≤ MAX_STOPS_PER_PASS)%nat;
}.

Lemma stop_licensed_cons gate e before args :
  stop_licensed gate before args → stop_licensed gate (e :: before) args.
Proof. intros (earlier & look & id & -> & ? & ?). by exists (e :: earlier), look, id. Qed.
Lemma licensed_stops_cons gate e tr :
  mutates e = false → licensed (stop_licensed gate) tr → licensed (stop_licensed gate) (e :: tr).
Proof.
  intros He Hl before args d o answer after Heq Hargs. destruct before as [|e' before].
  - injection Heq as -> _. cbv beta iota delta [mutates] in He. by rewrite Hargs in He.
  - injection Heq as <- Heq. apply stop_licensed_cons. by eapply Hl.
Qed.

Lemma wp_maintenance policy :
  wp rt_event_of (maintenance policy) [] (λ out tr, ∃ config, maintenance_ok policy out tr config).
Proof.
  apply wp_mbind, (wp_perform rt_event_of RtConfig). intros config. cbn [app rt_event_of].
  assert (∀ stopped idle,
    licensed (stop_licensed (as_secs_f64 (container_ttl policy))) (EvConfig config :: idle) →
    length stopped = length (stops idle) → (length stopped ≤ MAX_STOPS_PER_PASS)%nat →
    (auto_retention config = false → Forall (λ e, mutates e = false) idle ∧ stopped = []) →
    wp rt_event_of (retention ← pass policy (auto_retention config);
      Ret {| ma_stopped_idle := stopped; ma_retention := retention |}) (EvConfig config :: idle)
      (λ out tr, ∃ config, maintenance_ok policy out tr config)) as Hpass.
  { intros stopped idle Hl Hs Hn Hoff. apply wp_mbind. rewrite <- (app_nil_r (EvConfig config :: idle)).
    eapply wp_mono; [|apply wp_frame, wp_pass]. intros retention tr (new & -> & au & gates & Hok).
    exists config. destruct Hok as [_ Hg Hlic Hq _ _ _ _ _]. split; cbn [ma_stopped_idle ma_retention]; try done.
    - intros Hf. destruct (Hoff Hf) as [Hidle ->]. split; [|done].
      apply Forall_app. split; [by constructor|]. apply Hq. by left.
    - intros before args d o answer after Heq Hargs.
      destruct (licensed_app _ _ _ _ Hl Hlic before args d o answer after Heq Hargs)
        as [H|(since & -> & H)]; [by left|right]. by exists (EvConfig config :: idle), since, (au_our au), gates.
    - change (length stopped = length (stops (idle ++ new))). unfold stops. rewrite filterb_app.
      fold (stops new). by rewrite (stops_removals _ _ _ _ Hlic), app_nil_r. }
  apply wp_mbind. destruct (auto_retention config) eqn:Ec.
  - apply wp_mbind. rewrite <- (app_nil_r [EvConfig config]).
    eapply wp_mono; [|apply wp_frame, wp_retire_idle_keepalives].
    intros idle tr (new & -> & [Hl Hs Hn]). cbn [app wp]. apply Hpass; try done.
    by apply licensed_stops_cons.
  - apply Hpass; [apply licensed_of_reads; by repeat constructor|done|cbn; lia|done].
Qed.

(** Unattended maintenance runs only while [auto_retention] is on, and whatever the registry and
    Docker answer, every command of it that changes anything is one of two: a stop of a container
    that the five reads directly before it show to be a running keepalive with nothing but its
    own shell and sleep, owned, unprotected, not pinned, and past the container gate both in age
    and since it was last used; or a removal that the managed pass has just re-checked. *)
Theorem maintenance_touches_only_proved env policy out tr before args d o answer after :
  run rt_event_of env (maintenance policy) [] = (out, tr) →
  tr = before ++ EvEngine args d o answer :: after → reads_only args = false →
  (∃ config, head tr = Some (EvConfig config) ∧ auto_retention config = true) ∧
  (stop_licensed (as_secs_f64 (container_ttl policy)) before args ∨
   removal_in policy (rp_candidates (mo_plan (ma_retention out))) before args).
Proof.
  intros Hrun Htr Hargs. pose proof (run_wp rt_event_of env _ _ _ (wp_maintenance policy)) as Hok.
  rewrite Hrun in Hok. destruct Hok as [config [Hc Hoff Hl _ _]]. cbn [fst snd] in *.
  split; [|by eapply Hl]. exists config. split; [done|].
  destruct (auto_retention config); [done|]. destruct (Hoff eq_refl) as [Hq _]. rewrite Htr in Hq.
  apply Forall_app in Hq as [_ Hq]. apply Forall_cons in Hq as [He _].
  cbv beta iota delta [mutates] in He. by rewrite Hargs in He.
Qed.

(** The containers a maintenance pass reports as stopped are exactly as many as the stops Docker
    answered with success, and never more than 16. *)
Theorem maintenance_stops_counted env policy :
  let '(out, tr) := run rt_event_of env (maintenance policy) [] in
  length (ma_stopped_idle out) = length (stops tr) ∧
  (length (ma_stopped_idle out) ≤ MAX_STOPS_PER_PASS)%nat.
Proof.
  pose proof (run_wp rt_event_of env _ _ _ (wp_maintenance policy)) as Hok.
  destruct (run _ _ _ _) as [out tr]. by destruct Hok as [config []].
Qed.

(** The tables at the moment of the re-check had nothing against a stop: the container is the
    one setup record of its name and content, no lease, task session or volume intent names it,
    and it was last used at least the gate ago. *)
Theorem idle_stop_was_unclaimed d gate look id :
  rows_fit d → idle_evidence gate look id →
  (∀ o, EvOwnership (Ok o) ∈ look → ownership_load (Some d) = Some (Ok o)) →
  ∃ entry r now, cd_id entry = id ∧ is_keepalive entry = true ∧
    (∃ key, db_resources d !! key = Some r) ∧ re_kind r = Container ∧
    re_name r = engine_name entry ∧ ¬ held_by_tables d r ∧ f64_ge (idle_since now r) gate = true.
Proof using decode_containers f64_to_string.
  clear decode_volumes decode_images decode_df. intros Hfit [r entry top o now now' age proof Hi Hok Htop Hrun Hkeep Hage Hnorm Hidle] Hload.
  destruct (setup_proof_is_the_tables f64_to_string d o Container (engine_name entry)
    (config_labels (cd_config entry)) now' proof) as (row & digest & Hrow & _ & Hrec & _ & _ & _ & Hsince & Hheld);
    [done|apply Hload; set_solver|done|].
  unfold proof_is_idle in Hidle. rewrite !andb_true_iff, !negb_true_iff in Hidle.
  destruct Hidle as [[[Hp _] _] Hge]. unfold setup_record in Hrec.
  rewrite !andb_true_iff, !bool_decide_eq_true in Hrec. destruct Hrec as [[[Hk Hn] _] _].
  exists entry, row, now'. rewrite <- Hheld, Hp, <- Hsince. by split_and!.
Qed.
End theorems.

(** ** A maintenance pass that stops one idle keepalive *)

Definition idle_container : ContainerDetail :=
  {| cd_id := "c1id"; cd_name := "/c1"; cd_created := "2020-01-01T00:00:00Z";
     cd_state := Some {| cs_running := true; cs_started_at := "2020-01-01T00:00:00Z" |};
     cd_mounts := [];
     cd_config := Some {| lc_labels := setup_labels;
                          lc_cmd := Some (login_shell_args MANIFEST_LINUX_IDLE_COMMAND) |};
     cd_size_rw := None |}.
Definition decode_idle (text : string) : option (list ContainerDetail) :=
  if text ==? "[c1]" then Some [idle_container] else None.
Definition keepalive_table : string :=
  "PID  COMMAND" +:+ String lf "1  sh" +:+ String lf "27 sleep" +:+ String lf "".
Definition idle_docker (args : list string) : result string CommandResult :=
  if bool_decide (args = container_ids_with_label LABEL_SETUP_MANAGED) then exits 0 ("c1id" +:+ String lf "") ""
  else if bool_decide (args = inspect_containers ["c1id"]) then exits 0 "[c1]" ""
  else if bool_decide (args = top_args "c1id") then exits 0 keepalive_table ""
  else exits 0 "" "".
Definition idle_world (_ : list rt_event) (c : rt_call) : rt_answer c :=
  match c with
  | RtEngine args _ _ => idle_docker args
  | RtClock => f64_of_Z 2000000000
  | RtAuthority => {| au_ownership := None; au_our := None; au_abandoned := ∅ |}
  | RtOwnership => Ok setup_ownership
  | RtWorkspace _ => WsPresent None
  | RtForget _ => ()
  | RtConfig => ConfigText ("auto_retention = yes # nightly")
  | RtDisk => None
  end.
Definition idle_run : MaintenanceOutcome * list rt_event :=
  run rt_event_of idle_world
    (maintenance_pass_with decode_idle decode_none decode_none decode_none (λ _, "0")
       RetentionPolicy_default) [].

Lemma maintenance_touches_only_proved_witness :
  ma_stopped_idle idle_run.1 = ["c1"] ∧
  ∃ before, stop_licensed decode_idle (λ _, "0") (as_secs_f64 (container_ttl RetentionPolicy_default))
              before (stop_args "c1id").
Proof.
  split; [vm_compute; reflexivity|]. exists (take 11 idle_run.2).
  destruct (maintenance_touches_only_proved decode_idle decode_none decode_none decode_none (λ _, "0")
    idle_world RetentionPolicy_default _ _ (take 11 idle_run.2) (stop_args "c1id") STOP_DEADLINE
    (64 * 1024) (exits 0 "" "") (drop 12 idle_run.2)
    (surjective_pairing idle_run)) as [_ [H|H]]; [vm_compute; reflexivity|reflexivity|exact H|].
  exfalso. destruct H as (earlier & since & our & gates & _ & _ & H).
  exact (removal_not_stop _ _ _ _ _ _ _ _ _ H eq_refl).
Defined.

Lemma idle_stop_was_unclaimed_witness : ¬ held_by_tables setup_db setup_row.
Proof.
  destruct (normalize (λ _, "0") setup_ownership Container "c1" setup_labels (f64_of_Z 2000000000))
    as [proof|] eqn:E; [|vm_compute in E; discriminate].
  assert (proof_is_idle proof (f64_of_Z 422163200)
    (as_secs_f64 (container_ttl RetentionPolicy_default)) = true) as Hidle
    by (injection E as <-; vm_compute; reflexivity).
  destruct (idle_stop_was_unclaimed decode_idle (λ _, "0") setup_db _ _ _
    ltac:(vm_compute; repeat split; discriminate)
    (idle_seen decode_idle (λ _, "0") _
      {| cr_exit_code := 0; cr_stdout := "[c1]"; cr_stderr := "" |} idle_container
      {| cr_exit_code := 0; cr_stdout := keepalive_table; cr_stderr := "" |} setup_ownership
      (f64_of_Z 2000000000) (f64_of_Z 2000000000) (f64_of_Z 422163200) proof
      (ex_intro _ "[c1]" (ex_intro _ [] (conj eq_refl eq_refl)))
      eq_refl ltac:(vm_compute; reflexivity) eq_refl ltac:(vm_compute; reflexivity)
      ltac:(vm_compute; reflexivity) E Hidle))
    as (entry & r & now & _ & _ & [key Hr] & _ & _ & Hheld & _).
  - intros o Ho. rewrite !elem_of_cons in Ho.
    destruct Ho as [[=]|[[=]|[[= ->]|[[=]|[[=]|Ho]]]]]; [vm_compute; reflexivity|].
    by apply not_elem_of_nil in Ho.
  - replace setup_row with r; [exact Hheld|]. unfold setup_db, set_resources in Hr.
    cbn [db_resources] in Hr. apply lookup_singleton_Some in Hr as [_ <-]. reflexivity.
Defined.
