(* ===== verification/Catalog.v ===== *)
(** * Catalog: the machine catalog of registries

    The model of [managed_retention/catalog.rs]: one JSON file per registry that ever ran on the
    machine, naming its state directory. The catalog directory is a list of files in the order
    the system lists them; what the file system says of other paths, and whether its writes
    succeed, are parameters, as is the JSON form of an entry. *)

From Stdlib Require Import Ascii.
From stdpp Require Import pretty.
From S2P Require Export ManagedRetention.

Local Open Scope string_scope.
Local Open Scope list_scope.
Local Open Scope Z_scope.
Local Open Scope bosn_scope.

Definition SCHEMA : Z := 1.
Definition MAX_ENTRIES : nat := 4096.
Definition MAX_ENTRY_BYTES : Z := 16 * 1024.
Definition RELEASED := ".released".

Record Entry := mkEntry { en_schema : Z; en_registry_id : string; en_state_dir : string }.

(** ** Files *)

(** A file of the catalog; its bytes are [None] when it cannot be read. *)
Record DirEntry := mkFile {
  de_name : string; de_regular : bool; de_len : Z; de_bytes : option string }.

(** [Path::join] with a relative name. *)
Definition path_join (dir name : string) : string :=
  if dir ==? "" then name
  else match strip_suffix "/" dir with Some _ => dir +:+ name | None => dir +:+ "/" +:+ name end.

Definition file_named (name : string) (files : list DirEntry) : option DirEntry :=
  head (filterb (λ f, de_name f ==? name) files).
Definition remove_file (name : string) (files : list DirEntry) : list DirEntry :=
  filterb (λ f, negb (de_name f ==? name)) files.
Definition put_file (name bytes : string) (files : list DirEntry) : list DirEntry :=
  remove_file name files ++ [mkFile name true (Z.of_nat (String.length bytes)) (Some bytes)].

(** How a write ends; a failed one may leave part of the staging file. *)
Inductive WriteAnswer := Written | WriteFailed (error : string) (kept : option string).

(** What the file system answers: whether the catalog directory can be listed, and of other
    paths whether they exist ([None]: it cannot tell), are regular files, and their canonical
    form. *)
Record Fs := mkFs {
  fs_listed : bool;
  fs_files : list DirEntry;
  fs_exists : string → option bool;
  fs_is_file : string → bool;
  fs_canonical : string → result string string }.
Definition set_files (fs : Fs) (files : list DirEntry) : Fs :=
  mkFs (fs_listed fs) files (fs_exists fs) (fs_is_file fs) (fs_canonical fs).
(** The answers to the writes of one call. *)
Record Writes := {
  wr_create_dir : result string unit;
  wr_write : WriteAnswer;
  wr_rename : result string unit;
  wr_remove : bool;
  wr_pid : Z }.

Definition DATABASE := "registry.sqlite3".
Definition entry_file (registry_id : string) : string := registry_id +:+ ".json".
Definition staging_file (registry_id : string) (pid : Z) : string :=
  "." +:+ registry_id +:+ "." +:+ pretty pid +:+ ".tmp".

Section catalog.
Context (decode : string → option Entry) (encode : Entry → result string string).
(** The quoted form of a string in a message. *)
Context (quote : string → string).

Definition read_entry (f : DirEntry) : option Entry :=
  if negb (de_regular f) || (MAX_ENTRY_BYTES <? de_len f) then None
  else bytes ← de_bytes f; decode bytes.
Definition read_entry_at (fs : Fs) (name : string) : option Entry :=
  f ← file_named name (fs_files fs); read_entry f.

(** Write-then-rename. *)
Definition write_entry (w : Writes) (fs : Fs) (entry : Entry) : result string unit * Fs :=
  match wr_create_dir w with
  | Err error => (Err error, fs)
  | Ok _ =>
      match encode entry with
      | Err error => (Err error, fs)
      | Ok text =>
          let staging := staging_file (en_registry_id entry) (wr_pid w) in
          match wr_write w with
          | WriteFailed error kept =>
              (Err error, match kept with
                          | Some bytes => set_files fs (put_file staging bytes (fs_files fs))
                          | None => fs
                          end)
          | Written =>
              let files := put_file staging text (fs_files fs) in
              match wr_rename w with
              | Ok _ =>
                  (Ok (), set_files fs (put_file (entry_file (en_registry_id entry)) text
                                          (remove_file staging files)))
              | Err error =>
                  (Err error, set_files fs (if wr_remove w then remove_file staging files else files))
              end
          end
      end
  end.

Definition enroll_at (w : Writes) (fs : Fs) (state_dir registry_id : string) :
    result string unit * Fs :=
  if negb (valid_registry_id registry_id)
  then (Err ("registry id " +:+ quote registry_id +:+ " is not catalogable"), fs)
  else match fs_canonical fs state_dir with
       | Err error => (Err error, fs)
       | Ok state_dir =>
           match read_entry_at fs (entry_file registry_id) with
           | Some existing =>
               if en_state_dir existing ==? state_dir then (Ok (), fs)
               else write_entry w fs (mkEntry SCHEMA registry_id state_dir)
           | None => write_entry w fs (mkEntry SCHEMA registry_id state_dir)
           end
       end.

(** The file's entry under its own name. *)
Definition named_entry (f : DirEntry) : option (string * Entry) :=
  if negb (is_utf8 (de_name f)) then None
  else stem ← strip_suffix ".json" (de_name f); entry ← read_entry f; Some (stem, entry).

(** The loop of [cataloged_identity_at]: a second match proves nothing. *)
Fixpoint identity_loop (state_dir : string) (found : option string) (files : list DirEntry) :
    option string :=
  match files with
  | [] => found
  | f :: files =>
      match named_entry f with
      | None => identity_loop state_dir found files
      | Some (stem, entry) =>
          if negb (en_registry_id entry ==? stem) || negb (en_schema entry ==? SCHEMA)
             || negb (valid_registry_id (en_registry_id entry))
             || negb (en_state_dir entry ==? state_dir)
          then identity_loop state_dir found files
          else match found with
               | Some _ => None
               | None => identity_loop state_dir (Some (en_registry_id entry)) files
               end
      end
  end.
Definition cataloged_identity_at (fs : Fs) (state_dir : string) : option string :=
  match fs_canonical fs state_dir with
  | Err _ => None
  | Ok state_dir =>
      if fs_listed fs then identity_loop state_dir None (take MAX_ENTRIES (fs_files fs)) else None
  end.

Definition live_peer (fs : Fs) (f : DirEntry) : option string :=
  '(stem, entry) ← named_entry f;
  if (en_registry_id entry ==? stem) && (en_schema entry ==? SCHEMA)
     && valid_registry_id (en_registry_id entry)
     && fs_is_file fs (path_join (en_state_dir entry) DATABASE)
  then Some (en_registry_id entry) else None.
Definition live_peers_at (fs : Fs) : gset string :=
  if fs_listed fs then list_to_set (omap (live_peer fs) (take MAX_ENTRIES (fs_files fs))) else ∅.

Inductive Release := Released | AlreadyAbandoned.
Definition release_at (w : Writes) (fs : Fs) (root : string) (ours : option string)
    (registry_id : string) : result string Release * Fs :=
  if negb (valid_registry_id registry_id)
  then (Err (quote registry_id +:+ " is not a registry id (a UUID)"), fs)
  else if ours ==? Some registry_id then (Err "that is this machine's own registry", fs)
  else match read_entry_at fs (entry_file registry_id) with
       | Some entry =>
           (match fs_exists fs (path_join (en_state_dir entry) DATABASE) with
            | Some false => Ok AlreadyAbandoned
            | _ => Err ("registry " +:+ registry_id +:+ " is live: its database at " +:+
                        en_state_dir entry +:+ " still exists")
            end, fs)
       | None =>
           let '(r, fs) := write_entry w fs
             (mkEntry SCHEMA registry_id (path_join (path_join root RELEASED) registry_id)) in
           (match r with Ok _ => Ok Released | Err error => Err error end, fs)
       end.

Definition abandoned_entry (fs : Fs) (ours : string) (f : DirEntry) : option string :=
  '(stem, entry) ← named_entry f;
  if negb (en_registry_id entry ==? stem) || (en_registry_id entry ==? ours)
     || negb (en_schema entry ==? SCHEMA)
  then None
  else match fs_exists fs (path_join (en_state_dir entry) DATABASE) with
       | Some false => Some (en_registry_id entry)
       | _ => None
       end.
Definition abandoned_at (fs : Fs) (ours : string) : gset string :=
  if fs_listed fs then list_to_set (omap (abandoned_entry fs ours) (take MAX_ENTRIES (fs_files fs)))
  else ∅.

(** [machine] is the native state directory. *)
Definition abandoned (fs : Fs) (machine state_dir : string) (our_registry : option string) :
    gset string :=
  match our_registry with
  | None => ∅
  | Some ours =>
      match fs_canonical fs state_dir, fs_canonical fs machine with
      | Ok here, Ok there => if here ==? there then abandoned_at fs ours else ∅
      | _, _ => ∅
      end
  end.

(** [removed]: whether the removal of the file succeeds. *)
Definition forget_at (removed : bool) (fs : Fs) (registry_id : string) : Fs :=
  if valid_registry_id registry_id && removed
  then set_files fs (remove_file (entry_file registry_id) (fs_files fs)) else fs.
End catalog.

(** ** What the catalog proves *)

Section theorems.
Context (decode : string → option Entry) (encode : Entry → result string string).
Context (quote : string → string).

Notation read_entry := (read_entry decode).
Notation named_entry := (named_entry decode).
Notation write_entry := (write_entry encode).
Notation enroll_at := (enroll_at decode encode quote).
Notation release_at := (release_at decode encode quote).
Notation abandoned_at := (abandoned_at decode).
Notation live_peers_at := (live_peers_at decode).
Notation cataloged_identity_at := (cataloged_identity_at decode).

(** A directory names each file once. *)
Definition names_unique (fs : Fs) : Prop := NoDup (de_name <$> fs_files fs).

Lemma elem_of_remove_file name files f : f ∈ remove_file name files ↔ f ∈ files ∧ de_name f ≠ name.
Proof.
  unfold remove_file. rewrite elem_of_filterb, negb_true_iff, bool_decide_eq_false. naive_solver.
Qed.
Lemma elem_of_put_file name bytes files f :
  f ∈ put_file name bytes files ↔
  (f ∈ files ∧ de_name f ≠ name) ∨ f = mkFile name true (Z.of_nat (String.length bytes)) (Some bytes).
Proof. unfold put_file. by rewrite elem_of_app, elem_of_remove_file, list_elem_of_singleton. Qed.

Lemma file_named_Some name files f : file_named name files = Some f → f ∈ files ∧ de_name f = name.
Proof.
  unfold file_named. destruct (filterb _ _) as [|x l] eqn:E; [done|]. intros [= ->].
  assert (f ∈ filterb (λ f, de_name f ==? name) files) as H by (rewrite E; by left).
  rewrite elem_of_filterb, bool_decide_eq_true in H. naive_solver.
Qed.
Lemma file_named_unique fs f :
  names_unique fs → f ∈ fs_files fs → file_named (de_name f) (fs_files fs) = Some f.
Proof.
  unfold names_unique, file_named. induction (fs_files fs) as [|x l IH]; intros Hnd Hf.
  { by apply not_elem_of_nil in Hf. }
  rewrite filterb_cons. apply NoDup_cons in Hnd as [Hx Hnd]. apply elem_of_cons in Hf as [->|Hf].
  - by rewrite bool_decide_true.
  - rewrite bool_decide_false; [by apply IH|]. intros Heq. apply Hx. rewrite Heq.
    apply list_elem_of_fmap. eauto.
Qed.

Lemma named_entry_Some f stem entry :
  named_entry f = Some (stem, entry) → de_name f = entry_file stem ∧ read_entry f = Some entry.
Proof.
  unfold named_entry, entry_file. destruct (is_utf8 _); [|done]. cbn [negb].
  destruct (strip_suffix _ _) as [x|] eqn:Es; [|done]. apply strip_suffix_Some in Es. cbn.
  destruct (Catalog.read_entry decode f) as [e|]; [|done]. by intros [= <- <-].
Qed.

Lemma valid_id_ascii id : valid_registry_id id = true → all_bytes (λ a, code a <? 128) id = true.
Proof.
  unfold valid_registry_id. intros [_ H]%andb_true_iff. revert H. generalize 0%nat.
  induction id as [|a id IH]; intros n; [done|]. cbn [uuid_bytes all_bytes].
  intros [Ha Hid]%andb_true_iff. rewrite (IH (S n) Hid), andb_true_r. unfold uuid_byte in Ha.
  destruct (bool_decide _); [by apply Ascii.eqb_eq in Ha as ->|].
  unfold is_hexdigit, is_digit, in_range in Ha. booleans; lia.
Qed.
Lemma named_entry_valid f id entry :
  valid_registry_id id = true → de_name f = entry_file id → read_entry f = Some entry →
  named_entry f = Some (id, entry).
Proof.
  intros Hid Hn Hr. unfold named_entry. rewrite Hn. unfold entry_file.
  rewrite is_utf8_ascii by (by rewrite all_bytes_app, valid_id_ascii). cbn [negb].
  rewrite strip_suffix_app. cbn. by rewrite Hr.
Qed.

(** A file that gives an entry under its own name and the current schema. *)
Definition speaks_for (f : DirEntry) (id dir : string) : Prop :=
  named_entry f = Some (id, mkEntry SCHEMA id dir).

Lemma elem_of_abandoned fs ours id :
  id ∈ abandoned_at fs ours →
  id ≠ ours ∧ ∃ f dir, f ∈ fs_files fs ∧ speaks_for f id dir ∧
    fs_exists fs (path_join dir DATABASE) = Some false.
Proof.
  unfold Catalog.abandoned_at. destruct (fs_listed fs); [|set_solver].
  rewrite elem_of_list_to_set, list_elem_of_omap. intros (f & Hf & H).
  apply elem_of_take in Hf as (i & Hf & _). apply list_elem_of_lookup_2 in Hf.
  unfold abandoned_entry in H. destruct (Catalog.named_entry decode f) as [[stem [schema id' dir]]|] eqn:En; [|done].
  cbn in H. destruct (_ || _) eqn:Eb; [done|]. rewrite !orb_false_iff, !negb_false_iff in Eb.
  rewrite bool_decide_eq_true, bool_decide_eq_false, bool_decide_eq_true in Eb.
  destruct Eb as [[-> Hours] ->]. destruct (fs_exists _ _) as [[]|] eqn:Ee; try done.
  injection H as ->. split; [done|]. by exists f, dir.
Qed.
Lemma elem_of_live fs id :
  id ∈ live_peers_at fs →
  ∃ f dir, f ∈ fs_files fs ∧ speaks_for f id dir ∧ fs_is_file fs (path_join dir DATABASE) = true.
Proof.
  unfold Catalog.live_peers_at. destruct (fs_listed fs); [|set_solver].
  rewrite elem_of_list_to_set, list_elem_of_omap. intros (f & Hf & H).
  apply elem_of_take in Hf as (i & Hf & _). apply list_elem_of_lookup_2 in Hf.
  unfold live_peer in H. destruct (Catalog.named_entry decode f) as [[stem [schema id' dir]]|] eqn:En; [|done].
  cbn in H. destruct (_ && _) eqn:Eb; [|done]. rewrite !andb_true_iff, !bool_decide_eq_true in Eb.
  destruct Eb as [[[-> ->] _] Hfile]. injection H as ->. by exists f, dir.
Qed.

(** Two files of a directory cannot speak for one registry. *)
Lemma speaks_for_unique fs f g id dir dir' :
  names_unique fs → f ∈ fs_files fs → g ∈ fs_files fs → speaks_for f id dir → speaks_for g id dir' →
  f = g ∧ dir = dir'.
Proof.
  intros Hu Hf Hg [Hfn Hfr]%named_entry_Some [Hgn Hgr]%named_entry_Some. apply (file_named_unique fs) in Hf, Hg; [|done..].
  rewrite Hfn in Hf. rewrite Hgn, Hf in Hg. injection Hg as <-. split; [done|]. congruence.
Qed.

(** ** Abandoned and live *)

(** A regular file exists: what the two questions of the file system have in common. *)
Definition files_exist (fs : Fs) : Prop := ∀ p, fs_is_file fs p = true → fs_exists fs p = Some true.

(** Only a definite answer that a registry's database is gone abandons it: the reclaimed
    registries never include this daemon's own, nor one whose database is there or cannot be
    seen, and none of them is a live peer. *)
Theorem abandoned_registries_are_gone fs ours :
  names_unique fs → files_exist fs →
  ours ∉ abandoned_at fs ours ∧ abandoned_at fs ours ## live_peers_at fs ∧
  (∀ f id dir, f ∈ fs_files fs → speaks_for f id dir →
     fs_exists fs (path_join dir DATABASE) ≠ Some false → id ∉ abandoned_at fs ours).
Proof.
  intros Hu Hex. split_and!.
  - intros H. by apply elem_of_abandoned in H as [? _].
  - intros id (_ & f & dir & Hf & Hs & Hgone)%elem_of_abandoned (g & dir' & Hg & Hs' & Hfile)%elem_of_live.
    destruct (speaks_for_unique fs f g id dir dir') as [_ <-]; try done. apply Hex in Hfile. congruence.
  - intros f id dir Hf Hs Hno (_ & g & dir' & Hg & Hs' & Hgone)%elem_of_abandoned.
    destruct (speaks_for_unique fs f g id dir dir') as [_ <-]; try done.
Qed.

(** ** Writing an entry *)

Lemma write_entry_Ok w fs entry fs' :
  write_entry w fs entry = (Ok (), fs') →
  ∃ text, encode entry = Ok text ∧ fs_listed fs' = fs_listed fs ∧ fs_exists fs' = fs_exists fs ∧
    fs_canonical fs' = fs_canonical fs ∧ fs_is_file fs' = fs_is_file fs ∧
    fs_files fs' = put_file (entry_file (en_registry_id entry)) text
      (remove_file (staging_file (en_registry_id entry) (wr_pid w)) (fs_files fs)).
Proof.
  unfold Catalog.write_entry. intros H. repeat case_match; simplify_eq. eexists. split_and!; try done.
  cbn [fs_files set_files]. f_equal. unfold put_file, remove_file. rewrite filterb_app.
  rewrite filterb_cons, filterb_nil, bool_decide_true by done. cbn [negb]. rewrite app_nil_r.
  induction (fs_files fs) as [|f l IH]; [done|]. rewrite !filterb_cons.
  destruct (negb _) eqn:E; [|done]. by rewrite filterb_cons, E, IH.
Qed.

(** The written file speaks for its registry. *)
Definition entry_file_of (entry : Entry) (text : string) : DirEntry :=
  mkFile (entry_file (en_registry_id entry)) true (Z.of_nat (String.length text)) (Some text).
Context (round_trip : ∀ entry text, encode entry = Ok text → decode text = Some entry).
Definition entries_fit (entry : Entry) : Prop :=
  ∀ text, encode entry = Ok text → Z.of_nat (String.length text) ≤ MAX_ENTRY_BYTES.

Lemma written_speaks id dir text :
  valid_registry_id id = true → entries_fit (mkEntry SCHEMA id dir) →
  encode (mkEntry SCHEMA id dir) = Ok text → speaks_for (entry_file_of (mkEntry SCHEMA id dir) text) id dir.
Proof.
  intros Hid Hfit Henc. apply named_entry_valid; [done|done|]. unfold Catalog.read_entry. cbn [de_regular de_len de_bytes entry_file_of negb orb].
  rewrite (proj2 (Z.ltb_ge _ _)) by (by apply Hfit). cbn. by apply round_trip.
Qed.

Lemma NoDup_remove_file name files : NoDup (de_name <$> files) → NoDup (de_name <$> remove_file name files).
Proof.
  unfold remove_file. induction files as [|f files IH]; [done|]. cbn [fmap list_fmap].
  intros [Hf Hnd]%NoDup_cons. rewrite filterb_cons. destruct (negb _); [|by apply IH].
  cbn. apply NoDup_cons. split; [|by apply IH]. contradict Hf.
  apply list_elem_of_fmap in Hf as (g & -> & [_ Hg]%elem_of_filterb). apply list_elem_of_fmap. eauto.
Qed.
Lemma names_unique_put fs name bytes keep fs' :
  names_unique fs → fs_files fs' = put_file name bytes (remove_file keep (fs_files fs)) → names_unique fs'.
Proof.
  unfold names_unique. intros Hu ->. unfold put_file. rewrite fmap_app. apply NoDup_app. split_and!.
  - by do 2 apply NoDup_remove_file.
  - intros x (f & -> & [_ Hf]%elem_of_remove_file)%list_elem_of_fmap. cbn. set_solver.
  - apply NoDup_singleton.
Qed.

(** When the whole directory fits the scan, an entry with its database gone is abandoned. *)
Lemma abandoned_intro fs ours f id dir :
  fs_listed fs = true → (length (fs_files fs) ≤ MAX_ENTRIES)%nat → f ∈ fs_files fs →
  speaks_for f id dir → id ≠ ours → fs_exists fs (path_join dir DATABASE) = Some false →
  id ∈ abandoned_at fs ours.
Proof.
  intros Hl Hlen Hf Hs Hne Hgone. unfold Catalog.abandoned_at. rewrite Hl, take_ge by done.
  rewrite elem_of_list_to_set, list_elem_of_omap. exists f. split; [done|].
  unfold abandoned_entry. rewrite Hs. cbn. rewrite !(bool_decide_true (_ = _)) by done.
  rewrite bool_decide_false by done. cbn. by rewrite Hgone.
Qed.

Lemma entry_file_inj id id' : entry_file id = entry_file id' → id = id'.
Proof.
  unfold entry_file. intros H. apply (f_equal (strip_suffix ".json")) in H.
  rewrite !strip_suffix_app in H. by injection H.
Qed.

(** A staging file never speaks for a registry: its name ends in [.tmp]. *)
Lemma staging_silent f id pid id' dir : de_name f = staging_file id pid → ¬ speaks_for f id' dir.
Proof.
  intros Hn [Hn' _]%named_entry_Some. rewrite Hn in Hn'. apply (f_equal str_reverse) in Hn'.
  unfold staging_file, entry_file in Hn'. rewrite !str_reverse_app in Hn'. discriminate Hn'.
Qed.

(** An operator's release is what it says: only for a registry that is not this machine's and
    that no readable entry of the catalog names; afterwards exactly that registry is abandoned
    besides those that were. *)
Theorem released_registry_is_abandoned w fs root ours id fs' :
  let tomb := path_join (path_join root RELEASED) id in
  names_unique fs → fs_listed fs = true → (length (fs_files fs) ≤ MAX_ENTRIES)%nat →
  (length (fs_files fs') ≤ MAX_ENTRIES)%nat → entries_fit (mkEntry SCHEMA id tomb) →
  fs_exists fs (path_join tomb DATABASE) = Some false →
  release_at w fs root ours id = (Ok Released, fs') →
  valid_registry_id id = true ∧ ours ≠ Some id ∧ read_entry_at decode fs (entry_file id) = None ∧
  ∀ mine, mine ≠ id → abandoned_at fs' mine = {[id]} ∪ abandoned_at fs mine.
Proof.
  intros tomb Hu Hl Hlen Hlen' Hfit Htomb Hrel. unfold Catalog.release_at in Hrel.
  destruct (valid_registry_id id) eqn:Hid; [|done]. cbn [negb] in Hrel.
  case_bool_decide as Hours; [done|].
  destruct (read_entry_at decode fs (entry_file id)) as [e|] eqn:Er;
    [revert Hrel; by destruct (fs_exists _ (path_join (en_state_dir e) _)) as [[]|]|].
  destruct (Catalog.write_entry _ _ _ _) as [[[]|] fs2] eqn:Ew; [|done]. injection Hrel as ->.
  apply write_entry_Ok in Ew as (text & Henc & Hl' & Hex & _ & _ & Hfiles). split_and!; try done.
  pose proof (written_speaks id tomb text Hid Hfit Henc) as Hnew.
  set (new := entry_file_of _ _) in Hnew.
  assert (∀ f, f ∈ fs_files fs' ↔ (f ∈ fs_files fs ∧ de_name f ≠ staging_file id (wr_pid w) ∧
    de_name f ≠ entry_file id) ∨ f = new) as Hin.
  { intros f. rewrite Hfiles, elem_of_put_file, elem_of_remove_file. naive_solver. }
  intros mine Hmine. apply set_eq. intros x. rewrite elem_of_union, elem_of_singleton. split.
  - intros (Hx & f & dir & [(Hf & _)| ->]%Hin & Hs & Hgone)%elem_of_abandoned.
    + right. rewrite Hex in Hgone. by eapply abandoned_intro.
    + left. apply named_entry_Some in Hs as [Hn _]. by apply entry_file_inj in Hn.
  - intros [->|(Hx & f & dir & Hf & Hs & Hgone)%elem_of_abandoned].
    + apply (abandoned_intro fs' mine new id tomb); try done; [by rewrite Hl'|by apply Hin; right|by rewrite Hex].
    + apply (abandoned_intro fs' mine f x dir); try done; [by rewrite Hl'| |by rewrite Hex].
      apply Hin. left. split_and!; [done| |].
      * intros Hst. by eapply staging_silent.
      * intros Hn. destruct (named_entry_Some f x _ Hs) as [Hn' Hr].
        unfold read_entry_at in Er. rewrite <- Hn, (file_named_unique fs f) in Er by done.
        cbn in Er. congruence.
Qed.

(** ** Enrolment and its restoration *)

(** The registry a file gives for a state directory. *)
Definition identity_of (dir : string) (f : DirEntry) : option string :=
  '(stem, entry) ← named_entry f;
  if (en_registry_id entry ==? stem) && (en_schema entry ==? SCHEMA)
     && valid_registry_id (en_registry_id entry) && (en_state_dir entry ==? dir)
  then Some (en_registry_id entry) else None.

Lemma identity_loop_spec dir found files :
  identity_loop decode dir found files =
  match found, omap (identity_of dir) files with
  | None, [id] => Some id
  | Some id, [] => Some id
  | _, _ => None
  end.
Proof.
  revert found. induction files as [|f files IH]; intros found; [by destruct found|].
  change (omap (identity_of dir) (f :: files)) with
    (match identity_of dir f with Some y => y :: omap (identity_of dir) files
                             | None => omap (identity_of dir) files end).
  cbn [identity_loop]. destruct (identity_of dir f) as [y|] eqn:Ei; unfold identity_of in Ei;
    destruct (Catalog.named_entry decode f) as [[stem entry]|]; try done; cbn [mbind option_bind] in Ei;
    try apply IH; destruct (en_registry_id entry ==? stem), (en_schema entry ==? SCHEMA),
    (valid_registry_id _), (en_state_dir entry ==? dir); try done; cbn [negb orb]; try apply IH.
  injection Ei as <-. destruct found as [other|]; [done|]. rewrite IH. by destruct (omap _ _).
Qed.
Lemma identity_of_speaks dir f id :
  identity_of dir f = Some id ↔ speaks_for f id dir ∧ valid_registry_id id = true.
Proof.
  unfold identity_of, speaks_for. destruct (Catalog.named_entry decode f) as [[stem [schema id' dir']]|]; [|naive_solver].
  cbn. destruct (_ && _) eqn:E; [rewrite !andb_true_iff, !bool_decide_eq_true in E; naive_solver|].
  split; [done|]. intros [[= -> -> -> ->] Hv]. rewrite !bool_decide_true, Hv in E by done. done.
Qed.

(** The one file that gives an answer. *)
Lemma omap_only {A B} (g : A → option B) l x y :
  NoDup l → x ∈ l → g x = Some y → (∀ z, z ∈ l → z ≠ x → g z = None) → omap g l = [y].
Proof.
  induction l as [|z l IH]; intros Hnd Hx Hy Hrest; [by apply not_elem_of_nil in Hx|].
  apply NoDup_cons in Hnd as [Hz Hnd]. cbn. apply elem_of_cons in Hx as [<-|Hx].
  - rewrite Hy. f_equal. clear IH. induction l as [|z' l IH]; [done|]. cbn.
    rewrite (Hrest z') by set_solver. apply IH; [set_solver|by apply NoDup_cons in Hnd as []|set_solver].
  - rewrite (Hrest z) by set_solver. apply IH; [done|done|done|set_solver].
Qed.

Lemma identity_found fs state_dir dir f id :
  names_unique fs → fs_listed fs = true → (length (fs_files fs) ≤ MAX_ENTRIES)%nat →
  fs_canonical fs state_dir = Ok dir → f ∈ fs_files fs → speaks_for f id dir →
  valid_registry_id id = true →
  (∀ g other, g ∈ fs_files fs → speaks_for g other dir → other = id) →
  cataloged_identity_at fs state_dir = Some id.
Proof.
  intros Hu Hl Hlen Hc Hf Hs Hid Honly. unfold Catalog.cataloged_identity_at. rewrite Hc, Hl, take_ge by done.
  rewrite identity_loop_spec, (omap_only _ _ f id); [done|by eapply NoDup_fmap_1|done|by apply identity_of_speaks|].
  intros g Hg Hne. destruct (identity_of dir g) as [other|] eqn:E; [|done]. exfalso. apply Hne.
  apply identity_of_speaks in E as [Hs' _]. rewrite (Honly g other) in Hs' by done.
  by destruct (speaks_for_unique fs g f id dir dir).
Qed.

(** The catalog's directory names its files once and has a file that gives registry [id] for the
    state directory [dir], which no file gives to another registry. *)
Definition Cataloged (id dir : string) (fs : Fs) : Prop :=
  names_unique fs ∧ (∃ f, f ∈ fs_files fs ∧ speaks_for f id dir) ∧
  ∀ g other, g ∈ fs_files fs → speaks_for g other dir → other = id.

(** What writing an entry may do to the directory, however it ends. *)
Lemma write_entry_files w fs entry r fs' :
  let staging := staging_file (en_registry_id entry) (wr_pid w) in
  write_entry w fs entry = (r, fs') → names_unique fs →
  names_unique fs' ∧
  (∀ f, f ∈ fs_files fs' → f ∈ fs_files fs ∨ de_name f = staging ∨
     ∃ text, encode entry = Ok text ∧ f = entry_file_of entry text) ∧
  (∀ f, f ∈ fs_files fs → de_name f ≠ staging → de_name f ≠ entry_file (en_registry_id entry) →
     f ∈ fs_files fs').
Proof.
  intros staging Hw Hu.
  assert (∀ name bytes files, NoDup (de_name <$> files) →
    NoDup (de_name <$> put_file name bytes files)) as Hput.
  { intros name bytes files Hnd. unfold put_file. rewrite fmap_app. apply NoDup_app. split_and!.
    - by apply NoDup_remove_file.
    - intros x (f & -> & [_ Hf]%elem_of_remove_file)%list_elem_of_fmap. cbn. set_solver.
    - apply NoDup_singleton. }
  unfold Catalog.write_entry in Hw. unfold names_unique in *.
  repeat case_match; simplify_eq; cbn [fs_files set_files]; (split; [by auto using NoDup_remove_file|]);
    setoid_rewrite elem_of_put_file || idtac; setoid_rewrite elem_of_remove_file || idtac;
    setoid_rewrite elem_of_put_file || idtac; unfold entry_file_of; naive_solver.
Qed.

Context (id dir : string).

(** A write for another registry and another state directory. *)
Lemma write_entry_Cataloged w fs other dir' :
  other ≠ id → dir' ≠ dir → Cataloged id dir fs →
  Cataloged id dir (write_entry w fs (mkEntry SCHEMA other dir')).2.
Proof.
  intros Hne Hdir (Hu & (f & Hf & Hs) & Honly).
  destruct (write_entry w fs _) as [r fs'] eqn:Hw.
  destruct (write_entry_files _ _ _ _ _ Hw Hu) as (Hu' & Hin & Hkeep). cbn [snd]. split_and!; [done| |].
  - exists f. split; [|done]. apply Hkeep; [done| |].
    + intros Hn. by eapply staging_silent.
    + apply named_entry_Some in Hs as [-> _]. intros He%entry_file_inj. cbn in He. congruence.
  - intros g o Hg Hso. destruct (Hin g Hg) as [?|[Hn|(text & Henc & ->)]]; [by eapply Honly| |].
    + exfalso. by eapply staging_silent.
    + exfalso. apply Hdir. apply named_entry_Some in Hso as [_ Hr].
      unfold Catalog.read_entry in Hr. cbn in Hr. destruct (_ <? _); [done|]. cbn in Hr.
      rewrite (round_trip _ _ Henc) in Hr. by injection Hr.
Qed.

(** What happens to the catalog while the daemon of [id] is down: the file system answers
    differently of everything but the files of the catalog, and other daemons enrol other
    registries from other state directories, release a registry, or forget another one. Each
    call may fail at any of its steps. *)
Inductive others_change : Fs → Fs → Prop :=
| others_world fs fs' : fs_files fs' ≡ₚ fs_files fs → others_change fs fs'
| others_enroll w fs state_dir other :
    other ≠ id → fs_canonical fs state_dir ≠ Ok dir →
    others_change fs (enroll_at w fs state_dir other).2
| others_release w fs root ours other :
    path_join (path_join root RELEASED) other ≠ dir →
    others_change fs (release_at w fs root ours other).2
| others_forget removed fs other :
    other ≠ id → others_change fs (forget_at removed fs other).

Lemma read_own_entry fs :
  Cataloged id dir fs → read_entry_at decode fs (entry_file id) = Some (mkEntry SCHEMA id dir).
Proof.
  intros (Hu & (f & Hf & [Hn Hr]%named_entry_Some) & _). unfold read_entry_at.
  rewrite <- Hn, (file_named_unique fs f) by done. done.
Qed.

Lemma others_change_Cataloged fs fs' :
  others_change fs fs' → Cataloged id dir fs → Cataloged id dir fs'.
Proof.
  intros [fs1 fs2 Hp|w fs1 sd other Hne Hdir|w fs1 root ours other Htomb|removed fs1 other Hne] HC.
  - destruct HC as (Hu & Hf & Honly). unfold Cataloged, names_unique. rewrite Hp. split; [done|].
    split; [destruct Hf as (f & ? & ?); exists f; by rewrite Hp|].
    intros g o Hg. rewrite Hp in Hg. by apply Honly.
  - unfold Catalog.enroll_at. destruct (valid_registry_id other); [|done]. cbn [negb].
    destruct (fs_canonical fs1 sd) as [d|e]; [|done]. assert (d ≠ dir) by congruence.
    destruct (read_entry_at _ _ _) as [existing|]; [|by apply write_entry_Cataloged].
    case_bool_decide; [done|by apply write_entry_Cataloged].
  - unfold Catalog.release_at. destruct (valid_registry_id other); [|done]. cbn [negb].
    case_bool_decide; [done|]. destruct (decide (other = id)) as [->|Hne].
    { rewrite read_own_entry by done. done. }
    destruct (read_entry_at _ _ _) as [existing|]; [done|].
    pose proof (write_entry_Cataloged w fs1 other _ Hne Htomb HC) as HC'.
    by destruct (Catalog.write_entry _ _ _ _).
  - unfold forget_at. destruct (_ && _); [|done]. destruct HC as (Hu & (f & Hf & Hs) & Honly).
    split_and!; cbn.
    + by apply NoDup_remove_file.
    + exists f. split; [|done]. apply elem_of_remove_file. split; [done|].
      apply named_entry_Some in Hs as [-> _]. intros He%entry_file_inj. cbn in He. congruence.
    + intros g o [Hg _]%elem_of_remove_file. by apply Honly.
Qed.

(** A successful enrolment catalogs the registry, unless the catalog already names another one
    for the directory, or the registry's own file gives the directory under another schema or
    registry, which enrolment leaves as it is. *)
Lemma enroll_at_Cataloged w fs state_dir fs' :
  names_unique fs → fs_canonical fs state_dir = Ok dir → entries_fit (mkEntry SCHEMA id dir) →
  (∀ g other, g ∈ fs_files fs → speaks_for g other dir → other = id) →
  (∀ e, read_entry_at decode fs (entry_file id) = Some e → en_registry_id e = id ∧ en_schema e = SCHEMA) →
  enroll_at w fs state_dir id = (Ok (), fs') →
  valid_registry_id id = true ∧ Cataloged id dir fs'.
Proof.
  intros Hu Hc Hfit Honly Hown Henroll. unfold Catalog.enroll_at in Henroll.
  destruct (valid_registry_id id) eqn:Hid; [|done]. cbn [negb] in Henroll. rewrite Hc in Henroll.
  split; [done|].
  assert (∀ r, write_entry w fs (mkEntry SCHEMA id dir) = r → r = (Ok (), fs') →
    Cataloged id dir fs') as Hwrite.
  { intros r <- Hw. apply write_entry_Ok in Hw as (text & Henc & _ & _ & _ & _ & Hfiles).
    split_and!; [by eapply names_unique_put| |].
    - exists (entry_file_of (mkEntry SCHEMA id dir) text). split; [|by apply written_speaks].
      rewrite Hfiles, elem_of_put_file. by right.
    - intros g other Hg Hs. rewrite Hfiles, elem_of_put_file, elem_of_remove_file in Hg.
      destruct Hg as [[[Hg _] _]| ->]; [by eapply Honly|].
      apply named_entry_Some in Hs as [Hn _]. by apply entry_file_inj in Hn. }
  destruct (read_entry_at decode fs (entry_file id)) as [e|] eqn:Er; [|by eapply Hwrite].
  case_bool_decide as Hdir; [|by eapply Hwrite]. injection Henroll as <-.
  destruct (Hown e) as [Hid' Hsch]; [done|]. destruct e as [schema id' dir']. cbn in *. subst.
  unfold read_entry_at in Er. destruct (file_named _ _) as [f|] eqn:Ef; [|done]. cbn in Er.
  apply file_named_Some in Ef as [Hf Hn]. split_and!; [done| |done].
  exists f. split; [done|]. by apply named_entry_valid.
Qed.

(** An enrolled registry is found again, whatever others did to the catalog meanwhile. *)
Lemma enrolled_found fs fs' state_dir :
  valid_registry_id id = true → Cataloged id dir fs → rtc others_change fs fs' →
  fs_listed fs' = true → (length (fs_files fs') ≤ MAX_ENTRIES)%nat →
  fs_canonical fs' state_dir = Ok dir →
  cataloged_identity_at fs' state_dir = Some id.
Proof.
  intros Hid HC Hsteps Hl Hlen Hc.
  assert (Cataloged id dir fs') as (Hu & (f & Hf & Hs) & Honly).
  { induction Hsteps; eauto using others_change_Cataloged. }
  by apply (identity_found fs' state_dir dir f).
Qed.
End theorems.

(** ** A catalog with one released registry *)

#[global] Instance Entry_eq_dec : EqDecision Entry.
Proof. solve_decision. Defined.

Definition sample_registry := "11111111-2222-4333-8444-555555555555".
Definition sample_tomb := mkEntry SCHEMA sample_registry
  (path_join (path_join "/state/registries" RELEASED) sample_registry).
Definition sample_home := mkEntry SCHEMA sample_registry "/home/state".
(** A JSON form for the two entries. *)
Definition sample_encode (e : Entry) : result string string :=
  if e ==? sample_tomb then Ok "tomb" else if e ==? sample_home then Ok "home" else Err "io".
Definition sample_decode (text : string) : option Entry :=
  if text ==? "tomb" then Some sample_tomb else if text ==? "home" then Some sample_home else None.
Definition empty_catalog : Fs :=
  mkFs true [] (λ _, Some false) (λ _, false) (λ p, Ok p).
Definition writes_succeed : Writes :=
  {| wr_create_dir := Ok (); wr_write := Written; wr_rename := Ok (); wr_remove := true; wr_pid := 7 |}.

Lemma sample_round_trip e text : sample_encode e = Ok text → sample_decode text = Some e.
Proof.
  unfold sample_encode. case_bool_decide as H1; [intros [= <-]; by subst|].
  case_bool_decide as H2; [intros [= <-]; by subst|done].
Qed.
Lemma sample_entries_fit e : entries_fit sample_encode e.
Proof.
  intros text. unfold sample_encode. repeat case_bool_decide; intros [= <-]; vm_compute; discriminate.
Qed.

Definition released_catalog : Fs :=
  (release_at sample_decode sample_encode id writes_succeed empty_catalog "/state/registries" None
     sample_registry).2.
Lemma released_registry_is_abandoned_witness :
  sample_registry ∈ abandoned_at sample_decode released_catalog "22222222-2222-4333-8444-555555555555".
Proof.
  destruct (released_registry_is_abandoned sample_decode sample_encode id sample_round_trip writes_succeed
    empty_catalog "/state/registries" None sample_registry released_catalog) as (_ & _ & _ & H).
  - apply NoDup_nil_2.
  - reflexivity.
  - vm_compute. lia.
  - vm_compute. lia.
  - apply sample_entries_fit.
  - reflexivity.
  - reflexivity.
  - rewrite (H "22222222-2222-4333-8444-555555555555"); [set_solver|discriminate].
Defined.

Lemma abandoned_registries_are_gone_witness :
  abandoned_at sample_decode released_catalog "22222222-2222-4333-8444-555555555555"
    ## live_peers_at sample_decode released_catalog.
Proof.
  apply (abandoned_registries_are_gone sample_decode released_catalog
    "22222222-2222-4333-8444-555555555555").
  - apply NoDup_singleton.
  - intros p. discriminate.
Defined.
