(* ===== verification/RegistryIdentity.v ===== *)
(** * RegistryIdentity: which registry a daemon starts with

    The model of [service/registry_identity.rs], of [uuid] in [transport.rs] and of the choice
    [serve] makes in [service.rs]: an existing database is opened; a missing one is restored
    from the machine catalog, refused while Docker still holds objects of an unknown registry,
    or made anew. The probe is a program over engine calls; JSON decoding is a parameter. *)

From Stdlib Require Import Ascii.
From stdpp Require Import pretty.
From S2P Require Export Catalog.
From S2P Require Export GcTokens.
From S2P Require Export RetentionPass.

Local Open Scope string_scope.
Local Open Scope list_scope.
Local Open Scope Z_scope.
Local Open Scope bosn_scope.

(** ** What a previous registry left *)

Inductive PriorObjectKind := PriorContainer | PriorVolume | PriorImage.
Definition PriorObjectKind_ALL : list PriorObjectKind := [PriorContainer; PriorVolume; PriorImage].
Definition PriorObjectKind_as_str (kind : PriorObjectKind) : string :=
  match kind with PriorContainer => "container" | PriorVolume => "volume" | PriorImage => "image" end.
Record PriorObject := {
  po_kind : PriorObjectKind; po_name : string; po_registry_id : string; po_bytes : option Z }.
Record PriorIdentity := { pi_objects : list PriorObject; pi_unreadable : list string }.
Definition PriorIdentity_default : PriorIdentity := {| pi_objects := []; pi_unreadable := [] |}.
Definition has_prior_objects (prior : PriorIdentity) : bool :=
  match pi_objects prior with [] => false | _ => true end.
Definition is_clean (prior : PriorIdentity) : bool :=
  negb (has_prior_objects prior) && match pi_unreadable prior with [] => true | _ => false end.

Definition CENSUS_READ_DEADLINE : Z := 30.
Definition CENSUS_READ_OUTPUT_LIMIT : Z := 32 * 1024 * 1024.

(** Rows of the three inspect documents; [None] when the object has no configuration. *)
Record ContainerIdentity := {
  ci_id : string; ci_name : string; ci_size_rw : option Z; ci_config : option (gmap string string) }.
Record ImageIdentity := {
  ii_id : string; ii_repo_tags : list string; ii_size : option Z;
  ii_config : option (gmap string string) }.
Record VolumeIdentity := {
  vi_volume : string; vi_volume_labels : gmap string string; vi_usage : option (option Z) }.

Definition SHARED_CI_CACHE := "<machine-wide CI cache>".
Definition is_shared_ci_cache (labels : gmap string string) : bool :=
  (labels !! LABEL_SCOPE ==? Some "machine") && (labels !! LABEL_STACK ==? Some "ci-cache").
Definition label_value_from (labels : gmap string string) (key : string) : string :=
  match labels !! key with
  | Some value => if value ==? "" then "<no readable registry label>" else value
  | None => "<no readable registry label>"
  end.
Definition label_value (config : option (gmap string string)) (key : string) : string :=
  label_value_from (default ∅ config) key.
Definition pick_name (name id : string) : string :=
  let name := drop_leading "/" name in
  if negb (name ==? "") then name else if id ==? "" then "<unnamed>" else id.

Definition container_object (key : string) (row : ContainerIdentity) : PriorObject :=
  {| po_kind := PriorContainer; po_name := pick_name (ci_name row) (ci_id row);
     po_registry_id := label_value (ci_config row) key; po_bytes := ci_size_rw row |}.
Definition volume_object (key : string) (row : VolumeIdentity) : PriorObject :=
  {| po_kind := PriorVolume; po_name := pick_name (vi_volume row) "";
     po_registry_id := if is_shared_ci_cache (vi_volume_labels row) then SHARED_CI_CACHE
                       else label_value_from (vi_volume_labels row) key;
     po_bytes := usage ← vi_usage row; usage |}.
Definition image_object (key : string) (row : ImageIdentity) : PriorObject :=
  {| po_kind := PriorImage;
     po_name := pick_name (default "" (head (filterb (λ tag, negb (tag ==? "<none>:<none>"))
                                               (ii_repo_tags row)))) (ii_id row);
     po_registry_id := label_value (ii_config row) key; po_bytes := ii_size row |}.

Definition prior_cmp (l r : PriorObject) : comparison :=
  match String.compare (PriorObjectKind_as_str (po_kind l)) (PriorObjectKind_as_str (po_kind r)) with
  | Eq => String.compare (po_name l) (po_name r)
  | c => c
  end.

Definition refuse_prior (prior : PriorIdentity) (detail : string) : PriorIdentity :=
  {| pi_objects := pi_objects prior; pi_unreadable := pi_unreadable prior ++ [detail] |}.
Definition retain_prior (p : PriorObject → bool) (prior : PriorIdentity) : PriorIdentity :=
  {| pi_objects := filterb p (pi_objects prior); pi_unreadable := pi_unreadable prior |}.

(** Folding one inspect document in; a document that cannot be decoded is unreadable. *)
Definition record {T} (decode : string → result string (list T)) (document what : string)
    (into : T → PriorObject) (prior : PriorIdentity) : PriorIdentity :=
  match decode document with
  | Ok rows => {| pi_objects := pi_objects prior ++ (into <$> rows);
                  pi_unreadable := pi_unreadable prior |}
  | Err error => refuse_prior prior (what +:+ " is unreadable: " +:+ error)
  end.

Definition list_command (kind : PriorObjectKind) (key : string) : list string * string :=
  match kind with
  | PriorContainer => (container_ids_with_label key, "docker ps -a --filter label")
  | PriorVolume => (volume_names_with_label key, "docker volume ls --filter label")
  | PriorImage => (image_ids_with_label key, "docker image ls --filter label")
  end.
Definition list_failed (kind : PriorObjectKind) (error : string) : string :=
  match kind with
  | PriorContainer => "docker ps --filter label failed: " +:+ error
  | PriorVolume => "docker volume ls --filter label failed: " +:+ error
  | PriorImage => "docker image ls --filter label failed: " +:+ error
  end.
Definition inspect_command (kind : PriorObjectKind) (ids : list string) : list string * string :=
  match kind with
  | PriorContainer => (inspect_containers ids, "docker inspect")
  | PriorVolume => (inspect_volumes ids, "docker volume inspect")
  | PriorImage => (inspect_images ids, "docker image inspect")
  end.

Section probe.
Context (decode_containers : string → result string (list ContainerIdentity)).
Context (decode_volumes : string → result string (list VolumeIdentity)).
Context (decode_images : string → result string (list ImageIdentity)).

Definition parse_kind (prior : PriorIdentity) (kind : PriorObjectKind) (document key : string) :
    PriorIdentity :=
  match kind with
  | PriorContainer =>
      record decode_containers document "docker inspect --type container" (container_object key) prior
  | PriorVolume =>
      retain_prior (λ o, negb (po_registry_id o ==? SHARED_CI_CACHE))
        (record decode_volumes document "docker volume inspect" (volume_object key) prior)
  | PriorImage => record decode_images document "docker image inspect" (image_object key) prior
  end.

Definition probe_read (args : list string) : rt_prog (result string CommandResult) :=
  perform (RtEngine args CENSUS_READ_DEADLINE CENSUS_READ_OUTPUT_LIMIT).

Definition observe_kind (prior : PriorIdentity) (kind : PriorObjectKind) : rt_prog PriorIdentity :=
  let '(args, what) := list_command kind LABEL_REGISTRY in
  listed ← probe_read args;
  match listed with
  | Err error => Ret (refuse_prior prior (list_failed kind error))
  | Ok r =>
      match census_read r what with
      | Unavailable detail => Ret (refuse_prior prior detail)
      | Document text =>
          match text_lines text with
          | [] => Ret prior
          | ids =>
              let '(args, what) := inspect_command kind ids in
              inspected ← probe_read args;
              Ret (match inspected with
                   | Err error =>
                       refuse_prior prior (PriorObjectKind_as_str kind +:+ " inspect failed: " +:+ error)
                   | Ok r =>
                       match inspect_read r what with
                       | Unavailable detail => refuse_prior prior detail
                       | Document document => parse_kind prior kind document LABEL_REGISTRY
                       end
                   end)
          end
      end
  end.
Definition probe : rt_prog PriorIdentity :=
  prior ← prog_fold observe_kind PriorIdentity_default PriorObjectKind_ALL;
  Ret {| pi_objects := sort_by prior_cmp (pi_objects prior); pi_unreadable := pi_unreadable prior |}.

(** ** The choice *)

(** [kernal_api::platform::fs::path_identity] of the database. *)
Inductive DbPresence := DbPresent | DbNoIdentity | DbMissing | DbError (error : string).
(** The registry a daemon starts with: an existing database, one made with this identity (from
    the catalog, or fresh with the reads of the probe that failed), or none. *)
Inductive RegistryStart :=
| OpenExisting
| Restore (registry_id : string)
| Mint (registry_id : string) (unreadable : list string)
| RefusePrior (prior : PriorIdentity)
| StartFailed (why : string).

Definition uuid_dash (index : nat) : string :=
  match index with 3 | 5 | 7 | 9 => "-" | _ => "" end%nat.
Definition uuid_hex (index : nat) (byte : Z) : string :=
  String (hex_digit (byte / 16)) (String (hex_digit (byte mod 16)) (uuid_dash index)).
(** The version and variant bits of 16 random bytes, and their text. *)
Definition uuid_bits (bytes : list Z) : list Z :=
  alter (λ b, Z.lor (Z.land b 63) 128) 8%nat (alter (λ b, Z.lor (Z.land b 15) 64) 6%nat (take 16 bytes)).
Definition uuid (bytes : list Z) : string :=
  foldr String.append "" (imap uuid_hex (uuid_bits bytes)).

Context (decode_entry : string → option Entry).

(** [catalog] is the machine catalog when the identity is looked up, [catalog'] when the live
    peers are; [random] is the answer of the random source. *)
Definition start_registry (presence : DbPresence) (catalog catalog' : Fs) (state_dir : string)
    (random : option (list Z)) : rt_prog RegistryStart :=
  match presence with
  | DbPresent => Ret OpenExisting
  | DbNoIdentity => Ret (StartFailed "registry identity unavailable")
  | DbError error => Ret (StartFailed error)
  | DbMissing =>
      match cataloged_identity_at decode_entry catalog state_dir with
      | Some id => Ret (Restore id)
      | None =>
          prior ← probe;
          let peers := live_peers_at decode_entry catalog' in
          let prior := retain_prior (λ o, negb (bool_decide (po_registry_id o ∈ peers))) prior in
          Ret (if has_prior_objects prior then RefusePrior prior
               else match random with
                    | None => StartFailed "random"
                    | Some bytes => Mint (uuid bytes) (pi_unreadable prior)
                    end)
      end
  end.
End probe.

(** ** A minted identity is a UUID *)

Lemma hex_digit_is_hex d : 0 ≤ d < 16 → is_hexdigit (hex_digit d) = true.
Proof.
  intros Hd. assert (forallb (λ d, is_hexdigit (hex_digit d)) (seqZ 0 16) = true) as H by reflexivity.
  rewrite forallb_forall in H. apply H, list_elem_of_In, elem_of_seqZ. lia.
Qed.
Lemma tagged_byte b (k : nat) tag :
  forallb (λ x, (0 <=? Z.lor x tag) && (Z.lor x tag <? 256)) (seqZ 0 (2 ^ Z.of_nat k)) = true →
  0 ≤ Z.lor (Z.land b (Z.ones (Z.of_nat k))) tag < 256.
Proof.
  intros H. rewrite Z.land_ones by lia. rewrite forallb_forall in H.
  assert (In (b mod 2 ^ Z.of_nat k) (seqZ 0 (2 ^ Z.of_nat k))) as Hin.
  { apply list_elem_of_In, elem_of_seqZ. pose proof (Z.mod_pos_bound b (2 ^ Z.of_nat k)). lia. }
  apply H in Hin. rewrite andb_true_iff, Z.leb_le, Z.ltb_lt in Hin. done.
Qed.

Lemma uuid_bits_bytes bytes : Forall (λ b, 0 ≤ b < 256) bytes → Forall (λ b, 0 ≤ b < 256) (uuid_bits bytes).
Proof.
  intros H. unfold uuid_bits. apply Forall_alter; [apply Forall_alter; [by apply Forall_take|]|];
    intros b _ _; [apply (tagged_byte b 4)|apply (tagged_byte b 6)]; vm_compute; reflexivity.
Qed.

Lemma uuid_step_hex n d s :
  bool_decide (n ∈ [8; 13; 18; 23]%nat) = false → 0 ≤ d < 16 →
  uuid_bytes n (String (hex_digit d) s) = uuid_bytes (S n) s.
Proof. intros Hn Hd. cbn [uuid_bytes]. unfold uuid_byte. by rewrite Hn, hex_digit_is_hex. Qed.
Lemma uuid_step_dash n s :
  bool_decide (n ∈ [8; 13; 18; 23]%nat) = true → uuid_bytes n (String "-" s) = uuid_bytes (S n) s.
Proof. intros Hn. cbn [uuid_bytes]. unfold uuid_byte. by rewrite Hn. Qed.

(** Sixteen bytes in text, with their four dashes. *)
Lemma uuid_valid bytes :
  length bytes = 16%nat → Forall (λ b, 0 ≤ b < 256) bytes → valid_registry_id (uuid bytes) = true.
Proof.
  intros Hlen Hb. apply uuid_bits_bytes in Hb. unfold uuid.
  assert (length (uuid_bits bytes) = 16%nat) as Hl
    by (unfold uuid_bits; rewrite !length_alter, length_take; lia).
  revert Hb Hl. generalize (uuid_bits bytes). intros l Hb Hl.
  do 16 (destruct l as [|? l]; [done|]; apply Forall_cons in Hb as [? Hb]). destruct l; [|done].
  unfold valid_registry_id. apply andb_true_iff. split; [reflexivity|].
  cbn [imap foldr compose]. unfold uuid_hex, uuid_dash. cbv beta iota zeta.
  assert (∀ s, "" +:+ s = s) as Hnil by done. repeat first [rewrite string_app_cons | rewrite Hnil].
  repeat first [rewrite uuid_step_hex by first [reflexivity | Z.to_euclidean_division_equations; lia] | rewrite uuid_step_dash by reflexivity].
  reflexivity.
Qed.

(** ** What a fresh identity is based on *)

(** What the reads call the inspect document of a kind. *)
Definition document_name (kind : PriorObjectKind) : string :=
  match kind with
  | PriorContainer => "docker inspect --type container"
  | PriorVolume => "docker volume inspect"
  | PriorImage => "docker image inspect"
  end.

Section minted.
Context (decode_containers : string → result string (list ContainerIdentity)).
Context (decode_volumes : string → result string (list VolumeIdentity)).
Context (decode_images : string → result string (list ImageIdentity)).
Context (decode_entry : string → option Entry).

Notation probe_event args answer :=
  (EvEngine args CENSUS_READ_DEADLINE CENSUS_READ_OUTPUT_LIMIT answer).
Notation observe_kind := (observe_kind decode_containers decode_volumes decode_images).
Notation start_registry := (start_registry decode_containers decode_volumes decode_images decode_entry).

(** The objects of one inspect document. *)
Definition objects_of (kind : PriorObjectKind) (document : string) : result string (list PriorObject) :=
  match kind with
  | PriorContainer => let? rows := decode_containers document in Ok (container_object LABEL_REGISTRY <$> rows)
  | PriorVolume => let? rows := decode_volumes document in Ok (volume_object LABEL_REGISTRY <$> rows)
  | PriorImage => let? rows := decode_images document in Ok (image_object LABEL_REGISTRY <$> rows)
  end.

(** The IDs a listing of the labelled objects of a kind gave, or what it recorded instead. *)
Definition listing (kind : PriorObjectKind) (answer : result string CommandResult) :
    result string (list string) :=
  match answer with
  | Err error => Err (list_failed kind error)
  | Ok r =>
      match census_read r (list_command kind LABEL_REGISTRY).2 with
      | Unavailable detail => Err detail
      | Document text => Ok (text_lines text)
      end
  end.
(** The objects an inspection described, or what it recorded instead. *)
Definition described (kind : PriorObjectKind) (ids : list string)
    (answer : result string CommandResult) : result string (list PriorObject) :=
  match answer with
  | Err error => Err (PriorObjectKind_as_str kind +:+ " inspect failed: " +:+ error)
  | Ok r =>
      match inspect_read r (inspect_command kind ids).2 with
      | Unavailable detail => Err detail
      | Document document =>
          match objects_of kind document with
          | Ok objects => Ok objects
          | Err error => Err (document_name kind +:+ " is unreadable: " +:+ error)
          end
      end
  end.

(** [evs] are the reads of one kind: every object that carries the registry label was listed and
    described, and [ok] holds of each that does not count as the shared CI cache; or the read
    that failed is recorded among the unreadable ones. *)
Definition kind_probed (unreadable : list string) (ok : PriorObject → Prop) (kind : PriorObjectKind)
    (evs : list rt_event) : Prop :=
  ∃ listed, let list_event := probe_event (list_command kind LABEL_REGISTRY).1 listed in
  match listing kind listed with
  | Err detail => evs = [list_event] ∧ detail ∈ unreadable
  | Ok [] => evs = [list_event]
  | Ok ids =>
      ∃ inspected, evs = [list_event; probe_event (inspect_command kind ids).1 inspected] ∧
        match described kind ids inspected with
        | Err detail => detail ∈ unreadable
        | Ok objects => ∀ o, o ∈ objects → po_registry_id o ≠ SHARED_CI_CACHE → ok o
        end
  end.

Lemma kind_probed_mono unreadable unreadable' (P Q : PriorObject → Prop) kind evs :
  (∀ o, po_registry_id o ≠ SHARED_CI_CACHE → P o → Q o) → unreadable ⊆ unreadable' →
  kind_probed unreadable P kind evs → kind_probed unreadable' Q kind evs.
Proof.
  intros HPQ Hsub (listed & H). exists listed. cbn zeta in *.
  destruct (listing kind listed) as [[|id ids]|detail]; [done| |naive_solver].
  destruct H as (inspected & Hevs & H). exists inspected. split; [done|].
  destruct (described _ _ _); naive_solver.
Qed.

(** What one kind's read keeps and adds. *)
Definition prior_grows (prior prior' : PriorIdentity) : Prop :=
  (∀ o, o ∈ pi_objects prior → po_registry_id o ≠ SHARED_CI_CACHE → o ∈ pi_objects prior') ∧
  pi_unreadable prior ⊆ pi_unreadable prior'.

Lemma refuse_prior_grows prior detail :
  prior_grows prior (refuse_prior prior detail) ∧
  detail ∈ pi_unreadable (refuse_prior prior detail).
Proof. unfold prior_grows. cbn. set_solver. Qed.

(** Folding in a document keeps what was there, and either records that it cannot be read or
    adds its objects. *)
Lemma parse_kind_spec prior kind document :
  let prior' := parse_kind decode_containers decode_volumes decode_images prior kind document LABEL_REGISTRY in
  prior_grows prior prior' ∧
  match objects_of kind document with
  | Err error => document_name kind +:+ " is unreadable: " +:+ error ∈ pi_unreadable prior'
  | Ok objects => ∀ o, o ∈ objects → po_registry_id o ≠ SHARED_CI_CACHE → o ∈ pi_objects prior'
  end.
Proof.
  unfold prior_grows. destruct kind; cbn; unfold record, retain_prior, refuse_prior;
    match goal with |- context [match ?d with Ok _ => _ | Err _ => _ end] => destruct d end;
    cbn; split_and!; try set_solver;
    intros o Ho Hne; rewrite ?elem_of_filterb, ?negb_true_iff, ?bool_decide_eq_false; set_solver.
Qed.

Lemma observe_kind_spec prior kind tr :
  wp rt_event_of (observe_kind prior kind) tr (λ prior' tr',
    prior_grows prior prior' ∧
    ∃ evs, tr' = tr ++ evs ∧
      kind_probed (pi_unreadable prior') (λ o, o ∈ pi_objects prior') kind evs).
Proof.
  assert (prior_grows prior prior) as Hsame by done.
  unfold RegistryIdentity.observe_kind, kind_probed, listing.
  destruct (list_command kind LABEL_REGISTRY) as [args what] eqn:Ec.
  apply wp_mbind, (wp_perform rt_event_of (RtEngine _ _ _)). intros answer. cbn [rt_event_of].
  destruct answer as [r|e].
  2:{ split; [apply refuse_prior_grows|]. eexists. split; [done|]. eexists (Err e).
      split; [done|apply refuse_prior_grows]. }
  destruct (census_read r what) as [text|detail] eqn:Er.
  2:{ split; [apply refuse_prior_grows|]. eexists. split; [done|]. eexists (Ok r). cbn. rewrite Er.
      split; [done|apply refuse_prior_grows]. }
  destruct (text_lines text) as [|id ids] eqn:Et.
  { split; [done|]. eexists. split; [done|]. exists (Ok r). cbn. by rewrite Er, Et. }
  destruct (inspect_command kind (id :: ids)) as [args' what'] eqn:Ei.
  apply wp_mbind, (wp_perform rt_event_of (RtEngine _ _ _)). intros answer. cbn [rt_event_of wp].
  match goal with |- prior_grows prior ?p ∧ _ =>
    enough (prior_grows prior p ∧
      match described kind (id :: ids) answer with
      | Err detail => detail ∈ pi_unreadable p
      | Ok objects => ∀ o, o ∈ objects → po_registry_id o ≠ SHARED_CI_CACHE → o ∈ pi_objects p
      end) as [Hgrow Hread]
  end.
  { split; [done|]. eexists. rewrite <- (assoc_L (++)). split; [done|]. exists (Ok r). cbn.
    rewrite Er, Et. exists answer. by rewrite Ei. }
  unfold described. rewrite Ei. cbn [snd].
  destruct answer as [r'|e]; [|apply refuse_prior_grows].
  destruct (inspect_read r' what') as [document|detail]; [|apply refuse_prior_grows].
  destruct (parse_kind_spec prior kind document) as [Hgrow Hread]. split; [done|].
  by destruct (objects_of kind document).
Qed.

(** The probe reads the kinds one after the other, and nothing else. *)
Definition probed (unreadable : list string) (ok : PriorObject → Prop) (tr : list rt_event) : Prop :=
  ∃ evss, tr = concat evss ∧ Forall2 (kind_probed unreadable ok) PriorObjectKind_ALL evss.

Lemma probe_spec :
  wp rt_event_of (probe decode_containers decode_volumes decode_images) [] (λ prior tr',
    probed (pi_unreadable prior) (λ o, o ∈ pi_objects prior) tr').
Proof.
  apply wp_mbind. eapply wp_mono; [|apply (wp_fold rt_event_of _ (λ before prior tr',
    ∃ evss, tr' = concat evss ∧
      Forall2 (kind_probed (pi_unreadable prior) (λ o, o ∈ pi_objects prior)) before evss))].
  - intros prior tr' (evss & -> & H). exists evss. split; [done|]. cbn.
    eapply Forall2_impl; [exact H|]. intros kind evs. apply kind_probed_mono; [|done].
    intros o _ Ho. by rewrite elem_of_sort_by.
  - exists []. split; [done|constructor].
  - intros before kind after prior tr' _ (evss & -> & H).
    eapply wp_mono; [|apply observe_kind_spec]. intros prior' tr'' [[Hkeep Hun] (evs & -> & Hread)].
    exists (evss ++ [evs]). split; [by rewrite concat_app; cbn; rewrite app_nil_r|].
    apply Forall2_app; [|by constructor]. eapply Forall2_impl; [exact H|].
    intros k ev. apply kind_probed_mono; [naive_solver|done].
Qed.

(** C35. A daemon makes up a new identity only when its database is certainly missing, the machine
    catalog names no registry for its state directory, and nothing unknown was read from Docker.
    The probe lists the containers, the volumes and the images that carry the registry label and
    describes each kind's, and does nothing else. Kind by kind, whatever becomes of the others,
    every object it described belongs to a live peer or counts as the shared CI cache (a volume
    whose labels say machine scope and the stack [ci-cache], whatever its name), or the read of
    that kind failed and its failure is among those the daemon reports. The new identity is a
    UUID, so it can be enrolled in the catalog. *)
Theorem identity_minted_only_when_unclaimed env presence catalog catalog' state_dir bytes id unreadable tr :
  length bytes = 16%nat → Forall (λ b, 0 ≤ b < 256) bytes →
  run rt_event_of env (start_registry presence catalog catalog' state_dir (Some bytes)) []
    = (Mint id unreadable, tr) →
  presence = DbMissing ∧ cataloged_identity_at decode_entry catalog state_dir = None ∧
  id = uuid bytes ∧ valid_registry_id id = true ∧
  probed unreadable (λ o, po_registry_id o ∈ live_peers_at decode_entry catalog') tr.
Proof.
  intros Hlen Hb Hrun. unfold RegistryIdentity.start_registry in Hrun. destruct presence; try done.
  destruct (cataloged_identity_at decode_entry catalog state_dir); [done|].
  unfold mbind, prog_mbind in Hrun. rewrite (run_bind rt_event_of env) in Hrun.
  pose proof (run_wp rt_event_of env _ _ _ probe_spec) as Hprobe.
  destruct (run _ _ _ _) as [prior tr'] eqn:Ep. cbn [fst snd] in Hprobe. cbn [run] in Hrun.
  destruct (has_prior_objects _) eqn:Ehas; [done|]. injection Hrun as <- <- <-.
  split_and!; try done; [by apply uuid_valid|]. cbn [retain_prior pi_unreadable].
  destruct Hprobe as (evss & -> & Hall). exists evss. split; [done|].
  eapply Forall2_impl; [exact Hall|]. intros kind evs. apply kind_probed_mono; [|done].
  intros o _ Ho. cbn beta in Ho. unfold has_prior_objects in Ehas. cbn [retain_prior pi_objects] in Ehas.
  destruct (decide (po_registry_id o ∈ live_peers_at decode_entry catalog')) as [|Hno]; [done|exfalso].
  destruct (filterb _ _) eqn:Ef; [|done]. apply (not_elem_of_nil o). rewrite <- Ef, elem_of_filterb.
  split; [|done]. by rewrite bool_decide_false.
Qed.

(** C36. A daemon whose database is lost keeps its identity. After it enrolled, other daemons may
    change the catalog in any order and with any failures (enrol other registries from other
    state directories, release registries, forget others), and the file system may change
    everywhere else; its next start still restores the same registry, with no new identity and
    without asking Docker. Required: an entry that is read back as written and fits the entry
    limit, and, at enrolment, no other registry cataloged for this state directory and no entry
    file of its own under another schema or registry; at the start, a catalog that can be listed,
    holds no more files than are scanned (4096), and a state directory that still has its
    canonical path. A daemon that forgets this very registry as abandoned is not among the
    changes. *)
Theorem lost_database_keeps_identity encode quote w fs state_dir dir id fs' fs'' env catalog' random :
  (∀ entry text, encode entry = Ok text → decode_entry text = Some entry) →
  names_unique fs → fs_canonical fs state_dir = Ok dir → entries_fit encode (mkEntry SCHEMA id dir) →
  (∀ g other, g ∈ fs_files fs → speaks_for decode_entry g other dir → other = id) →
  (∀ e, read_entry_at decode_entry fs (entry_file id) = Some e →
     en_registry_id e = id ∧ en_schema e = SCHEMA) →
  enroll_at decode_entry encode quote w fs state_dir id = (Ok (), fs') →
  rtc (others_change decode_entry encode quote id dir) fs' fs'' →
  fs_listed fs'' = true → (length (fs_files fs'') ≤ MAX_ENTRIES)%nat →
  fs_canonical fs'' state_dir = Ok dir →
  run rt_event_of env (start_registry DbMissing fs'' catalog' state_dir random) [] = (Restore id, []).
Proof.
  intros Hrt Hu Hc Hfit Honly Hown Henroll Hsteps Hl Hlen Hc'.
  destruct (enroll_at_Cataloged decode_entry encode quote Hrt id dir w fs state_dir fs') as [Hid HC];
    try done. unfold RegistryIdentity.start_registry.
  by rewrite (enrolled_found decode_entry encode quote Hrt id dir fs' fs'' state_dir).
Qed.
End minted.

(** ** A first start on a machine with a peer's container *)

Definition first_run (docker : list string → result string CommandResult) :
    RegistryStart * list rt_event :=
  run rt_event_of
    (λ _ c, match c return rt_answer c with RtEngine args _ _ => docker args
            | RtClock => f64_zero | RtAuthority => sample_authority
            | RtOwnership => Err "registry unavailable" | RtWorkspace _ => WsPresent None
            | RtForget _ => () | RtConfig => ConfigMissing | RtDisk => None end)
    (start_registry (λ _, Ok []) (λ _, Ok []) (λ _, Ok []) sample_decode DbMissing empty_catalog
       empty_catalog "/home/state" (Some (replicate 16 255))) [].
Definition quiet_docker (_ : list string) : result string CommandResult := exits 0 "" "".

Lemma identity_minted_only_when_unclaimed_witness :
  (first_run quiet_docker).1 = Mint "ffffffff-ffff-4fff-bfff-ffffffffffff" [] ∧
  cataloged_identity_at sample_decode empty_catalog "/home/state" = None.
Proof.
  assert ((first_run quiet_docker).1 = Mint "ffffffff-ffff-4fff-bfff-ffffffffffff" []) as Hmint
    by (vm_compute; reflexivity).
  split; [exact Hmint|].
  apply (identity_minted_only_when_unclaimed (λ _, Ok []) (λ _, Ok []) (λ _, Ok []) sample_decode
    (λ _ c, match c return rt_answer c with RtEngine args _ _ => quiet_docker args
            | RtClock => f64_zero | RtAuthority => sample_authority
            | RtOwnership => Err "registry unavailable" | RtWorkspace _ => WsPresent None
            | RtForget _ => () | RtConfig => ConfigMissing | RtDisk => None end)
    DbMissing empty_catalog empty_catalog "/home/state" (replicate 16 255)
    "ffffffff-ffff-4fff-bfff-ffffffffffff" [] (first_run quiet_docker).2).
  - reflexivity.
  - apply Forall_replicate. lia.
  - rewrite <- Hmint. apply surjective_pairing.
Defined.

(** The catalog after another daemon enrolled its own registry, and one more failed to. *)
Definition peer_registry := "22222222-2222-4333-8444-555555555555".
Definition peer_home := mkEntry SCHEMA peer_registry "/home/peer".
Definition peer_encode (e : Entry) : result string string :=
  if e ==? peer_home then Ok "peer" else sample_encode e.
Definition peer_decode (text : string) : option Entry :=
  if text ==? "peer" then Some peer_home else sample_decode text.
Definition torn_write : Writes :=
  {| wr_create_dir := Ok (); wr_write := WriteFailed "disk full" (Some "pe"); wr_rename := Ok ();
     wr_remove := true; wr_pid := 8 |}.
Definition own_catalog : Fs :=
  (enroll_at peer_decode peer_encode id writes_succeed empty_catalog "/home/state" sample_registry).2.
Definition shared_catalog : Fs :=
  (enroll_at peer_decode peer_encode id writes_succeed
     (enroll_at peer_decode peer_encode id torn_write own_catalog "/home/peer" peer_registry).2
     "/home/peer" peer_registry).2.

Lemma peer_round_trip e text : peer_encode e = Ok text → peer_decode text = Some e.
Proof.
  unfold peer_encode. case_bool_decide as H; [intros [= <-]; by subst|]. intros Henc.
  pose proof (sample_round_trip e text Henc) as Hdec. unfold peer_decode.
  rewrite bool_decide_false; [done|]. intros ->. revert Hdec. vm_compute. discriminate.
Qed.

Lemma lost_database_keeps_identity_witness :
  length (fs_files shared_catalog) = 3%nat ∧
  run rt_event_of (sample_world (exits 0 "" ""))
    (start_registry (λ _, Ok []) (λ _, Ok []) (λ _, Ok []) peer_decode DbMissing shared_catalog
       empty_catalog "/home/state" None) [] = (Restore sample_registry, []).
Proof.
  split; [vm_compute; reflexivity|].
  apply (lost_database_keeps_identity (λ _, Ok []) (λ _, Ok []) (λ _, Ok []) peer_decode
    peer_encode id writes_succeed empty_catalog "/home/state" "/home/state" sample_registry
    own_catalog shared_catalog (sample_world (exits 0 "" "")) empty_catalog None).
  - exact peer_round_trip.
  - apply NoDup_nil_2.
  - reflexivity.
  - intros text. unfold peer_encode, sample_encode.
    repeat case_bool_decide; intros [= <-]; vm_compute; discriminate.
  - intros g other Hg. by apply not_elem_of_nil in Hg.
  - intros e. discriminate.
  - reflexivity.
  - eapply rtc_l; [|eapply rtc_l; [|apply rtc_refl]]; apply others_enroll; vm_compute; discriminate.
  - reflexivity.
  - vm_compute. lia.
  - reflexivity.
Defined.
