(* ===== verification/UnmanagedApply.v ===== *)
(** * UnmanagedApply: the census of unmanaged objects and its application

    The model of [bosn-service/src/unmanaged.rs]: the bounded reads of a census, the report of
    disk pressure, the acknowledgement file, and the pass that removes what a fresh census
    confirms. Docker, the clocks and the free space are the environment of a program; JSON
    decoding is a parameter. *)

From Stdlib Require Import Ascii SpecFloat.
From stdpp Require Import pretty.
From S2P Require Export Effects.
From S2P Require Export Engine.
From S2P Require Export DockerDf.

Local Open Scope string_scope.
Local Open Scope list_scope.
Local Open Scope Z_scope.
Local Open Scope bosn_scope.

(** ** Calls *)

Definition second : Z := 1000000000.
Definition millisecond : Z := 1000000.
Definition CENSUS_DEADLINE : Z := 30 * second.
Definition CENSUS_OUTPUT_LIMIT : Z := 32 * 1024 * 1024.
Definition CENSUS_INSPECT_CHUNK : nat := 256.
Definition CENSUS_INSPECT_MAX : nat := 2048.
Definition MAX_UNMANAGED_REMOVALS : Z := 1024.
Definition REMOVAL_DEADLINE : Z := 60 * second.
Definition REMOVAL_OUTPUT_LIMIT : Z := 1024 * 1024.
Definition MAX_ACK_BYTES : nat := 4 * 1024.
Definition MIN_FREE_BYTES : Z := 20 * 2 ^ 30.

(** Docker commands with their deadline in nanoseconds, the wall clock, the monotonic clock, and
    the free space of a path. *)
Inductive un_call :=
| UnEngine (args : list string) (deadline output_limit : Z)
| UnClock
| UnInstant
| UnSpace (path : string).
Definition un_answer (c : un_call) : Type :=
  match c with
  | UnEngine _ _ _ => result string CommandResult
  | UnClock => f64
  | UnInstant => Z
  | UnSpace _ => option Z
  end.
Notation un_prog A := (prog un_answer A).

(** ** Reads within a budget *)

Record CensusBudget := { cb_per_read : Z; cb_until : option Z }.
Definition budget_per_read (per_read : Z) : CensusBudget :=
  {| cb_per_read := per_read; cb_until := None |}.
(** The deadline of the next read. *)
Definition budget_deadline (b : CensusBudget) : un_prog Z :=
  match cb_until b with
  | None => Ret (cb_per_read b)
  | Some until =>
      now ← perform UnInstant;
      Ret (Z.min (cb_per_read b) (Z.max (Z.max (until - now) 0) millisecond))
  end.
Definition budget_read (read : CommandResult → string → CensusRead) (b : CensusBudget)
    (args : list string) (what : string) : un_prog (result string CensusRead) :=
  deadline ← budget_deadline b;
  answer ← perform (UnEngine args deadline CENSUS_OUTPUT_LIMIT);
  Ret (match answer with Ok r => Ok (read r what) | Err e => Err e end).

Definition ids_from (r : result string CensusRead) (what : string) (unreadable : list string) :
    list string * list string :=
  match r with
  | Ok (Document text) => (text_lines text, unreadable)
  | Ok (Unavailable detail) => ([], unreadable ++ [detail])
  | Err error => ([], unreadable ++ [what +:+ " failed: " +:+ error])
  end.

(** The images that carry any required label, in order and once each. *)
Definition labeled_step (b : CensusBudget) (st : gset string * list string) (key : string) :
    un_prog (gset string * list string) :=
  r ← budget_read census_read b (image_ids_with_label key) "docker image ls --filter label";
  let read := ids_from r "docker image ls --filter label" st.2 in
  Ret (list_to_set read.1 ∪ st.1, read.2).
Definition bosn_labeled_image_ids (b : CensusBudget) (unreadable : list string) :
    un_prog (list string * list string) :=
  st ← prog_fold (labeled_step b) (∅, unreadable) REQUIRED_LABELS;
  Ret (sort_by String.compare (elements st.1), st.2).

Section census.
Context (decode_df : string → option SystemDfReport).
Context (decode_volumes : string → option (list InspectedVolume)).

Definition inspect_chunk (b : CensusBudget) (st : list InspectedVolume * list string)
    (chunk : list string) : un_prog (list InspectedVolume * list string) :=
  r ← budget_read inspect_read b (Engine.inspect_volumes chunk) "docker volume inspect";
  Ret (match r with
       | Ok (Document text) =>
           match decode_volumes text with
           | Some volumes => (st.1 ++ volumes, st.2)
           | None => (st.1, st.2 ++ ["docker volume inspect returned a document this build cannot read"])
           end
       | Ok (Unavailable detail) => (st.1, st.2 ++ [detail])
       | Err error => (st.1, st.2 ++ ["docker volume inspect failed: " +:+ error])
       end).
Definition inspect_volumes (b : CensusBudget) (report : SystemDfReport) (unreadable : list string) :
    un_prog (list InspectedVolume * list string) :=
  let names := filterb (λ name, negb (name =? "")%string) (dv_name <$> df_volumes report) in
  let unreadable :=
    if (CENSUS_INSPECT_MAX <? length names)%nat
    then unreadable ++ [pretty (length names) +:+ " volumes exceed the 2048 this census will inspect"]
    else unreadable in
  prog_fold (inspect_chunk b) ([], unreadable)
    (take (CENSUS_INSPECT_MAX / CENSUS_INSPECT_CHUNK) (chunks CENSUS_INSPECT_CHUNK names)).

Record UnmanagedCensus := {
  uc_census : Census; uc_artifacts : list ObservedArtifact; uc_unreadable : list string }.
Definition is_trustworthy (c : UnmanagedCensus) : bool :=
  bool_decide (uc_unreadable c = []) && negb (partial (uc_census c)).
Definition as_partial (c : Census) : Census :=
  mkCensus (classes c) (protected c) (reclaimable_objects c) (reclaimable_bytes c) true
    (unmeasured_objects c) (bytes_approximate c).

Definition read_report (b : CensusBudget) : un_prog (option SystemDfReport * list string) :=
  r ← budget_read census_read b system_df_verbose "docker system df -v";
  Ret (match r with
       | Ok (Document text) =>
           match decode_df text with
           | Some report => (Some report, [])
           | None => (None, ["docker system df -v returned a document this build cannot read"])
           end
       | Ok (Unavailable detail) => (None, [detail])
       | Err error => (None, ["docker system df -v failed: " +:+ error])
       end).
Definition census_with_budget (our_registry : option string) (config : CensusConfig)
    (b : CensusBudget) : un_prog UnmanagedCensus :=
  first ← read_report b;
  seen ← (match first.1 with
          | None => Ret ([], first.2)
          | Some report =>
              labeled ← bosn_labeled_image_ids b first.2;
              r ← budget_read census_read b image_ids_dangling "docker image ls --filter dangling";
              let '(dangling, unreadable) := ids_from r "docker image ls --filter dangling" labeled.2 in
              inspected ← inspect_volumes b report unreadable;
              now ← perform UnClock;
              Ret (observe {| eo_report := report; eo_dangling_image_ids := dangling;
                              eo_bosn_labeled_image_ids := labeled.1;
                              eo_inspected_volumes := inspected.1; eo_now := now |}, inspected.2)
          end);
  let result := census seen.1 our_registry config in
  Ret {| uc_census := if bool_decide (seen.2 = []) then result else as_partial result;
         uc_artifacts := seen.1; uc_unreadable := seen.2 |}.
Definition unmanaged_census_within (our_registry : option string) (config : CensusConfig)
    (deadline : Z) : un_prog UnmanagedCensus :=
  census_with_budget our_registry config (budget_per_read deadline).
Definition unmanaged_census (our_registry : option string) (config : CensusConfig) :
    un_prog UnmanagedCensus :=
  unmanaged_census_within our_registry config CENSUS_DEADLINE.
(** [checked_add] of the instant never fails for the durations the callers use. *)
Definition unmanaged_census_until (our_registry : option string) (config : CensusConfig)
    (deadline overall : Z) : un_prog UnmanagedCensus :=
  now ← perform UnInstant;
  census_with_budget our_registry config {| cb_per_read := deadline; cb_until := Some (now + overall) |}.

(** ** Maintenance and pressure *)

Definition maintenance_pass (our_registry : option string) (config : CensusConfig) :
    un_prog (UnmanagedCensus * option Warning) :=
  scan ← unmanaged_census our_registry config;
  Ret (scan, warning (uc_census scan) WarningThreshold_default).

Record PressureReport := {
  pr_free_bytes : Z; pr_min_free_bytes : Z; pr_owned_bytes : Z; pr_decision : PressureDecision }.
Definition docker_root_dir : un_prog (option string) :=
  answer ← perform (UnEngine ["info"; "--format"; "{{.DockerRootDir}}"] CENSUS_DEADLINE CENSUS_OUTPUT_LIMIT);
  Ret (match answer with
       | Ok r => if cr_ok r then let text := trim (cr_stdout r) in
                                 if bool_decide (text = "") then None else Some text
                 else None
       | Err _ => None
       end).
Definition owned_bytes (c : Census) : Z :=
  sumZ (prot_bytes <$> filterb (λ s, bool_decide (prot_reason s = OwnedByThisRegistry)) (protected c)).
Definition pressure_report (c : Census) : un_prog (option PressureReport) :=
  root ← docker_root_dir;
  match root with
  | None => Ret None
  | Some root =>
      free ← perform (UnSpace root);
      Ret (match free with
           | None => None
           | Some free_bytes =>
               Some {| pr_free_bytes := free_bytes; pr_min_free_bytes := MIN_FREE_BYTES;
                       pr_owned_bytes := owned_bytes c;
                       pr_decision := pressure_decision (free_bytes <? MIN_FREE_BYTES) true free_bytes
                                        MIN_FREE_BYTES (owned_bytes c) (negb (partial c)) |}
           end)
  end.

(** ** Applying a plan *)

Record UnmanagedApplyOutcome := {
  ua_plan : Plan; ua_removed : Z; ua_removed_bytes : Z; ua_failed : Z; ua_failures : list string;
  ua_refused : option string }.

Definition removal_args (id : string) (class : UnmanagedClass) : option (list string) :=
  match class with
  | StoppedContainer => Some ["rm"; id]
  | DanglingImage | UnreferencedImage => Some ["rmi"; id]
  | AnonymousVolume | NamedVolume => Some ["volume"; "rm"; id]
  | BuildCache => None
  end.
Definition removal_result (id : string) (answer : result string CommandResult) : result string unit :=
  match answer with
  | Ok r => if cr_ok r then Ok ()
            else Err (id +:+ ": docker exited with " +:+ pretty (cr_exit_code r))
  | Err error => Err (id +:+ ": " +:+ error)
  end.
Definition remove_one (id : string) (class : UnmanagedClass) : un_prog (result string unit) :=
  match removal_args id class with
  | None => Ret (Err "build cache is not removable by identity")
  | Some argv =>
      answer ← perform (UnEngine argv REMOVAL_DEADLINE REMOVAL_OUTPUT_LIMIT);
      Ret (removal_result id answer)
  end.

Record apply_state := {
  as_removed : Z; as_removed_bytes : Z; as_failed : Z; as_failures : list string;
  as_refused : option string }.
Definition after_removal (st : apply_state) (bytes : Z) (r : result string unit) : apply_state :=
  match r with
  | Ok _ => {| as_removed := as_removed st + 1; as_removed_bytes := as_removed_bytes st + bytes;
               as_failed := as_failed st; as_failures := as_failures st;
               as_refused := as_refused st |}
  | Err detail => {| as_removed := as_removed st; as_removed_bytes := as_removed_bytes st;
                     as_failed := as_failed st + 1; as_failures := as_failures st ++ [detail];
                     as_refused := as_refused st |}
  end.
(** The loop with its [break] at the removal cap. *)
Fixpoint apply_loop (st : apply_state) (ordered : list PlanCandidate) : un_prog apply_state :=
  match ordered with
  | [] => Ret st
  | candidate :: ordered =>
      if MAX_UNMANAGED_REMOVALS <=? as_removed st
      then Ret {| as_removed := as_removed st; as_removed_bytes := as_removed_bytes st;
                  as_failed := as_failed st; as_failures := as_failures st;
                  as_refused := Some "stopped after 1024 removals; re-run to continue" |}
      else
        r ← remove_one (pc_id candidate) (pc_class candidate);
        apply_loop (after_removal st (pc_bytes candidate) r) ordered
  end.

Definition INCOMPLETE : string :=
  "the census was incomplete, so nothing was removed; an unreadable census is never a reason to delete".
Definition unmanaged_gc_apply (our_registry : option string) (config : CensusConfig)
    (include : list string) : un_prog UnmanagedApplyOutcome :=
  scan ← unmanaged_census our_registry config;
  let p := plan (uc_artifacts scan) our_registry config include in
  if negb (is_trustworthy scan)
  then Ret {| ua_plan := p; ua_removed := 0; ua_removed_bytes := 0; ua_failed := 0;
              ua_failures := []; ua_refused := Some INCOMPLETE |}
  else
    st ← apply_loop {| as_removed := 0; as_removed_bytes := 0; as_failed := 0; as_failures := [];
                       as_refused := None |}
           (sort_by rank_cmp (pl_candidates p));
    Ret {| ua_plan := p; ua_removed := as_removed st; ua_removed_bytes := as_removed_bytes st;
           ua_failed := as_failed st; ua_failures := as_failures st; ua_refused := as_refused st |}.
End census.

(** ** The acknowledgement file *)

Record AckWire := { aw_at : f64; aw_objects : Z; aw_bytes : Z }.
(** [i64::try_from(bytes).unwrap_or(i64::MAX)]. *)
Definition ack_wire (a : Acknowledgement) : AckWire :=
  {| aw_at := ack_at a; aw_objects := ack_objects a;
     aw_bytes := if (i64_min <=? ack_bytes a) && (ack_bytes a <=? i64_max) then ack_bytes a else i64_max |}.

Section acknowledgement.
Context (encode_ack : AckWire → result string string) (decode_ack : string → option AckWire).
(** The bytes written, given that the directory and the file can be. *)
Definition write_acknowledgement (a : Acknowledgement) : result string string := encode_ack (ack_wire a).
(** [file] is [None] when it cannot be read. *)
Definition read_acknowledgement (file : option string) : option Acknowledgement :=
  bytes ← file;
  if (MAX_ACK_BYTES <? String.length bytes)%nat then None
  else wire ← decode_ack bytes; Some (mkAck (aw_at wire) (aw_objects wire) (aw_bytes wire)).
End acknowledgement.

(** ** Traces *)

Inductive un_event :=
| UvEngine (args : list string) (deadline output_limit : Z) (answer : result string CommandResult)
| UvClock (now : f64)
| UvInstant (now : Z)
| UvSpace (path : string) (free : option Z).
Definition un_event_of (c : un_call) : un_answer c → un_event :=
  match c with
  | UnEngine args d o => UvEngine args d o
  | UnClock => UvClock
  | UnInstant => UvInstant
  | UnSpace path => UvSpace path
  end.
(** The commands of a census change nothing. *)
Definition un_changes (e : un_event) : bool :=
  match e with
  | UvEngine args _ _ _ =>
      match args with
      | cmd :: sub :: _ =>
          negb (bool_decide ((cmd, sub) ∈ [("system", "df"); ("image", "ls"); ("volume", "inspect");
                                           ("info", "--format")]))
      | _ => true
      end
  | _ => false
  end.

Section theorems.
Context (decode_df : string → option SystemDfReport).
Context (decode_volumes : string → option (list InspectedVolume)).

Notation looking := (quiet un_event_of un_changes).
Lemma looking_budget_read read b args what :
  (∀ d o x, un_changes (UvEngine args d o x) = false) → looking (budget_read read b args what).
Proof.
  intros H. unfold budget_read, budget_deadline. apply quiet_bind.
  - case_match; [|done]. by repeat split.
  - intros d. split; [|done]. intros x. apply H.
Qed.
Lemma looking_census our config b : looking (census_with_budget decode_df decode_volumes our config b).
Proof.
  unfold census_with_budget, read_report, bosn_labeled_image_ids, inspect_volumes, inspect_chunk, labeled_step.
  repeat first [ done | apply looking_budget_read; by intros
               | apply quiet_bind; [|intros ?] | apply quiet_fold; intros ? ?
               | match goal with |- quiet _ _ (match ?x with _ => _ end) => destruct x end
               | split; [done|intros ?] ].
Qed.

(** One removal of the pass and how Docker answered it. *)
Definition attempt : Type := PlanCandidate * result string CommandResult.
Definition attempt_event (a : attempt) : un_event :=
  UvEngine (default [] (removal_args (pc_id a.1) (pc_class a.1))) REMOVAL_DEADLINE REMOVAL_OUTPUT_LIMIT a.2.
Definition succeeded (a : attempt) : bool :=
  match a.2 with Ok r => cr_ok r | Err _ => false end.
Definition failure_of (a : attempt) : option string :=
  match removal_result (pc_id a.1) a.2 with Ok _ => None | Err detail => Some detail end.

(** The state of the loop is what the attempts so far amount to. *)
Record tallies (done_ : list attempt) (st : apply_state) : Prop := {
  ta_ok : as_removed st = Z.of_nat (length (filterb succeeded done_));
  ta_bytes : as_removed_bytes st = sumZ ((pc_bytes ∘ fst) <$> filterb succeeded done_);
  ta_bad : as_failed st = Z.of_nat (length (omap failure_of done_));
  ta_details : as_failures st = omap failure_of done_;
  ta_cap : as_removed st ≤ MAX_UNMANAGED_REMOVALS;
}.

Lemma tallies_step done_ st c answer :
  tallies done_ st → as_removed st < MAX_UNMANAGED_REMOVALS →
  tallies (done_ ++ [(c, answer)]) (after_removal st (pc_bytes c) (removal_result (pc_id c) answer)).
Proof.
  intros [H1 H2 H3 H4 H5] Hlt.
  assert (filterb succeeded (done_ ++ [(c, answer)])
    = filterb succeeded done_ ++ if succeeded (c, answer) then [(c, answer)] else []) as Hf
    by (by rewrite filterb_app, filterb_cons, filterb_nil).
  assert (omap failure_of (done_ ++ [(c, answer)])
    = omap failure_of done_ ++ match removal_result (pc_id c) answer with Ok _ => [] | Err d => [d] end) as Ho.
  { rewrite omap_app. cbn. unfold failure_of. cbn. by destruct (removal_result _ _). }
  assert (succeeded (c, answer) = is_ok (removal_result (pc_id c) answer)) as Hs
    by (unfold succeeded, removal_result; cbn; destruct answer as [r|]; [by destruct (cr_ok r)|done]).
  rewrite Hs in Hf. destruct (removal_result _ _); cbn [is_ok] in Hf; split; rewrite ?Hf, ?Ho;
    cbn [after_removal as_removed as_removed_bytes as_failed as_failures];
    rewrite ?fmap_app, ?sumZ_app, ?length_app, ?app_nil_r, ?H1, ?H2, ?H3, ?H4 in *; cbn; lia || done.
Qed.

Lemma apply_loop_spec done_ st ordered tr :
  tallies done_ st → as_refused st = None →
  (∀ c, c ∈ ordered → pc_class c ≠ BuildCache) →
  wp un_event_of (apply_loop st ordered) tr (λ st' tr', ∃ more,
    tr' = tr ++ (attempt_event <$> more) ∧ tallies (done_ ++ more) st' ∧
    more.*1 `prefix_of` ordered ∧ (as_refused st' = None → more.*1 = ordered)).
Proof.
  revert done_ st tr. induction ordered as [|c ordered IH]; intros done_ st tr Ht Hr Hc.
  { exists []. cbn. by rewrite !app_nil_r. }
  cbn [apply_loop]. destruct (_ <=? _) eqn:Elim.
  { exists []. cbn. rewrite !app_nil_r. split_and!; try done; [|apply prefix_nil].
    destruct Ht. by split. }
  apply Z.leb_gt in Elim. unfold remove_one.
  destruct (removal_args (pc_id c) (pc_class c)) as [argv|] eqn:Eargs.
  2: { destruct (Hc c); [by left|]. by destruct (pc_class c). }
  apply wp_mbind, wp_mbind, (wp_perform un_event_of (UnEngine _ _ _)). intros answer. cbn [wp un_event_of].
  eapply wp_mono; [|apply (IH (done_ ++ [(c, answer)]))].
  - intros st' tr' (more & -> & Ht' & Hpre & Hall). exists ((c, answer) :: more).
    cbn [fmap list_fmap fst]. unfold attempt_event at 2. cbn [fst snd]. rewrite Eargs. cbn [default].
    rewrite <- !app_assoc in *. split_and!; [done|done|by apply prefix_cons|].
    intros Hn. by rewrite Hall.
  - by apply tallies_step.
  - by destruct (removal_result _ _).
  - intros c' Hc'. apply Hc. by right.
Qed.

(** Where a changing event of a trace with a quiet beginning is. *)
Lemma quiet_prefix looks rest before e after :
  looks ++ rest = before ++ e :: after → Forall (λ e, un_changes e = false) looks →
  un_changes e = true → ∃ l, before = looks ++ l ∧ rest = l ++ e :: after.
Proof.
  revert before. induction looks as [|x looks IH]; intros before Heq Hq He; [by exists before|].
  apply Forall_cons in Hq as [Hx Hq]. destruct before as [|y before]; injection Heq as -> Heq; [congruence|].
  destruct (IH before) as (l & -> & ->); [done..|]. by exists l.
Qed.

Notation apply_pass := (unmanaged_gc_apply decode_df decode_volumes).
Notation scan_pass := (unmanaged_census decode_df decode_volumes).

(** A run of the pass: the reads of its census, then attempts in the order of removal. *)
Record applied (our : option string) (config : CensusConfig) (include : list string)
    (scan : UnmanagedCensus) (looks : list un_event) (done_ : list attempt)
    (out : UnmanagedApplyOutcome) (tr : list un_event) : Prop := {
  ap_looks : Forall (λ e, un_changes e = false) looks;
  ap_trace : tr = looks ++ (attempt_event <$> done_);
  ap_plan : ua_plan out = plan (uc_artifacts scan) our config include;
  ap_trust : done_ ≠ [] → is_trustworthy scan = true;
  ap_order : done_.*1 `prefix_of` sort_by rank_cmp (pl_candidates (ua_plan out));
  ap_all : ua_refused out = None → done_.*1 ≡ₚ pl_candidates (ua_plan out);
  ap_removed : ua_removed out = Z.of_nat (length (filterb succeeded done_));
  ap_cap : ua_removed out ≤ MAX_UNMANAGED_REMOVALS;
  ap_bytes : ua_removed_bytes out = sumZ ((pc_bytes ∘ fst) <$> filterb succeeded done_);
  ap_failed : ua_failed out = Z.of_nat (length (ua_failures out));
  ap_failures : ua_failures out = omap failure_of done_;
}.

Lemma apply_run env our config include out tr :
  run un_event_of env (apply_pass our config include) [] = (out, tr) →
  ∃ scan looks done_, run un_event_of env (scan_pass our config) [] = (scan, looks) ∧
    applied our config include scan looks done_ out tr.
Proof.
  unfold unmanaged_gc_apply, mbind, prog_mbind. rewrite (run_bind un_event_of env).
  pose proof (run_wp un_event_of env _ _ _ (wp_quiet un_event_of un_changes _ []
    (looking_census our config (budget_per_read CENSUS_DEADLINE)))) as Hlooks.
  fold (unmanaged_census_within decode_df decode_volumes our config CENSUS_DEADLINE) in Hlooks.
  fold (scan_pass our config) in Hlooks.
  destruct (run un_event_of env (scan_pass our config) []) as [scan looks] eqn:Escan.
  destruct Hlooks as (new & Hnew & Hquiet). cbn [fst snd app] in Hnew, Hquiet. subst new.
  intros Hrun. exists scan, looks. destruct (is_trustworthy scan) eqn:Et; cbn [negb] in Hrun.
  - set (ordered := sort_by rank_cmp _) in Hrun. rewrite (run_bind un_event_of env) in Hrun.
    assert (∀ c, c ∈ ordered → pc_class c ≠ BuildCache) as Hc.
    { intros c Hin%elem_of_sort_by%planned_safe. naive_solver. }
    pose proof (run_wp un_event_of env _ _ _ (apply_loop_spec [] _ ordered looks
      (Build_tallies [] {| as_removed := 0; as_removed_bytes := 0; as_failed := 0; as_failures := [];
                           as_refused := None |} eq_refl eq_refl eq_refl eq_refl ltac:(done)) eq_refl Hc)) as Hloop.
    destruct (run un_event_of env (apply_loop _ ordered) looks) as [st tr'].
    destruct Hloop as (more & Htr & [H1 H2 H3 H4 H5] & Hpre & Hall). cbn [fst snd app] in *.
    injection Hrun as <- <-. exists more. split; [reflexivity|].
    split; cbn [ua_plan ua_refused ua_removed ua_removed_bytes ua_failed ua_failures];
      [exact Hquiet|exact Htr|reflexivity|intros _; exact Et|exact Hpre| |exact H1|exact H5|exact H2| |exact H4].
    + intros Hn. rewrite (Hall Hn). apply sort_by_perm.
    + by rewrite H3, H4.
  - injection Hrun as <- <-. exists []. split; [reflexivity|]. split;
      [exact Hquiet|symmetry; apply app_nil_r|reflexivity|by intros []|apply prefix_nil
      |discriminate|reflexivity|discriminate|reflexivity..].
Qed.

(** What an unmanaged pass removes was confirmed by the census of the same pass: the census was
    complete, and it shows the very object unlabelled (or a dangling image of this registry),
    measured, used by nothing and past the age gate; an object that needs judgment is removed
    only when it was named, and build cache never. *)
Theorem unmanaged_removals_confirmed env our config include out tr before args d o answer after :
  run un_event_of env (apply_pass our config include) [] = (out, tr) →
  tr = before ++ UvEngine args d o answer :: after →
  un_changes (UvEngine args d o answer) = true →
  ∃ scan looks c a, run un_event_of env (scan_pass our config) [] = (scan, looks) ∧
    looks `prefix_of` before ∧ is_trustworthy scan = true ∧
    c ∈ pl_candidates (ua_plan out) ∧ removal_args (pc_id c) (pc_class c) = Some args ∧
    a ∈ uc_artifacts scan ∧ oa_id a = pc_id c ∧ in_use (oa_signals a) = false ∧
    (∃ age, oa_age_seconds a = Some age ∧ f64_ge age (ttl_seconds config) = true) ∧
    (classify_ownership (oa_labels a) our = Unlabeled ∨
     (classify_ownership (oa_labels a) our = Ours ∧ oa_kind a = Image ∧ dangling (oa_signals a) = true)) ∧
    (UnmanagedClass_tier (pc_class c) = Reclaimable ∨ pc_id c ∈ include).
Proof.
  intros Hrun Htr Hch. destruct (apply_run _ _ _ _ _ _ Hrun) as (scan & looks & done_ & Hscan & Hap).
  destruct Hap as [Hq Htrace Hplan Htrust Hpre _ _ _ _ _ _]. rewrite Htrace in Htr.
  apply quiet_prefix in Htr as (l & -> & Hl); [|done..].
  assert (UvEngine args d o answer ∈ attempt_event <$> done_) as Hev
    by (rewrite Hl; apply elem_of_app; right; by left).
  apply list_elem_of_fmap in Hev as ([c ans] & Hev & Hin).
  assert (c ∈ pl_candidates (ua_plan out)) as Hc.
  { apply (elem_of_sort_by rank_cmp). destruct Hpre as [k ->]. apply elem_of_app. left.
    apply list_elem_of_fmap. by exists (c, ans). }
  pose proof Hc as Hsafe. rewrite Hplan in Hsafe.
  apply planned_safe in Hsafe as (a & Ha & Hid & _ & Huse & Hage & Hown & Hbc & Htier).
  exists scan, looks, c, a.
  split_and!; [exact Hscan|by apply prefix_app_r| |exact Hc| |exact Ha|exact Hid|exact Huse|exact Hage
              |exact Hown|exact Htier].
  - apply Htrust. by destruct done_; [apply not_elem_of_nil in Hin|].
  - unfold attempt_event in Hev. cbn in Hev. injection Hev as -> _ _ _. by destruct (pc_class c).
Qed.

(** The outcome of an unmanaged pass is what happened: after the reads of its census Docker was
    sent the removals of a prefix of the plan, containers before images before volumes, each
    once; all of them unless the pass says why not; the counts, bytes and messages are those of
    Docker's answers; at most 1024 objects are removed, and after an incomplete census none. *)
Theorem unmanaged_apply_exact env our config include out tr :
  run un_event_of env (apply_pass our config include) [] = (out, tr) →
  ∃ scan looks done_, run un_event_of env (scan_pass our config) [] = (scan, looks) ∧
    Forall (λ e, un_changes e = false) looks ∧ tr = looks ++ (attempt_event <$> done_) ∧
    (is_trustworthy scan = false → done_ = []) ∧
    done_.*1 `prefix_of` sort_by rank_cmp (pl_candidates (ua_plan out)) ∧
    (ua_refused out = None → done_.*1 ≡ₚ pl_candidates (ua_plan out)) ∧
    ua_removed out = Z.of_nat (length (filterb succeeded done_)) ∧
    ua_removed out ≤ MAX_UNMANAGED_REMOVALS ∧
    ua_removed_bytes out = sumZ ((pc_bytes ∘ fst) <$> filterb succeeded done_) ∧
    ua_failures out = omap failure_of done_ ∧ ua_failed out = Z.of_nat (length (ua_failures out)).
Proof.
  intros Hrun. destruct (apply_run _ _ _ _ _ _ Hrun) as (scan & looks & done_ & Hscan & []).
  exists scan, looks, done_. split_and!; try done. intros Hno. destruct done_; [done|].
  rewrite ap_trust0 in Hno by done. done.
Qed.
End theorems.

(** ** The acknowledgement survives its file *)

Section ack.
Context (encode_ack : AckWire → result string string) (decode_ack : string → option AckWire).

(** What is acknowledged is read back, with the mark capped at the largest value the file can
    hold and never lowered below it, so a capped acknowledgement still covers what was seen up
    to that mark. *)
Theorem acknowledgement_roundtrip a text :
  (∀ w t, encode_ack w = Ok t → decode_ack t = Some w) →
  i64_min ≤ ack_bytes a → write_acknowledgement encode_ack a = Ok text →
  (String.length text ≤ MAX_ACK_BYTES)%nat →
  read_acknowledgement decode_ack (Some text) =
    Some (mkAck (ack_at a) (ack_objects a) (Z.min (ack_bytes a) i64_max)).
Proof.
  intros Hrt Hmin Hw Hlen. unfold read_acknowledgement. cbn [mbind option_bind].
  rewrite (proj2 (Nat.ltb_ge _ _)) by done. rewrite (Hrt _ _ Hw). cbn [mbind option_bind]. f_equal. f_equal.
  unfold ack_wire. cbn [aw_bytes]. rewrite (proj2 (Z.leb_le _ _)) by done. cbn [andb].
  destruct (_ <=? _) eqn:E; [apply Z.leb_le in E|apply Z.leb_gt in E]; lia.
Qed.
End ack.

(** ** A pass that removes one stopped container *)

Definition stopped_report : SystemDfReport :=
  {| df_images := []; df_volumes := []; df_build_cache := [];
     df_containers := [{| dc_id := "c1"; dc_created_at := "2020-01-01 00:00:00 +0000 UTC";
                          dc_labels := ""; dc_size := "10B"; dc_state := "exited" |}] |}.
Definition answers (text : string) : result string CommandResult :=
  Ok {| cr_exit_code := 0; cr_stdout := text; cr_stderr := "" |}.
Definition unmanaged_world (_ : list un_event) (c : un_call) : un_answer c :=
  match c with
  | UnEngine args _ _ => if bool_decide (args = system_df_verbose) then answers "df" else answers ""
  | UnClock => f64_of_Z 2000000000
  | UnInstant => 0
  | UnSpace _ => None
  end.
Definition one_report (text : string) : option SystemDfReport :=
  if bool_decide (text = "df") then Some stopped_report else None.
Definition no_volumes (_ : string) : option (list InspectedVolume) := None.
Definition unmanaged_run : UnmanagedApplyOutcome * list un_event :=
  run un_event_of unmanaged_world
    (unmanaged_gc_apply one_report no_volumes None (mkCensusConfig DEFAULT_TTL_SECONDS) []) [].

Lemma unmanaged_apply_exact_witness :
  ua_removed unmanaged_run.1 = 1 ∧ ua_removed_bytes unmanaged_run.1 = 10 ∧
  ua_removed unmanaged_run.1 ≤ MAX_UNMANAGED_REMOVALS.
Proof.
  destruct (unmanaged_apply_exact one_report no_volumes unmanaged_world None
    (mkCensusConfig DEFAULT_TTL_SECONDS) [] _ _ (surjective_pairing unmanaged_run))
    as (scan & looks & done_ & _ & _ & _ & _ & _ & _ & _ & Hcap & _).
  split; [vm_compute; reflexivity|]. split; [vm_compute; reflexivity|exact Hcap].
Defined.

Lemma unmanaged_removals_confirmed_witness :
  ∃ c, c ∈ pl_candidates (ua_plan unmanaged_run.1) ∧
    removal_args (pc_id c) (pc_class c) = Some ["rm"; "c1"].
Proof.
  destruct (unmanaged_removals_confirmed one_report no_volumes unmanaged_world None
    (mkCensusConfig DEFAULT_TTL_SECONDS) [] _ _ (take (length unmanaged_run.2 - 1) unmanaged_run.2)
    ["rm"; "c1"] REMOVAL_DEADLINE REMOVAL_OUTPUT_LIMIT (answers "") []
    (surjective_pairing unmanaged_run)) as (scan & looks & c & a & _ & _ & _ & Hc & Hargs & _);
    [vm_compute; reflexivity|vm_compute; reflexivity|]. by exists c.
Defined.

Definition sample_wire : AckWire := {| aw_at := f64_zero; aw_objects := 3; aw_bytes := 7 |}.
Definition sample_ack_encode (w : AckWire) : result string string :=
  if bool_decide (aw_objects w = 3) && bool_decide (aw_bytes w = 7)
     && match aw_at w with S754_zero false => true | _ => false end then Ok "ack" else Err "io".
Lemma acknowledgement_roundtrip_witness :
  read_acknowledgement (λ _, Some sample_wire) (Some "ack") = Some (mkAck f64_zero 3 7).
Proof.
  apply (acknowledgement_roundtrip sample_ack_encode (λ _, Some sample_wire) (mkAck f64_zero 3 7) "ack").
  - intros [at_ objects bytes] t. unfold sample_ack_encode. cbn.
    destruct (bool_decide (objects = 3)) eqn:E1, (bool_decide (bytes = 7)) eqn:E2; cbn; try discriminate.
    apply bool_decide_eq_true in E1, E2. subst. destruct at_ as [[]| | |]; cbn; try discriminate.
    intros _. reflexivity.
  - vm_compute. discriminate.
  - reflexivity.
  - vm_compute. lia.
Defined.
