(* ===== verification/Wire.v ===== *)
(** * Wire: requests, and the protocol window that decides who is served

    The request envelope of [bosn-service/src/wire.rs], the errors of the service
    ([bosn-service/src/lib.rs]) and the identity a daemon reports with the compatibility rules
    drawn from it ([bosn-service/src/transport.rs]). Strings are their UTF-8 bytes. *)

From Stdlib Require Import Ascii.
From stdpp Require Import pretty.
From S2P Require Export GcTokens.
From S2P Require Import Owners.

Local Open Scope string_scope.
Local Open Scope list_scope.
Local Open Scope Z_scope.
Local Open Scope bosn_scope.

(** ** The daemon's identity *)

Definition PROTOCOL_VERSION : Z := 1.
Definition DAEMON_PROTOCOL : Z := 2.
Definition DAEMON_PROTOCOL_MIN : Z := 1.

Record DaemonIdentity := { di_release : string; di_protocol : Z; di_protocol_min : Z }.
#[global] Instance DaemonIdentity_eq_dec : EqDecision DaemonIdentity.
Proof. solve_decision. Defined.

Definition protocol_window (d : DaemonIdentity) : Z * Z :=
  if di_protocol_min d =? 0 then (di_protocol d, di_protocol d)
  else (di_protocol_min d, di_protocol d).
Definition serves (d : DaemonIdentity) (protocol : Z) : bool :=
  let '(min, max) := protocol_window d in
  negb (max =? 0) && ((min <=? protocol) && (protocol <=? max)).

Definition describe_window (window : Z * Z) : string :=
  let '(min, max) := window in
  if min =? max then "protocol " +:+ pretty max
  else "protocols " +:+ pretty min +:+ "-" +:+ pretty max.

Definition protocol_refusal (d : DaemonIdentity) (client_protocol : Z) : string :=
  let release := if String.eqb (di_release d) "" then "an unknown release"
                 else "bosn " +:+ di_release d in
  "protocol_unsupported: the bosn daemon (" +:+ release +:+ ") serves "
  +:+ describe_window (protocol_window d) +:+ ", but this client speaks protocol "
  +:+ pretty client_protocol
  +:+ "; upgrade whichever side is older, or stop the daemon with `bosn daemon stop` (this also cancels any job it is running for another session) so a matching daemon starts on demand".

Definition legacy_release_matches (client_version : string) (d : DaemonIdentity) : bool :=
  String.eqb (di_release d) client_version.

(** Whether the client may send this daemon work. *)
Definition daemon_compatible (client_version : string) (d : DaemonIdentity) : bool :=
  if di_protocol d =? 0 then legacy_release_matches client_version d else serves d DAEMON_PROTOCOL.

Definition daemon_version_mismatch (state client_version : string) (d : DaemonIdentity) :
    option string :=
  if daemon_compatible client_version d then None
  else
    let release :=
      if String.eqb (di_release d) ""
      then "an older bosn (0.1.5 or earlier, which does not report its version)"
      else "bosn " +:+ di_release d in
    let protocol :=
      if di_protocol d =? 0 then "no protocol (it predates the protocol handshake)"
      else describe_window (protocol_window d) in
    Some ("the bosn daemon for " +:+ state +:+ " is " +:+ release +:+ " speaking " +:+ protocol
          +:+ ", but this client is bosn " +:+ client_version +:+ " speaking protocol "
          +:+ pretty DAEMON_PROTOCOL
          +:+ "; a daemon on another protocol can misread this client's requests. A newer bosn restarts an idle older daemon by itself; otherwise stop it with `bosn daemon stop --state-dir "
          +:+ state
          +:+ "` (this also cancels any job it is running for another session), then retry: a matching daemon starts on demand").

Definition daemon_release_skew (state client_version : string) (d : DaemonIdentity) :
    option string :=
  if serves d DAEMON_PROTOCOL && negb (String.eqb (di_release d) client_version)
  then Some ("warning: bosn daemon/client mismatch: the daemon for " +:+ state +:+ " runs release "
             +:+ di_release d +:+ ", this client is " +:+ client_version +:+ ". The daemon serves "
             +:+ describe_window (protocol_window d) +:+ " and this client speaks protocol "
             +:+ pretty DAEMON_PROTOCOL
             +:+ ", so proceeding, but the daemon keeps running its own release's code until it restarts. Restart it when idle with `bosn daemon stop --state-dir "
             +:+ state +:+ "`; a matching daemon starts on demand")
  else None.

Definition peer_is_authorized (peer_user_id expected_user_id : string) : bool :=
  negb (String.eqb peer_user_id "") && String.eqb peer_user_id expected_user_id.

(** ** Errors *)

Inductive Error :=
| EIo (error : string)
| ERegistry (error : string)
| EDeadline
| EUnauthorized
| ERandom
| EEndpointOccupied (name : string)
| EActorClosed
| EProtocol (what : string)
| EProtocolUnsupported (daemon : DaemonIdentity) (client_protocol : Z)
| ECi (code message : string).

(** ** Requests *)

Record Request := mkRequest {
  rq_protocol_version : Z;
  rq_operation : Z;
  rq_workspace : string;
  rq_stack : string;
  rq_digest : string;
  rq_job_id : Z;
  rq_log_after : Z;
  rq_log_limit : Z;
  rq_setup_config : string;
  rq_setup_policy : Z;
  rq_setup_deadline_ms : Z;
  rq_setup_output_limit : Z;
  rq_setup_task_name : string;
  rq_diagnostic_after : Z;
  rq_diagnostic_limit : Z;
  rq_gc_candidate_token : string;
  rq_gc_confirm : bool;
  rq_setup_done_confirm : bool;
  rq_setup_adopt_confirm : bool;
  rq_unmanaged_include : list string;
  rq_unmanaged_ttl_seconds : Z;
  rq_ci_request : string;
  rq_follow_lease_ms : Z;
  rq_owned_container_ttl_secs : Z;
  rq_owned_volume_ttl_secs : Z;
  rq_owned_image_ttl_secs : Z;
  rq_owned_max_bytes : Z;
  rq_owned_confirm : bool;
  rq_client_protocol : Z;
  rq_owner_pid : Z;
  rq_owner_created : list Z;
}.
#[global] Instance Request_eq_dec : EqDecision Request.
Proof. solve_decision. Defined.

Definition request_eta (r : Request) : Request :=
  mkRequest (rq_protocol_version r) (rq_operation r) (rq_workspace r) (rq_stack r) (rq_digest r)
    (rq_job_id r) (rq_log_after r) (rq_log_limit r) (rq_setup_config r) (rq_setup_policy r)
    (rq_setup_deadline_ms r) (rq_setup_output_limit r) (rq_setup_task_name r)
    (rq_diagnostic_after r) (rq_diagnostic_limit r) (rq_gc_candidate_token r) (rq_gc_confirm r)
    (rq_setup_done_confirm r) (rq_setup_adopt_confirm r) (rq_unmanaged_include r)
    (rq_unmanaged_ttl_seconds r) (rq_ci_request r) (rq_follow_lease_ms r)
    (rq_owned_container_ttl_secs r) (rq_owned_volume_ttl_secs r) (rq_owned_image_ttl_secs r)
    (rq_owned_max_bytes r) (rq_owned_confirm r) (rq_client_protocol r) (rq_owner_pid r)
    (rq_owner_created r).
Declare Scope request_scope.
Delimit Scope request_scope with request.
Notation "r <| p := v |>" := (ltac:(record_with request_eta p) v r : Request)
  (at level 12, left associativity, only parsing) : request_scope.
Local Open Scope request_scope.

(** [Request::operation]: the empty envelope of one operation. *)
Definition operation (op : Z) : Request :=
  {| rq_protocol_version := PROTOCOL_VERSION; rq_operation := op; rq_workspace := "";
     rq_stack := ""; rq_digest := ""; rq_job_id := 0; rq_log_after := 0; rq_log_limit := 0;
     rq_setup_config := ""; rq_setup_policy := 0; rq_setup_deadline_ms := 0;
     rq_setup_output_limit := 0; rq_setup_task_name := ""; rq_diagnostic_after := 0;
     rq_diagnostic_limit := 0; rq_gc_candidate_token := ""; rq_gc_confirm := false;
     rq_setup_done_confirm := false; rq_setup_adopt_confirm := false; rq_unmanaged_include := [];
     rq_unmanaged_ttl_seconds := 0; rq_ci_request := ""; rq_follow_lease_ms := 0;
     rq_owned_container_ttl_secs := 0; rq_owned_volume_ttl_secs := 0; rq_owned_image_ttl_secs := 0;
     rq_owned_max_bytes := 0; rq_owned_confirm := false; rq_client_protocol := DAEMON_PROTOCOL;
     rq_owner_pid := 0; rq_owner_created := [] |}.

Definition owned_by (r : Request) (owner : option ClientOwner) : Request :=
  r <| rq_owner_pid := (to_wire owner).1 |> <| rq_owner_created := (to_wire owner).2 |>.

Definition request_owner (r : Request) : result Error (option ClientOwner) :=
  match from_wire (rq_owner_pid r) (rq_owner_created r) with
  | Ok owner => Ok owner
  | Err _ => Err (EProtocol "invalid owner process identity")
  end.
