(* ===== verification/WireValidate.v ===== *)
(** * WireValidate: what the daemon accepts of a decoded request

    The validators of [bosn-service/src/wire_validate.rs] and
    [bosn-service/src/diagnostics_validate.rs] over the envelope of [Wire], the path rule of
    [bosn-service/src/manifest_runtime.rs], and what an accepted request is known to carry:
    a confirmed, token-bound and otherwise empty envelope for everything destructive. *)

From Stdlib Require Import Ascii.
From S2P Require Import JobRequests.
From S2P Require Import ManifestRecovery.
From S2P Require Export Wire.

Local Open Scope string_scope.
Local Open Scope list_scope.
Local Open Scope Z_scope.
Local Open Scope bosn_scope.

(** ** Text and numbers *)

Definition len (s : string) : Z := Z.of_nat (String.length s).
Definition present (s : string) : bool := negb (String.eqb s "").
Definition nonzero (n : Z) : bool := negb (n =? 0).
Definition has_nul (s : string) : bool := negb (all_bytes (λ a, negb (Ascii.eqb a nul)) s).

Definition protocol {A} (what : string) : result Error A := Err (EProtocol what).
(** A guard: [if bad { return Err(Error::Protocol(what)) }]. *)
Definition refuse_if (bad : bool) (what : string) : result Error unit :=
  if bad then protocol what else Ok ().
(** [map_err(|_| Error::Protocol(what))]. *)
Definition instead {A} (r : result Error A) (what : string) : result Error A :=
  match r with Ok a => Ok a | Err _ => protocol what end.
(** A token parse whose value is dropped. *)
Definition parses (r : result string GcCandidate) : result Error unit :=
  match r with Ok _ => Ok () | Err what => protocol what end.

Definition milliseconds (ms : Z) : Z := ms * 1000000.
Definition seconds (s : Z) : Z := s * 1000000000.
Definition SETUP_PREPARE_MAX_DEADLINE : Z := seconds (5 * 60).
Definition SETUP_PREPARE_MAX_OUTPUT : Z := 8 * 1024 * 1024.
Definition MANIFEST_MAX_DEADLINE : Z := seconds (4 * 60 * 60).
Definition MANIFEST_MAX_OUTPUT : Z := 64 * 1024 * 1024.
Definition FOLLOW_LEASE_MIN : Z := seconds 1.
Definition FOLLOW_LEASE_MAX : Z := seconds (10 * 60).
Definition MAX_REGISTRY_DIAGNOSTIC_PAGE : Z := 64.
Definition OWNED_MAX_TTL_SECS : Z := 365 * 86400.

(** ** Unmanaged apply and managed retention *)

Definition validate_unmanaged_apply_request_wire (r : Request) : result Error unit :=
  let? _ := refuse_if
    (negb (rq_gc_confirm r) || (8 * 1024 <? len (rq_workspace r))
     || present (rq_gc_candidate_token r) || present (rq_digest r) || present (rq_stack r)
     || nonzero (rq_job_id r) || present (rq_setup_config r)
     || (String.eqb (rq_setup_task_name r) "" && nonzero (rq_setup_deadline_ms r)))
    "nonsemantic unmanaged apply fields" in
  refuse_if
    ((1024 <? Z.of_nat (length (rq_unmanaged_include r)))
     || existsb (λ id, String.eqb id "" || (8 * 1024 <? len id) || has_nul id)
          (rq_unmanaged_include r))
    "invalid unmanaged apply include list".

Definition validate_managed_retention_request_wire (r : Request) : result Error unit :=
  let? _ := refuse_if
    ((OWNED_MAX_TTL_SECS <? rq_owned_container_ttl_secs r)
     || (OWNED_MAX_TTL_SECS <? rq_owned_volume_ttl_secs r)
     || (OWNED_MAX_TTL_SECS <? rq_owned_image_ttl_secs r))
    "managed retention age gate out of range" in
  let? _ := refuse_if (rq_owned_max_bytes r <? 0) "managed retention byte ceiling is negative" in
  let? _ := refuse_if (negb (Bool.eqb (rq_owned_confirm r) (rq_gc_confirm r)))
    "managed retention apply requires confirmation on both flags" in
  refuse_if
    (present (rq_workspace r) || (8 * 1024 <? len (rq_workspace r)) || present (rq_stack r)
     || present (rq_digest r) || present (rq_gc_candidate_token r) || present (rq_setup_config r)
     || present (rq_setup_task_name r) || nonzero (rq_job_id r)
     || negb (match rq_unmanaged_include r with [] => true | _ => false end)
     || nonzero (rq_unmanaged_ttl_seconds r) || present (rq_ci_request r)
     || nonzero (rq_follow_lease_ms r) || nonzero (rq_diagnostic_after r)
     || nonzero (rq_diagnostic_limit r) || rq_setup_done_confirm r || rq_setup_adopt_confirm r)
    "nonsemantic managed retention fields".

(** ** Setup and manifest work *)

Definition validate_request_text_and_budget (workspace config : string)
    (deadline_ms output_limit max_deadline max_output : Z) : result Error unit :=
  let? _ := refuse_if
    (String.eqb workspace "" || (8 * 1024 <? len workspace) || String.eqb config ""
     || (8 * 1024 <? len config) || has_nul workspace || has_nul config)
    "invalid setup request text" in
  let deadline := milliseconds deadline_ms in
  let? _ := refuse_if ((deadline =? 0) || (max_deadline <? deadline)) "invalid setup deadline" in
  refuse_if ((output_limit =? 0) || (max_output <? output_limit)) "invalid setup output limit".

Definition validate_setup_prepare_wire (workspace config : string) (_ : SetupPreparePolicy)
    (deadline_ms output_limit : Z) : result Error unit :=
  validate_request_text_and_budget workspace config deadline_ms output_limit
    SETUP_PREPARE_MAX_DEADLINE SETUP_PREPARE_MAX_OUTPUT.

Definition validate_manifest_text_and_budget (workspace manifest : string)
    (deadline_ms output_limit : Z) : result Error unit :=
  validate_request_text_and_budget workspace manifest deadline_ms output_limit
    MANIFEST_MAX_DEADLINE MANIFEST_MAX_OUTPUT.

(** [bytes().enumerate().all(…)] from index [i]. *)
Fixpoint task_name_bytes (i : nat) (s : string) : bool :=
  match s with
  | EmptyString => true
  | String a s' =>
      (is_ascii_alphanumeric a || Ascii.eqb a "_" || (Ascii.eqb a "-" && (0 <? i)%nat))
      && task_name_bytes (S i) s'
  end.
Definition first_alphanumeric (s : string) : bool :=
  match s with String a _ => is_ascii_alphanumeric a | EmptyString => false end.
Definition validate_setup_task_name (task_name : string) : result Error unit :=
  refuse_if
    (String.eqb task_name "" || (64 <? len task_name) || negb (task_name_bytes 0 task_name)
     || negb (first_alphanumeric task_name))
    "invalid setup task name".

Definition validate_setup_task_wire (workspace config : string) (policy : SetupPreparePolicy)
    (task_name : string) (deadline_ms output_limit : Z) : result Error unit :=
  let? _ := validate_setup_prepare_wire workspace config policy deadline_ms output_limit in
  validate_setup_task_name task_name.

Definition validate_setup_ensure_wire (workspace config : string) (policy : SetupPreparePolicy)
    (deadline_ms output_limit : Z) : result Error unit :=
  validate_setup_prepare_wire workspace config policy deadline_ms output_limit.

Definition validate_manifest_ensure_wire (workspace manifest stack : string)
    (deadline_ms output_limit : Z) : result Error unit :=
  let? _ := validate_manifest_text_and_budget workspace manifest deadline_ms output_limit in
  refuse_if
    (negb (safe_manifest_relative_path manifest) || String.eqb stack "" || (128 <? len stack)
     || negb (all_bytes (λ a, is_ascii_alphanumeric a || Ascii.eqb a "_" || Ascii.eqb a "-") stack))
    "invalid manifest ensure selector".

Definition validate_manifest_converge_wire (workspace manifest : string)
    (deadline_ms output_limit : Z) : result Error unit :=
  let? _ := validate_manifest_text_and_budget workspace manifest deadline_ms output_limit in
  refuse_if (negb (safe_manifest_relative_path manifest)) "invalid manifest converge selector".

Definition validate_manifest_ensure_request_wire (r : Request) : result Error unit :=
  let? _ := validate_manifest_ensure_wire (rq_workspace r) (rq_setup_config r) (rq_stack r)
              (rq_setup_deadline_ms r) (rq_setup_output_limit r) in
  refuse_if
    (present (rq_digest r) || nonzero (rq_job_id r) || nonzero (rq_log_after r)
     || nonzero (rq_log_limit r) || nonzero (rq_setup_policy r) || present (rq_setup_task_name r)
     || nonzero (rq_diagnostic_after r) || nonzero (rq_diagnostic_limit r)
     || present (rq_gc_candidate_token r) || rq_gc_confirm r || rq_setup_done_confirm r
     || rq_setup_adopt_confirm r)
    "nonsemantic manifest ensure fields".

Definition validate_manifest_converge_request_wire (r : Request) : result Error unit :=
  let? _ := validate_manifest_converge_wire (rq_workspace r) (rq_setup_config r)
              (rq_setup_deadline_ms r) (rq_setup_output_limit r) in
  refuse_if
    (present (rq_stack r) || present (rq_digest r) || nonzero (rq_job_id r)
     || nonzero (rq_log_after r) || nonzero (rq_log_limit r) || nonzero (rq_setup_policy r)
     || present (rq_setup_task_name r) || nonzero (rq_diagnostic_after r)
     || nonzero (rq_diagnostic_limit r) || present (rq_gc_candidate_token r) || rq_gc_confirm r
     || rq_setup_done_confirm r || rq_setup_adopt_confirm r)
    "nonsemantic manifest converge fields".

Definition validate_manifest_app_task_wire (workspace manifest stack task_name : string)
    (deadline_ms output_limit : Z) : result Error unit :=
  let? _ := validate_manifest_ensure_wire workspace manifest stack deadline_ms output_limit in
  validate_setup_task_name task_name.

Definition lease_in_range (lease : Z) : bool :=
  (FOLLOW_LEASE_MIN <=? lease) && (lease <=? FOLLOW_LEASE_MAX).

Definition validate_manifest_app_task_request_wire (r : Request) : result Error unit :=
  let? _ := validate_manifest_app_task_wire (rq_workspace r) (rq_setup_config r) (rq_stack r)
              (rq_setup_task_name r) (rq_setup_deadline_ms r) (rq_setup_output_limit r) in
  let? _ := refuse_if
    (present (rq_digest r) || nonzero (rq_job_id r) || nonzero (rq_log_after r)
     || nonzero (rq_log_limit r) || nonzero (rq_setup_policy r) || nonzero (rq_diagnostic_after r)
     || nonzero (rq_diagnostic_limit r) || present (rq_gc_candidate_token r) || rq_gc_confirm r
     || rq_setup_done_confirm r || rq_setup_adopt_confirm r)
    "nonsemantic manifest app task fields" in
  refuse_if
    (nonzero (rq_follow_lease_ms r) && negb (lease_in_range (milliseconds (rq_follow_lease_ms r))))
    "invalid manifest app task follow lease".

Definition validate_setup_ensure_request_wire (r : Request) (policy : SetupPreparePolicy) :
    result Error unit :=
  let? _ := validate_setup_ensure_wire (rq_workspace r) (rq_setup_config r) policy
              (rq_setup_deadline_ms r) (rq_setup_output_limit r) in
  refuse_if
    (present (rq_stack r) || present (rq_digest r) || nonzero (rq_job_id r)
     || nonzero (rq_log_after r) || nonzero (rq_log_limit r) || present (rq_setup_task_name r)
     || rq_setup_done_confirm r || rq_setup_adopt_confirm r)
    "nonsemantic setup ensure fields".

Definition validate_setup_adopt_input (workspace config : string) (policy : SetupPreparePolicy)
    (deadline_ms output_limit : Z) (confirm : bool) : result Error unit :=
  let? _ := validate_setup_ensure_wire workspace config policy deadline_ms output_limit in
  refuse_if (negb confirm) "setup adoption requires confirmation".

Definition validate_setup_adopt_request_wire (r : Request) (policy : SetupPreparePolicy) :
    result Error unit :=
  let? _ := validate_setup_adopt_input (rq_workspace r) (rq_setup_config r) policy
              (rq_setup_deadline_ms r) (rq_setup_output_limit r) (rq_setup_adopt_confirm r) in
  refuse_if
    (present (rq_stack r) || present (rq_digest r) || nonzero (rq_job_id r)
     || nonzero (rq_log_after r) || nonzero (rq_log_limit r) || present (rq_setup_task_name r)
     || nonzero (rq_diagnostic_after r) || nonzero (rq_diagnostic_limit r)
     || present (rq_gc_candidate_token r) || rq_gc_confirm r || rq_setup_done_confirm r)
    "nonsemantic setup adopt fields".

(** ** Diagnostics, collection, repair and completion *)

Definition usize_max : Z := 2 ^ 64 - 1.
Definition validate_registry_page (after limit : Z) : result Error unit :=
  let? _ := refuse_if (usize_max <? after) "invalid registry cursor" in
  refuse_if ((limit =? 0) || (MAX_REGISTRY_DIAGNOSTIC_PAGE <? limit)) "invalid registry page limit".

(** The fields no diagnostic, collection or completion request uses. *)
Definition job_or_setup_fields (r : Request) : bool :=
  present (rq_stack r) || present (rq_digest r) || nonzero (rq_job_id r)
  || nonzero (rq_log_after r) || nonzero (rq_log_limit r) || present (rq_setup_config r)
  || nonzero (rq_setup_policy r) || nonzero (rq_setup_deadline_ms r)
  || nonzero (rq_setup_output_limit r) || present (rq_setup_task_name r).

Definition validate_registry_diagnostics_request_wire (r : Request) : result Error unit :=
  let? _ := validate_registry_page (rq_diagnostic_after r) (rq_diagnostic_limit r) in
  refuse_if
    (present (rq_workspace r) || job_or_setup_fields r || rq_setup_done_confirm r
     || rq_setup_adopt_confirm r)
    "nonsemantic registry diagnostic fields".

Definition invalid_workspace (workspace : string) : bool :=
  String.eqb workspace "" || (8 * 1024 <? len workspace) || has_nul workspace.

Definition validate_setup_gc_preview_request_wire (r : Request) : result Error unit :=
  let? _ := validate_registry_page (rq_diagnostic_after r) (rq_diagnostic_limit r) in
  refuse_if
    (invalid_workspace (rq_workspace r) || job_or_setup_fields r || rq_setup_done_confirm r
     || rq_setup_adopt_confirm r)
    "nonsemantic setup gc preview fields".
Definition validate_manifest_volume_gc_preview_request_wire (r : Request) : result Error unit :=
  instead (validate_setup_gc_preview_request_wire r)
    "nonsemantic manifest volume gc preview fields".
Definition validate_setup_reconcile_preview_request_wire (r : Request) : result Error unit :=
  instead (validate_setup_gc_preview_request_wire r)
    "nonsemantic setup reconcile preview fields".

(** What every request that names one previewed candidate has in common: a workspace, the
    confirmation and a token its parser accepts. *)
Definition validate_candidate_input (parse : string → result string GcCandidate) (what : string)
    (workspace token : string) (confirm : bool) : result Error unit :=
  let? _ := refuse_if (invalid_workspace workspace || negb confirm) what in
  parses (parse token).
Definition validate_setup_reconcile_repair_missing_input :
    string → string → bool → result Error unit :=
  validate_candidate_input parse_setup_reconcile_missing_token
    "invalid setup reconcile repair request".
Definition validate_setup_gc_apply_input : string → string → bool → result Error unit :=
  validate_candidate_input parse_setup_gc_token "invalid setup gc apply request".
Definition validate_setup_retired_stop_input (workspace token : string) (confirm : bool) :
    result Error unit :=
  instead (validate_setup_gc_apply_input workspace token confirm)
    "invalid setup retired stop request".
Definition validate_manifest_volume_gc_apply_input : string → string → bool → result Error unit :=
  validate_candidate_input parse_manifest_volume_gc_token
    "invalid manifest volume gc apply request".
Definition validate_manifest_volume_release_apply_input :
    string → string → bool → result Error unit :=
  validate_candidate_input parse_manifest_volume_release_token
    "invalid manifest volume release apply request".

(** The candidate, and nothing else in the envelope. *)
Definition validate_candidate_request (input : string → string → bool → result Error unit)
    (what : string) (r : Request) : result Error unit :=
  let? _ := input (rq_workspace r) (rq_gc_candidate_token r) (rq_gc_confirm r) in
  refuse_if
    (job_or_setup_fields r || nonzero (rq_diagnostic_after r) || nonzero (rq_diagnostic_limit r)
     || rq_setup_done_confirm r || rq_setup_adopt_confirm r)
    what.
Definition validate_setup_reconcile_repair_missing_request_wire : Request → result Error unit :=
  validate_candidate_request validate_setup_reconcile_repair_missing_input
    "nonsemantic setup reconcile repair fields".
Definition validate_setup_gc_apply_request_wire : Request → result Error unit :=
  validate_candidate_request validate_setup_gc_apply_input "nonsemantic setup gc apply fields".
Definition validate_manifest_volume_gc_apply_request_wire : Request → result Error unit :=
  validate_candidate_request validate_manifest_volume_gc_apply_input
    "nonsemantic manifest volume gc apply fields".
Definition validate_manifest_volume_release_apply_request_wire : Request → result Error unit :=
  validate_candidate_request validate_manifest_volume_release_apply_input
    "nonsemantic manifest volume release apply fields".
Definition validate_setup_retired_stop_request_wire : Request → result Error unit :=
  validate_candidate_request validate_setup_retired_stop_input
    "nonsemantic setup retired stop fields".

Definition validate_setup_done_input (workspace : string) (confirm : bool) : result Error unit :=
  refuse_if (invalid_workspace workspace || negb confirm) "invalid setup done request".

(** What the file system says of a path: its canonical spelling, and whether a directory is
    there (neither may be readable). *)
Record path_view := {
  pv_canonical : string → option string;
  pv_directory : string → option bool;
}.
Definition canonical_setup_done_workspace (fs : path_view) (path : string) : result Error string :=
  let? canonical := ok_or (pv_canonical fs path)
    (EProtocol "setup done workspace cannot be canonicalized") in
  let? directory := ok_or (pv_directory fs canonical)
    (EProtocol "setup done workspace cannot be inspected") in
  let? _ := refuse_if (negb directory) "setup done workspace is not a directory" in
  let? _ := validate_setup_done_input canonical true in
  Ok canonical.

Definition validate_setup_done_request_wire (r : Request) : result Error unit :=
  let? _ := validate_setup_done_input (rq_workspace r) (rq_setup_done_confirm r) in
  refuse_if
    (job_or_setup_fields r || nonzero (rq_diagnostic_after r) || nonzero (rq_diagnostic_limit r)
     || present (rq_gc_candidate_token r) || rq_gc_confirm r || rq_setup_adopt_confirm r)
    "nonsemantic setup done fields".

Definition validate_doctor_request_wire (r : Request) : result Error unit :=
  refuse_if
    (present (rq_workspace r) || job_or_setup_fields r || nonzero (rq_diagnostic_after r)
     || nonzero (rq_diagnostic_limit r) || rq_setup_done_confirm r || rq_setup_adopt_confirm r)
    "nonsemantic doctor fields".

(** ** What acceptance means *)

Lemma refuse_if_Ok b what x : refuse_if b what = Ok x → b = false.
Proof. by destruct b. Qed.
Lemma instead_Ok {A} (r : result Error A) what x : instead r what = Ok x → r = Ok x.
Proof. by destruct r as [a|e]; intros [= ->]. Qed.
Lemma parses_Ok r x : parses r = Ok x → ∃ c, r = Ok c.
Proof. destruct r as [c|e]; [|done]. by exists c. Qed.

(** Read off an accepted check, one step of its [?] chain at a time. *)
Ltac accepted :=
  repeat match goal with
  | H : refuse_if _ _ = Ok _ |- _ => apply refuse_if_Ok in H
  | H : instead _ _ = Ok _ |- _ => apply instead_Ok in H
  | H : parses _ = Ok _ |- _ => apply parses_Ok in H
  | H : match ?v with Ok _ => _ | Err _ => _ end = Ok _ |- _ =>
      let Hv := fresh "Hv" in destruct v eqn:Hv; [|done]
  | u : () |- _ => destruct u
  end.

(** The budget of an accepted submission is positive and within its operation's bounds. *)
Lemma budget_accepted w c d o md mo :
  validate_request_text_and_budget w c d o md mo = Ok () →
  milliseconds d ≠ 0 ∧ milliseconds d ≤ md ∧ o ≠ 0 ∧ o ≤ mo.
Proof.
  unfold validate_request_text_and_budget. intros H. accepted. booleans. done.
Qed.

(** An accepted candidate request is confirmed, names a workspace and carries a token. *)
Lemma candidate_request_accepted parse what what' r :
  validate_candidate_request (validate_candidate_input parse what) what' r = Ok () →
  rq_gc_confirm r = true ∧ invalid_workspace (rq_workspace r) = false ∧
  (∃ c, parse (rq_gc_candidate_token r) = Ok c) ∧ job_or_setup_fields r = false.
Proof.
  unfold validate_candidate_request, validate_candidate_input. intros H. accepted. booleans. done.
Qed.
Lemma retired_stop_accepted r :
  validate_setup_retired_stop_request_wire r = Ok () →
  rq_gc_confirm r = true ∧ invalid_workspace (rq_workspace r) = false ∧
  ∃ c, parse_setup_gc_token (rq_gc_candidate_token r) = Ok c.
Proof.
  unfold validate_setup_retired_stop_request_wire, validate_candidate_request,
    validate_setup_retired_stop_input. intros H. accepted.
  unfold validate_setup_gc_apply_input, validate_candidate_input in Hv. accepted. booleans. done.
Qed.

(** ** Fields that slip through *)

Local Open Scope request_scope.

Definition stray_ensure : Request :=
  operation 10 <| rq_workspace := "/w" |> <| rq_setup_config := "bosn.toml" |>
    <| rq_setup_deadline_ms := 1000 |> <| rq_setup_output_limit := 4096 |>
    <| rq_gc_candidate_token := "x" |> <| rq_gc_confirm := true |> <| rq_diagnostic_limit := 7 |>.
(** A setup ensure with a collection token, its confirmation and a page limit is accepted. *)
Lemma setup_ensure_ignores_fields : validate_setup_ensure_request_wire stray_ensure Refresh = Ok ().
Proof. vm_compute. reflexivity. Qed.

Definition stray_apply : Request :=
  operation 35 <| rq_gc_confirm := true |> <| rq_setup_task_name := "build" |>
    <| rq_setup_deadline_ms := 1000 |>.
(** An unmanaged apply with a task name and a deadline is accepted; without the name it is not. *)
Lemma unmanaged_apply_accepts_task_name :
  validate_unmanaged_apply_request_wire stray_apply = Ok () ∧
  is_ok (validate_unmanaged_apply_request_wire (stray_apply <| rq_setup_task_name := "" |>)) = false.
Proof. split; vm_compute; reflexivity. Qed.
