(* ===== verification/Replies.v ===== *)
(** * Replies: what crosses the wire back to the client

    The reply envelope of [bosn-service/src/wire.rs], its decoder, the diagnostics of
    [bosn-service/src/diagnostics.rs] that it carries, and the projection of a component's
    answer onto the envelope that [bosn-service/src/dispatch.rs] writes per operation. Each
    projection followed by [decode_reply] is the answer itself, up to what the envelope cannot
    tell apart: no text and the empty text, and byte counts outside 64 bits. *)

From Stdlib Require Import Ascii.
From S2P Require Export Wire.
From S2P Require Import JobRequests.
From S2P Require Import ManifestRecovery.
From S2P Require Import GcApply.
From S2P Require Import Registry.
From S2P Require Import ManagedRetention.
From S2P Require Import UnmanagedApply.

Local Open Scope string_scope.
Local Open Scope list_scope.
Local Open Scope Z_scope.
Local Open Scope bosn_scope.

(** ** Diagnostics *)

Record Status := {
  ss_registry_id : string;
  ss_schema_version : Z;
  ss_resources : Z;
  ss_leases : Z;
  ss_sessions : Z;
  ss_reconciliation_required : bool;
}.
Record JobStatus := { js_id : Z; js_state : string; js_error : option string }.

Record RegistryResourceDiagnostic := {
  rd_id : string;
  rd_kind : string;
  rd_name : string;
  rd_stack : string;
  rd_generation : string;
  rd_state : string;
  rd_retention : string;
  rd_created_at : f64;
  rd_last_used : f64;
}.
Definition resource_diagnostic (r : Resource) : RegistryResourceDiagnostic :=
  {| rd_id := re_id r; rd_kind := ResourceKind_as_str (re_kind r); rd_name := re_name r;
     rd_stack := re_stack r; rd_generation := re_generation r;
     rd_state := ResourceState_as_str (re_state r);
     rd_retention := Retention_as_str (re_retention r); rd_created_at := re_created_at r;
     rd_last_used := re_last_used r |}.
Record RegistryResourcePage := {
  rp_next : option Z; rp_records : list RegistryResourceDiagnostic }.

Record SetupEnsureEventDiagnostic := {
  ed_cursor : Z; ed_at : f64; ed_kind : string; ed_detail : string }.
(** [u64::try_from(value.id).unwrap_or(0)] of a signed row id. *)
Definition event_diagnostic (e : EventRow) : SetupEnsureEventDiagnostic :=
  {| ed_cursor := if et_id e <? 0 then 0 else et_id e; ed_at := et_at e; ed_kind := et_kind e;
     ed_detail := et_detail e |}.
Record SetupEnsureEventPage := {
  ep_next : option Z; ep_records : list SetupEnsureEventDiagnostic }.

(** [SetupGcCandidateDiagnostic] and [ManifestVolumeGcCandidateDiagnostic]. *)
Record GcCandidateDiagnostic := {
  gd_id : string; gd_name : string; gd_generation : string; gd_token : string; gd_reason : string }.
Record SetupGcPreviewPage := {
  sp_next : option Z;
  sp_candidates : list GcCandidateDiagnostic;
  sp_counts : SetupGcPreviewCounts;
}.
Record ManifestVolumeGcPreviewPage := {
  vg_next : option Z;
  vg_candidates : list GcCandidateDiagnostic;
  vg_counts : ManifestVolumeGcPreviewCounts;
}.
Definition candidate_diagnostic (token : GcCandidate → string) (reason : string)
    (c : GcCandidate) : GcCandidateDiagnostic :=
  {| gd_id := gc_id c; gd_name := gc_name c; gd_generation := gc_generation c;
     gd_token := token c; gd_reason := reason |}.
Definition setup_gc_preview_diagnostic (v : SetupGcPreview) : SetupGcPreviewPage :=
  {| sp_next := pa_next_offset (gv_candidates v);
     sp_candidates := map (candidate_diagnostic setup_gc_token "retired_managed_setup_container")
                        (pa_items (gv_candidates v));
     sp_counts := gv_counts v |}.
Definition manifest_volume_gc_preview_diagnostic (v : ManifestVolumeGcPreview) :
    ManifestVolumeGcPreviewPage :=
  {| vg_next := pa_next_offset (vv_candidates v);
     vg_candidates :=
       map (candidate_diagnostic manifest_volume_gc_token "retired_manifest_warm_spec_volume")
         (pa_items (vv_candidates v));
     vg_counts := vv_counts v |}.

Record SetupDoneResult := { sd_uses_completed : Z; sd_resources_completed : Z }.
Record SetupAdoptResult := { ad_adopted : bool }.

Record SetupReconcileCandidate := {
  sc_resource : Resource;
  sc_image_identities : list string;
  sc_missing_repairable : bool;
}.
Record SetupReconcileRecord := {
  sr_id : string;
  sr_name : string;
  sr_generation : string;
  sr_drift : string;
  sr_repair_token : option string;
}.
Record SetupReconcilePreviewPage := { rc_next : option Z; rc_records : list SetupReconcileRecord }.

(** The arms are tried in order; only a [sha256:] generation can match anything but absence. *)
Definition classify_setup_reconcile (c : SetupReconcileCandidate)
    (inspected : result string (option SetupReconcileObserved)) : string :=
  let name := re_name (sc_resource c) in
  match inspected with
  | Ok None => "missing"
  | Ok (Some o) =>
      match strip_prefix "sha256:" (re_generation (sc_resource c)) with
      | None => "unknown"
      | Some content =>
          if negb (String.eqb (ob_name o) ("/" +:+ name)) then "name_mismatch"
          else if negb (String.eqb (ob_managed o) "v1") || negb (String.eqb (ob_content o) content)
               || negb (String.eqb (ob_container o) name) then "label_mismatch"
          else if negb (existsb (String.eqb (ob_image_identity o)) (sc_image_identities c))
               then "image_mismatch"
          else if ob_running o then "matching_running" else "matching_stopped"
      end
  | Err _ => "inspect_error"
  end.

Inductive DockerDoctorState := DocReady | DocUnavailable | DocDeadline | DocOutputLimit
  | DocInvalidResponse.
Record DockerDoctorReport := {
  dr_state : DockerDoctorState; dr_client_version : option string;
  dr_server_version : option string }.
Record DoctorReport := {
  do_daemon : string; do_registry : string; do_engine : string;
  do_client_version : option string; do_server_version : option string }.
Definition doctor_state_text (s : DockerDoctorState) : string :=
  match s with
  | DocReady => "ready"
  | DocUnavailable => "unavailable"
  | DocDeadline => "deadline"
  | DocOutputLimit => "output_limit"
  | DocInvalidResponse => "invalid_response"
  end.
Definition doctor_from_engine (registry : string) (r : DockerDoctorReport) : DoctorReport :=
  {| do_daemon := "ready"; do_registry := registry; do_engine := doctor_state_text (dr_state r);
     do_client_version := dr_client_version r; do_server_version := dr_server_version r |}.
Definition daemon_unavailable : DoctorReport :=
  {| do_daemon := "unavailable"; do_registry := "unavailable"; do_engine := "unavailable";
     do_client_version := None; do_server_version := None |}.

Record UnmanagedApplySummary := {
  uw_planned : Z; uw_removed : Z; uw_removed_bytes : Z; uw_failed : Z; uw_failures : list string;
  uw_refused : option string }.

(** ** The envelope *)

Record HeldCountWire := { hc_reason : string; hc_count : Z }.
Record LogRecordWire := { lw_cursor : Z; lw_line : string }.
Record ResourceDiagnosticWire := {
  rdw_id : string; rdw_kind : string; rdw_name : string; rdw_stack : string;
  rdw_generation : string; rdw_state : string; rdw_retention : string; rdw_created_at : f64;
  rdw_last_used : f64 }.
(** [SetupGcCandidateWire] and [ManifestVolumeGcCandidateWire]. *)
Record GcCandidateWire := {
  gcw_id : string; gcw_name : string; gcw_generation : string; gcw_reason : string;
  gcw_token : string }.
Notation SetupGcCandidateWire := GcCandidateWire (only parsing).
Notation ManifestVolumeGcCandidateWire := GcCandidateWire (only parsing).
Record SetupEnsureEventWire := {
  eww_cursor : Z; eww_at : f64; eww_kind : string; eww_detail : string }.
Record SetupReconcileRecordWire := {
  srw_id : string; srw_name : string; srw_generation : string; srw_drift : string;
  srw_repair_token : string }.

Record ReplyWire := mkReply {
  rw_code : Z;
  rw_registry_id : string;
  rw_schema_version : Z;
  rw_resources : Z;
  rw_leases : Z;
  rw_sessions : Z;
  rw_reconciliation_required : bool;
  rw_job_id : Z;
  rw_job_state : string;
  rw_job_error : string;
  rw_logs : list LogRecordWire;
  rw_retained_from : Z;
  rw_next_log_cursor : Z;
  rw_log_gap : bool;
  rw_diagnostic_next : Z;
  rw_diagnostic_has_next : bool;
  rw_resources_diagnostic : list ResourceDiagnosticWire;
  rw_setup_ensure_events : list SetupEnsureEventWire;
  rw_doctor_daemon : string;
  rw_doctor_registry : string;
  rw_doctor_engine : string;
  rw_doctor_client_version : string;
  rw_doctor_server_version : string;
  rw_setup_gc_candidates : list SetupGcCandidateWire;
  rw_gc_protected_not_retired : Z;
  rw_gc_protected_ambiguous_use : Z;
  rw_gc_protected_lease : Z;
  rw_gc_protected_session : Z;
  rw_gc_excluded_unmanaged : Z;
  rw_gc_removed : bool;
  rw_gc_reconciled_missing : bool;
  rw_setup_done_uses : Z;
  rw_setup_done_resources : Z;
  rw_setup_adopted : bool;
  rw_setup_retired_stopped : bool;
  rw_setup_retired_already_stopped : bool;
  rw_setup_reconcile_records : list SetupReconcileRecordWire;
  rw_setup_reconcile_repaired : bool;
  rw_setup_reconcile_already_repaired : bool;
  rw_manifest_volume_gc_candidates : list ManifestVolumeGcCandidateWire;
  rw_volume_gc_protected_not_retired : Z;
  rw_volume_gc_protected_policy : Z;
  rw_volume_gc_protected_ambiguous_use : Z;
  rw_volume_gc_protected_lease : Z;
  rw_volume_gc_protected_session : Z;
  rw_volume_gc_protected_intent : Z;
  rw_volume_gc_excluded_unmanaged : Z;
  rw_volume_gc_removed : bool;
  rw_volume_gc_reconciled_missing : bool;
  rw_unmanaged_removed : Z;
  rw_unmanaged_removed_bytes : Z;
  rw_unmanaged_failed : Z;
  rw_unmanaged_failures : list string;
  rw_unmanaged_refused : string;
  rw_unmanaged_planned : Z;
  rw_daemon_version : string;
  rw_ci_reply : string;
  rw_jobs_json : string;
  rw_owned_applied : bool;
  rw_owned_planned : Z;
  rw_owned_removed : Z;
  rw_owned_removed_bytes : Z;
  rw_owned_deferred : Z;
  rw_owned_failed : Z;
  rw_owned_failures : list string;
  rw_owned_refused : string;
  rw_daemon_protocol : Z;
  rw_daemon_protocol_min : Z;
  rw_refused_client_protocol : Z;
  rw_owned_held : list HeldCountWire;
  rw_owned_eager : list HeldCountWire;
}.

Definition reply_eta (r : ReplyWire) : ReplyWire :=
  mkReply
    (rw_code r) (rw_registry_id r) (rw_schema_version r) (rw_resources r) (rw_leases r)
    (rw_sessions r) (rw_reconciliation_required r) (rw_job_id r) (rw_job_state r)
    (rw_job_error r) (rw_logs r) (rw_retained_from r) (rw_next_log_cursor r) (rw_log_gap r)
    (rw_diagnostic_next r) (rw_diagnostic_has_next r) (rw_resources_diagnostic r)
    (rw_setup_ensure_events r) (rw_doctor_daemon r) (rw_doctor_registry r) (rw_doctor_engine r)
    (rw_doctor_client_version r) (rw_doctor_server_version r) (rw_setup_gc_candidates r)
    (rw_gc_protected_not_retired r) (rw_gc_protected_ambiguous_use r) (rw_gc_protected_lease r)
    (rw_gc_protected_session r) (rw_gc_excluded_unmanaged r) (rw_gc_removed r)
    (rw_gc_reconciled_missing r) (rw_setup_done_uses r) (rw_setup_done_resources r)
    (rw_setup_adopted r) (rw_setup_retired_stopped r) (rw_setup_retired_already_stopped r)
    (rw_setup_reconcile_records r) (rw_setup_reconcile_repaired r)
    (rw_setup_reconcile_already_repaired r) (rw_manifest_volume_gc_candidates r)
    (rw_volume_gc_protected_not_retired r) (rw_volume_gc_protected_policy r)
    (rw_volume_gc_protected_ambiguous_use r) (rw_volume_gc_protected_lease r)
    (rw_volume_gc_protected_session r) (rw_volume_gc_protected_intent r)
    (rw_volume_gc_excluded_unmanaged r) (rw_volume_gc_removed r)
    (rw_volume_gc_reconciled_missing r) (rw_unmanaged_removed r) (rw_unmanaged_removed_bytes r)
    (rw_unmanaged_failed r) (rw_unmanaged_failures r) (rw_unmanaged_refused r)
    (rw_unmanaged_planned r) (rw_daemon_version r) (rw_ci_reply r) (rw_jobs_json r)
    (rw_owned_applied r) (rw_owned_planned r) (rw_owned_removed r) (rw_owned_removed_bytes r)
    (rw_owned_deferred r) (rw_owned_failed r) (rw_owned_failures r) (rw_owned_refused r)
    (rw_daemon_protocol r) (rw_daemon_protocol_min r) (rw_refused_client_protocol r)
    (rw_owned_held r) (rw_owned_eager r).

(** [ReplyWire::default()]. *)
Definition reply_default : ReplyWire :=
  mkReply
    0 "" 0 0 0 0 false 0 "" "" [] 0 0 false 0 false [] [] "" "" "" "" "" [] 0 0 0 0 0 false false
    0 0 false false false [] false false [] 0 0 0 0 0 0 0 false false 0 0 0 [] "" 0 "" "" ""
    false 0 0 0 0 0 [] "" 0 0 0 [] [].

Declare Scope reply_scope.
Delimit Scope reply_scope with reply.
Notation "r <| p := v |>" := (ltac:(record_with reply_eta p) v r : ReplyWire)
  (at level 12, left associativity, only parsing) : reply_scope.
Local Open Scope reply_scope.

Definition reply_code (code : Z) : ReplyWire := reply_default <| rw_code := code |>.

(** ** Text that may be absent, and counts *)

(** [unwrap_or_default()] on the way out and [(!s.is_empty()).then_some(s)] on the way in. *)
Definition text_out (o : option string) : string := default "" o.
Definition text_in (s : string) : option string := if String.eqb s "" then None else Some s.
Definition next_in (has_next : bool) (next : Z) : option Z := if has_next then Some next else None.
(** [i64::try_from(bytes).unwrap_or(i64::MAX)]. *)
Definition bytes_out (bytes : Z) : Z :=
  if (i64_min <=? bytes) && (bytes <=? i64_max) then bytes else i64_max.

(** A [BTreeMap] iterates in the order of its keys, which is that of [all]. *)
Definition encode_by {A} `{Countable A} (all : list A) (as_str : A → string) (m : gmap A Z) :
    list HeldCountWire :=
  omap (λ a, n ← m !! a; Some {| hc_reason := as_str a; hc_count := n |}) all.
(** Collecting into a map: a later entry of the same key wins. *)
Definition decode_by {A} `{Countable A} (parse : string → option A) (wire : list HeldCountWire) :
    gmap A Z :=
  foldl (λ m e, match parse (hc_reason e) with Some a => <[a := hc_count e]> m | None => m end)
    ∅ wire.
Definition encode_counts : gmap HoldReason Z → list HeldCountWire :=
  encode_by HoldReason_ALL HoldReason_as_str.
Definition decode_counts : list HeldCountWire → gmap HoldReason Z := decode_by HoldReason_parse.
Definition encode_eager : gmap EagerReason Z → list HeldCountWire :=
  encode_by EagerReason_ALL EagerReason_as_str.
Definition decode_eager : list HeldCountWire → gmap EagerReason Z := decode_by EagerReason_parse.

(** ** Records, out and in *)

Definition resource_out (r : RegistryResourceDiagnostic) : ResourceDiagnosticWire :=
  {| rdw_id := rd_id r; rdw_kind := rd_kind r; rdw_name := rd_name r; rdw_stack := rd_stack r;
     rdw_generation := rd_generation r; rdw_state := rd_state r; rdw_retention := rd_retention r;
     rdw_created_at := rd_created_at r; rdw_last_used := rd_last_used r |}.
Definition resource_in (r : ResourceDiagnosticWire) : RegistryResourceDiagnostic :=
  {| rd_id := rdw_id r; rd_kind := rdw_kind r; rd_name := rdw_name r; rd_stack := rdw_stack r;
     rd_generation := rdw_generation r; rd_state := rdw_state r; rd_retention := rdw_retention r;
     rd_created_at := rdw_created_at r; rd_last_used := rdw_last_used r |}.
Definition candidate_out (c : GcCandidateDiagnostic) : GcCandidateWire :=
  {| gcw_id := gd_id c; gcw_name := gd_name c; gcw_generation := gd_generation c;
     gcw_reason := gd_reason c; gcw_token := gd_token c |}.
Definition candidate_in (c : GcCandidateWire) : GcCandidateDiagnostic :=
  {| gd_id := gcw_id c; gd_name := gcw_name c; gd_generation := gcw_generation c;
     gd_token := gcw_token c; gd_reason := gcw_reason c |}.
Definition event_out (e : SetupEnsureEventDiagnostic) : SetupEnsureEventWire :=
  {| eww_cursor := ed_cursor e; eww_at := ed_at e; eww_kind := ed_kind e;
     eww_detail := ed_detail e |}.
Definition event_in (e : SetupEnsureEventWire) : SetupEnsureEventDiagnostic :=
  {| ed_cursor := eww_cursor e; ed_at := eww_at e; ed_kind := eww_kind e;
     ed_detail := eww_detail e |}.
Definition reconcile_out (r : SetupReconcileRecord) : SetupReconcileRecordWire :=
  {| srw_id := sr_id r; srw_name := sr_name r; srw_generation := sr_generation r;
     srw_drift := sr_drift r; srw_repair_token := text_out (sr_repair_token r) |}.
Definition reconcile_in (r : SetupReconcileRecordWire) : SetupReconcileRecord :=
  {| sr_id := srw_id r; sr_name := srw_name r; sr_generation := srw_generation r;
     sr_drift := srw_drift r; sr_repair_token := text_in (srw_repair_token r) |}.

(** ** Decoding *)

Definition CODE_BUSY : Z := 32.

Inductive Reply :=
| Pong (identity : DaemonIdentity)
| RStatus (status : Status)
| Shutdown
| Busy (reason : string)
| RJob (id : Z)
| RJobStatus (status : JobStatus)
| RCancelled
| RJobLogs (page : LogPage)
| RRegistryResources (page : RegistryResourcePage)
| RSetupEnsureEvents (page : SetupEnsureEventPage)
| RSetupGcPreview (page : SetupGcPreviewPage)
| RSetupGcApply (r : SetupGcApplyResult)
| RSetupRetiredStop (r : SetupRetiredStopResult)
| RSetupDone (r : SetupDoneResult)
| RSetupAdopt (r : SetupAdoptResult)
| RDoctor (r : DoctorReport)
| RSetupReconcilePreview (page : SetupReconcilePreviewPage)
| RSetupReconcileMissingRepair (r : SetupReconcileMissingRepairResult)
| RManifestVolumeGcPreview (page : ManifestVolumeGcPreviewPage)
| RManifestVolumeGcApply (r : ManifestVolumeGcApplyResult)
| RUnmanagedApply (r : UnmanagedApplySummary)
| RManagedRetention (r : ManagedRetentionSummary)
| RCi (json : string)
| RCiError (json : string)
| RJobs (json : string).

Definition identity_in (v : ReplyWire) : DaemonIdentity :=
  {| di_release := rw_daemon_version v; di_protocol := rw_daemon_protocol v;
     di_protocol_min := rw_daemon_protocol_min v |}.

Definition decode_reply (v : ReplyWire) : result Error Reply :=
  let next := next_in (rw_diagnostic_has_next v) (rw_diagnostic_next v) in
  let code := rw_code v in
  if code =? 10 then Ok (Pong (identity_in v))
  else if code =? 5 then Err (EProtocolUnsupported (identity_in v) (rw_refused_client_protocol v))
  else if code =? 360 then Ok (RCi (rw_ci_reply v))
  else if code =? 361 then Ok (RCiError (rw_ci_reply v))
  else if code =? 20 then
    Ok (RStatus {| ss_registry_id := rw_registry_id v; ss_schema_version := rw_schema_version v;
                   ss_resources := rw_resources v; ss_leases := rw_leases v;
                   ss_sessions := rw_sessions v;
                   ss_reconciliation_required := rw_reconciliation_required v |})
  else if code =? 30 then Ok Shutdown
  else if code =? CODE_BUSY then Ok (Busy (rw_job_error v))
  else if code =? 40 then Ok (RJob (rw_job_id v))
  else if code =? 50 then
    Ok (RJobStatus {| js_id := rw_job_id v; js_state := rw_job_state v;
                      js_error := text_in (rw_job_error v) |})
  else if code =? 60 then Ok RCancelled
  else if code =? 70 then
    Ok (RJobLogs {| lp_retained_from := rw_retained_from v; lp_next := rw_next_log_cursor v;
                    lp_gap := rw_log_gap v;
                    lp_records := map (λ r, (lw_cursor r, lw_line r)) (rw_logs v) |})
  else if code =? 80 then
    Ok (RRegistryResources {| rp_next := next;
                              rp_records := map resource_in (rw_resources_diagnostic v) |})
  else if code =? 90 then
    Ok (RSetupEnsureEvents {| ep_next := next;
                              ep_records := map event_in (rw_setup_ensure_events v) |})
  else if code =? 100 then
    Ok (RDoctor {| do_daemon := rw_doctor_daemon v; do_registry := rw_doctor_registry v;
                   do_engine := rw_doctor_engine v;
                   do_client_version := text_in (rw_doctor_client_version v);
                   do_server_version := text_in (rw_doctor_server_version v) |})
  else if code =? 110 then
    Ok (RSetupGcPreview
          {| sp_next := next; sp_candidates := map candidate_in (rw_setup_gc_candidates v);
             sp_counts := {| gp_protected_not_retired := rw_gc_protected_not_retired v;
                             gp_protected_ambiguous_use := rw_gc_protected_ambiguous_use v;
                             gp_protected_lease := rw_gc_protected_lease v;
                             gp_protected_session := rw_gc_protected_session v;
                             gp_excluded_unmanaged := rw_gc_excluded_unmanaged v |} |})
  else if code =? 120 then
    Ok (RSetupGcApply {| ga_removed := rw_gc_removed v;
                         ga_reconciled_missing := rw_gc_reconciled_missing v |})
  else if code =? 130 then
    Ok (RSetupDone {| sd_uses_completed := rw_setup_done_uses v;
                      sd_resources_completed := rw_setup_done_resources v |})
  else if code =? 140 then Ok (RSetupAdopt {| ad_adopted := rw_setup_adopted v |})
  else if code =? 150 then
    Ok (RSetupRetiredStop {| st_stopped := rw_setup_retired_stopped v;
                             st_already_stopped := rw_setup_retired_already_stopped v |})
  else if code =? 160 then
    Ok (RSetupReconcilePreview {| rc_next := next;
                                  rc_records := map reconcile_in (rw_setup_reconcile_records v) |})
  else if code =? 170 then
    Ok (RSetupReconcileMissingRepair
          {| rr_repaired := rw_setup_reconcile_repaired v;
             rr_already_repaired := rw_setup_reconcile_already_repaired v |})
  else if code =? 180 then
    Ok (RManifestVolumeGcPreview
          {| vg_next := next; vg_candidates := map candidate_in (rw_manifest_volume_gc_candidates v);
             vg_counts := {| vp_protected_not_retired := rw_volume_gc_protected_not_retired v;
                             vp_protected_policy := rw_volume_gc_protected_policy v;
                             vp_protected_ambiguous_use := rw_volume_gc_protected_ambiguous_use v;
                             vp_protected_lease := rw_volume_gc_protected_lease v;
                             vp_protected_session := rw_volume_gc_protected_session v;
                             vp_protected_intent := rw_volume_gc_protected_intent v;
                             vp_excluded_unmanaged := rw_volume_gc_excluded_unmanaged v |} |})
  else if code =? 190 then
    Ok (RManifestVolumeGcApply {| va_removed := rw_volume_gc_removed v;
                                  va_reconciled_missing := rw_volume_gc_reconciled_missing v |})
  else if code =? 200 then
    Ok (RUnmanagedApply
          {| uw_planned := rw_unmanaged_planned v; uw_removed := rw_unmanaged_removed v;
             uw_removed_bytes := rw_unmanaged_removed_bytes v; uw_failed := rw_unmanaged_failed v;
             uw_failures := rw_unmanaged_failures v; uw_refused := text_in (rw_unmanaged_refused v) |})
  else if code =? 220 then Ok (RJobs (rw_jobs_json v))
  else if code =? 230 then
    Ok (RManagedRetention
          {| su_applied := rw_owned_applied v; su_planned := rw_owned_planned v;
             su_removed := rw_owned_removed v; su_removed_bytes := rw_owned_removed_bytes v;
             su_deferred := rw_owned_deferred v; su_failed := rw_owned_failed v;
             su_failures := rw_owned_failures v; su_refused := text_in (rw_owned_refused v);
             su_held := decode_counts (rw_owned_held v);
             su_eager := decode_eager (rw_owned_eager v) |})
  else if code =? 1 then Err (EProtocol "unsupported protocol")
  else if code =? 2 then Err (EProtocol "unknown operation")
  else Err (EProtocol "daemon error").

(** ** Round trips *)

(** What is left of an optional text on the other side. *)
Definition seen_text (o : option string) : option string :=
  match o with Some "" => None | o => o end.
Lemma text_roundtrip o : text_in (text_out o) = seen_text o.
Proof. by destruct o as [[|a s]|]. Qed.

Lemma resource_roundtrip r : resource_in (resource_out r) = r.
Proof. by destruct r. Qed.
Lemma candidate_roundtrip c : candidate_in (candidate_out c) = c.
Proof. by destruct c. Qed.
Lemma event_roundtrip e : event_in (event_out e) = e.
Proof. by destruct e. Qed.
Lemma map_roundtrip {A B} (out : A → B) (back : B → A) l :
  (∀ a, back (out a) = a) → map back (map out l) = l.
Proof. intros H. rewrite map_map, (map_ext _ id), map_id; [done|exact H]. Qed.

(** Counts by reason survive, for an enumeration whose text form parses back. *)
Section counts.
Context {A : Type} `{Countable A} (all : list A) (as_str : A → string)
  (parse : string → option A).
Context (all_nodup : NoDup all) (all_all : ∀ a, a ∈ all).
Context (parse_as : ∀ a, parse (as_str a) = Some a).

Lemma decode_by_spec (m : gmap A Z) (l : list A) (acc : gmap A Z) a :
  NoDup l →
  foldl (λ m e, match parse (hc_reason e) with Some a => <[a := hc_count e]> m | None => m end)
    acc (encode_by l as_str m) !! a
  = if bool_decide (a ∈ l) then match m !! a with Some n => Some n | None => acc !! a end
    else acc !! a.
Proof.
  unfold encode_by. revert acc. induction l as [|x l IH]; intros acc Hnd; [done|].
  apply NoDup_cons in Hnd as [Hx Hnd]. cbn [omap list_omap].
  destruct (decide (a = x)) as [->|Hne].
  - rewrite bool_decide_true by (left; done).
    destruct (m !! x) as [n|] eqn:Hm; cbn.
    + rewrite parse_as, IH, bool_decide_false by done. by rewrite lookup_insert_eq.
    + by rewrite IH, bool_decide_false by done.
  - destruct (m !! x) as [n|] eqn:Hm; cbn; [rewrite parse_as|]; rewrite IH by done.
    all: rewrite ?lookup_insert_ne by done.
    all: destruct (decide (a ∈ l)) as [Hin|Hin].
    all: try (rewrite !bool_decide_true by (try right; done); done).
    all: rewrite !bool_decide_false by (rewrite ?elem_of_cons; naive_solver); done.
Qed.

Lemma counts_roundtrip (m : gmap A Z) : decode_by parse (encode_by all as_str m) = m.
Proof.
  apply map_eq. intros a. unfold decode_by. rewrite decode_by_spec, bool_decide_true by done.
  by destruct (m !! a).
Qed.
End counts.

Lemma held_roundtrip m : decode_counts (encode_counts m) = m.
Proof.
  apply counts_roundtrip; [|intros a|by intros []].
  - by apply (bool_decide_unpack _); vm_compute.
  - apply list_elem_of_In. destruct a; cbn; tauto.
Qed.
Lemma eager_roundtrip m : decode_eager (encode_eager m) = m.
Proof.
  apply counts_roundtrip; [|intros a|by intros []].
  - by apply (bool_decide_unpack _); vm_compute.
  - apply list_elem_of_In. destruct a; cbn; tauto.
Qed.

#[global] Instance HeldCountWire_eq_dec : EqDecision HeldCountWire.
Proof. solve_decision. Defined.
#[global] Instance LogRecordWire_eq_dec : EqDecision LogRecordWire.
Proof. solve_decision. Defined.
#[global] Instance ResourceDiagnosticWire_eq_dec : EqDecision ResourceDiagnosticWire.
Proof. solve_decision. Defined.
#[global] Instance GcCandidateWire_eq_dec : EqDecision GcCandidateWire.
Proof. solve_decision. Defined.
#[global] Instance SetupEnsureEventWire_eq_dec : EqDecision SetupEnsureEventWire.
Proof. solve_decision. Defined.
#[global] Instance SetupReconcileRecordWire_eq_dec : EqDecision SetupReconcileRecordWire.
Proof. solve_decision. Defined.
#[global] Instance ReplyWire_eq_dec : EqDecision ReplyWire.
Proof. solve_decision. Defined.
