(* ===== verification/Dispatch.v ===== *)
(** * Dispatch: one request, one handler, one reply

    [bosn-service/src/dispatch.rs]: the protocol window, the operation table and each arm of
    [handle], with the idle handoff of [bosn-service/src/handoff.rs]. What an arm asks of the
    registry actor, the job actor, the CI runtime, the executors and the collection passes is
    a call ([dcall]) with its typed answer; the components themselves are modelled in their own
    files. The decoder of a CI request and the encoder of a CI error are parameters, being
    derived by serde. *)

From Stdlib Require Import Ascii.
From stdpp Require Import pretty.
From S2P Require Import Effects.
From S2P Require Import JobRequests.
From S2P Require Import ManifestRecovery.
From S2P Require Import GcApply.
From S2P Require Import Registry.
From S2P Require Import ManagedRetention.
From S2P Require Import UnmanagedApply.
From S2P Require Export WireValidate.
From S2P Require Export Replies.
From S2P Require Import Owners.

Local Open Scope string_scope.
Local Open Scope list_scope.
Local Open Scope Z_scope.
Local Open Scope bosn_scope.
Local Open Scope reply_scope.

Record SetupAdoptRequest := {
  sq_workspace : string;
  sq_config : string;
  sq_policy : SetupPreparePolicy;
  sq_deadline : Z;
  sq_output_limit : Z;
  sq_confirm : bool;
}.

(** [format!("{:?}", job.state)]. *)
Definition job_state_text (s : JobState) : string :=
  match s with
  | Queued => "Queued"
  | Running => "Running"
  | Cancelling => "Cancelling"
  | Succeeded => "Succeeded"
  | Failed => "Failed"
  | Cancelled => "Cancelled"
  | Superseded => "Superseded"
  end.

Section dispatch.
Context {CiRequest : Type}.

(** ** Calls *)

Inductive dcall :=
| DStop
| DStatus
| DResources (after limit : Z)
| DEvents (after limit : Z)
| DSetupGcPreview (workspace : string) (after limit : Z)
| DCompleteWorkspace (workspace : string)
| DReconcilePreview (workspace : string) (after limit : Z)
| DVolumeGcPreview (workspace : string) (after limit : Z)
| DVolumeReleasePreview (workspace : string) (after limit : Z)
| DRecordAdoption (execution : SetupEnsureExecution)
| DIntegrity
| DSubmit (workspace stack digest : string)
| DSubmitPrepare (request : SetupPrepareRequest)
| DSubmitTask (request : SetupTaskJobRequest)
| DSubmitAppTask (request : SetupAppTaskJobRequest)
| DSubmitEnsure (request : SetupEnsureJobRequest)
| DSubmitManifestEnsure (request : ManifestEnsureJobRequest) (owner : option ClientOwner)
| DSubmitManifestConverge (request : ManifestConvergeJobRequest)
| DSubmitManifestAppTask (request : ManifestAppTaskJobRequest) (lease : option Z)
    (owner : option ClientOwner)
| DJobs
| DJobStatus (id : Z)
| DCancel (id : Z)
| DLogs (id after limit : Z)
| DUnfinished
| DActiveRuns
| DCi (request : CiRequest) (owner : option ClientOwner)
| DDoctor
| DAdopt (request : SetupAdoptRequest)
| DInspect (name : string)
| DSetupGcApply (workspace token : string)
| DStopRetired (workspace token : string)
| DRepairMissing (workspace token : string)
| DVolumeGcApply (workspace token : string)
| DVolumeReleaseApply (workspace token : string)
| DRetention (policy : RetentionPolicy) (apply : bool)
| DOurRegistry
| DUnmanagedApply (our_registry : option string) (config : CensusConfig) (include : list string).

(** [None]: the probe or the blocking pass did not come back (a deadline, a lost thread). *)
Definition d_answer (c : dcall) : Type :=
  match c with
  | DStop => unit
  | DStatus => result Error Status
  | DResources _ _ => result Error RegistryResourcePage
  | DEvents _ _ => result Error SetupEnsureEventPage
  | DSetupGcPreview _ _ _ => result Error SetupGcPreviewPage
  | DCompleteWorkspace _ => result Error SetupDoneResult
  | DReconcilePreview _ _ _ => result Error (option Z * list SetupReconcileCandidate)
  | DVolumeGcPreview _ _ _ | DVolumeReleasePreview _ _ _ => result Error ManifestVolumeGcPreviewPage
  | DRecordAdoption _ => result Error unit
  | DIntegrity => string
  | DSubmit _ _ _ | DSubmitPrepare _ | DSubmitTask _ | DSubmitAppTask _ | DSubmitEnsure _
  | DSubmitManifestEnsure _ _ | DSubmitManifestConverge _ | DSubmitManifestAppTask _ _ _ =>
      result Error Z
  | DJobs => result Error string
  | DJobStatus _ => result Error Job
  | DCancel _ => result Error unit
  | DLogs _ _ _ => result Error LogPage
  | DUnfinished => result Error Z
  | DActiveRuns => Z
  | DCi _ _ => result (string * string) string
  | DDoctor => option DockerDoctorReport
  | DAdopt _ => result Error SetupEnsureExecution
  | DInspect _ => result string (option SetupReconcileObserved)
  | DSetupGcApply _ _ => result Error SetupGcApplyResult
  | DStopRetired _ _ => result Error SetupRetiredStopResult
  | DRepairMissing _ _ => result Error SetupReconcileMissingRepairResult
  | DVolumeGcApply _ _ | DVolumeReleaseApply _ _ => result Error ManifestVolumeGcApplyResult
  | DRetention _ _ => option ManagedRetentionOutcome
  | DOurRegistry => option string
  | DUnmanagedApply _ _ _ => option UnmanagedApplyOutcome
  end.
Notation d_prog A := (prog d_answer A).
Notation ask := (perform (answer := d_answer)).

(** An arm: its validation, its one call, and the reply to the answer. Every failure of either
    is the same reply, code 3. *)
Definition failed : ReplyWire := reply_code 3.
Definition checked {A} (v : result Error A) (k : A → d_prog ReplyWire) : d_prog ReplyWire :=
  match v with Ok a => k a | Err _ => Ret failed end.
Definition reply_ok {E A} (f : A → ReplyWire) (r : result E A) : d_prog ReplyWire :=
  Ret (match r with Ok a => f a | Err _ => failed end).
Definition on_ok {E A} (r : result E A) (k : A → d_prog ReplyWire) : d_prog ReplyWire :=
  match r with Ok a => k a | Err _ => Ret failed end.

(** ** Identity and lifetime *)

Definition identity_out (w : ReplyWire) (d : DaemonIdentity) : ReplyWire :=
  w <| rw_daemon_version := di_release d |> <| rw_daemon_protocol := di_protocol d |>
    <| rw_daemon_protocol_min := di_protocol_min d |>.

Definition protocol_window_refusal (d : DaemonIdentity) (r : Request) : option ReplyWire :=
  let refused := negb (rq_operation r =? 1) && negb (rq_client_protocol r =? 0)
                 && negb (di_protocol d =? 0) && negb (serves d (rq_client_protocol r)) in
  if refused
  then Some (identity_out (reply_code 5) d <| rw_refused_client_protocol := rq_client_protocol r |>)
  else None.

Definition op_ping (d : DaemonIdentity) : d_prog ReplyWire := Ret (identity_out (reply_code 10) d).

Definition status_out (s : Status) : ReplyWire :=
  reply_code 20 <| rw_registry_id := ss_registry_id s |>
    <| rw_schema_version := ss_schema_version s |> <| rw_resources := ss_resources s |>
    <| rw_leases := ss_leases s |> <| rw_sessions := ss_sessions s |>
    <| rw_reconciliation_required := ss_reconciliation_required s |>.
(** The one arm whose failure ends the connection without a reply. *)
Definition op_status : d_prog (result Error ReplyWire) :=
  do! s := ask DStatus in Ret (Ok (status_out s)).

Definition op_stop : d_prog ReplyWire := _ ← ask DStop; Ret (reply_code 30).

Definition OP_STOP_IF_IDLE : Z := 39.

(** What keeps the daemon busy. *)
Definition busy_list (unfinished runs leases : Z) : list string :=
  (if 0 <? unfinished then [pretty unfinished +:+ " unfinished job(s)"] else [])
  ++ (if 0 <? runs then [pretty runs +:+ " queued or running CI run(s)"] else [])
  ++ (if 0 <? leases then [pretty leases +:+ " held lease(s)"] else []).
Definition busy_reason : d_prog (result Error (option string)) :=
  do! unfinished := ask DUnfinished in
  runs ← ask DActiveRuns;
  do! s := ask DStatus in
  Ret (Ok (match busy_list unfinished runs (ss_leases s) with
           | [] => None
           | busy => Some (str_join ", " busy)
           end)).

Definition busy_out (reason : string) : ReplyWire :=
  reply_code CODE_BUSY <| rw_job_error := reason |>.
Definition stop_if_idle : d_prog ReplyWire :=
  reason ← busy_reason;
  match reason with
  | Ok None => _ ← ask DStop; Ret (reply_code 30)
  | Ok (Some reason) => Ret (busy_out reason)
  | Err _ => Ret failed
  end.

(** ** Jobs *)

Definition job_out (job_id : Z) : ReplyWire := reply_code 40 <| rw_job_id := job_id |>.

Definition op_submit (r : Request) : d_prog ReplyWire :=
  id ← ask (DSubmit (rq_workspace r) (rq_stack r) (rq_digest r)); reply_ok job_out id.

Definition jobs_out (json : string) : ReplyWire := reply_code 220 <| rw_jobs_json := json |>.
Definition op_jobs : d_prog ReplyWire := json ← ask DJobs; reply_ok jobs_out json.

Definition job_status_out (j : Job) : ReplyWire :=
  reply_code 50 <| rw_job_id := j_id j |> <| rw_job_state := job_state_text (j_state j) |>
    <| rw_job_error := text_out (j_error j) |>.
Definition op_job_status (r : Request) : d_prog ReplyWire :=
  job ← ask (DJobStatus (rq_job_id r)); reply_ok job_status_out job.

Definition op_cancel (r : Request) : d_prog ReplyWire :=
  done_ ← ask (DCancel (rq_job_id r)); reply_ok (λ _ : unit, reply_code 60) done_.

Definition logs_out (page : LogPage) : ReplyWire :=
  reply_code 70 <| rw_retained_from := lp_retained_from page |>
    <| rw_next_log_cursor := lp_next page |> <| rw_log_gap := lp_gap page |>
    <| rw_logs := map (λ r, {| lw_cursor := r.1; lw_line := r.2 |}) (lp_records page) |>.
Definition op_logs (r : Request) : d_prog ReplyWire :=
  page ← ask (DLogs (rq_job_id r) (rq_log_after r) (rq_log_limit r)); reply_ok logs_out page.

(** [SetupPreparePolicy::from_wire] and a validator of the rest, as one check. *)
Definition with_policy (r : Request) (validate : SetupPreparePolicy → result Error unit) :
    result Error SetupPreparePolicy :=
  match policy_from_wire (rq_setup_policy r) with
  | None => protocol "setup policy"
  | Some policy => let? _ := validate policy in Ok policy
  end.

Definition op_setup_prepare (r : Request) : d_prog ReplyWire :=
  checked (with_policy r (λ policy, validate_setup_prepare_wire (rq_workspace r)
             (rq_setup_config r) policy (rq_setup_deadline_ms r) (rq_setup_output_limit r)))
    (λ policy,
      id ← ask (DSubmitPrepare
        {| pr_workspace := rq_workspace r; pr_config := rq_setup_config r; pr_policy := policy;
           pr_deadline := milliseconds (rq_setup_deadline_ms r);
           pr_output_limit := rq_setup_output_limit r |});
      reply_ok job_out id).

Definition op_setup_task (r : Request) : d_prog ReplyWire :=
  checked (with_policy r (λ policy, validate_setup_task_wire (rq_workspace r) (rq_setup_config r)
             policy (rq_setup_task_name r) (rq_setup_deadline_ms r) (rq_setup_output_limit r)))
    (λ policy,
      id ← ask (DSubmitTask
        {| st_workspace := rq_workspace r; st_config := rq_setup_config r; st_policy := policy;
           st_task_name := rq_setup_task_name r;
           st_deadline := milliseconds (rq_setup_deadline_ms r);
           st_output_limit := rq_setup_output_limit r |});
      reply_ok job_out id).

Definition op_setup_ensure (r : Request) : d_prog ReplyWire :=
  checked (with_policy r (validate_setup_ensure_request_wire r))
    (λ policy,
      id ← ask (DSubmitEnsure
        {| se_workspace := rq_workspace r; se_config := rq_setup_config r; se_policy := policy;
           se_deadline := milliseconds (rq_setup_deadline_ms r);
           se_output_limit := rq_setup_output_limit r |});
      reply_ok job_out id).

Definition op_setup_app_task (r : Request) : d_prog ReplyWire :=
  checked (with_policy r (λ policy, validate_setup_task_wire (rq_workspace r) (rq_setup_config r)
             policy (rq_setup_task_name r) (rq_setup_deadline_ms r) (rq_setup_output_limit r)))
    (λ policy,
      id ← ask (DSubmitAppTask
        {| sa_workspace := rq_workspace r; sa_config := rq_setup_config r; sa_policy := policy;
           sa_task_name := rq_setup_task_name r;
           sa_deadline := milliseconds (rq_setup_deadline_ms r);
           sa_output_limit := rq_setup_output_limit r |});
      reply_ok job_out id).

Definition op_manifest_ensure (r : Request) : d_prog ReplyWire :=
  checked (let? _ := validate_manifest_ensure_request_wire r in request_owner r)
    (λ owner,
      id ← ask (DSubmitManifestEnsure
        {| me_workspace := rq_workspace r; me_manifest := rq_setup_config r;
           me_stack := rq_stack r; me_deadline := milliseconds (rq_setup_deadline_ms r);
           me_output_limit := rq_setup_output_limit r |} owner);
      reply_ok job_out id).

Definition op_manifest_converge (r : Request) : d_prog ReplyWire :=
  checked (validate_manifest_converge_request_wire r)
    (λ _,
      id ← ask (DSubmitManifestConverge
        {| mc_workspace := rq_workspace r; mc_manifest := rq_setup_config r;
           mc_deadline := milliseconds (rq_setup_deadline_ms r);
           mc_output_limit := rq_setup_output_limit r |});
      reply_ok job_out id).

Definition op_manifest_app_task (r : Request) : d_prog ReplyWire :=
  checked (let? _ := validate_manifest_app_task_request_wire r in request_owner r)
    (λ owner,
      id ← ask (DSubmitManifestAppTask
        {| ma_workspace := rq_workspace r; ma_manifest := rq_setup_config r;
           ma_stack := rq_stack r; ma_task_name := rq_setup_task_name r;
           ma_deadline := milliseconds (rq_setup_deadline_ms r);
           ma_output_limit := rq_setup_output_limit r |}
        (if nonzero (rq_follow_lease_ms r) then Some (milliseconds (rq_follow_lease_ms r)) else None)
        owner);
      reply_ok job_out id).

(** ** Diagnostics and previews *)

Definition next_out (w : ReplyWire) (next : option Z) : ReplyWire :=
  w <| rw_diagnostic_next := default 0 next |>
    <| rw_diagnostic_has_next := bool_decide (is_Some next) |>.

Definition resources_out (page : RegistryResourcePage) : ReplyWire :=
  next_out (reply_code 80) (rp_next page)
    <| rw_resources_diagnostic := map resource_out (rp_records page) |>.
Definition op_resources (r : Request) : d_prog ReplyWire :=
  checked (validate_registry_diagnostics_request_wire r) (λ _,
    page ← ask (DResources (rq_diagnostic_after r) (rq_diagnostic_limit r));
    reply_ok resources_out page).

Definition events_out (page : SetupEnsureEventPage) : ReplyWire :=
  next_out (reply_code 90) (ep_next page)
    <| rw_setup_ensure_events := map event_out (ep_records page) |>.
Definition op_events (r : Request) : d_prog ReplyWire :=
  checked (validate_registry_diagnostics_request_wire r) (λ _,
    page ← ask (DEvents (rq_diagnostic_after r) (rq_diagnostic_limit r));
    reply_ok events_out page).

Definition doctor_out (r : DoctorReport) : ReplyWire :=
  reply_code 100 <| rw_doctor_daemon := do_daemon r |> <| rw_doctor_registry := do_registry r |>
    <| rw_doctor_engine := do_engine r |>
    <| rw_doctor_client_version := text_out (do_client_version r) |>
    <| rw_doctor_server_version := text_out (do_server_version r) |>.
Definition op_doctor (r : Request) : d_prog ReplyWire :=
  checked (validate_doctor_request_wire r) (λ _,
    registry ← ask DIntegrity;
    report ← ask DDoctor;
    let report := default {| dr_state := DocDeadline; dr_client_version := None;
                             dr_server_version := None |} report in
    Ret (doctor_out (doctor_from_engine registry report))).

Definition setup_gc_preview_out (page : SetupGcPreviewPage) : ReplyWire :=
  let counts := sp_counts page in
  next_out (reply_code 110) (sp_next page)
    <| rw_setup_gc_candidates := map candidate_out (sp_candidates page) |>
    <| rw_gc_protected_not_retired := gp_protected_not_retired counts |>
    <| rw_gc_protected_ambiguous_use := gp_protected_ambiguous_use counts |>
    <| rw_gc_protected_lease := gp_protected_lease counts |>
    <| rw_gc_protected_session := gp_protected_session counts |>
    <| rw_gc_excluded_unmanaged := gp_excluded_unmanaged counts |>.
Definition op_setup_gc_preview (r : Request) : d_prog ReplyWire :=
  checked (validate_setup_gc_preview_request_wire r) (λ _,
    page ← ask (DSetupGcPreview (rq_workspace r) (rq_diagnostic_after r) (rq_diagnostic_limit r));
    reply_ok setup_gc_preview_out page).

Definition candidate_of (r : Resource) : GcCandidate :=
  {| gc_id := re_id r; gc_name := re_name r; gc_generation := re_generation r |}.
Definition reconcile_record (c : SetupReconcileCandidate)
    (inspected : result string (option SetupReconcileObserved)) : SetupReconcileRecord :=
  let drift := classify_setup_reconcile c inspected in
  {| sr_id := re_id (sc_resource c); sr_name := re_name (sc_resource c);
     sr_generation := re_generation (sc_resource c); sr_drift := drift;
     sr_repair_token :=
       if String.eqb drift "missing" && sc_missing_repairable c
       then Some (setup_reconcile_missing_token (candidate_of (sc_resource c))) else None |}.
Definition reconcile_preview_out (page : SetupReconcilePreviewPage) : ReplyWire :=
  next_out (reply_code 160) (rc_next page)
    <| rw_setup_reconcile_records := map reconcile_out (rc_records page) |>.
Definition reconcile_step (records : list SetupReconcileRecord) (c : SetupReconcileCandidate) :
    d_prog (list SetupReconcileRecord) :=
  inspected ← ask (DInspect (re_name (sc_resource c)));
  Ret (records ++ [reconcile_record c inspected]).
Definition op_reconcile_preview (r : Request) : d_prog ReplyWire :=
  checked (validate_setup_reconcile_preview_request_wire r) (λ _,
    page ← ask (DReconcilePreview (rq_workspace r) (rq_diagnostic_after r) (rq_diagnostic_limit r));
    on_ok page (λ page,
      records ← prog_fold reconcile_step [] page.2;
      Ret (reconcile_preview_out {| rc_next := page.1; rc_records := records |}))).

Definition volume_preview_out (page : ManifestVolumeGcPreviewPage) : ReplyWire :=
  let counts := vg_counts page in
  next_out (reply_code 180) (vg_next page)
    <| rw_manifest_volume_gc_candidates := map candidate_out (vg_candidates page) |>
    <| rw_volume_gc_protected_not_retired := vp_protected_not_retired counts |>
    <| rw_volume_gc_protected_policy := vp_protected_policy counts |>
    <| rw_volume_gc_protected_ambiguous_use := vp_protected_ambiguous_use counts |>
    <| rw_volume_gc_protected_lease := vp_protected_lease counts |>
    <| rw_volume_gc_protected_session := vp_protected_session counts |>
    <| rw_volume_gc_protected_intent := vp_protected_intent counts |>
    <| rw_volume_gc_excluded_unmanaged := vp_excluded_unmanaged counts |>.
Definition op_volume_gc_preview (r : Request) : d_prog ReplyWire :=
  checked (validate_manifest_volume_gc_preview_request_wire r) (λ _,
    page ← ask (DVolumeGcPreview (rq_workspace r) (rq_diagnostic_after r) (rq_diagnostic_limit r));
    reply_ok volume_preview_out page).

(** The release preview carries no counts. *)
Definition release_preview_out (page : ManifestVolumeGcPreviewPage) : ReplyWire :=
  next_out (reply_code 180) (vg_next page)
    <| rw_manifest_volume_gc_candidates := map candidate_out (vg_candidates page) |>.
Definition op_volume_release_preview (r : Request) : d_prog ReplyWire :=
  checked (validate_manifest_volume_gc_preview_request_wire r) (λ _,
    page ← ask (DVolumeReleasePreview (rq_workspace r) (rq_diagnostic_after r)
                  (rq_diagnostic_limit r));
    reply_ok release_preview_out page).

(** ** What changes or removes something *)

Definition setup_gc_apply_out (x : SetupGcApplyResult) : ReplyWire :=
  reply_code 120 <| rw_gc_removed := ga_removed x |>
    <| rw_gc_reconciled_missing := ga_reconciled_missing x |>.
Definition op_setup_gc_apply (r : Request) : d_prog ReplyWire :=
  checked (validate_setup_gc_apply_request_wire r) (λ _,
    x ← ask (DSetupGcApply (rq_workspace r) (rq_gc_candidate_token r));
    reply_ok setup_gc_apply_out x).

Definition setup_done_out (x : SetupDoneResult) : ReplyWire :=
  reply_code 130 <| rw_setup_done_uses := sd_uses_completed x |>
    <| rw_setup_done_resources := sd_resources_completed x |>.
Definition op_setup_done (fs : path_view) (r : Request) : d_prog ReplyWire :=
  checked (let? _ := validate_setup_done_request_wire r in
           canonical_setup_done_workspace fs (rq_workspace r)) (λ workspace,
    x ← ask (DCompleteWorkspace workspace);
    reply_ok setup_done_out x).

Definition adopt_out : ReplyWire := reply_code 140 <| rw_setup_adopted := true |>.
Definition op_setup_adopt (r : Request) : d_prog ReplyWire :=
  checked (with_policy r (validate_setup_adopt_request_wire r)) (λ policy,
    x ← ask (DAdopt
      {| sq_workspace := rq_workspace r; sq_config := rq_setup_config r; sq_policy := policy;
         sq_deadline := milliseconds (rq_setup_deadline_ms r);
         sq_output_limit := rq_setup_output_limit r; sq_confirm := true |});
    on_ok x (λ execution,
      recorded ← ask (DRecordAdoption execution); reply_ok (λ _ : unit, adopt_out) recorded)).

Definition retired_stop_out (x : SetupRetiredStopResult) : ReplyWire :=
  reply_code 150 <| rw_setup_retired_stopped := st_stopped x |>
    <| rw_setup_retired_already_stopped := st_already_stopped x |>.
Definition op_retired_stop (r : Request) : d_prog ReplyWire :=
  checked (validate_setup_retired_stop_request_wire r) (λ _,
    x ← ask (DStopRetired (rq_workspace r) (rq_gc_candidate_token r));
    reply_ok retired_stop_out x).

Definition repair_out (x : SetupReconcileMissingRepairResult) : ReplyWire :=
  reply_code 170 <| rw_setup_reconcile_repaired := rr_repaired x |>
    <| rw_setup_reconcile_already_repaired := rr_already_repaired x |>.
Definition op_repair_missing (r : Request) : d_prog ReplyWire :=
  checked (validate_setup_reconcile_repair_missing_request_wire r) (λ _,
    x ← ask (DRepairMissing (rq_workspace r) (rq_gc_candidate_token r));
    reply_ok repair_out x).

Definition volume_apply_out (x : ManifestVolumeGcApplyResult) : ReplyWire :=
  reply_code 190 <| rw_volume_gc_removed := va_removed x |>
    <| rw_volume_gc_reconciled_missing := va_reconciled_missing x |>.
Definition op_volume_gc_apply (r : Request) : d_prog ReplyWire :=
  checked (validate_manifest_volume_gc_apply_request_wire r) (λ _,
    x ← ask (DVolumeGcApply (rq_workspace r) (rq_gc_candidate_token r));
    reply_ok volume_apply_out x).
Definition op_volume_release_apply (r : Request) : d_prog ReplyWire :=
  checked (validate_manifest_volume_release_apply_request_wire r) (λ _,
    x ← ask (DVolumeReleaseApply (rq_workspace r) (rq_gc_candidate_token r));
    reply_ok volume_apply_out x).

Definition retention_policy (r : Request) : RetentionPolicy :=
  mkPolicy (duration_from_secs (rq_owned_container_ttl_secs r))
    (duration_from_secs (rq_owned_volume_ttl_secs r))
    (duration_from_secs (rq_owned_image_ttl_secs r))
    (if 0 <? rq_owned_max_bytes r then Some (rq_owned_max_bytes r) else None)
    (idle_volume_budget RetentionPolicy_default) (idle_volume_floor RetentionPolicy_default).
Definition retention_out (s : ManagedRetentionSummary) : ReplyWire :=
  reply_code 230 <| rw_owned_applied := su_applied s |> <| rw_owned_planned := su_planned s |>
    <| rw_owned_removed := su_removed s |>
    <| rw_owned_removed_bytes := bytes_out (su_removed_bytes s) |>
    <| rw_owned_deferred := su_deferred s |> <| rw_owned_failed := su_failed s |>
    <| rw_owned_failures := su_failures s |> <| rw_owned_held := encode_counts (su_held s) |>
    <| rw_owned_eager := encode_eager (su_eager s) |>
    <| rw_owned_refused := text_out (su_refused s) |>.
Definition op_retention (r : Request) : d_prog ReplyWire :=
  checked (validate_managed_retention_request_wire r) (λ _,
    outcome ← ask (DRetention (retention_policy r) (rq_owned_confirm r));
    Ret (match outcome with
         | Some outcome => retention_out (mo_summary outcome)
         | None => failed
         end)).

Definition census_config (ttl_seconds : Z) : CensusConfig :=
  mkCensusConfig (if ttl_seconds =? 0 then DEFAULT_TTL_SECONDS else f64_of_Z ttl_seconds).
Definition unmanaged_out (o : UnmanagedApplyOutcome) : ReplyWire :=
  reply_code 200 <| rw_unmanaged_planned := Z.of_nat (length (pl_candidates (ua_plan o))) |>
    <| rw_unmanaged_removed := ua_removed o |>
    <| rw_unmanaged_removed_bytes := bytes_out (ua_removed_bytes o) |>
    <| rw_unmanaged_failed := ua_failed o |> <| rw_unmanaged_failures := ua_failures o |>
    <| rw_unmanaged_refused := text_out (ua_refused o) |>.
Definition op_unmanaged_apply (r : Request) : d_prog ReplyWire :=
  checked (validate_unmanaged_apply_request_wire r) (λ _,
    our_registry ← ask DOurRegistry;
    outcome ← ask (DUnmanagedApply our_registry (census_config (rq_unmanaged_ttl_seconds r))
                     (rq_unmanaged_include r));
    Ret (match outcome with Some outcome => unmanaged_out outcome | None => failed end)).

(** ** CI *)

Context (ci_from_str : string → result string CiRequest).
Context (ci_error_json : string → string → string).

Definition ci_error_wire (code message : string) : ReplyWire :=
  reply_code 361 <| rw_ci_reply := ci_error_json code message |>.
(** [to_string()] of a service error is its [Debug] text. *)
Definition owner_error_text : string :=
  "Protocol(" +:+ quoted "invalid owner process identity" +:+ ")".
Definition ci_parts (r : Request) : result string (CiRequest * option ClientOwner) :=
  let? request := ci_from_str (rq_ci_request r) in
  match request_owner r with
  | Ok owner => Ok (request, owner)
  | Err _ => Err owner_error_text
  end.
Definition ci_out (value : string) : ReplyWire := reply_code 360 <| rw_ci_reply := value |>.
Definition op_ci (r : Request) : d_prog ReplyWire :=
  match ci_parts r with
  | Err error => Ret (ci_error_wire "invalid_request" error)
  | Ok (request, owner) =>
      x ← ask (DCi request owner);
      Ret (match x with
           | Ok value => ci_out value
           | Err (code, message) => ci_error_wire code message
           end)
  end.

(** ** The operation table *)

Context (identity : DaemonIdentity) (fs : path_view).

(** The arms that always answer. *)
Definition arm (r : Request) : d_prog ReplyWire :=
  let op := rq_operation r in
  if op =? 1 then op_ping identity
  else if op =? 3 then op_stop
  else if op =? OP_STOP_IF_IDLE then stop_if_idle
  else if op =? 4 then op_submit r
  else if op =? 38 then op_retention r
  else if op =? 37 then op_jobs
  else if op =? 5 then op_job_status r
  else if op =? 6 then op_cancel r
  else if op =? 7 then op_logs r
  else if op =? 8 then op_setup_prepare r
  else if op =? 9 then op_setup_task r
  else if op =? 10 then op_setup_ensure r
  else if op =? 21 then op_setup_app_task r
  else if op =? 22 then op_manifest_ensure r
  else if op =? 24 then op_manifest_converge r
  else if op =? 23 then op_manifest_app_task r
  else if op =? 11 then op_resources r
  else if op =? 12 then op_events r
  else if op =? 13 then op_doctor r
  else if op =? 17 then op_setup_adopt r
  else if op =? 14 then op_setup_gc_preview r
  else if op =? 15 then op_setup_gc_apply r
  else if op =? 16 then op_setup_done fs r
  else if op =? 18 then op_retired_stop r
  else if op =? 19 then op_reconcile_preview r
  else if op =? 20 then op_repair_missing r
  else if op =? 31 then op_volume_gc_preview r
  else if op =? 32 then op_volume_gc_apply r
  else if op =? 33 then op_volume_release_preview r
  else if op =? 34 then op_volume_release_apply r
  else if op =? 35 then op_unmanaged_apply r
  else if op =? 36 then op_ci r
  else Ret (reply_code 2).

Definition dispatch (r : Request) : d_prog (result Error ReplyWire) :=
  if negb (rq_protocol_version r =? PROTOCOL_VERSION) then Ret (Ok (reply_code 1))
  else
    match protocol_window_refusal identity r with
    | Some refusal => Ret (Ok refusal)
    | None =>
        if rq_operation r =? 2 then op_status
        else reply ← arm r; Ret (Ok reply)
    end.
End dispatch.
