(* ===== verification/Client.v ===== *)
(** * Client: the typed requests a client sends, and what it makes of the reply

    The methods of [bosn-service/src/client.rs], [client_ci.rs] and [handoff.rs] up to the
    socket: each checks its arguments, fills one envelope and expects one kind of reply. A
    method is a [ccall]; [client_request] is what it sends (or the refusal before anything is
    sent) and [client_result] what it returns. Paths are UTF-8 text; a [Duration] is in
    nanoseconds. *)

From Stdlib Require Import Ascii.
From S2P Require Import JobRequests.
From S2P Require Import ManagedRetention.
From S2P Require Import Owners.
From S2P Require Export Dispatch.

Local Open Scope string_scope.
Local Open Scope list_scope.
Local Open Scope Z_scope.
Local Open Scope bosn_scope.
Local Open Scope request_scope.

(** ** Conversions to the envelope's widths *)

Definition u32_max : Z := 2 ^ 32 - 1.
Definition try_from (max : Z) (what : string) (n : Z) : result Error Z :=
  if n <=? max then Ok n else protocol what.
(** [Path::to_str] of a path whose text is known. *)
Definition to_str (what path : string) : result Error string :=
  if is_utf8 path then Ok path else protocol what.

(** ** Diagnostics and previews *)

Definition registry_resources (after limit : Z) : result Error Request :=
  let? _ := validate_registry_page after limit in
  Ok (operation 11 <| rq_diagnostic_after := after |> <| rq_diagnostic_limit := limit |>).
Definition setup_ensure_events (after limit : Z) : result Error Request :=
  let? _ := validate_registry_page after limit in
  Ok (operation 12 <| rq_diagnostic_after := after |> <| rq_diagnostic_limit := limit |>).

(** A preview of one workspace: operation [op], refused as [what] for a bad workspace. *)
Definition preview_request (op : Z) (what : string) (workspace : string) (after limit : Z) :
    result Error Request :=
  let? _ := validate_registry_page after limit in
  let? _ := refuse_if (invalid_workspace workspace) what in
  Ok (operation op <| rq_workspace := workspace |> <| rq_diagnostic_after := after |>
        <| rq_diagnostic_limit := limit |>).
Definition setup_gc_preview : string → Z → Z → result Error Request :=
  preview_request 14 "invalid setup gc preview workspace".
Definition manifest_volume_gc_preview : string → Z → Z → result Error Request :=
  preview_request 31 "invalid manifest volume gc preview workspace".
Definition manifest_volume_release_preview : string → Z → Z → result Error Request :=
  preview_request 33 "invalid manifest volume release preview workspace".
Definition setup_reconcile_preview : string → Z → Z → result Error Request :=
  preview_request 19 "invalid setup reconcile preview workspace".

(** ** What changes or removes something *)

(** One previewed candidate, confirmed: the flag is sent only after it was checked. *)
Definition candidate_request (op : Z) (input : string → string → bool → result Error unit)
    (workspace token : string) (confirm : bool) : result Error Request :=
  let? _ := input workspace token confirm in
  Ok (operation op <| rq_workspace := workspace |> <| rq_gc_candidate_token := token |>
        <| rq_gc_confirm := true |>).
Definition setup_reconcile_repair_missing : string → string → bool → result Error Request :=
  candidate_request 20 validate_setup_reconcile_repair_missing_input.
Definition setup_gc_apply : string → string → bool → result Error Request :=
  candidate_request 15 validate_setup_gc_apply_input.
Definition manifest_volume_gc_apply : string → string → bool → result Error Request :=
  candidate_request 32 validate_manifest_volume_gc_apply_input.
Definition manifest_volume_release_apply : string → string → bool → result Error Request :=
  candidate_request 34 validate_manifest_volume_release_apply_input.
Definition setup_stop_retired : string → string → bool → result Error Request :=
  candidate_request 18 validate_setup_retired_stop_input.

Definition unmanaged_gc_apply (include : list string) (ttl_seconds : Z) (confirm : bool) :
    result Error Request :=
  let? _ := refuse_if (negb confirm) "unmanaged apply requires confirmation" in
  Ok (operation 35 <| rq_gc_confirm := true |> <| rq_unmanaged_include := include |>
        <| rq_unmanaged_ttl_seconds := ttl_seconds |>).

Definition wire_ceiling (max_bytes : option Z) : result Error Z :=
  match max_bytes with
  | None => Ok 0
  | Some ceiling =>
      if (0 <? ceiling) && (ceiling <=? i64_max) then Ok ceiling
      else protocol "managed retention byte ceiling out of range"
  end.
Definition as_secs (d : Z) : Z := d / nanos_per_sec.
Definition managed_retention (policy : RetentionPolicy) (apply : bool) : result Error Request :=
  let? max_bytes := wire_ceiling (max_bytes policy) in
  Ok (operation 38 <| rq_gc_confirm := apply |> <| rq_owned_confirm := apply |>
        <| rq_owned_container_ttl_secs := as_secs (container_ttl policy) |>
        <| rq_owned_volume_ttl_secs := as_secs (volume_ttl policy) |>
        <| rq_owned_image_ttl_secs := as_secs (image_ttl policy) |>
        <| rq_owned_max_bytes := max_bytes |>).

Definition setup_done (fs : path_view) (workspace : string) (confirm : bool) :
    result Error Request :=
  let? _ := refuse_if (negb confirm) "invalid setup done request" in
  let? workspace := canonical_setup_done_workspace fs workspace in
  Ok (operation 16 <| rq_workspace := workspace |> <| rq_setup_done_confirm := true |>).

Definition setup_adopt (q : SetupAdoptRequest) : result Error Request :=
  let? deadline_ms := try_from u64_max "setup deadline too large" (as_millis (sq_deadline q)) in
  let? output_limit := try_from u32_max "setup output limit too large" (sq_output_limit q) in
  let? _ := validate_setup_adopt_input (sq_workspace q) (sq_config q) (sq_policy q) deadline_ms
              output_limit (sq_confirm q) in
  Ok (operation 17 <| rq_workspace := sq_workspace q |> <| rq_setup_config := sq_config q |>
        <| rq_setup_policy := policy_wire (sq_policy q) |>
        <| rq_setup_deadline_ms := deadline_ms |> <| rq_setup_output_limit := output_limit |>
        <| rq_setup_adopt_confirm := true |>).

(** ** Jobs *)

Definition submit_job (workspace stack digest : string) : Request :=
  operation 4 <| rq_workspace := workspace |> <| rq_stack := stack |> <| rq_digest := digest |>.
Definition job_status (id : Z) : Request := operation 5 <| rq_job_id := id |>.
Definition cancel_job (id : Z) : Request := operation 6 <| rq_job_id := id |>.
Definition job_logs (id after limit : Z) : Request :=
  operation 7 <| rq_job_id := id |> <| rq_log_after := after |> <| rq_log_limit := limit |>.

(** The workspace, deadline and output limit of a submission, at the envelope's widths. *)
Definition submission_parts (what : string) (workspace : string) (deadline output_limit : Z) :
    result Error (string * Z * Z) :=
  let? workspace := to_str (what +:+ " workspace is not UTF-8") workspace in
  let? deadline_ms := try_from u64_max (what +:+ " deadline too large") (as_millis deadline) in
  let? output_limit := try_from u32_max (what +:+ " output limit too large") output_limit in
  Ok (workspace, deadline_ms, output_limit).

Definition submit_setup_prepare (q : SetupPrepareRequest) : result Error Request :=
  let? parts := submission_parts "setup" (pr_workspace q) (pr_deadline q) (pr_output_limit q) in
  let '(workspace, deadline_ms, output_limit) := parts in
  let? _ := validate_setup_prepare_wire workspace (pr_config q) (pr_policy q) deadline_ms
              output_limit in
  Ok (operation 8 <| rq_workspace := workspace |> <| rq_setup_config := pr_config q |>
        <| rq_setup_policy := policy_wire (pr_policy q) |> <| rq_setup_deadline_ms := deadline_ms |>
        <| rq_setup_output_limit := output_limit |>).

Definition submit_setup_task (q : SetupTaskJobRequest) : result Error Request :=
  let? parts := submission_parts "setup" (st_workspace q) (st_deadline q) (st_output_limit q) in
  let '(workspace, deadline_ms, output_limit) := parts in
  let? _ := validate_setup_task_wire workspace (st_config q) (st_policy q) (st_task_name q)
              deadline_ms output_limit in
  Ok (operation 9 <| rq_workspace := workspace |> <| rq_setup_config := st_config q |>
        <| rq_setup_policy := policy_wire (st_policy q) |>
        <| rq_setup_task_name := st_task_name q |> <| rq_setup_deadline_ms := deadline_ms |>
        <| rq_setup_output_limit := output_limit |>).

Definition submit_setup_app_task (q : SetupAppTaskJobRequest) : result Error Request :=
  let? parts := submission_parts "setup" (sa_workspace q) (sa_deadline q) (sa_output_limit q) in
  let '(workspace, deadline_ms, output_limit) := parts in
  let? _ := validate_setup_task_wire workspace (sa_config q) (sa_policy q) (sa_task_name q)
              deadline_ms output_limit in
  Ok (operation 21 <| rq_workspace := workspace |> <| rq_setup_config := sa_config q |>
        <| rq_setup_policy := policy_wire (sa_policy q) |>
        <| rq_setup_task_name := sa_task_name q |> <| rq_setup_deadline_ms := deadline_ms |>
        <| rq_setup_output_limit := output_limit |>).

Definition submit_setup_ensure (q : SetupEnsureJobRequest) : result Error Request :=
  let? parts := submission_parts "setup" (se_workspace q) (se_deadline q) (se_output_limit q) in
  let '(workspace, deadline_ms, output_limit) := parts in
  let? _ := validate_setup_ensure_wire workspace (se_config q) (se_policy q) deadline_ms
              output_limit in
  Ok (operation 10 <| rq_workspace := workspace |> <| rq_setup_config := se_config q |>
        <| rq_setup_policy := policy_wire (se_policy q) |> <| rq_setup_deadline_ms := deadline_ms |>
        <| rq_setup_output_limit := output_limit |>).

Definition submit_manifest_ensure_owned (q : ManifestEnsureJobRequest)
    (owner : option ClientOwner) : result Error Request :=
  let? parts := submission_parts "manifest" (me_workspace q) (me_deadline q) (me_output_limit q) in
  let '(workspace, deadline_ms, output_limit) := parts in
  let? _ := validate_manifest_ensure_wire workspace (me_manifest q) (me_stack q) deadline_ms
              output_limit in
  Ok (owned_by
        (operation 22 <| rq_workspace := workspace |> <| rq_stack := me_stack q |>
           <| rq_setup_config := me_manifest q |> <| rq_setup_deadline_ms := deadline_ms |>
           <| rq_setup_output_limit := output_limit |>) owner).

Definition submit_manifest_converge (q : ManifestConvergeJobRequest) : result Error Request :=
  let? parts := submission_parts "manifest" (mc_workspace q) (mc_deadline q) (mc_output_limit q) in
  let '(workspace, deadline_ms, output_limit) := parts in
  let? _ := validate_manifest_converge_wire workspace (mc_manifest q) deadline_ms output_limit in
  Ok (operation 24 <| rq_workspace := workspace |> <| rq_setup_config := mc_manifest q |>
        <| rq_setup_deadline_ms := deadline_ms |> <| rq_setup_output_limit := output_limit |>).

(** [lease.as_millis() as u64] keeps the low 64 bits. *)
Definition lease_ms (lease : option Z) : Z :=
  match lease with None => 0 | Some lease => as_millis lease mod 2 ^ 64 end.
Definition submit_manifest_app_task_with_lease (q : ManifestAppTaskJobRequest) (lease : option Z)
    (owner : option ClientOwner) : result Error Request :=
  let? parts := submission_parts "manifest" (ma_workspace q) (ma_deadline q) (ma_output_limit q) in
  let '(workspace, deadline_ms, output_limit) := parts in
  let? _ := validate_manifest_app_task_wire workspace (ma_manifest q) (ma_stack q) (ma_task_name q)
              deadline_ms output_limit in
  Ok (owned_by
        (operation 23 <| rq_workspace := workspace |> <| rq_stack := ma_stack q |>
           <| rq_setup_config := ma_manifest q |> <| rq_setup_task_name := ma_task_name q |>
           <| rq_setup_deadline_ms := deadline_ms |> <| rq_setup_output_limit := output_limit |>
           <| rq_follow_lease_ms := lease_ms lease |>) owner).
(** A follower's submission: its lease is bounded before it is sent. *)
Definition follow_manifest_app_task (q : ManifestAppTaskJobRequest) (lease : Z)
    (current : option ClientOwner) : result Error Request :=
  let? _ := refuse_if (negb (lease_in_range lease)) "invalid manifest app task follow lease" in
  submit_manifest_app_task_with_lease q (Some lease) current.

Definition ci_call_owned (encoded : string) (owner : option ClientOwner) : Request :=
  owned_by (operation 36 <| rq_ci_request := encoded |>) owner.

(** ** The methods *)

Inductive ccall :=
| CPing
| CStatus
| CDoctor
| CShutdown
| CStopIfIdle
| CResources (after limit : Z)
| CEvents (after limit : Z)
| CSetupGcPreview (workspace : string) (after limit : Z)
| CVolumeGcPreview (workspace : string) (after limit : Z)
| CVolumeReleasePreview (workspace : string) (after limit : Z)
| CReconcilePreview (workspace : string) (after limit : Z)
| CRepairMissing (workspace token : string) (confirm : bool)
| CSetupGcApply (workspace token : string) (confirm : bool)
| CVolumeGcApply (workspace token : string) (confirm : bool)
| CVolumeReleaseApply (workspace token : string) (confirm : bool)
| CStopRetired (workspace token : string) (confirm : bool)
| CUnmanagedApply (include : list string) (ttl_seconds : Z) (confirm : bool)
| CRetention (policy : RetentionPolicy) (apply : bool)
| CSetupDone (workspace : string) (confirm : bool)
| CSetupAdopt (request : SetupAdoptRequest)
| CSubmitJob (workspace stack digest : string)
| CJobStatus (id : Z)
| CJobs
| CCancelJob (id : Z)
| CJobLogs (id after limit : Z)
| CSetupPrepare (request : SetupPrepareRequest)
| CSetupTask (request : SetupTaskJobRequest)
| CSetupAppTask (request : SetupAppTaskJobRequest)
| CSetupEnsure (request : SetupEnsureJobRequest)
| CManifestEnsure (request : ManifestEnsureJobRequest) (owner : option ClientOwner)
| CManifestConverge (request : ManifestConvergeJobRequest)
(** Followed with a lease, or submitted without one. *)
| CManifestAppTask (request : ManifestAppTaskJobRequest) (lease : option Z)
    (owner : option ClientOwner)
| CCi (encoded : string) (owner : option ClientOwner).

Definition client_request (fs : path_view) (c : ccall) : result Error Request :=
  match c with
  | CPing => Ok (operation 1)
  | CStatus => Ok (operation 2)
  | CDoctor => Ok (operation 13)
  | CShutdown => Ok (operation 3)
  | CStopIfIdle => Ok (operation OP_STOP_IF_IDLE)
  | CResources after limit => registry_resources after limit
  | CEvents after limit => setup_ensure_events after limit
  | CSetupGcPreview w after limit => setup_gc_preview w after limit
  | CVolumeGcPreview w after limit => manifest_volume_gc_preview w after limit
  | CVolumeReleasePreview w after limit => manifest_volume_release_preview w after limit
  | CReconcilePreview w after limit => setup_reconcile_preview w after limit
  | CRepairMissing w t confirm => setup_reconcile_repair_missing w t confirm
  | CSetupGcApply w t confirm => setup_gc_apply w t confirm
  | CVolumeGcApply w t confirm => manifest_volume_gc_apply w t confirm
  | CVolumeReleaseApply w t confirm => manifest_volume_release_apply w t confirm
  | CStopRetired w t confirm => setup_stop_retired w t confirm
  | CUnmanagedApply include ttl confirm => unmanaged_gc_apply include ttl confirm
  | CRetention policy apply => managed_retention policy apply
  | CSetupDone w confirm => setup_done fs w confirm
  | CSetupAdopt q => setup_adopt q
  | CSubmitJob w s d => Ok (submit_job w s d)
  | CJobStatus id => Ok (job_status id)
  | CJobs => Ok (operation 37)
  | CCancelJob id => Ok (cancel_job id)
  | CJobLogs id after limit => Ok (job_logs id after limit)
  | CSetupPrepare q => submit_setup_prepare q
  | CSetupTask q => submit_setup_task q
  | CSetupAppTask q => submit_setup_app_task q
  | CSetupEnsure q => submit_setup_ensure q
  | CManifestEnsure q owner => submit_manifest_ensure_owned q owner
  | CManifestConverge q => submit_manifest_converge q
  | CManifestAppTask q None owner => submit_manifest_app_task_with_lease q None owner
  | CManifestAppTask q (Some lease) owner => follow_manifest_app_task q lease owner
  | CCi encoded owner => Ok (ci_call_owned encoded owner)
  end.

(** The kind of reply each method takes for an answer. *)
Definition expects (c : ccall) (r : Reply) : bool :=
  match c, r with
  | CPing, Pong _ | CStatus, RStatus _ | CDoctor, RDoctor _ | CShutdown, Shutdown
  | CStopIfIdle, Shutdown | CStopIfIdle, Busy _
  | CResources _ _, RRegistryResources _ | CEvents _ _, RSetupEnsureEvents _
  | CSetupGcPreview _ _ _, RSetupGcPreview _
  | CVolumeGcPreview _ _ _, RManifestVolumeGcPreview _
  | CVolumeReleasePreview _ _ _, RManifestVolumeGcPreview _
  | CReconcilePreview _ _ _, RSetupReconcilePreview _
  | CRepairMissing _ _ _, RSetupReconcileMissingRepair _
  | CSetupGcApply _ _ _, RSetupGcApply _
  | CVolumeGcApply _ _ _, RManifestVolumeGcApply _
  | CVolumeReleaseApply _ _ _, RManifestVolumeGcApply _
  | CStopRetired _ _ _, RSetupRetiredStop _
  | CUnmanagedApply _ _ _, RUnmanagedApply _ | CRetention _ _, RManagedRetention _
  | CSetupDone _ _, RSetupDone _ | CSetupAdopt _, RSetupAdopt _
  | CSubmitJob _ _ _, RJob _ | CJobStatus _, RJobStatus _ | CJobs, RJobs _
  | CCancelJob _, RCancelled | CJobLogs _ _ _, RJobLogs _
  | CSetupPrepare _, RJob _ | CSetupTask _, RJob _ | CSetupAppTask _, RJob _
  | CSetupEnsure _, RJob _ | CManifestEnsure _ _, RJob _ | CManifestConverge _, RJob _
  | CManifestAppTask _ _ _, RJob _
  | CCi _ _, RCi _ | CCi _ _, RCiError _ => true
  | _, _ => false
  end.

(** The name in ["unexpected … response"]. *)
Definition response_name (c : ccall) : string :=
  match c with
  | CPing => "ping"
  | CStatus => "status"
  | CDoctor => "doctor"
  | CShutdown => "shutdown"
  | CStopIfIdle => "handoff"
  | CResources _ _ => "registry resources"
  | CEvents _ _ => "setup ensure events"
  | CSetupGcPreview _ _ _ => "setup gc preview"
  | CVolumeGcPreview _ _ _ => "manifest volume gc preview"
  | CVolumeReleasePreview _ _ _ => "manifest volume release preview"
  | CReconcilePreview _ _ _ => "setup reconcile preview"
  | CRepairMissing _ _ _ => "setup reconcile repair"
  | CSetupGcApply _ _ _ => "setup gc apply"
  | CVolumeGcApply _ _ _ => "manifest volume gc apply"
  | CVolumeReleaseApply _ _ _ => "manifest volume release apply"
  | CStopRetired _ _ _ => "setup retired stop"
  | CUnmanagedApply _ _ _ => "unmanaged apply"
  | CRetention _ _ => "managed retention"
  | CSetupDone _ _ => "setup done"
  | CSetupAdopt _ => "setup adopt"
  | CSubmitJob _ _ _ => "submit"
  | CJobStatus _ => "job status"
  | CJobs => "jobs"
  | CCancelJob _ => "job cancel"
  | CJobLogs _ _ _ => "job logs"
  | CSetupPrepare _ => "setup prepare"
  | CSetupTask _ => "setup task"
  | CSetupAppTask _ => "setup app task"
  | CSetupEnsure _ => "setup ensure"
  | CManifestEnsure _ _ => "manifest ensure"
  | CManifestConverge _ => "manifest converge"
  | CManifestAppTask _ _ _ => "manifest app task"
  | CCi _ _ => "ci"
  end.

(** What a method returns. An unreachable daemon is a finding of [doctor], not a failure. *)
Definition client_result (c : ccall) (r : result Error Reply) : result Error Reply :=
  match r with
  | Ok reply =>
      if expects c reply then Ok reply
      else protocol ("unexpected " +:+ response_name c +:+ " response")
  | Err e =>
      match c, e with
      | CDoctor, (EDeadline | EIo _ | EActorClosed | EEndpointOccupied _) =>
          Ok (RDoctor daemon_unavailable)
      | _, _ => Err e
      end
  end.

(** [Client::stop_if_idle]: a daemon that predates the operation is left alone. *)
Inductive IdleHandoff := HandoffStopping | HandoffBusy (reason : string) | HandoffUnsupported.
Definition client_stop_if_idle (r : result Error Reply) : result Error IdleHandoff :=
  match client_result CStopIfIdle r with
  | Ok Shutdown => Ok HandoffStopping
  | Ok (Busy reason) => Ok (HandoffBusy reason)
  | Ok _ => protocol "unexpected handoff response"
  | Err (EProtocol what) =>
      if String.eqb what "unknown operation" then Ok HandoffUnsupported else protocol what
  | Err e => Err e
  end.

(** The operation code of each method. *)
Definition client_operation (c : ccall) : Z :=
  match c with
  | CPing => 1 | CStatus => 2 | CDoctor => 13 | CShutdown => 3 | CStopIfIdle => 39
  | CResources _ _ => 11 | CEvents _ _ => 12 | CSetupGcPreview _ _ _ => 14
  | CVolumeGcPreview _ _ _ => 31 | CVolumeReleasePreview _ _ _ => 33
  | CReconcilePreview _ _ _ => 19 | CRepairMissing _ _ _ => 20 | CSetupGcApply _ _ _ => 15
  | CVolumeGcApply _ _ _ => 32 | CVolumeReleaseApply _ _ _ => 34 | CStopRetired _ _ _ => 18
  | CUnmanagedApply _ _ _ => 35 | CRetention _ _ => 38 | CSetupDone _ _ => 16
  | CSetupAdopt _ => 17 | CSubmitJob _ _ _ => 4 | CJobStatus _ => 5 | CJobs => 37
  | CCancelJob _ => 6 | CJobLogs _ _ _ => 7 | CSetupPrepare _ => 8 | CSetupTask _ => 9
  | CSetupAppTask _ => 21 | CSetupEnsure _ => 10 | CManifestEnsure _ _ => 22
  | CManifestConverge _ => 24 | CManifestAppTask _ _ _ => 23 | CCi _ _ => 36
  end.

Lemma try_from_Ok max what n m : try_from max what n = Ok m → m = n ∧ n ≤ max.
Proof. unfold try_from. case_match; [|done]. intros [= ->]. booleans. done. Qed.
Lemma to_str_Ok what path s : to_str what path = Ok s → s = path.
Proof. unfold to_str. case_match; [|done]. by intros [= ->]. Qed.
