(* ===== verification/Rpc.v ===== *)
(** * Rpc: a client call is the daemon's own call

    The composition of [Client], [Dispatch] and [Replies]: [served] is the specification of
    each client method, a direct call of the daemon's component; [rpc] is the method as it
    runs, through the envelope, the daemon's validation, the operation table and the reply
    decoder. The two do the same calls in the same order and return the same result
    ([rpc_refines]). *)

From Stdlib Require Import Ascii.
From S2P Require Import Effects.
From S2P Require Import JobRequests.
From S2P Require Import GcApply.
From S2P Require Import Registry.
From S2P Require Import ManagedRetention.
From S2P Require Import UnmanagedApply.
From S2P Require Import Owners.
From S2P Require Export Client.

Local Open Scope string_scope.
Local Open Scope list_scope.
Local Open Scope Z_scope.
Local Open Scope bosn_scope.

(** ** What a client sees of an answer *)

Definition daemon_error {A} : result Error A := Err (EProtocol "daemon error").
Definition told {A} (f : A → Reply) (x : result Error A) : result Error Reply :=
  match x with Ok a => Ok (f a) | Err _ => daemon_error end.

Definition seen_status (j : Job) : JobStatus :=
  {| js_id := j_id j; js_state := job_state_text (j_state j); js_error := seen_text (j_error j) |}.
Definition seen_doctor (r : DoctorReport) : DoctorReport :=
  {| do_daemon := do_daemon r; do_registry := do_registry r; do_engine := do_engine r;
     do_client_version := seen_text (do_client_version r);
     do_server_version := seen_text (do_server_version r) |}.
Definition seen_release (page : ManifestVolumeGcPreviewPage) : ManifestVolumeGcPreviewPage :=
  {| vg_next := vg_next page; vg_candidates := vg_candidates page;
     vg_counts := {| vp_protected_not_retired := 0; vp_protected_policy := 0;
                     vp_protected_ambiguous_use := 0; vp_protected_lease := 0;
                     vp_protected_session := 0; vp_protected_intent := 0;
                     vp_excluded_unmanaged := 0 |} |}.
Definition seen_summary (s : ManagedRetentionSummary) : ManagedRetentionSummary :=
  {| su_applied := su_applied s; su_planned := su_planned s; su_removed := su_removed s;
     su_removed_bytes := bytes_out (su_removed_bytes s); su_deferred := su_deferred s;
     su_failed := su_failed s; su_failures := su_failures s;
     su_refused := seen_text (su_refused s); su_held := su_held s; su_eager := su_eager s |}.
Definition seen_unmanaged (o : UnmanagedApplyOutcome) : UnmanagedApplySummary :=
  {| uw_planned := Z.of_nat (length (pl_candidates (ua_plan o))); uw_removed := ua_removed o;
     uw_removed_bytes := bytes_out (ua_removed_bytes o); uw_failed := ua_failed o;
     uw_failures := ua_failures o; uw_refused := seen_text (ua_refused o) |}.

(** The policy a daemon applies: whole seconds, and its own defaults for what is not sent. *)
Definition seen_policy (p : RetentionPolicy) : RetentionPolicy :=
  mkPolicy (duration_from_secs (as_secs (container_ttl p)))
    (duration_from_secs (as_secs (volume_ttl p))) (duration_from_secs (as_secs (image_ttl p)))
    (max_bytes p) (idle_volume_budget RetentionPolicy_default)
    (idle_volume_floor RetentionPolicy_default).

(** What the daemon checks and the client does not. *)
Definition gates_ok (p : RetentionPolicy) : bool :=
  (as_secs (container_ttl p) <=? OWNED_MAX_TTL_SECS)
  && (as_secs (volume_ttl p) <=? OWNED_MAX_TTL_SECS)
  && (as_secs (image_ttl p) <=? OWNED_MAX_TTL_SECS).
Definition include_ok (include : list string) : bool :=
  (Z.of_nat (length include) <=? 1024)
  && forallb (λ id, negb (String.eqb id "" || (8 * 1024 <? len id) || has_nul id)) include.

(** ** Decoding what an arm writes *)

Create HintDb wire.
Create HintDb replies.

Lemma next_roundtrip next : next_in (bool_decide (is_Some next)) (default 0 next) = next.
Proof.
  destruct next as [n|]; [by rewrite bool_decide_true by eauto|].
  rewrite bool_decide_false; [done|]. by intros [? ?].
Qed.
Lemma logs_roundtrip (l : list (Z * string)) :
  map (λ r, (lw_cursor r, lw_line r)) (map (λ r, {| lw_cursor := r.1; lw_line := r.2 |}) l) = l.
Proof. apply map_roundtrip. by intros []. Qed.
#[local] Hint Rewrite next_roundtrip text_roundtrip logs_roundtrip held_roundtrip eager_roundtrip
  (map_roundtrip resource_out resource_in) (map_roundtrip event_out event_in)
  (map_roundtrip candidate_out candidate_in) using (first [exact resource_roundtrip
    | exact event_roundtrip | exact candidate_roundtrip | idtac]) : wire.

(** Evaluate [decode_reply] on a reply whose code is known. *)
Ltac decodes :=
  unfold decode_reply; cbn -[next_in default bool_decide text_in text_out map bytes_out
    decode_counts encode_counts decode_eager encode_eager job_state_text];
  autorewrite with wire; reflexivity.

Lemma failed_decodes : decode_reply failed = daemon_error.
Proof. decodes. Qed.
Lemma ping_decodes d : decode_reply (identity_out (reply_code 10) d) = Ok (Pong d).
Proof. destruct d. decodes. Qed.
Lemma status_decodes s : decode_reply (status_out s) = Ok (RStatus s).
Proof. destruct s. decodes. Qed.
Lemma stop_decodes : decode_reply (reply_code 30) = Ok Shutdown.
Proof. decodes. Qed.
Lemma busy_decodes reason : decode_reply (busy_out reason) = Ok (Busy reason).
Proof. decodes. Qed.
Lemma cancelled_decodes : decode_reply (reply_code 60) = Ok RCancelled.
Proof. decodes. Qed.
Lemma jobs_decodes json : decode_reply (jobs_out json) = Ok (RJobs json).
Proof. decodes. Qed.
Lemma adopt_decodes : decode_reply adopt_out = Ok (RSetupAdopt {| ad_adopted := true |}).
Proof. decodes. Qed.
Lemma ci_decodes value : decode_reply (ci_out value) = Ok (RCi value).
Proof. decodes. Qed.
Lemma ci_error_decodes json code message :
  decode_reply (ci_error_wire json code message) = Ok (RCiError (json code message)).
Proof. decodes. Qed.
Lemma job_decodes id : decode_reply (job_out id) = Ok (RJob id).
Proof. decodes. Qed.
Lemma job_status_decodes j : decode_reply (job_status_out j) = Ok (RJobStatus (seen_status j)).
Proof. decodes. Qed.
Lemma logs_decodes page : decode_reply (logs_out page) = Ok (RJobLogs page).
Proof. destruct page. decodes. Qed.
Lemma resources_decodes page : decode_reply (resources_out page) = Ok (RRegistryResources page).
Proof. destruct page. decodes. Qed.
Lemma events_decodes page : decode_reply (events_out page) = Ok (RSetupEnsureEvents page).
Proof. destruct page. decodes. Qed.
Lemma doctor_decodes r : decode_reply (doctor_out r) = Ok (RDoctor (seen_doctor r)).
Proof. decodes. Qed.
Lemma setup_gc_preview_decodes page :
  decode_reply (setup_gc_preview_out page) = Ok (RSetupGcPreview page).
Proof. destruct page as [n c []]. decodes. Qed.
Lemma volume_preview_decodes page :
  decode_reply (volume_preview_out page) = Ok (RManifestVolumeGcPreview page).
Proof. destruct page as [n c []]. decodes. Qed.
Lemma release_preview_decodes page :
  decode_reply (release_preview_out page) = Ok (RManifestVolumeGcPreview (seen_release page)).
Proof. decodes. Qed.
Lemma setup_gc_apply_decodes x : decode_reply (setup_gc_apply_out x) = Ok (RSetupGcApply x).
Proof. destruct x. decodes. Qed.
Lemma setup_done_decodes x : decode_reply (setup_done_out x) = Ok (RSetupDone x).
Proof. destruct x. decodes. Qed.
Lemma retired_stop_decodes x : decode_reply (retired_stop_out x) = Ok (RSetupRetiredStop x).
Proof. destruct x. decodes. Qed.
Lemma repair_decodes x : decode_reply (repair_out x) = Ok (RSetupReconcileMissingRepair x).
Proof. destruct x. decodes. Qed.
Lemma volume_apply_decodes x : decode_reply (volume_apply_out x) = Ok (RManifestVolumeGcApply x).
Proof. destruct x. decodes. Qed.
Lemma retention_decodes s :
  decode_reply (retention_out s) = Ok (RManagedRetention (seen_summary s)).
Proof. decodes. Qed.
Lemma unmanaged_decodes o : decode_reply (unmanaged_out o) = Ok (RUnmanagedApply (seen_unmanaged o)).
Proof. decodes. Qed.

(** Every record of a reconcile preview comes back whole: a token is never empty. *)
Lemma reconcile_roundtrip c inspected :
  reconcile_in (reconcile_out (reconcile_record c inspected)) = reconcile_record c inspected.
Proof.
  unfold reconcile_in, reconcile_out. cbn -[text_in text_out]. rewrite text_roundtrip.
  unfold reconcile_record. by case_match.
Qed.
Lemma reconcile_preview_decodes page :
  map reconcile_in (map reconcile_out (rc_records page)) = rc_records page →
  decode_reply (reconcile_preview_out page) = Ok (RSetupReconcilePreview page).
Proof.
  destruct page as [next records]. cbn [rc_records]. intros Hr. unfold decode_reply.
  cbn -[next_in default bool_decide map]. by rewrite next_roundtrip, Hr.
Qed.

#[local] Hint Rewrite failed_decodes ping_decodes status_decodes stop_decodes job_decodes
  job_status_decodes logs_decodes resources_decodes events_decodes doctor_decodes
  setup_gc_preview_decodes volume_preview_decodes release_preview_decodes setup_gc_apply_decodes
  setup_done_decodes retired_stop_decodes repair_decodes volume_apply_decodes retention_decodes
  unmanaged_decodes busy_decodes cancelled_decodes jobs_decodes adopt_decodes ci_decodes
  ci_error_decodes : replies.
#[local] Arguments decode_reply : simpl never.
#[local] Arguments reply_code : simpl never.
#[local] Arguments identity_out : simpl never.
#[local] Arguments status_out : simpl never.
#[local] Arguments busy_out : simpl never.
#[local] Arguments jobs_out : simpl never.
#[local] Arguments job_out : simpl never.
#[local] Arguments job_status_out : simpl never.
#[local] Arguments logs_out : simpl never.
#[local] Arguments resources_out : simpl never.
#[local] Arguments events_out : simpl never.
#[local] Arguments doctor_out : simpl never.
#[local] Arguments setup_gc_preview_out : simpl never.
#[local] Arguments reconcile_preview_out : simpl never.
#[local] Arguments volume_preview_out : simpl never.
#[local] Arguments release_preview_out : simpl never.
#[local] Arguments setup_gc_apply_out : simpl never.
#[local] Arguments setup_done_out : simpl never.
#[local] Arguments retired_stop_out : simpl never.
#[local] Arguments repair_out : simpl never.
#[local] Arguments volume_apply_out : simpl never.
#[local] Arguments retention_out : simpl never.
#[local] Arguments unmanaged_out : simpl never.
#[local] Arguments ci_out : simpl never.
#[local] Arguments ci_error_wire : simpl never.


Section rpc.
Context {CiRequest : Type}.
Context (ci_from_str : string → result string CiRequest).
Context (ci_error_json : string → string → string).
Context (identity : DaemonIdentity) (fs : path_view).
Notation d_prog A := (prog (d_answer (CiRequest := CiRequest)) A).
Notation ask := (perform (answer := d_answer)).

(** ** The specification *)

(** The job the daemon is given is the caller's, its deadline in whole milliseconds. *)
Definition submitted (r : SetupJobRequest) (lease : option Z) (owner : option ClientOwner) :
    d_prog (result Error Reply) :=
  match canonical r with
  | ReqPrepare r => id ← ask (DSubmitPrepare r); Ret (told RJob id)
  | ReqTask r => id ← ask (DSubmitTask r); Ret (told RJob id)
  | ReqAppTask r => id ← ask (DSubmitAppTask r); Ret (told RJob id)
  | ReqEnsure r => id ← ask (DSubmitEnsure r); Ret (told RJob id)
  | ReqManifestEnsure r => id ← ask (DSubmitManifestEnsure r owner); Ret (told RJob id)
  | ReqManifestConverge r => id ← ask (DSubmitManifestConverge r); Ret (told RJob id)
  | ReqManifestAppTask r =>
      id ← ask (DSubmitManifestAppTask r (option_map to_millis lease) owner); Ret (told RJob id)
  end.

Definition served (c : ccall) : d_prog (result Error Reply) :=
  match c with
  | CPing => Ret (Ok (Pong identity))
  | CStatus =>
      x ← ask DStatus;
      Ret (match x with Ok s => Ok (RStatus s) | Err _ => Err (EProtocol "eof") end)
  | CDoctor =>
      registry ← ask DIntegrity;
      report ← ask DDoctor;
      Ret (Ok (RDoctor (seen_doctor (doctor_from_engine registry
        (default {| dr_state := DocDeadline; dr_client_version := None;
                    dr_server_version := None |} report)))))
  | CShutdown => _ ← ask DStop; Ret (Ok Shutdown)
  | CStopIfIdle =>
      reason ← busy_reason;
      match reason with
      | Ok None => _ ← ask DStop; Ret (Ok Shutdown)
      | Ok (Some reason) => Ret (Ok (Busy reason))
      | Err _ => Ret daemon_error
      end
  | CResources after limit => x ← ask (DResources after limit); Ret (told RRegistryResources x)
  | CEvents after limit => x ← ask (DEvents after limit); Ret (told RSetupEnsureEvents x)
  | CSetupGcPreview w after limit =>
      x ← ask (DSetupGcPreview w after limit); Ret (told RSetupGcPreview x)
  | CVolumeGcPreview w after limit =>
      x ← ask (DVolumeGcPreview w after limit); Ret (told RManifestVolumeGcPreview x)
  | CVolumeReleasePreview w after limit =>
      x ← ask (DVolumeReleasePreview w after limit);
      Ret (told (λ page, RManifestVolumeGcPreview (seen_release page)) x)
  | CReconcilePreview w after limit =>
      x ← ask (DReconcilePreview w after limit);
      match x with
      | Ok page =>
          records ← prog_fold reconcile_step [] page.2;
          Ret (Ok (RSetupReconcilePreview {| rc_next := page.1; rc_records := records |}))
      | Err _ => Ret daemon_error
      end
  | CRepairMissing w t _ =>
      x ← ask (DRepairMissing w t); Ret (told RSetupReconcileMissingRepair x)
  | CSetupGcApply w t _ => x ← ask (DSetupGcApply w t); Ret (told RSetupGcApply x)
  | CVolumeGcApply w t _ => x ← ask (DVolumeGcApply w t); Ret (told RManifestVolumeGcApply x)
  | CVolumeReleaseApply w t _ =>
      x ← ask (DVolumeReleaseApply w t); Ret (told RManifestVolumeGcApply x)
  | CStopRetired w t _ => x ← ask (DStopRetired w t); Ret (told RSetupRetiredStop x)
  | CUnmanagedApply include ttl _ =>
      if include_ok include then
        our_registry ← ask DOurRegistry;
        x ← ask (DUnmanagedApply our_registry (census_config ttl) include);
        Ret (match x with Some o => Ok (RUnmanagedApply (seen_unmanaged o)) | None => daemon_error end)
      else Ret daemon_error
  | CRetention policy apply =>
      if gates_ok policy then
        x ← ask (DRetention (seen_policy policy) apply);
        Ret (match x with
             | Some o => Ok (RManagedRetention (seen_summary (mo_summary o)))
             | None => daemon_error
             end)
      else Ret daemon_error
  | CSetupDone w _ =>
      match canonical_setup_done_workspace fs w with
      | Ok w => x ← ask (DCompleteWorkspace w); Ret (told RSetupDone x)
      | Err _ => Ret daemon_error
      end
  | CSetupAdopt q =>
      x ← ask (DAdopt
        {| sq_workspace := sq_workspace q; sq_config := sq_config q; sq_policy := sq_policy q;
           sq_deadline := to_millis (sq_deadline q); sq_output_limit := sq_output_limit q;
           sq_confirm := true |});
      match x with
      | Ok execution =>
          x ← ask (DRecordAdoption execution);
          Ret (told (λ _ : unit, RSetupAdopt {| ad_adopted := true |}) x)
      | Err _ => Ret daemon_error
      end
  | CSubmitJob w s d => x ← ask (DSubmit w s d); Ret (told RJob x)
  | CJobStatus id => x ← ask (DJobStatus id); Ret (told (λ j, RJobStatus (seen_status j)) x)
  | CJobs => x ← ask DJobs; Ret (told RJobs x)
  | CCancelJob id => x ← ask (DCancel id); Ret (told (λ _ : unit, RCancelled) x)
  | CJobLogs id after limit => x ← ask (DLogs id after limit); Ret (told RJobLogs x)
  | CSetupPrepare q => submitted (ReqPrepare q) None None
  | CSetupTask q => submitted (ReqTask q) None None
  | CSetupAppTask q => submitted (ReqAppTask q) None None
  | CSetupEnsure q => submitted (ReqEnsure q) None None
  | CManifestEnsure q owner => submitted (ReqManifestEnsure q) None owner
  | CManifestConverge q => submitted (ReqManifestConverge q) None None
  | CManifestAppTask q lease owner => submitted (ReqManifestAppTask q) lease owner
  | CCi encoded owner =>
      match ci_from_str encoded with
      | Err e => Ret (Ok (RCiError (ci_error_json "invalid_request" e)))
      | Ok request =>
          x ← ask (DCi request owner);
          Ret (match x with
               | Ok value => Ok (RCi value)
               | Err (code, message) => Ok (RCiError (ci_error_json code message))
               end)
      end
  end.

(** ** The call as it runs *)

(** A daemon that ends the connection without a reply is an end of file to its client. *)
Definition over_wire (x : result Error ReplyWire) : result Error Reply :=
  match x with Ok w => decode_reply w | Err _ => Err (EProtocol "eof") end.

Definition rpc (c : ccall) : d_prog (result Error Reply) :=
  match client_request fs c with
  | Err e => Ret (Err e)
  | Ok r =>
      x ← dispatch ci_from_str ci_error_json identity fs r;
      Ret (client_result c (over_wire x))
  end.

(** ** Refinement *)

Notation dispatch := (dispatch ci_from_str ci_error_json identity fs).
Notation arm := (arm ci_from_str ci_error_json identity fs).

Context (compatible : di_protocol identity = 0 ∨ serves identity DAEMON_PROTOCOL = true).

Lemma not_refused r :
  rq_client_protocol r = DAEMON_PROTOCOL → protocol_window_refusal identity r = None.
Proof.
  intros Hc. unfold protocol_window_refusal. rewrite Hc.
  destruct compatible as [H0|Hs]; [rewrite H0|rewrite Hs]; by rewrite ?andb_false_r.
Qed.

(** Read off what the client checked, one step of its [?] chain at a time. *)
Ltac client_checks :=
  repeat match goal with
  | H : refuse_if _ _ = Ok _ |- _ => apply refuse_if_Ok in H
  | H : try_from _ _ _ = Ok _ |- _ => apply try_from_Ok in H as [? ?]; subst
  | H : to_str _ _ = Ok _ |- _ => apply to_str_Ok in H; subst
  | H : match ?v with Ok _ => _ | Err _ => _ end = Ok _ |- _ =>
      let Hv := fresh "Hv" in destruct v eqn:Hv; [|done]
  | u : () |- _ => destruct u
  | p : (string * Z * Z)%type |- _ => destruct p as [[? ?] ?]
  | H : Ok _ = Ok _ |- _ => injection H as ?; subst
  end.
Ltac client_unfold H := cbn in H; unfold registry_resources,
    setup_ensure_events, setup_gc_preview, manifest_volume_gc_preview,
    manifest_volume_release_preview, setup_reconcile_preview, preview_request,
    setup_reconcile_repair_missing, setup_gc_apply, manifest_volume_gc_apply,
    manifest_volume_release_apply, setup_stop_retired, candidate_request, unmanaged_gc_apply,
    managed_retention, setup_done, setup_adopt, submit_setup_prepare, submit_setup_task,
    submit_setup_app_task, submit_setup_ensure, submit_manifest_ensure_owned,
    submit_manifest_converge, follow_manifest_app_task, submit_manifest_app_task_with_lease,
    submission_parts in H; client_checks.

(** Every envelope is of this protocol and names its operation. *)
Lemma client_envelope c r :
  client_request fs c = Ok r →
  rq_protocol_version r = PROTOCOL_VERSION ∧ rq_client_protocol r = DAEMON_PROTOCOL ∧
  rq_operation r = client_operation c.
Proof.
  intros Hr. destruct c as [| | | | | | | | | | | | | | | | | | | | | | | | | | | | | | |q [lease|] owner|]; client_unfold Hr; done.
Qed.

(** A request that reached the table is answered by its arm. *)
Lemma rpc_arm c r :
  client_request fs c = Ok r → client_operation c ≠ 2 →
  rpc c ≡ (reply ← arm r; Ret (client_result c (decode_reply reply))).
Proof.
  intros Hr Ho. destruct (client_envelope c r Hr) as (Hv & Hc & Hop).
  unfold rpc, Dispatch.dispatch. rewrite Hr, Hv, not_refused, Hop by done.
  apply Z.eqb_neq in Ho. rewrite Ho. apply prog_bind_assoc.
Qed.
(** The arm's check passed: what is left is what it does then. *)
Lemma rpc_checked {A} c r (v : result Error A) a k :
  client_request fs c = Ok r → client_operation c ≠ 2 → arm r = checked v k → v = Ok a →
  rpc c ≡ (reply ← k a; Ret (client_result c (decode_reply reply))).
Proof. intros Hr Ho Harm Hv. rewrite (rpc_arm c r) by done. by rewrite Harm, Hv. Qed.
(** The arm's check failed: no call is made. *)
Lemma rpc_refused {A} c r (v : result Error A) e k :
  client_request fs c = Ok r → client_operation c ≠ 2 → arm r = checked v k → v = Err e →
  rpc c ≡ Ret daemon_error.
Proof.
  intros Hr Ho Harm Hv. rewrite (rpc_arm c r) by done. rewrite Harm, Hv.
  change (Ret (client_result c (decode_reply failed)) ≡@{d_prog _} Ret daemon_error).
  rewrite failed_decodes. by destruct c.
Qed.

(** The same calls on both sides, whose answers decode alike. *)
Ltac same_calls :=
  cbn;
  repeat match goal with
  | |- prog_alike ?p ?q => change (p ≡ q)
  | |- Act _ _ ≡ Act _ _ => apply alike_act; intros ?
  | |- Ret _ ≡ Ret _ => fold failed; autorewrite with replies; reflexivity
  | |- context [match ?x with Ok _ => _ | Err _ => _ end] => destruct x; cbn
  | |- context [match ?x with Some _ => _ | None => _ end] => destruct x; cbn
  end.

Lemma lifetime_refines c :
  match c with
  | CPing | CShutdown | CSubmitJob _ _ _ | CJobStatus _ | CJobs | CCancelJob _
  | CJobLogs _ _ _ => True
  | _ => False
  end → rpc c ≡ served c.
Proof. destruct c; intros Hc; try done; (etrans; [by eapply rpc_arm|]); same_calls. Qed.

Lemma status_refines : rpc CStatus ≡ served CStatus.
Proof.
  unfold rpc, Dispatch.dispatch. cbn -[protocol_window_refusal decode_reply].
  rewrite not_refused by done. same_calls.
Qed.

Lemma doctor_refines : rpc CDoctor ≡ served CDoctor.
Proof. etrans; [by eapply (rpc_checked CDoctor)|]. same_calls. Qed.

Lemma handoff_refines : rpc CStopIfIdle ≡ served CStopIfIdle.
Proof.
  etrans; [by eapply (rpc_arm CStopIfIdle)|]. cbn -[busy_reason].
  etrans; [apply prog_bind_assoc|]. apply prog_bind_proper; [done|]. intros [[reason|]|e].
  all: same_calls.
Qed.

(** ** What the client checked, the daemon accepts *)

Lemma page_accepted after limit r :
  registry_resources after limit = Ok r ∨ setup_ensure_events after limit = Ok r →
  validate_registry_diagnostics_request_wire r = Ok ().
Proof.
  unfold registry_resources, setup_ensure_events, validate_registry_diagnostics_request_wire.
  intros [Hr|Hr]; client_checks; cbn -[validate_registry_page]; by rewrite Hv.
Qed.
Lemma preview_accepted op what w after limit r :
  preview_request op what w after limit = Ok r → validate_setup_gc_preview_request_wire r = Ok ().
Proof.
  unfold preview_request, validate_setup_gc_preview_request_wire. intros Hr. client_checks.
  cbn -[validate_registry_page invalid_workspace]. by rewrite Hv, Hv0.
Qed.
(** A candidate check that passed was confirmed. *)
Lemma candidate_accepted op input what w t confirm r :
  (∀ w t confirm, input w t confirm = Ok () → confirm = true) →
  candidate_request op input w t confirm = Ok r →
  validate_candidate_request input what r = Ok ().
Proof.
  unfold candidate_request, validate_candidate_request. intros Hconfirm Hr. client_checks.
  cbn. rewrite <- (Hconfirm _ _ _ Hv). by rewrite Hv.
Qed.
Lemma candidate_input_confirmed parse what w t confirm :
  validate_candidate_input parse what w t confirm = Ok () → confirm = true.
Proof.
  unfold validate_candidate_input. intros H. client_checks. booleans. done.
Qed.
Lemma retired_stop_confirmed w t confirm :
  validate_setup_retired_stop_input w t confirm = Ok () → confirm = true.
Proof. intros H%instead_Ok. by apply candidate_input_confirmed in H. Qed.

(** Into the arm of the request [Hr] built, past its check [Hacc]. *)
Ltac past_check Hr Hacc :=
  etrans; [eapply rpc_checked; [exact Hr|done| |apply Hacc]|]; client_unfold Hr;
  [reflexivity|same_calls].

Lemma pages_refine c r :
  client_request fs c = Ok r →
  match c with CResources _ _ | CEvents _ _ => True | _ => False end → rpc c ≡ served c.
Proof.
  destruct c; intros Hr Hc; try done.
  all: assert (validate_registry_diagnostics_request_wire r = Ok ()) as Hacc
         by (eapply page_accepted; eauto).
  all: past_check Hr Hacc.
Qed.

Lemma volume_preview_accepted op what w after limit r :
  preview_request op what w after limit = Ok r →
  validate_manifest_volume_gc_preview_request_wire r = Ok ().
Proof.
  intros H%preview_accepted. unfold validate_manifest_volume_gc_preview_request_wire.
  by rewrite H.
Qed.
Lemma reconcile_preview_accepted op what w after limit r :
  preview_request op what w after limit = Ok r →
  validate_setup_reconcile_preview_request_wire r = Ok ().
Proof.
  intros H%preview_accepted. unfold validate_setup_reconcile_preview_request_wire.
  by rewrite H.
Qed.

Lemma previews_refine c r :
  client_request fs c = Ok r →
  match c with
  | CSetupGcPreview _ _ _ | CVolumeGcPreview _ _ _ | CVolumeReleasePreview _ _ _ => True
  | _ => False
  end → rpc c ≡ served c.
Proof.
  destruct c; intros Hr Hc; try done; pose proof (preview_accepted _ _ _ _ _ _ Hr) as Hacc;
    try (pose proof (volume_preview_accepted _ _ _ _ _ _ Hr) as Hacc').
  - past_check Hr Hacc.
  - past_check Hr Hacc'.
  - past_check Hr Hacc'.
Qed.

Lemma candidates_refine c r :
  client_request fs c = Ok r →
  match c with
  | CRepairMissing _ _ _ | CSetupGcApply _ _ _ | CVolumeGcApply _ _ _
  | CVolumeReleaseApply _ _ _ | CStopRetired _ _ _ => True
  | _ => False
  end → rpc c ≡ served c.
Proof.
  destruct c; intros Hr Hc; try done.
  1-4: pose proof (λ what, candidate_accepted _ _ what _ _ _ _ (candidate_input_confirmed _ _) Hr)
         as Hacc; past_check Hr Hacc.
  pose proof (λ what, candidate_accepted _ _ what _ _ _ _ retired_stop_confirmed Hr) as Hacc.
  past_check Hr Hacc.
Qed.

Lemma reconcile_refines w after limit r :
  client_request fs (CReconcilePreview w after limit) = Ok r →
  rpc (CReconcilePreview w after limit) ≡ served (CReconcilePreview w after limit).
Proof.
  intros Hr. pose proof (reconcile_preview_accepted _ _ _ _ _ _ Hr) as Hacc.
  etrans; [eapply rpc_checked; [exact Hr|done| |exact Hacc]|]; client_unfold Hr; [reflexivity|].
  cbn. apply alike_act. intros [page|e]; [|same_calls]. etrans; [apply prog_bind_assoc|].
  apply (bind_alike_on (λ records, map reconcile_in (map reconcile_out records) = records)).
  - apply returns_fold; [done|]. intros records c Hrec x. cbn.
    by rewrite !map_app, Hrec; cbn [map]; rewrite reconcile_roundtrip.
  - intros records Hrec. cbn. by rewrite reconcile_preview_decodes.
Qed.

Lemma include_ok_refused include :
  (1024 <? Z.of_nat (length include))
  || existsb (λ id, String.eqb id "" || (8 * 1024 <? len id) || has_nul id) include
  = negb (include_ok include).
Proof.
  unfold include_ok. rewrite negb_andb, <- Z.ltb_antisym. f_equal.
  induction include as [|id l IH]; [done|]. cbn [existsb forallb].
  by rewrite negb_andb, negb_involutive, <- IH.
Qed.

Lemma unmanaged_refines include ttl confirm r :
  client_request fs (CUnmanagedApply include ttl confirm) = Ok r →
  rpc (CUnmanagedApply include ttl confirm) ≡ served (CUnmanagedApply include ttl confirm).
Proof.
  intros Hr. assert (validate_unmanaged_apply_request_wire r =
    refuse_if (negb (include_ok include)) "invalid unmanaged apply include list") as Hacc.
  { client_unfold Hr. unfold validate_unmanaged_apply_request_wire.
    rewrite <- include_ok_refused. reflexivity. }
  cbn [served]. destruct (include_ok include).
  - past_check Hr Hacc.
  - eapply rpc_refused; [exact Hr|done| |exact Hacc]. by client_unfold Hr.
Qed.

Lemma wire_ceiling_Ok m a :
  wire_ceiling m = Ok a → (a <? 0) = false ∧ (if 0 <? a then Some a else None) = m.
Proof.
  destruct m as [c|]; cbn; [|by intros [= <-]].
  destruct ((0 <? c) && (c <=? i64_max)) eqn:Hc; [|done]. intros [= <-].
  apply andb_prop in Hc as [Hc _]. rewrite Hc. split; [|done]. booleans. by apply Z.ltb_ge; lia.
Qed.

(** What the daemon makes of a retention request. *)
Lemma retention_accepted policy apply r :
  managed_retention policy apply = Ok r →
  is_ok (validate_managed_retention_request_wire r) = gates_ok policy ∧
  retention_policy r = seen_policy policy ∧ rq_owned_confirm r = apply.
Proof.
  intros Hr. client_unfold Hr. destruct (wire_ceiling_Ok _ _ Hv) as [Ha Hm].
  unfold validate_managed_retention_request_wire, gates_ok, retention_policy, seen_policy.
  cbn -[OWNED_MAX_TTL_SECS as_secs]. rewrite !(Z.ltb_antisym _ OWNED_MAX_TTL_SECS), Ha, Hm.
  rewrite Bool.eqb_reflx. split; [|done].
  by repeat (destruct (_ <=? OWNED_MAX_TTL_SECS); cbn [negb orb andb refuse_if is_ok]).
Qed.

Lemma retention_refines policy apply r :
  client_request fs (CRetention policy apply) = Ok r →
  rpc (CRetention policy apply) ≡ served (CRetention policy apply).
Proof.
  intros Hr. destruct (retention_accepted _ _ _ Hr) as (Hacc & Hpol & Happ).
  assert (arm r = op_retention r) as Harm by (by client_unfold Hr).
  cbn [served]. rewrite <- Hacc, <- Hpol. unfold op_retention in Harm. rewrite Happ in Harm.
  destruct (validate_managed_retention_request_wire r) as [[]|e] eqn:Hv; cbn [is_ok].
  - etrans; [by eapply rpc_checked; [exact Hr|done|exact Harm|]|]. same_calls.
  - by eapply rpc_refused; [exact Hr|done|exact Harm|].
Qed.

Context (fs_idempotent : ∀ p q, pv_canonical fs p = Some q → pv_canonical fs q = Some q).

(** A canonical workspace is its own canonical spelling, and acceptable. *)
Lemma canonical_workspace w w' :
  canonical_setup_done_workspace fs w = Ok w' →
  validate_setup_done_input w' true = Ok () ∧ canonical_setup_done_workspace fs w' = Ok w'.
Proof.
  unfold canonical_setup_done_workspace. intros H. client_checks.
  apply ok_or_Ok in Hv. apply fs_idempotent in Hv as Hq. rewrite Hq. cbn [ok_or].
  by rewrite Hv0, Hv1, Hv2.
Qed.

Lemma done_refines w confirm r :
  client_request fs (CSetupDone w confirm) = Ok r →
  rpc (CSetupDone w confirm) ≡ served (CSetupDone w confirm).
Proof.
  intros Hr. cbn [served]. pose proof Hr as Hr'. client_unfold Hr'.
  destruct (canonical_workspace _ _ Hv0) as [Hin Hcan].
  etrans; [eapply rpc_checked; [exact Hr|done|reflexivity|]|].
  - cbn -[canonical_setup_done_workspace]. rewrite Hcan.
    unfold validate_setup_done_request_wire. cbn. by rewrite Hin.
  - same_calls.
Qed.

(** ** Submissions *)

Lemma with_policy_Ok r p validate :
  rq_setup_policy r = policy_wire p → validate p = Ok () → with_policy r validate = Ok p.
Proof. unfold with_policy. intros -> Hv. by destruct p; cbn; rewrite Hv. Qed.
Lemma adopt_confirmed w c p d o confirm :
  validate_setup_adopt_input w c p d o confirm = Ok () → confirm = true.
Proof. unfold validate_setup_adopt_input. intros H. client_checks. by booleans. Qed.

Lemma adopt_refines q r :
  client_request fs (CSetupAdopt q) = Ok r → rpc (CSetupAdopt q) ≡ served (CSetupAdopt q).
Proof.
  intros Hr. pose proof Hr as Hr'. client_unfold Hr'.
  etrans; [eapply rpc_checked; [exact Hr|done|reflexivity|]|].
  - apply (with_policy_Ok _ (sq_policy q)); [done|].
    unfold validate_setup_adopt_request_wire. cbn -[validate_setup_adopt_input].
    rewrite <- (adopt_confirmed _ _ _ _ _ _ Hv). by rewrite Hv.
  - same_calls.
Qed.

Lemma setup_jobs_refine c r :
  client_request fs c = Ok r →
  match c with
  | CSetupPrepare _ | CSetupTask _ | CSetupAppTask _ | CSetupEnsure _ => True
  | _ => False
  end → rpc c ≡ served c.
Proof.
  destruct c; intros Hr Hc; try done; pose proof Hr as Hr'; client_unfold Hr'.
  all: etrans; [eapply rpc_checked; [exact Hr|done|reflexivity|apply with_policy_Ok; [reflexivity|]]|].
  all: try (exact Hv0). all: try same_calls.
  unfold validate_setup_ensure_request_wire. cbn -[validate_setup_ensure_wire]. by rewrite Hv0.
Qed.

Lemma owner_roundtrip (owner : option ClientOwner) r :
  from_option (λ o, 1 ≤ co_pid o) True owner → request_owner (owned_by r owner) = Ok owner.
Proof.
  unfold request_owner, owned_by. destruct r. cbn. destruct owner as [[pid [a b]]|]; [|done]. cbn.
  intros Hp. apply Z.leb_le in Hp. by rewrite Hp.
Qed.

Lemma manifest_ensure_refines q owner r :
  from_option (λ o, 1 ≤ co_pid o) True owner →
  client_request fs (CManifestEnsure q owner) = Ok r →
  rpc (CManifestEnsure q owner) ≡ served (CManifestEnsure q owner).
Proof.
  intros Ho Hr. pose proof Hr as Hr'. client_unfold Hr'.
  etrans; [eapply rpc_checked; [exact Hr|done|reflexivity|]|].
  - rewrite (owner_roundtrip owner _ Ho). unfold validate_manifest_ensure_request_wire.
    cbn -[validate_manifest_ensure_wire]. by rewrite Hv0.
  - same_calls.
Qed.

Lemma manifest_converge_refines q r :
  client_request fs (CManifestConverge q) = Ok r →
  rpc (CManifestConverge q) ≡ served (CManifestConverge q).
Proof.
  intros Hr. pose proof Hr as Hr'. client_unfold Hr'.
  etrans; [eapply rpc_checked with (a := ()); [exact Hr|done|reflexivity|]|].
  - unfold validate_manifest_converge_request_wire.
    cbn -[validate_manifest_converge_wire]. by rewrite Hv0.
  - same_calls.
Qed.

Definition leases_ok (lease : option Z) : Prop :=
  from_option (λ l, lease_in_range l = true) True lease.
(** A lease in range survives the envelope, in whole milliseconds. *)
Lemma lease_survives lease :
  leases_ok lease →
  nonzero (lease_ms lease) && negb (lease_in_range (milliseconds (lease_ms lease))) = false ∧
  (if nonzero (lease_ms lease) then Some (milliseconds (lease_ms lease)) else None)
  = option_map to_millis lease.
Proof.
  destruct lease as [lease|]; [|done]. cbn -[lease_ms]. unfold leases_ok, lease_in_range, lease_ms,
    to_millis, milliseconds, FOLLOW_LEASE_MIN, FOLLOW_LEASE_MAX, seconds. cbn. intros H. booleans.
  unfold as_millis in *. pose proof (Z.div_mod lease 1000000 ltac:(lia)).
  pose proof (Z.mod_pos_bound lease 1000000 ltac:(lia)). rewrite Z.mod_small by lia.
  assert (nonzero (lease / 1000000) = true) as -> by (apply negb_true_iff, Z.eqb_neq; lia).
  split; [|done]. apply negb_false_iff, andb_true_intro. split; apply Z.leb_le; lia.
Qed.
Lemma task_request_inv q lease owner r :
  client_request fs (CManifestAppTask q lease owner) = Ok r →
  leases_ok lease ∧ submit_manifest_app_task_with_lease q lease owner = Ok r.
Proof.
  destruct lease as [lease|]; [|done]. cbn. unfold follow_manifest_app_task, leases_ok. intros Hr.
  client_checks. cbn. by booleans.
Qed.

Lemma manifest_task_refines q lease owner r :
  from_option (λ o, 1 ≤ co_pid o) True owner →
  client_request fs (CManifestAppTask q lease owner) = Ok r →
  rpc (CManifestAppTask q lease owner) ≡ served (CManifestAppTask q lease owner).
Proof.
  intros Ho Hr. destruct (task_request_inv _ _ _ _ Hr) as [Hl Hr'].
  destruct (lease_survives _ Hl) as [Hrange Hms]. client_unfold Hr'.
  etrans; [eapply rpc_checked; [exact Hr|done|reflexivity|]|].
  - rewrite (owner_roundtrip owner _ Ho). unfold validate_manifest_app_task_request_wire.
    cbn -[validate_manifest_app_task_wire lease_ms]. rewrite Hv0.
    cbn -[lease_ms]. by rewrite Hrange.
  - cbn -[lease_ms]. rewrite Hms. same_calls.
Qed.

Lemma ci_refines encoded owner :
  from_option (λ o, 1 ≤ co_pid o) True owner → rpc (CCi encoded owner) ≡ served (CCi encoded owner).
Proof.
  intros Ho. etrans; [by apply (rpc_arm _ (ci_call_owned encoded owner))|].
  change (arm (ci_call_owned encoded owner))
    with (op_ci ci_from_str ci_error_json (ci_call_owned encoded owner)).
  unfold op_ci, ci_parts, ci_call_owned at 2. rewrite (owner_roundtrip owner _ Ho). cbn. destruct (ci_from_str encoded) as [request|e].
  - cbn. apply alike_act. intros [value|[code message]]; same_calls.
  - same_calls.
Qed.

(** The owner a method sends is a real process. *)
Definition owner_ok (c : ccall) : Prop :=
  match c with
  | CManifestEnsure _ owner | CManifestAppTask _ _ owner | CCi _ owner =>
      from_option (λ o, 1 ≤ co_pid o) True owner
  | _ => True
  end.

(** C16. Every client method of [ccall], run through the envelope, the daemon's checks, its
    operation table and the reply decoder, does what its specification [served] does: the same
    calls of the daemon's components with the caller's arguments as the daemon understands them
    (the same values, but durations in whole seconds and the daemon's defaults for what a policy
    does not say, [seen_policy]), in the same order, and for the same answers the same result. No
    accepted request meets another operation's arm, is refused for a field its method filled, or
    comes back as an unexpected kind of reply. A request the client refuses makes no call at all.
    Assumed: the daemon serves this client's protocol ([compatible]), making a path canonical
    twice is making it canonical once ([fs_idempotent]), and an owner is a real process
    ([owner_ok]). [ccall] leaves out [shutdown_and_wait], the queries of the daemon's version and
    identity, and the typed CI verbs, which all encode to [CCi]. *)
Theorem rpc_refines c :
  owner_ok c →
  rpc c ≡ match client_request fs c with Ok _ => served c | Err e => Ret (Err e) end.
Proof.
  intros Ho. destruct (client_request fs c) as [r|e] eqn:Hr; [|unfold rpc; by rewrite Hr].
  destruct c; try (by apply lifetime_refines).
  - exact status_refines.
  - exact doctor_refines.
  - exact handoff_refines.
  - by eapply pages_refine.
  - by eapply pages_refine.
  - by eapply previews_refine.
  - by eapply previews_refine.
  - by eapply previews_refine.
  - by eapply reconcile_refines.
  - by eapply candidates_refine.
  - by eapply candidates_refine.
  - by eapply candidates_refine.
  - by eapply candidates_refine.
  - by eapply candidates_refine.
  - by eapply unmanaged_refines.
  - by eapply retention_refines.
  - by eapply done_refines.
  - by eapply adopt_refines.
  - by eapply setup_jobs_refine.
  - by eapply setup_jobs_refine.
  - by eapply setup_jobs_refine.
  - by eapply setup_jobs_refine.
  - by eapply manifest_ensure_refines.
  - by eapply manifest_converge_refines.
  - by eapply manifest_task_refines.
  - by apply ci_refines.
Qed.
End rpc.

(** ** A daemon, and a call of it *)

Definition sample_identity : DaemonIdentity :=
  {| di_release := "0.4.0"; di_protocol := 2; di_protocol_min := 1 |}.
Definition plain_paths : path_view :=
  {| pv_canonical := Some; pv_directory := λ _, Some true |}.
Definition old_setup_candidate : GcCandidate :=
  {| gc_id := "setup-container:1"; gc_name := "bosn-setup-1"; gc_generation := "sha256:0" |}.
Definition sample_call : ccall := CSetupGcApply "/w" (setup_gc_token old_setup_candidate) true.

Lemma rpc_refines_witness :
  is_ok (client_request plain_paths sample_call) = true ∧
  rpc (λ _, Ok tt) (λ _ _, "") sample_identity plain_paths sample_call
  ≡ served (λ _, Ok tt) (λ _ _, "") sample_identity plain_paths sample_call.
Proof.
  split; [vm_compute; reflexivity|].
  apply (rpc_refines (λ _, Ok tt) (λ _ _, "") sample_identity plain_paths (or_intror eq_refl)
           (λ p q _, eq_refl) sample_call I).
Defined.
