(* ===== verification/DispatchSafety.v ===== *)
(** * DispatchSafety: what any request at all can make the daemon do

    Theorems on [Dispatch.dispatch] for every request, well-formed or hostile, and every answer
    of the components: a call that changes anything was asked for by the operation that means
    it, with its confirmation, its candidate token and its bounds; a client outside the protocol
    window reaches nothing; the idle handoff stops the daemon exactly when it is idle. With
    them the shape of the accepted text: manifest paths stay inside their workspace. *)

From Stdlib Require Import Ascii.
From S2P Require Import Effects.
From S2P Require Import JobRequests.
From S2P Require Import ManifestRecovery.
From S2P Require Import GcApply.
From S2P Require Import Registry.
From S2P Require Import ManagedRetention.
From S2P Require Import UnmanagedApply.
From S2P Require Import Owners.
From S2P Require Import Dispatch.

Local Open Scope string_scope.
Local Open Scope list_scope.
Local Open Scope Z_scope.
Local Open Scope bosn_scope.

(** ** Consent *)

(** A job's budget, as its operation bounds it. *)
Definition within (max_deadline max_output deadline limit : Z) : Prop :=
  deadline ≠ 0 ∧ deadline ≤ max_deadline ∧ limit ≠ 0 ∧ limit ≤ max_output.
Definition setup_budget : Z → Z → Prop :=
  within SETUP_PREPARE_MAX_DEADLINE SETUP_PREPARE_MAX_OUTPUT.
Definition manifest_budget : Z → Z → Prop := within MANIFEST_MAX_DEADLINE MANIFEST_MAX_OUTPUT.

(** The request confirms the removal of the one candidate its token names. *)
Definition names (r : Request) (parse : string → result string GcCandidate)
    (workspace token : string) : Prop :=
  rq_gc_confirm r = true ∧ workspace = rq_workspace r ∧ token = rq_gc_candidate_token r ∧
  invalid_workspace workspace = false ∧ ∃ c, parse token = Ok c.

(** What a request must say for a call to be made on its behalf. *)
Definition consents {CiRequest} (fs : path_view) (r : Request) (c : dcall (CiRequest := CiRequest)) :
    Prop :=
  let op := rq_operation r in
  match c with
  | DStop => op = 3 ∨ op = OP_STOP_IF_IDLE
  | DSetupGcApply w t => op = 15 ∧ names r parse_setup_gc_token w t
  | DStopRetired w t => op = 18 ∧ names r parse_setup_gc_token w t
  | DRepairMissing w t => op = 20 ∧ names r parse_setup_reconcile_missing_token w t
  | DVolumeGcApply w t => op = 32 ∧ names r parse_manifest_volume_gc_token w t
  | DVolumeReleaseApply w t => op = 34 ∧ names r parse_manifest_volume_release_token w t
  | DRetention policy apply =>
      op = 38 ∧ (apply = true → rq_gc_confirm r = true ∧ rq_owned_confirm r = true) ∧
      container_ttl policy ≤ duration_from_secs OWNED_MAX_TTL_SECS ∧
      volume_ttl policy ≤ duration_from_secs OWNED_MAX_TTL_SECS ∧
      image_ttl policy ≤ duration_from_secs OWNED_MAX_TTL_SECS
  | DUnmanagedApply _ _ include =>
      op = 35 ∧ rq_gc_confirm r = true ∧ include = rq_unmanaged_include r ∧
      Z.of_nat (length include) ≤ 1024 ∧ Forall (λ id, id ≠ "") include
  | DCompleteWorkspace w =>
      op = 16 ∧ rq_setup_done_confirm r = true ∧
      canonical_setup_done_workspace fs (rq_workspace r) = Ok w
  | DAdopt q =>
      op = 17 ∧ rq_setup_adopt_confirm r = true ∧ setup_budget (sq_deadline q) (sq_output_limit q)
  | DRecordAdoption _ => op = 17 ∧ rq_setup_adopt_confirm r = true
  | DCancel id => op = 6 ∧ id = rq_job_id r
  | DSubmit _ _ _ => op = 4
  | DSubmitPrepare q => op = 8 ∧ setup_budget (pr_deadline q) (pr_output_limit q)
  | DSubmitTask q => op = 9 ∧ setup_budget (st_deadline q) (st_output_limit q)
  | DSubmitEnsure q => op = 10 ∧ setup_budget (se_deadline q) (se_output_limit q)
  | DSubmitAppTask q => op = 21 ∧ setup_budget (sa_deadline q) (sa_output_limit q)
  | DSubmitManifestEnsure q _ =>
      op = 22 ∧ manifest_budget (me_deadline q) (me_output_limit q) ∧
      safe_manifest_relative_path (me_manifest q) = true
  | DSubmitManifestConverge q =>
      op = 24 ∧ manifest_budget (mc_deadline q) (mc_output_limit q) ∧
      safe_manifest_relative_path (mc_manifest q) = true
  | DSubmitManifestAppTask q lease _ =>
      op = 23 ∧ manifest_budget (ma_deadline q) (ma_output_limit q) ∧
      safe_manifest_relative_path (ma_manifest q) = true ∧
      from_option (λ l, FOLLOW_LEASE_MIN ≤ l ≤ FOLLOW_LEASE_MAX) True lease
  | DCi _ _ => op = 36
  | DStatus | DResources _ _ | DEvents _ _ | DSetupGcPreview _ _ _ | DReconcilePreview _ _ _
  | DVolumeGcPreview _ _ _ | DVolumeReleasePreview _ _ _ | DIntegrity | DJobs | DJobStatus _
  | DLogs _ _ _ | DUnfinished | DActiveRuns | DDoctor | DInspect _ | DOurRegistry => True
  end.

(** ** Programs that only make calls of a kind *)

Fixpoint calls_only {call} {answer : call → Type} {A} (P : call → Prop) (p : prog answer A) :
    Prop :=
  match p with Ret _ => True | Act c k => P c ∧ ∀ x, calls_only P (k x) end.

Lemma calls_only_bind {call} {answer : call → Type} {A B} (P : call → Prop) (p : prog answer A)
    (f : A → prog answer B) :
  calls_only P p → (∀ a, calls_only P (f a)) → calls_only P (prog_bind p f).
Proof.
  intros Hp Hf. induction p as [a|c k IH]; [apply Hf|]. destruct Hp as [Hc Hk].
  split; [done|]. intros x. by apply IH.
Qed.
Lemma calls_only_fold {call} {answer : call → Type} {S A} (P : call → Prop)
    (f : S → A → prog answer S) s l :
  (∀ s x, calls_only P (f s x)) → calls_only P (prog_fold f s l).
Proof.
  intros Hf. revert s. induction l as [|x l IH]; intros s; [done|]. by apply calls_only_bind.
Qed.
Lemma calls_only_impl {call} {answer : call → Type} {A} (P Q : call → Prop) (p : prog answer A) :
  (∀ c, P c → Q c) → calls_only P p → calls_only Q p.
Proof.
  intros HPQ. induction p as [a|c k IH]; [done|]. intros [Hc Hk]. split; [by apply HPQ|].
  intros x. by apply IH.
Qed.
(** The calls of a run, in order. *)
Definition call_of {call} {answer : call → Type} (c : call) (_ : answer c) : call := c.
Definition calls {call} {answer : call → Type} {A} (env : list call → ∀ c, answer c)
    (p : prog answer A) : list call :=
  (run call_of env p []).2.
Lemma calls_only_run {call} {answer : call → Type} {A} (P : call → Prop) (p : prog answer A) env :
  calls_only P p → Forall P (calls env p).
Proof.
  unfold calls. intros Hp.
  cut (∀ tr, Forall P tr → Forall P (run call_of env p tr).2); [intros H; by apply H|].
  induction p as [a|c k IH]; intros tr Htr; [done|]. destruct Hp as [Hc Hk]. cbn.
  apply IH; [done|]. apply Forall_app. by repeat constructor.
Qed.

Section safety.
Context {CiRequest : Type}.
Context (ci_from_str : string → result string CiRequest).
Context (ci_error_json : string → string → string).
Context (identity : DaemonIdentity) (fs : path_view).
Notation d_prog A := (prog (d_answer (CiRequest := CiRequest)) A).
Notation arm := (arm ci_from_str ci_error_json identity fs).
Notation dispatch := (dispatch ci_from_str ci_error_json identity fs).

(** An arm whose check is known makes the calls of what follows it. *)
Lemma calls_checked {A} P (v : result Error A) (k : A → d_prog ReplyWire) :
  (∀ a, v = Ok a → calls_only P (k a)) → calls_only P (checked v k).
Proof. destruct v as [a|e]; [|done]. intros H. by apply H. Qed.

Ltac into_arm :=
  apply calls_checked; let a := fresh "a" in intros a Hv;
  match type of a with unit => destruct a | _ => idtac end.
Ltac one_call := into_arm; split; [|by intros []].

(** The budget an accepted check leaves. *)
Ltac budget := match goal with H : _ = Ok () |- _ => apply budget_accepted in H end.

Lemma with_policy_inv r validate p :
  with_policy r validate = Ok p → validate p = Ok ().
Proof.
  unfold with_policy. destruct (policy_from_wire _) as [q|]; [|done].
  destruct (validate q) as [[]|] eqn:Hq; [|done]. by intros [= <-].
Qed.

Notation only_consented r p := (calls_only (consents fs r) (p : d_prog ReplyWire)).

Lemma candidate_arms_consent r :
  (rq_operation r = 15 → only_consented r (op_setup_gc_apply r)) ∧
  (rq_operation r = 18 → only_consented r (op_retired_stop r)) ∧
  (rq_operation r = 20 → only_consented r (op_repair_missing r)) ∧
  (rq_operation r = 32 → only_consented r (op_volume_gc_apply r)) ∧
  (rq_operation r = 34 → only_consented r (op_volume_release_apply r)).
Proof.
  repeat split; intros Hop; one_call; cbn; unfold names.
  2: apply retired_stop_accepted in Hv; naive_solver.
  all: apply candidate_request_accepted in Hv; naive_solver.
Qed.

Lemma retention_consents r : rq_operation r = 38 → only_consented r (op_retention r).
Proof.
  intros Hop. one_call. unfold validate_managed_retention_request_wire in Hv.
  accepted. booleans. cbn -[OWNED_MAX_TTL_SECS]. unfold duration_from_secs, nanos_per_sec.
  match goal with H : eqb _ _ = true |- _ => apply eqb_prop in H; rewrite <- H end.
  split; [done|]. split; [done|lia].
Qed.

Lemma unmanaged_consents r : rq_operation r = 35 → only_consented r (op_unmanaged_apply r).
Proof.
  intros Hop. into_arm. split; [done|]. intros our. split; [|by intros []].
  unfold validate_unmanaged_apply_request_wire in Hv. accepted. booleans. cbn.
  repeat split; [done..|]. apply Forall_forall. intros id Hid ->.
  match goal with H : existsb _ _ = false |- _ => apply existsb_false_forall in H end.
  by rewrite Forall_forall in * |- ; naive_solver.
Qed.

Lemma done_consents r : rq_operation r = 16 → only_consented r (op_setup_done fs r).
Proof.
  intros Hop. one_call. accepted. unfold validate_setup_done_request_wire,
    validate_setup_done_input in Hv0. accepted. booleans. done.
Qed.

Lemma adopt_consents r : rq_operation r = 17 → only_consented r (op_setup_adopt r).
Proof.
  intros Hop. into_arm. apply with_policy_inv in Hv.
  unfold validate_setup_adopt_request_wire, validate_setup_adopt_input in Hv. accepted. booleans.
  budget. split; [done|]. intros [execution|e]; [|done]. cbn.
  split; [done|]. by intros [].
Qed.

Lemma setup_arms_consent r :
  (rq_operation r = 8 → only_consented r (op_setup_prepare r)) ∧
  (rq_operation r = 9 → only_consented r (op_setup_task r)) ∧
  (rq_operation r = 10 → only_consented r (op_setup_ensure r)) ∧
  (rq_operation r = 21 → only_consented r (op_setup_app_task r)).
Proof.
  repeat split; intros Hop; one_call; apply with_policy_inv in Hv; split; try done.
  - by budget.
  - unfold validate_setup_task_wire in Hv. accepted. by budget.
  - unfold validate_setup_ensure_request_wire in Hv. accepted. by budget.
  - unfold validate_setup_task_wire in Hv. accepted. by budget.
Qed.

Lemma manifest_ensure_accepted w m s d o :
  validate_manifest_ensure_wire w m s d o = Ok () →
  manifest_budget (milliseconds d) o ∧ safe_manifest_relative_path m = true.
Proof.
  unfold validate_manifest_ensure_wire. intros H. accepted. booleans.
  by budget.
Qed.

Lemma manifest_arms_consent r :
  (rq_operation r = 22 → only_consented r (op_manifest_ensure r)) ∧
  (rq_operation r = 24 → only_consented r (op_manifest_converge r)) ∧
  (rq_operation r = 23 → only_consented r (op_manifest_app_task r)).
Proof.
  repeat split; intros Hop; one_call; accepted; split; try done.
  - unfold validate_manifest_ensure_request_wire in Hv0. accepted.
    by apply manifest_ensure_accepted in Hv1.
  - unfold validate_manifest_converge_request_wire, validate_manifest_converge_wire in Hv.
    accepted. booleans. by budget.
  - unfold validate_manifest_app_task_request_wire, validate_manifest_app_task_wire in Hv0.
    accepted. match goal with H : _ = Ok () |- _ => apply manifest_ensure_accepted in H as [? ?] end.
    split; [done|]. split; [done|]. destruct (nonzero (rq_follow_lease_ms r)); [|done].
    unfold lease_in_range in *. cbn in *. by booleans.
Qed.

(** Reading needs no consent beyond the operation's own check. *)
Lemma reading_arms_consent r :
  only_consented r (op_resources r) ∧ only_consented r (op_events r) ∧
  only_consented r (op_doctor r) ∧ only_consented r (op_setup_gc_preview r) ∧
  only_consented r (op_volume_gc_preview r) ∧ only_consented r (op_volume_release_preview r) ∧
  only_consented r (op_reconcile_preview r).
Proof.
  repeat split; into_arm; split; try done.
  intros [[next candidates]|e]; [|done]. apply (calls_only_bind _ (prog_fold _ _ _)); [|done].
  by apply calls_only_fold.
Qed.

Lemma ci_consents r : rq_operation r = 36 → only_consented r (op_ci ci_from_str ci_error_json r).
Proof. intros Hop. unfold op_ci. destruct (ci_parts ci_from_str r) as [[request owner]|e]; done. Qed.

Lemma handoff_consents r :
  rq_operation r = OP_STOP_IF_IDLE → only_consented r stop_if_idle.
Proof.
  intros Hop. apply (calls_only_bind _ busy_reason).
  - split; [done|]. intros [n|e]; [|done]. split; [done|]. intros runs. split; [done|]. by intros [].
  - intros [[reason|]|e]; [done| |done]. split; [by right|done].
Qed.

(** Every arm of the table. *)
Lemma arm_consents r : only_consented r (arm r).
Proof.
  destruct (candidate_arms_consent r) as (? & ? & ? & ? & ?).
  destruct (setup_arms_consent r) as (? & ? & ? & ?).
  destruct (manifest_arms_consent r) as (? & ? & ?).
  destruct (reading_arms_consent r) as (? & ? & ? & ? & ? & ? & ?).
  unfold Dispatch.arm.
  repeat (destruct (_ =? _) eqn:Hop;
    [apply Z.eqb_eq in Hop; eauto using handoff_consents, retention_consents, unmanaged_consents,
       done_consents, adopt_consents, ci_consents|clear Hop]).
  all: cbn; first [done|split; [auto|by intros []]].
Qed.

(** The conditions of every call [dispatch] makes. *)
Definition licensed (r : Request) (c : dcall (CiRequest := CiRequest)) : Prop :=
  rq_protocol_version r = PROTOCOL_VERSION ∧ protocol_window_refusal identity r = None ∧
  consents fs r c.
Lemma dispatch_licensed r : calls_only (licensed r) (dispatch r).
Proof.
  unfold Dispatch.dispatch.
  destruct (rq_protocol_version r =? PROTOCOL_VERSION) eqn:Hv; [|done]. apply Z.eqb_eq in Hv.
  destruct (protocol_window_refusal identity r) eqn:Hw; [done|]. cbn [negb].
  apply (calls_only_impl (consents fs r)); [done|].
  destruct (rq_operation r =? 2); [by split; [|intros []]|].
  apply (calls_only_bind _ (arm r)); [apply arm_consents|done].
Qed.

(** What a daemon finds when it looks whether it is idle. *)
Definition idle (env : list (dcall (CiRequest := CiRequest)) → ∀ c, d_answer (CiRequest := CiRequest) c) :
    Prop :=
  ∃ unfinished status,
    env [] DUnfinished = Ok unfinished ∧ unfinished ≤ 0 ∧
    env [DUnfinished] DActiveRuns ≤ 0 ∧
    env [DUnfinished; DActiveRuns] DStatus = Ok status ∧ ss_leases status ≤ 0.

Lemma busy_list_nil n runs leases :
  busy_list n runs leases = [] ↔ n ≤ 0 ∧ runs ≤ 0 ∧ leases ≤ 0.
Proof.
  unfold busy_list. destruct (0 <? n) eqn:?, (0 <? runs) eqn:?, (0 <? leases) eqn:?;
    booleans; cbn; split; intros; try done; lia.
Qed.

(** An idle handoff stops the daemon exactly when it is idle: no unfinished job, no queued or
    running CI run, no held lease, each read and none failing to be read. *)
Theorem idle_handoff_exact env r :
  rq_operation r = OP_STOP_IF_IDLE → rq_protocol_version r = PROTOCOL_VERSION →
  protocol_window_refusal identity r = None →
  DStop ∈ calls env (dispatch r) ↔ idle env.
Proof.
  intros Hop Hv Hw. unfold calls, Dispatch.dispatch, Dispatch.arm. rewrite Hop, Hv, Hw. cbn.
  unfold idle. destruct (env [] DUnfinished) as [n|e]; cbn; [|by split; [set_solver|naive_solver]].
  change (call_of DUnfinished (Ok n)) with (DUnfinished (CiRequest := CiRequest)).
  change (call_of DActiveRuns (env [DUnfinished] DActiveRuns))
    with (DActiveRuns (CiRequest := CiRequest)).
  destruct (env [DUnfinished; DActiveRuns] DStatus) as [s|e]; cbn;
    [|by split; [set_solver|naive_solver]].
  pose proof (busy_list_nil n (env [DUnfinished] DActiveRuns) (ss_leases s)) as Hb.
  destruct (busy_list _ _ _) as [|reason l]; cbn.
  - destruct Hb as [Hb _]. specialize (Hb eq_refl). split; [|set_solver]. naive_solver.
  - split; [set_solver|]. intros (m & s' & [= <-] & ? & ? & [= <-] & ?).
    destruct Hb as [_ Hb]. by specialize (Hb ltac:(done)).
Qed.
End safety.

(** ** A handoff that finds the daemon idle *)

(** A world in which nothing is running: every other question fails. *)
Definition silent (c : dcall (CiRequest := unit)) : d_answer c.
Proof.
  destruct c; first [exact tt|exact 0|exact ""|exact None|exact (Err EActorClosed)|exact (Err "")
    |exact (Err ("", ""))].
Defined.
Definition idle_status : Status :=
  {| ss_registry_id := "r"; ss_schema_version := 1; ss_resources := 3; ss_leases := 0;
     ss_sessions := 0; ss_reconciliation_required := false |}.
Definition idle_world (_ : list (dcall (CiRequest := unit))) (c : dcall (CiRequest := unit)) :
    d_answer c :=
  match c with DUnfinished => Ok 0 | DStatus => Ok idle_status | c => silent c end.
Definition handoff_identity : DaemonIdentity :=
  {| di_release := "0.4.0"; di_protocol := 2; di_protocol_min := 1 |}.
Definition no_paths : path_view := {| pv_canonical := λ _, None; pv_directory := λ _, None |}.

Lemma idle_handoff_exact_witness :
  DStop ∈ calls idle_world
    (dispatch (λ _, Ok tt) (λ _ _, "") handoff_identity no_paths (operation OP_STOP_IF_IDLE)).
Proof.
  apply (idle_handoff_exact (λ _, Ok tt) (λ _ _, "") handoff_identity no_paths idle_world
           (operation OP_STOP_IF_IDLE) eq_refl eq_refl eq_refl).
  exists 0, idle_status. repeat split; cbn; lia.
Defined.

(** ** Manifest paths *)

(** Lexical resolution of a path's parts over a stack of directories, innermost first. *)
Fixpoint resolve (parts stack : list string) : list string :=
  match parts with
  | [] => stack
  | part :: parts =>
      if String.eqb part "" || String.eqb part "." then resolve parts stack
      else if String.eqb part ".." then resolve parts (tail stack)
      else resolve parts (part :: stack)
  end.
Definition lexical (path : string) : list string := rev (resolve (str_split "/" path) []).

Lemma resolve_app a b stack : resolve (a ++ b) stack = resolve b (resolve a stack).
Proof. revert stack. induction a as [|p a IH]; intros stack; [done|]. cbn. by repeat case_match. Qed.
Lemma resolve_normal parts stack :
  existsb (λ part, String.eqb part "" || String.eqb part "." || String.eqb part "..") parts = false →
  resolve parts stack = rev parts ++ stack.
Proof.
  revert stack. induction parts as [|p parts IH]; intros stack; [done|]. cbn. intros H. booleans.
  rewrite H, H1, H2. cbn. rewrite IH by done. by rewrite <- app_assoc.
Qed.

(** A manifest path the daemon accepts names something strictly inside the workspace, whatever
    the workspace: resolving the two together only ever appends the path's own parts. *)
Theorem manifest_path_stays_inside workspace manifest :
  safe_manifest_relative_path manifest = true →
  lexical (workspace +:+ "/" +:+ manifest) = lexical workspace ++ str_split "/" manifest ∧
  str_split "/" manifest ≠ [].
Proof.
  unfold safe_manifest_relative_path, lexical. intros H. booleans.
  change ("/" +:+ manifest) with (String "/" manifest).
  rewrite split_at, resolve_app, (resolve_normal (str_split "/" manifest)) by done.
  split; [by rewrite rev_app_distr, rev_involutive|]. apply str_split_nonempty.
Qed.
Lemma manifest_path_stays_inside_witness :
  safe_manifest_relative_path "ci/bosn.toml" = true ∧
  lexical "/home/me/../you/repo/ci/bosn.toml" = ["home"; "you"; "repo"; "ci"; "bosn.toml"].
Proof.
  split; [vm_compute; reflexivity|].
  apply (manifest_path_stays_inside "/home/me/../you/repo" "ci/bosn.toml").
  vm_compute. reflexivity.
Defined.
