(* ===== verification/Frames.v ===== *)
(** * Frames: one authenticated connection

    The framing of [bosn-service/src/transport.rs] and the connection around the operation table:
    [handle] of [bosn-service/src/dispatch.rs] and [call_within] of [bosn-service/src/client.rs].
    The frame codec and the protobuf codec are libraries: a frame is an abstract type with its
    accessors, and their documented round trips are the laws of [Codec]. A read of the socket
    is a call that may give bytes, end, fail or time out. *)

From Stdlib Require Import Ascii.
From S2P Require Import Effects.
From S2P Require Import Dispatch.
From S2P Require Import DispatchSafety.
From S2P Require Import Client.
From S2P Require Import Rpc.

Local Open Scope string_scope.
Local Open Scope list_scope.
Local Open Scope Z_scope.
Local Open Scope bosn_scope.

Definition PAYLOAD_PROTOCOL : Z := 0x42534e01.
Definition MAX_FRAME : Z := 1024 * 1024.

(** ** The codecs *)

Record Codec (Frame : Type) := {
  (** [DaemonFrameCodec]: a whole frame with what it consumed, or more bytes wanted. *)
  co_decode : string → option (option (Frame * Z));
  co_encode : Frame → option string;
  co_payload_protocol : Frame → Z;
  co_is_request : Frame → bool;
  co_is_response : Frame → bool;
  co_plain : Frame → bool;
  co_request_id : Frame → Z;
  co_payload : Frame → string;
  (** [DaemonFrame::request(protocol, payload).with_request_id(id)] and [response_to]. *)
  co_request : Z → string → Z → Frame;
  co_response_to : Frame → string → Frame;
  (** prost. *)
  co_encode_request : Request → option string;
  co_decode_request : string → option Request;
  co_encode_reply : ReplyWire → option string;
  co_decode_reply : string → option ReplyWire;
}.
Arguments co_decode {Frame}.
Arguments co_encode {Frame}.
Arguments co_payload_protocol {Frame}.
Arguments co_is_request {Frame}.
Arguments co_is_response {Frame}.
Arguments co_plain {Frame}.
Arguments co_request_id {Frame}.
Arguments co_payload {Frame}.
Arguments co_request {Frame}.
Arguments co_response_to {Frame}.
Arguments co_encode_request {Frame}.
Arguments co_decode_request {Frame}.
Arguments co_encode_reply {Frame}.
Arguments co_decode_reply {Frame}.

(** What the libraries document. *)
Record codec_laws {Frame} (c : Codec Frame) : Prop := {
  cl_request_protocol p s i : co_payload_protocol c (co_request c p s i) = p;
  cl_request_kind p s i : co_is_request c (co_request c p s i) = true;
  cl_request_plain p s i : co_plain c (co_request c p s i) = true;
  cl_request_id p s i : co_request_id c (co_request c p s i) = i;
  cl_request_payload p s i : co_payload c (co_request c p s i) = s;
  cl_response_protocol f s : co_payload_protocol c (co_response_to c f s) = co_payload_protocol c f;
  cl_response_kind f s : co_is_response c (co_response_to c f s) = true;
  cl_response_plain f s : co_plain c (co_response_to c f s) = true;
  cl_response_id f s : co_request_id c (co_response_to c f s) = co_request_id c f;
  cl_response_payload f s : co_payload c (co_response_to c f s) = s;
  cl_request r s : co_encode_request c r = Some s → co_decode_request c s = Some r;
  cl_frame f b : co_encode c f = Some b → co_decode c b = Some (Some (f, len b));
  cl_reply r s : co_encode_reply c r = Some s → co_decode_reply c s = Some r;
}.

Section frames.
Context {Frame : Type} (codec : Codec Frame).

(** ** Reading *)

Inductive read_call := ReadChunk.
Inductive read_outcome := ReadBytes (chunk : string) | ReadTimedOut | ReadFailed (error : string).
Definition read_answer (_ : read_call) : Type := read_outcome.

(** [read_frame_within]: [None] if the loop did not end within [fuel] turns. *)
Fixpoint read_loop (fuel : nat) (b : string) : prog read_answer (option (result Error Frame)) :=
  match fuel with
  | O => Ret None
  | S fuel =>
      if MAX_FRAME <? len b then Ret (Some (protocol "frame too large"))
      else
        match co_decode codec b with
        | None => Ret (Some (protocol "bad frame"))
        | Some (Some (frame, consumed)) =>
            Ret (Some (if consumed <=? MAX_FRAME then Ok frame else protocol "frame too large"))
        | Some None =>
            chunk ← perform (answer := read_answer) ReadChunk;
            match chunk with
            | ReadTimedOut => Ret (Some (Err EDeadline))
            | ReadFailed e => Ret (Some (Err (EIo e)))
            | ReadBytes "" => Ret (Some (protocol "eof"))
            | ReadBytes chunk => read_loop fuel (b +:+ chunk)
            end
        end
  end.
(** Every turn that goes on reads at least one byte, and no turn reads past [MAX_FRAME]. *)
Definition read_fuel : nat := Z.to_nat (MAX_FRAME + 2).
Definition read_frame : prog read_answer (option (result Error Frame)) := read_loop read_fuel "".

Definition write_frame (f : Frame) : result Error string :=
  match co_encode codec f with
  | None => protocol "frame encode"
  | Some b => if MAX_FRAME <? len b then protocol "frame too large" else Ok b
  end.

Definition decode_response_frame (f : Frame) (request_id : Z) : result Error Reply :=
  if negb (co_request_id codec f =? request_id) || negb (co_is_response codec f)
     || negb (co_payload_protocol codec f =? PAYLOAD_PROTOCOL) || negb (co_plain codec f)
  then protocol "response frame"
  else match co_decode_reply codec (co_payload codec f) with
       | None => protocol "reply decode"
       | Some reply => decode_reply reply
       end.

(** ** One connection *)

Context {CiRequest : Type}.
Context (ci_from_str : string → result string CiRequest).
Context (ci_error_json : string → string → string).
Context (identity : DaemonIdentity) (fs : path_view).
Notation d_prog A := (prog (d_answer (CiRequest := CiRequest)) A).
Notation dispatch := (dispatch ci_from_str ci_error_json identity fs).

(** The frame in the bytes of a connection: what the loop of [read_frame] gives however they were
    cut into reads ([read_frame_delivered]). *)
Definition received (b : string) : result Error Frame :=
  match co_decode codec b with
  | None => protocol "bad frame"
  | Some None => protocol "eof"
  | Some (Some (frame, consumed)) =>
      if consumed <=? MAX_FRAME then Ok frame else protocol "frame too large"
  end.

(** [handle] once the request's frame [f] is read from a peer: the bytes it writes. *)
Definition handle (peer_user_id current_user_id : string) (f : Frame) :
    d_prog (result Error string) :=
  if negb (peer_is_authorized peer_user_id current_user_id) then Ret (Err EUnauthorized)
  else if negb (co_payload_protocol codec f =? PAYLOAD_PROTOCOL) || negb (co_is_request codec f)
          || negb (co_plain codec f) then Ret (protocol "request frame")
  else match co_decode_request codec (co_payload codec f) with
       | None => Ret (protocol "request decode")
       | Some r =>
           do! reply := dispatch r in
           Ret (match co_encode_reply codec reply with
                | None => protocol "reply encode"
                | Some p => write_frame (co_response_to codec f p)
                end)
       end.

(** [call_within] over a connection that delivers what is written; a daemon that ends the
    connection without a reply is an end of file to its client. *)
Definition call (peer_user_id current_user_id : string) (r : Request) :
    d_prog (result Error Reply) :=
  if negb (peer_is_authorized peer_user_id current_user_id) then Ret (Err EUnauthorized)
  else match co_encode_request codec r with
       | None => Ret (protocol "encode")
       | Some payload =>
           do! b := Ret (write_frame (co_request codec PAYLOAD_PROTOCOL payload 1)) in
           do! f := Ret (received b) in
           x ← handle current_user_id peer_user_id f;
           Ret (match x with
                | Ok b => let? f := received b in decode_response_frame f 1
                | Err _ => protocol "eof"
                end)
       end.

(** ** Reading ends *)

(** The bytes of the reads so far. *)
Fixpoint arrived (tr : list read_outcome) : string :=
  match tr with
  | [] => ""
  | ReadBytes chunk :: tr => chunk +:+ arrived tr
  | _ :: tr => arrived tr
  end.
Definition read_event (c : read_call) (x : read_answer c) : read_outcome := x.

Lemma arrived_snoc tr chunk : arrived (tr ++ [ReadBytes chunk]) = arrived tr +:+ chunk.
Proof.
  induction tr as [|[c| |] tr IH]; cbn; rewrite ?IH; [apply string_app_nil| |done..].
  symmetry. apply string_app_assoc.
Qed.

(** What the reader may have done by the time it ends. *)
Record read_ok (r : option (result Error Frame)) (tr : list read_outcome) : Prop := {
  ro_ends : r ≠ None;
  ro_reads : Z.of_nat (length tr) ≤ MAX_FRAME + 1;
  ro_frame f : r = Some (Ok f) →
    ∃ n, co_decode codec (arrived tr) = Some (Some (f, n)) ∧ n ≤ MAX_FRAME;
}.

Lemma read_loop_ok fuel tr :
  Z.of_nat (length tr) ≤ len (arrived tr) → Z.of_nat (length tr) ≤ MAX_FRAME + 1 →
  MAX_FRAME + 2 - len (arrived tr) ≤ Z.of_nat fuel → 0 < Z.of_nat fuel →
  wp read_event (read_loop fuel (arrived tr)) tr read_ok.
Proof.
  revert tr. induction fuel as [|fuel IH]; intros tr Hlen Hmax Hf Hpos; [lia|]. cbn [read_loop].
  destruct (MAX_FRAME <? len (arrived tr)) eqn:Hb; [by split|]. apply Z.ltb_ge in Hb.
  destruct (co_decode codec (arrived tr)) as [[[frame consumed]|]|] eqn:Hd; [|clear Hd|by split].
  { split; [done|done|]. intros f Hr. destruct (consumed <=? MAX_FRAME) eqn:Hc; [|done].
    injection Hr as <-. exists consumed. by booleans. }
  assert (∀ x, Z.of_nat (length (tr ++ [x])) ≤ MAX_FRAME + 1) as Hsnoc.
  { intros x. rewrite length_app. cbn. lia. }
  intros [[|a chunk]|  |e]; [by split; [|apply Hsnoc|]| |by split; [|apply Hsnoc|]..].
  change (wp read_event (read_loop fuel (arrived tr +:+ String a chunk))
            (tr ++ [ReadBytes (String a chunk)]) read_ok). rewrite <- arrived_snoc.
  assert (len (arrived tr) + 1 ≤ len (arrived (tr ++ [ReadBytes (String a chunk)]))).
  { rewrite arrived_snoc. unfold len. rewrite length_append. cbn [String.length]. lia. }
  apply IH; [|apply Hsnoc|lia..]. rewrite length_app. cbn [length]. lia.
Qed.

(** Reading a frame always ends: after at most [MAX_FRAME + 1] reads, whatever arrives and
    however it is cut up, there is a frame or an error; and a frame is what the codec finds in
    exactly the bytes that arrived, itself within the limit. *)
Theorem read_frame_ends env :
  read_ok (run read_event env read_frame []).1 (run read_event env read_frame []).2.
Proof.
  assert (Z.of_nat read_fuel = MAX_FRAME + 2) as Hfuel by (apply Z2Nat.id; unfold MAX_FRAME; lia).
  apply run_wp. apply (read_loop_ok read_fuel []); change (len (arrived [])) with 0;
    cbn [length]; unfold MAX_FRAME in *; lia.
Qed.

(** A connection that delivers these pieces and then ends. *)
Definition deliver (chunks : list string) (tr : list read_outcome) (c : read_call) : read_answer c :=
  match chunks !! length tr with Some chunk => ReadBytes chunk | None => ReadBytes "" end.
Definition joined (chunks : list string) : string := foldr String.append "" chunks.

Section delivered.
(** Bytes behind a frame, or behind a malformed one, do not change it. *)
Context (decode_stable : ∀ b more,
  co_decode codec b ≠ Some None → co_decode codec (b +:+ more) = co_decode codec b).

Lemma read_loop_delivered rest gone fuel b tr :
  length tr = length gone → (length rest < fuel)%nat → Forall (λ c, c ≠ "") rest →
  len (b +:+ joined rest) ≤ MAX_FRAME →
  (run read_event (deliver (gone ++ rest)) (read_loop fuel b) tr).1
  = Some (received (b +:+ joined rest)).
Proof.
  revert gone fuel b tr. induction rest as [|chunk rest IH]; intros gone fuel b tr Htr Hfuel Hne Hmax;
    (destruct fuel as [|fuel]; [cbn in Hfuel; lia|]); cbn [read_loop].
  - change (joined []) with "" in *. rewrite string_app_nil in *. rewrite (proj2 (Z.ltb_ge _ _)) by done.
    unfold received. destruct (co_decode codec b) as [[[frame consumed]|]|] eqn:Hd; try done.
    unfold perform. cbn. unfold read_event, deliver. by rewrite app_nil_r, Htr, lookup_ge_None_2.
  - cbn [joined foldr] in Hmax |- *. fold (joined rest) in Hmax |- *.
    apply Forall_cons in Hne as [Hchunk Hne].
    assert (len b ≤ len (b +:+ chunk +:+ joined rest)).
    { unfold len. rewrite !length_append. lia. }
    rewrite (proj2 (Z.ltb_ge _ _)) by lia.
    destruct (co_decode codec b) as [[[frame consumed]|]|] eqn:Hd; unfold received.
    + by rewrite decode_stable, Hd by congruence.
    + assert (deliver (gone ++ chunk :: rest) tr ReadChunk = ReadBytes chunk) as Hdel.
      { unfold deliver. by rewrite Htr, list_lookup_middle. }
      unfold perform. cbn. rewrite Hdel. destruct chunk as [|x chunk]; [done|].
      rewrite <- string_app_assoc in Hmax |- *.
      pose proof (IH (gone ++ [String x chunk]) fuel (b +:+ String x chunk)
        (tr ++ [ReadBytes (String x chunk)])) as IHx.
      rewrite <- app_assoc in IHx. apply IHx; [rewrite !length_app; cbn; lia|cbn in Hfuel; lia|done|done].
    + by rewrite decode_stable, Hd by congruence.
Qed.

(** However a sender's bytes are cut into reads, the loop that reads a frame piece by piece gives
    what decoding them at once gives. *)
Theorem read_frame_delivered chunks :
  Forall (λ c, c ≠ "") chunks → len (joined chunks) ≤ MAX_FRAME →
  (run read_event (deliver chunks) read_frame []).1 = Some (received (joined chunks)).
Proof.
  intros Hne Hmax. apply (read_loop_delivered chunks [] read_fuel ""); try done.
  assert (Z.of_nat (length chunks) ≤ len (joined chunks)).
  { clear Hmax. induction Hne as [|[|x c] l Hc _ IH]; [done|done|]. unfold len in *. cbn [joined foldr length].
    fold (joined l). rewrite length_append. cbn [String.length]. lia. }
  unfold read_fuel. lia.
Qed.
End delivered.

(** ** The connection *)


Context (laws : codec_laws codec).

Lemma write_received f b : write_frame f = Ok b → received b = Ok f.
Proof.
  unfold write_frame, received. destruct (co_encode codec f) as [b'|] eqn:He; [|done].
  destruct (MAX_FRAME <? len b') eqn:Hb; [done|]. intros [= ->]. rewrite (cl_frame _ laws _ _ He).
  apply Z.ltb_ge, Z.leb_le in Hb. by rewrite Hb.
Qed.

(** What the reply's frame lets through: a reply that does not fit ends the connection. *)
Definition delivered (f : Frame) (x : result Error ReplyWire) : result Error Reply :=
  match x with
  | Err _ => protocol "eof"
  | Ok reply =>
      match co_encode_reply codec reply with
      | None => protocol "eof"
      | Some p => if is_ok (write_frame (co_response_to codec f p)) then decode_reply reply
                  else protocol "eof"
      end
  end.

(** C17. A client call over the connection is the dispatch of its request: what is encoded, framed,
    read, checked, answered and decoded on the way is neither lost nor changed, unless the
    reply does not fit in a frame. *)
Theorem call_is_dispatch uid r p b :
  uid ≠ "" → co_encode_request codec r = Some p →
  write_frame (co_request codec PAYLOAD_PROTOCOL p 1) = Ok b →
  call uid uid r
  ≡ (x ← dispatch r; Ret (delivered (co_request codec PAYLOAD_PROTOCOL p 1) x)).
Proof.
  intros Hu Hp Hb. unfold call, handle. rewrite Hp, Hb. unfold peer_is_authorized.
  apply String.eqb_neq in Hu. rewrite Hu, String.eqb_refl.
  cbn [negb andb bind_ok prog_bind]. rewrite (write_received _ _ Hb). cbn [prog_bind].
  rewrite (cl_request_protocol _ laws), (cl_request_kind _ laws), (cl_request_plain _ laws),
    (cl_request_payload _ laws), (cl_request _ laws _ _ Hp), Z.eqb_refl. cbn [negb orb].
  etrans; [apply prog_bind_assoc|]. apply prog_bind_proper; [done|]. intros [reply|e]; [|done].
  cbn. destruct (co_encode_reply codec reply) as [q|] eqn:Hq; [|done].
  destruct (write_frame (co_response_to codec _ q)) as [b'|e] eqn:Hw; [|done].
  rewrite (write_received _ _ Hw). unfold decode_response_frame.
  rewrite (cl_response_id _ laws), (cl_response_kind _ laws), (cl_response_protocol _ laws),
    (cl_response_plain _ laws), (cl_response_payload _ laws), (cl_request_id _ laws),
    (cl_request_protocol _ laws), (cl_reply _ laws _ _ Hq), !Z.eqb_refl. reflexivity.
Qed.
End frames.

(** ** A codec

    Frames of this payload protocol and request 1, and of the messages a single one of each
    kind: enough to show that the laws can hold. *)

Record toy_frame := { tf_protocol : Z; tf_id : Z; tf_request : bool; tf_payload : string }.
Definition toy_encode (f : toy_frame) : option string :=
  if (tf_protocol f =? PAYLOAD_PROTOCOL) && (tf_id f =? 1)
  then Some (String (if tf_request f then "Q" else "R") (tf_payload f)) else None.
Definition toy_decode (b : string) : option (option (toy_frame * Z)) :=
  let frame request payload :=
    {| tf_protocol := PAYLOAD_PROTOCOL; tf_id := 1; tf_request := request; tf_payload := payload |} in
  match b with
  | "" => Some None
  | String a payload =>
      if Ascii.eqb a "Q" then Some (Some (frame true payload, len b))
      else if Ascii.eqb a "R" then Some (Some (frame false payload, len b)) else None
  end.
Definition toy_request : Request := operation OP_STOP_IF_IDLE.
Definition toy_reply : ReplyWire := reply_code 30.
Definition toy_codec : Codec toy_frame :=
  {| co_decode := toy_decode;
     co_encode := toy_encode;
     co_payload_protocol := tf_protocol;
     co_is_request := tf_request;
     co_is_response f := negb (tf_request f);
     co_plain _ := true;
     co_request_id := tf_id;
     co_payload := tf_payload;
     co_request protocol payload id :=
       {| tf_protocol := protocol; tf_id := id; tf_request := true; tf_payload := payload |};
     co_response_to f payload :=
       {| tf_protocol := tf_protocol f; tf_id := tf_id f; tf_request := false;
          tf_payload := payload |};
     co_encode_request r := if decide (r = toy_request) then Some "39" else None;
     co_decode_request s := if String.eqb s "39" then Some toy_request else None;
     co_encode_reply w := if decide (w = toy_reply) then Some "30" else None;
     co_decode_reply s := if String.eqb s "30" then Some toy_reply else None |}.

Lemma toy_laws : codec_laws toy_codec.
Proof.
  split; try done; cbn.
  - intros r s. case_decide; [|done]. intros [= <-]. by subst.
  - intros f b. unfold toy_encode. destruct (_ && _) eqn:Hf; [|done]. intros [= <-]. booleans.
    destruct f as [p i [] s]; cbn in *; by subst.
  - intros r s. case_decide; [|done]. intros [= <-]. by subst.
Qed.

Lemma call_is_dispatch_witness :
  (run (call_of (answer := d_answer)) idle_world
     (call toy_codec (λ _, Ok tt) (λ _ _, "") handoff_identity no_paths "501" "501" toy_request)
     []).1
  = Ok Shutdown.
Proof.
  rewrite (run_alike call_of idle_world _ _ []
    (call_is_dispatch toy_codec (λ _, Ok tt) (λ _ _, "") handoff_identity no_paths toy_laws
       "501" toy_request "39" "Q39" ltac:(done) ltac:(vm_compute; reflexivity)
       ltac:(vm_compute; reflexivity))).
  vm_compute. reflexivity.
Defined.
