(* ===== verification/ActRecords.v ===== *)
(** * ActRecords: the durable record of one isolated Act engine

    The types and the validation of [bosn-registry/src/act.rs] and of its modules [recovery.rs],
    [recovery_completion.rs], [source_context.rs], [spare.rs] and [socket.rs]: the frozen intent
    of an engine, the record that follows it through its life, and [decode], which accepts only
    valid records. Paths are Unix paths. SHA-256 and the JSON text of the types are [Codecs]. *)

From Stdlib Require Import Ascii SpecFloat.
From S2P Require Export Registry Text.

Local Open Scope string_scope.
Local Open Scope list_scope.
Local Open Scope Z_scope.
Local Open Scope bosn_scope.

(** ** What the code uses of [f64] and [str] *)

(** [==] of [f64]: zeros are equal, NaN equals nothing. *)
Definition f64_eq (x y : f64) : bool := SFeqb x y.
(** [f64::floor]. *)
Definition f64_floor (x : f64) : f64 :=
  match x with
  | S754_finite s m e =>
      if 0 <=? e then x else f64_of_Z ((if s then Zneg m else Zpos m) / 2 ^ (- e))
  | _ => x
  end.
Definition is_absolute (path : string) : bool := starts_with "/" path.
(** [Path::components] of an absolute path, less the root: separators and [.] parts vanish. *)
Definition components (path : string) : list string :=
  filterb (λ part, negb (part ==? "") && negb (part ==? ".")) (str_split "/" path).
(** [Path::starts_with]: whole components. *)
Fixpoint list_prefix (p l : list string) : bool :=
  match p, l with
  | [], _ => true
  | x :: p, y :: l => (x ==? y) && list_prefix p l
  | _ :: _, [] => false
  end.
Definition path_starts_with (path base : string) : bool :=
  list_prefix (components base) (components path).

Fixpoint bytes_at (p : nat → ascii → bool) (index : nat) (s : string) : bool :=
  match s with "" => true | String a s => p index a && bytes_at p (S index) s end.
Definition is_uuid (value : string) : bool :=
  (str_len value =? 36)
  && bytes_at (λ index byte,
       match index with
       | 8 | 13 | 18 | 23 => Ascii.eqb byte "-"
       | _ => is_hexdigit byte
       end%nat) 0 value.
Definition lower_hexdigit (a : ascii) : bool := is_digit a || in_range 97 102 a.
Definition hex (value : string) (len : Z) : bool :=
  (str_len value =? len) && all_bytes lower_hexdigit value.
Definition canonical_run (run : string) : result RegError unit :=
  refuse (negb (is_uuid run) || negb (run ==? to_ascii_lowercase run)) (BadRow "act run UUID").

(** ** Creation profiles *)

Inductive ActEngineTmpfsPolicy :=
| StorageExecRunTmpNoexecV1
| DiskStorageRunTmpNoexecV1
| NamedDiskStorageRunTmpNoexecV2.
Inductive ActCacheCoordination := SharedLegacyLeaseV1.
Record ActEngineCacheVolume := { cv_name : string; cv_target : string }.
Record ActToolGenerationBinding := {
  tg_id : string;
  tg_max_payload_bytes : Z;
  tg_overlay_recipe_sha256 : string;
}.
Record ActEngineDockerSocket := { sk_host_dir : string; sk_group : Z }.
Record ActEngineCreationProfile := {
  pr_memory_bytes : Z;
  pr_storage_bytes : Z;
  pr_nano_cpus : Z;
  pr_pids : Z;
  pr_run_tmpfs_bytes : Z;
  pr_tmp_tmpfs_bytes : Z;
  pr_tmpfs_policy : ActEngineTmpfsPolicy;
  pr_init_command_sha256 : string;
  pr_cache_volume : option ActEngineCacheVolume;
  pr_cache_coordination : option ActCacheCoordination;
  pr_tool_generation : option ActToolGenerationBinding;
  pr_docker_socket : option ActEngineDockerSocket;
}.
#[global] Instance ActEngineTmpfsPolicy_eq_dec : EqDecision ActEngineTmpfsPolicy.
Proof. solve_decision. Defined.
#[global] Instance ActCacheCoordination_eq_dec : EqDecision ActCacheCoordination.
Proof. solve_decision. Defined.
#[global] Instance ActEngineCacheVolume_eq_dec : EqDecision ActEngineCacheVolume.
Proof. solve_decision. Defined.
#[global] Instance ActToolGenerationBinding_eq_dec : EqDecision ActToolGenerationBinding.
Proof. solve_decision. Defined.
#[global] Instance ActEngineDockerSocket_eq_dec : EqDecision ActEngineDockerSocket.
Proof. solve_decision. Defined.
#[global] Instance ActEngineCreationProfile_eq_dec : EqDecision ActEngineCreationProfile.
Proof. solve_decision. Defined.

Definition storage_in_memory (p : ActEngineTmpfsPolicy) : bool := p ==? StorageExecRunTmpNoexecV1.

Definition reserved_targets : list string :=
  ["/var/lib/docker"; "/run"; "/tmp"; "/proc"; "/sys"; "/dev"; "/etc"].
Definition cache_volume_validate (v : ActEngineCacheVolume) : result RegError unit :=
  let name_ok :=
    (1 <=? str_len (cv_name v)) && (str_len (cv_name v) <=? 64)
    && bytes_at (λ i b, in_range 97 122 b || is_digit b
         || (negb (Nat.eqb i 0)
             && (Ascii.eqb b "-" || Ascii.eqb b "_" || Ascii.eqb b "."))) 0 (cv_name v) in
  let target := cv_target v in
  let target_ok :=
    (str_len target <=? 256) && is_absolute target
    && negb (existsb (λ part, part ==? "..") (components target))
    && negb (components target ==? [])
    && negb (bool_decide (is_Some (strip_suffix "/" target)))
    && negb (existsb (λ reserved,
         path_starts_with target reserved || path_starts_with reserved target) reserved_targets) in
  refuse (negb name_ok || negb target_ok) (BadRow "act cache volume").

Definition generation_binding_validate (g : ActToolGenerationBinding) : result RegError unit :=
  refuse (negb (hex (tg_id g) 64) || negb (hex (tg_overlay_recipe_sha256 g) 64)
          || (tg_max_payload_bytes g =? 0) || (i64_max <? tg_max_payload_bytes g))
    (BadRow "act tool generation binding").

Definition SOCKET_DIR_MAX : Z := 80.
Definition docker_socket_validate (s : ActEngineDockerSocket) : result RegError unit :=
  let dir := sk_host_dir s in
  let clean :=
    (str_len dir <=? SOCKET_DIR_MAX) && (1 <? str_len dir) && starts_with "/" dir
    && negb (bool_decide (is_Some (strip_suffix "/" dir)))
    && all_bytes (λ b, is_ascii_alphanumeric b || Ascii.eqb b "/" || Ascii.eqb b "-"
                       || Ascii.eqb b "_" || Ascii.eqb b ".") dir
    && forallb (λ part, negb (part ==? "") && negb (part ==? ".") && negb (part ==? ".."))
         (str_split "/" (default "" (strip_prefix "/" dir))) in
  refuse (negb clean) (BadRow "act engine docker socket directory").

Definition profile_validate (p : ActEngineCreationProfile) : result RegError unit :=
  let? _ := match pr_tool_generation p with
            | Some generation =>
                let? _ := generation_binding_validate generation in
                refuse (negb (bool_decide (is_Some (pr_cache_volume p)))
                        || negb (bool_decide (is_Some (pr_cache_coordination p))))
                  (BadRow "tool generation without coordinated cache")
            | None => Ok tt
            end in
  let? _ := refuse (bool_decide (is_Some (pr_cache_coordination p))
                    && negb (bool_decide (is_Some (pr_cache_volume p))))
              (BadRow "cache coordination without shared cache") in
  let? _ := from_option cache_volume_validate (Ok tt) (pr_cache_volume p) in
  let? _ := from_option docker_socket_validate (Ok tt) (pr_docker_socket p) in
  let in_memory := if storage_in_memory (pr_tmpfs_policy p) then pr_storage_bytes p else 0 in
  let reserved :=
    v ← checked_add in_memory (pr_run_tmpfs_bytes p);
    v ← checked_add v (pr_tmp_tmpfs_bytes p);
    checked_add v (Z.shiftl 512 20) in
  refuse
    ((pr_storage_bytes p <? Z.shiftl 1 20) || (i64_max <? pr_storage_bytes p)
     || (i64_max <? pr_memory_bytes p)
     || is_none_or reserved (λ v, pr_memory_bytes p <? v)
     || (pr_run_tmpfs_bytes p <? Z.shiftl 1 20) || (Z.shiftl 256 20 <? pr_run_tmpfs_bytes p)
     || (pr_tmp_tmpfs_bytes p <? Z.shiftl 1 20) || (Z.shiftl 1 30 <? pr_tmp_tmpfs_bytes p)
     || (pr_nano_cpus p <? 1000000) || (256000000000 <? pr_nano_cpus p)
     || negb (pr_nano_cpus p mod 10000 =? 0)
     || (pr_pids p =? 0) || (65536 <? pr_pids p)
     || negb (hex (pr_init_command_sha256 p) 64))
    (BadRow "act creation profile").

(** ** Intents and records *)

Record ActEngineBinding := {
  bi_run_id : string;
  bi_workspace : string;
  bi_candidate_sha : string;
  bi_payload_sha256 : string;
  bi_snapshot_sha256 : string;
}.
Record ActEngineIntent := {
  ai_run_id : string;
  ai_workspace : string;
  ai_candidate_sha : string;
  ai_payload_sha256 : string;
  ai_snapshot_sha256 : string;
  ai_act_version : string;
  ai_act_image_digest : string;
  ai_engine_image_digest : string;
  ai_runner_image_digest : string;
  ai_created_at : f64;
  ai_creation_profile : option ActEngineCreationProfile;
  ai_spare : bool;
}.
Inductive ActEngineState := Pending | Registered | CleanupRequired | Terminal.
Inductive ActRunOutcome := Passed | Failed | Cancelled | Interrupted.
Record ActToolRecoveryIntent := {
  ti_schema_version : Z;
  ti_owner : string;
  ti_engine_id : string;
  ti_source_volume : string;
  ti_cache_volume : string;
  ti_generation : string;
  ti_created_at_seconds : Z;
  ti_expires_at_seconds : Z;
}.
Record ActToolRecoveryCompletion := {
  tc_generation : string;
  tc_completed_at : f64;
  tc_reference_released_at : option f64;
}.
Record ActEngineRemovalProof := {
  rp_storage_volume : option string;
  rp_name : string;
  rp_engine_id : option string;
}.
Record ActEngineRecord := mkActEngineRecord {
  ar_schema_version : Z;
  ar_registry_id : string;
  ar_intent : ActEngineIntent;
  ar_state : ActEngineState;
  ar_engine_id : option string;
  ar_execution : option ActRunOutcome;
  ar_execution_claim : option string;
  ar_outcome : option ActRunOutcome;
  ar_updated_at : f64;
  ar_removal : option ActEngineRemovalProof;
  ar_binding : option ActEngineBinding;
  ar_tool_recovery : option ActToolRecoveryIntent;
  ar_reserved_at : option f64;
  ar_source_stopped_at : option f64;
  ar_completion : option ActToolRecoveryCompletion;
  ar_source_disposal_at : option f64;
  ar_create_requested : option bool;
}.
Record ActEngineObservation := {
  ob_name : string;
  ob_engine_id : string;
  ob_image_digest : string;
  ob_labels : gmap string string;
}.
Record ActToolSourceContext := {
  sx_schema_version : Z;
  sx_registry_id : string;
  sx_intent : ActEngineIntent;
  sx_recovery : ActToolRecoveryIntent;
}.
#[global] Instance ActEngineBinding_eq_dec : EqDecision ActEngineBinding.
Proof. solve_decision. Defined.
#[global] Instance ActEngineState_eq_dec : EqDecision ActEngineState.
Proof. solve_decision. Defined.
#[global] Instance ActRunOutcome_eq_dec : EqDecision ActRunOutcome.
Proof. solve_decision. Defined.
#[global] Instance ActToolRecoveryIntent_eq_dec : EqDecision ActToolRecoveryIntent.
Proof. solve_decision. Defined.
#[global] Instance ActEngineRemovalProof_eq_dec : EqDecision ActEngineRemovalProof.
Proof. solve_decision. Defined.
#[global] Instance ActEngineIntent_eq_dec : EqDecision ActEngineIntent.
Proof. solve_decision. Defined.

(** Field update of a record: [r <| field := v |>]. *)
Definition record_eta (r : ActEngineRecord) : ActEngineRecord :=
  mkActEngineRecord (ar_schema_version r) (ar_registry_id r) (ar_intent r) (ar_state r)
    (ar_engine_id r) (ar_execution r) (ar_execution_claim r) (ar_outcome r) (ar_updated_at r)
    (ar_removal r) (ar_binding r) (ar_tool_recovery r) (ar_reserved_at r)
    (ar_source_stopped_at r) (ar_completion r) (ar_source_disposal_at r) (ar_create_requested r).
Declare Scope act_scope.
Delimit Scope act_scope with act.
Notation "r <| p := v |>" := (ltac:(record_with record_eta p) v r : ActEngineRecord)
  (at level 12, left associativity, only parsing) : act_scope.

(** The derived [PartialEq] of an intent, whose time is an [f64]. *)
Definition with_created (i : ActEngineIntent) (t : f64) : ActEngineIntent :=
  {| ai_run_id := ai_run_id i; ai_workspace := ai_workspace i;
     ai_candidate_sha := ai_candidate_sha i; ai_payload_sha256 := ai_payload_sha256 i;
     ai_snapshot_sha256 := ai_snapshot_sha256 i; ai_act_version := ai_act_version i;
     ai_act_image_digest := ai_act_image_digest i;
     ai_engine_image_digest := ai_engine_image_digest i;
     ai_runner_image_digest := ai_runner_image_digest i; ai_created_at := t;
     ai_creation_profile := ai_creation_profile i; ai_spare := ai_spare i |}.
Definition intent_eq (i j : ActEngineIntent) : bool :=
  (with_created i f64_zero ==? with_created j f64_zero)
  && f64_eq (ai_created_at i) (ai_created_at j).

Definition engine_name (i : ActEngineIntent) : string := "bosn-act-" +:+ ai_run_id i.
Definition storage_volume_name (i : ActEngineIntent) : option string :=
  match ai_creation_profile i with
  | Some profile =>
      if pr_tmpfs_policy profile ==? NamedDiskStorageRunTmpNoexecV2
      then Some ("bosn-act-storage-" +:+ ai_run_id i) else None
  | None => None
  end.

Definition ZERO_SHA : string := "0000000000000000000000000000000000000000".
Definition ZERO_SHA256 : string :=
  "0000000000000000000000000000000000000000000000000000000000000000".
Definition binding_spare (run_id workspace : string) : ActEngineBinding :=
  {| bi_run_id := run_id; bi_workspace := workspace; bi_candidate_sha := ZERO_SHA;
     bi_payload_sha256 := ZERO_SHA256; bi_snapshot_sha256 := ZERO_SHA256 |}.
Definition binding_of (i : ActEngineIntent) : ActEngineBinding :=
  {| bi_run_id := ai_run_id i; bi_workspace := ai_workspace i;
     bi_candidate_sha := ai_candidate_sha i; bi_payload_sha256 := ai_payload_sha256 i;
     bi_snapshot_sha256 := ai_snapshot_sha256 i |}.

Definition workspace_ok (w : string) : bool :=
  negb (w ==? "") && (str_len w <=? 4096) && all_bytes (λ a, negb (Ascii.eqb a nul)) w
  && is_absolute w.
Definition binding_validate (b : ActEngineBinding) : result RegError unit :=
  let? _ := canonical_run (bi_run_id b) in
  refuse (negb (workspace_ok (bi_workspace b)) || negb (hex (bi_candidate_sha b) 40)
          || negb (hex (bi_payload_sha256 b) 64) || negb (hex (bi_snapshot_sha256 b) 64))
    (BadRow "act run binding").

Definition with_host_dir (p : ActEngineCreationProfile) : ActEngineCreationProfile :=
  {| pr_memory_bytes := pr_memory_bytes p; pr_storage_bytes := pr_storage_bytes p;
     pr_nano_cpus := pr_nano_cpus p; pr_pids := pr_pids p;
     pr_run_tmpfs_bytes := pr_run_tmpfs_bytes p; pr_tmp_tmpfs_bytes := pr_tmp_tmpfs_bytes p;
     pr_tmpfs_policy := pr_tmpfs_policy p; pr_init_command_sha256 := pr_init_command_sha256 p;
     pr_cache_volume := pr_cache_volume p; pr_cache_coordination := pr_cache_coordination p;
     pr_tool_generation := pr_tool_generation p;
     pr_docker_socket :=
       (λ s, {| sk_host_dir := ""; sk_group := sk_group s |}) <$> pr_docker_socket p |}.
Definition same_engine (i j : ActEngineIntent) : bool :=
  let shape intent := with_host_dir <$> ai_creation_profile intent in
  (ai_act_version i ==? ai_act_version j) && (ai_act_image_digest i ==? ai_act_image_digest j)
  && (ai_engine_image_digest i ==? ai_engine_image_digest j)
  && (ai_runner_image_digest i ==? ai_runner_image_digest j)
  && bool_decide (is_Some (ai_creation_profile i)) && (shape i ==? shape j).

Definition sha256_digest (v : string) : bool :=
  is_some_and (strip_prefix "sha256:" v) (λ v, hex v 64).
Definition intent_validate (i : ActEngineIntent) : result RegError unit :=
  let? _ := canonical_run (ai_run_id i) in
  let? _ := from_option profile_validate (Ok tt) (ai_creation_profile i) in
  let? _ := refuse (ai_spare i
              && (negb (bool_decide (is_Some (ai_creation_profile i)))
                  || negb (binding_of i ==? binding_spare (ai_run_id i) (ai_workspace i))))
              (BadRow "act spare intent") in
  refuse
    (negb (workspace_ok (ai_workspace i))
     || negb (hex (ai_candidate_sha i) 40) || negb (hex (ai_payload_sha256 i) 64)
     || negb (hex (ai_snapshot_sha256 i) 64)
     || negb (is_finite (ai_created_at i)) || f64_lt (ai_created_at i) f64_zero
     || (ai_act_version i ==? "") || (32 <? str_len (ai_act_version i))
     || negb (all_bytes (λ b, is_ascii_alphanumeric b || Ascii.eqb b "." || Ascii.eqb b "-")
                (ai_act_version i))
     || existsb (λ v, negb (sha256_digest v))
          [ai_act_image_digest i; ai_engine_image_digest i; ai_runner_image_digest i])
    (BadRow "act immutable intent").

(** ** Tool recovery *)

Definition is_live (t : ActToolRecoveryIntent) (now : f64) : bool :=
  negb (is_finite now) || f64_lt now (f64_of_Z (ti_expires_at_seconds t)).
Definition retains_tool_recovery_source (r : ActEngineRecord) (at_ : f64) : bool :=
  is_some_and (ar_tool_recovery r) (λ intent,
    is_live intent at_
    && is_none_or (ar_completion r)
         (λ done, negb (bool_decide (is_Some (tc_reference_released_at done))))).

(** The JSON text of the types ([serde_json]), SHA-256 in hexadecimal ([kernal_api]) and the
    decimal text of an [f64] ([Display] and [parse]). [owner_json] is the text of a tuple of four strings. *)
Class Codecs := {
  profile_json : ActEngineCreationProfile → option string;
  owner_json : string → string → string → string → option string;
  engine_json : ActEngineRecord → option string;
  engine_parse : string → option ActEngineRecord;
  sha256_hex : string → string;
  f64_text : f64 → string;
  f64_of_text : string → option f64;
}.

Section codecs.
Context `{!Codecs}.

Definition profile_digest (p : ActEngineCreationProfile) : result RegError string :=
  let? _ := profile_validate p in
  let? text := ok_or (profile_json p) (BadRow "act profile JSON") in
  Ok (sha256_hex ("bosn.act.engine-creation-profile.v1" +:+ String nul "" +:+ text)).

Definition act_label (key : string) : string := "com.zackees.bosn.act." +:+ key.
Definition required_labels (i : ActEngineIntent) (owner : string) :
    result RegError (gmap string string) :=
  let? _ := intent_validate i in
  let? _ := refuse (negb (is_uuid owner)) (BadRow "act registry UUID") in
  let? labels :=
    match ResourceLabels_new owner Container "act" (ai_run_id i) Spec (ai_workspace i)
            (f64_text (ai_created_at i)) (Some Warm) with
    | Ok l => Ok (to_map l)
    | Err _ => Err (BadRow "act ownership labels")
    end in
  let labels := foldl (λ m kv, <[act_label kv.1 := kv.2]> m) labels
    [("namespace", "act-engine-v1"); ("run-id", ai_run_id i);
     ("candidate-sha", ai_candidate_sha i); ("payload-sha256", ai_payload_sha256 i);
     ("snapshot-sha256", ai_snapshot_sha256 i); ("engine-image", ai_engine_image_digest i);
     ("act-image", ai_act_image_digest i); ("runner-image", ai_runner_image_digest i);
     ("act-version", ai_act_version i)] in
  let labels := if ai_spare i then <[act_label "spare" := "true"]> labels else labels in
  match ai_creation_profile i with
  | None => Ok labels
  | Some profile =>
      let labels :=
        if bool_decide (is_Some (pr_cache_coordination profile))
        then <[act_label "cache-coordination" := "shared-legacy-lease-v1"]> labels else labels in
      let? digest := profile_digest profile in
      Ok (<[act_label "init-command-sha256" := pr_init_command_sha256 profile]>
            (<[act_label "creation-profile-sha256" := digest]> labels))
  end.

Definition from_engine_intent (registry_id : string) (i : ActEngineIntent) (engine : string)
    (created expires : Z) : result RegError ActToolRecoveryIntent :=
  let? _ := refuse ((created <? 0) || (expires <=? created) || (86400 <? expires - created)
                    || (Z.shiftl 1 53 <? expires)) (BadRow "tool recovery finite lifetime") in
  let? profile := ok_or (ai_creation_profile i) (BadRow "tool recovery profile") in
  let? generation := ok_or (pr_tool_generation profile) (BadRow "tool recovery lower") in
  let? cache := ok_or (pr_cache_volume profile) (BadRow "tool recovery cache volume") in
  let? source := ok_or (storage_volume_name i)
                   (BadRow "tool recovery needs persistent named source storage") in
  let? digest := profile_digest profile in
  let? text := ok_or (owner_json registry_id (ai_run_id i) engine digest)
                 (BadRow "tool recovery owner encoding") in
  Ok {| ti_schema_version := 1;
        ti_owner := sha256_hex ("bosn.act.tool-recovery-owner.v1" +:+ String nul "" +:+ text);
        ti_engine_id := engine; ti_source_volume := source; ti_cache_volume := cv_name cache;
        ti_generation := tg_id generation; ti_created_at_seconds := created;
        ti_expires_at_seconds := expires |}.
Definition from_record (r : ActEngineRecord) (created expires : Z) :
    result RegError ActToolRecoveryIntent :=
  let? engine := ok_or (ar_engine_id r) (BadRow "tool recovery engine identity") in
  from_engine_intent (ar_registry_id r) (ar_intent r) engine created expires.

Definition validate_engine_intent (t : ActToolRecoveryIntent) (registry_id : string)
    (i : ActEngineIntent) : result RegError unit :=
  let? _ := intent_validate i in
  let? expected := from_engine_intent registry_id i (ti_engine_id t) (ti_created_at_seconds t)
                     (ti_expires_at_seconds t) in
  refuse (negb (t ==? expected)
          || negb (all_bytes (λ b, is_hexdigit b && negb (in_range 65 90 b)) (ti_engine_id t))
          || negb (str_len (ti_engine_id t) =? 64)
          || f64_lt (f64_of_Z (ti_created_at_seconds t)) (f64_floor (ai_created_at i)))
    (BadRow "tool recovery frozen engine intent").
Definition recovery_validate_record (t : ActToolRecoveryIntent) (r : ActEngineRecord) :
    result RegError unit :=
  let? expected := from_record r (ti_created_at_seconds t) (ti_expires_at_seconds t) in
  refuse (negb (t ==? expected)
          || f64_gt (f64_of_Z (ti_created_at_seconds t)) (ar_updated_at r)
          || f64_lt (f64_of_Z (ti_created_at_seconds t))
               (f64_floor (ai_created_at (ar_intent r))))
    (BadRow "tool recovery frozen identity").

Definition source_context_validate (x : ActToolSourceContext) : result RegError unit :=
  let? _ := refuse (negb (sx_schema_version x =? 1)
                    || (ti_source_volume (sx_recovery x) ==? ti_cache_volume (sx_recovery x)))
              (BadRow "source context schema differs") in
  let? _ := required_labels (sx_intent x) (sx_registry_id x) in
  validate_engine_intent (sx_recovery x) (sx_registry_id x) (sx_intent x).
Definition source_context_from_record (r : ActEngineRecord) :
    result RegError ActToolSourceContext :=
  let? recovery := ok_or (ar_tool_recovery r) (BadRow "source recovery intent missing") in
  let? _ := recovery_validate_record recovery r in
  let context := {| sx_schema_version := 1; sx_registry_id := ar_registry_id r;
                    sx_intent := ar_intent r; sx_recovery := recovery |} in
  let? _ := source_context_validate context in
  Ok context.

(** ** Valid records *)

Definition cleaning (s : ActEngineState) : bool := (s ==? CleanupRequired) || (s ==? Terminal).
Definition validate_tool_recovery (r : ActEngineRecord) : result RegError unit :=
  let? _ := refuse (is_some_and (ar_reserved_at r) (λ at_,
      negb (is_finite at_) || f64_gt at_ (ar_updated_at r)
      || is_none_or (ar_tool_recovery r) (λ intent,
           f64_lt at_ (f64_of_Z (ti_created_at_seconds intent))
           || f64_ge at_ (f64_of_Z (ti_expires_at_seconds intent)))))
    (BadRow "tool recovery reservation acknowledgement") in
  let? _ := refuse (is_some_and (ar_source_stopped_at r) (λ at_,
      negb (is_finite at_) || f64_gt at_ (ar_updated_at r)
      || is_none_or (ar_reserved_at r) (λ reserved, f64_lt at_ reserved)
      || negb (cleaning (ar_state r))))
    (BadRow "tool recovery source stop snapshot") in
  let? _ := from_option (λ intent, recovery_validate_record intent r) (Ok tt)
              (ar_tool_recovery r) in
  let? _ := refuse (is_some_and (ar_completion r) (λ done,
      negb (hex (tc_generation done) 64) || negb (is_finite (tc_completed_at done))
      || f64_gt (tc_completed_at done) (ar_updated_at r)
      || is_none_or (ar_source_stopped_at r) (λ stopped, f64_gt stopped (tc_completed_at done))
      || is_none_or (ar_tool_recovery r) (λ intent, negb (is_live intent (tc_completed_at done)))
      || is_some_and (tc_reference_released_at done) (λ at_,
           negb (is_finite at_) || f64_lt at_ (tc_completed_at done)
           || f64_gt at_ (ar_updated_at r))))
    (BadRow "tool recovery completion snapshot") in
  let? _ := refuse (is_some_and (ar_source_disposal_at r) (λ at_,
      negb (is_finite at_) || f64_gt at_ (ar_updated_at r)
      || negb (bool_decide (is_Some (ar_tool_recovery r)))
      || retains_tool_recovery_source r at_
      || negb (cleaning (ar_state r))))
    (BadRow "tool recovery source disposal snapshot") in
  refuse ((ar_state r ==? Terminal) && retains_tool_recovery_source r (ar_updated_at r))
    (BadRow "terminal engine retains recovery source").

Definition is_err {E A} (x : result E A) : bool := negb (is_ok x).
Definition has {A} (o : option A) : bool := bool_decide (is_Some o).
Definition record_validate (r : ActEngineRecord) : result RegError unit :=
  let? _ := intent_validate (ar_intent r) in
  let? _ := validate_tool_recovery r in
  let? _ := refuse
    (negb (Bool.eqb (ar_state r ==? Terminal) (has (ar_removal r)))
     || is_some_and (ar_removal r) (λ p,
          negb (rp_name p ==? engine_name (ar_intent r))
          || negb (rp_engine_id p ==? ar_engine_id r)
          || negb (rp_storage_volume p ==? storage_volume_name (ar_intent r))))
    (BadRow "act removal snapshot") in
  let modern := (ar_schema_version r =? 2) || (ar_schema_version r =? 3) in
  refuse
    (negb ((1 <=? ar_schema_version r) && (ar_schema_version r <=? 3))
     || negb (Bool.eqb (ar_schema_version r =? 3) (has (ai_creation_profile (ar_intent r))))
     || ((ar_schema_version r =? 1) && has (ar_execution_claim r))
     || is_some_and (ar_execution_claim r) (λ token,
          is_err (canonical_run token) || negb (has (ar_engine_id r)) || (ar_state r ==? Pending))
     || (modern && has (ar_execution r) && negb (has (ar_execution_claim r)))
     || negb (is_uuid (ar_registry_id r))
     || negb (is_finite (ar_updated_at r))
     || f64_lt (ar_updated_at r) (ai_created_at (ar_intent r))
     || is_some_and (ar_engine_id r) (λ v, negb (hex v 64))
     || (negb (has (ar_engine_id r)) && has (ar_execution r))
     || ((ar_state r ==? Pending) && (has (ar_engine_id r) || has (ar_outcome r)))
     || ((ar_state r ==? Registered) && (negb (has (ar_engine_id r)) || has (ar_outcome r)))
     || (cleaning (ar_state r) && negb (has (ar_outcome r)))
     || ((ar_outcome r ==? Some Passed)
         && (negb (has (ar_engine_id r)) || negb (ar_execution r ==? Some Passed)))
     || is_some_and (ar_binding r) (λ binding,
          negb (ai_spare (ar_intent r)) || negb (has (ar_execution_claim r))
          || is_err (binding_validate binding)))
    (BadRow "act state snapshot").

Definition check_time (r : ActEngineRecord) (at_ : f64) : result RegError unit :=
  refuse (negb (is_finite at_) || f64_lt at_ (ar_updated_at r)) (BadRow "act transition time").

Definition decode (detail run : string) : result RegError ActEngineRecord :=
  let? record := ok_or (engine_parse detail) (BadRow "act state JSON") in
  let? _ := record_validate record in
  let? _ := refuse (negb (ai_run_id (ar_intent record) ==? run)) (BadRow "act event identity") in
  Ok record.
End codecs.

Definition ACT_PREFIX : string := "act.engine.v1:".
Definition ACT_RECORD_BYTES : Z := 32768.
Definition act_kind (run : string) : result RegError string :=
  let? _ := canonical_run run in Ok (ACT_PREFIX +:+ run).
