(* ===== verification/CacheHelpers.v ===== *)
(** * CacheHelpers: the durable record of a temporary cache container

    The types and validation of [bosn-registry/src/cache_helper.rs]: what a helper container is
    for, which engine and which source volume it is bound to, and [helper_decode], which accepts
    only valid records of the registry's own helpers. *)

From Stdlib Require Import Ascii.
From S2P Require Export ActRecords.

Local Open Scope string_scope.
Local Open Scope list_scope.
Local Open Scope Z_scope.
Local Open Scope bosn_scope.

Definition HELPER_PREFIX : string := "ci.cache-helper.v1:".
Definition HELPER_RECORD_BYTES : Z := 24576.
Definition MAX_HELPER_PAGE : Z := 64.
Definition LATE_CREATE_WINDOW_SECS : f64 := f64_of_Z 630.

Inductive CacheHelperRole :=
| MaintenanceV1
| ToolSourceFinalizationV1 (context : ActToolSourceContext) (context_id command_sha256 : string)
    (source_mountpoint : option string)
| ToolRecoveryV1 (run_id : string) (intent : ActToolRecoveryIntent)
    (command_sha256 source_mountpoint : option string)
| ToolRecoveryReleaseV1 (run_id : string) (intent : ActToolRecoveryIntent)
    (command_sha256 : string)
| ToolRecoveryDisposalV1 (run_id : string) (intent : ActToolRecoveryIntent)
    (command_sha256 : string).
Inductive RecoveryHelperPhase := Publish | Release | Dispose.
#[global] Instance RecoveryHelperPhase_eq_dec : EqDecision RecoveryHelperPhase.
Proof. solve_decision. Defined.
Record RecoveryHelperBinding := {
  rb_run_id : string;
  rb_intent : ActToolRecoveryIntent;
  rb_command_sha256 : option string;
  rb_phase : RecoveryHelperPhase;
  rb_source_mountpoint : option string;
}.
Definition recovery_binding (role : CacheHelperRole) : option RecoveryHelperBinding :=
  match role with
  | MaintenanceV1 | ToolSourceFinalizationV1 _ _ _ _ => None
  | ToolRecoveryV1 run intent command source =>
      Some {| rb_run_id := run; rb_intent := intent; rb_command_sha256 := command;
              rb_phase := Publish; rb_source_mountpoint := source |}
  | ToolRecoveryReleaseV1 run intent command =>
      Some {| rb_run_id := run; rb_intent := intent; rb_command_sha256 := Some command;
              rb_phase := Release; rb_source_mountpoint := None |}
  | ToolRecoveryDisposalV1 run intent command =>
      Some {| rb_run_id := run; rb_intent := intent; rb_command_sha256 := Some command;
              rb_phase := Dispose; rb_source_mountpoint := None |}
  end.

Record CacheHelperIntent := {
  hi_registry_id : string;
  hi_nonce : string;
  hi_volume : string;
  hi_image : string;
  hi_created_at : f64;
  hi_role : option CacheHelperRole;
}.
Inductive CacheHelperState := HPending | HCreated | HRemoved.
#[global] Instance CacheHelperState_eq_dec : EqDecision CacheHelperState.
Proof. solve_decision. Defined.
Record CacheHelperRecord := mkHelperRecord {
  hr_schema_version : Z;
  hr_intent : CacheHelperIntent;
  hr_state : CacheHelperState;
  hr_container_id : option string;
  hr_updated_at : f64;
}.

(** [helper.intent.role.as_ref().and_then(CacheHelperRole::recovery_binding)]. *)
Definition helper_binding (i : CacheHelperIntent) : option RecoveryHelperBinding :=
  hi_role i ≫= recovery_binding.

Definition helper_name (i : CacheHelperIntent) : string :=
  let role := match hi_role i with
              | None => "measure"
              | Some MaintenanceV1 => "maintain"
              | Some (ToolSourceFinalizationV1 _ _ _ _) => "finalize-source"
              | Some (ToolRecoveryV1 _ _ _ _) => "recover"
              | Some (ToolRecoveryReleaseV1 _ _ _) => "release"
              | Some (ToolRecoveryDisposalV1 _ _ _) => "dispose"
              end in
  "bosn-cache-" +:+ role +:+ "-" +:+ hi_nonce i.

Definition helper_kind (nonce : string) : result RegError string :=
  let? _ := refuse (negb (is_uuid nonce) || negb (nonce ==? to_ascii_lowercase nonce))
              (BadRow "cache helper nonce") in
  Ok (HELPER_PREFIX +:+ nonce).
Definition hex_id (value : string) : bool := hex value 64.

(** [char::is_control] or a character [--mount] would read, over the UTF-8 bytes: the controls
    are U+0000 to U+001F and U+007F to U+009F. *)
Fixpoint mount_unsafe (s : string) : bool :=
  match s with
  | "" => false
  | String a rest =>
      (code a <? 32) || (code a =? 127) || Ascii.eqb a "," || (code a =? 34) || (code a =? 92)
      || ((code a =? 194)
          && match rest with String b _ => in_range 128 159 b | "" => false end)
      || mount_unsafe rest
  end.
Definition valid_recovery_source_mountpoint (path : string) : bool :=
  (str_len path <=? 4096) && starts_with "/" path && negb (path ==? "/")
  && negb (mount_unsafe path)
  && forallb (λ part, negb (part ==? "") && negb (part ==? ".") && negb (part ==? ".."))
       (drop 1 (str_split "/" path)).

Class HelperCodecs := {
  helper_json : CacheHelperRecord → option string;
  helper_parse : string → option CacheHelperRecord;
}.

Section helpers.
Context `{!Codecs, !HelperCodecs}.

Definition docker_image (digest : string) : string := "docker.io/library/docker@" +:+ digest.
Definition helper_intent_validate (i : CacheHelperIntent) : result RegError unit :=
  let digest := strip_prefix "docker.io/library/docker@sha256:" (hi_image i) in
  let? _ := refuse
    (negb (is_uuid (hi_registry_id i)) || is_err (helper_kind (hi_nonce i))
     || negb (is_finite (hi_created_at i)) || f64_lt (hi_created_at i) f64_zero
     || is_none_or digest (λ digest, negb (hex_id digest)))
    (BadRow "cache helper intent") in
  let? _ := match hi_role i with
            | Some (ToolSourceFinalizationV1 context context_id command mountpoint) =>
                let? _ := source_context_validate context in
                refuse
                  (negb (hex_id context_id) || negb (hex_id command)
                   || is_some_and mountpoint (λ p, negb (valid_recovery_source_mountpoint p))
                   || negb (hi_volume i ==? ti_cache_volume (sx_recovery context))
                   || f64_lt (hi_created_at i) (ai_created_at (sx_intent context))
                   || negb (hi_image i
                            ==? docker_image (ai_engine_image_digest (sx_intent context))))
                  (BadRow "source finalization helper identity")
            | _ => Ok tt
            end in
  let? _ := match helper_binding i with
            | Some binding =>
                let intent := rb_intent binding in
                let? _ := refuse
                  (is_some_and (rb_source_mountpoint binding)
                     (λ p, negb (valid_recovery_source_mountpoint p))
                   || is_some_and (rb_command_sha256 binding) (λ h, negb (hex_id h))
                   || negb (is_uuid (rb_run_id binding))
                   || negb (ti_schema_version intent =? 1)
                   || negb (hex_id (ti_owner intent)) || negb (hex_id (ti_generation intent))
                   || negb (hex_id (ti_engine_id intent))
                   || negb (ti_cache_volume intent ==? hi_volume i)
                   || (ti_source_volume intent ==? hi_volume i)
                   || (ti_created_at_seconds intent <? 0)
                   || (ti_expires_at_seconds intent <=? ti_created_at_seconds intent)
                   || (86400 <? ti_expires_at_seconds intent - ti_created_at_seconds intent)
                   || (Z.shiftl 1 53 <? ti_expires_at_seconds intent))
                  (BadRow "recovery helper frozen source") in
                cache_volume_validate
                  {| cv_name := ti_source_volume intent; cv_target := "/source" |}
            | None => Ok tt
            end in
  cache_volume_validate {| cv_name := hi_volume i; cv_target := "/cache" |}.

Definition helper_decode (detail nonce owner : string) : result RegError CacheHelperRecord :=
  let? record := ok_or (helper_parse detail) (BadRow "cache helper snapshot JSON") in
  let? _ := helper_intent_validate (hr_intent record) in
  let? _ := refuse
    (negb (hr_schema_version record =? 1) || negb (hi_nonce (hr_intent record) ==? nonce)
     || negb (is_finite (hr_updated_at record))
     || f64_lt (hr_updated_at record) (hi_created_at (hr_intent record))
     || match hr_state record with
        | HPending => has (hr_container_id record)
        | HCreated => negb (has (hr_container_id record))
        | HRemoved => false
        end
     || is_some_and (hr_container_id record) (λ id, negb (hex_id id)))
    (BadRow "cache helper snapshot") in
  let? _ := refuse (negb (hi_registry_id (hr_intent record) ==? owner)) ResourceIdentityConflict in
  Ok record.
End helpers.
