(* ===== verification/CiState.v ===== *)
(** * CiState: current CI authority and its bounded audit tail

    The model of [bosn-registry/src/ci_state.rs] and its modules [retention.rs] and
    [recovery_capacity.rs]: the table [ci_current] with the newest snapshot of every engine and
    helper, the table [ci_snapshot_events] with the newest events of each, the admission of new
    identities, and the pass that forgets settled ones behind a floor. The file sizes and the
    clock an admission reads are in [World]. *)

From Stdlib Require Import Ascii SpecFloat.
From S2P Require Export CacheHelpers.

Local Open Scope string_scope.
Local Open Scope list_scope.
Local Open Scope Z_scope.
Local Open Scope bosn_scope.

(** ** Tables *)

Definition ENGINE : Z := 1.
Definition HELPER : Z := 2.
Definition AUDIT_TAIL : nat := 3.

(** A row of [ci_current]. *)
Record Snapshot := {
  sn_family : Z;
  sn_id : string;
  sn_detail : string;
  sn_pending : bool;
  sn_tools_pending : bool;
  sn_source : option string;
  sn_release_owner : option string;
  sn_engine_run : option string;
  sn_created_at : f64;
  sn_updated_at : f64;
  sn_collectible : bool;
  sn_collect_after : f64;
}.
Inductive WriteMode := Event | Import (id : Z) | RecoveryHelper.

(** The registry's tables with the two of the CI state. *)
Record CiDb := mkCiDb {
  ci_db : Db;
  ci_current : gmap (Z * string) Snapshot;
  ci_events : gmap Z (Z * string);
}.
Definition CiDb_new (registry_id : string) : CiDb := mkCiDb (Db_new registry_id) ∅ ∅.

Definition with_db (c : CiDb) (d : Db) : CiDb := mkCiDb d (ci_current c) (ci_events c).
Definition set_event_rows (d : Db) (rows : list EventRow) (next : Z) : Db :=
  mkDb (db_meta d) (db_resources d) (db_uses d) (db_leases d) (db_sessions d) (db_intents d)
    (db_generations d) rows next.
Definition delete_event (d : Db) (id : Z) : Db :=
  set_event_rows d (filterb (λ e, negb (et_id e =? id)) (db_events d)) (db_next_event d).

Definition registry_owner (c : CiDb) : result RegError string :=
  ok_or (db_meta (ci_db c) !! "registry_id") (BadRow "registry_id").
Definition put_meta (c : CiDb) (key value : string) : CiDb :=
  with_db c (set_meta_table (ci_db c) (<[key := value]> (db_meta (ci_db c)))).
Definition drop_meta (c : CiDb) (key : string) : CiDb :=
  with_db c (set_meta_table (ci_db c) (delete key (db_meta (ci_db c)))).

(** ** Snapshots of records *)

Definition engine_snapshot (r : ActEngineRecord) (detail : string) : Snapshot :=
  let released := λ done, has (tc_reference_released_at done) in
  let tools_pending :=
    has (ar_tool_recovery r)
    && (((ar_state r ==? CleanupRequired) && has (ar_reserved_at r)
         && has (ar_source_stopped_at r) && negb (has (ar_completion r)))
        || is_some_and (ar_completion r) (λ done, negb (released done))) in
  let pending := negb (ar_state r ==? Terminal) in
  let collect_after :=
    if has (ar_completion r) then ar_updated_at r
    else match ar_tool_recovery r with
         | None => ar_updated_at r
         | Some intent =>
             f64_max (ar_updated_at r) (f64_of_Z (ti_expires_at_seconds intent))
         end in
  {| sn_family := ENGINE; sn_id := ai_run_id (ar_intent r); sn_detail := detail;
     sn_pending := pending; sn_tools_pending := tools_pending;
     sn_source := ti_source_volume <$> ar_tool_recovery r;
     sn_release_owner := None; sn_engine_run := None;
     sn_created_at := ai_created_at (ar_intent r); sn_updated_at := ar_updated_at r;
     sn_collectible := negb pending && is_none_or (ar_completion r) released;
     sn_collect_after := collect_after |}.

Definition helper_snapshot (r : CacheHelperRecord) (detail : string) : Snapshot :=
  let role := hi_role (hr_intent r) in
  let binding := helper_binding (hr_intent r) in
  let in_phase p (f : ActToolRecoveryIntent → string) :=
    binding ≫= λ b, if rb_phase b ==? p then Some (f (rb_intent b)) else None in
  let source := match role with
                | Some (ToolSourceFinalizationV1 context _ _ _) =>
                    Some (ti_source_volume (sx_recovery context))
                | _ => in_phase Publish ti_source_volume
                end in
  let engine_run := match role with
                    | Some (ToolSourceFinalizationV1 context _ _ _) =>
                        Some (ai_run_id (sx_intent context))
                    | _ => rb_run_id <$> binding
                    end in
  let pending := negb (hr_state r ==? HRemoved) in
  {| sn_family := HELPER; sn_id := hi_nonce (hr_intent r); sn_detail := detail;
     sn_pending := pending; sn_tools_pending := false; sn_source := source;
     sn_release_owner := in_phase Release ti_owner; sn_engine_run := engine_run;
     sn_created_at := hi_created_at (hr_intent r); sn_updated_at := hr_updated_at r;
     sn_collectible := negb pending; sn_collect_after := hr_updated_at r |}.

Section parse.
Context `{!Codecs, !HelperCodecs}.
Definition parse (kind detail owner : string) : result RegError (option Snapshot) :=
  match strip_prefix ACT_PREFIX kind with
  | Some id =>
      let? _ := refuse (ACT_RECORD_BYTES <? str_len detail) (BadRow "act snapshot size") in
      let? record := decode detail id in
      let? _ := refuse (negb (ar_registry_id record ==? owner)) ResourceIdentityConflict in
      Ok (Some (engine_snapshot record detail))
  | None =>
      match strip_prefix HELPER_PREFIX kind with
      | Some id =>
          let? _ := refuse (HELPER_RECORD_BYTES <? str_len detail)
                      (BadRow "cache helper snapshot size") in
          let? record := helper_decode detail id owner in
          Ok (Some (helper_snapshot record detail))
      | None => Ok None
      end
  end.
End parse.

(** ** Storage admission ([storage.rs])

    The samples of the three files are what the file system answered: [None] a failure,
    [Some None] a sidecar file that is absent. *)

Definition FileIdentity : Type := Z * Z.
Record FileSample := { fs_identity : FileIdentity; fs_bytes : Z; fs_allocated : Z }.
Record StorageWorld := {
  sw_expected : option FileIdentity;
  sw_before : option (option FileIdentity);
  sw_after : option (option FileIdentity);
  sw_database : option (option FileSample);
  sw_wal : option (option FileSample);
  sw_shm : option (option FileSample);
  sw_database_bytes : Z;
  sw_limit : Z;
}.
Definition verify_database_identity (observed : option (option FileIdentity))
    (expected : option FileIdentity) : result RegError unit :=
  match observed with
  | None => Err RegistryIo
  | Some identity => refuse (negb (identity ==? expected)) ReplacedPath
  end.

(** [registry_storage_usage]: the bytes and allocation of each file, an inode counted once, and
    the total allocation, unknown when any file's is. *)
Definition measured (seen : gset FileIdentity) (s : option (option FileSample)) :
    gset FileIdentity * (option Z * option Z) :=
  match s with
  | None => (seen, (None, None))
  | Some None => (seen, (Some 0, Some 0))
  | Some (Some f) =>
      let unique := negb (bool_decide (fs_identity f ∈ seen)) in
      (seen ∪ {[fs_identity f]},
       (Some (if unique then fs_bytes f else 0), Some (if unique then fs_allocated f else 0)))
  end.
Definition zip_add (a b : option Z) : option Z := x ← a; y ← b; checked_add x y.
Record StorageUsage := {
  su_files : list (option Z * option Z);
  su_bytes : option Z;
  su_allocated : option Z;
}.
Definition registry_storage_usage (w : StorageWorld) : StorageUsage :=
  let step := λ '(seen, u) s,
    let '(seen, (bytes, allocated)) := measured seen s in
    (seen, {| su_files := su_files u ++ [(bytes, allocated)];
              su_bytes := zip_add (su_bytes u) bytes;
              su_allocated := zip_add (su_allocated u) allocated |}) in
  (foldl step (∅, {| su_files := []; su_bytes := Some 0; su_allocated := Some 0 |})
     [sw_database w; sw_wal w; sw_shm w]).2.

Definition storage_admit (w : StorageWorld) : result RegError unit :=
  let? _ := verify_database_identity (sw_before w) (sw_expected w) in
  let usage := registry_storage_usage w in
  let? allocated := ok_or (su_allocated usage)
    (BadRow "CI metadata allocation unavailable; new authority refused") in
  let? _ := verify_database_identity (sw_after w) (sw_expected w) in
  let? _ := refuse (sw_database_bytes w <? 0) (BadRow "CI metadata page count") in
  let? projected := ok_or
    (foldl (λ total file, zip_add total file.1) (Some (sw_database_bytes w))
       (drop 1 (su_files usage)))
    (BadRow "CI metadata projection unavailable") in
  refuse ((sw_limit w <=? allocated) || (sw_limit w <=? projected))
    (CiMetadataStoragePressure allocated (sw_database_bytes w) projected (sw_limit w)).

(** What one operation reads outside the tables: the files, and the wall clock, [None] before
    the epoch. *)
Record World := { wo_storage : StorageWorld; wo_now : option f64 }.

(** ** Writes *)

Definition CAPACITY : Z := 10000.
Definition KEEP_SECONDS : f64 := f64_mul (f64_of_Z 7) (f64_of_Z 86400).
Definition FLOOR : string := "ci.retention.floor".
Definition CURSOR : string := "ci.retention.cursor".
Definition MIGRATION_CURSOR : string := "ci.migration.cursor".
Definition MAX_BATCH : Z := 64.
Definition PER_ENGINE : nat := 8.
Definition RECOVERY_TOTAL : Z := 90000.

(** The keyset position a retention pass continues from, and its JSON. *)
Record Cursor := { cu_at : f64; cu_family : Z; cu_id : string }.
Class CursorCodecs := {
  cursor_json : Cursor → option string;
  cursor_parse : string → option Cursor;
}.

Definition sn_key (s : Snapshot) : Z * string := (sn_family s, sn_id s).
Definition install (c : CiDb) (s : Snapshot) (newest : bool) : CiDb :=
  if newest || negb (has (ci_current c !! sn_key s))
  then mkCiDb (ci_db c) (<[sn_key s := s]> (ci_current c)) (ci_events c)
  else c.

(** [SELECT event_id ... WHERE family=? AND id=? ORDER BY event_id DESC]. *)
Definition tail_of (c : CiDb) (family : Z) (id : string) : list Z :=
  rev (btree_keys Z.compare (filter (λ kv, kv.2 = (family, id)) (ci_events c))).
Definition retain_event (c : CiDb) (family : Z) (id : string) (event_id : Z) : CiDb :=
  let events := if has (ci_events c !! event_id) then ci_events c
                else <[event_id := (family, id)]> (ci_events c) in
  let c := mkCiDb (ci_db c) (ci_current c) events in
  match tail_of c family id !! AUDIT_TAIL with
  | None => c
  | Some old => mkCiDb (delete_event (ci_db c) old) (ci_current c) (delete old (ci_events c))
  end.

Definition remove_identity (c : CiDb) (family : Z) (id : string) : CiDb :=
  let key := (family, id) in
  let events := rev (tail_of c family id) in
  mkCiDb (foldl delete_event (ci_db c) events) (delete key (ci_current c))
    (filter (λ kv, kv.2 ≠ key) (ci_events c)).

Section writes.
Context `{!Codecs, !HelperCodecs, !CursorCodecs}.

Definition floor (c : CiDb) : result RegError (option f64) :=
  match db_meta (ci_db c) !! FLOOR with
  | None => Ok None
  | Some text =>
      let? value := ok_or (f64_of_text text) (BadRow "CI retention floor") in
      let? _ := refuse (negb (is_finite value) || f64_lt value f64_zero)
                  (BadRow "CI retention floor") in
      Ok (Some value)
  end.

Definition forget (c : CiDb) (s : Snapshot) : result RegError CiDb :=
  let? previous := floor c in
  let advanced := from_option (λ v, f64_max v (sn_created_at s)) (sn_created_at s) previous in
  let unchanged := is_some_and previous (λ v, f64_eq v advanced) in
  let c := if unchanged then c else put_meta c FLOOR (f64_text advanced) in
  Ok (remove_identity c (sn_family s) (sn_id s)).

(** [SELECT COUNT] of at most [limit] rows. *)
Definition counted (c : CiDb) (limit : Z) : Z := Z.min (Z.of_nat (size (ci_current c))) limit.

(** The helper records of one engine run, in ID order, at most [PER_ENGINE]. *)
Definition attempts (c : CiDb) (run : string) : list Snapshot :=
  take PER_ENGINE
    (filterb (λ s, (sn_family s =? HELPER) && (sn_engine_run s ==? Some run))
       (btree_values (cmp_on snd String.compare) (ci_current c))).

(** The first attempt that is proved gone and older than the new one is forgotten. *)
Fixpoint recycle (c : CiDb) (snapshot : Snapshot) (binding : RecoveryHelperBinding)
    (owner : string) (now : f64) (rows : list Snapshot) : result RegError CiDb :=
  match rows with
  | [] => Err (BadRow "recovery helper reserve held by uncertain attempts")
  | row :: rows =>
      let? old := helper_decode (sn_detail row) (sn_id row) owner in
      if negb (hr_state old ==? HRemoved) || f64_gt (hr_updated_at old) now
         || f64_ge (hi_created_at (hr_intent old)) (sn_created_at snapshot)
         || is_none_or (helper_binding (hr_intent old)) (λ b,
              negb (rb_intent b ==? rb_intent binding) || negb (rb_run_id b ==? rb_run_id binding))
      then recycle c snapshot binding owner now rows
      else forget c (helper_snapshot old (sn_detail row))
  end.

Definition recovery_admit (w : World) (c : CiDb) (snapshot : Snapshot) : result RegError CiDb :=
  let? owner := ok_or (helper_parse (sn_detail snapshot))
                  (BadRow "recovery helper capacity snapshot") in
  let? binding := ok_or (helper_binding (hr_intent owner))
                    (BadRow "recovery helper capacity binding") in
  let? now := ok_or (wo_now w) (BadRow "recovery capacity observation clock") in
  let? _ := refuse (negb (sn_family snapshot =? HELPER) || negb (sn_pending snapshot)
                    || f64_gt (sn_created_at snapshot) now)
              (BadRow "recovery helper capacity admission") in
  let? row := ok_or (ci_current c !! (ENGINE, rb_run_id binding))
                (BadRow "recovery capacity engine missing") in
  let? engine := decode (sn_detail row) (rb_run_id binding) in
  let? _ := refuse
    (negb (ar_registry_id engine ==? hi_registry_id (hr_intent owner))
     || negb (ar_tool_recovery engine ==? Some (rb_intent binding)))
    (BadRow "recovery capacity engine mismatch") in
  let rows := attempts c (rb_run_id binding) in
  if (length rows =? PER_ENGINE)%nat
  then recycle c snapshot binding (hi_registry_id (hr_intent owner)) now rows
  else
    let? _ := refuse (RECOVERY_TOTAL <=? counted c RECOVERY_TOTAL)
                (BadRow "recovery helper total authority capacity reached") in
    Ok c.

Definition state_admit (w : World) (c : CiDb) (snapshot : Snapshot) (recovery : bool) :
    result RegError CiDb :=
  if has (ci_current c !! sn_key snapshot) then Ok c
  else
    let? f := floor c in
    let? _ := refuse (is_some_and f (λ f, f64_le (sn_created_at snapshot) f))
                (BadRow "CI intent predates retained authority; submit fresh work") in
    if recovery then recovery_admit w c snapshot
    else
      let? _ := storage_admit (wo_storage w) in
      let? _ := refuse (CAPACITY <=? counted c CAPACITY)
                  (BadRow "CI authority capacity reached; existing recovery retained") in
      Ok c.

(** Insert the event, with its row ID. *)
Definition insert_event (d : Db) (at_ : f64) (kind detail : string) (mode : WriteMode) :
    result RegError (Db * Z) :=
  match mode with
  | Import id =>
      if existsb (λ e, et_id e =? id) (db_events d) then Err SqlConstraint
      else Ok (set_event_rows d
                 (db_events d ++ [{| et_id := id; et_at := at_; et_kind := kind; et_detail := detail |}])
                 (Z.max (db_next_event d) (id + 1)), id)
  | _ => Ok (add_event d at_ kind detail, db_next_event d)
  end.

Definition append (w : World) (c : CiDb) (at_ : f64) (kind detail : string) (mode : WriteMode) :
    result RegError CiDb :=
  let? owner := registry_owner c in
  let? snapshot := parse kind detail owner in
  let? c := match snapshot, mode with
            | Some s, Event => state_admit w c s false
            | Some s, RecoveryHelper => state_admit w c s true
            | _, _ => Ok c
            end in
  let? inserted := insert_event (ci_db c) at_ kind detail mode in
  let '(d, event_id) := inserted in
  let c := with_db c d in
  match snapshot with
  | None => Ok c
  | Some s =>
      let c := if is_none_or (head (tail_of c (sn_family s) (sn_id s))) (λ id, id <? event_id)
               then install c s true else c in
      Ok (retain_event c (sn_family s) (sn_id s) event_id)
  end.

(** ** Retention *)

Definition referenced (c : CiDb) (s : Snapshot) : bool :=
  if sn_family s =? ENGINE then
    exists_row (ci_current c) (λ h,
      (sn_family h =? HELPER) && sn_pending h && (sn_engine_run h ==? Some (sn_id s)))
    || exists_row (db_leases (ci_db c)) (λ l, le_resource_id l ==? "act-engine:" +:+ sn_id s)
  else
    match sn_engine_run s with
    | Some run =>
        is_some_and (ci_current c !! (ENGINE, run)) (λ e, sn_pending e || sn_tools_pending e)
    | None => false
    end.

(** [ORDER BY] of REAL values, which are finite here. *)
Definition real_cmp (x y : f64) : comparison := default Eq (SFcompare x y).
Definition position_cmp : f64 * Z * string → f64 * Z * string → comparison :=
  cmp_then (cmp_on (λ p, p.1.1) real_cmp)
    (cmp_then (cmp_on (λ p, p.1.2) Z.compare) (cmp_on snd String.compare)).
Definition position (s : Snapshot) : f64 * Z * string :=
  (sn_collect_after s, sn_family s, sn_id s).
Definition collectible_rows (c : CiDb) (before : f64) (after : f64 * Z * string) (limit : Z) :
    list Snapshot :=
  take (Z.to_nat limit)
    (sort_by (cmp_on position position_cmp)
       (filterb (λ s, sn_collectible s && f64_lt (sn_collect_after s) before
                      && bool_decide (position_cmp (position s) after = Gt))
          (map_to_list (ci_current c)).*2)).

Definition maintain_row (owner : string) (before : f64) (state : CiDb * Z) (row : Snapshot) :
    result RegError (CiDb * Z) :=
  let '(c, removed) := state in
  let? prefix := if sn_family row =? ENGINE then Ok ACT_PREFIX
                 else if sn_family row =? HELPER then Ok HELPER_PREFIX
                 else Err (BadRow "CI retention family") in
  let? parsed := parse (prefix +:+ sn_id row) (sn_detail row) owner in
  let? snapshot := ok_or parsed (BadRow "CI retention snapshot") in
  let? _ := refuse (negb (sn_collectible snapshot) || f64_ge (sn_collect_after snapshot) before)
              (BadRow "CI retention authority mismatch") in
  if referenced c snapshot then Ok (c, removed)
  else let? c := forget c snapshot in Ok (c, removed + 1).
Fixpoint maintain_rows (owner : string) (before : f64) (state : CiDb * Z) (rows : list Snapshot) :
    result RegError (CiDb * Z) :=
  match rows with
  | [] => Ok state
  | row :: rows =>
      let? state := maintain_row owner before state row in maintain_rows owner before state rows
  end.

Definition maintain (c : CiDb) (now : f64) (limit : Z) : result RegError (CiDb * Z) :=
  let? _ := refuse (negb (is_finite now) || f64_lt now f64_zero || (limit =? 0)
                    || (MAX_BATCH <? limit)) (BadRow "CI retention bounds") in
  let? after := match db_meta (ci_db c) !! CURSOR with
                | None => Ok None
                | Some text =>
                    let? cursor := ok_or (cursor_parse text) (BadRow "CI retention cursor") in
                    Ok (Some cursor)
                end in
  let? _ := refuse (is_some_and after (λ cursor,
      negb (is_finite (cu_at cursor)) || f64_lt (cu_at cursor) f64_zero
      || negb ((cu_family cursor =? ENGINE) || (cu_family cursor =? HELPER))
      || negb (is_uuid (cu_id cursor)))) (BadRow "CI retention cursor") in
  let before := f64_sub now KEEP_SECONDS in
  let from := from_option (λ cursor, (cu_at cursor, cu_family cursor, cu_id cursor))
                (f64_of_Z (-1), 0, "") after in
  let rows := collectible_rows c before from limit in
  let? owner := registry_owner c in
  let? swept := maintain_rows owner before (c, 0) rows in
  let '(c, removed) := swept in
  if Z.of_nat (length rows) =? limit then
    let? row := ok_or (last rows) (BadRow "CI retention page") in
    let? text := ok_or (cursor_json {| cu_at := sn_collect_after row; cu_family := sn_family row;
                                       cu_id := sn_id row |}) (BadRow "CI retention cursor") in
    Ok (put_meta c CURSOR text, removed)
  else Ok (if has after then drop_meta c CURSOR else c, removed).

Definition require_ci_ready (c : CiDb) : result RegError unit :=
  refuse (has (db_meta (ci_db c) !! MIGRATION_CURSOR)) MigrationInProgress.
Definition maintain_ci_state (c : CiDb) (now : f64) (limit : Z) : result RegError (CiDb * Z) :=
  let? _ := require_ci_ready c in maintain c now limit.
End writes.
