(* ===== verification/ActLifecycle.v ===== *)
(** * ActLifecycle: the transitions of engines and helpers

    The transaction methods of [bosn-registry/src/act.rs] and its modules, and of
    [cache_helper.rs] and [cache_helper/recovery.rs]: each reads the current record, checks the
    transition and stores the next one through [append]. A method that fails drops the
    transaction, so an error carries no tables. *)

From Stdlib Require Import Ascii.
From S2P Require Export CiState.

Local Open Scope string_scope.
Local Open Scope list_scope.
Local Open Scope Z_scope.
Local Open Scope bosn_scope.
Local Open Scope act_scope.

Record ActToolSourceStopProof := {
  sp_engine_name : string;
  sp_engine_id : string;
  sp_source_volume : string;
}.
Record ActToolRecoveryPublicationProof := {
  pp_intent : ActToolRecoveryIntent;
  pp_generation : string;
}.
Record ActEngineRecoveryPage := {
  rpg_items : list ActEngineRecord;
  rpg_next_run_id : option string;
}.
Record CacheHelperPage := { hpg_items : list CacheHelperRecord; hpg_next_nonce : option string }.

Section lifecycle.
Context `{!Codecs, !HelperCodecs, !CursorCodecs}.
Context (foreign_keys : bool).

(** ** Reading and storing records *)

Definition act_record (c : CiDb) (run : string) : result RegError (option ActEngineRecord) :=
  let? _ := act_kind run in
  match ci_current c !! (ENGINE, run) with
  | None => Ok None
  | Some row =>
      let? record := decode (sn_detail row) run in
      let? _ := refuse (negb (db_meta (ci_db c) !! "registry_id" ==? Some (ar_registry_id record)))
                  ResourceIdentityConflict in
      Ok (Some record)
  end.
Definition existing (c : CiDb) (run : string) : result RegError ActEngineRecord :=
  let? record := act_record c run in ok_or record (BadRow "act intent missing").
Definition store_act_record (w : World) (c : CiDb) (r : ActEngineRecord) : result RegError CiDb :=
  let? _ := record_validate r in
  let? detail := ok_or (engine_json r) (BadRow "act state JSON") in
  let? kind := act_kind (ai_run_id (ar_intent r)) in
  append w c (ar_updated_at r) kind detail Event.

Definition helper_record (c : CiDb) (nonce : string) :
    result RegError (option CacheHelperRecord) :=
  let? _ := helper_kind nonce in
  let? owner := registry_owner c in
  match ci_current c !! (HELPER, nonce) with
  | None => Ok None
  | Some row => let? record := helper_decode (sn_detail row) nonce owner in Ok (Some record)
  end.
Definition existing_helper (c : CiDb) (nonce : string) : result RegError CacheHelperRecord :=
  let? record := helper_record c nonce in ok_or record (BadRow "cache helper intent missing").
Definition write_helper (w : World) (c : CiDb) (r : CacheHelperRecord) (mode : WriteMode) :
    result RegError CiDb :=
  let? detail := ok_or (helper_json r) (BadRow "cache helper JSON") in
  let? owner := registry_owner c in
  let? _ := helper_decode detail (hi_nonce (hr_intent r)) owner in
  let? _ := refuse (HELPER_RECORD_BYTES <? str_len detail) (BadRow "cache helper snapshot size") in
  let? kind := helper_kind (hi_nonce (hr_intent r)) in
  append w c (hr_updated_at r) kind detail mode.

(** [pending_helper]: one pending helper row with a column equal to the key. *)
Definition pending_helper (c : CiDb) (column : Snapshot → option string) (key : string) :
    result RegError (option CacheHelperRecord) :=
  match head (filterb (λ s, (sn_family s =? HELPER) && sn_pending s && (column s ==? Some key))
                (map_to_list (ci_current c)).*2) with
  | None => Ok None
  | Some row =>
      let? owner := registry_owner c in
      let? record := helper_decode (sn_detail row) (sn_id row) owner in
      Ok (Some record)
  end.
Definition recovery_helper_for_source (c : CiDb) (source : string) :
    result RegError (option CacheHelperRecord) :=
  let? _ := cache_volume_validate {| cv_name := source; cv_target := "/source" |} in
  pending_helper c sn_source source.
Definition pending_reference_release (c : CiDb) (owner : string) :
    result RegError (option CacheHelperRecord) :=
  pending_helper c sn_release_owner owner.

(** ** Engines: intent, creation and registration *)

Definition begin_act_engine (w : World) (c : CiDb) (intent : ActEngineIntent) :
    result RegError CiDb :=
  let? _ := intent_validate intent in
  let? _ := refuse (negb (has (ai_creation_profile intent)))
              (BadRow "act new creation requires frozen profile") in
  let? old := act_record c (ai_run_id intent) in
  let? _ := refuse (has old) ResourceIdentityConflict in
  let? registry_id := registry_owner c in
  store_act_record w c
    {| ar_schema_version := 3; ar_registry_id := registry_id; ar_intent := intent;
       ar_state := Pending; ar_engine_id := None; ar_execution := None;
       ar_execution_claim := None; ar_outcome := None; ar_updated_at := ai_created_at intent;
       ar_removal := None; ar_binding := None; ar_tool_recovery := None;
       ar_reserved_at := None; ar_source_stopped_at := None; ar_completion := None;
       ar_source_disposal_at := None; ar_create_requested := Some false |}.

Definition request_act_create (w : World) (c : CiDb) (run : string) (at_ : f64) :
    result RegError CiDb :=
  let? record := existing c run in
  let? _ := refuse (negb (ar_state record ==? Pending) || has (ar_engine_id record)
                    || negb (is_finite at_)) (BadRow "act create request out of order") in
  store_act_record w c
    (record <| ar_create_requested := Some true |>
            <| ar_updated_at := f64_max (ar_updated_at record) at_ |>).

Definition mark_legacy_act_create_uncertain (w : World) (c : CiDb) (run : string) (at_ : f64) :
    result RegError CiDb :=
  let? record := existing c run in
  let? _ := refuse (negb (ar_state record ==? CleanupRequired) || has (ar_engine_id record)
                    || has (ar_create_requested record) || negb (is_finite at_)
                    || f64_lt at_ (ar_updated_at record)) (BadRow "legacy act create uncertainty") in
  store_act_record w c
    (record <| ar_create_requested := Some true |> <| ar_updated_at := at_ |>).

Definition verify_act_engine (c : CiDb) (run : string) (observed : ActEngineObservation) :
    result RegError ActEngineRecord :=
  let? record := existing c run in
  let conflict := Err ResourceIdentityConflict in
  if negb (ob_name observed ==? engine_name (ar_intent record))
     || negb (hex (ob_engine_id observed) 64)
     || negb (ob_image_digest observed ==? ai_engine_image_digest (ar_intent record))
     || is_some_and (ar_engine_id record) (λ id, negb (id ==? ob_engine_id observed))
  then conflict
  else
    let? labels := required_labels (ar_intent record) (ar_registry_id record) in
    if existsb (λ kv, negb (ob_labels observed !! kv.1 ==? Some kv.2)) (map_to_list labels)
    then conflict else Ok record.

Definition act_resource_id (run : string) : string := "act-engine:" +:+ run.
Definition register_act_identity (w : World) (c : CiDb) (run : string)
    (observed : ActEngineObservation) (at_ : f64) (recovery : bool) : result RegError CiDb :=
  let? record := verify_act_engine c run observed in
  let? _ := check_time record at_ in
  let expected := if recovery then CleanupRequired else Pending in
  let? _ := refuse (negb (ar_state record ==? expected) || has (ar_engine_id record))
              (BadRow "act registration transition") in
  let id := act_resource_id run in
  let name := engine_name (ar_intent record) in
  let? _ := refuse
    (exists_row (db_resources (ci_db c)) (λ r,
       (re_id r ==? id) || ((re_kind r ==? Container) && (re_name r ==? name))))
    ResourceIdentityConflict in
  let? d := put_resource (ci_db c)
    {| re_id := id; re_kind := Container; re_name := name; re_stack := "act";
       re_generation := run; re_scope := Spec; re_workspace := ai_workspace (ar_intent record);
       re_created_at := ai_created_at (ar_intent record); re_last_used := at_;
       re_state := Active; re_retention := Warm |} in
  let? d := put_resource_use foreign_keys d
    {| us_resource_id := id; us_workspace := ai_workspace (ar_intent record);
       us_stack := "act"; us_generation := run; us_last_used := at_; us_state := Active |} in
  let record := if recovery then record else record <| ar_state := Registered |> in
  store_act_record w (with_db c d)
    (record <| ar_engine_id := Some (ob_engine_id observed) |> <| ar_updated_at := at_ |>).
Definition register_act_engine (w : World) (c : CiDb) (run : string)
    (observed : ActEngineObservation) (at_ : f64) : result RegError CiDb :=
  register_act_identity w c run observed at_ false.
Definition recover_act_engine (w : World) (c : CiDb) (run : string)
    (observed : ActEngineObservation) (at_ : f64) : result RegError CiDb :=
  register_act_identity w c run observed at_ true.

(** ** Execution *)

Definition claim_act_execution (w : World) (c : CiDb) (intent : ActEngineIntent)
    (observed : ActEngineObservation) (token : string) (at_ : f64) :
    result RegError (CiDb * ActEngineRecord) :=
  let? _ := canonical_run token in
  let? record := verify_act_engine c (ai_run_id intent) observed in
  let? _ := check_time record at_ in
  let? _ := refuse (negb (ar_schema_version record =? 3) || negb (intent_eq (ar_intent record) intent)
                    || negb (ar_state record ==? Registered) || has (ar_execution record)
                    || has (ar_execution_claim record)) (BadRow "act exclusive execution claim") in
  let record := record <| ar_execution_claim := Some token |> <| ar_updated_at := at_ |> in
  let? c := store_act_record w c record in
  Ok (c, record).

Definition check_execution_owner (r : ActEngineRecord) (token : string) : result RegError unit :=
  let? _ := canonical_run token in
  refuse (negb ((ar_schema_version r =? 2) || (ar_schema_version r =? 3))
          || negb (ar_execution_claim r ==? Some token)) (BadRow "act execution owner").
Definition verify_act_execution_owner (c : CiDb) (run : string) (observed : ActEngineObservation)
    (token : string) : result RegError ActEngineRecord :=
  let? record := verify_act_engine c run observed in
  let? _ := check_execution_owner record token in
  let? _ := refuse (negb ((ar_state record ==? Registered) || (ar_state record ==? CleanupRequired)))
              (BadRow "act execution ownership state") in
  Ok record.
Definition verify_act_execution (c : CiDb) (run : string) (observed : ActEngineObservation)
    (token : string) : result RegError ActEngineRecord :=
  let? record := verify_act_execution_owner c run observed token in
  let? _ := refuse (negb (ar_schema_version record =? 3) || negb (ar_state record ==? Registered)
                    || has (ar_execution record)) (BadRow "act active execution claim") in
  Ok record.

Definition record_act_execution (w : World) (c : CiDb) (run token : string)
    (outcome : ActRunOutcome) (at_ : f64) : result RegError CiDb :=
  let? record := existing c run in
  let? _ := check_time record at_ in
  let? _ := check_execution_owner record token in
  let? _ := refuse (negb (ar_schema_version record =? 3) || negb (ar_state record ==? Registered)
                    || has (ar_execution record)) (BadRow "act execution transition") in
  store_act_record w c
    (record <| ar_execution := Some outcome |> <| ar_updated_at := at_ |>).

(** Hand a prepared spare over to one run. *)
Definition claim_act_spare (w : World) (c : CiDb) (spare : string)
    (observed : ActEngineObservation) (from token : string) (binding : ActEngineBinding)
    (at_ : f64) : result RegError (CiDb * ActEngineRecord) :=
  let? _ := canonical_run from in
  let? _ := canonical_run token in
  let? _ := binding_validate binding in
  let? record := verify_act_engine c spare observed in
  let? _ := check_time record at_ in
  let? _ := refuse
    (negb (ai_spare (ar_intent record)) || negb (ar_schema_version record =? 3)
     || negb (ar_state record ==? Registered) || has (ar_execution record)
     || has (ar_binding record) || negb (ar_execution_claim record ==? Some from)
     || (from ==? token)) (BadRow "act spare claim") in
  let record := record <| ar_execution_claim := Some token |> <| ar_binding := Some binding |>
                       <| ar_updated_at := at_ |> in
  let? c := store_act_record w c record in
  Ok (c, record).

(** ** Cleanup *)

Definition request_act_cleanup_inner (w : World) (c : CiDb) (run : string) (token : option string)
    (outcome : ActRunOutcome) (at_ : f64) : result RegError CiDb :=
  let? record := existing c run in
  let? _ := check_time record at_ in
  let? _ := refuse
    (negb (ar_execution_claim record ==? token)
     || negb ((ar_state record ==? Pending) || (ar_state record ==? Registered))
     || ((outcome ==? Passed) && negb (ar_execution record ==? Some Passed)))
    (BadRow "act cleanup transition") in
  store_act_record w c
    (record <| ar_state := CleanupRequired |> <| ar_outcome := Some outcome |>
            <| ar_updated_at := at_ |>).
Definition request_act_execution_cleanup (w : World) (c : CiDb) (run token : string)
    (outcome : ActRunOutcome) (at_ : f64) : result RegError CiDb :=
  let? record := existing c run in
  let? _ := check_execution_owner record token in
  request_act_cleanup_inner w c run (Some token) outcome at_.
Definition request_act_cleanup (w : World) (c : CiDb) (run : string) (outcome : ActRunOutcome)
    (at_ : f64) : result RegError CiDb :=
  request_act_cleanup_inner w c run None outcome at_.

Definition check_act_retirement (c : CiDb) (record : ActEngineRecord) : result RegError unit :=
  let d := ci_db c in
  let run := ai_run_id (ar_intent record) in
  refuse (negb (exists_row (db_resources d) (λ r,
      (re_id r ==? act_resource_id run) && (re_name r ==? engine_name (ar_intent record))
      && (re_kind r ==? Container) && (re_stack r ==? "act") && (re_generation r ==? run)
      && (re_workspace r ==? ai_workspace (ar_intent record)) && (re_scope r ==? Spec)
      && (re_retention r ==? Warm) && (re_state r ==? Active)
      && owned_generation_use d (re_workspace r) r Active
      && negb (leased d r) && negb (in_session d r))))
    ResourceIdentityConflict.
Definition authorize_act_cleanup (c : CiDb) (run : string) (observed : ActEngineObservation) :
    result RegError ActEngineRecord :=
  let? record := verify_act_engine c run observed in
  let? _ := refuse (negb (ar_state record ==? CleanupRequired) || negb (has (ar_engine_id record)))
              (BadRow "act cleanup authorization") in
  let? _ := check_act_retirement c record in
  Ok record.

Definition retire_act_resource (d : Db) (run : string) (at_ : f64) : Db :=
  let id := act_resource_id run in
  let d := set_uses d (update_rows (db_uses d) (λ u, us_resource_id u ==? id)
                         (with_use_state Retired (Some at_))) in
  set_resources d (update_rows (db_resources d) (λ r, re_id r ==? id)
                     (with_resource_state Retired (Some at_))).
Definition finalize_act_cleanup (w : World) (c : CiDb) (run : string)
    (proof : ActEngineRemovalProof) (at_ : f64) : result RegError CiDb :=
  let? record := existing c run in
  let? _ := check_time record at_ in
  let? _ := refuse
    (negb (ar_state record ==? CleanupRequired)
     || negb (rp_name proof ==? engine_name (ar_intent record))
     || negb (rp_engine_id proof ==? ar_engine_id record)
     || negb (rp_storage_volume proof ==? storage_volume_name (ar_intent record))
     || retains_tool_recovery_source record at_) (BadRow "act removal proof") in
  let? _ := match storage_volume_name (ar_intent record) with
            | Some source =>
                let? helper := recovery_helper_for_source c source in
                refuse (has helper) (BadRow "recovery helper retains source storage")
            | None => Ok tt
            end in
  let? d := if has (ar_engine_id record)
            then let? _ := check_act_retirement c record in
                 Ok (retire_act_resource (ci_db c) run at_)
            else Ok (ci_db c) in
  store_act_record w (with_db c d)
    (record <| ar_removal := Some proof |> <| ar_state := Terminal |> <| ar_updated_at := at_ |>).

(** ** Tool recovery *)

Definition begin_act_tool_recovery (w : World) (c : CiDb) (run token : string)
    (created expires : Z) : result RegError CiDb :=
  let? record := existing c run in
  let? _ := refuse (negb (ar_state record ==? Registered)
                    || negb (ar_execution_claim record ==? Some token) || has (ar_execution record))
              (BadRow "tool recovery requires exclusive unexecuted claim") in
  let? intent := from_record record created expires in
  match ar_tool_recovery record with
  | Some old => if old ==? intent then Ok c else Err ResourceIdentityConflict
  | None =>
      store_act_record w c
        (record <| ar_updated_at := f64_max (ar_updated_at record) (f64_of_Z created) |>
                <| ar_tool_recovery := Some intent |>)
  end.

Definition acknowledge_act_tool_recovery (w : World) (c : CiDb) (run token : string)
    (intent : ActToolRecoveryIntent) (at_ : f64) : result RegError CiDb :=
  let? record := existing c run in
  let? _ := check_time record at_ in
  let? _ := refuse
    (negb (ar_state record ==? Registered) || negb (ar_execution_claim record ==? Some token)
     || has (ar_execution record) || negb (ar_tool_recovery record ==? Some intent)
     || f64_ge at_ (f64_of_Z (ti_expires_at_seconds intent)))
    (BadRow "tool recovery acknowledgement transition") in
  if has (ar_reserved_at record) then Ok c
  else store_act_record w c
         (record <| ar_reserved_at := Some at_ |> <| ar_updated_at := at_ |>).

Definition record_act_tool_source_stopped (w : World) (c : CiDb) (run : string)
    (proof : ActToolSourceStopProof) (at_ : f64) : result RegError CiDb :=
  let? record := existing c run in
  let? _ := check_time record at_ in
  let? intent := ok_or (ar_tool_recovery record) (BadRow "tool recovery intent missing") in
  let? _ := refuse
    (negb (ar_state record ==? CleanupRequired) || negb (has (ar_reserved_at record))
     || negb (sp_engine_name proof ==? engine_name (ar_intent record))
     || negb (sp_engine_id proof ==? ti_engine_id intent)
     || negb (sp_source_volume proof ==? ti_source_volume intent)
     || f64_ge at_ (f64_of_Z (ti_expires_at_seconds intent)))
    (BadRow "tool recovery source stop proof") in
  if has (ar_source_stopped_at record) then Ok c
  else store_act_record w c
         (record <| ar_source_stopped_at := Some at_ |> <| ar_updated_at := at_ |>).

Definition complete_act_tool_recovery (w : World) (c : CiDb) (run : string)
    (proof : ActToolRecoveryPublicationProof) (at_ : f64) : result RegError CiDb :=
  let? record := existing c run in
  let? _ := check_time record at_ in
  let? _ := refuse
    (negb (ar_state record ==? CleanupRequired)
     || negb (ar_tool_recovery record ==? Some (pp_intent proof))
     || negb (has (ar_source_stopped_at record)) || negb (hex (pp_generation proof) 64))
    (BadRow "tool recovery publication proof") in
  match ar_completion record with
  | Some done =>
      if tc_generation done ==? pp_generation proof then Ok c else Err ResourceIdentityConflict
  | None =>
      let? _ := refuse (negb (is_live (pp_intent proof) at_))
                  (BadRow "tool recovery publication expired") in
      store_act_record w c
        (record <| ar_completion := Some {| tc_generation := pp_generation proof;
                                            tc_completed_at := at_;
                                            tc_reference_released_at := None |} |>
                <| ar_updated_at := at_ |>)
  end.

Definition release_act_tool_recovery (w : World) (c : CiDb) (run : string)
    (intent : ActToolRecoveryIntent) (at_ : f64) : result RegError CiDb :=
  let? record := existing c run in
  let? _ := check_time record at_ in
  let? _ := refuse (negb (cleaning (ar_state record))
                    || negb (ar_tool_recovery record ==? Some intent))
              (BadRow "tool recovery release identity") in
  let? done := ok_or (ar_completion record)
                 (BadRow "tool recovery release before publication") in
  if has (tc_reference_released_at done) then Ok c
  else store_act_record w c
         (record <| ar_completion := Some {| tc_generation := tc_generation done;
                                             tc_completed_at := tc_completed_at done;
                                             tc_reference_released_at := Some at_ |} |>
                 <| ar_updated_at := at_ |>).

Definition claim_act_tool_source_disposal (w : World) (c : CiDb) (run : string) (at_ : f64) :
    result RegError CiDb :=
  let? record := existing c run in
  if negb (has (ar_tool_recovery record)) then Ok c
  else
    let? _ := check_time record at_ in
    let? _ := refuse (negb (ar_state record ==? CleanupRequired)
                      || retains_tool_recovery_source record at_)
                (BadRow "recovery source disposal not admitted") in
    if has (ar_source_disposal_at record) then Ok c
    else
      let? source := ok_or (storage_volume_name (ar_intent record))
                       (BadRow "recovery source storage missing") in
      let? helper := recovery_helper_for_source c source in
      let? _ := refuse (has helper) (BadRow "recovery helper retains source storage") in
      store_act_record w c
        (record <| ar_source_disposal_at := Some at_ |> <| ar_updated_at := at_ |>).

(** ** Helpers *)

Definition validate_recovery_helper_admission (c : CiDb) (helper : CacheHelperIntent) :
    result RegError unit :=
  match hi_role helper with
  | Some (ToolSourceFinalizationV1 context _ _ _) =>
      let? pending := recovery_helper_for_source c (ti_source_volume (sx_recovery context)) in
      refuse (has pending) (BadRow "source finalization helper already pending")
  | _ =>
    match helper_binding helper with
    | None => Ok tt
    | Some binding =>
      let intent := rb_intent binding in
      let? found := act_record c (rb_run_id binding) in
      let? record := ok_or found (BadRow "recovery helper engine missing") in
      let? _ := refuse
        (negb (ar_tool_recovery record ==? Some intent)
         || (negb (rb_phase binding ==? Dispose)
             && (negb (has (ar_reserved_at record)) || negb (has (ar_source_stopped_at record))))
         || f64_lt (hi_created_at helper) (ar_updated_at record)
         || negb (hi_image helper ==? docker_image (ai_engine_image_digest (ar_intent record))))
        (BadRow "recovery helper source not admitted") in
      match rb_phase binding with
      | Publish =>
          let unavailable := BadRow "recovery source not available for publication" in
          let? _ := refuse
            (negb (ar_state record ==? CleanupRequired) || has (ar_completion record)
             || has (ar_source_disposal_at record)
             || negb (is_live intent (hi_created_at helper))) unavailable in
          let? pending := recovery_helper_for_source c (ti_source_volume intent) in
          refuse (has pending) unavailable
      | Release =>
          let unavailable := BadRow "recovery reference not available for release" in
          let? _ := refuse
            (negb (cleaning (ar_state record))
             || is_none_or (ar_completion record) (λ done, has (tc_reference_released_at done)))
            unavailable in
          let? pending := pending_reference_release c (ti_owner intent) in
          refuse (has pending) unavailable
      | Dispose =>
          refuse (negb (ar_state record ==? CleanupRequired)
                  || negb (has (ar_source_disposal_at record)))
            (BadRow "source disposal not claimed")
      end
    end
  end.

Definition begin_cache_helper (w : World) (c : CiDb) (intent : CacheHelperIntent) :
    result RegError CiDb :=
  let? _ := helper_intent_validate intent in
  let? old := helper_record c (hi_nonce intent) in
  let? _ := refuse (has old) (BadRow "cache helper nonce already used") in
  let? _ := validate_recovery_helper_admission c intent in
  let mode := if has (helper_binding intent) then RecoveryHelper else Event in
  write_helper w c
    {| hr_schema_version := 1; hr_intent := intent; hr_state := HPending;
       hr_container_id := None; hr_updated_at := hi_created_at intent |} mode.

Definition with_helper (r : CacheHelperRecord) (st : CacheHelperState) (id : option string)
    (at_ : f64) : CacheHelperRecord :=
  mkHelperRecord (hr_schema_version r) (hr_intent r) st id at_.

Definition register_cache_helper (w : World) (c : CiDb) (nonce id : string) (at_ : f64) :
    result RegError CiDb :=
  let? record := existing_helper c nonce in
  let? _ := refuse
    (negb (hex_id id) || negb (is_finite at_) || f64_lt at_ (hr_updated_at record)
     || (hr_state record ==? HRemoved)
     || is_some_and (hr_container_id record) (λ old, negb (old ==? id)))
    (BadRow "cache helper registration") in
  if hr_state record ==? HCreated then Ok c
  else write_helper w c (with_helper record HCreated (Some id) at_) Event.

Definition finish_cache_helper (w : World) (c : CiDb) (nonce id : string) (at_ : f64) :
    result RegError CiDb :=
  let? record := existing_helper c nonce in
  let? _ := refuse
    (negb (hr_state record ==? HCreated) || negb (hr_container_id record ==? Some id)
     || negb (is_finite at_) || f64_lt at_ (hr_updated_at record))
    (BadRow "cache helper removal proof") in
  write_helper w c (with_helper record HRemoved (hr_container_id record) at_) Event.

Definition finish_absent_cache_helper (w : World) (c : CiDb) (nonce : string) (at_ : f64) :
    result RegError CiDb :=
  let? record := existing_helper c nonce in
  let? _ := refuse
    (negb (hr_state record ==? HPending) || has (hr_container_id record)
     || negb (is_finite at_)
     || f64_lt at_ (f64_add (hi_created_at (hr_intent record)) LATE_CREATE_WINDOW_SECS))
    (BadRow "cache helper late-create absence proof") in
  write_helper w c (with_helper record HRemoved (hr_container_id record) at_) Event.

(** ** Recovery pages *)

Definition keyset (c : CiDb) (family : Z) (wanted : Snapshot → bool) (after : string) (limit : Z) :
    list Snapshot :=
  take (Z.to_nat (limit + 1))
    (filterb (λ s, (sn_family s =? family) && wanted s
                   && bool_decide (String.compare (sn_id s) after = Gt))
       (btree_values (cmp_on snd String.compare) (ci_current c))).
Definition decode_all {A} (f : Snapshot → result RegError A) : list Snapshot → result RegError (list A) :=
  foldr (λ s rest, let? a := f s in let? l := rest in Ok (a :: l)) (Ok []).

Definition engine_page (c : CiDb) (wanted : Snapshot → bool) (after : option string) (limit : Z) :
    result RegError ActEngineRecoveryPage :=
  let? _ := refuse ((limit =? 0) || (MAX_PAGE_SIZE <? limit)) (BadRow "act recovery page limit") in
  let? _ := require_ci_ready c in
  let? _ := from_option (λ id, let? _ := act_kind id in Ok tt) (Ok tt) after in
  let rows := keyset c ENGINE wanted (default "" after) limit in
  let? items := decode_all (λ s, decode (sn_detail s) (sn_id s)) (take (Z.to_nat limit) rows) in
  let? owner := registry_owner c in
  let? _ := refuse (existsb (λ r, negb (ar_registry_id r ==? owner)) items)
              ResourceIdentityConflict in
  Ok {| rpg_items := items;
        rpg_next_run_id :=
          if limit <? Z.of_nat (length rows)
          then (λ r, ai_run_id (ar_intent r)) <$> last items else None |}.
Definition pending_act_engines (c : CiDb) (after : option string) (limit : Z) :
    result RegError ActEngineRecoveryPage := engine_page c sn_pending after limit.
Definition pending_tool_recoveries (c : CiDb) (after : option string) (limit : Z) :
    result RegError ActEngineRecoveryPage := engine_page c sn_tools_pending after limit.
Definition pending_cache_helpers (c : CiDb) (after : option string) (limit : Z) :
    result RegError CacheHelperPage :=
  let? _ := refuse ((limit =? 0) || (MAX_HELPER_PAGE <? limit)) (BadRow "cache helper page limit") in
  let? _ := require_ci_ready c in
  let? _ := from_option (λ id, let? _ := helper_kind id in Ok tt) (Ok tt) after in
  let rows := keyset c HELPER sn_pending (default "" after) limit in
  let? owner := registry_owner c in
  let? items := decode_all (λ s, helper_decode (sn_detail s) (sn_id s) owner)
                  (take (Z.to_nat limit) rows) in
  Ok {| hpg_items := items;
        hpg_next_nonce :=
          if limit <? Z.of_nat (length rows)
          then (λ r, hi_nonce (hr_intent r)) <$> last items else None |}.
Definition act_engine (c : CiDb) (run : string) : result RegError (option ActEngineRecord) :=
  let? _ := require_ci_ready c in
  let? owner := registry_owner c in
  let? _ := act_kind run in
  match ci_current c !! (ENGINE, run) with
  | None => Ok None
  | Some row =>
      let? record := decode (sn_detail row) run in
      let? _ := refuse (negb (ar_registry_id record ==? owner)) ResourceIdentityConflict in
      Ok (Some record)
  end.
Definition cache_helper (c : CiDb) (nonce : string) :
    result RegError (option CacheHelperRecord) :=
  let? _ := require_ci_ready c in
  let? owner := registry_owner c in
  let? _ := helper_kind nonce in
  match ci_current c !! (HELPER, nonce) with
  | None => Ok None
  | Some row => let? record := helper_decode (sn_detail row) nonce owner in Ok (Some record)
  end.
End lifecycle.
