(* ===== verification/ActInvariant.v ===== *)
(** * ActInvariant: what every write keeps of the CI tables

    The laws the theorems assume of the JSON and number texts, the invariant of the tables, and
    the effect of [append], [forget] and [state_admit] on it. *)

From Stdlib Require Import Ascii SpecFloat.
From S2P Require Import RegistryInvariant.
From S2P Require Export ActLifecycle.

Local Open Scope string_scope.
Local Open Scope list_scope.
Local Open Scope Z_scope.
Local Open Scope bosn_scope.

Lemma has_true {A} (o : option A) : has o = true ↔ is_Some o.
Proof. apply bool_decide_eq_true. Qed.
Lemma has_false {A} (o : option A) : has o = false ↔ o = None.
Proof. unfold has. rewrite bool_decide_eq_false. symmetry. apply eq_None_not_Some. Qed.

(** The laws of the texts: records of valid intents at finite times and finite
    numbers read back as written. *)
Class CodecLaws `{!Codecs, !HelperCodecs} : Prop := {
  engine_roundtrip r t :
    record_validate r = Ok tt → engine_json r = Some t → engine_parse t = Some r;
  helper_roundtrip r t :
    helper_intent_validate (hr_intent r) = Ok tt → is_finite (hr_updated_at r) = true →
    helper_json r = Some t → helper_parse t = Some r;
  f64_roundtrip x : is_finite x = true → f64_of_text (f64_text x) = Some x;
}.

Definition MAX_ROWS : nat := Z.to_nat RECOVERY_TOTAL.

Section invariant.
Context `{Co : Codecs, He : HelperCodecs, Cu : CursorCodecs, La : !CodecLaws}.

(** ** Rows *)

Lemma decode_Ok t run r :
  decode t run = Ok r ↔
  engine_parse t = Some r ∧ record_validate r = Ok tt ∧ ai_run_id (ar_intent r) = run.
Proof.
  unfold decode. split.
  - intros H. results. booleans. by subst.
  - intros (-> & Hv & <-). simpl. by rewrite Hv, bool_decide_true.
Qed.

Definition helper_valid (r : CacheHelperRecord) (nonce owner : string) : Prop :=
  helper_intent_validate (hr_intent r) = Ok tt ∧ hi_nonce (hr_intent r) = nonce ∧
  is_finite (hr_updated_at r) = true ∧ hi_registry_id (hr_intent r) = owner.
Lemma helper_decode_Ok t nonce owner r :
  helper_decode t nonce owner = Ok r → helper_parse t = Some r ∧ helper_valid r nonce owner.
Proof. unfold helper_decode. intros H. results. booleans. by subst. Qed.

(** A row is the snapshot of the record in its own text. *)
Definition engine_row (owner run : string) (s : Snapshot) (r : ActEngineRecord) : Prop :=
  decode (sn_detail s) run = Ok r ∧ ar_registry_id r = owner ∧
  s = engine_snapshot r (sn_detail s).
Definition helper_row (owner nonce : string) (s : Snapshot) (r : CacheHelperRecord) : Prop :=
  helper_decode (sn_detail s) nonce owner = Ok r ∧ s = helper_snapshot r (sn_detail s).
Definition row_ok (owner : string) (k : Z * string) (s : Snapshot) : Prop :=
  (k.1 = ENGINE ∧ ∃ r, engine_row owner k.2 s r) ∨
  (k.1 = HELPER ∧ ∃ r, helper_row owner k.2 s r).

Lemma strip_helper_kind nonce : strip_prefix ACT_PREFIX (HELPER_PREFIX +:+ nonce) = None.
Proof. reflexivity. Qed.
Lemma parse_engine run detail owner o :
  parse (ACT_PREFIX +:+ run) detail owner = Ok o →
  ∃ s r, o = Some s ∧ sn_detail s = detail ∧ engine_row owner run s r.
Proof.
  unfold parse. rewrite strip_prefix_app. intros H. results. booleans. subst.
  exists (engine_snapshot a0 detail), a0. done.
Qed.
Lemma parse_helper nonce detail owner o :
  parse (HELPER_PREFIX +:+ nonce) detail owner = Ok o →
  ∃ s r, o = Some s ∧ sn_detail s = detail ∧ helper_row owner nonce s r.
Proof.
  unfold parse. rewrite strip_helper_kind, strip_prefix_app. intros H. results. subst.
  exists (helper_snapshot a0 detail), a0. done.
Qed.
Lemma engine_row_key owner run s r : engine_row owner run s r → sn_key s = (ENGINE, run).
Proof. intros (H & _ & ->). apply decode_Ok in H as (_ & _ & <-). done. Qed.
Lemma helper_row_key owner nonce s r : helper_row owner nonce s r → sn_key s = (HELPER, nonce).
Proof. intros (H & ->). apply helper_decode_Ok in H as (_ & _ & <- & _). done. Qed.
Lemma row_ok_key owner k s : row_ok owner k s → sn_key s = k.
Proof.
  destruct k as [f i]; unfold row_ok; simpl; intros [(-> & r & H)|(-> & r & H)].
  - by eapply engine_row_key.
  - by eapply helper_row_key.
Qed.

(** Times of valid rows are finite and not negative. *)
Lemma intent_validate_time i :
  intent_validate i = Ok tt →
  is_finite (ai_created_at i) = true ∧ f64_lt (ai_created_at i) f64_zero = false.
Proof. unfold intent_validate. intros H. results. booleans. done. Qed.
Lemma record_validate_intent r : record_validate r = Ok tt → intent_validate (ar_intent r) = Ok tt.
Proof. unfold record_validate. intros H. by results. Qed.
Lemma record_validate_time r : record_validate r = Ok tt → is_finite (ar_updated_at r) = true.
Proof. unfold record_validate. intros H. results. booleans. done. Qed.
Lemma helper_validate_time i :
  helper_intent_validate i = Ok tt →
  is_finite (hi_created_at i) = true ∧ f64_lt (hi_created_at i) f64_zero = false.
Proof.
  unfold helper_intent_validate. intros H. results; booleans; done.
Qed.
Definition time_ok (t : f64) : Prop := is_finite t = true ∧ f64_lt t f64_zero = false.
Lemma row_ok_created owner k s : row_ok owner k s → time_ok (sn_created_at s).
Proof.
  intros [(_ & r & H & _ & ->)|(_ & r & H & ->)].
  - apply decode_Ok in H as (_ & H & _).
    by apply intent_validate_time, record_validate_intent.
  - apply helper_decode_Ok in H as (_ & H & _). by apply helper_validate_time.
Qed.

(** ** The invariant *)

Definition floor_at (c : CiDb) (f : option f64) : Prop := floor c = Ok f.
Record ci_wf (owner : string) (c : CiDb) : Prop := {
  wf_owner : db_meta (ci_db c) !! "registry_id" = Some owner;
  wf_rows k s : ci_current c !! k = Some s → row_ok owner k s;
  wf_ids id k : ci_events c !! id = Some k → id < db_next_event (ci_db c);
  wf_present id k : ci_events c !! id = Some k → is_Some (ci_current c !! k);
  wf_tail f i : (length (tail_of c f i) ≤ AUDIT_TAIL)%nat;
  wf_size : (size (ci_current c) ≤ MAX_ROWS)%nat;
  wf_floor : ∃ f, floor c = Ok f;
}.

Lemma elem_of_tail c f i id : id ∈ tail_of c f i ↔ ci_events c !! id = Some (f, i).
Proof.
  unfold tail_of. rewrite list_elem_of_In, <- in_rev, <- list_elem_of_In, elem_of_btree_keys.
  split.
  - intros [k Hk]. apply map_lookup_filter_Some in Hk as [? Heq]. simpl in Heq. by subst.
  - intros H. exists (f, i). by apply map_lookup_filter_Some.
Qed.
Definition events_of (m : gmap Z (Z * string)) (k : Z * string) : gmap Z (Z * string) :=
  filter (λ kv, kv.2 = k) m.
Lemma length_audit_tail c f i : length (tail_of c f i) = size (events_of (ci_events c) (f, i)).
Proof.
  unfold tail_of, btree_keys. rewrite length_rev, length_fmap, btree_iter_perm.
  by rewrite length_map_to_list.
Qed.

(** ** Forgetting *)

Lemma delete_events_meta l d :
  db_meta (foldl delete_event d l) = db_meta d ∧
  db_next_event (foldl delete_event d l) = db_next_event d ∧
  db_leases (foldl delete_event d l) = db_leases d.
Proof.
  revert d. induction l as [|id l IH]; intros d; [done|]. simpl.
  by destruct (IH (delete_event d id)) as (-> & -> & ->).
Qed.

Lemma floor_meta c c' :
  db_meta (ci_db c) !! FLOOR = db_meta (ci_db c') !! FLOOR → floor c = floor c'.
Proof. unfold floor. by intros ->. Qed.

Lemma floor_time c p : floor c = Ok (Some p) → time_ok p.
Proof. unfold floor. intros H. results; booleans; simplify_eq; done. Qed.

(** The floor of [c'] is at least that of [c]. *)
Definition floor_le (c c' : CiDb) : Prop :=
  ∀ p, floor c = Ok (Some p) → ∃ f, floor c' = Ok (Some f) ∧ f64_le p f = true.
(** Forgetting a row removes it and its events and raises the floor to its creation. *)
Record forgot (c : CiDb) (s : Snapshot) (c' : CiDb) : Prop := {
  fg_current : ci_current c' = delete (sn_key s) (ci_current c);
  fg_events : ci_events c' = filter (λ kv, kv.2 ≠ sn_key s) (ci_events c);
  fg_next : db_next_event (ci_db c') = db_next_event (ci_db c);
  fg_owner : db_meta (ci_db c') !! "registry_id" = db_meta (ci_db c) !! "registry_id";
  fg_floor : ∃ f, floor c' = Ok (Some f) ∧ f64_le (sn_created_at s) f = true;
  fg_raise : floor_le c c';
  fg_leases : db_leases (ci_db c') = db_leases (ci_db c);
}.
Lemma forget_spec c s c' : time_ok (sn_created_at s) → forget c s = Ok c' → forgot c s c'.
Proof.
  intros [Hfin Hpos] H. unfold forget in H. results. subst c'.
  cut (∃ f, floor (remove_identity (if is_some_and a (λ v, f64_eq v
         (from_option (λ v, f64_max v (sn_created_at s)) (sn_created_at s) a)) then c else
         put_meta c FLOOR (f64_text (from_option (λ v, f64_max v (sn_created_at s))
           (sn_created_at s) a))) (sn_family s) (sn_id s)) = Ok (Some f) ∧
       f64_le (sn_created_at s) f = true ∧ is_none_or a (λ p, f64_le p f) = true).
  { intros (f & Hf & Hle & Hp). split; [by case_match|by case_match| | | | |].
    - simpl. rewrite (proj1 (proj2 (delete_events_meta _ _))). by case_match.
    - simpl. rewrite (proj1 (delete_events_meta _ _)). case_match; [done|].
      simpl. by rewrite lookup_insert_ne.
    - by exists f.
    - intros p Hc. rewrite Hv in Hc. simplify_eq. by exists f.
    - simpl. rewrite (proj2 (proj2 (delete_events_meta _ _))). by case_match. }
  set (advanced := from_option _ _ a) in *.
  assert (time_ok advanced ∧ f64_le (sn_created_at s) advanced = true ∧
          is_none_or a (λ p, f64_le p advanced) = true) as (Hadv & Hle & Hprev).
  { unfold advanced. destruct a as [p|]; simpl;
      [|split_and!; [done|by apply f64_le_refl|done]].
    destruct (floor_time c p Hv) as [Hp Hp0].
    destruct (f64_max_spec p (sn_created_at s)) as (? & ? & ?); [done..|].
    split_and!; [split; [done|]|done..].
    unfold f64_max. by repeat case_match. }
  destruct Hadv as [Hafin Hapos].
  destruct (is_some_and a (λ v, f64_eq v advanced)) eqn:Hsame; simpl.
  - destruct a as [p|]; [|done]. exists p. simpl in Hsame.
    assert (f64_le advanced p = true).
    { unfold f64_eq, f64_le, SFeqb, SFleb in *. rewrite f64_compare_opp.
      by destruct (SFcompare p advanced) as [[]|]. }
    split_and!; [|by eapply f64_le_trans|by eapply f64_le_trans].
    rewrite <- Hv. apply floor_meta. simpl. by rewrite (proj1 (delete_events_meta _ _)).
  - exists advanced. split_and!; [|done..]. unfold floor. simpl.
    rewrite (proj1 (delete_events_meta _ _)). simpl. rewrite lookup_insert_eq.
    rewrite f64_roundtrip by done. simpl. by rewrite Hafin, Hapos.
Qed.

(** ** Admission *)

Definition fresh_enough (c : CiDb) (s : Snapshot) : Prop :=
  ∃ f, floor c = Ok f ∧ is_some_and f (λ f, f64_le (sn_created_at s) f) = false.
(** What lets a snapshot in: its identity is known; or it is newer than the floor, and there is
    room, if need be after forgetting one helper that is proved gone. *)
Inductive admitted (c : CiDb) (s : Snapshot) : CiDb → Prop :=
| admitted_known : is_Some (ci_current c !! sn_key s) → admitted c s c
| admitted_room :
    ci_current c !! sn_key s = None → fresh_enough c s →
    (size (ci_current c) < MAX_ROWS)%nat → admitted c s c
| admitted_recycled old c' :
    ci_current c !! sn_key s = None → fresh_enough c s →
    ci_current c !! sn_key old = Some old → sn_family old = HELPER → sn_pending old = false →
    forgot c old c' → admitted c s c'.

Lemma recycle_spec owner owner' c s binding now rows c' :
  ci_wf owner c → (∀ row, row ∈ rows → ∃ k, ci_current c !! k = Some row ∧ sn_family row = HELPER) →
  recycle c s binding owner' now rows = Ok c' →
  ∃ old, ci_current c !! sn_key old = Some old ∧ sn_family old = HELPER ∧
         sn_pending old = false ∧ forgot c old c'.
Proof.
  intros Hwf. induction rows as [|row rows IH]; simpl; intros Hrows Hrec; [done|].
  results; [apply IH; [|done]; intros; apply Hrows; by constructor|].
  destruct (Hrows row ltac:(constructor)) as (k & Hk & Hfam).
  pose proof (wf_rows _ _ Hwf _ _ Hk) as Hok. pose proof (row_ok_key _ _ _ Hok) as Hkey.
  pose proof (row_ok_created _ _ _ Hok) as Htime.
  destruct Hok as [(_ & r & _ & _ & Hs)|(_ & r & Hr & Hs)];
    [rewrite Hs in Hfam; discriminate|].
  apply helper_decode_Ok in Hr as [Hr _]. apply helper_decode_Ok in Hv as [Hv _].
  assert (a = r) as -> by congruence. rewrite <- Hs in Hrec.
  exists row. booleans. split_and!; [by rewrite Hkey|done| |by apply forget_spec].
  rewrite Hs. simpl. by rewrite bool_decide_true.
Qed.

Lemma admit_spec owner w c s recovery c' :
  ci_wf owner c → state_admit w c s recovery = Ok c' → admitted c s c'.
Proof.
  intros Hwf H. unfold state_admit in H. destruct (has _) eqn:Hhas.
  { results. subst. apply has_true in Hhas. by constructor. }
  apply has_false in Hhas. results.
  all: assert (fresh_enough c s) by (by exists a).
  - unfold recovery_admit in H. results.
    + apply (recycle_spec owner) in H as (old & ? & ? & ? & ?);
        [by eapply admitted_recycled|done|].
      intros row Hrow. unfold attempts in Hrow. eapply sublist_elem_of in Hrow; [|apply sublist_take].
      apply elem_of_filterb in Hrow as [Hi Hval].
      apply elem_of_btree_values in Hval as [k Hk]. booleans. by exists k.
    + subst. apply admitted_room; [done..|]. unfold counted, MAX_ROWS in *. booleans. lia.
  - subst. apply admitted_room; [done..|]. unfold counted, MAX_ROWS, CAPACITY, RECOVERY_TOTAL in *.
    booleans. lia.
Qed.

Lemma map_size_subseteq {V} (m1 m2 : gmap Z V) : m1 ⊆ m2 → (size m1 ≤ size m2)%nat.
Proof.
  intros H%map_to_list_submseteq%submseteq_length. by rewrite !length_map_to_list in H.
Qed.
Lemma forgot_size c s c' :
  is_Some (ci_current c !! sn_key s) → forgot c s c' →
  size (ci_current c) = S (size (ci_current c')).
Proof.
  intros [s' Hs] Hfg. rewrite (fg_current _ _ _ Hfg), map_size_delete_Some by by exists s'.
  assert (size (ci_current c) ≠ 0)%nat; [|lia]. intros E%map_size_empty_inv.
  by rewrite E, lookup_empty in Hs.
Qed.
Lemma forgot_wf owner c s c' : ci_wf owner c → forgot c s c' → ci_wf owner c'.
Proof.
  intros Hwf [Hcur Hev Hnext How (f & Hf & _) _ _]. split.
  - rewrite How. apply Hwf.
  - rewrite Hcur. intros k s' Hk. apply lookup_delete_Some in Hk as [_ Hk]. by apply Hwf.
  - intros id k. rewrite Hev, Hnext. intros [Hk _]%map_lookup_filter_Some. by eapply wf_ids.
  - intros id k. rewrite Hev, Hcur. intros [Hk Hne]%map_lookup_filter_Some. simpl in Hne.
    rewrite lookup_delete_ne by done. by eapply wf_present.
  - intros g i. rewrite length_audit_tail, Hev. etrans; [|apply (wf_tail _ _ Hwf g i)].
    rewrite length_audit_tail. apply map_size_subseteq. unfold events_of.
    apply map_filter_strong_subseteq_ext. by intros id k [? [? _]%map_lookup_filter_Some].
  - rewrite Hcur, map_size_delete. pose proof (wf_size _ _ Hwf).
    destruct (ci_current c !! sn_key s); unfold id; lia.
  - by exists (Some f).
Qed.
Lemma admitted_wf owner c s c' :
  ci_wf owner c → admitted c s c' →
  ci_wf owner c' ∧ (is_Some (ci_current c' !! sn_key s) ∨ (size (ci_current c') < MAX_ROWS)%nat).
Proof.
  intros Hwf [Hk|Hn _ Hsz|old c1 Hn _ Hold Hfam Hp Hfg]; [by auto|by auto|].
  split; [by eapply forgot_wf|right].
  pose proof (forgot_size c old c1 ltac:(by exists old) Hfg). pose proof (wf_size _ _ Hwf). lia.
Qed.

(** ** Appending *)

Record written (c : CiDb) (s : Snapshot) (c' : CiDb) : Prop := {
  wr_current : ci_current c' = <[sn_key s := s]> (ci_current c);
  wr_meta : db_meta (ci_db c') = db_meta (ci_db c);
  wr_next : db_next_event (ci_db c') = db_next_event (ci_db c) + 1;
  wr_events id k : ci_events c' !! id = Some k →
    ci_events c !! id = Some k ∨ (id = db_next_event (ci_db c) ∧ k = sn_key s);
  wr_tail : (∀ f i, length (tail_of c f i) ≤ AUDIT_TAIL)%nat →
            ∀ f i, (length (tail_of c' f i) ≤ AUDIT_TAIL)%nat;
}.

Lemma events_of_insert m id k k' :
  m !! id = None →
  events_of (<[id := k]> m) k' = if decide (k = k') then <[id := k]> (events_of m k') else events_of m k'.
Proof.
  intros Hn. unfold events_of. destruct (decide (k = k')) as [Heq|Hne].
  - by rewrite map_filter_insert_True.
  - rewrite map_filter_insert_False by done. by rewrite delete_id.
Qed.
Lemma events_of_delete m id k : events_of (delete id m) k = delete id (events_of m k).
Proof. apply map_filter_delete. Qed.

(** Retaining a new event leaves every tail within its bound. *)
Lemma retain_event_spec c k id :
  ci_events c !! id = None →
  let c' := retain_event c k.1 k.2 id in
  ci_current c' = ci_current c ∧ db_meta (ci_db c') = db_meta (ci_db c) ∧
  db_next_event (ci_db c') = db_next_event (ci_db c) ∧
  (∀ i v, ci_events c' !! i = Some v → ci_events c !! i = Some v ∨ (i = id ∧ v = k)) ∧
  ((∀ f i, length (tail_of c f i) ≤ AUDIT_TAIL)%nat →
   ∀ f i, (length (tail_of c' f i) ≤ AUDIT_TAIL)%nat).
Proof.
  destruct k as [f0 i0]. simpl. intros Hn. unfold retain_event.
  rewrite (proj2 (has_false _) Hn).
  set (c1 := mkCiDb _ _ _).
  assert (∀ i v, ci_events c1 !! i = Some v → ci_events c !! i = Some v ∨ (i = id ∧ v = (f0, i0))) as Hev.
  { simpl. intros i v [[<- <-]|[_ ?]]%lookup_insert_Some; auto. }
  assert ((∀ f i, length (tail_of c f i) ≤ AUDIT_TAIL)%nat →
          ∀ f i, (f, i) ≠ (f0, i0) → (length (tail_of c1 f i) ≤ AUDIT_TAIL)%nat) as Hother.
  { intros Hb f i Hne. specialize (Hb f i). rewrite length_audit_tail in *. simpl.
    rewrite events_of_insert by done. by rewrite decide_False. }
  destruct (tail_of c1 f0 i0 !! AUDIT_TAIL) as [old|] eqn:Hold; simpl; split_and!; try done.
  - intros i v [_ ?]%lookup_delete_Some. by apply Hev.
  - intros Hb f i. specialize (Hother Hb f i). rewrite length_audit_tail in *. simpl in *.
    rewrite events_of_delete.
    destruct (decide ((f, i) = (f0, i0))) as [[= -> ->]|Hne].
    + apply list_elem_of_lookup_2, elem_of_tail in Hold. simpl in Hold.
      rewrite map_size_delete. unfold events_of at 1.
      rewrite (map_lookup_filter_Some_2 _ _ _ (f0, i0)) by done. simpl.
      specialize (Hb f0 i0). rewrite length_audit_tail in Hb.
      rewrite events_of_insert by done. rewrite decide_True by done.
      rewrite map_size_insert_None; [lia|]. unfold events_of.
      apply map_lookup_filter_None. by left.
    + etrans; [|exact (Hother Hne)]. apply map_size_subseteq, delete_subseteq.
  - intros Hb f i. destruct (decide ((f, i) = (f0, i0))) as [[= -> ->]|Hne]; [|by apply Hother].
    apply lookup_ge_None in Hold. exact Hold.
Qed.

Lemma append_spec owner w c at_ kind detail mode s c' :
  ci_wf owner c → (∀ id, mode ≠ Import id) → parse kind detail owner = Ok (Some s) →
  append w c at_ kind detail mode = Ok c' →
  ∃ c1, admitted c s c1 ∧ written c1 s c'.
Proof.
  intros Hwf Hmode Hparse H. unfold append in H.
  unfold registry_owner in H. rewrite (wf_owner _ _ Hwf) in H. simpl in H. rewrite Hparse in H.
  destruct (match mode with Event => _ | _ => _ end) as [c1|] eqn:Hadm; [|done].
  assert (admitted c s c1) as Had.
  { destruct mode as [|id|]; [| |].
    - by eapply admit_spec.
    - by destruct (Hmode id).
    - by eapply admit_spec. }
  exists c1. split; [done|]. destruct (admitted_wf _ _ _ _ Hwf Had) as [Hwf1 _].
  assert (insert_event (ci_db c1) at_ kind detail mode =
          Ok (add_event (ci_db c1) at_ kind detail, db_next_event (ci_db c1))) as Hins.
  { destruct mode as [|id|]; [done|by destruct (Hmode id)|done]. }
  rewrite Hins in H. clear Hins Hadm. results.
  set (c2 := with_db c1 _) in *.
  assert (∀ id k, ci_events c2 !! id = Some k → id < db_next_event (ci_db c1)) as Hids
    by (intros; by eapply (wf_ids _ _ Hwf1)).
  assert (is_none_or (head (tail_of c2 (sn_family s) (sn_id s)))
            (λ id, id <? db_next_event (ci_db c1)) = true) as Hnew.
  { destruct (tail_of c2 _ _) as [|id l] eqn:Ht; [done|]. simpl. apply Z.ltb_lt.
    apply (Hids id (sn_family s, sn_id s)), elem_of_tail. rewrite Ht. constructor. }
  rewrite Hnew in H. subst c'. simpl.
  destruct (retain_event_spec (install c2 s true) (sn_key s) (db_next_event (ci_db c1)))
    as (Hcur & Hmeta & Hnext & Hev & Htail).
  { destruct (ci_events _ !! _) eqn:E; [|done]. apply Hids in E. lia. }
  split; [exact Hcur|exact Hmeta|exact Hnext|exact Hev|exact Htail].
Qed.

Lemma written_wf owner c s c' :
  ci_wf owner c → row_ok owner (sn_key s) s →
  is_Some (ci_current c !! sn_key s) ∨ (size (ci_current c) < MAX_ROWS)%nat →
  written c s c' → ci_wf owner c'.
Proof.
  intros Hwf Hrow Hroom [Hcur Hmeta Hnext Hev Htail]. split.
  - rewrite Hmeta. apply Hwf.
  - rewrite Hcur. intros k s' [[<- <-]|[_ ?]]%lookup_insert_Some; [done|by apply Hwf].
  - intros id k Hk. rewrite Hnext. apply Hev in Hk as [Hk|[-> _]]; [|lia].
    apply (wf_ids _ _ Hwf) in Hk. lia.
  - intros id k Hk. rewrite Hcur. destruct (decide (sn_key s = k)) as [->|].
    { rewrite lookup_insert_eq. by eexists. }
    rewrite lookup_insert_ne by done. apply Hev in Hk as [Hk|[_ ->]]; [|done].
    by eapply wf_present.
  - apply Htail, Hwf.
  - rewrite Hcur, map_size_insert. pose proof (wf_size _ _ Hwf).
    destruct Hroom as [[? ->]|Hlt]; [done|].
    destruct (ci_current c !! sn_key s); unfold id; lia.
  - rewrite (floor_meta c' c); [apply Hwf|by rewrite Hmeta].
Qed.
End invariant.
