(* ===== verification/ActTransitions.v ===== *)
(** * ActTransitions: every operation is one of a few transitions

    The order in which the record of one engine may change ([lifecycle]), the operations that
    write the CI tables as values ([ci_op]) and their step relation, and the proof that each
    step is a [transition]: a record that follows the lifecycle, a fresh identity, a helper that
    changes state, rows forgotten, or a write that leaves the CI tables alone. *)

From S2P Require Import RegistryInvariant.
From S2P Require Export ActInvariant.

Local Open Scope string_scope.
Local Open Scope list_scope.
Local Open Scope Z_scope.
Local Open Scope bosn_scope.
Local Open Scope act_scope.

(** ** The order of records *)

Definition kept {A} (o o' : option A) : Prop := ∀ a, o = Some a → o' = Some a.
Definition rank (s : ActEngineState) : nat :=
  match s with Pending => 0 | Registered => 1 | CleanupRequired => 2 | Terminal => 3 end%nat.

Record lifecycle (r r' : ActEngineRecord) : Prop := {
  lc_intent : ar_intent r' = ar_intent r;
  lc_registry : ar_registry_id r' = ar_registry_id r;
  lc_schema : ar_schema_version r' = ar_schema_version r;
  lc_time : f64_le (ar_updated_at r) (ar_updated_at r') = true;
  lc_state : (rank (ar_state r) ≤ rank (ar_state r'))%nat;
  lc_engine : kept (ar_engine_id r) (ar_engine_id r');
  lc_execution : kept (ar_execution r) (ar_execution r');
  lc_outcome : kept (ar_outcome r) (ar_outcome r');
  lc_removal : kept (ar_removal r) (ar_removal r');
  lc_binding : kept (ar_binding r) (ar_binding r');
  lc_recovery : kept (ar_tool_recovery r) (ar_tool_recovery r');
  lc_reserved : kept (ar_reserved_at r) (ar_reserved_at r');
  lc_stopped : kept (ar_source_stopped_at r) (ar_source_stopped_at r');
  lc_disposal : kept (ar_source_disposal_at r) (ar_source_disposal_at r');
  lc_create : ar_create_requested r = Some true → ar_create_requested r' = Some true;
  lc_claim token : ar_execution_claim r = Some token →
    ar_execution_claim r' = Some token ∨
    (ai_spare (ar_intent r) = true ∧ ar_binding r = None ∧ is_Some (ar_binding r'));
  lc_completion done : ar_completion r = Some done →
    ∃ done', ar_completion r' = Some done' ∧ tc_generation done' = tc_generation done ∧
      tc_completed_at done' = tc_completed_at done ∧
      kept (tc_reference_released_at done) (tc_reference_released_at done');
}.

Lemma kept_refl {A} (o : option A) : kept o o.
Proof. by intros a. Qed.
Lemma kept_none {A} (o : option A) : kept None o.
Proof. by intros a. Qed.
Lemma kept_trans {A} (o o' o'' : option A) : kept o o' → kept o' o'' → kept o o''.
Proof. intros H H' a Ha. auto. Qed.
#[local] Hint Resolve kept_refl kept_none kept_trans : core.
Lemma kept_absent {A} (o o' : option A) : has o = false → kept o o'.
Proof. intros ->%has_false. done. Qed.

Lemma lifecycle_trans r1 r2 r3 : lifecycle r1 r2 → lifecycle r2 r3 → lifecycle r1 r3.
Proof.
  intros H H'. split; try (etrans; [apply H'|apply H]); try (eapply kept_trans; [apply H|apply H']).
  - eapply f64_le_trans; [apply H|apply H'].
  - etrans; [apply H|apply H'].
  - intros. by apply H', H.
  - intros token Ht. destruct (lc_claim _ _ H _ Ht) as [Ht'|(Hs & Hb & b & Hb')].
    + destruct (lc_claim _ _ H' _ Ht') as [?|(Hs & Hb & Hb')]; [by left|right].
      rewrite <- (lc_intent _ _ H). split_and!; [done| |done].
      destruct (ar_binding r1) as [b|] eqn:E; [|done].
      pose proof (lc_binding _ _ H _ E). congruence.
    + right. split_and!; [done|done|]. exists b. by apply H'.
  - intros done Hd. destruct (lc_completion _ _ H _ Hd) as (d2 & Hd2 & ? & ? & ?).
    destruct (lc_completion _ _ H' _ Hd2) as (d3 & Hd3 & ? & ? & ?).
    exists d3. split_and!; [done|congruence|congruence|eauto].
Qed.
Lemma lifecycle_refl r : is_finite (ar_updated_at r) = true → lifecycle r r.
Proof. intros Hf. split; auto using f64_le_refl. intros done Hd. exists done. auto. Qed.

(** ** Operations and steps *)

(** The writes of a running daemon. The one-time import of an old database ([WriteMode::Import])
    and the backfill of a migration, which skip the admission of new identities, are not among
    them: a history starts after them, from an empty authority. *)
Inductive ci_op :=
| OpBegin (intent : ActEngineIntent)
| OpRequestCreate (run : string) (at_ : f64)
| OpLegacyUncertain (run : string) (at_ : f64)
| OpRegister (run : string) (observed : ActEngineObservation) (at_ : f64)
| OpRecover (run : string) (observed : ActEngineObservation) (at_ : f64)
| OpClaim (intent : ActEngineIntent) (observed : ActEngineObservation) (token : string) (at_ : f64)
| OpClaimSpare (spare : string) (observed : ActEngineObservation) (from token : string)
    (binding : ActEngineBinding) (at_ : f64)
| OpExecution (run token : string) (outcome : ActRunOutcome) (at_ : f64)
| OpExecutionCleanup (run token : string) (outcome : ActRunOutcome) (at_ : f64)
| OpCleanup (run : string) (outcome : ActRunOutcome) (at_ : f64)
| OpFinalize (run : string) (proof : ActEngineRemovalProof) (at_ : f64)
| OpBeginRecovery (run token : string) (created expires : Z)
| OpAcknowledge (run token : string) (intent : ActToolRecoveryIntent) (at_ : f64)
| OpSourceStopped (run : string) (proof : ActToolSourceStopProof) (at_ : f64)
| OpComplete (run : string) (proof : ActToolRecoveryPublicationProof) (at_ : f64)
| OpRelease (run : string) (intent : ActToolRecoveryIntent) (at_ : f64)
| OpDispose (run : string) (at_ : f64)
| OpBeginHelper (intent : CacheHelperIntent)
| OpRegisterHelper (nonce id : string) (at_ : f64)
| OpFinishHelper (nonce id : string) (at_ : f64)
| OpFinishAbsent (nonce : string) (at_ : f64)
| OpMaintain (now : f64) (limit : Z).

(** The tables other than the CI state, changed by anything else the registry does: it keeps the
    identity and the floor, and row IDs only grow. *)
Definition elsewhere (d d' : Db) : Prop :=
  db_meta d' !! "registry_id" = db_meta d !! "registry_id" ∧
  db_meta d' !! FLOOR = db_meta d !! FLOOR ∧ db_next_event d ≤ db_next_event d'.
Lemma elsewhere_refl d : elsewhere d d.
Proof. repeat split; lia. Qed.

Section transitions.
Context `{Co : Codecs, He : HelperCodecs, Cu : CursorCodecs, La : !CodecLaws}.
Context (foreign_keys : bool).

Definition apply_op (w : World) (op : ci_op) (c : CiDb) : result RegError CiDb :=
  match op with
  | OpBegin i => begin_act_engine w c i
  | OpRequestCreate run t => request_act_create w c run t
  | OpLegacyUncertain run t => mark_legacy_act_create_uncertain w c run t
  | OpRegister run o t => register_act_engine foreign_keys w c run o t
  | OpRecover run o t => recover_act_engine foreign_keys w c run o t
  | OpClaim i o token t => let? p := claim_act_execution w c i o token t in Ok p.1
  | OpClaimSpare s o from token b t => let? p := claim_act_spare w c s o from token b t in Ok p.1
  | OpExecution run token x t => record_act_execution w c run token x t
  | OpExecutionCleanup run token x t => request_act_execution_cleanup w c run token x t
  | OpCleanup run x t => request_act_cleanup w c run x t
  | OpFinalize run p t => finalize_act_cleanup w c run p t
  | OpBeginRecovery run token a b => begin_act_tool_recovery w c run token a b
  | OpAcknowledge run token i t => acknowledge_act_tool_recovery w c run token i t
  | OpSourceStopped run p t => record_act_tool_source_stopped w c run p t
  | OpComplete run p t => complete_act_tool_recovery w c run p t
  | OpRelease run i t => release_act_tool_recovery w c run i t
  | OpDispose run t => claim_act_tool_source_disposal w c run t
  | OpBeginHelper i => begin_cache_helper w c i
  | OpRegisterHelper n id t => register_cache_helper w c n id t
  | OpFinishHelper n id t => finish_cache_helper w c n id t
  | OpFinishAbsent n t => finish_absent_cache_helper w c n t
  | OpMaintain now limit => let? p := maintain_ci_state c now limit in Ok p.1
  end.

Inductive ci_step (c : CiDb) : CiDb → Prop :=
| step_op w op c' : apply_op w op c = Ok c' → ci_step c c'
| step_elsewhere d : elsewhere (ci_db c) d → ci_step c (with_db c d).
Definition ci_reachable (owner : string) : CiDb → Prop := rtc ci_step (CiDb_new owner).

(** ** Reading records back *)

Lemma existing_Ok c run r :
  existing c run = Ok r →
  ∃ row, ci_current c !! (ENGINE, run) = Some row ∧ decode (sn_detail row) run = Ok r ∧
    db_meta (ci_db c) !! "registry_id" = Some (ar_registry_id r).
Proof.
  unfold existing, act_record. intros H. results; simplify_eq. booleans. by eexists.
Qed.
Lemma existing_valid c run r : existing c run = Ok r → record_validate r = Ok tt.
Proof. intros (row & _ & H & _)%existing_Ok. by apply decode_Ok in H as (_ & ? & _). Qed.
Lemma verify_existing c run o r : verify_act_engine c run o = Ok r → existing c run = Ok r.
Proof. unfold verify_act_engine. intros H. by results; simplify_eq. Qed.

(** No pending helper may read this source. *)
Definition unread (c : CiDb) (source : string) : Prop :=
  ∀ k s, ci_current c !! k = Some s → sn_family s = HELPER → sn_pending s = true →
    sn_source s ≠ Some source.
Lemma pending_helper_None c column key :
  pending_helper c column key = Ok None →
  ∀ k s, ci_current c !! k = Some s → sn_family s = HELPER → sn_pending s = true →
    column s ≠ Some key.
Proof.
  unfold pending_helper. destruct (head _) eqn:Hh; intros H; [by results|].
  intros k s Hk Hf Hp Hc. assert (s ∈ filterb
    (λ s, (sn_family s =? HELPER) && sn_pending s && (column s ==? Some key))
    (map_to_list (ci_current c)).*2) as Hin.
  { apply elem_of_filterb. split.
    - rewrite Hf, Hp, bool_decide_true by done. done.
    - apply elem_of_rows. by exists k. }
  destruct (filterb _ _); [by apply not_elem_of_nil in Hin|done].
Qed.
Lemma source_unread c source helper :
  recovery_helper_for_source c source = Ok helper → has helper = false → unread c source.
Proof.
  unfold recovery_helper_for_source. intros H ->%has_false. results.
  by intros k s; apply (pending_helper_None c sn_source).
Qed.

(** ** Transitions *)

(** Once disposed of or terminal, nothing may start to read the source. *)
Definition disposed (r : ActEngineRecord) : Prop :=
  is_Some (ar_source_disposal_at r) ∨ ar_state r = Terminal.
Definition closes_source (c : CiDb) (r r' : ActEngineRecord) : Prop :=
  disposed r' → disposed r ∨ ∀ source, storage_volume_name (ar_intent r) = Some source → unread c source.

Inductive forgets (owner : string) : CiDb → CiDb → Prop :=
| forgets_refl c : forgets owner c c
| forgets_step c s c1 c2 :
    ci_current c !! sn_key s = Some s → sn_collectible s = true → forgot c s c1 →
    forgets owner c1 c2 → forgets owner c c2.

Inductive transition (owner : string) (c : CiDb) : CiDb → Prop :=
| tr_elsewhere d : elsewhere (ci_db c) d → transition owner c (with_db c d)
| tr_engine w d run r r' c' :
    elsewhere (ci_db c) d → existing c run = Ok r → lifecycle r r' → closes_source c r r' →
    store_act_record w (with_db c d) r' = Ok c' → transition owner c c'
| tr_begin w r' c' :
    act_record c (ai_run_id (ar_intent r')) = Ok None → ¬ disposed r' →
    store_act_record w c r' = Ok c' → transition owner c c'
| tr_helper w r r' c' :
    existing_helper c (hi_nonce (hr_intent r)) = Ok r → hr_state r ≠ HRemoved →
    hr_intent r' = hr_intent r → is_finite (hr_updated_at r') = true →
    write_helper w c r' Event = Ok c' → transition owner c c'
| tr_begin_helper w r' mode c' :
    (∀ id, mode ≠ Import id) → helper_intent_validate (hr_intent r') = Ok tt →
    helper_record c (hi_nonce (hr_intent r')) = Ok None →
    validate_recovery_helper_admission c (hr_intent r') = Ok tt →
    hr_updated_at r' = hi_created_at (hr_intent r') →
    write_helper w c r' mode = Ok c' → transition owner c c'
| tr_forget c1 d :
    forgets owner c c1 → elsewhere (ci_db c1) d → transition owner c (with_db c1 d).

Lemma tr_same owner c : transition owner c c.
Proof.
  replace c with (with_db c (ci_db c)) at 2 by by destruct c.
  apply tr_elsewhere, elsewhere_refl.
Qed.

Lemma with_same c : with_db c (ci_db c) = c.
Proof. by destruct c. Qed.
Lemma tr_update owner w c run r r' c' :
  existing c run = Ok r → lifecycle r r' → closes_source c r r' →
  store_act_record w c r' = Ok c' → transition owner c c'.
Proof.
  intros Hex Hl Hs Hst. eapply (tr_engine owner c w (ci_db c)); [apply elsewhere_refl|done..|].
  by rewrite with_same.
Qed.
Lemma check_time_le c run r t :
  existing c run = Ok r → check_time r t = Ok tt → f64_le (ar_updated_at r) t = true.
Proof.
  intros Hr%existing_valid%record_validate_time H. unfold check_time in H. results. booleans.
  by apply f64_not_lt_le.
Qed.
(** Records that were not cleaned up have no outcome and no removal. *)
Lemma open_outcome r :
  record_validate r = Ok tt → ar_state r = Pending ∨ ar_state r = Registered → ar_outcome r = None.
Proof.
  unfold record_validate. intros H Hst. results. clear -H Hst. booleans. apply has_false.
  repeat match goal with
  | Hx : (ar_state r ==? _) = false ∨ (_ || has (ar_outcome r)) = false |- _ =>
      destruct Hx as [Hx|Hx]; booleans; [|done]
  end.
  by destruct Hst.
Qed.
Lemma open_removal r :
  record_validate r = Ok tt → ar_state r ≠ Terminal → ar_removal r = None.
Proof.
  unfold record_validate. intros H Hst. results. clear -Hv1 Hst. booleans. apply has_false.
  match goal with Hx : Bool.eqb _ _ = true |- _ => apply Bool.eqb_prop in Hx; rewrite <- Hx end.
  by apply bool_decide_eq_false.
Qed.

(** A step that only adds to a record: open it and close the fields it leaves alone. *)
Ltac grow r :=
  destruct r; split; cbn in *; subst; auto using kept_absent, f64_max_ge_l;
  try (intros done Hdone; exists done; by auto); try (by intros).
(** A step that neither disposes of the source nor ends the record. *)
Ltac keeps_source r := intros Hd; left; destruct r; cbn in *; done.
Ltac update r := eapply tr_update; [eassumption| | |eassumption]; [grow r|try keeps_source r].
Ltac opening := intros H; results; booleans; simplify_eq/=.

Lemma tr_request_create owner w c run t c' :
  request_act_create w c run t = Ok c' → transition owner c c'.
Proof.
  unfold request_act_create. opening.
  pose proof (record_validate_time _ (existing_valid _ _ _ Hv)). update a.
Qed.
Lemma tr_legacy owner w c run t c' :
  mark_legacy_act_create_uncertain w c run t = Ok c' → transition owner c c'.
Proof.
  unfold mark_legacy_act_create_uncertain. opening.
  pose proof (record_validate_time _ (existing_valid _ _ _ Hv)).
  assert (f64_le (ar_updated_at a) t = true) by by apply f64_not_lt_le. update a.
Qed.
Lemma tr_claim owner w c i o token t p :
  claim_act_execution w c i o token t = Ok p → transition owner c p.1.
Proof.
  unfold claim_act_execution. opening. apply verify_existing in Hv0.
  pose proof (check_time_le _ _ _ _ Hv0 Hv1).
  assert (ar_execution_claim a0 = None) by by apply has_false. update a0.
Qed.
Lemma tr_claim_spare owner w c spare o from token b t p :
  claim_act_spare w c spare o from token b t = Ok p → transition owner c p.1.
Proof.
  unfold claim_act_spare. opening. apply verify_existing in Hv2.
  pose proof (check_time_le _ _ _ _ Hv2 Hv3).
  assert (ar_binding a2 = None) by by apply has_false.
  assert (ai_spare (ar_intent a2) = true) by done.
  update a2.
Qed.
Lemma tr_execution owner w c run token x t c' :
  record_act_execution w c run token x t = Ok c' → transition owner c c'.
Proof.
  unfold record_act_execution. opening. pose proof (check_time_le _ _ _ _ Hv Hv0). update a.
Qed.
Lemma tr_cleanup_inner owner w c run token x t c' :
  request_act_cleanup_inner w c run token x t = Ok c' → transition owner c c'.
Proof.
  unfold request_act_cleanup_inner. opening. pose proof (check_time_le _ _ _ _ Hv Hv0).
  assert (ar_state a = Pending ∨ ar_state a = Registered) as Hst
    by (match goal with Hx : _ ∨ _ |- _ => destruct Hx; booleans; first [by left|by right] end).
  pose proof (open_outcome _ (existing_valid _ _ _ Hv) Hst).
  assert (rank (ar_state a) ≤ 2)%nat by (destruct Hst as [-> | ->]; simpl; lia).
  update a. intros Hd. left. destruct Hd as [Hd|Hd]; [|by destruct a]. left. by destruct a.
Qed.
Lemma put_resource_elsewhere d v d' : put_resource d v = Ok d' → elsewhere d d'.
Proof.
  unfold put_resource, upsert_resource. intros H. repeat case_match; simplify_eq.
  all: repeat split; simpl; lia.
Qed.
Lemma put_use_elsewhere d v d' : put_resource_use foreign_keys d v = Ok d' → elsewhere d d'.
Proof.
  unfold put_resource_use. intros H. repeat case_match; simplify_eq. repeat split; simpl; lia.
Qed.
Lemma elsewhere_trans d1 d2 d3 : elsewhere d1 d2 → elsewhere d2 d3 → elsewhere d1 d3.
Proof. intros (? & ? & ?) (? & ? & ?). repeat split; [congruence..|lia]. Qed.

Lemma tr_register_identity owner w c run o t recovery c' :
  register_act_identity foreign_keys w c run o t recovery = Ok c' → transition owner c c'.
Proof.
  unfold register_act_identity. opening. apply verify_existing in Hv.
  pose proof (check_time_le _ _ _ _ Hv Hv0).
  assert (ar_engine_id a = None) by by apply has_false.
  eapply tr_engine; [|exact Hv| | |eassumption].
  - eapply elsewhere_trans; [by eapply put_resource_elsewhere|by eapply put_use_elsewhere].
  - destruct recovery; grow a; lia.
  - intros Hd. left. destruct recovery, a; cbn in *; subst; destruct Hd; first [by left|by right].
Qed.

Lemma tr_finalize owner w c run p t c' :
  finalize_act_cleanup w c run p t = Ok c' → transition owner c c'.
Proof.
  unfold finalize_act_cleanup. intros H.
  destruct (existing c run) as [r|] eqn:Hr; [|done].
  match type of H with context [store_act_record w _ ?x] => set (r' := x) in H end.
  assert (lifecycle r r' ∨ check_time r t ≠ Ok tt ∨ ar_state r ≠ CleanupRequired) as Hl.
  { destruct (decide (ar_state r = CleanupRequired)) as [Hst|]; [|by auto].
    destruct (check_time r t) as [[]|] eqn:Ht; [left|by auto].
    pose proof (check_time_le _ _ _ _ Hr Ht).
    assert (ar_removal r = None)
      by (apply open_removal; [by eapply existing_valid|congruence]).
    clear H. subst r'. grow r; lia. }
  clearbody r'.
  destruct (check_time r t) as [[]|] eqn:Ht; [|done].
  destruct (refuse _ (BadRow "act removal proof")) as [[]|] eqn:Hp; [|done]. apply refuse_Ok in Hp.
  booleans.
  destruct Hl as [Hl|[?|?]]; [|done..].
  destruct (match storage_volume_name (ar_intent r) with Some _ => _ | None => _ end)
    as [[]|] eqn:Hsrc; [|done].
  assert (∀ source, storage_volume_name (ar_intent r) = Some source → unread c source).
  { clear H. intros source Heq. rewrite Heq in Hsrc. results. by eapply source_unread. }
  destruct (if has (ar_engine_id r) then _ else _) as [d|] eqn:Hd; [|done].
  eapply (tr_engine owner c w d run r r'); [|done|done|by right|exact H].
  clear H. results; simplify_eq; repeat split; simpl; lia.
Qed.

Lemma tr_begin_recovery owner w c run token x y c' :
  begin_act_tool_recovery w c run token x y = Ok c' → transition owner c c'.
Proof.
  unfold begin_act_tool_recovery. opening; [apply tr_same|].
  pose proof (record_validate_time _ (existing_valid _ _ _ Hv)). update a.
Qed.
Lemma tr_acknowledge owner w c run token i t c' :
  acknowledge_act_tool_recovery w c run token i t = Ok c' → transition owner c c'.
Proof.
  unfold acknowledge_act_tool_recovery. opening; [apply tr_same|].
  pose proof (check_time_le _ _ _ _ Hv Hv0). update a.
Qed.
Lemma tr_source_stopped owner w c run p t c' :
  record_act_tool_source_stopped w c run p t = Ok c' → transition owner c c'.
Proof.
  unfold record_act_tool_source_stopped. opening; [apply tr_same|].
  pose proof (check_time_le _ _ _ _ Hv Hv0). update a.
Qed.
Lemma tr_complete owner w c run p t c' :
  complete_act_tool_recovery w c run p t = Ok c' → transition owner c c'.
Proof.
  unfold complete_act_tool_recovery. opening; [apply tr_same|].
  pose proof (check_time_le _ _ _ _ Hv Hv0). update a.
Qed.
Lemma tr_release owner w c run i t c' :
  release_act_tool_recovery w c run i t = Ok c' → transition owner c c'.
Proof.
  unfold release_act_tool_recovery. opening; [apply tr_same|].
  pose proof (check_time_le _ _ _ _ Hv Hv0). update a.
  intros done Hdone. simplify_eq. eexists. split_and!; [done..|]. by apply kept_absent.
Qed.
Lemma tr_dispose owner w c run t c' :
  claim_act_tool_source_disposal w c run t = Ok c' → transition owner c c'.
Proof.
  unfold claim_act_tool_source_disposal. opening; [apply tr_same..|].
  pose proof (check_time_le _ _ _ _ Hv Hv0). update a.
  intros _. right. intros source Heq. simplify_eq. by eapply source_unread.
Qed.

Lemma tr_begin_engine owner w c i c' : begin_act_engine w c i = Ok c' → transition owner c c'.
Proof.
  unfold begin_act_engine. intros H. results. booleans.
  match goal with Hx : has _ = false |- _ => apply has_false in Hx; subst end.
  eapply tr_begin; [| |exact H]; [done|]. by intros [[? ?]|?].
Qed.

Lemma existing_helper_Ok c nonce r :
  existing_helper c nonce = Ok r →
  hi_nonce (hr_intent r) = nonce ∧ helper_intent_validate (hr_intent r) = Ok tt ∧
  existing_helper c (hi_nonce (hr_intent r)) = Ok r.
Proof.
  intros H. pose proof H as H'. unfold existing_helper, helper_record in H. results; simplify_eq.
  apply helper_decode_Ok in Hv3 as (_ & ? & <- & _). done.
Qed.
Lemma tr_helper_update owner w c nonce r st id t c' :
  existing_helper c nonce = Ok r → hr_state r ≠ HRemoved → is_finite t = true →
  write_helper w c (with_helper r st id t) Event = Ok c' → transition owner c c'.
Proof.
  intros (_ & _ & Hr)%existing_helper_Ok Hst Ht Hw.
  by apply (tr_helper owner c w r (with_helper r st id t)).
Qed.
Lemma tr_register_helper owner w c n id t c' :
  register_cache_helper w c n id t = Ok c' → transition owner c c'.
Proof.
  unfold register_cache_helper. intros H. results; booleans; [subst; apply tr_same|].
  by eapply tr_helper_update.
Qed.
Lemma tr_finish_helper owner w c n id t c' :
  finish_cache_helper w c n id t = Ok c' → transition owner c c'.
Proof.
  unfold finish_cache_helper. intros H. results; booleans.
  eapply tr_helper_update; [done| |done..]. congruence.
Qed.
Lemma tr_finish_absent owner w c n t c' :
  finish_absent_cache_helper w c n t = Ok c' → transition owner c c'.
Proof.
  unfold finish_absent_cache_helper. intros H. results; booleans.
  eapply tr_helper_update; [done| |done..]. congruence.
Qed.
Lemma tr_begin_cache_helper owner w c i c' :
  begin_cache_helper w c i = Ok c' → transition owner c c'.
Proof.
  unfold begin_cache_helper. intros H. results.
  match goal with Hx : has _ = false |- _ => apply has_false in Hx; subst end.
  eapply tr_begin_helper; [| | | | |exact H]; try done. by destruct (has _).
Qed.

(** *** Retention *)

Lemma maintain_rows_spec owner before rows c n c' m :
  ci_wf owner c → NoDup (sn_key <$> rows) →
  (∀ s, s ∈ rows → ci_current c !! sn_key s = Some s) →
  (∀ s, s ∈ rows → sn_collectible s = true) →
  maintain_rows owner before (c, n) rows = Ok (c', m) →
  forgets owner c c' ∧
  Z.of_nat (size (ci_current c)) + n = Z.of_nat (size (ci_current c')) + m ∧
  (∀ k s, ci_current c !! k = Some s → ci_current c' !! k = None →
     s ∈ rows ∧ ∃ cm, ci_current c' ⊆ ci_current cm ∧
       db_leases (ci_db c') = db_leases (ci_db cm) ∧ referenced cm s = false) ∧
  ci_current c' ⊆ ci_current c ∧ db_leases (ci_db c') = db_leases (ci_db c).
Proof.
  revert c n. induction rows as [|row rows IH]; simpl; intros c n Hwf Hnd Hrows Hcoll H.
  { results. simplify_eq. split_and!; [constructor|lia| |done|done]. intros k s ? ?. congruence. }
  apply NoDup_cons in Hnd as [Hnot Hnd].
  pose proof (Hrows row ltac:(constructor)) as Hrow.
  pose proof (wf_rows _ _ Hwf _ _ Hrow) as Hok.
  unfold maintain_row in H.
  assert (∀ p, (if sn_family row =? ENGINE then Ok ACT_PREFIX
                else if sn_family row =? HELPER then Ok HELPER_PREFIX
                else Err (BadRow "CI retention family")) = Ok p →
          ∀ o, parse (p +:+ sn_id row) (sn_detail row) owner = Ok o → o = Some row) as Hparse.
  { intros p Hp o Ho. destruct Hok as [(Hf & r & Hr & _ & Hs)|(Hf & r & Hr & Hs)];
      simpl in Hf; rewrite Hf in Hp; simplify_eq/=.
    - apply parse_engine in Ho as (s & r' & -> & Hd & Hr' & _ & Hs').
      rewrite Hd in Hs', Hr'. simpl in Hr. assert (r' = r) as -> by congruence. congruence.
    - apply parse_helper in Ho as (s & r' & -> & Hd & Hr' & Hs').
      rewrite Hd in Hs', Hr'. simpl in Hr. assert (r' = r) as -> by congruence. congruence. }
  destruct (if sn_family row =? ENGINE then _ else _) as [p|] eqn:Hp; [|done].
  destruct (parse _ _ _) as [o|] eqn:Ho; [|done].
  rewrite (Hparse p eq_refl o Ho) in H. simpl in H. clear Hparse Ho Hp.
  destruct (refuse _ _); [|done].
  destruct (referenced c row) eqn:Href.
  - destruct (IH c n Hwf Hnd) as (Hf & Hn & Hgone & ? & ?); [| |done|].
    { intros s Hs. apply Hrows. by constructor. }
    { intros s Hs. apply Hcoll. by constructor. }
    split_and!; [done|done| |done|done]. intros k s Hk Hk'.
    destruct (Hgone k s Hk Hk') as (? & ?). split; [by constructor|done].
  - destruct (forget c row) as [c1|] eqn:Hfg; [|done]. simpl in H.
    apply forget_spec in Hfg; [|by eapply row_ok_created].
    destruct (IH c1 (n + 1)) as (Hf & Hn & Hgone & Hsub & Hls); [by eapply forgot_wf|done| | |done|].
    { intros s Hs. rewrite (fg_current _ _ _ Hfg), lookup_delete_ne; [apply Hrows; by constructor|].
      intros Heq. apply Hnot. rewrite Heq. by apply list_elem_of_fmap_2. }
    { intros s Hs. apply Hcoll. by constructor. }
    pose proof (forgot_size c row c1 ltac:(by exists row) Hfg).
    assert (ci_current c1 ⊆ ci_current c)
      by (rewrite (fg_current _ _ _ Hfg); apply delete_subseteq).
    assert (ci_current c' ⊆ ci_current c) by (by etrans).
    assert (db_leases (ci_db c') = db_leases (ci_db c))
      by (rewrite Hls; apply Hfg).
    split_and!; [|lia| |done|done].
    { eapply forgets_step; [done| |done|done]. by destruct (Hcoll row ltac:(constructor)). }
    intros k s Hk Hk'. destruct (decide (k = sn_key row)) as [->|Hne].
    + rewrite Hrow in Hk. simplify_eq. split; [by constructor|]. by exists c.
    + destruct (Hgone k s) as (? & ?); [|done|split; [by constructor|done]].
      by rewrite (fg_current _ _ _ Hfg), lookup_delete_ne.
Qed.

Lemma current_keys owner c :
  ci_wf owner c → sn_key <$> (map_to_list (ci_current c)).*2 = (map_to_list (ci_current c)).*1.
Proof.
  intros Hwf. rewrite <- list_fmap_compose. apply Forall_fmap_ext, Forall_forall.
  intros [k s] Hin. apply elem_of_map_to_list in Hin. simpl.
  by eapply row_ok_key, wf_rows.
Qed.
Lemma collectible_rows_spec owner c before after limit :
  ci_wf owner c →
  NoDup (sn_key <$> collectible_rows c before after limit) ∧
  ∀ s, s ∈ collectible_rows c before after limit →
    ci_current c !! sn_key s = Some s ∧ sn_collectible s = true ∧
    f64_lt (sn_collect_after s) before = true.
Proof.
  intros Hwf. unfold collectible_rows. set (rows := filterb _ _).
  assert (∀ s, s ∈ take (Z.to_nat limit) (sort_by (cmp_on position position_cmp) rows) →
    ci_current c !! sn_key s = Some s ∧ sn_collectible s = true ∧
    f64_lt (sn_collect_after s) before = true) as Hin.
  { intros s Hs. eapply sublist_elem_of in Hs; [|apply sublist_take].
    apply elem_of_sort_by, elem_of_filterb in Hs as [Hs Hrow]. booleans.
    apply elem_of_rows in Hrow as [k Hk]. split_and!; [|done..].
    by rewrite (row_ok_key _ _ _ (wf_rows _ _ Hwf _ _ Hk)). }
  split; [|done]. apply NoDup_fmap_2_strong.
  - intros s s' [Hs _]%Hin [Hs' _]%Hin Heq. congruence.
  - eapply sublist_NoDup; [|apply sublist_take]. rewrite sort_by_perm. apply NoDup_filterb.
    apply (NoDup_fmap_1 sn_key). rewrite (current_keys owner) by done. apply NoDup_fst_map_to_list.
Qed.

(** A retention pass forgets only rows that are settled and old, and counts them. *)
Lemma maintain_spec owner c now limit c' n :
  ci_wf owner c → maintain c now limit = Ok (c', n) →
  ∃ c1 d, forgets owner c c1 ∧ elsewhere (ci_db c1) d ∧ c' = with_db c1 d ∧
    Z.of_nat (size (ci_current c)) = Z.of_nat (size (ci_current c')) + n ∧
    ∀ k s, ci_current c !! k = Some s → ci_current c' !! k = None →
      sn_collectible s = true ∧ f64_lt (sn_collect_after s) (f64_sub now KEEP_SECONDS) = true ∧
      ∃ cm, ci_current c' ⊆ ci_current cm ∧ db_leases (ci_db c) = db_leases (ci_db cm) ∧
        referenced cm s = false.
Proof.
  intros Hwf H. unfold maintain in H.
  destruct (refuse _ _); [|done]. cbn beta iota in H.
  destruct (match db_meta _ !! CURSOR with Some _ => _ | None => _ end) as [after|]; [|done].
  destruct (refuse _ _); [|done]. cbn beta iota in H.
  unfold registry_owner in H. rewrite (wf_owner _ _ Hwf) in H. simpl in H.
  set (rows := collectible_rows _ _ _ _) in H.
  destruct (maintain_rows _ _ _ _) as [[c1 m]|] eqn:Hm; [|done].
  destruct (collectible_rows_spec owner c (f64_sub now KEEP_SECONDS)
    (from_option (λ cu, (cu_at cu, cu_family cu, cu_id cu)) (f64_of_Z (-1), 0, "") after) limit Hwf)
    as [Hnd Hrows].
  apply (maintain_rows_spec owner) in Hm as (Hf & Hn & Hgone & _ & Hls); [|done|done|..].
  2,3: intros s Hs; by apply Hrows in Hs as (? & ? & ?).
  assert (∃ d, elsewhere (ci_db c1) d ∧ c' = with_db c1 d ∧ n = m) as (d & Hd & -> & ->).
  { assert (∀ d', db_meta d' !! "registry_id" = db_meta (ci_db c1) !! "registry_id" →
      db_meta d' !! FLOOR = db_meta (ci_db c1) !! FLOOR →
      db_next_event d' = db_next_event (ci_db c1) → elsewhere (ci_db c1) d') as Helse
      by (intros; repeat split; [done|done|lia]).
    destruct (_ =? limit).
    - results. simplify_eq. eexists. split_and!; [|done|done].
      apply Helse; simpl; by rewrite ?lookup_insert_ne.
    - simplify_eq. destruct (has after).
      + eexists. split_and!; [|done|done]. apply Helse; simpl; by rewrite ?lookup_delete_ne.
      + exists (ci_db c1). split_and!; [apply elsewhere_refl|by rewrite with_same|done]. }
  exists c1, d. split_and!; [done|done|done|simpl; lia|].
  intros k s Hk Hk'. destruct (Hgone k s Hk Hk') as (Hin & Hcm).
  rewrite <- Hls. by apply Hrows in Hin as (_ & ? & ?).
Qed.

Lemma step_transition owner c c' :
  ci_wf owner c → ci_step c c' → transition owner c c'.
Proof.
  intros Hwf [w op c1 H|d Hd]; [|by apply tr_elsewhere].
  destruct op; cbn [apply_op] in H; try (by eauto using tr_request_create, tr_legacy, tr_execution,
    tr_cleanup_inner, tr_register_identity, tr_finalize, tr_begin_recovery, tr_acknowledge,
    tr_source_stopped, tr_complete, tr_release, tr_dispose, tr_begin_engine, tr_register_helper,
    tr_finish_helper, tr_finish_absent, tr_begin_cache_helper).
  - results. subst. by eapply tr_claim.
  - results. subst. by eapply tr_claim_spare.
  - unfold request_act_execution_cleanup in H. results. by eapply tr_cleanup_inner.
  - results. subst. unfold maintain_ci_state in Hv. results. destruct a as [c2 n].
    apply (maintain_spec owner) in Hv as (c1 & d & ? & ? & -> & _); [|done].
    by eapply tr_forget.
Qed.
End transitions.
