(* ===== verification/ActExample.v ===== *)
(** * ActExample: a registry of three records

    A concrete instance of the texts, with their laws, and one engine that begins, is cleaned
    up, ends and is forgotten. The theorems on the CI tables are applied to it. *)

From Stdlib Require Import Ascii SpecFloat.
From S2P Require Import ActTransitions.

Local Open Scope string_scope.
Local Open Scope list_scope.
Local Open Scope Z_scope.
Local Open Scope bosn_scope.
Local Open Scope act_scope.

#[global] Instance ActToolRecoveryCompletion_eq_dec : EqDecision ActToolRecoveryCompletion.
Proof. solve_decision. Defined.
#[global] Instance ActToolSourceContext_eq_dec : EqDecision ActToolSourceContext.
Proof. solve_decision. Defined.
#[global] Instance ActEngineRecord_eq_dec : EqDecision ActEngineRecord.
Proof. solve_decision. Defined.

#[global] Instance CacheHelperRole_eq_dec : EqDecision CacheHelperRole.
Proof. solve_decision. Defined.
#[global] Instance CacheHelperIntent_eq_dec : EqDecision CacheHelperIntent.
Proof. solve_decision. Defined.
#[global] Instance CacheHelperRecord_eq_dec : EqDecision CacheHelperRecord.
Proof. solve_decision. Defined.

(** ** Numbers as text: the bits of an injective code *)

Fixpoint pos_text (p : positive) : string :=
  match p with xH => "" | xO p => String "0" (pos_text p) | xI p => String "1" (pos_text p) end.
Fixpoint text_pos (s : string) : positive :=
  match s with
  | "" => xH
  | String a s => if Ascii.eqb a "0" then xO (text_pos s) else xI (text_pos s)
  end.
Lemma text_pos_text p : text_pos (pos_text p) = p.
Proof. induction p; simpl; congruence. Qed.

Definition f64_code (x : f64) : Z * bool * positive * Z :=
  match x with
  | S754_zero s => (0, s, 1%positive, 0)
  | S754_infinity s => (1, s, 1%positive, 0)
  | S754_nan => (2, false, 1%positive, 0)
  | S754_finite s m e => (3, s, m, e)
  end.
Definition f64_uncode (t : Z * bool * positive * Z) : f64 :=
  let '(tag, s, m, e) := t in
  if tag =? 0 then S754_zero s else if tag =? 1 then S754_infinity s
  else if tag =? 2 then S754_nan else S754_finite s m e.

(** ** One engine *)

Definition zeros : string := ZERO_SHA256.
Definition a_digest : string := "sha256:" +:+ zeros.
Definition run1 : string := "00000000-0000-4000-8000-000000000001".
Definition registry1 : string := "11111111-2222-4333-8444-555555555555".
Definition a_profile : ActEngineCreationProfile :=
  {| pr_memory_bytes := 2 ^ 30; pr_storage_bytes := 2 ^ 30; pr_nano_cpus := 1000000;
     pr_pids := 64; pr_run_tmpfs_bytes := 2 ^ 20; pr_tmp_tmpfs_bytes := 2 ^ 20;
     pr_tmpfs_policy := DiskStorageRunTmpNoexecV1; pr_init_command_sha256 := zeros;
     pr_cache_volume := None; pr_cache_coordination := None; pr_tool_generation := None;
     pr_docker_socket := None |}.
Definition intent1 : ActEngineIntent :=
  {| ai_run_id := run1; ai_workspace := "/work"; ai_candidate_sha := ZERO_SHA;
     ai_payload_sha256 := zeros; ai_snapshot_sha256 := zeros; ai_act_version := "0.2";
     ai_act_image_digest := a_digest; ai_engine_image_digest := a_digest;
     ai_runner_image_digest := a_digest; ai_created_at := f64_of_Z 100;
     ai_creation_profile := Some a_profile; ai_spare := false |}.
Definition began : ActEngineRecord :=
  {| ar_schema_version := 3; ar_registry_id := registry1; ar_intent := intent1;
     ar_state := Pending; ar_engine_id := None; ar_execution := None; ar_execution_claim := None;
     ar_outcome := None; ar_updated_at := f64_of_Z 100; ar_removal := None; ar_binding := None;
     ar_tool_recovery := None; ar_reserved_at := None; ar_source_stopped_at := None;
     ar_completion := None; ar_source_disposal_at := None; ar_create_requested := Some false |}.
Definition cleaned : ActEngineRecord :=
  began <| ar_state := CleanupRequired |> <| ar_outcome := Some Failed |>
        <| ar_updated_at := f64_of_Z 200 |>.
Definition absent : ActEngineRemovalProof :=
  {| rp_storage_volume := None; rp_name := engine_name intent1; rp_engine_id := None |}.
Definition ended : ActEngineRecord :=
  cleaned <| ar_removal := Some absent |> <| ar_state := Terminal |>
          <| ar_updated_at := f64_of_Z 300 |>.

(** A helper that finalizes the source of another engine. *)
Definition run2 : string := "00000000-0000-4000-8000-000000000002".
Definition nonce2 : string := "00000000-0000-4000-8000-000000000003".
Definition source2 : string := "bosn-act-storage-" +:+ run2.
Definition intent2 : ActEngineIntent :=
  {| ai_run_id := run2; ai_workspace := "/work"; ai_candidate_sha := ZERO_SHA;
     ai_payload_sha256 := zeros; ai_snapshot_sha256 := zeros; ai_act_version := "0.2";
     ai_act_image_digest := a_digest; ai_engine_image_digest := a_digest;
     ai_runner_image_digest := a_digest; ai_created_at := f64_of_Z 100;
     ai_creation_profile := Some
       {| pr_memory_bytes := 2 ^ 30; pr_storage_bytes := 2 ^ 30; pr_nano_cpus := 1000000;
          pr_pids := 64; pr_run_tmpfs_bytes := 2 ^ 20; pr_tmp_tmpfs_bytes := 2 ^ 20;
          pr_tmpfs_policy := NamedDiskStorageRunTmpNoexecV2; pr_init_command_sha256 := zeros;
          pr_cache_volume := Some {| cv_name := "cache"; cv_target := "/cache" |};
          pr_cache_coordination := Some SharedLegacyLeaseV1;
          pr_tool_generation := Some {| tg_id := zeros; tg_max_payload_bytes := 1;
                                        tg_overlay_recipe_sha256 := zeros |};
          pr_docker_socket := None |};
     ai_spare := false |}.
Definition recovery2 : ActToolRecoveryIntent :=
  {| ti_schema_version := 1; ti_owner := zeros; ti_engine_id := zeros;
     ti_source_volume := source2; ti_cache_volume := "cache"; ti_generation := zeros;
     ti_created_at_seconds := 100; ti_expires_at_seconds := 200 |}.
Definition finalizer : CacheHelperRecord :=
  {| hr_schema_version := 1;
     hr_intent :=
       {| hi_registry_id := registry1; hi_nonce := nonce2; hi_volume := "cache";
          hi_image := docker_image a_digest; hi_created_at := f64_of_Z 400;
          hi_role := Some (ToolSourceFinalizationV1
            {| sx_schema_version := 1; sx_registry_id := registry1; sx_intent := intent2;
               sx_recovery := recovery2 |} zeros zeros None) |};
     hr_state := HPending; hr_container_id := None; hr_updated_at := f64_of_Z 400 |}.

#[global] Instance example_codecs : Codecs := {
  profile_json _ := Some "{}";
  owner_json _ _ _ _ := Some "[]";
  engine_json r := if decide (r = began) then Some "began" else if decide (r = cleaned)
                   then Some "cleaned" else if decide (r = ended) then Some "ended" else None;
  engine_parse t := if String.eqb t "began" then Some began else if String.eqb t "cleaned"
                    then Some cleaned else if String.eqb t "ended" then Some ended else None;
  sha256_hex _ := zeros;
  f64_text x := pos_text (encode (f64_code x));
  f64_of_text t := f64_uncode <$> countable.decode (text_pos t);
}.
#[global] Instance example_helper_codecs : HelperCodecs :=
  {| helper_json r := if decide (r = finalizer) then Some "finalizer" else None;
     helper_parse t := if String.eqb t "finalizer" then Some finalizer else None |}.
#[global] Instance example_cursor_codecs : CursorCodecs :=
  {| cursor_json _ := Some ""; cursor_parse _ := None |}.
#[global] Instance example_laws : CodecLaws.
Proof.
  split.
  - intros r t _ H. simpl in *. repeat case_decide; simplify_eq; done.
  - intros r t _ _ H. simpl in *. case_decide; by simplify_eq.
  - intros x _. simpl. rewrite text_pos_text, decode_encode. by destruct x.
Qed.

Definition a_world : World :=
  {| wo_storage := {| sw_expected := None; sw_before := Some None; sw_after := Some None;
       sw_database := Some None; sw_wal := Some None; sw_shm := Some None;
       sw_database_bytes := 0; sw_limit := 2 ^ 30 |};
     wo_now := Some (f64_of_Z 100) |}.
Definition the {A} (d : A) (x : result RegError A) : A := match x with Ok a => a | Err _ => d end.
Lemma the_Ok {A} (d : A) x : is_ok x = true → x = Ok (the d x).
Proof. by destruct x. Qed.
Definition db0 : CiDb := CiDb_new registry1.
Definition db1 : CiDb := the db0 (begin_act_engine a_world db0 intent1).
Definition db2 : CiDb := the db0 (request_act_cleanup a_world db1 run1 Failed (f64_of_Z 200)).
Definition db3 : CiDb := the db0 (finalize_act_cleanup a_world db2 run1 absent (f64_of_Z 300)).
Definition db4 : CiDb * Z := the (db0, 0) (maintain_ci_state db3 (f64_of_Z 1000000) 8).
Definition db5 : CiDb := the db0 (begin_cache_helper a_world db3 (hr_intent finalizer)).

Lemma begin1 : begin_act_engine a_world db0 intent1 = Ok db1.
Proof. apply the_Ok. vm_compute. reflexivity. Qed.
Lemma cleanup1 : request_act_cleanup a_world db1 run1 Failed (f64_of_Z 200) = Ok db2.
Proof. apply the_Ok. vm_compute. reflexivity. Qed.
Lemma finalize1 : finalize_act_cleanup a_world db2 run1 absent (f64_of_Z 300) = Ok db3.
Proof. apply the_Ok. vm_compute. reflexivity. Qed.
Lemma forget1 : maintain_ci_state db3 (f64_of_Z 1000000) 8 = Ok db4.
Proof. apply the_Ok. vm_compute. reflexivity. Qed.
(** The pass forgot the one record. *)
Lemma forgot1 : db4.2 = 1 ∧ ci_current db4.1 !! (ENGINE, run1) = None.
Proof. split; vm_compute; reflexivity. Qed.
Lemma record1 : act_record db1 run1 = Ok (Some began) ∧ act_record db3 run1 = Ok (Some ended).
Proof. split; vm_compute; reflexivity. Qed.
Lemma helper1 : begin_cache_helper a_world db3 (hr_intent finalizer) = Ok db5.
Proof. apply the_Ok. vm_compute. reflexivity. Qed.
Lemma reader1 :
  ∃ s, ci_current db5 !! (HELPER, nonce2) = Some s ∧ sn_pending s = true ∧
    sn_source s = Some source2 ∧ helper_decode (sn_detail s) nonce2 registry1 = Ok finalizer ∧
    s = helper_snapshot finalizer (sn_detail s).
Proof. eexists. split; [vm_compute; reflexivity|]. split_and!; vm_compute; reflexivity. Qed.
Lemma history2 : ci_step true db3 db5.
Proof. exact (step_op true db3 a_world (OpBeginHelper (hr_intent finalizer)) db5 helper1). Qed.
Lemma history1 :
  ci_step true db0 db1 ∧ ci_step true db1 db2 ∧ ci_step true db2 db3 ∧ ci_step true db3 db4.1.
Proof.
  split_and!.
  - by apply (step_op true db0 a_world (OpBegin intent1)), begin1.
  - by apply (step_op true db1 a_world (OpCleanup run1 Failed (f64_of_Z 200))), cleanup1.
  - by apply (step_op true db2 a_world (OpFinalize run1 absent (f64_of_Z 300))), finalize1.
  - apply (step_op true db3 a_world (OpMaintain (f64_of_Z 1000000) 8)). unfold apply_op.
    rewrite forget1. reflexivity.
Qed.
