(* ===== verification/ActTheorems.v ===== *)
(** * ActTheorems: what the CI tables guarantee over any history

    Every sequence of operations keeps the tables within their bounds, moves the record of an
    engine along its lifecycle only, lets one helper at a time read a source volume and none
    once the source is given up, and never accepts an intent again after forgetting it. *)

From Stdlib Require Import Ascii.
From S2P Require Import RegistryInvariant.
From S2P Require Import ActTransitions.
From S2P Require Import ActExample.

Local Open Scope string_scope.
Local Open Scope list_scope.
Local Open Scope Z_scope.
Local Open Scope bosn_scope.

Section theorems.
Context `{Co : Codecs, He : HelperCodecs, Cu : CursorCodecs, La : !CodecLaws}.
Context (foreign_keys : bool).

(** ** Stores *)

Lemma wf_elsewhere owner c d : ci_wf owner c → elsewhere (ci_db c) d → ci_wf owner (with_db c d).
Proof.
  intros Hwf (Ho & Hf & Hn). split; simpl.
  - rewrite Ho. apply Hwf.
  - apply Hwf.
  - intros id k Hk. apply (wf_ids _ _ Hwf) in Hk. lia.
  - apply Hwf.
  - apply Hwf.
  - apply Hwf.
  - rewrite (floor_meta (with_db c d) c) by done. apply Hwf.
Qed.
Lemma store_spec owner w c r c' :
  ci_wf owner c → store_act_record w c r = Ok c' →
  ∃ s c1, engine_row owner (ai_run_id (ar_intent r)) s r ∧ admitted c s c1 ∧ written c1 s c'.
Proof.
  intros Hwf H. unfold store_act_record, act_kind in H. results. subst.
  pose proof (engine_roundtrip _ _ Hv Hv0) as Hpt.
  destruct (parse (ACT_PREFIX +:+ ai_run_id (ar_intent r)) a0 owner) as [o|] eqn:Hp.
  2: { unfold append, registry_owner in H. rewrite (wf_owner _ _ Hwf) in H. simpl in H.
       by rewrite Hp in H. }
  apply parse_engine in Hp as Hpe. destruct Hpe as (s & r' & -> & Hd & Hrow).
  pose proof Hrow as (Hdec & _ & _). apply decode_Ok in Hdec as (Hpt' & _ & _).
  rewrite Hd, Hpt in Hpt'. simplify_eq.
  destruct (append_spec owner w c _ _ _ Event s c' Hwf ltac:(done) Hp H) as (c1 & ? & ?).
  by exists s, c1.
Qed.
Lemma write_helper_spec owner w c r mode c' :
  ci_wf owner c → (∀ id, mode ≠ Import id) → helper_intent_validate (hr_intent r) = Ok tt →
  is_finite (hr_updated_at r) = true → write_helper w c r mode = Ok c' →
  ∃ s c1, helper_row owner (hi_nonce (hr_intent r)) s r ∧ admitted c s c1 ∧ written c1 s c'.
Proof.
  intros Hwf Hm Hval Hfin H. unfold write_helper, helper_kind, registry_owner in H.
  rewrite (wf_owner _ _ Hwf) in H. cbn [ok_or] in H. results. subst.
  pose proof (helper_roundtrip _ _ Hval Hfin Hv) as Hpt.
  destruct (parse (HELPER_PREFIX +:+ hi_nonce (hr_intent r)) a owner) as [o|] eqn:Hp.
  2: { unfold append, registry_owner in H. rewrite (wf_owner _ _ Hwf) in H. simpl in H.
       by rewrite Hp in H. }
  apply parse_helper in Hp as Hpe. destruct Hpe as (s & r' & -> & Hd & Hrow).
  pose proof Hrow as (Hdec & _). apply helper_decode_Ok in Hdec as (Hpt' & _).
  rewrite Hd, Hpt in Hpt'. simplify_eq.
  destruct (append_spec owner w c _ _ _ mode s c' Hwf Hm Hp H) as (c1 & ? & ?).
  by exists s, c1.
Qed.
Lemma stored_wf owner c s c1 c' :
  ci_wf owner c → row_ok owner (sn_key s) s → admitted c s c1 → written c1 s c' → ci_wf owner c'.
Proof.
  intros Hwf Hrow Had Hw. destruct (admitted_wf _ _ _ _ Hwf Had) as [Hwf1 Hroom].
  by eapply written_wf.
Qed.
Lemma engine_row_ok owner run s r : engine_row owner run s r → row_ok owner (sn_key s) s.
Proof. intros H. rewrite (engine_row_key _ _ _ _ H). left. split; [done|by exists r]. Qed.
Lemma helper_row_ok owner nonce s r : helper_row owner nonce s r → row_ok owner (sn_key s) s.
Proof. intros H. rewrite (helper_row_key _ _ _ _ H). right. split; [done|by exists r]. Qed.
Lemma forgets_wf owner c c' : ci_wf owner c → forgets owner c c' → ci_wf owner c'.
Proof. intros Hwf H. induction H; [done|]. eauto using forgot_wf. Qed.

(** How each transition changes the rows: nothing new, one engine row, or one helper row. *)
Inductive changed (owner : string) (c c' : CiDb) : Prop :=
| changed_less : ci_current c' ⊆ ci_current c → changed owner c c'
| changed_engine c1 s r r' :
    ci_current c1 ⊆ ci_current c → ci_current c' = <[sn_key s := s]> (ci_current c1) →
    engine_row owner (ai_run_id (ar_intent r')) s r' →
    existing c (ai_run_id (ar_intent r')) = Ok r → lifecycle r r' → closes_source c r r' →
    changed owner c c'
| changed_begin c1 s r' :
    ci_current c1 ⊆ ci_current c → ci_current c' = <[sn_key s := s]> (ci_current c1) →
    engine_row owner (ai_run_id (ar_intent r')) s r' →
    ci_current c !! sn_key s = None → ¬ disposed r' → fresh_enough c s → changed owner c c'
| changed_helper c1 s r r' :
    ci_current c1 ⊆ ci_current c → ci_current c' = <[sn_key s := s]> (ci_current c1) →
    helper_row owner (hi_nonce (hr_intent r')) s r' →
    existing_helper c (hi_nonce (hr_intent r')) = Ok r → hr_intent r' = hr_intent r →
    hr_state r ≠ HRemoved → changed owner c c'
| changed_begin_helper c1 s r' :
    ci_current c1 ⊆ ci_current c → ci_current c' = <[sn_key s := s]> (ci_current c1) →
    helper_row owner (hi_nonce (hr_intent r')) s r' →
    ci_current c !! sn_key s = None →
    validate_recovery_helper_admission c (hr_intent r') = Ok tt → changed owner c c'.

Lemma admitted_less c s c1 : admitted c s c1 → ci_current c1 ⊆ ci_current c.
Proof. intros [| |old c' _ _ _ _ _ Hf]; [done|done|]. rewrite (fg_current _ _ _ Hf). apply delete_subseteq. Qed.
Lemma forgets_less owner c c' : forgets owner c c' → ci_current c' ⊆ ci_current c.
Proof.
  induction 1 as [|c s c1 c2 _ _ Hf _ IH]; [done|]. etrans; [exact IH|].
  rewrite (fg_current _ _ _ Hf). apply delete_subseteq.
Qed.
Lemma act_record_None owner c run :
  ci_wf owner c → act_record c run = Ok None → ci_current c !! (ENGINE, run) = None.
Proof. intros Hwf H. unfold act_record in H. by results. Qed.
Lemma helper_record_None c nonce :
  helper_record c nonce = Ok None → ci_current c !! (HELPER, nonce) = None.
Proof. intros H. unfold helper_record in H. by results. Qed.
Lemma admitted_fresh c s c1 :
  admitted c s c1 → ci_current c !! sn_key s = None → fresh_enough c s.
Proof. intros [[x Hx]| |] Hn; [congruence|done|done]. Qed.

Lemma transition_changed owner c c' :
  ci_wf owner c → transition owner c c' → ci_wf owner c' ∧ changed owner c c'.
Proof.
  intros Hwf [d Hd|w d run r r' c2 Hd Hr Hl Hs Hst|w r' c2 Hn Hdis Hst|w r r' c2 Hr Hrem Hi Hfin Hst|
    w r' mode c2 Hm Hval Hn Hadm Hfin Hst|c1 d Hf Hd].
  - split; [by apply wf_elsewhere|by apply changed_less].
  - pose proof (wf_elsewhere _ _ _ Hwf Hd) as Hwf'.
    destruct (store_spec _ _ _ _ _ Hwf' Hst) as (s & c1 & Hrow & Had & Hw).
    split; [by eapply stored_wf; eauto using engine_row_ok|].
    apply existing_Ok in Hr as Hx. destruct Hx as (row & _ & Hdec & _).
    apply decode_Ok in Hdec as (_ & _ & Hrun). rewrite <- (lc_intent _ _ Hl) in Hrun.
    eapply (changed_engine owner c c2 c1 s r r'); [|apply Hw|done|by rewrite Hrun|done|done].
    by apply admitted_less in Had.
  - destruct (store_spec _ _ _ _ _ Hwf Hst) as (s & c1 & Hrow & Had & Hw).
    split; [by eapply stored_wf; eauto using engine_row_ok|].
    assert (ci_current c !! sn_key s = None).
    { rewrite (engine_row_key _ _ _ _ Hrow). by eapply act_record_None. }
    eapply (changed_begin owner c c2 c1 s r'); [by eapply admitted_less|apply Hw|done..|].
    by eapply admitted_fresh.
  - destruct (existing_helper_Ok _ _ _ Hr) as (_ & Hval & _).
    destruct (write_helper_spec owner w c r' Event c2 Hwf) as (s & c1 & Hrow & Had & Hw);
      [done|by rewrite Hi|done|done|].
    split; [by eapply stored_wf; eauto using helper_row_ok|].
    eapply (changed_helper owner c c2 c1 s r r');
      [by eapply admitted_less|apply Hw|done|by rewrite Hi|done|done].
  - destruct (helper_validate_time _ Hval) as [Hc _].
    destruct (write_helper_spec owner w c r' mode c2 Hwf) as (s & c1 & Hrow & Had & Hw);
      [done|done|by rewrite Hfin|done|].
    split; [by eapply stored_wf; eauto using helper_row_ok|].
    eapply (changed_begin_helper owner c c2 c1 s r');
      [by eapply admitted_less|apply Hw|done| |done].
    rewrite (helper_row_key _ _ _ _ Hrow). by apply helper_record_None.
  - split; [by eapply wf_elsewhere; eauto using forgets_wf|].
    apply changed_less. simpl. by eapply forgets_less.
Qed.
Lemma wf_CiDb_new owner : ci_wf owner (CiDb_new owner).
Proof.
  split; try done.
  - intros f i. rewrite length_audit_tail. unfold events_of. simpl.
    rewrite map_filter_empty, map_size_empty. lia.
  - simpl. rewrite map_size_empty. lia.
  - by exists None.
Qed.
Lemma steps_wf owner c c' : ci_wf owner c → rtc (ci_step foreign_keys) c c' → ci_wf owner c'.
Proof.
  intros Hwf H. induction H as [|c c1 c2 Hs _ IH]; [done|]. apply IH.
  by eapply transition_changed, step_transition.
Qed.

(** ** The floor *)

Lemma floor_le_refl c : floor_le c c.
Proof. intros p Hp. exists p. split; [done|]. by apply f64_le_refl, (floor_time c). Qed.
Lemma floor_le_trans c1 c2 c3 : floor_le c1 c2 → floor_le c2 c3 → floor_le c1 c3.
Proof.
  intros H H' p Hp. destruct (H p Hp) as (q & Hq & ?). destruct (H' q Hq) as (f & Hf & ?).
  exists f. split; [done|]. by eapply f64_le_trans.
Qed.
Lemma floor_le_eq c c' : floor c' = floor c → floor_le c c'.
Proof. intros Heq. pose proof (floor_le_refl c) as Hr. unfold floor_le in *. by rewrite Heq. Qed.
Definition buried (c : CiDb) (t : f64) : Prop :=
  ∃ f, floor c = Ok (Some f) ∧ f64_le t f = true.
Lemma buried_le c c' t : floor_le c c' → buried c t → buried c' t.
Proof.
  intros H (p & Hp & ?). destruct (H p Hp) as (f & ? & ?). exists f. split; [done|].
  by eapply f64_le_trans.
Qed.

(** Rows that disappear are behind the floor. *)
Definition drops_buried (c c' : CiDb) : Prop :=
  ∀ k s, ci_current c !! k = Some s → ci_current c' !! k = None → buried c' (sn_created_at s).
Lemma forgets_drops owner c c' : forgets owner c c' → floor_le c c' ∧ drops_buried c c'.
Proof.
  induction 1 as [c|c s c1 c2 Hs _ Hf _ [IHf IHd]].
  { split; [apply floor_le_refl|]. intros k s Hk Hk'. congruence. }
  split; [eapply floor_le_trans; [apply Hf|done]|].
  intros k s' Hk Hk'. destruct (decide (k = sn_key s)) as [->|Hne].
  - simplify_eq. eapply buried_le; [exact IHf|]. apply Hf.
  - apply (IHd k); [|done]. by rewrite (fg_current _ _ _ Hf), lookup_delete_ne.
Qed.
Lemma stored_drops c s c1 c' : admitted c s c1 → written c1 s c' → floor_le c c' ∧ drops_buried c c'.
Proof.
  intros Had Hw. assert (floor_le c1 c') as Hle.
  { apply floor_le_eq, floor_meta. by rewrite (wr_meta _ _ _ Hw). }
  assert (∀ k, is_Some (ci_current c1 !! k) → is_Some (ci_current c' !! k)) as Hmore.
  { intros k Hk. rewrite (wr_current _ _ _ Hw). by apply lookup_insert_is_Some'; right. }
  destruct Had as [| |old c1 _ _ Hold _ _ Hf].
  1,2: split; [done|]; intros k x Hk Hk'; destruct (Hmore k ltac:(by exists x)); congruence.
  split; [eapply floor_le_trans; [apply Hf|done]|].
  intros k x Hk Hk'. destruct (decide (k = sn_key old)) as [->|Hne].
  - simplify_eq. eapply buried_le; [exact Hle|]. apply Hf.
  - destruct (Hmore k); [|congruence].
    rewrite (fg_current _ _ _ Hf), lookup_delete_ne by done. by exists x.
Qed.
Lemma transition_drops owner c c' :
  ci_wf owner c → transition owner c c' → floor_le c c' ∧ drops_buried c c'.
Proof.
  assert (∀ c d, elsewhere (ci_db c) d → floor_le c (with_db c d) ∧ drops_buried c (with_db c d))
    as Helse.
  { intros c0 d (_ & Hf & _). split; [by apply floor_le_eq, floor_meta|].
    intros k s Hk Hk'. simpl in Hk'. congruence. }
  intros Hwf [d Hd|w d run r r' c2 Hd Hr Hl Hs Hst|w r' c2 Hn Hdis Hst|w r r' c2 Hr Hrem Hi Hfin Hst|
    w r' mode c2 Hm Hval Hn Hadm Hfin Hst|c1 d Hf Hd].
  - by apply Helse.
  - pose proof (wf_elsewhere _ _ _ Hwf Hd) as Hwf'.
    destruct (store_spec _ _ _ _ _ Hwf' Hst) as (s & c1 & Hrow & Had & Hw).
    destruct (stored_drops _ _ _ _ Had Hw) as [H1 H2].
    split; [eapply floor_le_trans; [apply (Helse c d Hd)|done]|exact H2].
  - destruct (store_spec _ _ _ _ _ Hwf Hst) as (s & c1 & Hrow & Had & Hw).
    by eapply stored_drops.
  - destruct (existing_helper_Ok _ _ _ Hr) as (_ & Hval & _).
    destruct (write_helper_spec owner w c r' Event c2 Hwf) as (s & c1 & Hrow & Had & Hw);
      [done|by rewrite Hi|done|done|]. by eapply stored_drops.
  - destruct (helper_validate_time _ Hval) as [Hc _].
    destruct (write_helper_spec owner w c r' mode c2 Hwf) as (s & c1 & Hrow & Had & Hw);
      [done|done|by rewrite Hfin|done|]. by eapply stored_drops.
  - destruct (forgets_drops _ _ _ Hf) as [H1 H2].
    destruct (Helse c1 d Hd) as [H3 _].
    split; [by eapply floor_le_trans|]. intros k s Hk Hk'. eapply buried_le; [exact H3|].
    by eapply H2.
Qed.

(** ** One engine through time *)

(** The record [r0] was seen: its identity still holds a later record of it, or it is buried
    and the identity, if taken again, has another intent. *)
Definition current_record (owner : string) (c : CiDb) (run : string) (r : ActEngineRecord) : Prop :=
  ∃ row, ci_current c !! (ENGINE, run) = Some row ∧ engine_row owner run row r.
Definition tracks (owner : string) (r0 : ActEngineRecord) (c : CiDb) : Prop :=
  let run := ai_run_id (ar_intent r0) in
  (∃ r, current_record owner c run r ∧ lifecycle r0 r) ∨
  (buried c (ai_created_at (ar_intent r0)) ∧
   ∀ r, current_record owner c run r → ar_intent r ≠ ar_intent r0).

Lemma current_record_fun owner c run r r' :
  current_record owner c run r → current_record owner c run r' → r = r'.
Proof. intros (row & Hrow & Hr & _) (row' & Hrow' & Hr' & _). congruence. Qed.
Lemma existing_current owner c run r :
  ci_wf owner c → existing c run = Ok r → current_record owner c run r.
Proof.
  intros Hwf (row & Hrow & Hdec & _)%existing_Ok. exists row. split; [done|].
  destruct (wf_rows _ _ Hwf _ _ Hrow) as [(_ & r' & Hr)|(Hf & _)]; [|done].
  pose proof Hr as (Hdec' & _). simpl in *. congruence.
Qed.

Lemma existing_helper_row owner c nonce r :
  ci_wf owner c → existing_helper c nonce = Ok r →
  ∃ s, ci_current c !! (HELPER, nonce) = Some s ∧ helper_row owner nonce s r.
Proof.
  intros Hwf H. unfold existing_helper, helper_record, registry_owner in H.
  rewrite (wf_owner _ _ Hwf) in H. cbn [ok_or] in H.
  destruct (helper_kind nonce); [|done]. cbn beta iota in H.
  destruct (ci_current c !! (HELPER, nonce)) as [s|] eqn:Hs; [|done].
  destruct (helper_decode _ _ _) as [r'|] eqn:Hd; [|done]. simpl in H. simplify_eq.
  exists s. split; [done|].
  destruct (wf_rows _ _ Hwf _ _ Hs) as [[? _]|(_ & r2 & Hr2 & Hs2)]; [done|].
  simpl in Hr2. rewrite Hd in Hr2. by simplify_eq.
Qed.

(** The record of a run after a transition is the one before, its successor, or a fresh one. *)
Lemma record_changed owner c c' run r' :
  ci_wf owner c → changed owner c c' → current_record owner c' run r' →
  current_record owner c run r' ∨
  (∃ r, current_record owner c run r ∧ lifecycle r r') ∨
  (ci_current c !! (ENGINE, run) = None ∧
   ∃ f, floor c = Ok f ∧ is_some_and f (λ f, f64_le (ai_created_at (ar_intent r')) f) = false).
Proof.
  intros Hwf Hch (row & Hrow & Hr').
  destruct Hch as [Hsub|c1 s r1 r1' Hsub Hcur Hs Hex Hl _|c1 s r1' Hsub Hcur Hs Hn _ Hfresh|
    c1 s r1 r1' Hsub Hcur Hs _ _ _|c1 s r1' Hsub Hcur Hs _ _].
  1: { left. exists row. split; [|done]. by eapply lookup_weaken. }
  all: rewrite Hcur in Hrow; apply lookup_insert_Some in Hrow as [[Hk <-]|[_ Hrow]];
    [|left; exists row; split; [by eapply lookup_weaken|done]].
  3,4: by rewrite (helper_row_key _ _ _ _ Hs) in Hk.
  all: rewrite (engine_row_key _ _ _ _ Hs) in Hk; injection Hk as Hk;
    pose proof Hs as (Hd & _ & Hsn); pose proof Hr' as (Hd' & _); rewrite Hk, Hd' in Hd; simplify_eq.
  - right. left. exists r1. split; [by apply existing_current|done].
  - right. right. split; [by rewrite (engine_row_key _ _ _ _ Hs) in Hn|].
    destruct Hfresh as (f & Hf & Hlt). exists f. split; [done|]. by rewrite Hsn in Hlt.
Qed.

Lemma tracks_step owner r0 c c' :
  ci_wf owner c → ci_step foreign_keys c c' → tracks owner r0 c → tracks owner r0 c'.
Proof.
  intros Hwf Hstep Htr. pose proof (step_transition _ _ _ _ Hwf Hstep) as Ht.
  destruct (transition_changed _ _ _ Hwf Ht) as [Hwf' Hch].
  destruct (transition_drops _ _ _ Hwf Ht) as [Hfl Hdrop].
  unfold tracks in *. cbn zeta in *. set (run := ai_run_id (ar_intent r0)) in *. clearbody run.
  destruct Htr as [(r & Hr & Hl)|[Hb Hne]].
  - destruct (ci_current c' !! (ENGINE, run)) as [row'|] eqn:Hrow'.
    + destruct (wf_rows _ _ Hwf' _ _ Hrow') as [(_ & r' & Hr')|(Hf & _)]; [|done].
      left. exists r'. split; [by exists row'|].
      destruct (record_changed owner c c' run r' Hwf Hch) as [H|[(r1 & H & Hl')|(Hn & _)]];
        [by exists row'| | |].
      * by rewrite <- (current_record_fun _ _ _ _ _ Hr H).
      * rewrite <- (current_record_fun _ _ _ _ _ Hr H) in Hl'. by eapply lifecycle_trans.
      * destruct Hr as (row & Hrow & _). congruence.
    + destruct Hr as (row & Hrow & Hr). right. split.
      * pose proof (Hdrop _ _ Hrow Hrow') as Hb. destruct Hr as (_ & _ & Hsn).
        rewrite Hsn in Hb. simpl in Hb. by rewrite (lc_intent _ _ Hl) in Hb.
      * intros r2 (row2 & Hrow2 & _). congruence.
  - right. split; [by eapply buried_le|]. intros r' Hr' Heq.
    destruct (record_changed owner c c' run r' Hwf Hch Hr') as [H|[(r1 & H & Hl')|(Hn & f & Hf & Hlt)]].
    + by apply (Hne r').
    + apply (Hne r1); [done|]. rewrite <- Heq. symmetry. apply Hl'.
    + destruct Hb as (p & Hp & Hle). rewrite Hp in Hf. simplify_eq. simpl in Hlt.
      rewrite Heq in Hlt. congruence.
Qed.
Lemma tracks_steps owner r0 c c' :
  ci_wf owner c → rtc (ci_step foreign_keys) c c' → tracks owner r0 c → tracks owner r0 c'.
Proof.
  intros Hwf H. induction H as [|c c1 c2 Hs Hss IH]; [done|]. intros Htr.
  apply IH; [by eapply steps_wf, rtc_once|by eapply tracks_step].
Qed.

(** ** Bounds *)

Lemma length_filter_or {A} (P Q : A → Prop) `{!∀ x, Decision (P x), !∀ x, Decision (Q x)} (l : list A) :
  (length (filter (λ x, P x ∨ Q x) l) ≤ length (filter P l) + length (filter Q l))%nat.
Proof.
  induction l as [|x l IH]; [done|]. rewrite !filter_cons.
  repeat case_decide; simpl; try tauto; lia.
Qed.
Lemma length_events_of (m : gmap Z (Z * string)) k :
  length (filter (λ kv, kv.2 = k) (map_to_list m)) = size (events_of m k).
Proof.
  unfold events_of. rewrite <- length_map_to_list. apply Permutation_length, NoDup_Permutation.
  - apply NoDup_filter, NoDup_map_to_list.
  - apply NoDup_map_to_list.
  - intros [id x]. rewrite list_elem_of_filter, !elem_of_map_to_list, map_lookup_filter_Some. tauto.
Qed.
Lemma events_bounded (m : gmap Z (Z * string)) (n : nat) (keys : list (Z * string)) :
  (∀ k, size (events_of m k) ≤ n)%nat →
  (length (filter (λ kv, kv.2 ∈ keys) (map_to_list m)) ≤ n * length keys)%nat.
Proof.
  intros Hn. induction keys as [|k keys IH].
  - rewrite (list_filter_iff _ (λ _, False)) by set_solver.
    simpl. induction (map_to_list m); simpl; [lia|done].
  - rewrite (list_filter_iff _ (λ kv, kv.2 = k ∨ kv.2 ∈ keys))
      by (intros; by rewrite elem_of_cons).
    etrans; [apply length_filter_or|]. specialize (Hn k). rewrite <- length_events_of in Hn.
    simpl. lia.
Qed.

(** C24. However long the registry runs, the CI authority it keeps is bounded: at most ninety thousand
    identities, three audit events for each, and no audit event of an identity it forgot. *)
Theorem ci_authority_bounded owner c :
  ci_reachable foreign_keys owner c →
  Z.of_nat (size (ci_current c)) ≤ RECOVERY_TOTAL ∧
  (∀ family id, (length (tail_of c family id) ≤ AUDIT_TAIL)%nat) ∧
  (∀ event k, ci_events c !! event = Some k → is_Some (ci_current c !! k)) ∧
  Z.of_nat (size (ci_events c)) ≤ 3 * RECOVERY_TOTAL.
Proof.
  intros Hr. pose proof (steps_wf owner _ c (wf_CiDb_new owner) Hr) as Hwf.
  pose proof (wf_size _ _ Hwf) as Hsize. unfold MAX_ROWS, RECOVERY_TOTAL in *.
  assert (Z.of_nat (size (ci_current c)) ≤ 90000) as Hs by lia.
  split_and!; [done|apply Hwf|apply Hwf|].
  assert (size (ci_events c) ≤ AUDIT_TAIL * size (ci_current c))%nat as He';
    [|unfold AUDIT_TAIL in He'; lia].
  rewrite <- (length_map_to_list (ci_current c)), <- (length_fmap fst).
  etrans; [|apply (events_bounded (ci_events c) AUDIT_TAIL)].
  - rewrite <- length_map_to_list. apply submseteq_length, NoDup_submseteq; [apply NoDup_map_to_list|].
    intros [id k] Hk%elem_of_map_to_list.
    apply list_elem_of_filter. split; [|by apply elem_of_map_to_list]. simpl.
    destruct (wf_present _ _ Hwf _ _ Hk) as [s Hs'].
    apply list_elem_of_fmap. exists (k, s). by rewrite elem_of_map_to_list.
  - intros [f i]. rewrite <- length_audit_tail. apply Hwf.
Qed.

(** ** Lifecycle and replay *)

Lemma act_record_current owner c run r :
  ci_wf owner c → act_record c run = Ok (Some r) →
  current_record owner c run r ∧ ai_run_id (ar_intent r) = run ∧ is_finite (ar_updated_at r) = true.
Proof.
  intros Hwf H. assert (existing c run = Ok r) as Hex by (unfold existing; by rewrite H).
  split_and!; [by apply existing_current| |by eapply record_validate_time, existing_valid].
  apply existing_Ok in Hex as (row & _ & Hd & _). by apply decode_Ok in Hd as (_ & _ & ?).
Qed.

(** C23. Two records of one intent, read at two times, are ordered by the lifecycle: the identity,
    the registry and the schema are frozen, time and state never go back, and everything once
    recorded (the engine, the claim, the execution, the outcome, the removal proof, each phase
    of tool recovery) stays as it was, except that a spare's claim passes to one run once. *)
Theorem engine_records_follow_lifecycle owner c c' run r r' :
  ci_reachable foreign_keys owner c → rtc (ci_step foreign_keys) c c' →
  act_record c run = Ok (Some r) → act_record c' run = Ok (Some r') →
  ar_intent r' = ar_intent r → lifecycle r r'.
Proof.
  intros Hr Hss Hrec Hrec' Heq.
  pose proof (steps_wf owner _ c (wf_CiDb_new owner) Hr) as Hwf.
  pose proof (steps_wf owner _ c' Hwf Hss) as Hwf'.
  destruct (act_record_current _ _ _ _ Hwf Hrec) as (Hcur & Hrun & Hfin).
  destruct (act_record_current _ _ _ _ Hwf' Hrec') as (Hcur' & _).
  destruct (tracks_steps owner r c c' Hwf Hss) as [(r2 & Hr2 & Hl)|[_ Hne]].
  - left. exists r. rewrite Hrun. split; [done|by apply lifecycle_refl].
  - rewrite Hrun in Hr2. by rewrite (current_record_fun _ _ _ _ _ Hcur' Hr2).
  - rewrite Hrun in Hne. by destruct (Hne r').
Qed.

(** An intent is accepted once: after it began, whatever happens to its record, even after the
    record is forgotten, beginning it again is refused. *)
Theorem intent_begins_once owner w c i c1 c2 w' :
  ci_reachable foreign_keys owner c → begin_act_engine w c i = Ok c1 →
  rtc (ci_step foreign_keys) c1 c2 → is_ok (begin_act_engine w' c2 i) = false.
Proof.
  intros Hr Hb Hss. pose proof (steps_wf owner _ c (wf_CiDb_new owner) Hr) as Hwf.
  assert (rtc (ci_step foreign_keys) c c1) as Hs1.
  { apply rtc_once. by apply (step_op foreign_keys c w (OpBegin i)). }
  pose proof (steps_wf owner _ c1 Hwf Hs1) as Hwf1.
  pose proof (steps_wf owner _ c2 Hwf1 Hss) as Hwf2.
  assert (∃ r, ar_intent r = i ∧ tracks owner r c1) as (r & Hi & Htr).
  { unfold begin_act_engine in Hb. results.
    destruct (store_spec _ _ _ _ _ Hwf Hb) as (s & c0 & Hrow & _ & Hw).
    eexists. split; [|left; eexists; split]; [| |apply lifecycle_refl]; cbn.
    2: { exists s. split; [|done]. rewrite (wr_current _ _ _ Hw), (engine_row_key _ _ _ _ Hrow).
         cbn. by rewrite lookup_insert_eq. }
    - done.
    - by eapply (intent_validate_time i). }
  apply (tracks_steps owner r c1 c2) in Htr; [|done..].
  destruct (begin_act_engine w' c2 i) as [c3|] eqn:Hb2; [|done]. exfalso.
  clear Hb. unfold begin_act_engine in Hb2. results.
  match goal with Hx : has ?o = false |- _ => apply has_false in Hx; subst o end.
  pose proof (act_record_None _ _ _ Hwf2 Hv1) as Hn.
  destruct (store_spec _ _ _ _ _ Hwf2 Hb2) as (s & c0 & Hrow & Had & _).
  unfold tracks in Htr. rewrite Hi in Htr.
  destruct Htr as [(r2 & (row & Hrow2 & _) & _)|[(f & Hf & Hle) _]]; [congruence|].
  destruct (admitted_fresh _ _ _ Had) as (f' & Hf' & Hlt).
  { rewrite (engine_row_key _ _ _ _ Hrow). exact Hn. }
  rewrite Hf in Hf'. simplify_eq. destruct Hrow as (_ & _ & Hsn). rewrite Hsn in Hlt. simpl in Hlt.
  congruence.
Qed.

(** ** Retention *)

(** One retention pass counts what it forgets, changes nothing it keeps, and forgets only
    settled authority: an engine whose removal was proved, with no reference left to release,
    not touched for a week, that no lease and no pending helper it keeps names; or a helper
    that is gone. *)
Theorem retention_forgets_only_settled owner c now limit c' n :
  ci_reachable foreign_keys owner c → maintain_ci_state c now limit = Ok (c', n) →
  Z.of_nat (size (ci_current c)) = Z.of_nat (size (ci_current c')) + n ∧
  ci_current c' ⊆ ci_current c ∧
  (∀ run r, current_record owner c run r → ci_current c' !! (ENGINE, run) = None →
     ar_state r = Terminal ∧ is_Some (ar_removal r) ∧
     (∀ done, ar_completion r = Some done → is_Some (tc_reference_released_at done)) ∧
     f64_le (ar_updated_at r) (f64_sub now KEEP_SECONDS) = true ∧
     (∀ l, db_leases (ci_db c) !! l.1 = Some l.2 → le_resource_id l.2 ≠ "act-engine:" +:+ run) ∧
     (∀ k h, ci_current c' !! k = Some h → sn_family h = HELPER → sn_pending h = true →
        sn_engine_run h ≠ Some run)) ∧
  (∀ nonce s h, ci_current c !! (HELPER, nonce) = Some s → helper_row owner nonce s h →
     ci_current c' !! (HELPER, nonce) = None → hr_state h = HRemoved).
Proof.
  intros Hr H. pose proof (steps_wf owner _ c (wf_CiDb_new owner) Hr) as Hwf.
  unfold maintain_ci_state in H. results.
  destruct (maintain_spec owner c now limit c' n Hwf H) as (c1 & d & Hf & Hd & -> & Hn & Hgone).
  split_and!; [done|exact (forgets_less owner c c1 Hf)| |].
  - intros run r (row & Hrow & Hdec & _ & Hsn) Hnone.
    destruct (Hgone _ _ Hrow Hnone) as (Hcol & Hold & cm & Hsub & Hls & Href).
    apply decode_Ok in Hdec as (_ & Hval & Hrun).
    rewrite Hsn in Hcol, Hold, Href. cbn in Hcol, Hold. booleans.
    assert (ar_state r = Terminal) as Hterm by done.
    apply record_validate_time in Hval as Hfin. split_and!.
    + done.
    + apply has_true. unfold record_validate in Hval. results. booleans.
      match goal with Hx : Bool.eqb _ _ = true |- _ => apply Bool.eqb_prop in Hx; rewrite <- Hx end.
      by apply bool_decide_eq_true.
    + intros done Hdone. rewrite Hdone in *. cbn in *. by apply has_true.
    + eapply f64_le_trans; [|by apply f64_lt_le].
      repeat case_match; [by apply f64_le_refl|by apply f64_max_ge_l|by apply f64_le_refl].
    + intros [l lr] Hl Heq. cbn in *. unfold referenced in Href. cbn in Href. booleans.
      rewrite <- Hls in *.
      match goal with Hx : exists_row (db_leases _) _ = false |- _ =>
        pose proof (proj1 (exists_row_false _ _) Hx _ _ Hl) as Hx' end.
      rewrite Hrun, bool_decide_true in Hx' by done. done.
    + intros k h Hk Hfam Hp Heq. unfold referenced in Href. cbn in Href. booleans.
      match goal with Hx : exists_row (ci_current _) _ = false |- _ =>
        pose proof (proj1 (exists_row_false _ _) Hx k h ltac:(by eapply lookup_weaken)) as Hx' end.
      cbn beta in Hx'. rewrite Hfam, Hp, Heq, Hrun, bool_decide_true in Hx' by done.
      discriminate Hx'.
  - intros nonce s h Hs (Hdec & Hsn) Hnone.
    destruct (Hgone _ _ Hs Hnone) as (Hcol & _). rewrite Hsn in Hcol. cbn in Hcol.
    by booleans.
Qed.
End theorems.

(** ** The theorems at work *)

Lemma ci_authority_bounded_witness :
  ci_reachable true registry1 db3 ∧ Z.of_nat (size (ci_current db3)) ≤ RECOVERY_TOTAL.
Proof.
  destruct history1 as (H1 & H2 & H3 & _).
  assert (ci_reachable true registry1 db3) as Hr by (do 3 (eapply rtc_l; [eassumption|]); constructor).
  split; [exact Hr|]. exact (proj1 (ci_authority_bounded true registry1 db3 Hr)).
Defined.
Lemma engine_records_follow_lifecycle_witness : lifecycle began ended.
Proof.
  destruct history1 as (H1 & H2 & H3 & _).
  apply (engine_records_follow_lifecycle true registry1 db1 db3 run1).
  - by apply rtc_once.
  - eapply rtc_l; [exact H2|]. by apply rtc_once.
  - apply record1.
  - apply record1.
  - reflexivity.
Defined.
Lemma intent_begins_once_witness :
  ci_current db4.1 !! (ENGINE, run1) = None ∧
  is_ok (begin_act_engine a_world db4.1 intent1) = false.
Proof.
  destruct history1 as (H1 & H2 & H3 & H4). split; [apply forgot1|].
  apply (intent_begins_once true registry1 a_world db0 intent1 db1).
  - constructor.
  - apply begin1.
  - do 3 (eapply rtc_l; [eassumption|]). constructor.
Defined.
Lemma retention_forgets_only_settled_witness :
  ci_current db4.1 !! (ENGINE, run1) = None ∧ ar_state ended = Terminal.
Proof.
  destruct history1 as (H1 & H2 & H3 & _). split; [apply forgot1|].
  assert (ci_reachable true registry1 db3) as Hr by (do 3 (eapply rtc_l; [eassumption|]); constructor).
  assert (maintain_ci_state db3 (f64_of_Z 1000000) 8 = Ok (db4.1, db4.2)) as Hm
    by (rewrite forget1; by destruct db4).
  pose proof (steps_wf true registry1 _ db3 (wf_CiDb_new registry1) Hr) as Hwf.
  destruct (act_record_current registry1 db3 run1 ended Hwf (proj2 record1)) as [Hcur _].
  apply (proj1 (proj2 (proj2 (retention_forgets_only_settled true registry1 _ _ _ _ _ Hr Hm)))
           run1 ended Hcur (proj2 forgot1)).
Defined.
