(* ===== verification/ActSources.v ===== *)
(** * ActSources: who may read the private storage of an engine

    A source volume outlives its engine while its tools are recovered. Helpers that read it are
    rows of the CI tables; this file shows that they exclude one another and the disposal of
    the source, over every history of operations. *)

From Stdlib Require Import Ascii.
From S2P Require Import RegistryInvariant.
From S2P Require Import ActTransitions.
From S2P Require Import ActExample.
From S2P Require Import ActTheorems.

Local Open Scope string_scope.
Local Open Scope list_scope.
Local Open Scope Z_scope.
Local Open Scope bosn_scope.

Section sources.
Context `{Co : Codecs, He : HelperCodecs, Cu : CursorCodecs, La : !CodecLaws}.
Context (foreign_keys : bool).

(** [h] is the record of a pending helper, under this nonce, that may read [source]. *)
Definition reads (owner : string) (c : CiDb) (nonce : string) (h : CacheHelperRecord)
    (source : string) : Prop :=
  ∃ s, ci_current c !! (HELPER, nonce) = Some s ∧ helper_row owner nonce s h ∧
    sn_pending s = true ∧ sn_source s = Some source.
Record exclusive (owner : string) (c : CiDb) : Prop := {
  ex_one n1 n2 h1 h2 source :
    reads owner c n1 h1 source → reads owner c n2 h2 source → n1 = n2;
  ex_closed run r source nonce h :
    current_record owner c run r → disposed r → storage_volume_name (ar_intent r) = Some source →
    reads owner c nonce h source → helper_binding (hr_intent h) = None;
}.

Lemma reads_unread owner c nonce h source : unread c source → ¬ reads owner c nonce h source.
Proof.
  intros Hu (s & Hs & Hrow & Hp & Hsrc). apply (Hu _ _ Hs); [|done..].
  pose proof (helper_row_key _ _ _ _ Hrow) as Hk. by injection Hk.
Qed.

(** What a pending helper reads follows from its intent alone. *)
Definition source_of (i : CacheHelperIntent) : option string :=
  sn_source (helper_snapshot (mkHelperRecord 1 i HPending None f64_zero) "").
Lemma reads_source owner c nonce h source :
  reads owner c nonce h source → source_of (hr_intent h) = Some source ∧ hr_state h ≠ HRemoved.
Proof.
  intros (s & _ & (_ & Hsn) & Hp & Hsrc). rewrite Hsn in Hp, Hsrc. split; [exact Hsrc|].
  simpl in Hp. by booleans.
Qed.

(** Readers after a change: the same as before, one whose intent read before, or a new one. *)
Lemma reads_changed owner c c' nonce h source :
  ci_wf owner c → changed owner c c' → reads owner c' nonce h source →
  (∃ h0, reads owner c nonce h0 source ∧ hr_intent h0 = hr_intent h) ∨
  (ci_current c !! (HELPER, nonce) = None ∧ hi_nonce (hr_intent h) = nonce ∧
   validate_recovery_helper_admission c (hr_intent h) = Ok tt ∧
   (∀ run r, current_record owner c' run r → current_record owner c run r) ∧
   ∀ n h', n ≠ nonce → reads owner c' n h' source → reads owner c n h' source).
Proof.
  intros Hwf Hch Hreads. pose proof (reads_source _ _ _ _ _ Hreads) as [Hsrc Hst].
  destruct Hreads as (s & Hs & Hrow & Hp & Hsn).
  assert (∀ c1, ci_current c1 ⊆ ci_current c → ci_current c1 !! (HELPER, nonce) = Some s →
    ∃ h0, reads owner c nonce h0 source ∧ hr_intent h0 = hr_intent h) as Hold.
  { intros c1 Hsub Hc1. exists h. split; [|done]. exists s. split; [by eapply lookup_weaken|done]. }
  destruct Hch as [Hsub|c1 x r1 r1' Hsub Hcur Hx _ _ _|c1 x r1' Hsub Hcur Hx _ _ _|
    c1 x r1 r1' Hsub Hcur Hx Hex Hi Hrem|c1 x r1' Hsub Hcur Hx Hn Hadm].
  1: { left. by apply (Hold c'). }
  all: rewrite Hcur in Hs; apply lookup_insert_Some in Hs as [[Hk <-]|[_ Hs]];
    [|left; by apply (Hold c1)].
  1,2: by rewrite (engine_row_key _ _ _ _ Hx) in Hk.
  all: rewrite (helper_row_key _ _ _ _ Hx) in Hk; injection Hk as Hk.
  all: assert (r1' = h) as -> by
    (destruct Hx as [Hx _], Hrow as [Hrow _]; rewrite Hk in Hx; congruence).
  - left. exists r1. split; [|done]. rewrite Hk in Hex.
    destruct (existing_helper_row _ _ _ _ Hwf Hex) as (s0 & Hs0 & Hr0).
    exists s0. split_and!; [done|done| |]; destruct Hr0 as [_ ->].
    + simpl. by rewrite bool_decide_false.
    + rewrite <- Hsrc, Hi. done.
  - right. rewrite (helper_row_key _ _ _ _ Hx), Hk in Hn. split_and!; [done|done|done| |].
    + intros run r (row & Hr & Hrr). exists row. split; [|done].
      rewrite Hcur, (helper_row_key _ _ _ _ Hx), lookup_insert_ne in Hr by done.
      by eapply lookup_weaken.
    + intros n h' Hne (s' & Hs' & ?). exists s'. split; [|done].
      rewrite Hcur, (helper_row_key _ _ _ _ Hx), Hk, lookup_insert_ne in Hs' by congruence.
      by eapply lookup_weaken.
Qed.

(** A record's recovery names the record's own storage. *)
Lemma recovery_source r t :
  record_validate r = Ok tt → ar_tool_recovery r = Some t →
  storage_volume_name (ar_intent r) = Some (ti_source_volume t).
Proof.
  unfold record_validate. intros H Ht. destruct (intent_validate _); [|done]. simpl in H.
  destruct (validate_tool_recovery r) eqn:Hv; [|done]. clear H.
  unfold validate_tool_recovery in Hv. rewrite Ht in Hv. cbn [from_option] in Hv.
  destruct (refuse _ _); [|done]. simpl in Hv. destruct (refuse _ _); [|done]. simpl in Hv.
  destruct (recovery_validate_record t r) eqn:Hr; [|done]. clear Hv.
  unfold recovery_validate_record in Hr. results. booleans. subst t.
  unfold from_record, from_engine_intent in Hv. results. rewrite Hv5, <- Hv. done.
Qed.
Lemma storage_volume_run i j source :
  storage_volume_name i = Some source → storage_volume_name j = Some source →
  ai_run_id i = ai_run_id j.
Proof.
  unfold storage_volume_name. intros Hi Hj. repeat case_match; simplify_eq. done.
Qed.

(** What admission checked of a new reader of [source]. *)
Lemma admission_source owner c i source :
  ci_wf owner c → validate_recovery_helper_admission c i = Ok tt → source_of i = Some source →
  unread c source ∧
  ∀ b, helper_binding i = Some b →
    ∃ r, current_record owner c (rb_run_id b) r ∧ ¬ disposed r ∧
      storage_volume_name (ar_intent r) = Some source.
Proof.
  intros Hwf Hadm Hsrc. unfold validate_recovery_helper_admission in Hadm.
  unfold source_of, helper_snapshot in Hsrc. simpl in Hsrc.
  destruct (hi_role i) as [[|context cid cmd mp|run t cmd mp|run t cmd|run t cmd]|] eqn:Hrole;
    unfold helper_binding in *; rewrite Hrole in *; simpl in *; try done.
  - results. simplify_eq. split; [by eapply source_unread|done].
  - destruct (act_record c run) as [[r|]|] eqn:Hr; simpl in Hadm; try done.
    destruct (refuse _ _) as [[]|] eqn:H1 in Hadm; [|done]. simpl in Hadm.
    destruct (refuse _ _) as [[]|] eqn:H2 in Hadm; [|done]. simpl in Hadm. results. booleans.
    simplify_eq. split; [by eapply source_unread|]. intros b Hb. simplify_eq. simpl.
    destruct (act_record_current owner _ _ _ Hwf Hr) as (Hcur & _).
    exists r. split_and!; [done| |].
    + intros [[x Hx]|Hx]; [|congruence].
      match goal with Hd : has (ar_source_disposal_at r) = false |- _ => apply has_false in Hd end.
      congruence.
    + destruct Hcur as (row & _ & Hdec & _). apply decode_Ok in Hdec as (_ & Hval & _).
      by apply recovery_source.
Qed.

(** A record that became disposed found its source unread. *)
Lemma closes owner c c' run r source :
  ci_wf owner c → changed owner c c' → current_record owner c' run r → disposed r →
  storage_volume_name (ar_intent r) = Some source →
  (∃ r0, current_record owner c run r0 ∧ disposed r0 ∧
         storage_volume_name (ar_intent r0) = Some source) ∨ unread c source.
Proof.
  intros Hwf Hch Hr Hdis Hvol. destruct Hr as (row & Hrow & Hr).
  assert (∀ c1, ci_current c1 ⊆ ci_current c → ci_current c1 !! (ENGINE, run) = Some row →
    ∃ r0, current_record owner c run r0 ∧ disposed r0 ∧
      storage_volume_name (ar_intent r0) = Some source) as Hold.
  { intros c1 Hsub Hc1. exists r. split; [|done]. exists row. split; [by eapply lookup_weaken|done]. }
  destruct Hch as [Hsub|c1 x r1 r1' Hsub Hcur Hx Hex Hl Hcl|c1 x r1' Hsub Hcur Hx _ Hnd _|
    c1 x r1 r1' Hsub Hcur Hx _ _ _|c1 x r1' Hsub Hcur Hx _ _].
  1: { left. by apply (Hold c'). }
  all: rewrite Hcur in Hrow; apply lookup_insert_Some in Hrow as [[Hk <-]|[_ Hrow]];
    [|left; by apply (Hold c1)].
  3,4: by rewrite (helper_row_key _ _ _ _ Hx) in Hk.
  all: rewrite (engine_row_key _ _ _ _ Hx) in Hk; injection Hk as Hk.
  all: assert (r1' = r) as -> by
    (destruct Hx as [Hx _], Hr as [Hr _]; rewrite Hk in Hx; congruence).
  - rewrite (lc_intent _ _ Hl) in Hvol. destruct (Hcl Hdis) as [Hd|Hu]; [left|right; by apply Hu].
    exists r1. rewrite Hk in Hex. split; [by apply existing_current|done].
  - done.
Qed.

Lemma exclusive_changed owner c c' :
  ci_wf owner c → changed owner c c' → exclusive owner c → exclusive owner c'.
Proof.
  intros Hwf Hch [Hone Hclosed]. split.
  - intros n1 n2 h1 h2 source H1 H2.
    destruct (reads_changed _ _ _ _ _ _ Hwf Hch H1) as [(g1 & G1 & _)|(_ & _ & Ha & _ & Hothers)].
    + destruct (reads_changed _ _ _ _ _ _ Hwf Hch H2) as [(g2 & G2 & _)|(_ & _ & Ha & _ & _)];
        [by eapply Hone|].
      destruct (admission_source owner _ _ source Hwf Ha) as [Hu _];
        [by apply (reads_source _ _ _ _ _ H2)|]. by destruct (reads_unread _ _ _ _ _ Hu G1).
    + destruct (decide (n2 = n1)) as [|Hne]; [done|].
      destruct (admission_source owner _ _ source Hwf Ha) as [Hu _];
        [by apply (reads_source _ _ _ _ _ H1)|].
      by destruct (reads_unread _ _ _ _ _ Hu (Hothers n2 h2 Hne H2)).
  - intros run r source nonce h Hr Hdis Hvol Hh.
    destruct (reads_changed _ _ _ _ _ _ Hwf Hch Hh) as [(g & G & Hi)|(_ & _ & Ha & Hback & _)].
    + rewrite <- Hi. destruct (closes owner c c' run r source Hwf Hch Hr Hdis Hvol)
        as [(r0 & ? & ? & ?)|Hu]; [by eapply Hclosed|].
      by destruct (reads_unread _ _ _ _ _ Hu G).
    + destruct (helper_binding (hr_intent h)) as [b|] eqn:Hb; [|done]. exfalso.
      destruct (admission_source owner _ _ source Hwf Ha) as [_ Hbind];
        [by apply (reads_source _ _ _ _ _ Hh)|].
      destruct (Hbind b Hb) as (r0 & Hr0 & Hnd & Hvol0).
      apply Hback in Hr. pose proof (storage_volume_run _ _ _ Hvol Hvol0) as Hrun.
      destruct Hr as (row & Hrow & Hrr). destruct Hr0 as (row0 & Hrow0 & Hrr0).
      assert (rb_run_id b = run) as Heq.
      { destruct Hrr as (Hd & _), Hrr0 as (Hd0 & _).
        apply decode_Ok in Hd as (_ & _ & <-), Hd0 as (_ & _ & <-). done. }
      rewrite Heq in *. apply Hnd.
      rewrite (current_record_fun owner c run r0 r); [done|by exists row0|by exists row].
Qed.

Lemma exclusive_steps owner c c' :
  ci_wf owner c → exclusive owner c → rtc (ci_step foreign_keys) c c' → exclusive owner c'.
Proof.
  intros Hwf Hex H. induction H as [|c c1 c2 Hs _ IH]; [done|].
  destruct (transition_changed owner c c1 Hwf) as [Hwf1 Hch]; [by eapply step_transition|].
  apply IH; [done|]. by apply (exclusive_changed owner c c1).
Qed.

(** C25. At any time at most one pending helper may read a source volume, and once the engine's
    record gives the source up, by claiming its disposal or by ending, no pending recovery
    helper of this registry reads it. *)
Theorem source_has_one_reader owner c :
  ci_reachable foreign_keys owner c →
  (∀ n1 n2 h1 h2 source,
     reads owner c n1 h1 source → reads owner c n2 h2 source → n1 = n2) ∧
  (∀ run r source nonce h,
     act_record c run = Ok (Some r) → disposed r →
     storage_volume_name (ar_intent r) = Some source → reads owner c nonce h source →
     helper_binding (hr_intent h) = None).
Proof.
  intros Hr. pose proof (steps_wf foreign_keys owner _ c (wf_CiDb_new owner) Hr) as Hwf.
  destruct (exclusive_steps owner _ c (wf_CiDb_new owner)) as [Hone Hclosed]; [|exact Hr|].
  { split; intros *; intros (s & Hs & _); destruct (lookup_empty_Some _ _ Hs). }
  split; [done|]. intros run r source nonce h Hrec. eapply Hclosed.
  by apply (act_record_current owner) in Hrec as [? _].
Qed.
End sources.

Lemma source_has_one_reader_witness :
  (∃ h, reads registry1 db5 nonce2 h source2) ∧
  ∀ n h, reads registry1 db5 n h source2 → n = nonce2.
Proof.
  destruct history1 as (H1 & H2 & H3 & _). pose proof history2 as H4.
  assert (ci_reachable true registry1 db5) as Hr by (do 4 (eapply rtc_l; [eassumption|]); constructor).
  assert (reads registry1 db5 nonce2 finalizer source2) as Hread.
  { destruct reader1 as (s & ? & ? & ? & ? & ?). exists s. split_and!; [done|by split|done|done]. }
  split; [by exists finalizer|]. intros n h Hn.
  exact (proj1 (source_has_one_reader true registry1 db5 Hr) n nonce2 h finalizer source2 Hn Hread).
Defined.
