(* ===== verification/Json.v ===== *)
(** * Json: the documents of [serde_json] as the code builds and walks them

    [Value] has the constructors of [serde_json::Value]. The crate is built without
    [preserve_order], so its [Map] is a [BTreeMap]: an object lists its entries in key order, each
    key once ([wf_value]), and [collect] is how a [BTreeMap] is built from pairs. The text of a
    value is [serde_json]'s: a parameter where it is used. *)

From Stdlib Require Import Ascii SpecFloat.
From S2P Require Export Text F64.

Local Open Scope string_scope.
Local Open Scope list_scope.
Local Open Scope Z_scope.
Local Open Scope bosn_scope.

(** ** Ordered maps as lists of entries *)

(** [BTreeMap::insert]: the entries stay in key order, the new value replaces an old one. *)
Fixpoint tree_insert {A} (k : string) (v : A) (m : list (string * A)) : list (string * A) :=
  match m with
  | [] => [(k, v)]
  | (k', v') :: m' =>
      match String.compare k k' with
      | Lt => (k, v) :: m
      | Eq => (k, v) :: m'
      | Gt => (k', v') :: tree_insert k v m'
      end
  end.
(** Collecting pairs into a [BTreeMap]. *)
Definition collect {A} (pairs : list (string * A)) : list (string * A) :=
  foldl (λ m kv, tree_insert kv.1 kv.2 m) [] pairs.
Fixpoint tree_get {A} (k : string) (m : list (string * A)) : option A :=
  match m with
  | [] => None
  | (k', v) :: m => if k ==? k' then Some v else tree_get k m
  end.
Definition key_lt (a b : string) : Prop := String.compare a b = Lt.
(** Entries in strictly ascending key order: what a [BTreeMap] iterates. *)
Definition ordered {A} (m : list (string * A)) : Prop := StronglySorted key_lt m.*1.

(** ** Values *)

(** A number of [serde_json]: an integer of [i64] or [u64], or a finite float. *)
Inductive Number := NInt (z : Z) | NFloat (f : f64).
Unset Elimination Schemes.
Inductive Value :=
| VNull
| VBool (b : bool)
| VNumber (n : Number)
| VString (s : string)
| VArray (items : list Value)
| VObject (entries : list (string * Value)).
Set Elimination Schemes.

(** Induction with the hypothesis for every element of an array and entry of an object. *)
Section value_ind.
Context (P : Value → Prop) (Hnull : P VNull) (Hbool : ∀ b, P (VBool b)) (Hnumber : ∀ n, P (VNumber n))
  (Hstring : ∀ s, P (VString s)) (Harray : ∀ l, Forall P l → P (VArray l))
  (Hobject : ∀ o, Forall (λ kv, P kv.2) o → P (VObject o)).
Fixpoint Value_ind (v : Value) : P v :=
  match v with
  | VNull => Hnull | VBool b => Hbool b | VNumber n => Hnumber n | VString s => Hstring s
  | VArray l => Harray l
      ((fix all l : Forall P l :=
          match l with [] => Forall_nil_2 _ | v :: l => Forall_cons_2 _ v l (Value_ind v) (all l) end) l)
  | VObject o => Hobject o
      ((fix all o : Forall (λ kv, P kv.2) o :=
          match o with
          | [] => Forall_nil_2 _
          | kv :: o => Forall_cons_2 _ kv o (Value_ind kv.2) (all o)
          end) o)
  end.
End value_ind.

#[global] Instance Number_eq_dec : EqDecision Number.
Proof. solve_decision. Defined.
#[global] Instance Value_eq_dec : EqDecision Value.
Proof.
  assert (∀ v w : Value, Decision (v = w)) as H; [|exact H].
  fix go 1. intros v w.
  set (go' := go : EqDecision Value).
  destruct v as [|a|a|a|a|a], w as [|b|b|b|b|b]; try (right; discriminate); [by left|..].
  all: destruct (decide (a = b)) as [->|]; [by left|right; congruence].
Defined.

(** Every object of a value lists its entries in key order, each key once. *)
Fixpoint wf_value (v : Value) : Prop :=
  match v with
  | VArray l => (fix all l := match l with [] => True | v :: l => wf_value v ∧ all l end) l
  | VObject o => ordered o ∧
      (fix all (o : list (string * Value)) :=
         match o with [] => True | kv :: o => wf_value kv.2 ∧ all o end) o
  | _ => True
  end.

(** The [json!] macro's object: entries are inserted one by one. *)
Definition obj (entries : list (string * Value)) : Value := VObject (collect entries).
(** Indexing a value by a path of keys, [None] where a step is missing. *)
Fixpoint at_path (path : list string) (v : Value) : option Value :=
  match path with
  | [] => Some v
  | k :: path => match v with VObject o => v ← tree_get k o; at_path path v | _ => None end
  end.

(** ** Ordered maps: lemmas *)

Lemma key_lt_irrefl a : ¬ key_lt a a.
Proof. unfold key_lt. intros H. by rewrite (cmp_refl String.compare) in H. Qed.

Lemma wf_array l : wf_value (VArray l) ↔ Forall wf_value l.
Proof. cbn. induction l as [|v l IH]; [by split|]. by rewrite Forall_cons, <- IH. Qed.
Lemma wf_object o : wf_value (VObject o) ↔ ordered o ∧ Forall (λ kv, wf_value kv.2) o.
Proof.
  cbn. f_equiv. induction o as [|kv o IH]; [by split|]. by rewrite Forall_cons, <- IH.
Qed.

Lemma key_lt_not_eq k k' : key_lt k k' → String.compare k' k = Gt.
Proof. unfold key_lt. intros H. by rewrite (cmp_opp String.compare), H. Qed.
Lemma tree_insert_last {A} k (v : A) m :
  Forall (λ k', key_lt k' k) m.*1 → tree_insert k v m = m ++ [(k, v)].
Proof.
  induction m as [|[k' v'] m IH]; [done|]. rewrite fmap_cons, Forall_cons. cbn. intros [Hk Hm].
  by rewrite (key_lt_not_eq _ _ Hk), IH.
Qed.
Lemma collect_app_ordered {A} (acc m : list (string * A)) :
  ordered (acc ++ m) → foldl (λ m kv, tree_insert kv.1 kv.2 m) acc m = acc ++ m.
Proof.
  revert acc. induction m as [|[k v] m IH]; intros acc H; cbn; [by rewrite app_nil_r|].
  rewrite tree_insert_last.
  - rewrite IH; [by rewrite <- app_assoc|by rewrite <- app_assoc].
  - unfold ordered in H. rewrite fmap_app in H. cbn in H.
    apply Forall_forall. intros k' Hk'. eapply StronglySorted_app_1_elem_of; [exact H|done|left].
Qed.
(** Collecting the entries of a map gives the map. *)
Lemma collect_ordered {A} (m : list (string * A)) : ordered m → collect m = m.
Proof. apply (collect_app_ordered []). Qed.

Lemma tree_get_insert {A} k k' (v : A) m :
  tree_get k (tree_insert k' v m) = if k ==? k' then Some v else tree_get k m.
Proof.
  induction m as [|[k2 v2] m IH]; [done|]. cbn. destruct (String.compare k' k2) eqn:E; cbn.
  - apply string_compare_Eq in E as ->. by repeat case_bool_decide.
  - done.
  - rewrite IH. repeat case_bool_decide; simplify_eq; try done.
    by rewrite (cmp_refl String.compare) in E.
Qed.
