(* ===== verification/ActAdapter.v ===== *)
(** * ActAdapter: what a repository declares about its Act runs

    [bosn-core/src/act.rs] and [bosn-core/src/act_coverage.rs]: the adapter document with its
    validation, the declared plan of an event, matrix tuples with their bounds and canonical
    text, and the reconciliation of required cells with what producers observed. The text of a
    scalar is [serde_json]'s, a parameter. *)

From Stdlib Require Import Ascii SpecFloat.
From S2P Require Export Json.

Local Open Scope string_scope.
Local Open Scope list_scope.
Local Open Scope Z_scope.
Local Open Scope bosn_scope.

Definition len {A} (l : list A) : Z := Z.of_nat (length l).
(** [char::is_control]: U+0000 to U+001F, U+007F and, as two bytes, U+0080 to U+009F. *)
Fixpoint any_control (s : string) : bool :=
  match s with
  | "" => false
  | String a s' =>
      (code a <? 32) || (code a =? 127)
      || match s' with String b _ => (code a =? 194) && in_range 128 159 b | "" => false end
      || any_control s'
  end.
Definition contains_byte (c : ascii) (s : string) : bool := negb (all_bytes (λ a, negb (Ascii.eqb a c)) s).
Definition ends_with (p s : string) : bool := starts_with (str_reverse p) (str_reverse s).

(** ** Matrix tuples *)

(** [ActMatrixTuple]: the axes of a matrix cell in key order. *)
Definition ActMatrixTuple := list (string * Value).
Definition matrix_empty : ActMatrixTuple := [].

(** The accounting of [validate]: at most 32768 bytes. *)
Definition add (bytes amount : Z) : result string Z :=
  let? bytes := ok_or (checked_add bytes amount) "matrix byte bound exceeded" in
  if 32768 <? bytes then Err "matrix byte bound exceeded" else Ok bytes.
Definition escaped_size (a : ascii) : Z :=
  if existsb (λ z, code a =? z) [34; 92; 10; 13; 9; 8; 12] then 2
  else if code a <=? 31 then 6 else 1.
Fixpoint escaped_sizes (s : string) : Z :=
  match s with "" => 0 | String a s => escaped_size a + escaped_sizes s end.
Definition string_size (s : string) : result string Z :=
  if 32768 <? str_len s then Err "matrix string bound exceeded" else Ok (2 + escaped_sizes s).
Definition key (k : string) : result string unit :=
  refuse ((k ==? "") || (64 <? str_len k) || any_control k) "unsafe matrix key".
Definition is_i64 (n : Number) : bool :=
  match n with NInt z => (i64_min <=? z) && (z <=? i64_max) | NFloat _ => false end.
Definition is_u64 (n : Number) : bool :=
  match n with NInt z => (0 <=? z) && (z <=? u64_max) | NFloat _ => false end.

(** [serde_json::to_string] of a scalar; [Number]'s [to_string] is the same text. *)
Class ScalarText := scalar_text : Value → string.

Section matrix.
Context `{ScalarText}.

(** The loops of [visit] over the items of an array and the entries of an object. *)
Definition visit_items (visit : Value → Z → Z → result string (Z * Z)) :
    list Value → Z → Z → result string (Z * Z) :=
  fix items a nodes bytes :=
    match a with
    | [] => Ok (nodes, bytes)
    | v :: a => let? nb := visit v nodes bytes in items a nb.1 nb.2
    end.
Definition visit_entries (visit : Value → Z → Z → result string (Z * Z)) :
    list (string * Value) → Z → Z → result string (Z * Z) :=
  fix entries o nodes bytes :=
    match o with
    | [] => Ok (nodes, bytes)
    | (k, v) :: o =>
        let? _ := key k in
        let? size := string_size k in
        let? bytes := add bytes (size + 1) in
        let? nb := visit v nodes bytes in entries o nb.1 nb.2
    end.
Fixpoint visit (v : Value) (depth nodes bytes : Z) : result string (Z * Z) :=
  let nodes := nodes + 1 in
  if (8 <? depth) || (1024 <? nodes) then Err "matrix depth or node bound exceeded" else
  match v with
  | VNumber n =>
      if negb (is_i64 n) && negb (is_u64 n) then Err "matrix floats unsupported" else
      let? bytes := add bytes (str_len (scalar_text (VNumber n))) in Ok (nodes, bytes)
  | VString s =>
      let? size := string_size s in
      let? bytes := add bytes size in Ok (nodes, bytes)
  | VNull => let? bytes := add bytes 4 in Ok (nodes, bytes)
  | VBool b => let? bytes := add bytes (if b then 4 else 5) in Ok (nodes, bytes)
  | VArray a =>
      let? bytes := add bytes (2 + u64_saturating_sub (len a) 1) in
      visit_items (λ v, visit v (depth + 1)) a nodes bytes
  | VObject o =>
      let? bytes := add bytes (2 + u64_saturating_sub (len o) 1) in
      visit_entries (λ v, visit v (depth + 1)) o nodes bytes
  end.
Definition matrix_validate (t : ActMatrixTuple) : result string unit :=
  if 32 <? len t then Err "matrix axis bound exceeded" else
  let? nb := visit_entries (λ v, visit v 1) t 1 (2 + u64_saturating_sub (len t) 1) in
  Ok tt.
Definition matrix_new (values : ActMatrixTuple) : result string ActMatrixTuple :=
  let? _ := matrix_validate values in Ok values.

Fixpoint canonical_value (v : Value) : Value :=
  match v with
  | VObject o => VObject (collect ((λ kv, (kv.1, canonical_value kv.2)) <$> o))
  | VArray a => VArray (canonical_value <$> a)
  | _ => v
  end.
(** The entries are collected after their values are encoded, so that the recursion is on [o]. *)
Fixpoint encode_value (v : Value) : string :=
  match v with
  | VObject o =>
      "{" +:+ str_join "," ((λ kv, kv.1 +:+ ":" +:+ kv.2) <$>
        ((λ kv, (scalar_text (VString kv.1), kv.2)) <$>
           collect ((λ kv, (kv.1, encode_value kv.2)) <$> o))) +:+ "}"
  | VArray a => "[" +:+ str_join "," (encode_value <$> a) +:+ "]"
  | _ => scalar_text v
  end.
Definition canonical_json (t : ActMatrixTuple) : string :=
  encode_value (canonical_value (VObject t)).
End matrix.

(** ** The adapter document *)

Definition ACT_ADAPTER_SCHEMA : Z := 1.
Definition ACT_VERSION : string := "0.2.89-act2.33".
Definition MAX_DOCUMENT_BYTES : Z := 2 ^ 20.
Definition MAX_CELLS : Z := 4096.

Record RepositoryIdentity := { ri_owner : string; ri_name : string }.
#[global] Instance RepositoryIdentity_eq_dec : EqDecision RepositoryIdentity.
Proof. solve_decision. Defined.
Definition identifier_byte (a : ascii) : bool :=
  is_ascii_alphanumeric a || existsb (Ascii.eqb a) ["_"; "-"; "."]%char.
Definition repository_valid (r : RepositoryIdentity) : bool :=
  forallb (λ s, negb (s ==? "") && (str_len s <=? 100) && negb ((s ==? ".") || (s ==? ".."))
                && all_bytes identifier_byte s) [ri_owner r; ri_name r].
Definition full_name (r : RepositoryIdentity) : string := ri_owner r +:+ "/" +:+ ri_name r.

Record ActPins := {
  pin_interface_schema : Z; pin_act_version : string; pin_act_binary_digest : string;
  pin_engine_manifest_digest : string; pin_engine_config_digest : string;
  pin_runner_manifest_digest : string; pin_runner_config_digest : string }.
Record ActWorkflows := {
  wf_pull_request : list string; wf_push : list string; wf_release : list string }.
Inductive ActProofScope := LocalLinux | GithubOnly.
#[global] Instance ActProofScope_eq_dec : EqDecision ActProofScope.
Proof. solve_decision. Defined.
Record ActRequiredCell := {
  rc_id : string; rc_workflow : string; rc_job : string; rc_runner : string;
  rc_proof_scope : ActProofScope; rc_matrix : option ActMatrixTuple }.
Record ActTiers := { tier_minimal : list string; tier_test : list string; tier_full : list string }.
Record ActPinnedVersion := { pv_name : string; pv_value : string }.
Record ActReleaseInputs := {
  rel_candidate_sha : string; rel_full_mode : string; rel_full_mode_value : string;
  rel_version : option ActPinnedVersion }.
Record ActAdapterV1 := {
  ad_schema_version : Z; ad_repository : RepositoryIdentity; ad_default_branch : string;
  ad_pins : ActPins; ad_workflows : ActWorkflows; ad_cells : list ActRequiredCell;
  ad_tiers : ActTiers; ad_release_inputs : ActReleaseInputs; ad_permitted_secrets : list string }.
Inductive ActEvent := PullRequest | Push | Release.
Inductive ActMode := Minimal | Test | Full.
#[global] Instance ActMode_eq_dec : EqDecision ActMode.
Proof. solve_decision. Defined.
Record ActPullRequestIdentity := {
  pr_number : Z; pr_head_sha : string; pr_base_sha : string;
  pr_head_repository : RepositoryIdentity; pr_base_repository : RepositoryIdentity;
  pr_head_ref : string; pr_base_ref : string; pr_author_login : string }.
Record ActSourceContext := {
  sc_repository : RepositoryIdentity; sc_current_sha : string; sc_base_sha : option string;
  sc_pull_request : option ActPullRequestIdentity }.
Record ActDeclaredPlan := {
  dp_schema_version : Z; dp_event_name : string; dp_event_payload : Value;
  dp_workflows : list string; dp_required_cells : list ActRequiredCell;
  dp_declaration_only : bool; dp_graph_matched : bool; dp_github_only_required : list string }.

Definition lower_hex (s : string) (n : Z) : bool :=
  (str_len s =? n) && all_bytes (λ a, is_digit a || in_range 97 102 a) s.
Definition sha256_digest (s : string) : bool :=
  is_some_and (strip_prefix "sha256:" s) (λ s, lower_hex s 64).
Definition identifier (s : string) : bool :=
  negb (s ==? "") && (str_len s <=? 128) && all_bytes identifier_byte s.
Definition workflow_path (s : string) : bool :=
  match strip_prefix ".github/workflows/" s with
  | None => false
  | Some file =>
      negb (file ==? "") && (str_len file <=? 128) && negb (contains_byte "/" file)
      && negb (contains_byte "\" file) && negb ((file ==? ".") || (file ==? ".."))
      && identifier file && (ends_with ".yml" file || ends_with ".yaml" file)
  end.
(** A [BTreeSet] of strings is a [gset]; its iteration order is not observed here. *)
Definition unique (values : list string) : result string (gset string) :=
  let set := list_to_set values in
  if (values ==? []) || (MAX_CELLS <? len values) || negb (Z.of_nat (size set) =? len values)
  then Err "empty, duplicate or oversized selector list" else Ok set.


Section adapter.
Context `{ScalarText}.

(** The workflow inventory of [validate]: every path of the three lists. *)
Fixpoint check_workflows (lists : list (list string)) (acc : gset string) : result string (gset string) :=
  match lists with
  | [] => Ok acc
  | paths :: lists =>
      if 128 <? len paths then Err "oversized event workflow inventory" else
      let? set := unique paths in
      if negb (forallb workflow_path (elements set))
      then Err "unsafe repository-relative workflow path"
      else check_workflows lists (acc ∪ set)
  end.
(** The loop of [validate] over the cells, with the sets [ids] and [tuples] so far. *)
Fixpoint check_cells (workflows : gset string) (cells : list ActRequiredCell) (ids : gset string)
    (tuples : gset (string * string * string * string)) : result string (gset string) :=
  match cells with
  | [] => Ok ids
  | cell :: cells =>
      let? tuples :=
        match rc_matrix cell with
        | None => Ok tuples
        | Some matrix =>
            let? _ := matrix_validate matrix in
            let tuple := (rc_workflow cell, rc_job cell, rc_runner cell, canonical_json matrix) in
            if bool_decide (tuple ∈ tuples) then Err "duplicate required physical tuple"
            else Ok ({[tuple]} ∪ tuples)
        end in
      if negb (identifier (rc_id cell)) || negb (identifier (rc_job cell))
         || negb (identifier (rc_runner cell)) || negb (bool_decide (rc_workflow cell ∈ workflows))
         || bool_decide (rc_id cell ∈ ids)
      then Err "invalid, duplicate or foreign required cell" else
      if (rc_proof_scope cell ==? LocalLinux)
         && negb ((rc_runner cell ==? "ubuntu-latest") || (rc_runner cell ==? "ubuntu-22.04"))
      then Err "local Linux declaration cannot cover a foreign runner"
      else check_cells workflows cells ({[rc_id cell]} ∪ ids) tuples
  end.
Definition version_byte (a : ascii) : bool :=
  is_ascii_alphanumeric a || existsb (Ascii.eqb a) ["."; "-"; "_"; "+"]%char.
Definition release_invalid (r : ActReleaseInputs) : bool :=
  negb (identifier (rel_candidate_sha r)) || negb (identifier (rel_full_mode r))
  || (rel_candidate_sha r ==? rel_full_mode r) || negb (rel_full_mode_value r ==? "full")
  || is_some_and (rel_version r) (λ v,
       negb (identifier (pv_name v)) || (pv_name v ==? rel_candidate_sha r)
       || (pv_name v ==? rel_full_mode r) || (pv_value v ==? "") || (128 <? str_len (pv_value v))
       || negb (all_bytes version_byte (pv_value v))).
Definition adapter_validate (a : ActAdapterV1) : result string unit :=
  let pins := ad_pins a in
  let? _ := refuse (negb (ad_schema_version a =? ACT_ADAPTER_SCHEMA)
      || negb (pin_interface_schema pins =? 1) || negb (pin_act_version pins ==? ACT_VERSION)
      || negb (repository_valid (ad_repository a))
      || negb ((ad_default_branch a ==? "main") || (ad_default_branch a ==? "master"))
      || negb (ad_permitted_secrets a ==? []))
    "unsupported adapter identity, schema, version or secrets" in
  let? _ := refuse (negb (forallb sha256_digest [pin_act_binary_digest pins;
      pin_engine_manifest_digest pins; pin_engine_config_digest pins;
      pin_runner_manifest_digest pins; pin_runner_config_digest pins]))
    "image and binary pins require exact sha256 digests" in
  let? workflows := check_workflows [wf_pull_request (ad_workflows a); wf_push (ad_workflows a);
      wf_release (ad_workflows a)] ∅ in
  let? _ := refuse ((length (ad_cells a) =? 0)%nat || (MAX_CELLS <? len (ad_cells a)))
    "empty or oversized required cell inventory" in
  let? ids := check_cells workflows (ad_cells a) ∅ ∅ in
  let? minimal := unique (tier_minimal (ad_tiers a)) in
  let? test := unique (tier_test (ad_tiers a)) in
  let? full := unique (tier_full (ad_tiers a)) in
  let? _ := refuse (negb (bool_decide (minimal ⊆ test)) || (size test <=? size minimal)%nat
      || negb (bool_decide (test ⊆ full)) || negb (bool_decide (full = ids)))
    "test must extend minimal; full must require every declared cell" in
  refuse (release_invalid (ad_release_inputs a)) "invalid or conflicting release input declarations".

(** [serde_json::from_slice] into the adapter type is a parameter. *)
Definition parse_act_adapter_json (from_slice : string → option ActAdapterV1) (bytes : string) :
    result string ActAdapterV1 :=
  let? _ := refuse (MAX_DOCUMENT_BYTES <? str_len bytes) "adapter exceeds document ceiling" in
  let? adapter := ok_or (from_slice bytes) "invalid or unknown adapter schema fields" in
  let? _ := adapter_validate adapter in
  Ok adapter.

(** ** The declared plan of an event *)

Definition tier (a : ActAdapterV1) (mode : ActMode) : list string :=
  match mode with
  | Minimal => tier_minimal (ad_tiers a) | Test => tier_test (ad_tiers a) | Full => tier_full (ad_tiers a)
  end.
Definition repo_payload (a : ActAdapterV1) : Value :=
  obj [("name", VString (ri_name (ad_repository a)));
       ("full_name", VString (full_name (ad_repository a)));
       ("owner", obj [("login", VString (ri_owner (ad_repository a)))]);
       ("default_branch", VString (ad_default_branch a))].
(** [is_ascii_control] or [is_ascii_whitespace]: the latter adds only the space. *)
Definition unsafe_ref_byte (a : ascii) : bool := (code a <=? 32) || (code a =? 127).
Definition pull_request_event (a : ActAdapterV1) (mode : ActMode) (source : ActSourceContext) :
    result string (string * Value * list string) :=
  let? pr := ok_or (sc_pull_request source) "PR identity missing" in
  let? _ := refuse ((pr_number pr =? 0) || negb (pr_head_sha pr ==? sc_current_sha source)
      || negb (sc_base_sha source ==? Some (pr_base_sha pr)) || negb (lower_hex (pr_base_sha pr) 40)
      || negb (pr_base_repository pr ==? ad_repository a)
      || negb (pr_base_ref pr ==? ad_default_branch a)
      || negb (repository_valid (pr_head_repository pr))
      || negb (repository_valid {| ri_owner := pr_author_login pr; ri_name := "identity" |})
      || (pr_head_ref pr ==? "") || (255 <? str_len (pr_head_ref pr))
      || negb (all_bytes (λ b, negb (unsafe_ref_byte b)) (pr_head_ref pr)))
    "PR head/base/repository identity drift" in
  let labels := match mode with
    | Minimal => []
    | Test => [obj [("name", VString "ci-test")]]
    | Full => [obj [("name", VString "ci-full")]]
    end in
  Ok ("pull_request",
      obj [("action", VString "opened"); ("number", VNumber (NInt (pr_number pr)));
           ("repository", repo_payload a);
           ("pull_request", obj [
              ("number", VNumber (NInt (pr_number pr))); ("state", VString "open");
              ("user", obj [("login", VString (pr_author_login pr))]); ("labels", VArray labels);
              ("head", obj [
                 ("sha", VString (sc_current_sha source)); ("ref", VString (pr_head_ref pr));
                 ("repo", obj [("name", VString (ri_name (pr_head_repository pr)));
                    ("full_name", VString (full_name (pr_head_repository pr)));
                    ("owner", obj [("login", VString (ri_owner (pr_head_repository pr)))])])]);
              ("base", obj [("sha", VString (pr_base_sha pr));
                 ("ref", VString (ad_default_branch a)); ("repo", repo_payload a)])])],
      wf_pull_request (ad_workflows a)).
Definition branch_ref (a : ActAdapterV1) : string := "refs/heads/" +:+ ad_default_branch a.
Definition push_event (a : ActAdapterV1) (mode : ActMode) (source : ActSourceContext) :
    result string (string * Value * list string) :=
  let? _ := refuse (negb (mode ==? Minimal) || bool_decide (is_Some (sc_pull_request source)))
    "push accepts only minimal without PR identity" in
  let? before := ok_or (sc_base_sha source) "push base SHA missing" in
  Ok ("push",
      obj [("repository", repo_payload a); ("ref", VString (branch_ref a));
           ("before", VString before); ("after", VString (sc_current_sha source));
           ("created", VBool false); ("deleted", VBool false)],
      wf_push (ad_workflows a)).
Definition release_event (a : ActAdapterV1) (mode : ActMode) (source : ActSourceContext) :
    result string (string * Value * list string) :=
  let? _ := refuse (negb (mode ==? Full) || bool_decide (is_Some (sc_pull_request source)))
    "release accepts only full without PR identity" in
  let r := ad_release_inputs a in
  let inputs := collect [(rel_candidate_sha r, sc_current_sha source);
                         (rel_full_mode r, rel_full_mode_value r)] in
  let inputs := match rel_version r with
    | Some v => tree_insert (pv_name v) (pv_value v) inputs
    | None => inputs
    end in
  Ok ("workflow_dispatch",
      obj [("repository", repo_payload a); ("ref", VString (branch_ref a));
           ("inputs", VObject (prod_map id VString <$> inputs))],
      wf_release (ad_workflows a)).
(** [indexed]: the cells by ID, a later one replacing an earlier. *)
Definition indexed (cells : list ActRequiredCell) : gmap string ActRequiredCell :=
  foldl (λ m c, <[rc_id c := c]> m) ∅ cells.
(** [resolve_act_event]; [None] is the panic of indexing by an ID that is not declared. *)
Definition resolve_act_event (a : ActAdapterV1) (event : ActEvent) (mode : ActMode)
    (source : ActSourceContext) : option (result string ActDeclaredPlan) :=
  match
    let? _ := adapter_validate a in
    let? _ := refuse (negb (sc_repository source ==? ad_repository a)
        || negb (repository_valid (sc_repository source)) || negb (lower_hex (sc_current_sha source) 40)
        || is_some_and (sc_base_sha source) (λ s, negb (lower_hex s 40)))
      "source repository or candidate identity is invalid" in
    match event with
    | PullRequest => pull_request_event a mode source
    | Push => push_event a mode source
    | Release => release_event a mode source
    end
  with
  | Err e => Some (Err e)
  | Ok (event_name, event_payload, workflows) =>
      cells ← mapM (λ id, indexed (ad_cells a) !! id) (tier a mode);
      Some (Ok {| dp_schema_version := 1; dp_event_name := event_name;
        dp_event_payload := event_payload; dp_workflows := workflows; dp_required_cells := cells;
        dp_declaration_only := true; dp_graph_matched := false;
        dp_github_only_required :=
          rc_id <$> filterb (λ c, rc_proof_scope c ==? GithubOnly) cells |})
  end.
End adapter.
