(* ===== verification/ActCoverage.v ===== *)
(** * ActCoverage: reconciling required cells with what producers observed

    [reconcile_act_coverage] of [bosn-core/src/act_coverage.rs], and what a complete report
    means: every required cell has an observation and a graph proof of its own. Composed with
    ActAdapter.v: the cells of a declared plan are always accepted as requirements. *)

From Stdlib Require Import Ascii SpecFloat.
From S2P Require Export ActAdapter.

Local Open Scope string_scope.
Local Open Scope list_scope.
Local Open Scope Z_scope.
Local Open Scope bosn_scope.

Inductive ActObservationProvenance := ProducerGraph | ProducerExecution.
Inductive ActGraphMatrix := NoMatrix | Exact (m : ActMatrixTuple).
Record ActGraphObservation := {
  go_workflow : string; go_job : string; go_runner : string; go_matrix : ActGraphMatrix;
  go_provenance : ActObservationProvenance }.
Inductive ActObservedOutcome := OSuccess | OFailed | OSkipped | OUnsupported.
Record ActExecutionObservation := {
  eo_workflow : option string; eo_job : string; eo_runner : option string;
  eo_matrix : option ActMatrixTuple; eo_outcome : ActObservedOutcome;
  eo_provenance : ActObservationProvenance }.
Inductive ActCoverageReason :=
| CSuccess | CGithubOnly | CUnresolvedMatrix | CMissing | CAmbiguous | CIncompleteIdentity
| CFailed | CSkipped | CUnsupported.
Record ActCellCoverage := { cc_id : string; cc_reason : ActCoverageReason }.
Record ActCoverageReport := {
  cr_cells : list ActCellCoverage; cr_local_complete : bool; cr_full_complete : bool;
  cr_documentary_only : bool }.
#[global] Instance provenance_eq_dec : EqDecision ActObservationProvenance.
Proof. solve_decision. Defined.
#[global] Instance graph_matrix_eq_dec : EqDecision ActGraphMatrix.
Proof. solve_decision. Defined.
#[global] Instance outcome_eq_dec : EqDecision ActObservedOutcome.
Proof. solve_decision. Defined.
#[global] Instance reason_eq_dec : EqDecision ActCoverageReason.
Proof. solve_decision. Defined.

Definition identity (workflow job runner : string) : bool :=
  negb (workflow ==? "") && (str_len workflow <=? 1024) && negb (starts_with "/" workflow)
  && negb (contains_byte "\" workflow) && negb (any_control workflow)
  && forallb (λ p, negb (p ==? "") && negb (p ==? ".") && negb (p ==? "..")) (str_split "/" workflow)
  && identifier job && identifier runner.

(** The proofs of a cell: graph observations of its workflow, job and runner. *)
Definition proofs_of (graph : list ActGraphObservation) (c : ActRequiredCell) : list ActGraphObservation :=
  filterb (λ g, (go_workflow g ==? rc_workflow c) && (go_job g ==? rc_job c)
                && (go_runner g ==? rc_runner c)) graph.
(** The matrix of a cell: its own, or the empty one its only graph proof shows. *)
Definition resolved_matrix (graph : list ActGraphObservation) (c : ActRequiredCell) : option ActMatrixTuple :=
  match rc_matrix c with
  | Some m => Some m
  | None =>
      match proofs_of graph c with
      | [g] => if (go_provenance g ==? ProducerGraph) && (go_matrix g ==? NoMatrix)
               then Some matrix_empty else None
      | _ => None
      end
  end.
Definition hits_of (observed : list ActExecutionObservation) (c : ActRequiredCell) (matrix : ActMatrixTuple) :
    list ActExecutionObservation :=
  filterb (λ o, (eo_workflow o ==? Some (rc_workflow c)) && (eo_job o ==? rc_job c)
                && (eo_runner o ==? Some (rc_runner c)) && (eo_matrix o ==? Some matrix)) observed.
Definition same_tuple (c other : ActRequiredCell) (matrix : ActMatrixTuple) : bool :=
  (rc_workflow other ==? rc_workflow c) && (rc_job other ==? rc_job c)
  && (rc_runner other ==? rc_runner c)
  && ((rc_matrix other ==? Some matrix) || ((rc_matrix other ==? None) && (matrix ==? matrix_empty))).
Definition proves_matrix (g : ActGraphObservation) (matrix : ActMatrixTuple) : bool :=
  match go_matrix g with NoMatrix => matrix ==? matrix_empty | Exact m => m ==? matrix end.
Definition outcome_reason (o : ActObservedOutcome) : ActCoverageReason :=
  match o with
  | OSuccess => CSuccess | OFailed => CFailed | OSkipped => CSkipped | OUnsupported => CUnsupported
  end.
Definition cell_reason (required : list ActRequiredCell) (graph : list ActGraphObservation)
    (observed : list ActExecutionObservation) (c : ActRequiredCell) : ActCoverageReason :=
  if rc_proof_scope c ==? GithubOnly then CGithubOnly else
  match resolved_matrix graph c with
  | None => CUnresolvedMatrix
  | Some matrix =>
      let incomplete := existsb (λ o, (eo_job o ==? rc_job c)
        && ((eo_workflow o ==? None) || (eo_runner o ==? None))) observed in
      let hits := hits_of observed c matrix in
      let repeated := (1 <? length (filterb (λ other, same_tuple c other matrix) required))%nat in
      let exact_proofs := filterb (λ g, proves_matrix g matrix) (proofs_of graph c) in
      let graph_matches := match exact_proofs with [g] => go_provenance g ==? ProducerGraph | _ => false end in
      if incomplete then CIncompleteIdentity
      else if repeated || (1 <? length hits)%nat || (1 <? length exact_proofs)%nat then CAmbiguous
      else match hits with
        | [] => CMissing
        | hit :: _ =>
            if negb graph_matches then CMissing
            else if negb (eo_provenance hit ==? ProducerExecution) then CIncompleteIdentity
            else outcome_reason (eo_outcome hit)
        end
  end.

Section reconcile.
Context `{ScalarText}.

Fixpoint check_required (required : list ActRequiredCell) (ids : gset string) : result string unit :=
  match required with
  | [] => Ok tt
  | c :: required =>
      if negb (identifier (rc_id c)) || bool_decide (rc_id c ∈ ids)
         || negb (identity (rc_workflow c) (rc_job c) (rc_runner c))
      then Err "invalid or duplicate required identity"
      else check_required required ({[rc_id c]} ∪ ids)
  end.
Definition execution_identity_invalid (o : ActExecutionObservation) : bool :=
  negb (identifier (eo_job o))
  || is_some_and (eo_workflow o)
       (λ w, negb (identity w (eo_job o) (default "unknown" (eo_runner o))))
  || is_some_and (eo_runner o) (λ r, negb (identifier r)).
(** A loop of [validate]s: the first error is returned. *)
Fixpoint validate_all (matrices : list (option ActMatrixTuple)) : result string unit :=
  match matrices with
  | [] => Ok tt
  | m :: matrices =>
      let? _ := match m with Some m => matrix_validate m | None => Ok tt end in
      validate_all matrices
  end.
Definition graph_matrix (m : ActGraphMatrix) : option ActMatrixTuple :=
  match m with NoMatrix => None | Exact m => Some m end.
Definition check_inventory (required : list ActRequiredCell) (graph : list ActGraphObservation)
    (observed : list ActExecutionObservation) : result string unit :=
  let? _ := refuse ((length required =? 0)%nat || (4096 <? len required) || (4096 <? len graph)
      || (4096 <? len observed)) "coverage inventory bound exceeded" in
  let? _ := check_required required ∅ in
  let? _ := refuse (existsb (λ g, negb (identity (go_workflow g) (go_job g) (go_runner g))) graph)
    "invalid graph identity" in
  let? _ := refuse (existsb execution_identity_invalid observed) "invalid execution identity" in
  let? _ := validate_all (rc_matrix <$> required) in
  let? _ := validate_all (graph_matrix ∘ go_matrix <$> graph) in
  validate_all (eo_matrix <$> observed).
Definition reconcile_act_coverage (required : list ActRequiredCell) (graph : list ActGraphObservation)
    (observed : list ActExecutionObservation) : result string ActCoverageReport :=
  let? _ := check_inventory required graph observed in
  let cells := (λ c, {| cc_id := rc_id c; cc_reason := cell_reason required graph observed c |})
                 <$> required in
  Ok {| cr_cells := cells;
        cr_local_complete := forallb (λ c, (cc_reason c ==? CSuccess) || (cc_reason c ==? CGithubOnly)) cells;
        cr_full_complete := forallb (λ c, cc_reason c ==? CSuccess) cells;
        cr_documentary_only := true |}.
End reconcile.

(** ** What a successful cell means *)

(** An observation of exactly this cell with this matrix. *)
Definition observes (c : ActRequiredCell) (m : ActMatrixTuple) (o : ActExecutionObservation) : Prop :=
  eo_workflow o = Some (rc_workflow c) ∧ eo_job o = rc_job c ∧ eo_runner o = Some (rc_runner c)
  ∧ eo_matrix o = Some m.
(** A graph observation of the job of this cell; [shows]: with this matrix. *)
Definition of_job (c : ActRequiredCell) (g : ActGraphObservation) : Prop :=
  go_workflow g = rc_workflow c ∧ go_job g = rc_job c ∧ go_runner g = rc_runner c.
Definition shows (c : ActRequiredCell) (m : ActMatrixTuple) (g : ActGraphObservation) : Prop :=
  of_job c g ∧ default [] (graph_matrix (go_matrix g)) = m.
(** Another requirement of the same workflow, job, runner and matrix, a missing one being empty. *)
Definition same_requirement (c : ActRequiredCell) (m : ActMatrixTuple) (c' : ActRequiredCell) : Prop :=
  rc_workflow c' = rc_workflow c ∧ rc_job c' = rc_job c ∧ rc_runner c' = rc_runner c
  ∧ default [] (rc_matrix c') = m.
(** At most one position of a list satisfies a predicate. *)
Definition at_most_one {A} (P : A → Prop) (l : list A) : Prop :=
  ∀ i j x y, l !! i = Some x → l !! j = Some y → P x → P y → i = j.

(** A cell is covered by the run observed at [i] and the graph observation at [j]: both are its
    own, the only ones of their kind, made by the right producers, and the run succeeded. *)
Record covered (required : list ActRequiredCell) (graph : list ActGraphObservation)
    (observed : list ActExecutionObservation) (c : ActRequiredCell) (m : ActMatrixTuple) (i j : nat) : Prop := {
  cov_local : rc_proof_scope c = LocalLinux;
  cov_matrix : rc_matrix c = Some m ∨
    rc_matrix c = None ∧ m = [] ∧ at_most_one (of_job c) graph
    ∧ ∃ g, graph !! j = Some g ∧ go_matrix g = NoMatrix;
  cov_run : ∃ o, observed !! i = Some o ∧ observes c m o ∧ eo_outcome o = OSuccess
    ∧ eo_provenance o = ProducerExecution;
  cov_one_run : at_most_one (observes c m) observed;
  cov_identified : ∀ o, o ∈ observed → eo_job o = rc_job c →
    is_Some (eo_workflow o) ∧ is_Some (eo_runner o);
  cov_proof : ∃ g, graph !! j = Some g ∧ shows c m g ∧ go_provenance g = ProducerGraph;
  cov_one_proof : at_most_one (shows c m) graph;
  cov_one_requirement : at_most_one (same_requirement c m) required;
}.

Lemma at_most_one_filterb {A} (f : A → bool) (P : A → Prop) l :
  (∀ x, f x = true ↔ P x) → at_most_one P l ↔ (length (filterb f l) ≤ 1)%nat.
Proof.
  intros Hf. induction l as [|x l IH].
  - rewrite filterb_nil. split; [cbn; lia|]. intros _ i j y z Hi. by rewrite lookup_nil in Hi.
  - rewrite filterb_cons. destruct (f x) eqn:E.
    + cbn [length]. split.
      * intros H. destruct (filterb f l) as [|y k] eqn:Hk; [cbn; lia|].
        assert (y ∈ filterb f l) as Hy by (rewrite Hk; left).
        apply elem_of_filterb in Hy as [Hy [n Hn]%list_elem_of_lookup].
        discriminate (H 0%nat (S n) x y eq_refl Hn (proj1 (Hf x) E) (proj1 (Hf y) Hy)).
      * intros Hl. assert (filterb f l = []) as Hk by (destruct (filterb f l); [done|cbn in Hl; lia]).
        intros [|i] [|j] y z Hi Hj Hy Hz; [done| | |]; exfalso;
          [assert (z ∈ filterb f l) as H|assert (y ∈ filterb f l) as H..];
          try (rewrite Hk in H; by apply not_elem_of_nil in H);
          apply elem_of_filterb; (split; [by apply Hf|by eapply list_elem_of_lookup_2]).
    + rewrite <- IH. split; intros H.
      * intros i j y z Hi Hj Hy Hz. by specialize (H (S i) (S j) y z Hi Hj Hy Hz) as [= ->].
      * intros [|i] [|j] y z Hi Hj Hy Hz; cbn in *; simplify_eq; [done| | |].
        -- apply Hf in Hy. congruence.
        -- apply Hf in Hz. congruence.
        -- f_equal. by eapply H.
Qed.

Lemma filterb_filterb {A} (f g : A → bool) l :
  filterb f (filterb g l) = filterb (λ x, g x && f x) l.
Proof.
  induction l as [|x l IH]; [done|]. rewrite !filterb_cons. destruct (g x); cbn; [|done].
  rewrite filterb_cons, IH. done.
Qed.
Lemma filterb_singleton {A} (f : A → bool) (P : A → Prop) l x :
  (∀ x, f x = true ↔ P x) →
  filterb f l = [x] ↔ at_most_one P l ∧ ∃ i, l !! i = Some x ∧ P x.
Proof.
  intros Hf. rewrite (at_most_one_filterb f P) by done. split.
  - intros E. rewrite E. split; [cbn; lia|].
    assert (x ∈ filterb f l) as [Hx [i Hi]%list_elem_of_lookup]%elem_of_filterb by (rewrite E; left).
    exists i. by rewrite <- Hf.
  - intros [Hl (i & Hi & Hx)].
    assert (x ∈ filterb f l) as H by (apply elem_of_filterb; rewrite Hf; eauto using list_elem_of_lookup_2).
    destruct (filterb f l) as [|y [|z k]]; [by apply not_elem_of_nil in H| |cbn in Hl; lia].
    by apply list_elem_of_singleton in H as ->.
Qed.

Section success.
Context (required : list ActRequiredCell) (graph : list ActGraphObservation)
  (observed : list ActExecutionObservation).

Lemma hit_observes c m o :
  (eo_workflow o ==? Some (rc_workflow c)) && (eo_job o ==? rc_job c)
    && (eo_runner o ==? Some (rc_runner c)) && (eo_matrix o ==? Some m) = true ↔ observes c m o.
Proof. unfold observes. rewrite !andb_true_iff, !bool_decide_eq_true. tauto. Qed.
Lemma proof_of_job c g :
  (go_workflow g ==? rc_workflow c) && (go_job g ==? rc_job c) && (go_runner g ==? rc_runner c) = true
  ↔ of_job c g.
Proof. unfold of_job. rewrite !andb_true_iff, !bool_decide_eq_true. tauto. Qed.
Lemma proof_shows c m g :
  (go_workflow g ==? rc_workflow c) && (go_job g ==? rc_job c) && (go_runner g ==? rc_runner c)
    && proves_matrix g m = true ↔ shows c m g.
Proof.
  unfold shows. rewrite andb_true_iff, proof_of_job. f_equiv. unfold proves_matrix.
  destruct (go_matrix g); cbn; rewrite bool_decide_eq_true; unfold matrix_empty; naive_solver.
Qed.
Lemma tuple_same c m c' : same_tuple c c' m = true ↔ same_requirement c m c'.
Proof.
  unfold same_tuple, same_requirement. rewrite !andb_true_iff, orb_true_iff, andb_true_iff, !bool_decide_eq_true.
  unfold matrix_empty. destruct (rc_matrix c'); cbn; naive_solver.
Qed.
Lemma resolved_matrix_Some c m :
  resolved_matrix graph c = Some m ↔ rc_matrix c = Some m ∨
    rc_matrix c = None ∧ m = [] ∧ ∃ g, proofs_of graph c = [g] ∧ go_provenance g = ProducerGraph
      ∧ go_matrix g = NoMatrix.
Proof.
  unfold resolved_matrix. destruct (rc_matrix c) as [m'|]; [naive_solver|].
  destruct (proofs_of graph c) as [|g [|? ?]]; [naive_solver| |naive_solver].
  destruct (_ && _) eqn:E; [|apply not_true_iff_false in E];
    rewrite andb_true_iff, !bool_decide_eq_true in E; unfold matrix_empty; naive_solver.
Qed.
Lemma incomplete_none c :
  existsb (λ o, (eo_job o ==? rc_job c) && ((eo_workflow o ==? None) || (eo_runner o ==? None))) observed
    = false ↔
  ∀ o, o ∈ observed → eo_job o = rc_job c → is_Some (eo_workflow o) ∧ is_Some (eo_runner o).
Proof.
  rewrite existsb_false_forall, Forall_forall. split; intros H o Ho; specialize (H o Ho).
  - intros Hj. rewrite bool_decide_true in H by done. cbn in H. booleans.
    by rewrite <- !not_eq_None_Some.
  - apply andb_false_iff. destruct (decide (eo_job o = rc_job c)) as [Hj|]; [|by left; apply bool_decide_false].
    destruct (H Hj) as [[? ->] [? ->]]. by right.
Qed.

(** A cell succeeds exactly when a run and a graph observation cover it. *)
Lemma success_covered c :
  cell_reason required graph observed c = CSuccess ↔
  ∃ m i j, covered required graph observed c m i j.
Proof.
  unfold cell_reason, hits_of, proofs_of. split.
  - destruct (bool_decide (_ = GithubOnly)) eqn:Hs; [done|]. booleans.
    destruct (resolved_matrix graph c) as [m|] eqn:Hm; [|done]. destruct (existsb _ _) eqn:Hinc; [done|].
    destruct (_ || _) eqn:Hamb; [done|]. rewrite !orb_false_iff, !Nat.ltb_ge in Hamb.
    destruct Hamb as [[Hrep Hhit] Hpr]. rewrite filterb_filterb in Hpr |- *.
    destruct (filterb _ observed) as [|o os] eqn:Ho; [done|].
    destruct os; [|cbn in Hhit; lia].
    destruct (filterb _ graph) as [|g gs] eqn:Hg; [done|]. destruct gs; [|cbn in Hpr; lia].
    destruct (bool_decide (go_provenance g = _)) eqn:Hgp; [|done]. cbn.
    destruct (bool_decide (eo_provenance o = _)) eqn:Hop; [|done]. cbn. booleans.
    destruct (eo_outcome o) eqn:Hout; try done. intros _.
    apply (filterb_singleton _ _ _ _ (hit_observes c m)) in Ho as [Hone (i & Hi & Hobs)].
    apply (filterb_singleton _ _ _ _ (proof_shows c m)) in Hg as [Honeg (j & Hj & Hsh)].
    exists m, i, j. split; try done; eauto 10.
    + destruct (rc_proof_scope c); done.
    + apply resolved_matrix_Some in Hm as [?|(? & -> & g' & Hg' & ? & Hno)]; [by left|right].
      apply (filterb_singleton _ _ _ _ (proof_of_job c)) in Hg' as [Hone' (j' & Hj' & Hof)].
      split_and!; try done. assert (j' = j) as -> by (eapply Hone'; [done|done|done|apply Hsh]).
      by exists g'.
    + by apply incomplete_none.
    + by apply (at_most_one_filterb _ _ _ (tuple_same c m)).
  - intros (m & i & j & [Hs Hm (o & Hi & Hobs & Hout & Hop) Hone Hid (g & Hj & Hsh & Hgp) Honeg Hreq]).
    rewrite Hs, bool_decide_false by done.
    assert (resolved_matrix graph c = Some m) as ->.
    { apply resolved_matrix_Some. destruct Hm as [?|(? & ? & Hof & g' & Hg' & Hno)]; [by left|right].
      split_and!; try done. exists g'. simplify_eq. split_and!; try done.
      apply (filterb_singleton _ _ _ _ (proof_of_job c)). split; [done|]. exists j. split; [done|apply Hsh]. }
    apply incomplete_none in Hid as ->. rewrite filterb_filterb.
    assert (filterb _ observed = [o]) as ->
      by (apply (filterb_singleton _ _ _ _ (hit_observes c m)); eauto).
    assert (filterb _ graph = [g]) as -> by (apply (filterb_singleton _ _ _ _ (proof_shows c m)); eauto).
    apply (at_most_one_filterb _ _ _ (tuple_same c m)) in Hreq. apply Nat.ltb_ge in Hreq as ->.
    cbn. rewrite Hgp, Hop, Hout. done.
Qed.
End success.

Lemma covered_default required graph observed c m i j :
  covered required graph observed c m i j → default [] (rc_matrix c) = m.
Proof. intros H. by destruct (cov_matrix _ _ _ _ _ _ _ H) as [->|(-> & -> & _)]. Qed.
(** Two requirements that share a run or a graph observation are the same one. *)
Lemma covered_own_run required graph observed k k' c c' m m' i j j' :
  required !! k = Some c → required !! k' = Some c' →
  covered required graph observed c m i j → covered required graph observed c' m' i j' → k = k'.
Proof.
  intros Hk Hk' Hc Hc'. pose proof (covered_default _ _ _ _ _ _ _ Hc) as Hm.
  pose proof (covered_default _ _ _ _ _ _ _ Hc') as Hm'.
  destruct (cov_run _ _ _ _ _ _ _ Hc) as (o & Ho & (? & ? & ? & ?) & _).
  destruct (cov_run _ _ _ _ _ _ _ Hc') as (o' & Ho' & (? & ? & ? & ?) & _).
  eapply (cov_one_requirement _ _ _ _ _ _ _ Hc); [done|done|done|].
  unfold same_requirement. simplify_eq. split_and!; congruence.
Qed.
Lemma covered_own_proof required graph observed k k' c c' m m' i i' j :
  required !! k = Some c → required !! k' = Some c' →
  covered required graph observed c m i j → covered required graph observed c' m' i' j → k = k'.
Proof.
  intros Hk Hk' Hc Hc'. pose proof (covered_default _ _ _ _ _ _ _ Hc) as Hm.
  pose proof (covered_default _ _ _ _ _ _ _ Hc') as Hm'.
  destruct (cov_proof _ _ _ _ _ _ _ Hc) as (g & Hg & ((? & ? & ?) & ?) & _).
  destruct (cov_proof _ _ _ _ _ _ _ Hc') as (g' & Hg' & ((? & ? & ?) & ?) & _).
  eapply (cov_one_requirement _ _ _ _ _ _ _ Hc); [done|done|done|].
  unfold same_requirement. simplify_eq. split_and!; congruence.
Qed.

Lemma Forall_choose {A B} (P : A → B → Prop) l :
  Forall (λ x, ∃ y, P x y) l → ∃ k, Forall2 P l k.
Proof.
  induction 1 as [|x l [y Hy] _ [k IH]]; [by exists []|]. exists (y :: k). by constructor.
Qed.
Lemma forallb_Forall {A} (f : A → bool) l : forallb f l = true ↔ Forall (λ x, f x = true) l.
Proof. rewrite forallb_forall, Forall_forall. by setoid_rewrite <- list_elem_of_In. Qed.

Section exact.
Context `{ScalarText}.

(** C26. A coverage report has one cell per requirement, in order. It is fully complete exactly when
    every requirement is covered, and then the runs and the graph observations that cover the
    requirements are pairwise distinct: one success never stands for two cells. It is locally
    complete exactly when every requirement that is not left to GitHub is covered. *)
Theorem coverage_is_exact required graph observed report :
  reconcile_act_coverage required graph observed = Ok report →
  cc_id <$> cr_cells report = rc_id <$> required
  ∧ (cr_full_complete report = true ↔
       Forall (λ c, ∃ m i j, covered required graph observed c m i j) required)
  ∧ (cr_full_complete report = true → ∃ pairs : list (nat * nat), NoDup pairs.*1 ∧ NoDup pairs.*2
       ∧ Forall2 (λ c ij, ∃ m, covered required graph observed c m ij.1 ij.2) required pairs)
  ∧ (cr_local_complete report = true ↔
       Forall (λ c, rc_proof_scope c = GithubOnly ∨ ∃ m i j, covered required graph observed c m i j)
         required).
Proof.
  unfold reconcile_act_coverage. intros Hr. destruct (check_inventory _ _ _) eqn:Hchk; [|done].
  injection Hr as <-. cbn [cr_cells cr_full_complete cr_local_complete].
  assert (∀ c, cell_reason required graph observed c = CGithubOnly ↔ rc_proof_scope c = GithubOnly) as Hgh.
  { intros c. unfold cell_reason. case_bool_decide; [done|]. split; [|done].
    repeat case_match; try done; destruct (eo_outcome _); done. }
  assert (forallb (λ c, cc_reason c ==? CSuccess) ((λ c, {| cc_id := rc_id c;
    cc_reason := cell_reason required graph observed c |}) <$> required) = true ↔
    Forall (λ c, ∃ m i j, covered required graph observed c m i j) required) as Hfull.
  { rewrite forallb_Forall, Forall_fmap. apply Forall_iff. intros c.
    unfold compose. rewrite bool_decide_eq_true. apply success_covered. }
  split_and!; [by rewrite <- list_fmap_compose|done| |].
  - rewrite Hfull. intros HF.
    assert (∃ pairs, Forall2 (λ c ij, ∃ m, covered required graph observed c m ij.1 ij.2) required pairs)
      as [pairs HF2].
    { apply Forall_choose. eapply Forall_impl; [done|]. intros c (m & i & j & Hc). by exists (i, j), m. }
    exists pairs. split_and!; [| |done]; apply NoDup_alt; intros k k' i Hk Hk';
      apply list_lookup_fmap_Some in Hk as ([i1 j1] & -> & Hi), Hk' as ([i2 j2] & Heq & Hi'); cbn in Heq; subst;
      destruct (Forall2_lookup_r _ _ _ _ _ HF2 Hi) as (c & Hc & m & Hm);
      destruct (Forall2_lookup_r _ _ _ _ _ HF2 Hi') as (c' & Hc' & m' & Hm'); cbn in *;
      [by eapply covered_own_run|by eapply covered_own_proof].
  - rewrite forallb_Forall, Forall_fmap. apply Forall_iff. intros c. unfold compose. cbn [cc_reason].
    rewrite orb_true_iff, !bool_decide_eq_true, Hgh, success_covered. tauto.
Qed.
End exact.
