(* ===== verification/ActPlans.v ===== *)
(** * ActPlans: what the adapter's validation and the declared plan guarantee

    The bounds of an accepted matrix tuple, the declared plan of an event, and that the cells of a
    plan are always requirements the reconciliation accepts. *)

From Stdlib Require Import Ascii SpecFloat.
From stdpp Require Import pretty.
From S2P Require Export ActCoverage.

Local Open Scope string_scope.
Local Open Scope list_scope.
Local Open Scope Z_scope.
Local Open Scope bosn_scope.

(** ** Matrix bounds *)

(** The laws of [serde_json::to_string] on scalars: keywords, and strings in quotes with the
    short escapes, [\u00xx] for the other control characters and everything else as it is. *)
Class ScalarLaws `{!ScalarText} : Prop := {
  text_null : scalar_text VNull = "null";
  text_bool b : scalar_text (VBool b) = if b then "true" else "false";
  text_string s : str_len (scalar_text (VString s)) = 2 + escaped_sizes s;
}.

(** The values of a document, itself included, and how deep it nests. *)
Fixpoint nodes_of (v : Value) : Z :=
  match v with
  | VArray a => 1 + sumZ (nodes_of <$> a)
  | VObject o => 1 + sumZ ((λ kv, nodes_of kv.2) <$> o)
  | _ => 1
  end.
Fixpoint height (v : Value) : Z :=
  match v with
  | VArray a => foldr Z.max 0 ((λ v, 1 + height v) <$> a)
  | VObject o => foldr Z.max 0 ((λ kv, 1 + height kv.2) <$> o)
  | _ => 0
  end.

Section bounds.
Context `{ScalarLaws}.

Lemma canonical_wf v : wf_value v → canonical_value v = v.
Proof.
  induction v as [| | | |a IH|o IH] using Value_ind; try done.
  - rewrite wf_array. intros Hwf. cbn. f_equal. rewrite <- (list_fmap_id a) at 2.
    apply list_fmap_ext. intros i v Hi. rewrite Forall_lookup in IH, Hwf. eauto.
  - rewrite wf_object. intros [Hord Hwf]. cbn. f_equal.
    assert ((λ kv, (kv.1, canonical_value kv.2)) <$> o = o) as ->; [|by apply collect_ordered].
    rewrite <- (list_fmap_id o) at 2. apply list_fmap_ext. intros i [k v] Hi.
    rewrite Forall_lookup in IH, Hwf. cbn. f_equal. apply (IH _ _ Hi), (Hwf _ _ Hi).
Qed.
Lemma str_len_app s t : str_len (s +:+ t) = str_len s + str_len t.
Proof. unfold str_len. rewrite length_append. lia. Qed.
Lemma str_len_join l :
  str_len (str_join "," l) = sumZ (str_len <$> l) + u64_saturating_sub (len l) 1.
Proof.
  unfold u64_saturating_sub, len. induction l as [|x [|y l] IH]; [done|cbn; lia|].
  change (str_join "," (x :: y :: l)) with (x +:+ "," +:+ str_join "," (y :: l)).
  rewrite !str_len_app, IH. cbn -[str_join]. change (str_len ",") with 1. lia.
Qed.
(** The length of an object's text, once its entries are in order. *)
Lemma encode_object_len o :
  ordered o →
  str_len (encode_value (VObject o)) =
  2 + u64_saturating_sub (len o) 1
    + sumZ ((λ kv, 3 + escaped_sizes kv.1 + str_len (encode_value kv.2)) <$> o).
Proof.
  intros Ho. cbn [encode_value]. rewrite collect_ordered.
  - rewrite !str_len_app, str_len_join. change (str_len "{") with 1. change (str_len "}") with 1.
    unfold len. rewrite !length_fmap, <- !list_fmap_compose.
    assert (sumZ _ = sumZ ((λ kv, 3 + escaped_sizes kv.1 + str_len (encode_value kv.2)) <$> o)) as ->; [|lia].
    f_equal. apply list_fmap_ext. intros i [k v] _. cbn -[Z.add]. rewrite !str_len_app, text_string.
    change (str_len ":") with 1. lia.
  - unfold ordered in *. rewrite <- list_fmap_compose. by rewrite (list_fmap_ext _ fst).
Qed.
Lemma encode_array_len a :
  str_len (encode_value (VArray a)) =
  2 + u64_saturating_sub (len a) 1 + sumZ ((λ v, str_len (encode_value v)) <$> a).
Proof.
  cbn [encode_value]. rewrite !str_len_app, str_len_join. change (str_len "[") with 1.
  change (str_len "]") with 1. unfold len. rewrite length_fmap, <- list_fmap_compose. unfold compose. lia.
Qed.

Lemma add_Ok b n b' : add b n = Ok b' → b' = b + n ∧ b' ≤ 32768.
Proof. unfold add, checked_add. intros Ha. results; simplify_eq; booleans. repeat case_match; simplify_eq. lia. Qed.

(** One visit counts the nodes and the bytes of the text exactly. *)
Definition counted (v : Value) (depth nodes bytes nodes' bytes' : Z) : Prop :=
  nodes' = nodes + nodes_of v ∧ bytes' = bytes + str_len (encode_value v) ∧ depth + height v ≤ 8
  ∧ nodes' ≤ 1024 ∧ bytes' ≤ 32768.

Lemma string_size_Ok s n : string_size s = Ok n → n = 2 + escaped_sizes s.
Proof. unfold string_size. intros Hs. results; by simplify_eq. Qed.
Lemma visit_items_counted d a n b n' b' :
  Forall (λ v, ∀ n b n' b', visit v (d + 1) n b = Ok (n', b') → counted v (d + 1) n b n' b') a →
  visit_items (λ v, visit v (d + 1)) a n b = Ok (n', b') → d ≤ 8 → n ≤ 1024 → b ≤ 32768 →
  n' = n + sumZ (nodes_of <$> a) ∧ b' = b + sumZ ((λ v, str_len (encode_value v)) <$> a)
  ∧ d + foldr Z.max 0 ((λ v, 1 + height v) <$> a) ≤ 8 ∧ n' ≤ 1024 ∧ b' ≤ 32768.
Proof.
  intros HF. revert n b. induction HF as [|v a Hv _ IH]; intros n b; rewrite ?fmap_cons; cbn [visit_items sumZ foldr].
  - intros [= <- <-]. cbn. lia.
  - intros Hr Hd Hn Hb. destruct (visit v _ _ _) as [[n1 b1]|] eqn:E; [|done].
    destruct (Hv _ _ _ _ E) as (-> & -> & ? & ? & ?). apply IH in Hr as (-> & -> & ? & ? & ?); cbn [fst snd] in *; lia.
Qed.
Lemma visit_entries_counted d o n b n' b' :
  Forall (λ kv, ∀ n b n' b', visit kv.2 (d + 1) n b = Ok (n', b') → counted kv.2 (d + 1) n b n' b') o →
  visit_entries (λ v, visit v (d + 1)) o n b = Ok (n', b') → d ≤ 8 → n ≤ 1024 → b ≤ 32768 →
  n' = n + sumZ ((λ kv, nodes_of kv.2) <$> o)
  ∧ b' = b + sumZ ((λ kv, 3 + escaped_sizes kv.1 + str_len (encode_value kv.2)) <$> o)
  ∧ d + foldr Z.max 0 ((λ kv, 1 + height kv.2) <$> o) ≤ 8 ∧ n' ≤ 1024 ∧ b' ≤ 32768.
Proof.
  intros HF. revert n b. induction HF as [|[k v] o Hv _ IH]; intros n b; rewrite ?fmap_cons; cbn [visit_entries sumZ foldr fst snd].
  - intros [= <- <-]. cbn. lia.
  - intros Hr Hd Hn Hb. destruct (key k); [|done]. destruct (string_size k) as [z|] eqn:Hz; [|done].
    apply string_size_Ok in Hz as ->. destruct (add _ _) as [b1|] eqn:Ha; [|done].
    apply add_Ok in Ha as [-> ?]. destruct (visit v _ _ _) as [[n2 b2]|] eqn:E; [|done].
    destruct (Hv _ _ _ _ E) as (-> & -> & ? & ? & ?). apply IH in Hr as (-> & -> & ? & ? & ?); cbn in *; lia.
Qed.
Lemma visit_counted v d n b n' b' :
  wf_value v → visit v d n b = Ok (n', b') → counted v d n b n' b'.
Proof.
  revert d n b n' b'. induction v as [|x|m|s|a IH|o IH] using Value_ind; intros d n b n' b' Hwf Hv;
    unfold counted; cbn [visit] in Hv; destruct (_ || _) eqn:Hb in Hv; try done; booleans.
  - results. simplify_eq. apply add_Ok in Hv0 as [-> ?]. cbn. rewrite text_null.
    change (str_len "null") with 4. lia.
  - results. simplify_eq. apply add_Ok in Hv0 as [-> ?]. cbn. rewrite text_bool.
    destruct x; [change (str_len "true") with 4|change (str_len "false") with 5]; lia.
  - results. simplify_eq. apply add_Ok in Hv0 as [-> ?]. cbn. lia.
  - results. simplify_eq. apply add_Ok in Hv1 as [-> ?]. apply string_size_Ok in Hv0 as ->. cbn.
    rewrite text_string. lia.
  - rewrite encode_array_len. destruct (add _ _) as [b0|] eqn:Hadd; [|done].
    apply add_Ok in Hadd as [-> Hle]. apply wf_array in Hwf. apply visit_items_counted in Hv; [cbn; lia| |lia..].
    rewrite Forall_forall in IH, Hwf |- *. eauto.
  - apply wf_object in Hwf as [Hord Hwf]. rewrite encode_object_len by done.
    destruct (add _ _) as [b0|] eqn:Hadd; [|done]. apply add_Ok in Hadd as [-> Hle].
    apply visit_entries_counted in Hv; [cbn; lia| |lia..]. rewrite Forall_forall in IH, Hwf |- *. eauto.
Qed.

(** An accepted matrix tuple is bounded as it will be stored and compared: its canonical text has
    at most 32768 bytes, exactly as many as the validation counted without building it, it has at
    most 32 axes and 1024 values, and nests at most eight levels under the tuple. *)
Theorem matrix_bounds_exact (t : ActMatrixTuple) :
  wf_value (VObject t) → matrix_validate t = Ok tt →
  str_len (canonical_json t) ≤ 32768 ∧ len t ≤ 32 ∧ nodes_of (VObject t) ≤ 1024
  ∧ height (VObject t) ≤ 8
  ∧ visit_entries (λ v, visit v 1) t 1 (2 + u64_saturating_sub (len t) 1)
    = Ok (nodes_of (VObject t), str_len (canonical_json t)).
Proof.
  intros Hwf Hv. unfold matrix_validate in Hv. destruct (32 <? len t) eqn:Hl; [done|]. booleans.
  destruct (visit_entries _ _ _ _) as [[n b]|] eqn:E; [|done].
  unfold canonical_json. rewrite canonical_wf by done. apply wf_object in Hwf as [Hord Hwf].
  rewrite encode_object_len by done.
  apply (visit_entries_counted 0) in E as (-> & -> & ? & ? & ?); [|..].
  - change (nodes_of (VObject t)) with (1 + sumZ ((λ kv, nodes_of kv.2) <$> t)).
    change (height (VObject t)) with (foldr Z.max 0 ((λ kv, 1 + height kv.2) <$> t)).
    split_and!; [lia|lia|lia|lia|done].
  - eapply Forall_impl; [exact Hwf|]. intros kv ? ????. by apply visit_counted.
  - lia.
  - lia.
  - unfold u64_saturating_sub. lia.
Qed.
End bounds.

(** ** Accepted adapters *)

Lemma unique_Ok values set :
  unique values = Ok set → set = list_to_set values ∧ NoDup values ∧ values ≠ [] ∧ len values ≤ MAX_CELLS.
Proof.
  unfold unique. intros Hu. results. booleans. split_and!; try done.
  assert (size (list_to_set values : gset string) = length values) as Hs by (unfold len in *; lia).
  clear -Hs. assert (∀ l : list string, (size (list_to_set l : gset string) ≤ length l)%nat) as Hle.
  { intros l. induction l as [|x l IH]; [done|]. cbn.
    rewrite size_union_alt, size_singleton.
    pose proof (subseteq_size (list_to_set l ∖ {[x]} : gset string) (list_to_set l)) as Hs'.
    specialize (Hs' ltac:(set_solver)). lia. }
  induction values as [|x l IH]; [constructor|]. cbn in Hs. specialize (Hle l).
  destruct (decide (x ∈ (list_to_set l : gset string))) as [Hin|Hin].
  - rewrite (subseteq_union_1_L {[x]} (list_to_set l)) in Hs by set_solver. lia.
  - rewrite size_union, size_singleton in Hs by set_solver.
    constructor; [by rewrite elem_of_list_to_set in Hin|apply IH; lia].
Qed.
Lemma check_workflows_Ok lists acc set :
  check_workflows lists acc = Ok set →
  set = acc ∪ list_to_set (concat lists) ∧ Forall (λ p, workflow_path p = true) (concat lists).
Proof.
  revert acc. induction lists as [|paths lists IH]; intros acc; cbn.
  - intros [= <-]. split; [set_solver|constructor].
  - intros Hc. destruct (128 <? _); [done|]. destruct (unique paths) as [s|] eqn:Hu; [|done].
    apply unique_Ok in Hu as (-> & _). destruct (forallb _ _) eqn:Hf; [|done].
    apply IH in Hc as [-> HF]. split; [rewrite list_to_set_app_L; set_solver|].
    apply Forall_app. split; [|done]. apply forallb_Forall in Hf. rewrite Forall_forall in Hf |- *.
    intros p Hp. apply Hf, elem_of_elements, elem_of_list_to_set, Hp.
Qed.

Section accepted.
Context `{ScalarText}.

Record cell_accepted (workflows : gset string) (c : ActRequiredCell) : Prop := {
  ca_id : identifier (rc_id c) = true;
  ca_job : identifier (rc_job c) = true;
  ca_runner : identifier (rc_runner c) = true;
  ca_workflow : rc_workflow c ∈ workflows;
  ca_matrix : ∀ m, rc_matrix c = Some m → matrix_validate m = Ok tt;
  ca_local : rc_proof_scope c = LocalLinux → rc_runner c ∈ ["ubuntu-latest"; "ubuntu-22.04"];
}.
Lemma check_cells_Ok workflows cells ids tuples ids' :
  check_cells workflows cells ids tuples = Ok ids' →
  ids' = list_to_set (rc_id <$> cells) ∪ ids ∧ NoDup (rc_id <$> cells)
  ∧ Forall (λ c, cell_accepted workflows c ∧ rc_id c ∉ ids) cells.
Proof.
  revert ids tuples. induction cells as [|c cells IH]; intros ids tuples; cbn [check_cells].
  - intros [= <-]. rewrite fmap_nil. split_and!; [set_solver|constructor..].
  - intros Hc. destruct (match rc_matrix c with Some m => _ | None => _ end) as [tuples'|] eqn:Ht; [|done].
    destruct (_ || _) eqn:Hid; [done|]. destruct (_ && _) eqn:Hloc; [done|]. booleans.
    apply IH in Hc as (-> & Hnd & HF). rewrite fmap_cons. split_and!.
    + cbn. set_solver.
    + constructor; [|done]. intros (c' & Heq & Hc')%list_elem_of_fmap. rewrite Forall_forall in HF.
      destruct (HF c' Hc') as [_ Hn]. set_solver.
    + constructor; [|eapply Forall_impl; [done|]; intros ? [? ?]; split; [done|set_solver]].
      split; [|done]. split; try done.
      * intros m Hm. rewrite Hm in Ht. by destruct (matrix_validate m) as [[]|] eqn:E.
      * intros Hs. rewrite Hs, bool_decide_true in Hloc by done. destruct Hloc as [?|Hloc]; [done|].
        apply negb_false_iff, orb_prop in Hloc as [Hr|Hr]; booleans; rewrite Hr; set_solver.
Qed.

(** What [adapter_validate] accepts. *)
Record adapter_accepted (a : ActAdapterV1) : Prop := {
  aa_repository : repository_valid (ad_repository a) = true;
  aa_branch : ad_default_branch a ∈ ["main"; "master"];
  aa_no_secrets : ad_permitted_secrets a = [];
  aa_workflows : Forall (λ p, workflow_path p = true)
    (wf_pull_request (ad_workflows a) ++ wf_push (ad_workflows a) ++ wf_release (ad_workflows a));
  aa_cells : Forall (cell_accepted (list_to_set (wf_pull_request (ad_workflows a)
    ++ wf_push (ad_workflows a) ++ wf_release (ad_workflows a)))) (ad_cells a);
  aa_bounded : len (ad_cells a) ≤ MAX_CELLS;
  aa_ids : NoDup (rc_id <$> ad_cells a);
  aa_tiers : ∀ mode, NoDup (tier a mode) ∧ tier a mode ≠ [] ∧ len (tier a mode) ≤ MAX_CELLS;
  aa_minimal : tier_minimal (ad_tiers a) ⊆ tier_test (ad_tiers a);
  aa_test : tier_test (ad_tiers a) ⊆ tier_full (ad_tiers a);
  aa_strict : (length (tier_minimal (ad_tiers a)) < length (tier_test (ad_tiers a)))%nat;
  aa_full : ∀ id, id ∈ tier_full (ad_tiers a) ↔ id ∈ rc_id <$> ad_cells a;
  aa_release : release_invalid (ad_release_inputs a) = false;
}.
Lemma adapter_validate_Ok a : adapter_validate a = Ok tt → adapter_accepted a.
Proof.
  unfold adapter_validate. intros Hv. results. booleans.
  repeat match goal with
  | Hu : unique _ = Ok _ |- _ => apply unique_Ok in Hu as (-> & ? & ? & ?)
  | Hu : check_workflows _ _ = Ok _ |- _ => apply check_workflows_Ok in Hu as [-> ?]
  | Hu : check_cells _ _ _ _ = Ok _ |- _ => apply check_cells_Ok in Hu as (-> & ? & ?)
  end.
  cbn [concat app] in *. rewrite app_nil_r, union_empty_l_L in *.
  rewrite Nat.leb_gt, !size_list_to_set in * by done.
  assert (∀ x y : list string, list_to_set x ⊆@{gset string} list_to_set y → x ⊆ y) as Hsub
    by (intros x y Hs z; specialize (Hs z); by rewrite !elem_of_list_to_set in Hs).
  split; try done.
  - destruct H8; booleans; set_solver.
  - eapply Forall_impl; [done|]. by intros ? [? _].
  - by intros [].
  - by apply Hsub.
  - by apply Hsub.
  - intros id. rewrite union_empty_r_L in H1.
    rewrite <- !(elem_of_list_to_set (C:=gset string)), H1. done.
Qed.
End accepted.

(** ** The declared plan *)

Lemma indexed_sound (m : gmap string ActRequiredCell) cells id c :
  foldl (λ m c, <[rc_id c := c]> m) m cells !! id = Some c →
  c ∈ cells ∧ rc_id c = id ∨ m !! id = Some c.
Proof.
  revert m. induction cells as [|c' cells IH]; intros m; cbn; [by right|].
  intros [[? ?]|Hl]%IH; [left; split; [by right|done]|].
  apply lookup_insert_Some in Hl as [[? ->]|[? ?]]; [left; split; [by left|done]|by right].
Qed.
Lemma indexed_kept (m : gmap string ActRequiredCell) cells id :
  id ∉ rc_id <$> cells → foldl (λ m c, <[rc_id c := c]> m) m cells !! id = m !! id.
Proof.
  revert m. induction cells as [|c' cells IH]; intros m; [done|].
  rewrite fmap_cons, not_elem_of_cons. intros [? ?]. cbn. rewrite IH by done. by rewrite lookup_insert_ne.
Qed.
Lemma indexed_complete (m : gmap string ActRequiredCell) cells c :
  NoDup (rc_id <$> cells) → c ∈ cells → foldl (λ m c, <[rc_id c := c]> m) m cells !! rc_id c = Some c.
Proof.
  revert m. induction cells as [|c' cells IH]; intros m; [by intros _ ?%not_elem_of_nil|].
  rewrite fmap_cons. intros [Hn Hnd]%NoDup_cons [->|Hc]%elem_of_cons; cbn; [|by apply IH].
  rewrite indexed_kept by done. by rewrite lookup_insert_eq.
Qed.
Lemma tree_get_strings k (m : list (string * string)) :
  tree_get k (prod_map id VString <$> m) = VString <$> tree_get k m.
Proof. induction m as [|[k' v] m IH]; [done|]. cbn. by case_bool_decide. Qed.

(** What the payload of an event says of the source it was resolved for. *)
Definition payload_binds (a : ActAdapterV1) (event : ActEvent) (mode : ActMode)
    (source : ActSourceContext) (payload : Value) : Prop :=
  match event with
  | PullRequest => ∃ pr, sc_pull_request source = Some pr ∧ sc_base_sha source = Some (pr_base_sha pr)
      ∧ pr_base_repository pr = ad_repository a ∧ pr_base_ref pr = ad_default_branch a
      ∧ at_path ["pull_request"; "head"; "sha"] payload = Some (VString (sc_current_sha source))
      ∧ at_path ["pull_request"; "base"; "sha"] payload = Some (VString (pr_base_sha pr))
      ∧ at_path ["repository"; "full_name"] payload = Some (VString (full_name (ad_repository a)))
      ∧ at_path ["pull_request"; "labels"] payload = Some (VArray
          match mode with
          | Minimal => [] | Test => [obj [("name", VString "ci-test")]]
          | Full => [obj [("name", VString "ci-full")]]
          end)
  | Push => mode = Minimal ∧ sc_pull_request source = None ∧ ∃ before, sc_base_sha source = Some before
      ∧ at_path ["before"] payload = Some (VString before)
      ∧ at_path ["after"] payload = Some (VString (sc_current_sha source))
      ∧ at_path ["ref"] payload = Some (VString ("refs/heads/" +:+ ad_default_branch a))
  | Release => mode = Full ∧ sc_pull_request source = None
      ∧ at_path ["inputs"; rel_candidate_sha (ad_release_inputs a)] payload
        = Some (VString (sc_current_sha source))
      ∧ at_path ["inputs"; rel_full_mode (ad_release_inputs a)] payload = Some (VString "full")
      ∧ ∀ v, rel_version (ad_release_inputs a) = Some v →
          at_path ["inputs"; pv_name v] payload = Some (VString (pv_value v))
  end.
Definition event_workflows (a : ActAdapterV1) (event : ActEvent) : list string :=
  match event with
  | PullRequest => wf_pull_request (ad_workflows a)
  | Push => wf_push (ad_workflows a)
  | Release => wf_release (ad_workflows a)
  end.
Definition event_name_of (event : ActEvent) : string :=
  match event with PullRequest => "pull_request" | Push => "push" | Release => "workflow_dispatch" end.

Lemma pull_request_event_Ok a mode source name payload workflows :
  pull_request_event a mode source = Ok (name, payload, workflows) →
  name = event_name_of PullRequest ∧ workflows = event_workflows a PullRequest
  ∧ payload_binds a PullRequest mode source payload.
Proof.
  unfold pull_request_event. intros Hr.
  destruct (sc_pull_request source) as [pr|] eqn:Hpr; [|done]. cbn [ok_or] in Hr.
  destruct (refuse _ _) eqn:Href; [|done]. apply refuse_Ok in Href. booleans.
  injection Hr as <- <- <-. split_and!; [done|done|]. exists pr. split_and!; try done.
Qed.
Lemma push_event_Ok a mode source name payload workflows :
  push_event a mode source = Ok (name, payload, workflows) →
  name = event_name_of Push ∧ workflows = event_workflows a Push ∧ payload_binds a Push mode source payload.
Proof.
  unfold push_event. intros Hr. destruct (refuse _ _) eqn:Href; [|done]. apply refuse_Ok in Href. booleans.
  destruct (sc_base_sha source) as [b|] eqn:Hb; [|done]. cbn [ok_or] in Hr. injection Hr as <- <- <-.
  split_and!; [done|done|]. split_and!; [done|by apply eq_None_not_Some|]. by exists b.
Qed.
Lemma inputs_at k r f (m : list (string * string)) :
  at_path ["inputs"; k] (obj [("repository", r); ("ref", f); ("inputs", VObject (prod_map id VString <$> m))])
  = VString <$> tree_get k m.
Proof.
  change (at_path _ _) with (v ← tree_get k (prod_map id VString <$> m); Some v).
  rewrite tree_get_strings. by destruct (tree_get k m).
Qed.
Lemma release_event_Ok a mode source name payload workflows :
  release_invalid (ad_release_inputs a) = false →
  release_event a mode source = Ok (name, payload, workflows) →
  name = event_name_of Release ∧ workflows = event_workflows a Release
  ∧ payload_binds a Release mode source payload.
Proof.
  unfold release_event, release_invalid. intros Hinv Hr.
  destruct (refuse _ _) eqn:Href; [|done]. apply refuse_Ok in Href. booleans.
  injection Hr as <- <- <-. split_and!; [done|done|]. split_and!; [done|by apply eq_None_not_Some|..];
    [| |intros v Hver]; rewrite inputs_at; destruct (rel_version _) as [w|]; unfold collect;
    cbn [foldl fst snd is_some_and] in *; booleans; simplify_eq;
    rewrite ?tree_get_insert; repeat case_bool_decide; subst; cbn; congruence.
Qed.

Section plan.
Context `{ScalarText}.

Lemma resolve_event a event mode source p :
  adapter_accepted a →
  match event with
  | PullRequest => pull_request_event a mode source
  | Push => push_event a mode source
  | Release => release_event a mode source
  end = Ok p →
  p.1.1 = event_name_of event ∧ p.2 = event_workflows a event ∧ payload_binds a event mode source p.1.2.
Proof.
  destruct p as [[name payload] workflows]. intros Ha. destruct event; cbn.
  - apply pull_request_event_Ok.
  - apply push_event_Ok.
  - apply release_event_Ok, aa_release, Ha.
Qed.

(** Every ID a tier names is declared, so the lookups of the resolver never panic. *)
Lemma tier_declared a mode id :
  adapter_accepted a → id ∈ tier a mode → ∃ c, c ∈ ad_cells a ∧ rc_id c = id.
Proof.
  intros Ha Hid. assert (id ∈ tier_full (ad_tiers a)) as Hfull.
  { pose proof (aa_minimal _ Ha). pose proof (aa_test _ Ha). destruct mode; cbn in Hid; set_solver. }
  apply (aa_full _ Ha) in Hfull as (c & -> & Hc)%list_elem_of_fmap. eauto.
Qed.
Lemma tier_cells a mode :
  adapter_accepted a →
  ∃ cells, mapM (λ id, indexed (ad_cells a) !! id) (tier a mode) = Some cells
    ∧ rc_id <$> cells = tier a mode ∧ cells ⊆ ad_cells a
    ∧ ∀ c, c ∈ ad_cells a → rc_id c ∈ tier a mode → c ∈ cells.
Proof.
  intros Ha. destruct (mapM (λ id, indexed (ad_cells a) !! id) (tier a mode)) as [cells|] eqn:E.
  - exists cells. apply mapM_Some in E. split_and!; [done|..].
    + induction E as [|id c l cells Hc _ IH]; [done|]. rewrite fmap_cons, IH. f_equal.
      by apply indexed_sound in Hc as [[_ ?]|?].
    + intros c Hc. apply list_elem_of_lookup in Hc as [i Hi].
      destruct (Forall2_lookup_r _ _ _ _ _ E Hi) as (id & _ & Hc).
      by apply indexed_sound in Hc as [[? _]|?].
    + intros c Hc Ht. apply list_elem_of_lookup in Ht as [i Hi].
      destruct (Forall2_lookup_l _ _ _ _ _ E Hi) as (c' & Hc' & Hx).
      unfold indexed in Hx. rewrite indexed_complete in Hx; [|apply aa_ids, Ha|done].
      simplify_eq. by eapply list_elem_of_lookup_2.
  - apply mapM_None_1, Exists_exists in E as (id & Hid & Hn).
    destruct (tier_declared _ _ _ Ha Hid) as (c & Hc & <-).
    unfold indexed in Hn. rewrite indexed_complete in Hn; [done|apply aa_ids, Ha|done].
Qed.

Lemma cells_same_id a c c' :
  adapter_accepted a → c ∈ ad_cells a → c' ∈ ad_cells a → rc_id c = rc_id c' → c = c'.
Proof.
  intros Ha Hc Hc' Heq. pose proof (indexed_complete ∅ _ _ (aa_ids _ Ha) Hc) as H1.
  pose proof (indexed_complete ∅ _ _ (aa_ids _ Ha) Hc') as H2. rewrite Heq in H1. congruence.
Qed.

(** The resolver's outcome: never a panic, and what it checked when it returns a plan. *)
Lemma resolve_total a event mode source : ∃ r, resolve_act_event a event mode source = Some r.
Proof.
  unfold resolve_act_event. destruct (adapter_validate a) as [[]|e] eqn:Hv; [|by eexists].
  apply adapter_validate_Ok in Hv as Ha. destruct (refuse _ _) as [[]|e]; [|by eexists].
  destruct (match event with PullRequest => _ | Push => _ | Release => _ end) as [[[? ?] ?]|e]; [|by eexists].
  destruct (tier_cells a mode Ha) as (cells & -> & _). by eexists.
Qed.
Lemma resolve_Ok a event mode source plan :
  resolve_act_event a event mode source = Some (Ok plan) →
  adapter_accepted a ∧ rc_id <$> dp_required_cells plan = tier a mode
  ∧ dp_required_cells plan ⊆ ad_cells a
  ∧ (∀ c, c ∈ ad_cells a → rc_id c ∈ tier a mode → c ∈ dp_required_cells plan)
  ∧ sc_repository source = ad_repository a ∧ lower_hex (sc_current_sha source) 40 = true
  ∧ payload_binds a event mode source (dp_event_payload plan)
  ∧ dp_event_name plan = event_name_of event ∧ dp_workflows plan = event_workflows a event
  ∧ dp_github_only_required plan
    = rc_id <$> filterb (λ c, rc_proof_scope c ==? GithubOnly) (dp_required_cells plan)
  ∧ dp_declaration_only plan = true ∧ dp_graph_matched plan = false.
Proof.
  unfold resolve_act_event. destruct (adapter_validate a) as [[]|e] eqn:Hv; [|done].
  apply adapter_validate_Ok in Hv as Ha. destruct (refuse _ _) as [[]|e] eqn:Href; [|done].
  apply refuse_Ok in Href. booleans.
  destruct (match event with PullRequest => _ | Push => _ | Release => _ end) as [[[name payload] wfs]|e]
    eqn:He; [|done].
  destruct (tier_cells a mode Ha) as (cells & -> & Hids & Hsub & Hall). cbn [mbind option_bind].
  intros [= <-]. cbn.
  destruct (resolve_event _ _ _ _ _ Ha He) as (Hn & Hw & Hb). cbn in Hn, Hw, Hb. by subst name wfs.
Qed.

(** C27. Resolving an event never panics. A plan it returns comes from an accepted adapter and a source
    of its repository; the payload names exactly that source; the plan requires exactly the
    cells of the tier, in its order and once each, all of them declared, and all declared cells in
    full mode; cells left to GitHub stay required and are listed; every workflow is a file directly
    under [.github/workflows]; and the plan claims neither execution nor a matched graph. *)
Theorem declared_plan_exact a event mode source :
  (∃ r, resolve_act_event a event mode source = Some r)
  ∧ ∀ plan, resolve_act_event a event mode source = Some (Ok plan) →
      adapter_accepted a ∧ sc_repository source = ad_repository a
      ∧ lower_hex (sc_current_sha source) 40 = true
      ∧ payload_binds a event mode source (dp_event_payload plan)
      ∧ dp_event_name plan = event_name_of event
      ∧ rc_id <$> dp_required_cells plan = tier a mode ∧ NoDup (tier a mode)
      ∧ dp_required_cells plan ⊆ ad_cells a
      ∧ (mode = Full → ad_cells a ⊆ dp_required_cells plan)
      ∧ (∀ c, c ∈ dp_required_cells plan →
           rc_id c ∈ dp_github_only_required plan ↔ rc_proof_scope c = GithubOnly)
      ∧ Forall (λ p, workflow_path p = true) (dp_workflows plan)
      ∧ dp_declaration_only plan = true ∧ dp_graph_matched plan = false.
Proof.
  split; [apply resolve_total|]. intros plan Hres.
  destruct (resolve_Ok _ _ _ _ _ Hres) as (Ha & Hids & Hsub & Hall & ? & ? & ? & ? & Hw & Hgh & ? & ?).
  split_and!; try done.
  - apply (aa_tiers _ Ha).
  - intros -> c Hc. apply Hall; [done|]. apply (aa_full _ Ha). by apply list_elem_of_fmap_2.
  - intros c Hc. rewrite Hgh, list_elem_of_fmap. split.
    + intros (c' & Heq & [Hs Hc']%elem_of_filterb). booleans.
      by rewrite (cells_same_id a c c' Ha (Hsub _ Hc) (Hsub _ Hc') Heq).
    + intros Hs. exists c. split; [done|]. apply elem_of_filterb. by rewrite bool_decide_true.
  - rewrite Hw. pose proof (aa_workflows _ Ha) as Hp. rewrite !Forall_app in Hp. by destruct event; apply Hp.
Qed.

(** ** Plans and coverage *)

Lemma any_control_printable s t :
  all_bytes (λ a, (32 <=? code a) && (code a <? 127)) s = true → any_control (s +:+ t) = any_control t.
Proof.
  induction s as [|a s IH]; [done|]. cbn [all_bytes]. intros Hs. booleans.
  change (String a s +:+ t) with (String a (s +:+ t)). cbn [any_control]. rewrite IH by done.
  rewrite (proj2 (Z.ltb_ge _ _)) by lia. rewrite (proj2 (Z.eqb_neq _ 127)) by lia. cbn.
  destruct (s +:+ t); [done|]. by rewrite (proj2 (Z.eqb_neq _ 194)) by lia.
Qed.
Lemma identifier_printable a :
  identifier_byte a = true → (32 <=? code a) && (code a <? 127) = true.
Proof.
  unfold identifier_byte, is_ascii_alphanumeric, is_digit, in_range. cbn [existsb].
  rewrite !orb_false_r, !orb_true_iff, !andb_true_iff, !Z.leb_le, Z.ltb_lt, !Ascii.eqb_eq.
  intros [?|[->|[->| ->]]]; [lia|by vm_compute..].
Qed.

(** A workflow path of an adapter is a workflow identity of the coverage. *)
Lemma workflow_identity p job runner :
  workflow_path p = true → identifier job = true → identifier runner = true →
  identity p job runner = true.
Proof.
  intros Hp Hj Hr. unfold workflow_path in Hp.
  destruct (strip_prefix _ p) as [file|] eqn:E; [|done]. apply strip_prefix_Some in E as ->. booleans.
  unfold identifier in H2. booleans. unfold contains_byte in *. booleans.
  unfold identity. rewrite Hj, Hr, !andb_true_r, !andb_true_iff. split_and!.
  - done.
  - apply Z.leb_le. rewrite str_len_app. change (str_len ".github/workflows/") with 18. lia.
  - unfold contains_byte. rewrite all_bytes_app, H4. done.
  - rewrite <- (string_app_nil file), !any_control_printable; [done| |done].
    by eapply all_bytes_impl; [apply identifier_printable|].
  - change (".github/workflows/" +:+ file) with (".github" +:+ String "/" ("workflows" +:+ String "/" file)).
    rewrite !split_app, split_single by done. cbn. rewrite !bool_decide_false by done. done.
Qed.

Lemma check_required_accepted workflows cells ids :
  (∀ p, p ∈ workflows → workflow_path p = true) →
  Forall (cell_accepted workflows) cells → NoDup (rc_id <$> cells) →
  (∀ c, c ∈ cells → rc_id c ∉ ids) → check_required cells ids = Ok tt.
Proof.
  intros Hw HF. revert ids. induction HF as [|c cells Hc _ IH]; intros ids; [done|].
  rewrite fmap_cons. intros [Hn Hnd]%NoDup_cons Hids. cbn [check_required].
  rewrite (ca_id _ _ Hc), bool_decide_false by (apply Hids; left). cbn.
  rewrite workflow_identity; [|..]; [|apply Hw, Hc|apply Hc..].
  cbn. apply IH; [done|]. intros c' Hc'. rewrite not_elem_of_union, not_elem_of_singleton. split.
  - intros Heq. apply Hn. rewrite <- Heq. by apply list_elem_of_fmap_2.
  - apply Hids. by right.
Qed.
Lemma validate_all_required workflows cells :
  Forall (cell_accepted workflows) cells → validate_all (rc_matrix <$> cells) = Ok tt.
Proof.
  induction 1 as [|c cells Hc _ IH]; [done|]. rewrite fmap_cons. cbn.
  destruct (rc_matrix c) as [m|] eqn:Hm; [|done]. by rewrite (ca_matrix _ _ Hc m Hm).
Qed.

(** Planning and reconciliation agree on what can be required: the cells of a declared plan are
    always accepted, so a report on them fails only for what the producers sent: too many
    observations, a malformed identity or an oversized matrix. With no observations at all it
    exists and is not complete. *)
Theorem declared_cells_reconcile a event mode source plan graph observed :
  resolve_act_event a event mode source = Some (Ok plan) →
  (∃ report, reconcile_act_coverage (dp_required_cells plan) [] [] = Ok report
     ∧ cr_full_complete report = false)
  ∧ (len graph ≤ 4096 → len observed ≤ 4096 →
     Forall (λ g, identity (go_workflow g) (go_job g) (go_runner g) = true) graph →
     Forall (λ o, execution_identity_invalid o = false) observed →
     validate_all (graph_matrix ∘ go_matrix <$> graph) = Ok tt →
     validate_all (eo_matrix <$> observed) = Ok tt →
     ∃ report, reconcile_act_coverage (dp_required_cells plan) graph observed = Ok report).
Proof.
  intros Hres. destruct (resolve_Ok _ _ _ _ _ Hres) as (Ha & Hids & Hsub & _).
  destruct (aa_tiers _ Ha mode) as (Hnd & Hne & Hlen). rewrite <- Hids in Hnd, Hne, Hlen.
  set (cells := dp_required_cells plan) in *.
  assert (∀ graph observed, len graph ≤ 4096 → len observed ≤ 4096 →
     Forall (λ g, identity (go_workflow g) (go_job g) (go_runner g) = true) graph →
     Forall (λ o, execution_identity_invalid o = false) observed →
     validate_all (graph_matrix ∘ go_matrix <$> graph) = Ok tt →
     validate_all (eo_matrix <$> observed) = Ok tt →
     check_inventory cells graph observed = Ok tt) as Hchk.
  { intros gs os Hgl Hol Hg Ho Hgv Hov. unfold check_inventory.
    assert (Forall (cell_accepted (list_to_set (wf_pull_request (ad_workflows a)
      ++ wf_push (ad_workflows a) ++ wf_release (ad_workflows a)))) cells) as Hcells.
    { pose proof (aa_cells _ Ha) as Hall. rewrite Forall_forall in Hall |- *. auto. }
    rewrite check_required_accepted with (workflows := list_to_set (wf_pull_request (ad_workflows a)
      ++ wf_push (ad_workflows a) ++ wf_release (ad_workflows a))); [|..|done|done|set_solver].
    - rewrite (validate_all_required _ _ Hcells), Hgv, Hov.
      assert (existsb (λ g, negb (identity (go_workflow g) (go_job g) (go_runner g))) gs = false) as ->.
      { apply existsb_false_forall. eapply Forall_impl; [exact Hg|]. by intros g ->. }
      assert (existsb execution_identity_invalid os = false) as -> by by apply existsb_false_forall.
      unfold len, MAX_CELLS in *. rewrite length_fmap in Hlen.
      rewrite !(proj2 (Z.ltb_ge _ _)) by lia. by destruct cells.
    - pose proof (aa_workflows _ Ha) as Hw. rewrite Forall_forall in Hw. intros p Hp.
      apply Hw. by apply elem_of_list_to_set in Hp. }
  split.
  - unfold reconcile_act_coverage. rewrite Hchk; [|done|done|by constructor|by constructor|done|done].
    eexists. split; [done|]. cbn.
    destruct cells as [|c cells']; [done|]. rewrite fmap_cons. cbn.
    apply andb_false_iff. left. apply bool_decide_false. unfold cell_reason.
    case_bool_decide; [done|]. destruct (resolved_matrix [] c) as [m|]; [|done]. cbn.
    by destruct (_ || _).
  - intros. unfold reconcile_act_coverage. rewrite Hchk by done. by eexists.
Qed.
End plan.

(** ** A repository with four cells *)

Fixpoint escape (s : string) : string :=
  match s with
  | "" => ""
  | String a s =>
      (if existsb (λ z, code a =? z) [34; 92; 10; 13; 9; 8; 12] then "\" +:+ String a ""
       else if code a <=? 31 then "\u00" +:+ String "0" (String a "") else String a "") +:+ escape s
  end.
Definition sample_text (v : Value) : string :=
  match v with
  | VNull => "null" | VBool b => if b then "true" else "false"
  | VNumber (NInt z) => pretty z
  | VString s => String "034" "" +:+ escape s +:+ String "034" ""
  | _ => ""
  end.
Lemma escape_len s : str_len (escape s) = escaped_sizes s.
Proof.
  induction s as [|a s IH]; [done|]. cbn [escape escaped_sizes]. rewrite str_len_app, IH.
  unfold escaped_size. by repeat case_match.
Qed.
#[local] Instance sample_scalar_text : ScalarText := sample_text.
#[local] Instance sample_scalar_laws : ScalarLaws.
Proof.
  split; [done|by intros []|]. intros s. change (scalar_text _) with (sample_text (VString s)).
  cbn [sample_text]. rewrite !str_len_app, escape_len. change (str_len (String "034" "")) with 1. lia.
Qed.

Definition shard (n : Z) : ActMatrixTuple := [("shard", VNumber (NInt n)); ("target", VString "x86")].
Lemma matrix_bounds_exact_witness :
  matrix_validate (shard 1) = Ok tt ∧ str_len (canonical_json (shard 1)) ≤ 32768.
Proof.
  split; [by vm_compute|].
  apply (matrix_bounds_exact (shard 1)); [|by vm_compute].
  apply wf_object. split; [|by repeat constructor]. repeat constructor.
Defined.

Definition sample_cell (id job : string) (scope : ActProofScope) (m : option ActMatrixTuple) : ActRequiredCell :=
  {| rc_id := id; rc_workflow := ".github/workflows/ci.yml"; rc_job := job;
     rc_runner := "ubuntu-latest"; rc_proof_scope := scope; rc_matrix := m |}.
Definition sample_cells : list ActRequiredCell :=
  [sample_cell "lint" "lint" LocalLinux None;
   sample_cell "test-1" "test" LocalLinux (Some (shard 1));
   sample_cell "test-2" "test" LocalLinux (Some (shard 2))].
Definition sample_graph_of (job : string) (m : ActGraphMatrix) : ActGraphObservation :=
  {| go_workflow := ".github/workflows/ci.yml"; go_job := job; go_runner := "ubuntu-latest";
     go_matrix := m; go_provenance := ProducerGraph |}.
Definition sample_graph : list ActGraphObservation :=
  [sample_graph_of "test" (Exact (shard 2)); sample_graph_of "test" (Exact (shard 1));
   sample_graph_of "lint" NoMatrix].
Definition sample_run (job : string) (m : ActMatrixTuple) : ActExecutionObservation :=
  {| eo_workflow := Some ".github/workflows/ci.yml"; eo_job := job; eo_runner := Some "ubuntu-latest";
     eo_matrix := Some m; eo_outcome := OSuccess; eo_provenance := ProducerExecution |}.
Definition sample_runs : list ActExecutionObservation :=
  [sample_run "lint" []; sample_run "test" (shard 1); sample_run "test" (shard 2)].

Lemma coverage_is_exact_witness :
  ∃ report, reconcile_act_coverage sample_cells sample_graph sample_runs = Ok report
    ∧ cr_full_complete report = true
    ∧ ∃ pairs : list (nat * nat), NoDup pairs.*1 ∧ length pairs = 3%nat.
Proof.
  destruct (reconcile_act_coverage sample_cells sample_graph sample_runs) as [report|] eqn:E;
    [|by vm_compute in E].
  destruct (coverage_is_exact _ _ _ _ E) as (_ & _ & Hpairs & _).
  assert (cr_full_complete report = true) as Hfull.
  { revert E. vm_compute. by intros [= <-]. }
  exists report. split_and!; [done|done|]. destruct (Hpairs Hfull) as (pairs & Hnd & _ & HF).
  exists pairs. split; [done|]. by apply Forall2_length in HF.
Defined.

Definition sample_digest : string :=
  "sha256:aaaaaaaaaaaaaaaaaaaaaaaaaaaaaaaaaaaaaaaaaaaaaaaaaaaaaaaaaaaaaaaa".
Definition sample_repository : RepositoryIdentity := {| ri_owner := "FastLED"; ri_name := "fbuild" |}.
Definition sample_adapter : ActAdapterV1 :=
  {| ad_schema_version := 1; ad_repository := sample_repository; ad_default_branch := "main";
     ad_pins := {| pin_interface_schema := 1; pin_act_version := ACT_VERSION;
       pin_act_binary_digest := sample_digest; pin_engine_manifest_digest := sample_digest;
       pin_engine_config_digest := sample_digest; pin_runner_manifest_digest := sample_digest;
       pin_runner_config_digest := sample_digest |};
     ad_workflows := {| wf_pull_request := [".github/workflows/ci.yml"];
       wf_push := [".github/workflows/ci.yml"]; wf_release := [".github/workflows/release.yml"] |};
     ad_cells := sample_cells;
     ad_tiers := {| tier_minimal := ["lint"]; tier_test := ["lint"; "test-1"];
       tier_full := ["test-2"; "lint"; "test-1"] |};
     ad_release_inputs := {| rel_candidate_sha := "commit_sha"; rel_full_mode := "ci_mode";
       rel_full_mode_value := "full"; rel_version := Some {| pv_name := "version"; pv_value := "1.2.3" |} |};
     ad_permitted_secrets := [] |}.
Definition sample_source : ActSourceContext :=
  {| sc_repository := sample_repository;
     sc_current_sha := "ffffffffffffffffffffffffffffffffffffffff";
     sc_base_sha := Some "0000000000000000000000000000000000000000"; sc_pull_request := None |}.

Lemma declared_cells_reconcile_witness :
  ∃ plan, resolve_act_event sample_adapter Release Full sample_source = Some (Ok plan)
    ∧ ∃ report, reconcile_act_coverage (dp_required_cells plan) sample_graph sample_runs = Ok report.
Proof.
  destruct (resolve_act_event sample_adapter Release Full sample_source) as [[plan|]|] eqn:E;
    [|by vm_compute in E..].
  exists plan. split; [done|].
  apply (declared_cells_reconcile _ _ _ _ _ _ _ E); [done|done|by repeat constructor|by repeat constructor|done|done].
Defined.
