(* ===== verification/Glob.v ===== *)
(** * Glob: the context matcher of Dockerfile builds

    [glob] of [bosn-generation/src/dockerfile.rs]: a pattern becomes tokens, and a table with one
    row per token and one column per character decides the match in bounded work. The reference
    is the relation [matches]; [glob_correct] shows the table computes it. *)

From Stdlib Require Import Ascii.
From S2P Require Export Text.

Local Open Scope string_scope.
Local Open Scope list_scope.
Local Open Scope Z_scope.
Local Open Scope bosn_scope.

(** ** Characters *)

Definition low6 (a : ascii) : Z := code a - 128.
(** [str::chars]: the code points. A byte that starts no character, which a [str] never has, is
    its own code point. *)
Fixpoint chars (s : string) : list Z :=
  match s with
  | "" => []
  | String a s1 =>
      match s1 with
      | String b s2 =>
          if two_byte a b then ((code a - 192) * 64 + low6 b) :: chars s2
          else match s2 with
               | String c s3 =>
                   if three_byte a b c
                   then ((code a - 224) * 4096 + low6 b * 64 + low6 c) :: chars s3
                   else match s3 with
                        | String d s4 =>
                            if four_byte a b c d
                            then ((code a - 240) * 262144 + low6 b * 4096 + low6 c * 64 + low6 d)
                                   :: chars s4
                            else code a :: chars s1
                        | "" => code a :: chars s1
                        end
               | "" => code a :: chars s1
               end
      | "" => [code a]
      end
  end.

(** ** Tokens *)

Inductive Glob :=
| Star
| DoubleStar
| DoubleStarSlash
| One
| Class (set : list (Z * option Z)) (negated : bool)
| Literal (c : Z).
Notation slash := 47.
(** The characters before the next [']'] and those after it. *)
Fixpoint until_close (c : list Z) : option (list Z * list Z) :=
  match c with
  | [] => None
  | x :: c => if x =? 93 then Some ([], c) else prod_map (cons x) id <$> until_close c
  end.
(** The members of a class: a range where [x-y] stands, else the character. *)
Fixpoint class_set (x : list Z) : list (Z * option Z) :=
  match x with
  | a :: ((d :: z :: rest) as tl) =>
      if d =? 45 then (a, Some z) :: class_set rest else (a, None) :: class_set tl
  | a :: tl => (a, None) :: class_set tl
  | [] => []
  end.
Definition class_of (inner : list Z) : Glob :=
  match inner with
  | x :: rest => if x =? 33 then Class (class_set rest) true else Class (class_set inner) false
  | [] => Class [] false
  end.
(** One turn of the loop: the token at the front and what follows it. *)
Definition glob_token (x : Z) (c : list Z) : Glob * list Z :=
  if x =? 42 then
    match c with
    | y :: c' =>
        if y =? 42 then
          match c' with
          | z :: c'' => if z =? slash then (DoubleStarSlash, c'') else (DoubleStar, c')
          | [] => (DoubleStar, c')
          end
        else (Star, c)
    | [] => (Star, c)
    end
  else if x =? 63 then (One, c)
  else if x =? 91 then
    match until_close c with
    | Some (inner, rest) => (class_of inner, rest)
    | None => (Literal 91, c)
    end
  else (Literal x, c).
Fixpoint tokens_from (fuel : nat) (c : list Z) : list Glob :=
  match fuel, c with
  | S fuel, x :: c => let t := glob_token x c in t.1 :: tokens_from fuel t.2
  | _, _ => []
  end.
Definition tokens (c : list Z) : list Glob := tokens_from (length c) c.
Definition glob_tokens (pattern : string) : list Glob := tokens (chars pattern).
Definition class_hit (set : list (Z * option Z)) (c : Z) : bool :=
  existsb (λ m, match m.2 with Some z => (m.1 <=? c) && (c <=? z) | None => m.1 =? c end) set.

(** ** The table *)

(** [slash_suffix]: whether some slash at or after a column is followed by a match. *)
Fixpoint slash_suffix (text : list Z) (next : list bool) : list bool :=
  match text with
  | [] => [false]
  | c :: text =>
      let rest := slash_suffix text (tail next) in
      (hd false rest || ((c =? slash) && hd false (tail next))) :: rest
  end.
(** One row, from its last column to its first: [next] is the row below. *)
Fixpoint glob_row (tok : Glob) (text : list Z) (next suffix : list bool) : list bool :=
  match text with
  | [] =>
      [match tok with
       | Star | DoubleStar => hd false next
       | DoubleStarSlash => hd false next || hd false suffix
       | _ => false
       end]
  | c :: text =>
      let row := glob_row tok text (tail next) (tail suffix) in
      match tok with
      | Star => hd false next || (negb (c =? slash) && hd false row)
      | DoubleStar => hd false next || hd false row
      | DoubleStarSlash => hd false next || hd false suffix
      | One => negb (c =? slash) && hd false (tail next)
      | Class set negated =>
          negb (c =? slash) && negb (eqb (class_hit set c) negated) && hd false (tail next)
      | Literal x => (x =? c) && hd false (tail next)
      end :: row
  end.
Definition last_row (text : list Z) : list bool := replicate (length text) false ++ [true].
Definition glob_table (toks : list Glob) (text : list Z) : list bool :=
  foldr (λ tok next, glob_row tok text next (slash_suffix text next)) (last_row text) toks.

Inductive DockerfileError :=
| MissingDockerfile (path : string)
| InvalidUtf8 (path : string)
| Parse (message : string)
| MissingSource (source : string)
| UnpinnedRemote (message : string)
| ResourceLimit (what : string).
Definition zlen {A} (l : list A) : Z := Z.of_nat (length l).
Definition class_members (toks : list Glob) : Z :=
  sumZ ((λ t, match t with Class set _ => zlen set | _ => 0 end) <$> toks).
Definition glob (p s : string) : result DockerfileError bool :=
  let? _ := refuse ((4096 <? str_len p) || (4000000 <? str_len s)) (ResourceLimit "pattern or path input") in
  let toks := glob_tokens p in
  let members := class_members toks in
  let? _ := refuse (is_none_or (checked_add (zlen toks) members) (λ n, 1000000 <? n))
    (ResourceLimit "pattern or path input") in
  let text := chars s in
  let work :=
    states ← checked_mul (zlen toks + 1) (zlen text + 1);
    classes ← checked_mul members (zlen text + 1);
    checked_add states classes in
  let? _ := refuse (is_none_or work (λ n, 1000000 <? n)) (ResourceLimit "DP states") in
  Ok (hd false (glob_table toks text)).

(** ** The reference *)

Inductive matches : list Glob → list Z → Prop :=
| matches_nil : matches [] []
| matches_literal c ts s : matches ts s → matches (Literal c :: ts) (c :: s)
| matches_one c ts s : c ≠ slash → matches ts s → matches (One :: ts) (c :: s)
| matches_class set negated c ts s :
    c ≠ slash → class_hit set c ≠ negated → matches ts s → matches (Class set negated :: ts) (c :: s)
| matches_star pre ts s : Forall (λ c, c ≠ slash) pre → matches ts s → matches (Star :: ts) (pre ++ s)
| matches_double_star pre ts s : matches ts s → matches (DoubleStar :: ts) (pre ++ s)
| matches_here ts s : matches ts s → matches (DoubleStarSlash :: ts) s
| matches_below pre ts s : matches ts s → matches (DoubleStarSlash :: ts) (pre ++ slash :: s).

(** *** One step of the reference on the front character *)

Lemma matches_Literal_inv x ts s : matches (Literal x :: ts) s ↔ ∃ s', s = x :: s' ∧ matches ts s'.
Proof. split; [inversion 1; subst; eauto|by intros (? & -> & ?); constructor]. Qed.
Lemma matches_One_inv ts s : matches (One :: ts) s ↔ ∃ c s', s = c :: s' ∧ c ≠ slash ∧ matches ts s'.
Proof. split; [inversion 1; subst; eauto|by intros (? & ? & -> & ? & ?); constructor]. Qed.
Lemma matches_Class_inv set n ts s :
  matches (Class set n :: ts) s ↔
  ∃ c s', s = c :: s' ∧ c ≠ slash ∧ class_hit set c ≠ n ∧ matches ts s'.
Proof. split; [inversion 1; subst; eauto 10|by intros (? & ? & -> & ? & ? & ?); constructor]. Qed.
Lemma matches_Star_inv ts s :
  matches (Star :: ts) s ↔
  matches ts s ∨ ∃ c s', s = c :: s' ∧ c ≠ slash ∧ matches (Star :: ts) s'.
Proof.
  split.
  - inversion 1 as [| | | |pre ts' s' HF Hm| | |]; subst. destruct pre as [|c pre]; [by left|right].
    apply Forall_cons in HF as [? ?]. exists c, (pre ++ s'). split_and!; [done..|]. by constructor.
  - intros [Hm|(c & s' & -> & Hc & Hm)]; [by apply (matches_star [])|].
    inversion Hm as [| | | |pre ts' s'' HF Hm'| | |]; subst. apply (matches_star (c :: pre)); [by constructor|done].
Qed.
Lemma matches_DoubleStar_inv ts s :
  matches (DoubleStar :: ts) s ↔ matches ts s ∨ ∃ c s', s = c :: s' ∧ matches (DoubleStar :: ts) s'.
Proof.
  split.
  - inversion 1 as [| | | | |pre ts' s' Hm| |]; subst. destruct pre as [|c pre]; [by left|right].
    exists c, (pre ++ s'). split; [done|]. by constructor.
  - intros [Hm|(c & s' & -> & Hm)]; [by apply (matches_double_star [])|].
    inversion Hm as [| | | | |pre ts' s'' Hm'| |]; subst. by apply (matches_double_star (c :: pre)).
Qed.
(** A match somewhere after a slash. *)
Definition after_slash (ts : list Glob) (s : list Z) : Prop :=
  ∃ pre s', s = pre ++ slash :: s' ∧ matches ts s'.
Lemma matches_DoubleStarSlash_inv ts s :
  matches (DoubleStarSlash :: ts) s ↔ matches ts s ∨ after_slash ts s.
Proof.
  split; [inversion 1; subst; [by left|right; by eexists _, _]|].
  intros [?|(pre & s' & -> & ?)]; by constructor.
Qed.
Lemma after_slash_cons ts c s :
  after_slash ts (c :: s) ↔ after_slash ts s ∨ c = slash ∧ matches ts s.
Proof.
  split.
  - intros ([|c' pre] & s' & [= -> ->] & Hm); [by right|left; by exists pre, s'].
  - intros [(pre & s' & -> & Hm)|[-> Hm]]; [by exists (c :: pre), s'|by exists [], s].
Qed.
Lemma after_slash_nil ts : ¬ after_slash ts [].
Proof. by intros ([|] & s' & ? & _). Qed.

(** ** The table computes the reference *)

(** A row tells for every suffix of the text whether the tokens match it. *)
Fixpoint row_ok (P : list Z → Prop) (text : list Z) (row : list bool) {struct row} : Prop :=
  match row with
  | [] => False
  | b :: rest =>
      (b = true ↔ P text) ∧ match text with [] => rest = [] | _ :: text => row_ok P text rest end
  end.
Lemma row_ok_hd P text row : row_ok P text row → hd false row = true ↔ P text.
Proof. destruct row; [done|]. by intros [? _]. Qed.
Lemma row_ok_tail P c text row : row_ok P (c :: text) row → row_ok P text (tail row).
Proof. destruct row; [done|]. by intros [_ ?]. Qed.
Lemma last_row_ok text : row_ok (matches []) text (last_row text).
Proof.
  induction text as [|c text IH]; cbn.
  - split; [|done]. split; [constructor|done].
  - split; [|exact IH]. split; [done|inversion 1].
Qed.
Lemma slash_suffix_ok ts text next :
  row_ok (matches ts) text next → row_ok (after_slash ts) text (slash_suffix text next).
Proof.
  revert next. induction text as [|c text IH]; intros next Hn; cbn.
  - split; [|done]. split; [done|]. by intros ?%after_slash_nil.
  - apply row_ok_tail in Hn. specialize (IH _ Hn). split; [|done].
    rewrite orb_true_iff, andb_true_iff, Z.eqb_eq, after_slash_cons.
    rewrite (row_ok_hd _ _ _ IH), (row_ok_hd _ _ _ Hn). done.
Qed.
Lemma glob_row_ok tok ts text next suffix :
  row_ok (matches ts) text next → row_ok (after_slash ts) text suffix →
  row_ok (matches (tok :: ts)) text (glob_row tok text next suffix).
Proof.
  revert next suffix. induction text as [|c text IH]; intros next suffix Hn Hs.
  - apply row_ok_hd in Hn, Hs. cbn. split; [|done]. destruct tok.
    + rewrite Hn, matches_Star_inv. naive_solver.
    + rewrite Hn, matches_DoubleStar_inv. naive_solver.
    + by rewrite orb_true_iff, Hn, Hs, matches_DoubleStarSlash_inv.
    + rewrite matches_One_inv. naive_solver.
    + rewrite matches_Class_inv. naive_solver.
    + rewrite matches_Literal_inv. naive_solver.
  - pose proof (IH _ _ (row_ok_tail _ _ _ _ Hn) (row_ok_tail _ _ _ _ Hs)) as Hr.
    pose proof (row_ok_hd _ _ _ (row_ok_tail _ _ _ _ Hn)) as Ht.
    pose proof (row_ok_hd _ _ _ Hr) as Hh. apply row_ok_hd in Hn, Hs. cbn [glob_row row_ok].
    split; [|done]. destruct tok;
      rewrite ?orb_true_iff, ?andb_true_iff, ?negb_true_iff, ?Z.eqb_eq, ?Z.eqb_neq, ?Hn, ?Hs, ?Hh, ?Ht.
    + rewrite (matches_Star_inv ts (c :: text)). naive_solver.
    + rewrite (matches_DoubleStar_inv ts (c :: text)). naive_solver.
    + by rewrite matches_DoubleStarSlash_inv.
    + rewrite matches_One_inv. naive_solver.
    + rewrite eqb_false_iff, matches_Class_inv. naive_solver.
    + rewrite matches_Literal_inv. naive_solver.
Qed.
Lemma glob_table_ok toks text : row_ok (matches toks) text (glob_table toks text).
Proof.
  induction toks as [|tok toks IH]; [apply last_row_ok|]. cbn.
  apply glob_row_ok; [done|]. by apply slash_suffix_ok.
Qed.

(** The matcher is the reference wherever it answers, and it refuses only by its stated limits:
    the size of its inputs, of the pattern's classes and of the table. *)
Lemma glob_correct p s b :
  glob p s = Ok b → b = true ↔ matches (glob_tokens p) (chars s).
Proof.
  unfold glob. intros H. results; subst. by apply row_ok_hd, glob_table_ok.
Qed.

(** ** Patterns and paths, part by part *)

Lemma ascii_not_cont c : code c < 128 → cont c = false.
Proof. unfold cont, in_range. intros. apply andb_false_iff. left. apply Z.leb_gt. lia. Qed.
Lemma two_byte_ascii a c : code c < 128 → two_byte a c = false.
Proof. intros. unfold two_byte. by rewrite (ascii_not_cont c), andb_false_r. Qed.
Lemma three_byte_ascii a b c : code c < 128 → three_byte a b c = false.
Proof. intros. unfold three_byte. by rewrite (ascii_not_cont c), andb_false_r. Qed.
Lemma three_byte_ascii2 a b c : code b < 128 → three_byte a b c = false.
Proof.
  intros Hb. unfold three_byte. rewrite (ascii_not_cont b) by done. unfold in_range.
  rewrite (proj2 (Z.leb_gt 160 (code b))), (proj2 (Z.leb_gt 128 (code b))) by lia.
  by rewrite ?andb_false_r.
Qed.
Lemma four_byte_ascii a b c d : code b < 128 ∨ code c < 128 ∨ code d < 128 → four_byte a b c d = false.
Proof.
  intros [Hb|[Hc|Hd]]; unfold four_byte.
  - rewrite (ascii_not_cont b) by done. unfold in_range.
    rewrite (proj2 (Z.leb_gt 144 (code b))), (proj2 (Z.leb_gt 128 (code b))) by lia.
    by rewrite ?andb_false_r.
  - by rewrite (ascii_not_cont c), ?andb_false_r.
  - by rewrite (ascii_not_cont d), ?andb_false_r.
Qed.
(** The first character of a text and the rest. *)
Definition first_char (s : string) : option (Z * string) :=
  match s with
  | "" => None
  | String a s1 => Some
      match s1 with
      | String b s2 =>
          if two_byte a b then ((code a - 192) * 64 + low6 b, s2)
          else match s2 with
               | String c s3 =>
                   if three_byte a b c then ((code a - 224) * 4096 + low6 b * 64 + low6 c, s3)
                   else match s3 with
                        | String d s4 =>
                            if four_byte a b c d
                            then ((code a - 240) * 262144 + low6 b * 4096 + low6 c * 64 + low6 d, s4)
                            else (code a, s1)
                        | "" => (code a, s1)
                        end
               | "" => (code a, s1)
               end
      | "" => (code a, "")
      end
  end.
Lemma chars_first s : chars s = match first_char s with Some (z, r) => z :: chars r | None => [] end.
Proof.
  destruct s as [|a [|b [|c [|d s]]]]; try done; cbn [first_char].
  - change (chars (String a (String b ""))) with (if two_byte a b then [(code a - 192) * 64 + low6 b] else code a :: chars (String b "")).
    by destruct (two_byte a b).
  - change (chars (String a (String b (String c "")))) with (if two_byte a b
      then ((code a - 192) * 64 + low6 b) :: chars (String c "")
      else if three_byte a b c then [(code a - 224) * 4096 + low6 b * 64 + low6 c]
      else code a :: chars (String b (String c ""))).
    destruct (two_byte a b); [done|]. by destruct (three_byte a b c).
  - change (chars (String a (String b (String c (String d s))))) with (if two_byte a b
      then ((code a - 192) * 64 + low6 b) :: chars (String c (String d s))
      else if three_byte a b c then ((code a - 224) * 4096 + low6 b * 64 + low6 c) :: chars (String d s)
      else if four_byte a b c d
      then ((code a - 240) * 262144 + low6 b * 4096 + low6 c * 64 + low6 d) :: chars s
      else code a :: chars (String b (String c (String d s)))).
    destruct (two_byte a b); [done|]. destruct (three_byte a b c); [done|]. by destruct (four_byte a b c d).
Qed.
Lemma first_char_ascii c t : code c < 128 → first_char (String c t) = Some (code c, t).
Proof.
  intros Hc. destruct t as [|x [|y [|z t]]]; cbn [first_char]; try done.
  all: assert (two_byte c x = false) as -> by
    (unfold two_byte, in_range; by rewrite (proj2 (Z.leb_gt 194 (code c))) by lia).
  2, 3: assert (three_byte c x y = false) as -> by
    (unfold three_byte, in_range; by rewrite (proj2 (Z.eqb_neq (code c) 224)),
      (proj2 (Z.leb_gt 225 (code c))), (proj2 (Z.eqb_neq (code c) 237)), (proj2 (Z.leb_gt 238 (code c))) by lia).
  3: assert (four_byte c x y z = false) as -> by
    (unfold four_byte, in_range; by rewrite (proj2 (Z.eqb_neq (code c) 240)),
      (proj2 (Z.leb_gt 241 (code c))), (proj2 (Z.eqb_neq (code c) 244)) by lia).
  all: done.
Qed.
Lemma first_char_app s c t z r :
  code c < 128 → first_char s = Some (z, r) → first_char (s +:+ String c t) = Some (z, r +:+ String c t).
Proof.
  intros Hc. destruct s as [|a [|b [|d [|e s]]]]; [done|..]; rewrite ?string_app_cons; cbn [first_char].
  - intros [= <- <-]. change ("" +:+ String c t) with (String c t). cbn [first_char]. rewrite two_byte_ascii by done.
    destruct t as [|y [|y' t]]; try done.
    all: rewrite three_byte_ascii2 by done; try done. by rewrite four_byte_ascii by auto.
  - change ("" +:+ String c t) with (String c t). cbn [first_char]. intros [= Heq].
    destruct (two_byte a b); injection Heq as <- <-; [done|].
    rewrite three_byte_ascii by done. destruct t; [done|]. by rewrite four_byte_ascii by auto.
  - change ("" +:+ String c t) with (String c t). cbn [first_char]. intros [= Heq].
    destruct (two_byte a b); [injection Heq as <- <-; done|].
    destruct (three_byte a b d); injection Heq as <- <-; [done|]. by rewrite four_byte_ascii by auto.
  - intros [= Heq]. destruct (two_byte a b); [injection Heq as <- <-; done|].
    destruct (three_byte a b d); [injection Heq as <- <-; done|].
    destruct (four_byte a b d e); injection Heq as <- <-; done.
Qed.
Lemma first_char_length s z r : first_char s = Some (z, r) → (String.length r < String.length s)%nat.
Proof.
  destruct s as [|a [|b [|c [|d s]]]]; cbn [first_char]; [done|..]; intros [= H];
    repeat case_match; simplify_eq; cbn; lia.
Qed.
(** Decoding around an ASCII character. *)
Lemma chars_app_ascii s c t :
  code c < 128 → chars (s +:+ String c t) = chars s ++ code c :: chars t.
Proof.
  intros Hc. remember (String.length s) as n eqn:Hn. revert s Hn.
  induction (lt_wf n) as [n _ IH]. intros s ->. destruct (first_char s) as [[z r]|] eqn:E.
  - rewrite (chars_first (s +:+ _)), (first_char_app _ _ _ _ _ Hc E), (chars_first s), E.
    cbn. f_equal. by eapply IH; [eapply first_char_length|].
  - assert (s = "") as -> by (destruct s; [done|by cbn in E]).
    change ("" +:+ String c t) with (String c t). by rewrite chars_first, first_char_ascii.
Qed.

(** A text without an ASCII byte decodes to characters other than it. *)
Definition without (c : ascii) (s : string) : bool := all_bytes (λ a, negb (Ascii.eqb a c)) s.
Notation no_slash := (without "/").
Lemma code_range a : 0 ≤ code a < 256.
Proof. unfold code. pose proof (N_ascii_bounded a). lia. Qed.
Lemma code_inj a b : code a = code b → a = b.
Proof.
  unfold code. intros H. rewrite <- (ascii_N_embedding a), <- (ascii_N_embedding b). f_equal. lia.
Qed.
(** The first character is one ASCII byte, or its code is above them. *)
Lemma first_char_cases s z r :
  first_char s = Some (z, r) →
  (∃ a, z = code a ∧ s = String a r) ∨ 128 ≤ z ∧ ∃ pre, s = pre +:+ r.
Proof.
  destruct s as [|a [|b [|c [|d s]]]]; cbn [first_char]; [done|..]; intros [= H];
    repeat case_match; simplify_eq; try (left; by eexists); right;
    (split; [unfold two_byte, three_byte, four_byte, cont, in_range, low6 in *; booleans;
      repeat match goal with H : _ ∨ _ |- _ => destruct H; booleans end; lia|]).
  all: first [by exists (String a (String b ""))|by exists (String a (String b (String c "")))
             |by exists (String a (String b (String c (String d ""))))].
Qed.
Lemma without_app c s t : without c (s +:+ t) = without c s && without c t.
Proof. apply all_bytes_app. Qed.
Lemma chars_without c s : code c < 128 → without c s = true → Forall (λ x, x ≠ code c) (chars s).
Proof.
  intros Hc. remember (String.length s) as n eqn:Hn. revert s Hn.
  induction (lt_wf n) as [n _ IH]. intros s -> Hs.
  rewrite chars_first. destruct (first_char s) as [[z r]|] eqn:E; [|constructor].
  pose proof (first_char_length _ _ _ E).
  destruct (first_char_cases _ _ _ E) as [(a & -> & ->)|(Hz & pre & ->)].
  - cbn in Hs. booleans. constructor; [|by eapply IH].
    intros Heq%code_inj. subst. by rewrite Ascii.eqb_refl in H0.
  - rewrite without_app in Hs. booleans. constructor; [lia|by eapply IH].
Qed.
Lemma chars_no_slash s : no_slash s = true → Forall (λ c, c ≠ slash) (chars s).
Proof. by apply (chars_without "/"). Qed.
Lemma chars_nil s : chars s = [] → s = "".
Proof. rewrite chars_first. destruct s; [done|]. cbn [first_char]. by case_match. Qed.
(** One ASCII character is one byte. *)
Lemma chars_byte c s : code c < 128 → chars s = [code c] → s = String c "".
Proof.
  intros Hc. rewrite chars_first. destruct (first_char s) as [[z r]|] eqn:E; [|done]. intros [= -> Hr].
  apply chars_nil in Hr as ->.
  destruct (first_char_cases _ _ _ E) as [(a & Ha & ->)|[? _]]; [|lia]. by apply code_inj in Ha as ->.
Qed.
(** The characters of a joined path. *)
Fixpoint join_chars (l : list (list Z)) : list Z :=
  match l with [] => [] | [x] => x | x :: l => x ++ slash :: join_chars l end.
Lemma chars_join l : chars (str_join "/" l) = join_chars (chars <$> l).
Proof.
  induction l as [|x [|y l] IH]; [done|done|].
  change (str_join "/" (x :: y :: l)) with (x +:+ String "/" (str_join "/" (y :: l))).
  rewrite chars_app_ascii by done. by rewrite IH.
Qed.

(** *** Tokens of one part *)

Lemma glob_token_shorter x c : (length (glob_token x c).2 ≤ length c)%nat.
Proof.
  assert (∀ c inner rest, until_close c = Some (inner, rest) → (length rest ≤ length c)%nat) as Hu.
  { clear. induction c as [|y c IH]; intros inner rest; cbn; [done|].
    destruct (y =? 93); [intros [= <- <-]; lia|]. destruct (until_close c) as [[i r]|]; [|done].
    intros [= <- <-]. specialize (IH _ _ eq_refl). lia. }
  unfold glob_token. repeat case_match; cbn; try lia.
  match goal with E : until_close _ = Some _ |- _ => by apply Hu in E end.
Qed.
Lemma tokens_fuel n c : (length c ≤ n)%nat → tokens_from n c = tokens c.
Proof.
  unfold tokens. remember (length c) as m eqn:Hm. revert n c Hm.
  induction (lt_wf m) as [m _ IH]. intros n c -> Hn. destruct c as [|x c]; [by destruct n|].
  destruct n as [|n]; [cbn in Hn; lia|]. cbn in *. f_equal. pose proof (glob_token_shorter x c).
  rewrite (IH (length (glob_token x c).2)); [|lia|done|lia].
  symmetry. apply (IH (length (glob_token x c).2)); [lia|done|lia].
Qed.
Lemma tokens_cons x c : tokens (x :: c) = (glob_token x c).1 :: tokens (glob_token x c).2.
Proof.
  change (tokens (x :: c)) with ((glob_token x c).1 :: tokens_from (length c) (glob_token x c).2).
  f_equal. apply tokens_fuel, glob_token_shorter.
Qed.

(** No class of the pattern spans a slash: between every ['['] and the next [']'] there is none. *)
Fixpoint plain_classes (c : list Z) : bool :=
  match c with
  | [] => true
  | x :: c =>
      (if x =? 91 then
         match until_close c with Some (inner, _) => forallb (λ y, negb (y =? slash)) inner | None => true end
       else true) && plain_classes c
  end.
(** Two stars in a row. *)
Fixpoint stars (c : list Z) : bool :=
  match c with
  | x :: ((y :: _) as c) => (x =? 42) && (y =? 42) || stars c
  | _ => false
  end.
(** The tokens that stay within one part of a path. *)
Definition local_token (t : Glob) : Prop :=
  match t with DoubleStar | DoubleStarSlash => False | Literal c => c ≠ slash | _ => True end.

Lemma until_close_app a b :
  until_close (a ++ b) =
  match until_close a with
  | Some (inner, rest) => Some (inner, rest ++ b)
  | None => prod_map (app a) id <$> until_close b
  end.
Proof.
  induction a as [|x a IH]; cbn; [by destruct (until_close b) as [[]|]|]. destruct (x =? 93); [done|].
  rewrite IH. destruct (until_close a) as [[]|]; [done|]. by destruct (until_close b) as [[]|].
Qed.
Lemma until_close_rest c inner rest : until_close c = Some (inner, rest) → ∃ pre, c = pre ++ rest.
Proof.
  revert inner. induction c as [|x c IH]; intros inner; cbn; [done|].
  destruct (x =? 93); [intros [= <- <-]; by exists [x]|].
  destruct (until_close c) as [[i r]|]; [|done]. intros [= <- <-].
  destruct (IH _ eq_refl) as [pre ->]. by exists (x :: pre).
Qed.
Lemma plain_classes_app a b : plain_classes (a ++ b) = true → plain_classes b = true.
Proof. induction a as [|x a IH]; [done|]. cbn. intros [_ ?]%andb_prop. by apply IH. Qed.
Lemma stars_app a b : stars (a ++ b) = false → stars b = false.
Proof.
  induction a as [|x a IH]; [done|]. intros H. apply IH. cbn in H. destruct (a ++ b); [done|]. by booleans.
Qed.
(** A token of one part is the same whatever follows the slash. *)
Lemma glob_token_slash x part rest :
  Forall (λ c, c ≠ slash) (x :: part) → stars (x :: part) = false →
  plain_classes (x :: part ++ slash :: rest) = true →
  ∃ pre y, part = pre ++ y ∧ (glob_token x part).2 = y
    ∧ glob_token x (part ++ slash :: rest) = ((glob_token x part).1, y ++ slash :: rest)
    ∧ local_token (glob_token x part).1.
Proof.
  intros [Hx HF]%Forall_cons Hst Hpl. unfold glob_token.
  destruct (x =? 42) eqn:E42.
  { exists [], part. split; [done|]. destruct part as [|y part]; cbn [app]; [by cbn|].
    cbn in Hst. rewrite E42 in Hst. cbn in Hst. apply orb_false_iff in Hst as [-> _]. done. }
  destruct (x =? 63); [by exists [], part|].
  destruct (x =? 91) eqn:E91; [|by exists [], part].
  rewrite until_close_app. destruct (until_close part) as [[inner r]|] eqn:Ec.
  - destruct (until_close_rest _ _ _ Ec) as [pre ->]. exists pre, r. cbn. split_and!; try done.
    unfold class_of. by repeat case_match.
  - exists [], part. cbn [plain_classes] in Hpl. rewrite E91, until_close_app, Ec in Hpl.
    cbn [until_close] in *. destruct (until_close rest) as [[inner r]|]; cbn in *; [|done].
    rewrite forallb_app in Hpl. cbn in Hpl. by rewrite andb_false_r in Hpl.
Qed.
Lemma tokens_slash part rest :
  Forall (λ c, c ≠ slash) part → stars part = false → plain_classes (part ++ slash :: rest) = true →
  tokens (part ++ slash :: rest) = tokens part ++ Literal slash :: tokens rest
  ∧ Forall local_token (tokens part).
Proof.
  remember (length part) as n eqn:Hn. revert part Hn. induction (lt_wf n) as [n _ IH].
  intros part -> HF Hst Hpl. destruct part as [|x part].
  { split; [|constructor]. change ([] ++ slash :: rest) with (slash :: rest). by rewrite tokens_cons. }
  destruct (glob_token_slash x part rest HF Hst Hpl) as (pre & y & -> & Hy & Htok & Hloc).
  cbn [app]. rewrite !tokens_cons, Htok, Hy. cbn [fst snd].
  destruct (IH (length y)) with (part := y) as [-> HFl].
  - cbn. rewrite length_app. lia.
  - done.
  - apply Forall_cons in HF as [_ HF]. by apply Forall_app in HF as [_ ?].
  - apply (stars_app (x :: pre)). done.
  - apply (plain_classes_app (x :: pre)). cbn [app]. by rewrite app_assoc.
  - split; [done|]. by constructor.
Qed.

Lemma tokens_local part :
  Forall (λ c, c ≠ slash) part → stars part = false → Forall local_token (tokens part).
Proof.
  remember (length part) as n eqn:Hn. revert part Hn. induction (lt_wf n) as [n _ IH].
  intros part -> HF Hst. destruct part as [|x part]; [constructor|].
  rewrite tokens_cons. pose proof (glob_token_shorter x part) as Hlen.
  assert (local_token (glob_token x part).1 ∧ ∃ pre, part = pre ++ (glob_token x part).2) as [Hl [pre Hp]].
  { apply Forall_cons in HF as [Hx HF]. unfold glob_token.
    destruct (x =? 42) eqn:E42.
    { destruct part as [|y part]; [by split; [|exists []]|]. cbn in Hst. rewrite E42 in Hst. cbn in Hst.
      apply orb_false_iff in Hst as [-> _]. by split; [|exists []]. }
    destruct (x =? 63); [by split; [|exists []]|]. destruct (x =? 91); [|by split; [|exists []]].
    destruct (until_close part) as [[inner r]|] eqn:E; [|by split; [|exists []]].
    split; [unfold class_of; by repeat case_match|]. by apply until_close_rest in E. }
  constructor; [done|]. apply (IH (length (glob_token x part).2)); [cbn; lia|done|..].
  - rewrite Hp in HF. apply Forall_cons in HF as [_ HF]. by apply Forall_app in HF as [_ ?].
  - rewrite Hp in Hst. by apply (stars_app (x :: pre)).
Qed.
(** Local tokens match a part of the text without a slash. *)
Lemma matches_local ts us s :
  Forall local_token ts → matches (ts ++ us) s →
  ∃ a b, s = a ++ b ∧ Forall (λ c, c ≠ slash) a ∧ matches ts a ∧ matches us b.
Proof.
  intros HF. revert s. induction HF as [|t ts Ht _ IH]; intros s; cbn [app].
  { intros. exists [], s. split_and!; [done|constructor..|done]. }
  destruct t; try done; cbn in Ht.
  - inversion 1 as [| | | |pre ts' s' Hpre Hm| | |]; subst.
    destruct (IH _ Hm) as (a & b & -> & Ha & Hma & Hmb). exists (pre ++ a), b.
    rewrite app_assoc. split_and!; [done|by apply Forall_app|by constructor|done].
  - intros (c & s' & -> & Hc & Hm)%matches_One_inv.
    destruct (IH _ Hm) as (a & b & -> & Ha & Hma & Hmb). exists (c :: a), b.
    split_and!; [done|by constructor|by constructor|done].
  - intros (c & s' & -> & Hc & Hh & Hm)%matches_Class_inv.
    destruct (IH _ Hm) as (a & b & -> & Ha & Hma & Hmb). exists (c :: a), b.
    split_and!; [done|by constructor|by constructor|done].
  - intros (s' & -> & Hm)%matches_Literal_inv.
    destruct (IH _ Hm) as (a & b & -> & Ha & Hma & Hmb). exists (c :: a), b.
    split_and!; [done|by constructor|by constructor|done].
Qed.
Lemma app_slash_inj (a b c d : list Z) :
  Forall (λ c, c ≠ slash) a → Forall (λ c, c ≠ slash) c → a ++ slash :: b = c ++ slash :: d → a = c ∧ b = d.
Proof.
  intros Ha. revert c. induction Ha as [|x a Hx _ IH]; intros c Hc Heq.
  - destruct c as [|y c]; cbn in Heq; [by simplify_eq|]. apply Forall_cons in Hc as [? _]. by simplify_eq.
  - destruct c as [|y c]; cbn in Heq; [by simplify_eq|]. apply Forall_cons in Hc as [_ ?].
    injection Heq as -> Heq. by destruct (IH _ H Heq) as [-> ->].
Qed.
(** A part of a pattern against the first component of a path. *)
Lemma matches_first_part part rest comp comps :
  Forall (λ c, c ≠ slash) part → stars part = false → plain_classes (part ++ slash :: rest) = true →
  Forall (λ c, Forall (λ x, x ≠ slash) c) (comp :: comps) →
  matches (tokens (part ++ slash :: rest)) (join_chars (comp :: comps)) →
  matches (tokens part) comp ∧ comps ≠ [] ∧ matches (tokens rest) (join_chars comps).
Proof.
  intros HF Hst Hpl [Hc Hcs]%Forall_cons Hm. destruct (tokens_slash _ _ HF Hst Hpl) as [Ht Hl]. rewrite Ht in Hm.
  destruct (matches_local _ _ _ Hl Hm) as (a & b & Heq & Ha & Hma & Hmb).
  apply matches_Literal_inv in Hmb as (b' & -> & Hmb). destruct comps as [|c2 comps].
  - cbn in Heq. rewrite Heq in Hc. apply Forall_app in Hc as [_ Hc].
    by apply Forall_cons in Hc as [? _].
  - change (join_chars (comp :: c2 :: comps)) with (comp ++ slash :: join_chars (c2 :: comps)) in Heq.
    symmetry in Heq. apply app_slash_inj in Heq as [-> ->]; done.
Qed.
Lemma matches_last_part part comp comps :
  Forall (λ c, c ≠ slash) part → stars part = false →
  matches (tokens part) (join_chars (comp :: comps)) → comps = [] ∧ matches (tokens part) comp.
Proof.
  intros HF Hst Hm. pose proof (tokens_local _ HF Hst) as Hl.
  rewrite <- (app_nil_r (tokens part)) in Hm.
  destruct (matches_local _ _ _ Hl Hm) as (a & b & Heq & Ha & Hma & Hmb). inversion Hmb; subst.
  rewrite app_nil_r in Heq. destruct comps as [|c2 comps]; [by cbn in Heq; subst|].
  change (join_chars (comp :: c2 :: comps)) with (comp ++ slash :: join_chars (c2 :: comps)) in Heq.
  rewrite <- Heq in Ha. apply Forall_app in Ha as [_ Ha]. by apply Forall_cons in Ha as [? _].
Qed.
(** Text without the special characters matches itself. *)
Lemma literal_matches c :
  Forall (λ x, x ≠ 42 ∧ x ≠ 63 ∧ x ≠ 91) c → matches (tokens c) c.
Proof.
  induction 1 as [|x c (H1 & H2 & H3) _ IH]; [constructor|]. rewrite tokens_cons. unfold glob_token.
  apply Z.eqb_neq in H1, H2, H3. rewrite H1, H2, H3. by constructor.
Qed.
(** Two stars of the text are two stars of its characters. *)
Lemma contains_suffix p pre s : contains p s = true → contains p (pre +:+ s) = true.
Proof. induction pre as [|a pre IH]; [done|]. intros H. rewrite string_app_cons. cbn. rewrite IH by done. apply orb_true_r. Qed.
Lemma stars_contains s : stars (chars s) = true → contains "**" s = true.
Proof.
  remember (String.length s) as n eqn:Hn. revert s Hn. induction (lt_wf n) as [n _ IH]. intros s ->.
  rewrite (chars_first s). destruct (first_char s) as [[z r]|] eqn:E; [|done].
  pose proof (first_char_length _ _ _ E) as Hlen.
  assert (stars (chars r) = true → contains "**" s = true) as Hrec.
  { intros Hr. apply (IH _ Hlen _ eq_refl) in Hr.
    destruct (first_char_cases _ _ _ E) as [(a & -> & ->)|(_ & pre & ->)];
      [by apply (contains_suffix _ (String a ""))|by apply contains_suffix]. }
  rewrite (chars_first r) in Hrec |- *. destruct (first_char r) as [[z' r']|] eqn:E'; [|done].
  cbn [stars]. intros [[Hz Hz']%andb_prop|?]%orb_prop; [|by apply Hrec]. booleans. subst.
  destruct (first_char_cases _ _ _ E) as [(a & Ha & ->)|[? _]]; [|lia].
  destruct (first_char_cases _ _ _ E') as [(a' & Ha' & ->)|[? _]]; [|lia].
  apply (code_inj "*") in Ha as <-. apply (code_inj "*") in Ha' as <-. done.
Qed.

(** ** The limits *)

Lemma length_chars s : (length (chars s) ≤ String.length s)%nat.
Proof.
  remember (String.length s) as n eqn:Hn. revert s Hn. induction (lt_wf n) as [n _ IH]. intros s ->.
  rewrite chars_first. destruct (first_char s) as [[z r]|] eqn:E; [|cbn; lia].
  pose proof (first_char_length _ _ _ E). specialize (IH _ H r eq_refl). cbn. lia.
Qed.
Lemma length_class_set x : (length (class_set x) ≤ length x)%nat.
Proof.
  remember (length x) as n eqn:Hn. revert x Hn. induction (lt_wf n) as [n _ IH]. intros x ->.
  destruct x as [|a [|d [|z rest]]]; cbn [class_set]; [cbn; lia..|].
  pose proof (IH (length rest) ltac:(cbn; lia) rest eq_refl).
  pose proof (IH (length (d :: z :: rest)) ltac:(cbn; lia) (d :: z :: rest) eq_refl).
  destruct (d =? 45); cbn [length class_set] in *; lia.
Qed.
Lemma until_close_length c inner rest :
  until_close c = Some (inner, rest) → (length inner + length rest < length c)%nat.
Proof.
  revert inner. induction c as [|x c IH]; intros inner; cbn; [done|].
  destruct (x =? 93); [intros [= <- <-]; cbn; lia|]. destruct (until_close c) as [[i r]|]; [|done].
  intros [= <- <-]. specialize (IH _ eq_refl). cbn. lia.
Qed.
Definition members (t : Glob) : Z := match t with Class set _ => zlen set | _ => 0 end.
Lemma glob_token_members x c :
  members (glob_token x c).1 + zlen (glob_token x c).2 ≤ zlen c ∧ 0 ≤ members (glob_token x c).1.
Proof.
  assert (∀ inner, 0 ≤ members (class_of inner) ≤ zlen inner) as Hc.
  { intros inner. unfold class_of, members, zlen. destruct inner as [|y rest]; [cbn; lia|].
    pose proof (length_class_set rest). pose proof (length_class_set (y :: rest)).
    destruct (y =? 33); cbn [length] in *; lia. }
  unfold glob_token, zlen. destruct (x =? 42).
  { destruct c as [|y c']; [cbn; lia|]. destruct (y =? 42); [|cbn [fst snd members]; lia].
    destruct c' as [|z c'']; [cbn; lia|]. destruct (z =? slash); cbn [fst snd members length]; lia. }
  destruct (x =? 63); [cbn [fst snd members]; lia|]. destruct (x =? 91); [|cbn [fst snd members]; lia].
  destruct (until_close c) as [[inner r]|] eqn:E; [|cbn [fst snd members]; lia].
  apply until_close_length in E.
  specialize (Hc inner). cbn [fst snd]. unfold zlen in *. lia.
Qed.
Lemma tokens_members c : zlen (tokens c) ≤ zlen c ∧ 0 ≤ class_members (tokens c) ≤ zlen c.
Proof.
  unfold class_members. change (λ t, match t with Class set _ => zlen set | _ => 0 end) with members.
  remember (length c) as n eqn:Hn. revert c Hn. induction (lt_wf n) as [n _ IH]. intros c ->.
  destruct c as [|x c]; [unfold zlen; cbn; lia|]. rewrite tokens_cons, fmap_cons. cbn [sumZ].
  pose proof (glob_token_shorter x c). pose proof (glob_token_members x c).
  specialize (IH (length (glob_token x c).2) ltac:(cbn; lia) _ eq_refl). unfold zlen in *. cbn [length] in *. lia.
Qed.

(** C30. The matcher decides the reference relation: every answer is right, the only errors are its
    resource limits, and within twice the product of the lengths it always answers. *)
Theorem glob_decides p s :
  (∀ b, glob p s = Ok b → b = true ↔ matches (glob_tokens p) (chars s))
  ∧ (∀ e, glob p s = Err e → ∃ what, e = ResourceLimit what)
  ∧ (str_len p ≤ 4096 → (2 * str_len p + 1) * (str_len s + 1) ≤ 1000000 → ∃ b, glob p s = Ok b).
Proof.
  split_and!; [apply glob_correct|unfold glob, refuse; repeat case_match; intros; simplify_eq; eauto|].
  intros Hp Hw. unfold glob. pose proof (tokens_members (chars p)) as (Ht & Hm0 & Hm). fold (glob_tokens p) in *.
  pose proof (length_chars p) as Hcp. pose proof (length_chars s) as Hcs.
  assert (0 ≤ str_len p) by (unfold str_len; lia). assert (0 ≤ str_len s) by (unfold str_len; lia).
  assert (zlen (chars p) ≤ str_len p) by (unfold zlen, str_len; lia).
  assert (0 ≤ zlen (chars s) ≤ str_len s) by (unfold zlen, str_len; lia).
  assert (0 ≤ zlen (glob_tokens p)) by (unfold zlen; lia).
  set (t := zlen (glob_tokens p)) in *. set (m := class_members (glob_tokens p)) in *. set (n := zlen (chars s)) in *.
  assert ((t + 1) * (n + 1) + m * (n + 1) ≤ 1000000) as Hwork by nia.
  assert (t + m ≤ 1000000) by nia. assert (0 ≤ m * (n + 1)) by nia. assert (0 ≤ (t + 1) * (n + 1)) by nia.
  assert (str_len s ≤ 4000000) by nia.
  rewrite (proj2 (Z.ltb_ge 4096 _)), (proj2 (Z.ltb_ge 4000000 _)) by done. cbn [orb refuse].
  unfold checked_add, checked_mul, u64_max. rewrite (proj2 (Z.leb_le (t + m) _)) by lia.
  cbn [is_none_or]. rewrite (proj2 (Z.ltb_ge _ (t + m))) by lia. cbn [refuse].
  rewrite (proj2 (Z.leb_le ((t + 1) * (n + 1)) _)), (proj2 (Z.leb_le (m * (n + 1)) _)) by lia.
  cbn [mbind option_bind]. rewrite (proj2 (Z.leb_le _ _)) by lia. cbn [is_none_or].
  rewrite (proj2 (Z.ltb_ge _ _)) by lia. by eexists.
Qed.
Lemma glob_decides_witness :
  glob "**/[a-c]?.rs" "src/lib/bx.rs" = Ok true
  ∧ matches (glob_tokens "**/[a-c]?.rs") (chars "src/lib/bx.rs").
Proof.
  split; [by vm_compute|]. apply (proj1 (glob_decides "**/[a-c]?.rs" "src/lib/bx.rs") true); by vm_compute.
Defined.
