(* ===== verification/Dockerfile.v ===== *)
(** * Dockerfile: which files and images a Dockerfile build uses

    [bosn-generation/src/dockerfile.rs] and [walk_prune.rs]: logical lines with continuations and
    here-documents, the sources of COPY, ADD and bind mounts, the external images, ignore rules,
    the selection of a context, and the pruning of the walk that lists it. [serde_json] (the JSON
    form of COPY) and the [Debug] text of a string are parameters. *)

From Stdlib Require Import Ascii.
From S2P Require Export Glob.

Local Open Scope string_scope.
Local Open Scope list_scope.
Local Open Scope Z_scope.
Local Open Scope bosn_scope.

Inductive ContextEntry :=
| File (path bytes : string) (executable : bool)
| Directory (path : string)
| Symlink (path target : string).
Record ExternalImageIdentity := {
  ei_reference : string; ei_platform : option string; ei_identity : option string }.
Record Rule := { r_pattern : string; r_negated : bool }.
#[global] Instance Rule_eq_dec : EqDecision Rule.
Proof. solve_decision. Defined.

Definition entry_path (e : ContextEntry) : string :=
  match e with File path _ _ | Directory path | Symlink path _ => path end.
Definition file (entries : list ContextEntry) (p : string) : option string :=
  head (omap (λ e, match e with
    | File path bytes _ => if path ==? p then Some bytes else None
    | _ => None
    end) entries).

(** ** What the code uses of [str] *)

Definition ends_with (p s : string) : bool := starts_with (str_reverse p) (str_reverse s).
Fixpoint replace_byte (a b : ascii) (s : string) : string :=
  match s with "" => "" | String c s => String (if Ascii.eqb c a then b else c) (replace_byte a b s) end.
Definition to_upper (a : ascii) : ascii :=
  if in_range 97 122 a then ascii_of_N (N_of_ascii a - 32) else a.
Fixpoint to_ascii_uppercase (s : string) : string :=
  match s with "" => "" | String a s => String (to_upper a) (to_ascii_uppercase s) end.
Fixpoint contains_any (bytes s : string) : bool :=
  match s with
  | "" => false
  | String a s => negb (all_bytes (λ b, negb (Ascii.eqb a b)) bytes) || contains_any bytes s
  end.
(** The text before the first white space and the text from it on. *)
Fixpoint split_at_space (s : string) : option (string * string) :=
  match s with
  | "" => None
  | String a s' =>
      match space_len s with
      | S _ => Some ("", s)
      | O => prod_map (String a) id <$> split_at_space s'
      end
  end.

(** ** Ignore rules *)

Definition ignore_rule (raw : string) : option Rule :=
  let x := trim raw in
  if (x ==? "") || starts_with "#" x || (x ==? ".") then None else
  let negated := starts_with "!" x in
  let x := if negated then match x with String _ x => x | "" => "" end else x in
  let x := trim_end_matches "/" (drop_leading "/" (replace_byte "\" "/" x)) in
  if x ==? "" then None else Some {| r_pattern := x; r_negated := negated |}.
Definition ignore_rules (b : string) : list Rule := omap ignore_rule (lines b).

(** The [scan] that yields the path up to each of its components. *)
Fixpoint prefixes_from (acc : string) (parts : list string) : list string :=
  match parts with
  | [] => []
  | x :: parts =>
      let acc := (if acc ==? "" then acc else acc +:+ "/") +:+ x in acc :: prefixes_from acc parts
  end.
Definition prefixes (p : string) : list string := prefixes_from "" (str_split "/" p).
(** The number of slashes of a path. *)
Definition slashes (p : string) : nat := pred (length (str_split "/" p)).
(** [collect::<Result<Vec<_>, _>>] followed by [any]: the first error wins over every match. *)
Fixpoint any_glob (pattern : string) (paths : list string) : result DockerfileError bool :=
  match paths with
  | [] => Ok false
  | p :: paths =>
      let? hit := glob pattern p in
      let? rest := any_glob pattern paths in
      Ok (hit || rest)
  end.
Fixpoint ignored_from (rules : list Rule) (p : string) (yes : bool) : result DockerfileError bool :=
  match rules with
  | [] => Ok yes
  | r :: rules =>
      let? direct := glob (r_pattern r) p in
      let? hit := if direct then Ok true else any_glob (r_pattern r) (take (slashes p) (prefixes p)) in
      ignored_from rules p (if hit : bool then negb (r_negated r) else yes)
  end.
Definition ignored (rules : list Rule) (p : string) : result DockerfileError bool :=
  ignored_from rules p false.

(** ** Sources *)

(** The lexical normalization of [source_matches] and of [walk_prune::components]. *)
Definition push_part (parts : list string) (x : string) : list string :=
  if (x ==? "") || (x ==? ".") then parts
  else if x ==? ".." then removelast parts else parts ++ [x].
Definition components (pattern : string) : list string :=
  foldl push_part [] (str_split "/" (replace_byte "\" "/" pattern)).
Definition source_matches (source p : string) : result DockerfileError bool :=
  let parts := foldl push_part [] (str_split "/" (drop_leading "/" (replace_byte "\" "/" source))) in
  let s := str_join "/" parts in
  if (s ==? "") || (s ==? ".") then Ok true
  else if contains_any "*?[" s then
    let? direct := glob s p in
    let? prefix := any_glob s (prefixes p) in
    Ok (direct || prefix)
  else Ok ((p ==? s) || starts_with (s +:+ "/") p).
Fixpoint any_source_matches (sources : list string) (p : string) : result DockerfileError bool :=
  match sources with
  | [] => Ok false
  | s :: sources =>
      let? hit := source_matches s p in
      if hit : bool then Ok true else any_source_matches sources p
  end.

(** ** Logical lines *)

(** The [# escape=] directive: the first line that is a directive or an instruction decides. *)
Fixpoint escape_of (raws : list string) : string :=
  match raws with
  | [] => "\"
  | x :: raws =>
      let t := trim x in
      match strip_prefix "# escape=" t with
      | Some v => if (v ==? "\") || (v ==? "`") then v else "\"
      | None => if negb (t ==? "") && negb (starts_with "#" t) then "\" else escape_of raws
      end
  end.
Definition delimiter_byte (a : ascii) : bool :=
  is_ascii_alphanumeric a || existsb (Ascii.eqb a) ["_"; "."; "-"]%char.
(** The here-document delimiter after [<<]: its word, whether tabs are stripped, and the rest. *)
Definition heredoc (s : string) : option (string * bool * string) :=
  let tabs := starts_with "-" s in
  let s := if tabs then match s with String _ s => s | "" => "" end else s in
  let s := match s with String "\" s => s | _ => s end in
  let '(quote, s) := match s with
    | String c s' => if Ascii.eqb c "'" || Ascii.eqb c "034" then (Some c, s') else (None, s)
    | "" => (None, s)
    end in
  let '(word, rest) := span delimiter_byte s in
  if word ==? "" then None else
  match quote with
  | None => Some (word, tabs, rest)
  | Some z =>
      match rest with
      | String c rest => if Ascii.eqb c z then Some (word, tabs, rest) else None
      | "" => None
      end
  end.
(** [delims]: [after_lt] tells whether the byte before [s] is [<], [q] is the open quote. The loop
    runs while more than two bytes are left. *)
Fixpoint delims_from (fuel : nat) (s : string) (after_lt : bool) (q : option ascii) : list (string * bool) :=
  match fuel, s with
  | S fuel, String a (String b (String _ _ as s2) as s1) =>
      let skip2 := delims_from fuel s2 (Ascii.eqb b "<") in
      let next := delims_from fuel s1 (Ascii.eqb a "<") in
      match q with
      | Some quote =>
          if Ascii.eqb a "\" && Ascii.eqb quote "034" then skip2 q
          else next (if Ascii.eqb a quote then None else q)
      | None =>
          if Ascii.eqb a "'" || Ascii.eqb a "034" then next (Some a)
          else if Ascii.eqb a "\" then skip2 None
          else if Ascii.eqb a "<" && Ascii.eqb b "<" && negb after_lt then
            match heredoc s2 with
            | Some (word, tabs, rest) => (word, tabs) :: delims_from fuel rest false None
            | None => next None
            end
          else next None
      end
  | _, _ => []
  end.
Definition delims (s : string) : list (string * bool) := delims_from (String.length s) s false None.
Definition drop_tabs (s : string) : string := drop_leading "009" s.
(** The loop over the physical lines, with the pending line and the open here-documents. *)
Fixpoint logical_from (esc : string) (raws : list string) (pending : string)
    (heredocs : list (string * bool)) : list string :=
  match raws with
  | [] => if pending ==? "" then [] else [pending]
  | raw :: raws =>
      match heredocs with
      | (d, tabs) :: rest =>
          logical_from esc raws pending
            (if (if tabs : bool then drop_tabs raw else raw) ==? d then rest else heredocs)
      | [] =>
          let t := trim raw in
          if (t ==? "") || (pending ==? "") && starts_with "#" t
          then logical_from esc raws pending []
          else
            let pending := pending +:+ t in
            match strip_suffix esc pending with
            | Some line => logical_from esc raws (line +:+ " ") []
            | None => pending :: logical_from esc raws "" (delims pending)
            end
      end
  end.
Definition logical_lines (text : string) : list string :=
  logical_from (escape_of (lines text)) (lines text) "" [].

(** ** Words *)

Definition split_op (s : string) : string * string :=
  match split_at_space s with
  | Some (op, rest) => (to_ascii_uppercase op, trim rest)
  | None => (to_ascii_uppercase s, "")
  end.
(** [words], byte by byte: the bytes of a white-space character still to skip, the word so far,
    the open quote, and whether the last character was a backslash. *)
Fixpoint words_go (s : string) (skip : nat) (cur : string) (q : option ascii) (slash : bool) :
    option (list string) :=
  match s with
  | "" => if bool_decide (is_Some q) then None else Some (if cur ==? "" then [] else [cur])
  | String c s' =>
      match skip with
      | S skip => words_go s' skip cur q slash
      | O =>
          if slash then words_go s' O (cur +:+ String c "") q false
          else if Ascii.eqb c "\" then words_go s' O cur q true
          else if bool_decide (q = Some c) then words_go s' O cur None false
          else if bool_decide (q = None) && (Ascii.eqb c "'" || Ascii.eqb c "034")
          then words_go s' O cur (Some c) false
          else match q, space_len s with
               | None, S skip =>
                   out ← words_go s' skip "" None false;
                   Some (if cur ==? "" then out else cur :: out)
               | _, _ => words_go s' O (cur +:+ String c "") q false
               end
      end
  end.
Definition words (s : string) : result DockerfileError (list string) :=
  ok_or (words_go s O "" None false) (Parse "unterminated quote").

(** [serde_json::from_str] into a list of strings, and the [Debug] text of a string. *)
Class DockerText := { parse_strings : string → option (list string); debug : string → string }.

Section text.
Context `{DockerText}.

Definition json_strings (s : string) : result DockerfileError (list string) :=
  ok_or (parse_strings s) (Parse "invalid JSON COPY/ADD").
(** The flags of COPY and ADD, a later one replacing an earlier. *)
Fixpoint copy_flags (fuel : nat) (b op : string) (flags : gmap string (option string)) :
    result DockerfileError (string * gmap string (option string)) :=
  match fuel with
  | O => Ok (b, flags)
  | S fuel =>
      match strip_prefix "--" b with
      | None => Ok (b, flags)
      | Some _ =>
          match split_at_space b with
          | None => Err (Parse (op +:+ " has no source or destination"))
          | Some (flag, rest) =>
              let f := default "" (strip_prefix "--" flag) in
              let '(k, v) := match split_once "=" f with
                | Some (a, b) => (a, Some b)
                | None => (f, None)
                end in
              copy_flags fuel (trim rest) op (<[to_ascii_lowercase k := v]> flags)
          end
      end
  end.
Definition copy (body op : string) :
    result DockerfileError (list string * gmap string (option string)) :=
  let b := trim body in
  let? bf := copy_flags (String.length b) b op ∅ in
  let? tokens := if starts_with "[" bf.1 then json_strings bf.1 else words bf.1 in
  if (length tokens <? 2)%nat then Err (Parse (op +:+ " needs a source and destination"))
  else Ok (tokens, bf.2).
Definition mount_fields (v : string) : gmap string string :=
  foldl (λ m x, let '(k, v) := default (x, "true") (split_once "=" x) in
                <[to_ascii_lowercase k := v]> m) ∅ (str_split "," v).
Fixpoint mounts_of (ws : list string) : list (gmap string string) :=
  match ws with
  | [] => []
  | w :: ws =>
      match strip_prefix "--mount=" w with
      | Some v => mount_fields v :: mounts_of ws
      | None => if starts_with "--" w then mounts_of ws else []
      end
  end.
Definition mounts (body : string) : result DockerfileError (list (gmap string string)) :=
  let? ws := words body in Ok (mounts_of ws).

(** ** Remote sources *)

Definition remote (s : string) : bool :=
  let x := to_ascii_lowercase s in
  existsb (λ p, starts_with p x) ["git://"; "ssh://"; "git@"; "http://"; "https://"].
Definition git (s : string) : bool :=
  let x := to_ascii_lowercase s in
  existsb (λ p, starts_with p x) ["git://"; "ssh://"; "git@"]
  || ends_with ".git" (span (λ a, negb (Ascii.eqb a "#" || Ascii.eqb a "?")) x).1.
Definition full_commit (s : string) : bool :=
  let fragment := match rsplit_once "#" s with Some (_, r) => r | None => s end in
  let x := match split_once ":" fragment with Some (l, _) => l | None => fragment end in
  ((str_len x =? 40) || (str_len x =? 64)) && all_bytes is_hexdigit x.

(** The sources of one COPY or ADD: whether all of the context may be used, and the sources. *)
Fixpoint copy_sources (op : string) (flags : gmap string (option string)) (tokens : list string) :
    result DockerfileError (list string * bool) :=
  match tokens with
  | [] => Ok ([], false)
  | s :: tokens =>
      let? here :=
        if starts_with "<<" s then Ok ([], false)
        else if contains_any "$" s then Ok ([], true)
        else if (op ==? "ADD") && remote s then
          if git s && negb (full_commit s)
          then Err (UnpinnedRemote ("Git ADD source " +:+ debug s +:+ " needs a full commit reference"))
          else if negb (git s) && is_none_or (mjoin (flags !! "checksum")) (λ x, x ==? "")
          then Err (UnpinnedRemote ("remote ADD source " +:+ debug s +:+ " needs --checksum"))
          else Ok ([], false)
        else Ok ([s], false) in
      let? rest := copy_sources op flags tokens in
      Ok (here.1 ++ rest.1, here.2 || rest.2)
  end.
Definition mount_source (m : gmap string string) : list string * bool :=
  if is_some_and (m !! "type") (λ x, negb (x ==? "bind")) || bool_decide (is_Some (m !! "from"))
  then ([], false)
  else
    let s := default (default "." (m !! "src")) (m !! "source") in
    if contains_any "$" s then ([], true) else ([s], false).
Definition line_sources (line : string) : result DockerfileError (list string * bool) :=
  let '(op, body) := split_op line in
  if (op ==? "COPY") || (op ==? "ADD") then
    let? tf := copy body op in
    match tf.2 !! "from" with
    | Some from =>
        if is_none_or from (λ f, f ==? "") then Err (Parse (op +:+ " --from needs an image or stage"))
        else Ok ([], false)
    | None => copy_sources op tf.2 (removelast tf.1)
    end
  else if op ==? "RUN" then
    let? ms := mounts body in
    Ok (concat (fst <$> (mount_source <$> ms)), existsb snd (mount_source <$> ms))
  else Ok ([], false).
Fixpoint sources_of (ls : list string) : result DockerfileError (list string * bool) :=
  match ls with
  | [] => Ok ([], false)
  | l :: ls =>
      let? here := line_sources l in
      let? rest := sources_of ls in
      Ok (here.1 ++ rest.1, here.2 || rest.2)
  end.
Definition local_sources (text : string) : result DockerfileError (list string * bool) :=
  sources_of (logical_lines text).

(** ** External images *)

Definition automatic : list string :=
  ["BUILDPLATFORM"; "BUILDOS"; "BUILDARCH"; "BUILDVARIANT";
   "TARGETPLATFORM"; "TARGETOS"; "TARGETARCH"; "TARGETVARIANT"].
Definition arg_byte (a : ascii) : bool := is_ascii_alphanumeric a || Ascii.eqb a "_".
(** The name after a [$], and the text after it. *)
Definition argument (rest : string) : result DockerfileError (string * string) :=
  match strip_prefix "{" rest with
  | Some inner => ok_or (split_once "}" inner) (Parse "unterminated build argument")
  | None => Ok (span arg_byte rest)
  end.
Fixpoint expand_from (fuel : nat) (v rest : string) (args : gmap string string) (auto : bool) :
    result DockerfileError string :=
  match fuel, split_once "$" rest with
  | S fuel, Some (before, rest) =>
      let? nr := argument rest in
      let? value :=
        if auto && existsb (String.eqb nr.1) automatic then Ok ("$" +:+ nr.1)
        else ok_or (args !! nr.1) (Parse ("image reference " +:+ debug v
               +:+ " uses unresolved build argument " +:+ debug nr.1)) in
      let? tail := expand_from fuel v nr.2 args auto in
      Ok (before +:+ value +:+ tail)
  | _, _ => Ok rest
  end.
Definition expand (v : string) (args : gmap string string) (auto : bool) : result DockerfileError string :=
  expand_from (S (String.length v)) v v args auto.
Definition alphabetic (a : ascii) : bool := in_range 65 90 a || in_range 97 122 a.
Definition valid_arg (x : string) : bool :=
  match x with
  | String a s => (Ascii.eqb a "_" || alphabetic a) && all_bytes arg_byte s
  | "" => false
  end.
Definition stage (x : string) (aliases : gset string) : bool :=
  bool_decide (is_Some (parse_u64 x)) || bool_decide (to_ascii_lowercase x ∈ aliases).
(** The image of a reference that is neither a stage nor [scratch]. *)
Definition external (aliases : gset string) (image : string) (platform : option string) :
    list ExternalImageIdentity :=
  if negb (stage image aliases) && negb (eq_ignore_ascii_case image "scratch")
  then [{| ei_reference := image; ei_platform := platform; ei_identity := None |}] else [].
(** The leading flags of FROM: the platform, expanded, and the other words. *)
Fixpoint from_flags (ws : list string) (platform : option string) (args : gmap string string) :
    result DockerfileError (option string * list string) :=
  match ws with
  | f :: rest =>
      if starts_with "--" f then
        match strip_prefix "--platform=" f with
        | Some v => let? p := expand v args true in from_flags rest (Some p) args
        | None => from_flags rest platform args
        end
      else Ok (platform, ws)
  | [] => Ok (platform, [])
  end.
Record Images := {
  im_args : gmap string string; im_aliases : gset string; im_staged : bool;
  im_out : list ExternalImageIdentity }.
Definition from_line (st : Images) (body : string) : result DockerfileError Images :=
  let? ws := words body in
  let? pw := from_flags ws None (im_args st) in
  match pw.2 with
  | [] => Err (Parse "FROM needs an image reference")
  | reference :: rest =>
      let? image := expand reference (im_args st) true in
      let? aliases :=
        match rest with
        | [] => Ok (im_aliases st)
        | [as_; name] =>
            if eq_ignore_ascii_case as_ "as" then Ok ({[to_ascii_lowercase name]} ∪ im_aliases st)
            else Err (Parse "cannot parse FROM")
        | _ => Err (Parse "cannot parse FROM")
        end in
      Ok {| im_args := im_args st; im_aliases := aliases; im_staged := true;
            im_out := im_out st ++ external (im_aliases st) image pw.1 |}
  end.
Definition with_out (st : Images) (images : list ExternalImageIdentity) : Images :=
  {| im_args := im_args st; im_aliases := im_aliases st; im_staged := im_staged st;
     im_out := im_out st ++ images |}.
Fixpoint mount_images (st : Images) (ms : list (gmap string string)) : result DockerfileError Images :=
  match ms with
  | [] => Ok st
  | m :: ms =>
      match m !! "from" with
      | Some from =>
          let? image := expand from (im_args st) true in
          mount_images (with_out st (external (im_aliases st) image None)) ms
      | None => mount_images st ms
      end
  end.
Definition image_line (st : Images) (line : string) : result DockerfileError Images :=
  let '(op, body) := split_op line in
  if (op ==? "ARG") && negb (im_staged st) then
    match split_once "=" body with
    | Some (name, value) =>
        if valid_arg name then
          let? v := expand value (im_args st) true in
          Ok {| im_args := <[name := v]> (im_args st); im_aliases := im_aliases st;
                im_staged := im_staged st; im_out := im_out st |}
        else Ok st
    | None => Ok st
    end
  else if op ==? "FROM" then from_line st body
  else if (op ==? "COPY") || (op ==? "ADD") then
    let? tf := copy body op in
    match mjoin (tf.2 !! "from") with
    | Some from =>
        let? image := expand from (im_args st) false in
        Ok (with_out st (external (im_aliases st) image None))
    | None => Ok st
    end
  else if op ==? "RUN" then let? ms := mounts body in mount_images st ms
  else Ok st.
Fixpoint image_lines (st : Images) (ls : list string) : result DockerfileError Images :=
  match ls with
  | [] => Ok st
  | l :: ls => let? st := image_line st l in image_lines st ls
  end.
Definition external_images (text : string) : result DockerfileError (list ExternalImageIdentity) :=
  let? st := image_lines {| im_args := ∅; im_aliases := ∅; im_staged := false; im_out := [] |}
               (logical_lines text) in
  Ok (im_out st).

(** ** The selected context *)

Definition from_utf8 (b : string) : option string := if is_utf8 b then Some b else None.
(** Every entry that is protected or a source and not ignored. *)
Fixpoint select_entries (entries : list ContextEntry) (protected : list string) (rules : list Rule)
    (sources : list string) (all : bool) : result DockerfileError (list ContextEntry) :=
  match entries with
  | [] => Ok []
  | e :: entries =>
      let p := entry_path e in
      let? keep :=
        if bool_decide (p ∈ protected) then Ok true else
        let? hit := if all then Ok true else any_source_matches sources p in
        if hit : bool then let? out := ignored rules p in Ok (negb out) else Ok false in
      let? rest := select_entries entries protected rules sources all in
      Ok (if keep : bool then e :: rest else rest)
  end.
(** Whether a source matches an entry, the first error winning over every match. *)
Fixpoint source_present (source : string) (entries : list ContextEntry) : result DockerfileError bool :=
  match entries with
  | [] => Ok false
  | e :: entries =>
      let? hit := source_matches source (entry_path e) in
      let? rest := source_present source entries in
      Ok (hit || rest)
  end.
Fixpoint check_sources (sources : list string) (entries : list ContextEntry) : result DockerfileError unit :=
  match sources with
  | [] => Ok tt
  | source :: sources =>
      let? present := source_present source entries in
      if present : bool then check_sources sources entries else Err (MissingSource source)
  end.
(** The ignore file in use: the Dockerfile's own, else the context's. *)
Definition ignore_file (entries : list ContextEntry) (dockerfile : string) : option (string * string) :=
  let specific := dockerfile +:+ ".dockerignore" in
  match file entries specific with
  | Some b => Some (specific, b)
  | None => (λ b, (".dockerignore", b)) <$> file entries ".dockerignore"
  end.
Definition select_context_with (entries : list ContextEntry) (dockerfile : string)
    (fallback : option string) : result DockerfileError (list ContextEntry) :=
  let? df := ok_or (file entries dockerfile) (MissingDockerfile dockerfile) in
  let? text := ok_or (from_utf8 df) (InvalidUtf8 dockerfile) in
  let ignore := ignore_file entries dockerfile in
  let? rules := match ignore with
    | Some (_, b) => let? b := ok_or (from_utf8 b) (InvalidUtf8 ".dockerignore") in Ok (ignore_rules b)
    | None => Ok (default [] (ignore_rules <$> fallback))
    end in
  let? sa := local_sources text in
  let protected := dockerfile :: match ignore with Some (name, _) => [name] | None => [] end in
  let? selected := select_entries entries protected rules sa.1 sa.2 in
  let? _ := check_sources sa.1 entries in
  Ok (sort_by (cmp_on entry_path String.compare) selected).
Definition select_context (entries : list ContextEntry) (dockerfile : string) :
    result DockerfileError (list ContextEntry) :=
  select_context_with entries dockerfile None.

(** ** Walk-time pruning *)

Definition DEFAULT_IGNORE_NAME : string := "<bosn default .dockerignore>".
(** The ignore file the collector gives the pruner: the one in use, else the default set. *)
Definition pruner_ignore (entries : list ContextEntry) (dockerfile : string) (fallback : option string) :
    option (string * string) :=
  match ignore_file entries dockerfile with
  | Some i => Some i
  | None => (λ rules, (DEFAULT_IGNORE_NAME, rules)) <$> fallback
  end.

Record WalkPruner := {
  wp_rules : list Rule; wp_sources : list (list string); wp_source_patterns : list string;
  wp_all : bool; wp_protected : list string }.
Definition WalkPruner_new (dockerfile dockerfile_text : string) (ignore : option (string * string)) :
    result DockerfileError WalkPruner :=
  let? text := ok_or (from_utf8 dockerfile_text) (InvalidUtf8 dockerfile) in
  let? rules := match ignore with
    | Some (_, bytes) =>
        let? b := ok_or (from_utf8 bytes) (InvalidUtf8 ".dockerignore") in Ok (ignore_rules b)
    | None => Ok []
    end in
  let? sa := local_sources text in
  Ok {| wp_rules := rules;
        wp_sources := filterb (λ c, negb (c ==? [])) (components <$> sa.1);
        wp_source_patterns := sa.1; wp_all := sa.2;
        wp_protected := dockerfile :: match ignore with Some (name, _) => [name] | None => [] end |}.
(** The loop of [classify] over the sources: whether any matches, whether one for the first time,
    and which have been seen. *)
Fixpoint classify_sources (sources : list string) (path : string) (seen : list bool) :
    result DockerfileError (bool * bool * list bool) :=
  match sources, seen with
  | source :: sources, was :: seen =>
      let? hit := source_matches source path in
      let? rest := classify_sources sources path seen in
      let '(matched, witness, seen) := rest in
      Ok (hit || matched, (hit && negb was) || witness, (was || hit) :: seen)
  | _, _ => Ok (false, false, seen)
  end.
Definition classify (w : WalkPruner) (path : string) (seen : list bool) :
    result DockerfileError (bool * bool * list bool) :=
  let? cs := classify_sources (wp_source_patterns w) path seen in
  let '(matched, witness, seen) := cs in
  let? selected :=
    if bool_decide (path ∈ wp_protected w) then Ok true
    else if wp_all w || matched then let? out := ignored (wp_rules w) path in Ok (negb out)
    else Ok false in
  Ok (selected, selected || witness, seen).
(** Whether a pattern could match the directory, an ancestor of it, or a path beneath it. *)
Fixpoint reaches (pattern dir : list string) : result DockerfileError bool :=
  match dir, pattern with
  | [], _ => Ok true
  | _ :: _, [] => Ok true
  | part :: dir, p :: pattern =>
      if contains "**" p then Ok true else
      let? hit := glob p part in
      if hit : bool then reaches pattern dir else Ok false
  end.
Fixpoint any_reaches (patterns : list (list string)) (dir : list string) : result DockerfileError bool :=
  match patterns with
  | [] => Ok false
  | p :: patterns =>
      let? hit := reaches p dir in
      if hit : bool then Ok true else any_reaches patterns dir
  end.
Definition prunes (w : WalkPruner) (dir : string) : result DockerfileError bool :=
  if wp_rules w ==? [] then Ok false else
  let? out := ignored (wp_rules w) dir in
  if negb out then Ok false else
  if existsb (starts_with (dir +:+ "/")) (wp_protected w) then Ok false else
  let parts := components dir in
  let? negation := any_reaches ((components ∘ r_pattern) <$> filterb r_negated (wp_rules w)) parts in
  if negation : bool then Ok false else
  let? source := any_reaches (wp_sources w) parts in
  Ok (negb source).
End text.
