(* ===== verification/Pruning.v ===== *)
(** * Pruning: skipping an ignored directory cannot change the context

    The module comment of [bosn-generation/src/walk_prune.rs] promises that the walk skips a
    directory only when skipping it cannot change the selection or the source checks. The theorem
    [pruning_keeps_selection] proves it for patterns whose classes do not span a slash and ignore
    rules without a [..] part; [pruning_loses_a_file] shows a class that spans a slash breaks it. *)

From Stdlib Require Import Ascii.
From S2P Require Export Dockerfile.

Local Open Scope string_scope.
Local Open Scope list_scope.
Local Open Scope Z_scope.
Local Open Scope bosn_scope.

(** ** Paths and their components *)

(** A component of a context path, and a context path: what the collector's [relative] accepts. *)
Definition comp_ok (x : string) : bool :=
  negb (x ==? "") && negb (x ==? ".") && negb (x ==? "..") && without "/" x && without "\" x.
Definition clean (p : string) : Prop := Forall (λ x, comp_ok x = true) (str_split "/" p).
(** Two lists of components one of which extends the other. *)
Definition comparable (a b : list string) : Prop := a `prefix_of` b ∨ b `prefix_of` a.

Definition plain_parts (parts : list string) : list string :=
  filterb (λ x, negb (x ==? "") && negb (x ==? ".")) parts.
Lemma push_parts acc parts :
  Forall (λ x, x ≠ "..") parts → foldl push_part acc parts = acc ++ plain_parts parts.
Proof.
  intros HF. revert acc. induction HF as [|x parts Hx _ IH]; intros acc.
  { by rewrite app_nil_r. }
  cbn [foldl]. unfold plain_parts. rewrite filterb_cons, IH. unfold push_part.
  destruct (bool_decide (x = "")), (bool_decide (x = ".")); cbn; try done.
  rewrite bool_decide_false by done. by rewrite <- app_assoc.
Qed.

Lemma comparable_cons x a y b : comparable (x :: a) (y :: b) → x = y ∧ comparable a b.
Proof.
  intros [H|H]; apply prefix_cons_inv_1 in H as Heq; apply prefix_cons_inv_2 in H; subst; 
    (split; [done|]); first [by left|by right].
Qed.

(** A pattern that matches a path reaches every directory on the way to it or below it. *)
Lemma reaches_match parts comps dir b :
  parts ≠ [] → comps ≠ [] →
  Forall (λ x, without "/" x = true) parts → Forall (λ x, x ≠ "..") parts →
  plain_classes (join_chars (chars <$> parts)) = true →
  Forall (λ x, comp_ok x = true) comps → comparable comps dir →
  matches (tokens (join_chars (chars <$> parts))) (join_chars (chars <$> comps)) →
  reaches (plain_parts parts) dir = Ok b → b = true.
Proof.
  intros Hne. revert comps dir. induction parts as [|p parts IH]; [done|]. clear Hne.
  intros comps dir Hcne [Hp Hparts]%Forall_cons [Hdd Hdds]%Forall_cons Hpl Hcomps Hcmp Hm Hr.
  destruct comps as [|c comps]; [done|].
  destruct dir as [|d dir]; [by destruct (plain_parts (p :: parts)); cbn in Hr; simplify_eq|].
  apply comparable_cons in Hcmp as [<- Hcmp].
  pose proof (chars_no_slash _ Hp) as Hps.
  apply Forall_cons in Hcomps as Hcomps'. destruct Hcomps' as [Hc Hcs].
  assert (∀ x : string, x = "" ∨ x = "." → matches (tokens (chars x)) (chars c) → False) as Habs.
  { unfold comp_ok in Hc. booleans. intros x [-> | ->] Hx.
    - inversion Hx as [Hnil| | | | | | |]. symmetry in H4. by apply chars_nil in H4.
    - apply matches_Literal_inv in Hx as (s & Hs & Hx). inversion Hx; subst.
      by apply (chars_byte ".") in Hs. }
  assert (∀ parts', p ≠ "" → p ≠ "." → plain_parts (p :: parts') = p :: plain_parts parts') as Hplain.
  { intros parts' H1 H2. unfold plain_parts. by rewrite filterb_cons, !bool_decide_false. }
  destruct (contains "**" p) eqn:Hstar.
  { rewrite Hplain in Hr by (intros ->; done). cbn in Hr. rewrite Hstar in Hr. by simplify_eq. }
  assert (stars (chars p) = false) as Hst.
  { apply not_true_iff_false. intros H%stars_contains. congruence. }
  assert (matches (tokens (chars p)) (chars c) ∧ (parts ≠ [] → comps ≠ [] ∧
    matches (tokens (join_chars (chars <$> parts))) (join_chars (chars <$> comps)))) as [Hhit Hrest].
  { destruct parts as [|p2 parts].
    - rewrite fmap_cons in Hm. apply matches_last_part in Hm as [_ ?]; done.
    - rewrite !fmap_cons in Hm, Hpl.
      apply matches_first_part in Hm as (? & Hn & ?); [|done..|].
      + split; [done|]. intros _. split; [by intros ->|by rewrite fmap_cons].
      + constructor; [|apply Forall_fmap; eapply Forall_impl; [exact Hcs|]]; intros;
          apply chars_no_slash; unfold comp_ok in *; booleans; done. }
  rewrite Hplain in Hr; [|intros ->; apply (Habs ""); [by left|done]|intros ->; apply (Habs "."); [by right|done]].
  cbn in Hr. rewrite Hstar in Hr.
  destruct (glob p c) as [hit|] eqn:Hg; [|done]. apply glob_correct in Hg.
  rewrite (proj2 Hg Hhit) in Hr. destruct parts as [|p2 parts].
  { change (plain_parts []) with (@nil string) in Hr. by destruct dir; cbn in Hr; simplify_eq. }
  destruct Hrest as [Hcn Hm']; [done|]. eapply (IH ltac:(done) comps dir); try done.
  rewrite !fmap_cons in Hpl |- *. by apply (plain_classes_app (chars p ++ [slash])); rewrite <- app_assoc.
Qed.

(** ** The prefixes of a path *)

Definition parts_of (p : string) : list string := str_split "/" p.
Lemma parts_nonempty p : parts_of p ≠ [].
Proof. apply str_split_nonempty. Qed.
Lemma parts_no_slash p : Forall (λ x, without "/" x = true) (parts_of p).
Proof. apply Forall_forall. intros x Hx. by apply (split_no_sep "/" p). Qed.
Lemma chars_parts p : chars p = join_chars (chars <$> parts_of p).
Proof. rewrite <- chars_join. unfold parts_of. by rewrite join_split. Qed.

Lemma join_empty l : Forall (λ x, x ≠ "") l → str_join "/" l = "" → l = [].
Proof.
  intros HF Hj. destruct HF as [|x l Hx _]; [done|]. destruct l; cbn in Hj; [done|].
  destruct x; done.
Qed.
Lemma join_snoc l x : l ≠ [] → str_join "/" (l ++ [x]) = str_join "/" l +:+ "/" +:+ x.
Proof.
  induction l as [|y l IH]; [done|]. intros _. destruct l as [|z l]; [done|].
  change (str_join "/" ((y :: z :: l) ++ [x])) with (y +:+ "/" +:+ str_join "/" ((z :: l) ++ [x])).
  rewrite IH by done. change (str_join "/" (y :: z :: l)) with (y +:+ "/" +:+ str_join "/" (z :: l)).
  by rewrite !string_app_assoc.
Qed.
Lemma prefixes_from_join done_ parts :
  Forall (λ x, x ≠ "") (done_ ++ parts) →
  prefixes_from (str_join "/" done_) parts
  = (λ k, str_join "/" (done_ ++ take k parts)) <$> seq 1 (length parts).
Proof.
  revert done_. induction parts as [|x parts IH]; intros done_ HF; [done|].
  cbn [prefixes_from length seq]. rewrite fmap_cons.
  assert ((if str_join "/" done_ ==? "" then str_join "/" done_ else str_join "/" done_ +:+ "/") +:+ x
    = str_join "/" (done_ ++ [x])) as ->.
  { case_bool_decide as Hj.
    - apply join_empty in Hj as ->; [done|]. by apply Forall_app in HF as [? _].
    - rewrite join_snoc; [by rewrite string_app_assoc|]. by intros ->. }
  f_equal. rewrite IH by by rewrite <- app_assoc. rewrite <- (fmap_S_seq 1), <- list_fmap_compose.
  apply list_fmap_ext. intros i k _. cbn. by rewrite <- app_assoc.
Qed.
Lemma clean_nonempty p : clean p → Forall (λ x, x ≠ "") (parts_of p).
Proof. intros H. eapply Forall_impl; [exact H|]. unfold comp_ok. intros x Hx. by booleans. Qed.
Lemma prefixes_clean p :
  clean p → prefixes p = (λ k, str_join "/" (take k (parts_of p))) <$> seq 1 (length (parts_of p)).
Proof. intros H. apply (prefixes_from_join []). by apply clean_nonempty. Qed.
Lemma elem_of_prefixes p q :
  clean p → q ∈ prefixes p ↔
  ∃ k, (0 < k ≤ length (parts_of p))%nat ∧ q = str_join "/" (take k (parts_of p)).
Proof.
  intros H. rewrite prefixes_clean, list_elem_of_fmap by done. setoid_rewrite elem_of_seq.
  split; intros (k & ? & ?); exists k; (split; [lia || done|lia || done]).
Qed.
(** The last prefix is the path itself. *)
Lemma prefixes_last p : clean p → prefixes p = take (slashes p) (prefixes p) ++ [p].
Proof.
  intros H. rewrite prefixes_clean by done. unfold slashes. fold (parts_of p).
  pose proof (parts_nonempty p) as Hne. destruct (length (parts_of p)) as [|n] eqn:Hl.
  { by apply nil_length_inv in Hl. }
  rewrite seq_S, fmap_app. cbn [pred]. rewrite take_app_length' by by rewrite length_fmap, length_seq.
  f_equal. cbn. f_equal. rewrite firstn_all2 by lia. unfold parts_of. by rewrite join_split.
Qed.

(** ** What a pattern hits *)

(** A pattern matches the path or a directory on the way to it. *)
Definition hits (pattern p : string) : Prop :=
  ∃ q, q ∈ prefixes p ∧ matches (glob_tokens pattern) (chars q).
Lemma any_glob_Ok pattern paths b :
  any_glob pattern paths = Ok b → b = true ↔ ∃ q, q ∈ paths ∧ matches (glob_tokens pattern) (chars q).
Proof.
  revert b. induction paths as [|q paths IH]; intros b; cbn.
  - intros [= <-]. split; [done|]. by intros (q & ?%not_elem_of_nil & _).
  - destruct (glob pattern q) as [h|] eqn:Hg; [|done]. destruct (any_glob pattern paths) as [r|]; [|done].
    intros [= <-]. apply glob_correct in Hg. specialize (IH _ eq_refl). rewrite orb_true_iff, Hg, IH.
    setoid_rewrite elem_of_cons. naive_solver.
Qed.
Lemma hits_last pattern p :
  clean p → hits pattern p ↔ matches (glob_tokens pattern) (chars p)
    ∨ ∃ q, q ∈ take (slashes p) (prefixes p) ∧ matches (glob_tokens pattern) (chars q).
Proof.
  intros Hp. unfold hits. split.
  - intros (q & Hq & Hm). rewrite (prefixes_last p), elem_of_app, list_elem_of_singleton in Hq by done.
    naive_solver.
  - intros [Hm|(q & Hq & Hm)]; [exists p|exists q]; (split; [|done]);
      rewrite (prefixes_last p), elem_of_app, list_elem_of_singleton by done; auto.
Qed.
Lemma rule_hit pattern p d h :
  clean p → glob pattern p = Ok d →
  (if d then Ok true else any_glob pattern (take (slashes p) (prefixes p))) = Ok h →
  h = true ↔ hits pattern p.
Proof.
  intros Hp Hg Hh. rewrite hits_last by done. apply glob_correct in Hg. destruct d.
  - injection Hh as <-. naive_solver.
  - apply any_glob_Ok in Hh. rewrite Hh. naive_solver.
Qed.
(** An ignored path is hit by a rule that is no negation; a path no negation hits that another
    rule hits is ignored. *)
Lemma ignored_hit rules p yes :
  clean p → ignored_from rules p yes = Ok true →
  yes = true ∨ ∃ r, r ∈ rules ∧ r_negated r = false ∧ hits (r_pattern r) p.
Proof.
  intros Hp. revert yes. induction rules as [|r rules IH]; intros yes; cbn; [intros [= ->]; by left|].
  destruct (glob (r_pattern r) p) as [d|] eqn:Hg; [|done].
  destruct (if d then _ else _) as [h|] eqn:Hh; [|done]. apply (rule_hit _ _ _ _ Hp Hg) in Hh.
  intros [Hy|(r' & ? & ?)]%IH; [|right; exists r'; split; [by right|done]].
  destruct h; [|by left]. right. exists r. apply negb_true_iff in Hy. split; [by left|naive_solver].
Qed.
Lemma ignored_kept rules p yes b :
  clean p → ignored_from rules p yes = Ok b →
  (∀ r, r ∈ rules → r_negated r = true → ¬ hits (r_pattern r) p) →
  yes = true ∨ (∃ r, r ∈ rules ∧ r_negated r = false ∧ hits (r_pattern r) p) → b = true.
Proof.
  intros Hp. revert yes. induction rules as [|r rules IH]; intros yes; cbn.
  { intros [= <-] _ [?|(r & ?%not_elem_of_nil & _)]; done. }
  destruct (glob (r_pattern r) p) as [d|] eqn:Hg; [|done].
  destruct (if d then _ else _) as [h|] eqn:Hh; [|done]. apply (rule_hit _ _ _ _ Hp Hg) in Hh.
  intros Hi Hneg Hyes. eapply IH; [done|intros r' ?; apply Hneg; by right|].
  destruct h.
  - left. destruct (r_negated r) eqn:Hn; [|done]. exfalso. eapply (Hneg r); [left|done|naive_solver].
  - destruct Hyes as [?|(r' & [->|?]%elem_of_cons & ? & ?)]; [by left|naive_solver|right; eauto].
Qed.

(** ** Below a pruned directory *)

(** [p] is a context path below the directory [dir]. *)
Definition beneath (dir p : string) : Prop :=
  clean dir ∧ ∃ rest, clean rest ∧ p = dir +:+ "/" +:+ rest.
Lemma beneath_parts dir p : beneath dir p → ∃ rest, parts_of p = parts_of dir ++ rest ∧ rest ≠ [].
Proof.
  intros (_ & rest & _ & ->). exists (parts_of rest). split; [|apply parts_nonempty]. apply split_at.
Qed.
Lemma beneath_clean dir p : beneath dir p → clean p.
Proof.
  intros (Hd & rest & Hr & ->). unfold clean. change ("/" +:+ rest) with (String "/" rest).
  rewrite split_at. by apply Forall_app.
Qed.
(** What hits a directory hits everything below it. *)
Lemma hits_beneath pattern dir p : beneath dir p → hits pattern dir → hits pattern p.
Proof.
  intros Hb (q & Hq & Hm). exists q. split; [|done]. pose proof (beneath_clean _ _ Hb) as Hp.
  destruct (beneath_parts _ _ Hb) as (rest & Hparts & _). destruct Hb as [Hd _].
  apply elem_of_prefixes in Hq as (k & Hk & ->); [|done]. apply elem_of_prefixes; [done|]. exists k.
  rewrite Hparts, length_app. split; [lia|]. by rewrite take_app_le by lia.
Qed.
(** A pattern that hits a path below a directory reaches the directory. *)
Lemma hits_reaches pattern dir p b :
  plain_classes (chars pattern) = true → Forall (λ x, x ≠ "..") (parts_of pattern) →
  beneath dir p → hits pattern p → reaches (plain_parts (parts_of pattern)) (parts_of dir) = Ok b → b = true.
Proof.
  intros Hpl Hdd Hb (q & Hq & Hm). pose proof (beneath_clean _ _ Hb) as Hp.
  destruct (beneath_parts _ _ Hb) as (rest & Hparts & _).
  apply elem_of_prefixes in Hq as (k & Hk & ->); [|done].
  eapply (reaches_match (parts_of pattern) (take k (parts_of p))).
  - apply parts_nonempty.
  - intros H. apply (f_equal length) in H. rewrite length_take in H. cbn in H. lia.
  - apply parts_no_slash.
  - done.
  - by rewrite <- chars_parts.
  - by apply Forall_take.
  - destruct (decide (k ≤ length (parts_of dir))%nat).
    + left. rewrite Hparts, take_app_le by done. apply prefix_take.
    + right. rewrite Hparts, take_app_ge by lia. by exists (take (k - length (parts_of dir)) rest).
  - unfold glob_tokens in Hm. by rewrite chars_join, chars_parts in Hm.
Qed.

(** ** Normalized patterns *)

Lemma replace_id s : without "\" s = true → replace_byte "\" "/" s = s.
Proof.
  induction s as [|a s IH]; [done|]. cbn. intros H. apply andb_prop in H as [Ha Hs].
  apply negb_true_iff in Ha. by rewrite Ha, IH.
Qed.
Lemma replace_without s : without "\" (replace_byte "\" "/" s) = true.
Proof.
  induction s as [|a s IH]; [done|]. cbn. destruct (Ascii.eqb a "\") eqn:E; cbn; [done|]. by rewrite E.
Qed.
Lemma all_bytes_drop_leading f c s : all_bytes f s = true → all_bytes f (drop_leading c s) = true.
Proof.
  induction s as [|a s IH]; [done|]. cbn. intros H. destruct (Ascii.eqb a c); [|done].
  apply andb_prop in H as [_ ?]. by apply IH.
Qed.
Lemma ignore_rule_pattern raw r : ignore_rule raw = Some r → without "\" (r_pattern r) = true.
Proof.
  unfold ignore_rule. destruct (_ || _ || _); [done|]. case_bool_decide; [done|]. intros [= <-].
  cbn [r_pattern]. unfold trim_end_matches, without. rewrite all_bytes_str_reverse.
  apply all_bytes_drop_leading. rewrite all_bytes_str_reverse.
  apply all_bytes_drop_leading, replace_without.
Qed.
Lemma ignore_rules_patterns b : Forall (λ r, without "\" (r_pattern r) = true) (ignore_rules b).
Proof.
  apply Forall_forall. intros r Hr. unfold ignore_rules in Hr.
  apply list_elem_of_omap in Hr as (raw & _ & Hr). by eapply ignore_rule_pattern.
Qed.
Lemma plain_parts_id l :
  Forall (λ x, x ≠ "" ∧ x ≠ ".") l → plain_parts l = l.
Proof.
  unfold plain_parts. induction 1 as [|x l [H1 H2] _ IH]; [done|].
  by rewrite filterb_cons, IH, !bool_decide_false.
Qed.
Lemma rule_components pattern :
  without "\" pattern = true → Forall (λ x, x ≠ "..") (parts_of pattern) →
  components pattern = plain_parts (parts_of pattern).
Proof. intros Hw Hd. unfold components. rewrite replace_id by done. by apply (push_parts []). Qed.
Lemma clean_without p : clean p → without "\" p = true.
Proof.
  intros H. rewrite <- (join_split "/" p). unfold clean in H. induction H as [|x l Hx _ IH]; [done|].
  unfold comp_ok in Hx. booleans. destruct l as [|y l]; [done|].
  change (str_join "/" (x :: y :: l)) with (x +:+ "/" +:+ str_join "/" (y :: l)).
  by rewrite !without_app, IH, H0.
Qed.
Lemma clean_parts p :
  clean p → Forall (λ x, x ≠ "" ∧ x ≠ ".") (parts_of p) ∧ Forall (λ x, x ≠ "..") (parts_of p).
Proof.
  intros H. split; (eapply Forall_impl; [exact H|]); intros x Hx; unfold comp_ok in Hx; by booleans.
Qed.
Lemma dir_components dir : clean dir → components dir = parts_of dir.
Proof.
  intros Hd. destruct (clean_parts _ Hd). rewrite rule_components by (done || by apply clean_without).
  by apply plain_parts_id.
Qed.

(** The components of a source, and the pattern they make. *)
Definition source_pattern (s : string) : string := str_join "/" (components s).
Definition part_ok (x : string) : Prop := x ≠ "" ∧ x ≠ "." ∧ x ≠ ".." ∧ without "/" x = true.
Lemma components_ok s : Forall part_ok (components s).
Proof.
  unfold components.
  assert (∀ l acc, Forall (λ x, without "/" x = true) l → Forall part_ok acc → Forall part_ok (foldl push_part acc l)) as H.
  { induction l as [|x l IH]; intros acc Hl Ha; [done|]. apply Forall_cons in Hl as [Hx Hl]. cbn. apply IH; [done|].
    unfold push_part. case_bool_decide; [done|]. case_bool_decide; [done|]. cbn. case_bool_decide.
    - clear -Ha. induction Ha as [|y acc Hy Ha IH]; [constructor|]. destruct acc; cbn; [constructor|]. by constructor.
    - apply Forall_app. split; [done|]. by repeat constructor. }
  apply H; [apply parts_no_slash|constructor].
Qed.
Lemma source_parts s : components s ≠ [] → parts_of (source_pattern s) = components s.
Proof.
  intros Hn. apply split_join; [done|]. eapply Forall_impl; [apply components_ok|]. by intros x (_ & _ & _ & ?).
Qed.
Lemma drop_leading_parts s acc : acc = [] →
  foldl push_part acc (str_split "/" (drop_leading "/" s)) = foldl push_part acc (str_split "/" s).
Proof.
  intros ->. induction s as [|a s IH]; [done|]. cbn. destruct (Ascii.eqb a "/") eqn:E; [|by cbn; rewrite E].
  rewrite IH. done.
Qed.
Lemma source_matches_unfold s p :
  source_matches s p =
  let t := source_pattern s in
  if (t ==? "") || (t ==? ".") then Ok true
  else if contains_any "*?[" t then
    let? direct := glob t p in
    let? prefix := any_glob t (prefixes p) in
    Ok (direct || prefix)
  else Ok ((p ==? t) || starts_with (t +:+ "/") p).
Proof. unfold source_matches. rewrite drop_leading_parts by done. done. Qed.
Lemma contains_any_literal t :
  contains_any "*?[" t = false → matches (glob_tokens t) (chars t).
Proof.
  intros H. apply literal_matches.
  assert (without "*" t = true ∧ without "?" t = true ∧ without "[" t = true) as (H1 & H2 & H3).
  { induction t as [|a t IH]; [done|]. cbn in H. apply orb_false_iff in H as [Ha Ht].
    apply negb_false_iff in Ha. booleans. destruct (IH Ht) as (? & ? & ?). cbn. split_and!; apply andb_true_iff;
      (split; [|done]); apply negb_true_iff; done. }
  apply (chars_without "*") in H1; [|done]. apply (chars_without "?") in H2; [|done].
  apply (chars_without "[") in H3; [|done]. rewrite Forall_forall in H1, H2, H3 |- *.
  intros x Hx. specialize (H1 x Hx). specialize (H2 x Hx). by specialize (H3 x Hx).
Qed.
Lemma source_hits s p :
  clean p → components s ≠ [] → source_matches s p = Ok true → hits (source_pattern s) p.
Proof.
  intros Hp Hn. rewrite source_matches_unfold. cbn zeta.
  assert (p ∈ prefixes p) as Hself by (rewrite prefixes_last by done; apply elem_of_app; right; by left).
  assert (source_pattern s ≠ "" ∧ source_pattern s ≠ ".") as [H1 H2].
  { pose proof (source_parts s Hn) as Hps. pose proof (components_ok s) as Hok.
    split; intros Heq; rewrite Heq in Hps; cbn in Hps; rewrite <- Hps in Hok;
      apply Forall_cons in Hok as [(? & ? & _) _]; done. }
  rewrite !bool_decide_false by done. cbn [orb]. destruct (contains_any _ _) eqn:Hc.
  - destruct (glob _ p) as [d|] eqn:Hg; [|done]. destruct (any_glob _ _) as [h|] eqn:Hh; [|done].
    intros [= [->| ->]%orb_prop].
    + exists p. split; [done|]. by apply (glob_correct _ _ _ Hg).
    + by apply (any_glob_Ok _ _ _ Hh).
  - apply contains_any_literal in Hc. intros [= [Heq|Hpre]%orb_prop].
    + booleans. subst. by exists (source_pattern s).
    + unfold starts_with in Hpre. booleans. destruct Hpre as [t Ht]. apply strip_prefix_Some in Ht.
      exists (source_pattern s). split; [|done]. apply elem_of_prefixes; [done|].
      exists (length (components s)).
      assert (parts_of p = components s ++ parts_of t) as ->.
      { rewrite Ht, string_app_assoc. unfold parts_of. change ("/" +:+ t) with (String "/" t).
        rewrite split_at. f_equal. by apply source_parts. }
      rewrite length_app, take_app_length. split; [|done]. destruct (components s); [done|]. cbn. lia.
Qed.

(** ** The pruner is sound *)

(** The patterns the pruner reads part by part: no class spans a slash, and no part of an ignore
    rule is [..]. *)
Record plain_pruner (w : WalkPruner) : Prop := {
  pp_rules : Forall (λ r, without "\" (r_pattern r) = true) (wp_rules w);
  pp_classes : Forall (λ r, r_negated r = true → plain_classes (chars (r_pattern r)) = true) (wp_rules w);
  pp_dots : Forall (λ r, r_negated r = true → Forall (λ x, x ≠ "..") (parts_of (r_pattern r))) (wp_rules w);
  pp_sources : wp_sources w = filterb (λ c, negb (c ==? [])) (components <$> wp_source_patterns w);
  pp_source_classes :
    Forall (λ s, plain_classes (chars (source_pattern s)) = true) (wp_source_patterns w);
}.
Lemma any_reaches_false patterns dir :
  any_reaches patterns dir = Ok false → Forall (λ p, reaches p dir = Ok false) patterns.
Proof.
  induction patterns as [|p patterns IH]; [constructor|]. cbn.
  destruct (reaches p dir) as [[]|] eqn:E; [done| |done]. intros H. constructor; [done|by apply IH].
Qed.
(** Nothing below a pruned directory is protected, matches a source other than the whole
    context, or escapes the ignore rules. *)
Lemma prunes_beneath w dir p :
  plain_pruner w → prunes w dir = Ok true → beneath dir p →
  p ∉ wp_protected w
  ∧ (∀ b, ignored (wp_rules w) p = Ok b → b = true)
  ∧ (∀ s, s ∈ wp_source_patterns w → components s ≠ [] → source_matches s p ≠ Ok true).
Proof.
  intros [Hrules Hcl Hdots Hsrc Hscl] Hpr Hb. pose proof (beneath_clean _ _ Hb) as Hp.
  assert (clean dir) as Hd by apply Hb. unfold prunes in Hpr.
  case_bool_decide; [done|]. destruct (ignored (wp_rules w) dir) as [[]|] eqn:Hi; [|done..]. cbn [negb] in Hpr.
  destruct (existsb _ _) eqn:Hprot; [done|]. rewrite dir_components in Hpr by done.
  destruct (any_reaches _ _) as [[]|] eqn:Hneg; [done| |done].
  destruct (any_reaches (wp_sources w) _) as [[]|] eqn:Hsr; [done| |done].
  apply any_reaches_false in Hneg, Hsr. split_and!.
  - intros Hin. rewrite existsb_false_forall, Forall_forall in Hprot. specialize (Hprot p Hin).
    destruct Hb as (_ & rest & _ & ->). unfold starts_with in Hprot. booleans. apply Hprot.
    exists rest. rewrite <- string_app_assoc. apply strip_prefix_app.
  - intros b Hpb. eapply (ignored_kept _ p false); [done|done| |].
    + intros r Hr Hn Hh. rewrite Forall_forall in Hneg. rewrite Forall_forall in Hrules, Hcl, Hdots.
      specialize (Hneg (components (r_pattern r))). rewrite rule_components in Hneg by auto.
      assert (false = true); [|done]. eapply (hits_reaches (r_pattern r) dir p); [by auto|by auto|done|done|].
      apply Hneg. apply list_elem_of_fmap. exists r. split; [|by apply elem_of_filterb].
      unfold compose. symmetry. by apply rule_components; auto.
    + right. destruct (ignored_hit _ _ _ Hd Hi) as [?|(r & Hr & Hn & Hh)]; [done|].
      exists r. split_and!; [done|done|]. by eapply hits_beneath.
  - intros s Hs Hne Hm. apply source_hits in Hm; [|done|done].
    rewrite Forall_forall in Hsr. rewrite Forall_forall in Hscl. rewrite Hsrc in Hsr.
    assert (reaches (components s) (parts_of dir) = Ok false) as Hf.
    { apply Hsr. apply elem_of_filterb. split; [by rewrite bool_decide_false|]. by apply list_elem_of_fmap_2. }
    assert (false = true); [|done].
    eapply (hits_reaches (source_pattern s) dir p); [by auto| |done|done|].
    + rewrite source_parts by done. eapply Forall_impl; [apply components_ok|]. by intros x (_ & _ & ? & _).
    + rewrite source_parts by done. rewrite plain_parts_id; [done|].
      eapply Forall_impl; [apply components_ok|]. by intros x (? & ? & _).
Qed.

(** ** Selections *)

Lemma file_filter keep entries p :
  (∀ e, e ∈ entries → keep e = false → entry_path e ≠ p) → file (filterb keep entries) p = file entries p.
Proof.
  unfold file. induction entries as [|e entries IH]; intros H; [done|]. rewrite filterb_cons.
  specialize (IH (λ e' He', H e' ltac:(by right))). destruct (keep e) eqn:Hk.
  - cbn. destruct e as [q b x| |]; cbn; [|done..]. by case_bool_decide.
  - assert (entry_path e ≠ p) as Hp by (apply H; [left|done]).
    destruct e as [q b x| |]; cbn in *; [|done..]. by rewrite bool_decide_false.
Qed.
Lemma file_None keep entries p : file entries p = None → file (filterb keep entries) p = None.
Proof.
  unfold file. induction entries as [|e entries IH]; intros H; [done|]. rewrite filterb_cons.
  destruct (keep e).
  - destruct e as [q b x| |]; cbn in *; [|auto..]. case_bool_decide; [done|auto].
  - apply IH. destruct e as [q b x| |]; cbn in *; [|done..]. by case_bool_decide.
Qed.
Lemma file_elem entries p b : file entries p = Some b → ∃ e, e ∈ entries ∧ entry_path e = p.
Proof.
  unfold file. intros H. apply head_Some_elem_of in H.
  apply list_elem_of_omap in H as (e & He & H). exists e. split; [done|].
  destruct e; [|done..]. cbn in *. by case_bool_decide.
Qed.

(** What the selection decides of a path that is not protected. *)
Definition selects (rules : list Rule) (sources : list string) (all : bool) (p : string) :
    result DockerfileError bool :=
  let? hit := if all then Ok true else any_source_matches sources p in
  if hit : bool then let? out := ignored rules p in Ok (negb out) else Ok false.

Section selection.
Context `{DockerText} (keep : ContextEntry → bool).

Lemma select_entries_filter entries protected rules sources all sel :
  (∀ e, e ∈ entries → keep e = false →
     entry_path e ∉ protected ∧ selects rules sources all (entry_path e) ≠ Ok true) →
  select_entries entries protected rules sources all = Ok sel →
  select_entries (filterb keep entries) protected rules sources all = Ok sel.
Proof.
  revert sel. induction entries as [|e entries IH]; intros sel Hdrop; [done|].
  assert (∀ e', e' ∈ entries → keep e' = false →
     entry_path e' ∉ protected ∧ selects rules sources all (entry_path e') ≠ Ok true) as H'.
  { intros. apply Hdrop; [by right|done]. }
  rewrite filterb_cons. cbn [select_entries]. fold (selects rules sources all (entry_path e)).
  destruct (if bool_decide _ then _ else _) as [k|] eqn:Hk; [|done].
  destruct (select_entries entries _ _ _ _) as [rest|] eqn:Hrest; [|done]. intros [= <-].
  specialize (IH _ H' eq_refl). destruct (keep e) eqn:He.
  - cbn [select_entries]. fold (selects rules sources all (entry_path e)). by rewrite Hk, IH.
  - destruct (Hdrop e ltac:(left) He) as [Hp Hi]. rewrite bool_decide_false in Hk by done. by destruct k.
Qed.
Lemma source_present_Ok s entries b :
  source_present s entries = Ok b →
  (∀ e, e ∈ entries → ∃ h, source_matches s (entry_path e) = Ok h)
  ∧ (b = true ↔ ∃ e, e ∈ entries ∧ source_matches s (entry_path e) = Ok true).
Proof.
  revert b. induction entries as [|e entries IH]; intros b; cbn.
  - intros [= <-]. split; [by intros ? ?%not_elem_of_nil|]. split; [done|]. by intros (? & ?%not_elem_of_nil & _).
  - destruct (source_matches s _) as [h|] eqn:Hh; [|done]. destruct (source_present s entries) as [r|]; [|done].
    intros [= <-]. destruct (IH _ eq_refl) as [Hall Hr]. split.
    + intros e' [->|?]%elem_of_cons; [by exists h|by apply Hall].
    + rewrite orb_true_iff, Hr. setoid_rewrite elem_of_cons. split.
      * intros [->|(e' & ? & ?)]; eauto.
      * intros (e' & [->|?] & He'); [left; congruence|right; eauto].
Qed.
Lemma source_present_total s entries :
  (∀ e, e ∈ entries → ∃ h, source_matches s (entry_path e) = Ok h) → ∃ b, source_present s entries = Ok b.
Proof.
  induction entries as [|e entries IH]; intros Hall; [by eexists|]. cbn.
  destruct (Hall e) as [h ->]; [left|]. destruct IH as [b ->]; [intros; apply Hall; by right|]. by eexists.
Qed.
Lemma source_present_filter s entries b :
  (b = true → (∃ e, e ∈ filterb keep entries ∧ source_matches s (entry_path e) = Ok true)) →
  source_present s entries = Ok b → source_present s (filterb keep entries) = Ok b.
Proof.
  intros Hb Hp. apply source_present_Ok in Hp as [Hall Hiff].
  destruct (source_present_total s (filterb keep entries)) as [b' Hb'].
  { intros e [_ He]%elem_of_filterb. by apply Hall. }
  rewrite Hb'. f_equal. apply source_present_Ok in Hb' as [_ Hiff'].
  destruct b, b'; try done.
  - discriminate (proj2 Hiff' (Hb eq_refl)).
  - destruct (proj1 Hiff' eq_refl) as (e & [_ He]%elem_of_filterb & Hm).
    discriminate (proj2 Hiff (ex_intro _ e (conj He Hm))).
Qed.
Lemma glob_limit p s e : glob p s = Err e → ∃ what, e = ResourceLimit what.
Proof. unfold glob, refuse. repeat case_match; intros; simplify_eq; eauto. Qed.
Lemma any_glob_limit t l e : any_glob t l = Err e → ∃ what, e = ResourceLimit what.
Proof.
  induction l as [|q l IH]; cbn; [done|]. destruct (glob t q) as [|e'] eqn:E.
  - destruct (any_glob t l) as [|e']; [done|]. intros [= ->]. by apply IH.
  - intros [= ->]. by apply glob_limit in E.
Qed.
Lemma source_matches_limit s p e : source_matches s p = Err e → ∃ what, e = ResourceLimit what.
Proof.
  rewrite source_matches_unfold. cbn zeta. destruct (_ || _); [done|]. destruct (contains_any _ _); [|done].
  destruct (glob _ p) as [|e'] eqn:E; [|intros [= ->]; by apply glob_limit in E].
  destruct (any_glob _ _) eqn:E'; [done|]. intros [= ->]. by apply any_glob_limit in E'.
Qed.
Lemma ignored_limit rules p yes e : ignored_from rules p yes = Err e → ∃ what, e = ResourceLimit what.
Proof.
  revert yes. induction rules as [|r rules IH]; intros yes; cbn; [done|].
  destruct (glob _ p) as [d|e'] eqn:E; [|intros [= ->]; by apply glob_limit in E].
  destruct (if d then _ else _) as [h|e'] eqn:E'; [apply IH|]. intros [= ->].
  destruct d; [done|]. by apply any_glob_limit in E'.
Qed.
Lemma select_entries_limit entries protected rules sources all e :
  select_entries entries protected rules sources all = Err e → ∃ what, e = ResourceLimit what.
Proof.
  assert (∀ p e, any_source_matches sources p = Err e → ∃ what, e = ResourceLimit what) as Hany.
  { clear. intros p e. induction sources as [|s sources IH]; cbn; [done|].
    destruct (source_matches s p) as [[]|] eqn:E; [done|done|]. intros [= ->]. by apply source_matches_limit in E. }
  induction entries as [|x entries IH]; cbn; [done|].
  destruct (if bool_decide _ then _ else _) as [k|e'] eqn:Hk.
  - destruct (select_entries entries _ _ _ _); [done|]. intros [= ->]. by apply IH.
  - intros [= ->]. case_bool_decide; [done|]. destruct (if all then _ else _) as [[]|] eqn:Ha; [|done|].
    + destruct (ignored rules _) eqn:Hi; [done|]. injection Hk as ->. by eapply ignored_limit.
    + injection Hk as ->. destruct all; [done|]. by eapply Hany.
Qed.
Lemma source_present_limit s entries e :
  source_present s entries = Err e → ∃ what, e = ResourceLimit what.
Proof.
  induction entries as [|x entries IH]; cbn; [done|]. destruct (source_matches s _) as [|e'] eqn:E.
  - destruct (source_present s entries); [done|]. intros [= ->]. by apply IH.
  - intros [= ->]. by apply source_matches_limit in E.
Qed.
Lemma check_sources_filter sources entries r :
  (∀ s e, s ∈ sources → e ∈ entries → source_matches s (entry_path e) = Ok true →
     ∃ e', e' ∈ filterb keep entries ∧ source_matches s (entry_path e') = Ok true) →
  (∀ what, r ≠ Err (ResourceLimit what)) →
  check_sources sources entries = r → check_sources sources (filterb keep entries) = r.
Proof.
  intros Hs Hr. induction sources as [|s sources IH]; [done|]. cbn.
  destruct (source_present s entries) as [b|e] eqn:Hp.
  - assert (source_present s (filterb keep entries) = Ok b) as ->.
    { apply source_present_filter; [|done]. intros ->. apply source_present_Ok in Hp as [_ Hp].
      destruct (proj1 Hp eq_refl) as (e & He & Hm). eapply Hs; [by left|done|done]. }
    destruct b; [|done]. apply IH. intros s' e Hs'. apply Hs. by right.
  - apply source_present_limit in Hp as [what ->]. intros <-. by destruct (Hr what).
Qed.

(** The patterns of a build that the pruner reads part by part. *)
Record plain_patterns (w : WalkPruner) : Prop := {
  pl_classes : Forall (λ r, r_negated r = true → plain_classes (chars (r_pattern r)) = true) (wp_rules w);
  pl_dots : Forall (λ r, r_negated r = true → Forall (λ x, x ≠ "..") (parts_of (r_pattern r))) (wp_rules w);
  pl_sources : Forall (λ s, plain_classes (chars (source_pattern s)) = true) (wp_source_patterns w);
}.
Lemma new_pruner dockerfile df ignore w :
  WalkPruner_new dockerfile df ignore = Ok w →
  ∃ sources all, local_sources df = Ok (sources, all) ∧ is_utf8 df = true
    ∧ wp_source_patterns w = sources ∧ wp_all w = all
    ∧ wp_sources w = filterb (λ c, negb (c ==? [])) (components <$> sources)
    ∧ wp_protected w = dockerfile :: match ignore with Some (name, _) => [name] | None => [] end
    ∧ wp_rules w = match ignore with Some (_, b) => ignore_rules b | None => [] end
    ∧ match ignore with Some (_, b) => is_utf8 b = true | None => True end.
Proof.
  unfold WalkPruner_new, from_utf8. intros Hn. destruct (is_utf8 df) eqn:Hu; [|done]. cbn [ok_or] in Hn.
  destruct ignore as [[name b]|].
  - destruct (is_utf8 b) eqn:Hb; [|done]. cbn [ok_or] in Hn.
    destruct (local_sources df) as [[sources all]|] eqn:Hs; [|done]. injection Hn as <-.
    exists sources, all. by split_and!.
  - destruct (local_sources df) as [[sources all]|] eqn:Hs; [|done]. injection Hn as <-.
    exists sources, all. by split_and!.
Qed.
Lemma new_pruner_plain dockerfile df ignore w :
  WalkPruner_new dockerfile df ignore = Ok w → plain_patterns w → plain_pruner w.
Proof.
  intros Hn [Hc Hd Hs]. destruct (new_pruner _ _ _ _ Hn) as (sources & all & _ & _ & Hp & _ & Hsrc & _ & Hr & _).
  split; try done; [|by rewrite Hsrc, Hp]. rewrite Hr. destruct ignore as [[]|]; [apply ignore_rules_patterns|constructor].
Qed.

(** The Dockerfile and the ignore file stay in use when no protected entry is dropped. *)
Lemma dropping_keeps_policy entries dockerfile fallback df w :
  file entries dockerfile = Some df →
  WalkPruner_new dockerfile df (pruner_ignore entries dockerfile fallback) = Ok w →
  (∀ e, e ∈ entries → keep e = false → entry_path e ∉ wp_protected w) →
  file (filterb keep entries) dockerfile = Some df
  ∧ ignore_file (filterb keep entries) dockerfile = ignore_file entries dockerfile.
Proof.
  intros Hdf Hw Hlost. destruct (new_pruner _ _ _ _ Hw) as (_ & _ & _ & _ & _ & _ & _ & Hprot & _).
  assert (∀ p b, p ∈ wp_protected w → file entries p = Some b → file (filterb keep entries) p = Some b) as Hfile.
  { intros p b Hp <-. apply file_filter. intros e He Hk <-. by apply (Hlost e). }
  split; [apply Hfile; [rewrite Hprot; left|done]|]. unfold pruner_ignore in Hprot. unfold ignore_file in *.
  destruct (file entries (dockerfile +:+ ".dockerignore")) as [b|] eqn:Hspec.
  - rewrite (Hfile _ b); [done| |done]. rewrite Hprot. right. left.
  - rewrite file_None by done. destruct (file entries ".dockerignore") as [b|] eqn:Hroot.
    + rewrite (Hfile _ b); [done| |done]. rewrite Hprot. right. left.
    + by rewrite file_None.
Qed.
(** A selection does not need an entry that is not selected, as long as every source it matches
    is matched by an entry that stays. *)
Lemma dropping_keeps_selection entries dockerfile fallback df w outcome :
  file entries dockerfile = Some df →
  WalkPruner_new dockerfile df (pruner_ignore entries dockerfile fallback) = Ok w →
  (∀ e, e ∈ entries → keep e = false →
     entry_path e ∉ wp_protected w
     ∧ selects (wp_rules w) (wp_source_patterns w) (wp_all w) (entry_path e) ≠ Ok true
     ∧ ∀ s, s ∈ wp_source_patterns w → source_matches s (entry_path e) = Ok true →
         ∃ e', e' ∈ filterb keep entries ∧ source_matches s (entry_path e') = Ok true) →
  select_context_with entries dockerfile fallback = outcome →
  (∀ what, outcome ≠ Err (ResourceLimit what)) →
  select_context_with (filterb keep entries) dockerfile fallback = outcome.
Proof.
  intros Hdf Hw Hlost Hsel Hout.
  destruct (new_pruner _ _ _ _ Hw) as (sources & all & Hsrc & Hutf & Hpat & Hall & _ & Hprot & Hrules & Higutf).
  destruct (dropping_keeps_policy _ _ _ _ _ Hdf Hw) as [Hdf' Hig]; [intros e He Hk; by apply Hlost|].
  unfold select_context_with in *. rewrite Hdf in Hsel. rewrite Hdf', Hig. cbn [ok_or] in *.
  unfold from_utf8 in *. rewrite Hutf in *. cbn [ok_or] in *.
  destruct (match ignore_file entries dockerfile with Some _ => _ | None => _ end) as [rules|e] eqn:Hr;
    [|by destruct e].
  assert (rules = wp_rules w) as ->.
  { rewrite Hrules. unfold pruner_ignore in *. destruct (ignore_file entries dockerfile) as [[name b]|].
    - rewrite Higutf in Hr. by injection Hr as <-.
    - injection Hr as <-. by destruct fallback. }
  rewrite Hsrc in Hsel |- *. cbn [fst snd] in *.
  set (protected := dockerfile :: _) in *.
  assert (∀ x, x ∈ protected → x ∈ wp_protected w) as Hsub.
  { intros x Hx. rewrite Hprot. unfold protected in Hx. unfold pruner_ignore.
    destruct (ignore_file entries dockerfile) as [[name b]|]; [done|].
    apply list_elem_of_singleton in Hx as ->. left. }
  destruct (select_entries entries _ _ _ _) as [sel|e] eqn:Hse.
  - rewrite (select_entries_filter _ _ _ _ _ sel); [|..|done].
    + rewrite (check_sources_filter sources entries (check_sources sources entries)); [done|..|done].
      * intros s e Hs He Hm. destruct (keep e) eqn:Hk; [exists e; split; [by apply elem_of_filterb|done]|].
        destruct (Hlost e He Hk) as (_ & _ & Hex). apply Hex; [by rewrite Hpat|done].
      * intros what Heq. rewrite Heq in Hsel. by apply (Hout what).
    + intros e He Hk. destruct (Hlost e He Hk) as (Hn & Hi & _). split; [by intros ?%Hsub|].
      by rewrite Hpat, Hall in Hi.
  - apply select_entries_limit in Hse as [what ->]. subst outcome. by destruct (Hout what).
Qed.
(** What lies below a pruned directory may be dropped. *)
Lemma pruned_is_droppable entries df_path df ignore w e dir :
  WalkPruner_new df_path df ignore = Ok w → plain_patterns w → prunes w dir = Ok true →
  beneath dir (entry_path e) → (∃ e', e' ∈ filterb keep entries) →
  entry_path e ∉ wp_protected w
  ∧ selects (wp_rules w) (wp_source_patterns w) (wp_all w) (entry_path e) ≠ Ok true
  ∧ ∀ s, s ∈ wp_source_patterns w → source_matches s (entry_path e) = Ok true →
      ∃ e', e' ∈ filterb keep entries ∧ source_matches s (entry_path e') = Ok true.
Proof.
  intros Hw Hpl Hd Hb [e' He']. pose proof (new_pruner_plain _ _ _ _ Hw Hpl) as Hplain.
  destruct (prunes_beneath _ _ _ Hplain Hd Hb) as (Hn & Hi & Hs). split_and!; [done|..].
  - unfold selects. destruct (if wp_all w then _ else _) as [[]|]; [|done|done].
    destruct (ignored _ _) as [b|]; [|done]. by rewrite (Hi b eq_refl).
  - intros s Hin Hm. exists e'. split; [done|]. destruct (decide (components s = [])) as [Hnil|Hne].
    + rewrite source_matches_unfold. unfold source_pattern. by rewrite Hnil.
    + by destruct (Hs s Hin Hne).
Qed.

(** Skipping the walk below pruned directories never changes the outcome: leave out any entries
    that lie below directories the pruner of this build prunes, and the selection is the same,
    entry by entry, and a source that is missing is missing still. The patterns' classes must
    not span a slash, and negated ignore rules must have no [..] part. *)
Theorem pruning_keeps_selection entries dockerfile fallback df w outcome :
  file entries dockerfile = Some df →
  WalkPruner_new dockerfile df (pruner_ignore entries dockerfile fallback) = Ok w →
  plain_patterns w →
  (∀ e, e ∈ entries → keep e = false → ∃ dir, prunes w dir = Ok true ∧ beneath dir (entry_path e)) →
  select_context_with entries dockerfile fallback = outcome →
  (∀ what, outcome ≠ Err (ResourceLimit what)) →
  select_context_with (filterb keep entries) dockerfile fallback = outcome.
Proof.
  intros Hdf Hw Hpl Hdrop Hsel Hout. eapply dropping_keeps_selection; [done|done| |done|done].
  intros e He Hk. destruct (Hdrop e He Hk) as (dir & Hd & Hb). eapply pruned_is_droppable; try done.
  destruct (file_elem _ _ _ Hdf) as (e' & He' & Heq). exists e'. apply elem_of_filterb. split; [|done].
  destruct (keep e') eqn:Hk'; [done|]. destruct (Hdrop e' He' Hk') as (dir' & Hd' & Hb').
  pose proof (new_pruner_plain _ _ _ _ Hw Hpl) as Hplain.
  destruct (prunes_beneath _ _ _ Hplain Hd' Hb') as [Hn _]. destruct Hn.
  destruct (new_pruner _ _ _ _ Hw) as (? & ? & _ & _ & _ & _ & _ & -> & _). rewrite Heq. left.
Qed.
End selection.

(** ** Examples *)

#[local] Instance sample_text : DockerText := {| parse_strings := λ _, None; debug := λ s, s |}.
Definition nl : string := String "010" "".
Definition lines_text (l : list string) : string := str_join nl l.
Definition sample_dockerfile : string := lines_text ["FROM alpine"; "COPY src /src"; "COPY . /all"].
Definition sample_entries (ignore : list string) (paths : list string) : list ContextEntry :=
  [File "Dockerfile" sample_dockerfile false; File ".dockerignore" (lines_text ignore) false;
   Directory "src"; File "src/main" "m" false] ++ ((λ p, File p "x" false) <$> paths).
Definition sample_pruner (entries : list ContextEntry) : WalkPruner :=
  match WalkPruner_new "Dockerfile" sample_dockerfile (pruner_ignore entries "Dockerfile" None) with
  | Ok w => w
  | Err _ => {| wp_rules := []; wp_sources := []; wp_source_patterns := []; wp_all := false; wp_protected := [] |}
  end.
Definition target_entries : list ContextEntry :=
  sample_entries ["target"; "!*.md"; "docs/**"] ["target/debug/a"; "target/b"; "README.md"; "docs/x"].
Definition outside_target (e : ContextEntry) : bool := negb (starts_with "target/" (entry_path e)).

Lemma pruning_keeps_selection_witness :
  select_context_with (filterb outside_target target_entries) "Dockerfile" None
  = select_context_with target_entries "Dockerfile" None
  ∧ length (filterb outside_target target_entries) = 6%nat ∧ length target_entries = 8%nat.
Proof.
  split_and!; [|by vm_compute|by vm_compute].
  apply (pruning_keeps_selection outside_target target_entries "Dockerfile" None sample_dockerfile
    (sample_pruner target_entries)).
  - by vm_compute.
  - by vm_compute.
  - split; by repeat constructor.
  - intros e He Hk. exists "target". split; [by vm_compute|]. split; [by repeat constructor|].
    unfold target_entries, sample_entries in He. cbn in He.
    repeat (apply elem_of_cons in He as [->|He]; [first [by vm_compute in Hk|
      eexists; split; [|vm_compute; reflexivity]; by repeat constructor]|]).
    by apply not_elem_of_nil in He.
  - done.
  - intros what. by vm_compute.
Defined.

(** A negated rule with a class that spans a slash keeps [d/abe/f], but the pruner splits the
    class into two parts, finds that it cannot reach [d/abe], and skips the directory: the walk
    loses a file the build uses. *)
Definition spanning_entries : list ContextEntry :=
  sample_entries ["d"; "!d/a[b/c]e/f"] ["d/abe/f"].
Theorem pruning_loses_a_file :
  prunes (sample_pruner spanning_entries) "d/abe" = Ok true
  ∧ (∃ sel, select_context_with spanning_entries "Dockerfile" None = Ok sel
      ∧ "d/abe/f" ∈ entry_path <$> sel)
  ∧ ∃ sel, select_context_with (removelast spanning_entries) "Dockerfile" None = Ok sel
      ∧ "d/abe/f" ∉ entry_path <$> sel.
Proof.
  split_and!; [by vm_compute|..].
  - eexists. split; [vm_compute; reflexivity|]. cbn. set_solver.
  - eexists. split; [vm_compute; reflexivity|]. cbn. set_solver.
Qed.
