(* ===== verification/Manifest.v ===== *)
(** * Manifest: the stacks and tasks a workspace declares

    [bosn-core/src/manifest.rs] and [manifest/modes.rs]: from the parsed TOML document to the typed
    manifest, with every check. The TOML parser is the [toml] crate (its [Value] is the input
    here); the [Debug] text of a string and the decimal text of a float are parameters. *)

From Stdlib Require Import Ascii SpecFloat.
From stdpp Require Import pretty.
From S2P Require Export Json Labels.

Local Open Scope string_scope.
Local Open Scope list_scope.
Local Open Scope Z_scope.
Local Open Scope bosn_scope.

(** ** TOML values *)

(** The variants of [toml::Value]; a table lists its entries in key order, each key once. *)
Inductive Toml :=
| TString (s : string)
| TInteger (i : Z)
| TFloat (f : f64)
| TBoolean (b : bool)
| TDatetime (text : string)
| TArray (items : list Toml)
| TTable (entries : list (string * Toml)).
Notation Table := (list (string * Toml)).
Definition as_table (v : Toml) : option Table := match v with TTable t => Some t | _ => None end.
Definition as_str (v : Toml) : option string := match v with TString s => Some s | _ => None end.
Definition as_bool (v : Toml) : option bool := match v with TBoolean b => Some b | _ => None end.
Definition as_integer (v : Toml) : option Z := match v with TInteger i => Some i | _ => None end.
Definition as_array (v : Toml) : option (list Toml) := match v with TArray a => Some a | _ => None end.

(** [Debug] of a string and [Display] of a finite float. *)
Class ManifestText := { debug_str : string → string; float_str : f64 → string }.

(** ** The manifest *)

Inductive MountMode := Rw | Ro | Overlay.
#[global] Instance MountMode_eq_dec : EqDecision MountMode.
Proof. solve_decision. Defined.
Definition MountMode_parse (v : string) : option MountMode :=
  if v ==? "rw" then Some Rw else if v ==? "ro" then Some Ro
  else if v ==? "overlay" then Some Overlay else None.
Definition MountMode_as_str (m : MountMode) : string :=
  match m with Rw => "rw" | Ro => "ro" | Overlay => "overlay" end.
Inductive OverlayUpper := Tmpfs | UpperVolume (name : string).
#[global] Instance OverlayUpper_eq_dec : EqDecision OverlayUpper.
Proof. solve_decision. Defined.
Definition OverlayUpper_parse (v : string) : OverlayUpper := if v ==? "tmpfs" then Tmpfs else UpperVolume v.
Inductive VolumeMode := Exclusive | Shared.
Definition VolumeMode_parse (v : string) : option VolumeMode :=
  if v ==? "exclusive" then Some Exclusive else if v ==? "shared" then Some Shared else None.
Definition VolumeMode_as_str (m : VolumeMode) : string :=
  match m with Exclusive => "exclusive" | Shared => "shared" end.
Definition VolumeMode_default_for (s : Scope) : VolumeMode :=
  match s with Machine => Shared | Spec | Stack => Exclusive end.

Record ManifestRoots := {
  mr_source_provenance : string; mr_materialization_root : string; mr_workspace_root : string }.
Record JobCache := {
  jc_name : string; jc_volume : option string; jc_destination : option string; jc_scope : string;
  jc_mode : string; jc_replicas : Z }.
Record Volume := {
  v_name : string; v_scope : Scope; v_destination : option string; v_retention : Retention;
  v_mode : VolumeMode }.
Record Mount := {
  m_name : string; m_source : string; m_destination : string; m_mode : MountMode;
  m_upper : option OverlayUpper }.
Record TmpfsMount := { t_value : string; t_destination : string; t_readwrite : bool }.
Record Task := {
  tk_name : string; tk_stack : string; tk_cmd : string; tk_secrets : list string;
  tk_github_api_proxy : bool; tk_keep : bool }.
Record Guest := {
  g_ssh_port : Z; g_ssh_user : string; g_ssh_host : string; g_web_port : Z; g_ready_timeout : Z;
  g_ready_poll_interval : Z; g_version : string; g_ram_size : string; g_disk_size : string;
  g_cpu_cores : option Z; g_payload : option string; g_payload_destination : string }.
#[global] Instance Guest_eq_dec : EqDecision Guest.
Proof. solve_decision. Defined.
Record ManifestStack := {
  s_name : string; s_dockerfile : option string; s_image : option string; s_family : option string;
  s_default : bool; s_volumes : list Volume; s_mounts : list Mount; s_tmpfs : list TmpfsMount;
  s_env : list (string * string); s_workdir : option string; s_kind : option string;
  s_guest : option Guest; s_acknowledge_macos_license : bool; s_job_caches : list JobCache;
  s_default_target_volume : bool }.
(** The maps of a manifest list their entries in key order. *)
Record Manifest := {
  mf_roots : ManifestRoots; mf_stacks : list (string * ManifestStack); mf_tasks : list (string * Task) }.

Definition MANIFEST_TASK_SECRETS : list (string * string) := [("github_token", "GITHUB_TOKEN")].
Definition RESERVED_PREFIX : string := "/bosn/".
Definition RESERVED_HEARTBEAT : string := "/bosn-daemon/heartbeat".
Definition Guest_default : Guest :=
  {| g_ssh_port := 2222; g_ssh_user := "runner"; g_ssh_host := "127.0.0.1"; g_web_port := 8006;
     g_ready_timeout := 1800; g_ready_poll_interval := 10; g_version := "ventura"; g_ram_size := "8G";
     g_disk_size := "128G"; g_cpu_cores := None; g_payload := None;
     g_payload_destination := "~/bosn-payload" |}.
Definition mount_at (v : Volume) : string := default ("/bosn/" +:+ v_name v) (v_destination v).

(** [iter().map(f).collect::<Result<Vec<_>, _>>()]: the first error wins. *)
Fixpoint collect_results {A B} (f : A → result string B) (l : list A) : result string (list B) :=
  match l with
  | [] => Ok []
  | x :: l => let? y := f x in let? ys := collect_results f l in Ok (y :: ys)
  end.

Section parse.
Context `{ManifestText}.

(** ** Reading a table *)

Definition bracketed (where_ text : string) : string := "[" +:+ where_ +:+ "]" +:+ text.
Definition quoted (s : string) : string := String "034" s +:+ String "034" "".
Definition table_value (v : Toml) (kind : string) : result string Table :=
  ok_or (as_table v) (kind +:+ " must be a table").
Definition string_value (v : Toml) (where_ : string) : result string string :=
  ok_or (as_str v) (bracketed where_ " must be a string").
(** [Option::map] and [transpose]. *)
Definition transposed {A B} (o : option A) (f : A → result string B) : result string (option B) :=
  match o with None => Ok None | Some a => let? b := f a in Ok (Some b) end.
Definition optional_string (t : Table) (key where_ : string) : result string (option string) :=
  transposed (tree_get key t) (λ v, string_value v where_).
Definition required_string (t : Table) (key where_ : string) : result string string :=
  let? v := ok_or (tree_get key t) (bracketed where_ (" must set `" +:+ key +:+ "`")) in
  string_value v where_.
Definition optional_bool (t : Table) (key where_ : string) : result string (option bool) :=
  transposed (tree_get key t) (λ v, ok_or (as_bool v) (bracketed where_ " must be a boolean")).
Definition optional_table (t : Table) (key where_ : string) : result string Table :=
  match tree_get key t with
  | None => Ok []
  | Some v => ok_or (as_table v) (bracketed (where_ +:+ "." +:+ key) " must be a table")
  end.
Definition reject_unknown (t : Table) (allowed : list string) (where_ : string) : result string unit :=
  match head (filterb (λ k, negb (existsb (String.eqb k) allowed)) t.*1) with
  | Some key => Err (bracketed where_ (" has unknown key " +:+ debug_str key))
  | None => Ok tt
  end.

(** ** Paths in the container *)

(** The lexical normalization of an absolute path. *)
Definition push_component (components : list string) (part : string) : list string :=
  if (part ==? "") || (part ==? ".") then components
  else if part ==? ".." then removelast components else components ++ [part].
Definition lexical_absolute (value : string) : string :=
  "/" +:+ str_join "/" (foldl push_component [] (str_split "/" value)).
Definition destination (value what name : string) : result string string :=
  let? _ := refuse (negb (starts_with "/" value))
    (what +:+ " " +:+ debug_str name +:+ " has destination " +:+ debug_str value
     +:+ "; it must be an absolute path") in
  let normalized := lexical_absolute value in
  let? _ := refuse ((normalized ==? "/") || (normalized ==? "/bosn")
      || starts_with RESERVED_PREFIX normalized || (RESERVED_HEARTBEAT ==? normalized)
      || starts_with (normalized +:+ "/") RESERVED_HEARTBEAT
      || starts_with (RESERVED_HEARTBEAT +:+ "/") normalized)
    (what +:+ " " +:+ debug_str name +:+ " would mount inside bosn's reserved namespace") in
  Ok normalized.
Definition workdir (value name : string) : result string string :=
  let? _ := refuse (negb (starts_with "/" value))
    ("workdir " +:+ debug_str name +:+ " has destination " +:+ debug_str value
     +:+ "; it must be an absolute path") in
  let normalized := lexical_absolute value in
  let? _ := refuse ((normalized ==? "/bosn") || starts_with RESERVED_PREFIX normalized
      || (normalized ==? RESERVED_HEARTBEAT) || starts_with (RESERVED_HEARTBEAT +:+ "/") normalized)
    ("workdir " +:+ debug_str name +:+ " would use bosn's reserved namespace") in
  Ok normalized.

(** ** Volumes, mounts and tmpfs *)

Definition unsafe_name_byte (a : ascii) : bool :=
  Ascii.eqb a "/" || Ascii.eqb a "\" || Ascii.eqb a "000".
Definition parse_volume (entry : string * Toml) : result string Volume :=
  let '(name, v) := entry in
  let? t := table_value v "volume" in
  let? _ := reject_unknown t ["scope"; "destination"; "retention"; "mode"] "volume" in
  let? _ := refuse ((name ==? "") || (name ==? ".") || (name ==? "..")
      || negb (all_bytes (λ a, negb (unsafe_name_byte a)) name))
    ("volume " +:+ debug_str name +:+ " must be a single safe path component") in
  let? scope_text := optional_string t "scope" "volume" in
  let? scope :=
    let text := default "spec" scope_text in
    if text ==? "spec" then Ok Spec else if text ==? "stack" then Ok Stack
    else if text ==? "machine" then Ok Machine
    else Err ("volume " +:+ debug_str name +:+ " has unknown scope " +:+ debug_str text) in
  let? retention_text := optional_string t "retention" "volume" in
  let? retention :=
    let text := default "warm" retention_text in
    if text ==? "warm" then Ok Warm else if text ==? "pinned" then Ok Pinned
    else Err ("volume " +:+ debug_str name +:+ " has unknown retention " +:+ debug_str text) in
  let? mode_text := optional_string t "mode" "volume" in
  let? mode :=
    match mode_text with
    | None => Ok (VolumeMode_default_for scope)
    | Some value => ok_or (VolumeMode_parse value)
        ("volume " +:+ debug_str name +:+ " `mode` must be exclusive or shared, not " +:+ debug_str value)
    end in
  let? dest_text := optional_string t "destination" "volume" in
  let? dest := transposed dest_text (λ d, destination d "volume" name) in
  Ok {| v_name := name; v_scope := scope; v_destination := dest; v_retention := retention; v_mode := mode |}.
Definition parse_volumes (raw : Table) : result string (list Volume) := collect_results parse_volume raw.

Definition mount_mode (stack name : string) (t : Table) (volumes : list Volume) :
    result string (MountMode * option OverlayUpper) :=
  let where_ := "stack." +:+ stack +:+ ".mounts." +:+ name in
  let? readonly := optional_bool t "readonly" where_ in
  let? mode_text := optional_string t "mode" where_ in
  let? mode := transposed mode_text (λ value, ok_or (MountMode_parse value)
    (bracketed where_ (" `mode` must be rw, ro or overlay, not " +:+ debug_str value))) in
  let? mode :=
    match mode, readonly with
    | Some mode, None => Ok mode
    | None, readonly => Ok (if readonly ==? Some true then Ro else Rw)
    | Some mode, Some readonly =>
        if bool_decide ((mode ==? Ro) = readonly) then Ok mode
        else Err (bracketed where_ (" `readonly = " +:+ (if readonly then "true" else "false")
               +:+ "` contradicts `mode = " +:+ debug_str (MountMode_as_str mode) +:+ "`"))
    end in
  let? upper_text := optional_string t "upper" where_ in
  match OverlayUpper_parse <$> upper_text, mode with
  | Some _, Rw | Some _, Ro => Err (bracketed where_ (" `upper` is valid only with mode = " +:+ quoted "overlay"))
  | Some (UpperVolume volume), Overlay =>
      if existsb (λ v, v_name v ==? volume) volumes then Ok (mode, Some (UpperVolume volume))
      else Err (bracketed where_ (" `upper` names " +:+ debug_str volume
             +:+ ", which is not a volume of this stack"))
  | None, Overlay => Ok (mode, Some Tmpfs)
  | upper, _ => Ok (mode, upper)
  end.
Definition parse_mount (stack : string) (volumes : list Volume) (entry : string * Toml) : result string Mount :=
  let '(name, v) := entry in
  let? t := table_value v "mount" in
  let? _ := reject_unknown t ["source"; "destination"; "readonly"; "mode"; "upper"] "mount" in
  let? source := required_string t "source" ("stack." +:+ stack +:+ ".mounts." +:+ name) in
  let? _ := refuse (source ==? "") ("mount " +:+ debug_str name +:+ " must set `source`") in
  let? dest := required_string t "destination" "mount" in
  let? mu := mount_mode stack name t volumes in
  let? dest := destination dest "mount" name in
  Ok {| m_name := name; m_source := source; m_destination := dest; m_mode := mu.1; m_upper := mu.2 |}.
Definition parse_mounts (stack : string) (raw : Table) (volumes : list Volume) : result string (list Mount) :=
  collect_results (parse_mount stack volumes) raw.
(** The last of the options [ro] and [rw] is [ro]. *)
Definition read_only (options : string) : bool :=
  head (filterb (λ x, (x ==? "ro") || (x ==? "rw")) (rev (str_split "," options))) ==? Some "ro".
Definition parse_tmpfs_entry (stack : string) (v : Toml) : result string TmpfsMount :=
  let? value := ok_or (as_str v) ("[stack." +:+ stack +:+ "].tmpfs must be an array of strings") in
  let '(dest, options) := match split_once ":" value with
    | Some (a, b) => (a, Some b)
    | None => (value, None)
    end in
  let? _ := refuse (is_some_and options (λ o, (o ==? "") || existsb (λ x, x ==? "") (str_split "," o)))
    ("tmpfs " +:+ debug_str value +:+ " has an empty mount option") in
  let? destination := destination dest "tmpfs" dest in
  Ok {| t_value := match options with Some o => destination +:+ ":" +:+ o | None => destination end;
        t_destination := destination; t_readwrite := negb (is_some_and options read_only) |}.
Definition parse_tmpfs (stack : string) (raw : option Toml) : result string (list TmpfsMount) :=
  match raw with
  | None => Ok []
  | Some raw =>
      let? values := ok_or (as_array raw) ("[stack." +:+ stack +:+ "].tmpfs must be an array of strings") in
      collect_results (parse_tmpfs_entry stack) values
  end.
Definition parse_env_entry (stack : string) (entry : string * Toml) : result string (string * string) :=
  let '(key, v) := entry in
  let where_ := "stack." +:+ stack +:+ ".env" in
  let? _ := refuse (key ==? "") (bracketed where_ " has an empty key") in
  let? _ := refuse (negb (all_bytes (λ a, negb (Ascii.eqb a "=")) key))
    (bracketed where_ (" key " +:+ debug_str key +:+ " must not contain '='")) in
  let bad := bracketed where_ (" key " +:+ debug_str key +:+ " must be a scalar") in
  let? value := match v with
    | TString s => Ok s
    | TInteger i => Ok (pretty i)
    | TFloat f => if is_finite f then Ok (float_str f) else Err bad
    | TBoolean b => Ok (if b then "true" else "false")
    | _ => Err bad
    end in
  Ok (key, value).
Definition parse_env (stack : string) (raw : Table) : result string (list (string * string)) :=
  let? pairs := collect_results (parse_env_entry stack) raw in Ok (collect pairs).

(** The mount points of a stack, in the order they are checked. *)
Definition mount_points (volumes : list Volume) (mounts : list Mount) (tmpfs : list TmpfsMount) :
    list (string * string) :=
  ((λ v, (mount_at v, "volume " +:+ debug_str (v_name v))) <$> volumes)
  ++ ((λ m, (m_destination m, "mount " +:+ debug_str (m_name m))) <$> mounts)
  ++ ((λ t, (t_destination t, "tmpfs")) <$> tmpfs).
Fixpoint check_duplicates (stack : string) (seen : gmap string string) (points : list (string * string)) :
    result string unit :=
  match points with
  | [] => Ok tt
  | (destination, what) :: points =>
      match seen !! destination with
      | Some previous => Err ("[stack." +:+ stack +:+ "] mounts " +:+ debug_str destination +:+ " twice: "
                           +:+ previous +:+ " and " +:+ what)
      | None => check_duplicates stack (<[destination := what]> seen) points
      end
  end.
Definition duplicates (stack : string) (volumes : list Volume) (mounts : list Mount)
    (tmpfs : list TmpfsMount) : result string unit :=
  check_duplicates stack ∅ (mount_points volumes mounts tmpfs).

(** ** Guests *)

Definition positive (v : Toml) (stack key : string) : result string Z :=
  ok_or (i ← as_integer v; if 0 <? i then Some i else None)
    (bracketed ("stack." +:+ stack +:+ ".guest") (" " +:+ key +:+ " must be a positive integer")).
Definition port (v : Toml) (stack key : string) : result string Z :=
  let? value := positive v stack key in
  let? _ := refuse (65535 <? value)
    (bracketed ("stack." +:+ stack +:+ ".guest") (" " +:+ key +:+ " must be between 1 and 65535")) in
  Ok value.
(** A key that replaces a default where it is set. *)
Definition override {A} (t : Table) (key : string) (f : Toml → result string A) (d : A) : result string A :=
  match tree_get key t with None => Ok d | Some v => f v end.
Definition guest_keys : list string :=
  ["ssh_port"; "ssh_user"; "ssh_host"; "web_port"; "ready_timeout"; "ready_poll_interval"; "version";
   "ram_size"; "disk_size"; "cpu_cores"; "payload"; "payload_destination"].
Definition parse_guest (stack : string) (raw : option Toml) : result string (option Guest) :=
  match raw with
  | None => Ok None
  | Some raw =>
      let d := Guest_default in
      let where_ := "stack." +:+ stack +:+ ".guest" in
      let text t key (dv : string) := override t key (λ v, string_value v (where_ +:+ "." +:+ key)) dv in
      let? t := table_value raw "guest" in
      let? _ := reject_unknown t guest_keys where_ in
      let? ssh_port := override t "ssh_port" (λ v, port v stack "ssh_port") (g_ssh_port d) in
      let? web_port := override t "web_port" (λ v, port v stack "web_port") (g_web_port d) in
      let? ready_timeout := override t "ready_timeout" (λ v, positive v stack "ready_timeout") (g_ready_timeout d) in
      let? poll := override t "ready_poll_interval" (λ v, positive v stack "ready_poll_interval")
                     (g_ready_poll_interval d) in
      let? cpu := override t "cpu_cores"
                    (λ v, let? n := positive v stack "cpu_cores" in Ok (Some n)) (g_cpu_cores d) in
      let? ssh_user := text t "ssh_user" (g_ssh_user d) in
      let? ssh_host := text t "ssh_host" (g_ssh_host d) in
      let? version := text t "version" (g_version d) in
      let? ram := text t "ram_size" (g_ram_size d) in
      let? disk := text t "disk_size" (g_disk_size d) in
      let? payload_destination := text t "payload_destination" (g_payload_destination d) in
      let? payload := override t "payload"
                        (λ v, let? s := string_value v "guest.payload" in Ok (Some s)) (g_payload d) in
      let? _ := refuse ((ssh_user ==? "") || (ssh_host ==? ""))
        (bracketed where_ " ssh_user and ssh_host must not be empty") in
      let? _ := refuse (ssh_port =? web_port) (bracketed where_ " ssh_port and web_port must differ") in
      Ok (Some {| g_ssh_port := ssh_port; g_ssh_user := ssh_user; g_ssh_host := ssh_host;
        g_web_port := web_port; g_ready_timeout := ready_timeout; g_ready_poll_interval := poll;
        g_version := version; g_ram_size := ram; g_disk_size := disk; g_cpu_cores := cpu;
        g_payload := payload; g_payload_destination := payload_destination |})
  end.

(** ** Job caches *)

Definition cache_byte (a : ascii) : bool :=
  is_ascii_alphanumeric a || existsb (Ascii.eqb a) ["_"; "."; "-"]%char.
Definition safe_cache (value : string) : bool :=
  match value with
  | "" => false
  | String a _ => (str_len value <=? 64) && is_ascii_alphanumeric a && all_bytes cache_byte value
  end.
Definition cache_replicas (where_ mode : string) (raw : option Toml) : result string Z :=
  match raw with
  | None => Ok 4
  | Some value =>
      let bad := bracketed where_ " `replicas` must be an integer in 1..=64" in
      match as_integer value with
      | Some n =>
          if (1 <=? n) && (n <=? 64) && (mode ==? "exclusive") then Ok n
          else if mode ==? "shared"
          then Err (bracketed where_ " `replicas` applies only to exclusive caches") else Err bad
      | None => Err bad
      end
  end.
Definition parse_job_cache (stack : string) (caches : list JobCache) (entry : string * Toml) :
    result string JobCache :=
  let '(name, v) := entry in
  let where_ := "stack." +:+ stack +:+ ".job_caches." +:+ name in
  let? t := table_value v "job cache" in
  let? _ := reject_unknown t ["volume"; "destination"; "scope"; "mode"; "replicas"] where_ in
  let? _ := refuse (negb (safe_cache name))
    (bracketed where_ " cache name must be 1-64 of [A-Za-z0-9_.-], starting alphanumeric") in
  let? volume := optional_string t "volume" where_ in
  let? _ := refuse (is_some_and volume (λ v, negb (safe_cache v)))
    (bracketed where_ " `volume` must be a Docker volume name") in
  let? dest_text := optional_string t "destination" where_ in
  let? dest := transposed dest_text (λ d, destination d "job cache" name) in
  let? _ := refuse (bool_decide (volume = None) && bool_decide (dest = None))
    (bracketed where_ " must set `volume`, `destination`, or both") in
  let? scope_text := optional_string t "scope" where_ in
  let scope := default "repo" scope_text in
  let? _ := refuse (negb (existsb (String.eqb scope) ["machine"; "repo"; "workspace"]))
    (bracketed where_ (" `scope` must be machine, repo or workspace, not " +:+ debug_str scope)) in
  let? mode_text := optional_string t "mode" where_ in
  let mode := default "exclusive" mode_text in
  let? _ := refuse (negb (existsb (String.eqb mode) ["exclusive"; "shared"]))
    (bracketed where_ (" `mode` must be exclusive or shared, not " +:+ debug_str mode)) in
  let? replicas := cache_replicas where_ mode (tree_get "replicas" t) in
  match head (filterb (λ c, bool_decide (is_Some volume) && bool_decide (jc_volume c = volume)
      || bool_decide (is_Some dest) && bool_decide (jc_destination c = dest)) caches) with
  | Some previous => Err (bracketed where_ (" maps the same volume or destination as job cache "
                       +:+ debug_str (jc_name previous)))
  | None => Ok {| jc_name := name; jc_volume := volume; jc_destination := dest; jc_scope := scope;
                  jc_mode := mode; jc_replicas := replicas |}
  end.
Fixpoint parse_job_caches_from (stack : string) (caches : list JobCache) (raw : Table) :
    result string (list JobCache) :=
  match raw with
  | [] => Ok caches
  | entry :: raw =>
      let? cache := parse_job_cache stack caches entry in
      parse_job_caches_from stack (caches ++ [cache]) raw
  end.
Definition parse_job_caches (stack : string) (raw : Table) : result string (list JobCache) :=
  parse_job_caches_from stack [] raw.

(** ** Stacks *)

Definition stack_keys : list string :=
  ["dockerfile"; "image"; "family"; "default"; "volumes"; "mounts"; "tmpfs"; "env"; "workdir"; "kind";
   "guest"; "acknowledge_macos_license"; "job_caches"; "default_target_volume"].
Definition debug_option (o : option string) : string :=
  match o with Some s => "Some(" +:+ debug_str s +:+ ")" | None => "None" end.
(** The conditions that tie a guest stack together. *)
Definition guest_check (name : string) (kind : option string) (guest : option Guest)
    (acknowledged : bool) (mounts : list Mount) : result string unit :=
  let? _ := refuse (bool_decide (kind = None) && negb (bool_decide (guest = None)))
    (bracketed ("stack." +:+ name +:+ ".guest")
       (" is only meaningful with kind = " +:+ quoted "macos-x64-guest")) in
  let? _ := refuse (bool_decide (kind = None) && acknowledged)
    (bracketed ("stack." +:+ name) " sets acknowledge_macos_license without guest kind") in
  let? _ := refuse (negb (bool_decide (kind = None)) && negb acknowledged)
    (bracketed ("stack." +:+ name) " guest requires acknowledge_macos_license = true") in
  refuse (negb (bool_decide (kind = None)) && negb (length mounts =? 0)%nat)
    (bracketed ("stack." +:+ name +:+ ".mounts") " guest cannot see host bind mounts").
Definition parse_stack (name : string) (body : Table) : result string ManifestStack :=
  let where_ := "stack." +:+ name in
  let? _ := reject_unknown body stack_keys where_ in
  let? dockerfile := optional_string body "dockerfile" where_ in
  let? image := optional_string body "image" where_ in
  let? _ := refuse (bool_decide (dockerfile = None) && bool_decide (image = None))
    (bracketed where_ " must set either `dockerfile` or `image`") in
  let? _ := refuse (bool_decide (dockerfile = Some "") || bool_decide (image = Some ""))
    (bracketed where_ " dockerfile and image must not be empty") in
  let? raw_volumes := optional_table body "volumes" where_ in
  let? volumes := parse_volumes raw_volumes in
  let? raw_mounts := optional_table body "mounts" where_ in
  let? mounts := parse_mounts name raw_mounts volumes in
  let? tmpfs := parse_tmpfs name (tree_get "tmpfs" body) in
  let? _ := duplicates name volumes mounts tmpfs in
  let? raw_env := optional_table body "env" where_ in
  let? env := parse_env name raw_env in
  let? workdir_text := optional_string body "workdir" where_ in
  let? workdir := transposed workdir_text (λ v, workdir v name) in
  let? kind := optional_string body "kind" where_ in
  let? _ := refuse (is_some_and kind (λ v, negb (v ==? "macos-x64-guest")))
    (bracketed where_ (" has unknown kind " +:+ debug_option kind)) in
  let? acknowledged := optional_bool body "acknowledge_macos_license" where_ in
  let acknowledged := default false acknowledged in
  let? guest := parse_guest name (tree_get "guest" body) in
  let? _ := guest_check name kind guest acknowledged mounts in
  let? raw_caches := optional_table body "job_caches" where_ in
  let? job_caches := parse_job_caches name raw_caches in
  let? _ := refuse (negb (bool_decide (kind = None)) && negb (length job_caches =? 0)%nat)
    (bracketed (where_ +:+ ".job_caches") " a guest stack starts no job containers") in
  let? family := optional_string body "family" where_ in
  let? default_ := optional_bool body "default" where_ in
  let? target := optional_bool body "default_target_volume" where_ in
  Ok {| s_name := name; s_dockerfile := dockerfile; s_image := image; s_family := family;
        s_default := default false default_; s_volumes := volumes; s_mounts := mounts; s_tmpfs := tmpfs;
        s_env := env; s_workdir := workdir; s_kind := kind;
        s_guest := if bool_decide (kind = None) then None else Some (default Guest_default guest);
        s_acknowledge_macos_license := acknowledged; s_job_caches := job_caches;
        s_default_target_volume := default true target |}.

(** ** Tasks *)

Definition debug_list (l : list string) : string := "[" +:+ str_join ", " (debug_str <$> l) +:+ "]".
Definition secret_names : list string := MANIFEST_TASK_SECRETS.*1.
Fixpoint task_secrets_from (task : string) (names : list string) (items : list Toml) :
    result string (list string) :=
  match items with
  | [] => Ok names
  | item :: items =>
      let? name := ok_or (as_str item) ("[task." +:+ task +:+ "] `secrets` entries must be strings") in
      let? _ := refuse (negb (existsb (String.eqb name) secret_names))
        ("[task." +:+ task +:+ "] declares unknown secret " +:+ debug_str name +:+ "; known secrets: "
         +:+ debug_list secret_names) in
      let? _ := refuse (existsb (String.eqb name) names)
        ("[task." +:+ task +:+ "] declares secret " +:+ debug_str name +:+ " twice") in
      task_secrets_from task (names ++ [name]) items
  end.
Definition parse_task_secrets (body : Table) (task : string) : result string (list string) :=
  match tree_get "secrets" body with
  | None => Ok []
  | Some raw =>
      let? items := ok_or (as_array raw) ("[task." +:+ task +:+ "] `secrets` must be an array") in
      task_secrets_from task [] items
  end.
Definition default_stack (stacks : list (string * ManifestStack)) : result string ManifestStack :=
  match filterb s_default stacks.*2 with
  | [one] => Ok one
  | [] =>
      match stacks with
      | [(_, only)] => Ok only
      | _ => Err "no default stack; mark one with `default = true` or name a stack explicitly"
      end
  | marked => Err ("more than one stack is marked default: " +:+ debug_list (s_name <$> marked))
  end.
Definition stack (m : Manifest) (name : string) : result string ManifestStack :=
  ok_or (tree_get name (mf_stacks m))
    ("no stack named " +:+ debug_str name +:+ "; known stacks: " +:+ debug_list (mf_stacks m).*1).
Definition task (m : Manifest) (name : string) : result string Task :=
  ok_or (tree_get name (mf_tasks m))
    ("no task named " +:+ debug_str name +:+ "; known tasks: " +:+ debug_list (mf_tasks m).*1).
Definition parse_task (stacks : list (string * ManifestStack)) (entry : string * Toml) :
    result string (string * Task) :=
  let '(name, v) := entry in
  let where_ := "task." +:+ name in
  let? body := table_value v "task" in
  let? _ := reject_unknown body ["stack"; "cmd"; "secrets"; "github_api"; "keep"] where_ in
  let? secrets := parse_task_secrets body name in
  let? api := optional_string body "github_api" where_ in
  let? proxy := match api with
    | None => Ok false
    | Some mode =>
        if mode ==? "proxy" then Ok true
        else Err (bracketed where_ (" `github_api` must be " +:+ quoted "proxy" +:+ ", not " +:+ debug_str mode))
    end in
  let? keep := optional_bool body "keep" where_ in
  let? cmd := required_string body "cmd" where_ in
  let? _ := refuse (cmd ==? "") (bracketed where_ " must set `cmd`") in
  let? named := optional_string body "stack" where_ in
  let? stack := match named with
    | Some s => Ok s
    | None => let? s := default_stack stacks in Ok (s_name s)
    end in
  let? _ := refuse (bool_decide (tree_get stack stacks = None))
    (bracketed where_ (" references unknown stack " +:+ debug_str stack +:+ "; known stacks: "
       +:+ debug_list stacks.*1)) in
  Ok (name, {| tk_name := name; tk_stack := stack; tk_cmd := cmd; tk_secrets := secrets;
               tk_github_api_proxy := proxy; tk_keep := default false keep |}).
Definition parse_stack_entry (entry : string * Toml) : result string (string * ManifestStack) :=
  let '(name, body) := entry in
  let? t := table_value body "stack" in
  let? s := parse_stack name t in
  Ok (name, s).
(** [parse_manifest_toml] from the parsed document on. *)
Definition parse_manifest (raw : Toml) (roots : ManifestRoots) : result string Manifest :=
  let? table := ok_or (as_table raw) "manifest must be a table" in
  let? _ := reject_unknown table ["stack"; "task"] "manifest" in
  let? stacks_raw := optional_table table "stack" "manifest" in
  let? stacks := collect_results parse_stack_entry stacks_raw in
  let stacks := collect stacks in
  let? _ := refuse (length stacks =? 0)%nat "manifest declares no stacks" in
  let? tasks_raw := optional_table table "task" "manifest" in
  let? tasks := collect_results (parse_task stacks) tasks_raw in
  Ok {| mf_roots := roots; mf_stacks := stacks; mf_tasks := collect tasks |}.
End parse.
