(* ===== verification/ManifestSafety.v ===== *)
(** * ManifestSafety: what every manifest that parses promises

    The parsers of [Manifest] are long runs of checks. This file states once what their success
    means to the code that reads the typed manifest ([manifest_sound]) and proves that it holds of
    every document that parses: two things are never mounted at one place, nothing a workspace
    declares is mounted over or under bosn's own paths, overlays, guests and job caches are
    complete, and every task names a stack that exists. *)

From Stdlib Require Import Ascii.
From S2P Require Import Manifest.

Local Open Scope string_scope.
Local Open Scope list_scope.
Local Open Scope Z_scope.
Local Open Scope bosn_scope.

(** ** The contract of a manifest *)

Definition no_slash (s : string) : Prop := all_bytes (λ a, negb (Ascii.eqb a "/")) s = true.
(** A component that names a directory entry. *)
Definition plain_part (p : string) : Prop := p ≠ "" ∧ p ≠ "." ∧ p ≠ ".." ∧ no_slash p.
Definition absolute (parts : list string) : string := "/" +:+ str_join "/" parts.
Definition heartbeat_parts : list string := ["bosn-daemon"; "heartbeat"].
(** A normalized absolute path a workspace may mount something at: not the root, not bosn's
    directory nor below it, and neither the heartbeat file nor above or below it. *)
Definition free_path (path : string) : Prop := ∃ parts,
  path = absolute parts ∧ Forall plain_part parts ∧ parts ≠ [] ∧ head parts ≠ Some "bosn"
  ∧ ¬ parts `prefix_of` heartbeat_parts ∧ ¬ heartbeat_parts `prefix_of` parts.
(** A working directory may lie above the heartbeat, and may be the root. *)
Definition usable_workdir (path : string) : Prop := ∃ parts,
  path = absolute parts ∧ Forall plain_part parts ∧ head parts ≠ Some "bosn"
  ∧ ¬ heartbeat_parts `prefix_of` parts.

Definition volume_sound (v : Volume) : Prop :=
  plain_part (v_name v)
  ∧ match v_destination v with
    | Some d => free_path d
    | None => mount_at v = absolute ["bosn"; v_name v]
    end.
Definition mount_sound (volumes : list Volume) (m : Mount) : Prop :=
  m_source m ≠ "" ∧ free_path (m_destination m)
  ∧ (m_mode m = Overlay ↔ is_Some (m_upper m))
  ∧ ∀ name, m_upper m = Some (UpperVolume name) → name ∈ v_name <$> volumes.
Definition cache_sound (c : JobCache) : Prop :=
  1 ≤ jc_replicas c ≤ 64 ∧ (jc_mode c = "shared" → jc_replicas c = 4)
  ∧ (is_Some (jc_volume c) ∨ is_Some (jc_destination c))
  ∧ (∀ d, jc_destination c = Some d → free_path d)
  ∧ jc_scope c ∈ ["machine"; "repo"; "workspace"] ∧ jc_mode c ∈ ["exclusive"; "shared"].
Definition guest_sound (g : Guest) : Prop :=
  1 ≤ g_ssh_port g ≤ 65535 ∧ 1 ≤ g_web_port g ≤ 65535 ∧ g_ssh_port g ≠ g_web_port g
  ∧ 0 < g_ready_timeout g ∧ 0 < g_ready_poll_interval g
  ∧ (∀ n, g_cpu_cores g = Some n → 0 < n) ∧ g_ssh_user g ≠ "" ∧ g_ssh_host g ≠ "".

(** Every place a stack mounts something. *)
Definition destinations (s : ManifestStack) : list string :=
  (mount_at <$> s_volumes s) ++ (m_destination <$> s_mounts s) ++ (t_destination <$> s_tmpfs s).
Record stack_sound (s : ManifestStack) : Prop := {
  sound_source : is_Some (s_dockerfile s) ∨ is_Some (s_image s);
  sound_nonempty : s_dockerfile s ≠ Some "" ∧ s_image s ≠ Some "";
  sound_kind : ∀ k, s_kind s = Some k → k = "macos-x64-guest";
  sound_destinations : NoDup (destinations s);
  sound_volumes : Forall volume_sound (s_volumes s);
  sound_mounts : Forall (mount_sound (s_volumes s)) (s_mounts s);
  sound_tmpfs : Forall (λ t, free_path (t_destination t)) (s_tmpfs s);
  sound_env : Forall (λ kv, kv.1 ≠ "" ∧ all_bytes (λ a, negb (Ascii.eqb a "=")) kv.1 = true) (s_env s);
  sound_workdir : ∀ w, s_workdir s = Some w → usable_workdir w;
  sound_guest : is_Some (s_guest s) ↔ is_Some (s_kind s);
  sound_guest_fields : ∀ g, s_guest s = Some g →
    guest_sound g ∧ s_mounts s = [] ∧ s_job_caches s = [] ∧ s_acknowledge_macos_license s = true;
  sound_caches : Forall cache_sound (s_job_caches s);
  sound_cache_volumes : NoDup (omap jc_volume (s_job_caches s));
  sound_cache_destinations : NoDup (omap jc_destination (s_job_caches s)) }.
Definition task_sound (stacks : list (string * ManifestStack)) (t : Task) : Prop :=
  is_Some (tree_get (tk_stack t) stacks) ∧ tk_cmd t ≠ "" ∧ NoDup (tk_secrets t)
  ∧ Forall (λ s, s ∈ MANIFEST_TASK_SECRETS.*1) (tk_secrets t).
Definition manifest_sound (m : Manifest) : Prop :=
  mf_stacks m ≠ []
  ∧ Forall (λ kv, s_name kv.2 = kv.1 ∧ stack_sound kv.2) (mf_stacks m)
  ∧ Forall (λ kv, tk_name kv.2 = kv.1 ∧ task_sound (mf_stacks m) kv.2) (mf_tasks m).

(** ** Shared lemmas *)

Lemma collect_results_Forall {A B} (f : A → result string B) (P : B → Prop) l ys :
  (∀ x y, f x = Ok y → P y) → collect_results f l = Ok ys → Forall P ys.
Proof.
  intros Hf. revert ys. induction l as [|x l IH]; cbn; intros ys Hl; results; subst; [constructor|].
  constructor; eauto.
Qed.

Lemma tree_insert_Forall {A} (P : string * A → Prop) k v m :
  P (k, v) → Forall P m → Forall P (tree_insert k v m).
Proof.
  intros Hkv. induction 1 as [|[k' v'] m Hx Hm IH]; cbn; [by repeat constructor|].
  destruct (String.compare k k'); by repeat constructor.
Qed.
Lemma collect_Forall {A} (P : string * A → Prop) m : Forall P m → Forall P (collect m).
Proof.
  unfold collect. cut (Forall P []); [|constructor]. generalize (@nil (string * A)) as acc.
  intros acc Hacc Hm. revert acc Hacc. induction Hm as [|[k v] m Hx Hm IH]; intros acc Hacc; cbn; [done|].
  by apply IH, tree_insert_Forall.
Qed.

Lemma starts_with_app p s : starts_with p (p +:+ s) = true.
Proof. unfold starts_with. rewrite strip_prefix_app. by apply bool_decide_eq_true. Qed.

(** ** Paths *)

Lemma push_component_plain parts part :
  Forall plain_part parts → no_slash part → Forall plain_part (push_component parts part).
Proof.
  intros Hp Hs. unfold push_component.
  destruct (_ || _) eqn:E1; [done|]. destruct (part ==? "..") eqn:E2.
  - clear E1 E2. induction Hp as [|x l Hx Hl IH]; cbn; [constructor|].
    destruct l; [constructor|by constructor].
  - booleans. apply Forall_app. split; [done|]. repeat constructor; try done.
Qed.
Lemma components_plain value : Forall plain_part (foldl push_component [] (str_split "/" value)).
Proof.
  assert (Hs : Forall no_slash (str_split "/" value)).
  { apply Forall_forall. intros p. apply split_no_sep. }
  cut (Forall plain_part []); [|constructor]. generalize (@nil string) as acc.
  induction Hs as [|p l Hp Hl IH]; intros acc Hacc; cbn; [done|].
  by apply IH, push_component_plain.
Qed.

(** Paths below a directory start with its text and a slash. *)
Lemma absolute_below parts more :
  parts ≠ [] → more ≠ [] → absolute (parts ++ more) = (absolute parts +:+ "/") +:+ str_join "/" more.
Proof.
  intros Hp Hm. unfold absolute. rewrite !string_app_assoc. f_equal.
  induction parts as [|p parts IH]; [done|]. destruct parts as [|q parts].
  - destruct more; [done|]. cbn [app str_join]. done.
  - cbn [app str_join]. rewrite !string_app_assoc. do 2 f_equal. cbn [app] in IH. by apply IH.
Qed.

Lemma under_bosn parts :
  head parts = Some "bosn" →
  (absolute parts ==? "/bosn") || starts_with RESERVED_PREFIX (absolute parts) = true.
Proof.
  destruct parts as [|p parts]; [done|]. intros [= ->]. destruct parts as [|q parts]; [done|].
  change ("bosn" :: q :: parts) with (["bosn"] ++ q :: parts). rewrite absolute_below by done.
  by rewrite (starts_with_app RESERVED_PREFIX), orb_true_r.
Qed.
Lemma under_heartbeat parts :
  heartbeat_parts `prefix_of` parts →
  (RESERVED_HEARTBEAT ==? absolute parts) || starts_with (RESERVED_HEARTBEAT +:+ "/") (absolute parts) = true.
Proof.
  intros [more ->]. destruct more as [|q more]; [done|].
  rewrite (absolute_below heartbeat_parts (q :: more)) by done.
  by rewrite (starts_with_app (RESERVED_HEARTBEAT +:+ "/")), orb_true_r.
Qed.
Lemma above_heartbeat parts :
  parts `prefix_of` heartbeat_parts →
  (absolute parts ==? "/") || (RESERVED_HEARTBEAT ==? absolute parts)
  || starts_with (absolute parts +:+ "/") RESERVED_HEARTBEAT = true.
Proof.
  intros Hp. destruct parts as [|p parts]; [done|].
  apply prefix_cons_inv_1 in Hp as Heq. apply prefix_cons_inv_2 in Hp. subst p.
  destruct parts as [|p parts]; [done|].
  apply prefix_cons_inv_1 in Hp as Heq. apply prefix_cons_inv_2 in Hp. subst p.
  by apply prefix_nil_inv in Hp as ->.
Qed.

Section proofs.
Context `{ManifestText}.

Lemma destination_free value what name d : destination value what name = Ok d → free_path d.
Proof.
  unfold destination, lexical_absolute. intros Hd. results. subst d.
  pose proof (components_plain value) as Hplain.
  set (parts := foldl push_component [] (str_split "/" value)) in *.
  change ("/" +:+ str_join "/" parts) with (absolute parts) in *. booleans.
  exists parts. repeat split; [done|..].
  - by intros ->.
  - intros Hh%under_bosn. booleans. destruct Hh; booleans; congruence.
  - intros Hp%above_heartbeat. booleans. destruct Hp as [Hp|]; [|congruence].
    booleans. destruct Hp; booleans; congruence.
  - intros Hp%under_heartbeat. booleans. destruct Hp; booleans; congruence.
Qed.
Lemma workdir_usable value name d : workdir value name = Ok d → usable_workdir d.
Proof.
  unfold workdir, lexical_absolute. intros Hd. results. subst d.
  pose proof (components_plain value) as Hplain.
  set (parts := foldl push_component [] (str_split "/" value)) in *.
  change ("/" +:+ str_join "/" parts) with (absolute parts) in *. booleans.
  exists parts. repeat split; [done|..].
  - intros Hh%under_bosn. booleans. destruct Hh; booleans; congruence.
  - intros Hp%under_heartbeat. booleans. destruct Hp; booleans; congruence.
Qed.

Lemma transposed_Some {A B} (o : option A) (f : A → result string B) b :
  transposed o f = Ok (Some b) → ∃ a, o = Some a ∧ f a = Ok b.
Proof. unfold transposed. intros Ht. results; [|done]. eexists. split; [done|]. congruence. Qed.

Lemma safe_name_plain name :
  (name ==? "") || (name ==? ".") || (name ==? "..")
    || negb (all_bytes (λ a, negb (unsafe_name_byte a)) name) = false → plain_part name.
Proof.
  intros Hn. booleans. unfold plain_part, no_slash. split_and!; try done.
  eapply all_bytes_impl; [|done]. intros a. unfold unsafe_name_byte. by destruct (Ascii.eqb a "/").
Qed.
Lemma parse_volume_sound entry v : parse_volume entry = Ok v → volume_sound v.
Proof.
  destruct entry as [name t]. cbn [parse_volume]. intros Hv. results; subst; cbn.
  all: split; cbn; [by eapply safe_name_plain|].
  all: case_match; [|done]; subst.
  all: match goal with H : transposed _ _ = Ok (Some _) |- _ => apply transposed_Some in H as (? & _ & ?) end.
  all: by eapply destination_free.
Qed.

(** A stack's volumes name it when a search by name finds one. *)
Lemma existsb_name volumes name :
  existsb (λ v, v_name v ==? name) volumes = true → name ∈ v_name <$> volumes.
Proof.
  intros (v & Hin & Hv)%existsb_exists. booleans. apply list_elem_of_fmap.
  exists v. split; [done|]. by apply list_elem_of_In.
Qed.
Lemma mount_mode_sound stack name t volumes mu :
  mount_mode stack name t volumes = Ok mu →
  (mu.1 = Overlay ↔ is_Some mu.2)
  ∧ ∀ v, mu.2 = Some (UpperVolume v) → v ∈ v_name <$> volumes.
Proof.
  unfold mount_mode. intros Hm.
  repeat match type of Hm with
  | match ?v with Ok _ => _ | Err _ => _ end = Ok _ => destruct v; [|done]
  end.
  destruct (OverlayUpper_parse <$> _) as [[|v]|], a2; try done;
    [|destruct (existsb _ _) eqn:Hv; [|done]| | |]; injection Hm as <-; cbn;
    (split; [split; [done|by intros [? ?]]|]); try done.
  intros v' [= <-]. by apply existsb_name.
Qed.
Lemma parse_mount_sound stack volumes entry m :
  parse_mount stack volumes entry = Ok m → mount_sound volumes m.
Proof.
  destruct entry as [name t]. cbn [parse_mount]. intros Hm. results. subst m. booleans.
  split; [done|]. split; [by eapply destination_free|]. by eapply mount_mode_sound.
Qed.
Lemma parse_tmpfs_sound stack raw ts :
  parse_tmpfs stack raw = Ok ts → Forall (λ t, free_path (t_destination t)) ts.
Proof.
  unfold parse_tmpfs. intros Ht. results; [|subst; constructor].
  eapply collect_results_Forall; [|done]. intros v tm Htm. unfold parse_tmpfs_entry in Htm. results.
  case_match. results. subst tm. by eapply destination_free.
Qed.
Lemma parse_env_sound stack raw env :
  parse_env stack raw = Ok env →
  Forall (λ kv, kv.1 ≠ "" ∧ all_bytes (λ a, negb (Ascii.eqb a "=")) kv.1 = true) env.
Proof.
  unfold parse_env. intros He. results. subst env. apply collect_Forall.
  eapply collect_results_Forall; [|done]. intros [key v] kv Hkv. cbn [parse_env_entry] in Hkv.
  results. subst kv. booleans. done.
Qed.
Lemma check_duplicates_NoDup stack seen points :
  check_duplicates stack seen points = Ok tt →
  NoDup points.*1 ∧ Forall (λ d, seen !! d = None) points.*1.
Proof.
  revert seen. induction points as [|[d what] points IH]; intros seen; cbn [check_duplicates].
  { split; constructor. }
  destruct (seen !! d) eqn:Hd; [done|]. intros [Hnd Hall]%IH. rewrite fmap_cons. cbn.
  rewrite Forall_forall in Hall. split; constructor; [|done..|].
  - intros Hin%Hall. by rewrite lookup_insert_eq in Hin.
  - apply Forall_forall. intros x Hx%Hall. rewrite lookup_insert in Hx. by case_decide.
Qed.
Lemma duplicates_NoDup stack volumes mounts tmpfs :
  duplicates stack volumes mounts tmpfs = Ok tt →
  NoDup ((mount_at <$> volumes) ++ (m_destination <$> mounts) ++ (t_destination <$> tmpfs)).
Proof.
  intros [Hnd _]%check_duplicates_NoDup. unfold mount_points in Hnd.
  by rewrite !fmap_app, <- !list_fmap_compose in Hnd.
Qed.

Lemma override_holds {A} (P : A → Prop) t key (f : Toml → result string A) d a :
  P d → (∀ v b, f v = Ok b → P b) → override t key f d = Ok a → P a.
Proof. unfold override. intros Hd Hf Ha. destruct (tree_get key t); [eauto|congruence]. Qed.
Lemma positive_Ok v stack key n : positive v stack key = Ok n → 0 < n.
Proof.
  unfold positive. intros Hn. results. destruct (as_integer v) as [i|]; [|done].
  cbn in Hn. destruct (0 <? i) eqn:Hi; [|done]. booleans. congruence.
Qed.
Lemma port_Ok v stack key n : port v stack key = Ok n → 1 ≤ n ≤ 65535.
Proof.
  unfold port. intros Hn. results. subst. booleans.
  match goal with Hp : positive _ _ _ = _ |- _ => apply positive_Ok in Hp end. lia.
Qed.
Lemma Guest_default_sound : guest_sound Guest_default.
Proof. repeat split; cbn; done || lia. Qed.
Lemma parse_guest_sound stack raw g : parse_guest stack raw = Ok (Some g) → guest_sound g.
Proof.
  unfold parse_guest. destruct raw as [raw|]; [|done]. intros Hg. results.
  subst g. booleans. unfold guest_sound. cbn.
  repeat match goal with
  | Ho : override _ _ (λ v, port v _ _) _ = Ok ?n |- _ =>
      apply (override_holds (λ n, 1 ≤ n ≤ 65535)) in Ho; [|cbn; lia|by intros; eapply port_Ok]
  | Ho : override _ _ (λ v, positive v _ _) _ = Ok ?n |- _ =>
      apply (override_holds (λ n, 0 < n)) in Ho; [|cbn; lia|by intros; eapply positive_Ok]
  end.
  do 5 (split; [assumption|]). split; [|done].
  eapply (override_holds (λ o, ∀ n, o = Some n → 0 < n)); [| |eassumption]; [done|].
  intros v b Hb n ->. results. subst. by eapply positive_Ok.
Qed.

Lemma cache_replicas_Ok where_ mode raw n :
  cache_replicas where_ mode raw = Ok n → 1 ≤ n ≤ 64 ∧ (mode = "shared" → n = 4).
Proof.
  unfold cache_replicas. intros Hn. destruct raw as [v|]; [|injection Hn as <-; lia].
  destruct (as_integer v) as [i|]; [|done]. destruct (_ && _ && _) eqn:Hc; [|by case_match].
  injection Hn as <-. booleans. subst mode. split; [lia|done].
Qed.
Lemma existsb_eqb x l : existsb (String.eqb x) l = true → x ∈ l.
Proof. intros (y & Hin & ->%String.eqb_eq)%existsb_exists. by apply list_elem_of_In. Qed.
Lemma head_filterb_None {A} (f : A → bool) l :
  head (filterb f l) = None → Forall (λ x, f x = false) l.
Proof.
  intros Hh. apply Forall_forall. intros x Hx. destruct (f x) eqn:Hf; [|done].
  assert (Hin : x ∈ filterb f l) by by apply elem_of_filterb.
  destruct (filterb f l); [by apply elem_of_nil in Hin|done].
Qed.
Lemma parse_job_cache_sound stack caches entry c :
  parse_job_cache stack caches entry = Ok c →
  cache_sound c
  ∧ Forall (λ p, (is_Some (jc_volume c) → jc_volume p ≠ jc_volume c)
               ∧ (is_Some (jc_destination c) → jc_destination p ≠ jc_destination c)) caches.
Proof.
  destruct entry as [name t]. cbn [parse_job_cache]. intros Hc.
  repeat match type of Hc with
  | match ?v with Ok _ => _ | Err _ => _ end = Ok _ => let E := fresh "E" in destruct v eqn:E; [|done]
  end.
  destruct (head _) eqn:Hfresh; [done|]. injection Hc as <-. cbn.
  apply head_filterb_None in Hfresh. apply cache_replicas_Ok in E11 as [Hn Hsh].
  repeat match goal with He : refuse _ _ = Ok _ |- _ => apply refuse_Ok in He end. booleans.
  split; [unfold cache_sound; cbn; split_and!; try done; try lia|].
  - rewrite <- !not_eq_None_Some. destruct E6; booleans; auto.
  - intros d ->. apply transposed_Some in E5 as (? & _ & ?). by eapply destination_free.
  - by apply existsb_eqb.
  - by apply existsb_eqb.
  - eapply Forall_impl; [done|]. cbn. intros p Hp. booleans.
    split; intros Hsome Heq; [destruct H0|destruct H1]; booleans; done.
Qed.
Lemma NoDup_omap_snoc {A B} (f : A → option B) l x :
  NoDup (omap f l) → (is_Some (f x) → Forall (λ y, f y ≠ f x) l) → NoDup (omap f (l ++ [x])).
Proof.
  intros Hl Hx. rewrite omap_app. cbn. destruct (f x) as [b|] eqn:Hb; cbn; [|by rewrite app_nil_r].
  apply NoDup_app. split; [done|]. split; [|apply NoDup_singleton].
  intros y Hy Hin. apply list_elem_of_singleton in Hin as ->.
  apply list_elem_of_omap in Hy as (z & Hz & Hf).
  pose proof (Hx (mk_is_Some _ _ eq_refl)) as Hne. rewrite Forall_forall in Hne. by apply (Hne z).
Qed.
Lemma parse_job_caches_sound stack raw caches :
  parse_job_caches stack raw = Ok caches →
  Forall cache_sound caches ∧ NoDup (omap jc_volume caches) ∧ NoDup (omap jc_destination caches).
Proof.
  unfold parse_job_caches.
  assert (H0 : Forall cache_sound [] ∧ NoDup (omap jc_volume []) ∧ NoDup (omap jc_destination []))
    by (split_and!; constructor).
  revert H0. generalize (@nil JobCache) as acc.
  induction raw as [|entry raw IH]; intros acc (Hs & Hv & Hd) Hr; cbn in Hr; [by injection Hr as <-|].
  results. apply parse_job_cache_sound in Hv0 as [Hc Hfresh].
  apply IH in Hr; [done|]. split_and!.
  - apply Forall_app. split; [done|]. by apply Forall_singleton.
  - apply NoDup_omap_snoc; [done|]. intros Hsome. eapply Forall_impl; [done|]. by intros p [??]; auto.
  - apply NoDup_omap_snoc; [done|]. intros Hsome. eapply Forall_impl; [done|]. by intros p [??]; auto.
Qed.

Lemma guest_check_Ok name kind guest acknowledged mounts :
  guest_check name kind guest acknowledged mounts = Ok tt →
  (kind = None → guest = None ∧ acknowledged = false)
  ∧ (is_Some kind → acknowledged = true ∧ mounts = []).
Proof.
  unfold guest_check. intros Hg. results. destruct kind; cbn in *; booleans; [|naive_solver].
  split; [done|]. intros _. destruct mounts; [|done]. by destruct acknowledged.
Qed.
Lemma parse_stack_sound name body s :
  parse_stack name body = Ok s → s_name s = name ∧ stack_sound s.
Proof.
  unfold parse_stack. intros Hs.
  repeat match type of Hs with
  | match ?v with Ok _ => _ | Err _ => _ end = Ok _ => let E := fresh "E" in destruct v eqn:E; [|done]
  end.
  injection Hs as <-. cbn. split; [done|]. destruct_all unit.
  repeat match goal with
  | E : duplicates _ _ _ _ = _ |- _ => apply duplicates_NoDup in E
  | E : guest_check _ _ _ _ _ = _ |- _ => apply guest_check_Ok in E as [? ?]
  | E : parse_job_caches _ _ = _ |- _ => apply parse_job_caches_sound in E as (? & ? & ?)
  end.
  repeat match goal with E : refuse _ _ = Ok _ |- _ => apply refuse_Ok in E end.
  split; cbn; try done.
  - rewrite <- !not_eq_None_Some. booleans. destruct E2; booleans; auto.
  - booleans. done.
  - intros k ->. cbn in E15. booleans. done.
  - eapply collect_results_Forall; [|exact E5]. by apply parse_volume_sound.
  - eapply collect_results_Forall; [|exact E7]. by apply parse_mount_sound.
  - by eapply parse_tmpfs_sound.
  - by eapply parse_env_sound.
  - intros w ->. apply transposed_Some in E13 as (? & _ & ?). by eapply workdir_usable.
  - case_bool_decide as Hk; [by subst a14|]. rewrite not_eq_None_Some in Hk. by split.
  - case_bool_decide as Hk; [done|]. intros g [= <-]. cbn in E21. apply negb_false_iff in E21.
    destruct H1 as [Hack Hm]; [by apply not_eq_None_Some|]. split_and!; [|done| |done].
    + destruct a17 as [g|]; [by eapply parse_guest_sound|apply Guest_default_sound].
    + by destruct a20.
Qed.

Lemma task_secrets_from_sound task names items out :
  NoDup names → Forall (λ s, s ∈ secret_names) names →
  task_secrets_from task names items = Ok out →
  NoDup out ∧ Forall (λ s, s ∈ secret_names) out.
Proof.
  revert names. induction items as [|item items IH]; intros names Hnd Hall Ht; cbn [task_secrets_from] in Ht;
    [by injection Ht as <-|].
  results. booleans. apply IH in Ht; [done|..].
  - apply NoDup_app. split; [done|]. split; [|apply NoDup_singleton].
    intros x Hx ->%list_elem_of_singleton.
    match goal with He : existsb _ names = false |- _ => apply not_true_iff_false in He; apply He end.
    apply existsb_exists. eexists. split; [by apply list_elem_of_In|apply String.eqb_refl].
  - apply Forall_app. split; [done|]. apply Forall_singleton. by apply existsb_eqb.
Qed.
Lemma parse_task_secrets_sound body task out :
  parse_task_secrets body task = Ok out → NoDup out ∧ Forall (λ s, s ∈ secret_names) out.
Proof.
  unfold parse_task_secrets. destruct (tree_get _ _) as [raw|].
  - intros Ht. results. eapply task_secrets_from_sound; [..|done]; constructor.
  - intros [= <-]. split; constructor.
Qed.
Lemma parse_task_sound stacks entry kt :
  parse_task stacks entry = Ok kt → tk_name kt.2 = kt.1 ∧ task_sound stacks kt.2.
Proof.
  destruct entry as [name v]. cbn [parse_task]. intros Ht.
  repeat match type of Ht with
  | match ?v with Ok _ => _ | Err _ => _ end = Ok _ => let E := fresh "E" in destruct v eqn:E; [|done]
  end.
  injection Ht as <-. cbn. split; [done|]. unfold task_sound. cbn.
  repeat match goal with E : refuse _ _ = Ok _ |- _ => apply refuse_Ok in E end. booleans.
  split; [by apply not_eq_None_Some|]. split; [done|].
  by eapply parse_task_secrets_sound.
Qed.

(** C29. Every manifest that parses keeps its contract: each stack has a source, mounts no two
    things at one place, and mounts nothing at the root, at bosn's own directory or below it, or
    at, above or below the heartbeat file, but for a volume without a destination, which mounts at
    its default place [/bosn/<name>]; an overlay has an upper layer, and an upper volume is
    declared by the stack; a guest is there exactly for a guest kind, with ports in range and
    distinct and no mounts or job caches; job caches have 1 to 64 replicas and share neither
    volume nor destination; every task runs a command in a stack that exists, with known secrets
    named once. *)
Theorem parsed_manifest_sound raw roots m :
  parse_manifest raw roots = Ok m → manifest_sound m.
Proof.
  unfold parse_manifest. intros Hm. results. subst m. unfold manifest_sound. cbn. split_and!.
  - match goal with Hl : (length _ =? 0)%nat = false |- _ => intros Heq; by rewrite Heq in Hl end.
  - apply collect_Forall. eapply collect_results_Forall; [|done]. intros [name v] kv Hkv.
    unfold parse_stack_entry in Hkv. results. subst kv. by eapply parse_stack_sound.
  - apply collect_Forall. eapply collect_results_Forall; [|done]. apply parse_task_sound.
Qed.
End proofs.

(** ** A manifest that parses *)

Definition example_text : ManifestText := {| debug_str := quoted; float_str := λ _, "0" |}.
Definition example_roots : ManifestRoots :=
  {| mr_source_provenance := "bosn.toml"; mr_materialization_root := "."; mr_workspace_root := "." |}.
Definition example_volumes : Toml := TTable
  [("cargo", TTable []); ("out", TTable [("destination", TString "/var//out/../cache/.")])].
Definition example_mounts : Toml := TTable
  [("src", TTable [("destination", TString "/work"); ("mode", TString "overlay");
                   ("source", TString "."); ("upper", TString "cargo")])].
Definition example_caches : Toml := TTable
  [("sccache", TTable [("destination", TString "/sccache"); ("replicas", TInteger 8)])].
Definition example_stack : Toml := TTable
  [("image", TString "rust:1"); ("job_caches", example_caches); ("mounts", example_mounts);
   ("tmpfs", TArray [TString "/tmp:size=1g,ro"]); ("volumes", example_volumes);
   ("workdir", TString "/work")].
Definition example_manifest : Toml := TTable
  [("stack", TTable [("dev", example_stack)]);
   ("task", TTable [("test", TTable [("cmd", TString "cargo test");
                                     ("secrets", TArray [TString "github_token"])])])].

(** The manifest parses, and its mount points are those it declares. *)
Example example_destinations :
  match parse_manifest (H := example_text) example_manifest example_roots with
  | Ok m => (λ kv, destinations kv.2) <$> mf_stacks m = [["/bosn/cargo"; "/var/cache"; "/work"; "/tmp"]]
  | Err _ => False
  end.
Proof. by vm_compute. Qed.
(** A destination that climbs back into bosn's directory is refused. *)
Example reserved_destination_refused :
  is_ok (destination (H := example_text) "/work/../bosn/cargo" "mount" "src") = false.
Proof. done. Qed.

Lemma parsed_manifest_sound_witness :
  ∃ m, parse_manifest (H := example_text) example_manifest example_roots = Ok m ∧ manifest_sound m.
Proof.
  eexists. split; [vm_compute; reflexivity|].
  eapply (parsed_manifest_sound (H := example_text) example_manifest example_roots).
  vm_compute. reflexivity.
Defined.
