(* ===== verification/Generation.v ===== *)
(** * Generation: the identity of what a stack builds

    [bosn-generation/src/lib.rs]: the bytes a stack and its selected context feed to SHA-256, the
    canonical order and checks of external images, and the generations derived from both. The
    hasher of [kernal_api] is a parameter: the text it prints for the bytes it was given. *)

From Stdlib Require Import Ascii.
From stdpp Require Import pretty.
From S2P Require Export Dockerfile Manifest.

Local Open Scope string_scope.
Local Open Scope list_scope.
Local Open Scope Z_scope.
Local Open Scope bosn_scope.

(** The hexadecimal text of a SHA-256 digest: 64 hexadecimal digits. *)
Class Sha256 := sha256 : string → string.
Class Sha256Laws `{!Sha256} : Prop := {
  sha256_length s : String.length (sha256 s) = 64%nat;
  sha256_hex_digits s : all_bytes is_hexdigit (sha256 s) = true }.

Record ContextObservation := { co_materialization_root : string; co_entries : list ContextEntry }.
Inductive GenerationError :=
| ContextRootMismatch (expected observed : string)
| InvalidContextPath (path : string)
| DuplicateContextPath (path : string)
| MissingExternalIdentity (reference : string) (platform : option string)
| InvalidExternalIdentity (reference identity : string)
| DuplicateExternalImage (reference : string) (platform : option string)
| MissingExternalImage (reference : string) (platform : option string)
| UnexpectedExternalImage (reference : string) (platform : option string).
Inductive StackGenerationError :=
| GenError (e : GenerationError)
| GenDockerfile (e : DockerfileError).

(** ** Framed fields *)

(** The [k] low bytes of an integer, most significant first ([u64::to_be_bytes] for 8). *)
Fixpoint be_bytes (k : nat) (n : Z) : string :=
  match k with
  | O => ""
  | S k => String (ascii_of_N (Z.to_N (n / 256 ^ Z.of_nat k mod 256))) (be_bytes k n)
  end.
Definition field (bytes : string) : string := be_bytes 8 (str_len bytes) +:+ bytes.
Definition count (tag : string) (n : nat) : string := field tag +:+ be_bytes 8 (Z.of_nat n).
Definition concat_text (l : list string) : string := foldr String.append "" l.
Definition fields (l : list string) : string := concat_text (field <$> l).

(** ** Stacks *)

Definition MountMode_cmp (a b : MountMode) : comparison :=
  let rank m := match m with Rw => 0 | Ro => 1 | Overlay => 2 end in rank a ?= rank b.
Definition OverlayUpper_cmp (a b : OverlayUpper) : comparison :=
  match a, b with
  | Tmpfs, Tmpfs => Eq
  | Tmpfs, UpperVolume _ => Lt
  | UpperVolume _, Tmpfs => Gt
  | UpperVolume a, UpperVolume b => String.compare a b
  end.
Definition Mount_cmp : Mount → Mount → comparison :=
  cmp_then (cmp_on m_name String.compare)
    (cmp_then (cmp_on m_source String.compare)
      (cmp_then (cmp_on m_destination String.compare)
        (cmp_then (cmp_on m_mode MountMode_cmp) (cmp_on m_upper (option_cmp OverlayUpper_cmp))))).
Definition volume_record (v : Volume) : string :=
  field (v_name v) +:+ field (Scope_as_str (v_scope v)) +:+ field (mount_at v)
  +:+ field (Retention_as_str (v_retention v)).
Definition mount_record (m : Mount) : string :=
  field (m_name m) +:+ field (m_source m) +:+ field (m_destination m)
  +:+ field (match m_mode m with Rw => "0" | Ro => "1" | Overlay => "overlay" end)
  +:+ match m_upper m with
      | None => ""
      | Some Tmpfs => field "upper-tmpfs"
      | Some (UpperVolume volume) => field "upper-volume" +:+ field volume
      end.
Definition guest_values (g : Guest) : list string :=
  [pretty (g_ssh_port g); g_ssh_user g; g_ssh_host g; pretty (g_web_port g); pretty (g_ready_timeout g);
   pretty (g_ready_poll_interval g); g_version g; g_ram_size g; g_disk_size g;
   default "" (pretty <$> g_cpu_cores g); default "" (g_payload g); g_payload_destination g].
Definition guest_fields (g : option Guest) : string :=
  match g with
  | Some g => field "guest-present" +:+ fields (guest_values g)
  | None => field "guest-absent"
  end.
Definition stack_fields (s : ManifestStack) : string :=
  let volumes := sort_by (cmp_on v_name String.compare) (s_volumes s) in
  let mounts := sort_by Mount_cmp (s_mounts s) in
  let tmpfs := sort_by (cmp_on t_value String.compare) (s_tmpfs s) in
  field "stack-v1" +:+ field (s_name s) +:+ field (default "" (s_dockerfile s))
  +:+ field (default "" (s_image s)) +:+ field (default "" (s_family s))
  +:+ count "volumes" (length volumes) +:+ concat_text (volume_record <$> volumes)
  +:+ count "mounts" (length mounts) +:+ concat_text (mount_record <$> mounts)
  +:+ count "tmpfs" (length tmpfs) +:+ concat_text ((λ t, field (t_value t)) <$> tmpfs)
  +:+ count "env" (length (s_env s)) +:+ concat_text ((λ kv, field kv.1 +:+ field kv.2) <$> s_env s)
  +:+ field (default "" (s_kind s)) +:+ field (if s_acknowledge_macos_license s then "1" else "0")
  +:+ guest_fields (s_guest s).

(** ** The context *)

Definition valid_relative (p : string) : bool :=
  negb (p ==? "") && negb (starts_with "/" p)
  && negb (existsb (λ x, (x ==? "") || (x ==? ".") || (x ==? "..")) (str_split "/" p))
  && all_bytes (λ a, negb (Ascii.eqb a "\")) p.
Definition path_record : string := String "000" ("path-record" +:+ String "000" "").
Definition entry_record (e : ContextEntry) : string :=
  path_record +:+
  match e with
  | File path bytes executable =>
      field (if executable then "file+x" else "file") +:+ field path +:+ field bytes
  | Directory path => field "dir" +:+ field path +:+ field ""
  | Symlink path target => field "link" +:+ field path +:+ field target
  end.
(** The loop over the sorted entries; [h] is what the hasher has been given. *)
Fixpoint hash_entries (h : string) (seen : gset string) (entries : list ContextEntry) :
    result GenerationError string :=
  match entries with
  | [] => Ok h
  | e :: entries =>
      let path := entry_path e in
      let? _ := refuse (negb (valid_relative path)) (InvalidContextPath path) in
      let? _ := refuse (bool_decide (path ∈ seen)) (DuplicateContextPath path) in
      hash_entries (h +:+ entry_record e) ({[path]} ∪ seen) entries
  end.
Definition entry_cmp : ContextEntry → ContextEntry → comparison := cmp_on entry_path String.compare.

Section digests.
Context `{!Sha256}.

Definition digest (h : string) : string := "sha256:" +:+ sha256 h.
Definition content_digest (m : Manifest) (s : ManifestStack) (c : ContextObservation) :
    result GenerationError string :=
  let expected := mr_materialization_root (mf_roots m) in
  let? _ := refuse (negb (co_materialization_root c ==? expected))
    (ContextRootMismatch expected (co_materialization_root c)) in
  let? h := hash_entries (field "bosn-generation-content-v1" +:+ stack_fields s) ∅
              (sort_by entry_cmp (co_entries c)) in
  Ok (digest h).

(** ** External images *)

Definition same_image (a b : ExternalImageIdentity) : bool :=
  (ei_reference a ==? ei_reference b) && (ei_platform a ==? ei_platform b).
Definition image_cmp : ExternalImageIdentity → ExternalImageIdentity → comparison :=
  cmp_then (cmp_on ei_reference String.compare) (cmp_on ei_platform (option_cmp String.compare)).
Definition valid_sha256_digest (value : string) : bool :=
  (str_len value =? 71) && starts_with "sha256:" value
  && all_bytes is_hexdigit (String.substring 7 (String.length value - 7) value).
(** The windows of two: the first neighbour equal to its successor. *)
Fixpoint first_repeat (images : list ExternalImageIdentity) : option ExternalImageIdentity :=
  match images with
  | a :: (b :: _) as rest => if same_image a b then Some a else first_repeat rest
  | _ => None
  end.
Fixpoint check_images (images : list ExternalImageIdentity) (require_identity : bool) :
    result GenerationError unit :=
  match images with
  | [] => Ok tt
  | i :: images =>
      let? _ := refuse (trim (ei_reference i) ==? "")
        (MissingExternalImage (ei_reference i) (ei_platform i)) in
      let? _ := match ei_identity i with
        | Some id => refuse (negb (valid_sha256_digest id)) (InvalidExternalIdentity (ei_reference i) id)
        | None => refuse require_identity (MissingExternalIdentity (ei_reference i) (ei_platform i))
        end in
      check_images images require_identity
  end.
Definition canonical_images (images : list ExternalImageIdentity) (require_identity : bool) :
    result GenerationError (list ExternalImageIdentity) :=
  let images := sort_by image_cmp images in
  match first_repeat images with
  | Some i => Err (DuplicateExternalImage (ei_reference i) (ei_platform i))
  | None => let? _ := check_images images require_identity in Ok images
  end.
(** [Vec::dedup_by]: of neighbours that are the same image the first stays. *)
Fixpoint dedup_after (previous : ExternalImageIdentity) (images : list ExternalImageIdentity) :
    list ExternalImageIdentity :=
  match images with
  | [] => []
  | i :: images => if same_image i previous then dedup_after previous images else i :: dedup_after i images
  end.
Definition dedup_images (images : list ExternalImageIdentity) : list ExternalImageIdentity :=
  match images with [] => [] | i :: images => i :: dedup_after i images end.
Definition canonical_required_images (images : list ExternalImageIdentity) :
    result GenerationError (list ExternalImageIdentity) :=
  let images := sort_by image_cmp images in
  let? _ := check_images images false in Ok (dedup_images images).
Definition find_unmatched (images others : list ExternalImageIdentity) : option ExternalImageIdentity :=
  head (filterb (λ i, negb (existsb (λ x, same_image x i) others)) images).
Definition validate_resolved_images (required observed : list ExternalImageIdentity) :
    result GenerationError (list ExternalImageIdentity) :=
  let? required := canonical_required_images required in
  let? observed := canonical_images observed true in
  match find_unmatched required observed with
  | Some i => Err (MissingExternalImage (ei_reference i) (ei_platform i))
  | None =>
      match find_unmatched observed required with
      | Some i => Err (UnexpectedExternalImage (ei_reference i) (ei_platform i))
      | None => Ok observed
      end
  end.

(** ** Generations *)

Fixpoint image_fields (images : list ExternalImageIdentity) : result GenerationError string :=
  match images with
  | [] => Ok ""
  | i :: images =>
      let? id := ok_or (ei_identity i) (MissingExternalIdentity (ei_reference i) (ei_platform i)) in
      let? rest := image_fields images in
      Ok (field (ei_reference i) +:+ field (default "" (ei_platform i)) +:+ field id +:+ rest)
  end.
Definition resolved_generation (content : string) (images : list ExternalImageIdentity) :
    result GenerationError string :=
  let? images := canonical_images images true in
  let? h := image_fields images in
  Ok (digest (field "bosn-generation-resolved-v1" +:+ field content +:+ h)).
Definition final_generation (content : string) (required observed : list ExternalImageIdentity) :
    result GenerationError string :=
  let? _ := refuse (negb (valid_sha256_digest content)) (InvalidExternalIdentity "content" content) in
  let? observed := validate_resolved_images required observed in
  resolved_generation content observed.
Definition coalescing_cmp : ExternalImageIdentity → ExternalImageIdentity → comparison :=
  cmp_then image_cmp (cmp_on ei_identity (option_cmp String.compare)).
Definition coalescing_fields (i : ExternalImageIdentity) : string :=
  field (ei_reference i) +:+ field (default "" (ei_platform i))
  +:+ field (if bool_decide (is_Some (ei_identity i)) then "identity-present" else "identity-missing")
  +:+ field (default "<unresolved>" (ei_identity i)).
Definition coalescing_generation (content : string) (images : list ExternalImageIdentity) : string :=
  digest (field "bosn-generation-coalescing-v1" +:+ field content
          +:+ concat_text (coalescing_fields <$> sort_by coalescing_cmp images)).

Context `{!DockerText}.
(** What the stack's Dockerfile, or else its image, requires. *)
Definition required_images (s : ManifestStack) (c : ContextObservation) :
    result StackGenerationError (list ExternalImageIdentity) :=
  match s_dockerfile s with
  | Some dockerfile =>
      match file (co_entries c) dockerfile with
      | None => Err (GenError (InvalidContextPath dockerfile))
      | Some bytes =>
          match from_utf8 bytes with
          | None => Err (GenDockerfile (InvalidUtf8 dockerfile))
          | Some text =>
              match external_images text with Ok l => Ok l | Err e => Err (GenDockerfile e) end
          end
      end
  | None =>
      Ok (match s_image s with
          | Some reference => [{| ei_reference := reference; ei_platform := None; ei_identity := None |}]
          | None => []
          end)
  end.
Definition stack_generation_from_context (m : Manifest) (s : ManifestStack) (c : ContextObservation)
    (observed : list ExternalImageIdentity) : result StackGenerationError string :=
  let normalized := {|
    mf_roots := {| mr_source_provenance := mr_source_provenance (mf_roots m);
                   mr_materialization_root := co_materialization_root c;
                   mr_workspace_root := mr_workspace_root (mf_roots m) |};
    mf_stacks := mf_stacks m; mf_tasks := mf_tasks m |} in
  match content_digest normalized s c with
  | Err e => Err (GenError e)
  | Ok content =>
      let? required := required_images s c in
      match final_generation content required observed with
      | Ok g => Ok g
      | Err e => Err (GenError e)
      end
  end.
End digests.
