(* ===== verification/GenerationIdentity.v ===== *)
(** * GenerationIdentity: equal generations are equal builds

    The bytes hashed for a content digest are a prefix code of the stack's build fields and the
    context's entries: equal digests come from equal builds, or from two different byte strings
    that SHA-256 maps to one digest. *)

From Stdlib Require Import Ascii.
From stdpp Require Import pretty.
From S2P Require Import Generation ManifestSafety.

Local Open Scope string_scope.
Local Open Scope list_scope.
Local Open Scope Z_scope.
Local Open Scope bosn_scope.

(** ** Big-endian integers *)

Lemma length_be_bytes k n : String.length (be_bytes k n) = k.
Proof. induction k as [|k IH]; cbn; [done|]. by rewrite IH. Qed.
Lemma byte_inj a b :
  0 ≤ a < 256 → 0 ≤ b < 256 → ascii_of_N (Z.to_N a) = ascii_of_N (Z.to_N b) → a = b.
Proof. intros Ha Hb Hab. apply (f_equal N_of_ascii) in Hab. rewrite !N_ascii_embedding in Hab; lia. Qed.
Lemma be_bytes_mod k a b : be_bytes k a = be_bytes k b → a mod 256 ^ Z.of_nat k = b mod 256 ^ Z.of_nat k.
Proof.
  induction k as [|k IH]; intros Hab; [by rewrite !Z.mod_1_r|].
  cbn [be_bytes] in Hab. injection Hab as Hc Hr. apply IH in Hr. apply byte_inj in Hc; [|apply Z.mod_pos_bound; lia..].
  rewrite Nat2Z.inj_succ, Z.pow_succ_r, Z.mul_comm by lia.
  rewrite !Z.rem_mul_r by lia. lia.
Qed.
Lemma be_bytes_inj a b : 0 ≤ a < 2 ^ 64 → 0 ≤ b < 2 ^ 64 → be_bytes 8 a = be_bytes 8 b → a = b.
Proof. intros Ha Hb Hab%be_bytes_mod. change (256 ^ Z.of_nat 8) with (2 ^ 64) in Hab. rewrite !Z.mod_small in Hab; lia. Qed.

(** ** Prefix codes *)

Lemma str_len_append s t : str_len (s +:+ t) = str_len s + str_len t.
Proof. unfold str_len. rewrite length_append. lia. Qed.
Lemma append_inj (s t u v : string) :
  String.length s = String.length t → s +:+ u = t +:+ v → s = t ∧ u = v.
Proof.
  revert t. induction s as [|a s IH]; intros [|b t]; cbn; try done. rewrite !string_app_cons.
  intros [= Hl] [= -> He]. by destruct (IH t Hl He) as [-> ->].
Qed.
(** The texts up to here are shorter than [2 ^ 64]: what follows [enc] of one of two values is
    the same, and so is [view] of the values. *)
Definition reads {A B} (P : A → Prop) (view : A → B) (enc : A → string) : Prop := ∀ a b r r',
  P a → P b → str_len (enc a +:+ r) < 2 ^ 64 → enc a +:+ r = enc b +:+ r' → view a = view b ∧ r = r'.

Lemma short_rest s t : str_len (s +:+ t) < 2 ^ 64 → str_len t < 2 ^ 64.
Proof. rewrite str_len_append. unfold str_len. lia. Qed.
Lemma field_reads : reads (λ _, True) id field.
Proof.
  intros a b r r' _ _ Hlen He. pose proof He as Hl. apply (f_equal str_len) in Hl.
  unfold field in *. rewrite !string_app_assoc in He. rewrite !str_len_append in Hlen.
  rewrite (str_len_append _ r), (str_len_append _ r'), !str_len_append in Hl.
  assert (H8 : ∀ n, str_len (be_bytes 8 n) = 8) by (intros; unfold str_len; by rewrite length_be_bytes).
  rewrite (H8 (str_len a)) in Hlen. rewrite (H8 (str_len a)), (H8 (str_len b)) in Hl.
  apply append_inj in He as [Hab He]; [|by rewrite !length_be_bytes].
  assert (0 ≤ str_len a ∧ 0 ≤ str_len b ∧ 0 ≤ str_len r ∧ 0 ≤ str_len r') as (? & ? & ? & ?)
    by (unfold str_len; lia).
  apply be_bytes_inj in Hab; [|lia..].
  apply append_inj in He; [done|]. unfold str_len in Hab. lia.
Qed.
(** Take the same field off both sides of an equation. *)
Ltac peel :=
  repeat match goal with
  | Hlen : str_len (field ?a +:+ ?r) < _, H : field ?a +:+ ?r = field ?b +:+ ?r' |- _ =>
      let E := fresh "E" in let H' := fresh "H" in
      destruct (field_reads a b r r' I I Hlen H) as [E H']; apply short_rest in Hlen;
      clear H; rename H' into H; cbn [id] in E
  end.
(** The elements of two lists of the same length, one after the other. *)
Lemma list_reads {A B} P (view : A → B) enc l l' r r' :
  reads P view enc → Forall P l → Forall P l' → length l = length l' →
  str_len (concat_text (enc <$> l) +:+ r) < 2 ^ 64 →
  concat_text (enc <$> l) +:+ r = concat_text (enc <$> l') +:+ r' → view <$> l = view <$> l' ∧ r = r'.
Proof.
  intros Henc Hl. revert l'. induction Hl as [|a l Ha Hl IH]; intros [|b l'] Hl' Hn Hlen He; try done.
  apply Forall_cons in Hl' as [Hb Hl']. rewrite !fmap_cons in *. cbn [concat_text foldr] in *.
  rewrite !string_app_assoc in *.
  destruct (Henc a b _ _ Ha Hb Hlen He) as [-> He']. apply short_rest in Hlen.
  injection Hn as Hn. by destruct (IH l' Hl' Hn Hlen He') as [-> ->].
Qed.
(** A list is no longer than its code. *)
Lemma list_short {A} (enc : A → string) l r :
  (∀ a, 1 ≤ str_len (enc a)) → Z.of_nat (length l) ≤ str_len (concat_text (enc <$> l) +:+ r).
Proof.
  intros He. rewrite str_len_append. assert (0 ≤ str_len r) by (unfold str_len; lia).
  induction l as [|a l IH]; [cbn [length]; unfold str_len; lia|]. rewrite fmap_cons. cbn [concat_text foldr length].
  rewrite str_len_append. specialize (He a). unfold concat_text in IH. lia.
Qed.
Lemma counted_reads {A B} P (view : A → B) enc tag l l' r r' :
  reads P view enc → (∀ a, 1 ≤ str_len (enc a)) → Forall P l → Forall P l' →
  str_len (count tag (length l) +:+ concat_text (enc <$> l) +:+ r) < 2 ^ 64 →
  count tag (length l) +:+ concat_text (enc <$> l) +:+ r
    = count tag (length l') +:+ concat_text (enc <$> l') +:+ r' →
  view <$> l = view <$> l' ∧ r = r' ∧ str_len r < 2 ^ 64.
Proof.
  intros Henc Hone Hl Hl' Hlen He. unfold count in *. rewrite !string_app_assoc in *. peel.
  pose proof Hlen as Hlen'. rewrite He in Hlen'. apply short_rest in Hlen, Hlen'.
  apply append_inj in He as [Hn He]; [|by rewrite !length_be_bytes].
  apply be_bytes_inj in Hn; [|pose proof (list_short enc l r Hone); lia|
    pose proof (list_short enc l' r' Hone); lia].
  destruct (list_reads P view enc l l' r r') as [Hv ->]; try done; [lia|].
  by apply short_rest in Hlen.
Qed.

(** ** The parts of a build *)

(** What the digest keeps of a volume and of a guest: everything but a volume's mode, and a guest
    without a payload is one with an empty payload. *)
Definition volume_view (v : Volume) : string * Scope * string * Retention :=
  (v_name v, v_scope v, mount_at v, v_retention v).
Definition guest_view (g : Guest) : Guest :=
  {| g_ssh_port := g_ssh_port g; g_ssh_user := g_ssh_user g; g_ssh_host := g_ssh_host g;
     g_web_port := g_web_port g; g_ready_timeout := g_ready_timeout g;
     g_ready_poll_interval := g_ready_poll_interval g; g_version := g_version g;
     g_ram_size := g_ram_size g; g_disk_size := g_disk_size g; g_cpu_cores := g_cpu_cores g;
     g_payload := Some (default "" (g_payload g)); g_payload_destination := g_payload_destination g |}.

Lemma text_inj {A} (as_str : A → string) parse `{!TextEnum as_str parse} a b : as_str a = as_str b → a = b.
Proof. intros Hab. apply (f_equal parse) in Hab. rewrite !parse_as_str in Hab. congruence. Qed.
Lemma volume_reads : reads (λ _, True) volume_view volume_record.
Proof.
  intros v w r r' _ _ Hlen He. unfold volume_record in *. rewrite !string_app_assoc in *. peel.
  unfold volume_view. split; [|done].
  rewrite E, E1, (text_inj Scope_as_str Scope_parse _ _ E0),
    (text_inj Retention_as_str Retention_parse _ _ E2). done.
Qed.
Lemma no_upper mode (up : option OverlayUpper) :
  (mode = Overlay ↔ is_Some up) → (up = None ↔ mode ≠ Overlay).
Proof.
  intros [H1 H2]. split; [by intros -> [? ?]%H1|]. intros Hm. destruct up; [|done].
  by destruct Hm; apply H2.
Qed.
Lemma mount_reads : reads (λ m, m_mode m = Overlay ↔ is_Some (m_upper m)) id mount_record.
Proof.
  intros [n s d mode up] [n' s' d' mode' up'] r r' Hm Hm' Hlen He. unfold mount_record in *. cbn in Hm, Hm'.
  cbn [m_name m_source m_destination m_mode m_upper] in *. rewrite !string_app_assoc in *. peel. subst.
  apply no_upper in Hm, Hm'.
  destruct mode, mode'; try done.
  1, 2: rewrite (proj2 Hm), (proj2 Hm') in * by done; by split.
  destruct up as [up|]; [|by destruct (proj1 Hm)]. destruct up' as [up'|]; [|by destruct (proj1 Hm')].
  destruct up, up'; rewrite ?string_app_assoc in *; peel; try done. by subst.
Qed.
Lemma tmpfs_reads : reads (λ _, True) t_value (λ t, field (t_value t)).
Proof. intros t u r r' _ _. by apply (field_reads (t_value t) (t_value u)). Qed.
Lemma env_reads : reads (λ _, True) id (λ kv : string * string, field kv.1 +:+ field kv.2).
Proof.
  intros [k v] [k' v'] r r' _ _ Hlen He. rewrite !string_app_assoc in *. cbn in *. peel. by subst.
Qed.

Lemma pretty_N_go_grows x s : (String.length s ≤ String.length (pretty_N_go x s))%nat.
Proof.
  revert s. induction (N.lt_wf_0 x) as [x _ IH]; intros s.
  destruct (decide (x = 0%N)) as [->|]; [by rewrite pretty_N_go_0|].
  rewrite pretty_N_go_step by lia. etrans; [|apply IH, N.div_lt; lia]. cbn. lia.
Qed.
Lemma pretty_Z_nonempty (z : Z) : pretty z ≠ "".
Proof.
  destruct z as [|p|p]; [done| |done]. change (pretty (Z.pos p)) with (pretty (N.pos p)).
  unfold pretty, pretty_N. rewrite decide_False, pretty_N_go_step by lia. intros He.
  pose proof (pretty_N_go_grows (N.pos p `div` 10) (String (pretty_N_char (N.pos p `mod` 10)) "")) as Hl.
  rewrite He in Hl. cbn in Hl. lia.
Qed.
Lemma guest_values_view g h : guest_values g = guest_values h → guest_view g = guest_view h.
Proof.
  unfold guest_values. intros He. injection He as H1 Hu Hh H2 H3 H4 Hv Hr Hd H5 H6 H7.
  apply (inj pretty) in H1, H2, H3, H4. unfold guest_view. rewrite H1, Hu, Hh, H2, H3, H4, Hv, Hr, Hd, H6, H7.
  f_equal. destruct (g_cpu_cores g), (g_cpu_cores h); cbn in H5; try done.
  - by apply (inj pretty) in H5 as ->.
  - by apply pretty_Z_nonempty in H5.
  - by symmetry in H5; apply pretty_Z_nonempty in H5.
Qed.
Lemma guest_reads : reads (λ _, True) (fmap guest_view) guest_fields.
Proof.
  intros g h r r' _ _ Hlen He. unfold guest_fields in *.
  destruct g as [g|], h as [h|]; rewrite ?string_app_assoc in *; peel; try done.
  destruct (list_reads (λ _, True) id field (guest_values g) (guest_values h) r r') as [Hv ->];
    try done; [apply field_reads|by apply Forall_true..|].
  rewrite !list_fmap_id in Hv. cbn. by rewrite (guest_values_view g h).
Qed.
Lemma entry_reads : reads (λ _, True) id entry_record.
Proof.
  intros a b r r' _ _ Hlen He. unfold entry_record in *. rewrite !(string_app_assoc path_record) in *.
  apply short_rest in Hlen. apply append_inj in He as [_ He]; [|done].
  destruct a as [p bytes x|p|p t], b as [p' bytes' x'|p'|p' t']; rewrite !string_app_assoc in *;
    try destruct x; try destruct x'; peel; try done; by subst.
Qed.
Lemma entry_record_nonempty e : 1 ≤ str_len (entry_record e).
Proof. unfold entry_record. rewrite str_len_append. unfold path_record, str_len. cbn. lia. Qed.
Lemma field_nonempty s : 1 ≤ str_len (field s).
Proof. unfold field. rewrite str_len_append. unfold str_len. rewrite length_be_bytes. lia. Qed.
(** The elements of two lists up to the end of the text. *)
Lemma stream_reads {A B} P (view : A → B) (enc : A → string) l l' :
  reads P view enc → (∀ a, 1 ≤ str_len (enc a)) → Forall P l → Forall P l' →
  str_len (concat_text (enc <$> l)) < 2 ^ 64 →
  concat_text (enc <$> l) = concat_text (enc <$> l') → view <$> l = view <$> l'.
Proof.
  intros Henc Hone Hl. revert l'. induction Hl as [|a l Ha Hl IH]; intros l' Hl' Hlen He;
    destruct Hl' as [|b l' Hb Hl']; try done;
    rewrite ?fmap_cons in *; cbn [concat_text foldr fmap list_fmap] in *.
  - specialize (Hone b). apply (f_equal str_len) in He. rewrite str_len_append in He.
    unfold str_len in *. cbn in He. lia.
  - specialize (Hone a). apply (f_equal str_len) in He. rewrite str_len_append in He.
    unfold str_len in *. cbn in He. lia.
  - destruct (Henc a b _ _ Ha Hb Hlen He) as [-> He']. f_equal.
    apply IH; [done| |done]. by apply short_rest in Hlen.
Qed.

(** ** Digests *)

(** The bytes a content digest hashes. *)
Definition content_text (s : ManifestStack) (c : ContextObservation) : string :=
  (field "bosn-generation-content-v1" +:+ stack_fields s)
  +:+ concat_text (entry_record <$> sort_by entry_cmp (co_entries c)).
(** Two stacks and contexts that build the same: what they differ in is not an input of the build. *)
Record same_build (s s' : ManifestStack) (c c' : ContextObservation) : Prop := {
  same_name : s_name s = s_name s';
  same_source : s_dockerfile s = s_dockerfile s' ∧ s_image s = s_image s';
  same_family : default "" (s_family s) = default "" (s_family s');
  same_volumes : volume_view <$> s_volumes s ≡ₚ volume_view <$> s_volumes s';
  same_mounts : s_mounts s ≡ₚ s_mounts s';
  same_tmpfs : t_value <$> s_tmpfs s ≡ₚ t_value <$> s_tmpfs s';
  same_env : s_env s = s_env s';
  same_guest : s_kind s = s_kind s' ∧ guest_view <$> s_guest s = guest_view <$> s_guest s'
    ∧ s_acknowledge_macos_license s = s_acknowledge_macos_license s';
  same_context : co_entries c ≡ₚ co_entries c' }.

Lemma hash_entries_Ok h seen l h' :
  hash_entries h seen l = Ok h' → h' = h +:+ concat_text (entry_record <$> l).
Proof.
  revert h seen. induction l as [|e l IH]; intros h seen; cbn [hash_entries].
  { intros [= <-]. by rewrite string_app_nil. }
  intros Hh. results. apply IH in Hh as ->. by rewrite string_app_assoc.
Qed.
Lemma content_digest_Ok `{!Sha256} m s c d :
  content_digest m s c = Ok d → d = digest (content_text s c).
Proof. unfold content_digest. intros Hd. results. subst d. by apply hash_entries_Ok in Hv0 as ->. Qed.

Lemma default_empty (o o' : option string) :
  o ≠ Some "" → o' ≠ Some "" → default "" o = default "" o' → o = o'.
Proof. destruct o, o'; cbn; intros; congruence. Qed.
(** A list is determined up to order by its sorted images. *)
Lemma sorted_view {A B} (cmp : A → A → comparison) (view : A → B) l l' :
  view <$> sort_by cmp l = view <$> sort_by cmp l' → view <$> l ≡ₚ view <$> l'.
Proof. intros He. by rewrite <- (sort_by_perm cmp l), <- (sort_by_perm cmp l'), He. Qed.
Lemma sound_uppers s :
  stack_sound s → Forall (λ m, m_mode m = Overlay ↔ is_Some (m_upper m)) (sort_by Mount_cmp (s_mounts s)).
Proof. intros Hs. rewrite sort_by_perm. eapply Forall_impl; [apply Hs|]. by intros m (_ & _ & ? & _). Qed.

Lemma volume_record_nonempty v : 1 ≤ str_len (volume_record v).
Proof. unfold volume_record. rewrite str_len_append. pose proof (field_nonempty (v_name v)). unfold str_len in *. lia. Qed.
Lemma mount_record_nonempty m : 1 ≤ str_len (mount_record m).
Proof. unfold mount_record. rewrite str_len_append. pose proof (field_nonempty (m_name m)). unfold str_len in *. lia. Qed.
Lemma env_record_nonempty (kv : string * string) : 1 ≤ str_len (field kv.1 +:+ field kv.2).
Proof. rewrite str_len_append. pose proof (field_nonempty kv.1). unfold str_len in *. lia. Qed.
Lemma sound_kind_nonempty s : stack_sound s → s_kind s ≠ Some "".
Proof. intros Hs Hk. by apply Hs in Hk. Qed.
(** Take the same counted list off both sides of an equation. *)
Tactic Notation "peel_list" uconstr(lemma) uconstr(nonempty) uconstr(forall1) uconstr(forall2) :=
  match goal with
  | Hlen : str_len (count _ _ +:+ _) < _, H : count _ _ +:+ _ = _ |- _ =>
      let E := fresh "L" in let H' := fresh "H" in let Hl := fresh "Hlen" in
      destruct (counted_reads _ _ _ _ _ _ _ _ lemma nonempty forall1 forall2 Hlen H) as (E & H' & Hl);
      clear H Hlen; rename H' into H, Hl into Hlen
  end.
Lemma any_forall {A} (l : list A) : Forall (λ _, True) l.
Proof. by apply Forall_true. Qed.
Lemma content_text_inj s s' c c' :
  stack_sound s → stack_sound s' → str_len (content_text s c) < 2 ^ 64 →
  content_text s c = content_text s' c' → same_build s s' c c'.
Proof.
  intros Hs Hs' Hlen He. unfold content_text, stack_fields in Hlen, He. rewrite !string_app_assoc in Hlen, He.
  symmetry in He. rewrite !string_app_assoc in He. symmetry in He. peel.
  peel_list volume_reads volume_record_nonempty (any_forall _) (any_forall _).
  peel_list mount_reads mount_record_nonempty (sound_uppers s Hs) (sound_uppers s' Hs').
  peel_list tmpfs_reads (λ t, field_nonempty (t_value t)) (any_forall _) (any_forall _).
  peel_list env_reads env_record_nonempty (any_forall _) (any_forall _).
  peel.
  destruct (guest_reads _ _ _ _ I I Hlen He) as [Hg He']. apply short_rest in Hlen.
  apply (stream_reads _ _ _ _ _ entry_reads entry_record_nonempty) in He'; [|apply any_forall..|done].
  rewrite !list_fmap_id in L2.
  split; try done.
  - split; apply default_empty; try done; by apply Hs || by apply Hs'.
  - by eapply sorted_view.
  - apply (sorted_view Mount_cmp id) in L0. by rewrite !list_fmap_id in L0.
  - by eapply sorted_view.
  - split_and!; [by apply default_empty; [apply sound_kind_nonempty..|]|done|].
    by destruct (s_acknowledge_macos_license s), (s_acknowledge_macos_license s').
  - apply (sorted_view entry_cmp id) in He'. by rewrite !list_fmap_id in He'.
Qed.

Definition collides `{!Sha256} (a b : string) : Prop := a ≠ b ∧ sha256 a = sha256 b.
Lemma digest_eq `{!Sha256} a b : digest a = digest b → a = b ∨ collides a b.
Proof.
  unfold digest. intros He. apply append_inj in He as [_ He]; [|done].
  destruct (decide (a = b)); [by left|by right].
Qed.
Lemma content_digest_same `{!Sha256} m m' s s' c c' d :
  stack_sound s → stack_sound s' → str_len (content_text s c) < 2 ^ 64 →
  content_digest m s c = Ok d → content_digest m' s' c' = Ok d →
  same_build s s' c c' ∨ collides (content_text s c) (content_text s' c').
Proof.
  intros Hs Hs' Hlen Hd Hd'. apply content_digest_Ok in Hd, Hd'. subst d.
  apply digest_eq in Hd' as [He|]; [|by right]. left. by apply content_text_inj.
Qed.

(** ** External images *)

Definition image_key (i : ExternalImageIdentity) : string * option string := (ei_reference i, ei_platform i).
(** What a generation keeps of a resolved image. *)
Definition image_view (i : ExternalImageIdentity) : string * string * option string :=
  (ei_reference i, default "" (ei_platform i), ei_identity i).
Definition acceptable (i : ExternalImageIdentity) : Prop :=
  trim (ei_reference i) ≠ "" ∧ ∀ id, ei_identity i = Some id → valid_sha256_digest id = true.
Definition resolved (i : ExternalImageIdentity) : Prop := acceptable i ∧ is_Some (ei_identity i).

Lemma same_image_key a b : same_image a b = true ↔ image_key a = image_key b.
Proof.
  unfold same_image, image_key. split; intros He; [booleans; congruence|].
  injection He as -> ->. by rewrite !bool_decide_eq_true_2.
Qed.
Lemma image_cmp_key a b : image_cmp a b = Eq ↔ image_key a = image_key b.
Proof.
  unfold image_cmp, cmp_then, cmp_on, image_key. split.
  - destruct (String.compare _ _) eqn:Hr; try done. apply string_compare_Eq in Hr as ->.
    destruct (ei_platform a), (ei_platform b); cbn; try done. by intros ->%string_compare_Eq.
  - intros [= -> ->]. rewrite (cmp_refl String.compare). destruct (ei_platform b); cbn; [apply (cmp_refl String.compare)|done].
Qed.
#[local] Instance image_cmp_total : TotalCmp image_cmp.
Proof. unfold image_cmp. apply _. Qed.
Lemma first_repeat_NoDup l :
  StronglySorted (cmp_le image_cmp) l → first_repeat l = None ↔ NoDup (image_key <$> l).
Proof.
  induction 1 as [|a l Hl IH Ha]; [split; [constructor|done]|]. cbn [first_repeat].
  rewrite fmap_cons, NoDup_cons. destruct l as [|b l].
  { split; [intros _; split; [apply not_elem_of_nil|constructor]|done]. }
  destruct (same_image a b) eqn:Hab.
  - apply same_image_key in Hab. split; [done|]. intros [Hn _]. destruct Hn. rewrite Hab. by left.
  - rewrite IH. split; [|by intros [_ ?]]. intros Hnd. split; [|done].
    intros (x & Hx & Hin)%list_elem_of_fmap. apply not_true_iff_false in Hab. apply Hab, same_image_key.
    apply image_cmp_key. apply image_cmp_key in Hx.
    apply Forall_cons in Ha as [Hab' _]. apply elem_of_cons in Hin as [->|Hin]; [done|].
    apply StronglySorted_inv in Hl as [_ Hb]. rewrite Forall_forall in Hb. specialize (Hb _ Hin).
    unfold cmp_le in *. rewrite (cmp_Eq_l image_cmp a x b Hx) in Hab' |- *.
    rewrite (cmp_opp image_cmp x b) in Hb. by destruct (image_cmp x b).
Qed.

Lemma check_images_Ok l b :
  check_images l b = Ok tt ↔ Forall (λ i, acceptable i ∧ (b = true → is_Some (ei_identity i))) l.
Proof.
  induction l as [|i l IH]; [split; [constructor|done]|]. cbn [check_images]. rewrite Forall_cons, <- IH.
  unfold acceptable. split.
  - intros Hc. destruct (refuse _ _) eqn:Ht in Hc; [|done]. apply refuse_Ok in Ht. booleans.
    destruct (ei_identity i) as [id|].
    + destruct (refuse _ _) eqn:Hv in Hc; [|done]. apply refuse_Ok in Hv. booleans.
      split_and!; [done|congruence|by eexists|done].
    + destruct b; [done|]. by cbn in Hc.
  - intros [[[Ht Hid] Hb] Hl]. rewrite (bool_decide_eq_false_2 _ Ht). cbn.
    destruct (ei_identity i) as [id|]; [by rewrite (Hid id)|].
    destruct b; [by destruct (Hb eq_refl)|done].
Qed.
Lemma canonical_images_Ok l out :
  canonical_images l true = Ok out ↔
  out = sort_by image_cmp l ∧ NoDup (image_key <$> l) ∧ Forall resolved l.
Proof.
  unfold canonical_images.
  assert (Hnd : first_repeat (sort_by image_cmp l) = None ↔ NoDup (image_key <$> l)).
  { rewrite first_repeat_NoDup by apply (sort_by_sorted _). by rewrite sort_by_perm. }
  assert (Hok : check_images (sort_by image_cmp l) true = Ok tt ↔ Forall resolved l).
  { rewrite check_images_Ok, sort_by_perm. unfold resolved.
    split; (intros HF; eapply Forall_impl; [exact HF|]; intros i [? ?]; auto). }
  destruct (first_repeat _).
  { split; [done|]. by intros (_ & Hn%Hnd & _). }
  destruct (check_images _ _) as [[]|].
  - split; [intros [= <-]|by intros (-> & _)]. split_and!; [done|by apply Hnd|by apply Hok].
  - split; [done|]. by intros (_ & _ & Hr%Hok).
Qed.
Lemma elem_of_dedup_after p l x :
  x ∈ dedup_after p l → x ∈ l.
Proof.
  revert p. induction l as [|i l IH]; intros p; cbn [dedup_after]; [done|].
  destruct (same_image i p); [intros; right; eauto|]. intros [->|Hx]%elem_of_cons; [by left|right; eauto].
Qed.
Lemma dedup_after_keys p l k :
  k ∈ image_key <$> l → k = image_key p ∨ k ∈ image_key <$> dedup_after p l.
Proof.
  revert p. induction l as [|i l IH]; intros p; cbn [dedup_after]; [by intros ?%elem_of_nil|].
  rewrite fmap_cons. destruct (same_image i p) eqn:Hs.
  - apply same_image_key in Hs. intros [->|Hx]%elem_of_cons; [by left|by apply IH].
  - rewrite fmap_cons. intros [->|Hx]%elem_of_cons; [right; by left|].
    right. apply elem_of_cons. destruct (IH i Hx); auto.
Qed.
Lemma dedup_images_keys l k : k ∈ image_key <$> dedup_images l ↔ k ∈ image_key <$> l.
Proof.
  destruct l as [|i l]; [done|]. cbn [dedup_images]. rewrite !fmap_cons, !elem_of_cons. split.
  - intros [->|(x & -> & Hx)%list_elem_of_fmap]; [by left|]. right. apply list_elem_of_fmap.
    exists x. split; [done|]. by eapply elem_of_dedup_after.
  - intros [->|Hk]; [by left|]. destruct (dedup_after_keys i l k Hk); auto.
Qed.
Lemma find_unmatched_None l l' :
  find_unmatched l l' = None ↔ ∀ k, k ∈ image_key <$> l → k ∈ image_key <$> l'.
Proof.
  unfold find_unmatched. split.
  - intros Hh%head_filterb_None k (i & -> & Hi)%list_elem_of_fmap. rewrite Forall_forall in Hh.
    specialize (Hh _ Hi). booleans. apply existsb_exists in Hh as (x & Hx & Hs).
    apply list_elem_of_fmap. exists x. split; [symmetry; by apply same_image_key|by apply list_elem_of_In].
  - intros Hk. destruct (head _) as [i|] eqn:Hh; [|done]. apply head_Some_elem_of in Hh.
    apply elem_of_filterb in Hh as [Hf Hi]. booleans.
    assert (Hin : image_key i ∈ image_key <$> l') by by apply Hk, list_elem_of_fmap_2.
    apply list_elem_of_fmap in Hin as (x & He & Hx).
    apply existsb_false_forall in Hf. rewrite Forall_forall in Hf. specialize (Hf _ Hx).
    apply not_true_iff_false in Hf. destruct Hf. by apply same_image_key.
Qed.

(** What the resolver observed is accepted exactly when it resolves what the build requires. *)
Lemma validate_resolved_images_Ok required observed out :
  validate_resolved_images required observed = Ok out ↔
  out = sort_by image_cmp observed ∧ NoDup (image_key <$> observed) ∧ Forall resolved observed
  ∧ Forall acceptable required
  ∧ ∀ k, k ∈ image_key <$> observed ↔ k ∈ image_key <$> required.
Proof.
  unfold validate_resolved_images, canonical_required_images.
  assert (Hreq : check_images (sort_by image_cmp required) false = Ok tt ↔ Forall acceptable required).
  { rewrite check_images_Ok, sort_by_perm.
    split; (intros HF; eapply Forall_impl; [exact HF|]); [by intros i [? _]|by intros i ?; split]. }
  destruct (check_images _ _) as [[]|]; [|split; [done|by intros (_ & _ & _ & Hr%Hreq & _)]].
  assert (Hkey : ∀ k,
    k ∈ image_key <$> dedup_images (sort_by image_cmp required) ↔ k ∈ image_key <$> required).
  { intros k. rewrite dedup_images_keys. by rewrite sort_by_perm. }
  destruct (canonical_images observed true) as [obs|e] eqn:Hobs.
  - pose proof (proj1 (canonical_images_Ok observed obs) Hobs) as (-> & Hnd & Hres).
    set (R := dedup_images _) in *. set (O := sort_by image_cmp observed) in *.
    assert (Hkey' : ∀ k, k ∈ image_key <$> O ↔ k ∈ image_key <$> observed).
    { intros k. unfold O. by rewrite sort_by_perm. }
    pose proof (find_unmatched_None R O) as HM. pose proof (find_unmatched_None O R) as HU.
    destruct (find_unmatched R O); [|destruct (find_unmatched O R)]; split; try done.
    + intros (_ & _ & _ & _ & Hk). exfalso. enough (Some e = None) by done.
      apply HM. intros k. by rewrite Hkey, Hkey', Hk.
    + intros (_ & _ & _ & _ & Hk). exfalso. enough (Some e = None) by done.
      apply HU. intros k. by rewrite Hkey, Hkey', Hk.
    + intros [= <-]. split_and!; try done; [by apply Hreq|]. intros k. rewrite <- Hkey, <- Hkey'.
      split; [by apply HU|by apply HM].
    + by intros (-> & _).
  - split; [done|]. intros (_ & Hnd & Hres & _). exfalso.
    enough (canonical_images observed true = Ok (sort_by image_cmp observed)) by congruence.
    by apply canonical_images_Ok.
Qed.

(** ** Generations *)

Definition image_text (i : ExternalImageIdentity) : string :=
  field (ei_reference i) +:+ field (default "" (ei_platform i)) +:+ field (default "" (ei_identity i)).
(** The bytes a resolved generation hashes. *)
Definition resolved_text (content : string) (observed : list ExternalImageIdentity) : string :=
  field "bosn-generation-resolved-v1" +:+ field content
  +:+ concat_text (image_text <$> sort_by image_cmp observed).

Lemma image_reads : reads (λ i, is_Some (ei_identity i)) image_view image_text.
Proof.
  intros i j r r' [a Ha] [b Hb] Hlen He. unfold image_text in *. rewrite Ha, Hb in *.
  rewrite !string_app_assoc in *. peel. unfold image_view. cbn in *. split; congruence.
Qed.
Lemma image_text_nonempty i : 1 ≤ str_len (image_text i).
Proof. unfold image_text. rewrite str_len_append. pose proof (field_nonempty (ei_reference i)). unfold str_len in *. lia. Qed.
Lemma image_fields_resolved l :
  Forall resolved l → image_fields l = Ok (concat_text (image_text <$> l)).
Proof.
  induction 1 as [|i l [_ [id Hid]] Hl IH]; [done|]. cbn [image_fields]. rewrite IH, fmap_cons, Hid.
  cbn [concat_text foldr ok_or]. unfold image_text at 2. by rewrite Hid, !string_app_assoc.
Qed.
Lemma final_generation_Ok `{!Sha256} content required observed g :
  final_generation content required observed = Ok g ↔
  valid_sha256_digest content = true ∧ g = digest (resolved_text content observed)
  ∧ NoDup (image_key <$> observed) ∧ Forall resolved observed ∧ Forall acceptable required
  ∧ ∀ k, k ∈ image_key <$> observed ↔ k ∈ image_key <$> required.
Proof.
  unfold final_generation, resolved_generation.
  destruct (valid_sha256_digest content); cbn [negb refuse]; [|split; [done|by intros [? _]]].
  assert (Hres : ∀ obs, NoDup (image_key <$> obs) → Forall resolved obs →
    canonical_images (sort_by image_cmp obs) true = Ok (sort_by image_cmp obs)
    ∧ image_fields (sort_by image_cmp obs) = Ok (concat_text (image_text <$> sort_by image_cmp obs))).
  { intros obs Hnd HF. split; [|apply image_fields_resolved; by rewrite sort_by_perm].
    apply canonical_images_Ok. rewrite (sort_by_id _ _ (sort_by_sorted image_cmp obs)).
    split_and!; [done|by rewrite sort_by_perm..]. }
  destruct (validate_resolved_images required observed) as [obs|e] eqn:Hv.
  - apply validate_resolved_images_Ok in Hv as (-> & Hnd & HF & Hreq & Hk).
    destruct (Hres observed Hnd HF) as [-> ->]. unfold resolved_text. split.
    + intros [= <-]. by split_and!.
    + by intros (_ & -> & _).
  - split; [done|]. intros (_ & _ & Hnd & HF & Hreq & Hk). exfalso.
    enough (validate_resolved_images required observed = Ok (sort_by image_cmp observed)) by congruence.
    by apply validate_resolved_images_Ok.
Qed.

(** A generation is given exactly for a SHA-256 content identity and resolver observations
    that resolve what the build requires: no image is observed twice, every observation has a
    nonblank reference and a SHA-256 identity, every requirement is well formed, and the images
    observed are the images required. It is then the digest of the content identity and of the
    images in canonical order. *)
Theorem final_generation_exact `{!Sha256} content required observed g :
  final_generation content required observed = Ok g ↔
  valid_sha256_digest content = true ∧ g = digest (resolved_text content observed)
  ∧ NoDup (image_key <$> observed) ∧ Forall resolved observed ∧ Forall acceptable required
  ∧ ∀ k, k ∈ image_key <$> observed ↔ k ∈ image_key <$> required.
Proof. apply final_generation_Ok. Qed.

Lemma resolved_identities l : Forall resolved l → Forall (λ i, is_Some (ei_identity i)) l.
Proof. intros HF. eapply Forall_impl; [exact HF|]. by intros i [_ ?]. Qed.
Lemma resolved_text_inj content content' obs obs' :
  Forall (λ i, is_Some (ei_identity i)) obs → Forall (λ i, is_Some (ei_identity i)) obs' →
  str_len (resolved_text content obs) < 2 ^ 64 →
  resolved_text content obs = resolved_text content' obs' →
  content = content' ∧ image_view <$> obs ≡ₚ image_view <$> obs'.
Proof.
  intros HF HF' Hlen He. unfold resolved_text in *. peel.
  apply (stream_reads _ _ _ _ _ image_reads image_text_nonempty) in He;
    [|by rewrite sort_by_perm..|done].
  split; [done|]. by eapply sorted_view.
Qed.

(** C28. One generation is one build: two stacks whose contexts and resolved images have the
    same generation have the same name, Dockerfile, image, environment, guest and licence, and up
    to order the same volumes, mounts, tmpfs mounts, context entries and immutable images; or else
    the theorem names two different byte strings, both hashed here, with one SHA-256 digest. *)
Theorem generation_identifies_build `{!Sha256, !DockerText} m m' s s' c c' obs obs' g content content' :
  stack_sound s → stack_sound s' →
  content = digest (content_text s c) → content' = digest (content_text s' c') →
  str_len (content_text s c) < 2 ^ 64 → str_len (resolved_text content obs) < 2 ^ 64 →
  stack_generation_from_context m s c obs = Ok g →
  stack_generation_from_context m' s' c' obs' = Ok g →
  same_build s s' c c' ∧ image_view <$> obs ≡ₚ image_view <$> obs'
  ∨ collides (content_text s c) (content_text s' c')
  ∨ collides (resolved_text content obs) (resolved_text content' obs').
Proof.
  intros Hs Hs' -> -> Hlen Hlen' Hg Hg'. unfold stack_generation_from_context in Hg, Hg'.
  destruct (content_digest _ s c) as [d|] eqn:Hd; [|done].
  destruct (content_digest _ s' c') as [d'|] eqn:Hd'; [|done].
  destruct (required_images s c); [|done]. destruct (required_images s' c'); [|done].
  destruct (final_generation d _ _) eqn:Hf; [|done]. destruct (final_generation d' _ _) eqn:Hf'; [|done].
  apply final_generation_Ok in Hf as (_ & -> & _ & HF%resolved_identities & _).
  apply final_generation_Ok in Hf' as (_ & -> & _ & HF'%resolved_identities & _). simplify_eq/=.
  pose proof (content_digest_Ok _ _ _ _ Hd) as ->. pose proof (content_digest_Ok _ _ _ _ Hd') as ->.
  destruct (decide (resolved_text (digest (content_text s c)) obs
                    = resolved_text (digest (content_text s' c')) obs')) as [He|]; [|by right; right].
  apply resolved_text_inj in He as [He Hobs]; [|done..].
  apply digest_eq in He as [He|]; [|by right; left]. left. split; [|done]. by apply content_text_inj.
Qed.

(** ** The order of observation *)

#[local] Instance string_cmp_antisymm : AntiSymm (=) (cmp_le String.compare).
Proof.
  intros x y Hxy Hyx. unfold cmp_le in *. destruct (String.compare x y) eqn:E; [by apply string_compare_Eq| |done].
  rewrite (cmp_opp String.compare x y), E in Hyx. done.
Qed.
Lemma sorted_paths l :
  StronglySorted (cmp_le String.compare) (entry_path <$> sort_by entry_cmp l).
Proof.
  assert (Hs : StronglySorted (cmp_le entry_cmp) (sort_by entry_cmp l)) by apply (sort_by_sorted _).
  induction Hs as [|x k Hk IH Hx]; [constructor|]. rewrite fmap_cons. constructor; [done|].
  by apply Forall_fmap.
Qed.
(** Lists in the same order of keys that hold the same elements are equal. *)
Lemma same_keys_eq {A B} (f : A → B) l l' :
  NoDup (f <$> l) → f <$> l = f <$> l' → l ≡ₚ l' → l = l'.
Proof.
  revert l'. induction l as [|x l IH]; intros [|y l'] Hnd He Hp; try done.
  rewrite !fmap_cons in *. injection He as Hxy He. apply NoDup_cons in Hnd as [Hx Hnd].
  assert (Hin : x ∈ y :: l') by (rewrite <- Hp; by left).
  apply elem_of_cons in Hin as [->|Hin]; [|by destruct Hx; rewrite He; apply list_elem_of_fmap_2].
  f_equal. apply IH; [done..|]. by apply Permutation_cons_inv in Hp.
Qed.
Lemma hash_entries_NoDup h seen l h' :
  hash_entries h seen l = Ok h' → NoDup (entry_path <$> l) ∧ Forall (λ p, p ∉ seen) (entry_path <$> l).
Proof.
  revert h seen. induction l as [|e l IH]; intros h seen; cbn [hash_entries]; [by split; constructor|].
  intros Hh. results. apply IH in Hh as [Hnd HF]. rewrite fmap_cons. rewrite Forall_forall in HF. booleans.
  split; constructor; [|done..|].
  - intros Hin%HF. set_solver.
  - apply Forall_forall. intros x Hx%HF. set_solver.
Qed.
(** Which error the entries give depends on their paths alone. *)
Lemma hash_entries_Err h h' seen l l' e :
  entry_path <$> l = entry_path <$> l' → hash_entries h seen l = Err e → hash_entries h' seen l' = Err e.
Proof.
  revert h h' seen l'. induction l as [|x l IH]; intros h h' seen [|y l']; rewrite ?fmap_cons; cbn [hash_entries]; try done.
  intros [= Hp He]. rewrite Hp. destruct (refuse _ _); [|by intros [= ->]].
  destruct (refuse _ _); [|by intros [= ->]]. by apply IH.
Qed.

(** A content digest does not depend on the order in which the context was observed: the
    same entries in any order give the same digest, or the same error. *)
Theorem content_digest_order `{!Sha256} m s c c' :
  co_materialization_root c = co_materialization_root c' → co_entries c ≡ₚ co_entries c' →
  content_digest m s c = content_digest m s c'.
Proof.
  intros Hroot Hp. unfold content_digest. rewrite Hroot. destruct (refuse _ _); [|done].
  assert (Hperm : sort_by entry_cmp (co_entries c) ≡ₚ sort_by entry_cmp (co_entries c'))
    by by rewrite !sort_by_perm.
  assert (Hpaths : entry_path <$> sort_by entry_cmp (co_entries c)
                   = entry_path <$> sort_by entry_cmp (co_entries c')).
  { eapply (StronglySorted_unique (cmp_le String.compare)); [apply sorted_paths..|by rewrite Hperm]. }
  destruct (hash_entries _ _ _) as [h|e] eqn:Hh.
  - apply hash_entries_NoDup in Hh as Hnd. rewrite <- (same_keys_eq _ _ _ (proj1 Hnd) Hpaths Hperm). by rewrite Hh.
  - eapply hash_entries_Err in Hh; [|exact Hpaths]. by rewrite Hh.
Qed.

(** ** Two observations of one build *)

Definition zero_digest : string := "0000000000000000000000000000000000000000000000000000000000000000".
Definition example_sha256 : Sha256 := λ _, zero_digest.
Definition example_docker : DockerText := {| parse_strings := λ _, None; debug := id |}.
Definition example_built : ManifestStack :=
  {| s_name := "dev"; s_dockerfile := None; s_image := Some "rust:1"; s_family := None; s_default := false;
     s_volumes := []; s_mounts := []; s_tmpfs := []; s_env := []; s_workdir := None; s_kind := None;
     s_guest := None; s_acknowledge_macos_license := false; s_job_caches := [];
     s_default_target_volume := true |}.
Lemma example_built_sound : stack_sound example_built.
Proof.
  apply (parse_stack_sound (H := example_text) "dev" [("image", TString "rust:1")]). by vm_compute.
Qed.
Definition example_entries : list ContextEntry :=
  [Directory "src"; File "src/main.rs" "fn main() {}" false; File "run.sh" "cargo test" true].
Definition example_context : ContextObservation :=
  {| co_materialization_root := "."; co_entries := example_entries |}.
Definition example_reversed : ContextObservation :=
  {| co_materialization_root := "."; co_entries := rev example_entries |}.
Definition example_observed : list ExternalImageIdentity :=
  [{| ei_reference := "rust:1"; ei_platform := None; ei_identity := Some ("sha256:" +:+ zero_digest) |}].
Definition example_empty_manifest : Manifest :=
  {| mf_roots := example_roots; mf_stacks := []; mf_tasks := [] |}.

Lemma generation_identifies_build_witness :
  same_build example_built example_built example_context example_reversed
    ∧ image_view <$> example_observed ≡ₚ image_view <$> example_observed
  ∨ collides (H := example_sha256) (content_text example_built example_context)
      (content_text example_built example_reversed)
  ∨ collides (H := example_sha256)
      (resolved_text (digest (H := example_sha256) (content_text example_built example_context)) example_observed)
      (resolved_text (digest (H := example_sha256) (content_text example_built example_reversed)) example_observed).
Proof.
  eapply (@generation_identifies_build example_sha256 example_docker example_empty_manifest
            example_empty_manifest example_built example_built example_context example_reversed
            example_observed example_observed ("sha256:" +:+ zero_digest));
    [apply example_built_sound..|reflexivity|reflexivity|by vm_compute|by vm_compute
    |vm_compute; reflexivity|vm_compute; reflexivity].
Defined.
Lemma content_digest_order_witness :
  content_digest (H := example_sha256) example_empty_manifest example_built example_context
  = content_digest (H := example_sha256) example_empty_manifest example_built example_reversed.
Proof.
  apply (@content_digest_order example_sha256); [reflexivity|].
  unfold example_context, example_reversed. cbn [co_entries]. apply Permutation_rev.
Defined.
