(* ===== verification/Resolver.v ===== *)
(** * Resolver: immutable receipts for the images a build requires

    [bosn-generation/src/resolver.rs] as programs of [Effects]: the Docker commands are calls whose
    answers are arbitrary, as are the time left and the cancellation flag. Time is in nanoseconds,
    zero meaning that the deadline has passed. *)

From Stdlib Require Import Ascii.
From S2P Require Import Effects.
From S2P Require Export Engine Generation.

Local Open Scope string_scope.
Local Open Scope list_scope.
Local Open Scope Z_scope.
Local Open Scope bosn_scope.

(** ** Calls *)

Inductive ResolutionPolicy := ReadOnly | PullIfMissing.
#[global] Instance ResolutionPolicy_eq_dec : EqDecision ResolutionPolicy.
Proof. solve_decision. Defined.
(** Why a command did not run to its end; an [io::Error] is its text. *)
Inductive CommandError :=
| Spawn (error : string)
| DeadlineExceeded (reaped_pid : option Z) (cleanup : option string)
| Cancelled (reaped_pid : option Z) (cleanup : option string)
| OutputLimit (limit : Z) (reaped_pid : option Z) (cleanup : option string)
| OutputCompletion (detail : string) (reaped_pid : option Z) (cleanup : option string)
| OutputConsumerSlow (reaped_pid : option Z) (cleanup : option string)
| OutputConsumerClosed (reaped_pid : option Z) (cleanup : option string)
| CommandIo (error : string).
Inductive ResolutionError :=
| Transport (e : CommandError)
| InvalidInput (reference : string) (platform : option string)
| Missing (reference : string) (platform : option string)
| InspectFailed (reference detail : string)
| Malformed (reference identity : string)
| PullFailed (reference detail : string)
| Deadline
| AutomaticPlatform (detail : string).
Record RunOptions := { ro_deadline : Z; ro_output_limit : Z }.
Definition DEFAULT_OPTIONS : RunOptions :=
  {| ro_deadline := 30 * 10 ^ 9; ro_output_limit := 64 * 1024 |}.

Inductive res_call :=
| CallCapture (args : list string) (options : RunOptions)
| CallStream (args : list string) (options : RunOptions)
| CallRemaining
| CallCancelled.
Definition res_answer (c : res_call) : Type :=
  match c with
  | CallCapture _ _ | CallStream _ _ => result CommandError CommandResult
  | CallRemaining => Z
  | CallCancelled => bool
  end.
Notation res_prog A := (prog res_answer (result ResolutionError A)).

(** ** Commands and receipts *)

Definition platform_args (i : ExternalImageIdentity) : list string :=
  match ei_platform i with Some p => ["--platform"; p] | None => [] end.
Definition inspect_args (i : ExternalImageIdentity) : list string :=
  ["image"; "inspect"] ++ platform_args i ++ ["--format"; "{{.Id}}"; ei_reference i].
Definition pull_args (i : ExternalImageIdentity) : list string :=
  ["pull"] ++ platform_args i ++ [ei_reference i].
Definition inspect (i : ExternalImageIdentity) (options : RunOptions) :
    prog res_answer (result CommandError CommandResult) :=
  perform (CallCapture (inspect_args i) options).
Definition identity_of (i : ExternalImageIdentity) (bytes : string) : result ResolutionError string :=
  let id := trim (from_utf8_lossy bytes) in
  if valid_sha256_digest id then Ok id else Err (Malformed (ei_reference i) id).
Definition receipt (i : ExternalImageIdentity) (bytes : string) : result ResolutionError ExternalImageIdentity :=
  let? id := identity_of i bytes in
  Ok {| ei_reference := ei_reference i; ei_platform := ei_platform i; ei_identity := Some id |}.
Definition unresolved (i : ExternalImageIdentity) : ExternalImageIdentity :=
  {| ei_reference := ei_reference i; ei_platform := ei_platform i; ei_identity := None |}.
Definition has_nul (s : string) : bool := negb (all_bytes (λ a, negb (Ascii.eqb a "000")) s).
Definition invalid (i : ExternalImageIdentity) : bool :=
  (ei_reference i ==? "") || starts_with "-" (ei_reference i) || has_nul (ei_reference i)
  || is_some_and (ei_platform i) (λ p, (p ==? "") || starts_with "-" p || has_nul p).
Definition missing (detail reference : string) : bool :=
  existsb (String.eqb (trim detail))
    ["Error response from daemon: No such image: " +:+ reference;
     "Error response from daemon: No such object: " +:+ reference;
     "No such image: " +:+ reference; "No such object: " +:+ reference].
Definition missing_or_platform_absent (detail : string) (i : ExternalImageIdentity) : bool :=
  missing detail (ei_reference i)
  || match ei_platform i with
     | None => false
     | Some platform =>
         trim detail ==? ("Error response from daemon: image with reference " +:+ ei_reference i
           +:+ " was found but does not provide the specified platform (" +:+ platform +:+ ")")
     end.

(** ** Blocking resolution *)

Definition resolve_image (policy : ResolutionPolicy) (options : RunOptions)
    (out : list ExternalImageIdentity) (i : ExternalImageIdentity) : res_prog (list ExternalImageIdentity) :=
  if existsb (λ seen, same_image seen i) out then Ret (Ok out) else
  initial ← inspect i options;
  match initial with
  | Err e => Ret (Err (Transport e))
  | Ok initial =>
      if cr_ok initial then Ret (let? r := receipt i (cr_stdout initial) in Ok (out ++ [r])) else
      let detail := from_utf8_lossy (cr_stderr initial) in
      if negb (missing detail (ei_reference i)) then Ret (Err (InspectFailed (ei_reference i) detail)) else
      if policy ==? ReadOnly then Ret (Ok (out ++ [unresolved i])) else
      pulled ← perform (CallCapture (pull_args i) options);
      match pulled with
      | Err e => Ret (Err (Transport e))
      | Ok pulled =>
          if negb (cr_ok pulled)
          then Ret (Err (PullFailed (ei_reference i) (from_utf8_lossy (cr_stderr pulled)))) else
          after ← inspect i options;
          match after with
          | Err e => Ret (Err (Transport e))
          | Ok after =>
              if cr_ok after then Ret (let? r := receipt i (cr_stdout after) in Ok (out ++ [r])) else
              let detail := from_utf8_lossy (cr_stderr after) in
              Ret (Err (if missing detail (ei_reference i) then Missing (ei_reference i) (ei_platform i)
                        else InspectFailed (ei_reference i) detail))
          end
      end
  end.
Fixpoint resolve_loop (policy : ResolutionPolicy) (options : RunOptions)
    (out required : list ExternalImageIdentity) : res_prog (list ExternalImageIdentity) :=
  match required with
  | [] => Ret (Ok out)
  | i :: required => do! out := resolve_image policy options out i in resolve_loop policy options out required
  end.
Definition resolve_images (required : list ExternalImageIdentity) (policy : ResolutionPolicy)
    (options : RunOptions) : res_prog (list ExternalImageIdentity) :=
  match head (filterb invalid required) with
  | Some i => Ret (Err (InvalidInput (ei_reference i) (ei_platform i)))
  | None => resolve_loop policy options [] required
  end.

(** ** Streaming resolution: one budget of time and output for the whole request *)

Definition usize_saturating_add (a b : Z) : Z := u64_saturating_add a b.
(** The second component is the output budget that is left. *)
Definition stream_command (args : list string) (remaining : Z) : res_prog (CommandResult * Z) :=
  left ← perform CallRemaining;
  if (left : Z) =? 0 then Ret (Err Deadline) else
  answer ← perform (CallStream args {| ro_deadline := left; ro_output_limit := remaining |});
  match answer with
  | Err e => Ret (Err (Transport e))
  | Ok r =>
      let used := usize_saturating_add (str_len (cr_stdout r)) (str_len (cr_stderr r)) in
      if remaining <? used then Ret (Err Deadline) else Ret (Ok (r, remaining - used))
  end.
Definition stream_inspect (i : ExternalImageIdentity) (remaining : Z) : res_prog (CommandResult * Z) :=
  stream_command (inspect_args i) remaining.
Notation Progress := (list ExternalImageIdentity * Z)%type.
Definition resolve_image_streaming (policy : ResolutionPolicy) (st : Progress) (i : ExternalImageIdentity) :
    res_prog Progress :=
  if existsb (λ seen, same_image seen i) st.1 then Ret (Ok st) else
  do! initial := stream_inspect i st.2 in
  if cr_ok initial.1 then Ret (let? r := receipt i (cr_stdout initial.1) in Ok (st.1 ++ [r], initial.2)) else
  let detail := from_utf8_lossy (cr_stderr initial.1) in
  if negb (missing_or_platform_absent detail i) then Ret (Err (InspectFailed (ei_reference i) detail)) else
  if policy ==? ReadOnly then Ret (Ok (st.1 ++ [unresolved i], initial.2)) else
  do! pulled := stream_command (pull_args i) initial.2 in
  if negb (cr_ok pulled.1)
  then Ret (Err (PullFailed (ei_reference i) (from_utf8_lossy (cr_stderr pulled.1)))) else
  do! after := stream_inspect i pulled.2 in
  if cr_ok after.1 then Ret (let? r := receipt i (cr_stdout after.1) in Ok (st.1 ++ [r], after.2)) else
  let detail := from_utf8_lossy (cr_stderr after.1) in
  Ret (Err (if missing_or_platform_absent detail i then Missing (ei_reference i) (ei_platform i)
            else InspectFailed (ei_reference i) detail)).
Fixpoint resolve_loop_streaming (policy : ResolutionPolicy) (st : Progress)
    (required : list ExternalImageIdentity) : res_prog Progress :=
  match required with
  | [] => Ret (Ok st)
  | i :: required => do! st := resolve_image_streaming policy st i in resolve_loop_streaming policy st required
  end.
Definition MAX_IMAGES : Z := 256.
Definition MAX_VALUE_BYTES : Z := 4096.
Definition oversized (i : ExternalImageIdentity) : bool :=
  (MAX_VALUE_BYTES <? str_len (ei_reference i))
  || is_some_and (ei_platform i) (λ p, MAX_VALUE_BYTES <? str_len p).
Definition resolve_images_streaming (required : list ExternalImageIdentity) (policy : ResolutionPolicy)
    (options : RunOptions) : res_prog (list ExternalImageIdentity) :=
  if MAX_IMAGES <? Z.of_nat (length required)
  then Ret (Err (InvalidInput "too many external images" None)) else
  match head (filterb (λ i, invalid i || oversized i) required) with
  | Some i => Ret (Err (InvalidInput (ei_reference i) (ei_platform i)))
  | None =>
      cancelled ← perform CallCancelled;
      if (cancelled : bool) then Ret (Err (Transport (Cancelled None None))) else
      do! st := resolve_loop_streaming policy ([], ro_output_limit options) required in
      Ret (Ok st.1)
  end.

(** ** Automatic platforms *)

Section platforms.
Context `{!DockerText}.

Definition contains_dollar (s : string) : bool := negb (all_bytes (λ a, negb (Ascii.eqb a "$")) s).
Definition platform_byte (a : ascii) : bool := is_ascii_alphanumeric a || Ascii.eqb a "_".
(** The name after a dollar sign and the text behind it. *)
Definition platform_name (rest : string) : result ResolutionError (string * string) :=
  match strip_prefix "{" rest with
  | Some inner =>
      ok_or (split_once "}" inner) (AutomaticPlatform "unterminated automatic platform argument")
  | None => Ok (span platform_byte rest)
  end.
Fixpoint expand_platform_from (fuel : nat) (rest : string) (values : list (string * string)) :
    result ResolutionError string :=
  match fuel, split_once "$" rest with
  | S fuel, Some (before, rest) =>
      let? nr := platform_name rest in
      let? _ := refuse (nr.1 ==? "") (AutomaticPlatform "empty automatic platform argument") in
      let? value := ok_or (tree_get nr.1 values)
        (AutomaticPlatform ("unknown automatic platform argument " +:+ debug nr.1)) in
      let? tail := expand_platform_from fuel nr.2 values in
      Ok (before +:+ value +:+ tail)
  | _, _ => Ok rest
  end.
(** Every round takes a dollar sign off the text, so its length bounds the rounds. *)
Definition expand_platform_value (value : string) (values : list (string * string)) :
    result ResolutionError string :=
  expand_platform_from (S (String.length value)) value values.
Definition platform_values (platform os arch variant : string) : list (string * string) :=
  [("BUILDPLATFORM", platform); ("TARGETPLATFORM", platform); ("BUILDOS", os); ("TARGETOS", os);
   ("BUILDARCH", arch); ("TARGETARCH", arch); ("BUILDVARIANT", variant); ("TARGETVARIANT", variant)].
Definition expand_image (values : list (string * string)) (i : ExternalImageIdentity) :
    result ResolutionError ExternalImageIdentity :=
  let? reference := expand_platform_value (ei_reference i) values in
  let? platform := match ei_platform i with
    | None => Ok None
    | Some v => let? v := expand_platform_value v values in Ok (Some v)
    end in
  Ok {| ei_reference := reference; ei_platform := platform; ei_identity := ei_identity i |}.
Fixpoint expand_images (values : list (string * string)) (l : list ExternalImageIdentity) :
    result ResolutionError (list ExternalImageIdentity) :=
  match l with
  | [] => Ok []
  | i :: l => let? i := expand_image values i in let? l := expand_images values l in Ok (i :: l)
  end.
Definition expand_automatic_platforms_streaming (required : list ExternalImageIdentity) (options : RunOptions) :
    res_prog (list ExternalImageIdentity) :=
  if negb (existsb (λ i, contains_dollar (ei_reference i) || is_some_and (ei_platform i) contains_dollar) required)
  then Ret (Ok required) else
  do! version := stream_command ["version"; "--format"; "{{.Server.Os}}/{{.Server.Arch}}"]
                   (ro_output_limit options) in
  if negb (cr_ok version.1)
  then Ret (Err (AutomaticPlatform (trim (from_utf8_lossy (cr_stderr version.1))))) else
  let platform := trim (from_utf8_lossy (cr_stdout version.1)) in
  let bad := AutomaticPlatform ("invalid daemon platform " +:+ debug platform) in
  match str_split "/" platform with
  | os :: arch :: parts =>
      if (os ==? "") || (arch ==? "") || existsb (λ p, p ==? "") parts then Ret (Err bad)
      else Ret (expand_images (platform_values platform os arch (str_join "/" parts)) required)
  | _ => Ret (Err bad)
  end.
Definition resolve_required_images_streaming (required : list ExternalImageIdentity)
    (policy : ResolutionPolicy) (options : RunOptions) : res_prog (list ExternalImageIdentity) :=
  do! expanded := expand_automatic_platforms_streaming required options in
  resolve_images_streaming expanded policy options.
End platforms.
