(* ===== verification/ResolverSafety.v ===== *)
(** * ResolverSafety: what resolution runs and what it hands over

    The commands of a resolution are inspections, and a pull only where the policy asks for it and
    an inspection has just reported the image missing. What a resolution that may pull returns is
    accepted by [validate_resolved_images] for the images it was asked for. *)

From Stdlib Require Import Ascii.
From S2P Require Import Effects Resolver ManifestSafety GenerationIdentity.

Local Open Scope string_scope.
Local Open Scope list_scope.
Local Open Scope Z_scope.
Local Open Scope bosn_scope.

(** ** Traces *)

Notation Command := (list string * result CommandError CommandResult)%type.
Inductive res_event := Ran (command : Command) | Asked.
Definition res_event_of (c : res_call) : res_answer c → res_event :=
  match c with
  | CallCapture args _ | CallStream args _ => λ a, Ran (args, a)
  | CallRemaining | CallCancelled => λ _, Asked
  end.
Definition commands (tr : list res_event) : list Command :=
  omap (λ e, match e with Ran c => Some c | Asked => None end) tr.
Notation wp_res := (wp res_event_of).

Lemma commands_snoc tr e :
  commands (tr ++ [e]) = commands tr ++ match e with Ran c => [c] | Asked => [] end.
Proof. unfold commands. rewrite omap_app. by destruct e. Qed.

(** The commands a resolution of [required] may run. *)
Inductive lawful (policy : ResolutionPolicy) (required : list ExternalImageIdentity) : list Command → Prop :=
| lawful_nil : lawful policy required []
| lawful_inspect before i a :
    lawful policy required before → i ∈ required → lawful policy required (before ++ [(inspect_args i, a)])
| lawful_pull before i r a :
    policy = PullIfMissing → i ∈ required →
    lawful policy required (before ++ [(inspect_args i, Ok r)]) → cr_ok r = false →
    missing_or_platform_absent (from_utf8_lossy (cr_stderr r)) i = true →
    lawful policy required ((before ++ [(inspect_args i, Ok r)]) ++ [(pull_args i, a)]).
(** The receipts for [required]: every image once, with an immutable identity unless the lookup
    was read only. *)
Definition receipts (policy : ResolutionPolicy) (required out : list ExternalImageIdentity) : Prop :=
  NoDup (image_key <$> out) ∧ (∀ k, k ∈ image_key <$> out ↔ k ∈ image_key <$> required)
  ∧ Forall (λ i, match ei_identity i with
                 | Some id => valid_sha256_digest id = true
                 | None => policy = ReadOnly
                 end) out.

Lemma lawful_read_only required cmds :
  lawful ReadOnly required cmds → Forall (λ c, ∃ i, i ∈ required ∧ c.1 = inspect_args i) cmds.
Proof.
  induction 1 as [|before i a Hl IH Hi|]; [constructor| |done].
  apply Forall_app. split; [done|]. apply Forall_singleton. by exists i.
Qed.

(** ** One image *)

Lemma wp_stream_command args remaining tr :
  wp_res (stream_command args remaining) tr (λ x tr',
    (commands tr' = commands tr ∧ x = Err Deadline)
    ∨ ∃ a, commands tr' = commands tr ++ [(args, a)]
           ∧ match x with Ok (r, _) => a = Ok r | Err _ => True end).
Proof.
  unfold stream_command. intros left. cbn. cbn in left.
  assert (Hleft : commands (tr ++ [Asked]) = commands tr) by (rewrite commands_snoc; apply app_nil_r).
  destruct (left =? 0); [by left|]. intros a. cbn in a.
  assert (Ha : commands ((tr ++ [Asked]) ++ [Ran (args, a)]) = commands tr ++ [(args, a)])
    by by rewrite commands_snoc, Hleft.
  destruct a as [r|e]; cbn; [case_match|]; cbn; right; (eexists; split; [apply Ha|done]).
Qed.

Lemma receipt_Ok i bytes r :
  receipt i bytes = Ok r →
  image_key r = image_key i ∧ ∃ id, ei_identity r = Some id ∧ valid_sha256_digest id = true.
Proof.
  unfold receipt, identity_of. intros Hr. results. subst. split; [done|]. by eexists.
Qed.
(** A receipt for a new image extends the receipts. *)
Lemma receipts_snoc policy done out i r :
  receipts policy done out → existsb (λ seen, same_image seen i) out = false →
  image_key r = image_key i →
  match ei_identity r with Some id => valid_sha256_digest id = true | None => policy = ReadOnly end →
  receipts policy (done ++ [i]) (out ++ [r]).
Proof.
  intros (Hnd & Hk & Hid) Hnew Hr Hrid. split_and!.
  - rewrite fmap_app. apply NoDup_app. split; [done|]. split; [|apply NoDup_singleton].
    intros k Hin ->%list_elem_of_singleton. apply list_elem_of_fmap in Hin as (x & Hx & Hin).
    apply existsb_false_forall in Hnew. rewrite Forall_forall in Hnew. specialize (Hnew _ Hin).
    apply not_true_iff_false in Hnew. apply Hnew, same_image_key. congruence.
  - intros k. rewrite !fmap_app, !elem_of_app, Hk. cbn. by rewrite Hr.
  - apply Forall_app. split; [done|]. by apply Forall_singleton.
Qed.
Lemma receipts_repeat policy done out i :
  receipts policy done out → existsb (λ seen, same_image seen i) out = true →
  receipts policy (done ++ [i]) out.
Proof.
  intros (Hnd & Hk & Hid) (x & Hin & Hs%same_image_key)%existsb_exists. split_and!; [done| |done].
  intros k. rewrite fmap_app, elem_of_app, <- Hk. split; [by left|]. intros [|Hin']; [done|].
  apply list_elem_of_singleton in Hin' as ->. rewrite <- Hs. apply list_elem_of_fmap_2. by apply list_elem_of_In.
Qed.

(** What holds while the images [done] of [required] have been resolved. *)
Definition resolving (policy : ResolutionPolicy) (required done : list ExternalImageIdentity)
    (r : result ResolutionError Progress) (tr : list res_event) : Prop :=
  lawful policy required (commands tr)
  ∧ match r with Ok st => receipts policy done st.1 | Err _ => True end.

(** Add the command of a [stream_command] to a lawful trace. *)
Lemma wp_stream_inspect policy required i remaining tr Q :
  lawful policy required (commands tr) → i ∈ required →
  (∀ e tr', lawful policy required (commands tr') → Q (Err e) tr') →
  (∀ r rem tr', commands tr' = commands tr ++ [(inspect_args i, Ok r)] →
     lawful policy required (commands tr') → Q (Ok (r, rem)) tr') →
  wp_res (stream_inspect i remaining) tr Q.
Proof.
  intros Hl Hi Herr Hok. eapply wp_mono; [|apply wp_stream_command].
  intros x tr' [[Hc ->]|(a & Hc & Hx)]; [apply Herr; by rewrite Hc|].
  assert (Hl' : lawful policy required (commands tr')) by (rewrite Hc; by constructor).
  destruct x as [[r rem]|e]; [subst a; by eapply Hok|by apply Herr].
Qed.
Lemma resolve_image_lawful policy required done st i tr :
  i ∈ required → resolving policy required done (Ok st) tr →
  wp_res (resolve_image_streaming policy st i) tr (resolving policy required (done ++ [i])).
Proof.
  intros Hi [Hl Hr]. unfold resolve_image_streaming.
  destruct (existsb _ _) eqn:Hseen; [split; [done|by apply receipts_repeat]|].
  apply wp_bind_ok. apply (wp_stream_inspect policy required); [done..|by split|].
  intros r rem tr1 Hc1 Hl1. cbn [fst snd].
  destruct (cr_ok r) eqn:Hok.
  { split; [done|]. destruct (receipt i _) as [rc|] eqn:Hrc; [|done].
    apply receipt_Ok in Hrc as (Hk & id & Hid & Hv). apply receipts_snoc; [done..|]. by rewrite Hid. }
  destruct (missing_or_platform_absent _ i) eqn:Hm; cbn [negb]; [|by split].
  destruct policy; cbn [bool_decide decide]; [split; [done|by apply receipts_snoc]|].
  apply wp_bind_ok. eapply wp_mono; [|apply wp_stream_command].
  assert (Hl2 : ∀ a, lawful PullIfMissing required (commands tr1 ++ [(pull_args i, a)])).
  { intros a. rewrite Hc1 in *. by apply lawful_pull. }
  intros x tr2 [[Hc2 ->]|(a & Hc2 & Hx)]; [split; [by rewrite Hc2|done]|].
  assert (Hl2' : lawful PullIfMissing required (commands tr2)) by by rewrite Hc2.
  destruct x as [[p rem2]|e]; [|by split]. cbn [fst snd].
  destruct (cr_ok p); cbn [negb]; [|by split].
  apply wp_bind_ok. apply (wp_stream_inspect PullIfMissing required); [done..|by split|].
  intros r3 rem3 tr3 Hc3 Hl3. cbn [fst snd]. destruct (cr_ok r3); [|by split].
  split; [done|]. destruct (receipt i _) as [rc|] eqn:Hrc; [|done].
  apply receipt_Ok in Hrc as (Hk & id & Hid & Hv). apply receipts_snoc; [done..|]. by rewrite Hid.
Qed.
Lemma resolve_loop_lawful policy required done rest st tr :
  required = done ++ rest → resolving policy required done (Ok st) tr →
  wp_res (resolve_loop_streaming policy st rest) tr (resolving policy required required).
Proof.
  revert done st tr. induction rest as [|i rest IH]; intros done st tr Heq Hst; cbn [resolve_loop_streaming].
  { rewrite app_nil_r in Heq. by subst done. }
  apply wp_bind_ok. eapply wp_mono; [|apply (resolve_image_lawful policy required done)]; [|set_solver|done].
  intros [st'|e] tr' Hr; [|by split; [apply Hr|]]. apply (IH (done ++ [i])); [|done].
  by rewrite <- app_assoc.
Qed.

Lemma resolve_streaming_spec required policy options :
  wp_res (resolve_images_streaming required policy options) [] (λ r tr,
    lawful policy required (commands tr)
    ∧ (256 < Z.of_nat (length required) ∨ existsb (λ i, invalid i || oversized i) required = true → tr = [])
    ∧ ∀ l, r = Ok l → receipts policy required l).
Proof.
  unfold resolve_images_streaming, MAX_IMAGES.
  destruct (256 <? Z.of_nat (length required)) eqn:Hmany; [split; [constructor|done]|].
  destruct (head _) as [i|] eqn:Hbad; [split; [constructor|done]|].
  apply head_filterb_None in Hbad. apply existsb_false_forall in Hbad. rewrite Hbad. booleans.
  intros c. cbn in c |- *. destruct c; [split_and!; [constructor|lia|done]|].
  apply wp_bind_ok. eapply wp_mono; [|apply (resolve_loop_lawful policy required []); [done|]].
  - intros [st|e] tr [Hl Hr]; (split_and!; [done|intros [|]; [lia|done]|]); [|done].
    by intros l [= <-].
  - split; [constructor|]. split_and!; [constructor|done|constructor].
Qed.

(** C33. Whatever Docker answers, resolving images runs only inspections of images it was asked
    for, and pulls such an image only when the policy allows it and the inspection just before
    reported exactly this image missing; a request with a malformed image, or too many, runs
    nothing. A resolution that succeeds returns every image once, with an immutable identity
    unless the lookup was read only. *)
Theorem resolution_is_lawful env required policy options :
  let out := run res_event_of env (resolve_images_streaming required policy options) [] in
  lawful policy required (commands out.2)
  ∧ (256 < Z.of_nat (length required) ∨ existsb (λ i, invalid i || oversized i) required = true →
     out.2 = [])
  ∧ ∀ l, out.1 = Ok l → receipts policy required l.
Proof. intros out. apply (run_wp res_event_of env _ [] _ (resolve_streaming_spec required policy options)). Qed.

(** C34. What a resolution that may pull returns makes a generation: for well-formed requirements
    and any content identity, [final_generation] accepts the receipts of every successful run. *)
Theorem receipts_make_a_generation `{!Sha256} env required options l content :
  Forall acceptable required → valid_sha256_digest content = true →
  (run res_event_of env (resolve_images_streaming required PullIfMissing options) []).1 = Ok l →
  final_generation content required l = Ok (digest (resolved_text content l)).
Proof.
  intros Hreq Hc Hrun.
  destruct (run_wp res_event_of env _ [] _ (resolve_streaming_spec required PullIfMissing options)) as (_ & _ & Hl).
  destruct (Hl l Hrun) as (Hnd & Hk & Hid). apply final_generation_Ok. split_and!; try done.
  apply Forall_forall. intros i Hi. rewrite Forall_forall in Hid. specialize (Hid i Hi).
  destruct (ei_identity i) as [id|] eqn:Hii; [|done].
  split; [split|by rewrite Hii]; [|intros id'; congruence].
  assert (Hin : image_key i ∈ image_key <$> required) by by apply Hk, list_elem_of_fmap_2.
  apply list_elem_of_fmap in Hin as (j & Hij & Hj). rewrite Forall_forall in Hreq.
  injection Hij as -> _. by apply Hreq.
Qed.

(** ** The fuel of platform expansion *)

Lemma platform_name_shrinks rest nr :
  platform_name rest = Ok nr → (String.length nr.2 ≤ String.length rest)%nat.
Proof.
  unfold platform_name. destruct (strip_prefix "{" rest) as [inner|] eqn:Hs.
  - apply strip_prefix_Some in Hs as ->. intros Hn. results. destruct nr as [l r].
    apply split_once_Some in Hn as [-> _]. rewrite !length_append. cbn. rewrite ?length_append. cbn. lia.
  - intros [= <-]. rewrite (proj1 (span_app platform_byte rest)) at 2. rewrite length_append. lia.
Qed.
(** More fuel than the length of the text changes nothing. *)
Lemma expand_platform_fuel `{!DockerText} n m rest values :
  (String.length rest < n)%nat → (String.length rest < m)%nat →
  expand_platform_from n rest values = expand_platform_from m rest values.
Proof.
  revert m rest. induction n as [|n IH]; intros [|m] rest Hn Hm; try lia. cbn [expand_platform_from].
  destruct (split_once "$" rest) as [[before after]|] eqn:Hs; [|done].
  apply split_once_Some in Hs as [-> _]. rewrite length_append in Hn, Hm. cbn in Hn, Hm.
  destruct (platform_name after) as [nr|] eqn:Hnr; [|done]. apply platform_name_shrinks in Hnr.
  destruct (refuse _ _); [|done]. destruct (ok_or _ _); [|done]. by rewrite (IH m nr.2) by lia.
Qed.

(** ** A resolution that pulls *)

Definition example_image : ExternalImageIdentity :=
  {| ei_reference := "rust:1"; ei_platform := None; ei_identity := None |}.
(** The image is missing until it has been pulled. *)
Definition example_env (tr : list res_event) (c : res_call) : res_answer c :=
  match c with
  | CallCapture args _ | CallStream args _ =>
      Ok (if negb (head args ==? Some "image")
          then {| cr_exit_code := 0; cr_stdout := ""; cr_stderr := "" |}
          else if (length (commands tr) <? 2)%nat
          then {| cr_exit_code := 1; cr_stdout := "";
                  cr_stderr := "Error response from daemon: No such image: rust:1" |}
          else {| cr_exit_code := 0; cr_stdout := "sha256:" +:+ zero_digest +:+ String "010" ""; cr_stderr := "" |})
  | CallRemaining => 1
  | CallCancelled => false
  end.
Definition example_receipts : list ExternalImageIdentity :=
  [{| ei_reference := "rust:1"; ei_platform := None; ei_identity := Some ("sha256:" +:+ zero_digest) |}].
Lemma receipts_make_a_generation_witness :
  final_generation (H := example_sha256) ("sha256:" +:+ zero_digest) [example_image] example_receipts
  = Ok (digest (H := example_sha256) (resolved_text ("sha256:" +:+ zero_digest) example_receipts)).
Proof.
  apply (@receipts_make_a_generation example_sha256 example_env [example_image] DEFAULT_OPTIONS).
  - constructor; [|constructor]. split; [by vm_compute|done].
  - by vm_compute.
  - by vm_compute.
Defined.

(** ** Expanded receipts and a Dockerfile's requirements *)

(** [resolver.rs] says to pass the receipts of [resolve_required_images_streaming] to
    [stack_generation], so that unexpanded requirements are never compared with expanded receipts.
    [stack_generation] derives its requirements from the Dockerfile itself, unexpanded: receipts
    for an automatic platform are refused. *)
Definition platform_dockerfile : string := "FROM --platform=$BUILDPLATFORM alpine".
Definition platform_stack : ManifestStack :=
  {| s_name := "dev"; s_dockerfile := Some "Dockerfile"; s_image := None; s_family := None;
     s_default := false; s_volumes := []; s_mounts := []; s_tmpfs := []; s_env := []; s_workdir := None;
     s_kind := None; s_guest := None; s_acknowledge_macos_license := false; s_job_caches := [];
     s_default_target_volume := true |}.
Definition platform_context : ContextObservation :=
  {| co_materialization_root := "."; co_entries := [File "Dockerfile" platform_dockerfile false] |}.
Definition platform_receipt : ExternalImageIdentity :=
  {| ei_reference := "alpine"; ei_platform := Some "linux/amd64";
     ei_identity := Some ("sha256:" +:+ zero_digest) |}.
Example expanded_receipts_refused :
  match external_images (H := example_docker) platform_dockerfile with
  | Ok required =>
      expand_images (H := example_docker) (platform_values "linux/amd64" "linux" "amd64" "") required
      = Ok [unresolved platform_receipt]
  | Err _ => False
  end
  ∧ stack_generation_from_context (H := example_sha256) (H0 := example_docker) example_empty_manifest
      platform_stack platform_context [platform_receipt]
    = Err (GenError (MissingExternalImage "alpine" (Some "$BUILDPLATFORM"))).
Proof. by vm_compute. Qed.
