(* ===== verification/Collector.v ===== *)
(** * Collector: the build context read from disk

    [bosn-generation/src/collector.rs], [default_ignore.rs] and [stack_generation] of [lib.rs] as
    programs of [Effects]. Every question to the file system is a call whose answer is arbitrary,
    so that the answers may contradict each other, as they do when the tree changes underneath.
    A directory cursor is one call: the entries it yields and the error that ends it, if any. A
    path is its list of components. *)

From Stdlib Require Import Ascii.
From S2P Require Import Effects.
From S2P Require Export Generation.

Local Open Scope string_scope.
Local Open Scope list_scope.
Local Open Scope Z_scope.
Local Open Scope bosn_scope.

(** ** Paths and the file system *)

(** [std::path::Component]; every other kind than a name is [Special]. *)
Inductive Component := Normal (name : string) | Special (text : string).
#[global] Instance Component_eq_dec : EqDecision Component.
Proof. solve_decision. Defined.
Notation Path := (list Component).
Inductive ContextPathKind := KindFile | KindDirectory | KindSymlink | KindOther.
#[global] Instance ContextPathKind_eq_dec : EqDecision ContextPathKind.
Proof. solve_decision. Defined.
Record IoError := { io_not_found : bool; io_text : string }.
Record Metadata := { md_kind : ContextPathKind; md_len : option Z }.
Record ReadFile := { rf_bytes : string; rf_executable : bool }.

Inductive fs_call :=
| CallCanonical (p : Path)
| CallIdentity (p : Path)
| CallMetadata (p : Path)
| CallReadBounded (p : Path) (limit : Z)
| CallReadDirectory (p : Path)
| CallReadLink (p : Path)
| CallIsFile (p : Path)
| CallIsDir (p : Path)
| CallFileNames (p : Path).
Definition fs_answer (c : fs_call) : Type :=
  match c with
  | CallCanonical _ => result IoError Path
  | CallIdentity _ => result IoError (option string)
  | CallMetadata _ => result IoError Metadata
  | CallReadBounded _ _ => result IoError ReadFile
  | CallReadDirectory _ => result IoError (list (Path * ContextPathKind) * option IoError)
  | CallReadLink _ => result IoError string
  | CallIsFile _ | CallIsDir _ => bool
  | CallFileNames _ => option (list string)
  end.

(** ** Limits and errors *)

Record CollectorLimits := {
  cl_max_entries : Z; cl_max_walked_entries : Z; cl_max_depth : Z; cl_max_path_bytes : Z;
  cl_max_file_bytes : Z; cl_max_total_bytes : Z }.
Definition CollectorLimits_default : CollectorLimits :=
  {| cl_max_entries := 100000; cl_max_walked_entries := 1000000; cl_max_depth := 64;
     cl_max_path_bytes := 4096; cl_max_file_bytes := 16 * 1024 * 1024;
     cl_max_total_bytes := 64 * 1024 * 1024 |}.
Inductive CollectorError :=
| Io (e : IoError)
| InvalidPath (text : string)
| Limit (what : string)
| EntryCount (limit walked selected : Z)
| WalkCount (limit walked selected : Z)
| SpecialFile (path : string)
| Mutation
| CollectorDockerfile (e : DockerfileError)
| Duplicate (path : string).

(** A step answers [None] when it runs out of fuel. *)
Notation col_prog A := (prog fs_answer (option (result CollectorError A))).
Definition bind_col {A B} (p : col_prog A) (f : A → col_prog B) : col_prog B :=
  prog_bind p (λ r, match r with
    | Some (Ok a) => f a
    | Some (Err e) => Ret (Some (Err e))
    | None => Ret None
    end).
Notation "'io!' x ':=' p 'in' k" :=
  (bind_col p (λ x, k)) (at level 10, x name, p at level 100, k at level 200) : bosn_scope.
Definition done {A} (a : A) : col_prog A := Ret (Some (Ok a)).
Definition stop {A} (e : CollectorError) : col_prog A := Ret (Some (Err e)).
Definition lift {A} (r : result CollectorError A) : col_prog A := Ret (Some r).
Definition io_result {A} (r : result IoError A) : result CollectorError A :=
  match r with Ok a => Ok a | Err e => Err (Io e) end.
Definition docker_result {A} (r : result DockerfileError A) : result CollectorError A :=
  match r with Ok a => Ok a | Err e => Err (CollectorDockerfile e) end.
Definition canonical_context_path (p : Path) : col_prog Path :=
  r ← perform (CallCanonical p); lift (io_result r).
Definition root_identity (p : Path) : col_prog (option string) :=
  r ← perform (CallIdentity p); lift (io_result r).
Definition metadata (p : Path) : col_prog Metadata :=
  r ← perform (CallMetadata p); lift (io_result r).
Definition read_bounded (p : Path) (limit : Z) : col_prog ReadFile :=
  r ← perform (CallReadBounded p limit); lift (io_result r).
Definition read_directory (p : Path) : col_prog (list (Path * ContextPathKind) * option IoError) :=
  r ← perform (CallReadDirectory p); lift (io_result r).
Definition read_context_link (p : Path) : col_prog string :=
  r ← perform (CallReadLink p); lift (io_result r).

(** ** Labels *)

Definition bad_label_byte (a : ascii) : bool := Ascii.eqb a "\" || Ascii.eqb a ":".
Definition relative (path : string) : bool :=
  negb (path ==? "") && negb (starts_with "/" path)
  && negb (existsb (λ x, (x ==? "") || (x ==? ".") || (x ==? "..")) (str_split "/" path))
  && all_bytes (λ a, negb (bad_label_byte a)) path.
Definition component_text (c : Component) : string := match c with Normal s | Special s => s end.
Definition display (p : Path) : string := str_join "/" (from_utf8_lossy ∘ component_text <$> p).
Fixpoint label_parts (whole p : Path) : result CollectorError (list string) :=
  match p with
  | [] => Ok []
  | Special _ :: _ => Err (InvalidPath (display whole))
  | Normal c :: p =>
      let? _ := refuse (negb (is_utf8 c)) (InvalidPath "non-UTF-8 path component") in
      let? _ := refuse (negb (all_bytes (λ a, negb (bad_label_byte a)) c)) (InvalidPath c) in
      let? parts := label_parts whole p in
      Ok (c :: parts)
  end.
Definition label (p : Path) : result CollectorError string :=
  let? parts := label_parts p p in
  let text := str_join "/" parts in
  if relative text then Ok text else Err (InvalidPath text).
Definition join_relative (root : Path) (path : string) : Path := root ++ (Normal <$> str_split "/" path).
Fixpoint path_strip_prefix (root p : Path) : option Path :=
  match root, p with
  | [], p => Some p
  | c :: root, d :: p => if decide (c = d) then path_strip_prefix root p else None
  | _ :: _, [] => None
  end.
(** [Path::to_str]. *)
Definition path_to_str (p : Path) : option string :=
  if forallb (λ c, is_utf8 (component_text c)) p then Some ("/" +:+ str_join "/" (component_text <$> p))
  else None.
Definition regular (root : Path) (path : string) : col_prog bool :=
  r ← perform (CallMetadata (join_relative root path));
  match r with
  | Ok x => done (md_kind x ==? KindFile)
  | Err e => if io_not_found e then done false else stop (Io e)
  end.

(** ** The walk *)

Record Walk := {
  wk_nodes : list (string * (Path * ContextPathKind)); wk_seen : list bool; wk_selected : Z;
  wk_walked : Z; wk_pending : list (Path * Z) }.
Section collector.
Context `{!DockerText} (limits : CollectorLimits) (root : Path).

(** What the loop body does with an entry of a directory at [depth]. *)
Definition visit (pruner : WalkPruner) (depth : Z) (w : Walk) (entry : Path * ContextPathKind) :
    result CollectorError Walk :=
  let '(path, kind) := entry in
  let walked := u64_saturating_add (wk_walked w) 1 in
  let? _ := refuse (cl_max_walked_entries limits <? walked)
    (WalkCount (cl_max_walked_entries limits) walked (wk_selected w)) in
  let? under := ok_or (path_strip_prefix root path) Mutation in
  let? rel := label under in
  let? _ := refuse (negb (relative rel)) (InvalidPath rel) in
  let? _ := refuse (cl_max_path_bytes limits <? str_len rel) (Limit "path length") in
  let? c := docker_result (classify pruner rel (wk_seen w)) in
  let '(selected, retain, seen) := c in
  let? _ := refuse (selected && (cl_max_entries limits <=? wk_selected w))
    (EntryCount (cl_max_entries limits) walked (wk_selected w + 1)) in
  let count := if selected : bool then wk_selected w + 1 else wk_selected w in
  let? nodes := if retain : bool
    then (let? _ := refuse (bool_decide (is_Some (tree_get rel (wk_nodes w)))) (Duplicate rel) in
          Ok (tree_insert rel (path, kind) (wk_nodes w)))
    else Ok (wk_nodes w) in
  let? pending := if kind ==? KindDirectory
    then (let? skip := docker_result (prunes pruner rel) in
          if skip : bool then Ok (wk_pending w) else
          let? deeper := ok_or (checked_add depth 1) (Limit "depth") in
          let? _ := refuse (cl_max_depth limits <? deeper) (Limit "depth") in
          Ok ((path, deeper) :: wk_pending w))
    else Ok (wk_pending w) in
  Ok {| wk_nodes := nodes; wk_seen := seen; wk_selected := count; wk_walked := walked;
        wk_pending := pending |}.
Fixpoint visit_all (pruner : WalkPruner) (depth : Z) (w : Walk) (entries : list (Path * ContextPathKind)) :
    result CollectorError Walk :=
  match entries with
  | [] => Ok w
  | e :: entries => let? w := visit pruner depth w e in visit_all pruner depth w entries
  end.
(** The directories still to list are a stack, its top first. *)
Fixpoint walk (fuel : nat) (pruner : WalkPruner) (w : Walk) : col_prog Walk :=
  match fuel with
  | O => Ret None
  | S fuel =>
      match wk_pending w with
      | [] => done w
      | (dir, depth) :: pending =>
          let w := {| wk_nodes := wk_nodes w; wk_seen := wk_seen w; wk_selected := wk_selected w;
                      wk_walked := wk_walked w; wk_pending := pending |} in
          io! listing := read_directory dir in
          io! w := lift (visit_all pruner depth w listing.1) in
          match listing.2 with
          | Some e => stop (Io e)
          | None => walk fuel pruner w
          end
      end
  end.
(** Every directory but the first was an entry of the walk, and those are limited. *)
Definition walk_fuel : nat := (Z.to_nat (cl_max_walked_entries limits) + 2)%nat.

(** ** Reading the selected entries *)

Definition selector_entry (node : string * (Path * ContextPathKind)) : ContextEntry :=
  let '(path, (_, kind)) := node in
  match kind with
  | KindDirectory => Directory path
  | KindSymlink => Symlink path ""
  | _ => File path "" false
  end.
(** Only the first entry with this path is looked at. *)
Fixpoint replace_bytes (entries : list ContextEntry) (path bytes : string) : list ContextEntry :=
  match entries with
  | [] => []
  | e :: entries =>
      if entry_path e ==? path
      then match e with File p _ x => File p bytes x | _ => e end :: entries
      else e :: replace_bytes entries path bytes
  end.
Definition read_entry (policy : list (string * string)) (total : Z)
    (node : string * (Path * ContextPathKind)) : col_prog (ContextEntry * Z) :=
  let '(path, (disk, kind)) := node in
  io! current := metadata disk in
  if negb (md_kind current ==? kind) then stop Mutation else
  match kind with
  | KindDirectory => done (Directory path, total)
  | KindSymlink =>
      io! target := read_context_link disk in
      if is_utf8 target then done (Symlink path target, total)
      else stop (InvalidPath "non-UTF-8 link target")
  | KindFile =>
      io! m := metadata disk in
      let len := default u64_max (md_len m) in
      if cl_max_file_bytes limits <? len then stop (Limit "file size") else
      if cl_max_total_bytes limits <? total then stop (Limit "total bytes") else
      let remaining := cl_max_total_bytes limits - total in
      if remaining <? len then stop (Limit "total bytes") else
      io! observed := read_bounded disk (Z.min (cl_max_file_bytes limits) remaining) in
      if is_some_and (tree_get path policy) (λ original, negb (rf_bytes observed ==? original))
      then stop Mutation else
      match checked_add total (str_len (rf_bytes observed)) with
      | None => stop (Limit "total bytes")
      | Some total =>
          if cl_max_total_bytes limits <? total then stop (Limit "total bytes")
          else done (File path (rf_bytes observed) (rf_executable observed), total)
      end
  | KindOther => stop (SpecialFile path)
  end.
Fixpoint read_entries (policy : list (string * string)) (selected : list string) (total : Z)
    (nodes : list (string * (Path * ContextPathKind))) : col_prog (list ContextEntry) :=
  match nodes with
  | [] => done []
  | node :: nodes =>
      if bool_decide (node.1 ∈ selected) then
        io! et := read_entry policy total node in
        io! rest := read_entries policy selected et.2 nodes in
        done (et.1 :: rest)
      else read_entries policy selected total nodes
  end.
End collector.

(** ** Collecting a context *)

Section collect.
Context `{!DockerText}.

(** After the policy files have been read: walk, select and read. *)
Definition collect_selected (limits : CollectorLimits) (root : Path) (dockerfile docker_bytes : string)
    (root_ignore_present : bool) (ignore : option (string * string)) (fallback : option string) :
    col_prog (list ContextEntry) :=
  let specific := dockerfile +:+ ".dockerignore" in
  let fallback := if bool_decide (ignore = None) then fallback else None in
  io! pruner := lift (docker_result (WalkPruner_new dockerfile docker_bytes
    (match ignore with
     | Some i => Some i
     | None => (λ rules, (DEFAULT_IGNORE_NAME, rules)) <$> fallback
     end))) in
  io! w := walk limits root (walk_fuel limits) pruner
    {| wk_nodes := []; wk_seen := replicate (length (wp_source_patterns pruner)) false;
       wk_selected := 0; wk_walked := 0; wk_pending := [(root, 0)] |} in
  let policy := collect ((dockerfile, docker_bytes) :: match ignore with Some i => [i] | None => [] end) in
  let selector := replace_bytes (selector_entry <$> wk_nodes w) dockerfile docker_bytes in
  let selector := match ignore with Some (name, bytes) => replace_bytes selector name bytes | None => selector end in
  io! chosen := lift (docker_result (select_context_with selector dockerfile fallback)) in
  let selected := entry_path <$> chosen in
  io! specific_now := regular root specific in
  if negb (specific_now ==? bool_decide (fst <$> ignore = Some specific)) then stop Mutation else
  io! root_now := regular root ".dockerignore" in
  if negb (root_now ==? root_ignore_present) then stop Mutation else
  read_entries limits policy selected 0 (wk_nodes w).
Definition collect_context_inner (start : Path) (dockerfile : option string) (limits : CollectorLimits)
    (fallback : option string) : col_prog ContextObservation :=
  io! root := canonical_context_path start in
  io! initial := root_identity root in
  io! provenance := lift (ok_or (path_to_str root) (InvalidPath "non-UTF-8 materialization root")) in
  io! m := metadata root in
  if negb (md_kind m ==? KindDirectory) then stop (InvalidPath "materialization root is not a directory") else
  match dockerfile with
  | None => done {| co_materialization_root := provenance; co_entries := [] |}
  | Some dockerfile =>
      if negb (relative dockerfile) then stop (InvalidPath dockerfile) else
      io! docker := read_bounded (join_relative root dockerfile)
                      (Z.min (cl_max_file_bytes limits) (cl_max_total_bytes limits)) in
      let specific := dockerfile +:+ ".dockerignore" in
      io! root_ignore_present := regular root ".dockerignore" in
      io! specific_present := regular root specific in
      let name := if specific_present : bool then Some specific
                  else if root_ignore_present : bool then Some ".dockerignore" else None in
      let used := str_len (rf_bytes docker) in
      if cl_max_total_bytes limits <? used then stop (Limit "total bytes") else
      io! ignore := match name with
        | None => done None
        | Some n =>
            io! f := read_bounded (join_relative root n)
                       (Z.min (cl_max_file_bytes limits) (cl_max_total_bytes limits - used)) in
            done (Some (n, rf_bytes f))
        end in
      io! entries := collect_selected limits root dockerfile (rf_bytes docker) root_ignore_present ignore fallback in
      io! root_now := canonical_context_path root in
      if negb (bool_decide (root_now = root)) then stop Mutation else
      io! identity_now := root_identity root in
      if negb (bool_decide (identity_now = initial)) then stop Mutation else
      done {| co_materialization_root := provenance; co_entries := entries |}
  end.
Definition collect_context (start : Path) (dockerfile : option string) (limits : CollectorLimits) :
    col_prog ContextObservation :=
  collect_context_inner start dockerfile limits None.

(** ** Default ignore sets *)

Inductive DefaultIgnore := IgnoreRust | IgnorePython | IgnoreRustPython.
Definition newline : string := String lf "".
Definition rule_lines (l : list string) : string := foldr (λ s acc, s +:+ newline +:+ acc) "" l.
Definition COMMON : string := rule_lines [".git"].
Definition RUST : string := rule_lines ["target"; "**/target"].
Definition PYTHON : string :=
  rule_lines [".venv"; "venv"; "**/__pycache__"; "**/*.pyc"; "**/*.pyo"; ".pytest_cache"; ".mypy_cache";
              ".ruff_cache"; ".tox"; "**/*.egg-info"; "dist"; "build"].
Definition rules (d : DefaultIgnore) : string :=
  match d with
  | IgnoreRust => COMMON +:+ RUST
  | IgnorePython => COMMON +:+ PYTHON
  | IgnoreRustPython => COMMON +:+ RUST +:+ PYTHON
  end.
Definition is_file (root : Path) (name : string) : prog fs_answer bool :=
  perform (CallIsFile (root ++ (Normal <$> str_split "/" name))).
(** [any] over files: the first hit ends the questions. *)
Fixpoint any_file (root : Path) (names : list string) : prog fs_answer bool :=
  match names with
  | [] => Ret false
  | n :: names => hit ← is_file root n; if (hit : bool) then Ret true else any_file root names
  end.
Definition requirements_file (name : string) : bool :=
  is_utf8 name && starts_with "requirements" name && ends_with ".txt" name.
Definition detect (root : Path) : prog fs_answer (option DefaultIgnore) :=
  cargo ← is_file root "Cargo.toml";
  rust ← (if (cargo : bool) then Ret true else perform (CallIsDir (root ++ [Normal "target"])));
  marker ← any_file root ["pyproject.toml"; "setup.py"; "uv.lock"];
  python ← (if (marker : bool) then Ret true else
            names ← perform (CallFileNames root);
            Ret (is_some_and (names : option (list string)) (existsb requirements_file)));
  Ret (match (rust : bool), (python : bool) with
       | true, true => Some IgnoreRustPython
       | true, false => Some IgnoreRust
       | false, true => Some IgnorePython
       | false, false => None
       end).
Definition collect_context_with_defaults (root : Path) (dockerfile : string) (limits : CollectorLimits) :
    col_prog (ContextObservation * option DefaultIgnore) :=
  explicit ← any_file root [dockerfile +:+ ".dockerignore"; ".dockerignore"];
  default_ ← (if (explicit : bool) then Ret None else detect root);
  io! context := collect_context_inner root (Some dockerfile) limits (rules <$> (default_ : option DefaultIgnore)) in
  done (context, default_).
End collect.
