(* ===== verification/Disk.v ===== *)
(** * Disk: a file system that does not change

    The tree below one root as a finite map from lists of names to nodes, and how it answers the
    collector's questions ([disk_answer]). It is one environment of the programs of [Collector];
    [entries] is the whole tree as the entries of a context. *)

From Stdlib Require Import Ascii.
From S2P Require Import Effects.
From S2P Require Export Collector Pruning.

Local Open Scope string_scope.
Local Open Scope list_scope.
Local Open Scope Z_scope.
Local Open Scope bosn_scope.

Inductive Node := FileNode (bytes : string) (executable : bool) | DirNode | LinkNode (target : string) | OtherNode.
#[global] Instance Node_eq_dec : EqDecision Node.
Proof. solve_decision. Defined.
Record Disk := { dk_root : Path; dk_nodes : gmap (list string) Node }.

Definition node_kind (n : Node) : ContextPathKind :=
  match n with
  | FileNode _ _ => KindFile
  | DirNode => KindDirectory
  | LinkNode _ => KindSymlink
  | OtherNode => KindOther
  end.
Definition not_found : IoError := {| io_not_found := true; io_text := "not found" |}.
Definition refused : IoError := {| io_not_found := false; io_text := "refused" |}.
Fixpoint names (p : Path) : option (list string) :=
  match p with
  | [] => Some []
  | Normal x :: p => cons x <$> names p
  | Special _ :: _ => None
  end.
Definition at_path (d : Disk) (names : list string) : Path := dk_root d ++ (Normal <$> names).
(** The node at a path; the root is a directory. *)
Definition node_at (d : Disk) (p : Path) : option Node :=
  under ← path_strip_prefix (dk_root d) p;
  l ← names under;
  if decide (l = []) then Some DirNode else dk_nodes d !! l.
(** The names directly below a directory, with their nodes. *)
Definition child (dir key : list string) : option string :=
  match rev key with
  | name :: above => if decide (rev above = dir) then Some name else None
  | [] => None
  end.
Definition children (d : Disk) (dir : list string) : list (list string * Node) :=
  filterb (λ kn, bool_decide (is_Some (child dir kn.1))) (map_to_list (dk_nodes d)).
Definition listing (d : Disk) (dir : list string) : list (Path * ContextPathKind) :=
  (λ kn, (at_path d kn.1, node_kind kn.2)) <$> children d dir.

Definition disk_answer (d : Disk) (c : fs_call) : fs_answer c :=
  match c with
  | CallCanonical p => if bool_decide (is_Some (node_at d p)) then Ok p else Err not_found
  | CallIdentity p => if bool_decide (is_Some (node_at d p)) then Ok (path_to_str p) else Err not_found
  | CallMetadata p =>
      match node_at d p with
      | Some n => Ok {| md_kind := node_kind n;
                        md_len := Some match n with FileNode bytes _ => str_len bytes | _ => 0 end |}
      | None => Err not_found
      end
  | CallReadBounded p limit =>
      match node_at d p with
      | Some (FileNode bytes x) =>
          if limit <? str_len bytes then Err refused else Ok {| rf_bytes := bytes; rf_executable := x |}
      | Some _ => Err refused
      | None => Err not_found
      end
  | CallReadDirectory p =>
      match node_at d p, path_strip_prefix (dk_root d) p ≫= names with
      | Some DirNode, Some dir => Ok (listing d dir, None)
      | _, _ => Err refused
      end
  | CallReadLink p => match node_at d p with Some (LinkNode target) => Ok target | _ => Err refused end
  | CallIsFile p => match node_at d p with Some (FileNode _ _) => true | _ => false end
  | CallIsDir p => match node_at d p with Some DirNode => true | _ => false end
  | CallFileNames p =>
      (λ dir, omap (λ kn, child dir kn.1) (map_to_list (dk_nodes d))) <$> (path_strip_prefix (dk_root d) p ≫= names)
  end.

(** What a program returns on this file system. *)
Fixpoint eval {A} (ans : ∀ c, fs_answer c) (p : prog fs_answer A) : A :=
  match p with Ret a => a | Act c k => eval ans (k (ans c)) end.
Lemma run_eval {A event} (event_of : ∀ c, fs_answer c → event) ans (p : prog fs_answer A) tr :
  (run event_of (λ _, ans) p tr).1 = eval ans p.
Proof. revert tr. induction p as [a|c k IH]; intros tr; [done|]. apply IH. Qed.
Lemma eval_bind {A B} ans (p : prog fs_answer A) (f : A → prog fs_answer B) :
  eval ans (prog_bind p f) = eval ans (f (eval ans p)).
Proof. induction p as [a|c k IH]; [done|]. apply IH. Qed.

(** ** The whole tree as a context *)

(** A special file has no content of its own. *)
Definition node_entry (key : list string) (n : Node) : ContextEntry :=
  let path := str_join "/" key in
  match n with
  | FileNode bytes x => File path bytes x
  | DirNode => Directory path
  | LinkNode target => Symlink path target
  | OtherNode => File path "" false
  end.
Definition entries (d : Disk) : list ContextEntry :=
  sort_by (cmp_on entry_path String.compare) ((λ kn, node_entry kn.1 kn.2) <$> map_to_list (dk_nodes d)).

(** Every name is one a path can have, and every node but the root is in a directory. *)
Definition disk_ok (d : Disk) : Prop :=
  map_Forall (λ key _, key ≠ [] ∧ Forall (λ x, comp_ok x = true) key
    ∧ (removelast key = [] ∨ dk_nodes d !! removelast key = Some DirNode)) (dk_nodes d).
