(* ===== verification/CollectorSafety.v ===== *)
(** * CollectorSafety: collecting a context in a file system that may change

    Whatever the file system answers, and however its answers contradict each other, a collection
    ends, and a context it returns is in canonical order, has only relative paths within the
    limits, and holds no more bytes than allowed. Such a context always has a content digest. *)

From Stdlib Require Import Ascii.
From S2P Require Import Effects Disk ManifestSafety GenerationIdentity.

Local Open Scope string_scope.
Local Open Scope list_scope.
Local Open Scope Z_scope.
Local Open Scope bosn_scope.

(** ** Programs that end, with what they yield *)

(** The program never runs out of fuel, and what it returns satisfies [Φ]. *)
Definition yields {A} (Φ : A → Prop) (p : col_prog A) : Prop :=
  returns (λ r, match r with Some (Ok a) => Φ a | Some (Err _) => True | None => False end) p.

Lemma yields_bind {A B} (Φ : A → Prop) (Ψ : B → Prop) (p : col_prog A) (f : A → col_prog B) :
  yields Φ p → (∀ a, Φ a → yields Ψ (f a)) → yields Ψ (bind_col p f).
Proof.
  intros Hp Hf. unfold bind_col. eapply returns_bind; [exact Hp|]. intros [[a|e]|]; cbn; [apply Hf|done|done].
Qed.
Lemma yields_lift {A} (Φ : A → Prop) r : (∀ a, r = Ok a → Φ a) → yields Φ (lift r).
Proof. intros Hr. destruct r; cbn; auto. Qed.
Lemma yields_stop {A} (Φ : A → Prop) e : yields Φ (stop e).
Proof. done. Qed.
Lemma yields_mono {A} (Φ Ψ : A → Prop) (p : col_prog A) :
  (∀ a, Φ a → Ψ a) → yields Φ p → yields Ψ p.
Proof.
  intros HΦ. unfold yields. induction p as [r|c k IH]; cbn; [destruct r as [[]|]; auto|]. intros H x. apply IH, H.
Qed.
Ltac io_call := intros [?|?]; cbn; done.
Lemma yields_canonical p : yields (λ _, True) (canonical_context_path p). Proof. io_call. Qed.
Lemma yields_identity p : yields (λ _, True) (root_identity p). Proof. io_call. Qed.
Lemma yields_metadata p : yields (λ _, True) (metadata p). Proof. io_call. Qed.
Lemma yields_read_bounded p l : yields (λ _, True) (read_bounded p l). Proof. io_call. Qed.
Lemma yields_read_directory p : yields (λ _, True) (read_directory p). Proof. io_call. Qed.
Lemma yields_read_link p : yields (λ _, True) (read_context_link p). Proof. io_call. Qed.
Lemma yields_regular root p : yields (λ _, True) (regular root p).
Proof. intros [x|e]; cbn; [done|by destruct (io_not_found e)]. Qed.
Create HintDb collector.
#[local] Hint Resolve yields_canonical yields_identity yields_metadata yields_read_bounded
  yields_read_directory yields_read_link yields_regular yields_stop : collector.
(** Run one question to the file system. *)
Ltac ask := eapply yields_bind; [solve [eauto with collector]|]; intros ? _.

(** ** The walk *)

(** What the walk keeps: an ordered map of labels within the limits. *)
Definition walk_ok (limits : CollectorLimits) (w : Walk) : Prop :=
  ordered (wk_nodes w) ∧ 0 ≤ wk_walked w
  ∧ Forall (λ n, relative n.1 = true ∧ str_len n.1 ≤ cl_max_path_bytes limits) (wk_nodes w).

Lemma tree_insert_keys {A} k (v : A) m x : x ∈ (tree_insert k v m).*1 → x = k ∨ x ∈ m.*1.
Proof.
  induction m as [|[k' v'] m IH]; cbn [tree_insert]; rewrite ?fmap_cons; cbn.
  { intros Hx%list_elem_of_singleton. by left. }
  destruct (String.compare k k'); rewrite !fmap_cons, !elem_of_cons; cbn; [tauto|tauto|].
  intros [->|Hx]; [auto|]. destruct (IH Hx); auto.
Qed.
Lemma tree_insert_ordered {A} k (v : A) m : ordered m → ordered (tree_insert k v m).
Proof.
  unfold ordered. induction m as [|[k' v'] m IH]; cbn [tree_insert]; [intros; repeat constructor|].
  rewrite fmap_cons. cbn. intros Ho. apply StronglySorted_inv in Ho as [Hm Hk'].
  destruct (String.compare k k') eqn:E; rewrite ?fmap_cons; cbn.
  - apply string_compare_Eq in E as ->. by constructor.
  - constructor; [by constructor|]. constructor; [done|]. eapply Forall_impl; [exact Hk'|].
    intros x Hx. unfold key_lt in *. apply (cmp_le_Lt String.compare k k' x); congruence.
  - constructor; [by apply IH|]. apply Forall_forall. intros x [->|Hx]%tree_insert_keys.
    + unfold key_lt. by apply (cmp_Gt_Lt String.compare).
    + rewrite Forall_forall in Hk'. by apply Hk'.
Qed.

Section walking.
Context `{!DockerText} (limits : CollectorLimits) (root : Path).
Hypothesis Hmax : cl_max_walked_entries limits < u64_max.

(** How many directories the walk may still list. *)
Definition walk_measure (w : Walk) : nat :=
  (Z.to_nat (cl_max_walked_entries limits - wk_walked w) + length (wk_pending w))%nat.
(** The steps of a visit that succeeds. *)
Lemma visit_inv pruner depth w path kind w' :
  visit limits root pruner depth w (path, kind) = Ok w' →
  ∃ under rel selected retain,
    path_strip_prefix root path = Some under ∧ label under = Ok rel ∧ relative rel = true
    ∧ str_len rel ≤ cl_max_path_bytes limits
    ∧ wk_walked w' = u64_saturating_add (wk_walked w) 1 ∧ wk_walked w' ≤ cl_max_walked_entries limits
    ∧ classify pruner rel (wk_seen w) = Ok (selected, retain, wk_seen w')
    ∧ (if retain : bool
       then tree_get rel (wk_nodes w) = None ∧ wk_nodes w' = tree_insert rel (path, kind) (wk_nodes w)
       else wk_nodes w' = wk_nodes w)
    ∧ (if bool_decide (kind = KindDirectory)
       then ∃ skip, prunes pruner rel = Ok skip
              ∧ wk_pending w' = if skip : bool then wk_pending w else (path, depth + 1) :: wk_pending w
       else wk_pending w' = wk_pending w).
Proof.
  intros Hv. unfold visit in Hv.
  repeat match type of Hv with
  | match ?v with Ok _ => _ | Err _ => _ end = Ok _ => let E := fresh "E" in destruct v eqn:E; [|done]
  | (let '(_, _) := ?c in _) = Ok _ => destruct c as [[selected retain] seen]
  end.
  injection Hv as <-. cbn.
  repeat match goal with E : refuse _ _ = Ok _ |- _ => apply refuse_Ok in E end. booleans.
  apply ok_or_Ok in E0. exists a0, a1, selected, retain. split_and!; try done.
  - destruct (classify _ _ _); cbn in E4; congruence.
  - clear E7. destruct retain; [|congruence]. results. booleans. split; [|congruence].
    by apply eq_None_not_Some.
  - case_bool_decide; [|congruence]. destruct (prunes pruner a1) as [skip|]; [|done]. cbn in E7.
    exists skip. split; [done|]. destruct skip; [congruence|]. clear E4 E6.
    unfold checked_add in E7. results. case_match; congruence.
Qed.
Lemma visit_ok pruner depth w entry w' :
  walk_ok limits w → visit limits root pruner depth w entry = Ok w' →
  walk_ok limits w' ∧ (walk_measure w' ≤ walk_measure w)%nat.
Proof.
  intros (Ho & Hw & HF) Hv. destruct entry as [path kind].
  apply visit_inv in Hv as (under & rel & sel & retain & _ & _ & Hrel & Hlen & Hwk & Hle & _ & Hn & Hp).
  unfold u64_saturating_add in Hwk.
  assert (Hp' : (length (wk_pending w') ≤ S (length (wk_pending w)))%nat).
  { case_bool_decide; [destruct Hp as (skip & _ & ->); destruct skip; cbn; lia|rewrite Hp; lia]. }
  split; [|unfold walk_measure; lia]. unfold walk_ok. destruct retain; [destruct Hn as [_ ->]|rewrite Hn].
  - split; [by apply tree_insert_ordered|]. split; [lia|]. by apply tree_insert_Forall.
  - split_and!; [done|lia|done].
Qed.
Lemma visit_all_ok pruner depth entries w w' :
  walk_ok limits w → visit_all limits root pruner depth w entries = Ok w' →
  walk_ok limits w' ∧ (walk_measure w' ≤ walk_measure w)%nat.
Proof.
  revert w. induction entries as [|e entries IH]; intros w Hw; cbn [visit_all]; [by intros [= <-]|].
  intros Hv. destruct (visit _ _ _ _ w e) as [w1|] eqn:E; [|done].
  destruct (visit_ok _ _ _ _ _ Hw E) as [Hw1 Hm1]. destruct (IH w1 Hw1 Hv). split; [done|lia].
Qed.
Lemma walk_yields fuel pruner w :
  walk_ok limits w → (walk_measure w < fuel)%nat → yields (walk_ok limits) (walk limits root fuel pruner w).
Proof.
  revert w. induction fuel as [|fuel IH]; intros w Hw Hf; [lia|]. cbn [walk].
  destruct (wk_pending w) as [|[dir depth] pending] eqn:Hp; [done|].
  unfold walk_measure in Hf. rewrite Hp in Hf. cbn [length] in Hf.
  ask. eapply yields_bind.
  { apply yields_lift. intros w' Hv. apply visit_all_ok in Hv; [exact Hv|done]. }
  cbn. intros w' [Hw' Hm]. destruct (a.2); [done|]. apply IH; [done|]. unfold walk_measure in *. cbn in *. lia.
Qed.
End walking.

(** ** Reading *)

Definition file_bytes (e : ContextEntry) : Z := match e with File _ bytes _ => str_len bytes | _ => 0 end.
Definition within (limits : CollectorLimits) (e : ContextEntry) : Prop :=
  relative (entry_path e) = true ∧ str_len (entry_path e) ≤ cl_max_path_bytes limits.

Section reading.
Context (limits : CollectorLimits) (policy : list (string * string)) (selected : list string).

Lemma read_entry_yields total node :
  0 ≤ total →
  yields (λ et, entry_path et.1 = node.1 ∧ total ≤ et.2 ∧ et.2 = total + file_bytes et.1
                ∧ (et.2 = total ∨ et.2 ≤ cl_max_total_bytes limits)) (read_entry limits policy total node).
Proof.
  intros Ht. destruct node as [path [disk kind]]. unfold read_entry. ask.
  destruct (negb _); [done|]. destruct kind; [|cbn; split_and!; [done|lia..|by left]| |done].
  - ask. case_match; [done|]. case_match; [done|]. case_match; [done|]. ask.
    destruct (is_some_and _ _); [done|]. unfold checked_add. case_match; [|done].
    destruct (_ <=? _); [|done]. case_match; [done|]. simplify_eq. booleans. cbn.
    assert (0 ≤ str_len (rf_bytes a1)) by (unfold str_len; lia). split_and!; [done|lia..|by right].
  - ask. case_match; [|done]. cbn. split_and!; [done|lia..|by left].
Qed.
Lemma read_entries_yields total nodes :
  0 ≤ total ≤ cl_max_total_bytes limits ∨ total = 0 →
  yields (λ l, entry_path <$> l `sublist_of` nodes.*1
               ∧ (sumZ (file_bytes <$> l) = 0 ∨ total + sumZ (file_bytes <$> l) ≤ cl_max_total_bytes limits))
    (read_entries limits policy selected total nodes).
Proof.
  revert total. induction nodes as [|node nodes IH]; intros total Ht; cbn [read_entries].
  { cbn. split; [done|by left]. }
  destruct (bool_decide _).
  - eapply yields_bind; [apply read_entry_yields; lia|]. intros [e t] (Hp & Hle & Heq & Hb). cbn in *.
    eapply yields_bind; [apply (IH t); lia|]. intros l (Hs & Hsum).
    assert (0 ≤ file_bytes e) by lia. cbn [yields returns done fst snd].
    rewrite !fmap_cons, Hp. cbn [sumZ]. split; [by constructor|lia].
  - eapply yields_mono; [|by apply IH]. intros l [Hs Hsum]. split; [by constructor|done].
Qed.
End reading.

(** ** Collections *)

Definition context_ok (limits : CollectorLimits) (c : ContextObservation) : Prop :=
  StronglySorted key_lt (entry_path <$> co_entries c) ∧ Forall (within limits) (co_entries c)
  ∧ sumZ (file_bytes <$> co_entries c) ≤ cl_max_total_bytes limits.

Section collections.
Context `{!DockerText} (limits : CollectorLimits).
Hypothesis Hmax : cl_max_walked_entries limits < u64_max.
Hypothesis Htotal : 0 ≤ cl_max_total_bytes limits.

Lemma collect_selected_yields root dockerfile bytes present ignore fallback :
  yields (λ l, StronglySorted key_lt (entry_path <$> l) ∧ Forall (within limits) l
               ∧ sumZ (file_bytes <$> l) ≤ cl_max_total_bytes limits)
    (collect_selected limits root dockerfile bytes present ignore fallback).
Proof.
  unfold collect_selected. eapply yields_bind; [by apply (yields_lift (λ _, True))|]. intros pruner _.
  eapply yields_bind.
  { apply walk_yields; [done| |unfold walk_measure, walk_fuel; cbn; lia].
    split_and!; cbn; [constructor|lia|constructor]. }
  intros w (Ho & _ & Hn). eapply yields_bind; [by apply (yields_lift (λ _, True))|]. intros chosen _.
  ask. case_match; [done|]. ask. case_match; [done|].
  eapply yields_mono; [|apply read_entries_yields; lia].
  intros l [Hs Hsum]. split_and!; [by eapply sublist_StronglySorted| |lia].
  apply (Forall_fmap entry_path (λ p, relative p = true ∧ str_len p ≤ cl_max_path_bytes limits) l).
  eapply sublist_Forall; [exact Hs|]. by apply Forall_fmap.
Qed.
Lemma collect_yields start dockerfile fallback :
  yields (context_ok limits) (collect_context_inner start dockerfile limits fallback).
Proof.
  unfold collect_context_inner. ask. ask.
  eapply yields_bind; [by apply (yields_lift (λ _, True))|]. intros provenance _.
  ask. case_match; [done|]. destruct dockerfile as [dockerfile|].
  2: { split_and!; cbn; [constructor|constructor|lia]. }
  case_match; [done|]. ask. ask. ask. case_match; [done|].
  eapply (yields_bind (λ _, True)).
  { destruct (if a4 then _ else _); [|done]. ask. done. }
  intros ignore _. eapply yields_bind; [apply collect_selected_yields|]. intros l Hl.
  ask. case_match; [done|]. ask. case_match; [done|]. exact Hl.
Qed.
End collections.

Lemma relative_valid p : relative p = true → valid_relative p = true.
Proof.
  unfold relative, valid_relative. rewrite !andb_true_iff. intros [Hpre Hb]. split; [done|].
  eapply all_bytes_impl; [|exact Hb]. intros a. unfold bad_label_byte. by destruct (Ascii.eqb a "\").
Qed.
Lemma key_lt_le a b : key_lt a b → cmp_le String.compare a b.
Proof. unfold key_lt, cmp_le. congruence. Qed.
Lemma sorted_hash h seen l :
  StronglySorted key_lt (entry_path <$> l) → Forall (λ e, relative (entry_path e) = true) l →
  Forall (λ e, entry_path e ∉ seen) l →
  hash_entries h seen l = Ok (h +:+ concat_text (entry_record <$> l)).
Proof.
  revert h seen. induction l as [|e l IH]; intros h seen Hs Hr Hn; cbn [hash_entries].
  { cbn. by rewrite string_app_nil. }
  rewrite fmap_cons in Hs. apply StronglySorted_inv in Hs as [Hs Hlt].
  apply Forall_cons in Hr as [Hre Hr]. apply Forall_cons in Hn as [Hne Hn].
  rewrite (relative_valid _ Hre), (bool_decide_eq_false_2 _ Hne). cbn [negb refuse].
  rewrite IH, fmap_cons; [|done..|].
  - cbn [concat_text foldr]. by rewrite string_app_assoc.
  - rewrite Forall_fmap in Hlt. rewrite Forall_forall in *. intros x Hx [Heq%elem_of_singleton|Hin]%elem_of_union.
    + apply (key_lt_irrefl (entry_path e)). rewrite <- Heq at 2. by apply (Hlt x).
    + by apply (Hn x Hx).
Qed.
Lemma sorted_entries l :
  StronglySorted key_lt (entry_path <$> l) → StronglySorted (cmp_le entry_cmp) l.
Proof.
  induction l as [|e l IH]; [constructor|]. rewrite fmap_cons. intros Hs.
  apply StronglySorted_inv in Hs as [Hs Hlt]. constructor; [by apply IH|].
  rewrite Forall_fmap in Hlt. eapply Forall_impl; [exact Hlt|]. intros x. apply key_lt_le.
Qed.
Lemma context_ok_digest `{!Sha256} limits m s c :
  context_ok limits c → mr_materialization_root (mf_roots m) = co_materialization_root c →
  content_digest m s c = Ok (digest (content_text s c)).
Proof.
  intros (Hs & Hw & _) Hroot. unfold content_digest. rewrite Hroot, bool_decide_eq_true_2 by done. cbn [negb refuse].
  rewrite (sort_by_id entry_cmp).
  - rewrite sorted_hash; [|done| |by apply Forall_true].
    + unfold content_text. rewrite (sort_by_id entry_cmp); [done|].
      unfold entry_cmp. by apply sorted_entries.
    + eapply Forall_impl; [exact Hw|]. by intros e [? _].
  - by apply sorted_entries.
Qed.

(** ** Every collection ends within its limits *)

Lemma yields_run {A} (Φ : A → Prop) (p : col_prog A) env tr :
  yields Φ p → ∃ r, (run (@existT fs_call fs_answer) env p tr).1 = Some r ∧ ∀ a, r = Ok a → Φ a.
Proof.
  unfold yields. revert tr. induction p as [o|c k IH]; intros tr; cbn.
  - destruct o as [r|]; [|done]. intros Hr. exists r. split; [done|]. by intros a ->.
  - intros Hk. apply IH, Hk.
Qed.
Lemma any_file_returns root l : returns (λ _ : bool, True) (any_file root l).
Proof. induction l as [|n l IH]; [done|]. intros hit. by destruct hit. Qed.
Lemma detect_returns root : returns (λ _ : option DefaultIgnore, True) (detect root).
Proof.
  apply (returns_bind (λ _, True)); [done|]. intros cargo _.
  apply (returns_bind (λ _, True)); [by destruct cargo|]. intros rust _.
  apply (returns_bind (λ _, True)); [apply any_file_returns|]. intros marker _.
  by apply (returns_bind (λ _, True)); [destruct marker|].
Qed.

Section ends.
Context `{!DockerText} (limits : CollectorLimits).

Lemma defaults_yields root dockerfile :
  cl_max_walked_entries limits < u64_max → 0 ≤ cl_max_total_bytes limits →
  yields (λ cd, context_ok limits cd.1) (collect_context_with_defaults root dockerfile limits).
Proof.
  intros Hmax Htotal. unfold collect_context_with_defaults, yields.
  apply (returns_bind (λ _, True)); [apply any_file_returns|]. intros explicit _.
  apply (returns_bind (λ _, True)); [destruct explicit; [done|apply detect_returns]|]. intros default_ _.
  by eapply yields_bind; [by apply collect_yields|].
Qed.

(** C31. Whatever the file system answers, also when it changes during the walk, a collection ends
    (the walk lists at most as many directories as the walked-entry limit allows), and a context
    it returns is in strict path order, has only relative paths within the path limit, holds no
    more file bytes than the total limit, and always has a content digest for the manifest that
    names its root. *)
Theorem collection_ends_within_limits `{!Sha256} root dockerfile env :
  cl_max_walked_entries limits < u64_max → 0 ≤ cl_max_total_bytes limits →
  ∃ r, (run (@existT fs_call fs_answer) env (collect_context_with_defaults root dockerfile limits) []).1 = Some r
    ∧ ∀ c default_, r = Ok (c, default_) →
        context_ok limits c
        ∧ ∀ m s, mr_materialization_root (mf_roots m) = co_materialization_root c →
            ∃ d, content_digest m s c = Ok d.
Proof.
  intros Hmax Htotal. destruct (yields_run _ _ env [] (defaults_yields root dockerfile Hmax Htotal)) as (r & Hr & Hok).
  exists r. split; [done|]. intros c default_ Hc. specialize (Hok _ Hc). cbn in Hok. split; [done|].
  intros m s Hroot. eexists. by eapply context_ok_digest.
Qed.
End ends.

(** ** Examples *)

#[local] Instance no_json : DockerText := {| parse_strings := λ _, None; debug := λ s, s |}.
Definition rust_disk : Disk :=
  {| dk_root := [Normal "work"];
     dk_nodes := list_to_map
       [(["Dockerfile"], FileNode (lines_text ["FROM alpine"; "COPY . /src"]) false);
        (["Cargo.toml"], FileNode "[package]" false);
        (["src"], DirNode); (["src"; "main.rs"], FileNode "fn main() {}" false);
        (["run"], FileNode "#!" true); (["latest"], LinkNode "run");
        ([".git"], DirNode); ([".git"; "HEAD"], FileNode "ref" false);
        (["target"], DirNode); (["target"; "debug"], DirNode); (["target"; "debug"; "a.out"], OtherNode)] |}.
Definition rust_context : ContextObservation :=
  {| co_materialization_root := "/work";
     co_entries :=
       [File "Cargo.toml" "[package]" false;
        File "Dockerfile" (lines_text ["FROM alpine"; "COPY . /src"]) false;
        Symlink "latest" "run"; File "run" "#!" true; Directory "src";
        File "src/main.rs" "fn main() {}" false] |}.
Definition rust_run :=
  (run (@existT fs_call fs_answer) (λ _, disk_answer rust_disk)
     (collect_context_with_defaults [Normal "work"] "Dockerfile" CollectorLimits_default) []).1.
(** The whole checkout of a Rust workspace is its context, without the history and the build
    output that the default rules ignore, and this context is within the limits. *)
Lemma collection_ends_within_limits_witness :
  rust_run = Some (Ok (rust_context, Some IgnoreRust)) ∧ context_ok CollectorLimits_default rust_context.
Proof.
  assert (rust_run = Some (Ok (rust_context, Some IgnoreRust))) as Hrun by (vm_compute; reflexivity).
  split; [exact Hrun|].
  destruct (@collection_ends_within_limits no_json CollectorLimits_default example_sha256 [Normal "work"]
    "Dockerfile" (λ _, disk_answer rust_disk)) as (r & Hr & Hok); [by vm_compute|by vm_compute|].
  unfold rust_run in Hrun. rewrite Hrun in Hr. injection Hr as <-. by apply (Hok _ _ eq_refl).
Defined.
