(* ===== verification/CollectorRefines.v ===== *)
(** * CollectorRefines: what is collected is the selection of the whole tree

    On a file system that does not change, the walk of the collector, which skips directories
    and keeps only what it may need, followed by the reads, gives exactly the entries that
    [select_context] would choose from the whole tree with every file read. *)

From Stdlib Require Import Ascii.
From S2P Require Import Effects Disk ManifestSafety GenerationIdentity CollectorSafety.

Local Open Scope string_scope.
Local Open Scope list_scope.
Local Open Scope Z_scope.
Local Open Scope bosn_scope.

(** ** Running a collection on a disk *)

Lemma eval_bind_col {A B} ans (p : col_prog A) (f : A → col_prog B) b :
  eval ans (bind_col p f) = Some (Ok b) →
  ∃ a, eval ans p = Some (Ok a) ∧ eval ans (f a) = Some (Ok b).
Proof. unfold bind_col. rewrite eval_bind. destruct (eval ans p) as [[a|e]|]; [|done|done]. eauto. Qed.
(** Take the first step of a collection that succeeded. *)
Ltac step H x Hx := apply eval_bind_col in H as (x & Hx & H).

(** ** Names and paths *)

Notation join := (str_join "/").
Lemma join_app l k : l ≠ [] → k ≠ [] → join (l ++ k) = join l +:+ "/" +:+ join k.
Proof.
  intros Hl Hk. induction l as [|x l IH]; [done|]. destruct l as [|y l].
  - by destruct k.
  - change (join ((x :: y :: l) ++ k)) with (x +:+ "/" +:+ join ((y :: l) ++ k)).
    rewrite IH by done. change (join (x :: y :: l)) with (x +:+ "/" +:+ join (y :: l)).
    by rewrite !string_app_assoc.
Qed.
Definition key_ok (key : list string) : Prop := key ≠ [] ∧ Forall (λ x, comp_ok x = true) key.
Lemma parts_join key : key_ok key → parts_of (join key) = key.
Proof.
  intros [Hne Hk]. apply split_join; [done|]. eapply Forall_impl; [exact Hk|].
  intros x Hx. unfold comp_ok in Hx. by booleans.
Qed.
Lemma clean_join key : key_ok key → clean (join key).
Proof. intros Hk. unfold clean. fold (parts_of (join key)). rewrite parts_join by done. apply Hk. Qed.
Lemma join_parts p : join (parts_of p) = p.
Proof. apply join_split. Qed.
Lemma join_inj key key' : key_ok key → key_ok key' → join key = join key' → key = key'.
Proof. intros H H' Heq. rewrite <- (parts_join key), <- (parts_join key'), Heq; done. Qed.
Lemma beneath_join dir rest : key_ok dir → key_ok rest → beneath (join dir) (join (dir ++ rest)).
Proof.
  intros Hd Hr. split; [by apply clean_join|]. exists (join rest). split; [by apply clean_join|].
  apply join_app; [apply Hd|apply Hr].
Qed.
Lemma child_Some dir key name : child dir key = Some name ↔ key = dir ++ [name].
Proof.
  unfold child. split.
  - intros Hc. destruct (rev key) as [|x above] eqn:Hr; [done|]. case_decide; [|done]. simplify_eq.
    rewrite <- (rev_involutive key), Hr. done.
  - intros ->. rewrite rev_app_distr. cbn. rewrite rev_involutive. by rewrite decide_True.
Qed.
Lemma names_normal l : names (Normal <$> l) = Some l.
Proof. induction l as [|x l IH]; [done|]. cbn. by rewrite IH. Qed.
Lemma strip_app root p : path_strip_prefix root (root ++ p) = Some p.
Proof. induction root as [|c root IH]; [done|]. cbn. by rewrite decide_True. Qed.
Lemma label_join l rel : label (Normal <$> l) = Ok rel → rel = join l.
Proof.
  unfold label. assert (∀ whole parts, label_parts whole (Normal <$> l) = Ok parts → parts = l) as Hl.
  { intros whole. induction l as [|x l IH]; intros parts; [by intros [= <-]|]. cbn.
    destruct (refuse _ _) as [|]; [|done]. destruct (refuse _ _) as [|]; [|done].
    destruct (label_parts _ _) as [parts'|]; [|done]. intros [= <-]. f_equal. by apply IH. }
  destruct (label_parts _ _) as [parts|] eqn:Hp; [|done]. apply Hl in Hp as ->.
  destruct (relative _); [|done]. by intros [= <-].
Qed.

Section disk.
Context (d : Disk) (Hdisk : disk_ok d).

Lemma at_path_names l : path_strip_prefix (dk_root d) (at_path d l) = Some (Normal <$> l).
Proof. apply strip_app. Qed.
Lemma node_at_path l : l ≠ [] → node_at d (at_path d l) = dk_nodes d !! l.
Proof. intros Hl. unfold node_at. rewrite at_path_names. cbn. rewrite names_normal. cbn. by rewrite decide_False. Qed.
Lemma at_path_inj l l' : at_path d l = at_path d l' → l = l'.
Proof.
  intros Heq. pose proof (at_path_names l) as H. rewrite Heq, at_path_names in H. injection H as H.
  apply (f_equal names) in H. rewrite !names_normal in H. congruence.
Qed.
Lemma disk_key key n : dk_nodes d !! key = Some n → key_ok key.
Proof. intros H. destruct (Hdisk key n H) as (? & ? & _). by split. Qed.
Lemma disk_parent dir name n :
  dk_nodes d !! (dir ++ [name]) = Some n → dir = [] ∨ dk_nodes d !! dir = Some DirNode.
Proof. intros H. destruct (Hdisk _ _ H) as (_ & _ & Hp). by rewrite removelast_last in Hp. Qed.
Lemma elem_of_children dir key n :
  (key, n) ∈ children d dir ↔ dk_nodes d !! key = Some n ∧ ∃ name, key = dir ++ [name].
Proof.
  unfold children. rewrite elem_of_filterb, elem_of_map_to_list. cbn. rewrite bool_decide_eq_true.
  unfold is_Some. setoid_rewrite child_Some. tauto.
Qed.

(** ** One entry of the walk *)

Section walking.
Context `{!DockerText} (limits : CollectorLimits) (pruner : WalkPruner).
Notation sources := (wp_source_patterns pruner).

Lemma classify_sources_step (P Q : string → bool → Prop) ss p seen m wit seen' :
  Forall2 P ss seen → classify_sources ss p seen = Ok (m, wit, seen') →
  (∀ s b h, s ∈ ss → P s b → source_matches s p = Ok h → (h = true → b = false → wit = true) → Q s (b || h)) →
  Forall2 Q ss seen' ∧ any_source_matches ss p = Ok m.
Proof.
  intros HP. revert m wit seen'. induction HP as [|s b ss seen Hs _ IH]; intros m wit seen'; cbn.
  { intros [= <- <- <-] _. by split; [constructor|]. }
  destruct (source_matches s p) as [h|] eqn:Hh; [|done].
  destruct (classify_sources ss p seen) as [[[m' wit'] rest]|]; [|done].
  intros [= <- <- <-] Hstep. destruct (IH _ _ _ eq_refl) as [HQ Hm].
  { intros s' b' h' Hin HP' Hs' Hw. apply Hstep; [by right|done|done|]. intros H1 H2. by rewrite (Hw H1 H2), orb_true_r. }
  split.
  - constructor; [|done]. apply Hstep; [left|done|done|]. by intros -> ->.
  - destruct h; [done|]. exact Hm.
Qed.
(** What the pruner says of a path, and what it has seen afterwards. *)
Lemma classify_step (P Q : string → bool → Prop) p seen selected retain seen' :
  Forall2 P sources seen → classify pruner p seen = Ok (selected, retain, seen') →
  (∀ s b h, P s b → source_matches s p = Ok h → (h = true → b = false → retain = true) → Q s (b || h)) →
  Forall2 Q sources seen'
  ∧ (retain = false → p ∉ wp_protected pruner ∧ selects (wp_rules pruner) sources (wp_all pruner) p ≠ Ok true).
Proof.
  intros HP Hc Hstep. unfold classify in Hc.
  destruct (classify_sources _ _ _) as [[[m wit] seen1]|] eqn:Hcs; [|done].
  destruct (if bool_decide _ then _ else _) as [sel|] eqn:Hsel; [|done]. injection Hc as <- <- <-.
  destruct (classify_sources_step P Q _ _ _ _ _ _ HP Hcs) as [HQ Hany].
  { intros s b h _ Hs Hh Hw. apply Hstep; [done|done|]. intros H1 H2. by rewrite (Hw H1 H2), orb_true_r. }
  split; [done|]. intros [-> ->]%orb_false_elim. case_bool_decide; [done|]. split; [done|].
  unfold selects. rewrite Hany. destruct (wp_all pruner), m; cbn in Hsel |- *; try done;
    by destruct (ignored _ _) as [[]|].
Qed.

(** What the walk knows after it has met the entries [visited]: the nodes it kept, that it keeps
    what is selected, and which sources it has seen. *)
Record tracks (visited : list (list string)) (w : Walk) : Prop := {
  tk_ordered : ordered (wk_nodes w);
  tk_nodes : ∀ rel path kind, (rel, (path, kind)) ∈ wk_nodes w → ∃ key n,
    dk_nodes d !! key = Some n ∧ rel = join key ∧ path = at_path d key ∧ kind = node_kind n;
  tk_dropped : ∀ key, key ∈ visited → join key ∉ (wk_nodes w).*1 →
    join key ∉ wp_protected pruner ∧ selects (wp_rules pruner) sources (wp_all pruner) (join key) ≠ Ok true;
  tk_seen : Forall2 (λ s b,
    (b = true → ∃ rel, rel ∈ (wk_nodes w).*1 ∧ source_matches s rel = Ok true)
    ∧ ∀ key, key ∈ visited → source_matches s (join key) = Ok true → b = true) sources (wk_seen w);
}.
Lemma tree_insert_mono {A} k (v : A) m x : x ∈ m.*1 → x ∈ (tree_insert k v m).*1.
Proof.
  induction m as [|[k' v'] m IH]; cbn [tree_insert]; [by intros ?%not_elem_of_nil|].
  destruct (String.compare k k') eqn:E; rewrite !fmap_cons, ?elem_of_cons; cbn; [|tauto|].
  - apply string_compare_Eq in E as ->. tauto.
  - intros [->|Hx]; [by left|right; by apply IH].
Qed.
Lemma tree_insert_key {A} k (v : A) m : k ∈ (tree_insert k v m).*1.
Proof.
  induction m as [|[k' v'] m IH]; cbn [tree_insert]; [left|].
  destruct (String.compare k k'); rewrite !fmap_cons, !elem_of_cons; cbn; auto.
Qed.
Lemma tree_insert_elem {A} k (v : A) m kv : kv ∈ tree_insert k v m → kv = (k, v) ∨ kv ∈ m.
Proof.
  induction m as [|[k' v'] m IH]; cbn [tree_insert]; [rewrite list_elem_of_singleton; auto|].
  destruct (String.compare k k'); rewrite !elem_of_cons; [tauto|tauto|]. intros [->|Hx]; [auto|].
  destruct (IH Hx); auto.
Qed.
(** Whether a directory need not be listed any more, or is still to be listed. *)
Definition settled (w : Walk) (dir : list string) : Prop :=
  prunes pruner (join dir) = Ok true ∨ ∃ depth, (at_path d dir, depth) ∈ wk_pending w.
Lemma visit_tracks visited w depth key n w' :
  tracks visited w → dk_nodes d !! key = Some n →
  visit limits (dk_root d) pruner depth w (at_path d key, node_kind n) = Ok w' →
  tracks (key :: visited) w' ∧ (∀ x, x ∈ wk_pending w → x ∈ wk_pending w')
  ∧ (n = DirNode → settled w' key).
Proof.
  intros [Ho Hn Hd Hs] Hkey Hv.
  apply visit_inv in Hv as (under & rel & sel & retain & Hu & Hl & _ & _ & _ & _ & Hc & Hnodes & Hp).
  rewrite at_path_names in Hu. injection Hu as <-. apply label_join in Hl as ->.
  split; [|split].
  - set (keys := (wk_nodes w').*1).
    assert (∀ x, x ∈ (wk_nodes w).*1 → x ∈ keys) as Hmono.
    { unfold keys. destruct retain; [destruct Hnodes as [_ ->]; apply tree_insert_mono|by rewrite Hnodes]. }
    assert (retain = true → join key ∈ keys) as Hnew.
    { intros ->. unfold keys. destruct Hnodes as [_ ->]. apply tree_insert_key. }
    eapply (classify_step _ (λ s b, (b = true → ∃ rel, rel ∈ keys ∧ source_matches s rel = Ok true)
      ∧ ∀ k, k ∈ key :: visited → source_matches s (join k) = Ok true → b = true)) in Hc as [HQ Hc]; [|exact Hs|].
    2: { intros s b h [Hb Hseen] Hh Hr. split.
         - intros [->| ->]%orb_prop; [destruct Hb as (r & ? & ?); eauto|]. destruct b.
           + destruct Hb as (r & ? & ?); eauto.
           + exists (join key). auto.
         - intros k [->|Hk]%elem_of_cons Hm; [rewrite Hm in Hh; injection Hh as <-; apply orb_true_r|].
           by rewrite (Hseen k Hk Hm). }
    split; [..|exact HQ].
    + destruct retain; [destruct Hnodes as [_ ->]; by apply tree_insert_ordered|by rewrite Hnodes].
    + intros r path kind Hin. destruct retain.
      * destruct Hnodes as [_ Heq]. rewrite Heq in Hin.
        apply tree_insert_elem in Hin as [[= -> -> ->]|Hin]; [by exists key, n|by apply Hn].
      * rewrite Hnodes in Hin. by apply Hn.
    + intros k [->|Hk]%elem_of_cons Hout; [|apply Hd; [done|by intros ?%Hmono]].
      destruct retain; [by destruct Hout; apply Hnew|by apply Hc].
  - case_bool_decide; [destruct Hp as (skip & _ & ->); destruct skip; [done|by right]|by rewrite Hp].
  - intros ->. rewrite bool_decide_eq_true_2 in Hp by done. destruct Hp as (skip & Hsk & Hp).
    unfold settled. destruct skip; [by left|]. right. eexists. rewrite Hp. left.
Qed.
Lemma visit_all_tracks visited w depth l w' :
  tracks visited w → Forall (λ kn, dk_nodes d !! kn.1 = Some kn.2) l →
  visit_all limits (dk_root d) pruner depth w ((λ kn, (at_path d kn.1, node_kind kn.2)) <$> l) = Ok w' →
  ∃ visited', tracks visited' w' ∧ (∀ key, key ∈ visited' ↔ key ∈ l.*1 ∨ key ∈ visited)
    ∧ (∀ x, x ∈ wk_pending w → x ∈ wk_pending w')
    ∧ ∀ key, (key, DirNode) ∈ l → settled w' key.
Proof.
  intros Ht Hl. revert visited w Ht. induction Hl as [|[key n] l Hk _ IH]; intros visited w Ht.
  { intros [= <-]. exists visited. split_and!; [done| |done|by intros ? ?%not_elem_of_nil].
    intros key. by rewrite elem_of_nil; naive_solver. }
  rewrite fmap_cons. cbn [visit_all fst snd]. destruct (visit _ _ _ _ w _) as [w1|] eqn:Hv; [|done].
  intros Hall. destruct (visit_tracks _ _ _ _ _ _ Ht Hk Hv) as (Ht1 & Hp1 & Hd1).
  destruct (IH _ _ Ht1 Hall) as (visited' & Ht' & Hiff & Hp' & Hd'). exists visited'. split_and!; [done|..].
  - intros k. rewrite Hiff, fmap_cons, !elem_of_cons. cbn. tauto.
  - auto.
  - intros k [[= <- <-]|Hin]%elem_of_cons; [|by apply Hd'].
    destruct (Hd1 eq_refl) as [?|[dp ?]]; [by left|right; eauto].
Qed.

(** ** The whole walk *)

Definition is_dir (dir : list string) : Prop := dir = [] ∨ dk_nodes d !! dir = Some DirNode.
Definition listed (visited : list (list string)) (dir : list string) : Prop :=
  ∀ name n, dk_nodes d !! (dir ++ [name]) = Some n → dir ++ [name] ∈ visited.
(** Every directory the walk has met, the root among them, is pruned, still to be listed, or listed. *)
Definition progress (visited : list (list string)) (w : Walk) : Prop :=
  ∀ dir, dir = [] ∨ dir ∈ visited ∧ dk_nodes d !! dir = Some DirNode →
    dir ≠ [] ∧ prunes pruner (join dir) = Ok true
    ∨ (∃ depth, (at_path d dir, depth) ∈ wk_pending w) ∨ listed visited dir.
Definition pending_ok (w : Walk) : Prop :=
  ∀ path depth, (path, depth) ∈ wk_pending w → ∃ dir, path = at_path d dir ∧ is_dir dir.

Lemma read_directory_disk dir :
  is_dir dir → eval (disk_answer d) (read_directory (at_path d dir)) = Some (Ok (listing d dir, None)).
Proof.
  intros Hd. cbn. assert (node_at d (at_path d dir) = Some DirNode) as ->.
  { destruct (decide (dir = [])) as [->|Hne].
    - unfold node_at. rewrite at_path_names. done.
    - rewrite node_at_path by done. by destruct Hd. }
  rewrite at_path_names. cbn. by rewrite names_normal.
Qed.
Lemma visit_pending w depth key n w' x :
  visit limits (dk_root d) pruner depth w (at_path d key, node_kind n) = Ok w' →
  x ∈ wk_pending w' → x ∈ wk_pending w ∨ (x.1 = at_path d key ∧ n = DirNode).
Proof.
  intros Hv Hx. apply visit_inv in Hv as (? & ? & ? & ? & _ & _ & _ & _ & _ & _ & _ & _ & Hp).
  case_bool_decide as Hk; [|rewrite Hp in Hx; by left]. destruct Hp as (skip & _ & Hp). rewrite Hp in Hx.
  destruct skip; [by left|]. apply elem_of_cons in Hx as [->|Hx]; [right|by left]. split; [done|]. by destruct n.
Qed.
Lemma visit_all_pending w depth l w' :
  Forall (λ kn, dk_nodes d !! kn.1 = Some kn.2) l → pending_ok w →
  visit_all limits (dk_root d) pruner depth w ((λ kn, (at_path d kn.1, node_kind kn.2)) <$> l) = Ok w' →
  pending_ok w'.
Proof.
  intros Hl. revert w. induction Hl as [|[key n] l Hk _ IH]; intros w Hw; [by intros [= <-]|].
  rewrite fmap_cons. cbn [visit_all fst snd]. destruct (visit _ _ _ _ w _) as [w1|] eqn:Hv; [|done].
  apply IH. intros path dp Hin. destruct (visit_pending _ _ _ _ _ _ Hv Hin) as [?|[Hpath ->]]; [by eapply Hw|].
  exists key. split; [done|]. by right.
Qed.
(** Listing the directory on top of the stack. *)
Lemma listing_progress visited w dir depth pending visited' w' :
  wk_pending w = (at_path d dir, depth) :: pending → progress visited w →
  (∀ key, key ∈ visited' ↔ key ∈ (children d dir).*1 ∨ key ∈ visited) →
  (∀ x, x ∈ pending → x ∈ wk_pending w') → (∀ key, (key, DirNode) ∈ children d dir → settled w' key) →
  progress visited' w'.
Proof.
  intros Hq Hp Hiff Hmono Hset k Hk. destruct (decide (k = dir)) as [->|Hne].
  { right. right. intros name n Hn. apply Hiff. left. apply list_elem_of_fmap. exists (dir ++ [name], n).
    split; [done|]. apply elem_of_children. eauto. }
  assert (k = [] ∨ k ∈ visited ∧ dk_nodes d !! k = Some DirNode ∨ (k, DirNode) ∈ children d dir) as Hcase.
  { destruct Hk as [?|[[Hk|Hk]%Hiff Hdk]]; [by left| |by right; left].
    right. right. apply list_elem_of_fmap in Hk as ([k' n] & Heq & Hk). cbn in Heq. subst k'.
    apply elem_of_children in Hk as [Hk ?]. rewrite Hdk in Hk. injection Hk as <-. by apply elem_of_children. }
  apply Logic.or_assoc in Hcase. destruct Hcase as [Hk'|Hin].
  - destruct (Hp k Hk') as [?|[[dp Hin]|Hlist]]; [by left|right; left|right; right].
    + rewrite Hq in Hin. apply elem_of_cons in Hin as [[= Heq _]|Hin]; [by apply at_path_inj in Heq|].
      exists dp. by apply Hmono.
    + intros name n Hn. apply Hiff. right. by eapply Hlist.
  - destruct (Hset k Hin) as [?|?]; [left|by right; left]. split; [|done].
    intros ->. apply elem_of_children in Hin as [_ [name Hnil]]. by destruct dir.
Qed.
Lemma walk_tracks fuel w visited w' :
  tracks visited w → progress visited w → pending_ok w →
  eval (disk_answer d) (walk limits (dk_root d) fuel pruner w) = Some (Ok w') →
  ∃ visited', tracks visited' w' ∧ progress visited' w' ∧ wk_pending w' = [].
Proof.
  revert w visited. induction fuel as [|fuel IH]; intros w visited Ht Hp Hpend Hw; [done|]. cbn [walk] in Hw.
  destruct (wk_pending w) as [|[path depth] pending] eqn:Hq.
  { injection Hw as <-. by exists visited. }
  destruct (Hpend path depth) as (dir & -> & Hdir); [rewrite Hq; left|].
  step Hw found Hfound. rewrite read_directory_disk in Hfound by done. injection Hfound as <-.
  step Hw w1 Hw1. injection Hw1 as Hw1. cbn [fst snd] in Hw, Hw1. unfold listing in Hw1.
  assert (Forall (λ kn, dk_nodes d !! kn.1 = Some kn.2) (children d dir)) as Hch.
  { apply Forall_forall. intros [key n] Hin. by apply elem_of_children in Hin as [? _]. }
  set (w0 := {| wk_nodes := _ |}) in Hw1.
  assert (tracks visited w0) as Ht0 by (destruct Ht; by split).
  assert (pending_ok w0) as Hpend0 by (intros p dp Hin; apply (Hpend p dp); rewrite Hq; by right).
  destruct (visit_all_tracks _ _ _ _ _ Ht0 Hch Hw1) as (visited' & Ht' & Hiff & Hmono & Hset).
  apply (IH w1 visited'); [done|by eapply listing_progress|by eapply visit_all_pending|done].
Qed.
(** The walk meets every entry of the disk that is not below a pruned directory. *)
Lemma walk_complete visited w key n :
  progress visited w → wk_pending w = [] → dk_nodes d !! key = Some n →
  key ∈ visited ∨ ∃ dir rest, key = dir ++ rest ∧ dir ≠ [] ∧ rest ≠ [] ∧ prunes pruner (join dir) = Ok true.
Proof.
  intros Hp Hq. revert n. induction key as [|name dir IH] using rev_ind; intros n Hn.
  { destruct (disk_key [] n Hn) as [Hne _]. by destruct Hne. }
  destruct (disk_parent _ _ _ Hn) as [Hroot|Hdir].
  - subst dir. destruct (Hp []) as [[? _]|[[dp Hin]|Hl]]; [by left|done|rewrite Hq in Hin; by apply not_elem_of_nil in Hin|].
    left. by apply (Hl name n).
  - destruct (IH _ Hdir) as [Hv|(dir' & rest & -> & ? & ? & ?)].
    + destruct (Hp dir) as [[Hne Hpr]|[[dp Hin]|Hl]]; [by right| | |].
      * right. by exists dir, [name].
      * rewrite Hq in Hin. by apply not_elem_of_nil in Hin.
      * left. by apply (Hl name n).
    + right. exists dir', (rest ++ [name]). rewrite app_assoc. split_and!; try done. by destruct rest.
Qed.
End walking.

(** ** The reads *)

Definition entry_of (node : string * (Path * ContextPathKind)) : ContextEntry :=
  match node_at d node.2.1 with
  | Some (FileNode bytes x) => File node.1 bytes x
  | Some DirNode => Directory node.1
  | Some (LinkNode target) => Symlink node.1 target
  | _ => File node.1 "" false
  end.
Definition on_disk (node : string * (Path * ContextPathKind)) : Prop :=
  ∃ key n, dk_nodes d !! key = Some n ∧ node = (join key, (at_path d key, node_kind n)).
Lemma entry_of_node key n :
  dk_nodes d !! key = Some n → entry_of (join key, (at_path d key, node_kind n)) = node_entry key n.
Proof.
  intros Hk. unfold entry_of. cbn. destruct (disk_key _ _ Hk) as [Hne _].
  rewrite node_at_path by done. rewrite Hk. by destruct n.
Qed.
Lemma read_entry_disk limits policy total node e t :
  on_disk node → eval (disk_answer d) (read_entry limits policy total node) = Some (Ok (e, t)) → e = entry_of node.
Proof.
  intros (key & n & Hk & ->) Hr. rewrite entry_of_node by done. destruct (disk_key _ _ Hk) as [Hne _].
  unfold read_entry in Hr. step Hr m Hm. destruct (negb _); [done|]. destruct n as [bytes x| |target|]; cbn [node_kind] in Hr.
  - step Hr m2 Hm2. destruct (_ <? _); [done|]. destruct (_ <? _); [done|]. destruct (_ <? _); [done|].
    step Hr f Hf. destruct (is_some_and _ _); [done|]. destruct (checked_add _ _); [|done].
    destruct (_ <? _); [done|]. cbn in Hr, Hf. rewrite node_at_path, Hk in Hf by done.
    destruct (_ <? _); [done|]. injection Hf as <-. by injection Hr as <- <-.
  - by injection Hr as <- <-.
  - step Hr g Hg. cbn in Hg. rewrite node_at_path, Hk in Hg by done. injection Hg as <-.
    destruct (is_utf8 _); [|done]. by injection Hr as <- <-.
  - done.
Qed.
Lemma read_entries_disk limits policy selected total nodes l :
  Forall on_disk nodes → eval (disk_answer d) (read_entries limits policy selected total nodes) = Some (Ok l) →
  l = filterb (λ e, bool_decide (entry_path e ∈ selected)) (entry_of <$> nodes).
Proof.
  intros Hn. revert total l. induction Hn as [|node nodes Hd _ IH]; intros total l Hr; cbn [read_entries] in Hr.
  { by injection Hr as <-. }
  rewrite fmap_cons, filterb_cons.
  assert (entry_path (entry_of node) = node.1) as -> by (unfold entry_of; by repeat case_match).
  destruct (bool_decide _).
  - step Hr et Het. step Hr rest Hrest. injection Hr as <-. destruct et as [e t].
    apply read_entry_disk in Het as ->; [|done]. cbn in *. f_equal. by eapply IH.
  - by eapply IH.
Qed.
End disk.

(** ** Lists of entries in path order *)

Definition path_sorted (l : list ContextEntry) : Prop := StronglySorted key_lt (entry_path <$> l).
Lemma key_lt_trans a b c : key_lt a b → key_lt b c → key_lt a c.
Proof. unfold key_lt. intros H1 H2. apply (cmp_le_Lt String.compare a b c); congruence. Qed.
Lemma path_sorted_cons e l :
  path_sorted (e :: l) ↔ path_sorted l ∧ ∀ x, x ∈ l → key_lt (entry_path e) (entry_path x).
Proof.
  unfold path_sorted. rewrite fmap_cons, StronglySorted_cons, Forall_fmap, Forall_forall. tauto.
Qed.
Lemma path_sorted_eq l k : path_sorted l → path_sorted k → (∀ e, e ∈ l ↔ e ∈ k) → l = k.
Proof.
  revert k. induction l as [|a l IH]; intros k Hl Hk Hiff.
  { destruct k as [|b k]; [reflexivity|]. destruct (not_elem_of_nil b). apply Hiff. left. }
  destruct k as [|b k]; [destruct (not_elem_of_nil a); apply Hiff; left|].
  apply path_sorted_cons in Hl as [Hl Ha]. apply path_sorted_cons in Hk as [Hk Hb].
  assert (a ∈ b :: k) as Hak by (apply Hiff; left). assert (b ∈ a :: l) as Hbl by (apply Hiff; left).
  assert (a = b) as <-.
  { apply elem_of_cons in Hak as [|Hak]; [done|]. apply elem_of_cons in Hbl as [|Hbl]; [done|].
    destruct (key_lt_irrefl (entry_path a)). by eapply key_lt_trans; [apply Ha|apply Hb]. }
  f_equal. apply IH; [done|done|]. intros e. specialize (Hiff e). rewrite !elem_of_cons in Hiff.
  split; intros He.
  - destruct (proj1 Hiff (or_intror He)) as [->|]; [|done]. by destruct (key_lt_irrefl _ (Ha _ He)).
  - destruct (proj2 Hiff (or_intror He)) as [->|]; [|done]. by destruct (key_lt_irrefl _ (Hb _ He)).
Qed.
Lemma path_sorted_NoDup l : path_sorted l → NoDup (entry_path <$> l).
Proof.
  induction l as [|e l IH]; [constructor|]. intros [Hl He]%path_sorted_cons. rewrite fmap_cons.
  constructor; [|by apply IH]. intros (x & Heq & Hx)%list_elem_of_fmap. apply (key_lt_irrefl (entry_path e)).
  rewrite Heq at 2. by apply He.
Qed.
Lemma path_unique l e e' : path_sorted l → e ∈ l → e' ∈ l → entry_path e = entry_path e' → e = e'.
Proof.
  induction l as [|x l IH]; [by intros _ ?%not_elem_of_nil|]. intros [Hl Hx]%path_sorted_cons.
  intros [->|He]%elem_of_cons [->|He']%elem_of_cons Heq; [done|..|by apply IH].
  - destruct (key_lt_irrefl (entry_path x)). rewrite Heq at 2. by apply Hx.
  - destruct (key_lt_irrefl (entry_path x)). rewrite <- Heq at 2. by apply Hx.
Qed.
Lemma path_sorted_sublist l k : l `sublist_of` k → path_sorted k → path_sorted l.
Proof.
  intros Hs. induction Hs as [|e l k Hs IH|e l k Hs IH]; [done|..]; intros [Hk He]%path_sorted_cons; [|by apply IH].
  apply path_sorted_cons. split; [by apply IH|]. intros x Hx. apply He. by eapply sublist_elem_of.
Qed.
Lemma path_sorted_filterb f l : path_sorted l → path_sorted (filterb f l).
Proof. apply path_sorted_sublist, sublist_filter. Qed.
Lemma path_sorted_strict l : NoDup (entry_path <$> l) → StronglySorted (cmp_le entry_cmp) l → path_sorted l.
Proof.
  induction l as [|e l IH]; [constructor|]. rewrite fmap_cons. intros [Hn Hd]%NoDup_cons [He Hl]%StronglySorted_cons.
  apply path_sorted_cons. split; [by apply IH|]. intros x Hx. rewrite Forall_forall in He. specialize (He x Hx).
  unfold cmp_le, entry_cmp, cmp_on in He. unfold key_lt.
  destruct (String.compare _ _) eqn:E; [|done|done]. apply string_compare_Eq in E. destruct Hn. rewrite E.
  by apply list_elem_of_fmap_2.
Qed.
Lemma file_Some l p b :
  NoDup (entry_path <$> l) → file l p = Some b ↔ ∃ x, File p b x ∈ l.
Proof.
  unfold file. induction l as [|e l IH]; [cbn; split; [done|]; by intros (x & ?%not_elem_of_nil)|].
  rewrite fmap_cons. intros [Hn Hd]%NoDup_cons. specialize (IH Hd). setoid_rewrite elem_of_cons.
  destruct e as [q c y|q|q t]; cbn; [case_bool_decide as Hq|..].
  - subst q. cbn. split; [intros [= ->]; eauto|]. intros (x & [[= -> ->]|Hx]); [done|].
    destruct Hn. apply list_elem_of_fmap. by exists (File p b x).
  - rewrite IH. split; intros (x & Hx); exists x; [by right|]. by destruct Hx as [[= -> _ _]|].
  - rewrite IH. split; intros (x & Hx); exists x; [by right|by destruct Hx].
  - rewrite IH. split; intros (x & Hx); exists x; [by right|by destruct Hx].
Qed.

(** ** Selections depend on paths and policy files only *)

Section paths.
Context `{!DockerText}.

Lemma select_entries_paths l k protected rules ss all s :
  entry_path <$> l = entry_path <$> k → select_entries l protected rules ss all = Ok s →
  ∃ s', select_entries k protected rules ss all = Ok s' ∧ entry_path <$> s = entry_path <$> s'.
Proof.
  revert k s. induction l as [|e l IH]; intros [|e' k] s; try done.
  { intros _ [= <-]. by exists []. }
  rewrite !fmap_cons. intros [= He Hl] Hs. cbn [select_entries] in Hs |- *. rewrite <- He.
  destruct (if bool_decide _ then _ else _) as [b|]; [|done].
  destruct (select_entries l _ _ _ _) as [r|]; [|done]. destruct (IH k r Hl eq_refl) as (r' & -> & Hr).
  injection Hs as <-. eexists. split; [done|]. destruct b; [|done]. by rewrite !fmap_cons, He, Hr.
Qed.
Lemma source_present_paths s l k :
  entry_path <$> l = entry_path <$> k → source_present s l = source_present s k.
Proof.
  revert k. induction l as [|e l IH]; intros [|e' k]; try done. rewrite !fmap_cons. intros [= He Hl].
  cbn. by rewrite He, (IH k Hl).
Qed.
Lemma check_sources_paths ss l k :
  entry_path <$> l = entry_path <$> k → check_sources ss l = check_sources ss k.
Proof. intros Hl. induction ss as [|s ss IH]; [done|]. cbn. by rewrite (source_present_paths s l k Hl), IH. Qed.
Lemma sort_by_paths l :
  entry_path <$> sort_by (cmp_on entry_path String.compare) l = sort_by String.compare (entry_path <$> l).
Proof.
  induction l as [|e l IH]; [done|]. rewrite fmap_cons. cbn [sort_by]. rewrite <- IH.
  generalize (sort_by (cmp_on entry_path String.compare) l). clear. intros l.
  induction l as [|x l IH]; [done|]. rewrite fmap_cons. cbn [insert_by]. unfold cmp_on at 1.
  destruct (String.compare (entry_path e) (entry_path x)); rewrite !fmap_cons; [done|done|by rewrite IH].
Qed.
Lemma select_context_paths l k df f1 f2 s :
  entry_path <$> l = entry_path <$> k → file l df = file k df → ignore_file l df = ignore_file k df →
  (ignore_file l df = None → f1 = f2) → select_context_with l df f1 = Ok s →
  ∃ s', select_context_with k df f2 = Ok s' ∧ entry_path <$> s = entry_path <$> s'.
Proof.
  intros Hp Hf Hi Hfall Hs. unfold select_context_with in *. rewrite <- Hf, <- Hi.
  destruct (ok_or (file l df) _) as [b|]; [|done]. destruct (ok_or (from_utf8 b) _) as [text|]; [|done].
  assert ((match ignore_file l df with
    | Some (_, b) => let? b := ok_or (from_utf8 b) (InvalidUtf8 ".dockerignore") in Ok (ignore_rules b)
    | None => Ok (default [] (ignore_rules <$> f2)) end) =
    match ignore_file l df with
    | Some (_, b) => let? b := ok_or (from_utf8 b) (InvalidUtf8 ".dockerignore") in Ok (ignore_rules b)
    | None => Ok (default [] (ignore_rules <$> f1)) end) as ->.
  { destruct (ignore_file l df) as [[]|]; [done|]. by rewrite Hfall. }
  destruct (match ignore_file l df with Some _ => _ | None => _ end) as [rules|]; [|done].
  destruct (local_sources text) as [sa|]; [|done].
  destruct (select_entries l _ _ _ _) as [sel|] eqn:Hse; [|done].
  destruct (select_entries_paths _ k _ _ _ _ _ Hp Hse) as (sel' & -> & Hsel).
  rewrite <- (check_sources_paths _ l k Hp). destruct (check_sources _ _); [|done]. injection Hs as <-.
  eexists. split; [done|]. by rewrite !sort_by_paths, Hsel.
Qed.
Lemma select_entries_sublist l protected rules ss all s :
  select_entries l protected rules ss all = Ok s → s `sublist_of` l.
Proof.
  revert s. induction l as [|e l IH]; intros s Hs; cbn [select_entries] in Hs; [by injection Hs as <-|].
  destruct (if bool_decide _ then _ else _) as [b|]; [|done].
  destruct (select_entries l _ _ _ _) as [r|]; [|done]. injection Hs as <-.
  destruct b; constructor; by apply IH.
Qed.
(** A selection of entries in path order is the entries whose paths it has. *)
Lemma select_context_filter l df fallback s :
  path_sorted l → select_context_with l df fallback = Ok s →
  s = filterb (λ e, bool_decide (entry_path e ∈ entry_path <$> s)) l.
Proof.
  intros Hl Hs. unfold select_context_with in Hs.
  destruct (ok_or (file l df) _) as [b|]; [|done]. destruct (ok_or (from_utf8 b) _) as [text|]; [|done].
  destruct (match ignore_file l df with Some _ => _ | None => _ end) as [rules|]; [|done].
  destruct (local_sources text) as [sa|]; [|done].
  destruct (select_entries l _ _ _ _) as [sel|] eqn:Hse; [|done]. destruct (check_sources _ _); [|done].
  apply select_entries_sublist in Hse.
  assert (path_sorted sel) as Hsorted by by eapply path_sorted_sublist.
  injection Hs as <-. rewrite (sort_by_id (cmp_on entry_path String.compare)) by by apply sorted_entries.
  apply path_sorted_eq; [done|by apply path_sorted_filterb|].
  intros e. rewrite elem_of_filterb, bool_decide_eq_true. split.
  - intros He. split; [by apply list_elem_of_fmap_2|by eapply sublist_elem_of].
  - intros [(e' & Heq & He')%list_elem_of_fmap He]. enough (e = e') as -> by done.
    eapply path_unique; [exact Hl|done|by eapply sublist_elem_of|done].
Qed.
End paths.

(** ** What the selector is given *)

(** The collector selects before it reads: only the policy files have their bytes. *)
Definition bare (e : ContextEntry) : ContextEntry :=
  match e with File p _ _ => File p "" false | Directory p => Directory p | Symlink p _ => Symlink p "" end.
Lemma bare_paths (l : list ContextEntry) : entry_path <$> (bare <$> l) = entry_path <$> l.
Proof. rewrite <- list_fmap_compose. apply list_fmap_ext. by intros i [] _. Qed.
Lemma replace_bytes_paths l p b : entry_path <$> replace_bytes l p b = entry_path <$> l.
Proof.
  induction l as [|e l IH]; [done|]. cbn [replace_bytes]. case_bool_decide; rewrite !fmap_cons; [by destruct e|].
  by rewrite IH.
Qed.
Lemma file_bare l p : file (bare <$> l) p = (λ _, "") <$> file l p.
Proof.
  unfold file. induction l as [|e l IH]; [done|]. rewrite fmap_cons. destruct e as [q b x|q|q t]; cbn; [|done..].
  by case_bool_decide.
Qed.
Lemma file_cons e l p :
  file (e :: l) p = match e with File q b _ => if q ==? p then Some b else file l p | _ => file l p end.
Proof. destruct e as [q b x|q|q t]; unfold file; cbn; [|done..]. by case_bool_decide. Qed.
Lemma file_absent l p : p ∉ entry_path <$> l → file l p = None.
Proof.
  intros Hp. destruct (file l p) as [b|] eqn:Hf; [|done]. destruct Hp.
  apply file_elem in Hf as (e & He & <-). by apply list_elem_of_fmap_2.
Qed.
Lemma file_replace l p b q :
  NoDup (entry_path <$> l) →
  file (replace_bytes l p b) q = if q ==? p then (λ _, b) <$> file l p else file l q.
Proof.
  induction l as [|e l IH]; [by case_bool_decide|]. rewrite fmap_cons. intros [Hn Hd]%NoDup_cons.
  specialize (IH Hd). cbn [replace_bytes]. destruct (decide (entry_path e = p)) as [He|He].
  - rewrite bool_decide_eq_true_2, !file_cons by done. rewrite He in Hn. pose proof (file_absent _ _ Hn) as Hnone.
    destruct e as [r c x|r|r t]; cbn in He; subst r; repeat case_bool_decide; subst; try done; by rewrite Hnone.
  - rewrite bool_decide_eq_false_2, !file_cons, IH by done. destruct e as [r c x|r|r t]; cbn in He; repeat case_bool_decide; subst; done.
Qed.
Lemma suffix_differs (df : string) : df +:+ ".dockerignore" ≠ df.
Proof. intros H. apply (f_equal String.length) in H. rewrite length_append in H. cbn in H. lia. Qed.
Lemma selector_policy l df db ignore :
  NoDup (entry_path <$> l) → file l df = Some db → ignore_file l df = ignore →
  let s := replace_bytes (bare <$> l) df db in
  let s := match ignore with Some (name, bytes) => replace_bytes s name bytes | None => s end in
  entry_path <$> s = entry_path <$> l ∧ file s df = Some db ∧ ignore_file s df = ignore.
Proof.
  intros Hnd Hdf Hi s1.
  assert (NoDup (entry_path <$> s1)) as Hnd1 by (unfold s1; by rewrite replace_bytes_paths, bare_paths).
  assert (∀ q, file s1 q = if q ==? df then Some db else (λ _, "") <$> file l q) as H1.
  { intros q. unfold s1. rewrite file_replace, !file_bare, Hdf by by rewrite bare_paths. done. }
  pose proof (suffix_differs df) as Hne. unfold ignore_file in *.
  destruct (file l (df +:+ ".dockerignore")) as [b|] eqn:Hspec; [|destruct (file l ".dockerignore") as [b|] eqn:Hroot];
    subst ignore; cbn zeta; cbn [fmap option_fmap option_map]; rewrite ?replace_bytes_paths, ?file_replace, !H1 by done;
    (split; [unfold s1; by rewrite replace_bytes_paths, bare_paths|]).
  - rewrite Hspec, (bool_decide_eq_true_2 (df = df)) by done.
    rewrite !(bool_decide_eq_false_2 (df +:+ ".dockerignore" = df)) by done.
    rewrite (bool_decide_eq_false_2 (df = df +:+ ".dockerignore")), (bool_decide_eq_true_2 (_ = _)) by done. done.
  - rewrite Hspec, (bool_decide_eq_true_2 (df = df)) by done.
    rewrite !(bool_decide_eq_false_2 (df +:+ ".dockerignore" = df)) by done.
    rewrite (bool_decide_eq_false_2 (df +:+ ".dockerignore" = ".dockerignore")) by congruence.
    rewrite (bool_decide_eq_true_2 (".dockerignore" = ".dockerignore")), Hroot by done. cbn.
    repeat case_bool_decide; subst; cbn; split; congruence.
  - rewrite Hspec, (bool_decide_eq_true_2 (df = df)) by done.
    rewrite !(bool_decide_eq_false_2 (df +:+ ".dockerignore" = df)) by done. cbn.
    rewrite (bool_decide_eq_false_2 (".dockerignore" = df)), Hroot by congruence. done.
Qed.

(** ** The whole tree *)

Section whole.
Context (d : Disk) (Hdisk : disk_ok d).

Lemma entry_path_node key n : entry_path (node_entry key n) = join key.
Proof. by destruct n. Qed.
Lemma elem_of_entries e : e ∈ entries d ↔ ∃ key n, dk_nodes d !! key = Some n ∧ e = node_entry key n.
Proof.
  unfold entries. rewrite elem_of_sort_by, list_elem_of_fmap. split.
  - intros ([key n] & -> & Hin%elem_of_map_to_list). by exists key, n.
  - intros (key & n & Hk & ->). exists (key, n). split; [done|]. by apply elem_of_map_to_list.
Qed.
Lemma entries_sorted : path_sorted (entries d).
Proof.
  apply path_sorted_strict; [|apply sort_by_sorted, _]. unfold entries. rewrite sort_by_perm, <- list_fmap_compose.
  apply NoDup_fmap_2_strong; [|apply NoDup_map_to_list]. intros [k n] [k' n'] Hk%elem_of_map_to_list Hk'%elem_of_map_to_list.
  cbn. rewrite !entry_path_node. intros Heq. apply join_inj in Heq as ->; [|by eapply disk_key..]. congruence.
Qed.
Lemma file_entries p :
  file (entries d) p = match dk_nodes d !! parts_of p with
    | Some (FileNode b _) => Some b
    | Some OtherNode => Some ""
    | _ => None
    end.
Proof.
  apply option_eq. intros b. rewrite file_Some by apply path_sorted_NoDup, entries_sorted. split.
  - intros (x & (key & n & Hk & He)%elem_of_entries).
    assert (parts_of p = key) as ->.
    { rewrite <- (parts_join key), <- (entry_path_node key n), <- He; [done|]. by eapply disk_key. }
    rewrite Hk. destruct n; cbn in He; by simplify_eq.
  - intros Hb. destruct (dk_nodes d !! parts_of p) as [n|] eqn:Hk; [|done].
    assert (∃ x, node_entry (parts_of p) n = File p b x) as [x Hx].
    { destruct n; try done; injection Hb as <-; cbn; rewrite join_parts; eauto. }
    exists x. apply elem_of_entries. by exists (parts_of p), n.
Qed.
(** The files that decide the policy are files, or are not there. *)
Definition plain_policy (dockerfile : string) : Prop :=
  dk_nodes d !! parts_of (dockerfile +:+ ".dockerignore") ≠ Some OtherNode
  ∧ dk_nodes d !! [".dockerignore"] ≠ Some OtherNode.
Definition is_file_node (n : option Node) : bool := match n with Some (FileNode _ _) => true | _ => false end.
Lemma node_at_relative p : node_at d (join_relative (dk_root d) p) = dk_nodes d !! parts_of p.
Proof. apply (node_at_path d), parts_nonempty. Qed.
Lemma regular_disk p :
  eval (disk_answer d) (regular (dk_root d) p) = Some (Ok (is_file_node (dk_nodes d !! parts_of p))).
Proof.
  unfold regular. cbn. rewrite node_at_relative. destruct (dk_nodes d !! parts_of p) as [[]|]; done.
Qed.
Lemma read_bounded_disk p limit f :
  eval (disk_answer d) (read_bounded (join_relative (dk_root d) p) limit) = Some (Ok f) →
  dk_nodes d !! parts_of p = Some (FileNode (rf_bytes f) (rf_executable f)).
Proof.
  cbn. rewrite node_at_relative. destruct (dk_nodes d !! parts_of p) as [[]|]; try done.
  destruct (_ <? _); [done|]. by intros [= <-].
Qed.

(** ** The collected context *)

Context `{!DockerText} (limits : CollectorLimits) (dockerfile : string) (fallback : option string).

(** The walk keeps what the selection needs. *)
Lemma walk_keeps_selection df pruner visited w outcome :
  file (entries d) dockerfile = Some df →
  WalkPruner_new dockerfile df (pruner_ignore (entries d) dockerfile fallback) = Ok pruner →
  plain_patterns pruner →
  tracks d pruner visited w → progress d pruner visited w → wk_pending w = [] →
  let kept := filterb (λ e, bool_decide (entry_path e ∈ (wk_nodes w).*1)) (entries d) in
  file kept dockerfile = Some df ∧ ignore_file kept dockerfile = ignore_file (entries d) dockerfile
  ∧ (select_context_with (entries d) dockerfile fallback = outcome →
     (∀ what, outcome ≠ Err (ResourceLimit what)) → select_context_with kept dockerfile fallback = outcome).
Proof.
  intros Hdf Hnew Hplain [Ho Hn Hd Hs] Hp Hq kept.
  destruct (new_pruner _ _ _ _ Hnew) as (ss & all & _ & _ & _ & _ & _ & Hprot & _).
  set (keep := λ e, bool_decide (entry_path e ∈ (wk_nodes w).*1)) in kept.
  assert (∀ e, e ∈ entries d → keep e = false →
    (∃ key, entry_path e = join key ∧ key ∈ visited ∧ join key ∉ (wk_nodes w).*1)
    ∨ ∃ dir, prunes pruner dir = Ok true ∧ beneath dir (entry_path e)) as Hcases.
  { intros e (key & n & Hk & ->)%elem_of_entries Hout. unfold keep in Hout. rewrite entry_path_node in *.
    apply bool_decide_eq_false in Hout. destruct (walk_complete d Hdisk pruner _ _ _ _ Hp Hq Hk)
      as [?|(dir & rest & -> & ? & ? & ?)]; [left; by exists key|right].
    destruct (disk_key d Hdisk _ _ Hk) as [_ [Hc1 Hc2]%Forall_app]. exists (join dir). split; [done|]. by apply beneath_join. }
  assert (∀ e, e ∈ entries d → keep e = false → entry_path e ∉ wp_protected pruner) as Hunprot.
  { intros e He Hout. destruct (Hcases e He Hout) as [(key & -> & Hv & Hno)|(dir & Hpr & Hb)]; [by apply Hd|].
    by apply (prunes_beneath pruner dir _ (new_pruner_plain _ _ _ _ Hnew Hplain) Hpr Hb). }
  destruct (dropping_keeps_policy keep _ _ _ _ _ Hdf Hnew Hunprot) as [Hdf' Hig]. split_and!; [done|done|].
  intros Hsel Hout. eapply (dropping_keeps_selection keep); [done|done| |done|done].
  intros e He Hk. destruct (Hcases e He Hk) as [(key & Heq & Hv & Hno)|(dir & Hpr & Hb)].
  - rewrite Heq. destruct (Hd key Hv Hno) as [? ?]. split_and!; [done|done|]. intros s Hin Hm.
    apply list_elem_of_lookup in Hin as [i Hi]. destruct (Forall2_lookup_l _ _ _ _ _ Hs Hi) as (b & _ & Hb & Hall).
    destruct (Hb (Hall key Hv Hm)) as (rel & Hrel & Hrm).
    apply list_elem_of_fmap in Hrel as ([r [path kind]] & Heq' & Hrel). cbn in Heq'. subst r.
    destruct (Hn _ _ _ Hrel) as (k' & n' & Hk' & -> & _). exists (node_entry k' n'). rewrite entry_path_node.
    split; [|done]. apply elem_of_filterb. split; [|apply elem_of_entries; eauto]. unfold keep.
    rewrite entry_path_node. apply bool_decide_eq_true, list_elem_of_fmap. by eexists (_, (_, _)).
  - eapply pruned_is_droppable; try done.
    apply file_elem in Hdf' as (e' & He' & _). by exists e'.
Qed.
Lemma kept_nodes pruner visited w :
  tracks d pruner visited w →
  Forall (on_disk d) (wk_nodes w)
  ∧ filterb (λ e, bool_decide (entry_path e ∈ (wk_nodes w).*1)) (entries d) = entry_of d <$> wk_nodes w.
Proof.
  intros [Ho Hn _ _].
  assert (Forall (on_disk d) (wk_nodes w)) as Hon.
  { apply Forall_forall. intros [rel [path kind]] Hin. destruct (Hn _ _ _ Hin) as (key & n & Hk & -> & -> & ->).
    by exists key, n. }
  split; [done|].
  assert (entry_path <$> (entry_of d <$> wk_nodes w) = (wk_nodes w).*1) as Hpaths.
  { rewrite <- list_fmap_compose. apply list_fmap_ext. intros i node _. unfold compose, entry_of. by repeat case_match. }
  apply path_sorted_eq; [apply path_sorted_filterb, entries_sorted|unfold path_sorted; by rewrite Hpaths|].
  intros e. rewrite elem_of_filterb, bool_decide_eq_true, elem_of_entries, (list_elem_of_fmap (entry_of d)). split.
  - intros [Hin (key & n & Hk & ->)]. rewrite entry_path_node in Hin.
    apply list_elem_of_fmap in Hin as (node & Heq & Hin). exists node. split; [|done].
    rewrite Forall_forall in Hon. destruct (Hon _ Hin) as (key' & n' & Hk' & ->). cbn in Heq.
    apply join_inj in Heq as <-; [|by eapply disk_key..]. rewrite Hk' in Hk. injection Hk as ->. by rewrite entry_of_node.
  - intros (node & -> & Hin). rewrite Forall_forall in Hon. destruct (Hon _ Hin) as (key & n & Hk & ->).
    rewrite entry_of_node by done. rewrite entry_path_node. split; [|by exists key, n].
    apply list_elem_of_fmap. by exists (join key, (at_path d key, node_kind n)).
Qed.
Lemma selector_bare node : on_disk d node → selector_entry node = bare (entry_of d node).
Proof. intros (key & n & Hk & ->). rewrite entry_of_node by done. by destruct n. Qed.
(** The walk as the collector starts it. *)
Definition at_root (pruner : WalkPruner) : Walk :=
  {| wk_nodes := []; wk_seen := replicate (length (wp_source_patterns pruner)) false; wk_selected := 0;
     wk_walked := 0; wk_pending := [(dk_root d, 0)] |}.
Lemma at_path_root : at_path d [] = dk_root d.
Proof. apply app_nil_r. Qed.
Lemma pending_root pruner : pending_ok d (at_root pruner).
Proof.
  intros path dp Hin. cbn in Hin. apply list_elem_of_singleton in Hin as [= -> ->]. exists [].
  rewrite at_path_root. split; [done|by left].
Qed.
Lemma walk_from_root fuel pruner w :
  eval (disk_answer d) (walk limits (dk_root d) fuel pruner (at_root pruner)) = Some (Ok w) →
  ∃ visited, tracks d pruner visited w ∧ progress d pruner visited w ∧ wk_pending w = [].
Proof.
  intros Hw. eapply (walk_tracks d limits pruner _ _ []) in Hw; [exact Hw|..|apply pending_root].
  - split; cbn; [constructor|by intros ??? ?%not_elem_of_nil|by intros ? ?%not_elem_of_nil|].
    apply Forall2_same_length_lookup_2; [by rewrite length_replicate|]. intros i s b Hs Hb.
    apply lookup_replicate in Hb as [-> _]. split; [done|]. by intros ? ?%not_elem_of_nil.
  - intros dir [->|[Hin _]]; [|by apply not_elem_of_nil in Hin]. right. left. exists 0. rewrite at_path_root. left.
Qed.
Lemma collect_selected_disk df present ignore l outcome :
  file (entries d) dockerfile = Some df → ignore = ignore_file (entries d) dockerfile →
  (∀ pruner, WalkPruner_new dockerfile df (pruner_ignore (entries d) dockerfile fallback) = Ok pruner →
     plain_patterns pruner) →
  eval (disk_answer d) (collect_selected limits (dk_root d) dockerfile df present ignore fallback) = Some (Ok l) →
  select_context_with (entries d) dockerfile fallback = outcome →
  (∀ what, outcome ≠ Err (ResourceLimit what)) → outcome = Ok l.
Proof.
  intros Hdf Hig Hplain Hc Hsel Hout. unfold collect_selected in Hc. cbn zeta in Hc.
  set (fb := if bool_decide (ignore = None) then fallback else None) in Hc.
  step Hc pruner Hpruner.
  assert (WalkPruner_new dockerfile df (pruner_ignore (entries d) dockerfile fallback) = Ok pruner) as Hnew.
  { unfold pruner_ignore. rewrite <- Hig. unfold fb in Hpruner. injection Hpruner as Hpruner.
    destruct (WalkPruner_new _ _ _) as [w|] eqn:Hw in Hpruner; [|done]. injection Hpruner as ->. rewrite <- Hw.
    by destruct ignore. }
  specialize (Hplain _ Hnew). step Hc w Hw. apply walk_from_root in Hw as (visited & Htracks & Hprog & Hq).
  destruct (walk_keeps_selection _ _ _ _ outcome Hdf Hnew Hplain Htracks Hprog Hq) as (Hkdf & Hkig & Hksel).
  destruct (kept_nodes _ _ _ Htracks) as [Hon Hkept].
  set (kept := filterb _ (entries d)) in Hkdf, Hkig, Hksel, Hkept.
  assert (path_sorted kept) as Hsorted by apply path_sorted_filterb, entries_sorted.
  assert (selector_entry <$> wk_nodes w = bare <$> kept) as Hbare.
  { rewrite Hkept, <- list_fmap_compose. apply list_fmap_ext. intros i node Hi%list_elem_of_lookup_2.
    rewrite Forall_forall in Hon. by apply selector_bare, Hon. }
  rewrite Hbare in Hc.
  destruct (selector_policy kept dockerfile df ignore) as (Hsp & Hsdf & Hsig);
    [by apply path_sorted_NoDup|done|by rewrite Hkig|].
  step Hc chosen Hchosen. injection Hchosen as Hchosen.
  destruct (select_context_with _ _ fb) as [chosen'|] eqn:Hch in Hchosen; [|done]. injection Hchosen as ->.
  eapply (select_context_paths _ kept dockerfile fb fallback) in Hch as (sel & Hselk & Hpaths);
    [|exact Hsp|by rewrite Hsdf|by rewrite Hsig, Hkig, <- Hig|].
  2: { rewrite Hsig. intros ->. done. }
  step Hc r1 Hr1. destruct (negb _); [done|]. step Hc r2 Hr2. destruct (negb _); [done|].
  apply read_entries_disk in Hc; [|done|done]. rewrite <- Hkept, Hpaths in Hc.
  rewrite <- (Hksel Hsel Hout), Hselk, Hc. f_equal. by eapply select_context_filter.
Qed.
(** The ignore file the collector reads is the one the selection uses. *)
Lemma ignore_read used ignore :
  plain_policy dockerfile →
  eval (disk_answer d)
    (match (if is_file_node (dk_nodes d !! parts_of (dockerfile +:+ ".dockerignore"))
            then Some (dockerfile +:+ ".dockerignore")
            else if is_file_node (dk_nodes d !! parts_of ".dockerignore") then Some ".dockerignore" else None) with
     | None => done None
     | Some n =>
         io! f := read_bounded (join_relative (dk_root d) n)
                    (Z.min (cl_max_file_bytes limits) (cl_max_total_bytes limits - used)) in
         done (Some (n, rf_bytes f))
     end) = Some (Ok ignore) →
  ignore = ignore_file (entries d) dockerfile.
Proof.
  intros [Hspec Hroot] Hr. unfold ignore_file. rewrite !file_entries. change (parts_of ".dockerignore") with [".dockerignore"] in *.
  destruct (dk_nodes d !! parts_of (dockerfile +:+ ".dockerignore")) as [[b x| | |]|] eqn:Hs; [|..|done|]; cbn [is_file_node] in Hr.
  1: { step Hr f Hf. apply read_bounded_disk in Hf. rewrite Hs in Hf. injection Hf as -> ->. by injection Hr as <-. }
  all: destruct (dk_nodes d !! [".dockerignore"]) as [[b x| | |]|] eqn:Ht; [|..|done|]; cbn [is_file_node] in Hr;
    [|by injection Hr as <-..]; step Hr f Hf; apply read_bounded_disk in Hf;
    change (parts_of ".dockerignore") with [".dockerignore"] in Hf; rewrite Ht in Hf; injection Hf as -> ->; by injection Hr as <-.
Qed.

Lemma collected_selection c outcome :
  plain_policy dockerfile →
  eval (disk_answer d) (collect_context_inner (dk_root d) (Some dockerfile) limits fallback) = Some (Ok c) →
  (∀ df pruner, file (entries d) dockerfile = Some df →
     WalkPruner_new dockerfile df (pruner_ignore (entries d) dockerfile fallback) = Ok pruner →
     plain_patterns pruner) →
  select_context_with (entries d) dockerfile fallback = outcome →
  (∀ what, outcome ≠ Err (ResourceLimit what)) →
  outcome = Ok (co_entries c).
Proof.
  intros Hpol Hc Hplain Hsel Hout. unfold collect_context_inner in Hc.
  step Hc root Hroot. assert (root = dk_root d) as ->.
  { cbn in Hroot. destruct (bool_decide _); [|done]. by injection Hroot as <-. }
  step Hc initial Hinitial. step Hc provenance Hprov. step Hc m Hm. destruct (negb _); [done|].
  destruct (negb _); [done|]. step Hc docker Hdocker. apply read_bounded_disk in Hdocker.
  step Hc present Hpresent. rewrite regular_disk in Hpresent. injection Hpresent as <-.
  step Hc specific Hspecific. rewrite regular_disk in Hspecific. injection Hspecific as <-.
  cbn zeta in Hc. destruct (_ <? _); [done|]. step Hc ignore Hignore. apply ignore_read in Hignore; [|done].
  step Hc l Hl. step Hc root_now Hroot_now. destruct (negb _); [done|].
  step Hc identity_now Hidentity. destruct (negb _); [done|]. injection Hc as <-.
  assert (file (entries d) dockerfile = Some (rf_bytes docker)) as Hdf by by rewrite file_entries, Hdocker.
  eapply collect_selected_disk; [exact Hdf|exact Hignore|by intros; eapply Hplain|exact Hl|done|done].
Qed.

(** ** A tree that does not change is not reported as changed *)

Definition spares {A} (p : col_prog A) : Prop := eval (disk_answer d) p ≠ Some (Err Mutation).
Lemma spares_bind {A B} (p : col_prog A) (f : A → col_prog B) :
  spares p → (∀ a, eval (disk_answer d) p = Some (Ok a) → spares (f a)) → spares (bind_col p f).
Proof.
  unfold spares, bind_col. intros Hp Hf. rewrite eval_bind. destruct (eval _ p) as [[a|e]|]; [by apply Hf| |done].
  cbn. congruence.
Qed.
Lemma spares_io {A} (r : result IoError A) : spares (lift (io_result r)).
Proof. by destruct r. Qed.
Lemma spares_regular p : spares (regular (dk_root d) p).
Proof. unfold spares. by rewrite regular_disk. Qed.
Lemma docker_not_mutation {A} (r : result DockerfileError A) : docker_result r ≠ Err Mutation.
Proof. by destruct r. Qed.
Lemma refuse_not_mutation b e : e ≠ Mutation → refuse b e ≠ Err Mutation.
Proof. intros He. destruct b; cbn; congruence. Qed.
Lemma label_not_mutation p : label p ≠ Err Mutation.
Proof.
  unfold label. assert (∀ whole, label_parts whole p ≠ Err Mutation) as Hl.
  { intros whole. induction p as [|[c|c] p IH]; [done| |done]. cbn. destruct (negb (is_utf8 c)); [done|].
    destruct (negb (all_bytes _ _)); [done|]. cbn.
    destruct (label_parts whole p); [done|congruence]. }
  specialize (Hl p). destruct (label_parts p p); [by case_match|congruence].
Qed.
Lemma visit_not_mutation pruner depth w key n :
  visit limits (dk_root d) pruner depth w (at_path d key, node_kind n) ≠ Err Mutation.
Proof.
  unfold visit. rewrite at_path_names. cbn [ok_or]. destruct (refuse _ _) eqn:E;
    [|intros [= ->]; by apply (refuse_not_mutation _ _) in E].
  destruct (label _) eqn:El; [|intros [= ->]; by apply label_not_mutation in El].
  destruct (refuse (negb (relative _)) _) eqn:E1; [|intros [= ->]; by apply (refuse_not_mutation _ _) in E1].
  destruct (refuse (_ <? str_len _) _) eqn:E2; [|intros [= ->]; by apply (refuse_not_mutation _ _) in E2].
  destruct (docker_result (classify _ _ _)) as [[[sel retain] seen]|] eqn:E3;
    [|intros [= ->]; by apply docker_not_mutation in E3].
  destruct (refuse (sel && _) _) eqn:E4; [|intros [= ->]; by apply (refuse_not_mutation _ _) in E4].
  destruct (if retain then _ else _) eqn:E5.
  2: { intros [= ->]. destruct retain; [|done]. by destruct (bool_decide _). }
  destruct (if node_kind n ==? KindDirectory then _ else _) eqn:E6; [done|]. intros [= ->]. revert E6.
  destruct (node_kind n ==? KindDirectory); [|done].
  destruct (docker_result (prunes _ _)) as [[]|] eqn:E7; [done| |].
  - destruct (checked_add depth 1) as [deeper|]; [|done]. cbn [ok_or]. by destruct (cl_max_depth limits <? deeper).
  - intros [= ->]. by apply docker_not_mutation in E7.
Qed.
Lemma visit_all_not_mutation pruner depth w (l : list (list string * Node)) :
  visit_all limits (dk_root d) pruner depth w ((λ kn, (at_path d kn.1, node_kind kn.2)) <$> l) ≠ Err Mutation.
Proof.
  revert w. induction l as [|kn l IH]; intros w; [done|]. rewrite fmap_cons. cbn [visit_all].
  pose proof (visit_not_mutation pruner depth w kn.1 kn.2) as Hv. destruct (visit _ _ _ _ _ _); [apply IH|]. congruence.
Qed.
Lemma walk_spares fuel pruner w : pending_ok d w → spares (walk limits (dk_root d) fuel pruner w).
Proof.
  revert w. induction fuel as [|fuel IH]; intros w Hw; [done|]. cbn [walk].
  destruct (wk_pending w) as [|[path depth] pending] eqn:Hq; [done|].
  destruct (Hw path depth) as (dir & -> & Hdir); [rewrite Hq; left|].
  apply spares_bind; [unfold spares; by rewrite read_directory_disk|]. rewrite read_directory_disk by done.
  intros found [= <-]. cbn [fst snd]. apply spares_bind.
  - unfold spares. cbn. intros [= Hv]. by apply visit_all_not_mutation in Hv.
  - intros w1 [= Hv]. apply IH. eapply visit_all_pending; [..|exact Hv].
    + apply Forall_forall. intros [key n] Hin. by apply elem_of_children in Hin as [? _].
    + intros p dp Hin. apply (Hw p dp). rewrite Hq. by right.
Qed.
Definition policy_ok (policy : list (string * string)) : Prop :=
  ∀ p o, tree_get p policy = Some o → ∃ x, dk_nodes d !! parts_of p = Some (FileNode o x).
Lemma read_entry_spares policy total node :
  policy_ok policy → on_disk d node → spares (read_entry limits policy total node).
Proof.
  intros Hpol (key & n & Hk & ->). destruct (disk_key d Hdisk _ _ Hk) as [Hne Hcs]. unfold read_entry.
  assert (∀ a, eval (disk_answer d) (metadata (at_path d key)) = Some (Ok a) → md_kind a = node_kind n) as Hmeta.
  { intros a Ha. cbn in Ha. rewrite node_at_path, Hk in Ha by done. by injection Ha as <-. }
  apply spares_bind; [apply spares_io|]. intros m Hm%Hmeta. rewrite Hm, bool_decide_eq_true_2 by done. cbn [negb].
  destruct n as [bytes x| |target|]; cbn [node_kind]; [|done| |done].
  - apply spares_bind; [apply spares_io|]. intros m2 _. repeat (case_match; [done|]).
    apply spares_bind; [apply spares_io|]. intros f Hf. cbn in Hf. rewrite node_at_path, Hk in Hf by done.
    destruct (_ <? str_len bytes) in Hf; [done|]. injection Hf as <-. cbn [rf_bytes].
    assert (is_some_and (tree_get (join key) policy) (λ original, negb (bytes ==? original)) = false) as ->.
    { destruct (tree_get _ policy) as [o|] eqn:Ho; [|done]. apply Hpol in Ho as [y Ho].
      rewrite parts_join, Hk in Ho by done. injection Ho as <- <-. cbn. by rewrite bool_decide_eq_true_2. }
    destruct (checked_add _ _); [by case_match|done].
  - apply spares_bind; [apply spares_io|]. intros t _. by case_match.
Qed.
Lemma read_entries_spares policy selected total nodes :
  policy_ok policy → Forall (on_disk d) nodes → spares (read_entries limits policy selected total nodes).
Proof.
  intros Hpol Hn. revert total. induction Hn as [|node nodes Hnode _ IH]; intros total; [done|]. cbn [read_entries].
  destruct (bool_decide _); [|apply IH]. apply spares_bind; [by apply read_entry_spares|]. intros et _.
  by apply spares_bind; [apply IH|].
Qed.
Lemma policy_of_disk df ignore x :
  dk_nodes d !! parts_of dockerfile = Some (FileNode df x) →
  (∀ name b, ignore = Some (name, b) → ∃ y, dk_nodes d !! parts_of name = Some (FileNode b y)) →
  policy_ok (collect ((dockerfile, df) :: match ignore with Some i => [i] | None => [] end)).
Proof.
  intros Hdf Hig p o. destruct ignore as [[name b]|]; unfold collect; cbn [foldl fst snd];
    rewrite !tree_get_insert; cbn [tree_get].
  - destruct (Hig name b eq_refl) as [y Hy]. repeat case_bool_decide; intros [= <-]; subst; eauto.
  - case_bool_decide; intros [= <-]; subst; eauto.
Qed.
Lemma specific_in_use :
  plain_policy dockerfile →
  is_file_node (dk_nodes d !! parts_of (dockerfile +:+ ".dockerignore"))
  = bool_decide (fst <$> ignore_file (entries d) dockerfile = Some (dockerfile +:+ ".dockerignore")).
Proof.
  intros [Hspec _]. unfold ignore_file. rewrite !file_entries.
  destruct (dk_nodes d !! parts_of (dockerfile +:+ ".dockerignore")) as [[]|] eqn:Es; cbn [is_file_node]; [|..|done|];
    symmetry; [by apply bool_decide_eq_true_2|..]; apply bool_decide_eq_false_2;
    (destruct (dk_nodes d !! parts_of ".dockerignore") as [[]|] eqn:Er; cbn; try done; intros [= Heq];
     rewrite Heq in Er; congruence).
Qed.
Lemma ignore_on_disk name b :
  plain_policy dockerfile → ignore_file (entries d) dockerfile = Some (name, b) →
  ∃ x, dk_nodes d !! parts_of name = Some (FileNode b x).
Proof.
  intros [Hspec Hroot] Hi. unfold ignore_file in Hi. rewrite !file_entries in Hi.
  change (parts_of ".dockerignore") with [".dockerignore"] in Hi.
  destruct (dk_nodes d !! parts_of (dockerfile +:+ ".dockerignore")) as [[]|] eqn:Es; try done;
    try (injection Hi as <- <-; by eauto);
    destruct (dk_nodes d !! [".dockerignore"]) as [[]|] eqn:Er; try done; injection Hi as <- <-; eauto.
Qed.
Lemma collect_selected_spares df x ignore :
  plain_policy dockerfile → dk_nodes d !! parts_of dockerfile = Some (FileNode df x) →
  ignore = ignore_file (entries d) dockerfile →
  spares (collect_selected limits (dk_root d) dockerfile df
            (is_file_node (dk_nodes d !! parts_of ".dockerignore")) ignore fallback).
Proof.
  intros Hpol Hdf Hig. unfold collect_selected. cbn zeta.
  apply spares_bind; [unfold spares; cbn; intros [= E]; by apply docker_not_mutation in E|]. intros pruner _.
  apply spares_bind; [apply walk_spares, pending_root|]. intros w Hw.
  apply walk_from_root in Hw as (visited & Htracks & _ & _). apply kept_nodes in Htracks as [Hon _].
  apply spares_bind; [unfold spares; cbn; intros [= E]; by apply docker_not_mutation in E|]. intros chosen _.
  apply spares_bind; [apply spares_regular|]. intros now Hnow. rewrite regular_disk in Hnow. injection Hnow as <-.
  rewrite specific_in_use, <- Hig by done.
  rewrite bool_decide_eq_true_2 by done. cbn [negb].
  apply spares_bind; [apply spares_regular|]. intros now Hnow. rewrite regular_disk in Hnow. injection Hnow as <-.
  rewrite bool_decide_eq_true_2 by done. cbn [negb]. apply read_entries_spares; [|done].
  eapply policy_of_disk; [done|]. intros name b Hi. eapply ignore_on_disk; [done|congruence].
Qed.
Lemma collect_spares :
  plain_policy dockerfile → spares (collect_context_inner (dk_root d) (Some dockerfile) limits fallback).
Proof.
  intros Hpol. unfold collect_context_inner. apply spares_bind; [apply spares_io|]. intros root Hroot.
  assert (root = dk_root d ∧ is_Some (node_at d (dk_root d))) as [-> Hnode].
  { cbn in Hroot. case_bool_decide; [|done]. by injection Hroot as <-. }
  apply spares_bind; [apply spares_io|]. intros initial Hinitial.
  apply spares_bind; [unfold spares; cbn; by destruct (path_to_str _)|]. intros provenance _.
  apply spares_bind; [apply spares_io|]. intros m _. destruct (negb _); [done|]. destruct (negb _); [done|].
  apply spares_bind; [apply spares_io|]. intros docker Hdocker%read_bounded_disk.
  apply spares_bind; [apply spares_regular|]. rewrite regular_disk. intros present [= <-].
  apply spares_bind; [apply spares_regular|]. rewrite regular_disk. intros specific [= <-].
  cbn zeta. case_match; [done|]. apply spares_bind.
  { destruct (if is_file_node _ then _ else _); [|done]. by apply spares_bind; [apply spares_io|]. }
  intros ignore Hignore. apply ignore_read in Hignore; [|done].
  apply spares_bind; [by eapply collect_selected_spares|]. intros l _.
  apply spares_bind; [apply spares_io|]. intros root_now Hnow. rewrite Hroot in Hnow. injection Hnow as <-.
  rewrite bool_decide_eq_true_2 by done. cbn [negb].
  apply spares_bind; [apply spares_io|]. intros identity_now Hnow. rewrite Hinitial in Hnow. injection Hnow as <-.
  by rewrite bool_decide_eq_true_2.
Qed.

(** C32. On a file system that does not change, collecting a context ends and never reports a change,
    and a context it returns holds exactly the entries that [select_context] chooses from the
    whole tree with every file read: walking with pruned directories, keeping only what may be
    needed and reading only what was selected lose and add nothing. Left out are the patterns the
    pruner misreads (classes that span a slash and parent parts in negated rules), whole-tree
    selections beyond the matcher's limits, and ignore files that are special files. *)
Theorem collection_is_the_selection outcome :
  cl_max_walked_entries limits < u64_max → 0 ≤ cl_max_total_bytes limits →
  plain_policy dockerfile →
  (∀ df pruner, file (entries d) dockerfile = Some df →
     WalkPruner_new dockerfile df (pruner_ignore (entries d) dockerfile fallback) = Ok pruner →
     plain_patterns pruner) →
  select_context_with (entries d) dockerfile fallback = outcome →
  (∀ what, outcome ≠ Err (ResourceLimit what)) →
  ∃ r, (run (@existT fs_call fs_answer) (λ _, disk_answer d)
          (collect_context_inner (dk_root d) (Some dockerfile) limits fallback) []).1 = Some r
    ∧ match r with Ok c => outcome = Ok (co_entries c) | Err e => e ≠ Mutation end.
Proof.
  intros Hmax Htotal Hpol Hplain Hsel Hout.
  destruct (yields_run _ _ (λ _, disk_answer d) []
    (collect_yields limits Hmax Htotal (dk_root d) (Some dockerfile) fallback)) as (r & Hr & _).
  exists r. split; [done|]. rewrite run_eval in Hr. destruct r as [c|e]; [by eapply collected_selection|].
  intros ->. by apply collect_spares in Hr.
Qed.
End whole.

(** ** An example *)

#[local] Existing Instance no_json.
Definition rust_rules : option string := Some (rules IgnoreRust).
(** What was collected of the Rust workspace is the selection of its whole tree. *)
Lemma collection_is_the_selection_witness :
  (run (@existT fs_call fs_answer) (λ _, disk_answer rust_disk)
     (collect_context_inner [Normal "work"] (Some "Dockerfile") CollectorLimits_default rust_rules) []).1
    = Some (Ok rust_context)
  ∧ select_context_with (entries rust_disk) "Dockerfile" rust_rules = Ok (co_entries rust_context).
Proof.
  assert ((run (@existT fs_call fs_answer) (λ _, disk_answer rust_disk)
     (collect_context_inner [Normal "work"] (Some "Dockerfile") CollectorLimits_default rust_rules) []).1
    = Some (Ok rust_context)) as Hrun by (vm_compute; reflexivity).
  split; [exact Hrun|].
  assert (disk_ok rust_disk) as Hok by (unfold disk_ok; apply (bool_decide_eq_true_1 _); vm_compute; reflexivity).
  edestruct (collection_is_the_selection rust_disk Hok CollectorLimits_default "Dockerfile" rust_rules) as (r & Hr & Hsel);
    [..|change (dk_root rust_disk) with [Normal "work"] in Hr; rewrite Hrun in Hr; injection Hr as <-; exact Hsel].
  - by vm_compute.
  - by vm_compute.
  - split; by vm_compute.
  - intros df pruner Hdf Hp. vm_compute in Hdf. injection Hdf as <-. vm_compute in Hp. injection Hp as <-.
    split; by repeat constructor.
  - reflexivity.
  - intros what. by vm_compute.
Defined.
